(* ===== verification/_CoqProject ===== *)
-Q . S2P
Prelude.v
Sampling.v
SpecDecode.v
SpecDecodeProps.v
EvalMetrics.v
Markov.v
Anchors.v
MySpecModel.v
Confidence.v
Metrics.v
MySpecLoss.v
DraftOps.v
RadixKey.v
AllocExtend.v
Allocator.v
RadixTree.v
RadixInv.v
RadixSplit.v
RadixMatch.v
RadixInsert.v
RadixLock.v
RadixEvict.v
RadixProps.v
RadixClient.v
RadixTrace.v
RadixSize.v
TargetCodec.v
TargetCache.v
TargetWrite.v
TargetMerge.v
TargetDataset.v
TargetProps.v
TargetAsync.v
TensorOps.v
StableSort.v
RaggedVerify.v
RaggedProps.v
DSparkSchedule.v
DSparkTopk.v
DSparkOptimal.v
DSparkSps.v
DSparkBudget.v
DSparkPlanner.v
DSparkLayout.v
DSparkReplay.v
AdaptiveSpec.v
AdaptiveControl.v
GreedyAccept.v
RealLaw.v
LatentSampler.v
RejectKernel.v
LatentAccept.v
ExactLaw.v
LatentServe.v
ExtendAttention.v
LatentStage.v
DraftLayers.v
LatentModel.v
LatentRows.v
LatentAttention.v
LatentLayers.v
LatentForward.v
LatentLoad.v
LatentNames.v
LatentTensors.v
LatentLayerLoad.v
LatentCheckpoint.v
LatentLoaded.v
LatentDraft.v
DraftContext.v
DraftRounds.v
DraftStore.v
DraftAppend.v
DraftSession.v
JsonLines.v
TargetSource.v
TargetSourceProps.v
TrainSampler.v
TrainLoop.v
TrainResume.v
