(* ===== verification/Prelude.v ===== *)
(** * LatentSpec: a verification library for the speculative-decoding stack

    The repository trains draft models for speculative decoding ([DeepSpec]) and serves them with a
    fork of SGLang ([sglang]). This library models, as executable functions on pure data, the parts
    of both that decide which tokens come out, what the drafts are trained on, how a draft is served
    and who owns which slot of the KV cache, and proves them correct. Paths below are relative to
    [src/]; [D] is [DeepSpec/deepspec], [S] is [sglang/python/sglang/srt] and [K] is
    [sglang/python/sglang/kernels/ops].

    ** The parts and their files

    - Preparing training data. [JsonLines] ([D/data/jsonl_dataset.py]) finds the lines of the source
      files; [TargetSource] (the collators of [D/data/target_cache_dataset.py] and the loop of
      [DeepSpec/scripts/data/prepare_target_cache.py]) turns each rank's range of them into samples
      with the target model's hidden states; [TargetAsync] is the writer thread with its queue;
      [TargetCodec] and [TargetCache] are the bytes on disk, the writer, the merging of the ranks
      and [CacheDataset]. [TargetWrite], [TargetMerge], [TargetDataset], [TargetProps] and
      [TargetSourceProps] hold the proofs, one per stage.
    - Training. [TrainSampler] (schedule of [D/trainer/base_trainer.py], resumable sampler of
      [D/utils/distributed.py]) says which sample is seen when; [TrainLoop] ([base_trainer.py],
      [D/trainer/ckpt_manager.py], [D/data/cuda_prefetcher.py]) is the loop with its checkpoints and
      sessions; [TrainResume] its proof. One micro-step runs the draft model of [Anchors] and
      [MySpecModel] ([D/modeling/myspec/common.py], [qwen3/modeling.py]), whose layers are
      [DraftLayers] ([qwen3/latent_layer.py], [mask_layer.py]), with a head of [Markov]
      ([markov_head.py]) under the loss of [MySpecLoss] ([loss.py]); [Metrics]
      ([D/utils/metrics.py]) buffers what is logged.
    - Evaluating. [Sampling] ([D/utils/sampling.py]) and [SpecDecode] ([D/eval/base_evaluator.py])
      are the decoding loop over any draft algorithm; [SpecDecodeProps] its proofs; [DraftOps]
      ([D/eval/myspec/draft_ops.py], [evaluator.py]) is the MySpec draft algorithm and discharges
      the loop's interface; [EvalMetrics] and [Confidence] ([confidence_head.py]) are the statistics
      over the runs.
    - Serving, the draft forward. [LatentLoad] ([load_weights] of [S/models/latentspec.py], the
      loaders of [S/layers/linear.py] and [S/model_loader/weight_utils.py]) reads a checkpoint;
      [LatentModel] ([latentspec.py], [S/models/dflash.py], [S/layers/layernorm.py],
      [S/layers/rotary_embedding], [S/layers/activation.py], [S/mem_cache/memory_pool.py]) is the
      two-stage forward; [LatentStage] ([S/layers/attention/triton_backend.py],
      [K/kvcache/kv_indices.py]) the attention metadata of its stages and [ExtendAttention]
      ([K/attention/extend_attention.py]) the kernel that attends. [LatentNames], [LatentTensors],
      [LatentLayerLoad], [LatentCheckpoint] and [LatentLoaded] hold the proofs about loading;
      [LatentRows], [LatentAttention], [LatentLayers] and [LatentForward] compare one token, one
      attention, one layer and the whole forward with [DraftLayers]; [LatentDraft] composes both.
    - Serving, the draft's context. [DraftContext] ([S/speculative/dflash_worker_v2.py],
      [S/mem_cache/memory_pool.py], [K/kvcache/cache_move.py],
      [K/speculative/fused_kv_materialize.py]) appends the target's hidden rows to the draft's pool,
      layer by layer or fused; [DraftRounds] ([dflash_worker_v2.py], [K/speculative/dflash.py],
      [K/speculative/cache_locs.py], [S/model_executor/forward_batch_info.py],
      [K/attention/position.py]) is what the worker does around the draft in a prefill and in a
      decode iteration. [DraftStore] and [DraftAppend] prove the prefix writes, the fused kernel,
      the appends and the block's preparation; [DraftSession] composes them with [LatentDraft] over
      whole sessions.
    - Serving, one speculative step. [LatentSampler] ([S/speculative/dflash_utils.py]) draws the
      proposals on the device; [GreedyAccept] ([dflash_utils.py], [K/speculative/dflash.py]) and
      [RejectKernel], [LatentAccept] ([K/speculative/reject_sampling.py],
      [K/speculative/dspark/dspark_accept.py]) verify them; [LatentServe]
      ([S/speculative/dflash_worker_v2.py]) composes the step. [RealLaw] is the law of a function of
      uniform draws and [ExactLaw] the law of what rejection sampling emits.
    - Serving, how much to verify. [RaggedVerify] ([S/speculative/ragged_verify.py] and its kernels)
      are the layouts of verified tokens; [DSparkSchedule] the top-k choice of the tokens in torch
      and Triton ([K/speculative/dspark/dspark_schedule.py]); [DSparkSps] and [DSparkBudget] the
      cost tables and the token budget ([dspark_sps.py], [dspark_planner.py] of
      [S/speculative/dspark_components]); [DSparkPlanner] the planner, the worker's layouts and the
      ragged part of [S/model_executor/runner/decode_cuda_graph_runner.py]. [RaggedProps],
      [DSparkTopk], [DSparkOptimal], [DSparkLayout] and [DSparkReplay] hold proofs; [TensorOps] and
      [StableSort] what the kernels and [torch.argsort] mean. [AdaptiveSpec]
      ([S/speculative/adaptive_spec_params.py], [adaptive_runtime_state.py]) chooses the number of
      drafts from the acceptance seen; [AdaptiveControl] its proofs.
    - Serving, the KV cache. [RadixKey], [RadixTree] and [RadixClient]
      ([S/mem_cache/radix_cache.py], [evict_policy.py], [utils.py], the request fields of
      [S/managers/schedule_batch.py]) are the prefix cache and its two request operations;
      [RadixInv] its invariant; [RadixSplit], [RadixMatch], [RadixInsert], [RadixLock], [RadixEvict]
      and [RadixSize] one operation each; [RadixProps] the promises to a client, [RadixTrace] whole
      sessions. [AllocExtend] ([K/memory/allocator.py]) and [Allocator]
      ([S/mem_cache/allocator/base.py], [token.py], [paged.py]) hand out the KV slots that the cache
      stores and gives back.

    ** How they interact

    Prepared samples are the dataset that [TrainSampler] indexes; the masks of training ([Anchors])
    are the attention that decoding computes with ([DraftOps]). What training leaves, a checkpoint
    of [DraftLayers], is what [LatentLoad] reads and [LatentModel] runs; its logits feed the step of
    [LatentServe]. The lengths the schedule chooses become a layout, the layout a graph to replay
    ([DSparkReplay]). The interfaces are type classes and records with laws: [TorchRandom],
    [CausalTarget], [DraftAlgorithm] with [DraftContract] (the loop against any draft), [TorchInt],
    [TorchArgsort] (sorting and unique), [HeapQ] and the eviction strategies (the cache against any
    priority queue), [AdaptiveSpecWorker] (the controller against any worker), [BFloat16],
    [DataLoader], [RandPerm], [BatchLoader], [TorchLinear], [Transformers] and [DynamicCache] with
    their laws (the draft against torch and transformers). A theorem over an interface has a witness
    with an instance.

    ** What the theorems show

    - Decoding. Greedy speculative decoding returns exactly the target model's own text (C1), for
      the MySpec evaluator too (C28); speculative sampling emits the target's distribution (C2). The
      statistics reduced over the ranks are those of the whole run (C20), the metrics row's rates
      are in their bounds (C21) and the AUROC is the Mann-Whitney statistic (C26). The heads'
      teacher-forced and autoregressive forms agree (C22), training masks are what decoding attends
      to (C27).
    - Serving the draft. The extend kernel stores the softmax average over the visible keys whatever
      its blocks and order of programs (C4). From a checkpoint's entries in any order to the hidden
      rows of a batch, the served draft computes what was trained, and leaves the context of both as
      the next call expects it (C5). Over a prefill and any number of iterations, whatever the
      target commits, the worker hands the draft the context it was trained with, so every iteration
      computes what the trained draft would (C6).
    - Serving a step. A LatentSpec step, from draft logits to committed tokens, leaves the target's
      distribution over sequences unchanged for every request of a batch (C3); the two device
      samplers invert the cumulative distribution (C13); the three greedy acceptance paths agree
      (C16). The schedule's choice is optimal for its budget (C8), its Triton and torch forms agree
      (C15), the budget maximises the modelled throughput (C14), every layout it makes replays on a
      captured graph (C7), and all ranks of a data-parallel group choose the same graph (C19). The
      adaptive controller always finds the state it switches to (C17) and its updates end (C18).
    - Target cache. Writing on all ranks, merging and reading back is the identity on samples (C9);
      the asynchronous writer loses nothing under any interleaving and any failing write (C11) and
      never deadlocks (C12); the samples do not depend on the number of ranks or the batch size
      (C32).
    - Training. A job cut into sessions that are suspended or killed anywhere ends in the state of
      the uninterrupted run (C10). Anchors and masks of a batch are right (C23, C24, C25); the loss
      means what its name says, and on several ranks it is the loss of one process (C34, C35); the
      flush of metrics raises exactly when it should (C33).
    - KV cache. Keys match by their longest common prefix (C29). On every consistent cache lookup,
      insertion and eviction do not raise, do what they promise and keep the invariant (C36, C37,
      C38), and so in every session (C39); a finished request leaks no slot and frees none twice
      (C40). The allocators conserve pages (C31) and give the right slots (C30).

    ** Errors, bounds and fuel

    Fallible code returns [result]; an exception is a [py_exn]. A loop that is not structural takes
    fuel and raises [OutOfFuel] without it; no theorem assumes a result, each proves it, so its fuel
    is enough: key walks use one more than the key's length (each turn consumes a page), walks of
    the tree one more than the number of nodes, [scan_lines] one more than the size of the file
    (each line has a byte), [evict_shards] one more than the shards open, the sampler twice the
    samples to yield (an empty rest is followed by a full epoch), decoding one step per token, the
    verification kernels one more than the number of slots, the loops of an adaptive slot one more
    than its candidates. Integers of a file have their width ([TargetCodec]: out of range raises,
    tensors wrap), verify lengths wrap at 32 bits where the code casts; other integers are
    unbounded, natural where the code keeps them so.

    ** Idealisations

    Floats are exact rationals, in the serving sampler and the draft layers exact reals (so those
    files rest on the axioms of the Standard Library's reals); there a masked score is [None] and
    [bfloat16] a flag that selects a kernel. Tensors are lists, one batch row at a time where the
    code is row-wise; networks, the evaluator's softmax and exponentials, random sources, sorting,
    the clock, [heapq], [torch.randperm], and in the draft layers the linear map of torch and the
    norm, MLP, rotary embedding, attention function and cache of [transformers] are parameters, with
    their documented behaviour as laws where a theorem needs it; the contents of [torch.empty] are
    arbitrary. The KV cache of the evaluator is the list of what was written. A collective operation
    takes the values of all ranks; ranks are in step, and what a rank receives from rank 0 of its
    tensor-parallel group is what it computed; the draft runs on one rank. A kernel's programs run
    in any order, and atomic additions land in any order, given as an argument; a masked lane loads
    its default, and a load past the end of the free pages reads 0. A cell of the draft's pool is
    one number, the item size of its type says how many fit in a tile of a copy. A weight loader
    copies between equal shapes: [copy_] does not broadcast here. Files are byte lists under
    symbolic names, JSON files the values they encode, a mapped file its bytes. The hooked modules
    of a target model depend on the unpadded tokens only ([causal]). A checkpoint of training is
    written as a whole, is looked for where it was saved, and restores what it saved; host random
    generators, from which no training step draws, are left out. The invariant of the cache has two
    ghost maps, the path [P] of every node and the holders [H] of its locks.

    ** Not modelled

    The other attention and matrix kernels, the one-stage kernel of deterministic inference,
    quantised pools and loaders, the target model, process groups, HTTP, sockets and the gateway:
    numerical or external code. Printing, plots, tensorboard, KV events and cache metrics (off by
    default): output only. Left out although they could be modelled: the compact window of the
    draft's cache, the confidence relay, the learning-rate schedulers and chat parser of DeepSpec,
    the schedule policies of SGLang, the buffer and hierarchical caches, the DSpark and Eagle3
    drafts, which are near copies of or alternatives to the MySpec files. *)

From Stdlib Require Export ZArith Lia QArith Qminmax Lqa.
From stdpp Require Export base tactics list gmap strings fin_maps sorting.


(** ** Python exceptions and the error monad *)

Inductive py_exn : Type :=
  | ValueError
  | AssertionError
  | IndexError
  | KeyError
  | TypeError
  | AttributeError
  | StructError
  | OSError
  | ZeroDivisionError
  | RuntimeError
  | NotImplementedError
  | OutOfFuel.

#[export] Instance py_exn_eq_dec : EqDecision py_exn.
Proof. solve_decision. Defined.

Inductive result (A : Type) : Type :=
  | Ok (a : A)
  | Raise (e : py_exn).
Arguments Ok {A} a.
Arguments Raise {A} e.

#[export] Instance result_ret : MRet result := fun A a => Ok a.
#[export] Instance result_bind : MBind result :=
  fun A B f m => match m with Ok a => f a | Raise e => Raise e end.
#[export] Instance result_fmap : FMap result :=
  fun A B f m => match m with Ok a => Ok (f a) | Raise e => Raise e end.

(** [assert b] and [if not b: raise e] of Python. *)
Definition py_check (e : py_exn) (b : bool) : result unit :=
  if b then Ok tt else Raise e.
Definition py_assert (b : bool) : result unit := py_check AssertionError b.

Definition is_ok {A} (m : result A) : bool :=
  match m with Ok _ => true | Raise _ => false end.

Lemma result_bind_Ok {A B} (m : result A) (f : A → result B) b :
  (m ≫= f) = Ok b ↔ ∃ a, m = Ok a ∧ f a = Ok b.
Proof. destruct m; cbn; naive_solver. Qed.

Lemma py_check_Ok e b u : py_check e b = Ok u ↔ b = true.
Proof. destruct b, u; cbn; naive_solver. Qed.

Lemma py_check_true e b : b = true → py_check e b = Ok tt.
Proof. by intros ->. Qed.
Lemma py_assert_true b : b = true → py_assert b = Ok tt.
Proof. by intros ->. Qed.

(** ** Python slices [l[a:b]] with non-negative bounds *)

Declare Scope py_scope.
Delimit Scope py_scope with py.

Definition py_slice {A} (a b : nat) (l : list A) : list A := take (b - a) (drop a l).
Notation "l .[ a , b ]" := (py_slice a b l)
  (at level 1, left associativity, a at level 200, b at level 200, format "l .[ a ,  b ]") : py_scope.
Open Scope py_scope.

(** [l[a:a+len(src)] = src] for a tensor row: the shapes must agree. *)
Definition slice_assign {A} (a : nat) (src l : list A) : result (list A) :=
  if a + length src <=? length l
  then Ok (take a l ++ src ++ drop (a + length src) l)
  else Raise RuntimeError.

Section slices.
Context {A : Type}.
Implicit Types (l src : list A) (a b c i : nat).

Lemma py_slice_0 b l : l.[0, b] = take b l.
Proof. unfold py_slice. by rewrite Nat.sub_0_r, drop_0. Qed.

Lemma length_py_slice a b l :
  length (l.[a, b]) = Nat.min (b - a) (length l - a).
Proof. unfold py_slice. by rewrite length_take, length_drop. Qed.

Lemma lookup_py_slice a b l i : i < b - a → l.[a, b] !! i = l !! (a + i).
Proof. intros. unfold py_slice. rewrite lookup_take_lt by lia. by rewrite lookup_drop. Qed.

Lemma py_slice_full a b l : a = 0 → length l ≤ b → l.[a, b] = l.
Proof. intros -> ?. rewrite py_slice_0. by apply take_ge. Qed.

Lemma py_slice_nil a b l : b ≤ a → l.[a, b] = [].
Proof. intros. unfold py_slice. by replace (b - a) with 0 by lia. Qed.

Lemma take_py_slice a b l : a ≤ b → take a l ++ l.[a, b] = take b l.
Proof.
  intros. unfold py_slice. rewrite take_drop_commute.
  replace (a + (b - a)) with b by lia.
  rewrite <- (take_drop a (take b l)) at 2. by rewrite take_take, Nat.min_l by lia.
Qed.

Lemma py_slice_alt a b l : l.[a, b] = drop a (take b l).
Proof. unfold py_slice. by rewrite skipn_firstn_comm. Qed.

Lemma take_S_insert i x l : i < length l → take (S i) (<[i:=x]> l) = take i l ++ [x].
Proof.
  intros. rewrite (take_S_r _ _ x) by (by apply list_lookup_insert_eq).
  by rewrite take_insert_ge by lia.
Qed.

Lemma slice_assign_ok a src l :
  a + length src ≤ length l →
  slice_assign a src l = Ok (take a l ++ src ++ drop (a + length src) l).
Proof. intros H. unfold slice_assign. apply Nat.leb_le in H. by rewrite H. Qed.

Lemma length_slice_assign a src l l' :
  slice_assign a src l = Ok l' → length l' = length l.
Proof.
  unfold slice_assign. destruct (_ <=? _) eqn:E; [|done].
  apply Nat.leb_le in E. intros [= <-].
  rewrite !length_app, length_take, length_drop. lia.
Qed.

Lemma take_slice_assign a src l l' :
  slice_assign a src l = Ok l' →
  take (a + length src) l' = take a l ++ src.
Proof.
  unfold slice_assign. destruct (_ <=? _) eqn:E; [|done].
  apply Nat.leb_le in E. intros [= <-]. rewrite app_assoc.
  rewrite take_app_le by (rewrite length_app, length_take; lia).
  by rewrite take_ge by (rewrite length_app, length_take; lia).
Qed.
End slices.

(** ** First index satisfying a predicate ([nonzero(...)[0][0]]) *)

Fixpoint find_index {A} (p : A → bool) (l : list A) : option nat :=
  match l with
  | [] => None
  | x :: l' => if p x then Some 0 else S <$> find_index p l'
  end.

Section find_index.
Context {A : Type} (p : A → bool).

Lemma find_index_Some l i :
  find_index p l = Some i ↔
    (∃ x, l !! i = Some x ∧ p x = true) ∧ ∀ j x, j < i → l !! j = Some x → p x = false.
Proof.
  revert i. induction l as [|x l IH]; intros i; cbn; [naive_solver|].
  destruct (p x) eqn:Hp.
  - split.
    + intros [= <-]. split; [eauto|lia].
    + intros [_ H]. destruct i as [|i]; [done|]. by rewrite (H 0 x) in Hp by (done || lia).
  - destruct (find_index p l) as [k|] eqn:E; cbn.
    + split.
      * intros [= <-]. destruct (proj1 (IH k) eq_refl) as [Hx Hj]. split; [done|].
        intros [|j] y Hlt; cbn; [congruence|]. apply Hj. lia.
      * intros [[y [Hy Hpy]] Hj]. destruct i as [|i]; cbn in Hy; [congruence|].
        f_equal. f_equal. enough (Some k = Some i) by congruence.
        apply IH. split; [eauto|]. intros j z Hlt Hz. by apply (Hj (S j) z); [lia|].
    + split; [done|]. intros [[y [Hy Hpy]] Hj]. destruct i as [|i]; cbn in Hy; [congruence|].
      enough (None = Some i) by congruence.
      apply IH. split; [eauto|]. intros j z Hlt Hz. by apply (Hj (S j) z); [lia|].
Qed.

Lemma find_index_None l : find_index p l = None ↔ Forall (λ x, p x = false) l.
Proof.
  induction l as [|x l IH]; cbn; [done|]. rewrite Forall_cons.
  destruct (p x); [naive_solver|]. destruct (find_index p l); naive_solver.
Qed.

Lemma find_index_lt l i : find_index p l = Some i → i < length l.
Proof. intros [[x [Hx _]] _]%find_index_Some. by eapply lookup_lt_Some. Qed.

Lemma find_index_existsb l : existsb p l = true ↔ ∃ i, find_index p l = Some i.
Proof.
  induction l as [|x l IH]; cbn; [naive_solver|].
  destruct (p x); cbn; [naive_solver|]. rewrite IH.
  destruct (find_index p l); naive_solver.
Qed.

Lemma find_index_app l1 l2 :
  find_index p (l1 ++ l2) =
    match find_index p l1 with
    | Some i => Some i
    | None => (λ i, length l1 + i) <$> find_index p l2
    end.
Proof.
  induction l1 as [|x l1 IH]; cbn; [by destruct (find_index p l2)|].
  destruct (p x); [done|]. rewrite IH.
  destruct (find_index p l1), (find_index p l2); done.
Qed.

(** The answer only depends on the prefix up to the hit. *)
Lemma find_index_take_eq a b l i :
  find_index p (take a l) = Some i → i < b → find_index p (take b l) = Some i.
Proof.
  rewrite !find_index_Some. intros [(x & Hx & Hp) Hj] Hb.
  apply lookup_take_Some in Hx as [Hx Ha]. split.
  - exists x. by rewrite lookup_take_Some.
  - intros j y Hlt Hy. apply lookup_take_Some in Hy as [Hy _].
    apply (Hj j y Hlt). rewrite lookup_take_Some. split; [done|lia].
Qed.
End find_index.

(** ** Tactics and hints *)

(** Destruct every pair in the context. *)
Ltac destruct_pairs := repeat match goal with x : (_ * _)%type |- _ => destruct x end.

(** Invert a successful monadic computation. *)
Ltac inv_ok :=
  repeat match goal with
  | H : (_ ≫= _) = Ok _ |- _ => apply result_bind_Ok in H as (? & ? & H); destruct_pairs; cbv beta iota in H
  | H : py_check _ _ = Ok _ |- _ => apply py_check_Ok in H
  | H : py_assert _ = Ok _ |- _ => apply py_check_Ok in H
  | H : Ok _ = Ok _ |- _ => injection H as H
  | H : mret _ = Ok _ |- _ => injection H as H
  | H : Raise _ = Ok _ |- _ => discriminate H
  end; simplify_eq.

(** Turn boolean comparisons into propositions, everywhere. *)
Ltac b2p :=
  repeat match goal with
  | H : _ && _ = true |- _ => apply andb_true_iff in H as [? ?]
  | H : _ || _ = false |- _ => apply orb_false_iff in H as [? ?]
  | H : negb _ = true |- _ => apply negb_true_iff in H
  | H : negb _ = false |- _ => apply negb_false_iff in H
  | H : (_ <=? _)%nat = true |- _ => apply Nat.leb_le in H
  | H : (_ <=? _)%nat = false |- _ => apply Nat.leb_gt in H
  | H : (_ <? _)%nat = true |- _ => apply Nat.ltb_lt in H
  | H : (_ <? _)%nat = false |- _ => apply Nat.ltb_ge in H
  | H : (_ =? _)%nat = true |- _ => apply Nat.eqb_eq in H
  | H : (_ =? _)%nat = false |- _ => apply Nat.eqb_neq in H
  | H : (_ <=? _)%Z = true |- _ => apply Z.leb_le in H
  | H : (_ <=? _)%Z = false |- _ => apply Z.leb_gt in H
  | H : (_ <? _)%Z = true |- _ => apply Z.ltb_lt in H
  | H : (_ <? _)%Z = false |- _ => apply Z.ltb_ge in H
  | H : (_ =? _)%Z = true |- _ => apply Z.eqb_eq in H
  | H : (_ =? _)%Z = false |- _ => apply Z.eqb_neq in H
  | H : Qle_bool _ _ = true |- _ => apply Qle_bool_iff in H
  | H : bool_decide _ = true |- _ => apply bool_decide_eq_true in H
  | H : bool_decide _ = false |- _ => apply bool_decide_eq_false in H
  end.

(** Weaken a [Forall]. *)
Tactic Notation "forall_impl" hyp(H) :=
  eapply Forall_impl; [exact H|]; cbn beta; intros; try lra; try lia.

Create HintDb py.
#[export] Hint Rewrite @length_app @length_take @length_drop @length_fmap
  @length_replicate @length_py_slice @length_insert @length_seq @length_zip_with : py.
#[export] Hint Resolve take_slice_assign length_slice_assign find_index_lt : py.

Ltac len := autorewrite with py in *; cbn [length] in *; try lia.

(** ** [mapM] in the error monad *)

Lemma mapM_Ok_fmap {A B} (f : A → result B) (g : A → B) (l : list A) :
  Forall (λ x, f x = Ok (g x)) l → mapM f l = Ok (g <$> l).
Proof. induction 1 as [|x l Hx Hl IH]; cbn; [done|]. rewrite Hx. cbn. rewrite IH. done. Qed.

Lemma mapM_Ok_length {A B} (f : A → result B) (l : list A) k :
  mapM f l = Ok k → length k = length l.
Proof.
  revert k. induction l as [|x l IH]; cbn; intros k Hk; [by injection Hk as <-|].
  apply result_bind_Ok in Hk as (y & _ & Hk). apply result_bind_Ok in Hk as (k' & Hk' & Hk).
  injection Hk as <-. cbn. f_equal. by apply IH.
Qed.

Lemma mapM_Ok_Forall2 {A B} (f : A → result B) l k :
  mapM f l = Ok k → Forall2 (λ x y, f x = Ok y) l k.
Proof.
  revert k. induction l as [|x l IH]; intros k Hk; cbn in Hk; inv_ok; [constructor|].
  constructor; [done|]. by apply IH.
Qed.

Lemma mapM_Ok_lookup {A B} (f : A → result B) l k i x :
  mapM f l = Ok k → l !! i = Some x → ∃ y, k !! i = Some y ∧ f x = Ok y.
Proof. intros Hk%mapM_Ok_Forall2 Hi. by destruct (Forall2_lookup_l _ _ _ _ _ Hk Hi) as (y & ? & ?); exists y. Qed.

Lemma mapM_Ok_exists {A B} (f : A → result B) (l : list A) :
  Forall (λ x, ∃ y, f x = Ok y) l → ∃ k, mapM f l = Ok k.
Proof. induction 1 as [|x l [y Hy] _ [k Hk]]; cbn; [eauto|]. rewrite Hy. cbn. rewrite Hk. cbn. eauto. Qed.

Lemma fmap_zip_with {A B C D} (g : C → D) (f : A → B → C) l k :
  g <$> zip_with f l k = zip_with (λ x y, g (f x y)) l k.
Proof. revert k. induction l as [|x l IH]; intros [|y k]; cbn; [done..|]. f_equal. apply IH. Qed.

(** ** Filters *)

Lemma filter_ext_in {A} (P R : A → Prop) `{!∀ x, Decision (P x)} `{!∀ x, Decision (R x)} (l : list A) :
  (∀ x, x ∈ l → (P x ↔ R x)) → filter P l = filter R l.
Proof.
  induction l as [|x l IH]; intros Hl; [done|]. rewrite !filter_cons, IH by (intros; apply Hl; by right).
  pose proof (Hl x ltac:(by left)). repeat case_decide; (done || tauto).
Qed.

Lemma elem_of_take_in {A} (x : A) n l : x ∈ take n l → x ∈ l.
Proof. rewrite elem_of_take. intros (i & Hi & _). by eapply list_elem_of_lookup_2. Qed.

Lemma NoDup_take {A} n (l : list A) : NoDup l → NoDup (take n l).
Proof. rewrite <- (take_drop n l) at 1. by intros [? _]%NoDup_app. Qed.

Lemma fmap_seq_shift {A} (f : nat → A) off k : f <$> seq off k = (λ i, f (off + i)) <$> seq 0 k.
Proof.
  rewrite <- (Nat.add_0_r off) at 1. by rewrite <- (fmap_add_seq off 0 k), <- list_fmap_compose.
Qed.
