(* ===== verification/Sampling.v ===== *)
(** * Sampling: probability rows and residual sampling

    Models [DeepSpec/deepspec/utils/sampling.py].  A tensor of shape
    [1, S, V] is the list of its [S] rows; float arithmetic is exact rational
    arithmetic.  [torch]'s random generator and [softmax] are third-party code
    and stay parameters (class [TorchRandom]); the documented behaviour the code
    relies on is the class [TorchRandomLaws]. *)

From S2P Require Import Prelude.
#[local] Open Scope nat_scope.

(** ** Rational rows *)

Definition Qltb (x y : Q) : bool := negb (Qle_bool y x).
Definition Qsum (l : list Q) : Q := fold_right Qplus 0%Q l.

(** [row.cumprod(dim=-1)], [acc] the product so far. *)
Fixpoint Qcumprod (acc : Q) (l : list Q) : list Q :=
  match l with
  | [] => []
  | x :: l => (acc * x)%Q :: Qcumprod (acc * x) l
  end.

Lemma length_Qcumprod acc l : length (Qcumprod acc l) = length l.
Proof. revert acc. induction l as [|x l IH]; intros acc; cbn; [done|]. by rewrite IH. Qed.

(** [torch.argmax(row)]: the first index of the maximum. *)
Fixpoint argmax_from (best : nat) (best_v : Q) (i : nat) (l : list Q) : nat :=
  match l with
  | [] => best
  | x :: l' => if Qltb best_v x then argmax_from i x (S i) l' else argmax_from best best_v (S i) l'
  end.
Definition argmax (l : list Q) : nat :=
  match l with [] => 0 | x :: l' => argmax_from 0 x 1 l' end.

Definition one_hot (n i : nat) : list Q :=
  (λ j, if (j =? i)%nat then 1%Q else 0%Q) <$> seq 0 n.

Class TorchRandom (RNG : Type) := {
  softmax : list Q → list Q;
  multinomial : RNG → list Q → result (nat * RNG);
  rand_like : RNG → nat → list Q * RNG
}.

Class TorchRandomLaws (RNG : Type) `{TorchRandom RNG} := {
  multinomial_support r w :
    Forall (λ x, 0 <= x)%Q w → (0 < Qsum w)%Q →
    ∃ i r' x, multinomial r w = Ok (i, r') ∧ w !! i = Some x ∧ (0 < x)%Q;
  rand_like_length r n : length (rand_like r n).1 = n;
  rand_like_range r n : Forall (λ x, 0 <= x /\ x < 1)%Q (rand_like r n).1
}.

(** ** The module's functions *)

Section sampling.
Context {RNG : Type} `{!TorchRandom RNG}.

Definition row_to_probs (temperature : Q) (row : list Q) : list Q :=
  if Qltb temperature (1 # 100000) then one_hot (length row) (argmax row)
  else softmax ((λ x, (x / temperature)%Q) <$> row).

Definition logits_to_probs (logits : list (list Q)) (temperature : Q) : list (list Q) :=
  row_to_probs temperature <$> logits.

Fixpoint sample_from_probs (r : RNG) (probs : list (list Q)) : result (list nat * RNG) :=
  match probs with
  | [] => Ok ([], r)
  | row :: rows =>
      '(i, r1) ← multinomial r row;
      '(ids, r2) ← sample_from_probs r1 rows;
      Ok (i :: ids, r2)
  end.

Definition sample_tokens (r : RNG) (logits : list (list Q)) (temperature : Q)
  : result (list nat * RNG) :=
  if Qltb temperature (1 # 100000) then Ok (argmax <$> logits, r)
  else sample_from_probs r
         ((λ row, softmax ((λ x, (x / temperature)%Q) <$> row)) <$> logits).

Definition gather_token_probs (probs : list (list Q)) (token_ids : list nat)
  : result (list Q) :=
  _ ← py_check RuntimeError (length token_ids <=? length probs);
  mapM (λ '(row, t), match row !! t with Some p => Ok p | None => Raise RuntimeError end)
    (zip probs token_ids).

(** The weights [sample_residual] hands to [multinomial]. *)
Definition residual_probs (target_probs draft_probs : list Q) : list Q :=
  let residual := zip_with (λ p q, Qmax (p - q) 0) target_probs draft_probs in
  let residual := if Qle_bool (Qsum residual) (1 # 100000000) then target_probs else residual in
  let residual_mass := Qsum residual in
  (λ x, (x / Qmax residual_mass (1 # 100000000))%Q) <$> residual.

Definition sample_residual (r : RNG) (target_probs draft_probs : list Q)
  : result (nat * RNG) :=
  multinomial r (residual_probs target_probs draft_probs).
End sampling.

(** ** Lemmas *)

Lemma Qltb_lt x y : Qltb x y = true ↔ (x < y)%Q.
Proof.
  unfold Qltb. rewrite negb_true_iff, <- not_true_iff_false, Qle_bool_iff.
  split; [apply Qnot_le_lt|apply Qlt_not_le].
Qed.

Lemma Qltb_ge x y : Qltb x y = false ↔ (y <= x)%Q.
Proof. unfold Qltb. by rewrite negb_false_iff, Qle_bool_iff. Qed.

Lemma Qsum_nil : Qsum [] = 0%Q.
Proof. done. Qed.
Lemma Qsum_cons x l : Qsum (x :: l) = (x + Qsum l)%Q.
Proof. done. Qed.
#[global] Arguments Qsum : simpl never.
#[export] Hint Rewrite Qsum_nil Qsum_cons : qsum.

Lemma Qsum_app l1 l2 : (Qsum (l1 ++ l2) == Qsum l1 + Qsum l2)%Q.
Proof. induction l1 as [|x l1 IH]; [rewrite Qsum_nil; simpl; ring|]. simpl app. rewrite !Qsum_cons, IH. ring. Qed.

Lemma Qsum_nonneg l : Forall (λ x, 0 <= x)%Q l → (0 <= Qsum l)%Q.
Proof. induction 1; autorewrite with qsum; lra. Qed.

Lemma Qsum_pos l i x : Forall (λ x, 0 <= x)%Q l → l !! i = Some x → (0 < x)%Q → (0 < Qsum l)%Q.
Proof.
  intros Hl. revert i. induction Hl as [|y l Hy Hl IH]; intros i Hi Hx; [done|].
  rewrite Qsum_cons. pose proof (Qsum_nonneg _ Hl). destruct i as [|i]; cbn in Hi.
  - injection Hi as ->. lra.
  - pose proof (IH i Hi Hx). lra.
Qed.

Lemma Qsum_div l c : (Qsum ((λ x, (x / c)%Q) <$> l) == Qsum l / c)%Q.
Proof.
  induction l as [|x l IH]; [change (0 == 0 / c)%Q; unfold Qdiv; ring|].
  rewrite fmap_cons, !Qsum_cons, IH. unfold Qdiv. ring.
Qed.

#[export] Instance Qsum_proper : Proper (Forall2 Qeq ==> Qeq) Qsum.
Proof. intros l k Hlk. induction Hlk as [|x y l k Hxy _ IH]; [done|]. rewrite !Qsum_cons. by rewrite Hxy, IH. Qed.

Lemma Qsum_fmap_ext {A} (f g : A → Q) l :
  Forall (λ x, f x == g x)%Q l → (Qsum (f <$> l) == Qsum (g <$> l))%Q.
Proof.
  induction 1 as [|x l Hx _ IH]; [done|]. rewrite !fmap_cons, !Qsum_cons, IH. by rewrite Hx.
Qed.

Lemma Qsum_fmap_add {A} (f g : A → Q) l :
  (Qsum ((λ x, f x + g x) <$> l) == Qsum (f <$> l) + Qsum (g <$> l))%Q.
Proof. induction l as [|x l IH]; [done|]. rewrite !fmap_cons, !Qsum_cons, IH. ring. Qed.

Lemma Qsum_fmap_scale {A} (c : Q) (f : A → Q) l : (Qsum ((λ x, c * f x) <$> l) == c * Qsum (f <$> l))%Q.
Proof. induction l as [|x l IH]; [rewrite !fmap_nil, !Qsum_nil; ring|]. rewrite !fmap_cons, !Qsum_cons, IH. ring. Qed.

Lemma Qsum_fmap_zero {A} (f : A → Q) l : Forall (λ x, f x == 0)%Q l → (Qsum (f <$> l) == 0)%Q.
Proof. induction 1 as [|x l Hx _ IH]; [done|]. rewrite fmap_cons, Qsum_cons, IH, Hx. ring. Qed.

#[export] Instance Qsum_perm : Proper ((≡ₚ) ==> Qeq) Qsum.
Proof.
  induction 1 as [|x l k _ IH|x y l|l1 l2 l3 _ IH1 _ IH2]; [done|rewrite !Qsum_cons, IH; ring|rewrite !Qsum_cons; ring|by rewrite IH1].
Qed.

Lemma Qsum_concat (ls : list (list Q)) : (Qsum (concat ls) == Qsum (Qsum <$> ls))%Q.
Proof. induction ls as [|l ls IH]; [done|]. cbn [concat]. rewrite Qsum_app, fmap_cons, Qsum_cons, IH. done. Qed.

Lemma Qmax_case_spec x y : (Qmax x y == x /\ y <= x \/ Qmax x y == y /\ x <= y)%Q.
Proof.
  destruct (Q.max_spec x y) as [[H E]|[H E]]; [right|left]; (split; [exact E|lra]).
Qed.

Lemma Qmin_case_spec x y : (Qmin x y == x /\ x <= y \/ Qmin x y == y /\ y <= x)%Q.
Proof.
  destruct (Q.min_spec x y) as [[H E]|[H E]]; [left|right]; (split; [exact E|lra]).
Qed.

(** Case analysis on every [Qmax]/[Qmin] in sight, then [lra]. *)
Ltac qminmax :=
  repeat match goal with
  | |- context [Qmax ?x ?y] =>
      let m := fresh "m" in let Hm := fresh "Hm" in
      pose proof (Qmax_case_spec x y) as Hm; set (m := Qmax x y) in *; clearbody m
  | |- context [Qmin ?x ?y] =>
      let m := fresh "m" in let Hm := fresh "Hm" in
      pose proof (Qmin_case_spec x y) as Hm; set (m := Qmin x y) in *; clearbody m
  | H : context [Qmax ?x ?y] |- _ =>
      let m := fresh "m" in let Hm := fresh "Hm" in
      pose proof (Qmax_case_spec x y) as Hm; set (m := Qmax x y) in *; clearbody m
  | H : context [Qmin ?x ?y] |- _ =>
      let m := fresh "m" in let Hm := fresh "Hm" in
      pose proof (Qmin_case_spec x y) as Hm; set (m := Qmin x y) in *; clearbody m
  end.

Lemma one_hot_lookup n i j : j < n → one_hot n i !! j = Some (if (j =? i)%nat then 1%Q else 0%Q).
Proof. intros. unfold one_hot. rewrite list_lookup_fmap, lookup_seq_lt by lia. done. Qed.

Lemma length_one_hot n i : length (one_hot n i) = n.
Proof. unfold one_hot. len. Qed.

Lemma argmax_from_spec best bv i l :
  best < i →
  argmax_from best bv i l < i + length l ∧
  (argmax_from best bv i l = best ∧ Forall (λ x, x <= bv)%Q l ∨
   ∃ k x, argmax_from best bv i l = i + k ∧ l !! k = Some x ∧ (bv < x)%Q ∧
     Forall (λ y, y <= x)%Q l ∧ ∀ j y, j < k → l !! j = Some y → (y < x)%Q).
Proof.
  revert best bv i. induction l as [|x l IH]; intros best bv i Hlt; cbn; [split; [lia|]; by left|].
  destruct (Qltb bv x) eqn:E.
  - apply Qltb_lt in E. destruct (IH i x (S i) ltac:(lia)) as [Hb [[Heq Hall]|(k & y & Heq & Hk & Hy & Hall & Hf)]]; rewrite Heq in *; clear Heq.
    + split; [lia|]. right. exists 0, x. repeat split; [lia|done| |lia].
      constructor; [lra|]. forall_impl Hall.
    + split; [lia|]. right. exists (S k), y. repeat split; [lia|done|lra| |].
      * constructor; [lra|done].
      * intros [|j] z Hj Hz; cbn in Hz; [injection Hz as ->; lra|]. apply (Hf j); [lia|done].
  - apply Qltb_ge in E. destruct (IH best bv (S i) ltac:(lia)) as [Hb [[Heq Hall]|(k & y & Heq & Hk & Hy & Hall & Hf)]]; rewrite Heq in *; clear Heq.
    + split; [lia|]. left. by split; [|constructor].
    + split; [lia|]. right. exists (S k), y. repeat split; [lia|done|done| |].
      * constructor; [lra|done].
      * intros [|j] z Hj Hz; cbn in Hz; [injection Hz as ->; lra|]. apply (Hf j); [lia|done].
Qed.

Lemma argmax_lt l : 0 < length l → argmax l < length l.
Proof.
  destruct l as [|x l]; cbn; [lia|]. intros _.
  destruct (argmax_from_spec 0 x 1 l ltac:(lia)); lia.
Qed.

Lemma argmax_max l x : l !! argmax l = Some x → Forall (λ y, y <= x)%Q l.
Proof.
  destruct l as [|y l]; cbn; [done|].
  destruct (argmax_from_spec 0 y 1 l ltac:(lia)) as [_ [[-> H]|(k & z & -> & Hk & Hz & H & _)]];
    intros Hx.
  - injection Hx as ->. constructor; [lra|done].
  - change (l !! k = Some x) in Hx. simplify_eq. constructor; [lra|done].
Qed.

(** ** A concrete random source, for evaluation on examples *)

Module Deterministic.
(** Draws the first index of positive weight and the constant 1/2. *)
#[export] Instance random : TorchRandom unit := {
  softmax row := row;
  multinomial r w :=
    match find_index (Qltb 0) w with Some i => Ok (i, r) | None => Raise RuntimeError end;
  rand_like r n := (replicate n (1 # 2)%Q, r)
}.

#[export] Instance random_laws : TorchRandomLaws unit.
Proof.
  split.
  - intros r w Hw Hs. cbn. destruct (find_index (Qltb 0) w) as [i|] eqn:E.
    + apply find_index_Some in E as [(x & Hx & Hp) _]. apply Qltb_lt in Hp. by exists i, r, x.
    + exfalso. apply find_index_None in E. assert (Qsum w <= 0)%Q; [|lra]. clear Hs Hw.
      induction E as [|x w Hx _ IH]; [by rewrite Qsum_nil|].
      apply Qltb_ge in Hx. rewrite Qsum_cons. lra.
  - intros r n. apply length_replicate.
  - intros r n. apply Forall_replicate. lra.
Qed.
End Deterministic.
