(* ===== verification/SpecDecode.v ===== *)
(** * SpecDecode: the speculative-decoding loop of the evaluator

    Models [DeepSpec/deepspec/eval/base_evaluator.py]: stop-token helpers, the
    rejection-sampling verification of one draft proposal and the decoding loop.
    Batch size is one (the code asserts it), so a [1, n] tensor is a list; token
    ids are naturals.  The target model, its KV cache class and the algorithm
    callbacks ([init_context], [propose], [update], [post_verify]) are arguments,
    as in the code (record [DraftAlgorithm]).  A KV cache is represented by the (token, position) pairs that
    were fed to the model: [crop(n)] keeps the first [n]. *)

From S2P Require Import Prelude Sampling.
#[local] Open Scope nat_scope.

(** ** Stop tokens *)

Definition is_stop (stop_token_ids : option (list nat)) (t : nat) : bool :=
  match stop_token_ids with
  | None => false
  | Some ids => existsb (Nat.eqb t) ids
  end.

Definition trim_output_ids (output_ids : list nat) (num_input_tokens : nat)
    (stop_token_ids : option (list nat)) : list nat :=
  match stop_token_ids with
  | None => output_ids
  | Some _ =>
      match find_index (is_stop stop_token_ids) (drop num_input_tokens output_ids) with
      | None => output_ids
      | Some k => take (num_input_tokens + k + 1) output_ids
      end
  end.

Definition has_stop_token (token_ids : list nat) (stop_token_ids : option (list nat)) : bool :=
  match stop_token_ids with
  | None => false
  | Some _ => existsb (is_stop stop_token_ids) token_ids
  end.

(** [eos_token_id] of a generation config or a tokenizer: missing, an int or a list. *)
Inductive eos_token_id : Type :=
  | EosNone
  | EosInt (t : nat)
  | EosList (ts : list nat).

Definition resolve_stop_token_ids (generation_eos tokenizer_eos : eos_token_id)
    : option (list nat) :=
  let eos := match generation_eos with EosNone => tokenizer_eos | e => e end in
  match eos with
  | EosNone => None
  | EosInt t => Some [t]
  | EosList ts =>
      Some (foldl (λ acc t, if existsb (Nat.eqb t) acc then acc else acc ++ [t]) [] ts)
  end.

Definition assert_no_final_target_layer (num_hidden_layers : Z) (target_layer_ids : list Z)
    : result unit :=
  py_assert (negb (existsb (Z.eqb (num_hidden_layers - 1)) target_layer_ids)).

(** ** Verification of one proposal *)

Record DraftProposal := {
  draft_token_count : nat;
  verify_input_ids : list nat;
  draft_probs : option (list (list Q))
}.

Definition kv_cache : Type := list (nat * nat).
Definition crop (n : nat) (c : kv_cache) : kv_cache := take n c.

Record TargetOutput (H : Type) := {
  logits : list (list Q);
  hidden_states : H
}.
Arguments logits {H} _.
Arguments hidden_states {H} _.

Record VerificationResult (H : Type) := {
  target_output : TargetOutput H;
  target_probs : list (list Q);
  accept_prefix_mask : option (list nat);
  accepted_draft_tokens : nat;
  next_token : nat;
  effective_proposal_length : nat;
  terminated_by_stop_token : bool;
  committed_tokens : option (list nat)
}.
Arguments target_output {H} _.
Arguments target_probs {H} _.
Arguments accept_prefix_mask {H} _.
Arguments accepted_draft_tokens {H} _.
Arguments next_token {H} _.
Arguments effective_proposal_length {H} _.
Arguments terminated_by_stop_token {H} _.
Arguments committed_tokens {H} _.

(** [size(-1)] of a tensor given by its rows. *)
Definition vocab_size (rows : list (list Q)) : nat :=
  match rows with [] => 0 | row :: _ => length row end.

(** [clamp(target / draft.clamp_min(1e-8), max=1)]. *)
Definition accept_prob (p q : Q) : Q := Qmin (p / Qmax q (1 # 100000000)) 1.

Fixpoint cumprod_from (acc : nat) (l : list nat) : list nat :=
  match l with
  | [] => []
  | x :: l' => (acc * x) :: cumprod_from (acc * x) l'
  end.
Definition cumprod (l : list nat) : list nat := cumprod_from 1 l.

(** The callbacks an evaluator passes to [generate_decoding_sample]: they share a
    context [C] and may raise. *)
Record DraftAlgorithm (RNG H C : Type) := {
  init_context : TargetOutput H → list nat → list nat → nat → result C;
  propose : C → RNG → list nat → list nat → nat → option (list nat) → result (DraftProposal * C * RNG);
  update : C → VerificationResult H → result C;
  post_verify : C → DraftProposal → VerificationResult H → result C
}.
Arguments init_context {RNG H C} _.
Arguments propose {RNG H C} _.
Arguments update {RNG H C} _.
Arguments post_verify {RNG H C} _.

Section decode.
Context {RNG H C : Type} `{!TorchRandom RNG}.
(** The target model: logits for every fed token, given the cached ones. *)
Variable target_model : kv_cache → list (nat * nat) → TargetOutput H.

(** A call [target_model(input_ids, position_ids, past, use_cache=True)]. *)
Definition call_target (past : kv_cache) (input_ids position_ids : list nat)
  : result (TargetOutput H * kv_cache) :=
  _ ← py_check RuntimeError (length input_ids =? length position_ids);
  let inputs := zip input_ids position_ids in
  Ok (target_model past inputs, past ++ inputs).

(** The acceptance test: the mask [accept_mask.cumprod(dim=1)]. *)
Definition accept_drafts (r : RNG) (tprobs : list (list Q)) (dprobs : list (list Q))
    (proposed_tokens : list nat) : result (list nat * RNG) :=
  selected_target_probs ← gather_token_probs (take (length tprobs - 1) tprobs) proposed_tokens;
  selected_draft_probs ← gather_token_probs dprobs proposed_tokens;
  let probs := zip_with accept_prob selected_target_probs selected_draft_probs in
  let '(rand, r') := rand_like r (length probs) in
  let accept_mask := zip_with (λ u a, if Qltb u a then 1 else 0) rand probs in
  Ok (cumprod accept_mask, r').

(** [draft_probs.size(-1) != target_probs.size(-1)] is an error. *)
Definition vocab_sizes_match (proposal : DraftProposal) (tprobs : list (list Q)) : bool :=
  match draft_probs proposal with
  | Some dp => (draft_token_count proposal =? 0) || (vocab_size dp =? vocab_size tprobs)
  | None => true
  end.

(** The prefix mask and the number of accepted draft tokens. *)
Definition accept_phase (r : RNG) (proposal : DraftProposal) (tprobs : list (list Q))
  : result (option (list nat) * nat * RNG) :=
  if 0 <? draft_token_count proposal then
    match draft_probs proposal with
    | None => Raise AssertionError
    | Some dp =>
        '(m, r) ← accept_drafts r tprobs dp (drop 1 (verify_input_ids proposal));
        Ok (Some m, sum_list m, r)
    end
  else Ok (None, 0, r).

(** Position of the first stop token among the accepted draft tokens. *)
Definition accepted_eos (stop_token_ids : option (list nat)) (ids : list nat) (accepted : nat)
  : option nat :=
  match stop_token_ids with
  | Some (_ :: _) =>
      if 0 <? accepted
      then find_index (is_stop stop_token_ids) (ids.[1, accepted + 1])
      else None
  | _ => None
  end.

(** The token after the accepted drafts: residual sample or bonus token. *)
Definition sample_next (r : RNG) (proposal : DraftProposal) (tprobs : list (list Q))
    (accepted : nat) : result (nat * RNG) :=
  if (0 <? draft_token_count proposal) && (accepted <? draft_token_count proposal) then
    match draft_probs proposal with
    | None => Raise AssertionError
    | Some dp =>
        match tprobs !! accepted, dp !! accepted with
        | Some p, Some q => sample_residual r p q
        | _, _ => Raise IndexError
        end
    end
  else
    match last tprobs with
    | Some p => multinomial r p
    | None => Raise RuntimeError
    end.

Definition verify_draft_tokens (r : RNG) (proposal : DraftProposal)
    (position_ids : list nat) (start : nat) (past : kv_cache) (temperature : Q)
    (max_proposal_tokens : nat) (current_token_ids : option (list nat))
    (stop_token_ids : option (list nat))
  : result (VerificationResult H * kv_cache * RNG) :=
  let count := draft_token_count proposal in
  let ids := verify_input_ids proposal in
  _ ← py_check ValueError (count <=? max_proposal_tokens);
  _ ← py_check ValueError
        (match current_token_ids with
         | None => true
         | Some cur => bool_decide (ids.[0, 1] = cur)
         end);
  let verify_position_ids := position_ids.[start, start + (count + 1)] in
  '(out, past) ← call_target past ids verify_position_ids;
  let tprobs := logits_to_probs (logits out) temperature in
  _ ← py_check ValueError (vocab_sizes_match proposal tprobs);
  '(mask, accepted, r) ← accept_phase r proposal tprobs;
  let '(accepted, effective, terminated) :=
    match accepted_eos stop_token_ids ids accepted with
    | Some eos_pos => (eos_pos + 1, eos_pos + 1, true)
    | None => (accepted, count, false)
    end in
  '(next, r) ← sample_next r proposal tprobs accepted;
  Ok ({| target_output := out;
         target_probs := tprobs;
         accept_prefix_mask := mask;
         accepted_draft_tokens := accepted;
         next_token := next;
         effective_proposal_length := effective;
         terminated_by_stop_token := terminated;
         committed_tokens := Some (ids.[1, accepted + 1] ++ [next]) |}, past, r).

(** ** The decoding loop *)

Record DecodingSample := {
  output_ids : list nat;
  num_input_tokens : nat;
  num_output_tokens : nat;
  acceptance_lengths : list nat;
  proposal_lengths : list nat;
  accepted_draft_lengths : list nat;
  verify_count : nat
}.

Variable alg : DraftAlgorithm RNG H C.
Variables (max_new_tokens max_proposal_tokens : nat) (temperature : Q)
  (stop_token_ids : option (list nat)).
(** The uninitialised content of [torch.empty]. *)
Variable garbage : nat → nat.

Record loop_state := {
  ls_output_ids : list nat;
  ls_start : nat;
  ls_past : kv_cache;
  ls_context : C;
  ls_rng : RNG;
  ls_acceptance_lengths : list nat;
  ls_proposal_lengths : list nat;
  ls_accepted_draft_lengths : list nat
}.

(** One iteration of [while start < max_length]; [true] means [break]. *)
Definition decode_step (position_ids : list nat) (st : loop_state) : result (bool * loop_state) :=
  let start := ls_start st in
  let out := ls_output_ids st in
  '(proposal, ctx, r) ← propose alg (ls_context st) (ls_rng st) out position_ids start stop_token_ids;
  '(v, past, r) ← verify_draft_tokens r proposal position_ids start (ls_past st) temperature
      max_proposal_tokens (Some (out.[start, start + 1])) stop_token_ids;
  ctx ← post_verify alg ctx proposal v;
  let accepted := accepted_draft_tokens v in
  let plens := ls_proposal_lengths st ++ [effective_proposal_length v] in
  let dlens := ls_accepted_draft_lengths st ++ [accepted] in
  let src := (verify_input_ids proposal).[0, accepted + 1] in
  _ ← py_check RuntimeError (length src =? length (out.[start, start + accepted + 1]));
  out ← slice_assign start src out;
  if terminated_by_stop_token v then
    let start := start + accepted in
    Ok (true, {| ls_output_ids := out; ls_start := start; ls_past := crop start past;
                 ls_context := ctx; ls_rng := r;
                 ls_acceptance_lengths := ls_acceptance_lengths st ++ [accepted];
                 ls_proposal_lengths := plens; ls_accepted_draft_lengths := dlens |})
  else
    _ ← py_check IndexError (start + accepted + 1 <? length out);
    let out := <[start + accepted + 1 := next_token v]> out in
    let new_token_ids := out.[start + 1, start + accepted + 2] in
    let start := start + accepted + 1 in
    ctx ← update alg ctx v;
    Ok (has_stop_token new_token_ids stop_token_ids,
        {| ls_output_ids := out; ls_start := start; ls_past := crop start past;
           ls_context := ctx; ls_rng := r;
           ls_acceptance_lengths := ls_acceptance_lengths st ++ [accepted + 1];
           ls_proposal_lengths := plens; ls_accepted_draft_lengths := dlens |}).

Fixpoint decode_loop (fuel : nat) (position_ids : list nat) (max_length : nat) (st : loop_state)
  : result loop_state :=
  if ls_start st <? max_length then
    match fuel with
    | 0 => Raise OutOfFuel
    | S fuel =>
        '(brk, st) ← decode_step position_ids st;
        if (brk : bool) then Ok st else decode_loop fuel position_ids max_length st
    end
  else Ok st.

Definition generate_decoding_sample (r : RNG) (input_ids : list nat) : result DecodingSample :=
  _ ← py_assert (1 <=? max_proposal_tokens);
  let num_input := length input_ids in
  let max_length := num_input + max_new_tokens in
  let out := garbage <$> seq 0 (max_length + max_proposal_tokens + 1) in
  let position_ids := seq 0 (length out) in
  '(output, past) ← call_target [] input_ids (position_ids.[0, num_input]);
  out ← slice_assign 0 input_ids out;
  let kept := drop (length (logits output) - 1) (logits output) in
  '(first, r) ← sample_from_probs r (logits_to_probs kept temperature);
  out ← slice_assign num_input first out;
  let initial_token := out.[num_input, num_input + 1] in
  let finish out acc prop adl :=
    {| output_ids := out; num_input_tokens := num_input;
       num_output_tokens := length out - num_input;
       acceptance_lengths := acc; proposal_lengths := prop; accepted_draft_lengths := adl;
       verify_count := length prop |} in
  if has_stop_token initial_token stop_token_ids then
    let out := trim_output_ids (take (num_input + 1) out) num_input stop_token_ids in
    Ok (finish out [] [] [])
  else
    context ← init_context alg output out position_ids num_input;
    st ← decode_loop max_new_tokens position_ids max_length
           {| ls_output_ids := out; ls_start := num_input; ls_past := past;
              ls_context := context; ls_rng := r;
              ls_acceptance_lengths := []; ls_proposal_lengths := [];
              ls_accepted_draft_lengths := [] |};
    let out := take (Nat.min (ls_start st + 1) max_length) (ls_output_ids st) in
    let out := trim_output_ids out num_input stop_token_ids in
    Ok (finish out (ls_acceptance_lengths st) (ls_proposal_lengths st)
          (ls_accepted_draft_lengths st)).
End decode.

Lemma cumprod_from_length acc l : length (cumprod_from acc l) = length l.
Proof. revert acc. induction l as [|x l IH]; intros acc; cbn; [done|]. by rewrite IH. Qed.
