(* ===== verification/SpecDecodeProps.v ===== *)
(** * SpecDecodeProps: correctness of speculative decoding

    Losslessness of the verification step: the emitted distribution is the target
    distribution, and greedy speculative decoding returns exactly the tokens of
    greedy autoregressive decoding, whatever the draft model proposes. *)

From S2P Require Import Prelude Sampling SpecDecode.
#[local] Open Scope nat_scope.

(** ** The acceptance mask counts a leading run *)

Definition lead (bs : list bool) : nat := default (length bs) (find_index negb bs).

Lemma lead_spec bs :
  lead bs ≤ length bs ∧ (∀ i, i < lead bs → bs !! i = Some true) ∧
  (lead bs < length bs → bs !! lead bs = Some false).
Proof.
  unfold lead. destruct (find_index negb bs) as [k|] eqn:E; cbn.
  - pose proof (find_index_lt _ _ _ E).
    apply find_index_Some in E as [(x & Hx & Hp) Hj]. destruct x; [done|].
    split; [lia|]. split; [|done]. intros i Hi.
    destruct (lookup_lt_is_Some_2 bs i ltac:(lia)) as [y Hy].
    specialize (Hj i y Hi Hy). by destruct y.
  - apply find_index_None in E. split; [lia|]. split; [|lia]. intros i Hi.
    destruct (lookup_lt_is_Some_2 bs i ltac:(lia)) as [y Hy].
    rewrite Forall_lookup in E. specialize (E i y Hy). by destruct y.
Qed.

Lemma sum_cumprod_zero l : sum_list (cumprod_from 0 l) = 0.
Proof. induction l as [|x l IH]; cbn; [done|]. exact IH. Qed.

Lemma sum_cumprod bs : sum_list (cumprod ((λ b : bool, if b then 1 else 0) <$> bs)) = lead bs.
Proof.
  unfold cumprod. induction bs as [|b bs IH]; [done|]. destruct b; cbn.
  - unfold lead. cbn. replace (1 + 0) with 1 by lia. cbn in IH. rewrite IH. unfold lead.
    by destruct (find_index negb bs).
  - by rewrite sum_cumprod_zero.
Qed.

(** ** Rational facts about one verification step *)

Lemma Qdiv_pos x c : (0 < x)%Q → (0 < c)%Q → (0 < x / c)%Q.
Proof. intros. unfold Qdiv. apply Qmult_lt_0_compat; [done|]. by apply Qinv_lt_0_compat. Qed.

Lemma Qdiv_nonneg x c : (0 <= x)%Q → (0 < c)%Q → (0 <= x / c)%Q.
Proof.
  intros. unfold Qdiv. apply Qmult_le_0_compat; [done|]. apply Qinv_le_0_compat. lra.
Qed.

Lemma Qdiv_pos_inv x c : (0 < x / c)%Q → (0 < c)%Q → (0 < x)%Q.
Proof.
  intros Hx Hc. destruct (Qlt_le_dec 0 x) as [|Hle]; [done|].
  assert (x / c <= 0)%Q; [|lra].
  apply (Qle_trans _ (0 / c)); [|unfold Qdiv; lra].
  unfold Qdiv. apply Qmult_le_compat_r; [done|]. apply Qinv_le_0_compat. lra.
Qed.

Lemma clamp_pos q : (0 < Qmax q (1 # 100000000))%Q.
Proof. qminmax. lra. Qed.

Definition is_dist_row (n : nat) (row : list Q) : Prop :=
  length row = n ∧ Forall (λ x, 0 <= x /\ x <= 1)%Q row.

Lemma accept_prob_reject q u : (0 <= u)%Q → Qltb u (accept_prob 0 q) = false.
Proof.
  intros Hu. apply Qltb_ge. unfold accept_prob.
  assert (E : (0 / Qmax q (1 # 100000000) == 0)%Q) by (unfold Qdiv; ring).
  qminmax. lra.
Qed.

Lemma accept_prob_accept q u :
  (u < 1)%Q → (q <= 1)%Q → Qltb u (accept_prob 1 q) = true.
Proof.
  intros Hu Hq. apply Qltb_lt. unfold accept_prob.
  assert (1 <= 1 / Qmax q (1 # 100000000))%Q.
  { apply Qle_shift_div_l; [apply clamp_pos|]. qminmax. lra. }
  qminmax. lra.
Qed.

Lemma one_hot_nonneg n g : Forall (λ x, 0 <= x)%Q (one_hot n g).
Proof.
  apply Forall_lookup. intros i x Hi.
  pose proof (lookup_lt_Some _ _ _ Hi) as Hl. rewrite length_one_hot in Hl.
  rewrite one_hot_lookup in Hi by done. destruct (i =? g); simplify_eq; lra.
Qed.

Lemma Qsum_one_hot_pos n g : g < n → (0 < Qsum (one_hot n g))%Q.
Proof.
  intros. apply (Qsum_pos _ g 1%Q); [apply one_hot_nonneg| |lra].
  rewrite one_hot_lookup by done. by rewrite Nat.eqb_refl.
Qed.

Lemma one_hot_support n g i x : one_hot n g !! i = Some x → (0 < x)%Q → i = g.
Proof.
  intros Hi Hx. pose proof (lookup_lt_Some _ _ _ Hi) as Hl. rewrite length_one_hot in Hl.
  rewrite one_hot_lookup in Hi by done. destruct (i =? g) eqn:E; b2p; simplify_eq; (done || lra).
Qed.

Section greedy_sampling.
Context {RNG : Type} `{TorchRandomLaws RNG}.

Lemma multinomial_supported r w g :
  Forall (λ x, 0 <= x)%Q w → (0 < Qsum w)%Q →
  (∀ i x, w !! i = Some x → (0 < x)%Q → i = g) →
  ∃ r', multinomial r w = Ok (g, r').
Proof.
  intros Hn Hs Hg. destruct (multinomial_support r w Hn Hs) as (i & r' & x & E & Hi & Hx).
  rewrite (Hg i x Hi Hx) in E. eauto.
Qed.

Lemma multinomial_one_hot r n g : g < n → ∃ r', multinomial r (one_hot n g) = Ok (g, r').
Proof.
  intros. apply multinomial_supported;
    [apply one_hot_nonneg|by apply Qsum_one_hot_pos|apply one_hot_support].
Qed.

(** The residual of a one-hot target only charges the target token. *)
Lemma sample_residual_one_hot r n g q :
  g < n → is_dist_row n q → ∃ r', sample_residual r (one_hot n g) q = Ok (g, r').
Proof.
  intros Hg [Hlen Hq]. unfold sample_residual, residual_probs.
  set (res := zip_with _ _ _).
  assert (Hres : ∀ i x, res !! i = Some x → (0 <= x)%Q ∧ ((0 < x)%Q → i = g)).
  { intros i x Hi. unfold res in Hi. apply lookup_zip_with_Some in Hi as (p & y & -> & Hp & Hy).
    rewrite Forall_lookup in Hq. specialize (Hq i y Hy). cbn in Hq.
    split; [qminmax; lra|]. intros Hx. apply (one_hot_support _ _ _ _ Hp). qminmax; lra. }
  apply multinomial_supported.
  - destruct (Qle_bool _ _); apply Forall_fmap, Forall_lookup; intros i x Hi; cbn;
      (apply Qdiv_nonneg; [|apply clamp_pos]).
    + pose proof (one_hot_nonneg n g) as Hf. rewrite Forall_lookup in Hf. by apply (Hf i).
    + by apply (Hres i).
  - rewrite Qsum_div. apply Qdiv_pos; [|apply clamp_pos].
    destruct (Qle_bool _ _) eqn:E; [by apply Qsum_one_hot_pos|].
    apply not_true_iff_false in E. rewrite Qle_bool_iff in E. apply Qnot_le_lt in E. lra.
  - intros i x. rewrite list_lookup_fmap_Some. intros (y & -> & Hy) Hx.
    assert (Hy0 : (0 < y)%Q) by (eapply Qdiv_pos_inv; [exact Hx|apply clamp_pos]).
    destruct (Qle_bool _ _); [exact (one_hot_support _ _ _ _ Hy Hy0)|by apply (Hres i y)].
Qed.
End greedy_sampling.

(** ** A causal target model and greedy autoregressive decoding *)

(** Documented behaviour of a causal language model with a KV cache: the logits
    returned for the [i]-th fed token depend on the cached tokens and the fed
    tokens up to [i], through one function of that context. *)
Class CausalTarget {H : Type} (target_model : kv_cache → list (nat * nat) → TargetOutput H)
    (next_logits : list (nat * nat) → list Q) (vocab : nat) : Prop := {
  causal_logits past inputs :
    logits (target_model past inputs) =
      (λ i, next_logits (past ++ take (S i) inputs)) <$> seq 0 (length inputs);
  causal_vocab c : length (next_logits c) = vocab;
  causal_vocab_pos : 0 < vocab
}.

(** The (token, position) context of a token list. *)
Definition pos_ctx (toks : list nat) : list (nat * nat) := zip toks (seq 0 (length toks)).

#[global] Arguments pos_ctx : simpl never.

Definition greedy_next (next_logits : list (nat * nat) → list Q) (toks : list nat) : nat :=
  argmax (next_logits (pos_ctx toks)).

(** The reference: append the argmax token, at most [n] times, stopping after a stop token. *)
Fixpoint greedy_decode (next_logits : list (nat * nat) → list Q) (stop : option (list nat))
    (toks : list nat) (n : nat) : list nat :=
  match n with
  | 0 => []
  | S n' =>
      let t := greedy_next next_logits toks in
      t :: (if is_stop stop t then [] else greedy_decode next_logits stop (toks ++ [t]) n')
  end.

(** [gs] continues [toks] greedily. *)
Definition greedy_chain (next_logits : list (nat * nat) → list Q) (toks gs : list nat) : Prop :=
  ∀ i g, gs !! i = Some g → g = greedy_next next_logits (toks ++ take i gs).

Lemma pos_ctx_app a b : pos_ctx (a ++ b) = pos_ctx a ++ zip b (seq (length a) (length b)).
Proof.
  unfold pos_ctx. rewrite length_app, seq_app, zip_with_app by len. done.
Qed.

Lemma take_zip_with_seq s k (b : list nat) :
  take k (zip b (seq s (length b))) = zip (take k b) (seq s (length (take k b))).
Proof.
  by rewrite zip_with_take, take_seq, length_take.
Qed.

Lemma pos_ctx_take k toks : take k (pos_ctx toks) = pos_ctx (take k toks).
Proof. unfold pos_ctx. apply take_zip_with_seq. Qed.

Section chain.
Context (nl : list (nat * nat) → list Q).

Lemma greedy_chain_nil toks : greedy_chain nl toks [].
Proof. intros i g. by rewrite lookup_nil. Qed.

Lemma greedy_chain_app toks a b :
  greedy_chain nl toks a → greedy_chain nl (toks ++ a) b → greedy_chain nl toks (a ++ b).
Proof.
  intros Ha Hb i g Hi. destruct (decide (i < length a)).
  - rewrite lookup_app_l in Hi by done. rewrite take_app_le by lia. by apply Ha.
  - rewrite lookup_app_r in Hi by lia. rewrite take_app_ge by lia. rewrite app_assoc. by apply Hb.
Qed.

Lemma greedy_chain_take toks a k : greedy_chain nl toks a → greedy_chain nl toks (take k a).
Proof.
  intros Ha i g Hi. apply lookup_take_Some in Hi as [Hi Hk].
  rewrite take_take, Nat.min_l by lia. by apply Ha.
Qed.

Lemma greedy_chain_cons toks t a :
  greedy_chain nl toks (t :: a) → t = greedy_next nl toks ∧ greedy_chain nl (toks ++ [t]) a.
Proof.
  intros Hc. split.
  - rewrite <- (app_nil_r toks). by apply (Hc 0).
  - intros i g Hi. rewrite <- app_assoc. by apply (Hc (S i)).
Qed.

(** Cutting a greedy chain at its first stop token gives the reference. *)
Lemma greedy_chain_decode stop toks gs n :
  greedy_chain nl toks gs →
  match find_index (is_stop stop) (take n gs) with
  | Some k => greedy_decode nl stop toks n = take (S k) gs
  | None => n ≤ length gs → greedy_decode nl stop toks n = take n gs
  end.
Proof.
  revert toks gs. induction n as [|n IH]; intros toks gs Hc; cbn; [done|].
  destruct gs as [|g gs]; cbn; [lia|].
  apply greedy_chain_cons in Hc as [-> Hc].
  destruct (is_stop stop (greedy_next nl toks)) eqn:Es; [by rewrite take_0|].
  specialize (IH _ _ Hc). destruct (find_index (is_stop stop) (take n gs)) as [k|]; cbn.
  - by rewrite IH.
  - intros. rewrite IH by lia. done.
Qed.
End chain.

(** ** One verification step, greedily *)

(** What the code expects of a proposal for the current token [cur]. *)
Record proposal_ok (vocab max_proposal_tokens cur : nat) (p : DraftProposal) : Prop := {
  po_count : draft_token_count p ≤ max_proposal_tokens;
  po_ids : ∃ ds, verify_input_ids p = cur :: ds ∧ length ds = draft_token_count p ∧
             Forall (λ t, t < vocab) ds;
  po_probs : 0 < draft_token_count p →
    ∃ dp, draft_probs p = Some dp ∧ length dp = draft_token_count p ∧ Forall (is_dist_row vocab) dp
}.

Section gather.
Context {RNG : Type} `{TorchRandomLaws RNG}.

Lemma gather_token_probs_ok n probs ids :
  length ids ≤ length probs → Forall (λ row, length row = n) probs → Forall (λ t, t < n) ids →
  gather_token_probs probs ids =
    Ok ((λ '(row, t), default 0%Q (row !! t)) <$> zip probs ids).
Proof.
  intros Hlen Hrows Hids. unfold gather_token_probs.
  rewrite py_check_true by (by apply Nat.leb_le). cbn.
  apply mapM_Ok_fmap, Forall_lookup. intros i [row t] Hi.
  apply lookup_zip_with_Some in Hi as (row' & t' & [= <- <-] & Hr & Ht).
  rewrite Forall_lookup in Hrows. rewrite Forall_lookup in Hids.
  specialize (Hrows i row Hr). specialize (Hids i t Ht). cbn in *.
  by destruct (lookup_lt_is_Some_2 row t ltac:(lia)) as [x ->].
Qed.

(** With one-hot target rows the accepted drafts are the leading correct ones. *)
Lemma accept_drafts_greedy vocab (G : nat → nat) r tprobs dp ds :
  length tprobs = S (length ds) →
  (∀ i, i < length ds → tprobs !! i = Some (one_hot vocab (G i))) →
  length dp = length ds → Forall (is_dist_row vocab) dp → Forall (λ t, t < vocab) ds →
  ∃ m r', accept_drafts r tprobs dp ds = Ok (m, r') ∧ sum_list m ≤ length ds ∧
    (∀ i, i < sum_list m → ds !! i = Some (G i)) ∧
    (sum_list m < length ds → ds !! sum_list m ≠ Some (G (sum_list m))).
Proof.
  intros Htl Ht Hdl Hd Hds. unfold accept_drafts.
  assert (Hrows : Forall (λ row, length row = vocab) (take (length tprobs - 1) tprobs)).
  { apply Forall_lookup. intros i row [Hi Hlt]%lookup_take_Some.
    rewrite Ht in Hi by lia. injection Hi as <-. apply length_one_hot. }
  rewrite (gather_token_probs_ok vocab (take _ _)); [|len|done|done]. cbn.
  rewrite (gather_token_probs_ok vocab dp); [|lia|forall_impl Hd; by destruct H1|done]. cbn.
  set (probs := zip_with accept_prob _ _).
  destruct (rand_like r (length probs)) as [u r'] eqn:Eu.
  assert (Hprobs : ∀ i a, probs !! i = Some a → ∃ t q, ds !! i = Some t ∧ (q <= 1)%Q ∧
            a = accept_prob (if t =? G i then 1 else 0)%Q q).
  { intros i a. unfold probs. intros (x & y & -> & Hx & Hy)%lookup_zip_with_Some.
    apply list_lookup_fmap_Some in Hx as ([row t] & -> & Hx).
    apply list_lookup_fmap_Some in Hy as ([row2 t2] & -> & Hy).
    apply lookup_zip_with_Some in Hx as (? & ? & [= <- <-] & Hrow & Ht1).
    apply lookup_zip_with_Some in Hy as (? & ? & [= <- <-] & Hrow2 & Ht2). simplify_eq.
    apply lookup_take_Some in Hrow as [Hrow _].
    rewrite Ht in Hrow by (by eapply lookup_lt_Some). injection Hrow as <-.
    rewrite Forall_lookup in Hd. destruct (Hd i row2 Hrow2) as [Hl2 Hf2].
    rewrite Forall_lookup in Hds. specialize (Hds i t Ht1). cbn in Hds.
    destruct (lookup_lt_is_Some_2 row2 t ltac:(lia)) as [q Hq]. rewrite Hq. cbn.
    exists t, q. rewrite one_hot_lookup by done. split; [done|]. split; [|done].
    rewrite Forall_lookup in Hf2. by destruct (Hf2 t q Hq). }
  assert (Hlen : length probs = length ds) by (unfold probs; len).
  eexists _, _. split; [done|].
  set (bs := zip_with Qltb u probs).
  pose proof (rand_like_length r (length probs)) as Hul. rewrite Eu in Hul. cbn in Hul.
  pose proof (rand_like_range r (length probs)) as Hur. rewrite Eu in Hur. cbn in Hur.
  replace (zip_with _ u probs) with ((λ b : bool, if b then 1 else 0) <$> bs)
    by (unfold bs; by rewrite fmap_zip_with).
  rewrite sum_cumprod.
  assert (Hbs : ∀ i b t, bs !! i = Some b → ds !! i = Some t → b = (t =? G i)).
  { intros i b t. unfold bs. intros (x & a & -> & Hx & Ha)%lookup_zip_with_Some Hti.
    destruct (Hprobs i a Ha) as (t' & q & Ht' & Hq & ->). simplify_eq.
    rewrite Forall_lookup in Hur. specialize (Hur i x Hx). cbn in Hur.
    destruct (t =? G i); [apply accept_prob_accept; lra|apply accept_prob_reject; lra]. }
  assert (Hbl : length bs = length ds) by (unfold bs; len).
  destruct (lead_spec bs) as (Hle & Htrue & Hfalse).
  split; [lia|]. split.
  - intros i Hi. destruct (lookup_lt_is_Some_2 ds i ltac:(lia)) as [t Hti].
    specialize (Hbs i true t (Htrue i Hi) Hti). symmetry in Hbs. b2p. by subst.
  - intros Hi Hti. specialize (Hbs _ _ _ (Hfalse ltac:(lia)) Hti). symmetry in Hbs. by b2p.
Qed.
End gather.

Lemma is_stop_trivial stop l :
  match stop with Some (_ :: _) => False | _ => True end → find_index (is_stop stop) l = None.
Proof.
  intros Hs. apply find_index_None, Forall_forall. intros x _.
  by destruct stop as [[|]|].
Qed.

Lemma accepted_eos_spec stop cur ds a :
  accepted_eos stop (cur :: ds) a = find_index (is_stop stop) (take a ds).
Proof.
  unfold accepted_eos. unfold py_slice. replace (a + 1 - 1) with a by lia.
  change (drop 1 (cur :: ds)) with ds.
  destruct stop as [[|s0 ss]|]; [by rewrite is_stop_trivial| |by rewrite is_stop_trivial].
  destruct a; [by rewrite take_0|done].
Qed.

Section verify_greedy.
Context {RNG H : Type} `{TorchRandomLaws RNG}.
Context (target_model : kv_cache → list (nat * nat) → TargetOutput H)
  (nl : list (nat * nat) → list Q) (vocab : nat) `{!CausalTarget target_model nl vocab}.
Context (T : Q) (HT : (T < 1 # 100000)%Q).

Lemma greedy_next_lt toks : greedy_next nl toks < vocab.
Proof.
  unfold greedy_next. pose proof (argmax_lt (nl (pos_ctx toks))) as Ha.
  rewrite causal_vocab in Ha. apply Ha, (causal_vocab_pos (target_model := target_model)).
Qed.

Lemma call_target_ctx pre ids :
  call_target target_model (pos_ctx pre) ids (seq (length pre) (length ids)) =
    Ok (target_model (pos_ctx pre) (zip ids (seq (length pre) (length ids))),
        pos_ctx (pre ++ ids)).
Proof.
  unfold call_target. rewrite py_check_true by (rewrite length_seq; apply Nat.eqb_refl).
  cbn. by rewrite pos_ctx_app.
Qed.

Lemma target_rows pre ids :
  logits_to_probs (logits (target_model (pos_ctx pre) (zip ids (seq (length pre) (length ids))))) T =
    (λ i, one_hot vocab (greedy_next nl (pre ++ take (S i) ids))) <$> seq 0 (length ids).
Proof.
  unfold logits_to_probs. rewrite causal_logits, <- list_fmap_compose.
  replace (length (zip ids _)) with (length ids) by len.
  apply list_fmap_ext. intros i k Hk. unfold row_to_probs; cbn.
  apply Qltb_lt in HT. rewrite HT, causal_vocab. unfold greedy_next.
  by rewrite pos_ctx_app, take_zip_with_seq.
Qed.

(** The target row after [i] accepted drafts. *)
Definition G (pre : list nat) (cur : nat) (ds : list nat) (i : nat) : nat :=
  greedy_next nl (pre ++ [cur] ++ take i ds).

Section one_step.
Context (pre : list nat) (cur : nat) (ds : list nat) (p : DraftProposal) (max_prop : nat).
Context (Hids : verify_input_ids p = cur :: ds) (Hds : length ds = draft_token_count p)
  (Hdv : Forall (λ t, t < vocab) ds)
  (Hprobs : 0 < draft_token_count p →
    ∃ dp, draft_probs p = Some dp ∧ length dp = draft_token_count p ∧
          Forall (is_dist_row vocab) dp).
Let tprobs := (λ i, one_hot vocab (greedy_next nl (pre ++ take (S i) (cur :: ds))))
                <$> seq 0 (length (cur :: ds)).

Lemma tprobs_lookup i : i ≤ length ds → tprobs !! i = Some (one_hot vocab (G pre cur ds i)).
Proof. intros. unfold tprobs. rewrite list_lookup_fmap, lookup_seq_lt by (cbn; lia). done. Qed.

Lemma vocab_sizes_match_greedy : vocab_sizes_match p tprobs = true.
Proof.
  unfold vocab_sizes_match. destruct (draft_probs p) as [dp|] eqn:Edp; [|done].
  destruct (decide (draft_token_count p = 0)) as [->|Hn]; [done|].
  destruct (Hprobs ltac:(lia)) as (dp' & [= <-] & Hdl & Hdf).
  apply orb_true_iff. right. apply Nat.eqb_eq. unfold tprobs. cbn.
  rewrite length_one_hot. destruct dp as [|row dp]; cbn in *; [lia|].
  apply Forall_cons in Hdf as [[? _] _]. done.
Qed.

Lemma accept_phase_greedy r :
  ∃ m a r', accept_phase r p tprobs = Ok (m, a, r') ∧ a ≤ length ds ∧
    (∀ i, i < a → ds !! i = Some (G pre cur ds i)).
Proof.
  unfold accept_phase. rewrite Hids. change (drop 1 (cur :: ds)) with ds.
  destruct (0 <? draft_token_count p) eqn:E; b2p; [|eexists _, 0, _; split; [done|]; split; lia].
  destruct (Hprobs E) as (dp & -> & Hdl & Hdf).
  destruct (accept_drafts_greedy vocab (G pre cur ds) r tprobs dp ds) as (m & r' & -> & Hm & Ht & _);
    [unfold tprobs; len|intros; apply tprobs_lookup; lia|lia|done..|].
  eexists _, _, _. cbn. done.
Qed.

Lemma sample_next_greedy r a :
  a ≤ length ds → ∃ r', sample_next r p tprobs a = Ok (G pre cur ds a, r').
Proof.
  intros Ha. unfold sample_next. destruct (_ && _) eqn:E; b2p.
  - destruct (Hprobs ltac:(lia)) as (d & -> & Hl & Hd).
    rewrite tprobs_lookup by done.
    destruct (lookup_lt_is_Some_2 d a ltac:(lia)) as [q Hq]. rewrite Hq.
    apply sample_residual_one_hot; [apply greedy_next_lt|].
    rewrite Forall_lookup in Hd. by apply (Hd a).
  - assert (a = length ds) as -> by (apply andb_false_iff in E as [?|?]; b2p; lia).
    rewrite last_lookup. unfold tprobs at 1. rewrite length_fmap, length_seq. cbn [pred length].
    rewrite tprobs_lookup by lia. apply multinomial_one_hot, greedy_next_lt.
Qed.

Lemma drafts_chain a :
  a ≤ length ds → (∀ i, i < a → ds !! i = Some (G pre cur ds i)) →
  greedy_chain nl (pre ++ [cur]) (take a ds).
Proof.
  clear Hids Hds Hdv Hprobs.
  intros Ha Hi i g [Hg Hlt]%lookup_take_Some. rewrite Hi in Hg by done. injection Hg as <-.
  unfold G. by rewrite take_take, Nat.min_l, <- app_assoc by lia.
Qed.
End one_step.

(** One verification step accepts a greedy continuation and proposes its successor. *)
Lemma verify_greedy r p pre cur max_prop stop positions :
  proposal_ok vocab max_prop cur p →
  positions.[length pre, length pre + (draft_token_count p + 1)] =
    seq (length pre) (draft_token_count p + 1) →
  ∃ v r' ds, verify_input_ids p = cur :: ds ∧ length ds = draft_token_count p ∧
    verify_draft_tokens target_model r p positions (length pre) (pos_ctx pre) T max_prop
      (Some [cur]) stop = Ok (v, pos_ctx (pre ++ cur :: ds), r') ∧
    accepted_draft_tokens v ≤ draft_token_count p ∧
    greedy_chain nl (pre ++ [cur]) (take (accepted_draft_tokens v) ds) ∧
    next_token v = greedy_next nl (pre ++ [cur] ++ take (accepted_draft_tokens v) ds) ∧
    find_index (is_stop stop) (take (accepted_draft_tokens v) ds) =
      (if terminated_by_stop_token v then Some (accepted_draft_tokens v - 1) else None).
Proof.
  intros [Hcount (ds & Hids & Hds & Hdv) Hprobs] Hpos.
  assert (Hlen : length (cur :: ds) = draft_token_count p + 1) by len.
  unfold verify_draft_tokens. rewrite Hids, Hpos.
  rewrite (proj2 (Nat.leb_le _ _) Hcount), (bool_decide_eq_true_2 _ eq_refl).
  cbn [py_check mbind result_bind]. rewrite <- Hlen, call_target_ctx. cbn [mbind result_bind].
  rewrite target_rows, vocab_sizes_match_greedy by done. cbn [py_check mbind result_bind].
  destruct (accept_phase_greedy pre cur ds p Hids Hds Hdv Hprobs r) as (m & a & r1 & -> & Ha & Hai).
  cbn [mbind result_bind].
  rewrite accepted_eos_spec. destruct (find_index _ _) as [k|] eqn:Ek.
  - pose proof (find_index_lt _ _ _ Ek) as Hk. rewrite length_take in Hk.
    destruct (sample_next_greedy pre cur ds p Hds Hprobs r1 (k + 1) ltac:(lia)) as [r2 ->].
    eexists _, _, ds. cbn. do 3 (split; [done|]). cbn. split; [lia|]. split; [|split; [done|]].
    + apply drafts_chain; [lia|]. intros i Hi. apply Hai. lia.
    + rewrite (find_index_take_eq _ a _ _ k) by (done || lia). f_equal. lia.
  - destruct (sample_next_greedy pre cur ds p Hds Hprobs r1 a Ha) as [r2 ->].
    eexists _, _, ds. cbn. do 3 (split; [done|]). cbn. split; [lia|]. split; [|done].
    by apply drafts_chain.
Qed.

(** The single row kept by [logits_to_keep=1] after prefill. *)
Lemma first_token_rows input :
  0 < length input →
  let lg := logits (target_model [] (zip input (seq 0 (length input)))) in
  logits_to_probs (drop (length lg - 1) lg) T = [one_hot vocab (greedy_next nl input)].
Proof.
  intros Hn lg. pose proof (target_rows [] input) as Hr. cbn in Hr.
  change (pos_ctx []) with (@nil (nat * nat)) in Hr.
  assert (Hlg : length lg = length input) by (unfold lg; rewrite causal_logits; len).
  fold lg in Hr. unfold logits_to_probs in *. rewrite fmap_drop, Hr, Hlg.
  destruct (length input) as [|m] eqn:En; [lia|].
  rewrite seq_S, fmap_app, drop_app_length' by len.
  rewrite fmap_cons, fmap_nil. do 3 f_equal. rewrite take_ge; [done|lia].
Qed.
End verify_greedy.

(** ** The decoding loop, greedily *)

Lemma find_index_app_None {A} (p : A → bool) l1 l2 :
  find_index p l1 = None → find_index p (l1 ++ l2) = (λ i, length l1 + i) <$> find_index p l2.
Proof. intros E. by rewrite find_index_app, E. Qed.

Lemma has_stop_find ts stop :
  has_stop_token ts stop = match find_index (is_stop stop) ts with Some _ => true | None => false end.
Proof.
  destruct (find_index (is_stop stop) ts) as [k|] eqn:E; destruct stop as [ids|]; cbn.
  - apply find_index_existsb; eauto.
  - by rewrite is_stop_trivial in E.
  - destruct (existsb _ _) eqn:E'; [|done]. apply find_index_existsb in E' as [? ?]. congruence.
  - done.
Qed.

Lemma trim_output_spec input x stop :
  trim_output_ids (input ++ x) (length input) stop =
    input ++ match find_index (is_stop stop) x with Some k => take (S k) x | None => x end.
Proof.
  unfold trim_output_ids. destruct stop as [ids|]; [|by rewrite is_stop_trivial].
  rewrite drop_app_length. destruct (find_index _ x) as [k|]; [|done].
  replace (length input + k + 1) with (length input + S k) by lia. apply take_app_add.
Qed.

Lemma seq_slice n s k : s + k ≤ n → (seq 0 n).[s, s + k] = seq s k.
Proof.
  intros. apply list_eq. intros i. destruct (decide (i < k)).
  - rewrite lookup_py_slice by lia. rewrite !lookup_seq_lt by lia. done.
  - rewrite !lookup_ge_None_2; [done|len..].
Qed.

(** ** The contract of a draft algorithm

    What the decoding loop relies on.  [I start c] holds of the context when the loop
    is at position [start]; [J start p c] after [p] was proposed there. *)

(** [v] is the verification of [p] at position [start]. *)
Definition verified {RNG H} `{!TorchRandom RNG} (target_model : kv_cache → list (nat * nat) → TargetOutput H)
    (T : Q) (max_prop : nat) (stop : option (list nat)) (p : DraftProposal) (start : nat)
    (v : VerificationResult H) : Prop :=
  ∃ (r : RNG) positions past cur past' r',
    verify_draft_tokens target_model r p positions start past T max_prop cur stop = Ok (v, past', r').

Record DraftContract {RNG H C} `{!TorchRandom RNG}
    (target_model : kv_cache → list (nat * nat) → TargetOutput H) (vocab max_prop : nat) (T : Q)
    (stop : option (list nat)) (alg : DraftAlgorithm RNG H C)
    (I : nat → C → Prop) (J : nat → DraftProposal → C → Prop) : Prop := {
  dc_init inputs out positions :
    ∃ c, init_context alg (target_model [] inputs) out positions (length inputs) = Ok c ∧
      I (length inputs) c;
  dc_propose c r out start cur :
    I start c → out !! start = Some cur → start + max_prop < length out →
    ∃ p c' r', propose alg c r out (seq 0 (length out)) start stop = Ok (p, c', r') ∧
      proposal_ok vocab max_prop cur p ∧ J start p c';
  dc_post c p start v :
    J start p c → verified target_model T max_prop stop p start v →
    ∃ c', post_verify alg c p v = Ok c' ∧ J start p c';
  dc_update c p start v :
    J start p c → verified target_model T max_prop stop p start v →
    ∃ c', update alg c v = Ok c' ∧ I (start + accepted_draft_tokens v + 1) c'
}.

Section greedy_loop.
Context {RNG H C : Type} `{TorchRandomLaws RNG}.
Context (target_model : kv_cache → list (nat * nat) → TargetOutput H)
  (nl : list (nat * nat) → list Q) (vocab : nat) `{!CausalTarget target_model nl vocab}.
Context (T : Q) (HT : (T < 1 # 100000)%Q).
Context (alg : DraftAlgorithm RNG H C)
  (max_new max_prop : nat) (stop : option (list nat)) (garbage : nat → nat).
Context (I : nat → C → Prop) (J : nat → DraftProposal → C → Prop)
  (Hcontract : DraftContract target_model vocab max_prop T stop alg I J).
Context (input : list nat).
Let n := length input.
Let max_length := n + max_new.
Let size := max_length + max_prop + 1.

(** Loop invariant: everything generated so far is greedy and stop-free, and
    the cache holds exactly the tokens before [start] at their positions. *)
Record inv_with (stopped : bool) (st : loop_state (RNG := RNG) (C := C)) (gs : list nat) : Prop := {
  iw_start : n + length gs = S (ls_start st);
  iw_len : length (ls_output_ids st) = size;
  iw_out : take (S (ls_start st)) (ls_output_ids st) = input ++ gs;
  iw_chain : greedy_chain nl input gs;
  iw_past : ls_past st = pos_ctx (take (ls_start st) (ls_output_ids st));
  iw_stop : is_Some (find_index (is_stop stop) gs) ↔ stopped = true
}.

Lemma iw_current st b gs :
  inv_with b st gs → 0 < length gs →
  ∃ cur, ls_output_ids st !! ls_start st = Some cur ∧
    (ls_output_ids st).[ls_start st, ls_start st + 1] = [cur] ∧
    take (S (ls_start st)) (ls_output_ids st) = take (ls_start st) (ls_output_ids st) ++ [cur].
Proof.
  intros [Hs Hl Ho _ _ _] Hg.
  assert (Hlt : ls_start st < length (ls_output_ids st)).
  { apply (f_equal length) in Ho. rewrite length_take, length_app in Ho. fold n in Ho. lia. }
  destruct (lookup_lt_is_Some_2 _ _ Hlt) as [cur Hcur]. exists cur. split; [done|].
  split; [|by apply take_S_r]. apply list_eq. intros [|i].
  - rewrite lookup_py_slice by lia. by rewrite Nat.add_0_r.
  - rewrite lookup_ge_None_2; [done|len].
Qed.

Notation step := (decode_step target_model alg max_prop T stop).

(** Extending the invariant by tokens already written to the buffer. *)
Lemma inv_extend st gs new (st' : loop_state (RNG := RNG) (C := C)) (b : bool) :
  inv_with false st gs →
  ls_start st' = ls_start st + length new →
  length (ls_output_ids st') = size →
  take (S (ls_start st')) (ls_output_ids st') = take (S (ls_start st)) (ls_output_ids st) ++ new →
  greedy_chain nl (take (S (ls_start st)) (ls_output_ids st)) new →
  ls_past st' = pos_ctx (take (ls_start st') (ls_output_ids st')) →
  (is_Some (find_index (is_stop stop) new) ↔ b = true) →
  inv_with b st' (gs ++ new).
Proof.
  intros [Hs Hl Ho Hc Hp Hst] Hs' Hl' Ho' Hc' Hp' Hb. rewrite Ho in Ho', Hc'.
  split; [rewrite length_app; lia|done| | |done|].
  - by rewrite Ho', app_assoc.
  - by apply greedy_chain_app.
  - rewrite find_index_app_None; [rewrite <- Hb; by destruct (find_index _ new)|].
    destruct (find_index _ gs) as [k|]; [|done].
    by assert (false = true) by (apply Hst; by eexists).
Qed.

Lemma step_greedy st gs :
  inv_with false st gs → I (ls_start st) (ls_context st) → 0 < length gs →
  ls_start st < max_length →
  ∃ b st' gs', step (seq 0 size) st = Ok (b, st') ∧ inv_with b st' (gs ++ gs') ∧
    ls_start st < ls_start st' ∧ (b = false → I (ls_start st') (ls_context st')).
Proof.
  intros Hinv HI Hg Hlt. destruct (iw_current _ _ _ Hinv Hg) as (cur & Hcur & Hslice & Htake).
  pose proof Hinv as [_ Hl _ _ Hp _].
  destruct (dc_propose _ _ _ _ _ _ _ _ Hcontract (ls_context st) (ls_rng st) (ls_output_ids st)
              (ls_start st) cur HI Hcur) as (p & ctx' & r' & Ep & Hok & HJ);
    [rewrite Hl; unfold size; lia|]. rewrite Hl in Ep.
  pose proof (po_count _ _ _ _ Hok) as Hcnt.
  set (out := ls_output_ids st) in *. set (s := ls_start st) in *.
  set (pre := take s out) in *. assert (Hpre : length pre = s) by (unfold pre; rewrite length_take, Hl; unfold size; lia).
  destruct (verify_greedy target_model nl vocab T HT r' p pre cur max_prop stop (seq 0 size) Hok)
    as (v & r'' & ds & Hids & Hds & Ev & Ha & Hchain & Hnext & Hfind).
  { apply seq_slice. unfold size. lia. }
  unfold decode_step. fold out s. rewrite Ep. cbn [mbind result_bind].
  rewrite Hslice, Hp. fold pre. rewrite Hpre in Ev. rewrite Ev. cbn [mbind result_bind].
  assert (Hver : verified target_model T max_prop stop p s v) by (by eexists _, _, _, _, _, _).
  destruct (dc_post _ _ _ _ _ _ _ _ Hcontract ctx' p s v HJ Hver) as (ctx1 & -> & HJ1).
  cbn [mbind result_bind].
  destruct (dc_update _ _ _ _ _ _ _ _ Hcontract ctx1 p s v HJ1 Hver) as (ctx2 & Eu & HI2).
  set (a := accepted_draft_tokens v) in *.
  assert (Hsrc : (verify_input_ids p).[0, a + 1] = cur :: take a ds).
  { rewrite Hids, py_slice_0. replace (a + 1) with (S a) by lia. done. }
  rewrite Hsrc. assert (Hla : length (take a ds) = a) by (rewrite length_take; lia).
  rewrite py_check_true
    by (rewrite length_py_slice, Hl; cbn [length]; rewrite Hla; apply Nat.eqb_eq; unfold size; lia).
  cbn [mbind result_bind].
  rewrite slice_assign_ok by (cbn [length]; rewrite Hla, Hl; unfold size; lia).
  set (out1 := take s out ++ _). cbn [mbind result_bind].
  assert (Hl1 : length out1 = size).
  { unfold out1. rewrite !length_app, length_take, length_drop. cbn [length]. rewrite Hla, Hl.
    unfold size; lia. }
  assert (Ht1 : take (s + S a) out1 = pre ++ [cur] ++ take a ds).
  { unfold out1. fold pre. rewrite <- Hpre, take_app_add. f_equal.
    rewrite take_app_le by (cbn; lia). by rewrite take_ge by (cbn; lia). }
  assert (Hc2 : take (s + a + 1) (pre ++ cur :: ds) = take (s + a + 1) out1).
  { replace (s + a + 1) with (s + S a) by lia. by rewrite Ht1, <- Hpre, take_app_add. }
  assert (Hc1 : take (s + a) (pre ++ cur :: ds) = take (s + a) out1).
  { apply (f_equal (take (s + a))) in Hc2. by rewrite !take_take, !Nat.min_l in Hc2 by lia. }
  rewrite app_assoc, <- Htake in Ht1. rewrite <- Htake in Hchain.
  rewrite app_assoc, <- Htake in Hnext.
  destruct (terminated_by_stop_token v).
  - eexists true, _, (take a ds). split; [done|]. split.
    + apply (inv_extend st); cbn; fold s out; rewrite ?Hla, ?Hfind; try done.
      * by replace (S (s + a)) with (s + S a) by lia.
      * unfold crop. by rewrite pos_ctx_take, Hc1.
    + cbn. apply find_index_lt in Hfind. split; [lia|done].
  - rewrite Eu. rewrite py_check_true by (apply Nat.ltb_lt; unfold size in *; lia). cbn [mbind result_bind].
    eexists _, _, (take a ds ++ [next_token v]). split; [done|].
    split; [|cbn; split; [lia|by intros _]].
    assert (Hout2 : take (S (s + a + 1)) (<[s + a + 1 := next_token v]> out1) =
              take (S s) out ++ take a ds ++ [next_token v]).
    { rewrite take_S_insert by (unfold size in *; lia).
      replace (s + a + 1) with (s + S a) by lia. by rewrite Ht1, app_assoc. }
    apply (inv_extend st); cbn; fold s out; try done.
    + rewrite length_app. cbn. lia.
    + by rewrite length_insert.
    + apply greedy_chain_app; [done|]. intros [|i] g; cbn; [|done].
      intros [= <-]. by rewrite app_nil_r.
    + unfold crop. by rewrite pos_ctx_take, take_insert_ge, Hc2 by lia.
    + rewrite has_stop_find, py_slice_alt. replace (s + a + 2) with (S (s + a + 1)) by lia.
      rewrite Hout2, drop_app_length' by (rewrite Htake, length_app; cbn; lia).
      rewrite find_index_app_None by done. cbn.
      destruct (is_stop stop (next_token v)); cbn; naive_solver.
Qed.

Lemma loop_greedy fuel st gs :
  inv_with false st gs → I (ls_start st) (ls_context st) → 0 < length gs →
  max_length - ls_start st ≤ fuel →
  ∃ b st' gs',
    decode_loop target_model alg max_prop T stop fuel (seq 0 size)
      max_length st = Ok st' ∧
    inv_with b st' gs' ∧ (b = false → max_length ≤ ls_start st').
Proof.
  revert st gs. induction fuel as [|fuel IH]; intros st gs Hinv HI Hg Hf; cbn [decode_loop].
  - destruct (Nat.ltb_spec (ls_start st) max_length); [lia|].
    exists false, st, gs. (split; [done|]; split; [done|lia]).
  - destruct (Nat.ltb_spec (ls_start st) max_length); [|exists false, st, gs; (split; [done|]; split; [done|lia])].
    destruct (step_greedy st gs Hinv HI Hg ltac:(done)) as (b & st1 & gs1 & -> & Hinv1 & Hlt & HI1).
    cbn [mbind result_bind]. destruct b; [by exists true, st1, (gs ++ gs1)|].
    apply (IH st1 (gs ++ gs1)); [done|by apply HI1|rewrite length_app; lia|lia].
Qed.

(** Cutting the buffer at the end of the loop. *)
Lemma finish_greedy b st gs :
  inv_with b st gs → (b = false → max_length ≤ ls_start st) →
  trim_output_ids (take (Nat.min (ls_start st + 1) max_length) (ls_output_ids st)) n stop =
    input ++ greedy_decode nl stop input max_new.
Proof.
  intros [Hs Hl Ho Hc _ Hst] Hb.
  assert (Htake : take (Nat.min (ls_start st + 1) max_length) (ls_output_ids st) =
            input ++ take max_new gs).
  { replace (ls_start st + 1) with (S (ls_start st)) by lia.
    rewrite Nat.min_comm, <- take_take, Ho. apply take_app_add. }
  rewrite Htake. unfold n. rewrite trim_output_spec. f_equal.
  pose proof (greedy_chain_decode nl stop input gs max_new Hc) as Hd.
  destruct (find_index (is_stop stop) (take max_new gs)) as [k|] eqn:Ek.
  - apply find_index_lt in Ek. rewrite length_take in Ek.
    by rewrite Hd, take_take, Nat.min_l by lia.
  - rewrite Hd; [done|]. destruct b; [|specialize (Hb eq_refl); unfold max_length in *; lia].
    destruct (proj2 Hst eq_refl) as [k Hk].
    destruct (decide (max_new ≤ length gs)) as [|Hlt]; [done|].
    rewrite take_ge in Ek by lia. congruence.
Qed.
End greedy_loop.

(** The output buffer after prefill. *)
Lemma prefill_buffer (input : list nat) g0 (l : list nat) :
  length input < length l →
  ∃ out1 out2, slice_assign 0 input l = Ok out1 ∧ slice_assign (length input) [g0] out1 = Ok out2 ∧
    length out2 = length l ∧ take (S (length input)) out2 = input ++ [g0] ∧
    take (length input) out2 = input ∧ out2.[length input, length input + 1] = [g0].
Proof.
  intros Hl. destruct (slice_assign 0 input l) as [out1|] eqn:E1;
    [|by rewrite slice_assign_ok in E1 by lia].
  pose proof (length_slice_assign _ _ _ _ E1) as Hl1.
  pose proof (take_slice_assign _ _ _ _ E1) as Ht1. rewrite take_0 in Ht1. cbn in Ht1.
  destruct (slice_assign (length input) [g0] out1) as [out2|] eqn:E2;
    [|by rewrite slice_assign_ok in E2 by (cbn; lia)].
  pose proof (length_slice_assign _ _ _ _ E2) as Hl2.
  pose proof (take_slice_assign _ _ _ _ E2) as Ht2. rewrite Ht1, Nat.add_1_r in Ht2.
  exists out1, out2. rewrite py_slice_alt, Nat.add_1_r, Ht2. split_and!; try done; [lia| |].
  - apply (f_equal (take (length input))) in Ht2.
    rewrite take_take, Nat.min_l in Ht2 by lia. by rewrite Ht2, take_app_length.
  - by rewrite drop_app_length.
Qed.

(** ** Greedy decoding *)

Lemma decode_lossless {RNG H C : Type} `{TorchRandomLaws RNG}
    (target_model : kv_cache → list (nat * nat) → TargetOutput H) nl vocab
    (Hcausal : CausalTarget target_model nl vocab) (T : Q) (HT : (T < 1 # 100000)%Q)
    (alg : DraftAlgorithm RNG H C) I J max_new max_prop stop garbage
    (Hcontract : DraftContract target_model vocab max_prop T stop alg I J)
    (Hmax_new : 1 ≤ max_new) (Hmax_prop : 1 ≤ max_prop)
    (r : RNG) (input : list nat) (Hinput : 0 < length input) :
  ∃ s, generate_decoding_sample target_model alg
         max_new max_prop T stop garbage r input = Ok s ∧
    output_ids s = input ++ greedy_decode nl stop input max_new.
Proof.
  unfold generate_decoding_sample, py_assert.
  rewrite py_check_true by (by apply Nat.leb_le). cbn [mbind result_bind].
  set (n := length input). set (N := n + max_new + max_prop + 1).
  replace (length (garbage <$> seq 0 N)) with N by len.
  replace ((seq 0 N).[0, n]) with (seq 0 n)
    by (symmetry; apply (seq_slice N 0 n); unfold N; lia).
  pose proof (call_target_ctx target_model [] input) as Hcall. cbn in Hcall. fold n in Hcall.
  change (pos_ctx []) with (@nil (nat * nat)) in Hcall. rewrite Hcall. cbn [mbind result_bind].
  rewrite (first_token_rows target_model nl vocab T HT input Hinput).
  set (g0 := greedy_next nl input).
  destruct (prefill_buffer input g0 (garbage <$> seq 0 N)) as
    (out1 & out2 & -> & Eb & Hl2 & Hout2 & Hout1 & Hinit); [len; unfold N; lia|].
  cbn [mbind result_bind sample_from_probs].
  destruct (multinomial_one_hot r vocab g0) as [r1 ->]; [by eapply greedy_next_lt|].
  cbn [mbind result_bind]. fold n in Eb, Hout2, Hout1, Hinit. rewrite Eb. cbn [mbind result_bind].
  rewrite Hinit, has_stop_find. replace (n + 1) with (S n) by lia. rewrite Hout2. cbn [find_index].
  destruct (is_stop stop g0) eqn:Es; cbn [fmap option_fmap option_map].
  - eexists. split; [done|]. cbn. unfold n. rewrite trim_output_spec. cbn. rewrite Es.
    destruct max_new as [|m]; [lia|]. cbn. fold g0. by rewrite Es.
  - destruct (dc_init _ _ _ _ _ _ _ _ Hcontract (zip input (seq 0 n)) out2 (seq 0 N)) as (c0 & Ec & HI).
    replace (length (zip input (seq 0 n))) with n in Ec, HI by (unfold n; len).
    rewrite Ec. cbn [mbind result_bind]. set (st0 := {| ls_output_ids := out2; ls_start := n |}).
    assert (Hinv : inv_with nl max_new max_prop stop input false st0 [g0]).
    { split; cbn; fold n; try done; [lia|by rewrite Hl2, length_fmap, length_seq| | |].
      - intros [|i] g; cbn; [|done]. intros [= <-]. by rewrite app_nil_r.
      - by rewrite Hout1.
      - rewrite Es. cbn. by split; [intros [? ?]|]. }
    destruct (loop_greedy target_model nl vocab T HT alg max_new
      max_prop stop garbage I J Hcontract input max_new st0 [g0] Hinv HI) as (b & st' & gs' & Hl & Hinv' & Hb);
      [cbn; lia|cbn; fold n; lia|].
    fold n in Hl, Hb. fold N in Hl. rewrite Hl. cbn [mbind result_bind].
    eexists. split; [done|]. cbn. by eapply finish_greedy.
Qed.

(** C1: greedy speculative decoding is lossless.  At temperature 0, for every
    draft algorithm that meets [DraftContract], the loop terminates without raising
    and its output is the prompt followed by exactly the tokens of greedy
    autoregressive decoding with the target model (stop token included, at most
    [max_new_tokens] of them). *)
Theorem generate_greedy_lossless {RNG H C : Type} `{TorchRandomLaws RNG}
    (target_model : kv_cache → list (nat * nat) → TargetOutput H) nl vocab
    (Hcausal : CausalTarget target_model nl vocab) (T : Q) (HT : (T < 1 # 100000)%Q)
    (alg : DraftAlgorithm RNG H C) I J max_new max_prop stop garbage
    (Hcontract : DraftContract target_model vocab max_prop T stop alg I J)
    (Hmax_new : 1 ≤ max_new) (Hmax_prop : 1 ≤ max_prop)
    (r : RNG) (input : list nat) (Hinput : 0 < length input) :
  ∃ s, generate_decoding_sample target_model alg
         max_new max_prop T stop garbage r input = Ok s ∧
    output_ids s = input ++ greedy_decode nl stop input max_new.
Proof. by eapply decode_lossless. Qed.

Import Deterministic.

(** A three-token model that counts modulo 3, and a draft that is right once. *)
Module Counting.

Definition next_logits (ctx : list (nat * nat)) : list Q :=
  match last ctx with
  | Some (t, _) => one_hot 3 ((t + 1) mod 3)
  | None => one_hot 3 0
  end.

Definition target (past : kv_cache) (inputs : list (nat * nat)) : TargetOutput unit :=
  {| logits := (λ i, next_logits (past ++ take (S i) inputs)) <$> seq 0 (length inputs);
     hidden_states := tt |}.

#[export] Instance target_causal : CausalTarget target next_logits 3.
Proof. split; [done| |lia]. intros c. unfold next_logits. by destruct (last c) as [[]|]. Qed.

Definition draft (ctx : unit) (r : unit) (out positions : list nat) (start : nat)
    (stop : option (list nat)) : result (DraftProposal * unit * unit) :=
  let cur := default 0 (out !! start) in
  Ok ({| draft_token_count := 2;
         verify_input_ids := [cur; (cur + 1) mod 3; (cur + 1) mod 3];
         draft_probs := Some (replicate 2 (one_hot 3 ((cur + 1) mod 3))) |}, ctx, r).

Lemma draft_ok ctx r out positions start cur :
  out !! start = Some cur →
  ∃ p ctx' r', draft ctx r out positions start (Some [0]) = Ok (p, ctx', r') ∧
    proposal_ok 3 2 cur p.
Proof.
  intros Hc. eexists _, _, _. split; [done|]. rewrite Hc. cbn [default].
  pose proof (Nat.mod_upper_bound (cur + 1) 3 ltac:(lia)). split; cbn.
  - lia.
  - eexists. split; [done|]. split; [done|]. by rewrite !Forall_cons.
  - intros _. eexists. split; [done|]. split; [done|].
    assert (is_dist_row 3 (one_hot 3 ((cur + 1) mod 3))); [|by rewrite !Forall_cons].
    split; [done|]. apply Forall_lookup. intros i x Hi.
    pose proof (lookup_lt_Some _ _ _ Hi) as Hl. rewrite length_one_hot in Hl.
    rewrite one_hot_lookup in Hi by done. destruct (i =? _); simplify_eq; lra.
Qed.

Definition alg : DraftAlgorithm unit unit unit :=
  {| init_context _ _ _ _ := Ok tt; propose := draft;
     update c _ := Ok c; post_verify c _ _ := Ok c |}.

Lemma alg_contract : DraftContract target 3 2 0%Q (Some [0]) alg (λ _ _, True) (λ _ _ _, True).
Proof.
  split; cbn; [by eexists| |by eexists|by eexists].
  intros c r out start cur _ Hcur _. destruct (draft_ok c r out (seq 0 (length out)) start cur Hcur)
    as (p & c' & r' & ? & ?). by exists p, c', r'.
Qed.

Definition run : result DecodingSample :=
  generate_decoding_sample target alg 5 2 0%Q (Some [0]) (λ _, 7) tt [1; 1].

Example run_result : output_ids <$> run = Ok [1; 1; 2; 0].
Proof. vm_compute. reflexivity. Qed.
End Counting.

Lemma generate_greedy_lossless_witness :
  ∃ s, Counting.run = Ok s ∧
    output_ids s = [1; 1] ++ greedy_decode Counting.next_logits (Some [0]) [1; 1] 5.
Proof.
  apply (generate_greedy_lossless (RNG := unit) Counting.target Counting.next_logits 3
           Counting.target_causal 0%Q ltac:(reflexivity) Counting.alg (λ _ _, True) (λ _ _ _, True)).
  - apply Counting.alg_contract.
  - lia.
  - lia.
  - cbn. lia.
Defined.

(** ** The emitted distribution of one verified position *)

(** Probability that the position emits token [x]: the draft proposes [x] and it is
    accepted, or some proposal is rejected and the residual sample is [x]. *)
Definition emitted (p q : list Q) (x : nat) : Q :=
  (default 0 (q !! x) * accept_prob (default 0 (p !! x)) (default 0 (q !! x)) +
   (1 - Qsum (zip_with (λ px qx, qx * accept_prob px qx) p q)) *
     default 0 (residual_probs p q !! x))%Q.

Definition residual_mass (p q : list Q) : Q := Qsum (zip_with (λ px qx, Qmax (px - qx) 0) p q).

(** A draft probability the clamp of the code does not distort. *)
Definition unclamped (q : Q) : Prop := (q == 0 ∨ (1 # 100000000) <= q)%Q.

Lemma accept_weight p q :
  (0 <= p)%Q → (0 <= q)%Q → unclamped q →
  (q * accept_prob p q == p - Qmax (p - q) 0)%Q.
Proof.
  intros Hp Hq Hu. unfold unclamped in Hu. destruct Hu as [H0|Hc].
  - assert (Ha : (q * accept_prob p q == 0 * accept_prob p q)%Q) by (by apply Qmult_comp).
    rewrite Ha. qminmax. lra.
  - unfold accept_prob. assert (Hm : (Qmax q (1 # 100000000) == q)%Q) by (qminmax; lra).
    rewrite Hm. assert (Hd : (p / q * q == p)%Q) by (field; lra).
    destruct (Qmin_case_spec (p / q) 1) as [[-> Hle]|[-> Hle]].
    + assert (p / q * q <= 1 * q)%Q by (apply Qmult_le_compat_r; lra).
      rewrite Qmult_comm, Hd. qminmax. lra.
    + assert (1 * q <= p / q * q)%Q by (apply Qmult_le_compat_r; lra).
      qminmax. lra.
Qed.

Lemma accept_weight_sum p q :
  length p = length q → Forall (λ x, 0 <= x)%Q p → Forall (λ x, 0 <= x)%Q q →
  Forall unclamped q →
  (Qsum (zip_with (λ px qx, qx * accept_prob px qx) p q) == Qsum p - residual_mass p q)%Q.
Proof.
  unfold residual_mass. revert q. induction p as [|px p IH]; intros [|qx q] Hl Hp Hq Hu; try done.
  cbn in Hl. rewrite !Forall_cons in Hp, Hq, Hu. cbn [zip_with]. rewrite !Qsum_cons.
  rewrite IH by (try lia; naive_solver). rewrite accept_weight by naive_solver. lra.
Qed.

Lemma Qsum_nonneg_zero l i x :
  Forall (λ x, 0 <= x)%Q l → (Qsum l <= 0)%Q → l !! i = Some x → (x == 0)%Q.
Proof.
  intros Hl Hs Hi. destruct (Qlt_le_dec 0 x) as [Hx|Hx].
  - pose proof (Qsum_pos _ _ _ Hl Hi Hx). lra.
  - rewrite Forall_lookup in Hl. specialize (Hl i x Hi). cbn in Hl. lra.
Qed.

(** C2: one step of speculative sampling emits exactly the target distribution:
    accepting with probability min(1, p/q) and resampling the residual on rejection
    gives every token its target probability, as long as the 1e-8 clamps of the code
    are inactive (draft probabilities and residual mass are 0 or above 1e-8). *)
Theorem speculative_sampling_exact (p q : list Q)
    (Hlen : length p = length q)
    (Hp : Forall (λ x, 0 <= x)%Q p) (Hq : Forall (λ x, 0 <= x)%Q q)
    (Hsum : (Qsum p == 1)%Q)
    (Hclamp : Forall unclamped q)
    (Hmass : (residual_mass p q <= 0 ∨ 1 # 100000000 < residual_mass p q)%Q)
    (x : nat) (px : Q) (Hx : p !! x = Some px) :
  (emitted p q x == px)%Q.
Proof.
  destruct (lookup_lt_is_Some_2 q x) as [qx Hqx];
    [rewrite <- Hlen; by eapply lookup_lt_Some|].
  unfold emitted. rewrite Hx, Hqx. cbn [default from_option id].
  rewrite accept_weight_sum, Hsum by done.
  pose proof Hp as Hpx. rewrite Forall_lookup in Hpx. specialize (Hpx x px Hx). cbn in Hpx.
  pose proof Hq as Hqx0. rewrite Forall_lookup in Hqx0. specialize (Hqx0 x qx Hqx). cbn in Hqx0.
  rewrite Forall_lookup in Hclamp. rewrite accept_weight by (try done; by eapply Hclamp).
  set (res := zip_with (λ p q, Qmax (p - q) 0) p q).
  assert (Hrx : res !! x = Some (Qmax (px - qx) 0)%Q)
    by (unfold res; by rewrite lookup_zip_with, Hx, Hqx).
  assert (Hnn : Forall (λ x, 0 <= x)%Q res).
  { apply Forall_lookup. intros i y. unfold res. intros (a & b & -> & _ & _)%lookup_zip_with_Some.
    qminmax; lra. }
  unfold residual_mass in *. unfold residual_probs. fold res. fold res in Hmass.
  destruct Hmass as [Hm|Hm].
  - pose proof (Qsum_nonneg_zero _ _ _ Hnn Hm Hrx) as Hz. pose proof (Qsum_nonneg _ Hnn).
    assert (Hs : (Qsum res == 0)%Q) by lra.
    match goal with |- context [((1 - (1 - Qsum res)) * ?t)%Q] => generalize t end. intros y.
    rewrite Hs, Hz. ring.
  - destruct (Qle_bool _ _) eqn:E; [apply Qle_bool_iff in E; lra|].
    rewrite list_lookup_fmap, Hrx. cbn [fmap option_fmap option_map default from_option id].
    assert (Hmx : (Qmax (Qsum res) (1 # 100000000) == Qsum res)%Q) by (qminmax; lra).
    rewrite Hmx. field. lra.
Qed.

Lemma speculative_sampling_exact_witness :
  (emitted [1 # 2; 1 # 2] [1; 0] 1 == 1 # 2)%Q.
Proof.
  apply (speculative_sampling_exact [1 # 2; 1 # 2]%Q [1; 0]%Q).
  - reflexivity.
  - rewrite !Forall_cons. split_and!; [lra|lra|constructor].
  - rewrite !Forall_cons. split_and!; [lra|lra|constructor].
  - reflexivity.
  - rewrite !Forall_cons. split_and!; [right; lra|left; reflexivity|constructor].
  - right. reflexivity.
  - reflexivity.
Defined.

(** ** Bookkeeping of the decoding loop *)

Lemma cumprod_from_le acc l : acc ≤ 1 → Forall (λ x, x ≤ 1) l → sum_list (cumprod_from acc l) ≤ length l.
Proof.
  intros Ha Hl. revert acc Ha. induction Hl as [|x l Hx Hl IH]; intros acc Ha; cbn; [done|].
  assert (acc * x ≤ 1) by nia. specialize (IH (acc * x) ltac:(done)). lia.
Qed.

(** Steps of a finished run, as (acceptance, proposal, accepted draft) lengths. *)
Definition step_lengths_ok (max_prop : nat) (accs props drafts : list nat) : Prop :=
  length accs = length props ∧ length drafts = length props ∧
  ∀ i a p d, accs !! i = Some a → props !! i = Some p → drafts !! i = Some d →
    d ≤ p ∧ p ≤ max_prop ∧ d ≤ a ∧ a ≤ d + 1.

Lemma step_lengths_snoc max_prop accs props drafts a p d :
  step_lengths_ok max_prop accs props drafts →
  d ≤ p → p ≤ max_prop → d ≤ a → a ≤ d + 1 →
  step_lengths_ok max_prop (accs ++ [a]) (props ++ [p]) (drafts ++ [d]).
Proof.
  intros (H1 & H2 & H3) ? ? ? ?. split; [len|]. split; [len|]. intros i a' p' d' Ha Hp' Hd.
  apply lookup_snoc_Some in Ha, Hp', Hd.
  destruct Ha as [[? Ha]|[-> ->]], Hp' as [[? Hp']|[? ->]], Hd as [[? Hd]|[? ->]]; try lia.
  by eapply H3.
Qed.

Section bookkeeping.
Context {RNG H C : Type} `{!TorchRandom RNG}.
Context (target_model : kv_cache → list (nat * nat) → TargetOutput H).

Lemma accept_drafts_le r tprobs dp ds m r' :
  accept_drafts (RNG := RNG) r tprobs dp ds = Ok (m, r') → sum_list m ≤ length ds.
Proof.
  unfold accept_drafts. intros Hm. apply result_bind_Ok in Hm as (st & Hst & Hm).
  apply result_bind_Ok in Hm as (sd & Hsd & Hm).
  unfold gather_token_probs in Hst. inv_ok.
  match goal with Hx : mapM _ _ = Ok st |- _ => apply mapM_Ok_length in Hx end.
  destruct (rand_like _ _) as [u r1]. injection Hm as <- _. unfold cumprod.
  etrans; [apply cumprod_from_le; [done|]|len].
  apply Forall_lookup. intros i y (u' & a & -> & _ & _)%lookup_zip_with_Some. cbn. destruct (Qltb _ _); lia.
Qed.

Lemma verify_bounds r p positions start past T max_prop cur stop v past' r' :
  verify_draft_tokens target_model r p positions start past T max_prop cur stop = Ok (v, past', r') →
  accepted_draft_tokens v ≤ effective_proposal_length v ∧ effective_proposal_length v ≤ max_prop.
Proof.
  unfold verify_draft_tokens. intros Hv. inv_ok.
  destruct_pairs. inv_ok.
  unfold call_target in *. inv_ok. b2p.
  match goal with Hx : accept_phase _ _ _ = Ok (_, ?k, _) |- _ =>
    rename Hx into Hacc; set (a := k) in *; clearbody a end.
  assert (Ha : a ≤ draft_token_count p).
  { unfold accept_phase in Hacc. destruct (0 <? _); [|inv_ok; lia].
    destruct (draft_probs p); [|done]. inv_ok.
    destruct_pairs. inv_ok.
    match goal with Hx : accept_drafts _ _ _ _ = _ |- _ => apply accept_drafts_le in Hx end. len. }
  destruct (accepted_eos _ _ _) as [k|] eqn:Ek; inv_ok;
    destruct_pairs; inv_ok; cbn; [|lia].
  unfold accepted_eos in Ek. destruct stop as [[|]|]; try done. destruct (0 <? a); [|done].
  apply find_index_lt in Ek. rewrite length_py_slice in Ek. lia.
Qed.

Context (alg : DraftAlgorithm RNG H C)
  (max_new max_prop : nat) (T : Q) (stop : option (list nat)) (garbage : nat → nat).

Definition st_lengths_ok (n : nat) (st : loop_state (RNG := RNG) (C := C)) : Prop :=
  step_lengths_ok max_prop (ls_acceptance_lengths st) (ls_proposal_lengths st)
    (ls_accepted_draft_lengths st) ∧
  ls_start st = n + sum_list (ls_acceptance_lengths st).

Lemma decode_step_lengths n positions st b st' :
  decode_step target_model alg max_prop T stop positions st = Ok (b, st') →
  st_lengths_ok n st → st_lengths_ok n st'.
Proof.
  unfold decode_step. intros Hs [Hok Hst]. inv_ok.
  match goal with Hv : verify_draft_tokens _ _ _ _ _ _ _ _ _ _ = Ok _ |- _ =>
    apply verify_bounds in Hv as [? ?] end.
  destruct (terminated_by_stop_token _); inv_ok; (split; cbn; [apply step_lengths_snoc; (done || lia)|]);
    rewrite sum_list_with_app; cbn; unfold sum_list in *; lia.
Qed.

Lemma decode_loop_lengths n fuel positions max_length st st' :
  decode_loop target_model alg max_prop T stop fuel positions max_length st
    = Ok st' →
  st_lengths_ok n st → st_lengths_ok n st'.
Proof.
  revert st. induction fuel as [|fuel IH]; intros st; cbn [decode_loop];
    destruct (_ <? _); intros; inv_ok; try done.
  match goal with Hs : decode_step _ _ _ _ _ _ _ = Ok (?b, _) |- _ =>
    apply (decode_step_lengths n) in Hs; [|done]; destruct b end; inv_ok; eauto.
Qed.
End bookkeeping.

(** The bookkeeping of a finished run is consistent: the three length lists have
    [verify_count] entries each, every step accepts at most what it proposed, proposes
    at most [max_proposal_tokens], and counts its accepted drafts plus at most one
    bonus token.  So the length assertion of [allreduce_response_metrics] never fires. *)
Theorem generate_bookkeeping {RNG H C : Type} `{!TorchRandom RNG}
    (target_model : kv_cache → list (nat * nat) → TargetOutput H) (alg : DraftAlgorithm RNG H C)
    max_new max_prop T stop garbage r input s
    (Hrun : generate_decoding_sample target_model alg
              max_new max_prop T stop garbage r input = Ok s) :
  step_lengths_ok max_prop (acceptance_lengths s) (proposal_lengths s) (accepted_draft_lengths s) ∧
  verify_count s = length (proposal_lengths s).
Proof.
  unfold generate_decoding_sample in Hrun. inv_ok.
  assert (Hnil : step_lengths_ok max_prop [] [] []) by (split_and!; [done..|intros ?; by rewrite lookup_nil]).
  destruct (has_stop_token _ _); inv_ok; [done|].
  match goal with Hl : decode_loop _ _ _ _ _ _ _ _ _ = Ok _ |- _ =>
    apply (decode_loop_lengths _ _ _ _ _ (length input)) in Hl as [? _]; [done|] end.
  split; cbn; [done|lia].
Qed.

Lemma generate_bookkeeping_witness :
  ∃ s, Counting.run = Ok s ∧ acceptance_lengths s = [1] ∧
  step_lengths_ok 2 (acceptance_lengths s) (proposal_lengths s) (accepted_draft_lengths s) ∧
  verify_count s = length (proposal_lengths s).
Proof.
  eexists. split; [vm_compute; reflexivity|]. split; [reflexivity|].
  apply (generate_bookkeeping (RNG := unit) Counting.target Counting.alg 5 2 0%Q (Some [0]) (λ _, 7) tt [1; 1]).
  vm_compute. reflexivity.
Defined.
