(* ===== verification/EvalMetrics.v ===== *)
(** * EvalMetrics: acceptance statistics of the evaluator

    Models [BaseEvaluator.allreduce_response_metrics] and
    [BaseEvaluator.build_metrics_row] of
    [DeepSpec/deepspec/eval/base_evaluator.py].  [dist.all_reduce(SUM)] is
    third-party code: it is an argument that maps the vectors of all ranks to the
    reduced vector.  Rates are exact rationals. *)

From S2P Require Import Prelude Sampling SpecDecode SpecDecodeProps.
#[local] Open Scope nat_scope.

(** What [getattr(response, ..., None)] yields. *)
Record Response := {
  r_acceptance_lengths : option (list nat);
  r_proposal_lengths : option (list nat);
  r_accepted_draft_lengths : option (list nat)
}.

Definition response_of_sample (s : DecodingSample) : Response :=
  {| r_acceptance_lengths := Some (acceptance_lengths s);
     r_proposal_lengths := Some (proposal_lengths s);
     r_accepted_draft_lengths := Some (accepted_draft_lengths s) |}.

Record MetricSummary := {
  sample_count : nat;
  proposal_count : nat;
  acceptance_length_sum : nat;
  proposal_length_sum : nat;
  proposals_at_pos : list nat;
  accepted_at_pos : list nat
}.

(** [for pos_idx in range(max): if len > pos_idx: counts[pos_idx] += 1]. *)
Definition bump_positions (len : nat) (counts : list nat) : list nat :=
  imap (λ pos c, if pos <? len then c + 1 else c) counts.

Definition count_step (m : MetricSummary) (step : nat * nat * nat) : MetricSummary :=
  let '(acc, prop, dr) := step in
  {| sample_count := sample_count m;
     proposal_count := proposal_count m + 1;
     acceptance_length_sum := acceptance_length_sum m + acc;
     proposal_length_sum := proposal_length_sum m + prop;
     proposals_at_pos := bump_positions prop (proposals_at_pos m);
     accepted_at_pos := bump_positions dr (accepted_at_pos m) |}.

Definition count_response (m : MetricSummary) (r : Response) : result MetricSummary :=
  match r_acceptance_lengths r, r_proposal_lengths r, r_accepted_draft_lengths r with
  | Some accs, Some props, Some drs =>
      _ ← py_assert ((length accs =? length props) && (length props =? length drs));
      Ok (foldl count_step m (zip (zip accs props) drs))
  | _, _, _ => Ok m
  end.

Fixpoint count_responses (m : MetricSummary) (rs : list Response) : result MetricSummary :=
  match rs with
  | [] => Ok m
  | r :: rs => m ← count_response m r; count_responses m rs
  end.

Definition local_metrics (max_proposal_tokens : nat) (rs : list Response) : result MetricSummary :=
  count_responses
    {| sample_count := length rs; proposal_count := 0; acceptance_length_sum := 0;
       proposal_length_sum := 0;
       proposals_at_pos := replicate max_proposal_tokens 0;
       accepted_at_pos := replicate max_proposal_tokens 0 |} rs.

Definition scalar_tensor (m : MetricSummary) : list nat :=
  [sample_count m; proposal_count m; acceptance_length_sum m; proposal_length_sum m].
Definition position_tensor (m : MetricSummary) : list nat :=
  proposals_at_pos m ++ accepted_at_pos m.

Section reduce.
(** [dist.all_reduce(tensor, SUM)], given every rank's tensor. *)
Variable all_reduce : list (list nat) → list nat.

(** The summary every rank ends up with. *)
Definition allreduce_response_metrics (max_proposal_tokens : nat) (ranks : list (list Response))
  : result MetricSummary :=
  ms ← mapM (local_metrics max_proposal_tokens) ranks;
  let scalars := all_reduce (scalar_tensor <$> ms) in
  let positions :=
    if 0 <? max_proposal_tokens then all_reduce (position_tensor <$> ms) else [] in
  match scalars with
  | [sc; pc; al; pl] =>
      Ok {| sample_count := sc; proposal_count := pc; acceptance_length_sum := al;
            proposal_length_sum := pl;
            proposals_at_pos := take max_proposal_tokens positions;
            accepted_at_pos := drop max_proposal_tokens positions |}
  | _ => Raise IndexError
  end.
End reduce.

Record MetricsRow := {
  num_samples : nat;
  draft_tokens_per_proposal : Q;
  acceptance_length : Q;
  verify_rate : Q;
  accept_rates_by_position : list (option Q)
}.

Definition Qnat (n : nat) : Q := inject_Z (Z.of_nat n).

Definition accept_rate_at (m : MetricSummary) (pos_idx : nat) : result (option Q) :=
  match proposals_at_pos m !! pos_idx with
  | None => Raise IndexError
  | Some 0 => Ok None
  | Some p =>
      match accepted_at_pos m !! pos_idx with
      | None => Raise IndexError
      | Some a => Ok (Some (Qnat a / Qnat p)%Q)
      end
  end.

Definition build_metrics_row (max_proposal_tokens : nat) (m : MetricSummary) : result MetricsRow :=
  let pc := proposal_count m in
  if pc =? 0 then
    Ok {| num_samples := sample_count m; draft_tokens_per_proposal := 0; acceptance_length := 0;
          verify_rate := 0; accept_rates_by_position := replicate max_proposal_tokens None |}
  else
    rates ← mapM (accept_rate_at m) (seq 0 max_proposal_tokens);
    Ok {| num_samples := sample_count m;
          draft_tokens_per_proposal := (Qnat (proposal_length_sum m) / Qnat pc)%Q;
          acceptance_length := (Qnat (acceptance_length_sum m) / Qnat pc)%Q;
          verify_rate := (Qnat (acceptance_length_sum m) / Qnat (proposal_length_sum m + pc))%Q;
          accept_rates_by_position := rates |}.

(** ** Counting is a histogram *)

(** All (acceptance, proposal, draft) steps of a list of responses. *)
Definition response_steps (r : Response) : list (nat * nat * nat) :=
  match r_acceptance_lengths r, r_proposal_lengths r, r_accepted_draft_lengths r with
  | Some accs, Some props, Some drs => zip (zip accs props) drs
  | _, _, _ => []
  end.
Definition all_steps (rs : list Response) : list (nat * nat * nat) := rs ≫= response_steps.

Definition count_above (f : nat * nat * nat → nat) (pos : nat) (steps : list (nat * nat * nat)) : nat :=
  length (filter (λ s, pos < f s) steps).

#[global] Arguments count_above : simpl never.

Definition acc_of (s : nat * nat * nat) : nat := s.1.1.
Definition prop_of (s : nat * nat * nat) : nat := s.1.2.
Definition draft_of (s : nat * nat * nat) : nat := s.2.

Lemma bump_lookup len counts pos :
  bump_positions len counts !! pos = (λ c, if pos <? len then c + 1 else c) <$> counts !! pos.
Proof. unfold bump_positions. by rewrite list_lookup_imap. Qed.

Lemma bump_length len counts : length (bump_positions len counts) = length counts.
Proof. apply length_imap. Qed.

(** The state reached by counting [steps] from [m0]. *)
Record counted (m0 : MetricSummary) (steps : list (nat * nat * nat)) (m : MetricSummary) : Prop := {
  ct_samples : sample_count m = sample_count m0;
  ct_count : proposal_count m = proposal_count m0 + length steps;
  ct_acc : acceptance_length_sum m = acceptance_length_sum m0 + sum_list_with acc_of steps;
  ct_prop : proposal_length_sum m = proposal_length_sum m0 + sum_list_with prop_of steps;
  ct_ppos pos : proposals_at_pos m !! pos =
    (λ c, c + count_above prop_of pos steps) <$> proposals_at_pos m0 !! pos;
  ct_apos pos : accepted_at_pos m !! pos =
    (λ c, c + count_above draft_of pos steps) <$> accepted_at_pos m0 !! pos
}.

Lemma counted_nil m : counted m [] m.
Proof. split; cbn; try lia; intros pos; destruct (_ !! pos); cbn; try done; f_equal;
  unfold count_above; cbn; lia. Qed.

Lemma count_above_cons f pos s steps :
  count_above f pos (s :: steps) = (if pos <? f s then 1 else 0) + count_above f pos steps.
Proof.
  unfold count_above. rewrite filter_cons.
  destruct (Nat.ltb_spec pos (f s)); case_decide; cbn; lia.
Qed.

Lemma count_above_app f pos s1 s2 :
  count_above f pos (s1 ++ s2) = count_above f pos s1 + count_above f pos s2.
Proof. unfold count_above. by rewrite filter_app, length_app. Qed.

Lemma counted_trans m0 s1 m1 s2 m2 :
  counted m0 s1 m1 → counted m1 s2 m2 → counted m0 (s1 ++ s2) m2.
Proof.
  intros [A1 A2 A3 A4 A5 A6] [B1 B2 B3 B4 B5 B6].
  split; rewrite ?length_app, ?sum_list_with_app; try lia; intros pos;
    rewrite ?B5, ?B6, ?A5, ?A6, count_above_app; destruct (_ !! pos); cbn; try done; f_equal; lia.
Qed.

Lemma counted_step m s : counted m [s] (count_step m s).
Proof.
  destruct s as [[a p] d]. split; cbn; try (unfold acc_of, prop_of; cbn; lia); intros pos;
    rewrite bump_lookup, count_above_cons; destruct (_ !! pos); cbn; try done; f_equal;
    unfold prop_of, draft_of, count_above; cbn; repeat match goal with |- context [if ?b then _ else _] => destruct b end; lia.
Qed.

Lemma counted_fold m steps : counted m steps (foldl count_step m steps).
Proof.
  revert m. induction steps as [|s steps IH]; intros m; cbn; [apply counted_nil|].
  change (s :: steps) with ([s] ++ steps). eapply counted_trans; [apply counted_step|apply IH].
Qed.

Lemma counted_response m r m' : count_response m r = Ok m' → counted m (response_steps r) m'.
Proof.
  unfold count_response, response_steps. intros Hm.
  destruct (r_acceptance_lengths r), (r_proposal_lengths r), (r_accepted_draft_lengths r);
    inv_ok; (apply counted_fold || apply counted_nil).
Qed.

Lemma counted_responses m rs m' : count_responses m rs = Ok m' → counted m (all_steps rs) m'.
Proof.
  revert m. induction rs as [|r rs IH]; intros m Hm; cbn in *.
  - injection Hm as <-. apply counted_nil.
  - apply result_bind_Ok in Hm as (m1 & H1 & Hm). unfold all_steps. cbn.
    eapply counted_trans; [by apply counted_response|by apply IH].
Qed.

(** ** The reduced summary *)

(** Documented behaviour of [all_reduce] with [ReduceOp.SUM]: an elementwise sum. *)
Class AllReduceSum (all_reduce : list (list nat) → list nat) : Prop :=
  all_reduce_sum vs k :
    vs ≠ [] → Forall (λ v, length v = k) vs →
    all_reduce vs = (λ i, sum_list ((λ v, v !!! i) <$> vs)) <$> seq 0 k.

(** [m] is the histogram of [steps]. *)
Record summarises (max_prop samples : nat) (steps : list (nat * nat * nat)) (m : MetricSummary)
    : Prop := {
  su_samples : sample_count m = samples;
  su_count : proposal_count m = length steps;
  su_acc : acceptance_length_sum m = sum_list_with acc_of steps;
  su_prop : proposal_length_sum m = sum_list_with prop_of steps;
  su_ppos : proposals_at_pos m = (λ pos, count_above prop_of pos steps) <$> seq 0 max_prop;
  su_apos : accepted_at_pos m = (λ pos, count_above draft_of pos steps) <$> seq 0 max_prop
}.

Lemma counts_from_zero (counts : list nat) max_prop (h : nat → nat) :
  (∀ pos, counts !! pos = (λ c, c + h pos) <$> replicate max_prop 0 !! pos) →
  counts = h <$> seq 0 max_prop.
Proof.
  intros Hc. apply list_eq. intros pos. rewrite Hc, list_lookup_fmap.
  destruct (decide (pos < max_prop)).
  - by rewrite lookup_replicate_2, lookup_seq_lt by done.
  - by rewrite !lookup_ge_None_2 by (rewrite ?length_replicate, ?length_seq; lia).
Qed.

Lemma local_metrics_summarises max_prop rs m :
  local_metrics max_prop rs = Ok m → summarises max_prop (length rs) (all_steps rs) m.
Proof.
  intros Hm. apply counted_responses in Hm as [H1 H2 H3 H4 H5 H6]. cbn in *.
  split; try done; by apply counts_from_zero.
Qed.

Lemma local_metrics_Forall2 max_prop ranks ms :
  mapM (local_metrics max_prop) ranks = Ok ms →
  Forall2 (λ rs m, summarises max_prop (length rs) (all_steps rs) m) ranks ms.
Proof.
  intros Hm%mapM_Ok_Forall2. eapply Forall2_impl; [exact Hm|]. cbn.
  intros rs m. apply local_metrics_summarises.
Qed.

Lemma all_steps_app rs1 rs2 : all_steps (rs1 ++ rs2) = all_steps rs1 ++ all_steps rs2.
Proof. apply bind_app. Qed.

(** Summing a per-rank quantity that is additive in the steps. *)
Lemma sum_over_ranks max_prop ranks ms (f : MetricSummary → nat) (g : list Response → nat) :
  Forall2 (λ rs m, summarises max_prop (length rs) (all_steps rs) m) ranks ms →
  (∀ rs m, summarises max_prop (length rs) (all_steps rs) m → f m = g rs) →
  g [] = 0 → (∀ a b, g (a ++ b) = g a + g b) →
  sum_list (f <$> ms) = g (mjoin ranks).
Proof.
  intros Hf Hfg H0 Hadd. induction Hf as [|rs m ranks ms Hm _ IH]; cbn; [done|].
  rewrite Hadd. unfold sum_list in *. cbn. rewrite (Hfg rs m Hm). f_equal. apply IH.
Qed.

(** A reduced position of the concatenated position tensors. *)
Lemma reduced_position max_prop ranks ms f off pos :
  Forall2 (λ rs m, summarises max_prop (length rs) (all_steps rs) m) ranks ms →
  (∀ n st m, summarises max_prop n st m →
     position_tensor m !!! (off + pos) = count_above f pos st) →
  sum_list ((λ v, v !!! (off + pos)) <$> (position_tensor <$> ms)) =
    count_above f pos (all_steps (mjoin ranks)).
Proof.
  intros Hf Hsel. rewrite <- list_fmap_compose.
  apply (sum_over_ranks max_prop ranks ms _ (λ rs, count_above f pos (all_steps rs))); try done.
  - intros rs m Hm. by eapply Hsel.
  - intros a b. by rewrite all_steps_app, count_above_app.
Qed.

Lemma position_tensor_fst max_prop n st m pos :
  summarises max_prop n st m → pos < max_prop →
  position_tensor m !!! pos = count_above prop_of pos st.
Proof.
  intros [_ _ _ _ Hp _] Hlt. unfold position_tensor. rewrite Hp.
  apply list_lookup_total_correct. rewrite lookup_app_l by (rewrite length_fmap, length_seq; lia).
  by rewrite list_lookup_fmap, lookup_seq_lt by done.
Qed.

Lemma position_tensor_snd max_prop n st m pos :
  summarises max_prop n st m → pos < max_prop →
  position_tensor m !!! (max_prop + pos) = count_above draft_of pos st.
Proof.
  intros [_ _ _ _ Hp Ha] Hlt. unfold position_tensor. rewrite Hp, Ha.
  apply list_lookup_total_correct. rewrite lookup_app_r by (rewrite length_fmap, length_seq; lia).
  rewrite length_fmap, length_seq. replace (max_prop + pos - max_prop) with pos by lia.
  by rewrite list_lookup_fmap, lookup_seq_lt by done.
Qed.

(** C20: whatever the number of ranks, the reduced summary is the histogram of all
    verification steps of all ranks: totals are sums over every step and entry [pos]
    of the position counts is the number of steps that proposed (accepted) more than
    [pos] tokens. *)
Theorem allreduce_histogram all_reduce (Hsum : AllReduceSum all_reduce)
    (max_prop : nat) (ranks : list (list Response)) m
    (Hranks : ranks ≠ []) (Hpos : 0 < max_prop)
    (Hrun : allreduce_response_metrics all_reduce max_prop ranks = Ok m) :
  summarises max_prop (length (mjoin ranks)) (all_steps (mjoin ranks)) m.
Proof.
  unfold allreduce_response_metrics in Hrun. apply result_bind_Ok in Hrun as (ms & Hms & Hrun).
  pose proof (local_metrics_Forall2 _ _ _ Hms) as Hf.
  assert (Hne : ms ≠ []) by (apply Forall2_length in Hf; by destruct ms, ranks).
  rewrite (proj2 (Nat.ltb_lt _ _) Hpos) in Hrun.
  rewrite (Hsum (scalar_tensor <$> ms) 4) in Hrun
    by ((intros E%fmap_nil_inv; done) || (apply Forall_fmap, Forall_true; done)).
  rewrite (Hsum (position_tensor <$> ms) (max_prop + max_prop)) in Hrun.
  2: { by intros E%fmap_nil_inv. }
  2: { apply Forall_fmap, Forall_forall. intros m' Hm'. apply list_elem_of_lookup in Hm' as [i Hi].
       destruct (Forall2_lookup_r _ _ _ _ _ Hf Hi) as (rs & _ & [_ _ _ _ Hp Ha]).
       cbn. unfold position_tensor. by rewrite Hp, Ha, length_app, !length_fmap, length_seq. }
  cbn [fmap list_fmap seq] in Hrun. injection Hrun as <-.
  split; cbn [sample_count proposal_count acceptance_length_sum proposal_length_sum
              proposals_at_pos accepted_at_pos].
  - rewrite <- list_fmap_compose. apply (sum_over_ranks max_prop ranks ms _ length Hf); try done.
    + by intros rs m' [].
    + intros. by rewrite length_app.
  - rewrite <- list_fmap_compose.
    apply (sum_over_ranks max_prop ranks ms _ (λ rs, length (all_steps rs)) Hf); try done.
    + by intros rs m' [].
    + intros. by rewrite all_steps_app, length_app.
  - rewrite <- list_fmap_compose.
    apply (sum_over_ranks max_prop ranks ms _ (λ rs, sum_list_with acc_of (all_steps rs)) Hf); try done.
    + by intros rs m' [].
    + intros. by rewrite all_steps_app, sum_list_with_app.
  - rewrite <- list_fmap_compose.
    apply (sum_over_ranks max_prop ranks ms _ (λ rs, sum_list_with prop_of (all_steps rs)) Hf); try done.
    + by intros rs m' [].
    + intros. by rewrite all_steps_app, sum_list_with_app.
  - rewrite seq_app, fmap_app, take_app_length' by len.
    apply list_fmap_ext. intros i pos [-> Hlt]%lookup_seq.
    apply (reduced_position max_prop ranks ms prop_of 0 _ Hf).
    intros n st m' Hm'. by apply (position_tensor_fst max_prop n).
  - rewrite seq_app, fmap_app, drop_app_length' by len. rewrite Nat.add_0_l, (fmap_seq_shift _ max_prop).
    apply list_fmap_ext. intros i pos [-> Hlt]%lookup_seq.
    apply (reduced_position max_prop ranks ms draft_of max_prop _ Hf).
    intros n st m' Hm'. by apply (position_tensor_snd max_prop n).
Qed.

(** ** A concrete reduction, for the witnesses *)

Definition add_tensors (a b : list nat) : list nat := zip_with Nat.add a b.
Definition sum_all_reduce (vs : list (list nat)) : list nat :=
  match vs with
  | [] => []
  | v :: vs => foldr add_tensors v vs
  end.

Lemma foldr_add_tensors v vs k :
  length v = k → Forall (λ v, length v = k) vs →
  length (foldr add_tensors v vs) = k ∧
  ∀ i, i < k → foldr add_tensors v vs !!! i = sum_list ((λ v, v !!! i) <$> v :: vs).
Proof.
  intros Hv. induction 1 as [|w vs Hw Hvs [IHl IH]]; cbn [foldr].
  - split; [done|]. intros i Hi. unfold sum_list. cbn. lia.
  - unfold add_tensors at 1 3. split; [rewrite length_zip_with; lia|]. intros i Hi.
    apply list_lookup_total_correct. rewrite lookup_zip_with.
    rewrite (list_lookup_lookup_total_lt w i), (list_lookup_lookup_total_lt _ i) by lia. cbn.
    rewrite (IH i Hi). unfold sum_list. cbn. f_equal. lia.
Qed.

#[export] Instance sum_all_reduce_sum : AllReduceSum sum_all_reduce.
Proof.
  intros [|v vs] k Hne Hk; [done|]. inversion Hk as [|? ? Hv Hvs]; subst.
  destruct (foldr_add_tensors v vs (length v) eq_refl Hvs) as [Hl Hi].
  apply list_eq. intros i. rewrite list_lookup_fmap. cbn [sum_all_reduce].
  destruct (decide (i < length v)) as [Hlt|Hge].
  - rewrite lookup_seq_lt by done. cbn [fmap option_fmap option_map].
    rewrite (list_lookup_lookup_total_lt _ i) by lia. f_equal. by apply Hi.
  - by rewrite !lookup_ge_None_2 by (rewrite ?length_seq; lia).
Qed.

Definition demo_response (accs props drs : list nat) : Response :=
  {| r_acceptance_lengths := Some accs; r_proposal_lengths := Some props;
     r_accepted_draft_lengths := Some drs |}.
Definition demo_ranks : list (list Response) :=
  [[demo_response [2; 1] [2; 2] [1; 0]]; [demo_response [3] [2] [2]; demo_response [] [] []]].

Lemma allreduce_histogram_witness :
  ∃ m, allreduce_response_metrics sum_all_reduce 2 demo_ranks = Ok m ∧
    proposals_at_pos m = [3; 3] ∧ accepted_at_pos m = [2; 1] ∧
    summarises 2 3 (all_steps (mjoin demo_ranks)) m.
Proof.
  eexists. split; [vm_compute; reflexivity|]. split; [reflexivity|]. split; [reflexivity|].
  apply (allreduce_histogram sum_all_reduce sum_all_reduce_sum 2 demo_ranks);
    [discriminate|lia|vm_compute; reflexivity].
Defined.

(** ** The metrics row *)

(** What [generate_bookkeeping] guarantees of every step. *)
Definition step_ok (max_prop : nat) (s : nat * nat * nat) : Prop :=
  draft_of s ≤ prop_of s ∧ prop_of s ≤ max_prop ∧ acc_of s ≤ draft_of s + 1.

Lemma step_lengths_ok_steps max_prop accs props drafts :
  step_lengths_ok max_prop accs props drafts →
  Forall (step_ok max_prop) (response_steps (demo_response accs props drafts)).
Proof.
  intros (H1 & H2 & H3). apply Forall_lookup. intros i [[a p] d] Hi. cbn in Hi.
  apply lookup_zip_with_Some in Hi as ([a1 p1] & d1 & E1 & Hi & Hd).
  apply lookup_zip_with_Some in Hi as (a2 & p2 & E2 & Ha & Hp). simplify_eq.
  destruct (H3 _ _ _ _ Ha Hp Hd) as (? & ? & ? & ?). unfold step_ok, acc_of, prop_of, draft_of. cbn. lia.
Qed.

Lemma step_ok_sums max_prop steps :
  Forall (step_ok max_prop) steps →
  sum_list_with acc_of steps ≤ sum_list_with prop_of steps + length steps.
Proof.
  induction 1 as [|s steps (Hd & Hp & Ha) _ IH]; cbn [sum_list_with length]; lia.
Qed.

Lemma step_ok_counts max_prop steps pos :
  Forall (step_ok max_prop) steps → count_above draft_of pos steps ≤ count_above prop_of pos steps.
Proof.
  induction 1 as [|s steps (Hd & Hp & Ha) _ IH]; [done|]. rewrite !count_above_cons.
  destruct (Nat.ltb_spec pos (draft_of s)), (Nat.ltb_spec pos (prop_of s)); lia.
Qed.

Lemma Qnat_ratio_bounds a b : a ≤ b → 0 < b → (0 <= Qnat a / Qnat b <= 1)%Q.
Proof.
  intros Hab Hb. unfold Qnat. assert (0 < inject_Z (Z.of_nat b))%Q by (rewrite <- (Zlt_Qlt 0); lia).
  split; [apply Qle_shift_div_l; [done|]|apply Qle_shift_div_r; [done|]].
  - rewrite Qmult_0_l. rewrite <- (Zle_Qle 0). lia.
  - rewrite Qmult_1_l. rewrite <- Zle_Qle. lia.
Qed.

Lemma Qnat_ratio_le a b c : a ≤ b + c → 0 < c → (Qnat a / Qnat c <= Qnat b / Qnat c + 1)%Q.
Proof.
  intros Hab Hc. unfold Qnat. assert (0 < inject_Z (Z.of_nat c))%Q by (rewrite <- (Zlt_Qlt 0); lia).
  apply Qle_shift_div_r; [done|].
  assert (E : ((inject_Z (Z.of_nat b) / inject_Z (Z.of_nat c) + 1) * inject_Z (Z.of_nat c) ==
    inject_Z (Z.of_nat b) + inject_Z (Z.of_nat c))%Q) by (field; lra). rewrite E.
  rewrite <- inject_Z_plus, <- Zle_Qle. lia.
Qed.

Definition unit_rate (q : Q) : Prop := (0 <= q <= 1)%Q.

(** C21: on the reduced summary of well-formed steps [build_metrics_row] never raises;
    it lists one accept rate per draft position, every accept rate and the verify
    rate is a probability, and the acceptance length exceeds the mean number of
    drafted tokens by at most the bonus token. *)
Theorem build_metrics_row_rates max_prop samples steps m
    (Hsum : summarises max_prop samples steps m) (Hok : Forall (step_ok max_prop) steps) :
  ∃ row, build_metrics_row max_prop m = Ok row ∧
    num_samples row = samples ∧
    length (accept_rates_by_position row) = max_prop ∧
    unit_rate (verify_rate row) ∧
    Forall (λ r, ∀ q, r = Some q → unit_rate q) (accept_rates_by_position row) ∧
    (acceptance_length row <= draft_tokens_per_proposal row + 1)%Q.
Proof.
  destruct Hsum as [Hs Hc Ha Hp Hpp Hap]. unfold build_metrics_row. rewrite Hc, Ha, Hp.
  pose proof (step_ok_sums _ _ Hok) as Hle.
  destruct (Nat.eqb_spec (length steps) 0) as [E|E].
  { eexists. split; [done|]. cbn. split_and!; [done|len|split; lra| |lra].
    apply Forall_lookup. by intros i r [-> _]%lookup_replicate. }
  pose (rate pos := if count_above prop_of pos steps =? 0 then None else
    Some (Qnat (count_above draft_of pos steps) / Qnat (count_above prop_of pos steps))%Q).
  assert (Hm : mapM (accept_rate_at m) (seq 0 max_prop) = Ok (rate <$> seq 0 max_prop)).
  { apply mapM_Ok_fmap, Forall_lookup. intros i pos [-> Hlt]%lookup_seq. rewrite Nat.add_0_l. unfold accept_rate_at, rate.
    rewrite Hpp, Hap, !list_lookup_fmap, lookup_seq_lt by done. rewrite Nat.add_0_l. cbn [fmap option_fmap option_map].
    by destruct (count_above prop_of i steps). }
  rewrite Hm. cbn [mbind result_bind]. eexists. split; [done|]. cbn. split_and!; [done|len| | |].
  - apply Qnat_ratio_bounds; lia.
  - apply Forall_fmap, Forall_forall. intros pos _ q. unfold rate. cbn.
    destruct (Nat.eqb_spec (count_above prop_of pos steps) 0); [done|]. intros [= <-].
    apply Qnat_ratio_bounds; [by eapply step_ok_counts|lia].
  - apply Qnat_ratio_le; lia.
Qed.

Lemma build_metrics_row_rates_witness :
  ∃ row, build_metrics_row 2 {| sample_count := 3; proposal_count := 3;
      acceptance_length_sum := 6; proposal_length_sum := 6;
      proposals_at_pos := [3; 3]; accepted_at_pos := [2; 1] |} = Ok row ∧
    num_samples row = 3 ∧ length (accept_rates_by_position row) = 2 ∧
    unit_rate (verify_rate row) ∧
    Forall (λ r, ∀ q, r = Some q → unit_rate q) (accept_rates_by_position row) ∧
    (acceptance_length row <= draft_tokens_per_proposal row + 1)%Q.
Proof.
  apply (build_metrics_row_rates 2 3 (all_steps (mjoin demo_ranks))).
  - split; vm_compute; reflexivity.
  - repeat (apply Forall_cons; split; [unfold step_ok; cbn; lia|]). constructor.
Defined.
