(* ===== verification/Markov.v ===== *)
(** * Markov: the sequential heads of the draft model

    Models [DeepSpec/deepspec/modeling/myspec/markov_head.py]: the vanilla, gated
    and recurrent heads that correct the backbone's logits with a bias computed
    from the previous token, in teacher-forced form ([apply_block_logits]) and in
    autoregressive form ([sample_block_tokens]).  One batch row and one block at a
    time; the weights ([nn.Embedding], [nn.Linear]) and the activations are
    third-party functions and stay fields of the head. *)

From S2P Require Import Prelude Sampling.
#[local] Open Scope nat_scope.

(** Elementwise tensor arithmetic on rows of one shape. *)
Definition map2 (f : Q → Q → Q) (a b : list Q) : result (list Q) :=
  _ ← py_check RuntimeError (length a =? length b);
  Ok (zip_with f a b).
Definition tadd : list Q → list Q → result (list Q) := map2 Qplus.
Definition tmul : list Q → list Q → result (list Q) := map2 Qmult.

Definition py_index {A} (l : list A) (i : nat) : result A :=
  match l !! i with Some x => Ok x | None => Raise IndexError end.

(** [nn.Embedding], [nn.Linear] and the activation functions of one head. *)
Record MarkovWeights := {
  head_vocab_size : nat;
  markov_rank : nat;
  markov_w1 : nat → list Q;
  markov_w2 : list Q → list Q;
  sigmoid : Q → Q;
  tanh : Q → Q
}.

Inductive MarkovHead : Type :=
  | VanillaMarkov (w : MarkovWeights)
  | GatedMarkovHead (w : MarkovWeights) (gate_proj : list Q → list Q)
  | RNNHead (w : MarkovWeights) (joint_proj : list Q → list Q).

Definition weights (h : MarkovHead) : MarkovWeights :=
  match h with VanillaMarkov w => w | GatedMarkovHead w _ => w | RNNHead w _ => w end.

Definition get_prev_embeddings (w : MarkovWeights) (token_id : nat) : list Q := markov_w1 w token_id.
Definition project_bias (w : MarkovWeights) (latent_state : list Q) : list Q := markov_w2 w latent_state.

Definition compute_gate (w : MarkovWeights) (gate_proj : list Q → list Q) (token_id : nat)
    (hidden_state : option (list Q)) : result (list Q) :=
  match hidden_state with
  | None => Raise AssertionError
  | Some h => Ok (sigmoid w <$> gate_proj (h ++ get_prev_embeddings w token_id))
  end.

(** [proj.chunk(3, dim=-1)]. *)
Definition chunk3 (l : list Q) : list Q * list Q * list Q :=
  let c := (length l + 2) / 3 in
  (l.[0, c], l.[c, 2 * c], l.[2 * c, 3 * c]).

Definition rnn_step (w : MarkovWeights) (joint_proj : list Q → list Q)
    (state prev_embeddings hidden_state : list Q) : result (list Q * list Q) :=
  let '(gate_raw, candidate_raw, output_raw) :=
    chunk3 (joint_proj (state ++ prev_embeddings ++ hidden_state)) in
  let gate := sigmoid w <$> gate_raw in
  let candidate := tanh w <$> candidate_raw in
  kept ← tmul gate state;
  fresh ← tmul ((λ g, (1 - g)%Q) <$> gate) candidate;
  new_state ← tadd kept fresh;
  Ok (new_state, project_bias w (tanh w <$> output_raw)).

Definition zero_state (w : MarkovWeights) : list Q := replicate (markov_rank w) 0%Q.

Definition compute_step_bias (head : MarkovHead) (token_id : nat) (hidden_state : option (list Q))
    : result (list Q) :=
  match head with
  | VanillaMarkov w => Ok (project_bias w (get_prev_embeddings w token_id))
  | GatedMarkovHead w gate_proj =>
      gate ← compute_gate w gate_proj token_id hidden_state;
      gated ← tmul gate (get_prev_embeddings w token_id);
      Ok (project_bias w gated)
  | RNNHead w joint_proj =>
      match hidden_state with
      | None => Raise AssertionError
      | Some h =>
          let prev_embeddings := get_prev_embeddings w token_id in
          '(_, bias) ← rnn_step w joint_proj (replicate (length prev_embeddings) 0%Q) prev_embeddings h;
          Ok bias
      end
  end.

Definition apply_step_logits (head : MarkovHead) (logits : list Q) (token_id : nat)
    (hidden_state : option (list Q)) : result (list Q) :=
  bias ← compute_step_bias head token_id hidden_state;
  tadd logits bias.

(** [None if hidden_states is None else hidden_states[:, step_idx, ...]]. *)
Definition step_hidden (hidden_states : option (list (list Q))) (step_idx : nat)
    : result (option (list Q)) :=
  match hidden_states with
  | None => Ok None
  | Some hs => h ← py_index hs step_idx; Ok (Some h)
  end.

(** ** Teacher-forced logits of a block *)

(** [VanillaMarkov.apply_block_logits]: all positions at once. *)
Definition markov_block_logits (head : MarkovHead) (base_logits : list (list Q))
    (token_ids : list nat) (hidden_states : option (list (list Q))) : result (list (list Q)) :=
  if length base_logits =? 0 then Ok base_logits else
  _ ← py_check RuntimeError (length token_ids =? length base_logits);
  mapM (λ '(i, (row, t)), h ← step_hidden hidden_states i; apply_step_logits head row t h)
    (zip (seq 0 (length base_logits)) (zip base_logits token_ids)).

(** [RNNHead.apply_block_logits]: the loop over [k]. *)
Fixpoint rnn_block_loop (w : MarkovWeights) (joint_proj : list Q → list Q) (state : list Q) (k : nat)
    (base_logits : list (list Q)) (token_ids : list nat) (hidden_states : list (list Q))
    : result (list (list Q)) :=
  match base_logits with
  | [] => Ok []
  | row :: rows =>
      t ← py_index token_ids k;
      h_k ← py_index hidden_states k;
      '(state, bias) ← rnn_step w joint_proj state (get_prev_embeddings w t) h_k;
      out ← tadd row bias;
      outs ← rnn_block_loop w joint_proj state (S k) rows token_ids hidden_states;
      Ok (out :: outs)
  end.

Definition apply_block_logits (head : MarkovHead) (base_logits : list (list Q))
    (token_ids : list nat) (hidden_states : option (list (list Q))) : result (list (list Q)) :=
  match head with
  | RNNHead w joint_proj =>
      match hidden_states with
      | None => Raise AssertionError
      | Some hs => rnn_block_loop w joint_proj (zero_state w) 0 base_logits token_ids hs
      end
  | _ => markov_block_logits head base_logits token_ids hidden_states
  end.

(** ** Autoregressive sampling of a block *)

Section sample.
Context {RNG : Type} `{!TorchRandom RNG}.

(** [sample_tokens(step_logits.unsqueeze(1)).squeeze(1)]. *)
Definition sample_one (r : RNG) (temperature : Q) (step_logits : list Q) : result (nat * RNG) :=
  '(ts, r) ← sample_tokens r [step_logits] temperature;
  match ts with
  | [t] => Ok (t, r)
  | _ => Raise RuntimeError
  end.

(** [VanillaMarkov.sample_block_tokens]. *)
Fixpoint markov_sample_loop (head : MarkovHead) (temperature : Q)
    (hidden_states : option (list (list Q))) (r : RNG) (prev_token_id step_idx : nat)
    (base_logits : list (list Q)) : result (list nat * list (list Q) * RNG) :=
  match base_logits with
  | [] => Ok ([], [], r)
  | row :: rows =>
      h ← step_hidden hidden_states step_idx;
      step_logits ← apply_step_logits head row prev_token_id h;
      '(t, r) ← sample_one r temperature step_logits;
      '(ts, corrected, r) ←
        markov_sample_loop head temperature hidden_states r t (S step_idx) rows;
      Ok (t :: ts, step_logits :: corrected, r)
  end.

(** [RNNHead.sample_block_tokens]. *)
Fixpoint rnn_sample_loop (w : MarkovWeights) (joint_proj : list Q → list Q) (temperature : Q)
    (hidden_states : list (list Q)) (r : RNG) (state : list Q) (prev_token_id step_idx : nat)
    (base_logits : list (list Q)) : result (list nat * list (list Q) * RNG) :=
  match base_logits with
  | [] => Ok ([], [], r)
  | row :: rows =>
      h_k ← py_index hidden_states step_idx;
      '(state, bias) ←
        rnn_step w joint_proj state (get_prev_embeddings w prev_token_id) h_k;
      step_logits ← tadd row bias;
      '(t, r) ← sample_one r temperature step_logits;
      '(ts, corrected, r) ←
        rnn_sample_loop w joint_proj temperature hidden_states r state t (S step_idx) rows;
      Ok (t :: ts, step_logits :: corrected, r)
  end.

Definition sample_block_tokens (head : MarkovHead) (r : RNG) (base_logits : list (list Q))
    (first_prev_token_id : nat) (hidden_states : option (list (list Q))) (temperature : Q)
  : result (list nat * list (list Q) * RNG) :=
  match head with
  | RNNHead w joint_proj =>
      match hidden_states with
      | None => Raise AssertionError
      | Some hs =>
          rnn_sample_loop w joint_proj temperature hs r (zero_state w) first_prev_token_id 0
            base_logits
      end
  | _ => markov_sample_loop head temperature hidden_states r first_prev_token_id 0 base_logits
  end.
End sample.

(** [markov_head_type] is lower-cased; the constructors take the trained weights. *)
Definition build_markov_head (markov_rank_cfg : Z) (markov_head_type : string)
    (w : MarkovWeights) (gate_proj joint_proj : list Q → list Q) : result (option MarkovHead) :=
  _ ← py_assert (0 <=? markov_rank_cfg)%Z;
  if (markov_rank_cfg =? 0)%Z then Ok None
  else if String.eqb markov_head_type "vanilla" then Ok (Some (VanillaMarkov w))
  else if String.eqb markov_head_type "gated" then Ok (Some (GatedMarkovHead w gate_proj))
  else if String.eqb markov_head_type "rnn" then Ok (Some (RNNHead w joint_proj))
  else Raise AssertionError.

(** ** Lemmas *)

Lemma py_index_Ok {A} (l : list A) i x : py_index l i = Ok x ↔ l !! i = Some x.
Proof. unfold py_index. destruct (l !! i); split; congruence. Qed.

Section teacher_forcing.
Context {RNG : Type} `{!TorchRandom RNG}.

Lemma sample_one_greedy r T row t r' :
  (T < 1 # 100000)%Q → sample_one (RNG := RNG) r T row = Ok (t, r') → t = argmax row.
Proof.
  intros HT%Qltb_lt. unfold sample_one, sample_tokens. rewrite HT. cbn. by intros [= <- _].
Qed.

Definition block_step (head : MarkovHead) (hs : option (list (list Q)))
    (x : nat * (list Q * nat)) : result (list Q) :=
  let '(i, (row, t)) := x in h ← step_hidden hs i; apply_step_logits head row t h.

Lemma markov_sample_teacher head T hs r prev i base ts corrected r' :
  markov_sample_loop (RNG := RNG) head T hs r prev i base = Ok (ts, corrected, r') →
  length ts = length base ∧
  mapM (block_step head hs) (zip (seq i (length base)) (zip base (take (length base) (prev :: ts))))
    = Ok corrected ∧
  ((T < 1 # 100000)%Q → ts = argmax <$> corrected).
Proof.
  revert r prev i ts corrected. induction base as [|row base IH]; intros r prev i ts corrected Hs;
    cbn [markov_sample_loop] in Hs; [injection Hs as <- <- _; done|].
  apply result_bind_Ok in Hs as (h & Hh & Hs). apply result_bind_Ok in Hs as (sl & Hsl & Hs).
  apply result_bind_Ok in Hs as ([t r1] & Ht & Hs).
  apply result_bind_Ok in Hs as ([[ts' c'] r2] & Hrec & Hs). injection Hs as <- <- <-.
  apply IH in Hrec as (Hl & Hm & Hg). cbn [length seq take]. split_and!.
  - by rewrite Hl.
  - cbn. rewrite Hh. cbn. rewrite Hsl. cbn. cbn in Hm. rewrite Hm. done.
  - intros HT. rewrite fmap_cons, <- Hg by done. by rewrite (sample_one_greedy _ _ _ _ _ HT Ht).
Qed.

Lemma rnn_sample_teacher w jp T hs r state prev i base ts corrected r' tokens :
  rnn_sample_loop (RNG := RNG) w jp T hs r state prev i base = Ok (ts, corrected, r') →
  (∀ j, j < length base → tokens !! (i + j) = (prev :: ts) !! j) →
  length ts = length base ∧
  rnn_block_loop w jp state i base tokens hs = Ok corrected ∧
  ((T < 1 # 100000)%Q → ts = argmax <$> corrected).
Proof.
  revert r state prev i ts corrected.
  induction base as [|row base IH]; intros r state prev i ts corrected Hs Htok;
    cbn [rnn_sample_loop] in Hs; [injection Hs as <- <- _; done|].
  apply result_bind_Ok in Hs as (h & Hh & Hs).
  apply result_bind_Ok in Hs as ([st bias] & Hst & Hs).
  apply result_bind_Ok in Hs as (sl & Hsl & Hs).
  apply result_bind_Ok in Hs as ([t r1] & Ht & Hs).
  apply result_bind_Ok in Hs as ([[ts' c'] r2] & Hrec & Hs). injection Hs as <- <- <-.
  apply IH in Hrec as (Hl & Hm & Hg).
  2: { intros j Hj. specialize (Htok (S j) ltac:(cbn; lia)). etrans; [|exact Htok]. f_equal. lia. }
  split_and!; [cbn; by rewrite Hl| |].
  - pose proof (Htok 0 ltac:(cbn; lia)) as H0. rewrite Nat.add_0_r in H0. cbn in H0.
    cbn [rnn_block_loop]. apply py_index_Ok in H0. rewrite H0. cbn [mbind result_bind].
    rewrite Hh. cbn [mbind result_bind]. rewrite Hst. cbn [mbind result_bind].
    rewrite Hsl. cbn [mbind result_bind]. by rewrite Hm.
  - intros HT. rewrite fmap_cons, <- Hg by done. by rewrite (sample_one_greedy _ _ _ _ _ HT Ht).
Qed.
End teacher_forcing.

(** C22: the training-time and the decoding-time form of every Markov head agree.
    Whatever tokens [sample_block_tokens] draws, the corrected logits it drew them
    from are those of [apply_block_logits] teacher-forced on the same tokens shifted
    by one position; at temperature 0 each token is the argmax of its row. *)
Theorem sample_block_teacher_forcing {RNG : Type} `{!TorchRandom RNG} (head : MarkovHead)
    (r : RNG) (base : list (list Q)) (first_prev : nat) (hs : option (list (list Q))) (T : Q)
    ts corrected r'
    (Hrun : sample_block_tokens head r base first_prev hs T = Ok (ts, corrected, r')) :
  length ts = length base ∧
  apply_block_logits head base (take (length base) (first_prev :: ts)) hs = Ok corrected ∧
  ((T < 1 # 100000)%Q → ts = argmax <$> corrected).
Proof.
  assert (Hmk : markov_sample_loop head T hs r first_prev 0 base = Ok (ts, corrected, r') →
    length ts = length base ∧
    markov_block_logits head base (take (length base) (first_prev :: ts)) hs = Ok corrected ∧
    ((T < 1 # 100000)%Q → ts = argmax <$> corrected)).
  { intros (Hl & Hm & Hg)%markov_sample_teacher. split_and!; [done| |done].
    unfold markov_block_logits. destruct (Nat.eqb_spec (length base) 0) as [E|E].
    { destruct base; [|done]. by injection Hm as <-. }
    rewrite py_check_true by (apply Nat.eqb_eq; rewrite length_take; cbn; lia). exact Hm. }
  destruct head as [w|w gp|w jp]; cbn in Hrun |- *; [by apply Hmk..|].
  destruct hs as [hs|]; [|done]. eapply rnn_sample_teacher in Hrun; [exact Hrun|].
  intros j Hj. by rewrite lookup_take_lt by done.
Qed.

Import Deterministic.

Module HeadExample.
Definition w : MarkovWeights :=
  {| head_vocab_size := 2; markov_rank := 1; markov_w1 t := [inject_Z (Z.of_nat t)];
     markov_w2 v := match v with [x] => [x; 1 - x]%Q | _ => [] end;
     sigmoid x := x; tanh x := x |}.
Definition rnn : MarkovHead :=
  RNNHead w (λ z, match z with [s; e; h] => [s + e; e + h; s + h]%Q | _ => [] end).
Definition base : list (list Q) := [[0; 1 # 3]; [1 # 2; 0]; [0; 30]]%Q.
Definition hidden : option (list (list Q)) := Some [[1]; [2]; [0]]%Q.
Definition run := sample_block_tokens (RNG := unit) rnn tt base 1 hidden 0.
End HeadExample.

Lemma sample_block_teacher_forcing_witness :
  ∃ ts corrected, HeadExample.run = Ok (ts, corrected, tt) ∧ ts = [0; 0; 1] ∧
    apply_block_logits HeadExample.rnn HeadExample.base (take 3 (1 :: ts)) HeadExample.hidden
      = Ok corrected.
Proof.
  do 2 eexists. split; [vm_compute; reflexivity|]. split; [reflexivity|].
  refine (proj1 (proj2 (sample_block_teacher_forcing (RNG := unit) HeadExample.rnn tt
    HeadExample.base 1 HeadExample.hidden 0 _ _ tt _))).
  vm_compute. reflexivity.
Defined.
