(* ===== verification/Anchors.v ===== *)
(** * Anchors: training blocks of the draft model

    Models [DeepSpec/deepspec/modeling/myspec/common.py] and the index plumbing of
    [Qwen3MySpecModel.forward] ([modeling/myspec/qwen3/modeling.py]): anchor
    sampling, position ids, noise tokens, the two block attention masks, the label
    and evaluation masks.  Every tensor operation of this code is row-wise in the
    batch, so a definition models one batch row ([loss_mask], [input_ids] ... are
    lists).  [torch.rand] and [torch.sort] are third-party code. *)

From S2P Require Import Prelude Sampling SpecDecode Markov.
#[local] Open Scope nat_scope.

(** [row.sort()]: the permutation that sorts a row of random keys. *)
Class TorchSort := sort_indices : list Q → list nat.

Class TorchSortLaws `{TorchSort} : Prop := {
  sort_indices_perm keys : sort_indices keys ≡ₚ seq 0 (length keys);
  sort_indices_sorted keys i j a b ka kb :
    i < j → sort_indices keys !! i = Some a → sort_indices keys !! j = Some b →
    keys !! a = Some ka → keys !! b = Some kb → (ka <= kb)%Q
}.

(** ** Target layers *)

(** [extract_context_feature]: the chosen layers' rows concatenated feature-wise;
    layer [-1] is the embedding output, index 0 of [hidden_states]. *)
Definition context_layer_index (layer_id : Z) : Z := if (layer_id =? -1)%Z then 0%Z else (layer_id + 1)%Z.

(** Python list indexing with a possibly negative index. *)
Definition py_index_z {A} (l : list A) (i : Z) : result A :=
  let j := if (i <? 0)%Z then (i + Z.of_nat (length l))%Z else i in
  if (j <? 0)%Z then Raise IndexError else py_index l (Z.to_nat j).

Definition cat_features (parts : list (list (list Q))) : list (list Q) :=
  match parts with
  | [] => []
  | p :: ps => foldl (zip_with app) p ps
  end.

Definition extract_context_feature (hidden_states : list (list (list Q))) (layer_ids : list Z)
    : result (list (list Q)) :=
  parts ← mapM (λ i, py_index_z hidden_states (context_layer_index i)) layer_ids;
  match parts with
  | [] => Raise RuntimeError
  | p :: ps =>
      _ ← py_check RuntimeError (forallb (λ q : list (list Q), length q =? length p) ps);
      Ok (cat_features parts)
  end.

Fixpoint check_target_layer_ids (num_target_layers : Z) (previous : option Z) (layer_ids : list Z)
    : result unit :=
  match layer_ids with
  | [] => Ok tt
  | layer_id :: rest =>
      _ ← py_assert ((layer_id =? -1) || ((0 <=? layer_id) && (layer_id <=? num_target_layers - 1)))%Z;
      _ ← py_assert (match previous with None => true | Some p => (p <? layer_id)%Z end);
      check_target_layer_ids num_target_layers (Some layer_id) rest
  end.

Definition validate_target_layer_ids (layer_ids : list Z) (num_target_layers : Z)
    : result (list Z) :=
  _ ← py_assert (negb (length layer_ids =? 0));
  _ ← check_target_layer_ids num_target_layers None layer_ids;
  Ok layer_ids.

(** ** Anchor sampling *)

Definition enabled (x : Q) : bool := Qltb (1 # 2) x.

Definition build_anchor_candidate_mask (seq_len : nat) (loss_mask : list Q) : result (list bool) :=
  let num_candidates := seq_len - 1 in
  if num_candidates =? 0 then Ok [] else
  let anchor_valid := enabled <$> loss_mask.[0, num_candidates] in
  let first_target_valid := enabled <$> loss_mask.[1, num_candidates + 1] in
  _ ← py_check RuntimeError (length anchor_valid =? length first_target_valid);
  Ok (zip_with andb anchor_valid first_target_valid).

Definition count_true (l : list bool) : nat := length (filter (λ b, b = true) l).

(** [torch.where(mask, a, b)] on rows. *)
Definition where_row {A} (mask : list bool) (a : list A) (b : A) : list A :=
  zip_with (λ (m : bool) x, if m then x else b) mask a.

Section sampling.
Context `{!TorchSort}.

(** [random_vals] is the row of [torch.rand(bsz, num_candidates)]. *)
Definition sample_anchor_positions (seq_len : nat) (loss_mask : list Q) (num_anchors : nat)
    (random_vals : list Q) : result (list nat * list bool) :=
  valid ← build_anchor_candidate_mask seq_len loss_mask;
  let valid_counts := count_true valid in
  let num_candidates := length valid in
  let max_n := num_anchors in
  if num_candidates =? 0 then Ok (replicate max_n 0, replicate max_n false) else
  let indices := seq 0 num_candidates in
  let masked_indices := where_row valid indices (seq_len + 1) in
  let random_vals := where_row valid random_vals 2%Q in
  let sorted_idx := sort_indices random_vals in
  gathered ← mapM (py_index masked_indices) sorted_idx;
  let gathered :=
    if num_candidates <? max_n
    then gathered ++ replicate (max_n - num_candidates) (seq_len + 1) else gathered in
  let anchors := merge_sort (≤) (take max_n gathered) in
  let keep_mask := (λ i, i <? Nat.min valid_counts max_n) <$> seq 0 max_n in
  Ok (where_row keep_mask anchors 0, keep_mask).
End sampling.

(** ** Position ids and noise tokens *)

Definition block_position_ids (anchor_positions : list nat) (width : nat) : list nat :=
  anchor_positions ≫= λ a, (λ o, a + o) <$> seq 0 width.
Definition create_position_ids (anchor_positions : list nat) (block_size : nat) : list nat :=
  block_position_ids anchor_positions block_size.
Definition create_latent_position_ids (anchor_positions : list nat) (num_latent_tokens : nat) : list nat :=
  block_position_ids anchor_positions num_latent_tokens.

(** [t[idx] = vals]: assignment at a list of indices. *)
Fixpoint index_put {A} (t : list A) (idx : list nat) (vals : list A) : result (list A) :=
  match idx, vals with
  | i :: idx, v :: vals =>
      _ ← py_check IndexError (i <? length t);
      index_put (<[i:=v]> t) idx vals
  | [], [] => Ok t
  | _, _ => Raise RuntimeError
  end.

Definition noise_token_ids (input_ids anchor_positions : list nat) (block_keep_mask : list bool)
    (fill_token_id width : nat) : result (list nat) :=
  let num_blocks := length anchor_positions in
  let noise_ids := replicate (num_blocks * width) fill_token_id in
  let block_starts := (λ b, b * width) <$> seq 0 num_blocks in
  anchor_tokens ← mapM (py_index input_ids) anchor_positions;
  _ ← py_check RuntimeError (length block_keep_mask =? length anchor_tokens);
  index_put noise_ids block_starts (where_row block_keep_mask anchor_tokens fill_token_id).

Section noise.
Context {E : Type} (embed_tokens : nat → E).

Definition create_noise_embed (input_ids anchor_positions : list nat) (block_keep_mask : list bool)
    (mask_token_id block_size : nat) : result (list E) :=
  noise_ids ← noise_token_ids input_ids anchor_positions block_keep_mask mask_token_id block_size;
  Ok (embed_tokens <$> (noise_ids : list nat)).

Definition create_latent_noise_embed (input_ids anchor_positions : list nat)
    (block_keep_mask : list bool) (latent_token_id num_latent_tokens : nat) : result (list E) :=
  latent_noise_ids ←
    noise_token_ids input_ids anchor_positions block_keep_mask latent_token_id num_latent_tokens;
  Ok (embed_tokens <$> (latent_noise_ids : list nat)).
End noise.

(** ** Attention masks *)

(** [create_block_mask(mask_mod, Q_LEN, KV_LEN)]. *)
Record BlockMask := {
  Q_LEN : Z;
  KV_LEN : Z;
  mask_mod : Z → Z → bool
}.

Definition Z_at (l : list nat) (i : Z) : Z := Z.of_nat (l !!! Z.to_nat i).
Definition b_at (l : list bool) (i : Z) : bool := l !!! Z.to_nat i.

Definition create_myspec_latent_attention_mask (anchor_positions : list nat)
    (block_keep_mask : list bool) (seq_len block_size : Z) : BlockMask :=
  let num_blocks := Z.of_nat (length anchor_positions) in
  {| Q_LEN := num_blocks * block_size;
     KV_LEN := seq_len + num_blocks * block_size;
     mask_mod q_idx kv_idx :=
       let q_block_id := (q_idx / block_size)%Z in
       let anchor_pos := Z_at anchor_positions q_block_id in
       let is_context := (kv_idx <? seq_len)%Z in
       let mask_context := is_context && (kv_idx <? anchor_pos)%Z in
       let is_draft := (seq_len <=? kv_idx)%Z in
       let kv_block_id := ((kv_idx - seq_len) / block_size)%Z in
       let mask_draft := is_draft && (q_block_id =? kv_block_id)%Z in
       let is_valid_block := b_at block_keep_mask q_block_id in
       (mask_context || mask_draft) && is_valid_block |}%Z.

Definition create_myspec_mask_attention_mask (anchor_positions : list nat)
    (block_keep_mask : list bool) (seq_len block_size num_latent_tokens : Z) : BlockMask :=
  let num_blocks := Z.of_nat (length anchor_positions) in
  let latent_end := (seq_len + num_blocks * num_latent_tokens)%Z in
  {| Q_LEN := num_blocks * block_size;
     KV_LEN := seq_len + num_blocks * num_latent_tokens + num_blocks * block_size;
     mask_mod q_idx kv_idx :=
       let q_block_id := (q_idx / block_size)%Z in
       let anchor_pos := Z_at anchor_positions q_block_id in
       let is_context := (kv_idx <? seq_len)%Z in
       let mask_context := is_context && (kv_idx <? anchor_pos)%Z in
       let is_latent := (seq_len <=? kv_idx)%Z && (kv_idx <? latent_end)%Z in
       let latent_block_id := ((kv_idx - seq_len) / num_latent_tokens)%Z in
       let mask_latent := is_latent && (q_block_id =? latent_block_id)%Z in
       let is_draft := (latent_end <=? kv_idx)%Z in
       let kv_block_id := ((kv_idx - latent_end) / block_size)%Z in
       let mask_draft := is_draft && (q_block_id =? kv_block_id)%Z in
       let is_valid_block := b_at block_keep_mask q_block_id in
       (mask_context || mask_latent || mask_draft) && is_valid_block |}%Z.

(** ** Labels and the evaluation mask *)

Definition label_indices (anchor_positions : list nat) (block_size : nat) : list (list nat) :=
  (λ a, (λ o, a + o) <$> seq 1 block_size) <$> anchor_positions.

Definition safe_label_indices (seq_len : nat) (block_keep_mask : list bool)
    (labels : list (list nat)) : list (list nat) :=
  zip_with (λ (keep : bool) row, (λ i, if keep then Nat.min i (seq_len - 1) else 0) <$> row)
    block_keep_mask labels.

Definition gather_rows {A} (row : list A) (idx : list (list nat)) : result (list (list A)) :=
  mapM (mapM (py_index row)) idx.

(** [l.to(torch.int32).cumprod(dim=-1).bool()]. *)
Definition bcumprod (l : list bool) : list bool :=
  (λ n, negb (n =? 0)) <$> cumprod ((λ b : bool, if b then 1 else 0) <$> l).

#[global] Arguments bcumprod : simpl never.

Definition target_valid_row (seq_len : nat) (row : list nat) : list bool := (λ i, i <? seq_len) <$> row.

Definition build_eval_mask (seq_len : nat) (loss_mask : list Q) (labels safe : list (list nat))
    (block_keep_mask : list bool) : result (list (list bool)) :=
  let target_valid : list (list bool) := target_valid_row seq_len <$> labels in
  target_loss_mask ← gather_rows loss_mask safe;
  let eval_mask :=
    zip_with (zip_with (λ v x, v && enabled x)) target_valid target_loss_mask in
  let eval_mask : list (list bool) :=
    zip_with (λ (row : list bool) (keep : bool), (λ b, b && keep) <$> row) eval_mask block_keep_mask in
  Ok (bcumprod <$> eval_mask).

(** ** Lemmas on candidates *)

(** A position whose token and successor are both supervised. *)
Definition candidate (seq_len : nat) (loss_mask : list Q) (a : nat) : Prop :=
  S a < seq_len ∧ ∃ x y, loss_mask !! a = Some x ∧ loss_mask !! S a = Some y ∧
    enabled x = true ∧ enabled y = true.

Lemma build_anchor_candidate_mask_spec seq_len loss_mask :
  length loss_mask = seq_len →
  ∃ valid, build_anchor_candidate_mask seq_len loss_mask = Ok valid ∧
    length valid = seq_len - 1 ∧ ∀ a, valid !! a = Some true ↔ candidate seq_len loss_mask a.
Proof.
  intros Hl. unfold build_anchor_candidate_mask.
  destruct (Nat.eqb_spec (seq_len - 1) 0) as [E|E].
  { eexists. split; [done|]. split; [done|]. intros a. rewrite lookup_nil.
    split; [done|]. intros [? _]. lia. }
  rewrite py_check_true by (apply Nat.eqb_eq; rewrite !length_fmap, !length_py_slice; lia).
  eexists. split; [done|]. split; [rewrite length_zip_with, !length_fmap, !length_py_slice; lia|].
  intros a. rewrite lookup_zip_with_Some. setoid_rewrite list_lookup_fmap_Some. split.
  - intros (b1 & b2 & Hb & (x & -> & Hx) & (y & -> & Hy)). symmetry in Hb. b2p.
    apply lookup_lt_Some in Hx as Hlt. rewrite length_py_slice in Hlt.
    rewrite lookup_py_slice in Hx by lia. rewrite lookup_py_slice in Hy by lia.
    split; [lia|]. exists x, y. done.
  - intros (Hlt & x & y & Hx & Hy & Ex & Ey). exists true, true. split; [done|]. split.
    + exists x. by rewrite lookup_py_slice by lia.
    + exists y. by rewrite lookup_py_slice by lia.
Qed.

(** A list whose [P] elements all precede the others is its two filters. *)
Lemma filter_partition_sorted {A} (P : A → Prop) `{!∀ x, Decision (P x)} (l : list A) :
  (∀ i j x y, i < j → l !! i = Some x → l !! j = Some y → P y → P x) →
  l = filter P l ++ filter (λ x, ¬ P x) l.
Proof.
  induction l as [|x l IH]; intros Hl; [done|]. rewrite !filter_cons.
  assert (IH' : l = filter P l ++ filter (λ x, ¬ P x) l).
  { apply IH. intros i j a b Hij Ha Hb. by apply (Hl (S i) (S j) a b); [lia|..]. }
  destruct (decide (P x)) as [Hx|Hx].
  - rewrite decide_False by tauto. cbn. by f_equal.
  - rewrite decide_True by done. enough (filter P l = []) as E.
    { rewrite E in IH' |- *. cbn in *. by f_equal. }
    destruct (filter P l) as [|y k] eqn:E; [done|]. exfalso.
    assert (Hy : y ∈ filter P l) by (rewrite E; constructor).
    apply list_elem_of_filter in Hy as [HPy [j Hj]%list_elem_of_lookup].
    apply Hx. by apply (Hl 0 (S j) x y); [lia|..].
Qed.

Lemma count_true_filter (valid : list bool) :
  count_true valid = length (filter (λ i, valid !! i = Some true) (seq 0 (length valid))).
Proof.
  unfold count_true. induction valid as [|b valid IH] using rev_ind; [done|].
  rewrite filter_app, length_app, IH. rewrite length_app, Nat.add_1_r, seq_S, filter_app, length_app.
  f_equal.
  - f_equal. apply filter_ext_in. intros i Hi%elem_of_seq.
    by rewrite lookup_app_l by lia.
  - rewrite !filter_cons, !filter_nil, Nat.add_0_l, lookup_app_r, Nat.sub_diag by lia.
    destruct b; cbn; repeat case_decide; simplify_eq; done.
Qed.

(** ** Anchor sampling *)

(** The outcome of anchor sampling: [k] sorted, distinct candidates, then padding. *)
Record anchors_ok (seq_len : nat) (loss_mask : list Q) (num_anchors k : nat)
    (anchors : list nat) (keep_mask : list bool) : Prop := {
  ao_len : length anchors = num_anchors;
  ao_keep : keep_mask = replicate k true ++ replicate (num_anchors - k) false;
  ao_le : k ≤ num_anchors;
  ao_pad : drop k anchors = replicate (num_anchors - k) 0;
  ao_sorted i j a b : i < j → j < k → anchors !! i = Some a → anchors !! j = Some b → a < b;
  ao_candidate i a : i < k → anchors !! i = Some a → candidate seq_len loss_mask a;
  ao_complete a : k < num_anchors → candidate seq_len loss_mask a → a ∈ take k anchors
}.

Lemma keep_mask_replicate k n :
  k ≤ n → (λ i, i <? k) <$> seq 0 n = replicate k true ++ replicate (n - k) false.
Proof.
  intros Hk. apply list_eq. intros i. rewrite list_lookup_fmap, lookup_app, length_replicate.
  destruct (decide (i < n)).
  - rewrite lookup_seq_lt by done. cbn [fmap option_fmap option_map]. rewrite Nat.add_0_l.
    destruct (Nat.ltb_spec i k).
    + by rewrite lookup_replicate_2 by done.
    + rewrite (lookup_ge_None_2 (replicate k true)) by len. by rewrite lookup_replicate_2 by lia.
  - rewrite !lookup_ge_None_2; [done|len..].
Qed.

Lemma sorted_app_big (l : list nat) big m :
  Forall (λ x, x ≤ big) l →
  merge_sort (≤) (l ++ replicate m big) = merge_sort (≤) l ++ replicate m big.
Proof.
  intros Hl. apply (StronglySorted_unique (≤)).
  - apply StronglySorted_merge_sort; apply _.
  - apply StronglySorted_app. split_and!.
    + intros x y Hx [-> _]%elem_of_replicate. rewrite merge_sort_Permutation in Hx.
      rewrite Forall_forall in Hl. by apply Hl.
    + apply StronglySorted_merge_sort; apply _.
    + induction m as [|m IH]; cbn; constructor; [done|]. apply Forall_replicate. lia.
  - by rewrite !merge_sort_Permutation.
Qed.

Section sampling_proof.
Context `{!TorchSort, !TorchSortLaws}.
Variables (valid : list bool) (random_vals : list Q) (big : nat).
Hypothesis Hlen : length random_vals = length valid.
Hypothesis Hrange : Forall (λ x, x < 2)%Q random_vals.

Let n := length valid.
Let is_valid (i : nat) : Prop := valid !! i = Some true.
Let idx := sort_indices (where_row valid random_vals 2%Q).

Lemma sort_idx_perm : idx ≡ₚ seq 0 n.
Proof.
  unfold idx. rewrite sort_indices_perm. unfold where_row. rewrite length_zip_with, Hlen.
  by rewrite Nat.min_id.
Qed.

Lemma sort_idx_lt i a : idx !! i = Some a → ∃ b q, valid !! a = Some b ∧ random_vals !! a = Some q ∧
  where_row valid random_vals 2%Q !! a = Some (if b : bool then q else 2%Q).
Proof.
  intros Ha%list_elem_of_lookup_2. rewrite sort_idx_perm in Ha. apply elem_of_seq in Ha as [_ Ha].
  destruct (lookup_lt_is_Some_2 valid a ltac:(unfold n in *; lia)) as [b Hb].
  destruct (lookup_lt_is_Some_2 random_vals a ltac:(unfold n in *; lia)) as [q Hq].
  exists b, q. split_and!; [done..|]. unfold where_row. apply lookup_zip_with_Some. by exists b, q.
Qed.

Lemma sort_idx_valid_first i j a b :
  i < j → idx !! i = Some a → idx !! j = Some b → is_valid b → is_valid a.
Proof.
  intros Hij Ha Hb Hv. destruct (sort_idx_lt i a Ha) as (va & qa & Hva & Hqa & Hka).
  destruct (sort_idx_lt j b Hb) as (vb & qb & Hvb & Hqb & Hkb).
  pose proof (sort_indices_sorted _ i j a b _ _ Hij Ha Hb Hka Hkb) as Hle.
  unfold is_valid in *. rewrite Hvb in Hv. injection Hv as ->. rewrite Hva. f_equal.
  destruct va; [done|]. exfalso. rewrite Forall_lookup in Hrange. pose proof (Hrange _ _ Hqb). cbn in *. lra.
Qed.

Lemma gathered_split :
  ∃ V, mapM (py_index (where_row valid (seq 0 n) big)) idx = Ok (V ++ replicate (n - count_true valid) big) ∧
    V ≡ₚ filter is_valid (seq 0 n).
Proof.
  exists (filter is_valid idx). split; [|by rewrite sort_idx_perm].
  rewrite (mapM_Ok_fmap _ (λ i, if decide (is_valid i) then i else big)).
  2: { apply Forall_lookup. intros i a Ha. apply py_index_Ok.
       destruct (sort_idx_lt i a Ha) as (b & q & Hb & _ & _). unfold where_row.
       apply lookup_zip_with_Some. exists b, a. split_and!; [|done|].
       - unfold is_valid. rewrite Hb. destruct b; by case_decide; simplify_eq.
       - apply lookup_lt_Some in Hb. by apply lookup_seq_lt. }
  f_equal. rewrite (filter_partition_sorted is_valid idx sort_idx_valid_first) at 1.
  rewrite fmap_app. f_equal.
  - rewrite <- (list_fmap_id (filter is_valid idx)) at 2. apply list_fmap_ext.
    intros i x [Hx _]%list_elem_of_lookup_2%list_elem_of_filter. by rewrite decide_True.
  - rewrite (const_fmap _ _ big).
    2: { intros i x [E _]%list_elem_of_lookup_2%list_elem_of_filter. by rewrite decide_False. }
    f_equal. pose proof (f_equal length (filter_partition_sorted is_valid idx sort_idx_valid_first)) as Hp.
    rewrite length_app, sort_idx_perm, length_seq in Hp at 1.
    assert (Hc : count_true valid = length (filter is_valid idx)).
    { rewrite count_true_filter. fold n. by rewrite sort_idx_perm. }
    lia.
Qed.
End sampling_proof.

Lemma take_padded (V : list nat) (n max_n big : nat) :
  length V ≤ n →
  take max_n (if n <? max_n then (V ++ replicate (n - length V) big) ++ replicate (max_n - n) big
              else V ++ replicate (n - length V) big) =
    take max_n V ++ replicate (max_n - length V) big.
Proof.
  intros HV. destruct (Nat.ltb_spec n max_n).
  - rewrite <- app_assoc, <- replicate_add, take_app, take_replicate. f_equal. f_equal. lia.
  - rewrite take_app, take_replicate. f_equal. f_equal. lia.
Qed.

Lemma where_row_replicate {A} (S : list A) j (d x : A) :
  where_row (replicate (length S) true ++ replicate j false) (S ++ replicate j x) d = S ++ replicate j d.
Proof.
  induction S as [|y S IH]; cbn; [|by f_equal].
  induction j as [|j IH]; cbn; [done|]. by f_equal.
Qed.

Lemma sorted_nodup_lt (S : list nat) i j a b :
  StronglySorted (≤) S → NoDup S → i < j → S !! i = Some a → S !! j = Some b → a < b.
Proof.
  intros Hs Hn Hij Ha Hb. assert (a ≠ b).
  { intros ->. pose proof (NoDup_lookup _ _ _ _ Hn Ha Hb). lia. }
  assert (a ≤ b); [|lia]. rewrite <- (take_drop_middle _ _ _ Ha) in Hs.
  apply StronglySorted_app_1_r, StronglySorted_cons in Hs as [Hf _].
  rewrite Forall_lookup in Hf. apply (Hf (j - Datatypes.S i)). rewrite lookup_drop. rewrite <- Hb. f_equal. lia.
Qed.

(** Sorting the first [num_anchors] valid positions and padding gives an outcome. *)
Lemma anchors_ok_intro seq_len loss_mask num_anchors (V : list nat) :
  NoDup V → (∀ a, a ∈ V ↔ candidate seq_len loss_mask a) →
  let k := Nat.min (length V) num_anchors in
  anchors_ok seq_len loss_mask num_anchors k
    (merge_sort (≤) (take num_anchors V) ++ replicate (num_anchors - length V) 0)
    (replicate k true ++ replicate (num_anchors - k) false).
Proof.
  intros Hnd HV k. set (S := merge_sort (≤) (take num_anchors V)).
  assert (HS : S ≡ₚ take num_anchors V) by apply merge_sort_Permutation.
  assert (HlS : length S = k) by (rewrite HS, length_take; unfold k; lia).
  assert (Hel : ∀ a, a ∈ S → candidate seq_len loss_mask a).
  { intros a Ha. rewrite HS in Ha. apply HV. by eapply elem_of_take_in. }
  assert (Hl : ∀ i a, i < k → (S ++ replicate (num_anchors - length V) 0) !! i = Some a → S !! i = Some a).
  { intros i a Hi Ha. by rewrite lookup_app_l in Ha by lia. }
  split; try done.
  - rewrite length_app, length_replicate, HlS. unfold k. lia.
  - unfold k. lia.
  - rewrite drop_app_length' by done. f_equal. unfold k. lia.
  - intros i j a b Hij Hj Ha%Hl Hb%Hl; [|lia..]. apply (sorted_nodup_lt S i j); try done.
    + apply StronglySorted_merge_sort; apply _.
    + rewrite HS. by apply NoDup_take.
  - intros i a Hi Ha%Hl; [|done]. apply Hel. by eapply list_elem_of_lookup_2.
  - intros a Hk Ha. rewrite take_app_length' by done. rewrite HS, take_ge by (unfold k in Hk; lia).
    by apply HV.
Qed.

(** C23: anchor sampling is correct whatever the random keys: it returns
    [num_anchors] slots whose kept ones come first, are distinct, sorted and all
    candidates (the anchor and its first target are supervised); the others hold
    position 0; and no candidate is left out while a slot is unused. *)
Theorem sample_anchor_positions_ok `{!TorchSort, !TorchSortLaws} (seq_len : nat) (loss_mask : list Q)
    (num_anchors : nat) (random_vals : list Q)
    (Hloss : length loss_mask = seq_len) (Hrand : length random_vals = seq_len - 1)
    (Hrange : Forall (λ x, x < 2)%Q random_vals) :
  ∃ anchors keep_mask k,
    sample_anchor_positions seq_len loss_mask num_anchors random_vals = Ok (anchors, keep_mask) ∧
    anchors_ok seq_len loss_mask num_anchors k anchors keep_mask.
Proof.
  destruct (build_anchor_candidate_mask_spec seq_len loss_mask Hloss) as (valid & Hv & Hlv & Hcand).
  unfold sample_anchor_positions. rewrite Hv. cbn [mbind result_bind].
  destruct (Nat.eqb_spec (length valid) 0) as [E|E].
  { eexists _, _, 0. split; [done|]. split; rewrite ?Nat.sub_0_r; try done; try lia; [len|].
    intros a Ha [Hc _]. lia. }
  destruct (gathered_split valid random_vals (seq_len + 1) ltac:(lia) Hrange) as (V & -> & HV).
  cbn [mbind result_bind].
  assert (HlV : length V = count_true valid) by by rewrite HV, count_true_filter.
  assert (Hle : count_true valid ≤ length valid) by apply length_filter.
  rewrite <- HlV. rewrite take_padded by lia. rewrite keep_mask_replicate by lia.
  assert (HinV : ∀ a, a ∈ V ↔ candidate seq_len loss_mask a).
  { intros a. rewrite HV, list_elem_of_filter, elem_of_seq, Hcand. split; [by intros [? _]|].
    intros Ha. split; [done|]. destruct Ha as [? _]. lia. }
  rewrite sorted_app_big.
  2: { apply Forall_lookup. intros i a Ha%list_elem_of_lookup_2%elem_of_take_in%HinV.
       destruct Ha as [? _]. lia. }
  eexists _, _, (Nat.min (length V) num_anchors). split; [done|].
  assert (Hnd : NoDup V) by (rewrite HV; apply NoDup_filter, NoDup_seq).
  pose proof (anchors_ok_intro seq_len loss_mask num_anchors V Hnd HinV) as Hok. cbv zeta in Hok.
  set (S := merge_sort (≤) (take num_anchors V)) in *.
  assert (HlS : length S = Nat.min (length V) num_anchors)
    by (unfold S; rewrite merge_sort_Permutation, length_take; lia).
  replace (num_anchors - length V) with (num_anchors - Nat.min (length V) num_anchors) in * by lia.
  rewrite <- HlS in *. by rewrite where_row_replicate.
Qed.

(** A concrete sort, for evaluation on examples. *)
Module MergeSort.
Definition key_le (keys : list Q) (i j : nat) : Prop :=
  Qle_bool (default 0%Q (keys !! i)) (default 0%Q (keys !! j)) = true.
#[export] Instance key_le_dec keys i j : Decision (key_le keys i j).
Proof. unfold key_le. apply _. Defined.
#[export] Instance key_le_trans keys : Transitive (key_le keys).
Proof. intros i j k. unfold key_le. rewrite !Qle_bool_iff. lra. Qed.
#[export] Instance key_le_total keys : Total (key_le keys).
Proof.
  intros i j. unfold key_le. rewrite !Qle_bool_iff.
  destruct (Qlt_le_dec (default 0%Q (keys !! j)) (default 0%Q (keys !! i))); [right|left]; lra.
Qed.
#[export] Instance sort : TorchSort := λ keys, merge_sort (key_le keys) (seq 0 (length keys)).
#[export] Instance sort_laws : TorchSortLaws.
Proof.
  split.
  - intros keys. apply merge_sort_Permutation.
  - intros keys i j a b ka kb Hij Ha Hb Hka Hkb.
    pose proof (StronglySorted_merge_sort (key_le keys) (seq 0 (length keys))) as Hs.
    change (merge_sort (key_le keys) (seq 0 (length keys))) with (sort_indices keys) in Hs.
    rewrite <- (take_drop_middle _ _ _ Ha) in Hs.
    apply StronglySorted_app_1_r, StronglySorted_cons in Hs as [Hf _].
    rewrite Forall_lookup in Hf. specialize (Hf (j - S i) b).
    rewrite lookup_drop in Hf. replace (S i + (j - S i)) with j in Hf by lia.
    specialize (Hf Hb). unfold key_le in Hf. rewrite Hka, Hkb in Hf. by apply Qle_bool_iff in Hf.
Qed.
End MergeSort.
Import MergeSort.

Lemma sample_anchor_positions_ok_witness :
  ∃ anchors keep_mask k,
    sample_anchor_positions 6 [1; 1; 0; 1; 1; 1]%Q 2 [1 # 2; 1 # 3; 0; 1 # 5; 1 # 4]%Q
      = Ok (anchors, keep_mask) ∧
    anchors_ok 6 [1; 1; 0; 1; 1; 1]%Q 2 k anchors keep_mask.
Proof.
  apply sample_anchor_positions_ok; [reflexivity|reflexivity|].
  rewrite !Forall_cons. split_and!; try lra. constructor.
Defined.

(** ** Labels and evaluation mask *)

Lemma bcumprod_lookup l i b :
  l !! i = Some b → bcumprod l !! i = Some (forallb id (take (S i) l)).
Proof.
  intros Hi. unfold bcumprod, cumprod.
  assert (Hgen : ∀ acc l i b, l !! i = Some b → acc ≤ 1 →
    cumprod_from acc ((λ b : bool, if b then 1 else 0) <$> l) !! i =
      Some (if (acc =? 1) && forallb id (take (S i) l) then 1 else 0)).
  { clear. intros acc l. revert acc. induction l as [|x l IH]; intros acc i b Hi Hacc; [done|].
    destruct i as [|i]; cbn in Hi |- *.
    - f_equal. destruct acc as [|[|]]; [| |lia]; by destruct x.
    - rewrite (IH _ _ b Hi) by (destruct x; lia). f_equal.
      destruct acc as [|[|]]; [| |lia]; by destruct x. }
  rewrite list_lookup_fmap, (Hgen 1 l i b Hi ltac:(lia)). cbn [fmap option_fmap option_map Nat.eqb andb].
  by destruct (forallb _ _).
Qed.

Definition at_loss (loss_mask : list Q) (i : nat) : Q := default 0%Q (loss_mask !! i).

Definition safe_index (seq_len : nat) (keep : bool) (i : nat) : nat :=
  if keep then Nat.min i (seq_len - 1) else 0.

Lemma gather_rows_ok (row : list Q) (idx : list (list nat)) :
  Forall (Forall (λ i, i < length row)) idx →
  gather_rows row idx = Ok ((λ r : list nat, at_loss row <$> r) <$> idx).
Proof.
  intros Hidx. apply mapM_Ok_fmap. eapply Forall_impl; [exact Hidx|]. intros r Hr.
  apply mapM_Ok_fmap. eapply Forall_impl; [exact Hr|]. intros i [x Hi]%lookup_lt_is_Some_2.
  apply py_index_Ok. unfold at_loss. by rewrite Hi.
Qed.

Lemma safe_rows_in_range seq_len keep labels :
  0 < seq_len → Forall (Forall (λ i, i < seq_len)) (safe_label_indices seq_len keep labels).
Proof.
  intros Hs. apply Forall_lookup. intros b row (kp & r & -> & _ & _)%lookup_zip_with_Some.
  apply Forall_fmap, Forall_forall. intros i _. cbn. destruct kp; lia.
Qed.

(** Row [b] of the evaluation mask before and after the prefix product. *)
Definition supervised (seq_len : nat) (loss_mask : list Q) (keep : bool) (i : nat) : bool :=
  ((i <? seq_len) && enabled (at_loss loss_mask (safe_index seq_len keep i))) && keep.

Lemma build_eval_mask_rows seq_len loss_mask anchors keep bs :
  length loss_mask = seq_len → 0 < seq_len → length keep = length anchors →
  build_eval_mask seq_len loss_mask (label_indices anchors bs)
    (safe_label_indices seq_len keep (label_indices anchors bs)) keep =
  Ok (zip_with (λ kp a, bcumprod (supervised seq_len loss_mask kp <$> ((λ o, a + o) <$> seq 1 bs)))
        keep anchors).
Proof.
  intros Hl Hs Hk. unfold build_eval_mask. rewrite gather_rows_ok.
  2: { eapply Forall_impl; [by apply safe_rows_in_range|]. cbn. by rewrite Hl. }
  cbn [mbind result_bind]. f_equal. clear Hl Hs. unfold safe_label_indices, label_indices.
  revert anchors Hk. induction keep as [|kp keep IH]; intros [|a anchors] Hk; try done.
  cbn. f_equal; [|apply IH; by injection Hk].
  clear IH Hk. f_equal. unfold target_valid_row.
  generalize (seq 1 bs) as os. intros os. induction os as [|o os IHo]; cbn; [done|].
  f_equal. exact IHo.
Qed.

(** C24: a slot [k] of the block anchored at [a] contributes to the loss exactly when
    its block is kept and every target from the first to the [k]-th lies inside the
    sequence and is enabled by the loss mask: supervision is a contiguous prefix. *)
Theorem eval_mask_contiguous_prefix (seq_len : nat) (loss_mask : list Q) (anchors : list nat)
    (keep : list bool) (bs : nat) (Hloss : length loss_mask = seq_len) (Hseq : 0 < seq_len)
    (Hkeep : length keep = length anchors) :
  ∃ em,
    build_eval_mask seq_len loss_mask (label_indices anchors bs)
      (safe_label_indices seq_len keep (label_indices anchors bs)) keep = Ok em ∧
    length em = length anchors ∧
    ∀ b a kp k, anchors !! b = Some a → keep !! b = Some kp → k < bs →
      ∃ row v, em !! b = Some row ∧ row !! k = Some v ∧
        (v = true ↔ kp = true ∧ ∀ j, j ≤ k → ∃ x, loss_mask !! (a + 1 + j) = Some x ∧ enabled x = true).
Proof.
  eexists. split; [by apply build_eval_mask_rows|]. split; [rewrite length_zip_with; lia|].
  intros b a kp k Ha Hkp Hk. rewrite lookup_zip_with, Hkp, Ha. cbn [mbind option_bind].
  assert (Hj : ∀ j, j < bs → (supervised seq_len loss_mask kp <$> ((λ o, a + o) <$> seq 1 bs)) !! j =
    Some (supervised seq_len loss_mask kp (a + 1 + j))).
  { intros j Hj. rewrite !list_lookup_fmap, lookup_seq_lt by done. cbn. f_equal. f_equal. lia. }
  eexists _, _. split; [done|]. split; [by eapply bcumprod_lookup, Hj|].
  assert (Hsup : ∀ i, supervised seq_len loss_mask kp i = true ↔
    kp = true ∧ ∃ x, loss_mask !! i = Some x ∧ enabled x = true).
  { intros i. unfold supervised, safe_index, at_loss. rewrite !andb_true_iff, Nat.ltb_lt. split.
    - intros [[Hi He] ->]. split; [done|]. rewrite Nat.min_l in He by lia.
      destruct (lookup_lt_is_Some_2 loss_mask i ltac:(lia)) as [x Hx]. rewrite Hx in He. by exists x.
    - intros [-> (x & Hx & He)]. apply lookup_lt_Some in Hx as Hlt. rewrite Nat.min_l, Hx by lia.
      split_and!; [lia|done|done]. }
  rewrite forallb_forall. split.
  - intros Hall. assert (Hs : ∀ j, j ≤ k → supervised seq_len loss_mask kp (a + 1 + j) = true).
    { intros j Hjk. apply Hall, list_elem_of_In, elem_of_take. exists j. split; [apply Hj; lia|lia]. }
    split; [by apply (Hsup (a + 1 + 0)), Hs; lia|]. intros j Hjk. by apply Hsup, Hs.
  - intros [-> Hx] v Hv%list_elem_of_In. apply elem_of_take in Hv as (j & Hv & Hjk).
    rewrite Hj in Hv by lia. injection Hv as <-. apply Hsup. split; [done|]. apply Hx. lia.
Qed.

Lemma eval_mask_contiguous_prefix_witness :
  ∃ em,
    build_eval_mask 5 [1; 1; 1; 0; 1]%Q (label_indices [0; 2] 3)
      (safe_label_indices 5 [true; false] (label_indices [0; 2] 3)) [true; false] = Ok em ∧
    length em = 2 ∧
    ∀ b a kp k, [0; 2] !! b = Some a → [true; false] !! b = Some kp → k < 3 →
      ∃ row v, em !! b = Some row ∧ row !! k = Some v ∧
        (v = true ↔ kp = true ∧ ∀ j, j ≤ k → ∃ x, [1; 1; 1; 0; 1]%Q !! (a + 1 + j) = Some x ∧ enabled x = true).
Proof. apply eval_mask_contiguous_prefix; [reflexivity|lia|reflexivity]. Defined.

(** ** What a query of a block sees *)

(** Positions of the keys a query attends to, in key order. *)
Definition visible (mask : BlockMask) (positions : list nat) (q : nat) : list nat :=
  (filter (λ x : nat * nat, mask_mod mask (Z.of_nat q) (Z.of_nat x.1) = true)
     (zip (seq 0 (length positions)) positions)).*2.

Lemma filter_index_range (l : list nat) off lo hi :
  (filter (λ x : nat * nat, lo ≤ x.1 ∧ x.1 < hi) (zip (seq off (length l)) l)).*2 =
    l.[lo - off, hi - off].
Proof.
  revert off. induction l as [|x l IH]; intros off; cbn [length seq zip zip_with].
  { unfold py_slice. by rewrite drop_nil, take_nil. }
  rewrite filter_cons. cbn [fst]. pose proof (IH (S off)) as IHo. unfold py_slice in *.
  case_decide as Hin.
  - rewrite fmap_cons. cbn [snd]. fold (zip (seq (S off) (length l)) l). rewrite IHo.
    replace (lo - off) with 0 by lia. replace (lo - S off) with 0 by lia.
    replace (hi - off - 0) with (S (hi - S off)) by lia. rewrite Nat.sub_0_r. done.
  - fold (zip (seq (S off) (length l)) l). rewrite IHo.
    destruct (decide (lo ≤ off)).
    + replace (hi - S off - (lo - S off)) with 0 by lia.
      by replace (hi - off - (lo - off)) with 0 by lia.
    + replace (lo - off) with (S (lo - S off)) by lia. cbn [drop].
      f_equal. lia.
Qed.

Lemma zip_seq_app (l1 l2 : list nat) off :
  zip (seq off (length (l1 ++ l2))) (l1 ++ l2) =
    zip (seq off (length l1)) l1 ++ zip (seq (off + length l1) (length l2)) l2.
Proof. rewrite length_app, seq_app. apply zip_with_app. len. Qed.

(** The part of the visible keys that comes from one segment of the key sequence. *)
Lemma visible_segment (mask : BlockMask) (q : Z) (l : list nat) off lo hi :
  (∀ i, off ≤ i → i < off + length l → (mask_mod mask q (Z.of_nat i) = true ↔ lo ≤ i ∧ i < hi)) →
  (filter (λ x : nat * nat, mask_mod mask q (Z.of_nat x.1) = true) (zip (seq off (length l)) l)).*2 =
    l.[lo - off, hi - off].
Proof.
  intros HP. rewrite <- (filter_index_range l off lo hi). f_equal. apply filter_ext_in. intros [i p] Hi. cbn.
  apply HP; apply elem_of_zip_l, elem_of_seq in Hi; lia.
Qed.

Lemma block_position_slice (anchors : list nat) w b a :
  anchors !! b = Some a → (block_position_ids anchors w).[b * w, b * w + w] = seq a w.
Proof.
  revert b. induction anchors as [|a0 anchors IH]; intros b Hb; [done|].
  assert (Hl : length ((λ o, a0 + o) <$> seq 0 w) = w) by len.
  unfold py_slice, block_position_ids in *. cbn [mbind list_bind].
  destruct b as [|b]; cbn in Hb.
  - injection Hb as ->. rewrite drop_0, take_app_length' by (rewrite Hl; lia).
    by rewrite fmap_add_seq, Nat.add_0_r.
  - cbn [Nat.mul]. rewrite drop_app_ge by lia. rewrite <- (IH b Hb). f_equal; [lia|]. f_equal. lia.
Qed.

Lemma length_block_positions anchors w : length (block_position_ids anchors w) = length anchors * w.
Proof. unfold block_position_ids. induction anchors as [|a l IH]; cbn; [done|]. rewrite length_app, IH. len. Qed.

Lemma div_block (q b w : Z) : (b * w <= q)%Z → (q < b * w + w)%Z → (q / w = b)%Z.
Proof. intros H1 H2. symmetry. apply (Z.div_unique q w b (q - b * w)); lia. Qed.

Lemma div_block_iff (x b w : Z) : (0 < w)%Z → (b = x / w ↔ b * w <= x /\ x < b * w + w)%Z.
Proof.
  intros Hw. split; [intros ->|intros [? ?]; symmetry; by apply div_block].
  pose proof (Z.mul_div_le x w Hw). pose proof (Z.mul_succ_div_gt x w Hw). lia.
Qed.

Lemma at_block anchors keep b a kp :
  anchors !! b = Some a → keep !! b = Some kp →
  Z_at anchors (Z.of_nat b) = Z.of_nat a ∧ b_at keep (Z.of_nat b) = kp.
Proof.
  intros Ha Hk. unfold Z_at, b_at. rewrite Nat2Z.id. split; [f_equal|]; by apply list_lookup_total_correct.
Qed.

Lemma own_block (b i off v : nat) : 0 < v → off ≤ i →
  (Z.of_nat b =? (Z.of_nat i - Z.of_nat off) / Z.of_nat v)%Z = true ↔ off + b * v ≤ i ∧ i < off + b * v + v.
Proof. intros Hv Hi. rewrite Z.eqb_eq, div_block_iff by lia. lia. Qed.

Lemma visible_none mask positions q :
  (∀ kv, mask_mod mask (Z.of_nat q) kv = false) → visible mask positions q = [].
Proof.
  intros Hm. unfold visible. induction (zip _ _) as [|x l IH]; [done|].
  rewrite filter_cons, decide_False; [done|]. by rewrite Hm.
Qed.

Lemma latent_slice anchors w b a off hi :
  anchors !! b = Some a → hi = off + b * w + w →
  (block_position_ids anchors w).[off + b * w - off, hi - off] = seq a w.
Proof. intros Ha ->. rewrite <- (block_position_slice anchors w b a Ha). f_equal; lia. Qed.

(** One key of a mask, as a proposition. *)
Lemma mask_key anchors keep seq_len bs nl b a q i :
  anchors !! b = Some a → keep !! b = Some true → 0 < nl → b * bs ≤ q → q < b * bs + bs →
  mask_mod (create_myspec_mask_attention_mask anchors keep (Z.of_nat seq_len) (Z.of_nat bs) (Z.of_nat nl))
    (Z.of_nat q) (Z.of_nat i) = true ↔
  i < seq_len ∧ i < a ∨
  seq_len ≤ i ∧ i < seq_len + length anchors * nl ∧ seq_len + b * nl ≤ i ∧ i < seq_len + b * nl + nl ∨
  seq_len + length anchors * nl ≤ i ∧ seq_len + length anchors * nl + b * bs ≤ i ∧
    i < seq_len + length anchors * nl + b * bs + bs.
Proof.
  intros Ha Hk Hnl Hq1 Hq2. cbn [mask_mod create_myspec_mask_attention_mask].
  rewrite (div_block (Z.of_nat q) (Z.of_nat b) (Z.of_nat bs)) by lia.
  destruct (at_block anchors keep b a true Ha Hk) as [-> ->].
  replace (Z.of_nat seq_len + Z.of_nat (length anchors) * Z.of_nat nl)%Z
    with (Z.of_nat (seq_len + length anchors * nl)) by lia.
  rewrite andb_true_r, !orb_true_iff, !andb_true_iff, !Z.ltb_lt, !Z.leb_le.
  rewrite Logic.or_assoc. f_equiv; [lia|]. f_equiv.
  - destruct (decide (seq_len ≤ i)); [|lia]. rewrite own_block by lia. lia.
  - destruct (decide (seq_len + length anchors * nl ≤ i)); [|lia]. rewrite own_block by lia. lia.
Qed.

Lemma latent_key anchors keep seq_len nl b a q i :
  anchors !! b = Some a → keep !! b = Some true → 0 < nl → b * nl ≤ q → q < b * nl + nl →
  mask_mod (create_myspec_latent_attention_mask anchors keep (Z.of_nat seq_len) (Z.of_nat nl))
    (Z.of_nat q) (Z.of_nat i) = true ↔
  i < seq_len ∧ i < a ∨ seq_len ≤ i ∧ seq_len + b * nl ≤ i ∧ i < seq_len + b * nl + nl.
Proof.
  intros Ha Hk Hnl Hq1 Hq2. cbn [mask_mod create_myspec_latent_attention_mask].
  rewrite (div_block (Z.of_nat q) (Z.of_nat b) (Z.of_nat nl)) by lia.
  destruct (at_block anchors keep b a true Ha Hk) as [-> ->].
  rewrite andb_true_r, !orb_true_iff, !andb_true_iff, !Z.ltb_lt, !Z.leb_le. f_equiv; [lia|].
  destruct (decide (seq_len ≤ i)); [|lia]. rewrite own_block by lia. lia.
Qed.

Lemma latent_visible anchors keep seq_len nl b a q :
  anchors !! b = Some a → keep !! b = Some true → a ≤ seq_len → 0 < nl →
  b * nl ≤ q → q < b * nl + nl →
  visible (create_myspec_latent_attention_mask anchors keep (Z.of_nat seq_len) (Z.of_nat nl))
    (seq 0 seq_len ++ create_latent_position_ids anchors nl) q = seq 0 a ++ seq a nl.
Proof.
  intros Ha Hkeep Hseq Hnl Hq1 Hq2. unfold visible. rewrite zip_seq_app, filter_app, fmap_app.
  rewrite (visible_segment _ _ _ 0 0 a), (visible_segment _ _ _ _ (seq_len + b * nl) (seq_len + b * nl + nl));
    rewrite ?length_seq, ?Nat.add_0_l.
  - rewrite !Nat.sub_0_r, py_slice_0, take_seq. unfold create_latent_position_ids.
    rewrite (latent_slice anchors nl b a) by (done || lia). f_equal. f_equal. lia.
  - intros i Hi _. rewrite (latent_key _ _ _ _ b a) by done. lia.
  - intros i _ Hi. rewrite (latent_key _ _ _ _ b a) by done. lia.
Qed.

Lemma mask_visible anchors keep seq_len bs nl b a q :
  anchors !! b = Some a → keep !! b = Some true → a ≤ seq_len → 0 < nl →
  b * bs ≤ q → q < b * bs + bs →
  visible (create_myspec_mask_attention_mask anchors keep (Z.of_nat seq_len) (Z.of_nat bs) (Z.of_nat nl))
    (seq 0 seq_len ++ create_latent_position_ids anchors nl ++ create_position_ids anchors bs) q =
  seq 0 a ++ seq a nl ++ seq a bs.
Proof.
  intros Ha Hkeep Hseq Hnl Hq1 Hq2.
  assert (Hb : b < length anchors) by (by eapply lookup_lt_Some).
  assert (Hbn : b * nl + nl ≤ length anchors * nl) by nia.
  unfold visible. rewrite zip_seq_app, filter_app, fmap_app, zip_seq_app, filter_app, fmap_app.
  unfold create_latent_position_ids, create_position_ids.
  set (e := seq_len + length anchors * nl).
  rewrite (visible_segment _ _ _ 0 0 a),
    (visible_segment _ _ _ _ (seq_len + b * nl) (seq_len + b * nl + nl)),
    (visible_segment _ _ _ _ (e + b * bs) (e + b * bs + bs));
    rewrite ?length_seq, ?length_block_positions, ?Nat.add_0_l; unfold e.
  - rewrite !Nat.sub_0_r, py_slice_0, take_seq. f_equal; [f_equal; lia|].
    rewrite (latent_slice anchors nl b a) by (done || lia). f_equal.
    by rewrite (latent_slice anchors bs b a).
  - intros i Hi _. rewrite (mask_key _ _ _ _ _ b a) by done. lia.
  - intros i Hi Hi2. rewrite (mask_key _ _ _ _ _ b a) by done. lia.
  - intros i _ Hi. rewrite (mask_key _ _ _ _ _ b a) by done. lia.
Qed.

(** C25: the block masks isolate the blocks.  A query of a kept block anchored at [a]
    sees exactly the context before [a], its own block's latent tokens and its own
    draft tokens -- never a label position, never another block; a latent query sees
    the context and its own latents; a query of a dropped block sees nothing. *)
Theorem block_masks_isolate (anchors : list nat) (keep : list bool) (seq_len b a bs nl : nat) kp
    (Ha : anchors !! b = Some a) (Hkeep : keep !! b = Some kp) (Hseq : a ≤ seq_len)
    (Hbs : 0 < bs) (Hnl : 0 < nl) :
  (∀ q, b * bs ≤ q → q < b * bs + bs →
    visible (create_myspec_mask_attention_mask anchors keep (Z.of_nat seq_len) (Z.of_nat bs) (Z.of_nat nl))
      (seq 0 seq_len ++ create_latent_position_ids anchors nl ++ create_position_ids anchors bs) q =
    if kp then seq 0 a ++ seq a nl ++ seq a bs else []) ∧
  (∀ q, b * nl ≤ q → q < b * nl + nl →
    visible (create_myspec_latent_attention_mask anchors keep (Z.of_nat seq_len) (Z.of_nat nl))
      (seq 0 seq_len ++ create_latent_position_ids anchors nl) q =
    if kp then seq 0 a ++ seq a nl else []).
Proof.
  destruct kp; split; intros q Hq1 Hq2; [by apply (mask_visible _ _ _ _ _ b)|by apply (latent_visible _ _ _ _ b)|..];
    apply visible_none; intros kv;
    cbn [mask_mod create_myspec_mask_attention_mask create_myspec_latent_attention_mask].
  - rewrite (div_block (Z.of_nat q) (Z.of_nat b) (Z.of_nat bs)) by lia.
    destruct (at_block anchors keep b a false Ha Hkeep) as [_ ->]. apply andb_false_r.
  - rewrite (div_block (Z.of_nat q) (Z.of_nat b) (Z.of_nat nl)) by lia.
    destruct (at_block anchors keep b a false Ha Hkeep) as [_ ->]. apply andb_false_r.
Qed.

Lemma block_masks_isolate_witness :
  visible (create_myspec_mask_attention_mask [1; 3] [true; true] 5 2 1)
    (seq 0 5 ++ create_latent_position_ids [1; 3] 1 ++ create_position_ids [1; 3] 2) 3 =
  [0; 1; 2] ++ [3] ++ [3; 4].
Proof. apply (proj1 (block_masks_isolate [1; 3] [true; true] 5 1 3 2 1 true eq_refl eq_refl
  ltac:(lia) ltac:(lia) ltac:(lia))); lia. Defined.

(** ** Noise tokens and positions of a block *)

Lemma index_put_spec {A} (t : list A) idx vals :
  NoDup idx → Forall (λ i, i < length t) idx → length idx = length vals →
  ∃ t', index_put t idx vals = Ok t' ∧ length t' = length t ∧
    (∀ j i v, idx !! j = Some i → vals !! j = Some v → t' !! i = Some v) ∧
    (∀ i, i ∉ idx → t' !! i = t !! i).
Proof.
  revert t vals. induction idx as [|i idx IH]; intros t [|v vals] Hnd Hlt Hl; try done.
  { by exists t. }
  apply NoDup_cons in Hnd as [Hi Hnd]. apply Forall_cons in Hlt as [Hit Hlt]. cbn [index_put].
  rewrite py_check_true by (by apply Nat.ltb_lt). cbn [mbind result_bind].
  destruct (IH (<[i:=v]> t) vals) as (t' & Ht' & Hl' & Hin & Hout); [done|by rewrite length_insert|by injection Hl|].
  exists t'. split; [done|]. split; [by rewrite Hl', length_insert|]. split.
  - intros [|j] i' v' Hi' Hv'; cbn in *; [|by eapply Hin]. simplify_eq.
    rewrite Hout by done. by apply list_lookup_insert_eq.
  - intros i' Hi'. apply not_elem_of_cons in Hi' as [Hne Hi']. rewrite Hout by done.
    by apply list_lookup_insert_ne.
Qed.

Lemma block_starts_nodup w n : 0 < w → NoDup ((λ b, b * w) <$> seq 0 n).
Proof. intros Hw. apply NoDup_fmap_2; [intros x y ?; nia|apply NoDup_seq]. Qed.

Lemma block_index_unique b k b' w : k < w → b * w + k = b' * w → k = 0 ∧ b = b'.
Proof. intros. destruct (decide (b < b')); [|destruct (decide (b' < b))]; nia. Qed.

(** The block inputs agree with the block positions: slot [k] of the block
    anchored at [a] has position [a + k]; slot 0 of a kept block carries the anchor's
    own token and every other slot the fill token (mask or latent), so no later token
    of the sequence enters the draft input. *)
Theorem noise_block_layout (input anchors : list nat) (keep : list bool) (fill w : nat)
    (Hkeep : length keep = length anchors) (Hin : Forall (λ a, a < length input) anchors)
    (Hw : 0 < w) :
  ∃ ids, noise_token_ids input anchors keep fill w = Ok ids ∧
    length ids = length anchors * w ∧
    ∀ b a kp k, anchors !! b = Some a → keep !! b = Some kp → k < w →
      create_position_ids anchors w !! (b * w + k) = Some (a + k) ∧
      ids !! (b * w + k) = if kp && (k =? 0) then input !! a else Some fill.
Proof.
  unfold noise_token_ids. rewrite (mapM_Ok_fmap _ (λ a, default 0 (input !! a))).
  2: { eapply Forall_impl; [exact Hin|]. intros a [x Hx]%lookup_lt_is_Some_2.
       apply py_index_Ok. by rewrite Hx. }
  cbn [mbind result_bind]. rewrite py_check_true by (apply Nat.eqb_eq; by rewrite length_fmap).
  cbn [mbind result_bind]. set (vals := where_row keep _ fill).
  assert (Hlv : length vals = length anchors) by (unfold vals, where_row; rewrite length_zip_with, length_fmap; lia).
  destruct (index_put_spec (replicate (length anchors * w) fill)
    ((λ b, b * w) <$> seq 0 (length anchors)) vals) as (ids & -> & Hl & Hput & Hrest).
  { by apply block_starts_nodup. }
  { apply Forall_fmap, Forall_lookup. intros i b [-> Hb]%lookup_seq. cbn. rewrite length_replicate. nia. }
  { rewrite length_fmap, length_seq. lia. }
  exists ids. split; [done|]. rewrite length_replicate in Hl. split; [done|].
  intros b a kp k Ha Hkp Hk. apply lookup_lt_Some in Ha as Hb. split.
  - pose proof (block_position_slice anchors w b a Ha) as Hs.
    apply (f_equal (.!! k)) in Hs. rewrite lookup_py_slice, lookup_seq_lt in Hs by lia. done.
  - destruct (decide (k = 0)) as [->|Hk0].
    + rewrite Nat.add_0_r. rewrite andb_true_r.
      apply Forall_lookup with (i := b) (x := a) in Hin as Hlt; [|done].
      destruct (lookup_lt_is_Some_2 input a Hlt) as [x Hx].
      rewrite (Hput b (b * w) (if kp then x else fill)); [destruct kp; by rewrite ?Hx| |].
      * by rewrite list_lookup_fmap, lookup_seq_lt by done.
      * unfold vals, where_row. rewrite lookup_zip_with, Hkp, list_lookup_fmap, Ha. cbn. by rewrite Hx.
    + replace (kp && (k =? 0)) with false by (destruct k; [done|]; by rewrite andb_false_r).
      rewrite Hrest; [apply lookup_replicate_2; nia|].
      intros (b' & E & _)%list_elem_of_fmap. by apply block_index_unique in E as [? _].
Qed.

Lemma noise_block_layout_witness :
  ∃ ids, noise_token_ids [7; 8; 9] [1; 0] [true; false] 99 2 = Ok ids ∧ length ids = 4 ∧
    ∀ b a kp k, [1; 0] !! b = Some a → [true; false] !! b = Some kp → k < 2 →
      create_position_ids [1; 0] 2 !! (b * 2 + k) = Some (a + k) ∧
      ids !! (b * 2 + k) = if kp && (k =? 0) then [7; 8; 9] !! a else Some 99.
Proof.
  apply (noise_block_layout [7; 8; 9] [1; 0] [true; false] 99 2); [reflexivity| |lia].
  rewrite !Forall_cons. cbn. split_and!; try lia. constructor.
Defined.
