(* ===== verification/MySpecModel.v ===== *)
(** * MySpecModel: the draft model around its layers

    Models [Qwen3MySpecModel] of
    [DeepSpec/deepspec/modeling/myspec/qwen3/modeling.py]: the two-stage backbone
    (latent layers, then mask layers), draft sampling, confidence prediction and the
    training forward.  The learned maps ([nn.Embedding], [nn.Linear], norms, rotary
    embedding) and the decoder layers are fields of the record: numerical code the
    control flow only calls.  A hidden row is a [list Q]; the batch is one row. *)

From S2P Require Import Prelude Sampling SpecDecode Markov Anchors.
#[local] Open Scope nat_scope.

Notation rows := (list (list Q)).

(** The [transformers.DynamicCache] operations the code calls. *)
Class DynamicCache (KV : Type) := {
  new_cache : KV;
  get_seq_length : KV → nat;
  crop_cache : nat → KV → KV
}.

Class DynamicCacheLaws (KV : Type) `{!DynamicCache KV} : Prop := {
  new_cache_length : get_seq_length new_cache = 0;
  crop_cache_length n c : get_seq_length (crop_cache n c) = Nat.min n (get_seq_length c)
}.

(** [layer(hidden_states, target_hidden_states, attention_mask, position_ids,
    position_embeddings, past_key_value)]; the cache is mutated by the call. *)
Definition latent_layer_over (Row KV PE : Type) : Type :=
  list Row → list Row → option BlockMask → list nat → PE → option KV → list Row * option KV.
Definition mask_layer_over (Row KV PE : Type) : Type :=
  list Row → list Row → list Row → option BlockMask → list nat → PE → option KV → list Row * option KV.
Definition latent_layer (KV PE : Type) : Type := latent_layer_over (list Q) KV PE.
Definition mask_layer (KV PE : Type) : Type := mask_layer_over (list Q) KV PE.

(** [_forward_backbone], over any type of hidden row. *)
Definition backbone {Row KV PE : Type} (fc hidden_norm latent_hidden_norm final_norm : Row → Row)
    (rotary_emb : list nat → PE) (latent_layers : list (latent_layer_over Row KV PE))
    (layers : list (mask_layer_over Row KV PE))
    (latent_noise_embedding : list Row) (latent_position_ids : list nat)
    (latent_attention_mask : option BlockMask) (position_ids : list nat)
    (attention_mask : option BlockMask) (noise_embedding target_hidden_states : list Row)
    (past_key_values : option KV) : list Row * option KV :=
  let target_hidden_states := (λ h, hidden_norm (fc h)) <$> target_hidden_states in
  let latent_position_embeddings := rotary_emb latent_position_ids in
  let '(latent_hidden_states, past) :=
    foldl (λ '(h, past) layer,
             layer h target_hidden_states latent_attention_mask latent_position_ids
               latent_position_embeddings past)
      (latent_noise_embedding, past_key_values) latent_layers in
  let latent_hidden_states := latent_hidden_norm <$> latent_hidden_states in
  let position_embeddings := rotary_emb position_ids in
  let '(hidden_states, past) :=
    foldl (λ '(h, past) layer,
             layer h target_hidden_states latent_hidden_states attention_mask position_ids
               position_embeddings past)
      (noise_embedding, past) layers in
  (final_norm <$> hidden_states, past).

Record MySpecModel (KV PE : Type) := {
  target_layer_ids : list Z;
  num_latent_tokens : nat;
  latent_token_id : nat;
  block_size : nat;
  mask_token_id : nat;
  num_anchors : nat;
  embed_tokens : nat → list Q;
  fc : list Q → list Q;
  hidden_norm : list Q → list Q;
  latent_hidden_norm : list Q → list Q;
  final_norm : list Q → list Q;
  lm_head : list Q → list Q;
  rotary_emb : list nat → PE;
  latent_layers : list (latent_layer KV PE);
  layers : list (mask_layer KV PE);
  markov_head : option MarkovHead;
  confidence_head : option (list Q → Q);
  confidence_head_with_markov : bool
}.
Arguments target_layer_ids {KV PE} _.
Arguments num_latent_tokens {KV PE} _.
Arguments latent_token_id {KV PE} _.
Arguments block_size {KV PE} _.
Arguments mask_token_id {KV PE} _.
Arguments num_anchors {KV PE} _.
Arguments embed_tokens {KV PE} _.
Arguments fc {KV PE} _.
Arguments hidden_norm {KV PE} _.
Arguments latent_hidden_norm {KV PE} _.
Arguments final_norm {KV PE} _.
Arguments lm_head {KV PE} _.
Arguments rotary_emb {KV PE} _.
Arguments latent_layers {KV PE} _.
Arguments layers {KV PE} _.
Arguments markov_head {KV PE} _.
Arguments confidence_head {KV PE} _.
Arguments confidence_head_with_markov {KV PE} _.

(** [MySpecForwardOutput], one batch row. *)
Record MySpecForwardOutput := {
  draft_logits : list rows;
  target_ids : list (list nat);
  eval_mask : list (list bool);
  block_keep_mask : list bool;
  confidence_pred : option (list (list Q));
  aligned_target_logits : option (list rows)
}.

(** [t.reshape(num_blocks, width, ...)]. *)
Definition reshape_blocks {A} (num_blocks width : nat) (l : list A) : result (list (list A)) :=
  _ ← py_check RuntimeError (length l =? num_blocks * width);
  Ok ((λ b, l.[b * width, b * width + width]) <$> seq 0 num_blocks).

Section model.
Context {KV PE : Type} (model : MySpecModel KV PE).

Definition compute_logits (hidden_states : rows) : rows := lm_head model <$> hidden_states.

Definition forward_backbone : rows → list nat → option BlockMask → list nat → option BlockMask →
    rows → rows → option KV → rows * option KV :=
  backbone (fc model) (hidden_norm model) (latent_hidden_norm model) (final_norm model)
    (rotary_emb model) (latent_layers model) (layers model).

(** The features of [predict_confidence_step]: hidden rows, with the previous
    tokens' Markov embeddings appended when the head uses them. *)
Definition confidence_features (hidden_states : rows) (prev_token_ids : option (list nat))
  : result rows :=
  if confidence_head_with_markov model then
    match markov_head model, prev_token_ids with
    | Some head, Some prev =>
        _ ← py_check RuntimeError (length hidden_states =? length prev);
        Ok (zip_with app hidden_states (get_prev_embeddings (weights head) <$> prev))
    | _, _ => Raise AssertionError
    end
  else Ok hidden_states.

Definition predict_confidence_step (hidden_states : rows) (prev_token_ids : option (list nat))
  : result (option (list Q)) :=
  match confidence_head model with
  | None => Ok None
  | Some head => features ← confidence_features hidden_states prev_token_ids;
                 Ok (Some (head <$> (features : rows)))
  end.

Section sample.
Context {RNG : Type} `{!TorchRandom RNG}.

Definition sample_draft_tokens (r : RNG) (base_logits : rows) (first_prev_token_id : nat)
    (temperature : Q) (hidden_states : option rows) : result (list nat * rows * RNG) :=
  if length base_logits =? 0 then Ok ([], base_logits, r) else
  match markov_head model with
  | None => '(ts, r) ← sample_tokens r base_logits temperature; Ok (ts, base_logits, r)
  | Some head => sample_block_tokens head r base_logits first_prev_token_id hidden_states temperature
  end.
End sample.

Definition gather_blocks {A} (row : list A) (idx : list (list nat)) : result (list (list A)) :=
  gather_rows row idx.

(** [prev_token_ids]: the anchor token followed by the labels but the last. *)
Definition shift_targets (anchor_token_ids : list nat) (target_ids : list (list nat))
  : list (list nat) :=
  zip_with (λ a ts, a :: ts.[0, length ts - 1]) anchor_token_ids target_ids.

(** [forward] on one batch row; [random_vals] is the row of [torch.rand]. *)
Definition forward `{!TorchSort} (input_ids : list nat) (target_hidden_states : rows)
    (loss_mask : list Q) (target_last_hidden_states : option rows) (random_vals : list Q)
  : result MySpecForwardOutput :=
  let seq_len := length input_ids in
  let bs := block_size model in
  let nl := num_latent_tokens model in
  '(anchor_positions, keep) ←
    sample_anchor_positions seq_len loss_mask (num_anchors model) random_vals;
  latent_noise_embedding ←
    create_latent_noise_embed (embed_tokens model) input_ids anchor_positions keep
      (latent_token_id model) nl;
  let context_position_ids := seq 0 seq_len in
  let latent_full_position_ids := context_position_ids ++ create_latent_position_ids anchor_positions nl in
  let latent_mask :=
    create_myspec_latent_attention_mask anchor_positions keep (Z.of_nat seq_len) (Z.of_nat nl) in
  noise_embedding ←
    create_noise_embed (embed_tokens model) input_ids anchor_positions keep (mask_token_id model) bs;
  let mask_full_position_ids := latent_full_position_ids ++ create_position_ids anchor_positions bs in
  let mask :=
    create_myspec_mask_attention_mask anchor_positions keep (Z.of_nat seq_len) (Z.of_nat bs) (Z.of_nat nl) in
  let '(output_hidden, _) :=
    forward_backbone latent_noise_embedding latent_full_position_ids (Some latent_mask)
      mask_full_position_ids (Some mask) noise_embedding target_hidden_states None in
  let num_blocks := length anchor_positions in
  output_hidden_4d ← reshape_blocks num_blocks bs output_hidden;
  let labels := label_indices anchor_positions bs in
  let safe := safe_label_indices seq_len keep labels in
  targets ← gather_rows input_ids safe;
  aligned ←
    match target_last_hidden_states with
    | None => Ok None
    | Some last =>
        hidden ← gather_blocks last ((λ r : list nat, pred <$> r) <$> safe);
        Ok (Some (compute_logits <$> (hidden : list rows)))
    end;
  em ← build_eval_mask seq_len loss_mask labels safe keep;
  anchor_token_ids ← mapM (py_index input_ids) anchor_positions;
  let prev_token_ids := shift_targets anchor_token_ids targets in
  draft_logits ← reshape_blocks num_blocks bs (compute_logits output_hidden);
  draft_logits ←
    match markov_head model with
    | None => Ok draft_logits
    | Some head =>
        mapM (λ '(base, (ts, hs)), apply_block_logits head base ts (Some hs))
          (zip draft_logits (zip prev_token_ids output_hidden_4d))
    end;
  confidence ←
    match confidence_head model with
    | None => Ok None
    | Some head =>
        cs ← mapM (λ '(hs, ts),
                     f ← confidence_features hs (Some ts); Ok (head <$> (f : rows)))
               (zip output_hidden_4d prev_token_ids);
        Ok (Some cs)
    end;
  Ok {| draft_logits := draft_logits; target_ids := targets; eval_mask := em;
        block_keep_mask := keep; confidence_pred := confidence;
        aligned_target_logits := aligned |}.
End model.

(** ** Labels of the training forward *)

Lemma gather_rows_lookup {A} (row : list A) idx out b k r i :
  gather_rows row idx = Ok out → idx !! b = Some r → r !! k = Some i →
  ∃ o, out !! b = Some o ∧ o !! k = row !! i.
Proof.
  intros Hg Hb Hk. destruct (mapM_Ok_lookup _ _ _ _ _ Hg Hb) as (o & Ho & Hr).
  destruct (mapM_Ok_lookup _ _ _ _ _ Hr Hk) as (x & Hx & Hix). apply py_index_Ok in Hix.
  exists o. by rewrite Hx, Hix.
Qed.

Lemma safe_row seq_len keep anchors bs b a kp :
  anchors !! b = Some a → keep !! b = Some kp →
  safe_label_indices seq_len keep (label_indices anchors bs) !! b =
    Some (safe_index seq_len kp <$> ((λ o, a + o) <$> seq 1 bs)).
Proof.
  intros Ha Hk. unfold safe_label_indices, label_indices.
  rewrite lookup_zip_with, Hk, list_lookup_fmap, Ha. done.
Qed.

Lemma safe_row_lookup seq_len (kp : bool) a bs k :
  k < bs → (safe_index seq_len kp <$> ((λ o, a + o) <$> seq 1 bs)) !! k =
    Some (safe_index seq_len kp (a + 1 + k)).
Proof. intros. rewrite !list_lookup_fmap, lookup_seq_lt by done. cbn. do 2 f_equal. lia. Qed.

(** A supervised slot lies in a kept block, inside the sequence. *)
Lemma eval_mask_true seq_len loss_mask anchors keep bs em b a row k :
  length loss_mask = seq_len → 0 < seq_len → length keep = length anchors →
  build_eval_mask seq_len loss_mask (label_indices anchors bs)
    (safe_label_indices seq_len keep (label_indices anchors bs)) keep = Ok em →
  anchors !! b = Some a → em !! b = Some row → row !! k = Some true →
  keep !! b = Some true ∧ k < bs ∧ a + 1 + k < seq_len.
Proof.
  intros Hl Hs Hk. rewrite build_eval_mask_rows by done. intros [= <-] Ha Hrow Hv.
  apply lookup_zip_with_Some in Hrow as (kp & a' & -> & Hkp & Ha'). simplify_eq.
  assert (Hlt : k < bs).
  { apply lookup_lt_Some in Hv. unfold bcumprod, cumprod in Hv.
    rewrite length_fmap, cumprod_from_length, !length_fmap, length_seq in Hv. done. }
  assert (Hj : (supervised (length loss_mask) loss_mask kp <$> ((λ o, a + o) <$> seq 1 bs)) !! k =
    Some (supervised (length loss_mask) loss_mask kp (a + 1 + k))).
  { rewrite !list_lookup_fmap, lookup_seq_lt by done. cbn. do 2 f_equal. lia. }
  rewrite (bcumprod_lookup _ _ _ Hj) in Hv. injection Hv as Hv.
  rewrite forallb_forall in Hv. assert (Hsup : supervised (length loss_mask) loss_mask kp (a + 1 + k) = true).
  { apply Hv, list_elem_of_In, elem_of_take. exists k. split; [done|lia]. }
  unfold supervised in Hsup. b2p. subst kp. done.
Qed.

(** The training targets are aligned.  Wherever the evaluation mask of [forward]
    is set, slot [k] of the block anchored at [a] is labelled with token [a + 1 + k]
    of the sequence and, when the target's last hidden states are given, distilled
    from the target's logits at position [a + k], the row that predicts that token. *)
Theorem forward_labels_aligned `{!TorchSort} {KV PE} (model : MySpecModel KV PE)
    (input_ids : list nat) target_hidden loss_mask last_hidden random_vals out anchors keep
    (Hloss : length loss_mask = length input_ids) (Hin : 0 < length input_ids)
    (Hanchors : sample_anchor_positions (length input_ids) loss_mask (num_anchors model) random_vals
                  = Ok (anchors, keep))
    (Hlen : length keep = length anchors)
    (Hrun : forward model input_ids target_hidden loss_mask last_hidden random_vals = Ok out)
    b a k row (Ha : anchors !! b = Some a) (Hrow : eval_mask out !! b = Some row)
    (Hk : row !! k = Some true) :
  (∃ ts, target_ids out !! b = Some ts ∧ ts !! k = input_ids !! (a + 1 + k)) ∧
  (∀ last, last_hidden = Some last → ∃ al ls, aligned_target_logits out = Some al ∧
     al !! b = Some ls ∧ ls !! k = lm_head model <$> last !! (a + k)).
Proof.
  unfold forward in Hrun. rewrite Hanchors in Hrun. cbn [mbind result_bind] in Hrun.
  apply result_bind_Ok in Hrun as (lat & _ & Hrun). apply result_bind_Ok in Hrun as (noise & _ & Hrun).
  destruct (forward_backbone _ _ _ _ _ _ _ _ _) as [hid kv].
  apply result_bind_Ok in Hrun as (h4 & _ & Hrun). apply result_bind_Ok in Hrun as (ts & Hts & Hrun).
  apply result_bind_Ok in Hrun as (al & Hal & Hrun). apply result_bind_Ok in Hrun as (em & Hem & Hrun).
  apply result_bind_Ok in Hrun as (at_ids & _ & Hrun). apply result_bind_Ok in Hrun as (dl & _ & Hrun).
  apply result_bind_Ok in Hrun as (dl' & _ & Hrun). apply result_bind_Ok in Hrun as (cf & _ & Hrun).
  injection Hrun as <-. cbn [eval_mask target_ids aligned_target_logits] in *.
  destruct (eval_mask_true _ _ _ _ _ _ b a row k Hloss Hin Hlen Hem Ha Hrow Hk) as (Hkeep & Hkb & Hlt).
  pose proof (safe_row (length input_ids) keep anchors (block_size model) b a true Ha Hkeep) as Hs.
  pose proof (safe_row_lookup (length input_ids) true a (block_size model) k Hkb) as Hsk.
  assert (Hsi : safe_index (length input_ids) true (a + 1 + k) = a + 1 + k) by (unfold safe_index; lia).
  rewrite Hsi in Hsk. split.
  - destruct (gather_rows_lookup _ _ _ _ _ _ _ Hts Hs Hsk) as (o & Ho & Hok). by exists o.
  - intros last ->. apply result_bind_Ok in Hal as (hs & Hhs & Hal). injection Hal as <-.
    apply (f_equal (fmap (λ r : list nat, pred <$> r))) in Hs. rewrite <- list_lookup_fmap in Hs.
    apply (f_equal (fmap pred)) in Hsk. rewrite <- list_lookup_fmap in Hsk.
    destruct (gather_rows_lookup _ _ _ _ _ _ _ Hhs Hs Hsk) as (o & Ho & Hok).
    eexists _, (compute_logits model o). split; [done|].
    split; [apply list_lookup_fmap_Some; by exists o|].
    unfold compute_logits. rewrite list_lookup_fmap, Hok. do 2 f_equal. lia.
Qed.

(** A one-layer model over a three-token vocabulary, for evaluation on examples. *)
Module TinyModel.
#[export] Instance cache : DynamicCache nat :=
  {| new_cache := 0; get_seq_length n := n; crop_cache := Nat.min |}.
#[export] Instance cache_laws : DynamicCacheLaws nat.
Proof. split; done. Qed.

Definition model : MySpecModel nat unit :=
  {| target_layer_ids := [(-1)%Z; 0%Z]; num_latent_tokens := 1; latent_token_id := 2;
     block_size := 2; mask_token_id := 2; num_anchors := 2;
     embed_tokens t := [inject_Z (Z.of_nat t)];
     fc v := v; hidden_norm v := v; latent_hidden_norm v := v; final_norm v := v;
     lm_head v := match v with [x] => [x; 0; 1]%Q | _ => [0; 0; 0]%Q end;
     rotary_emb _ := tt;
     latent_layers := [λ h tgt _ _ _ past, (h, (λ n, n + length tgt + length h) <$> past)];
     layers := [λ h _ _ _ _ _ past, (h, past)];
     markov_head := Some (VanillaMarkov
       {| head_vocab_size := 3; markov_rank := 1; markov_w1 t := [inject_Z (Z.of_nat t)];
          markov_w2 v := match v with [x] => [0; x; 0]%Q | _ => [0; 0; 0]%Q end;
          sigmoid x := x; tanh x := x |});
     confidence_head := Some (λ v, match v with x :: _ => x | [] => 0%Q end);
     confidence_head_with_markov := true |}.

Import MergeSort.
Definition train : result MySpecForwardOutput :=
  forward model [0; 1; 2; 1; 0] [] [1; 1; 1; 1; 0]%Q (Some [[0]; [1]; [2]; [3]; [4]]%Q)
    [1 # 2; 1 # 3; 1 # 4; 1 # 5]%Q.
End TinyModel.

Import MergeSort.

Lemma forward_labels_aligned_witness :
  ∃ out, TinyModel.train = Ok out ∧ eval_mask out !! 0 = Some [true; true] ∧
    (∃ ts, target_ids out !! 0 = Some ts ∧ ts !! 1 = [0; 1; 2; 1; 0] !! (1 + 1 + 1)) ∧
    (∀ last, Some [[0]; [1]; [2]; [3]; [4]]%Q = Some last → ∃ al ls,
       aligned_target_logits out = Some al ∧ al !! 0 = Some ls ∧
       ls !! 1 = lm_head TinyModel.model <$> last !! (1 + 1)).
Proof.
  eexists. split; [vm_compute; reflexivity|]. split; [reflexivity|].
  eapply (forward_labels_aligned TinyModel.model [0; 1; 2; 1; 0] [] [1; 1; 1; 1; 0]%Q
    (Some [[0]; [1]; [2]; [3]; [4]]%Q) [1 # 2; 1 # 3; 1 # 4; 1 # 5]%Q _ [1; 2] [true; true]).
  - reflexivity.
  - cbn. lia.
  - vm_compute. reflexivity.
  - reflexivity.
  - vm_compute. reflexivity.
  - reflexivity.
  - reflexivity.
  - reflexivity.
Defined.
