(* ===== verification/Confidence.v ===== *)
(** * Confidence: reliability metrics of the confidence head

    Models [PerPositionConfidenceMetrics] and [summarize_confidence_row] of
    [DeepSpec/deepspec/eval/myspec/confidence_head.py].  The two-dimensional
    histograms are kept flat ([view(-1)]: bin [b] of position [p] is entry
    [p * num_bins + b]); double precision is exact rational arithmetic and [nan] is
    [None].  Plots, tables and tensorboard output are not modelled. *)

From Stdlib Require Import Qabs Qround.
From S2P Require Import Prelude Sampling.
#[local] Open Scope nat_scope.

Definition EPS_PROB : Q := (1 # 100000000)%Q.
Definition Qclamp (lo hi x : Q) : Q := Qmin (Qmax x lo) hi.

(** [.long()]: truncation toward zero. *)
Definition Qtrunc (x : Q) : Z := if Qle_bool 0 x then Qfloor x else (- Qfloor (- x))%Z.

Record ConfidenceMetrics := {
  cm_block_size : nat;
  num_coarse_bins : nat;
  num_fine_bins : nat;
  coarse_count : list Q;
  coarse_pred : list Q;
  coarse_target : list Q;
  fine_pos : list Q;
  fine_neg : list Q;
  brier_num : list Q
}.

Definition new_metrics (block_size num_coarse num_fine : nat) : ConfidenceMetrics :=
  let coarse := replicate (block_size * num_coarse) 0%Q in
  let fine := replicate (block_size * num_fine) 0%Q in
  {| cm_block_size := block_size; num_coarse_bins := num_coarse; num_fine_bins := num_fine;
     coarse_count := coarse; coarse_pred := coarse; coarse_target := coarse;
     fine_pos := fine; fine_neg := fine; brier_num := replicate block_size 0%Q |}.

(** [t.scatter_add_(0, idx, src)]. *)
Fixpoint scatter_add (t : list Q) (idx : list nat) (src : list Q) : result (list Q) :=
  match idx, src with
  | i :: idx, s :: src =>
      match t !! i with
      | Some x => scatter_add (<[i:=(x + s)%Q]> t) idx src
      | None => Raise RuntimeError
      end
  | [], [] => Ok t
  | _, _ => Raise RuntimeError
  end.

(** [(probs * bins).long().clamp_(0, bins - 1)] of one probability. *)
Definition bin_index (bins : nat) (p : Q) : nat :=
  Z.to_nat (Z.min (Z.max (Qtrunc (p * inject_Z (Z.of_nat bins))) 0) (Z.of_nat bins - 1)).

Definition flat_index (bins : nat) (probs : list Q) : list nat :=
  imap (λ pos p, pos * bins + bin_index bins p) probs.

Definition update_metrics (m : ConfidenceMetrics) (probs targets : list Q) : result ConfidenceMetrics :=
  let probs := Qclamp EPS_PROB (1 - EPS_PROB) <$> probs in
  _ ← py_assert (length probs =? length targets);
  _ ← py_assert (length probs <=? cm_block_size m);
  let flat_coarse := flat_index (num_coarse_bins m) probs in
  let flat_fine := flat_index (num_fine_bins m) probs in
  count ← scatter_add (coarse_count m) flat_coarse (replicate (length probs) 1%Q);
  pred ← scatter_add (coarse_pred m) flat_coarse probs;
  target ← scatter_add (coarse_target m) flat_coarse targets;
  pos ← scatter_add (fine_pos m) flat_fine targets;
  neg ← scatter_add (fine_neg m) flat_fine ((λ t, 1 - t)%Q <$> targets);
  let err := zip_with (λ p t, ((p - t) * (p - t))%Q) probs targets in
  brier ← scatter_add (brier_num m) (seq 0 (length probs)) err;
  Ok {| cm_block_size := cm_block_size m; num_coarse_bins := num_coarse_bins m;
        num_fine_bins := num_fine_bins m; coarse_count := count; coarse_pred := pred;
        coarse_target := target; fine_pos := pos; fine_neg := neg; brier_num := brier |}.

(** [cumsum(hist) - hist]: the mass strictly before each bin. *)
Fixpoint cum_before (acc : Q) (hist : list Q) : list Q :=
  match hist with
  | [] => []
  | x :: hist => ((acc + x) - x)%Q :: cum_before (acc + x) hist
  end.

Definition auroc_from_hist (pos_hist neg_hist : list Q) : option Q :=
  let total_pos := Qsum pos_hist in
  let total_neg := Qsum neg_hist in
  if Qle_bool total_pos 0 || Qle_bool total_neg 0 then None else
  let pair :=
    (Qsum (zip_with Qmult pos_hist (cum_before 0 neg_hist)) +
     (1 # 2) * Qsum (zip_with Qmult pos_hist neg_hist))%Q in
  Some (pair / (total_pos * total_neg))%Q.

Record ReliabilityBin := {
  rb_bin : nat;
  rb_lo : Q;
  rb_hi : Q;
  rb_avg_pred : Q;
  rb_avg_target : Q;
  rb_weight : Q
}.

Record PositionEntry := {
  pe_position : nat;
  total_weight : Q;
  ece : option Q;
  auc : option Q;
  brier : option Q;
  pred_mean : option Q;
  target_mean : option Q;
  reliability : list ReliabilityBin
}.

Definition hist_row (bins pos : nat) (flat : list Q) : list Q := flat.[pos * bins, pos * bins + bins].

Definition compute_position (m : ConfidenceMetrics) (pos : nat) : PositionEntry :=
  let nb := num_coarse_bins m in
  let weights := hist_row nb pos (coarse_count m) in
  let total := Qsum weights in
  if Qle_bool total (1 # 1000000000000) then
    {| pe_position := pos; total_weight := 0; ece := None; auc := None; brier := None;
       pred_mean := None; target_mean := None; reliability := [] |}
  else
    let denom := (λ w, Qmax w (1 # 1000000000000)) <$> weights in
    let pred := hist_row nb pos (coarse_pred m) in
    let target := hist_row nb pos (coarse_target m) in
    let avg_pred := zip_with Qdiv pred denom in
    let avg_target := zip_with Qdiv target denom in
    let bin_err := zip_with (λ a b, Qabs (a - b)) avg_pred avg_target in
    {| pe_position := pos;
       total_weight := total;
       ece := Some (Qsum (zip_with Qmult bin_err weights) / total)%Q;
       auc := auroc_from_hist (hist_row (num_fine_bins m) pos (fine_pos m))
                (hist_row (num_fine_bins m) pos (fine_neg m));
       brier := Some (default 0 (brier_num m !! pos) / total)%Q;
       pred_mean := Some (Qsum pred / total)%Q;
       target_mean := Some (Qsum target / total)%Q;
       reliability :=
         omap (λ '(b, (w, (p, t))),
                 if Qle_bool w 0 then None else
                 Some {| rb_bin := b;
                         rb_lo := (inject_Z (Z.of_nat b) / inject_Z (Z.of_nat nb))%Q;
                         rb_hi := (inject_Z (Z.of_nat (b + 1)) / inject_Z (Z.of_nat nb))%Q;
                         rb_avg_pred := p; rb_avg_target := t; rb_weight := w |})
           (zip (seq 0 nb) (zip weights (zip avg_pred avg_target))) |}.

Definition compute_metrics (m : ConfidenceMetrics) : list PositionEntry :=
  compute_position m <$> seq 0 (cm_block_size m).

Record ConfidenceSummary := {
  ece_mean : option Q;
  auc_mean : option Q;
  brier_mean : option Q;
  pred_mean_mean : option Q;
  target_mean_mean : option Q
}.

(** The running sums of [summarize_confidence_row]; only [auc] may be [nan] when the
    weight is positive. *)
Record summary_acc := {
  total_w : Q; weighted_ece : Q; weighted_brier : Q; weighted_pred : Q; weighted_target : Q;
  auc_w : Q; weighted_auc : Q
}.

Definition summary_step (a : summary_acc) (e : PositionEntry) : summary_acc :=
  let weight := total_weight e in
  if Qle_bool weight 0 then a else
  {| total_w := (total_w a + weight)%Q;
     weighted_ece := (weighted_ece a + default 0 (ece e) * weight)%Q;
     weighted_brier := (weighted_brier a + default 0 (brier e) * weight)%Q;
     weighted_pred := (weighted_pred a + default 0 (pred_mean e) * weight)%Q;
     weighted_target := (weighted_target a + default 0 (target_mean e) * weight)%Q;
     auc_w := match auc e with Some _ => (auc_w a + weight)%Q | None => auc_w a end;
     weighted_auc :=
       match auc e with Some x => (weighted_auc a + x * weight)%Q | None => weighted_auc a end |}.

Definition summarize_confidence_row (per_position : list PositionEntry) : ConfidenceSummary :=
  let a := foldl summary_step
    {| total_w := 0; weighted_ece := 0; weighted_brier := 0; weighted_pred := 0;
       weighted_target := 0; auc_w := 0; weighted_auc := 0 |} per_position in
  if Qle_bool (total_w a) 0 then
    {| ece_mean := None; auc_mean := None; brier_mean := None; pred_mean_mean := None;
       target_mean_mean := None |}
  else
    {| ece_mean := Some (weighted_ece a / total_w a)%Q;
       auc_mean := if Qle_bool (auc_w a) 0 then None else Some (weighted_auc a / auc_w a)%Q;
       brier_mean := Some (weighted_brier a / total_w a)%Q;
       pred_mean_mean := Some (weighted_pred a / total_w a)%Q;
       target_mean_mean := Some (weighted_target a / total_w a)%Q |}.

(** ** Rational sums *)

Definition Qn (n : nat) : Q := inject_Z (Z.of_nat n).

Lemma Qn_add a b : (Qn (a + b) == Qn a + Qn b)%Q.
Proof. unfold Qn. by rewrite Nat2Z.inj_add, inject_Z_plus. Qed.

Lemma Qn_nonneg n : (0 <= Qn n)%Q.
Proof. unfold Qn. change 0%Q with (inject_Z 0). rewrite <- Zle_Qle. lia. Qed.

Lemma Qn_pos n : 0 < n → (0 < Qn n)%Q.
Proof. intros. unfold Qn. change 0%Q with (inject_Z 0). rewrite <- Zlt_Qlt. lia. Qed.

Lemma zip_with_fmap_diag {A} (f g : A → Q) (h : Q → Q → Q) l :
  zip_with h (f <$> l) (g <$> l) = (λ x, h (f x) (g x)) <$> l.
Proof. induction l as [|x l IH]; cbn; [done|]. by f_equal. Qed.

Lemma zip_mult_proper (l k k' : list Q) :
  Forall2 Qeq k k' → Forall2 Qeq (zip_with Qmult l k) (zip_with Qmult l k').
Proof.
  intros Hk. revert l. induction Hk as [|x y k k' Hxy _ IH]; intros [|z l]; cbn; constructor; [|apply IH].
  by rewrite Hxy.
Qed.

(** ** Histograms of bins *)

Definition count_bin (b : nat) (l : list nat) : nat := length (filter (λ x, x = b) l).
Definition count_below (b : nat) (l : list nat) : nat := length (filter (λ x, x < b) l).
Definition histogram (bins : nat) (l : list nat) : list Q := (λ b, Qn (count_bin b l)) <$> seq 0 bins.

Lemma count_bin_cons b x l : count_bin b (x :: l) = (if b =? x then 1 else 0) + count_bin b l.
Proof. unfold count_bin. rewrite filter_cons. destruct (Nat.eqb_spec b x); case_decide; cbn; lia. Qed.

Lemma count_below_S b l : count_below (S b) l = count_below b l + count_bin b l.
Proof.
  unfold count_below, count_bin. induction l as [|x l IH]; [done|]. rewrite !filter_cons.
  repeat case_decide; cbn; lia.
Qed.

(** Indicator sums over [seq]. *)
Lemma Qsum_indicator bins x (g : nat → Q) :
  x < bins → (Qsum ((λ b, (if b =? x then 1 else 0) * g b) <$> seq 0 bins) == g x)%Q.
Proof.
  intros Hx. replace bins with (x + (1 + (bins - S x))) by lia.
  rewrite !seq_app, !fmap_app, !Qsum_app. cbn [seq fmap list_fmap]. rewrite !Qsum_cons, !Qsum_nil.
  rewrite Nat.add_0_l, Nat.eqb_refl.
  rewrite !Qsum_fmap_zero; [ring|..]; apply Forall_lookup; intros i b [-> Hi]%lookup_seq.
  - destruct (Nat.eqb_spec (x + 1 + i) x); [lia|ring].
  - destruct (Nat.eqb_spec (0 + i) x); [lia|ring].
Qed.

(** Summing over the samples is summing over the bins. *)
Lemma histogram_weighted bins l (g : nat → Q) :
  Forall (λ x, x < bins) l →
  (Qsum ((λ b, Qn (count_bin b l) * g b) <$> seq 0 bins) == Qsum (g <$> l))%Q.
Proof.
  induction 1 as [|x l Hx _ IH].
  - apply Qsum_fmap_zero, Forall_true. intros b. cbn. unfold Qn. cbn. ring.
  - rewrite fmap_cons, Qsum_cons, <- IH, <- (Qsum_indicator bins x g Hx), <- Qsum_fmap_add.
    apply Qsum_fmap_ext, Forall_true. intros b. rewrite count_bin_cons, Qn_add.
    destruct (b =? x); unfold Qn; cbn; ring.
Qed.

Lemma histogram_total bins l : Forall (λ x, x < bins) l → (Qsum (histogram bins l) == Qn (length l))%Q.
Proof.
  intros Hl. transitivity (Qsum ((λ _, 1%Q) <$> l)).
  - rewrite <- (histogram_weighted bins l (λ _, 1%Q) Hl). apply Qsum_fmap_ext, Forall_true. intros. ring.
  - clear Hl. induction l as [|x l IH]; [done|]. rewrite fmap_cons, Qsum_cons, IH. cbn [length].
    rewrite <- Nat.add_1_l, Qn_add. done.
Qed.

Lemma cum_before_counts acc l s k :
  (acc == Qn (count_below s l))%Q →
  Forall2 Qeq (cum_before acc ((λ b, Qn (count_bin b l)) <$> seq s k)) ((λ b, Qn (count_below b l)) <$> seq s k).
Proof.
  revert acc s. induction k as [|k IH]; intros acc s Ha; cbn; constructor.
  - rewrite Ha. ring.
  - apply IH. by rewrite Ha, count_below_S, Qn_add.
Qed.

(** ** The Mann-Whitney statistic *)

(** Mann-Whitney score of a positive in bin [p] against a negative in bin [n]. *)
Definition pair_score (p n : nat) : Q := if n <? p then 1%Q else if n =? p then (1 # 2)%Q else 0%Q.
Definition pairwise_score (ps ns : list nat) : Q :=
  Qsum ((λ p, Qsum (pair_score p <$> ns)) <$> ps).

Lemma pair_score_sum p ns :
  (Qsum (pair_score p <$> ns) == Qn (count_below p ns) + (1 # 2) * Qn (count_bin p ns))%Q.
Proof.
  induction ns as [|n ns IH]; [rewrite fmap_nil, Qsum_nil; unfold Qn; cbn; ring|].
  rewrite fmap_cons, Qsum_cons, IH, count_bin_cons.
  assert (Hb : count_below p (n :: ns) = (if n <? p then 1 else 0) + count_below p ns).
  { unfold count_below. rewrite filter_cons. destruct (Nat.ltb_spec n p); case_decide; cbn; lia. }
  rewrite Hb, !Qn_add. unfold pair_score. rewrite (Nat.eqb_sym p n).
  destruct (Nat.ltb_spec n p), (Nat.eqb_spec n p); try lia; unfold Qn; cbn; ring.
Qed.

(** C26: the histogram AUROC is the Mann-Whitney statistic: computed on the bin
    histograms of positive and negative samples it is the probability that a positive
    lands in a higher bin than a negative, ties counting one half. *)
Theorem auroc_is_mann_whitney (bins : nat) (ps ns : list nat)
    (Hps : Forall (λ p, p < bins) ps) (Hns : Forall (λ n, n < bins) ns)
    (Hp : ps ≠ []) (Hn : ns ≠ []) :
  ∃ a, auroc_from_hist (histogram bins ps) (histogram bins ns) = Some a ∧
    (a == pairwise_score ps ns / (Qn (length ps) * Qn (length ns)))%Q.
Proof.
  unfold auroc_from_hist.
  assert (Hlp : (0 < Qn (length ps))%Q) by (apply Qn_pos; destruct ps; [done|cbn; lia]).
  assert (Hln : (0 < Qn (length ns))%Q) by (apply Qn_pos; destruct ns; [done|cbn; lia]).
  pose proof (histogram_total bins ps Hps) as Hsp. pose proof (histogram_total bins ns Hns) as Hsn.
  destruct (Qle_bool (Qsum (histogram bins ps)) 0) eqn:E1; [apply Qle_bool_iff in E1; lra|].
  destruct (Qle_bool (Qsum (histogram bins ns)) 0) eqn:E2; [apply Qle_bool_iff in E2; lra|].
  cbn [orb]. eexists. split; [done|]. rewrite Hsp, Hsn.
  assert (Hpair : (Qsum (zip_with Qmult (histogram bins ps) (cum_before 0 (histogram bins ns))) +
    (1 # 2) * Qsum (zip_with Qmult (histogram bins ps) (histogram bins ns)) == pairwise_score ps ns)%Q);
    [|by rewrite Hpair].
  unfold histogram. assert (Hc : Forall2 Qeq
    (zip_with Qmult ((λ b, Qn (count_bin b ps)) <$> seq 0 bins)
       (cum_before 0 ((λ b, Qn (count_bin b ns)) <$> seq 0 bins)))
    (zip_with Qmult ((λ b, Qn (count_bin b ps)) <$> seq 0 bins)
       ((λ b, Qn (count_below b ns)) <$> seq 0 bins))).
  { assert (H0 : (0 == Qn (count_below 0 ns))%Q).
    { unfold count_below. replace (filter (λ x, x < 0) ns) with (@nil nat); [done|].
      induction ns as [|n ns IH] in |- *; [done|]. rewrite filter_cons, decide_False by lia. done. }
    pose proof (cum_before_counts 0 ns 0 bins H0) as Hcb.
    by apply zip_mult_proper. }
  rewrite Hc, !zip_with_fmap_diag, <- Qsum_fmap_scale, <- Qsum_fmap_add. unfold pairwise_score.
  rewrite <- (histogram_weighted bins ps _ Hps). apply Qsum_fmap_ext, Forall_true. intros b.
  rewrite pair_score_sum. ring.
Qed.

Lemma auroc_is_mann_whitney_witness :
  ∃ a, auroc_from_hist (histogram 4 [3; 1; 2]) (histogram 4 [0; 1]) = Some a ∧
    (a == pairwise_score [3; 1; 2]%nat [0; 1]%nat / (Qn 3 * Qn 2))%Q.
Proof.
  apply (auroc_is_mann_whitney 4 [3; 1; 2] [0; 1]); try discriminate;
    rewrite !Forall_cons; split_and!; try lia; constructor.
Defined.

(** ** Invariant of the accumulated histograms *)

Definition unit_interval (x : Q) : Prop := (0 <= x <= 1)%Q.
Definition below (x y : Q) : Prop := (0 <= x <= y)%Q.

Record metrics_ok (bs nc nf : nat) (m : ConfidenceMetrics) : Prop := {
  mo_bs : cm_block_size m = bs;
  mo_nc : num_coarse_bins m = nc;
  mo_nf : num_fine_bins m = nf;
  mo_coarse : length (coarse_count m) = bs * nc;
  mo_pred : Forall2 below (coarse_pred m) (coarse_count m);
  mo_target : Forall2 below (coarse_target m) (coarse_count m);
  mo_fine : length (fine_pos m) = bs * nf ∧ length (fine_neg m) = bs * nf;
  mo_pos : Forall (Qle 0) (fine_pos m);
  mo_neg : Forall (Qle 0) (fine_neg m);
  mo_brier : length (brier_num m) = bs
}.

Lemma scatter_add_ok t idx src :
  length idx = length src → Forall (λ i, i < length t) idx →
  ∃ t', scatter_add t idx src = Ok t' ∧ length t' = length t.
Proof.
  revert t src. induction idx as [|i idx IH]; intros t [|s src] Hl Hi; try done; cbn.
  { by exists t. }
  apply Forall_cons in Hi as [Hi Hidx]. destruct (lookup_lt_is_Some_2 t i Hi) as [x ->].
  destruct (IH (<[i:=(x + s)%Q]> t) src) as (t' & Ht' & Hlt); [by injection Hl| |].
  - by rewrite length_insert.
  - exists t'. by rewrite Hlt, length_insert.
Qed.

Lemma scatter_add_Forall2 (R : Q → Q → Prop) t u idx src src' t' u' :
  (∀ x y s s', R x y → R s s' → R (x + s)%Q (y + s')%Q) →
  Forall2 R t u → Forall2 R src src' →
  scatter_add t idx src = Ok t' → scatter_add u idx src' = Ok u' → Forall2 R t' u'.
Proof.
  intros HR Htu Hs. revert t u idx Htu. induction Hs as [|s s' src src' Hss Hs IH];
    intros t u [|i idx] Htu Ht Hu; cbn in *; try done; [by injection Ht as <-; injection Hu as <-|].
  destruct (t !! i) as [x|] eqn:Ex; [|done]. destruct (u !! i) as [y|] eqn:Ey; [|done].
  apply (IH (<[i:=(x + s)%Q]> t) (<[i:=(y + s')%Q]> u) idx); [|done..].
  apply Forall2_insert; [done|]. apply HR; [|done]. by eapply Forall2_lookup_lr.
Qed.

Lemma scatter_add_nonneg t idx src t' :
  Forall (Qle 0) t → Forall (Qle 0) src → scatter_add t idx src = Ok t' → Forall (Qle 0) t'.
Proof.
  intros Ht Hs. revert t idx Ht. induction Hs as [|s src Hs _ IH]; intros t [|i idx] Ht He; cbn in *;
    try done; [by injection He as <-|].
  destruct (t !! i) as [x|] eqn:Ex; [|done]. eapply IH; [|exact He].
  apply Forall_insert; [done|]. rewrite Forall_lookup in Ht. specialize (Ht _ _ Ex). cbn. lra.
Qed.

Lemma bin_index_lt bins p : 0 < bins → bin_index bins p < bins.
Proof. intros. unfold bin_index. lia. Qed.

Lemma flat_index_lt bs bins probs :
  0 < bins → length probs ≤ bs → Forall (λ i, i < bs * bins) (flat_index bins probs).
Proof.
  intros Hb Hl. apply Forall_lookup. intros k i Hk. unfold flat_index in Hk.
  rewrite list_lookup_imap in Hk. destruct (probs !! k) as [p|] eqn:E; [|done].
  injection Hk as <-. apply lookup_lt_Some in E. pose proof (bin_index_lt bins p Hb). nia.
Qed.

Lemma length_flat_index bins probs : length (flat_index bins probs) = length probs.
Proof. apply length_imap. Qed.

Lemma clamp_unit (x : Q) : unit_interval (Qclamp EPS_PROB (1 - EPS_PROB) x).
Proof. unfold unit_interval, Qclamp, EPS_PROB. qminmax. lra. Qed.

Lemma new_metrics_ok bs nc nf : metrics_ok bs nc nf (new_metrics bs nc nf).
Proof.
  assert (H0 : ∀ n, Forall2 below (replicate n 0%Q) (replicate n 0%Q)).
  { intros n. apply Forall2_same_length_lookup_2; [done|].
    intros i x y [-> _]%lookup_replicate [-> _]%lookup_replicate. unfold below. lra. }
  assert (Hn : ∀ n, Forall (Qle 0) (replicate n 0%Q)) by (intros n; apply Forall_replicate; lra).
  split; cbn [cm_block_size num_coarse_bins num_fine_bins coarse_count coarse_pred coarse_target
              fine_pos fine_neg brier_num new_metrics]; try done; try (by len).
Qed.

Lemma replicate_unit (l : list Q) (P : Q → Prop) (R : Q → Q → Prop) :
  (∀ x, P x → R x 1%Q) → Forall P l → Forall2 R l (replicate (length l) 1%Q).
Proof. intros HR. induction 1; cbn; constructor; auto. Qed.

(** [update] succeeds on a batch that fits and preserves the invariant. *)
Lemma update_metrics_ok bs nc nf m probs targets :
  0 < nc → 0 < nf → metrics_ok bs nc nf m →
  length probs = length targets → length probs ≤ bs → Forall unit_interval targets →
  ∃ m', update_metrics m probs targets = Ok m' ∧ metrics_ok bs nc nf m'.
Proof.
  intros Hnc Hnf [Hbs Hc Hf Hlc Hpred Htarget [Hlp Hln] Hpos Hneg Hbr] Hl Hle Ht.
  unfold update_metrics. rewrite Hbs, Hc, Hf.
  set (ps := Qclamp _ _ <$> probs). assert (Hps : length ps = length probs) by (unfold ps; len).
  assert (Hpu : Forall unit_interval ps) by (apply Forall_fmap, Forall_true; intros; apply clamp_unit).
  unfold py_assert. rewrite !py_check_true by (apply Nat.leb_le || apply Nat.eqb_eq; lia).
  cbn [mbind result_bind].
  pose proof (flat_index_lt bs nc ps Hnc ltac:(lia)) as Hfc.
  pose proof (flat_index_lt bs nf ps Hnf ltac:(lia)) as Hff.
  pose proof (length_flat_index nc ps) as Hl1. pose proof (length_flat_index nf ps) as Hl2.
  pose proof (Forall2_length _ _ _ Hpred) as Hlpr. pose proof (Forall2_length _ _ _ Htarget) as Hlta.
  destruct (scatter_add_ok (coarse_count m) (flat_index nc ps) (replicate (length ps) 1%Q))
    as (cc & Ecc & Hcc); [len|by rewrite Hlc|].
  destruct (scatter_add_ok (coarse_pred m) (flat_index nc ps) ps) as (cp & Ecp & Hcp); [len|by rewrite Hlpr, Hlc|].
  destruct (scatter_add_ok (coarse_target m) (flat_index nc ps) targets) as (ct & Ect & Hct);
    [len|by rewrite Hlta, Hlc|].
  destruct (scatter_add_ok (fine_pos m) (flat_index nf ps) targets) as (fp & Efp & Hfp); [len|by rewrite Hlp|].
  destruct (scatter_add_ok (fine_neg m) (flat_index nf ps) ((λ t, 1 - t)%Q <$> targets)) as (fn & Efn & Hfn);
    [len|by rewrite Hln|].
  set (err := zip_with _ ps targets).
  destruct (scatter_add_ok (brier_num m) (seq 0 (length ps)) err) as (bn & Ebn & Hbn).
  { unfold err. rewrite length_seq, length_zip_with. lia. }
  { apply Forall_lookup. intros i x [-> Hi]%lookup_seq. lia. }
  rewrite Ecc. cbn [mbind result_bind]. rewrite Ecp. cbn [mbind result_bind]. rewrite Ect.
  cbn [mbind result_bind]. rewrite Efp. cbn [mbind result_bind]. rewrite Efn. cbn [mbind result_bind].
  rewrite Ebn. cbn [mbind result_bind]. eexists. split; [done|].
  assert (Hadd : ∀ x y s s', below x y → below s s' → below (x + s)%Q (y + s')%Q) by (unfold below; intros; lra).
  split; cbn [cm_block_size num_coarse_bins num_fine_bins coarse_count coarse_pred coarse_target
              fine_pos fine_neg brier_num]; try done; try congruence.
  - eapply (scatter_add_Forall2 below); [exact Hadd|exact Hpred| |exact Ecp|exact Ecc].
    eapply replicate_unit; [|exact Hpu]. done.
  - eapply (scatter_add_Forall2 below); [exact Hadd|exact Htarget| |exact Ect|exact Ecc].
    rewrite Hps, Hl. eapply replicate_unit; [|exact Ht]. done.
  - split; congruence.
  - eapply scatter_add_nonneg; [exact Hpos| |exact Efp]. eapply Forall_impl; [exact Ht|]. by intros x [].
  - eapply scatter_add_nonneg; [exact Hneg| |exact Efn]. apply Forall_fmap.
    eapply Forall_impl; [exact Ht|]. intros x [? ?]. cbn. lra.
Qed.

(** ** Bounds of the reported numbers *)

Lemma Qsum_below l k : Forall2 below l k → (0 <= Qsum l <= Qsum k)%Q.
Proof. induction 1 as [|x y l k [? ?] _ [? ?]]; [rewrite !Qsum_nil; lra|]. rewrite !Qsum_cons. lra. Qed.

Lemma below_slice l k a b : Forall2 below l k → Forall2 below (l.[a, b]) (k.[a, b]).
Proof. intros. unfold py_slice. by apply Forall2_take, Forall2_drop. Qed.

Lemma nonneg_slice l a b : Forall (Qle 0) l → Forall (Qle 0) (l.[a, b]).
Proof. intros. unfold py_slice. by apply Forall_take, Forall_drop. Qed.

Lemma ratio_unit (x y d : Q) : below x y → (y <= d)%Q → (0 < d)%Q → (0 <= x / d <= 1)%Q.
Proof.
  intros [? ?] ? ?. split; [apply Qle_shift_div_l; lra|apply Qle_shift_div_r; lra].
Qed.

Lemma Qabs_diff_unit (a b : Q) : (0 <= a <= 1)%Q → (0 <= b <= 1)%Q → (0 <= Qabs (a - b) <= 1)%Q.
Proof. intros. split; [apply Qabs_nonneg|]. apply Qabs_Qle_condition. lra. Qed.

Definition bin_errors (pred target weights : list Q) : list Q :=
  let denom := (λ w, Qmax w (1 # 1000000000000)) <$> weights in
  zip_with (λ a b, Qabs (a - b)) (zip_with Qdiv pred denom) (zip_with Qdiv target denom).

Lemma ece_bounds pred target weights :
  Forall2 below pred weights → Forall2 below target weights →
  (0 <= Qsum (zip_with Qmult (bin_errors pred target weights) weights) <= Qsum weights)%Q.
Proof.
  intros Hp. revert target. induction Hp as [|p w pred weights Hpw _ IH];
    intros target Ht; inversion Ht as [|t w' target' weights' Htw Ht']; subst.
  { unfold Qsum. cbn. lra. }
  set (d := Qmax w (1 # 1000000000000)).
  change (bin_errors (p :: pred) (t :: target') (w :: weights)) with
    (Qabs (p / d - t / d)%Q :: bin_errors pred target' weights).
  cbn [zip_with]. rewrite !Qsum_cons. destruct (IH target' Ht') as [IH0 IH1].
  assert (Hm : (w <= d)%Q) by (unfold d; qminmax; lra).
  assert (H0 : (0 < d)%Q) by (unfold d; qminmax; lra).
  pose proof (Qabs_diff_unit _ _ (ratio_unit p w _ Hpw Hm H0) (ratio_unit t w _ Htw Hm H0)) as [Ha Ha'].
  set (e := Qabs _) in *. destruct Hpw as [? ?].
  assert (0 <= e * w)%Q by (apply Qmult_le_0_compat; lra).
  assert (e * w <= 1 * w)%Q by (apply Qmult_le_compat_r; lra). split; lra.
Qed.

Lemma cum_before_bound hist acc :
  Forall (Qle 0) hist → (0 <= acc)%Q →
  Forall2 (λ c x, (0 <= c)%Q ∧ (c + (1 # 2) * x <= acc + Qsum hist)%Q) (cum_before acc hist) hist.
Proof.
  intros Hh. revert acc. induction Hh as [|x hist Hx Hh IH]; intros acc Hacc; cbn; constructor.
  - rewrite Qsum_cons. pose proof (Qsum_nonneg hist Hh). split; lra.
  - eapply Forall2_impl; [apply IH; lra|]. cbn. intros c y [? Hc]. rewrite Qsum_cons. split; lra.
Qed.

Lemma pair_bound pos hist cum (tot : Q) :
  Forall (Qle 0) pos → Forall (Qle 0) hist →
  Forall2 (λ c x, (0 <= c)%Q ∧ (c + (1 # 2) * x <= tot)%Q) cum hist → (0 <= tot)%Q →
  (0 <= Qsum (zip_with Qmult pos cum) + (1 # 2) * Qsum (zip_with Qmult pos hist) <= Qsum pos * tot)%Q.
Proof.
  intros Hp Hh Hc Ht. revert hist cum Hh Hc. induction Hp as [|p pos Hp Hps IH]; intros hist cum Hh Hc.
  { unfold Qsum. cbn. split; lra. }
  rewrite Qsum_cons. pose proof (Qsum_nonneg pos Hps) as Hs.
  assert (0 <= Qsum pos * tot)%Q by (by apply Qmult_le_0_compat).
  assert (0 <= p * tot)%Q by (by apply Qmult_le_0_compat).
  destruct Hc as [|c x cum hist [Hc0 Hcx] Hc]; cbn; [rewrite !Qsum_nil; split; lra|].
  rewrite !Qsum_cons. apply Forall_cons in Hh as [Hx Hh]. specialize (IH hist cum Hh Hc).
  assert (p * (c + (1 # 2) * x) <= p * tot)%Q.
  { rewrite !(Qmult_comm p). by apply Qmult_le_compat_r. }
  assert (0 <= p * c)%Q by (by apply Qmult_le_0_compat).
  assert (0 <= p * x)%Q by (by apply Qmult_le_0_compat).
  split; [|rewrite Qmult_plus_distr_l]; lra.
Qed.

Lemma auroc_bounds pos neg a :
  Forall (Qle 0) pos → Forall (Qle 0) neg → auroc_from_hist pos neg = Some a → unit_interval a.
Proof.
  intros Hp Hn. unfold auroc_from_hist.
  destruct (Qle_bool (Qsum pos) 0) eqn:E1; [done|]. destruct (Qle_bool (Qsum neg) 0) eqn:E2; [done|].
  intros [= <-]. apply not_true_iff_false in E1. apply not_true_iff_false in E2.
  rewrite Qle_bool_iff in E1, E2. assert (0 < Qsum pos)%Q by (by apply Qnot_le_lt).
  assert (0 < Qsum neg)%Q by (by apply Qnot_le_lt).
  assert (Hd : (0 < Qsum pos * Qsum neg)%Q) by (by apply Qmult_lt_0_compat).
  pose proof (cum_before_bound neg 0 Hn ltac:(lra)) as Hc.
  destruct (pair_bound pos neg (cum_before 0 neg) (0 + Qsum neg)%Q Hp Hn Hc ltac:(lra)) as [Hl Hu].
  split; [by apply Qle_shift_div_l; [done|]; rewrite Qmult_0_l|].
  apply Qle_shift_div_r; [done|]. rewrite Qmult_1_l. eapply Qle_trans; [exact Hu|]. apply Qle_lteq. right. ring.
Qed.

Definition opt_unit (o : option Q) : Prop := ∀ x, o = Some x → unit_interval x.

Record entry_ok (e : PositionEntry) : Prop := {
  eo_weight : (0 <= total_weight e)%Q;
  eo_ece : opt_unit (ece e);
  eo_auc : opt_unit (auc e);
  eo_pred : opt_unit (pred_mean e);
  eo_target : opt_unit (target_mean e)
}.

Lemma compute_position_ok bs nc nf m pos : metrics_ok bs nc nf m → entry_ok (compute_position m pos).
Proof.
  intros [_ Hnc Hnf _ Hpred Htarget _ Hp Hn _]. unfold compute_position. rewrite Hnc, Hnf. unfold hist_row.
  pose proof (below_slice _ _ (pos * nc) (pos * nc + nc) Hpred) as Hp'.
  pose proof (below_slice _ _ (pos * nc) (pos * nc + nc) Htarget) as Ht'.
  destruct (Qle_bool _ _) eqn:E; [split; cbn; (done || lra)|].
  apply not_true_iff_false in E. rewrite Qle_bool_iff in E. apply Qnot_le_lt in E.
  destruct (Qsum_below _ _ Hp') as [? ?]. destruct (Qsum_below _ _ Ht') as [? ?].
  split; cbn [total_weight ece auc pred_mean target_mean]; [lra|..].
  - intros x [= <-]. eapply ratio_unit; [exact (ece_bounds _ _ _ Hp' Ht')|lra|lra].
  - intros x Hx. eapply auroc_bounds; [..|exact Hx]; by apply nonneg_slice.
  - intros x [= <-]. apply (ratio_unit _ _ _ (Qsum_below _ _ Hp')); lra.
  - intros x [= <-]. apply (ratio_unit _ _ _ (Qsum_below _ _ Ht')); lra.
Qed.

(** Updates with a sequence of (probabilities, targets) batches. *)
Fixpoint update_all (m : ConfidenceMetrics) (batches : list (list Q * list Q)) : result ConfidenceMetrics :=
  match batches with
  | [] => Ok m
  | (probs, targets) :: batches => m ← update_metrics m probs targets; update_all m batches
  end.

Definition batch_ok (bs : nat) (b : list Q * list Q) : Prop :=
  length b.1 = length b.2 ∧ length b.1 ≤ bs ∧ Forall unit_interval b.2.

Lemma update_all_ok bs nc nf m batches :
  0 < nc → 0 < nf → metrics_ok bs nc nf m → Forall (batch_ok bs) batches →
  ∃ m', update_all m batches = Ok m' ∧ metrics_ok bs nc nf m'.
Proof.
  intros Hnc Hnf Hm Hb. revert m Hm. induction Hb as [|[ps ts] batches (? & ? & ?) _ IH]; intros m Hm.
  { by exists m. }
  destruct (update_metrics_ok bs nc nf m ps ts) as (m1 & E & Hm1); [done..|].
  cbn. rewrite E. cbn. by apply IH.
Qed.

(** The confidence report is well-formed.  From fresh histograms, every sequence
    of batches that fit the block (whatever the predicted values, even outside
    [0, 1]) is accepted, and each position's reported ECE, AUROC, mean prediction and
    mean target is a number in [0, 1]. *)
Theorem confidence_metrics_bounded (bs nc nf : nat) (batches : list (list Q * list Q))
    (Hnc : 0 < nc) (Hnf : 0 < nf) (Hb : Forall (batch_ok bs) batches) :
  ∃ m, update_all (new_metrics bs nc nf) batches = Ok m ∧
    length (compute_metrics m) = bs ∧ Forall entry_ok (compute_metrics m).
Proof.
  destruct (update_all_ok bs nc nf (new_metrics bs nc nf) batches) as (m & E & Hm);
    [done..|apply new_metrics_ok|done|].
  exists m. split; [done|]. unfold compute_metrics. split.
  - rewrite length_fmap, length_seq. apply Hm.
  - apply Forall_fmap, Forall_true. intros pos. by eapply compute_position_ok.
Qed.

Lemma confidence_metrics_bounded_witness :
  ∃ m, update_all (new_metrics 2 4 8) [([1 # 2; 3]%Q, [1; 0]%Q); ([1 # 3]%Q, [0]%Q)] = Ok m ∧
    length (compute_metrics m) = 2 ∧ Forall entry_ok (compute_metrics m).
Proof.
  apply (confidence_metrics_bounded 2 4 8); [lia|lia|].
  rewrite !Forall_cons. unfold batch_ok, unit_interval. cbn [fst snd length].
  split_and!; try lia; try (rewrite !Forall_cons; split_and!; try lra); constructor.
Defined.
