(* ===== verification/Metrics.v ===== *)
(** * Metrics: the logging buffer of the training loop

    Models [DeepSpec/deepspec/utils/metrics.py].  The module's dictionary is a finite map; a
    scalar tensor is a rational.  [flush] is a collective operation: it takes the buffers of
    all ranks and gives, for each metric, the value every rank reports. *)

From S2P Require Import Prelude Sampling.
#[local] Open Scope nat_scope.

(** ** The buffer *)

Inductive MetricEntry : Type :=
  | Ratio (reduction : string) (num den : list Q)
  | Scalar (reduction : string) (values : list Q).

Notation Metrics := (gmap string MetricEntry).

(** [add_metric]'s arguments. *)
Record MetricCall : Type := mkCall {
  call_name : string;
  call_value : Q;
  call_den : option Q;
  call_reduction : string;
  call_tag : string;
}.

Definition DEFAULT_RATIO_REDUCTION : string := "dp_sum".
Definition base_reductions : list string := ["mean"; "sum"; "max"; "min"; "last"]%string.
Definition reductions : list string := base_reductions ++ (String.append "dp_" <$> base_reductions).

(** [r"^(dp_)?(mean|sum|max|min|last)$"]: [$] also matches before a final newline. *)
Definition newline : string := String (Ascii.ascii_of_nat 10) EmptyString.
Definition reduction_matches (r : string) : bool :=
  bool_decide (r ∈ reductions ++ ((λ x, x +:+ newline) <$> reductions)).

Definition metric_name (c : MetricCall) : string := call_tag c +:+ "/" +:+ call_name c.

(** The entry after one more emission. *)
Definition emit_entry (old : option MetricEntry) (c : MetricCall) : result MetricEntry :=
  match call_den c with
  | Some den =>
      _ ← py_assert (bool_decide (call_reduction c = DEFAULT_RATIO_REDUCTION));
      match default (Ratio (call_reduction c) [] []) old with
      | Scalar _ _ => Raise AssertionError
      | Ratio r ns ds =>
          _ ← py_assert (bool_decide (r = call_reduction c));
          Ok (Ratio r (ns ++ [call_value c]) (ds ++ [den]))
      end
  | None =>
      match default (Scalar (call_reduction c) []) old with
      | Ratio _ _ _ => Raise AssertionError
      | Scalar r vs =>
          _ ← py_assert (bool_decide (r = call_reduction c));
          Ok (Scalar r (vs ++ [call_value c]))
      end
  end.

Definition add_metric (m : Metrics) (c : MetricCall) : result Metrics :=
  _ ← py_assert (reduction_matches (call_reduction c));
  e ← emit_entry (m !! metric_name c) c;
  Ok (<[metric_name c := e]> m).

Fixpoint add_metrics (m : Metrics) (cs : list MetricCall) : result Metrics :=
  match cs with
  | [] => Ok m
  | c :: cs => m ← add_metric m c; add_metrics m cs
  end.

(** ** The collective flush *)

Definition name_le (x y : string * MetricEntry) : Prop := String.leb x.1 y.1 = true.
#[export] Instance name_le_dec : RelDecision name_le.
Proof. intros x y. unfold name_le. apply _. Defined.

(** [sorted(_metrics.items())]: the names are distinct. *)
Definition sorted_items (m : Metrics) : list (string * MetricEntry) :=
  merge_sort name_le (map_to_list m).

Inductive MetricKind : Type := RatioKind | ScalarKind.
#[export] Instance MetricKind_eq_dec : EqDecision MetricKind.
Proof. solve_decision. Defined.

Definition entry_kind (e : MetricEntry) : MetricKind :=
  match e with Ratio _ _ _ => RatioKind | Scalar _ _ => ScalarKind end.
Definition entry_reduction (e : MetricEntry) : string :=
  match e with Ratio r _ _ | Scalar r _ => r end.
Definition entry_count (e : MetricEntry) : nat :=
  match e with Ratio _ ns _ => length ns | Scalar _ vs => length vs end.

Definition schema_item (x : string * MetricEntry) : string * MetricKind * string * nat :=
  (x.1, entry_kind x.2, entry_reduction x.2, entry_count x.2).
Definition schema (m : Metrics) : list (string * MetricKind * string * nat) :=
  schema_item <$> sorted_items m.

Definition assert_schema_consistent (ranks : list Metrics) : result unit :=
  match schema <$> ranks with
  | [] => Ok tt
  | reference :: others => py_assert (forallb (λ s, bool_decide (s = reference)) others)
  end.

Definition safe_div (numerator denominator : Q) : Q :=
  if Qeq_bool denominator 0 then 0%Q else (numerator / denominator)%Q.

(** The values of all ranks before and after the collective. *)
Definition reduce_dp_value (vals : list Q) (op_name : string) : result (list Q) :=
  let everywhere x := replicate (length vals) x in
  if (op_name =? "sum")%string then Ok (everywhere (Qsum vals))
  else if (op_name =? "mean")%string
  then Ok (everywhere (Qsum vals / inject_Z (Z.of_nat (length vals)))%Q)
  else match vals with
  | [] => Ok []
  | v :: vs =>
      if (op_name =? "max")%string then Ok (everywhere (foldl Qmax v vs))
      else if (op_name =? "min")%string then Ok (everywhere (foldl Qmin v vs))
      else if (op_name =? "last")%string then Ok (everywhere (List.last vs v))
      else Raise AssertionError
  end.

Definition local_reduce (values : list Q) (reduction : string) : result Q :=
  match values with
  | [] => Raise AssertionError
  | v :: vs =>
      if (reduction =? "last")%string then Ok (List.last vs v)
      else if (reduction =? "max")%string then Ok (foldl Qmax v vs)
      else if (reduction =? "min")%string then Ok (foldl Qmin v vs)
      else if (reduction =? "mean")%string || (reduction =? "sum")%string
      then Ok (Qsum values / inject_Z (Z.of_nat (length values)))%Q
      else Raise AssertionError
  end.

(** One turn of the loop of [flush], on all ranks: their entries in, their values out.  A
    rank that reaches another kind of entry would be in another collective. *)
Definition flush_ratio (ranks : list MetricEntry) : result (list Q) :=
  parts ← mapM (λ e, match e with
                     | Ratio _ ns ds => Ok (Qsum ns, Qsum ds)
                     | Scalar _ _ => Raise RuntimeError
                     end) ranks;
  num ← reduce_dp_value (fst <$> (parts : list (Q * Q))) "sum";
  den ← reduce_dp_value (snd <$> (parts : list (Q * Q))) "sum";
  Ok (zip_with safe_div num den).

Definition flush_scalar (reduction : string) (ranks : list MetricEntry) : result (list Q) :=
  let dp := String.prefix "dp_" reduction in
  let local_reduction := if dp then String.substring 3 (String.length reduction - 3) reduction else reduction in
  values ← mapM (λ e, match e with
                      | Scalar _ vs => local_reduce vs local_reduction
                      | Ratio _ _ _ => Raise RuntimeError
                      end) ranks;
  if dp then reduce_dp_value values local_reduction else Ok values.

Definition flush_entry (ranks : list MetricEntry) : result (list Q) :=
  match ranks with
  | [] => Ok []
  | Ratio _ _ _ :: _ => flush_ratio ranks
  | Scalar r _ :: _ => flush_scalar r ranks
  end.

(** The [i]-th items of all ranks. *)
Definition item_column (items : list (list (string * MetricEntry))) (i : nat)
  : result (list (string * MetricEntry)) :=
  mapM (λ l : list (string * MetricEntry), match l !! i with Some x => Ok x | None => Raise RuntimeError end) items.

Definition flush_item (items : list (list (string * MetricEntry))) (i : nat) : result (string * list Q) :=
  col ← item_column items i;
  vals ← flush_entry (snd <$> (col : list (string * MetricEntry)));
  Ok (default EmptyString (fst <$> head col), vals).

(** The summaries of all ranks, and their buffers afterwards ([finally: reset()]). *)
Definition flush (ranks : list Metrics) : result (list (string * list Q)) * list Metrics :=
  (_ ← assert_schema_consistent ranks;
   let items := sorted_items <$> ranks in
   mapM (flush_item items) (seq 0 (length (default [] (head items)))),
   (λ _, ∅) <$> ranks).

(** ** Lemmas on the buffer *)

(** The calls of one rank that emit under a name. *)
Definition calls_of (name : string) (cs : list MetricCall) : list MetricCall :=
  filter (λ c, metric_name c = name) cs.

(** What a buffer holds after the calls: per name, the values in order. *)
Definition entry_of_calls (e : MetricEntry) (cs : list MetricCall) : Prop :=
  Forall (λ c, call_reduction c = entry_reduction e) cs ∧
  match e with
  | Ratio r ns ds => r = DEFAULT_RATIO_REDUCTION ∧ ns = call_value <$> cs ∧ Some <$> ds = call_den <$> cs
  | Scalar r vs => vs = call_value <$> cs ∧ Forall (λ c, call_den c = None) cs
  end.

Definition records (m : Metrics) (cs : list MetricCall) : Prop :=
  ∀ name, match m !! name with
          | Some e => entry_of_calls e (calls_of name cs) ∧ calls_of name cs ≠ []
          | None => calls_of name cs = []
          end.

Lemma records_nil : records ∅ [].
Proof. intros name. by rewrite lookup_empty. Qed.

Lemma calls_of_snoc name cs c :
  calls_of name (cs ++ [c]) = calls_of name cs ++ (if decide (metric_name c = name) then [c] else []).
Proof. unfold calls_of. by rewrite filter_app. Qed.

(** An entry extended by a call records that call too. *)
Lemma emit_entry_records old c e cs :
  match old with Some e => entry_of_calls e cs | None => cs = [] end →
  emit_entry old c = Ok e → entry_of_calls e (cs ++ [c]).
Proof.
  unfold emit_entry, entry_of_calls. intros Hold He. destruct (call_den c) as [d|] eqn:Hd.
  - inv_ok. b2p. destruct old as [[r ns ds|r vs]|]; cbn in He; inv_ok; b2p; subst; cbn in *.
    + destruct Hold as (HF & _ & -> & Hds). rewrite Forall_app, !fmap_app, Hds. cbn. rewrite Hd. split_and!; try done. by constructor.
    + rewrite Hd. split_and!; try done. by constructor.
  - destruct old as [[r ns ds|r vs]|]; cbn in He; inv_ok; b2p; subst; cbn in *.
    + destruct Hold as (HR & -> & HF). rewrite !Forall_app, !fmap_app. split_and!; try done; by constructor.
    + split_and!; try done; by constructor.
Qed.

Lemma add_metric_records m cs c m' : records m cs → add_metric m c = Ok m' → records m' (cs ++ [c]).
Proof.
  unfold add_metric. intros Hm Ha. inv_ok. intros name. specialize (Hm name). rewrite calls_of_snoc.
  destruct (decide (metric_name c = name)) as [<-|Hne].
  - rewrite lookup_insert_eq. split; [|by destruct (calls_of _ cs)].
    eapply emit_entry_records; [|done]. by destruct (m !! _); [destruct Hm|].
  - by rewrite lookup_insert_ne, app_nil_r.
Qed.

Lemma add_metrics_records m cs0 cs m' : records m cs0 → add_metrics m cs = Ok m' → records m' (cs0 ++ cs).
Proof.
  revert m cs0. induction cs as [|c cs IH]; intros m cs0 Hm Ha; cbn in Ha; inv_ok; [by rewrite app_nil_r|].
  rewrite cons_middle, app_assoc. eapply IH; [|done]. by eapply add_metric_records.
Qed.

(** A column of the flush: the entries of one name on all ranks. *)
Lemma sorted_items_elem m name e : (name, e) ∈ sorted_items m ↔ m !! name = Some e.
Proof. unfold sorted_items. rewrite (merge_sort_Permutation name_le). apply elem_of_map_to_list. Qed.

Lemma schema_lookup m i name k r n :
  schema m !! i = Some (name, k, r, n) ↔
  ∃ e, sorted_items m !! i = Some (name, e) ∧ k = entry_kind e ∧ r = entry_reduction e ∧ n = entry_count e.
Proof.
  unfold schema. rewrite list_lookup_fmap. destruct (sorted_items m !! i) as [[name' e]|]; cbn; [|naive_solver].
  split; [intros [= <- <- <- <-]; eauto|]. intros (e' & [= -> ->] & -> & -> & ->). done.
Qed.

Lemma mapM_lookup_column (items : list (list (string * MetricEntry))) i col :
  item_column items i = Ok col ↔ Forall2 (λ l x, l !! i = Some x) items col.
Proof.
  unfold item_column. revert col. induction items as [|l items IH]; intros col; cbn.
  - split; [intros [= <-]; constructor|]. by intros ->%Forall2_nil_inv_l.
  - destruct (l !! i) as [x|] eqn:Hx; cbn.
    + destruct (mapM _ items) as [col'|e]; cbn.
      * split.
        -- intros [= <-]. constructor; [done|]. by apply IH.
        -- intros (y & k & Hy & Hk & ->)%Forall2_cons_inv_l. rewrite Hx in Hy. injection Hy as <-.
           apply IH in Hk. by injection Hk as <-.
      * split; [done|]. intros (y & k & _ & Hk & ->)%Forall2_cons_inv_l. by apply IH in Hk.
    + split; [done|]. intros (y & k & Hy & _)%Forall2_cons_inv_l. congruence.
Qed.

Lemma schema_consistent_ok ms :
  assert_schema_consistent ms = Ok tt ↔ ∀ m m', m ∈ ms → m' ∈ ms → schema m = schema m'.
Proof.
  unfold assert_schema_consistent, py_assert. destruct ms as [|m0 ms]; cbn.
  { split; [|done]. by intros _ ? ? ?%not_elem_of_nil. }
  rewrite py_check_Ok, forallb_forall. split.
  - intros Hall. enough (Heq : ∀ m, m ∈ m0 :: ms → schema m = schema m0) by (intros; etransitivity; [|symmetry]; by apply Heq).
    intros m [->|Hm]%elem_of_cons; [done|]. specialize (Hall (schema m)). b2p.
    apply bool_decide_eq_true in Hall; [done|]. apply list_elem_of_In, list_elem_of_fmap. eauto.
  - intros Heq s (m & -> & Hm)%list_elem_of_In%list_elem_of_fmap. apply bool_decide_eq_true. apply Heq; [by right|by left].
Qed.

(** Two ranks with one schema have items of the same name, kind and reduction. *)
Lemma schema_eq_item m m' i name e x' :
  schema m = schema m' → sorted_items m !! i = Some (name, e) → sorted_items m' !! i = Some x' →
  ∃ e', x' = (name, e') ∧ entry_kind e' = entry_kind e ∧ entry_reduction e' = entry_reduction e.
Proof.
  intros Hs Hi Hi'. destruct x' as [name' e'].
  assert (H1 : schema m !! i = Some (schema_item (name, e))) by (unfold schema; by rewrite list_lookup_fmap, Hi).
  rewrite Hs in H1. unfold schema in H1. rewrite list_lookup_fmap, Hi' in H1. injection H1 as -> ? ? _. eauto.
Qed.

(** The [i]-th items of ranks that share the schema of [m0]. *)
Lemma column_entries m0 ms i name e0 col :
  sorted_items m0 !! i = Some (name, e0) → (∀ m, m ∈ ms → schema m0 = schema m) →
  Forall2 (λ l x, l !! i = Some x) (sorted_items <$> ms) col →
  Forall2 (λ m e, m !! name = Some e) ms (snd <$> col) ∧
    Forall (λ e, entry_kind e = entry_kind e0 ∧ entry_reduction e = entry_reduction e0) (snd <$> col).
Proof.
  intros H0. revert col. induction ms as [|m ms IH]; intros col Hs Hcol; cbn in Hcol.
  - apply Forall2_nil_inv_l in Hcol as ->. split; constructor.
  - apply Forall2_cons_inv_l in Hcol as (x & col' & Hx & Hcol & ->).
    destruct (schema_eq_item m0 m i name e0 x (Hs m ltac:(by left)) H0 Hx) as (e & -> & Hk & Hr).
    destruct (IH col') as [IH1 IH2]; [intros; apply Hs; by right|done|].
    split; constructor; try done. apply sorted_items_elem. by eapply list_elem_of_lookup_2.
Qed.

(** A line of the summary comes from the entries of its name, which agree in kind and reduction. *)
Lemma flush_line m0 ms summary name vals :
  (flush (m0 :: ms)).1 = Ok summary → (name, vals) ∈ summary →
  ∃ e0 es, m0 !! name = Some e0 ∧ Forall2 (λ m e, m !! name = Some e) ms es ∧
    Forall (λ e, entry_kind e = entry_kind e0 ∧ entry_reduction e = entry_reduction e0) es ∧
    flush_entry (e0 :: es) = Ok vals.
Proof.
  intros Hf Hin. cbn [flush fst] in Hf. apply result_bind_Ok in Hf as (u & Hc & Hf). destruct u.
  pose proof (proj1 (schema_consistent_ok _) Hc) as Hs.
  apply list_elem_of_lookup in Hin as (k & Hk). apply mapM_Ok_Forall2 in Hf.
  destruct (Forall2_lookup_r _ _ _ _ _ Hf Hk) as (i & _ & Hi). clear Hf Hk Hc.
  unfold flush_item in Hi. apply result_bind_Ok in Hi as (col & Hcol & Hi).
  apply result_bind_Ok in Hi as (vals' & Hv & Hi). injection Hi as Hname ->.
  apply mapM_lookup_column in Hcol. cbn in Hcol.
  apply Forall2_cons_inv_l in Hcol as ([name' e0] & col' & H0 & Hcol & ->). cbn in *. subst name'.
  destruct (column_entries m0 ms i name e0 col' H0) as [H1 H2]; [|done|].
  { intros m Hm. apply Hs; [by left|by right]. }
  exists e0, (snd <$> col'). split_and!; [|done..].
  apply sorted_items_elem. by eapply list_elem_of_lookup_2.
Qed.

(** ** Ratio metrics are global ratios *)

Definition total_num (name : string) (calls : list (list MetricCall)) : Q :=
  Qsum ((λ cs, Qsum (call_value <$> calls_of name cs)) <$> calls).
Definition total_den (name : string) (calls : list (list MetricCall)) : Q :=
  Qsum ((λ cs, Qsum (omap call_den (calls_of name cs))) <$> calls).

Lemma ratio_dens (cs : list MetricCall) ds : Some <$> ds = call_den <$> cs → omap call_den cs = ds.
Proof.
  revert ds. induction cs as [|c cs IH]; intros [|d ds]; cbn; try done.
  intros [= <- Hds]. cbn. f_equal. by apply IH.
Qed.

Lemma records_emitted m cs name e : records m cs → m !! name = Some e → entry_of_calls e (calls_of name cs).
Proof. intros Hr He. specialize (Hr name). rewrite He in Hr. by destruct Hr. Qed.

Lemma flush_ratio_sums name calls ms es :
  Forall2 (λ m cs, records m cs) ms calls → Forall2 (λ m e, m !! name = Some e) ms es →
  Forall (λ e, entry_kind e = RatioKind) es →
  flush_ratio es = Ok (replicate (length ms) (safe_div (total_num name calls) (total_den name calls))).
Proof.
  intros Hr He Hk. set (parts := (λ cs, (Qsum (call_value <$> calls_of name cs), Qsum (omap call_den (calls_of name cs)))) <$> calls).
  assert (Hp : mapM (λ e, match e with Ratio _ ns ds => Ok (Qsum ns, Qsum ds) | Scalar _ _ => Raise RuntimeError end) es = Ok parts).
  { subst parts. revert es He Hk. induction Hr as [|m cs ms calls Hm Hr IH]; intros es He Hk.
    - by apply Forall2_nil_inv_l in He as ->.
    - apply Forall2_cons_inv_l in He as (e & es' & He & Hes & ->).
      apply Forall_cons in Hk as [Hke Hk]. cbn. rewrite (IH es' Hes Hk).
      pose proof (records_emitted _ _ _ _ Hm He) as Hc. destruct e as [r ns ds|]; [|done]. cbn in Hc |- *.
      destruct Hc as (_ & _ & -> & Hds). by rewrite (ratio_dens _ _ Hds). }
  unfold flush_ratio. rewrite Hp. cbn. rewrite !length_fmap. subst parts. rewrite <- !list_fmap_compose, length_fmap.
  rewrite zip_with_replicate by done. by rewrite (Forall2_length _ _ _ Hr).
Qed.

(** A metric emitted with a denominator is reported by every rank as the global ratio:
    the sum of all its numerators over the sum of all its denominators, over all ranks and
    emissions since the last flush (0 when the denominators sum to 0). *)
Theorem flush_ratio_global (calls : list (list MetricCall)) (ms : list Metrics) summary name vals
    (Hcalls : Forall2 (λ cs m, add_metrics ∅ cs = Ok m) calls ms)
    (Hflush : (flush ms).1 = Ok summary)
    (Hline : (name, vals) ∈ summary)
    (Hratio : ∃ cs c, cs ∈ calls ∧ c ∈ cs ∧ metric_name c = name ∧ call_den c ≠ None) :
  vals = replicate (length ms) (safe_div (total_num name calls) (total_den name calls)).
Proof.
  assert (Hrec : Forall2 (λ m cs, records m cs) ms calls).
  { apply Forall2_flip. eapply Forall2_impl; [exact Hcalls|]. cbn beta. intros cs m Hm.
    exact (add_metrics_records ∅ [] cs m records_nil Hm). }
  destruct ms as [|m0 ms].
  { apply Forall2_nil_inv_r in Hcalls as ->. destruct Hratio as (cs & c & Hcs%not_elem_of_nil & _). done. }
  destruct (flush_line _ _ _ _ _ Hflush Hline) as (e0 & es & He0 & Hes & Hkind & Hv).
  assert (Hall : Forall2 (λ m e, m !! name = Some e) (m0 :: ms) (e0 :: es)) by by constructor.
  assert (HK : Forall (λ e, entry_kind e = entry_kind e0) (e0 :: es)).
  { constructor; [done|]. eapply Forall_impl; [exact Hkind|]. by intros e [? _]. }
  destruct Hratio as (cs & c & (i & Hi)%list_elem_of_lookup & Hc & Hname & Hden).
  destruct (Forall2_lookup_r _ _ _ _ _ Hrec Hi) as (m & Hm & Hmc).
  destruct (Forall2_lookup_l _ _ _ _ _ Hall Hm) as (e & He & Hme). cbn beta in Hme.
  assert (Hek : entry_kind e = RatioKind).
  { pose proof (records_emitted _ _ _ _ Hmc Hme) as Hec. destruct e as [|r vs]; [done|].
    destruct Hec as (_ & _ & HF). rewrite Forall_forall in HF. destruct Hden. apply HF.
    unfold calls_of. by apply list_elem_of_filter. }
  assert (H0 : entry_kind e0 = RatioKind).
  { rewrite <- Hek. symmetry. rewrite Forall_lookup in HK. by eapply HK. }
  destruct e0 as [r ns ds|]; [|done]. cbn [flush_entry] in Hv.
  rewrite (flush_ratio_sums name calls _ _ Hrec Hall HK) in Hv. by injection Hv as <-.
Qed.

(** Two ranks, one emission each. *)
Module TinyMetrics.
Definition calls (num den : Q) : list MetricCall := [mkCall "acc" num (Some den) "dp_sum" "train"].
Definition buffer (cs : list MetricCall) : Metrics :=
  match add_metrics ∅ cs with Ok m => m | Raise _ => ∅ end.
Definition ranks : list Metrics := [buffer (calls 1 2); buffer (calls 2 3)].
Definition summary : list (string * list Q) := [("train/acc"%string, [3 # 5; 3 # 5]%Q)].
End TinyMetrics.
Import TinyMetrics.

Lemma flush_ratio_global_witness :
  (flush ranks).1 = Ok summary ∧
  [3 # 5; 3 # 5]%Q = replicate 2 (safe_div (total_num "train/acc" [calls 1 2; calls 2 3])
                                           (total_den "train/acc" [calls 1 2; calls 2 3])).
Proof.
  split; [vm_compute; reflexivity|].
  apply (flush_ratio_global [calls 1 2; calls 2 3] ranks summary "train/acc").
  - constructor; [vm_compute; reflexivity|]. constructor; [vm_compute; reflexivity|constructor].
  - vm_compute; reflexivity.
  - by left.
  - eexists _, _. split; [by left|]. split; [by left|]. split; [reflexivity|done].
Defined.

(** ** Outcomes of the flush *)

Lemma local_reduce_ok vs r : vs ≠ [] → r ∈ base_reductions → ∃ q, local_reduce vs r = Ok q.
Proof.
  intros Hvs Hr. destruct vs as [|v vs]; [done|]. unfold base_reductions in Hr. rewrite !elem_of_cons in Hr.
  destruct Hr as [->|[->|[->|[->|[->|[]%not_elem_of_nil]]]]]; cbn; eauto.
Qed.

Lemma reduce_dp_value_ok vs r :
  r ∈ base_reductions → ∃ q, reduce_dp_value vs r = Ok (replicate (length vs) q).
Proof.
  intros Hr. unfold base_reductions in Hr. rewrite !elem_of_cons in Hr. unfold reduce_dp_value.
  destruct Hr as [->|[->|[->|[->|[->|[]%not_elem_of_nil]]]]]; cbn; eauto;
    (destruct vs; cbn; [by exists 0%Q|eauto]).
Qed.

(** The code's [reduction[3:]] of an accepted reduction is a base reduction. *)
Lemma strip_dp r : r ∈ reductions →
  (if String.prefix "dp_" r then String.substring 3 (String.length r - 3) r else r) ∈ base_reductions.
Proof.
  intros Hr. unfold reductions, base_reductions in Hr. cbn in Hr. rewrite !elem_of_cons in Hr.
  unfold base_reductions. rewrite !elem_of_cons.
  repeat destruct Hr as [->|Hr]; [cbn; tauto..|]. by apply not_elem_of_nil in Hr.
Qed.

Definition entry_ok (e : MetricEntry) : Prop :=
  match e with
  | Ratio r _ _ => r = DEFAULT_RATIO_REDUCTION
  | Scalar r vs => r ∈ reductions ∧ vs ≠ []
  end.

(** The ranks agree on a value when its reduction is a data-parallel one. *)
Definition agreed (r : string) (vals : list Q) : Prop :=
  String.prefix "dp_" r = true → ∀ v v', v ∈ vals → v' ∈ vals → v = v'.

Lemma agreed_replicate r n q : agreed r (replicate n q).
Proof. intros _ v v' [-> _]%elem_of_replicate [-> _]%elem_of_replicate. done. Qed.

Lemma flush_ratio_ok es :
  Forall (λ e, entry_kind e = RatioKind) es → ∃ q, flush_ratio es = Ok (replicate (length es) q).
Proof.
  intros HK. unfold flush_ratio.
  destruct (mapM_Ok_exists (λ e, match e with Ratio _ ns ds => Ok (Qsum ns, Qsum ds) | Scalar _ _ => Raise RuntimeError end) es)
    as [parts Hp].
  { eapply Forall_impl; [exact HK|]. intros [r ns ds|] He; [eauto|done]. }
  rewrite Hp. cbn. rewrite !length_fmap, (mapM_Ok_length _ _ _ Hp).
  eexists. by rewrite zip_with_replicate.
Qed.

Lemma flush_scalar_ok r es :
  r ∈ reductions → Forall (λ e, entry_kind e = ScalarKind ∧ entry_ok e) es →
  ∃ vals, flush_scalar r es = Ok vals ∧ length vals = length es ∧ agreed r vals.
Proof.
  intros Hr HK. pose proof (strip_dp r Hr) as Hb. unfold flush_scalar. cbv zeta. revert Hb.
  generalize (if String.prefix "dp_" r then String.substring 3 (String.length r - 3) r else r). intros b Hb.
  destruct (mapM_Ok_exists (λ e, match e with Scalar _ vs => local_reduce vs b | Ratio _ _ _ => Raise RuntimeError end) es)
    as [vals Hp].
  { eapply Forall_impl; [exact HK|]. intros [|r' vs] [He Hok]; [done|]. destruct Hok as [_ Hvs]. by apply local_reduce_ok. }
  rewrite Hp. cbn. pose proof (mapM_Ok_length _ _ _ Hp) as Hl. destruct (String.prefix "dp_" r) eqn:Hdp.
  - destruct (reduce_dp_value_ok vals b Hb) as [q Hq]. exists (replicate (length vals) q).
    rewrite length_replicate. split_and!; [done..|]. apply agreed_replicate.
  - exists vals. split_and!; [done..|]. intros H. congruence.
Qed.

Lemma flush_entry_ok e0 es :
  Forall entry_ok (e0 :: es) →
  Forall (λ e, entry_kind e = entry_kind e0 ∧ entry_reduction e = entry_reduction e0) es →
  ∃ vals, flush_entry (e0 :: es) = Ok vals ∧ length vals = length (e0 :: es) ∧ agreed (entry_reduction e0) vals.
Proof.
  intros Hok Hk. assert (HK : Forall (λ e, entry_kind e = entry_kind e0 ∧ entry_ok e) (e0 :: es)).
  { apply Forall_and. split; [|done]. constructor; [done|]. eapply Forall_impl; [exact Hk|]. by intros e [? _]. }
  destruct e0 as [r ns ds|r vs]; cbn [flush_entry entry_reduction].
  - destruct (flush_ratio_ok (Ratio r ns ds :: es)) as [q Hq].
    { eapply Forall_impl; [exact HK|]. by intros e [? _]. }
    rewrite Hq. exists (replicate (length (Ratio r ns ds :: es)) q). rewrite length_replicate.
    split_and!; [done..|]. apply agreed_replicate.
  - apply flush_scalar_ok; [|exact HK]. apply Forall_cons in Hok as [[Hr _] _]. done.
Qed.

Lemma records_entry_ok m cs name e :
  Forall (λ c, call_reduction c ∈ reductions) cs → records m cs → m !! name = Some e → entry_ok e.
Proof.
  intros Hcs Hr He. specialize (Hr name). rewrite He in Hr. destruct Hr as [Hec Hne].
  destruct e as [r ns ds|r vs]; cbn in Hec |- *; [by destruct Hec as (_ & ? & _)|]. destruct Hec as (Hr & -> & _). split.
  - destruct (calls_of name cs) as [|c l] eqn:Hl; [done|]. apply Forall_cons in Hr as [Hcr _]. cbn in Hcr. subst r.
    assert (Hc : c ∈ calls_of name cs) by (rewrite Hl; by left).
    unfold calls_of in Hc. apply list_elem_of_filter in Hc as [_ Hc]. rewrite Forall_forall in Hcs. exact (Hcs c Hc).
  - by intros ?%fmap_nil_inv.
Qed.

Lemma sorted_items_names m : NoDup (sorted_items m).*1.
Proof. unfold sorted_items. rewrite (merge_sort_Permutation name_le). apply NoDup_fst_map_to_list. Qed.

(** With consistent schemas every item of the first rank gives a line. *)
Lemma flush_item_ok m0 ms i name e0 :
  sorted_items m0 !! i = Some (name, e0) → (∀ m, m ∈ ms → schema m0 = schema m) →
  (∀ m e, m ∈ m0 :: ms → m !! name = Some e → entry_ok e) →
  ∃ vals, flush_item (sorted_items <$> m0 :: ms) i = Ok (name, vals) ∧ length vals = S (length ms) ∧
    agreed (entry_reduction e0) vals.
Proof.
  intros H0 Hs Hok. unfold flush_item.
  destruct (mapM_Ok_exists (λ l : list (string * MetricEntry), match l !! i with Some x => Ok x | None => Raise RuntimeError end)
              (sorted_items <$> m0 :: ms)) as [col Hcol].
  { apply Forall_fmap, Forall_forall. intros m Hm. cbn. enough (is_Some (sorted_items m !! i)) as [x ->] by eauto.
    apply lookup_lt_is_Some. apply elem_of_cons in Hm as [->|Hm]; [by eapply lookup_lt_Some|].
    pose proof (f_equal length (Hs m Hm)) as Hl. unfold schema in Hl. rewrite !length_fmap in Hl. rewrite <- Hl.
    by eapply lookup_lt_Some. }
  fold (item_column (sorted_items <$> m0 :: ms) i) in Hcol. rewrite Hcol. cbn [mbind result_bind].
  apply mapM_lookup_column in Hcol. cbn in Hcol.
  apply Forall2_cons_inv_l in Hcol as (x & col' & Hx & Hcol & ->). rewrite H0 in Hx. injection Hx as <-.
  destruct (column_entries m0 ms i name e0 col' H0 Hs Hcol) as [He Hk]. cbn [fmap list_fmap snd].
  destruct (flush_entry_ok e0 (snd <$> col')) as (vals & -> & Hl & Ha); [|done|].
  - constructor.
    + apply (Hok m0); [by left|]. apply sorted_items_elem. by eapply list_elem_of_lookup_2.
    + apply Forall_lookup. intros j e Hj. destruct (Forall2_lookup_r _ _ _ _ _ He Hj) as (m & Hm & Hme).
      apply (Hok m); [right; by eapply list_elem_of_lookup_2|done].
  - exists vals. cbn. split_and!; [done| |done]. rewrite Hl. cbn. by rewrite (Forall2_length _ _ _ He).
Qed.

Lemma flush_consistent m0 ms :
  (∀ m, m ∈ ms → schema m0 = schema m) →
  (∀ m name e, m ∈ m0 :: ms → m !! name = Some e → entry_ok e) →
  ∃ summary, (flush (m0 :: ms)).1 = Ok summary ∧ summary.*1 = (sorted_items m0).*1 ∧
    ∀ name vals, (name, vals) ∈ summary → length vals = S (length ms) ∧
      ∀ e, m0 !! name = Some e → agreed (entry_reduction e) vals.
Proof.
  intros Hs Hok. assert (Hitem : ∀ i name e0, sorted_items m0 !! i = Some (name, e0) →
    ∃ vals, flush_item (sorted_items <$> m0 :: ms) i = Ok (name, vals) ∧ length vals = S (length ms) ∧
      agreed (entry_reduction e0) vals).
  { intros i name e0 Hi. apply flush_item_ok; [done..|]. intros m e Hm He. by eapply Hok. }
  destruct (mapM_Ok_exists (flush_item (sorted_items <$> m0 :: ms)) (seq 0 (length (sorted_items m0)))) as [summary Hsum].
  { apply Forall_seq. intros i Hi. destruct (lookup_lt_is_Some_2 (sorted_items m0) i ltac:(lia)) as [[name e0] Hx].
    destruct (Hitem _ _ _ Hx) as (vals & -> & _). eauto. }
  assert (Hlines : ∀ i line, summary !! i = Some line →
    ∃ name e0 vals, line = (name, vals) ∧ sorted_items m0 !! i = Some (name, e0) ∧
      length vals = S (length ms) ∧ agreed (entry_reduction e0) vals).
  { intros i line Hi. destruct (Forall2_lookup_r _ _ _ _ _ (mapM_Ok_Forall2 _ _ _ Hsum) Hi) as (j & Hj & Hline).
    apply lookup_seq in Hj as [-> Hj]. cbn in Hline.
    destruct (lookup_lt_is_Some_2 (sorted_items m0) i ltac:(lia)) as [[name e0] Hx].
    destruct (Hitem _ _ _ Hx) as (vals & Hv & Hl & Ha). cbn in Hv. rewrite Hv in Hline. injection Hline as <-.
    exists name, e0, vals. done. }
  exists summary. split_and!.
  - unfold flush. cbn [fst]. rewrite (proj2 (schema_consistent_ok (m0 :: ms))); [exact Hsum|].
    intros m m' [->|Hm]%elem_of_cons [->|Hm']%elem_of_cons; [done|by apply Hs|symmetry; by apply Hs|].
    by rewrite <- (Hs m Hm), <- (Hs m' Hm').
  - apply list_eq. intros i. rewrite !list_lookup_fmap.
    pose proof (mapM_Ok_length _ _ _ Hsum) as Hl. rewrite length_seq in Hl.
    destruct (summary !! i) as [line|] eqn:Hi.
    + destruct (Hlines i line Hi) as (name & e0 & vals & -> & -> & _). done.
    + apply lookup_ge_None in Hi. by rewrite (proj2 (lookup_ge_None (sorted_items m0) i)) by lia.
  - intros name vals (i & Hi)%list_elem_of_lookup. destruct (Hlines i _ Hi) as (name' & e0 & vals' & [= -> ->] & Hx & Hl & Ha).
    split; [done|]. intros e He. apply list_elem_of_lookup_2, sorted_items_elem in Hx.
    assert (e = e0) as -> by congruence. done.
Qed.

Lemma same_schema_entry m m' name e :
  schema m = schema m' → m !! name = Some e → ∃ e', m' !! name = Some e' ∧ entry_reduction e' = entry_reduction e.
Proof.
  intros Hs (i & Hi)%sorted_items_elem%list_elem_of_lookup.
  destruct (lookup_lt_is_Some_2 (sorted_items m') i) as [x' Hx].
  { pose proof (f_equal length Hs) as Hl. unfold schema in Hl. rewrite !length_fmap in Hl. rewrite <- Hl.
    by eapply lookup_lt_Some. }
  destruct (schema_eq_item m m' i name e x' Hs Hi Hx) as (e' & -> & _ & Hr). exists e'. split; [|done].
  apply sorted_items_elem. by eapply list_elem_of_lookup_2.
Qed.

Lemma records_call m cs c :
  records m cs → c ∈ cs → ∃ e, m !! metric_name c = Some e ∧ entry_reduction e = call_reduction c.
Proof.
  intros Hr Hc. specialize (Hr (metric_name c)).
  assert (Hin : c ∈ calls_of (metric_name c) cs) by (by apply list_elem_of_filter).
  destruct (m !! metric_name c) as [e|].
  - exists e. split; [done|]. destruct Hr as [[HF _] _]. rewrite Forall_forall in HF. by rewrite HF.
  - rewrite Hr in Hin. by apply not_elem_of_nil in Hin.
Qed.


