(* ===== verification/MySpecLoss.v ===== *)
(** * MySpecLoss: the training loss of the MySpec draft

    Models [DeepSpec/deepspec/modeling/myspec/loss.py] on one batch row per rank
    ([MySpecForwardOutput]); [block_size] is the third dimension of its tensors.  Float
    arithmetic is exact rational arithmetic; [softmax], [cross_entropy], [exp], [sigmoid]
    and the binary cross entropy are torch functions and stay parameters. *)

From Stdlib Require Import Qabs.
From stdpp Require Import pretty.
From S2P Require Import Prelude Sampling SpecDecode SpecDecodeProps Confidence Metrics MySpecModel.
#[local] Open Scope nat_scope.

(** ** Torch functions *)

Class TorchLoss : Type := {
  torch_softmax : list Q → list Q;
  (** one row of [F.cross_entropy(..., reduction="none")]; a target outside the row raises *)
  cross_entropy : list Q → nat → result Q;
  bce_with_logits : Q → Q → Q;
  loss_sigmoid : Q → Q;
  torch_exp : Q → Q;
}.

(** ** Tensors of shape [num_blocks, block_size] *)

Notation grid := (list (list Q)).

Definition gmap1 {A B} (f : A → B) (x : list (list A)) : list (list B) := (λ row : list A, f <$> row) <$> x.
Definition gmap2 {A B C} (f : A → B → C) (x : list (list A)) (y : list (list B)) : list (list C) :=
  zip_with (zip_with f) x y.
Definition gsum (x : grid) : Q := Qsum (concat x).
Definition float_mask (m : list (list bool)) : grid := gmap1 (λ b : bool, if b then 1%Q else 0%Q) m.

#[global] Arguments gmap1 : simpl never.
#[global] Arguments gmap2 : simpl never.
#[global] Arguments gsum : simpl never.
#[global] Arguments float_mask : simpl never.

(** [t.cumprod(dim=-1)] of a row. *)
Definition qcumprod (l : list Q) : list Q := Qcumprod 1%Q l.

Record LossTerms : Type := mkTerms {
  ce_loss_num : Q;
  ce_loss_den : Q;
  l1_loss_num : Q;
  l1_loss_den : Q;
  confidence_loss_num : Q;
  confidence_loss_den : Q;
}.

Record Denominators : Type := mkDens {
  ce_den : Q;
  l1_den : Q;
  confidence_den : Q;
}.

(** [dist.all_reduce] sums the terms of all ranks, [world]. *)
Definition all_reduce_loss_denominators (world : list LossTerms) (loss_terms : LossTerms) : Denominators :=
  let reduce (key : LossTerms → Q) := if 1 <? length world then Qsum (key <$> world) else key loss_terms in
  mkDens (reduce ce_loss_den) (reduce l1_loss_den) (reduce confidence_loss_den).

Section loss.
Context `{TorchLoss} (block_size : nat).

Definition decay_weight (gamma : Q) (k : nat) : Q := torch_exp (- inject_Z (Z.of_nat k) / gamma).

Definition build_loss_weight_mask (eval_mask : list (list bool)) (loss_decay_gamma : option Q) : grid :=
  let loss_weight_mask := float_mask eval_mask in
  match loss_decay_gamma with
  | Some gamma =>
      if Qltb 0 gamma
      then (λ row, zip_with Qmult row (decay_weight gamma <$> seq 0 block_size)) <$> loss_weight_mask
      else loss_weight_mask
  | None => loss_weight_mask
  end.

(** [t.sum(dim=(0, 1))]. *)
Definition position_sums (x : grid) : list Q :=
  (λ k, Qsum ((λ row : list Q, default 0%Q (row !! k)) <$> x)) <$> seq 0 block_size.

Definition compute_local_probabilistic_stats (outputs : MySpecForwardOutput) (accept_rate : option grid)
    (valid_block_weights : list Q) : Q * list Q :=
  match accept_rate with
  | None => (0%Q, replicate block_size 0%Q)
  | Some a =>
      let valid_accept_rate := gmap2 Qmult a (float_mask (eval_mask outputs)) in
      let expected_draft_accepted := (λ row, Qsum (qcumprod row)) <$> valid_accept_rate in
      let tau_prob_per_block := (λ x, x + 1)%Q <$> expected_draft_accepted in
      (Qsum (zip_with Qmult tau_prob_per_block valid_block_weights), position_sums valid_accept_rate)
  end.

(** The L1 distance of two probability rows. *)
Definition l1_dist (d t : list Q) : Q := Qsum (zip_with (λ x y, Qabs (x - y)) (torch_softmax d) (torch_softmax t)).

Definition accept_rate_of (d t : list Q) : Q := Qclamp 0 1 (1 - (1 # 2) * l1_dist d t).

Definition compute_accept_rate_3d (outputs : MySpecForwardOutput) (aligned : option (list rows)) : option grid :=
  match aligned with
  | None => None
  | Some al => Some (gmap2 accept_rate_of (draft_logits outputs) al)
  end.

Definition compute_local_l1_term (outputs : MySpecForwardOutput) (aligned : option (list rows)) (weights : grid) : Q * Q :=
  match aligned with
  | None => (0, 0)%Q
  | Some al =>
      let l1_dist_per_token := gmap2 l1_dist (draft_logits outputs) al in
      (gsum (gmap2 Qmult l1_dist_per_token weights), gsum weights)
  end.

(** The confidence part of [_collect_local_terms]. *)
Record ConfidenceTerms : Type := mkConf {
  conf_loss_num : Q;
  conf_loss_den : Q;
  conf_abs_error_num : Q;
  conf_bias_num : Q;
  conf_cumprod_bias_num : Q;
}.

Definition confidence_terms (outputs : MySpecForwardOutput) (accept_rate : option grid) (weights : grid)
  : result ConfidenceTerms :=
  match confidence_pred outputs with
  | None => Ok (mkConf 0 0 0 0 0)
  | Some pred =>
      a ← match accept_rate with Some a => Ok a | None => Raise AssertionError end;
      let confidence_errors := gmap2 Qmult (gmap2 bce_with_logits pred a) weights in
      let confidence_probs := gmap1 loss_sigmoid pred in
      let confidence_error := gmap2 Qminus confidence_probs (a : grid) in
      let valid_mask := float_mask (eval_mask outputs) in
      let prefix_probs := qcumprod <$> gmap2 Qmult confidence_probs valid_mask in
      let prefix_targets := qcumprod <$> gmap2 Qmult (a : grid) valid_mask in
      Ok (mkConf (gsum confidence_errors) (gsum weights)
            (gsum (gmap2 (λ e w, Qabs e * w)%Q confidence_error weights))
            (gsum (gmap2 Qmult confidence_error weights))
            (gsum (gmap2 Qmult (gmap2 Qminus prefix_probs prefix_targets) weights)))
  end.

Definition position_metric (k : nat) (num den : Q) : MetricCall :=
  mkCall ("accept_rate@" +:+ pretty k) num (Some den) DEFAULT_RATIO_REDUCTION "train".
Definition ratio_metric (name : string) (num den : Q) : MetricCall :=
  mkCall name num (Some den) DEFAULT_RATIO_REDUCTION "train".

(** [_collect_local_terms], up to the emission of its metrics. *)
Record LocalTerms : Type := mkLocal {
  local_losses : LossTerms;
  local_conf : ConfidenceTerms;
  tau_prob_sum : Q;
  accept_block_count : Q;
  pos_accept_sums : list Q;
  pos_total_counts : list Q;
}.

Definition local_terms (outputs : MySpecForwardOutput) (loss_decay_gamma : option Q) (l1_loss_alpha : Q)
  : result LocalTerms :=
  let loss_weight_mask := build_loss_weight_mask (eval_mask outputs) loss_decay_gamma in
  let flat_logits := concat (draft_logits outputs) in
  let flat_targets := concat (target_ids outputs) in
  _ ← py_check ValueError (length flat_logits =? length flat_targets);
  loss_per_token ← mapM (λ '(row, t), cross_entropy row t) (zip flat_logits flat_targets);
  let ce_num := Qsum (zip_with Qmult loss_per_token (concat loss_weight_mask)) in
  let ce_den := gsum loss_weight_mask in
  let accept_rate := compute_accept_rate_3d outputs (aligned_target_logits outputs) in
  _ ← py_assert (Qle_bool l1_loss_alpha 0 || bool_decide (aligned_target_logits outputs ≠ None));
  let '(l1_num, l1_den) :=
    if Qltb 0 l1_loss_alpha
    then compute_local_l1_term outputs (aligned_target_logits outputs) loss_weight_mask else (0, 0)%Q in
  let counts := position_sums (float_mask (eval_mask outputs)) in
  let valid_pred_tokens := existsb id <$> eval_mask outputs in
  let valid_blocks := zip_with andb (block_keep_mask outputs) valid_pred_tokens in
  let valid_block_weights := (λ b : bool, if b then 1%Q else 0%Q) <$> valid_blocks in
  let '(tau, pos) := compute_local_probabilistic_stats outputs accept_rate valid_block_weights in
  conf ← confidence_terms outputs accept_rate loss_weight_mask;
  Ok (mkLocal (mkTerms ce_num ce_den l1_num l1_den (conf_loss_num conf) (conf_loss_den conf)) conf tau
        (Qsum valid_block_weights) pos counts).

Definition has_confidence (outputs : MySpecForwardOutput) : bool := bool_decide (confidence_pred outputs ≠ None).

Definition local_metrics_of (outputs : MySpecForwardOutput) (t : LocalTerms) : list MetricCall :=
  imap (λ k '(num, den), position_metric k num den) (zip (pos_accept_sums t) (pos_total_counts t)) ++
  [ratio_metric "tau_probabilistic" (tau_prob_sum t) (accept_block_count t)] ++
  if has_confidence outputs then
    let c := local_conf t in
    [ratio_metric "confidence_abs_error" (conf_abs_error_num c) (conf_loss_den c);
     ratio_metric "confidence_bias" (conf_bias_num c) (conf_loss_den c);
     ratio_metric "confidence_cumprod_bias" (conf_cumprod_bias_num c) (conf_loss_den c)]
  else [].

Definition collect_local_terms (outputs : MySpecForwardOutput) (loss_decay_gamma : option Q) (l1_loss_alpha : Q)
    (m : Metrics) : result (LossTerms * bool * Metrics) :=
  t ← local_terms outputs loss_decay_gamma l1_loss_alpha;
  m ← add_metrics m (local_metrics_of outputs t);
  Ok (local_losses t, has_confidence outputs, m).

(** The three ratios weighted, as in [_build_loss] and in the local loss. *)
Definition EPS_DEN : Q := (1 # 1000000)%Q.
Definition weighted_loss (ts : LossTerms) (dens : Denominators) (l1_active has_conf : bool)
    (ce_loss_alpha l1_loss_alpha confidence_head_alpha : Q) : Q :=
  let ce_loss := (ce_loss_num ts / (ce_den dens + EPS_DEN))%Q in
  let l1_loss := if l1_active then (l1_loss_num ts / (l1_den dens + EPS_DEN))%Q else 0%Q in
  let confidence_loss := if has_conf then (confidence_loss_num ts / (confidence_den dens + EPS_DEN))%Q else 0%Q in
  (ce_loss_alpha * ce_loss + l1_loss_alpha * l1_loss + confidence_head_alpha * confidence_loss)%Q.

Definition build_loss (loss_terms : LossTerms) (global : Denominators)
    (ce_loss_alpha l1_loss_alpha confidence_head_alpha : Q) (has_conf : bool) (world_size : nat) : Q :=
  (weighted_loss loss_terms global (Qltb 0 (l1_den global)) has_conf
     ce_loss_alpha l1_loss_alpha confidence_head_alpha * inject_Z (Z.of_nat world_size))%Q.

(** [compute_myspec_loss] on one rank; [world] holds the terms of all ranks, as the
    collective sees them. *)
Definition compute_myspec_loss (world : list LossTerms) (outputs : MySpecForwardOutput) (loss_decay_gamma : option Q)
    (ce_loss_alpha l1_loss_alpha confidence_head_alpha : Q) (m : Metrics) : result (Q * Metrics) :=
  '(loss_terms, has_conf, m) ← collect_local_terms outputs loss_decay_gamma l1_loss_alpha m;
  let world_size := length world in
  let global := all_reduce_loss_denominators world loss_terms in
  let own := mkDens (ce_loss_den loss_terms) (l1_loss_den loss_terms) (confidence_loss_den loss_terms) in
  let l1_active := Qltb 0 (l1_den global) in
  let local_loss := weighted_loss loss_terms own l1_active has_conf ce_loss_alpha l1_loss_alpha confidence_head_alpha in
  m ← add_metrics m
        (ratio_metric "ce_loss" (ce_loss_num loss_terms) (ce_loss_den loss_terms) ::
         (if l1_active then [ratio_metric "l1_loss" (l1_loss_num loss_terms) (l1_loss_den loss_terms)] else []) ++
         (if has_conf
          then [ratio_metric "confidence_loss" (confidence_loss_num loss_terms) (confidence_loss_den loss_terms)]
          else []) ++
         [mkCall "loss" local_loss None "mean" "train"]);
  Ok (build_loss loss_terms global ce_loss_alpha l1_loss_alpha confidence_head_alpha has_conf world_size, m).

(** All ranks of a training step: the collective exchanges their loss terms. *)
Definition training_step (ranks : list (MySpecForwardOutput * Metrics)) (loss_decay_gamma : option Q)
    (ce_loss_alpha l1_loss_alpha confidence_head_alpha : Q) : result (list (Q * Metrics)) :=
  world ← mapM (λ r : MySpecForwardOutput * Metrics,
                  t ← local_terms r.1 loss_decay_gamma l1_loss_alpha; Ok (local_losses t)) ranks;
  mapM (λ r : MySpecForwardOutput * Metrics,
          compute_myspec_loss world r.1 loss_decay_gamma ce_loss_alpha l1_loss_alpha confidence_head_alpha r.2) ranks.
End loss.

(** ** The acceptance rate is the probability of acceptance *)

(** Documented behaviour of [torch.softmax]. *)
Class SoftmaxLaws `{TorchLoss} : Prop := {
  torch_softmax_length l : length (torch_softmax l) = length l;
  torch_softmax_nonneg l : Forall (λ x, 0 <= x)%Q (torch_softmax l);
  torch_softmax_sum l : l ≠ [] → (Qsum (torch_softmax l) == 1)%Q;
}.

Lemma Qabs_split x y : (Qabs (x - y) == 2 * Qmax (y - x) 0 - (y - x))%Q.
Proof. apply Qabs_case; intros; qminmax; lra. Qed.

Lemma l1_residual (d t : list Q) :
  length d = length t →
  (Qsum (zip_with (λ x y, Qabs (x - y)) d t) == 2 * residual_mass t d - (Qsum t - Qsum d))%Q.
Proof.
  unfold residual_mass. revert t. induction d as [|x d IH]; intros [|y t] Hl; try done.
  cbn [zip_with]. rewrite !Qsum_cons, IH by (by injection Hl). rewrite Qabs_split. ring.
Qed.

Lemma residual_mass_bounds p q :
  Forall (λ x, 0 <= x)%Q p → Forall (λ x, 0 <= x)%Q q → (0 <= residual_mass p q <= Qsum p)%Q.
Proof.
  unfold residual_mass. intros Hp. revert q. induction Hp as [|x p Hx Hp IH]; intros q Hq; [cbn [zip_with]; rewrite Qsum_nil; lra|].
  destruct Hq as [|y q Hy Hq].
  - cbn [zip_with]. rewrite Qsum_cons, Qsum_nil. pose proof (Qsum_nonneg _ Hp). lra.
  - cbn [zip_with]. rewrite !Qsum_cons. specialize (IH q Hq). qminmax; lra.
Qed.

(** C34: the acceptance rate the loss trains and reports, [1 - L1/2] of the two softmax rows,
    is the probability that verification at temperature 1 accepts a token drawn from the
    draft row (no positive draft probability below 1e-8); the clamp to [0, 1] is inactive. *)
Theorem accept_rate_is_acceptance_probability `{TorchLoss} `{!SoftmaxLaws} (d t : list Q)
    (Hlen : length d = length t) (Hne : d ≠ [])
    (Hclamp : Forall unclamped (torch_softmax d)) :
  (accept_rate_of d t == 1 - (1 # 2) * l1_dist d t)%Q ∧
  (accept_rate_of d t ==
     Qsum (zip_with (λ p q, q * accept_prob p q) (torch_softmax t) (torch_softmax d)))%Q.
Proof.
  assert (Hl : length (torch_softmax d) = length (torch_softmax t)) by (by rewrite !torch_softmax_length).
  assert (Hne' : t ≠ []) by (by destruct d, t).
  pose proof (torch_softmax_sum d Hne) as Hd. pose proof (torch_softmax_sum t Hne') as Ht.
  pose proof (residual_mass_bounds _ _ (torch_softmax_nonneg t) (torch_softmax_nonneg d)) as Hb.
  assert (H1 : (l1_dist d t == 2 * residual_mass (torch_softmax t) (torch_softmax d))%Q).
  { unfold l1_dist. rewrite l1_residual, Hd, Ht by done. ring. }
  assert (Ha : (accept_rate_of d t == 1 - (1 # 2) * l1_dist d t)%Q).
  { unfold accept_rate_of, Qclamp. qminmax; lra. }
  split; [done|]. rewrite Ha, accept_weight_sum by (done || apply torch_softmax_nonneg). lra.
Qed.

(** ** The reported acceptance length is an expectation *)

(** The law of the number of accepted drafts when position [i] accepts with probability
    [a_i] and the first rejection stops: entry [k] is the probability of exactly [k]. *)
Fixpoint accepted_law (a : list Q) : list Q :=
  match a with
  | [] => [1%Q]
  | x :: a => (1 - x)%Q :: ((λ y, x * y)%Q <$> accepted_law a)
  end.

Definition mean_from (k : nat) (law : list Q) : Q := Qsum (imap (λ i x, Qn (k + i) * x)%Q law).
Definition expected_accepted (a : list Q) : Q := mean_from 0 (accepted_law a).

Lemma accepted_law_total a : (Qsum (accepted_law a) == 1)%Q.
Proof.
  induction a as [|x a IH]; [reflexivity|]. cbn [accepted_law]. rewrite Qsum_cons, (Qsum_fmap_scale x (λ y, y)), list_fmap_id, IH. ring.
Qed.

Lemma mean_from_S k law : (mean_from (S k) law == mean_from k law + Qsum law)%Q.
Proof.
  unfold mean_from. revert k. induction law as [|x law IH]; intros k; [reflexivity|].
  cbn [imap]. rewrite !Qsum_cons. assert (Hi : ∀ j, imap ((λ i y, (Qn (j + i) * y)%Q) ∘ S) law = imap (λ i y, (Qn (S j + i) * y)%Q) law).
  { intros j. apply imap_ext. intros i y _. unfold compose. by replace (j + S i) with (S j + i) by lia. }
  rewrite !Hi, (IH (S k)). rewrite !Nat.add_0_r. assert (Hs : (Qn (S k) == Qn k + 1)%Q).
  { unfold Qn. rewrite Nat2Z.inj_succ, <- Z.add_1_r, inject_Z_plus. reflexivity. }
  rewrite Hs. ring.
Qed.

Lemma mean_from_scale k c law : (mean_from k ((λ y, c * y)%Q <$> law) == c * mean_from k law)%Q.
Proof.
  unfold mean_from. rewrite imap_fmap. revert k. induction law as [|x law IH]; intros k; [unfold Qsum; cbn; ring|].
  cbn [imap]. rewrite !Qsum_cons.
  assert (Hi : ∀ (f : Q → Q), imap ((λ i y, (Qn (k + i) * f y)%Q) ∘ S) law = imap (λ i y, (Qn (S k + i) * f y)%Q) law).
  { intros f. apply imap_ext. intros i y _. unfold compose. by replace (k + S i) with (S k + i) by lia. }
  specialize (IH (S k)). unfold compose in IH |- *.
  pose proof (Hi (λ y, c * y)%Q) as H1. pose proof (Hi (λ y, y)) as H2. unfold compose in H1, H2.
  rewrite H1, H2, IH. ring.
Qed.

Lemma expected_accepted_cons x a : (expected_accepted (x :: a) == x * (1 + expected_accepted a))%Q.
Proof.
  unfold expected_accepted at 1. cbn [accepted_law]. unfold mean_from. cbn [imap]. rewrite Qsum_cons.
  assert (Hi : imap ((λ i y, (Qn (0 + i) * y)%Q) ∘ S) ((λ y, x * y)%Q <$> accepted_law a) =
               imap (λ i y, (Qn (1 + i) * y)%Q) ((λ y, x * y)%Q <$> accepted_law a)) by done.
  rewrite Hi. fold (mean_from 1 ((λ y, x * y)%Q <$> accepted_law a)).
  rewrite mean_from_scale, mean_from_S, accepted_law_total. fold (expected_accepted a).
  change (Qn (0 + 0)) with 0%Q. ring.
Qed.

Lemma expected_accepted_nil : (expected_accepted [] == 0)%Q.
Proof. reflexivity. Qed.

Lemma sum_qcumprod acc a : (Qsum (Qcumprod acc a) == acc * expected_accepted a)%Q.
Proof.
  revert acc. induction a as [|x a IH]; intros acc; cbn [Qcumprod].
  - rewrite expected_accepted_nil, Qsum_nil. ring.
  - rewrite Qsum_cons, IH, expected_accepted_cons. ring.
Qed.

(** Positions after the mask contribute nothing. *)
Lemma expected_accepted_masked a k m :
  length a = k + m →
  (expected_accepted (zip_with Qmult a (replicate k 1 ++ replicate m 0)) == expected_accepted (take k a))%Q.
Proof.
  revert k. induction a as [|x a IH]; intros [|k] Hl; cbn in Hl; try lia.
  - done.
  - cbn [take replicate app]. destruct m as [|m]; [lia|]. cbn [replicate zip_with].
    rewrite expected_accepted_cons, expected_accepted_nil. ring.
  - cbn [take replicate app zip_with]. rewrite !expected_accepted_cons, IH by lia. ring.
Qed.

(** The mask of a block whose first [k] positions are supervised. *)
Definition prefix_mask (block_size k : nat) : list bool := replicate k true ++ replicate (block_size - k) false.

(** When each block's mask is a prefix of [k] positions (as [build_eval_mask] makes it),
    the logged [tau_prob_sum] adds up, over the weighted blocks, one plus the expected
    number of accepted drafts among its first [k], each position accepting with its rate. *)
Theorem tau_is_expected_tokens `{TorchLoss} (block_size : nat) (outputs : MySpecForwardOutput)
    (rates : grid) (weights : list Q) (ks : list nat)
    (Hmask : eval_mask outputs = prefix_mask block_size <$> ks)
    (Hks : Forall (λ k, k ≤ block_size) ks)
    (Hrates : Forall2 (λ row _, length row = block_size) rates ks) :
  ((compute_local_probabilistic_stats block_size outputs (Some rates) weights).1 ==
     Qsum (zip_with Qmult (zip_with (λ row k, 1 + expected_accepted (take k row)) rates ks) weights))%Q.
Proof.
  unfold compute_local_probabilistic_stats, gmap2, float_mask, gmap1. rewrite Hmask. cbn [fst].
  clear Hmask. revert weights Hks. induction Hrates as [|row k rates ks Hrow Hrates IH]; intros weights Hks; [done|].
  destruct weights as [|w weights]; [done|]. apply Forall_cons in Hks as [Hk Hks]. cbn.
  apply Qplus_comp; [|by apply IH]. apply Qmult_comp; [|done].
  unfold prefix_mask, qcumprod. rewrite sum_qcumprod, fmap_app, !fmap_replicate.
  rewrite expected_accepted_masked by lia. ring.
Qed.

(** ** Data-parallel training computes the single-process loss *)

Lemma gsum_app x y : (gsum (x ++ y) == gsum x + gsum y)%Q.
Proof. unfold gsum. by rewrite concat_app, Qsum_app. Qed.

Lemma gmap2_app {A B C} (f : A → B → C) x x' y y' :
  length x = length y → gmap2 f (x ++ x') (y ++ y') = gmap2 f x y ++ gmap2 f x' y'.
Proof. intros Hl. unfold gmap2. by apply zip_with_app. Qed.

Lemma length_gmap2 {A B C} (f : A → B → C) x y : length x = length y → length (gmap2 f x y) = length x.
Proof. intros Hl. unfold gmap2. rewrite length_zip_with. lia. Qed.

(** All tensors of an output have the same blocks and positions. *)
Record output_ok (block_size : nat) (o : MySpecForwardOutput) : Prop := {
  ok_logits : Forall (λ row : rows, length row = block_size) (draft_logits o);
  ok_mask : Forall2 (λ (m : list bool) (_ : rows), length m = block_size) (eval_mask o) (draft_logits o);
  ok_targets : Forall2 (λ (t : list nat) (_ : rows), length t = block_size) (target_ids o) (draft_logits o);
  ok_keep : length (block_keep_mask o) = length (draft_logits o);
  ok_conf p : confidence_pred o = Some p → length p = length (draft_logits o);
  ok_aligned a : aligned_target_logits o = Some a → length a = length (draft_logits o);
}.

Definition merge_option {A} (x y : option (list A)) : option (list A) :=
  match x, y with Some x, Some y => Some (x ++ y) | _, _ => None end.

(** The blocks of two ranks in one batch. *)
Definition merge (o1 o2 : MySpecForwardOutput) : MySpecForwardOutput :=
  {| draft_logits := draft_logits o1 ++ draft_logits o2;
     target_ids := target_ids o1 ++ target_ids o2;
     eval_mask := eval_mask o1 ++ eval_mask o2;
     block_keep_mask := block_keep_mask o1 ++ block_keep_mask o2;
     confidence_pred := merge_option (confidence_pred o1) (confidence_pred o2);
     aligned_target_logits := merge_option (aligned_target_logits o1) (aligned_target_logits o2) |}.

(** Ranks run the same model: the optional outputs are present on all or none. *)
Definition same_heads (o1 o2 : MySpecForwardOutput) : Prop :=
  (confidence_pred o1 = None ↔ confidence_pred o2 = None) ∧
  (aligned_target_logits o1 = None ↔ aligned_target_logits o2 = None).

(** Loss terms up to [==], and their sum. *)
Definition terms_equiv (x y : LossTerms) : Prop :=
  (ce_loss_num x == ce_loss_num y)%Q ∧ (ce_loss_den x == ce_loss_den y)%Q ∧
  (l1_loss_num x == l1_loss_num y)%Q ∧ (l1_loss_den x == l1_loss_den y)%Q ∧
  (confidence_loss_num x == confidence_loss_num y)%Q ∧ (confidence_loss_den x == confidence_loss_den y)%Q.
#[export] Instance terms_equiv_equivalence : Equivalence terms_equiv.
Proof.
  split; [by repeat split| |].
  - intros x y (?&?&?&?&?&?). repeat split; by symmetry.
  - intros x y z (?&?&?&?&?&?) (?&?&?&?&?&?). repeat split; by etransitivity.
Qed.

Definition terms_add (x y : LossTerms) : LossTerms :=
  mkTerms (ce_loss_num x + ce_loss_num y) (ce_loss_den x + ce_loss_den y) (l1_loss_num x + l1_loss_num y)
    (l1_loss_den x + l1_loss_den y) (confidence_loss_num x + confidence_loss_num y)
    (confidence_loss_den x + confidence_loss_den y).
#[export] Instance terms_add_proper : Proper (terms_equiv ==> terms_equiv ==> terms_equiv) terms_add.
Proof.
  intros x x' (Ha&Hb&Hc&Hd&He&Hf) y y' (Ha'&Hb'&Hc'&Hd'&He'&Hf').
  repeat split; cbn; by apply Qplus_comp.
Qed.

Lemma mapM_Ok_app {A B} (f : A → result B) l k x y :
  mapM f l = Ok x → mapM f k = Ok y → mapM f (l ++ k) = Ok (x ++ y).
Proof.
  revert x. induction l as [|a l IH]; intros x Hl Hk; cbn in Hl; inv_ok; [done|].
  cbn. rewrite H. cbn. by rewrite (IH _ H0 Hk).
Qed.

Lemma Qsum_zip_app (x x' y y' : list Q) :
  length x = length y →
  (Qsum (zip_with Qmult (x ++ x') (y ++ y')) == Qsum (zip_with Qmult x y) + Qsum (zip_with Qmult x' y'))%Q.
Proof. intros Hl. by rewrite zip_with_app, Qsum_app. Qed.

Lemma length_concat_rows {A} bs (x : list (list A)) :
  Forall (λ row, length row = bs) x → length (concat x) = length x * bs.
Proof. induction 1 as [|row x Hr _ IH]; cbn; [done|]. rewrite length_app, IH, Hr. lia. Qed.

Section merge.
Context `{TorchLoss} (bs : nat) (gamma : option Q).
Notation W o := (build_loss_weight_mask bs (eval_mask o) gamma).

Lemma weights_merge o1 o2 : W (merge o1 o2) = W o1 ++ W o2.
Proof.
  unfold build_loss_weight_mask, float_mask, gmap1. cbn. rewrite !fmap_app.
  destruct gamma as [g|]; [|done]. destruct (Qltb 0 g); [|done]. by rewrite !fmap_app.
Qed.

Lemma weights_rows o : output_ok bs o → Forall (λ row, length row = bs) (W o) ∧ length (W o) = length (draft_logits o).
Proof.
  intros [_ Hm _ _ _ _]. assert (Hf : Forall (λ row, length row = bs) (float_mask (eval_mask o)) ∧
    length (float_mask (eval_mask o)) = length (draft_logits o)).
  { unfold float_mask, gmap1. rewrite length_fmap, (Forall2_length _ _ _ Hm). split; [|done].
    apply Forall_fmap, (Forall2_Forall_l _ _ _ _ Hm). apply Forall_true. intros row r Hr. cbn. by rewrite length_fmap. }
  unfold build_loss_weight_mask. destruct gamma as [g|]; [|done]. destruct (Qltb 0 g); [|done].
  rewrite length_fmap. split; [|apply Hf]. apply Forall_fmap. eapply Forall_impl; [apply Hf|].
  intros row Hr. cbn beta in Hr. cbn. rewrite length_zip_with, length_fmap, length_seq. lia.
Qed.

Lemma flat_weights_length o : output_ok bs o → length (concat (W o)) = length (concat (draft_logits o)).
Proof.
  intros Ho. destruct (weights_rows o Ho) as [Hr Hl].
  rewrite (length_concat_rows bs _ Hr), (length_concat_rows bs _ (ok_logits _ _ Ho)). lia.
Qed.

Lemma accept_rate_merge o1 o2 :
  output_ok bs o1 → output_ok bs o2 → same_heads o1 o2 →
  compute_accept_rate_3d (merge o1 o2) (aligned_target_logits (merge o1 o2)) =
    merge_option (compute_accept_rate_3d o1 (aligned_target_logits o1))
                 (compute_accept_rate_3d o2 (aligned_target_logits o2)).
Proof.
  intros H1 H2 _. cbn. pose proof (ok_aligned _ _ H1) as A1.
  destruct (aligned_target_logits o1) as [a1|], (aligned_target_logits o2) as [a2|]; cbn; try done.
  rewrite gmap2_app; [done|]. by rewrite (A1 a1).
Qed.

Lemma l1_term_merge o1 o2 :
  output_ok bs o1 → output_ok bs o2 → same_heads o1 o2 →
  let l o := compute_local_l1_term o (aligned_target_logits o) (W o) in
  ((l (merge o1 o2)).1 == (l o1).1 + (l o2).1)%Q ∧ ((l (merge o1 o2)).2 == (l o1).2 + (l o2).2)%Q.
Proof.
  intros H1 H2 [_ Hs]. cbv beta zeta. rewrite weights_merge. cbn. pose proof (ok_aligned _ _ H1) as A1.
  destruct (weights_rows o1 H1) as [_ HW].
  destruct (aligned_target_logits o1) as [a1|], (aligned_target_logits o2) as [a2|]; cbn; try (split; ring).
  - specialize (A1 a1 eq_refl). rewrite gmap2_app by done.
    rewrite gmap2_app by (rewrite length_gmap2; lia). by rewrite !gsum_app.
  - destruct Hs as [_ Hs]. by specialize (Hs eq_refl).
  - destruct Hs as [Hs _]. by specialize (Hs eq_refl).
Qed.

Lemma confidence_merge o1 o2 c1 c2 :
  let a o := compute_accept_rate_3d o (aligned_target_logits o) in
  output_ok bs o1 → output_ok bs o2 → same_heads o1 o2 →
  confidence_terms o1 (a o1) (W o1) = Ok c1 → confidence_terms o2 (a o2) (W o2) = Ok c2 →
  ∃ c, confidence_terms (merge o1 o2) (a (merge o1 o2)) (W (merge o1 o2)) = Ok c ∧
    (conf_loss_num c == conf_loss_num c1 + conf_loss_num c2)%Q ∧
    (conf_loss_den c == conf_loss_den c1 + conf_loss_den c2)%Q.
Proof.
  cbv beta zeta. intros H1 H2 Hh. rewrite weights_merge, accept_rate_merge by done. destruct Hh as [[Hc Hc'] _].
  destruct (weights_rows o1 H1) as [_ HW]. pose proof (ok_conf _ _ H1) as P1. pose proof (ok_aligned _ _ H1) as A1.
  unfold confidence_terms, compute_accept_rate_3d. cbn.
  destruct (confidence_pred o1) as [p1|], (confidence_pred o2) as [p2|]; cbn;
    try (by specialize (Hc eq_refl)); try (by specialize (Hc' eq_refl)).
  - destruct (aligned_target_logits o1) as [a1|]; [|done]. destruct (aligned_target_logits o2) as [a2|]; [|done].
    cbn. intros [= <-] [= <-]. eexists. split; [reflexivity|]. cbn. specialize (P1 p1 eq_refl). specialize (A1 a1 eq_refl).
    rewrite !gmap2_app by (rewrite ?length_gmap2; rewrite ?length_gmap2; lia). by rewrite !gsum_app.
  - intros [= <-] [= <-]. eexists. split; [reflexivity|]. by cbn.
Qed.

Definition row_losses (o : MySpecForwardOutput) : result (list Q) :=
  mapM (λ '(row, t), cross_entropy row t) (zip (concat (draft_logits o)) (concat (target_ids o))).

Lemma row_losses_merge o1 o2 x y :
  length (concat (draft_logits o1)) = length (concat (target_ids o1)) →
  row_losses o1 = Ok x → row_losses o2 = Ok y → row_losses (merge o1 o2) = Ok (x ++ y).
Proof.
  unfold row_losses. cbn. intros Hl H1 H2. rewrite !concat_app.
  change (zip (?a ++ ?b) (?c ++ ?d)) with (zip_with pair (a ++ b) (c ++ d)).
  rewrite zip_with_app by done. by apply mapM_Ok_app.
Qed.

(** What [local_terms] computes. *)
Definition losses_of (o : MySpecForwardOutput) (alpha : Q) (ce : list Q) (conf : ConfidenceTerms) : LossTerms :=
  let l1 := if Qltb 0 alpha then compute_local_l1_term o (aligned_target_logits o) (W o) else (0, 0)%Q in
  mkTerms (Qsum (zip_with Qmult ce (concat (W o)))) (gsum (W o)) l1.1 l1.2 (conf_loss_num conf) (conf_loss_den conf).

Definition local_runs (o : MySpecForwardOutput) (alpha : Q) (ce : list Q) (conf : ConfidenceTerms) : Prop :=
  length (concat (draft_logits o)) = length (concat (target_ids o)) ∧ row_losses o = Ok ce ∧
  Qle_bool alpha 0 || bool_decide (aligned_target_logits o ≠ None) = true ∧
  confidence_terms o (compute_accept_rate_3d o (aligned_target_logits o)) (W o) = Ok conf.

Lemma local_terms_inv o alpha t :
  local_terms bs o gamma alpha = Ok t →
  ∃ ce conf, local_runs o alpha ce conf ∧ local_losses t = losses_of o alpha ce conf.
Proof.
  unfold local_terms, local_runs, losses_of, row_losses. intros Ht. inv_ok. b2p.
  destruct (if Qltb 0 alpha then _ else _) as [l1n l1d].
  destruct (compute_local_probabilistic_stats _ _ _ _) as [tau pos]. inv_ok. cbn. eauto 10.
Qed.

Lemma local_terms_intro o alpha ce conf :
  local_runs o alpha ce conf →
  ∃ t, local_terms bs o gamma alpha = Ok t ∧ local_losses t = losses_of o alpha ce conf.
Proof.
  unfold local_terms, local_runs, losses_of, row_losses. intros (Hl & Hce & Ha & Hc).
  rewrite (proj2 (Nat.eqb_eq _ _) Hl). cbn [py_check mbind result_bind]. rewrite Hce. cbn [mbind result_bind].
  unfold py_assert. rewrite Ha. cbn [py_check mbind result_bind].
  destruct (if Qltb 0 alpha then _ else _) as [l1n l1d].
  destruct (compute_local_probabilistic_stats _ _ _ _) as [tau pos]. rewrite Hc. cbn. eauto.
Qed.

Lemma local_terms_merge alpha o1 o2 t1 t2 :
  output_ok bs o1 → output_ok bs o2 → same_heads o1 o2 →
  local_terms bs o1 gamma alpha = Ok t1 → local_terms bs o2 gamma alpha = Ok t2 →
  ∃ t, local_terms bs (merge o1 o2) gamma alpha = Ok t ∧
    terms_equiv (local_losses t) (terms_add (local_losses t1) (local_losses t2)).
Proof.
  intros H1 H2 Hh Ht1 Ht2.
  apply local_terms_inv in Ht1 as (ce1 & c1 & (L1 & R1 & B1 & C1) & ->).
  apply local_terms_inv in Ht2 as (ce2 & c2 & (L2 & R2 & B2 & C2) & ->).
  destruct (confidence_merge o1 o2 c1 c2 H1 H2 Hh C1 C2) as (c & C & Hn & Hd).
  destruct (local_terms_intro (merge o1 o2) alpha (ce1 ++ ce2) c) as (t & Ht & Hlt).
  - split_and!; [cbn; rewrite !concat_app, !length_app; lia|by apply row_losses_merge| |exact C].
    destruct (Qle_bool alpha 0); [done|]. cbn in B1, B2 |- *. b2p. apply bool_decide_eq_true.
    by destruct (aligned_target_logits o1), (aligned_target_logits o2).
  - exists t. split; [done|]. rewrite Hlt. unfold losses_of, terms_equiv, terms_add. cbn [ce_loss_num ce_loss_den
      l1_loss_num l1_loss_den confidence_loss_num confidence_loss_den].
    destruct (l1_term_merge o1 o2 H1 H2 Hh) as [Hl1 Hl2].
    split; [|split; [|split; [|split; [|split; [exact Hn|exact Hd]]]]].
    + rewrite weights_merge, concat_app. apply Qsum_zip_app. rewrite (flat_weights_length o1 H1).
      unfold row_losses in R1. apply mapM_Ok_length in R1. rewrite R1, length_zip_with. lia.
    + by rewrite weights_merge, gsum_app.
    + destruct (Qltb 0 alpha); [exact Hl1|reflexivity].
    + destruct (Qltb 0 alpha); [exact Hl2|reflexivity].
Qed.
End merge.

Definition merge_all (o : MySpecForwardOutput) (os : list MySpecForwardOutput) : MySpecForwardOutput := foldl merge o os.

Lemma merge_option_length {A} (x y : option (list A)) z nx ny :
  (∀ l, x = Some l → length l = nx) → (∀ l, y = Some l → length l = ny) →
  merge_option x y = Some z → length z = nx + ny.
Proof. destruct x, y; cbn; try done. intros Hx Hy [= <-]. rewrite length_app, (Hx _ eq_refl), (Hy _ eq_refl). done. Qed.

Lemma output_ok_merge bs o1 o2 : output_ok bs o1 → output_ok bs o2 → output_ok bs (merge o1 o2).
Proof.
  intros [] []. split; cbn.
  - by apply Forall_app.
  - by apply Forall2_app.
  - by apply Forall2_app.
  - rewrite !length_app. lia.
  - intros p Hp. rewrite length_app. by eapply merge_option_length.
  - intros p Hp. rewrite length_app. by eapply merge_option_length.
Qed.

Lemma same_heads_merge o1 o2 o : same_heads o1 o2 → same_heads o1 o → same_heads (merge o1 o2) o.
Proof.
  unfold same_heads. cbn. unfold merge_option. intros [? ?] [? ?].
  destruct (confidence_pred o1), (confidence_pred o2), (aligned_target_logits o1), (aligned_target_logits o2); naive_solver.
Qed.

Lemma local_terms_merge_all `{TorchLoss} bs gamma alpha os ts o0 t0 :
  output_ok bs o0 → Forall (output_ok bs) os → Forall (same_heads o0) os →
  local_terms bs o0 gamma alpha = Ok t0 → Forall2 (λ o t, local_terms bs o gamma alpha = Ok t) os ts →
  ∃ t, local_terms bs (merge_all o0 os) gamma alpha = Ok t ∧
    terms_equiv (local_losses t) (foldl terms_add (local_losses t0) (local_losses <$> ts)).
Proof.
  intros H0 Hos Hh Ht0 Hts.
  enough (Hgen : ∀ o0 t0 x, output_ok bs o0 → Forall (same_heads o0) os → local_terms bs o0 gamma alpha = Ok t0 →
    terms_equiv (local_losses t0) x → ∃ t, local_terms bs (merge_all o0 os) gamma alpha = Ok t ∧
      terms_equiv (local_losses t) (foldl terms_add x (local_losses <$> ts))) by (by eapply Hgen).
  clear o0 t0 H0 Hh Ht0. induction Hts as [|o t os ts Ht Hts IH]; intros o0 t0 x H0 Hh Ht0 Hx; cbn.
  - by exists t0.
  - apply Forall_cons in Hos as [Ho Hos]. apply Forall_cons in Hh as [Hh0 Hh].
    destruct (local_terms_merge bs gamma alpha o0 o t0 t H0 Ho Hh0 Ht0 Ht) as (t' & Ht' & Heq).
    apply (IH Hos (merge o0 o) t'); [by apply output_ok_merge| |done|].
    + eapply Forall_impl; [exact Hh|]. intros o' Ho'. by apply same_heads_merge.
    + by rewrite Heq, Hx.
Qed.

Lemma foldl_terms_key (key : LossTerms → Q) x xs :
  (∀ a b, key (terms_add a b) = (key a + key b)%Q) →
  (key (foldl terms_add x xs) == Qsum (key <$> x :: xs))%Q.
Proof.
  intros Hk. revert x. induction xs as [|y xs IH]; intros x; cbn [foldl].
  - rewrite fmap_cons, Qsum_cons, fmap_nil, Qsum_nil. ring.
  - rewrite IH, !fmap_cons, !Qsum_cons, Hk. ring.
Qed.

#[export] Instance Qltb_proper : Proper (Qeq ==> Qeq ==> eq) Qltb.
Proof. intros x x' Hx y y' Hy. apply eq_true_iff_eq. by rewrite !Qltb_lt, Hx, Hy. Qed.

(** The weighted loss with the denominators of the merged batch. *)
Lemma weighted_loss_linear ts dens l1_active hc a b c :
  (Qsum ((λ t, weighted_loss t dens l1_active hc a b c) <$> ts) ==
   weighted_loss (mkTerms (Qsum (ce_loss_num <$> ts)) 0 (Qsum (l1_loss_num <$> ts)) 0
                    (Qsum (confidence_loss_num <$> ts)) 0) dens l1_active hc a b c)%Q.
Proof.
  unfold weighted_loss. cbn. induction ts as [|t ts IH].
  - rewrite !fmap_nil, !Qsum_nil. unfold Qdiv. destruct l1_active, hc; ring.
  - rewrite !fmap_cons, !Qsum_cons, IH. unfold Qdiv. destruct l1_active, hc; ring.
Qed.

Definition dens_equiv (x y : Denominators) : Prop :=
  (ce_den x == ce_den y)%Q ∧ (l1_den x == l1_den y)%Q ∧ (confidence_den x == confidence_den y)%Q.

Lemma weighted_loss_equiv x y d d' l1_active hc a b c :
  (ce_loss_num x == ce_loss_num y)%Q → (l1_loss_num x == l1_loss_num y)%Q →
  (confidence_loss_num x == confidence_loss_num y)%Q → dens_equiv d d' →
  (weighted_loss x d l1_active hc a b c == weighted_loss y d' l1_active hc a b c)%Q.
Proof.
  intros H1 H2 H3 (D1 & D2 & D3). unfold weighted_loss. destruct l1_active, hc; rewrite H1, ?H2, ?H3, D1, ?D2, ?D3; reflexivity.
Qed.

(** The denominators every rank divides by are the sums over the ranks. *)
Lemma all_reduce_sums world t : t ∈ world →
  dens_equiv (all_reduce_loss_denominators world t)
    (mkDens (Qsum (ce_loss_den <$> world)) (Qsum (l1_loss_den <$> world)) (Qsum (confidence_loss_den <$> world))).
Proof.
  intros Ht. unfold all_reduce_loss_denominators, dens_equiv. cbv zeta. cbn [ce_den l1_den confidence_den]. destruct (1 <? length world) eqn:E; [by repeat split|].
  b2p. destruct world as [|t1 [|t2 world]]; [by apply not_elem_of_nil in Ht| |cbn in E; lia].
  apply list_elem_of_singleton in Ht as ->. unfold Qsum. cbn. split_and!; ring.
Qed.

Lemma compute_loss_value `{TorchLoss} bs world o m gamma ca la cf l m' t :
  local_terms bs o gamma la = Ok t → local_losses t ∈ world →
  compute_myspec_loss bs world o gamma ca la cf m = Ok (l, m') →
  let d := mkDens (Qsum (ce_loss_den <$> world)) (Qsum (l1_loss_den <$> world)) (Qsum (confidence_loss_den <$> world)) in
  (l == weighted_loss (local_losses t) d (Qltb 0 (l1_den d)) (has_confidence o) ca la cf * Qn (length world))%Q.
Proof.
  intros Ht Hw Hc. unfold compute_myspec_loss, collect_local_terms in Hc. rewrite Ht in Hc. cbn [mbind result_bind] in Hc.
  inv_ok. cbv zeta. unfold build_loss. destruct (all_reduce_sums world _ Hw) as (D1 & D2 & D3).
  apply Qmult_comp; [|done]. rewrite D2. by apply weighted_loss_equiv.
Qed.

Lemma training_step_terms `{TorchLoss} bs (ranks : list (MySpecForwardOutput * Metrics)) gamma ca la cf results :
  training_step bs ranks gamma ca la cf = Ok results →
  ∃ ts, Forall2 (λ o t, local_terms bs o gamma la = Ok t) ranks.*1 ts ∧
    Forall2 (λ r x, compute_myspec_loss bs (local_losses <$> ts) r.1 gamma ca la cf r.2 = Ok x) ranks results.
Proof.
  unfold training_step. intros Hr. apply result_bind_Ok in Hr as (world & Hw & Hr).
  apply mapM_Ok_Forall2 in Hw, Hr.
  enough (∃ ts, world = local_losses <$> ts ∧ Forall2 (λ o t, local_terms bs o gamma la = Ok t) ranks.*1 ts) as (ts & -> & Hts) by eauto.
  clear Hr. induction Hw as [|[o m] l ranks world Ho Hw (ts & -> & Hts)]; [by exists []|].
  cbn in Ho. inv_ok. exists (x :: ts). split; [done|]. by constructor.
Qed.

Lemma training_step_sum `{TorchLoss} bs (ranks : list (MySpecForwardOutput * Metrics)) gamma ca la cf results ts hc d n :
  Forall2 (λ o t, local_terms bs o gamma la = Ok t) ranks.*1 ts →
  Forall2 (λ r x, ∀ t, local_terms bs r.1 gamma la = Ok t →
    (x.1 == weighted_loss (local_losses t) d (Qltb 0 (l1_den d)) hc ca la cf * n)%Q) ranks (results : list (Q * Metrics)) →
  (Qsum results.*1 == Qsum ((λ t, weighted_loss t d (Qltb 0 (l1_den d)) hc ca la cf) <$> (local_losses <$> ts)) * n)%Q.
Proof.
  intros Hts Hr. revert ts Hts. induction Hr as [|r x ranks results Hx Hr IH]; intros ts Hts; cbn in Hts.
  - apply Forall2_nil_inv_l in Hts as ->. rewrite !fmap_nil, Qsum_nil. change (0 == 0 * n)%Q. ring.
  - apply Forall2_cons_inv_l in Hts as (t & ts' & Ht & Hts & ->).
    rewrite !fmap_cons, !Qsum_cons, (IH _ Hts), (Hx t Ht). ring.
Qed.

(** The merged batch has the summed numerators and denominators. *)
Lemma merged_sums t x xs :
  terms_equiv t (foldl terms_add x xs) →
  let w := x :: xs in
  (ce_loss_num t == Qsum (ce_loss_num <$> w))%Q ∧ (l1_loss_num t == Qsum (l1_loss_num <$> w))%Q ∧
  (confidence_loss_num t == Qsum (confidence_loss_num <$> w))%Q ∧
  dens_equiv (all_reduce_loss_denominators [t] t)
    (mkDens (Qsum (ce_loss_den <$> w)) (Qsum (l1_loss_den <$> w)) (Qsum (confidence_loss_den <$> w))).
Proof.
  intros (N1 & D1 & N2 & D2 & N3 & D3). cbv zeta.
  rewrite foldl_terms_key in N1, D1, N2, D2, N3, D3 by done. by repeat split.
Qed.

Lemma same_heads_confidence o1 o2 : same_heads o1 o2 → has_confidence o2 = has_confidence o1.
Proof. intros [Hc _]. unfold has_confidence. apply bool_decide_ext. tauto. Qed.

(** The mean over the ranks, as a weighted loss of the summed terms. *)
Lemma training_step_mean `{TorchLoss} bs (ranks : list (MySpecForwardOutput * Metrics)) gamma ca la cf results ts hc :
  ranks ≠ [] → Forall (λ r, has_confidence r.1 = hc) ranks →
  Forall2 (λ o t, local_terms bs o gamma la = Ok t) ranks.*1 ts →
  Forall2 (λ r x, compute_myspec_loss bs (local_losses <$> ts) r.1 gamma ca la cf r.2 = Ok x) ranks results →
  let w := local_losses <$> ts in
  let d := mkDens (Qsum (ce_loss_den <$> w)) (Qsum (l1_loss_den <$> w)) (Qsum (confidence_loss_den <$> w)) in
  (Qsum results.*1 / Qn (length results) ==
     Qsum ((λ t, weighted_loss t d (Qltb 0 (l1_den d)) hc ca la cf) <$> w))%Q.
Proof.
  intros Hne Hhc Hts Hres w d. pose proof (Forall2_length _ _ _ Hres) as Hl.
  assert (Hlw : length w = length results).
  { unfold w. rewrite length_fmap, <- (Forall2_length _ _ _ Hts), length_fmap. done. }
  assert (Hn : (0 < Qn (length results))%Q) by (apply Qn_pos; rewrite <- Hl; destruct ranks; [done|cbn; lia]).
  rewrite (training_step_sum bs ranks gamma ca la cf results ts hc d (Qn (length results)) Hts).
  { apply Qdiv_mult_l. intros E. rewrite E in Hn. by apply Qlt_irrefl in Hn. }
  apply Forall2_same_length_lookup. split; [done|]. intros i r [l m'] Hr Hx t Ht. cbn [fst].
  rewrite Forall_lookup in Hhc. rewrite <- (Hhc i r Hr), <- Hlw.
  assert (Hrx := Forall2_lookup_lr _ _ _ _ _ _ Hres Hr Hx). cbn beta in Hrx.
  assert (Hri : ranks.*1 !! i = Some r.1) by (by rewrite list_lookup_fmap, Hr).
  destruct (Forall2_lookup_l _ _ _ _ _ Hts Hri) as (t' & Ht'i & Ht'). cbn beta in Ht'.
  assert (t' = t) as -> by congruence.
  refine (compute_loss_value bs w r.1 r.2 gamma ca la cf l m' t Ht _ Hrx).
  unfold w. apply list_elem_of_fmap. exists t. split; [done|]. by eapply list_elem_of_lookup_2.
Qed.

(** C35: data-parallel training computes the single-process loss: the mean over the ranks of
    the returned losses (what averaging the gradients differentiates) is the loss of one
    process holding the blocks of all ranks. *)
Theorem data_parallel_loss `{TorchLoss} (bs : nat) (o0 : MySpecForwardOutput) (m0 : Metrics)
    (rest : list (MySpecForwardOutput * Metrics)) (gamma : option Q) (ca la cf : Q) (results : list (Q * Metrics))
    (Hok : Forall (output_ok bs) (o0 :: rest.*1))
    (Hheads : Forall (same_heads o0) rest.*1)
    (Hrun : training_step bs ((o0, m0) :: rest) gamma ca la cf = Ok results) :
  ∃ t, local_terms bs (merge_all o0 rest.*1) gamma la = Ok t ∧
    let single := all_reduce_loss_denominators [local_losses t] (local_losses t) in
    (Qsum results.*1 / Qn (length results) ==
       build_loss (local_losses t) single ca la cf (has_confidence o0) 1)%Q.
Proof.
  destruct (training_step_terms _ _ _ _ _ _ _ Hrun) as (ts & Hts & Hres).
  assert (Hhc : Forall (λ r : MySpecForwardOutput * Metrics, has_confidence r.1 = has_confidence o0) ((o0, m0) :: rest)).
  { constructor; [done|]. apply Forall_lookup. intros i r Hi. apply same_heads_confidence.
    rewrite Forall_lookup in Hheads. apply (Hheads i). by rewrite list_lookup_fmap, Hi. }
  pose proof (training_step_mean bs ((o0, m0) :: rest) gamma ca la cf results ts _ ltac:(done) Hhc Hts Hres) as Hmean.
  cbn [fmap list_fmap fst] in Hts. apply Forall2_cons_inv_l in Hts as (t0 & ts' & Ht0 & Hts & ->).
  apply Forall_cons in Hok as [Hok0 Hok].
  destruct (local_terms_merge_all bs gamma la rest.*1 ts' o0 t0 Hok0 Hok Hheads Ht0 Hts) as (t & Ht & Heq).
  exists t. split; [exact Ht|]. cbv zeta in Hmean |- *. rewrite Hmean, weighted_loss_linear.
  destruct (merged_sums _ _ _ Heq) as (N1 & N2 & N3 & (D1 & D2 & D3)). unfold build_loss. rewrite D2.
  change (inject_Z (Z.of_nat 1)) with 1%Q. rewrite Qmult_1_r. symmetry. by apply weighted_loss_equiv.
Qed.

(** ** Concrete instances *)

(** A zero-temperature softmax and simple pointwise losses. *)
Module TinyLoss.
Definition hard_softmax (l : list Q) : list Q := one_hot (length l) (argmax l).
#[export] Instance tiny_loss : TorchLoss := {|
  torch_softmax := hard_softmax;
  cross_entropy row t := match row !! t with Some x => Ok (1 - x)%Q | None => Raise IndexError end;
  bce_with_logits x y := ((x - y) * (x - y))%Q;
  loss_sigmoid x := x;
  torch_exp x := (1 + x / 8)%Q;
|}.

Lemma one_hot_sum n i : i < n → (Qsum (one_hot n i) == 1)%Q.
Proof.
  intros Hi. unfold one_hot. rewrite <- (Qsum_indicator n i (λ _, 1%Q) Hi). apply Qsum_fmap_ext, Forall_true.
  intros j. destruct (j =? i); reflexivity.
Qed.

#[export] Instance tiny_softmax_laws : SoftmaxLaws.
Proof.
  split; intros l; cbn; unfold hard_softmax.
  - apply length_one_hot.
  - apply one_hot_nonneg.
  - intros Hl. apply one_hot_sum, argmax_lt. by destruct l; cbn; [|lia].
Qed.

(** One block of two positions; the second position may be masked. *)
Definition output (masked : bool) : MySpecForwardOutput :=
  {| draft_logits := [[[1; 0]; [0; 1]]]%Q; target_ids := [[0; 0]]; eval_mask := [[true; negb masked]];
     block_keep_mask := [true]; confidence_pred := Some [[1 # 2; 1 # 4]]%Q;
     aligned_target_logits := Some [[[1; 0]; [2; 1]]]%Q |}.
Definition ranks : list (MySpecForwardOutput * Metrics) := [(output false, ∅); (output true, ∅)].
Definition step_results : list (Q * Metrics) :=
  match training_step 2 ranks (Some 1%Q) (1 # 10) (9 # 10) 1 with Ok r => r | Raise _ => [] end.
End TinyLoss.
Import TinyLoss.

Lemma accept_rate_is_acceptance_probability_witness :
  (accept_rate_of [1; 0] [0; 1] == 1 - (1 # 2) * l1_dist [1; 0] [0; 1])%Q ∧
  (accept_rate_of [1; 0] [0; 1] ==
     Qsum (zip_with (λ p q, q * accept_prob p q) (torch_softmax [0; 1]) (torch_softmax [1; 0])))%Q.
Proof.
  apply (accept_rate_is_acceptance_probability [1; 0]%Q [0; 1]%Q); [done|done|].
  change (Forall unclamped [1; 0]%Q). rewrite !Forall_cons. split_and!; [right; lra|left; reflexivity|constructor].
Defined.

Lemma tau_is_expected_tokens_witness :
  ((compute_local_probabilistic_stats 2 (output true) (Some [[1 # 2; 1]]%Q) [1%Q]).1 ==
     Qsum (zip_with Qmult (zip_with (λ row k, 1 + expected_accepted (take k row)) [[1 # 2; 1]]%Q [1%nat]) [1]))%Q.
Proof.
  apply (tau_is_expected_tokens 2 (output true) [[1 # 2; 1]]%Q [1%Q] [1]).
  - reflexivity.
  - constructor; [lia|constructor].
  - constructor; [done|constructor].
Defined.

Lemma data_parallel_loss_witness :
  length step_results = 2 ∧
  ∃ t, local_terms 2 (merge_all (output false) [output true]) (Some 1%Q) (9 # 10) = Ok t ∧
    let single := all_reduce_loss_denominators [local_losses t] (local_losses t) in
    (Qsum step_results.*1 / Qn (length step_results) ==
       build_loss (local_losses t) single (1 # 10) (9 # 10) 1 (has_confidence (output false)) 1)%Q.
Proof.
  split; [vm_compute; reflexivity|].
  apply (data_parallel_loss 2 (output false) ∅ [(output true, ∅)] (Some 1%Q) (1 # 10) (9 # 10) 1 step_results).
  - assert (Hok : ∀ b, output_ok 2 (output b)).
    { intros b. split; cbn; try (by repeat constructor); naive_solver. }
    constructor; [apply Hok|]. constructor; [apply Hok|constructor].
  - constructor; [|constructor]. split; done.
  - vm_compute; reflexivity.
Defined.
