(* ===== verification/DraftOps.v ===== *)
(** * DraftOps: the MySpec draft algorithm of the evaluator

    Models [DeepSpec/deepspec/eval/myspec/draft_ops.py] and the callbacks of
    [Qwen3MySpecEvaluator] ([eval/myspec/evaluator.py]) with
    [ConfidenceHeadRecorder.observe] ([eval/myspec/confidence_head.py]), packaged as
    a [DraftAlgorithm]; [myspec_generate_lossless] uses that it meets [DraftContract], so that the greedy
    losslessness of the decoding loop holds for the MySpec evaluator itself. *)

From S2P Require Import Prelude Sampling SpecDecode SpecDecodeProps Markov Anchors MySpecModel Confidence.
#[local] Open Scope nat_scope.

Record MySpecDraftProposal := {
  base_proposal : DraftProposal;
  confidence_logits : option (list Q)
}.

Definition set_first (l : list nat) (x : nat) : result (list nat) :=
  _ ← py_check IndexError (0 <? length l); Ok (<[0:=x]> l).

(** Position ids of the draft block's keys beyond the draft cache. *)
Definition latent_position_ids_at (num_latent_tokens : nat) (position_ids : list nat) (cache_len start : nat)
  : list nat :=
  position_ids.[cache_len, start] ++ position_ids.[start, start + num_latent_tokens].
Definition mask_position_ids_at (num_latent_tokens : nat) (position_ids : list nat) (cache_len start block : nat)
  : list nat :=
  position_ids.[cache_len, start] ++ position_ids.[start, start + num_latent_tokens] ++
  position_ids.[start, start + block].

(** [forward_myspec_draft_block], over any type of hidden row. *)
Definition draft_block {Row KV : Type} `{!DynamicCache KV} (embed_tokens : nat → Row) (num_latent_tokens : nat)
    (forward_backbone : list Row → list nat → option BlockMask → list nat → option BlockMask →
                        list Row → list Row → option KV → list Row * option KV)
    (draft_latent_input_ids draft_input_ids position_ids : list nat)
    (past_key_values_draft : KV) (target_hidden_states : list Row) (start block : nat)
  : result (list Row * KV) :=
  _ ← py_assert (get_seq_length past_key_values_draft <=? start);
  let cache_len := get_seq_length past_key_values_draft in
  let '(block_hidden, past) :=
    forward_backbone (embed_tokens <$> draft_latent_input_ids)
      (latent_position_ids_at num_latent_tokens position_ids cache_len start) None
      (mask_position_ids_at num_latent_tokens position_ids cache_len start block) None
      (embed_tokens <$> draft_input_ids) target_hidden_states (Some past_key_values_draft) in
  match past with
  | Some past => Ok (block_hidden, crop_cache start past)
  | None => Raise RuntimeError
  end.

Section draft.
Context {KV PE RNG : Type} `{!DynamicCache KV, !TorchRandom RNG}.
Variable model : MySpecModel KV PE.
(** [torch.sigmoid]. *)
Variable torch_sigmoid : Q → Q.

Definition full_latent_position_ids : list nat → nat → nat → list nat :=
  latent_position_ids_at (num_latent_tokens model).
Definition full_mask_position_ids : list nat → nat → nat → nat → list nat :=
  mask_position_ids_at (num_latent_tokens model).

Definition forward_myspec_draft_block : list nat → list nat → list nat → KV → rows → nat → nat →
    result (rows * KV) :=
  draft_block (embed_tokens model) (num_latent_tokens model) (forward_backbone model).

Definition empty_myspec_proposal (draft_input_ids : list nat) : MySpecDraftProposal :=
  {| base_proposal := {| draft_token_count := 0; verify_input_ids := draft_input_ids.[0, 1];
                         draft_probs := None |};
     confidence_logits := None |}.

(** [confidence_pred.reshape(1, block, -1)[:, :, 0]]. *)
Definition first_per_slot (block : nat) (confidence_pred : list Q) : result (list Q) :=
  let m := length confidence_pred / block in
  _ ← py_check RuntimeError ((0 <? m) && (length confidence_pred =? block * m));
  mapM (λ i, py_index confidence_pred (i * m)) (seq 0 block).

Definition predict_confidence_logits (proposal_hidden_states : rows)
    (draft_input_ids sampled_tokens : list nat) (block : nat) : result (option (list Q)) :=
  let prev_token_ids := draft_input_ids.[0, 1] ++ sampled_tokens.[0, length sampled_tokens - 1] in
  confidence_pred ← predict_confidence_step model proposal_hidden_states (Some prev_token_ids);
  match confidence_pred with
  | None => Ok None
  | Some pred => c ← first_per_slot block pred; Ok (Some c)
  end.

Definition confident_prefix_length (confidence : list Q) (block : nat) (threshold : Q) : nat :=
  if Qle_bool threshold 0 then block
  else match find_index (λ x, Qltb (torch_sigmoid x) threshold) confidence with
       | None => block
       | Some k => k
       end.

(** Confidence logits and the number of draft tokens to propose; [None] is the
    early return of the empty proposal. *)
Definition confidence_phase (proposal_hidden_states : rows) (draft_input_ids sampled_tokens : list nat)
    (block : nat) (threshold : Q) : result (option (option (list Q) * nat)) :=
  match confidence_head model with
  | None => Ok (Some (None, block))
  | Some _ =>
      c ← predict_confidence_logits proposal_hidden_states draft_input_ids sampled_tokens block;
      match c with
      | None => Ok None
      | Some c => Ok (Some (Some c, confident_prefix_length c block threshold))
      end
  end.

Definition build_myspec_proposal (r : RNG) (draft_input_ids : list nat) (block_hidden : rows)
    (block : nat) (temperature confidence_threshold : Q) : result (MySpecDraftProposal * RNG) :=
  let proposal_hidden_states := take block block_hidden in
  let base_draft_logits := compute_logits model proposal_hidden_states in
  first_prev ← py_index draft_input_ids 0;
  '(sampled_tokens, draft_logits, r) ←
    sample_draft_tokens model r base_draft_logits first_prev temperature (Some proposal_hidden_states);
  conf ← confidence_phase proposal_hidden_states draft_input_ids sampled_tokens block confidence_threshold;
  match conf with
  | None => Ok (empty_myspec_proposal draft_input_ids, r)
  | Some (confidence, proposal_draft_tokens) =>
      if proposal_draft_tokens =? 0 then Ok (empty_myspec_proposal draft_input_ids, r)
      else
        let verify_ids := draft_input_ids.[0, 1] ++ take proposal_draft_tokens sampled_tokens in
        let probs := logits_to_probs (take proposal_draft_tokens draft_logits) temperature in
        Ok ({| base_proposal := {| draft_token_count := proposal_draft_tokens;
                                   verify_input_ids := verify_ids; draft_probs := Some probs |};
               confidence_logits := take proposal_draft_tokens <$> confidence |}, r)
  end.

(** ** The evaluator's callbacks *)

Notation H := (list rows).

(** [SimpleNamespace] of [_init_context]; [last_confidence] carries the confidence
    logits of the proposal object from [_propose] to [_post_verify], and
    [dataset_metrics] is the recorder's state. *)
Record EvalContext := {
  past_key_values_draft : KV;
  target_hidden_states : rows;
  last_confidence : option (list Q);
  dataset_metrics : option ConfidenceMetrics
}.

Variables (temperature confidence_threshold : Q).

Definition CONFIDENCE_NUM_BINS : nat := 20.
Definition CONFIDENCE_NUM_FINE_BINS : nat := 1000.

(** [_build_confidence_head_recorder] followed by [start()]. *)
Definition build_confidence_head_recorder : option ConfidenceMetrics :=
  match confidence_head model with
  | None => None
  | Some _ =>
      if Qeq_bool confidence_threshold 0
      then Some (new_metrics (block_size model) CONFIDENCE_NUM_BINS CONFIDENCE_NUM_FINE_BINS)
      else None
  end.

Variable recorder : option ConfidenceMetrics.

Definition _init_context (initial_output : TargetOutput H) (_ _ : list nat) (_ : nat)
  : result EvalContext :=
  feature ← extract_context_feature (hidden_states initial_output) (target_layer_ids model);
  Ok {| past_key_values_draft := new_cache; target_hidden_states := feature;
        last_confidence := None; dataset_metrics := recorder |}.

Definition _propose (context : EvalContext) (r : RNG) (output_ids position_ids : list nat)
    (start : nat) (_ : option (list nat)) : result (DraftProposal * EvalContext * RNG) :=
  let block := block_size model in
  current ← py_index output_ids start;
  draft_latent_input_ids ←
    set_first (replicate (num_latent_tokens model) (latent_token_id model)) current;
  draft_input_ids ← set_first (replicate block (mask_token_id model)) current;
  '(block_hidden, past) ←
    forward_myspec_draft_block draft_latent_input_ids draft_input_ids position_ids
      (past_key_values_draft context) (target_hidden_states context) start block;
  '(p, r) ←
    build_myspec_proposal r draft_input_ids block_hidden block temperature confidence_threshold;
  Ok (base_proposal p,
      {| past_key_values_draft := past; target_hidden_states := target_hidden_states context;
         last_confidence := confidence_logits p; dataset_metrics := dataset_metrics context |}, r).

Definition _update (context : EvalContext) (verification : VerificationResult H) : result EvalContext :=
  verified_target_hidden ←
    extract_context_feature (hidden_states (target_output verification)) (target_layer_ids model);
  Ok {| past_key_values_draft := past_key_values_draft context;
        target_hidden_states := take (accepted_draft_tokens verification + 1) verified_target_hidden;
        last_confidence := last_confidence context; dataset_metrics := dataset_metrics context |}.

(** [ConfidenceHeadRecorder.observe]. *)
Definition observe (m : ConfidenceMetrics) (proposal : MySpecDraftProposal)
    (verification : VerificationResult H) : result ConfidenceMetrics :=
  if draft_token_count (base_proposal proposal) =? 0 then Ok m else
  let effective_length := effective_proposal_length verification in
  if effective_length =? 0 then Ok m else
  match confidence_logits proposal, accept_prefix_mask verification with
  | Some confidence, Some mask =>
      let step_probs := torch_sigmoid <$> take effective_length confidence in
      update_metrics m (Qcumprod 1 step_probs)
        ((λ b, inject_Z (Z.of_nat b)) <$> take effective_length mask)
  | _, _ => Raise AssertionError
  end.

Definition _post_verify (context : EvalContext) (proposal : DraftProposal)
    (verification : VerificationResult H) : result EvalContext :=
  match dataset_metrics context with
  | None => Ok context
  | Some m =>
      m ← observe m {| base_proposal := proposal; confidence_logits := last_confidence context |}
            verification;
      Ok {| past_key_values_draft := past_key_values_draft context;
            target_hidden_states := target_hidden_states context;
            last_confidence := last_confidence context; dataset_metrics := Some m |}
  end.

Definition myspec_algorithm : DraftAlgorithm RNG H EvalContext :=
  {| init_context := _init_context; propose := _propose; update := _update;
     post_verify := _post_verify |}.

(** [generate_one_sample]. *)
Definition generate_one_sample (target_model : kv_cache → list (nat * nat) → TargetOutput H)
    (max_new_tokens : nat) (stop_token_ids : option (list nat)) (garbage : nat → nat)
    (r : RNG) (input_ids : list nat) : result DecodingSample :=
  generate_decoding_sample target_model myspec_algorithm max_new_tokens (block_size model)
    temperature stop_token_ids garbage r input_ids.
End draft.

(** ** Training and decoding see the same positions *)

Lemma decode_positions {KV PE} (model : MySpecModel KV PE) N cache_len start block :
  cache_len ≤ start → start + num_latent_tokens model ≤ N → start + block ≤ N →
  seq 0 cache_len ++ full_mask_position_ids model (seq 0 N) cache_len start block =
    seq 0 start ++ seq start (num_latent_tokens model) ++ seq start block.
Proof.
  intros Hc Hl Hb. unfold full_mask_position_ids, mask_position_ids_at. rewrite !(seq_slice N start) by done.
  replace ((seq 0 N).[cache_len, start]) with (seq cache_len (start - cache_len)).
  2: { symmetry. replace start with (cache_len + (start - cache_len)) at 1 by lia. apply seq_slice. lia. }
  rewrite app_assoc. f_equal. replace start with (cache_len + (start - cache_len)) at 2 by lia.
  by rewrite seq_app.
Qed.

(** C27: training and decoding agree on what a draft block attends to.  The key
    positions visible, under the training mask, to a query of a kept block anchored at
    [a] are those of the draft cache followed by the position ids that
    [forward_myspec_draft_block] builds when decoding is at [start = a]. *)
Theorem training_mask_matches_decoding {KV PE} (model : MySpecModel KV PE)
    (anchors : list nat) (keep : list bool) (seq_len b a q N cache_len : nat)
    (Ha : anchors !! b = Some a) (Hkeep : keep !! b = Some true) (Hseq : a ≤ seq_len)
    (Hnl : 0 < num_latent_tokens model)
    (Hq : b * block_size model ≤ q ∧ q < b * block_size model + block_size model)
    (Hcache : cache_len ≤ a) (HN : a + num_latent_tokens model ≤ N ∧ a + block_size model ≤ N) :
  visible (create_myspec_mask_attention_mask anchors keep (Z.of_nat seq_len)
             (Z.of_nat (block_size model)) (Z.of_nat (num_latent_tokens model)))
    (seq 0 seq_len ++ create_latent_position_ids anchors (num_latent_tokens model) ++
     create_position_ids anchors (block_size model)) q =
  seq 0 cache_len ++ full_mask_position_ids model (seq 0 N) cache_len a (block_size model).
Proof. destruct Hq. rewrite decode_positions by lia. by apply (mask_visible _ _ _ _ _ b). Qed.

Lemma training_mask_matches_decoding_witness :
  visible (create_myspec_mask_attention_mask [1; 3] [true; true] 5 2 1)
    (seq 0 5 ++ create_latent_position_ids [1; 3] 1 ++ create_position_ids [1; 3] 2) 3 =
  seq 0 2 ++ full_mask_position_ids TinyModel.model (seq 0 8) 2 3 2.
Proof.
  apply (training_mask_matches_decoding TinyModel.model [1; 3] [true; true] 5 1 3 3 8 2
    eq_refl eq_refl); cbn; lia.
Defined.

(** ** Context features *)

Lemma check_layer_ids_range n prev ids :
  check_target_layer_ids n prev ids = Ok tt →
  Forall (λ i, i = (-1)%Z ∨ (0 <= i < n)%Z) ids.
Proof.
  revert prev. induction ids as [|i ids IH]; intros prev Hc; cbn in Hc; [constructor|]. inv_ok.
  constructor; [|by eapply IH]. apply orb_true_iff in H as [H|H]; b2p; lia.
Qed.

(** Hidden states of a target with [n] layers: the embedding output and one entry per
    layer, each with one row per input token. *)
Definition hidden_ok (n len : nat) (hs : list rows) : Prop :=
  length hs = S n ∧ Forall (λ r : rows, length r = len) hs.

Lemma extract_context_feature_ok n len hs ids ids' :
  hidden_ok n len hs → validate_target_layer_ids ids (Z.of_nat n) = Ok ids' →
  ∃ f, extract_context_feature hs ids = Ok f.
Proof.
  intros [Hl Hr] Hv. unfold validate_target_layer_ids in Hv. inv_ok.
  destruct x0. match goal with Hc : check_target_layer_ids _ _ _ = _ |- _ => apply check_layer_ids_range in Hc as Hids end.
  assert (Hm : ∀ ids, Forall (λ i, i = (-1)%Z ∨ (0 <= i < Z.of_nat n)%Z) ids →
    ∃ parts, mapM (λ i, py_index_z hs (context_layer_index i)) ids = Ok parts ∧
      length parts = length ids ∧ Forall (λ r : rows, length r = len) parts).
  { clear -Hl Hr. induction 1 as [|i ids Hi _ (parts & IH & Hlp & Hf)]; cbn; [by exists []|].
    assert (Hidx : ∃ r, py_index_z hs (context_layer_index i) = Ok r ∧ length r = len).
    { unfold py_index_z, context_layer_index. destruct (Z.eqb_spec i (-1)); cbn [Z.ltb].
      - destruct (lookup_lt_is_Some_2 hs 0 ltac:(lia)) as [r Hr0]. exists r.
        split; [by apply py_index_Ok|]. rewrite Forall_lookup in Hr. by apply (Hr 0).
      - destruct (Z.ltb_spec (i + 1) 0); [lia|]. destruct (Z.ltb_spec (i + 1) 0); [lia|].
        destruct (lookup_lt_is_Some_2 hs (Z.to_nat (i + 1)) ltac:(lia)) as [r Hr0]. exists r.
        split; [by apply py_index_Ok|]. rewrite Forall_lookup in Hr. by eapply Hr. }
    destruct Hidx as (r & -> & Hlr). cbn. rewrite IH. cbn. eexists. split; [done|].
    split; [cbn; by rewrite Hlp|by constructor]. }
  destruct (Hm _ Hids) as (parts & Hp & Hlp & Hf). unfold extract_context_feature. rewrite Hp.
  cbn [mbind result_bind]. destruct parts as [|p ps]; [by destruct ids'|].
  rewrite py_check_true; [by eexists|]. apply forallb_forall. intros r Hin%list_elem_of_In.
  apply Forall_cons in Hf as [-> Hf]. rewrite Forall_forall in Hf. by apply Nat.eqb_eq, Hf.
Qed.

(** ** The heads never fail on well-shaped inputs *)

Record weights_ok (vocab : nat) (w : MarkovWeights) : Prop := {
  wo_w1 t : length (markov_w1 w t) = markov_rank w;
  wo_w2 v : length (markov_w2 w v) = vocab
}.

(** Shapes of [nn.Embedding] and [nn.Linear] outputs in a head. *)
Definition head_ok (vocab : nat) (head : MarkovHead) : Prop :=
  weights_ok vocab (weights head) ∧
  match head with
  | VanillaMarkov _ => True
  | GatedMarkovHead w gate_proj => ∀ z, length (gate_proj z) = markov_rank w
  | RNNHead w joint_proj => ∀ z, length (joint_proj z) = 3 * markov_rank w
  end.

Lemma map2_ok f a b : length a = length b → map2 f a b = Ok (zip_with f a b).
Proof. intros E. unfold map2. by rewrite py_check_true by (by apply Nat.eqb_eq). Qed.

Lemma rnn_step_ok vocab w jp state prev h :
  weights_ok vocab w → (∀ z, length (jp z) = 3 * markov_rank w) → length state = markov_rank w →
  ∃ st bias, rnn_step w jp state prev h = Ok (st, bias) ∧ length st = markov_rank w ∧ length bias = vocab.
Proof.
  intros [_ Hw2] Hjp Hst. unfold rnn_step, chunk3. set (p := jp _).
  assert (Hp : length p = 3 * markov_rank w) by apply Hjp.
  assert (Hc : (length p + 2) / 3 = markov_rank w).
  { rewrite Hp. symmetry. apply (Nat.div_unique _ 3 _ 2); lia. }
  cbv zeta. rewrite Hc. cbv beta iota. unfold tmul, tadd. set (r := markov_rank w) in *.
  rewrite map2_ok by (rewrite !length_fmap, !length_py_slice; lia). cbn [mbind result_bind].
  rewrite map2_ok by (rewrite !length_fmap, !length_py_slice; lia). cbn [mbind result_bind].
  rewrite map2_ok by (rewrite !length_zip_with, !length_fmap, !length_py_slice; lia).
  cbn [mbind result_bind]. eexists _, _. split; [done|]. split; [|apply Hw2].
  rewrite !length_zip_with, !length_fmap, !length_py_slice. lia.
Qed.

Lemma step_bias_ok vocab head t h :
  head_ok vocab head → ∃ bias, compute_step_bias head t (Some h) = Ok bias ∧ length bias = vocab.
Proof.
  intros [Hw Hh]. destruct head as [w|w gp|w jp]; cbn [compute_step_bias compute_gate weights mbind result_bind] in *.
  - eexists. split; [done|]. apply Hw.
  - unfold tmul. rewrite map2_ok by (rewrite length_fmap, Hh; unfold get_prev_embeddings; by rewrite (wo_w1 _ _ Hw)).
    eexists. split; [done|]. apply Hw.
  - destruct (rnn_step_ok vocab w jp (replicate (length (get_prev_embeddings w t)) 0%Q)
      (get_prev_embeddings w t) h Hw Hh) as (st & bias & -> & _ & ?).
    { rewrite length_replicate. apply Hw. }
    by eexists.
Qed.

Lemma step_logits_ok vocab head row t h :
  head_ok vocab head → length row = vocab →
  ∃ out, apply_step_logits head row t (Some h) = Ok out ∧ length out = vocab.
Proof.
  intros Hh Hrow. unfold apply_step_logits. destruct (step_bias_ok vocab head t h Hh) as (b & -> & Hb).
  cbn [mbind result_bind]. unfold tadd. rewrite map2_ok by congruence.
  eexists. split; [done|]. rewrite length_zip_with. lia.
Qed.

Section greedy_sampling.
Context {RNG : Type} `{!TorchRandom RNG} (T : Q) (HT : (T < 1 # 100000)%Q).

Lemma sample_one_ok (r : RNG) row : sample_one r T row = Ok (argmax row, r).
Proof using HT. unfold sample_one, sample_tokens. apply Qltb_lt in HT. by rewrite HT. Qed.

Lemma markov_sample_ok vocab head hl r prev i base :
  head_ok vocab head → Forall (λ row, length row = vocab) base → i + length base ≤ length hl →
  ∃ ts c, markov_sample_loop (RNG := RNG) head T (Some hl) r prev i base = Ok (ts, c, r) ∧
    Forall (λ row, length row = vocab) c.
Proof using HT.
  intros Hh Hb. revert prev i. induction Hb as [|row base Hrow _ IH]; intros prev i Hi; cbn [markov_sample_loop step_hidden].
  { eexists _, _. done. }
  cbn [length] in Hi. destruct (lookup_lt_is_Some_2 hl i ltac:(lia)) as [h Hx].
  apply py_index_Ok in Hx. rewrite Hx. cbn [mbind result_bind].
  destruct (step_logits_ok vocab head row prev h Hh Hrow) as (out & -> & Ho). cbn [mbind result_bind].
  rewrite sample_one_ok. cbn [mbind result_bind].
  destruct (IH (argmax out) (S i) ltac:(lia)) as (ts & c & -> & Hc). cbn [mbind result_bind].
  eexists _, _. split; [done|]. by constructor.
Qed.

Lemma rnn_sample_ok vocab w jp hl r state prev i base :
  head_ok vocab (RNNHead w jp) → length state = markov_rank w →
  Forall (λ row, length row = vocab) base → i + length base ≤ length hl →
  ∃ ts c, rnn_sample_loop (RNG := RNG) w jp T hl r state prev i base = Ok (ts, c, r) ∧
    Forall (λ row, length row = vocab) c.
Proof using HT.
  intros [Hw Hjp] Hst Hb. revert state prev i Hst.
  induction Hb as [|row base Hrow _ IH]; intros state prev i Hst Hi; cbn [rnn_sample_loop].
  { eexists _, _. done. }
  cbn [length] in Hi. destruct (lookup_lt_is_Some_2 hl i ltac:(lia)) as [h Hx].
  apply py_index_Ok in Hx. rewrite Hx. cbn [mbind result_bind].
  destruct (rnn_step_ok vocab w jp state (get_prev_embeddings w prev) h Hw Hjp Hst)
    as (st & bias & -> & Hst' & Hbias). cbn [mbind result_bind].
  unfold tadd. rewrite map2_ok by congruence. cbn [mbind result_bind].
  rewrite sample_one_ok. cbn [mbind result_bind].
  destruct (IH st (argmax (zip_with Qplus row bias)) (S i) Hst' ltac:(lia)) as (ts & c & -> & Hc).
  cbn [mbind result_bind]. eexists _, _. split; [done|]. constructor; [|done].
  rewrite length_zip_with. lia.
Qed.

Lemma sample_draft_ok {KV PE} (model : MySpecModel KV PE) vocab r base first hl :
  (∀ head, markov_head model = Some head → head_ok vocab head) →
  Forall (λ row, length row = vocab) base → length base ≤ length hl →
  ∃ ts c, sample_draft_tokens (RNG := RNG) model r base first T (Some hl) = Ok (ts, c, r) ∧
    ts = argmax <$> c ∧ length c = length base ∧ Forall (λ row, length row = vocab) c.
Proof using HT.
  intros Hh Hb Hl. unfold sample_draft_tokens. destruct (Nat.eqb_spec (length base) 0) as [E|E].
  { destruct base; [|done]. by eexists _, _. }
  destruct (markov_head model) as [head|].
  2: { unfold sample_tokens. pose proof HT as HT'. apply Qltb_lt in HT'. rewrite HT'.
       cbn. by eexists _, base. }
  specialize (Hh head eq_refl).
  assert (Hs : ∃ ts c, sample_block_tokens (RNG := RNG) head r base first (Some hl) T = Ok (ts, c, r) ∧
    Forall (λ row, length row = vocab) c).
  { destruct head as [w|w gp|w jp]; cbn [sample_block_tokens];
      [by apply markov_sample_ok..|apply (rnn_sample_ok vocab); try done]. apply length_replicate. }
  destruct Hs as (ts & c & Hs & Hc). exists ts, c. split; [done|].
  assert (Hg : length ts = length base ∧ ts = argmax <$> c).
  { destruct head as [w|w gp|w jp]; cbn [sample_block_tokens] in Hs;
      [apply markov_sample_teacher in Hs as (? & _ & Hg); split; [done|by apply Hg]..|].
    eapply (rnn_sample_teacher _ _ _ _ _ _ _ _ _ _ _ _ (take (length base) (first :: ts))) in Hs
      as (? & _ & Hg); [split; [done|by apply Hg]|].
    intros j Hj. by rewrite lookup_take_lt by done. }
  destruct Hg as [Hlt Hg]. split_and!; [done| |done]. rewrite <- Hlt, Hg. by rewrite length_fmap.
Qed.
End greedy_sampling.

(** ** Well-formed models *)

(** Shapes the learned maps and layers have by construction: [lm_head] produces
    [vocab] logits, a decoder layer returns one row per query and keeps the cache
    object it was given; the assertions of [__init__]. *)
Record MySpecOk {KV PE} (vocab : nat) (model : MySpecModel KV PE) : Prop := {
  mk_vocab : 0 < vocab;
  mk_lm_head h : length (lm_head model h) = vocab;
  mk_markov head : markov_head model = Some head → head_ok vocab head;
  mk_with_markov : confidence_head_with_markov model = true → is_Some (markov_head model);
  mk_block_size : 0 < block_size model;
  mk_latent : 0 < num_latent_tokens model;
  mk_rows : Forall (λ layer : mask_layer KV PE, ∀ h t l m ps pe past,
    length (layer h t l m ps pe past).1 = length h) (layers model);
  mk_latent_cache : Forall (λ layer : latent_layer KV PE, ∀ h t m ps pe past,
    is_Some past → is_Some (layer h t m ps pe past).2) (latent_layers model);
  mk_mask_cache : Forall (λ layer : mask_layer KV PE, ∀ h t l m ps pe past,
    is_Some past → is_Some (layer h t l m ps pe past).2) (layers model)
}.

Lemma foldl_invariant {A B} (P : A → Prop) (f : A → B → A) (l : list B) a :
  P a → Forall (λ b, ∀ a, P a → P (f a b)) l → P (foldl f a l).
Proof. intros Ha Hl. revert a Ha. induction Hl as [|b l Hb _ IH]; intros a Ha; cbn; auto. Qed.

Lemma forward_backbone_ok {KV PE} vocab (model : MySpecModel KV PE) lat lp lm ps m noise tgt past :
  MySpecOk vocab model → is_Some past →
  ∃ out past', forward_backbone model lat lp lm ps m noise tgt past = (out, Some past') ∧
    length out = length noise.
Proof.
  intros Hm Hp. unfold forward_backbone, backbone. destruct (foldl _ (lat, past) _) as [lat' p1] eqn:E1.
  assert (Hp1 : is_Some p1).
  { apply (f_equal snd) in E1. cbn in E1. rewrite <- E1.
    apply (foldl_invariant (λ a : list (list Q) * option KV, is_Some a.2)); [done|].
    eapply Forall_impl; [apply (mk_latent_cache _ _ Hm)|]. intros layer Hl [h p] Hpp. by apply Hl. }
  destruct (foldl _ (noise, p1) _) as [out p2] eqn:E2.
  assert (Hp2 : is_Some p2 ∧ length out = length noise).
  { change p2 with (out, p2).2. change out with (out, p2).1 at 2. rewrite <- E2.
    apply (foldl_invariant (λ a : list (list Q) * option KV, is_Some a.2 ∧ length a.1 = length noise)); [done|].
    pose proof (mk_rows _ _ Hm) as Hr. pose proof (mk_mask_cache _ _ Hm) as Hc.
    rewrite Forall_forall in Hr, Hc |- *. intros layer Hin [h p] [Hs Hl]. cbn in *.
    split; [by apply Hc|]. by rewrite Hr. }
  destruct Hp2 as [[p2' ->] Hl]. eexists _, p2'. split; [done|]. by rewrite length_fmap.
Qed.

Lemma set_first_replicate n x y : 0 < n → set_first (replicate n x) y = Ok (y :: replicate (n - 1) x).
Proof.
  intros Hn. unfold set_first. rewrite length_replicate, py_check_true by (by apply Nat.ltb_lt).
  destruct n; [lia|]. cbn. by rewrite Nat.sub_0_r.
Qed.

Lemma first_per_slot_ok block pred :
  0 < block → length pred = block → ∃ c, first_per_slot block pred = Ok c ∧ length c = block.
Proof.
  intros Hb Hl. unfold first_per_slot. rewrite Hl, Nat.div_same by lia.
  rewrite py_check_true by (cbn; apply Nat.eqb_eq; lia). cbn [mbind result_bind].
  rewrite (mapM_Ok_fmap _ (λ i, default 0%Q (pred !! i))).
  - eexists. split; [done|]. by rewrite length_fmap, length_seq.
  - apply Forall_lookup. intros j i [-> Hj]%lookup_seq. rewrite Nat.mul_1_r.
    destruct (lookup_lt_is_Some_2 pred (0 + j) ltac:(cbn; lia)) as [x Hx].
    apply py_index_Ok. by rewrite Hx.
Qed.

Lemma one_hot_dist vocab i : is_dist_row vocab (one_hot vocab i).
Proof.
  split; [apply length_one_hot|]. apply Forall_lookup. intros j x Hj.
  pose proof (lookup_lt_Some _ _ _ Hj) as Hl. rewrite length_one_hot in Hl.
  rewrite one_hot_lookup in Hj by done. destruct (j =? _)%nat; simplify_eq; lra.
Qed.

Lemma greedy_probs_dist {RNG} `{!TorchRandom RNG} T vocab (lg : rows) :
  (T < 1 # 100000)%Q → Forall (λ row, length row = vocab) lg →
  Forall (is_dist_row vocab) (logits_to_probs (RNG := RNG) lg T).
Proof.
  intros HT%Qltb_lt Hl. apply Forall_fmap. eapply Forall_impl; [exact Hl|]. intros row Hr. cbn.
  unfold row_to_probs. rewrite HT, Hr. apply one_hot_dist.
Qed.

Section proposal.
Context {KV PE RNG : Type} `{!TorchRandom RNG}.
Context (model : MySpecModel KV PE) (torch_sigmoid : Q → Q) (vocab : nat) (Hm : MySpecOk vocab model).
Context (T threshold : Q) (HT : (T < 1 # 100000)%Q).
Let bs := block_size model.

Lemma confidence_phase_ok hs ids ts :
  length hs = bs → ids.[0, 1] = take 1 ids → 0 < length ids → length ts = bs →
  ∃ conf k, confidence_phase model torch_sigmoid hs ids ts bs threshold = Ok (Some (conf, k)) ∧
    k ≤ bs ∧ (is_Some (confidence_head model) → ∃ c, conf = Some c ∧ length c = bs).
Proof using Hm.
  intros Hhs _ Hids Hts. unfold confidence_phase. destruct (confidence_head model) as [head|] eqn:Eh.
  2: { eexists None, bs. split; [done|]. split; [done|]. by intros [? ?]. }
  unfold predict_confidence_logits, predict_confidence_step. rewrite Eh.
  assert (Hf : ∃ f, confidence_features model hs (Some (ids.[0, 1] ++ ts.[0, length ts - 1])) = Ok f ∧
    length f = bs).
  { unfold confidence_features. destruct (confidence_head_with_markov model) eqn:Ew; [|by eexists].
    destruct (mk_with_markov _ _ Hm Ew) as [mh ->]. pose proof (mk_block_size _ _ Hm).
    assert (Hl : length (ids.[0, 1] ++ ts.[0, length ts - 1]) = bs).
    { rewrite length_app, !length_py_slice. unfold bs in *. lia. }
    rewrite py_check_true by (apply Nat.eqb_eq; congruence). cbn [mbind result_bind].
    eexists. split; [done|]. rewrite length_zip_with, length_fmap, Hl, Hhs. lia. }
  destruct Hf as (f & -> & Hlf). cbn [mbind result_bind].
  destruct (first_per_slot_ok bs (head <$> f)) as (c & -> & Hc); [by apply (mk_block_size _ _ Hm)|by rewrite length_fmap|].
  cbn [mbind result_bind]. eexists _, _. split; [done|]. split; [|intros _; by exists c].
  unfold confident_prefix_length. destruct (Qle_bool threshold 0); [done|].
  destruct (find_index _ c) as [k|] eqn:Ek; [|done]. apply find_index_lt in Ek. lia.
Qed.

Lemma build_myspec_proposal_ok r cur rest hid :
  length hid = bs →
  ∃ p, build_myspec_proposal (RNG := RNG) model torch_sigmoid r (cur :: rest) hid bs T threshold = Ok (p, r) ∧
    proposal_ok vocab bs cur (base_proposal p) ∧
    (is_Some (confidence_head model) → 0 < draft_token_count (base_proposal p) →
     ∃ c, confidence_logits p = Some c ∧ length c = draft_token_count (base_proposal p)).
Proof using Hm HT.
  intros Hhid. unfold build_myspec_proposal. rewrite take_ge by lia.
  cbn [py_index lookup list_lookup mbind result_bind].
  assert (Hb : Forall (λ row, length row = vocab) (compute_logits model hid)).
  { apply Forall_fmap, Forall_true. intros h. apply (mk_lm_head _ _ Hm). }
  destruct (sample_draft_ok T HT model vocab r (compute_logits model hid) cur hid) as (ts & lg & -> & Hts & Hlg & Hrows);
    [apply (mk_markov _ _ Hm)|done|unfold compute_logits; by rewrite length_fmap|].
  assert (Hlts : length ts = bs) by (rewrite Hts, length_fmap, Hlg; unfold compute_logits; by rewrite length_fmap).
  cbn [mbind result_bind]. destruct (confidence_phase_ok hid (cur :: rest) ts) as (conf & k & -> & Hk & Hc);
    [done|done|cbn; lia|done|]. cbn [mbind result_bind].
  destruct (Nat.eqb_spec k 0) as [->|Hk0].
  { eexists. split; [done|]. cbn. split; [|lia]. split; cbn; [lia| |lia]. by exists []. }
  eexists. split; [done|]. cbn [base_proposal confidence_logits draft_token_count]. split.
  - split; cbn [draft_token_count verify_input_ids draft_probs]; [done| |].
    + exists (take k ts). split; [done|]. split; [rewrite length_take; lia|].
      apply Forall_take. rewrite Hts. apply Forall_fmap. eapply Forall_impl; [exact Hrows|].
      intros row Hrow. cbn. rewrite <- Hrow. apply argmax_lt. rewrite Hrow. apply (mk_vocab _ _ Hm).
    + intros _. eexists. split; [done|]. split.
      * unfold logits_to_probs. rewrite length_fmap, length_take, Hlg. unfold compute_logits.
        rewrite length_fmap. lia.
      * apply greedy_probs_dist; [done|]. by apply Forall_take.
  - intros Hs _. destruct (Hc Hs) as (c & -> & Hlc). eexists. split; [done|]. rewrite length_take. lia.
Qed.
End proposal.

(** ** What a verification hands to the callbacks *)

Lemma accept_drafts_mask {RNG} `{TorchRandomLaws RNG} (r : RNG) tprobs dp ds m r' :
  accept_drafts r tprobs dp ds = Ok (m, r') → length m = length ds ∧ Forall (λ x, x ≤ 1) m.
Proof.
  unfold accept_drafts, gather_token_probs. intros Hm. inv_ok. b2p.
  repeat match goal with Hx : mapM _ _ = Ok _ |- _ => apply mapM_Ok_length in Hx end.
  pose proof (rand_like_length r (length (zip_with accept_prob x x0))) as Hl.
  destruct (rand_like r _) as [u r1]. injection Hm as <- _. cbn in Hl. unfold cumprod. split.
  - rewrite cumprod_from_length, length_zip_with, Hl. rewrite !length_zip_with in *. lia.
  - assert (Hgen : ∀ acc l, acc ≤ 1 → Forall (λ x, x ≤ 1) l → Forall (λ x, x ≤ 1) (cumprod_from acc l)).
    { clear. intros acc l Ha Hl. revert acc Ha. induction Hl; intros acc Ha; cbn; constructor; [nia|].
      apply IHHl. nia. }
    apply Hgen; [done|]. apply Forall_lookup. intros i y (a & b & -> & _ & _)%lookup_zip_with_Some.
    cbn. destruct (Qltb _ _); lia.
Qed.

Lemma verified_facts {RNG H} `{TorchRandomLaws RNG} (target_model : kv_cache → list (nat * nat) → TargetOutput H)
    T vocab max_prop stop p start cur v :
  proposal_ok vocab max_prop cur p → verified (RNG := RNG) target_model T max_prop stop p start v →
  effective_proposal_length v ≤ draft_token_count p ∧
  (∃ past inputs, target_output v = target_model past inputs) ∧
  (0 < draft_token_count p → ∃ m, accept_prefix_mask v = Some m ∧ length m = draft_token_count p ∧
     Forall (λ x, x ≤ 1) m).
Proof.
  intros [_ (ds & Hids & Hds & _) _] (r & positions & past & cur' & past' & r' & Hv).
  unfold verify_draft_tokens in Hv. inv_ok. unfold call_target in *. inv_ok. b2p.
  match goal with Hx : accept_phase _ _ _ = Ok (?mo, ?k, _) |- _ =>
    rename Hx into Hacc; set (a := k) in *; set (mask := mo) in *; clearbody a mask end.
  assert (Ha : a ≤ draft_token_count p ∧ (0 < draft_token_count p → ∃ m, mask = Some m ∧
    length m = draft_token_count p ∧ Forall (λ x, x ≤ 1) m)).
  { unfold accept_phase in Hacc. destruct (0 <? _) eqn:E0; b2p; [|inv_ok; split; [lia|lia]].
    destruct (draft_probs p); [|done]. inv_ok. destruct_pairs. inv_ok.
    match goal with Hx : accept_drafts _ _ _ _ = _ |- _ =>
      pose proof (accept_drafts_le _ _ _ _ _ _ Hx) as Hle; apply accept_drafts_mask in Hx as [Hlm Hfm] end.
    rewrite Hids in Hle, Hlm. change (drop 1 (cur :: ds)) with ds in *. split; [lia|]. intros _. eexists. split; [done|]. split; [lia|done]. }
  destruct Ha as [Ha Hmask].
  destruct (accepted_eos _ _ _) as [k|] eqn:Ek; inv_ok; destruct_pairs; inv_ok;
    cbn [effective_proposal_length target_output accept_prefix_mask].
  - split; [|split; [by eexists _, _|done]].
    unfold accepted_eos in Ek. destruct stop as [[|]|]; try done. destruct (0 <? a); [|done].
    apply find_index_lt in Ek. rewrite length_py_slice in Ek. lia.
  - split; [done|split; [by eexists _, _|done]].
Qed.

Section contract.
Context {KV PE RNG : Type} `{!DynamicCache KV, !DynamicCacheLaws KV, !TorchRandom RNG, !TorchRandomLaws RNG}.
Context (model : MySpecModel KV PE) (torch_sigmoid : Q → Q) (vocab : nat) (Hm : MySpecOk vocab model).
Context (T threshold : Q) (HT : (T < 1 # 100000)%Q) (stop : option (list nat)).
Context (target_model : kv_cache → list (nat * nat) → TargetOutput (list rows)) (num_layers : nat).
(** The target returns the embedding output and one hidden state per layer. *)
Context (Htarget : ∀ past inputs, hidden_ok num_layers (length inputs) (hidden_states (target_model past inputs))).
Context (layer_ids : list Z)
  (Hlayers : validate_target_layer_ids (target_layer_ids model) (Z.of_nat num_layers) = Ok layer_ids).

Let bs := block_size model.

Definition recorder_ok (d : option ConfidenceMetrics) : Prop :=
  ∀ m, d = Some m → is_Some (confidence_head model) ∧
    metrics_ok bs CONFIDENCE_NUM_BINS CONFIDENCE_NUM_FINE_BINS m.

Definition context_ok (start : nat) (c : EvalContext (KV := KV)) : Prop :=
  get_seq_length (past_key_values_draft c) ≤ start ∧ recorder_ok (dataset_metrics c).

Definition proposed_ok (start : nat) (p : DraftProposal) (c : EvalContext (KV := KV)) : Prop :=
  context_ok start c ∧ (∃ cur, proposal_ok vocab bs cur p) ∧
  (is_Some (dataset_metrics c) → 0 < draft_token_count p →
   ∃ cf, last_confidence c = Some cf ∧ length cf = draft_token_count p).

Lemma recorder_built_ok : recorder_ok (build_confidence_head_recorder model threshold).
Proof.
  unfold recorder_ok, build_confidence_head_recorder. intros m.
  destruct (confidence_head model) as [h|]; [|done]. destruct (Qeq_bool _ _); [|done].
  intros [= <-]. split; [by eexists|]. apply new_metrics_ok.
Qed.

Lemma observe_ok m p start v last :
  metrics_ok bs CONFIDENCE_NUM_BINS CONFIDENCE_NUM_FINE_BINS m →
  (∃ cur, proposal_ok vocab bs cur p) → verified (RNG := RNG) target_model T bs stop p start v →
  (0 < draft_token_count p → ∃ cf, last = Some cf ∧ length cf = draft_token_count p) →
  ∃ m', observe torch_sigmoid m {| base_proposal := p; confidence_logits := last |} v = Ok m' ∧
    metrics_ok bs CONFIDENCE_NUM_BINS CONFIDENCE_NUM_FINE_BINS m'.
Proof.
  intros Hmo [cur Hp] Hv Hcf. unfold observe. cbn [base_proposal confidence_logits].
  destruct (Nat.eqb_spec (draft_token_count p) 0); [by exists m|].
  destruct (Nat.eqb_spec (effective_proposal_length v) 0); [by exists m|].
  destruct (verified_facts _ _ _ _ _ _ _ _ _ Hp Hv) as (He & _ & Hmask).
  destruct (Hcf ltac:(lia)) as (cf & -> & Hlcf). destruct (Hmask ltac:(lia)) as (mk & -> & Hlm & Hmk).
  pose proof (po_count _ _ _ _ Hp) as Hcnt.
  apply update_metrics_ok; [unfold CONFIDENCE_NUM_BINS; lia|unfold CONFIDENCE_NUM_FINE_BINS; lia|done|..].
  - rewrite length_Qcumprod, !length_fmap, !length_take. lia.
  - rewrite length_Qcumprod, length_fmap, length_take. lia.
  - apply Forall_fmap, Forall_take. eapply Forall_impl; [exact Hmk|]. intros x Hx. cbn.
    cbn in Hx. unfold unit_interval. change 0%Q with (inject_Z 0). change 1%Q with (inject_Z 1).
    rewrite <- !Zle_Qle. lia.
Qed.

Lemma forward_draft_ok lat ids positions past tgt start :
  get_seq_length past ≤ start →
  ∃ hid past', forward_myspec_draft_block model lat ids positions past tgt start bs = Ok (hid, past') ∧
    length hid = length ids ∧ get_seq_length past' ≤ start.
Proof.
  intros Hp. unfold forward_myspec_draft_block, draft_block, py_assert. rewrite py_check_true by (by apply Nat.leb_le).
  cbn [mbind result_bind].
  destruct (forward_backbone_ok vocab model (embed_tokens model <$> lat)
    (latent_position_ids_at (num_latent_tokens model) positions (get_seq_length past) start) None
    (mask_position_ids_at (num_latent_tokens model) positions (get_seq_length past) start bs) None
    (embed_tokens model <$> ids) tgt (Some past) Hm ltac:(done)) as (out & past' & -> & Hl).
  eexists _, _. split; [done|]. rewrite Hl, length_fmap. split; [done|].
  rewrite crop_cache_length. lia.
Qed.

(** The evaluator's callbacks implement the contract of the decoding loop. *)
Lemma myspec_contract rec (Hrec : recorder_ok rec) :
  DraftContract target_model vocab bs T stop
    (myspec_algorithm (RNG := RNG) model torch_sigmoid T threshold rec) context_ok proposed_ok.
Proof.
  split.
  - intros inputs out positions. cbn. unfold _init_context.
    destruct (extract_context_feature_ok _ _ _ _ _ (Htarget [] inputs) Hlayers) as (f & ->).
    cbn [mbind result_bind]. eexists. split; [done|]. split; cbn; [rewrite new_cache_length; lia|done].
  - intros c r out start cur [Hlen Hro] Hcur _. cbn [propose myspec_algorithm]. unfold _propose.
    fold bs. rewrite (proj2 (py_index_Ok _ _ _) Hcur). cbn [mbind result_bind].
    rewrite (set_first_replicate (num_latent_tokens model)) by apply (mk_latent _ _ Hm). cbn [mbind result_bind].
    rewrite (set_first_replicate bs) by apply (mk_block_size _ _ Hm). cbn [mbind result_bind].
    destruct (forward_draft_ok (cur :: replicate (num_latent_tokens model - 1) (latent_token_id model))
      (cur :: replicate (bs - 1) (mask_token_id model)) (seq 0 (length out)) _ (target_hidden_states c)
      start Hlen) as (hid & past' & -> & Hlh & Hpast). cbn [mbind result_bind].
    destruct (build_myspec_proposal_ok model torch_sigmoid vocab Hm T threshold HT r cur
      (replicate (bs - 1) (mask_token_id model)) hid) as (p & Hp & Hok & Hconf).
    { pose proof (mk_block_size _ _ Hm). rewrite Hlh. cbn. rewrite length_replicate. unfold bs. lia. }
    fold bs in Hp. rewrite Hp. cbn [mbind result_bind]. eexists _, _, _. split; [done|]. split; [done|].
    split; [split; cbn; [done|done]|]. split; [by exists cur|]. cbn. intros [m Hdm] Hpos.
    apply Hconf; [|done]. by destruct (Hro m Hdm).
  - intros c p start v (Hc & Hp & Hcf) Hv. cbn [post_verify myspec_algorithm]. unfold _post_verify.
    destruct (dataset_metrics c) as [m|] eqn:Ed; [|exists c; split; [done|]; rewrite <- Ed in Hcf; done].
    destruct Hc as [Hlen Hro]. rewrite Ed in Hro. destruct (Hro m eq_refl) as [Hh Hmo].
    destruct (observe_ok m p start v (last_confidence c) Hmo Hp Hv) as (m' & -> & Hmo'); [by apply Hcf|].
    cbn [mbind result_bind]. eexists. split; [done|]. split; [split; cbn; [done|]|].
    + intros m'' [= <-]. done.
    + split; [done|]. cbn. intros _. by apply Hcf.
  - intros c p start v ([Hlen Hro] & [cur Hp] & Hcf) Hv. cbn [update myspec_algorithm]. unfold _update.
    destruct (verified_facts _ _ _ _ _ _ _ _ _ Hp Hv) as (_ & (past & inputs & ->) & _).
    destruct (extract_context_feature_ok _ _ _ _ _ (Htarget past inputs) Hlayers) as (f & ->).
    cbn [mbind result_bind]. eexists. split; [done|]. split; cbn; [lia|done].
Qed.
End contract.

(** C28: the MySpec evaluator is lossless at temperature 0.  For a target with causal
    logits that returns one hidden state per layer and a well-formed draft model whose
    target layers validate, [generate_one_sample] -- latent and mask backbone, Markov
    head, confidence truncation, confidence recorder and all -- returns without
    raising exactly the greedy decoding of the target model. *)
Theorem myspec_generate_lossless {KV PE RNG : Type} `{DynamicCacheLaws KV, TorchRandomLaws RNG}
    (model : MySpecModel KV PE) (torch_sigmoid : Q → Q) (vocab : nat)
    (Hm : MySpecOk vocab model) (T threshold : Q) (HT : (T < 1 # 100000)%Q)
    (target_model : kv_cache → list (nat * nat) → TargetOutput (list (list (list Q)))) nl
    (Hcausal : CausalTarget target_model nl vocab) (num_layers : nat)
    (Hhidden : ∀ past inputs,
      hidden_ok num_layers (length inputs) (hidden_states (target_model past inputs)))
    layer_ids
    (Hlayers : validate_target_layer_ids (target_layer_ids model) (Z.of_nat num_layers) = Ok layer_ids)
    (max_new : nat) (stop : option (list nat)) (garbage : nat → nat) (r : RNG) (input : list nat)
    (Hmax_new : 1 ≤ max_new) (Hinput : 0 < length input) :
  ∃ s, generate_one_sample model torch_sigmoid T threshold
         (build_confidence_head_recorder model threshold) target_model max_new stop garbage r input = Ok s ∧
    output_ids s = input ++ greedy_decode nl stop input max_new.
Proof.
  unfold generate_one_sample. eapply decode_lossless; [done..| |done| |done].
  - eapply (myspec_contract model torch_sigmoid vocab Hm T threshold HT stop target_model num_layers
      Hhidden layer_ids Hlayers). apply recorder_built_ok.
  - pose proof (mk_block_size _ _ Hm). lia.
Qed.

Import Deterministic TinyModel.

(** A one-layer target that counts modulo 3. *)
Module TinyTarget.
Definition target (past : kv_cache) (inputs : list (nat * nat)) : TargetOutput (list (list (list Q))) :=
  {| logits := (λ i, Counting.next_logits (past ++ take (S i) inputs)) <$> seq 0 (length inputs);
     hidden_states := replicate 2 (replicate (length inputs) [1%Q]) |}.

#[export] Instance causal : CausalTarget target Counting.next_logits 3.
Proof. split; [done| |lia]. intros c. unfold Counting.next_logits. by destruct (last c) as [[]|]. Qed.

Lemma hidden past inputs : hidden_ok 1 (length inputs) (hidden_states (target past inputs)).
Proof. split; [done|]. repeat (apply Forall_cons; split; [apply length_replicate|]). constructor. Qed.

Lemma tiny_draft_ok : MySpecOk 3 model.
Proof.
  split; cbn; try lia; try done.
  - intros h. by destruct h as [|? []].
  - intros head [= <-]. split; [|done]. split; [done|]. intros v. by destruct v as [|? []].
  - apply Forall_cons; split; [done|constructor].
  - apply Forall_cons; split; [|constructor]. by intros h t m ps pe past [? ->].
  - apply Forall_cons; split; [done|constructor].
Qed.

Definition run (threshold : Q) : result DecodingSample :=
  generate_one_sample (RNG := unit) model (λ x, x) 0 threshold
    (build_confidence_head_recorder model threshold) target 5 (Some [0]) (λ _, 7) tt [1; 1].
Example tiny_run_result : output_ids <$> run 0 = Ok [1; 1; 2; 0].
Proof. vm_compute. reflexivity. Qed.
End TinyTarget.

Lemma myspec_generate_lossless_witness :
  ∃ s, TinyTarget.run 0 = Ok s ∧
    output_ids s = [1; 1] ++ greedy_decode Counting.next_logits (Some [0]) [1; 1] 5.
Proof.
  apply (myspec_generate_lossless (RNG := unit) TinyModel.model (λ x, x) 3 TinyTarget.tiny_draft_ok 0 0
    ltac:(reflexivity) TinyTarget.target Counting.next_logits TinyTarget.causal 1 TinyTarget.hidden
    [(-1)%Z; 0%Z]); [reflexivity|lia|cbn; lia].
Defined.
