(* ===== verification/RadixKey.v ===== *)
(** * RadixKey: token-sequence keys of the prefix cache

    Models class [RadixKey] of [sglang/python/sglang/srt/mem_cache/radix_cache.py]:
    raw and bigram views, slicing, page alignment, the galloping prefix comparison
    [match] and the dictionary key [child_key].  Python values used as dictionary
    keys are the inductive type [PyVal] with structural equality. *)

From stdpp Require Import countable.
From S2P Require Import Prelude.
#[local] Open Scope nat_scope.

(** ** Hashable Python values *)

Inductive PyVal : Type :=
  | VNone
  | VInt (z : Z)
  | VStr (s : string)
  | VTuple (l : list PyVal).

Fixpoint pyval_to_tree (v : PyVal) : gen_tree (Z + string) :=
  match v with
  | VNone => GenNode 0 []
  | VInt z => GenLeaf (inl z)
  | VStr s => GenLeaf (inr s)
  | VTuple l => GenNode 1 (pyval_to_tree <$> l)
  end.
Fixpoint tree_to_pyval (t : gen_tree (Z + string)) : PyVal :=
  match t with
  | GenNode 0 _ => VNone
  | GenLeaf (inl z) => VInt z
  | GenLeaf (inr s) => VStr s
  | GenNode _ l => VTuple (tree_to_pyval <$> l)
  end.

Fixpoint tree_to_pyval_to_tree (v : PyVal) : tree_to_pyval (pyval_to_tree v) = v.
Proof.
  destruct v as [|z|s|l]; cbn; try done. f_equal.
  induction l as [|x l IH]; cbn; [done|]. f_equal; [apply tree_to_pyval_to_tree|exact IH].
Qed.

#[export] Instance PyVal_eq_dec : EqDecision PyVal.
Proof.
  intros v w. refine (cast_if (decide (pyval_to_tree v = pyval_to_tree w))).
  - abstract (rewrite <- (tree_to_pyval_to_tree v), <- (tree_to_pyval_to_tree w); congruence).
  - abstract congruence.
Defined.
#[export] Instance PyVal_countable : Countable PyVal.
Proof. apply (inj_countable' pyval_to_tree tree_to_pyval). apply tree_to_pyval_to_tree. Defined.

(** ** The class *)

Record RadixKey := mkKey {
  token_ids : list Z;
  extra_key : option string;
  cache_salt : option string;
  is_bigram : bool;
  limit : option nat
}.

(** [__init__]: [cache_salt or None]. *)
Definition new_key (token_ids : list Z) (extra_key : option string) (is_bigram : bool)
    (limit : option nat) (cache_salt : option string) : RadixKey :=
  {| token_ids := token_ids; extra_key := extra_key;
     cache_salt := match cache_salt with Some "" => None | s => s end;
     is_bigram := is_bigram; limit := limit |}.

Definition raw_len (k : RadixKey) : nat :=
  let n := length (token_ids k) in
  match limit k with
  | Some l => if l <? n then l else n
  | None => n
  end.

Definition raw_token_ids (k : RadixKey) : list Z :=
  let n := raw_len k in
  if n =? length (token_ids k) then token_ids k else take n (token_ids k).

Definition key_len (k : RadixKey) : nat :=
  let n := raw_len k in
  if is_bigram k then if 0 <? n then n - 1 else 0 else n.

(** [__iter__]: the logical units, single tokens or adjacent pairs. *)
Definition key_iter (k : RadixKey) : list PyVal :=
  let t := token_ids k in
  let n := raw_len k in
  if is_bigram k then
    zip_with (λ a b, VTuple [VInt a; VInt b]) (take (n - 1) t) (take (n - 1) (drop 1 t))
  else VInt <$> (if n =? length t then t else take n t).

(** [self[start:stop]] with [0 <= start]; [slice.indices] clips to [len(self)]. *)
Definition key_slice (k : RadixKey) (start stop : nat) : RadixKey :=
  let start := Nat.min start (key_len k) in
  let stop := Nat.min stop (key_len k) in
  if is_bigram k then
    new_key (if start <? stop then (token_ids k).[start, stop + 1] else []) (extra_key k) true None
      (cache_salt k)
  else new_key ((token_ids k).[start, stop]) (extra_key k) false None (cache_salt k).

Definition page_aligned (k : RadixKey) (page_size : nat) : RadixKey :=
  if page_size =? 1 then k
  else key_slice k 0 (key_len k / page_size * page_size).

(** The mutated key and the truncated value. *)
Definition maybe_to_bigram_view (k : RadixKey) (is_eagle : bool) (value : option (list Z))
  : RadixKey * option (list Z) :=
  if is_eagle && negb (is_bigram k) then
    let k := {| token_ids := token_ids k; extra_key := extra_key k; cache_salt := cache_salt k;
                is_bigram := true; limit := limit k |} in
    (k, take (key_len k) <$> value)
  else (k, value).

Definition check_compatible (k other : RadixKey) : result unit :=
  _ ← py_check ValueError (bool_decide (extra_key k = extra_key other));
  py_check ValueError (bool_decide (cache_salt k = cache_salt other)).

(** [t0[a:b] == t1[a:b]]. *)
Definition slice_eq (t0 t1 : list Z) (a b : nat) : bool := bool_decide (t0.[a, b] = t1.[a, b]).

(** The inner bisection: shrinks a window that contains the divergence. *)
Fixpoint bisect (fuel : nat) (t0 t1 : list Z) (lo hi : nat) : nat :=
  match fuel with
  | 0 => lo
  | S fuel =>
      if 1 <? hi - lo then
        let mid := (lo + hi) / 2 in
        if slice_eq t0 t1 lo mid then bisect fuel t0 t1 mid hi else bisect fuel t0 t1 lo mid
      else lo
  end.

(** The outer loop over doubling windows; [n] when nothing diverges. *)
Fixpoint gallop (fuel : nat) (t0 t1 : list Z) (n lo step : nat) : nat :=
  match fuel with
  | 0 => n
  | S fuel =>
      if lo <? n then
        let hi := if lo + step <? n then lo + step else n in
        if slice_eq t0 t1 lo hi then gallop fuel t0 t1 n hi (step * 2)
        else bisect n t0 t1 lo hi
      else n
  end.

Definition matched_tokens (t0 t1 : list Z) : nat :=
  let n := Nat.min (length t0) (length t1) in gallop n t0 t1 n 0 1.

Definition match_ (k other : RadixKey) (page_size : nat) : result nat :=
  _ ← check_compatible k other;
  let m := matched_tokens (token_ids k) (token_ids other) in
  if is_bigram k then
    let matched := Nat.min (Nat.min (m - 1) (key_len k)) (key_len other) in
    Ok (if 1 <? page_size then matched / page_size * page_size else matched)
  else
    let m := Nat.min (Nat.min m (key_len k)) (key_len other) in
    Ok (if page_size =? 1 then m else m / page_size * page_size).

(** [t[i]] inside [child_key]. *)
Definition tok (t : list Z) (i : nat) : result Z :=
  match t !! i with Some x => Ok x | None => Raise IndexError end.

Definition child_plain (k : RadixKey) (page_size : nat) : result PyVal :=
  let t := token_ids k in
  if is_bigram k then
    if page_size =? 1 then a ← tok t 0; b ← tok t 1; Ok (VTuple [VInt a; VInt b])
    else
      pairs ← mapM (λ j, a ← tok t j; b ← tok t (j + 1); Ok (VTuple [VInt a; VInt b]))
                (seq 0 page_size);
      Ok (VTuple pairs)
  else if page_size =? 1 then a ← tok t 0; Ok (VInt a)
  else Ok (VTuple (VInt <$> take page_size t)).

Definition vopt (o : option string) : PyVal := match o with Some s => VStr s | None => VNone end.

Definition child_key (k : RadixKey) (page_size : nat) : result PyVal :=
  plain ← child_plain k page_size;
  Ok (match cache_salt k with
      | Some salt => VTuple [VTuple [vopt (extra_key k); VStr salt]; plain]
      | None =>
          match extra_key k with
          | None => plain
          | Some e => VTuple [VStr e; plain]
          end
      end).

(** ** The galloping search is the longest common prefix *)

Fixpoint lcp {A} `{EqDecision A} (l k : list A) : nat :=
  match l, k with
  | x :: l, y :: k => if decide (x = y) then S (lcp l k) else 0
  | _, _ => 0
  end.

Lemma lcp_le {A} `{EqDecision A} (l k : list A) : lcp l k ≤ length l ∧ lcp l k ≤ length k.
Proof.
  revert k. induction l as [|x l IH]; intros [|y k]; cbn; try (split; lia).
  destruct (decide (x = y)); [|split; lia]. destruct (IH k). split; lia.
Qed.

Lemma lcp_take {A} `{EqDecision A} (l k : list A) : take (lcp l k) l = take (lcp l k) k.
Proof.
  revert k. induction l as [|x l IH]; intros [|y k]; cbn; [done..|].
  destruct (decide (x = y)) as [->|]; [|done]. cbn. by f_equal.
Qed.

Lemma lcp_spec {A} `{EqDecision A} (l k : list A) m :
  m ≤ length l → m ≤ length k → take m l = take m k →
  (m < length l → m < length k → l !! m ≠ k !! m) → lcp l k = m.
Proof.
  revert k m. induction l as [|x l IH]; intros [|y k] [|m]; cbn; intros H1 H2 Ht Hd; try lia.
  - destruct (decide (x = y)) as [->|]; [|done]. by destruct (Hd ltac:(lia) ltac:(lia)).
  - injection Ht as -> Ht. rewrite decide_True by done. f_equal. apply IH; [lia|lia|done|].
    intros ? ?. apply Hd; lia.
Qed.

Lemma lcp_ge {A} `{EqDecision A} (l k : list A) n :
  n ≤ length l → n ≤ length k → take n l = take n k → n ≤ lcp l k.
Proof.
  revert k n. induction l as [|x l IH]; intros [|y k] [|n]; cbn; try lia.
  intros ? ? [= -> E]. rewrite decide_True by done. apply le_n_S, IH; (done || lia).
Qed.

Lemma slice_eq_take (t0 t1 : list Z) a b :
  a ≤ b → take a t0 = take a t1 → (slice_eq t0 t1 a b = true ↔ take b t0 = take b t1).
Proof.
  intros Hab Ha. unfold slice_eq. rewrite bool_decide_eq_true. split; intros E.
  - by rewrite <- (take_py_slice a b t0), <- (take_py_slice a b t1), E, Ha by done.
  - rewrite !py_slice_alt. by rewrite E.
Qed.

Lemma bisect_spec fuel (t0 t1 : list Z) lo hi :
  hi ≤ length t0 → hi ≤ length t1 → lo < hi → hi - lo ≤ fuel →
  take lo t0 = take lo t1 → take hi t0 ≠ take hi t1 →
  bisect fuel t0 t1 lo hi = lcp t0 t1.
Proof.
  revert lo hi. induction fuel as [|fuel IH]; intros lo hi H0 H1 Hlt Hf Hlo Hhi; cbn [bisect]; [lia|].
  destruct (Nat.ltb_spec 1 (hi - lo)).
  - pose proof (Nat.div_le_lower_bound (lo + hi) 2 (lo + 1) ltac:(lia) ltac:(lia)) as Hm1.
    pose proof (Nat.Div0.div_lt_upper_bound (lo + hi) 2 hi ltac:(lia)) as Hm2.
    set (mid := (lo + hi) / 2) in *. destruct (slice_eq t0 t1 lo mid) eqn:E.
    + apply slice_eq_take in E; [|lia|done]. apply IH; try done; lia.
    + apply IH; try done; try lia. intros E'. apply (slice_eq_take t0 t1 lo mid) in E'; [congruence|lia|done].
  - assert (hi = S lo) as -> by lia. symmetry. apply lcp_spec; [lia|lia|done|].
    intros ? ? E. apply Hhi. destruct (lookup_lt_is_Some_2 t0 lo ltac:(lia)) as [x Hx].
    rewrite (take_S_r _ _ _ Hx). rewrite Hx in E. symmetry in E. by rewrite (take_S_r _ _ _ E), Hlo.
Qed.

Lemma gallop_spec fuel (t0 t1 : list Z) n lo step :
  n = Nat.min (length t0) (length t1) → lo ≤ n → 1 ≤ step → n - lo ≤ fuel →
  take lo t0 = take lo t1 → gallop fuel t0 t1 n lo step = lcp t0 t1.
Proof.
  intros Hn. revert lo step. induction fuel as [|fuel IH]; intros lo step Hlo Hs Hf Ht; cbn [gallop].
  - assert (lo = n) as -> by lia. symmetry. apply lcp_spec; [lia|lia|done|lia].
  - destruct (Nat.ltb_spec lo n).
    + set (hi := if lo + step <? n then lo + step else n).
      assert (Hhi : lo < hi ∧ hi ≤ n) by (unfold hi; destruct (Nat.ltb_spec (lo + step) n); lia).
      destruct (slice_eq t0 t1 lo hi) eqn:E.
      * apply slice_eq_take in E; [|lia|done]. apply IH; (done || lia).
      * apply bisect_spec; try done; try lia. intros E'.
        apply (slice_eq_take t0 t1 lo hi) in E'; [congruence|lia|done].
    + assert (lo = n) as -> by lia. symmetry. apply lcp_spec; [lia|lia|done|lia].
Qed.

Lemma matched_tokens_lcp t0 t1 : matched_tokens t0 t1 = lcp t0 t1.
Proof. unfold matched_tokens. apply gallop_spec; (done || lia). Qed.

(** ** Logical units *)

Lemma raw_len_le k : raw_len k ≤ length (token_ids k).
Proof. unfold raw_len. destruct (limit k) as [l|]; [|done]. destruct (Nat.ltb_spec l (length (token_ids k))); lia. Qed.

Lemma key_len_iter k : length (key_iter k) = key_len k.
Proof.
  pose proof (raw_len_le k). unfold key_iter, key_len. destruct (is_bigram k).
  - rewrite length_zip_with, !length_take, length_drop.
    destruct (Nat.ltb_spec 0 (raw_len k)); lia.
  - rewrite length_fmap. destruct (Nat.eqb_spec (raw_len k) (length (token_ids k))); [lia|].
    rewrite length_take. lia.
Qed.

Lemma key_iter_raw k :
  is_bigram k = false → key_iter k = VInt <$> take (raw_len k) (token_ids k).
Proof.
  unfold key_iter. intros ->. destruct (Nat.eqb_spec (raw_len k) (length (token_ids k))) as [->|]; [|done].
  by rewrite take_ge.
Qed.

Lemma key_iter_bigram k i :
  is_bigram k = true → i < key_len k →
  ∃ a b, token_ids k !! i = Some a ∧ token_ids k !! S i = Some b ∧
    key_iter k !! i = Some (VTuple [VInt a; VInt b]).
Proof.
  intros Hb Hi. pose proof (raw_len_le k). unfold key_len in Hi. rewrite Hb in Hi.
  destruct (Nat.ltb_spec 0 (raw_len k)); [|lia].
  destruct (lookup_lt_is_Some_2 (token_ids k) i ltac:(lia)) as [a Ha].
  destruct (lookup_lt_is_Some_2 (token_ids k) (S i) ltac:(lia)) as [b Hb'].
  exists a, b. split_and!; [done..|]. unfold key_iter. rewrite Hb, lookup_zip_with.
  rewrite !lookup_take_lt by lia. rewrite lookup_drop, Ha. change (1 + i) with (S i). by rewrite Hb'.
Qed.

Lemma lcp_fmap {A B} `{EqDecision A, EqDecision B} (f : A → B) `{!Inj (=) (=) f} (l k : list A) :
  lcp (f <$> l) (f <$> k) = lcp l k.
Proof.
  revert k. induction l as [|x l IH]; intros [|y k]; cbn; [done..|].
  destruct (decide (x = y)) as [->|Hne].
  - rewrite decide_True by done. by rewrite IH.
  - rewrite decide_False; [done|]. intros E. by apply (inj f) in E.
Qed.

Lemma lcp_take_min {A} `{EqDecision A} (l k : list A) n m :
  lcp (take n l) (take m k) = Nat.min (Nat.min (lcp l k) n) m.
Proof.
  revert k n m. induction l as [|x l IH]; intros [|y k] [|n] [|m]; cbn; try done; try lia.
  destruct (decide (x = y)); cbn; [|done]. by rewrite IH.
Qed.

#[export] Instance VInt_inj : Inj (=) (=) VInt.
Proof. intros ? ? [=]. done. Qed.

(** Shared bigrams are shared tokens but one. *)
Lemma lcp_bigram k other :
  is_bigram k = true → is_bigram other = true →
  lcp (key_iter k) (key_iter other) =
    Nat.min (Nat.min (lcp (token_ids k) (token_ids other) - 1) (key_len k)) (key_len other).
Proof.
  intros Hk Ho. set (m := lcp (token_ids k) (token_ids other)).
  assert (Htm : take m (token_ids k) = take m (token_ids other)) by apply lcp_take.
  assert (Hsame : ∀ i, i < m → token_ids k !! i = token_ids other !! i).
  { intros i Hi. rewrite <- (lookup_take_lt (token_ids k) m), Htm by done. by apply lookup_take_lt. }
  apply lcp_spec; rewrite ?key_len_iter; [lia|lia| |].
  - apply list_eq. intros i. set (r := Nat.min _ _).
    destruct (decide (i < r)) as [Hi|Hi].
    + rewrite !lookup_take_lt by done.
      destruct (key_iter_bigram k i Hk ltac:(lia)) as (a & b & Ha & Hb & ->).
      destruct (key_iter_bigram other i Ho ltac:(lia)) as (a' & b' & Ha' & Hb' & ->).
      rewrite Hsame in Ha by lia. rewrite Hsame in Hb by lia. congruence.
    + by rewrite !lookup_ge_None_2 by (rewrite length_take; lia).
  - intros H1 H2. set (r := Nat.min _ _) in *.
    destruct (key_iter_bigram k r Hk H1) as (a & b & Ha & Hb & ->).
    destruct (key_iter_bigram other r Ho H2) as (a' & b' & Ha' & Hb' & ->).
    assert (Hr : r = m - 1) by lia. intros [= -> ->].
    assert (Hrm : take r (token_ids k) = take r (token_ids other)).
    { apply (f_equal (take r)) in Htm. by rewrite !take_take, !Nat.min_l in Htm by lia. }
    pose proof (lookup_lt_Some _ _ _ Hb). pose proof (lookup_lt_Some _ _ _ Hb').
    assert (Hg : take (S (S r)) (token_ids k) = take (S (S r)) (token_ids other)).
    { rewrite (take_S_r _ _ _ Hb), (take_S_r _ _ _ Hb'), (take_S_r _ _ _ Ha), (take_S_r _ _ _ Ha'). by rewrite Hrm. }
    pose proof (lcp_le (token_ids k) (token_ids other)) as [? ?].
    pose proof (lcp_ge (token_ids k) (token_ids other) (S (S r)) ltac:(lia) ltac:(lia) Hg) as Hge. fold m in Hge. lia.
Qed.

(** Rounding down to whole pages. *)
Definition page_floor (page_size n : nat) : nat := n / page_size * page_size.

Lemma page_floor_1 n : page_floor 1 n = n.
Proof. unfold page_floor. by rewrite Nat.div_1_r, Nat.mul_1_r. Qed.

(** The units of a compatible key and its comparison. *)
Lemma match_lcp k other page_size :
  0 < page_size → extra_key k = extra_key other → cache_salt k = cache_salt other →
  is_bigram k = is_bigram other →
  match_ k other page_size = Ok (page_floor page_size (lcp (key_iter k) (key_iter other))).
Proof.
  intros Hp He Hs Hb. unfold match_, check_compatible.
  rewrite !py_check_true by (by apply bool_decide_eq_true_2). cbn [mbind result_bind].
  rewrite matched_tokens_lcp. destruct (is_bigram k) eqn:Ek.
  - rewrite (lcp_bigram k other) by (done || congruence). f_equal.
    destruct (Nat.ltb_spec 1 page_size); [done|]. replace page_size with 1 by lia. by rewrite page_floor_1.
  - rewrite !key_iter_raw by congruence. rewrite (lcp_fmap VInt), lcp_take_min. unfold key_len.
    rewrite Ek, <- Hb. f_equal. destruct (Nat.eqb_spec page_size 1) as [->|]; [by rewrite page_floor_1|done].
Qed.

(** C29: the galloping comparison is exact.  For keys of the same view, [match]
    returns the length of the longest common prefix of their logical units (tokens,
    or adjacent token pairs in the bigram view, both capped by [limit]) rounded down
    to whole pages, and raises [ValueError] exactly when the namespaces differ. *)
Theorem match_is_longest_common_prefix (k other : RadixKey) (page_size : nat)
    (Hpage : 0 < page_size) (Hview : is_bigram k = is_bigram other) :
  match_ k other page_size =
    if bool_decide (extra_key k = extra_key other ∧ cache_salt k = cache_salt other)
    then Ok (page_floor page_size (lcp (key_iter k) (key_iter other)))
    else Raise ValueError.
Proof.
  case_bool_decide as Hc; [by destruct Hc; apply match_lcp|].
  unfold match_, check_compatible. do 2 case_bool_decide; cbn; tauto.
Qed.

Lemma match_is_longest_common_prefix_witness :
  match_ (mkKey [1; 2; 3; 4; 5; 9]%Z None None true None) (mkKey [1; 2; 3; 4; 5; 7; 8]%Z None None true None) 2
    = Ok 4.
Proof. etrans; [apply match_is_longest_common_prefix; [lia|reflexivity]|vm_compute; reflexivity]. Defined.

(** ** Dictionary keys *)

(** A unit of the raw view or of the bigram view. *)
Definition is_unit (bigram : bool) (v : PyVal) : Prop :=
  if bigram then ∃ a b, v = VTuple [VInt a; VInt b] else ∃ a, v = VInt a.

Lemma key_iter_units k i v : key_iter k !! i = Some v → is_unit (is_bigram k) v.
Proof.
  intros Hi. destruct (is_bigram k) eqn:E.
  - apply lookup_lt_Some in Hi as Hl. rewrite key_len_iter in Hl.
    destruct (key_iter_bigram k i E Hl) as (a & b & _ & _ & Hv). rewrite Hi in Hv. injection Hv as ->.
    by exists a, b.
  - rewrite key_iter_raw, list_lookup_fmap in Hi by done. destruct (_ !! i) as [a|]; [|done].
    injection Hi as <-. by exists a.
Qed.

(** The plain part of a dictionary key is the first page of units. *)
Definition page_value (page_size : nat) (units : list PyVal) : PyVal :=
  match page_size, units with
  | 1, u :: _ => u
  | _, _ => VTuple (take page_size units)
  end.

Lemma tok_Ok t i x : tok t i = Ok x ↔ t !! i = Some x.
Proof. unfold tok. destruct (t !! i); split; congruence. Qed.

Lemma child_plain_page k page_size :
  0 < page_size → page_size ≤ key_len k →
  child_plain k page_size = Ok (page_value page_size (key_iter k)).
Proof.
  intros Hp Hl. unfold child_plain. pose proof (key_len_iter k) as Hki.
  assert (Hfirst : ∃ u us, key_iter k = u :: us) by (destruct (key_iter k); [cbn in *; lia|eauto]).
  destruct (is_bigram k) eqn:E.
  - destruct (Nat.eqb_spec page_size 1) as [->|Hp1].
    + destruct (key_iter_bigram k 0 E ltac:(lia)) as (a & b & Ha & Hb & Hu).
      apply tok_Ok in Ha, Hb. rewrite Ha. cbn [mbind result_bind]. rewrite Hb. cbn.
      destruct Hfirst as (u & us & Hus). rewrite Hus in *. cbn in Hu. by injection Hu as ->.
    + rewrite (mapM_Ok_fmap _ (λ j, default VNone (key_iter k !! j))).
      * cbn [mbind result_bind]. f_equal. unfold page_value.
        destruct page_size as [|[|p]]; [lia|lia|]. f_equal. apply list_eq. intros i.
        rewrite list_lookup_fmap. destruct (decide (i < S (S p))).
        -- rewrite lookup_seq_lt, lookup_take_lt by done. cbn.
           destruct (lookup_lt_is_Some_2 (key_iter k) i ltac:(lia)) as [u Hu]. by rewrite Hu.
        -- rewrite !lookup_ge_None_2 by len. done.
      * apply Forall_lookup. intros i j [-> Hj]%lookup_seq. cbn [Nat.add].
        destruct (key_iter_bigram k i E ltac:(lia)) as (a & b & Ha & Hb & Hu).
        apply tok_Ok in Ha, Hb. rewrite Ha. cbn [mbind result_bind]. rewrite Nat.add_1_r, Hb. cbn. by rewrite Hu.
  - rewrite key_iter_raw in * by done. pose proof (raw_len_le k).
    assert (Hr : raw_len k = key_len k) by (unfold key_len; by rewrite E).
    destruct (Nat.eqb_spec page_size 1) as [->|Hp1].
    + destruct (lookup_lt_is_Some_2 (token_ids k) 0 ltac:(lia)) as [a Ha].
      destruct (token_ids k) as [|a' t] eqn:Et; [done|]. cbn in Ha |- *.
      destruct (raw_len k) as [|r] eqn:Er; [lia|]. done.
    + unfold page_value. destruct page_size as [|[|p]]; [lia|lia|].
      rewrite <- fmap_take, take_take, Nat.min_l by lia. done.
Qed.

(** The namespace and first page determine, and are determined by, the key. *)
Lemma child_key_page k page_size :
  0 < page_size → page_size ≤ key_len k → ∃ v,
  child_key k page_size = Ok v ∧
  v = match cache_salt k with
      | Some salt => VTuple [VTuple [vopt (extra_key k); VStr salt]; page_value page_size (key_iter k)]
      | None => match extra_key k with
                | None => page_value page_size (key_iter k)
                | Some e => VTuple [VStr e; page_value page_size (key_iter k)]
                end
      end.
Proof. intros. unfold child_key. rewrite child_plain_page by done. cbn. by eexists. Qed.

(** A plain part never looks like a namespaced key. *)
Lemma page_value_shape k page_size :
  0 < page_size → page_size ≤ key_len k →
  (∀ e p, page_value page_size (key_iter k) ≠ VTuple [VStr e; p]) ∧
  (∀ x s p, page_value page_size (key_iter k) ≠ VTuple [VTuple [x; VStr s]; p]).
Proof.
  intros Hp Hl. assert (Hu : ∃ u us, key_iter k = u :: us ∧ is_unit (is_bigram k) u).
  { pose proof (key_len_iter k). destruct (key_iter k) as [|u us] eqn:E; [cbn in *; lia|].
    exists u, us. split; [done|]. apply (key_iter_units k 0). by rewrite E. }
  destruct Hu as (u & us & -> & Hu). unfold is_unit in Hu.
  destruct page_size as [|[|p]]; [lia|..]; destruct (is_bigram k);
    [destruct Hu as (a & b & ->)|destruct Hu as (a & ->)|destruct Hu as (a & b & ->)|destruct Hu as (a & ->)];
    cbn; split; intros; congruence.
Qed.

Lemma page_value_inj k other page_size :
  0 < page_size → page_size ≤ key_len k → page_size ≤ key_len other →
  page_value page_size (key_iter k) = page_value page_size (key_iter other) →
  is_bigram k = is_bigram other ∧ take page_size (key_iter k) = take page_size (key_iter other).
Proof.
  intros Hp Hk Ho E.
  assert (Hnon : ∀ k, page_size ≤ key_len k → ∃ u us, key_iter k = u :: us ∧ is_unit (is_bigram k) u).
  { clear -Hp. intros k Hk. pose proof (key_len_iter k). destruct (key_iter k) as [|u us] eqn:E; [cbn in *; lia|].
    exists u, us. split; [done|]. apply (key_iter_units k 0). by rewrite E. }
  destruct (Hnon k Hk) as (u & us & Eu & Hu). destruct (Hnon other Ho) as (u' & us' & Eu' & Hu').
  rewrite Eu, Eu' in *. assert (Ht : take page_size (u :: us) = take page_size (u' :: us')).
  { unfold page_value in E. destruct page_size as [|[|p]]; [lia| |injection E as -> E; cbn; cbn in E; by rewrite E]. cbn in E |- *. by rewrite E. }
  split; [|done]. destruct page_size as [|p]; [lia|]. cbn in Ht. injection Ht as -> _.
  unfold is_unit in *. destruct (is_bigram k), (is_bigram other); try done;
    destruct Hu as (? & Hu), Hu' as (? & Hu'); destruct_and?;
    repeat match goal with H : ∃ _, _ |- _ => destruct H end; congruence.
Qed.

Lemma child_key_inj k other page_size c :
  0 < page_size → page_size ≤ key_len k → page_size ≤ key_len other →
  child_key k page_size = Ok c → child_key other page_size = Ok c →
  extra_key k = extra_key other ∧ cache_salt k = cache_salt other ∧ is_bigram k = is_bigram other ∧
  take page_size (key_iter k) = take page_size (key_iter other).
Proof.
  intros Hp Hk Ho Ek Eo. destruct (child_key_page k page_size Hp Hk) as (v & Ev & Hv).
  destruct (child_key_page other page_size Hp Ho) as (v' & Ev' & Hv').
  assert (v = v') as <- by congruence. rewrite Hv in Hv'. clear Ev Ev' Hv Ek Eo.
  destruct (page_value_shape k page_size Hp Hk) as [Hk1 Hk2].
  destruct (page_value_shape other page_size Hp Ho) as [Ho1 Ho2].
  assert (Hpv : extra_key k = extra_key other ∧ cache_salt k = cache_salt other ∧
    page_value page_size (key_iter k) = page_value page_size (key_iter other)).
  { destruct (cache_salt k), (cache_salt other), (extra_key k), (extra_key other); cbn in *;
      try (split_and!; congruence); exfalso; symmetry in Hv' || idtac;
      first [by apply Hk1 in Hv' | by apply Hk2 in Hv' | by apply Ho1 in Hv' | by apply Ho2 in Hv'
            |symmetry in Hv'; first [by apply Hk1 in Hv' | by apply Hk2 in Hv' | by apply Ho1 in Hv' | by apply Ho2 in Hv']
            |congruence]. }
  destruct Hpv as (? & ? & Hpv). destruct (page_value_inj k other page_size Hp Hk Ho Hpv). done.
Qed.

(** Dictionary keys never confuse namespaces.  Two keys that hold a page get the
    same [child_key] exactly when [extra_key], [cache_salt], the view and the first
    page of units all agree, so that a plain key, an [extra_key] key and a salted key
    never collide in [children]. *)
Theorem child_key_injective (k other : RadixKey) (page_size : nat) (Hpage : 0 < page_size)
    (Hk : page_size ≤ key_len k) (Ho : page_size ≤ key_len other) :
  (∃ c c', child_key k page_size = Ok c ∧ child_key other page_size = Ok c' ∧
    (c = c' ↔ extra_key k = extra_key other ∧ cache_salt k = cache_salt other ∧
       is_bigram k = is_bigram other ∧ take page_size (key_iter k) = take page_size (key_iter other))).
Proof.
  destruct (child_key_page k page_size Hpage Hk) as (v & Ev & Hv).
  destruct (child_key_page other page_size Hpage Ho) as (v' & Ev' & Hv').
  exists v, v'. split_and!; [done..|]. split.
  - intros <-. by eapply child_key_inj.
  - intros (He & Hs & _ & Ht). rewrite Hv, Hv', He, Hs.
    assert (Hp : page_value page_size (key_iter k) = page_value page_size (key_iter other)).
    { pose proof (key_len_iter k). pose proof (key_len_iter other).
      destruct (key_iter k) as [|u us]; [cbn in *; lia|]. destruct (key_iter other) as [|u' us']; [cbn in *; lia|].
      unfold page_value. destruct page_size as [|[|p]]; [lia| |by rewrite Ht]. cbn in Ht. congruence. }
    by rewrite Hp.
Qed.

Lemma child_key_injective_witness :
  ∃ c c', child_key (mkKey [1; 2; 3]%Z None None false None) 2 = Ok c ∧
    child_key (mkKey [1; 2; 4]%Z (Some "a") None false None) 2 = Ok c' ∧
    (c = c' ↔ None = Some "a" ∧ @None string = None ∧ false = false ∧
       take 2 (VInt <$> [1; 2; 3]%Z) = take 2 (VInt <$> [1; 2; 4]%Z)).
Proof.
  apply (child_key_injective (mkKey [1; 2; 3]%Z None None false None)
    (mkKey [1; 2; 4]%Z (Some "a") None false None) 2); cbn; lia.
Defined.
