(* ===== verification/AllocExtend.v ===== *)
(** * AllocExtend: slot assignment of the paged allocator

    Models the Triton kernels [alloc_extend_kernel] and [alloc_decode_kernel]
    ([sglang/python/sglang/kernels/ops/memory/allocator.py]), the reference
    [alloc_extend_naive] ([sglang/srt/mem_cache/allocator/paged.py]) and
    [get_num_new_pages] ([sglang/srt/utils/common.py]).  Lengths are naturals, slot
    and page numbers are [Z].  A kernel launch runs its programs over the output
    tensor in an arbitrary order [pids]; a masked store is a write of the unmasked prefix; a load outside
    [free_pages] reads 0 (the caller discards the output in that case). *)

From S2P Require Import Prelude.
#[local] Open Scope nat_scope.

(** [(n + page_size - 1) // page_size]. *)
Definition pages_of (ps n : nat) : nat := (n + ps - 1) / ps.
Definition new_pages (ps : nat) (r : nat * nat) : nat := pages_of ps r.2 - pages_of ps r.1.

Definition get_num_new_pages (ps : nat) (prefix_lens : option (list nat)) (seq_lens : list nat)
    (decode : bool) : result nat :=
  match prefix_lens, decode with
  | Some prefix_lens, false => Ok (sum_list (new_pages ps <$> zip prefix_lens seq_lens))
  | _, true => Ok (length (filter (λ n, n mod ps = 1) seq_lens))
  | None, false => Raise AssertionError
  end.

(** [free_page_ptr[i]]. *)
Definition load_page (free_pages : list Z) (i : nat) : Z := default 0%Z (free_pages !! i).

(** A store of [f 0 .. f (n-1)] at [start]. *)
Definition store (out : list Z) (start n : nat) (f : nat → Z) : list Z :=
  list_inserts start (f <$> seq 0 n) out.

Section kernels.
Variables (ps : nat) (free_pages : list Z).

Definition BLOCK_EXTEND : nat := 4096.

(** Program [pid] of [alloc_extend_kernel]; a request is (prefix, sequence) lengths. *)
Definition extend_program (reqs : list (nat * nat)) (last_locs : list Z) (out : list Z) (pid : nat)
  : list Z :=
  let extend_lens := (λ r : nat * nat, r.2 - r.1) <$> take (S pid) reqs in
  let '(pre_len, seq_len) := reqs !!! pid in
  let extend_len := seq_len - pre_len in
  let output_start_loc := sum_list extend_lens - extend_len in
  let num_new_pages := new_pages ps <$> take (S pid) reqs in
  let num_page_start_loc_self := new_pages ps (pre_len, seq_len) in
  let new_page_start_loc := sum_list num_new_pages - num_page_start_loc_self in
  (* Part 1: the old partial page *)
  let last_loc := last_locs !!! pid in
  let num_part1 := Nat.min seq_len (pages_of ps pre_len * ps) - pre_len in
  let out := store out output_start_loc (Nat.min ps num_part1)
               (λ o, (last_loc + 1 + Z.of_nat o)%Z) in
  if pre_len + num_part1 =? seq_len then out else
  (* Part 2: the new full pages, in blocks *)
  let num_part2 := seq_len / ps * ps - pages_of ps pre_len * ps in
  let num_blocks := (num_part2 + BLOCK_EXTEND - 1) / BLOCK_EXTEND in
  let out := foldl (λ out block_id,
    store out (output_start_loc + num_part1 + block_id * BLOCK_EXTEND)
      (Nat.min BLOCK_EXTEND (num_part2 - block_id * BLOCK_EXTEND))
      (λ o, let offset := block_id * BLOCK_EXTEND + o in
            (load_page free_pages (new_page_start_loc + offset / ps) * Z.of_nat ps +
             Z.of_nat (offset mod ps))%Z)) out (seq 0 num_blocks) in
  if pre_len + num_part1 + num_part2 =? seq_len then out else
  (* Part 3: the new partial page *)
  let num_part3 := seq_len - seq_len / ps * ps in
  let start_loc := load_page free_pages (new_page_start_loc + num_page_start_loc_self - 1) in
  store out (output_start_loc + num_part1 + num_part2) (Nat.min ps num_part3)
    (λ o, (start_loc * Z.of_nat ps + Z.of_nat o)%Z).

(** A launch on grid [(bs,)]; [pids] is the order in which the programs run. *)
Definition alloc_extend_kernel (pids : list nat) (reqs : list (nat * nat)) (last_locs out : list Z)
  : list Z :=
  foldl (extend_program reqs last_locs) out pids.

(** Program [pid] of [alloc_decode_kernel]. *)
Definition decode_program (seq_lens : list nat) (last_locs : list Z) (out : list Z) (pid : nat)
  : list Z :=
  let num_new_pages := (λ n, new_pages ps (n - 1, n)) <$> take (S pid) seq_lens in
  let seq_len := seq_lens !!! pid in
  let num_page_start_loc_self := new_pages ps (seq_len - 1, seq_len) in
  let new_page_start_loc := sum_list num_new_pages - num_page_start_loc_self in
  if num_page_start_loc_self =? 0
  then <[pid := (last_locs !!! pid + 1)%Z]> out
  else <[pid := (load_page free_pages new_page_start_loc * Z.of_nat ps)%Z]> out.

Definition alloc_decode_kernel (pids seq_lens : list nat) (last_locs out : list Z) : list Z :=
  foldl (decode_program seq_lens last_locs) out pids.

(** ** The reference *)

(** [t[a:b] = src]. *)
Definition assign_range (a b : nat) (src out : list Z) : result (list Z) :=
  _ ← py_check RuntimeError (length src =? length (out.[a, b]));
  slice_assign a src out.

Definition naive_request (reqs : list (nat * nat)) (last_locs : list Z) (i : nat) (out : list Z)
  : result (list Z) :=
  let end_pos := sum_list ((λ r : nat * nat, r.2 - r.1) <$> take (S i) reqs) in
  let '(pre, sl) := reqs !!! i in
  let start_pos := end_pos - (sl - pre) in
  let num_new := new_pages ps (pre, sl) in
  let num_full_new := sl / ps - pages_of ps pre in
  let need_page := num_new - num_full_new in
  let end_new := sum_list (new_pages ps <$> take (S i) reqs) in
  let start_new := end_new - num_new in
  let pos_in_page := Z.of_nat <$> seq 0 ps in
  let num1 := Nat.min sl (pages_of ps pre * ps) - pre in
  out ← (if num1 =? 0 then Ok out else
         assign_range start_pos (start_pos + num1)
           ((λ o, (last_locs !!! i + 1 + o)%Z) <$> pos_in_page.[0, num1]) out);
  if pre + num1 =? sl then Ok out else
  let num2 := (sl / ps - pages_of ps pre) * ps in
  out ← (if num2 =? 0 then Ok out else
         let pages := (λ p, (p * Z.of_nat ps)%Z) <$> free_pages.[start_new, end_new - need_page] in
         assign_range (start_pos + num1) (start_pos + num1 + num2)
           (pages ≫= λ p, (λ o, (p + o)%Z) <$> pos_in_page) out);
  if pre + num1 + num2 =? sl then Ok out else
  let num3 := sl - sl / ps * ps in
  if num3 =? 0 then Ok out else
  match free_pages !! (end_new - 1) with
  | None => Raise IndexError
  | Some p =>
      assign_range (end_pos - num3) end_pos
        ((λ o, (p * Z.of_nat ps + o)%Z) <$> pos_in_page.[0, num3]) out
  end.

Fixpoint naive_loop (reqs : list (nat * nat)) (last_locs : list Z) (ids : list nat) (out : list Z)
  : result (list Z) :=
  match ids with
  | [] => Ok out
  | i :: ids => out ← naive_request reqs last_locs i out; naive_loop reqs last_locs ids out
  end.

Definition alloc_extend_naive (reqs : list (nat * nat)) (last_locs : list Z) (out : list Z)
  : result (list Z) :=
  naive_loop reqs last_locs (seq 0 (length reqs)) out.
End kernels.

(** ** Stores *)

Lemma store_app out start n m f :
  store (store out start n f) (start + n) m (λ o, f (n + o)) = store out start (n + m) f.
Proof.
  unfold store. rewrite seq_app, fmap_app, list_inserts_app_l, length_fmap, length_seq.
  f_equal; [lia|]. by rewrite Nat.add_0_l, (fmap_seq_shift f n).
Qed.

Lemma store_ext out start n f g : (∀ o, o < n → f o = g o) → store out start n f = store out start n g.
Proof.
  intros Hfg. unfold store. f_equal. apply list_fmap_ext. intros i o [-> Hi]%lookup_seq. by apply Hfg.
Qed.

Lemma length_store out start n f : length (store out start n f) = length out.
Proof. unfold store. apply length_inserts. Qed.

(** The blocked loop of part 2 is one store. *)
Lemma blocked_store out start n B f nb :
  foldl (λ out b, store out (start + b * B) (Nat.min B (n - b * B)) (λ o, f (b * B + o))) out (seq 0 nb) =
    store out start (Nat.min (nb * B) n) f.
Proof.
  induction nb as [|nb IH]; [unfold store; cbn; done|].
  rewrite seq_S, foldl_app, IH. cbn [foldl]. rewrite Nat.add_0_l.
  destruct (decide (nb * B ≤ n)) as [Hle|Hgt].
  - rewrite Nat.min_l by done. rewrite store_app. f_equal. lia.
  - replace (n - nb * B) with 0 by lia. rewrite Nat.min_0_r.
    by replace (Nat.min (S nb * B) n) with (Nat.min (nb * B) n) by lia.
Qed.

Lemma num_blocks_cover n B : 0 < B → n ≤ (n + B - 1) / B * B.
Proof.
  intros HB. pose proof (Nat.div_mod (n + B - 1) B ltac:(lia)).
  pose proof (Nat.mod_upper_bound (n + B - 1) B ltac:(lia)). nia.
Qed.

(** Writes to disjoint ranges commute. *)
Lemma list_inserts_comm {A} (i j : nat) (k1 k2 l : list A) :
  i + length k1 ≤ j ∨ j + length k2 ≤ i →
  list_inserts i k1 (list_inserts j k2 l) = list_inserts j k2 (list_inserts i k1 l).
Proof.
  intros Hdisj. apply list_eq. intros p. apply option_eq. intros x.
  rewrite !list_lookup_inserts_Some, !length_inserts. intuition lia.
Qed.

Lemma foldl_ext_in {A B} (f g : B → A → B) b l :
  (∀ b x, x ∈ l → f b x = g b x) → foldl f b l = foldl g b l.
Proof.
  revert b. induction l as [|x l IH]; intros b Hfg; [done|]. cbn. rewrite Hfg by (by left).
  apply IH. intros. apply Hfg. by right.
Qed.

Lemma list_bind_ext_in {A B} (f g : A → list B) l : (∀ x, x ∈ l → f x = g x) → l ≫= f = l ≫= g.
Proof.
  induction l as [|x l IH]; intros Hfg; [done|]. cbn. rewrite Hfg by (by left). f_equal. apply IH.
  intros. apply Hfg. by right.
Qed.

Lemma foldl_perm_in {A B} (f : B → A → B) l1 l2 :
  l1 ≡ₚ l2 → NoDup l1 →
  (∀ b x y, x ∈ l1 → y ∈ l1 → x ≠ y → f (f b x) y = f (f b y) x) →
  ∀ b, foldl f b l1 = foldl f b l2.
Proof.
  induction 1 as [|x l1 l2 Hl IH|x y l|l1 l2 l3 H12 IH1 H23 IH2]; intros Hnd Hc b; cbn.
  - done.
  - apply NoDup_cons in Hnd as [_ Hnd]. apply IH; [done|]. intros. apply Hc; [by right..|done].
  - apply NoDup_cons in Hnd as [Hx _]. rewrite Hc; [done|set_solver..].
  - rewrite IH1 by done. apply IH2; [by rewrite <- H12|]. intros ? ? ?. rewrite <- H12. apply Hc.
Qed.

(** ** The slots of one request *)

Section slots.
Variables (ps : nat) (free_pages : list Z).
Hypothesis Hps : 0 < ps.

(** Slot of position [p] of a request with prefix [pre] whose last prefix slot is
    [last] and whose new pages start at index [first] of [free_pages]. *)
Definition slot (pre : nat) (last : Z) (first p : nat) : Z :=
  if p <? pages_of ps pre * ps then (last + 1 + Z.of_nat (p - pre))%Z
  else (load_page free_pages (first + (p / ps - pages_of ps pre)) * Z.of_nat ps + Z.of_nat (p mod ps))%Z.

Definition slots (r : nat * nat) (last : Z) (first : nat) : list Z :=
  slot r.1 last first <$> seq r.1 (r.2 - r.1).

Lemma pages_of_bounds n : n ≤ pages_of ps n * ps ∧ pages_of ps n * ps < n + ps.
Proof using Hps.
  unfold pages_of. pose proof (Nat.div_mod (n + ps - 1) ps ltac:(lia)).
  pose proof (Nat.mod_upper_bound (n + ps - 1) ps ltac:(lia)). nia.
Qed.

Lemma pages_of_unique n k : n ≤ k * ps → k * ps < n + ps → pages_of ps n = k.
Proof using Hps. intros. pose proof (pages_of_bounds n). nia. Qed.

Lemma pages_of_mono a b : a ≤ b → pages_of ps a ≤ pages_of ps b.
Proof using Hps. intros. unfold pages_of. apply Nat.Div0.div_le_mono. lia. Qed.

Lemma div_le_pages_of n : n / ps ≤ pages_of ps n ∧ pages_of ps n ≤ n / ps + 1.
Proof using Hps.
  pose proof (pages_of_bounds n). pose proof (Nat.div_mod n ps ltac:(lia)).
  pose proof (Nat.mod_upper_bound n ps ltac:(lia)). split; nia.
Qed.

Lemma slots_store out start (r : nat * nat) last first :
  list_inserts start (slots r last first) out =
    store out start (r.2 - r.1) (λ o, slot r.1 last first (r.1 + o)).
Proof.
  unfold slots, store. f_equal. apply fmap_seq_shift.
Qed.

(** Offset [o] of the part that starts at the page boundary [c * ps]. *)
Lemma slot_new_page pre last first o :
  slot pre last first (pages_of ps pre * ps + o) =
    (load_page free_pages (first + o / ps) * Z.of_nat ps + Z.of_nat (o mod ps))%Z.
Proof using Hps.
  unfold slot. destruct (Nat.ltb_spec (pages_of ps pre * ps + o) (pages_of ps pre * ps)); [lia|].
  replace (pages_of ps pre * ps + o) with (o + pages_of ps pre * ps) by lia.
  rewrite Nat.div_add, Nat.Div0.mod_add by lia. do 4 f_equal. lia.
Qed.
Lemma partial_mod pre p : pre ≤ p → p < pages_of ps pre * ps → pre mod ps ≠ 0 ∧ p / ps = pages_of ps pre - 1.
Proof using Hps.
  intros Hp Hlt. pose proof (pages_of_bounds pre). set (c := pages_of ps pre) in *.
  assert (Hcm : c * ps = ps * (c - 1) + ps) by (destruct c; lia). split.
  - intros E. pose proof (Nat.div_mod pre ps ltac:(lia)) as Hdm. rewrite E, Nat.add_0_r in Hdm.
    assert (pre / ps = c - 1); [|nia]. symmetry. apply (Nat.div_unique _ _ _ (pre - ps * (c - 1))); lia.
  - symmetry. apply (Nat.div_unique _ _ _ (p - ps * (c - 1))); lia.
Qed.

Lemma div_below_pages p sl : p < sl → p / ps < pages_of ps sl.
Proof using Hps. intros. pose proof (pages_of_bounds sl). apply Nat.Div0.div_lt_upper_bound; lia. Qed.

Lemma div_above_pages pre p : pages_of ps pre * ps ≤ p → pages_of ps pre ≤ p / ps.
Proof using Hps. intros. apply Nat.div_le_lower_bound; lia. Qed.
End slots.

Section requests.
Variables (ps : nat) (free_pages : list Z) (reqs : list (nat * nat)) (last_locs : list Z).
Hypothesis Hps : 0 < ps.
Hypothesis Hreqs : Forall (λ r, r.1 ≤ r.2) reqs.

Definition ext_len (r : nat * nat) : nat := r.2 - r.1.
Definition ext_start (i : nat) : nat := sum_list (ext_len <$> take i reqs).
Definition first_page (i : nat) : nat := sum_list (new_pages ps <$> take i reqs).

(** The slots of request [i]. *)
Definition req_slots (i : nat) : list Z :=
  slots ps free_pages (reqs !!! i) (last_locs !!! i) (first_page i).

Lemma sum_take_S (f : nat * nat → nat) i r :
  reqs !! i = Some r → sum_list (f <$> take (S i) reqs) = sum_list (f <$> take i reqs) + f r.
Proof.
  intros Hr. rewrite (take_S_r _ _ _ Hr), fmap_app, sum_list_with_app. cbn. lia.
Qed.

Lemma part1_slots (r : nat * nat) last first o :
  r.1 + o < pages_of ps r.1 * ps → slot ps free_pages r.1 last first (r.1 + o) = (last + 1 + Z.of_nat o)%Z.
Proof. intros Ho. unfold slot. apply Nat.ltb_lt in Ho. rewrite Ho. do 2 f_equal. lia. Qed.

(** One program of the kernel writes exactly its request's slots. *)
Lemma extend_program_slots out i :
  i < length reqs →
  extend_program ps free_pages reqs last_locs out i = list_inserts (ext_start i) (req_slots i) out.
Proof.
  intros Hi. destruct (lookup_lt_is_Some_2 _ _ Hi) as [[pre sl] Hr].
  rewrite Forall_lookup in Hreqs. pose proof (Hreqs _ _ Hr) as Hle. cbn in Hle.
  unfold extend_program, req_slots. rewrite (list_lookup_total_correct _ _ _ Hr), slots_store.
  change (λ r : nat * nat, r.2 - r.1) with ext_len. rewrite !(sum_take_S _ _ _ Hr).
  fold (ext_start i) (first_page i). cbn [fst snd]. change (ext_len (pre, sl)) with (sl - pre).
  rewrite !Nat.add_sub. set (last := last_locs !!! i). set (first := first_page i).
  pose proof (pages_of_bounds ps Hps pre) as Hc. set (c := pages_of ps pre) in *.
  set (g := λ o, slot ps free_pages pre last first (pre + o)).
  set (n1 := Nat.min sl (c * ps) - pre).
  rewrite (store_ext out (ext_start i) (Nat.min ps n1) _ g).
  2: { intros o Ho. unfold g. symmetry. apply (part1_slots (pre, sl)). cbn. fold c. lia. }
  rewrite Nat.min_r by lia. destruct (Nat.eqb_spec (pre + n1) sl) as [E1|E1].
  { by replace (sl - pre) with n1 by lia. }
  assert (Hn1 : n1 = c * ps - pre) by lia. assert (Hcs : c * ps < sl) by lia.
  pose proof (Nat.div_mod sl ps ltac:(lia)) as Hdm. pose proof (Nat.mod_upper_bound sl ps ltac:(lia)) as Hmod.
  set (n2 := sl / ps * ps - c * ps).
  assert (Hg2 : ∀ o, g (n1 + o) = (load_page free_pages (first + o / ps) * Z.of_nat ps + Z.of_nat (o mod ps))%Z).
  { intros o. unfold g. replace (pre + (n1 + o)) with (c * ps + o) by lia. by apply slot_new_page. }
  rewrite (blocked_store _ (ext_start i + n1) n2 BLOCK_EXTEND
    (λ o, (load_page free_pages (first + o / ps) * Z.of_nat ps + Z.of_nat (o mod ps))%Z)).
  rewrite Nat.min_r by (apply num_blocks_cover; unfold BLOCK_EXTEND; lia).
  rewrite (store_ext _ _ n2 _ (λ o, g (n1 + o))) by (intros; by rewrite Hg2).
  rewrite store_app. destruct (Nat.eqb_spec (pre + n1 + n2) sl) as [E2|E2].
  { by replace (sl - pre) with (n1 + n2) by lia. }
  assert (Hdc : c ≤ sl / ps) by (apply Nat.div_le_lower_bound; lia).
  set (n3 := sl - sl / ps * ps). rewrite (Nat.min_r ps n3) by lia.
  rewrite <- Nat.add_assoc. rewrite (store_ext _ _ n3 _ (λ o, g (n1 + n2 + o))).
  - rewrite store_app. f_equal. unfold n2, n3. nia.
  - intros o Ho. rewrite <- Nat.add_assoc, Hg2.
    assert (Hdiv : (n2 + o) / ps = sl / ps - c ∧ (n2 + o) mod ps = o).
    { assert (E : n2 + o = o + (sl / ps - c) * ps) by (unfold n2; nia).
      rewrite E, Nat.div_add, Nat.Div0.mod_add, Nat.div_small, Nat.mod_small by lia. lia. }
    destruct Hdiv as [-> ->]. do 3 f_equal.
    assert (Hnp : new_pages ps (pre, sl) = sl / ps - c + 1); [|rewrite Hnp; f_equal; lia].
    unfold new_pages. cbn [fst snd]. fold c. enough (pages_of ps sl = sl / ps + 1) by lia.
    pose proof (pages_of_bounds ps Hps sl). pose proof (div_le_pages_of ps Hps sl). nia.
Qed.

(** *** The whole launch *)

Definition all_slots : list Z := seq 0 (length reqs) ≫= req_slots.
Definition total_len : nat := sum_list (ext_len <$> reqs).
Definition total_pages : nat := sum_list (new_pages ps <$> reqs).

Lemma length_req_slots i r : reqs !! i = Some r → length (req_slots i) = ext_len r.
Proof.
  intros Hr. unfold req_slots, slots. by rewrite length_fmap, length_seq, (list_lookup_total_correct _ _ _ Hr).
Qed.

Lemma sum_take_mono (f : nat * nat → nat) i j : i ≤ j → sum_list (f <$> take i reqs) ≤ sum_list (f <$> take j reqs).
Proof.
  intros Hij. rewrite <- (take_drop i (take j reqs)), take_take, Nat.min_l, fmap_app, sum_list_with_app by done. lia.
Qed.

Lemma sum_take_le_total (f : nat * nat → nat) i : sum_list (f <$> take i reqs) ≤ sum_list (f <$> reqs).
Proof. rewrite <- (take_drop i reqs) at 2. rewrite fmap_app, sum_list_with_app. lia. Qed.

(** The part of the output that belongs to request [i]. *)
Lemma ext_start_S i r : reqs !! i = Some r → ext_start (S i) = ext_start i + ext_len r.
Proof. apply sum_take_S. Qed.

Lemma programs_commute out i j :
  i < length reqs → j < length reqs → i ≠ j →
  list_inserts (ext_start i) (req_slots i) (list_inserts (ext_start j) (req_slots j) out) =
    list_inserts (ext_start j) (req_slots j) (list_inserts (ext_start i) (req_slots i) out).
Proof.
  intros Hi Hj Hne. destruct (lookup_lt_is_Some_2 _ _ Hi) as [ri Hri], (lookup_lt_is_Some_2 _ _ Hj) as [rj Hrj].
  pose proof (ext_start_S _ _ Hri) as Ei. pose proof (ext_start_S _ _ Hrj) as Ej.
  assert (ext_start (S i) ≤ ext_start j ∨ ext_start (S j) ≤ ext_start i) as Hdisj.
  { destruct (decide (i < j)); [left|right]; apply sum_take_mono; lia. }
  apply list_inserts_comm; rewrite (length_req_slots _ _ Hri), (length_req_slots _ _ Hrj); lia.
Qed.

Lemma inserts_prefix out k :
  k ≤ length reqs →
  foldl (λ out i, list_inserts (ext_start i) (req_slots i) out) out (seq 0 k) =
    list_inserts 0 (seq 0 k ≫= req_slots) out ∧ length (seq 0 k ≫= req_slots) = ext_start k.
Proof.
  induction k as [|k IH]; intros Hk; [done|].
  destruct (IH ltac:(lia)) as [IHl IHn]. destruct (lookup_lt_is_Some_2 reqs k ltac:(lia)) as [r Hr].
  rewrite seq_S, foldl_app, bind_app, IHl. cbn [foldl mbind list_bind]. rewrite Nat.add_0_l, app_nil_r.
  rewrite list_inserts_app_l, length_app, IHn, Nat.add_0_r, (ext_start_S _ _ Hr), (length_req_slots _ _ Hr). done.
Qed.

Lemma length_all_slots : length all_slots = total_len.
Proof.
  unfold all_slots. rewrite (proj2 (inserts_prefix [] (length reqs) ltac:(lia))).
  unfold ext_start. by rewrite take_ge by lia.
Qed.

(** Whatever the order of its programs, the launch produces the slots of the requests. *)
Lemma alloc_extend_kernel_slots pids out :
  pids ≡ₚ seq 0 (length reqs) → length out = total_len →
  alloc_extend_kernel ps free_pages pids reqs last_locs out = all_slots.
Proof.
  intros Hpids Hout. unfold alloc_extend_kernel.
  transitivity (foldl (λ out i, list_inserts (ext_start i) (req_slots i) out) out pids).
  { apply foldl_ext_in. intros b i Hi%(elem_of_Permutation_proper _ _ _ Hpids)%elem_of_seq.
    apply extend_program_slots. lia. }
  rewrite (foldl_perm_in _ _ _ Hpids).
  - rewrite (proj1 (inserts_prefix out (length reqs) ltac:(lia))). fold all_slots.
    rewrite <- (app_nil_r all_slots) at 1. apply list_inserts_0_l. by rewrite length_all_slots.
  - rewrite Hpids. apply NoDup_seq.
  - intros b i j Hi Hj Hne. rewrite Hpids, elem_of_seq in Hi, Hj. apply programs_commute; lia || done.
Qed.

(** *** The reference *)

Lemma assign_range_ok a b src out :
  b = a + length src → b ≤ length out → assign_range a b src out = Ok (list_inserts a src out).
Proof.
  intros -> Hb. unfold assign_range. rewrite py_check_true; [|len; apply Nat.eqb_eq; lia]. cbn [mbind result_bind].
  rewrite slice_assign_ok by done. f_equal. apply list_eq. intros p. apply option_eq. intros x.
  rewrite list_lookup_inserts_Some. destruct (decide (p < a)).
  { rewrite lookup_app_l, lookup_take_lt by (len; lia). intuition lia. }
  rewrite lookup_app_r, length_take, Nat.min_l by (len; lia). destruct (decide (p < a + length src)).
  - rewrite lookup_app_l by lia. intuition lia.
  - rewrite lookup_app_r, lookup_drop by lia. replace (a + length src + (p - a - length src)) with p by lia.
    intuition lia.
Qed.

Lemma pos_in_page_slice n (f : Z → Z) :
  n ≤ ps → f <$> (Z.of_nat <$> seq 0 ps).[0, n] = (λ o, f (Z.of_nat o)) <$> seq 0 n.
Proof.
  intros Hn. rewrite py_slice_0, <- fmap_take, take_seq, Nat.min_l by done. by rewrite <- list_fmap_compose.
Qed.

(** Part 2 of the reference lists the slots of [k] whole pages. *)
Lemma pages_product first k :
  first + k ≤ length free_pages →
  ((λ p, (p * Z.of_nat ps)%Z) <$> free_pages.[first, first + k]) ≫=
      (λ p, (λ o, (p + o)%Z) <$> (Z.of_nat <$> seq 0 ps)) =
    (λ o, (load_page free_pages (first + o / ps) * Z.of_nat ps + Z.of_nat (o mod ps))%Z) <$> seq 0 (k * ps).
Proof.
  induction k as [|k IH]; intros Hk; [by rewrite py_slice_nil by lia|].
  destruct (lookup_lt_is_Some_2 free_pages (first + k) ltac:(lia)) as [pg Hpg].
  assert (free_pages.[first, first + S k] = free_pages.[first, first + k] ++ [pg]) as ->.
  { unfold py_slice. replace (first + S k - first) with (S k) by lia. replace (first + k - first) with k by lia.
    apply take_S_r. by rewrite lookup_drop. }
  rewrite fmap_app, bind_app, IH by lia. replace (S k * ps) with (k * ps + ps) by lia.
  rewrite seq_app, fmap_app. f_equal. cbn [fmap list_fmap mbind list_bind]. rewrite app_nil_r, Nat.add_0_l.
  rewrite <- list_fmap_compose, (fmap_seq_shift _ (k * ps)). apply list_fmap_ext. intros o ? [-> Ho]%lookup_seq.
  cbn. replace (k * ps + o) with (o + k * ps) by lia. rewrite Nat.div_add, Nat.Div0.mod_add by lia.
  rewrite Nat.div_small, Nat.mod_small by lia. unfold load_page. by rewrite Nat.add_0_l, Hpg.
Qed.

Lemma first_page_bound i r :
  reqs !! i = Some r → total_pages ≤ length free_pages → first_page i + new_pages ps r ≤ length free_pages.
Proof.
  intros Hr Hfree. pose proof (sum_take_le_total (new_pages ps) (S i)) as Hle.
  rewrite (sum_take_S _ _ _ Hr) in Hle. unfold first_page, total_pages in *. lia.
Qed.

Lemma new_pages_part3 pre sl :
  pages_of ps pre * ps < sl → sl mod ps ≠ 0 → new_pages ps (pre, sl) = S (sl / ps - pages_of ps pre).
Proof.
  intros Hc Hmod. unfold new_pages. cbn [fst snd].
  pose proof (Nat.div_mod sl ps ltac:(lia)). pose proof (Nat.mod_upper_bound sl ps ltac:(lia)).
  pose proof (pages_of_bounds ps Hps sl). pose proof (div_le_pages_of ps Hps sl).
  assert (pages_of ps pre ≤ sl / ps) by (apply Nat.div_le_lower_bound; lia).
  assert (pages_of ps sl = sl / ps + 1) by nia. lia.
Qed.

Lemma if_store_0 n a f out : (if n =? 0 then Ok out else Ok (store out a n f)) = Ok (store out a n f).
Proof. destruct (Nat.eqb_spec n 0) as [->|]; done. Qed.

Lemma assign_range_store a b n f out :
  b = a + n → b ≤ length out → assign_range a b (f <$> seq 0 n) out = Ok (store out a n f).
Proof. intros -> Hb. apply assign_range_ok; [by rewrite length_fmap, length_seq|done]. Qed.

(** With enough free pages the reference does what one program does. *)
Lemma naive_request_ok out i :
  i < length reqs → total_pages ≤ length free_pages → length out = total_len →
  naive_request ps free_pages reqs last_locs i out = Ok (extend_program ps free_pages reqs last_locs out i).
Proof.
  intros Hi Hfree Hout. destruct (lookup_lt_is_Some_2 _ _ Hi) as [[pre sl] Hr].
  pose proof (first_page_bound _ _ Hr Hfree) as Hfirst. pose proof (ext_start_S _ _ Hr) as HS.
  pose proof (sum_take_le_total ext_len (S i)) as Htot. fold (ext_start (S i)) total_len in Htot.
  rewrite HS in Htot. clear HS. rewrite Forall_lookup in Hreqs. pose proof (Hreqs _ _ Hr) as Hle. cbn in Hle.
  unfold naive_request, extend_program. rewrite (list_lookup_total_correct _ _ _ Hr).
  change (λ r : nat * nat, r.2 - r.1) with ext_len. rewrite !(sum_take_S _ _ _ Hr).
  fold (ext_start i) (first_page i). change (ext_len (pre, sl)) with (sl - pre) in *.
  rewrite !Nat.add_sub. pose proof (pages_of_bounds ps Hps pre) as Hc.
  set (np := new_pages ps (pre, sl)) in *. set (c := pages_of ps pre) in *. set (n1 := Nat.min sl (c * ps) - pre).
  rewrite (Nat.min_r ps n1) by lia.
  rewrite pos_in_page_slice, assign_range_store by lia.
  rewrite if_store_0. cbn [mbind result_bind]. destruct (Nat.eqb_spec (pre + n1) sl) as [E1|E1]; [done|].
  set (out1 := store out (ext_start i) n1 _).
  assert (Hout1 : length out1 = total_len) by (unfold out1; by rewrite length_store).
  assert (Hdc : c ≤ sl / ps) by (apply Nat.div_le_lower_bound; lia).
  pose proof (Nat.div_mod sl ps ltac:(lia)) as Hdm. pose proof (Nat.mod_upper_bound sl ps ltac:(lia)) as Hmod.
  set (k := sl / ps - c) in *. set (g := λ o, (load_page free_pages (first_page i + o / ps) * Z.of_nat ps + Z.of_nat (o mod ps))%Z).
  rewrite (blocked_store _ (ext_start i + n1) (sl / ps * ps - c * ps) BLOCK_EXTEND g).
  rewrite Nat.min_r by (apply num_blocks_cover; unfold BLOCK_EXTEND; lia).
  assert (Hn2 : sl / ps * ps - c * ps = k * ps) by (unfold k; nia). rewrite Hn2. rewrite <- !Nat.add_assoc in *.
  assert (Hk : k * ps ≤ sl ∧ pre + n1 + k * ps ≤ sl) by nia.
  assert (Hnp : sl mod ps ≠ 0 → np = S k) by (intros; apply new_pages_part3; [lia|done]).
  assert (Hnp0 : k ≤ np ∧ (sl mod ps = 0 → np = k)).
  { unfold np, k, new_pages. cbn [fst snd]. fold c. pose proof (div_le_pages_of ps Hps sl).
    pose proof (pages_of_bounds ps Hps sl). split; [lia|]. intros. assert (pages_of ps sl = sl / ps) by nia. lia. }
  replace (first_page i + np - (np - k)) with (first_page i + k) by lia.
  rewrite pages_product by lia. fold g. rewrite assign_range_store by lia.
  rewrite if_store_0. cbn [mbind result_bind].
  destruct (Nat.eqb_spec (pre + (n1 + k * ps)) sl) as [E2|E2]; [done|].
  assert (Hm0 : sl mod ps ≠ 0) by nia. rewrite (Hnp Hm0) in *.
  assert (Hn3 : sl - sl / ps * ps ≤ ps) by lia. rewrite (Nat.min_r ps) by done.
  destruct (Nat.eqb_spec (sl - sl / ps * ps) 0) as [E3|_]; [lia|].
  destruct (lookup_lt_is_Some_2 free_pages (first_page i + S k - 1) ltac:(lia)) as [pg Hpg].
  rewrite Hpg, pos_in_page_slice, assign_range_store by (rewrite ?length_store; nia).
  unfold load_page. rewrite Hpg. cbn [default]. f_equal. f_equal. nia.
Qed.

Lemma naive_loop_ok ids out :
  Forall (λ i, i < length reqs) ids → total_pages ≤ length free_pages → length out = total_len →
  naive_loop ps free_pages reqs last_locs ids out =
    Ok (foldl (extend_program ps free_pages reqs last_locs) out ids).
Proof.
  intros Hids Hfree. revert out. induction Hids as [|i ids Hi Hids IH]; intros out Hout; [done|].
  cbn [naive_loop foldl]. rewrite naive_request_ok by done. cbn [mbind result_bind]. apply IH.
  by rewrite extend_program_slots, length_inserts.
Qed.

(** *** Correctness of the slots *)

(** The page that holds position [p] of request [i]: its last page while [p] is in the
    partially filled page, then its share of [free_pages]. *)
Definition page_at (i p : nat) : Z :=
  let pre := (reqs !!! i).1 in
  if p <? pages_of ps pre * ps then (last_locs !!! i / Z.of_nat ps)%Z
  else load_page free_pages (first_page i + (p / ps - pages_of ps pre)).

(** The debug assertion on [last_loc] at the entry of [alloc_extend]. *)
Definition last_loc_aligned (r : nat * nat) (last : Z) : Prop :=
  ((last + 1) mod Z.of_nat ps = Z.of_nat (r.1 mod ps))%Z.

Lemma slot_page_at i r p :
  reqs !! i = Some r → last_loc_aligned r (last_locs !!! i) → r.1 ≤ p →
  slot ps free_pages r.1 (last_locs !!! i) (first_page i) p = (page_at i p * Z.of_nat ps + Z.of_nat (p mod ps))%Z.
Proof.
  intros Hr Hal Hp. unfold slot, page_at. rewrite (list_lookup_total_correct _ _ _ Hr).
  destruct (Nat.ltb_spec p (pages_of ps r.1 * ps)) as [Hlt|]; [|done].
  unfold last_loc_aligned in Hal. set (last := last_locs !!! i) in *.
  pose proof (pages_of_bounds ps Hps r.1) as Hc. set (c := pages_of ps r.1) in *.
  pose proof (Nat.div_mod r.1 ps ltac:(lia)) as Hdm. pose proof (Nat.mod_upper_bound r.1 ps ltac:(lia)) as Hm.
  assert (r.1 / ps = c - 1 ∧ p / ps = c - 1) as [Hd1 Hd2].
  { split; symmetry; [apply (Nat.div_unique _ _ _ (r.1 - (c - 1) * ps))|apply (Nat.div_unique _ _ _ (p - (c - 1) * ps))]; nia. }
  pose proof (Nat.div_mod p ps ltac:(lia)) as Hdp. pose proof (Nat.mod_upper_bound p ps ltac:(lia)) as Hmp.
  pose proof (Z.div_mod last (Z.of_nat ps) ltac:(lia)) as Hl.
  pose proof (Z.mod_pos_bound last (Z.of_nat ps) ltac:(lia)) as Hlb.
  assert (last mod Z.of_nat ps = Z.of_nat (r.1 mod ps) - 1)%Z as Hlm.
  2: { rewrite Hd1 in Hdm. rewrite Hd2 in Hdp. set (m := ps * (c - 1)) in *. lia. }
  assert (Hcm : c * ps = ps * (c - 1) + ps) by (destruct c; lia).
  assert (r.1 mod ps ≠ 0) by (rewrite Hd1 in Hdm; lia).
  destruct (decide (last mod Z.of_nat ps = Z.of_nat ps - 1)%Z) as [E|NE].
  - exfalso. assert ((last + 1) mod Z.of_nat ps = 0)%Z; [|lia].
    replace (last + 1)%Z with ((last / Z.of_nat ps + 1) * Z.of_nat ps)%Z by lia. apply Z.mod_mul. lia.
  - assert ((last + 1) mod Z.of_nat ps = last mod Z.of_nat ps + 1)%Z; [|lia].
    symmetry. apply (Z.mod_unique _ _ (last / Z.of_nat ps)); lia.
Qed.

Lemma all_slots_lookup i r o :
  reqs !! i = Some r → o < ext_len r →
  all_slots !! (ext_start i + o) = Some (slot ps free_pages r.1 (last_locs !!! i) (first_page i) (r.1 + o)).
Proof.
  intros Hr Ho. pose proof (lookup_lt_Some _ _ _ Hr) as Hi.
  unfold all_slots. replace (length reqs) with (i + S (length reqs - i - 1)) by lia.
  rewrite seq_app, bind_app. destruct (inserts_prefix [] i ltac:(lia)) as [_ Hlen].
  rewrite <- Hlen, lookup_app_r, Nat.add_comm, Nat.add_sub by lia. cbn [seq mbind list_bind].
  rewrite lookup_app_l by (rewrite Nat.add_0_l, (length_req_slots _ _ Hr); lia).
  unfold req_slots, slots. rewrite Nat.add_0_l, list_lookup_fmap, (list_lookup_total_correct _ _ _ Hr).
  rewrite lookup_seq_lt by (unfold ext_len in Ho; lia). done.
Qed.

Hypothesis Hfree : total_pages ≤ length free_pages.
Hypothesis Halign : ∀ i r, reqs !! i = Some r → last_loc_aligned r (last_locs !!! i).
(** The partially filled pages are in use by one request each. *)
Hypothesis Hnodup : NoDup free_pages.
Hypothesis Hused : ∀ i r, reqs !! i = Some r → r.1 mod ps ≠ 0 → (last_locs !!! i / Z.of_nat ps)%Z ∉ free_pages.
Hypothesis Hown : ∀ i j ri rj, reqs !! i = Some ri → reqs !! j = Some rj → ri.1 mod ps ≠ 0 → rj.1 mod ps ≠ 0 →
  (last_locs !!! i / Z.of_nat ps = last_locs !!! j / Z.of_nat ps)%Z → i = j.

(** New positions read their page from inside the request's share of [free_pages]. *)
Lemma page_at_new i r p :
  reqs !! i = Some r → r.1 ≤ p < r.2 → pages_of ps r.1 * ps ≤ p →
  free_pages !! (first_page i + (p / ps - pages_of ps r.1)) = Some (page_at i p) ∧
  p / ps - pages_of ps r.1 < new_pages ps r.
Proof.
  intros Hr Hp Hge. unfold page_at. rewrite (list_lookup_total_correct _ _ _ Hr).
  destruct (Nat.ltb_spec p (pages_of ps r.1 * ps)); [lia|].
  pose proof (first_page_bound _ _ Hr Hfree). pose proof (div_below_pages ps Hps p r.2 ltac:(lia)).
  pose proof (div_above_pages ps Hps r.1 p Hge). unfold new_pages in *.
  unfold load_page. destruct (lookup_lt_is_Some_2 free_pages (first_page i + (p / ps - pages_of ps r.1)) ltac:(lia)) as [pg ->].
  split; [done|lia].
Qed.

(** Two positions in the same page are in the same page of the same request. *)
Lemma page_at_inj i j ri rj p q :
  reqs !! i = Some ri → reqs !! j = Some rj → ri.1 ≤ p < ri.2 → rj.1 ≤ q < rj.2 →
  page_at i p = page_at j q → i = j ∧ p / ps = q / ps.
Proof.
  intros Hri Hrj Hp Hq E.
  destruct (decide (p < pages_of ps ri.1 * ps)) as [Hpo|Hpn], (decide (q < pages_of ps rj.1 * ps)) as [Hqo|Hqn].
  - destruct (partial_mod ps Hps ri.1 p ltac:(lia) Hpo) as [Hmp Hdp], (partial_mod ps Hps rj.1 q ltac:(lia) Hqo) as [Hmq Hdq].
    unfold page_at in E. rewrite (list_lookup_total_correct _ _ _ Hri), (list_lookup_total_correct _ _ _ Hrj) in E.
    apply Nat.ltb_lt in Hpo, Hqo. rewrite Hpo, Hqo in E.
    assert (i = j) as <- by (by eapply Hown). simplify_eq. split; [done|lia].
  - exfalso. destruct (page_at_new j rj q Hrj Hq ltac:(lia)) as [Hl _]. rewrite <- E in Hl.
    apply (Hused i ri Hri); [apply (partial_mod ps Hps ri.1 p); lia|]. unfold page_at in Hl.
    rewrite (list_lookup_total_correct _ _ _ Hri) in Hl. apply Nat.ltb_lt in Hpo. rewrite Hpo in Hl.
    by eapply list_elem_of_lookup_2.
  - exfalso. destruct (page_at_new i ri p Hri Hp ltac:(lia)) as [Hl _]. rewrite E in Hl.
    apply (Hused j rj Hrj); [apply (partial_mod ps Hps rj.1 q); lia|]. unfold page_at in Hl.
    rewrite (list_lookup_total_correct _ _ _ Hrj) in Hl. apply Nat.ltb_lt in Hqo. rewrite Hqo in Hl.
    by eapply list_elem_of_lookup_2.
  - destruct (page_at_new i ri p Hri Hp ltac:(lia)) as [Hlp Hbp].
    destruct (page_at_new j rj q Hrj Hq ltac:(lia)) as [Hlq Hbq]. rewrite E in Hlp.
    pose proof (NoDup_lookup _ _ _ _ Hnodup Hlp Hlq) as Heq.
    pose proof (sum_take_S (new_pages ps) _ _ Hri) as Hsi. pose proof (sum_take_S (new_pages ps) _ _ Hrj) as Hsj.
    fold (first_page i) (first_page (S i)) in Hsi. fold (first_page j) (first_page (S j)) in Hsj.
    assert (i = j) as <-.
    { destruct (Nat.lt_trichotomy i j) as [Hij|[?|Hij]]; [exfalso|done|exfalso];
        pose proof (sum_take_mono (new_pages ps) _ _ Hij) as Hm; unfold first_page in *; lia. }
    simplify_eq. split; [done|]. pose proof (div_above_pages ps Hps ri.1 p ltac:(lia)).
    pose proof (div_above_pages ps Hps ri.1 q ltac:(lia)). lia.
Qed.

Lemma slot_inj i j ri rj p q :
  reqs !! i = Some ri → reqs !! j = Some rj → ri.1 ≤ p < ri.2 → rj.1 ≤ q < rj.2 →
  slot ps free_pages ri.1 (last_locs !!! i) (first_page i) p =
    slot ps free_pages rj.1 (last_locs !!! j) (first_page j) q → i = j ∧ p = q.
Proof.
  intros Hri Hrj Hp Hq. rewrite (slot_page_at i), (slot_page_at j) by (eauto; lia). intros E.
  pose proof (Nat.mod_upper_bound p ps ltac:(lia)). pose proof (Nat.mod_upper_bound q ps ltac:(lia)).
  assert (page_at i p = page_at j q ∧ p mod ps = q mod ps) as [Epg Emod].
  { destruct (Z.div_mod_unique (Z.of_nat ps) (page_at i p) (page_at j q) (Z.of_nat (p mod ps)) (Z.of_nat (q mod ps))); lia. }
  destruct (page_at_inj i j ri rj p q) as [-> Ediv]; [done..|]. split; [done|].
  rewrite (Nat.div_mod p ps), (Nat.div_mod q ps) by lia. congruence.
Qed.

Lemma all_slots_nodup : NoDup all_slots.
Proof.
  assert (Hel : ∀ i x, i ∈ seq 0 (length reqs) → x ∈ req_slots i → ∃ r p, reqs !! i = Some r ∧ r.1 ≤ p < r.2 ∧
    x = slot ps free_pages r.1 (last_locs !!! i) (first_page i) p).
  { intros i x [_ Hi]%elem_of_seq. destruct (lookup_lt_is_Some_2 reqs i Hi) as [r Hr]. unfold req_slots, slots.
    rewrite (list_lookup_total_correct _ _ _ Hr), list_elem_of_fmap. intros (p & -> & Hp%elem_of_seq).
    exists r, p. repeat split; (done || lia). }
  apply NoDup_bind.
  - intros i j x Hi Hj Hxi Hxj. apply Hel in Hxi as (ri & p & Hri & Hp & ->); [|done].
    apply Hel in Hxj as (rj & q & Hrj & Hq & E); [|done]. by eapply (slot_inj i j ri rj p q).
  - intros i [_ Hi]%elem_of_seq. destruct (lookup_lt_is_Some_2 reqs i Hi) as [r Hr]. unfold req_slots, slots.
    rewrite (list_lookup_total_correct _ _ _ Hr). apply NoDup_fmap_2_strong; [|apply NoDup_seq].
    intros p q Hp%elem_of_seq Hq%elem_of_seq E. apply (slot_inj i i r r p q); (done || lia).
  - apply NoDup_seq.
Qed.
End requests.

(** The slots only read the pages that the requests need. *)
Lemma all_slots_take ps free_pages reqs last_locs n :
  0 < ps → total_pages ps reqs ≤ n →
  all_slots ps (take n free_pages) reqs last_locs = all_slots ps free_pages reqs last_locs.
Proof.
  intros Hps Hn. unfold all_slots. apply list_bind_ext_in. intros i Hi%elem_of_seq.
  destruct (lookup_lt_is_Some_2 reqs i ltac:(lia)) as [r Hr].
  unfold req_slots, slots. rewrite (list_lookup_total_correct _ _ _ Hr). apply list_fmap_ext.
  intros j p [-> Hj]%lookup_seq. unfold slot. destruct (Nat.ltb_spec (r.1 + j) (pages_of ps r.1 * ps)); [done|].
  unfold load_page. rewrite lookup_take_lt; [done|].
  pose proof (sum_take_le_total ps reqs Hps (new_pages ps) (S i)) as Hle. rewrite (sum_take_S ps reqs Hps _ _ _ Hr) in Hle.
  fold (first_page ps reqs i) (total_pages ps reqs) in Hle. unfold new_pages in Hle.
  pose proof (div_below_pages ps Hps (r.1 + j) r.2 ltac:(lia)). pose proof (div_above_pages ps Hps r.1 (r.1 + j) ltac:(lia)).
  lia.
Qed.

(** Index [k] of the pages falls in the share of one request. *)
Lemma sum_take_find (f : nat * nat → nat) reqs k :
  k < sum_list (f <$> reqs) →
  ∃ i r, reqs !! i = Some r ∧ sum_list (f <$> take i reqs) ≤ k < sum_list (f <$> take i reqs) + f r.
Proof.
  revert k. induction reqs as [|r reqs IH]; intros k Hk; cbn in Hk; [lia|].
  destruct (decide (k < f r)); [exists 0, r; cbn; split; [done|lia]|].
  destruct (IH (k - f r) ltac:(unfold id in *; lia)) as (i & r' & Hr & Hi). exists (S i), r'. split; [done|].
  cbn. unfold id in *. lia.
Qed.

(** The pages of the slots: the pages taken, all of them, and partially filled ones. *)
Lemma all_slots_pages ps T reqs last x :
  0 < ps → Forall (λ r : nat * nat, r.1 ≤ r.2) reqs →
  (∀ i r, reqs !! i = Some r → last_loc_aligned ps r (last !!! i)) → length T = total_pages ps reqs →
  (x ∈ (λ i, (i / Z.of_nat ps)%Z) <$> all_slots ps T reqs last →
     x ∈ T ∨ ∃ i r, reqs !! i = Some r ∧ r.1 mod ps ≠ 0 ∧ x = (last !!! i / Z.of_nat ps)%Z) ∧
  (x ∈ T → x ∈ (λ i, (i / Z.of_nat ps)%Z) <$> all_slots ps T reqs last).
Proof.
  intros Hps Hle Hal HT.
  assert (Hdiv : ∀ i p,
    ((page_at ps T reqs last i p * Z.of_nat ps + Z.of_nat (p mod ps)) / Z.of_nat ps = page_at ps T reqs last i p)%Z).
  { intros i p. pose proof (Nat.mod_upper_bound p ps ltac:(lia)). rewrite Z.div_add_l, Z.div_small by lia. lia. }
  split.
  - intros (y & -> & Hy)%list_elem_of_fmap. unfold all_slots in Hy.
    apply list_elem_of_bind in Hy as (i & Hy & [_ Hi]%elem_of_seq).
    destruct (lookup_lt_is_Some_2 reqs i Hi) as [r Hr]. unfold req_slots, slots in Hy.
    rewrite (list_lookup_total_correct _ _ _ Hr) in Hy. apply list_elem_of_fmap in Hy as (p & -> & Hp%elem_of_seq).
    rewrite (slot_page_at ps T reqs last Hps i r) by (eauto; lia). rewrite Hdiv.
    destruct (decide (p < pages_of ps r.1 * ps)) as [Hlt|Hge].
    + right. exists i, r. split; [done|]. split; [apply (partial_mod ps Hps r.1 p); lia|].
      unfold page_at. rewrite (list_lookup_total_correct _ _ _ Hr). apply Nat.ltb_lt in Hlt. by rewrite Hlt.
    + left. destruct (page_at_new ps T reqs last Hps ltac:(lia) i r p Hr) as [Hl _]; [lia..|].
      by eapply list_elem_of_lookup_2.
  - intros [k Hk]%list_elem_of_lookup. pose proof (lookup_lt_Some _ _ _ Hk) as Hlt. rewrite HT in Hlt.
    destruct (sum_take_find (new_pages ps) reqs k Hlt) as (i & r & Hr & Hi). fold (first_page ps reqs i) in Hi.
    set (c := pages_of ps r.1). set (j := k - first_page ps reqs i). set (p := (c + j) * ps).
    pose proof (pages_of_bounds ps Hps r.1) as Hc. fold c in Hc. pose proof (pages_of_bounds ps Hps r.2) as Hc2.
    assert (Hp : r.1 ≤ p < r.2).
    { assert (c + j < pages_of ps r.2) by (unfold new_pages, c, j in *; lia). unfold p. nia. }
    apply list_elem_of_fmap. exists (slot ps T r.1 (last !!! i) (first_page ps reqs i) p). split.
    + rewrite (slot_page_at ps T reqs last Hps i r) by (eauto; lia). rewrite Hdiv.
      destruct (page_at_new ps T reqs last Hps ltac:(lia) i r p Hr) as [Hl _]; [lia|fold c; unfold p; nia|].
      fold c in Hl. unfold p in Hl at 1. rewrite Nat.div_mul in Hl by lia.
      replace (first_page ps reqs i + (c + j - c)) with k in Hl by lia. congruence.
    + unfold all_slots. apply list_elem_of_bind. exists i. split; [|apply elem_of_seq; apply lookup_lt_Some in Hr; lia].
      unfold req_slots, slots. rewrite (list_lookup_total_correct _ _ _ Hr). apply list_elem_of_fmap.
      exists p. split; [done|]. apply elem_of_seq. lia.
Qed.

(** At most one page more than the tokens fill, per request. *)
Lemma new_pages_bound ps r : 0 < ps → r.1 ≤ r.2 → new_pages ps r ≤ ext_len r / ps + 1.
Proof.
  intros Hps Hr. unfold new_pages, ext_len. pose proof (pages_of_bounds ps Hps r.1). pose proof (pages_of_bounds ps Hps r.2).
  pose proof (Nat.div_mod (r.2 - r.1) ps ltac:(lia)). pose proof (Nat.mod_upper_bound (r.2 - r.1) ps ltac:(lia)).
  set (e := (r.2 - r.1) / ps) in *. assert (pages_of ps r.2 ≤ pages_of ps r.1 + e + 1); [|lia].
  apply Nat.nlt_ge. intros Hlt. nia.
Qed.

Lemma total_pages_bound ps reqs :
  0 < ps → Forall (λ r : nat * nat, r.1 ≤ r.2) reqs → total_pages ps reqs ≤ total_len reqs / ps + length reqs.
Proof.
  intros Hps. unfold total_pages, total_len. induction 1 as [|r reqs Hr Hreqs IH]; [cbn; lia|].
  cbn [fmap list_fmap sum_list_with length]. unfold id at 1 3. pose proof (new_pages_bound ps r Hps Hr).
  set (b := sum_list (ext_len <$> reqs)) in *.
  pose proof (Nat.div_le_lower_bound (ext_len r + b) ps (ext_len r / ps + b / ps) ltac:(lia)).
  pose proof (Nat.div_mod (ext_len r) ps ltac:(lia)). pose proof (Nat.div_mod b ps ltac:(lia)). nia.
Qed.

(** ** Decoding: one token per request *)

Definition decode_reqs (seq_lens : list nat) : list (nat * nat) := (λ n, (n - 1, n)) <$> seq_lens.

Section decode.
Variables (ps : nat) (free_pages : list Z) (seq_lens : list nat) (last_locs : list Z).
Hypothesis Hps : 0 < ps.
Hypothesis Hpos : Forall (λ n, 1 ≤ n) seq_lens.

Lemma decode_ext_start i : i ≤ length seq_lens → ext_start (decode_reqs seq_lens) i = i.
Proof.
  intros Hi. unfold ext_start, decode_reqs.
  rewrite (sum_list_fmap_same 1), length_take, length_fmap; [lia|].
  apply Forall_take, Forall_fmap. eapply Forall_impl; [exact Hpos|]. cbv beta. unfold compose, ext_len, fst, snd. lia.
Qed.

Lemma pages_of_succ n : 1 ≤ n → n - 1 < pages_of ps (n - 1) * ps ↔ pages_of ps n = pages_of ps (n - 1).
Proof.
  intros Hn. pose proof (pages_of_bounds ps Hps n). pose proof (pages_of_bounds ps Hps (n - 1)).
  pose proof (pages_of_mono ps Hps (n - 1) n ltac:(lia)). split; nia.
Qed.

(** One program of the decode kernel does what the extend kernel does for [(n - 1, n)]. *)
Lemma decode_program_extend out i :
  i < length seq_lens →
  decode_program ps free_pages seq_lens last_locs out i =
    extend_program ps free_pages (decode_reqs seq_lens) last_locs out i.
Proof.
  intros Hi. destruct (lookup_lt_is_Some_2 _ _ Hi) as [n Hn].
  assert (Hr : decode_reqs seq_lens !! i = Some (n - 1, n)) by (unfold decode_reqs; by rewrite list_lookup_fmap, Hn).
  assert (Hn1 : 1 ≤ n) by (rewrite Forall_lookup in Hpos; by eapply Hpos).
  rewrite extend_program_slots; [|done| |by eapply lookup_lt_Some].
  2: { unfold decode_reqs. apply Forall_fmap. eapply Forall_impl; [exact Hpos|]. cbv beta. unfold compose, fst, snd. lia. }
  rewrite decode_ext_start by lia. unfold req_slots, slots. rewrite (list_lookup_total_correct _ _ _ Hr). cbn [fst snd].
  replace (n - (n - 1)) with 1 by lia. cbn [seq fmap list_fmap list_inserts].
  unfold decode_program. rewrite (list_lookup_total_correct _ _ _ Hn).
  assert (Hsum : sum_list ((λ n, new_pages ps (n - 1, n)) <$> take (S i) seq_lens) =
    first_page ps (decode_reqs seq_lens) i + new_pages ps (n - 1, n)).
  { unfold first_page, decode_reqs. rewrite <- fmap_take, <- list_fmap_compose.
    rewrite (take_S_r _ _ _ Hn), fmap_app, sum_list_with_app. cbn. unfold compose. lia. }
  rewrite Hsum, Nat.add_sub. pose proof (pages_of_succ n Hn1) as Hsucc. unfold slot, new_pages in *. cbn [fst snd].
  pose proof (pages_of_mono ps Hps (n - 1) n ltac:(lia)).
  destruct (Nat.eqb_spec (pages_of ps n - pages_of ps (n - 1)) 0) as [E|E],
    (Nat.ltb_spec (n - 1) (pages_of ps (n - 1) * ps)) as [Hlt|Hge]; [f_equal; lia|lia|lia|].
  pose proof (pages_of_bounds ps Hps (n - 1)) as Hb. assert (Hnc : n - 1 = pages_of ps (n - 1) * ps) by lia.
  set (c := pages_of ps (n - 1)) in *. rewrite Hnc, Nat.div_mul, Nat.Div0.mod_mul, Nat.sub_diag, Nat.add_0_r, Z.add_0_r by lia.
  done.
Qed.

Lemma alloc_decode_kernel_extend pids out :
  pids ≡ₚ seq 0 (length seq_lens) →
  alloc_decode_kernel ps free_pages pids seq_lens last_locs out =
    alloc_extend_kernel ps free_pages pids (decode_reqs seq_lens) last_locs out.
Proof.
  intros Hpids. apply foldl_ext_in. intros b i Hi. rewrite Hpids in Hi.
  apply elem_of_seq in Hi. apply decode_program_extend. lia.
Qed.

(** [get_num_new_pages(decode=True)] counts the pages that the kernel takes, for pages of
    at least two tokens. *)
Lemma num_new_pages_decode :
  2 ≤ ps → get_num_new_pages ps None seq_lens true = Ok (total_pages ps (decode_reqs seq_lens)).
Proof.
  intros Hps2. unfold get_num_new_pages, total_pages, decode_reqs. f_equal.
  induction Hpos as [|n l Hn Hl IH]; [done|]. rewrite filter_cons. cbn [fmap list_fmap sum_list_with id].
  unfold new_pages at 1. cbn [fst snd]. pose proof (pages_of_succ n Hn) as Hsucc.
  pose proof (pages_of_mono ps Hps (n - 1) n ltac:(lia)). pose proof (pages_of_bounds ps Hps (n - 1)).
  pose proof (pages_of_bounds ps Hps n). pose proof (Nat.div_mod n ps ltac:(lia)).
  case_decide as Hm; cbn [length]; rewrite IH by done.
  - assert (pages_of ps n = S (n / ps) ∧ pages_of ps (n - 1) = n / ps) as [-> ->] by (split; nia). unfold id. lia.
  - rewrite (proj1 Hsucc), Nat.sub_diag; [done|]. set (c := pages_of ps (n - 1)) in *.
    enough (n - 1 ≠ c * ps) by lia. intros E. apply Hm. replace n with (1 + c * ps) by lia.
    rewrite Nat.Div0.mod_add, Nat.mod_small; lia.
Qed.
End decode.

(** ** The kernel and its reference agree *)

(** C30: with enough free pages, [alloc_extend_kernel] computes, whatever the order in which its
    programs run, exactly what [alloc_extend_naive] computes, and the reference raises no
    error; the blocked loop of the kernel covers every new full page. *)
Theorem alloc_extend_naive_equiv ps free_pages pids reqs last_locs out
    (Hps : 0 < ps) (Hreqs : Forall (λ r : nat * nat, r.1 ≤ r.2) reqs)
    (Hpids : pids ≡ₚ seq 0 (length reqs)) (Hout : length out = total_len reqs)
    (Hfree : total_pages ps reqs ≤ length free_pages) :
  alloc_extend_naive ps free_pages reqs last_locs out =
    Ok (alloc_extend_kernel ps free_pages pids reqs last_locs out).
Proof.
  unfold alloc_extend_naive. rewrite naive_loop_ok; [|done..| |done|done].
  - f_equal. rewrite (alloc_extend_kernel_slots ps free_pages reqs last_locs Hps Hreqs pids) by done.
    by apply (alloc_extend_kernel_slots ps free_pages reqs last_locs Hps Hreqs).
  - apply Forall_forall. intros i Hi. apply elem_of_seq in Hi. lia.
Qed.

Lemma alloc_extend_naive_equiv_witness :
  alloc_extend_naive 4 [5; 7; 2; 9]%Z [(3, 9); (0, 2)] [6; -1]%Z (replicate 8 0%Z) =
    Ok (alloc_extend_kernel 4 [5; 7; 2; 9]%Z [1; 0] [(3, 9); (0, 2)] [6; -1]%Z (replicate 8 0%Z)) ∧
  alloc_extend_kernel 4 [5; 7; 2; 9]%Z [1; 0] [(3, 9); (0, 2)] [6; -1]%Z (replicate 8 0%Z) =
    [7; 20; 21; 22; 23; 28; 8; 9]%Z.
Proof.
  split; [|vm_compute; reflexivity]. apply alloc_extend_naive_equiv; [lia|repeat constructor; simpl; lia| |reflexivity|].
  - apply Permutation_swap.
  - vm_compute. lia.
Defined.
