(* ===== verification/Allocator.v ===== *)
(** * Allocator: the token and paged KV pool allocators

    Models [sglang/srt/mem_cache/allocator/base.py], [token.py] and [paged.py]: the free and
    release lists, deferred free groups, page-aligned allocation, extension and decoding,
    and the three ways of giving pages back.  [torch.sort], [torch.unique] and
    [torch.empty] are the parameter [TorchInt]; the order in which the programs of a
    kernel launch run is the argument [pids]. *)

From S2P Require Import Prelude AllocExtend.
#[local] Open Scope nat_scope.

(** ** Torch operations on integer tensors *)

Class TorchInt : Type := {
  torch_sort : list Z → list Z;
  torch_unique : list Z → list Z;
  torch_empty : nat → list Z;
}.

(** Their documented behaviour. *)
Class TorchIntLaws `{TorchInt} : Prop := {
  torch_sort_perm l : torch_sort l ≡ₚ l;
  torch_sort_unique l k : StronglySorted Z.le l → l ≡ₚ k → torch_sort k = l;
  torch_unique_elem x l : x ∈ torch_unique l ↔ x ∈ l;
  torch_unique_nodup l : NoDup (torch_unique l);
  torch_unique_sorted l : StronglySorted Z.le (torch_unique l);
  torch_empty_length n : length (torch_empty n) = n;
}.

(** [l[start::step]]. *)
Definition stride_slice {A} (start step : nat) (l : list A) : list A :=
  omap (λ i, l !! (start + i * step)) (seq 0 (length l)).

(** ** State *)

Record Allocator : Type := mkAllocator {
  size : nat;
  page_size : nat;
  need_sort : bool;
  debug_mode : bool;
  num_pages : nat;
  free_pages : list Z;
  release_pages : list Z;
  free_group : option (list (list Z));
  free_page_reps_group : list (list Z);
}.

Definition set_lists (s : Allocator) (free release : list Z) : Allocator :=
  mkAllocator (size s) (page_size s) (need_sort s) (debug_mode s) (num_pages s) free release
    (free_group s) (free_page_reps_group s).
Definition set_group (s : Allocator) (g : option (list (list Z))) (reps : list (list Z)) : Allocator :=
  mkAllocator (size s) (page_size s) (need_sort s) (debug_mode s) (num_pages s) (free_pages s)
    (release_pages s) g reps.

(** ** [BaseTokenToKVPoolAllocator] *)

Module Base.
Section base.
Context `{TorchInt}.

Definition available_size (s : Allocator) : nat :=
  (length (free_pages s) + length (release_pages s)) * page_size s.

Definition free_group_begin (s : Allocator) : Allocator := set_group s (Some []) (free_page_reps_group s).

(** [free] is the subclass's method. *)
Definition free_group_end (free : list Z → Allocator → result Allocator) (s : Allocator) : result Allocator :=
  let pending := free_group s in
  let s := set_group s None (free_page_reps_group s) in
  match pending with
  | None | Some [] => Ok s
  | Some pending => free (concat pending) s
  end.

Definition merge_and_sort_free (s : Allocator) : Allocator :=
  match release_pages s with
  | [] => s
  | release => set_lists s (torch_sort (free_pages s ++ release)) []
  end.

(** The loop of [free_segments]; [free_segment] is the subclass's method. *)
Fixpoint free_segments_loop (free_segment : list Z → nat → Allocator → result Allocator)
    (prev_end : option nat) (segments : list (list Z * nat)) (s : Allocator) : result Allocator :=
  match segments with
  | [] => Ok s
  | (free_index, start_pos) :: segments =>
      let ps := page_size s in
      let n := length free_index in
      if n =? 0 then free_segments_loop free_segment prev_end segments s else
      let seg_end := start_pos + n in
      let '(free_index, start_pos) :=
        match prev_end with
        | Some prev_end =>
            if start_pos / ps =? (prev_end - 1) / ps
            then let boundary := (start_pos / ps + 1) * ps in
                 (drop (boundary - start_pos) free_index, boundary)
            else (free_index, start_pos)
        | None => (free_index, start_pos)
        end in
      s ← free_segment free_index start_pos s;
      free_segments_loop free_segment (Some seg_end) segments s
  end.

Definition free_segments (free_segment : list Z → nat → Allocator → result Allocator)
    (segments : list (list Z * nat)) (s : Allocator) : result Allocator :=
  free_segments_loop free_segment None segments s.

(** [clear] is the subclass's method. *)
Definition resize (clear : Allocator → Allocator) (max_total_num_tokens : nat) (s : Allocator) : Allocator :=
  clear (mkAllocator max_total_num_tokens (page_size s) (need_sort s) (debug_mode s)
    (if 1 <? page_size s then max_total_num_tokens / page_size s else num_pages s)
    (free_pages s) (release_pages s) (free_group s) (free_page_reps_group s)).
End base.
End Base.

(** ** [TokenToKVPoolAllocator] *)

Module Token.
Section token.
Context `{TorchInt}.

Definition clear (s : Allocator) : Allocator :=
  mkAllocator (size s) (page_size s) (need_sort s) (debug_mode s) (num_pages s)
    (seqZ 1 (Z.of_nat (size s))) [] None (free_page_reps_group s).

Definition init (size : nat) (need_sort : bool) : Allocator :=
  clear (mkAllocator size 1 need_sort false size [] [] None []).

Definition available_size (s : Allocator) : nat := length (free_pages s) + length (release_pages s).

Definition alloc (need_size : nat) (s : Allocator) : option (list Z) * Allocator :=
  let s := if need_sort s && (length (free_pages s) <? need_size) then Base.merge_and_sort_free s else s in
  if length (free_pages s) <? need_size then (None, s) else
  (Some (take need_size (free_pages s)), set_lists s (drop need_size (free_pages s)) (release_pages s)).

Definition free (free_index : list Z) (s : Allocator) : result Allocator :=
  match free_index with
  | [] => Ok s
  | _ =>
      match free_group s with
      | None =>
          Ok (if need_sort s
              then set_lists s (free_pages s) (release_pages s ++ free_index)
              else set_lists s (free_pages s ++ free_index) (release_pages s))
      | Some g => Ok (set_group s (Some (g ++ [free_index])) (free_page_reps_group s))
      end
  end.
End token.
End Token.

(** ** [PagedTokenToKVPoolAllocator] *)

Module Paged.
Section paged.
Context `{TorchInt}.

Definition clear (s : Allocator) : Allocator :=
  mkAllocator (size s) (page_size s) (need_sort s) (debug_mode s) (num_pages s)
    (seqZ 1 (Z.of_nat (num_pages s))) [] None [].

Definition init (size page_size : nat) (need_sort debug_mode : bool) : Allocator :=
  clear (mkAllocator size page_size need_sort debug_mode (size / page_size) [] [] None []).

(** [idx // page_size] and [(pages[:, None] * page_size + arange(page_size)).reshape(-1)]. *)
Definition page_ids (s : Allocator) (idx : list Z) : list Z := (λ i, (i / Z.of_nat (page_size s))%Z) <$> idx.
Definition page_slots (ps : nat) (pages : list Z) : list Z :=
  pages ≫= λ p, (λ o, (p * Z.of_nat ps + Z.of_nat o)%Z) <$> seq 0 ps.

Definition alloc (need_size : nat) (s : Allocator) : result (option (list Z) * Allocator) :=
  _ ← (if debug_mode s then py_assert (need_size mod page_size s =? 0) else Ok tt);
  let num_pages := need_size / page_size s in
  let s := if need_sort s && (length (free_pages s) <? num_pages) then Base.merge_and_sort_free s else s in
  if length (free_pages s) <? num_pages then Ok (None, s) else
  let out_pages := take num_pages (free_pages s) in
  Ok (Some (page_slots (page_size s) out_pages), set_lists s (drop num_pages (free_pages s)) (release_pages s)).

Definition alloc_extend (pids : list nat) (reqs : list (nat * nat)) (last_loc : list Z)
    (extend_num_tokens : nat) (num_new_pages : option nat) (s : Allocator)
  : result (option (list Z) * Allocator) :=
  let ps := page_size s in
  _ ← (if debug_mode s
       then py_assert (forallb (λ '(last, r), (last + 1) mod Z.of_nat ps =? Z.of_nat (r.1 mod ps))%Z
                         (zip last_loc reqs))
       else Ok tt);
  let bs := length reqs in
  let s := if need_sort s && (length (free_pages s) <? extend_num_tokens / ps + bs + 1)
           then Base.merge_and_sort_free s else s in
  let out_indices := torch_empty extend_num_tokens in
  let out_indices := alloc_extend_kernel ps (free_pages s) pids reqs last_loc out_indices in
  _ ← (if debug_mode s then py_assert (length (torch_unique out_indices) =? length out_indices) else Ok tt);
  num_new_pages ← match num_new_pages with
                  | Some n => Ok n
                  | None => get_num_new_pages ps (Some reqs.*1) reqs.*2 false
                  end;
  if length (free_pages s) <? num_new_pages then Ok (None, s) else
  Ok (Some out_indices, set_lists s (drop num_new_pages (free_pages s)) (release_pages s)).

Definition alloc_decode (pids : list nat) (seq_lens : list nat) (last_loc : list Z) (s : Allocator)
  : result (option (list Z) * Allocator) :=
  let ps := page_size s in
  _ ← (if debug_mode s
       then py_assert (forallb (λ '(last, n), (last + 2) mod Z.of_nat ps =? Z.of_nat (n mod ps))%Z
                         (zip last_loc seq_lens))
       else Ok tt);
  let bs := length seq_lens in
  let s := if need_sort s && (length (free_pages s) <? bs) then Base.merge_and_sort_free s else s in
  let out_indices := torch_empty bs in
  let out_indices := alloc_decode_kernel ps (free_pages s) pids seq_lens last_loc out_indices in
  _ ← (if debug_mode s then py_assert (length (torch_unique out_indices) =? length out_indices) else Ok tt);
  num_new_pages ← get_num_new_pages ps None seq_lens true;
  if length (free_pages s) <? num_new_pages then Ok (None, s) else
  Ok (Some out_indices, set_lists s (drop num_new_pages (free_pages s)) (release_pages s)).

Definition debug_check_no_duplicate_pages (s : Allocator) : result unit :=
  let pages := free_pages s ++ release_pages s in
  py_assert (length (torch_unique pages) =? length pages).

Definition release_page_ids (page_ids : list (list Z)) (s : Allocator) : Allocator :=
  if need_sort s then set_lists s (free_pages s) (concat page_ids ++ release_pages s)
  else set_lists s (concat page_ids ++ free_pages s) (release_pages s).

Definition free (free_index : list Z) (s : Allocator) : result Allocator :=
  match free_index with
  | [] => Ok s
  | _ =>
      let s := match free_group s with
               | None => release_page_ids [torch_unique (page_ids s free_index)] s
               | Some g => set_group s (Some (g ++ [free_index])) (free_page_reps_group s)
               end in
      _ ← (if debug_mode s then debug_check_no_duplicate_pages s else Ok tt);
      Ok s
  end.

(** The page representatives of [kv_row[start_pos : start_pos + n]]. *)
Definition pieces (ps : nat) (free_index : list Z) (start_pos : nat) : list (list Z) :=
  let offset := start_pos mod ps in
  if offset =? 0 then [stride_slice 0 ps free_index]
  else [take 1 free_index; stride_slice (ps - offset) ps free_index].

Definition free_segment (free_index : list Z) (start_pos : nat) (s : Allocator) : result Allocator :=
  match free_index with
  | [] => Ok s
  | _ =>
      let ps := page_size s in
      let pieces := pieces ps free_index start_pos in
      _ ← (if debug_mode s
           then py_assert (bool_decide (torch_sort (concat (page_ids s <$> pieces)) =
                                        torch_unique (page_ids s free_index)))
           else Ok tt);
      match free_group s with
      | None =>
          let s := release_page_ids (page_ids s <$> pieces) s in
          _ ← (if debug_mode s then debug_check_no_duplicate_pages s else Ok tt);
          Ok s
      | Some g => Ok (set_group s (Some g) (free_page_reps_group s ++ pieces))
      end
  end.

Definition free_group_begin (s : Allocator) : Allocator :=
  let s := Base.free_group_begin s in set_group s (free_group s) [].

Definition free_group_end (s : Allocator) : result Allocator :=
  s ← Base.free_group_end free s;
  let s := match free_page_reps_group s with
           | [] => s
           | reps => set_group (release_page_ids [page_ids s (concat reps)] s) (free_group s) []
           end in
  _ ← (if debug_mode s then debug_check_no_duplicate_pages s else Ok tt);
  Ok s.

Definition free_segments : list (list Z * nat) → Allocator → result Allocator := Base.free_segments free_segment.
End paged.
End Paged.

(** ** Page bookkeeping of the paged allocator *)

Section stride.
Context {A : Type}.

Lemma omap_seq_prefix (f : nat → option A) (g : nat → A) c n :
  c ≤ n → (∀ i, i < c → f i = Some (g i)) → (∀ i, c ≤ i → f i = None) →
  omap f (seq 0 n) = g <$> seq 0 c.
Proof.
  intros Hc Hlt Hge. replace n with (c + (n - c)) by lia. rewrite seq_app, omap_app, Nat.add_0_l.
  assert (omap f (seq c (n - c)) = []) as ->.
  { clear Hlt Hc. generalize (n - c). intros k. revert c Hge. induction k as [|k IH]; intros c Hge; [done|].
    cbn. rewrite Hge by done. apply IH. intros. apply Hge. lia. }
  rewrite app_nil_r. assert (∀ a k, a + k ≤ c → omap f (seq a k) = g <$> seq a k) as H; [|by apply H].
  intros a k. revert a. induction k as [|k IH]; intros a Hk; [done|]. cbn. rewrite Hlt by lia. f_equal. apply IH. lia.
Qed.

(** [row[start::step]] of a row [f a, f (a + 1), ...]. *)
Lemma stride_slice_seq (f : nat → A) a n start step :
  0 < step →
  stride_slice start step (f <$> seq a n) = (λ i, f (a + start + i * step)) <$> seq 0 (pages_of step (n - start)).
Proof.
  intros Hs. unfold stride_slice. pose proof (pages_of_bounds step Hs (n - start)).
  apply omap_seq_prefix; rewrite ?length_fmap, ?length_seq.
  - transitivity (n - start); [|lia]. apply Nat.nlt_ge. intros Hlt. nia.
  - intros i Hi. rewrite list_lookup_fmap, lookup_seq_lt by nia. cbn. f_equal. f_equal. lia.
  - intros i Hi. rewrite list_lookup_fmap, lookup_seq_ge by nia. done.
Qed.
End stride.

Section rows.
Context `{TorchIntLaws}.
Variables (ps : nat) (pt : nat → Z).
Hypothesis Hps : 0 < ps.

(** [kv_row[a : a + n]] of the request whose page table is [pt]. *)
Definition kv_row (a n : nat) : list Z :=
  (λ p, (pt (p / ps) * Z.of_nat ps + Z.of_nat (p mod ps))%Z) <$> seq a n.

(** The page-table entries that [kv_row[a : a + n]] touches. *)
Definition touched (a n : nat) : list nat :=
  if n =? 0 then [] else seq (a / ps) (S ((a + n - 1) / ps - a / ps)).

Lemma page_of_slot p : ((pt (p / ps) * Z.of_nat ps + Z.of_nat (p mod ps)) / Z.of_nat ps)%Z = pt (p / ps).
Proof.
  pose proof (Nat.mod_upper_bound p ps ltac:(lia)). rewrite Z.div_add_l, Z.div_small by lia. lia.
Qed.

Lemma row_pages a n : (λ i, (i / Z.of_nat ps)%Z) <$> kv_row a n = pt <$> ((λ p, p / ps) <$> seq a n).
Proof. unfold kv_row. rewrite <- !list_fmap_compose. apply list_fmap_ext. intros i p _. apply page_of_slot. Qed.

Lemma elem_of_touched q a n : q ∈ touched a n ↔ ∃ p, a ≤ p < a + n ∧ p / ps = q.
Proof.
  unfold touched. destruct (Nat.eqb_spec n 0) as [->|Hn].
  { split; [by intros ?%not_elem_of_nil|intros (p & ? & _); lia]. }
  rewrite elem_of_seq. pose proof (Nat.Div0.div_le_mono a (a + n - 1) ps ltac:(lia)) as Hm. split.
  - intros Hq. destruct (decide (q = a / ps)) as [->|Hne]; [exists a; split; [lia|done]|].
    exists (q * ps). rewrite Nat.div_mul by lia. split; [|done].
    pose proof (Nat.div_mod a ps ltac:(lia)). pose proof (Nat.mod_upper_bound a ps ltac:(lia)).
    pose proof (Nat.div_mod (a + n - 1) ps ltac:(lia)). nia.
  - intros (p & Hp & <-). pose proof (Nat.Div0.div_le_mono a p ps ltac:(lia)).
    pose proof (Nat.Div0.div_le_mono p (a + n - 1) ps ltac:(lia)). lia.
Qed.

Lemma touched_nodup a n : NoDup (touched a n).
Proof. unfold touched. destruct (n =? 0); [constructor|apply NoDup_seq]. Qed.

(** The representatives of a row slice are its pages, each once and in order. *)
Lemma pieces_pages a n :
  0 < n →
  concat ((λ idx : list Z, (λ i, (i / Z.of_nat ps)%Z) <$> idx) <$> Paged.pieces ps (kv_row a n) a) =
    pt <$> touched a n.
Proof.
  intros Hn. unfold Paged.pieces, touched. destruct (Nat.eqb_spec n 0) as [|_]; [lia|].
  pose proof (Nat.div_mod a ps ltac:(lia)) as Hdm. pose proof (Nat.mod_upper_bound a ps ltac:(lia)) as Hmod.
  set (q := a / ps) in *. set (off := a mod ps) in *. unfold kv_row.
  assert (Hsl : ∀ start, a + start = ps * (q + if off =? 0 then 0 else 1) →
    (λ i, (i / Z.of_nat ps)%Z) <$> stride_slice start ps
      ((λ p, (pt (p / ps) * Z.of_nat ps + Z.of_nat (p mod ps))%Z) <$> seq a n) =
    pt <$> seq (q + if off =? 0 then 0 else 1) (pages_of ps (n - start))).
  { intros start Hst. rewrite stride_slice_seq, <- list_fmap_compose by done.
    rewrite (fmap_seq_shift pt). apply list_fmap_ext. intros i ? [-> Hi]%lookup_seq. cbn.
    rewrite page_of_slot. f_equal. rewrite Hst, <- Nat.mul_comm, <- Nat.mul_add_distr_r, Nat.div_mul; lia. }
  pose proof (Nat.div_mod (a + n - 1) ps ltac:(lia)) as Hde.
  pose proof (Nat.mod_upper_bound (a + n - 1) ps ltac:(lia)) as Hme.
  pose proof (Nat.Div0.div_le_mono a (a + n - 1) ps ltac:(lia)) as Hqe. fold q in Hqe.
  set (e := (a + n - 1) / ps) in *. assert (∃ d, e = q + d) as [d Hd] by (exists (e - q); lia).
  replace (e - q) with d by lia. rewrite Hd, Nat.mul_add_distr_l in Hde.
  destruct (Nat.eqb_spec off 0) as [E|E]; cbn [fmap list_fmap concat].
  - rewrite Hsl, app_nil_r, Nat.add_0_r by lia. f_equal. f_equal. apply pages_of_unique; lia.
  - rewrite Hsl, app_nil_r by lia. rewrite <- cons_seq. cbn [fmap list_fmap].
    destruct n as [|n]; [lia|]. cbn [seq fmap list_fmap take app]. rewrite page_of_slot, take_0. fold q. f_equal.
    cbn [fmap list_fmap app]. rewrite Nat.add_1_r. do 2 f_equal. apply pages_of_unique; lia.
Qed.
End rows.

Section pool.
Context `{TorchIntLaws}.
Implicit Types s : Allocator.

Lemma torch_unique_perm l k : NoDup l → (∀ x, x ∈ l ↔ x ∈ k) → torch_unique k ≡ₚ l.
Proof.
  intros Hl Hlk. apply NoDup_Permutation; [apply torch_unique_nodup|done|].
  intros x. by rewrite torch_unique_elem, Hlk.
Qed.

Lemma debug_check_ok s :
  NoDup (free_pages s ++ release_pages s) → Paged.debug_check_no_duplicate_pages s = Ok tt.
Proof.
  intros Hnd. apply py_check_true, Nat.eqb_eq, Permutation_length, torch_unique_perm; done.
Qed.

(** The frees a group holds back, as page numbers. *)
Definition pending s : list Z :=
  torch_unique (Paged.page_ids s (concat (default [] (free_group s)))) ++
  Paged.page_ids s (concat (free_page_reps_group s)).

(** Every page that is not in use. *)
Definition pool_pages s : list Z := free_pages s ++ release_pages s ++ pending s.

(** What the allocator knows about its own lists. *)
Record pool_wf s : Prop := {
  wf_ps : 0 < page_size s;
  wf_release : need_sort s = false → release_pages s = [];
}.

(** No representative is held back outside a group. *)
Definition quiescent s : Prop := free_group s = None → free_page_reps_group s = [].

(** [s'] is [s] with the pages [P] given back. *)
Record gives (P : list Z) s s' : Prop := {
  gives_ps : page_size s' = page_size s;
  gives_sort : need_sort s' = need_sort s;
  gives_pages : num_pages s' = num_pages s;
  gives_wf : pool_wf s → pool_wf s';
  gives_none : free_group s' = None ↔ free_group s = None;
  gives_reps : free_group s = None → free_page_reps_group s' = free_page_reps_group s;
  gives_pool : pool_pages s' ≡ₚ P ++ pool_pages s;
}.

Lemma gives_refl s : gives [] s s.
Proof. by split. Qed.

Lemma gives_trans P Q s1 s2 s3 : gives P s1 s2 → gives Q s2 s3 → gives (Q ++ P) s1 s3.
Proof.
  intros [E1 E2 E3 W N R E4] [F1 F2 F3 V M S F4].
  split; [congruence..|auto|tauto|intros; rewrite S, R; tauto|]. rewrite F4, E4. by rewrite app_assoc.
Qed.

Lemma gives_perm P Q s s' : P ≡ₚ Q → gives P s s' → gives Q s s'.
Proof. intros HPQ [??????]. split; try done. by rewrite <- HPQ. Qed.

Lemma unique_nil : torch_unique [] = [].
Proof. apply Permutation_nil_r, torch_unique_perm; [constructor|done]. Qed.

Lemma page_ids_set_lists s f r idx : Paged.page_ids (set_lists s f r) idx = Paged.page_ids s idx.
Proof. done. Qed.

Lemma page_ids_app s l k : Paged.page_ids s (l ++ k) = Paged.page_ids s l ++ Paged.page_ids s k.
Proof. unfold Paged.page_ids. apply fmap_app. Qed.

Lemma page_ids_concat s l : concat (Paged.page_ids s <$> l) = Paged.page_ids s (concat l).
Proof. unfold Paged.page_ids. induction l as [|x l IH]; [done|]. cbn [fmap list_fmap concat]. by rewrite IH, fmap_app. Qed.

Lemma release_gives ids s : gives (concat ids) s (Paged.release_page_ids ids s).
Proof.
  unfold Paged.release_page_ids. destruct (need_sort s) eqn:E; split; cbn; try done.
  - intros [? Hr]. split; cbn; [done|congruence].
  - unfold pool_pages. cbn. rewrite <- !app_assoc. apply Permutation_app_swap_app.
  - intros [? Hr]. by split.
  - unfold pool_pages. cbn. by rewrite <- !app_assoc.
Qed.

(** [free] gives back the pages of its tokens, once each. *)
Lemma free_gives idx s :
  NoDup (torch_unique (Paged.page_ids s idx) ++ pool_pages s) →
  ∃ s', Paged.free idx s = Ok s' ∧ gives (torch_unique (Paged.page_ids s idx)) s s'.
Proof.
  intros Hnd. unfold Paged.free. destruct idx as [|x idx].
  { exists s. split; [done|]. cbn. rewrite unique_nil. apply gives_refl. }
  set (l := x :: idx) in *. set (P := torch_unique (Paged.page_ids s l)) in *.
  set (s' := match free_group s with None => _ | Some g => _ end).
  assert (Hg : gives P s s').
  { unfold s'. destruct (free_group s) as [g|] eqn:E.
    - split; try done; [intros [? ?]; by split|by rewrite E|]. unfold pool_pages, pending in *. rewrite E in Hnd |- *.
      cbn [set_group free_group free_pages release_pages free_page_reps_group default from_option id] in *.
      change (Paged.page_ids (set_group s _ _)) with (Paged.page_ids s).
      rewrite (torch_unique_perm (P ++ torch_unique (Paged.page_ids s (concat g)))).
      + solve_Permutation.
      + set (U := torch_unique (Paged.page_ids s (concat g))) in *. set (R := Paged.page_ids s (concat (free_page_reps_group s))) in *.
        assert (P ++ free_pages s ++ release_pages s ++ U ++ R ≡ₚ (P ++ U) ++ free_pages s ++ release_pages s ++ R)
          as Hp by solve_Permutation.
        rewrite Hp in Hnd. by apply NoDup_app in Hnd as [? _].
      + intros y. unfold P. rewrite elem_of_app, !torch_unique_elem, concat_app. cbn. rewrite app_nil_r.
        unfold Paged.page_ids. rewrite fmap_app, elem_of_app. naive_solver.
    - pose proof (release_gives [P] s) as Hr. cbn in Hr. by rewrite app_nil_r in Hr. }
  exists s'. split; [|done]. destruct (debug_mode s'); [|done]. rewrite debug_check_ok; [done|].
  destruct Hg as [_ _ _ _ _ _ Hp]. unfold pool_pages at 1 in Hp. rewrite <- Hp, app_assoc in Hnd.
  by apply NoDup_app in Hnd as [? _].
Qed.

(** [free_segment] gives back the pages of its segment, once each. *)
Lemma free_segment_gives pt a n s :
  0 < page_size s → NoDup ((pt <$> touched (page_size s) a n) ++ pool_pages s) →
  ∃ s', Paged.free_segment (kv_row (page_size s) pt a n) a s = Ok s' ∧
    gives (pt <$> touched (page_size s) a n) s s'.
Proof.
  intros Hps Hnd. destruct n as [|n].
  { exists s. split; [done|]. apply gives_refl. }
  pose proof (pieces_pages (page_size s) pt Hps a (S n) ltac:(lia)) as Hpc.
  set (P := pt <$> touched (page_size s) a (S n)) in *. unfold Paged.free_segment.
  destruct (kv_row (page_size s) pt a (S n)) as [|x l] eqn:El; [done|].
  set (pcs := Paged.pieces (page_size s) (x :: l) a) in *. change (λ idx : list Z, _) with (Paged.page_ids s) in Hpc.
  assert (Huniq : P ≡ₚ torch_unique (Paged.page_ids s (x :: l))).
  { symmetry. apply torch_unique_perm; [by apply NoDup_app in Hnd as [? _]|]. intros y.
    unfold Paged.page_ids. rewrite <- El, row_pages by done. unfold P. rewrite !list_elem_of_fmap.
    setoid_rewrite (elem_of_touched (page_size s) Hps). setoid_rewrite list_elem_of_fmap.
    setoid_rewrite elem_of_seq. naive_solver. }
  assert ((if debug_mode s then py_assert (bool_decide (torch_sort (concat (Paged.page_ids s <$> pcs)) =
      torch_unique (Paged.page_ids s (x :: l)))) else Ok tt) = Ok tt) as ->.
  { destruct (debug_mode s); [|done]. apply py_check_true, bool_decide_eq_true. rewrite Hpc.
    apply torch_sort_unique; [apply torch_unique_sorted|done]. }
  cbn [mbind result_bind]. destruct (free_group s) as [g|] eqn:Eg.
  - eexists. split; [done|]. split; try done; [intros [? ?]; by split|by rewrite Eg|congruence|].
    unfold pool_pages, pending. rewrite Eg.
    cbn [set_group free_group free_pages release_pages free_page_reps_group].
    change (Paged.page_ids (set_group s _ _)) with (Paged.page_ids s).
    rewrite concat_app, page_ids_app, <- (page_ids_concat s pcs), Hpc.
    solve_Permutation.
  - pose proof (release_gives (Paged.page_ids s <$> pcs) s) as Hg. rewrite Hpc in Hg.
    set (s' := Paged.release_page_ids _ s) in *. exists s'. split; [|done]. destruct (debug_mode s'); [|done].
    rewrite debug_check_ok; [done|]. destruct Hg as [_ _ _ _ _ _ Hp]. unfold pool_pages at 1 in Hp.
    rewrite <- Hp, app_assoc in Hnd. by apply NoDup_app in Hnd as [? _].
Qed.

(** ** A whole request *)

(** Disjoint ascending segments of positions, starting at [lo]. *)
Fixpoint ascending (lo : nat) (segs : list (nat * nat)) : Prop :=
  match segs with
  | [] => True
  | (a, n) :: segs => if n =? 0 then ascending lo segs else lo ≤ a ∧ ascending (a + n) segs
  end.

(** The first position of a segment that is left after trimming. *)
Definition trim (ps : nat) (prev : option nat) (a : nat) : nat :=
  match prev with
  | Some e => if a / ps =? (e - 1) / ps then (a / ps + 1) * ps else a
  | None => a
  end.

(** The page-table entries that [free_segments] emits after a segment ending at [prev]. *)
Fixpoint emitted (ps : nat) (prev : option nat) (segs : list (nat * nat)) : list nat :=
  match segs with
  | [] => []
  | (a, n) :: segs =>
      if n =? 0 then emitted ps prev segs else
      let a' := trim ps prev a in
      touched ps a' (a + n - a') ++ emitted ps (Some (a + n)) segs
  end.

Definition rows (ps : nat) (pt : nat → Z) (segs : list (nat * nat)) : list (list Z * nat) :=
  (λ '(a, n), (kv_row ps pt a n, a)) <$> segs.

Lemma length_kv_row ps pt a n : length (kv_row ps pt a n) = n.
Proof. unfold kv_row. by rewrite length_fmap, length_seq. Qed.

Lemma drop_kv_row ps pt a n k : drop k (kv_row ps pt a n) = kv_row ps pt (a + k) (n - k).
Proof. unfold kv_row. rewrite <- fmap_drop, drop_seq. do 2 f_equal. Qed.

Lemma trim_row ps pt prev a n :
  0 < ps →
  (match prev with
   | Some prev_end => if a / ps =? (prev_end - 1) / ps
                      then (drop ((a / ps + 1) * ps - a) (kv_row ps pt a n), (a / ps + 1) * ps)
                      else (kv_row ps pt a n, a)
   | None => (kv_row ps pt a n, a)
   end) = (kv_row ps pt (trim ps prev a) (a + n - trim ps prev a), trim ps prev a).
Proof.
  intros Hps. unfold trim. destruct prev as [e|]; [|do 2 f_equal; lia].
  destruct (_ =? _); [|do 2 f_equal; lia]. rewrite drop_kv_row.
  pose proof (Nat.div_mod a ps ltac:(lia)). pose proof (Nat.mod_upper_bound a ps ltac:(lia)).
  f_equal. f_equal; lia.
Qed.

Section segments.
Variables (ps : nat) (pt : nat → Z).
Hypothesis Hps : 0 < ps.

(** The part of a segment that is left after trimming the page of position [e - 1]. *)
Lemma touched_trim a n e :
  0 < n → 0 < e → e ≤ a → a / ps = (e - 1) / ps → ∀ q,
  q ∈ touched ps ((a / ps + 1) * ps) (a + n - (a / ps + 1) * ps) ↔ q ∈ touched ps a n ∧ q ≠ (e - 1) / ps.
Proof.
  intros Hn He Hea E q. rewrite !elem_of_touched by done. rewrite <- E.
  pose proof (Nat.div_mod a ps ltac:(lia)). pose proof (Nat.mod_upper_bound a ps ltac:(lia)).
  split.
  - intros (p & Hp & <-). pose proof (Nat.div_le_lower_bound p ps (a / ps + 1) ltac:(lia) ltac:(lia)).
    split; [exists p; split; [lia|done]|lia].
  - intros [(p & Hp & <-) Hne]. exists p. split; [|done].
    pose proof (Nat.Div0.div_le_mono a p ps ltac:(lia)). pose proof (Nat.div_mod p ps ltac:(lia)).
    assert ((a / ps + 1) * ps ≤ p); [|lia]. assert (a / ps + 1 ≤ p / ps) by lia. nia.
Qed.

Lemma ascending_ge lo segs a n : ascending lo segs → (a, n) ∈ segs → n = 0 ∨ lo ≤ a.
Proof.
  revert lo. induction segs as [|[b m] segs IH]; intros lo Hasc Hin; [by apply not_elem_of_nil in Hin|].
  cbn in Hasc. apply elem_of_cons in Hin as [[= -> ->]|Hin].
  - destruct (Nat.eqb_spec m 0); [by left|right; tauto].
  - destruct (Nat.eqb_spec m 0); [by eapply IH|]. destruct Hasc as [? Hasc].
    destruct (IH _ Hasc Hin); [by left|right; lia].
Qed.

(** Each touched page is emitted once, except the one of the previous segment's end. *)
Lemma emitted_spec lo prev segs :
  ascending lo segs → match prev with Some e => 0 < e ∧ e ≤ lo | None => True end →
  NoDup (emitted ps prev segs) ∧
  ∀ q, q ∈ emitted ps prev segs ↔
    (∃ a n, (a, n) ∈ segs ∧ q ∈ touched ps a n) ∧
    match prev with Some e => q ≠ (e - 1) / ps | None => True end.
Proof.
  revert lo prev. induction segs as [|[a n] segs IH]; intros lo prev Hasc Hprev.
  { split; [constructor|]. intros q. cbn. set_solver. }
  cbn [ascending emitted] in *. destruct (Nat.eqb_spec n 0) as [->|Hn].
  { destruct (IH lo prev Hasc Hprev) as [Hnd Hel]. split; [done|]. intros q. rewrite Hel.
    setoid_rewrite elem_of_cons. assert (∀ b, q ∉ touched ps b 0) by (intros b; apply not_elem_of_nil). naive_solver. }
  destruct Hasc as [Hlo Hasc]. destruct (IH (a + n) (Some (a + n)) Hasc ltac:(cbv beta iota; lia)) as [Hnd Hel]. clear IH.
  set (a' := trim ps prev a).
  assert (Hfst : ∀ q, q ∈ touched ps a' (a + n - a') ↔
    q ∈ touched ps a n ∧ match prev with Some e => q ≠ (e - 1) / ps | None => True end).
  { intros q. unfold a', trim. destruct prev as [e|].
    - destruct (Nat.eqb_spec (a / ps) ((e - 1) / ps)) as [E|E]; [apply touched_trim; lia || done|].
      replace (a + n - a) with n by lia. rewrite elem_of_touched by done. split; [|tauto].
      intros (p & Hp & <-). split; [by exists p|]. pose proof (Nat.Div0.div_le_mono a p ps ltac:(lia)).
      pose proof (Nat.Div0.div_le_mono (e - 1) a ps ltac:(lia)). lia.
    - replace (a + n - a) with n by lia. tauto. }
  assert (Hlast : ∀ q, q ∈ touched ps a n → q ≤ (a + n - 1) / ps).
  { intros q. rewrite elem_of_touched by done. intros (p & Hp & <-). apply Nat.Div0.div_le_mono. lia. }
  assert (Hrest : ∀ b m q, (b, m) ∈ segs → q ∈ touched ps b m → (a + n - 1) / ps ≤ q).
  { intros b m q Hin. rewrite elem_of_touched by done. intros (p & Hp & <-). apply Nat.Div0.div_le_mono.
    destruct (ascending_ge _ _ _ _ Hasc Hin); lia. }
  assert (Hend : (a + n - 1) / ps ∈ touched ps a n).
  { apply elem_of_touched; [done|]. exists (a + n - 1). split; [lia|done]. }
  assert (Hpe : match prev with Some e => (e - 1) / ps ≤ (a + n - 1) / ps | None => True end).
  { destruct prev; [|done]. apply Nat.Div0.div_le_mono. lia. }
  split.
  - apply NoDup_app. split; [apply touched_nodup|]. split; [|done]. intros q [Hq _]%Hfst [(b & m & Hin & Hq') Hne]%Hel.
    specialize (Hlast _ Hq). specialize (Hrest _ _ _ Hin Hq'). lia.
  - intros q. rewrite elem_of_app, Hfst, Hel. setoid_rewrite elem_of_cons. split.
    + intros [[Hq ?]|[(b & m & Hin & Hq) Hne]]; [naive_solver|]. specialize (Hrest _ _ _ Hin Hq).
      split; [naive_solver|]. destruct prev; [lia|done].
    + intros [(b & m & [[= -> ->]|Hin] & Hq) Hne]; [by left|].
      destruct (decide (q = (a + n - 1) / ps)) as [->|]; [by left|right; naive_solver].
Qed.
End segments.

Lemma free_segments_loop_gives pt prev segs s :
  0 < page_size s → NoDup ((pt <$> emitted (page_size s) prev segs) ++ pool_pages s) →
  ∃ s', Base.free_segments_loop Paged.free_segment prev (rows (page_size s) pt segs) s = Ok s' ∧
    gives (pt <$> emitted (page_size s) prev segs) s s'.
Proof.
  revert prev s. induction segs as [|[a n] segs IH]; intros prev s Hps Hnd.
  { exists s. split; [done|apply gives_refl]. }
  cbn [rows fmap list_fmap Base.free_segments_loop emitted] in *. rewrite length_kv_row. destruct (Nat.eqb_spec n 0) as [->|Hn]; [by apply IH|].
  rewrite trim_row by done. set (a' := trim (page_size s) prev a) in *.
  rewrite fmap_app, <- app_assoc in Hnd.
  destruct (free_segment_gives pt a' (a + n - a') s Hps) as (s1 & -> & Hg).
  { rewrite (Permutation_app_swap_app (pt <$> touched _ _ _)) in Hnd. by apply NoDup_app in Hnd as (_ & _ & ?). }
  cbn [mbind result_bind]. pose proof (gives_ps _ _ _ Hg) as Eps. rewrite <- Eps in *.
  destruct (IH (Some (a + n)) s1) as (s2 & E2 & Hg2); [done| |].
  { rewrite (gives_pool _ _ _ Hg), Eps. rewrite Eps in Hnd. by rewrite (Permutation_app_swap_app (pt <$> emitted _ _ _)). }
  exists s2. split; [done|]. rewrite fmap_app. eapply gives_perm; [apply Permutation_app_comm|].
  eapply gives_trans; [|done]. by rewrite Eps in *.
Qed.

Lemma elem_of_concat_pages s pt segs x :
  0 < page_size s →
  x ∈ concat (Paged.page_ids s <$> (rows (page_size s) pt segs).*1) ↔
    ∃ q, x = pt q ∧ ∃ a n, (a, n) ∈ segs ∧ q ∈ touched (page_size s) a n.
Proof.
  intros Hps. induction segs as [|[a n] segs IH]; cbn [rows fmap list_fmap concat].
  { split; [by intros ?%not_elem_of_nil|]. by intros (q & _ & a & n & ?%not_elem_of_nil & _). }
  rewrite elem_of_app. unfold rows in IH. rewrite IH. unfold Paged.page_ids at 1. cbn [fst].
  change (list_fmap Z Z ?f ?l) with (f <$> l). rewrite row_pages by done. rewrite list_elem_of_fmap.
  setoid_rewrite (elem_of_touched (page_size s) Hps). setoid_rewrite list_elem_of_fmap. setoid_rewrite elem_of_seq.
  setoid_rewrite elem_of_cons. naive_solver.
Qed.

(** ** Free groups *)

Lemma free_group_begin_gives s :
  free_group s = None → quiescent s →
  gives [] (set_group s (Some []) []) (Paged.free_group_begin s) ∧
  pool_pages (Paged.free_group_begin s) ≡ₚ pool_pages s.
Proof.
  intros Hg Hq. split; [by split|]. unfold pool_pages, pending. cbn. by rewrite Hg, (Hq Hg).
Qed.

(** The pages on the two lists. *)
Definition held s : list Z := free_pages s ++ release_pages s.

(** [s'] has the configuration of [s] and [P] more pages on its lists. *)
Record released (P : list Z) s s' : Prop := {
  rel_ps : page_size s' = page_size s;
  rel_sort : need_sort s' = need_sort s;
  rel_pages : num_pages s' = num_pages s;
  rel_group : free_group s' = free_group s;
  rel_reps : free_page_reps_group s' = free_page_reps_group s;
  rel_wf : pool_wf s → pool_wf s';
  rel_held : held s' ≡ₚ P ++ held s;
}.

Lemma release_released ids s : released (concat ids) s (Paged.release_page_ids ids s).
Proof.
  unfold Paged.release_page_ids. destruct (need_sort s) eqn:E; split; try done.
  - intros [? Hr]. split; cbn; [done|congruence].
  - unfold held. cbn. apply Permutation_app_swap_app.
  - intros [? Hr]. by split.
  - unfold held. cbn. by rewrite <- app_assoc.
Qed.

Lemma free_released idx s :
  free_group s = None → NoDup (torch_unique (Paged.page_ids s idx) ++ held s) →
  ∃ s', Paged.free idx s = Ok s' ∧ released (torch_unique (Paged.page_ids s idx)) s s'.
Proof.
  intros Hg Hnd. unfold Paged.free. destruct idx as [|x idx].
  { exists s. split; [done|]. cbn. rewrite unique_nil. by split. }
  rewrite Hg. pose proof (release_released [torch_unique (Paged.page_ids s (x :: idx))] s) as Hr.
  cbn [concat] in Hr. rewrite app_nil_r in Hr. eexists. split; [|exact Hr].
  destruct (debug_mode _); [|done]. rewrite debug_check_ok; [done|]. fold (held (Paged.release_page_ids
    [torch_unique (Paged.page_ids s (x :: idx))] s)). by rewrite (rel_held _ _ _ Hr).
Qed.

(** [free_group_end] releases what the group held back. *)
Lemma free_group_end_released s :
  pool_wf s → NoDup (pool_pages s) →
  ∃ s', Paged.free_group_end s = Ok s' ∧ page_size s' = page_size s ∧ need_sort s' = need_sort s ∧
    num_pages s' = num_pages s ∧ pool_wf s' ∧ free_group s' = None ∧ free_page_reps_group s' = [] ∧
    held s' ≡ₚ pool_pages s.
Proof.
  intros Hwf Hnd. unfold Paged.free_group_end. set (s0 := set_group s None (free_page_reps_group s)).
  set (U := torch_unique (Paged.page_ids s (concat (default [] (free_group s))))).
  set (R := Paged.page_ids s (concat (free_page_reps_group s))).
  assert (Hpool : pool_pages s ≡ₚ R ++ U ++ held s).
  { unfold pool_pages, pending, held. fold U R. solve_Permutation. }
  assert (∃ s1, Base.free_group_end Paged.free s = Ok s1 ∧ released U s0 s1) as (s1 & -> & Hg).
  { unfold Base.free_group_end. fold s0. destruct (free_group s) as [[|x g]|] eqn:Eg.
    1, 3: exists s0; split; [done|]; unfold U; cbn; rewrite unique_nil; by split.
    apply (free_released (concat (x :: g)) s0); [done|]. change (held s0) with (held s).
    change (Paged.page_ids s0) with (Paged.page_ids s). rewrite Hpool in Hnd. by apply NoDup_app in Hnd as (_ & _ & ?). }
  cbn [mbind result_bind]. destruct Hg as [E1 E2 E3 E4 E5 W Hh]. cbn in E1, E2, E3, E4, E5.
  change (held s0) with (held s) in Hh. assert (Hwf1 : pool_wf s1) by (apply W; destruct Hwf; by split).
  set (s2 := match free_page_reps_group s1 with [] => s1 | _ => _ end).
  assert (Hs2 : page_size s2 = page_size s ∧ need_sort s2 = need_sort s ∧ num_pages s2 = num_pages s ∧ pool_wf s2 ∧
    free_group s2 = None ∧ free_page_reps_group s2 = [] ∧ held s2 ≡ₚ pool_pages s).
  { rewrite Hpool, <- Hh. unfold s2, R. clear s2. destruct (free_page_reps_group s1) as [|r reps] eqn:Er; rewrite <- E5.
    { repeat split; try done; apply Hwf1. }
    pose proof (release_released [Paged.page_ids s1 (concat (r :: reps))] s1) as [F1 F2 F3 F4 F5 V Hh2].
    set (s3 := Paged.release_page_ids _ s1) in *. destruct (V Hwf1) as [V1 V2].
    repeat split; cbn [set_group page_size need_sort num_pages free_group free_page_reps_group release_pages]; try congruence; try done.
    change (held (set_group s3 _ _)) with (held s3). rewrite Hh2. cbn [concat]. rewrite app_nil_r.
    unfold Paged.page_ids. by rewrite E1. }
  destruct Hs2 as (? & ? & ? & ? & ? & Hr2 & Hp2). exists s2. split; [|done].
  destruct (debug_mode s2); [|done]. rewrite debug_check_ok; [done|]. by rewrite Hp2.
Qed.

(** ** Allocation *)

(** [s'] is [s] with the pages [T] taken off its lists. *)
Record takes (T : list Z) s s' : Prop := {
  takes_ps : page_size s' = page_size s;
  takes_sort : need_sort s' = need_sort s;
  takes_pages : num_pages s' = num_pages s;
  takes_group : free_group s' = free_group s;
  takes_reps : free_page_reps_group s' = free_page_reps_group s;
  takes_debug : debug_mode s' = debug_mode s;
  takes_wf : pool_wf s → pool_wf s';
  takes_held : held s ≡ₚ T ++ held s';
}.

Lemma takes_pool T s s' : takes T s s' → pool_pages s ≡ₚ T ++ pool_pages s'.
Proof.
  intros [E1 _ _ E4 E5 _ _ Hh]. unfold pool_pages, pending, Paged.page_ids. rewrite E1, E4, E5.
  unfold held in Hh. rewrite !app_assoc. do 2 f_equiv. by rewrite <- app_assoc.
Qed.

Lemma takes_trans T s1 s2 s3 : takes [] s1 s2 → takes T s2 s3 → takes T s1 s3.
Proof.
  intros [E1 E2 E3 E4 E5 E6 W E7] [F1 F2 F3 F4 F5 F6 V F7]. split; [congruence..|auto|]. by rewrite E7, F7.
Qed.

(** The pages are merged and sorted when the free list is shorter than [k]. *)
Definition prepare (k : nat) s : Allocator :=
  if need_sort s && (length (free_pages s) <? k) then Base.merge_and_sort_free s else s.

Lemma prepare_takes k s : takes [] s (prepare k s).
Proof.
  unfold prepare, Base.merge_and_sort_free. destruct (_ && _), (release_pages s) as [|x l] eqn:E; try by split.
  split; try done; [intros [? ?]; by split|]. unfold held. cbn. by rewrite torch_sort_perm, app_nil_r, E.
Qed.

Lemma prepare_enough k n s :
  (need_sort s = false → release_pages s = []) → n ≤ k →
  n ≤ length (held s) ↔ n ≤ length (free_pages (prepare k s)).
Proof.
  intros Hrel Hnk. pose proof (takes_held _ _ _ (prepare_takes k s)) as Hh. cbn in Hh.
  rewrite Hh. unfold held. rewrite length_app. split; [|lia]. intros Hn.
  unfold prepare, Base.merge_and_sort_free in *. destruct (need_sort s) eqn:Es; cbn [andb] in *.
  - destruct (Nat.ltb_spec (length (free_pages s)) k); [|lia].
    destruct (release_pages s) eqn:El; [rewrite El in Hn|]; cbn in *; lia.
  - rewrite Hrel in Hn by done. cbn in Hn. lia.
Qed.

Lemma drop_takes n s : takes (take n (free_pages s)) s (set_lists s (drop n (free_pages s)) (release_pages s)).
Proof. split; try done; [intros [? ?]; by split|]. unfold held. cbn. by rewrite app_assoc, take_drop. Qed.

(** [alloc] hands out whole pages exactly when enough are left. *)
Lemma alloc_spec need s :
  pool_wf s → need mod page_size s = 0 →
  (need / page_size s ≤ length (held s) → ∃ T s', Paged.alloc need s = Ok (Some (Paged.page_slots (page_size s) T), s') ∧
    takes T s s' ∧ length T = need / page_size s) ∧
  (length (held s) < need / page_size s → ∃ s', Paged.alloc need s = Ok (None, s') ∧ takes [] s s').
Proof.
  intros Hwf Hmod. unfold Paged.alloc.
  assert ((if debug_mode s then py_assert (need mod page_size s =? 0) else Ok tt) = Ok tt) as ->.
  { destruct (debug_mode s); [|done]. by apply py_check_true, Nat.eqb_eq. }
  cbn [mbind result_bind]. set (k := need / page_size s). fold (prepare k s).
  pose proof (prepare_takes k s) as Hp. pose proof (prepare_enough k k s (wf_release _ Hwf) ltac:(done)) as He.
  rewrite (takes_ps _ _ _ Hp). destruct (Nat.ltb_spec (length (free_pages (prepare k s))) k).
  - split; [lia|]. intros _. by exists (prepare k s).
  - split; [|lia]. intros _. eexists _, _. split; [done|]. split; [eapply takes_trans; [done|apply drop_takes]|].
    rewrite length_take. lia.
Qed.

(** What the caller of [alloc_extend] guarantees: consistent lengths, [last_loc] is the slot
    of the last prefix token, and partially filled pages are in use by one request. *)
Record extend_ok (ps : nat) (reqs : list (nat * nat)) (last : list Z) (live : list Z) : Prop := {
  eo_le : Forall (λ r : nat * nat, r.1 ≤ r.2) reqs;
  eo_len : length last = length reqs;
  eo_align : ∀ i r, reqs !! i = Some r → last_loc_aligned ps r (last !!! i);
  eo_used : ∀ i r, reqs !! i = Some r → r.1 mod ps ≠ 0 → (last !!! i / Z.of_nat ps)%Z ∈ live;
  eo_own : ∀ i j ri rj, reqs !! i = Some ri → reqs !! j = Some rj → ri.1 mod ps ≠ 0 → rj.1 mod ps ≠ 0 →
    (last !!! i / Z.of_nat ps = last !!! j / Z.of_nat ps)%Z → i = j;
}.

(** The slots of a launch that has enough pages. *)
Lemma extend_slots ps reqs last live free pids out :
  0 < ps → extend_ok ps reqs last live → NoDup (free ++ live) → total_pages ps reqs ≤ length free →
  pids ≡ₚ seq 0 (length reqs) → length out = total_len reqs →
  alloc_extend_kernel ps free pids reqs last out = all_slots ps (take (total_pages ps reqs) free) reqs last ∧
  NoDup (all_slots ps (take (total_pages ps reqs) free) reqs last).
Proof.
  intros Hps [Hle Hlen Hal Hus Hown] (Hnd & Hdis & _)%NoDup_app Htot Hpids Hout. split.
  - rewrite (alloc_extend_kernel_slots ps free reqs last Hps Hle pids out Hpids Hout). symmetry.
    by apply all_slots_take.
  - rewrite all_slots_take by done. apply all_slots_nodup; try done.
    intros i r Hr Hm Hin. by apply (Hdis _ Hin), (Hus i r).
Qed.

Lemma unique_check_ok (b : bool) l :
  NoDup l → (if b then py_assert (length (torch_unique l) =? length l) else Ok tt) = Ok tt.
Proof.
  intros Hl. destruct b; [|done]. by apply py_check_true, Nat.eqb_eq, Permutation_length, torch_unique_perm.
Qed.

Lemma align_check_ok (b : bool) (f : Z * (nat * nat) → bool) last reqs :
  (∀ i r, reqs !! i = Some r → f (last !!! i, r) = true) → length last = length reqs →
  (if b then py_assert (forallb f (zip last reqs)) else Ok tt) = Ok tt.
Proof.
  intros Hf Hlen. destruct b; [|done]. apply py_check_true, forallb_forall. intros [x r] Hin.
  apply list_elem_of_In, list_elem_of_lookup in Hin as [i Hi]. apply lookup_zip_with_Some in Hi as (y & r' & [= -> ->] & Hy & Hr).
  rewrite <- (list_lookup_total_correct _ _ _ Hy). by apply Hf.
Qed.

Lemma get_num_new_pages_extend ps reqs :
  get_num_new_pages ps (Some reqs.*1) reqs.*2 false = Ok (total_pages ps reqs).
Proof. unfold get_num_new_pages, total_pages. by rewrite zip_fst_snd. Qed.

(** [alloc_extend] with enough pages. *)
Lemma alloc_extend_spec pids reqs last live nnp s :
  pool_wf s → extend_ok (page_size s) reqs last live → NoDup (held s ++ live) →
  pids ≡ₚ seq 0 (length reqs) → nnp = None ∨ nnp = Some (total_pages (page_size s) reqs) →
  total_pages (page_size s) reqs ≤ length (held s) →
  ∃ T s', Paged.alloc_extend pids reqs last (total_len reqs) nnp s =
      Ok (Some (all_slots (page_size s) T reqs last), s') ∧ takes T s s' ∧
    length T = total_pages (page_size s) reqs ∧ NoDup (all_slots (page_size s) T reqs last).
Proof.
  intros Hwf Hok Hnd Hpids Hnnp Htot. pose proof (wf_ps _ Hwf) as Hps. set (ps := page_size s) in *.
  unfold Paged.alloc_extend. fold ps. destruct Hok as [Hle Hlen Hal Hus Hown] eqn:Eok.
  rewrite align_check_ok; [|intros i r Hr; apply Z.eqb_eq; by apply Hal|done]. cbn [mbind result_bind].
  set (k := total_len reqs / ps + length reqs + 1). fold (prepare k s).
  pose proof (prepare_takes k s) as Hp. pose proof (total_pages_bound ps reqs Hps Hle) as Hb.
  apply (prepare_enough k _ s (wf_release _ Hwf)) in Htot; [|lia]. set (s1 := prepare k s) in *.
  assert (Hnd1 : NoDup (free_pages s1 ++ live)).
  { rewrite (takes_held _ _ _ Hp) in Hnd. unfold held in Hnd. cbn in Hnd. rewrite <- app_assoc in Hnd.
    rewrite (Permutation_app_swap_app (free_pages s1)) in Hnd. by apply NoDup_app in Hnd as (_ & _ & ?). }
  destruct (extend_slots ps reqs last live (free_pages s1) pids (torch_empty (total_len reqs)) Hps) as [-> Hnds]; try done.
  { apply torch_empty_length. }
  rewrite unique_check_ok by done. cbn [mbind result_bind].
  assert ((match nnp with Some n => Ok n | None => get_num_new_pages ps (Some reqs.*1) reqs.*2 false end) =
    Ok (total_pages ps reqs)) as -> by (destruct Hnnp as [-> | ->]; [apply get_num_new_pages_extend|done]).
  cbn [mbind result_bind]. destruct (Nat.ltb_spec (length (free_pages s1)) (total_pages ps reqs)); [lia|].
  eexists _, _. split; [done|]. split; [eapply takes_trans; [done|apply drop_takes]|].
  split; [|done]. rewrite length_take. lia.
Qed.

Lemma decode_aligned ps n last :
  0 < ps → 1 ≤ n → last_loc_aligned ps (n - 1, n) last → ((last + 2) mod Z.of_nat ps = Z.of_nat (n mod ps))%Z.
Proof.
  intros Hps Hn Hal. unfold last_loc_aligned in Hal. cbn [fst] in Hal. rewrite !Nat2Z.inj_mod in *.
  replace (last + 2)%Z with ((last + 1) + 1)%Z by lia. rewrite Z.add_mod, Hal, <- Z.add_mod by lia. f_equal. lia.
Qed.

Lemma decode_total_pages ps seq_lens :
  0 < ps → Forall (λ n, 1 ≤ n) seq_lens → total_pages ps (decode_reqs seq_lens) ≤ length seq_lens.
Proof.
  intros Hps. unfold total_pages, decode_reqs. induction 1 as [|n l Hn Hl IH]; [done|].
  cbn [fmap list_fmap sum_list_with length]. unfold id at 1, new_pages at 1. cbn [fst snd].
  pose proof (pages_of_bounds ps Hps n). pose proof (pages_of_bounds ps Hps (n - 1)).
  assert (pages_of ps n ≤ pages_of ps (n - 1) + 1); [|unfold id in *; lia]. apply Nat.nlt_ge. intros ?. nia.
Qed.

(** [alloc_decode] with enough pages does what [alloc_extend] does for one more token per
    request. *)
Lemma alloc_decode_spec pids seq_lens last live s :
  pool_wf s → 2 ≤ page_size s → Forall (λ n, 1 ≤ n) seq_lens →
  extend_ok (page_size s) (decode_reqs seq_lens) last live → NoDup (held s ++ live) →
  pids ≡ₚ seq 0 (length seq_lens) → total_pages (page_size s) (decode_reqs seq_lens) ≤ length (held s) →
  ∃ T s', Paged.alloc_decode pids seq_lens last s =
      Ok (Some (all_slots (page_size s) T (decode_reqs seq_lens) last), s') ∧ takes T s s' ∧
    length T = total_pages (page_size s) (decode_reqs seq_lens) ∧
    NoDup (all_slots (page_size s) T (decode_reqs seq_lens) last).
Proof.
  intros Hwf Hps2 Hpos Hok Hnd Hpids Htot. pose proof (wf_ps _ Hwf) as Hps. set (ps := page_size s) in *.
  set (reqs := decode_reqs seq_lens) in *. assert (Hlr : length reqs = length seq_lens) by apply length_fmap.
  unfold Paged.alloc_decode. fold ps.
  assert ((if debug_mode s then py_assert (forallb (λ '(last, n), (last + 2) mod Z.of_nat ps =? Z.of_nat (n mod ps))%Z
      (zip last seq_lens)) else Ok tt) = Ok tt) as ->.
  { destruct (debug_mode s); [|done]. apply py_check_true, forallb_forall. intros [x n] Hin.
    apply list_elem_of_In, list_elem_of_lookup in Hin as [i Hi].
    apply lookup_zip_with_Some in Hi as (y & n' & [= -> ->] & Hy & Hr). apply Z.eqb_eq.
    rewrite <- (list_lookup_total_correct _ _ _ Hy). rewrite Forall_lookup in Hpos. apply decode_aligned; [done|by eapply Hpos|].
    apply (eo_align _ _ _ _ Hok i). unfold reqs, decode_reqs. by rewrite list_lookup_fmap, Hr. }
  cbn [mbind result_bind]. fold (prepare (length seq_lens) s). set (k := length seq_lens) in *.
  pose proof (prepare_takes k s) as Hp. pose proof (decode_total_pages ps seq_lens Hps Hpos) as Hb. fold reqs in Hb.
  apply (prepare_enough k _ s (wf_release _ Hwf)) in Htot; [|done]. set (s1 := prepare k s) in *.
  assert (Hnd1 : NoDup (free_pages s1 ++ live)).
  { rewrite (takes_held _ _ _ Hp) in Hnd. unfold held in Hnd. cbn in Hnd. rewrite <- app_assoc in Hnd.
    rewrite (Permutation_app_swap_app (free_pages s1)) in Hnd. by apply NoDup_app in Hnd as (_ & _ & ?). }
  assert (Hlen : total_len reqs = k).
  { unfold total_len, reqs. rewrite <- (decode_ext_start ps seq_lens Hps Hpos k ltac:(done)). unfold ext_start.
    by rewrite take_ge by (fold reqs; lia). }
  rewrite (alloc_decode_kernel_extend ps (free_pages s1) seq_lens last Hps Hpos pids) by done. fold reqs.
  destruct (extend_slots ps reqs last live (free_pages s1) pids (torch_empty k) Hps) as [-> Hnds]; try done.
  { by rewrite Hlr. }
  { by rewrite torch_empty_length. }
  rewrite unique_check_ok by done. cbn [mbind result_bind].
  rewrite (num_new_pages_decode ps seq_lens Hps Hpos Hps2). fold reqs.
  cbn [mbind result_bind]. destruct (Nat.ltb_spec (length (free_pages s1)) (total_pages ps reqs)); [lia|].
  eexists _, _. split; [done|]. split; [eapply takes_trans; [done|apply drop_takes]|].
  split; [|done]. rewrite length_take. lia.
Qed.

(** ** The allocator under its clients *)

Inductive op : Type :=
  | OpAlloc (need_size : nat)
  | OpExtend (pids : list nat) (reqs : list (nat * nat)) (last_loc : list Z)
  | OpDecode (pids : list nat) (seq_lens : list nat) (last_loc : list Z)
  | OpFree (free_index : list Z)
  | OpSegments (pt : nat → Z) (segs : list (nat * nat))
  | OpGroupBegin
  | OpGroupEnd.

Definition run (o : op) s : result (option (list Z) * Allocator) :=
  match o with
  | OpAlloc need => Paged.alloc need s
  | OpExtend pids reqs last => Paged.alloc_extend pids reqs last (total_len reqs) None s
  | OpDecode pids lens last => Paged.alloc_decode pids lens last s
  | OpFree idx => (λ s', (None, s')) <$> Paged.free idx s
  | OpSegments pt segs => (λ s', (None, s')) <$> Paged.free_segments (rows (page_size s) pt segs) s
  | OpGroupBegin => Ok (None, Paged.free_group_begin s)
  | OpGroupEnd => (λ s', (None, s')) <$> Paged.free_group_end s
  end.

(** What a client of the pages [live] may ask for. *)
Definition client_ok s (live : list Z) (o : op) : Prop :=
  let ps := page_size s in
  match o with
  | OpAlloc need => need mod ps = 0
  | OpExtend pids reqs last =>
      pids ≡ₚ seq 0 (length reqs) ∧ extend_ok ps reqs last live ∧ total_pages ps reqs ≤ length (held s)
  | OpDecode pids lens last =>
      pids ≡ₚ seq 0 (length lens) ∧ 2 ≤ ps ∧ Forall (λ n, 1 ≤ n) lens ∧
      extend_ok ps (decode_reqs lens) last live ∧ total_pages ps (decode_reqs lens) ≤ length (held s)
  | OpFree idx => ∀ x, x ∈ Paged.page_ids s idx → x ∈ live
  | OpSegments pt segs =>
      ascending 0 segs ∧ NoDup (pt <$> emitted ps None segs) ∧ ∀ q, q ∈ emitted ps None segs → pt q ∈ live
  | OpGroupBegin => free_group s = None
  | OpGroupEnd => True
  end.

(** The pages in use afterwards. *)
Definition live_after s (live : list Z) (o : op) (out : option (list Z)) : list Z :=
  match o, out with
  | OpFree idx, _ => filter (λ x, x ∉ Paged.page_ids s idx) live
  | OpSegments pt segs, _ => filter (λ x, x ∉ pt <$> emitted (page_size s) None segs) live
  | _, Some idx => filter (λ x, x ∉ live) (remove_dups (Paged.page_ids s idx)) ++ live
  | _, None => live
  end.

(** No page is lost and none is in two places. *)
Record pool_inv s (live : list Z) : Prop := {
  inv_wf : pool_wf s;
  inv_quiet : quiescent s;
  inv_pages : pool_pages s ++ live ≡ₚ seqZ 1 (Z.of_nat (num_pages s));
}.

Lemma pool_inv_nodup s live : pool_inv s live → NoDup (pool_pages s ++ live).
Proof. intros [_ _ ->]. apply NoDup_seqZ. Qed.

Lemma pool_inv_held s live : pool_inv s live → NoDup (held s ++ live).
Proof.
  intros Hnd%pool_inv_nodup. unfold pool_pages in Hnd. rewrite (app_assoc (free_pages s)), <- app_assoc in Hnd.
  fold (held s) in Hnd. rewrite (Permutation_app_swap_app (held s)) in Hnd. by apply NoDup_app in Hnd as (_ & _ & ?).
Qed.

(** Taking the pages of [idx] that were not in use yet. *)
Lemma takes_inv s s' live T idx :
  pool_inv s live → takes T s s' →
  (∀ x, x ∈ Paged.page_ids s idx → x ∈ T ∨ x ∈ live) → (∀ x, x ∈ T → x ∈ Paged.page_ids s idx) →
  pool_inv s' (filter (λ x, x ∉ live) (remove_dups (Paged.page_ids s idx)) ++ live).
Proof.
  intros Hinv Ht Hsub HT. pose proof (takes_pool _ _ _ Ht) as Hp. pose proof (pool_inv_nodup _ _ Hinv) as Hnd.
  destruct Hinv as [Hwf Hq Hpages]. rewrite Hp in Hnd, Hpages. rewrite <- app_assoc in Hnd.
  apply NoDup_app in Hnd as (HndT & Hdis & _). split; [by apply Ht| |].
  - unfold quiescent. rewrite (takes_group _ _ _ Ht), (takes_reps _ _ _ Ht). apply Hq.
  - rewrite (takes_pages _ _ _ Ht), <- Hpages. assert (filter (λ x, x ∉ live) (remove_dups (Paged.page_ids s idx)) ≡ₚ T) as ->.
    { apply NoDup_Permutation; [apply NoDup_filter, NoDup_remove_dups|done|]. intros x.
      rewrite list_elem_of_filter, elem_of_remove_dups. split; [intros [? [?|?]%Hsub]; done|].
      intros HxT. split; [|by apply HT]. specialize (Hdis _ HxT). set_solver. }
    solve_Permutation.
Qed.

(** Giving pages in use back. *)
Lemma gives_inv s s' live P :
  pool_inv s live → gives P s s' → NoDup P → (∀ x, x ∈ P → x ∈ live) → pool_inv s' (filter (λ x, x ∉ P) live).
Proof.
  intros Hinv Hg HndP Hsub. pose proof (pool_inv_nodup _ _ Hinv) as Hnd. destruct Hinv as [Hwf Hq Hpages].
  apply NoDup_app in Hnd as (_ & _ & HndL). split; [by apply Hg| |].
  - intros Hn. apply (gives_none _ _ _ Hg) in Hn. rewrite (gives_reps _ _ _ Hg) by done. by apply Hq.
  - rewrite (gives_pages _ _ _ Hg), <- Hpages, (gives_pool _ _ _ Hg).
    assert (live ≡ₚ P ++ filter (λ x, x ∉ P) live) as Hl; [|rewrite Hl at 2; solve_Permutation].
    apply NoDup_Permutation; [done| |].
    + apply NoDup_app. split; [done|]. split; [|by apply NoDup_filter]. intros x ? [? _]%list_elem_of_filter. done.
    + intros x. rewrite elem_of_app, list_elem_of_filter. destruct (decide (x ∈ P)); naive_solver.
Qed.

Lemma gives_nodup s live P :
  pool_inv s live → NoDup P → (∀ x, x ∈ P → x ∈ live) → NoDup (P ++ pool_pages s).
Proof.
  intros Hnd%pool_inv_nodup HP Hsub. apply NoDup_app in Hnd as (Hp & Hdis & _). apply NoDup_app.
  split; [done|]. split; [|done]. intros x Hx Hx'. by apply (Hdis x Hx'), Hsub.
Qed.

Lemma page_slots_pages ps T x : 0 < ps → x ∈ (λ i, (i / Z.of_nat ps)%Z) <$> Paged.page_slots ps T ↔ x ∈ T.
Proof.
  intros Hps. rewrite list_elem_of_fmap. unfold Paged.page_slots. setoid_rewrite list_elem_of_bind.
  setoid_rewrite list_elem_of_fmap. setoid_rewrite elem_of_seq. split.
  - intros (y & -> & p & (o & -> & Ho) & Hp). rewrite Z.div_add_l, Z.div_small, Z.add_0_r by lia. done.
  - intros Hx. exists (x * Z.of_nat ps + Z.of_nat 0)%Z. rewrite Z.div_add_l, Z.div_small, Z.add_0_r by lia.
    split; [done|]. exists x. split; [|done]. exists 0. split; [done|lia].
Qed.

Lemma page_slots_nodup ps T : NoDup T → NoDup (Paged.page_slots ps T).
Proof.
  intros HT. apply NoDup_bind; [|intros; apply NoDup_fmap_2; [intros ???; lia|apply NoDup_seq]|done].
  intros p q x _ _ (a & -> & Ha%elem_of_seq)%list_elem_of_fmap (b & Hb & Hb'%elem_of_seq)%list_elem_of_fmap.
  destruct (Z.div_mod_unique (Z.of_nat ps) p q (Z.of_nat a) (Z.of_nat b)); lia.
Qed.

(** Each operation a client may ask for succeeds, keeps the invariant and hands out distinct
    slots. *)
Lemma run_preserves s live o :
  pool_inv s live → client_ok s live o →
  ∃ out s', run o s = Ok (out, s') ∧ pool_inv s' (live_after s live o out) ∧ from_option NoDup True out.
Proof.
  intros Hinv Hcl. pose proof (inv_wf _ _ Hinv) as Hwf. pose proof (wf_ps _ Hwf) as Hps.
  pose proof (pool_inv_held _ _ Hinv) as Hndh. destruct o; cbn [run client_ok live_after] in *.
  - destruct (alloc_spec need_size s Hwf Hcl) as [Hyes Hno].
    destruct (decide (need_size / page_size s ≤ length (held s))) as [Hle|Hgt].
    + destruct (Hyes Hle) as (T & s' & -> & Ht & _). eexists _, _. split; [done|].
      assert (NoDup T) by (apply NoDup_app in Hndh as [Hh _]; rewrite (takes_held _ _ _ Ht) in Hh; by apply NoDup_app in Hh as [? _]).
      split; [|by apply page_slots_nodup]. eapply takes_inv; [done..| |]; intros x; unfold Paged.page_ids;
        rewrite page_slots_pages by done; tauto.
    + destruct (Hno ltac:(lia)) as (s' & -> & Ht). eexists _, _. split; [done|]. split; [|done].
      apply (takes_inv s s' live [] []); [done..| |]; intros x Hx; by apply not_elem_of_nil in Hx.
  - destruct Hcl as (Hpids & Hok & Htot).
    destruct (alloc_extend_spec pids reqs last_loc live None s Hwf Hok Hndh Hpids ltac:(by left) Htot)
      as (T & s' & -> & Ht & HT & Hnd). eexists _, _. split; [done|]. split; [|done].
    pose proof (λ x, all_slots_pages (page_size s) T reqs last_loc x Hps (eo_le _ _ _ _ Hok) (eo_align _ _ _ _ Hok) HT) as Hpg.
    eapply takes_inv; [done..| |]; intros x Hx; [|by apply Hpg].
    apply Hpg in Hx as [?|(i & r & Hr & Hm & ->)]; [by left|right]. by apply (eo_used _ _ _ _ Hok i r).
  - destruct Hcl as (Hpids & Hps2 & Hpos & Hok & Htot).
    destruct (alloc_decode_spec pids seq_lens last_loc live s Hwf Hps2 Hpos Hok Hndh Hpids Htot)
      as (T & s' & -> & Ht & HT & Hnd). eexists _, _. split; [done|]. split; [|done].
    pose proof (λ x, all_slots_pages (page_size s) T _ last_loc x Hps (eo_le _ _ _ _ Hok) (eo_align _ _ _ _ Hok) HT) as Hpg.
    eapply takes_inv; [done..| |]; intros x Hx; [|by apply Hpg].
    apply Hpg in Hx as [?|(i & r & Hr & Hm & ->)]; [by left|right]. by apply (eo_used _ _ _ _ Hok i r).
  - assert (HP : ∀ x, x ∈ torch_unique (Paged.page_ids s free_index) → x ∈ live).
    { intros x. rewrite torch_unique_elem. apply Hcl. }
    destruct (free_gives free_index s) as (s' & -> & Hg).
    { eapply gives_nodup; [done|apply torch_unique_nodup|done]. }
    eexists _, _. split; [done|]. split; [|done].
    rewrite (filter_ext_in _ (λ x, x ∉ torch_unique (Paged.page_ids s free_index))) by (intros; by rewrite torch_unique_elem).
    eapply gives_inv; [done..|apply torch_unique_nodup|done].
  - destruct Hcl as (Hasc & Hnd & Hsub).
    assert (HP : ∀ x, x ∈ pt <$> emitted (page_size s) None segs → x ∈ live).
    { intros x (q & -> & Hq)%list_elem_of_fmap. by apply Hsub. }
    destruct (free_segments_loop_gives pt None segs s Hps) as (s' & E & Hg); [by eapply gives_nodup|].
    unfold Paged.free_segments, Base.free_segments. rewrite E. eexists _, _. split; [done|]. split; [|done].
    by eapply gives_inv.
  - destruct (free_group_begin_gives s Hcl (inv_quiet _ _ Hinv)) as [_ Hp]. eexists _, _. split; [done|]. split; [|done].
    destruct Hinv as [[? ?] Hq Hpages]. split; [by split|done|]. rewrite Hp. done.
  - destruct (free_group_end_released s Hwf) as (s' & -> & E1 & E2 & E3 & Hwf' & Hg & Hr & Hh).
    { apply pool_inv_nodup in Hinv. by apply NoDup_app in Hinv as [? _]. }
    eexists _, _. split; [done|]. split; [|done]. split; [done|by intros _|]. rewrite E3, <- (inv_pages _ _ Hinv), <- Hh.
    unfold pool_pages, pending, held. rewrite Hg, Hr. cbn. by rewrite unique_nil, app_nil_r.
Qed.
End pool.

(** ** Concrete integer operations *)

Module TorchIntLists.
#[export] Instance torch_int : TorchInt := {|
  torch_sort := merge_sort Z.le;
  torch_unique := λ l, merge_sort Z.le (remove_dups l);
  torch_empty := λ n, replicate n 0%Z;
|}.

#[export] Instance torch_int_laws : TorchIntLaws.
Proof.
  split; cbn [torch_sort torch_unique torch_empty torch_int].
  - intros l. apply merge_sort_Permutation.
  - intros l k Hl Hlk. apply (StronglySorted_unique Z.le); [apply (StronglySorted_merge_sort Z.le); intros ???; lia|done|].
    by rewrite (merge_sort_Permutation Z.le).
  - intros x l. by rewrite (merge_sort_Permutation Z.le), elem_of_remove_dups.
  - intros l. rewrite (merge_sort_Permutation Z.le). apply NoDup_remove_dups.
  - intros l. apply (StronglySorted_merge_sort Z.le).
  - intros n. apply length_replicate.
Qed.
End TorchIntLists.
Import TorchIntLists.

(** ** Theorems *)

(** States reached by the operations of clients that keep their contract. *)
Inductive pool_step `{TorchInt} : Allocator * list Z → Allocator * list Z → Prop :=
  | pool_step_run s live o out s' :
      client_ok s live o → run o s = Ok (out, s') → pool_step (s, live) (s', live_after s live o out).

Lemma init_inv `{TorchIntLaws} size ps need_sort debug : 0 < ps → pool_inv (Paged.init size ps need_sort debug) [].
Proof.
  intros Hps. split; [by split|done|]. unfold pool_pages, pending. cbn. by rewrite unique_nil, !app_nil_r.
Qed.

Lemma reachable_inv `{TorchIntLaws} x y : rtc pool_step x y → pool_inv x.1 x.2 → pool_inv y.1 y.2.
Proof.
  induction 1 as [|x y z Hxy Hyz IH]; intros Hinv; [done|]. apply IH.
  destruct Hxy as [s live o out s' Hcl Hrun]. destruct (run_preserves s live o Hinv Hcl) as (out' & s'' & E & Hinv' & _).
  rewrite Hrun in E. by injection E as <- <-.
Qed.



(** With enough pages, [alloc_extend] gives every new token of every request the slot at
    its position's offset in a page: the request's last page while that page has room, then
    pages taken off the free lists in order; nothing else of the pool changes. *)
Theorem alloc_extend_slots `{TorchIntLaws} pids reqs last live nnp s
    (Hinv : pool_inv s live) (Hok : extend_ok (page_size s) reqs last live) (Hpids : pids ≡ₚ seq 0 (length reqs))
    (Hnnp : nnp = None ∨ nnp = Some (total_pages (page_size s) reqs))
    (Htot : total_pages (page_size s) reqs ≤ length (held s)) :
  ∃ T s' out, Paged.alloc_extend pids reqs last (total_len reqs) nnp s = Ok (Some out, s') ∧
    takes T s s' ∧ length T = total_pages (page_size s) reqs ∧ length out = total_len reqs ∧
    (∀ t, t ∈ T → t ∉ live) ∧
    ∀ i r p, reqs !! i = Some r → r.1 ≤ p < r.2 →
      let pg := page_at (page_size s) T reqs last i p in
      out !! (ext_start reqs i + (p - r.1)) = Some (pg * Z.of_nat (page_size s) + Z.of_nat (p mod page_size s))%Z ∧
      (pages_of (page_size s) r.1 * page_size s ≤ p →
       T !! (first_page (page_size s) reqs i + (p / page_size s - pages_of (page_size s) r.1)) = Some pg).
Proof.
  pose proof (inv_wf _ _ Hinv) as Hwf. pose proof (wf_ps _ Hwf) as Hps. pose proof (pool_inv_held _ _ Hinv) as Hnd.
  destruct (alloc_extend_spec pids reqs last live nnp s Hwf Hok Hnd Hpids Hnnp Htot) as (T & s' & E & Ht & HT & _).
  exists T, s', (all_slots (page_size s) T reqs last). repeat (split; [done|]).
  split; [by apply length_all_slots|]. split.
  { intros t Ht'. rewrite (takes_held _ _ _ Ht), <- app_assoc in Hnd. apply NoDup_app in Hnd as (_ & Hdis & _).
    specialize (Hdis t Ht'). set_solver. }
  intros i r p Hr Hp. split.
  - rewrite (all_slots_lookup _ _ _ _ Hps i r) by (done || unfold ext_len; lia).
    replace (r.1 + (p - r.1)) with p by lia. f_equal. apply slot_page_at; [done..|by apply (eo_align _ _ _ _ Hok)|lia].
  - intros Hge. destruct (page_at_new (page_size s) T reqs last Hps ltac:(lia) i r p Hr Hp Hge) as [Hl _]. exact Hl.
Qed.

Lemma alloc_extend_slots_witness :
  let s := mkAllocator 24 4 false true 6 [5; 3; 6; 2]%Z [] None [] in
  ∃ T s', Paged.alloc_extend [1; 0] [(3, 9); (0, 2)] [6; -1]%Z 8 None s =
      Ok (Some [7; 20; 21; 22; 23; 12; 24; 25]%Z, s') ∧ takes T s s' ∧ T !! 1 = Some 3%Z.
Proof.
  assert (Hinv : pool_inv (mkAllocator 24 4 false true 6 [5; 3; 6; 2]%Z [] None []) [1; 4]%Z).
  { split; [split; [simpl; lia|done]|done|]. apply (bool_decide_unpack _). vm_compute. exact I. }
  assert (Hok : extend_ok 4 [(3, 9); (0, 2)] [6; -1]%Z [1; 4]%Z).
  { split; [repeat constructor; simpl; lia|done|..].
    - intros [|[|i]] r Hr; cbn in Hr; simplify_eq; reflexivity.
    - intros [|[|i]] r Hr Hm; cbn in Hr; simplify_eq. left.
    - intros [|[|i]] [|[|j]] ri rj Hri Hrj Hmi Hmj _; cbn in *; simplify_eq; done. }
  destruct (alloc_extend_slots [1; 0] [(3, 9); (0, 2)] [6; -1]%Z [1; 4]%Z None
    (mkAllocator 24 4 false true 6 [5; 3; 6; 2]%Z [] None []) Hinv Hok) as (T & s' & out & E & Ht & _ & _ & _ & Hpos).
  - apply Permutation_swap.
  - by left.
  - vm_compute. lia.
  - destruct (Hpos 0 (3, 9) 8 eq_refl ltac:(simpl; lia)) as [Ho HT]. specialize (HT ltac:(vm_compute; lia)).
    vm_compute in E. injection E as <- <-. exists T. eexists. split; [vm_compute; reflexivity|]. split; [exact Ht|].
    change (T !! 1 = Some (page_at 4 T [(3, 9); (0, 2)] [6; -1]%Z 0 8)) in HT.
    change (Some 12%Z = Some (page_at 4 T [(3, 9); (0, 2)]%nat [6; -1]%Z 0%nat 8%nat * 4 + 0)%Z) in Ho.
    rewrite HT. f_equal. injection Ho as Ho. lia.
Defined.

(** [free_segments], which finds the pages by position and never deduplicates, gives back
    exactly the pages that [free] of the concatenated segments gives back, each once, even
    when consecutive segments share a boundary page; both pass every debug assertion. *)
Theorem free_segments_equiv_free `{TorchIntLaws} s pt segs
    (Hps : 0 < page_size s) (Hasc : ascending 0 segs)
    (Hinj : ∀ q q', q ∈ emitted (page_size s) None segs → q' ∈ emitted (page_size s) None segs → pt q = pt q' → q = q')
    (Hlive : ∀ a n q, (a, n) ∈ segs → q ∈ touched (page_size s) a n → pt q ∉ pool_pages s) (Hnd : NoDup (pool_pages s)) :
  let idx := concat (rows (page_size s) pt segs).*1 in
  ∃ s1 s2, Paged.free_segments (rows (page_size s) pt segs) s = Ok s1 ∧ Paged.free idx s = Ok s2 ∧
    pool_pages s1 ≡ₚ pool_pages s2 ∧
    pool_pages s1 ≡ₚ torch_unique (Paged.page_ids s idx) ++ pool_pages s.
Proof.
  intros idx. set (ps := page_size s) in *. destruct (emitted_spec ps pt Hps 0 None segs Hasc I) as [HndE Hel].
  assert (HndP : NoDup (pt <$> emitted ps None segs)) by (apply NoDup_fmap_2_strong; done).
  assert (HP : torch_unique (Paged.page_ids s idx) ≡ₚ pt <$> emitted ps None segs).
  { apply torch_unique_perm; [done|]. intros x. unfold idx. rewrite <- page_ids_concat. unfold ps in *. rewrite elem_of_concat_pages by done.
    rewrite list_elem_of_fmap. setoid_rewrite Hel. naive_solver. }
  assert (HndA : NoDup ((pt <$> emitted ps None segs) ++ pool_pages s)).
  { apply NoDup_app. split; [done|]. split; [|done]. intros x (q & -> & Hq)%list_elem_of_fmap.
    apply Hel in Hq as [(a & n & Hin & Hq) _]. by eapply Hlive. }
  destruct (free_segments_loop_gives pt None segs s Hps HndA) as (s1 & E1 & Hg1).
  destruct (free_gives idx s) as (s2 & E2 & Hg2); [by rewrite HP|].
  exists s1, s2. split; [done|]. split; [done|].
  rewrite (gives_pool _ _ _ Hg1), (gives_pool _ _ _ Hg2). fold ps. by rewrite HP.
Qed.

Lemma free_segments_equiv_free_witness :
  let s := mkAllocator 24 4 false true 6 [5; 6]%Z [] None [] in
  let pt := λ q, nth q [2; 4; 1]%Z 3%Z in
  ∃ s1 s2, Paged.free_segments (rows 4 pt [(2, 3); (5, 1); (6, 3)]) s = Ok s1 ∧
    Paged.free (concat (rows 4 pt [(2, 3); (5, 1); (6, 3)]).*1) s = Ok s2 ∧ pool_pages s1 ≡ₚ pool_pages s2 ∧
    free_pages s1 = [1; 2; 4; 5; 6]%Z.
Proof.
  destruct (free_segments_equiv_free (mkAllocator 24 4 false true 6 [5; 6]%Z [] None [])
    (λ q, nth q [2; 4; 1]%Z 3%Z) [(2, 3); (5, 1); (6, 3)]) as (s1 & s2 & E1 & E2 & Hp & _).
  - simpl. lia.
  - simpl. lia.
  - intros q q' Hq Hq'. change (q ∈ [0; 1; 2]) in Hq. change (q' ∈ [0; 1; 2]) in Hq'.
    rewrite !elem_of_cons, elem_of_nil in Hq, Hq'. destruct Hq as [->|[->|[->|[]]]], Hq' as [->|[->|[->|[]]]]; done.
  - intros a n q Hin Hq. rewrite !elem_of_cons, elem_of_nil in Hin. change (pool_pages _) with [5; 6]%Z.
    destruct Hin as [[= -> ->]|[[= -> ->]|[[= -> ->]|[]]]];
      [change (q ∈ [0; 1]) in Hq|change (q ∈ [1]) in Hq|change (q ∈ [1; 2]) in Hq];
      repeat (apply elem_of_cons in Hq as [->|Hq]; [rewrite !elem_of_cons, elem_of_nil; simpl; lia|]);
      by apply not_elem_of_nil in Hq.
  - apply (bool_decide_unpack _). vm_compute. exact I.
  - exists s1, s2. split; [exact E1|]. split; [exact E2|]. split; [exact Hp|].
    vm_compute in E1. injection E1 as <-. reflexivity.
Defined.

(** The token allocator hands out [need_size] slots exactly when it has that many, takes
    them off its lists, and [free] of what it handed out restores the pool, in either
    placement of freed slots. *)
Theorem token_alloc_free `{TorchIntLaws} need s
    (Hrel : need_sort s = false → release_pages s = []) (Hgroup : free_group s = None) :
  match Token.alloc need s with
  | (Some idx, s') =>
      need ≤ Token.available_size s ∧ length idx = need ∧ held s ≡ₚ idx ++ held s' ∧
      ∃ s'', Token.free idx s' = Ok s'' ∧ held s'' ≡ₚ held s ∧ Token.available_size s'' = Token.available_size s
  | (None, s') => Token.available_size s < need ∧ held s' ≡ₚ held s
  end.
Proof.
  unfold Token.alloc. fold (prepare need s). set (s1 := prepare need s).
  pose proof (prepare_takes need s) as Ht. fold s1 in Ht. pose proof (takes_held _ _ _ Ht) as Hh. cbn in Hh.
  assert (Hav : ∀ s, Token.available_size s = length (held s)) by (intros; unfold held; by rewrite length_app).
  pose proof (prepare_enough need need s Hrel ltac:(done)) as Hen. fold s1 in Hen.
  rewrite !Hav. destruct (Nat.ltb_spec (length (free_pages s1)) need) as [Hlt|Hge]; [split; [lia|done]|].
  split; [tauto|]. split; [rewrite length_take; lia|]. set (s2 := set_lists s1 _ _).
  assert (Hd : held s ≡ₚ take need (free_pages s1) ++ held s2).
  { rewrite Hh. unfold held, s2. cbn. by rewrite app_assoc, take_drop. }
  split; [done|]. assert (∃ s'', Token.free (take need (free_pages s1)) s2 = Ok s'' ∧ held s'' ≡ₚ held s) as (s'' & E & Hh'').
  { unfold Token.free. destruct (take need (free_pages s1)) as [|x l]; [by exists s2|].
    assert (free_group s2 = None) as -> by (unfold s2; cbn; by rewrite (takes_group _ _ _ Ht)).
    eexists. split; [done|]. rewrite Hd. unfold held. destruct (need_sort s2); cbn; solve_Permutation. }
  exists s''. split; [done|]. split; [done|]. rewrite Hav. by rewrite Hh''.
Qed.

Lemma token_alloc_free_witness :
  let s := Token.init 3 true in
  Token.alloc 2 s = (Some [1; 2]%Z, mkAllocator 3 1 true false 3 [3]%Z [] None []) ∧
  ∃ s'', Token.free [1; 2]%Z (mkAllocator 3 1 true false 3 [3]%Z [] None []) = Ok s'' ∧ held s'' ≡ₚ [1; 2; 3]%Z.
Proof.
  split; [reflexivity|].
  pose proof (token_alloc_free 2 (Token.init 3 true) ltac:(done) eq_refl) as (_ & _ & _ & s'' & E & Hh & _).
  exists s''. split; [exact E|exact Hh].
Defined.
