(* ===== verification/RadixTree.v ===== *)
(** * RadixTree: the prefix cache over a heap of nodes

    Models [TreeNode] and [RadixCache] ([sglang/srt/mem_cache/radix_cache.py]), the
    eviction strategies ([evict_policy.py], [get_eviction_strategy]) and
    [split_node_hash_value] ([utils.py]).

    Nodes are objects: the heap maps identities to nodes, [parent] and [children] hold
    identities, and every assignment of the code is a heap update.  A node leaves the heap
    when [_delete_leaf] drops the last reference to it.  [children] is a map (its iteration
    order is never observed).  The calls of the pool allocator return nothing, so they are
    the log [frees], in order.  [time.monotonic] is a parameter read at successive ticks,
    [heapq] is the class [HeapQ]; KV events and metrics are off, which is the default. *)

From S2P Require Import Prelude RadixKey.
#[local] Open Scope nat_scope.

(** ** [TreeNode] *)

Record TreeNode : Type := mkNode {
  children : gmap PyVal nat;
  parent : option nat;
  key : RadixKey;
  value : option (list Z);
  lock_ref : Z;
  last_access_time : Z;
  creation_time : Z;
  hit_count : Z;
  host_ref_counter : Z;
  hash_value : option (list string);
  event_hash_value : option (list string);
  priority : Z;
}.

Definition evicted (n : TreeNode) : bool := bool_decide (value n = None).

Definition set_children (f : gmap PyVal nat → gmap PyVal nat) (n : TreeNode) : TreeNode :=
  mkNode (f (children n)) (parent n) (key n) (value n) (lock_ref n) (last_access_time n) (creation_time n)
    (hit_count n) (host_ref_counter n) (hash_value n) (event_hash_value n) (priority n).
Definition set_parent (p : option nat) (n : TreeNode) : TreeNode :=
  mkNode (children n) p (key n) (value n) (lock_ref n) (last_access_time n) (creation_time n)
    (hit_count n) (host_ref_counter n) (hash_value n) (event_hash_value n) (priority n).
Definition set_segment (k : RadixKey) (v : option (list Z)) (h e : option (list string)) (n : TreeNode) : TreeNode :=
  mkNode (children n) (parent n) k v (lock_ref n) (last_access_time n) (creation_time n)
    (hit_count n) (host_ref_counter n) h e (priority n).
Definition add_lock (d : Z) (n : TreeNode) : TreeNode :=
  mkNode (children n) (parent n) (key n) (value n) (lock_ref n + d) (last_access_time n) (creation_time n)
    (hit_count n) (host_ref_counter n) (hash_value n) (event_hash_value n) (priority n).
Definition touch (t : Z) (n : TreeNode) : TreeNode :=
  mkNode (children n) (parent n) (key n) (value n) (lock_ref n) t (creation_time n)
    (hit_count n) (host_ref_counter n) (hash_value n) (event_hash_value n) (priority n).
Definition raise_priority (p : Z) (n : TreeNode) : TreeNode :=
  mkNode (children n) (parent n) (key n) (value n) (lock_ref n) (last_access_time n) (creation_time n)
    (hit_count n) (host_ref_counter n) (hash_value n) (event_hash_value n) (Z.max (priority n) p).
Definition set_host_ref (h : Z) (n : TreeNode) : TreeNode :=
  mkNode (children n) (parent n) (key n) (value n) (lock_ref n) (last_access_time n) (creation_time n)
    (hit_count n) h (hash_value n) (event_hash_value n) (priority n).

(** [_inc_hit_count]. *)
Definition inc_hit_count (chunked : bool) (n : TreeNode) : TreeNode :=
  if chunked then n else
  mkNode (children n) (parent n) (key n) (value n) (lock_ref n) (last_access_time n) (creation_time n)
    (hit_count n + 1) (host_ref_counter n) (hash_value n) (event_hash_value n) (priority n).

Definition protect_host (n : TreeNode) : TreeNode := set_host_ref (host_ref_counter n + 1) n.
Definition release_host (n : TreeNode) : result TreeNode :=
  if (0 <? host_ref_counter n)%Z then Ok (set_host_ref (host_ref_counter n - 1) n) else Raise RuntimeError.

Definition get_last_hash_value (n : TreeNode) : option string := hash_value n ≫= last.

(** [children.values()]. *)
Definition child_ids (n : TreeNode) : list nat := snd <$> (map_to_list (children n) : list (PyVal * nat)).

(** ** Eviction strategies *)

Inductive EvictionStrategy : Type :=
  | LRUStrategy
  | LFUStrategy
  | FIFOStrategy
  | MRUStrategy
  | FILOStrategy
  | PriorityStrategy
  | SLRUStrategy (protected_threshold : Z).

(** [str.lower] on ASCII. *)
Definition lower_ascii (a : Ascii.ascii) : Ascii.ascii :=
  let n := Ascii.nat_of_ascii a in if (65 <=? n) && (n <=? 90) then Ascii.ascii_of_nat (n + 32) else a.
Fixpoint py_lower (s : string) : string :=
  match s with EmptyString => EmptyString | String a s => String (lower_ascii a) (py_lower s) end.

Definition get_eviction_strategy (eviction_policy : string) : result EvictionStrategy :=
  let policy := py_lower eviction_policy in
  if (policy =? "lru")%string then Ok LRUStrategy
  else if (policy =? "lfu")%string then Ok LFUStrategy
  else if (policy =? "fifo")%string then Ok FIFOStrategy
  else if (policy =? "mru")%string then Ok MRUStrategy
  else if (policy =? "filo")%string then Ok FILOStrategy
  else if (policy =? "priority")%string then Ok PriorityStrategy
  else if (policy =? "slru")%string then Ok (SLRUStrategy 2)
  else Raise ValueError.

(** A number is a singleton, a tuple its list. *)
Definition get_priority (s : EvictionStrategy) (n : TreeNode) : list Z :=
  match s with
  | LRUStrategy => [last_access_time n]
  | LFUStrategy => [hit_count n; last_access_time n]
  | FIFOStrategy => [creation_time n]
  | MRUStrategy => [(- last_access_time n)%Z]
  | FILOStrategy => [(- creation_time n)%Z]
  | PriorityStrategy => [priority n; last_access_time n]
  | SLRUStrategy threshold => [if (threshold <=? hit_count n)%Z then 1%Z else 0%Z; last_access_time n]
  end.

(** ** Heaps of [(priority, node)] *)

(** Entries carry the access time that [TreeNode.__lt__] compares. *)
Definition entry : Type := list Z * Z * nat.

Fixpoint tuple_le (a b : list Z) : bool :=
  match a, b with
  | [], _ => true
  | _ :: _, [] => false
  | x :: a, y :: b => (x <? y)%Z || ((x =? y)%Z && tuple_le a b)
  end.
Definition entry_le (a b : entry) : bool := tuple_le (a.1.1 ++ [a.1.2]) (b.1.1 ++ [b.1.2]).

(** [heapq] on a list of entries: [heappop] returns a smallest one. *)
Class HeapQ : Type := heappop : list entry → option (entry * list entry).
Class HeapQLaws `{HeapQ} : Prop := {
  heappop_nil : heappop [] = None;
  heappop_cons x l : ∃ y l', heappop (x :: l) = Some (y, l') ∧ x :: l ≡ₚ y :: l' ∧ Forall (λ z, entry_le y z = true) l';
}.

(** ** The cache *)

(** The calls of the pool allocator. *)
Inductive pool_call : Type :=
  | FreeSegment (free_index : list Z) (start_pos : nat)
  | FreeSegments (segments : list (list Z * nat)).

Record Cache : Type := mkCache {
  disable : bool;
  page_size : nat;
  is_eagle : bool;
  disable_finished_insert : bool;
  eviction_strategy : EvictionStrategy;
  heap : gmap nat TreeNode;
  counter : nat;
  root_node : nat;
  evictable_size_ : Z;
  protected_size_ : Z;
  evictable_leaves : gset nat;
  ticks : nat;
  frees : list pool_call;
}.

Definition set_heap (f : gmap nat TreeNode → gmap nat TreeNode) (c : Cache) : Cache :=
  mkCache (disable c) (page_size c) (is_eagle c) (disable_finished_insert c) (eviction_strategy c) (f (heap c))
    (counter c) (root_node c) (evictable_size_ c) (protected_size_ c) (evictable_leaves c) (ticks c) (frees c).
Definition add_sizes (de dp : Z) (c : Cache) : Cache :=
  mkCache (disable c) (page_size c) (is_eagle c) (disable_finished_insert c) (eviction_strategy c) (heap c)
    (counter c) (root_node c) (evictable_size_ c + de) (protected_size_ c + dp) (evictable_leaves c) (ticks c) (frees c).
Definition set_leaves (f : gset nat → gset nat) (c : Cache) : Cache :=
  mkCache (disable c) (page_size c) (is_eagle c) (disable_finished_insert c) (eviction_strategy c) (heap c)
    (counter c) (root_node c) (evictable_size_ c) (protected_size_ c) (f (evictable_leaves c)) (ticks c) (frees c).
Definition tick (c : Cache) : Cache :=
  mkCache (disable c) (page_size c) (is_eagle c) (disable_finished_insert c) (eviction_strategy c) (heap c)
    (counter c) (root_node c) (evictable_size_ c) (protected_size_ c) (evictable_leaves c) (S (ticks c)) (frees c).
Definition log_free (f : pool_call) (c : Cache) : Cache :=
  mkCache (disable c) (page_size c) (is_eagle c) (disable_finished_insert c) (eviction_strategy c) (heap c)
    (counter c) (root_node c) (evictable_size_ c) (protected_size_ c) (evictable_leaves c) (ticks c) (frees c ++ [f]).

(** Reading and updating a node. *)
Definition get (c : Cache) (n : nat) : result TreeNode :=
  match heap c !! n with Some x => Ok x | None => Raise RuntimeError end.
Definition upd (n : nat) (f : TreeNode → TreeNode) (c : Cache) : Cache := set_heap (alter f n) c.

Section cache.
Variable monotonic : nat → Z.

(** [TreeNode(priority=p)], then the assignments of its parent, key and value. *)
Definition new_node (c : Cache) (par : option nat) (k : RadixKey) (v : option (list Z)) (lock hits p : Z)
    (kids : gmap PyVal nat) (h e : option (list string)) : nat * Cache :=
  let id := counter c in
  let x := mkNode kids par k v lock (monotonic (ticks c)) (monotonic (S (ticks c))) hits 0 h e p in
  (id, mkCache (disable c) (page_size c) (is_eagle c) (disable_finished_insert c) (eviction_strategy c)
         (<[id := x]> (heap c)) (S id) (root_node c) (evictable_size_ c) (protected_size_ c)
         (evictable_leaves c) (S (S (ticks c))) (frees c)).

Definition min_priority : Z := (- (2 ^ 63 - 1))%Z.

(** The old tree becomes garbage. *)
Definition reset (c : Cache) : Cache :=
  let c := set_heap (λ _, ∅) c in
  let '(root, c) := new_node c None (new_key [] None false None None) (Some []) 1 0 min_priority ∅ (Some []) None in
  mkCache (disable c) (page_size c) (is_eagle c) (disable_finished_insert c) (eviction_strategy c) (heap c)
    (counter c) root 0 0 ∅ (ticks c) (frees c).

Definition init (disable : bool) (page_size : nat) (is_eagle disable_finished_insert : bool) (policy : string)
  : result Cache :=
  s ← get_eviction_strategy policy;
  Ok (reset (mkCache disable page_size is_eagle disable_finished_insert s ∅ 0 0 0 0 ∅ 0 [])).

(** The loop of [_update_leaf_status]: does some child hold a value? *)
Fixpoint live_child (c : Cache) (ids : list nat) : result bool :=
  match ids with
  | [] => Ok false
  | i :: ids => x ← get c i; if evicted x then live_child c ids else Ok true
  end.

(** A node with a live child is not a leaf. *)
Definition mark_leaf (live : bool) (n : nat) (l : gset nat) : gset nat :=
  if live then l ∖ {[n]} else {[n]} ∪ l.

Definition update_leaf_status (n : nat) (c : Cache) : result Cache :=
  x ← get c n;
  if evicted x || (0 <? lock_ref x)%Z then Ok (set_leaves (λ l, l ∖ {[n]}) c) else
  live ← live_child c (child_ids x);
  Ok (set_leaves (mark_leaf live n) c).

Definition split_node_hash_value (child_hash_value : option (list string)) (split_len page_size : nat)
  : option (list string) * option (list string) :=
  match child_hash_value with
  | None => (None, None)
  | Some h =>
      let split_pages := if page_size =? 1 then split_len else split_len / page_size in
      (Some (take split_pages h), Some (drop split_pages h))
  end.

Definition split_node (k : RadixKey) (child : nat) (split_len : nat) (c : Cache) : result (nat * Cache) :=
  x ← get c child;
  ck ← child_key (key_slice k split_len (key_len k)) (page_size c);
  p ← match parent x with Some p => Ok p | None => Raise AttributeError end;
  v ← match value x with Some v => Ok v | None => Raise TypeError end;
  let '(nh, h) := split_node_hash_value (hash_value x) split_len (page_size c) in
  let '(ne, e) := split_node_hash_value (event_hash_value x) split_len (page_size c) in
  let '(id, c) := new_node c (Some p) (key_slice (key x) 0 split_len) (Some (take split_len v)) (lock_ref x)
                    (hit_count x) (priority x) {[ck := child]} nh ne in
  let c := upd child (λ x, set_parent (Some id)
             (set_segment (key_slice (key x) split_len (key_len (key x))) (Some (drop split_len v)) h e x)) c in
  pk ← child_key k (page_size c);
  _ ← get c p;
  Ok (id, upd p (set_children (λ m, <[pk := id]> m)) c).

(** The loop of [_match_prefix_helper]. *)
Fixpoint match_loop (fuel : nat) (access_time : Z) (node : nat) (k : RadixKey) (ck : PyVal)
    (value_acc : list (list Z)) (c : Cache) : result (list (list Z) * nat * Cache) :=
  match fuel with
  | 0 => Raise OutOfFuel
  | S fuel =>
      x ← get c node;
      if negb (0 <? key_len k) then Ok (value_acc, node, c) else
      match children x !! ck with
      | None => Ok (value_acc, node, c)
      | Some child =>
          let c := upd child (touch access_time) c in
          y ← get c child;
          prefix_len ← match_ (key y) k (page_size c);
          if prefix_len <? key_len (key y) then
            '(new, c) ← split_node (key y) child prefix_len c;
            z ← get c new;
            v ← match value z with Some v => Ok v | None => Raise TypeError end;
            Ok (value_acc ++ [v], new, c)
          else
            v ← match value y with Some v => Ok v | None => Raise TypeError end;
            let k := key_slice k prefix_len (key_len k) in
            ck ← (if 0 <? key_len k then child_key k (page_size c) else Ok ck);
            match_loop fuel access_time child k ck (value_acc ++ [v]) c
      end
  end.

Definition match_prefix_helper (node : nat) (k : RadixKey) (c : Cache) : result (list (list Z) * nat * Cache) :=
  let access_time := monotonic (ticks c) in
  let c := upd node (touch access_time) (tick c) in
  ck ← child_key k (page_size c);
  match_loop (S (key_len k)) access_time node k ck [] c.

Record MatchResult : Type := mkMatch {
  device_indices : list Z;
  last_device_node : nat;
}.

Definition match_prefix (k : RadixKey) (c : Cache) : result (MatchResult * Cache) :=
  let '(k, _) := maybe_to_bigram_view k (is_eagle c) None in
  if disable c || (key_len k =? 0) then Ok (mkMatch [] (root_node c), c) else
  let k := page_aligned k (page_size c) in
  if key_len k =? 0 then Ok (mkMatch [] (root_node c), c) else
  '(v, last_node, c) ← match_prefix_helper (root_node c) k c;
  Ok (mkMatch (concat v) last_node, c).

(** The loop of [_insert_helper]. *)
Fixpoint insert_loop (fuel : nat) (access_time : Z) (node : nat) (k : RadixKey) (ck : PyVal) (v : list Z)
    (p : Z) (chunked : bool) (total_prefix_length : nat) (c : Cache)
  : result (nat * RadixKey * PyVal * list Z * nat * Cache) :=
  match fuel with
  | 0 => Raise OutOfFuel
  | S fuel =>
      x ← get c node;
      if negb (0 <? key_len k) then Ok (node, k, ck, v, total_prefix_length, c) else
      match children x !! ck with
      | None => Ok (node, k, ck, v, total_prefix_length, c)
      | Some node =>
          let c := upd node (touch access_time) c in
          y ← get c node;
          prefix_len ← match_ (key y) k (page_size c);
          let total := total_prefix_length + prefix_len in
          let k := key_slice k prefix_len (key_len k) in
          let v := drop prefix_len v in
          '(node, c) ← (if prefix_len <? key_len (key y) then
                          '(new, c) ← split_node (key y) node prefix_len c;
                          Ok (new, upd new (inc_hit_count chunked) (upd new (raise_priority p) c))
                        else Ok (node, upd node (inc_hit_count chunked) (upd node (raise_priority p) c)));
          ck ← (if 0 <? key_len k then child_key k (page_size c) else Ok ck);
          insert_loop fuel access_time node k ck v p chunked total c
      end
  end.

Definition insert_helper (node : nat) (k : RadixKey) (v : list Z) (p : Z) (chunked : bool) (c : Cache)
  : result (nat * nat * Cache) :=
  let access_time := monotonic (ticks c) in
  let c := upd node (raise_priority p) (upd node (touch access_time) (tick c)) in
  if key_len k =? 0 then Ok (0, node, c) else
  ck ← child_key k (page_size c);
  '(node, k, ck, v, total, c) ← insert_loop (S (key_len k)) access_time node k ck v p chunked 0 c;
  if 0 <? key_len k then
    let '(new, c) := new_node c (Some node) k (Some v) 0 0 p ∅ None None in
    let c := upd new (inc_hit_count chunked) c in
    let c := upd node (set_children (λ m, <[ck := new]> m)) c in
    let c := add_sizes (Z.of_nat (key_len k)) 0 c in
    c ← update_leaf_status node c;
    c ← update_leaf_status new c;
    Ok (total, new, c)
  else Ok (total, node, c).

Record InsertResult : Type := mkInsert {
  prefix_len : nat;
  inserted_node : option nat;
}.

Definition insert (k : RadixKey) (v : option (list Z)) (p : Z) (chunked : bool) (c : Cache)
  : result (InsertResult * Cache) :=
  if disable c then Ok (mkInsert 0 None, c) else
  let '(k, v) := maybe_to_bigram_view k (is_eagle c) v in
  let k := page_aligned k (page_size c) in
  let v := match v with
           | Some v => take (key_len k) v
           | None => take (key_len k) (token_ids k)
           end in
  '(prefix_len, last_node, c) ← insert_helper (root_node c) k v p chunked c;
  Ok (mkInsert prefix_len (Some last_node), c).

(** ** Locks *)

Fixpoint inc_loop (fuel : nat) (node : nat) (delta : Z) (c : Cache) : result (Z * Cache) :=
  match fuel with
  | 0 => Raise OutOfFuel
  | S fuel =>
      if node =? root_node c then Ok (delta, c) else
      x ← get c node;
      let len := Z.of_nat (key_len (key x)) in
      let '(delta, c) := if (lock_ref x =? 0)%Z then ((delta - len)%Z, add_sizes (- len) len c) else (delta, c) in
      c ← update_leaf_status node (upd node (add_lock 1) c);
      p ← match parent x with Some p => Ok p | None => Raise AttributeError end;
      inc_loop fuel p delta c
  end.

Definition inc_lock_ref (node : nat) (c : Cache) : result (Z * Cache) :=
  if disable c then Ok (0%Z, c) else inc_loop (S (size (heap c))) node 0 c.

Fixpoint dec_loop (fuel : nat) (node : nat) (delta : Z) (c : Cache) : result (Z * Cache) :=
  match fuel with
  | 0 => Raise OutOfFuel
  | S fuel =>
      if node =? root_node c then Ok (delta, c) else
      x ← get c node;
      let len := Z.of_nat (key_len (key x)) in
      let '(delta, c) := if (lock_ref x =? 1)%Z then ((delta + len)%Z, add_sizes len (- len) c) else (delta, c) in
      c ← update_leaf_status node (upd node (add_lock (-1)) c);
      p ← match parent x with Some p => Ok p | None => Raise AssertionError end;
      dec_loop fuel p delta c
  end.

Definition dec_lock_ref (node : nat) (c : Cache) : result (Z * Cache) :=
  if disable c then Ok (0%Z, c) else dec_loop (S (size (heap c))) node 0 c.

(** ** Eviction *)

Definition delete_leaf (n : nat) (c : Cache) : result Cache :=
  x ← get c n;
  k ← child_key (key x) (page_size c);
  p ← match parent x with Some p => Ok p | None => Raise AttributeError end;
  px ← get c p;
  let v := children px !! k in
  let c := upd p (set_children (delete k)) c in
  _ ← py_assert (bool_decide (v = Some n));
  let c := add_sizes (- Z.of_nat (key_len (key x))) 0 c in
  let c := set_leaves (λ l, l ∖ {[n]}) c in
  c ← update_leaf_status p c;
  Ok (set_heap (delete n) c).

Definition entry_of (c : Cache) (n : nat) : result entry :=
  x ← get c n; Ok (get_priority (eviction_strategy c) x, last_access_time x, n).

Section evict.
Context `{HeapQ}.

Fixpoint evict_loop (fuel : nat) (num_tokens num_evicted : nat) (eviction_heap : list entry) (c : Cache)
  : result (nat * Cache) :=
  match fuel with
  | 0 => Raise OutOfFuel
  | S fuel =>
      if negb (num_evicted <? num_tokens) then Ok (num_evicted, c) else
      match heappop eviction_heap with
      | None => Ok (num_evicted, c)
      | Some ((_, x), eviction_heap) =>
          y ← get c x;
          v ← match value y with Some v => Ok v | None => Raise TypeError end;
          let c := log_free (FreeSegment v 0) c in
          c ← delete_leaf x c;
          p ← match parent y with Some p => Ok p | None => Raise AttributeError end;
          px ← get c p;
          eviction_heap ← (if bool_decide (children px = ∅) && (lock_ref px =? 0)%Z
                           then e ← entry_of c p; Ok (e :: eviction_heap)
                           else Ok eviction_heap);
          evict_loop fuel num_tokens (num_evicted + length v) eviction_heap c
      end
  end.

Definition evict (num_tokens : nat) (c : Cache) : result (nat * Cache) :=
  if disable c then Ok (0, c) else
  eviction_heap ← mapM (entry_of c) (elements (evictable_leaves c));
  evict_loop (S (size (heap c))) num_tokens 0 eviction_heap c.
End evict.

Definition evictable_size (c : Cache) : Z := evictable_size_ c.
Definition protected_size (c : Cache) : Z := protected_size_ c.

(** The stack loop of [_total_size_helper]. *)
Fixpoint total_size_loop (fuel : nat) (stack : list nat) (total : nat) (c : Cache) : result nat :=
  match fuel with
  | 0 => Raise OutOfFuel
  | S fuel =>
      match stack with
      | [] => Ok total
      | n :: stack =>
          x ← get c n;
          v ← match value x with Some v => Ok v | None => Raise TypeError end;
          kids ← mapM (λ i, y ← get c i; Ok (if evicted y then [] else [i])) (child_ids x);
          total_size_loop fuel (reverse (concat kids) ++ stack) (total + length v) c
      end
  end.

Definition total_size (c : Cache) : result nat := total_size_loop (S (size (heap c))) [root_node c] 0 c.
End cache.
