(* ===== verification/RadixInv.v ===== *)
(** * RadixInv: the invariant of the prefix cache

    What every operation of [RadixTree] maintains: the heap is a tree whose edges are
    labelled by the first page of the child's key, every node stands for the units and KV
    indices of its path from the root ([P]), locks grow towards the root, and the two size
    counters and the set of evictable leaves say what the tree says. *)

From S2P Require Import Prelude RadixKey RadixTree.
#[local] Open Scope nat_scope.

(** ** Keys *)

(** The namespace of a key. *)
Definition ns (k : RadixKey) : option string * option string * bool := (extra_key k, cache_salt k, is_bigram k).
(** [RadixKey.__init__] turns an empty salt into [None]. *)
Definition key_ok (k : RadixKey) : Prop := cache_salt k ≠ Some "".

Lemma ns_eq k k' : ns k = ns k' → extra_key k = extra_key k' ∧ cache_salt k = cache_salt k' ∧ is_bigram k = is_bigram k'.
Proof. unfold ns. intros [=]. done. Qed.

Lemma new_key_ok t e b l s : key_ok (new_key t e b l s).
Proof. unfold key_ok, new_key. cbn. destruct s as [[|]|]; done. Qed.

Lemma key_slice_ns k a b : key_ok k → ns (key_slice k a b) = ns k ∧ key_ok (key_slice k a b).
Proof.
  unfold key_ok, ns, key_slice, new_key. intros Hk. destruct (is_bigram k); cbn; destruct (cache_salt k) as [[|]|]; done.
Qed.

Lemma key_slice_iter k a b : key_iter (key_slice k a b) = (key_iter k).[a, b].
Proof.
  pose proof (raw_len_le k) as Hr. pose proof (key_len_iter k) as Hl. unfold key_slice.
  set (a' := Nat.min a (key_len k)). set (b' := Nat.min b (key_len k)).
  assert (Hsl : (key_iter k).[a, b] = (key_iter k).[a', b']).
  { unfold a', b'. unfold py_slice. apply list_eq. intros i. destruct (decide (i < b - a)) as [Hi|Hi].
    - rewrite lookup_take_lt, lookup_drop by done. destruct (decide (a + i < key_len k)).
      + rewrite lookup_take_lt, lookup_drop by lia. f_equal. lia.
      + rewrite !lookup_ge_None_2 by (rewrite ?length_take, ?length_drop; lia). done.
    - rewrite !lookup_ge_None_2 by (rewrite length_take; lia). done. }
  rewrite Hsl. clear Hsl. destruct (is_bigram k) eqn:E.
  - destruct (Nat.ltb_spec a' b') as [Hlt|Hge].
    2: { rewrite py_slice_nil by lia. done. }
    set (k' := new_key _ _ _ _ _).
    assert (Hk' : is_bigram k' = true ∧ key_len k' = b' - a').
    { split; [done|]. assert (Hbk : b' ≤ key_len k) by lia. clearbody a' b'.
      assert (Hkl : key_len k = raw_len k - 1) by (unfold key_len; rewrite E; destruct (Nat.ltb_spec 0 (raw_len k)); lia).
      unfold k', new_key, key_len, raw_len. cbn [is_bigram limit token_ids]. rewrite length_py_slice.
      destruct (Nat.ltb_spec 0 (Nat.min (b' + 1 - a') (length (token_ids k) - a'))); lia. }
    destruct Hk' as [Hbi Hlen]. apply list_eq. intros i. destruct (decide (i < b' - a')) as [Hi|Hi].
    + destruct (key_iter_bigram k' i Hbi ltac:(lia)) as (x & y & Hx & Hy & ->). rewrite lookup_py_slice by done.
      destruct (key_iter_bigram k (a' + i) E ltac:(lia)) as (x' & y' & Hx' & Hy' & ->).
      unfold k', new_key in Hx, Hy. cbn in Hx, Hy. rewrite lookup_py_slice in Hx, Hy by lia.
      replace (a' + S i) with (S (a' + i)) in Hy by lia. congruence.
    + rewrite !lookup_ge_None_2; [done|rewrite length_py_slice; lia|rewrite key_len_iter; lia].
  - assert (Hrk : key_len k = raw_len k) by (unfold key_len; by rewrite E).
    rewrite !key_iter_raw by done. unfold py_slice. rewrite <- fmap_drop, <- fmap_take. f_equal. cbn.
    rewrite take_ge by (unfold raw_len; cbn; lia). apply list_eq. intros i.
    destruct (decide (i < b' - a')) as [Hi|Hi].
    + rewrite !lookup_take_lt, !lookup_drop, lookup_take_lt by lia. done.
    + rewrite !lookup_ge_None_2 by (rewrite length_take; lia). done.
Qed.

Lemma key_slice_len k a b : key_len (key_slice k a b) = Nat.min b (key_len k) - a.
Proof. rewrite <- key_len_iter, key_slice_iter, length_py_slice, key_len_iter. lia. Qed.

(** The dictionary key depends on the namespace and the first page. *)
Lemma child_key_ext k k' ps :
  0 < ps → ps ≤ key_len k → ps ≤ key_len k' → ns k = ns k' → take ps (key_iter k) = take ps (key_iter k') →
  child_key k ps = child_key k' ps.
Proof.
  intros Hps Hk Hk' (He & Hs & _)%ns_eq Ht.
  destruct (child_key_page k ps Hps Hk) as (v & -> & ->), (child_key_page k' ps Hps Hk') as (v' & -> & ->).
  rewrite He, Hs. assert (page_value ps (key_iter k) = page_value ps (key_iter k')) as ->; [|done].
  pose proof (key_len_iter k). pose proof (key_len_iter k').
  destruct (key_iter k) as [|u us]; [cbn in *; lia|]. destruct (key_iter k') as [|u' us']; [cbn in *; lia|].
  unfold page_value. destruct ps as [|[|p]]; [lia| |by rewrite Ht]. cbn in Ht. congruence.
Qed.

Lemma child_key_total k ps : 0 < ps → ps ≤ key_len k → ∃ ck, child_key k ps = Ok ck.
Proof. intros Hps Hk. destruct (child_key_page k ps Hps Hk) as (v & E & _). by exists v. Qed.

(** ** The tree *)

Definition paths : Type := nat → list PyVal * list Z.

(** The part of a node the tree is made of. *)
Definition skeleton (x : TreeNode) : gmap PyVal nat * option nat * RadixKey * option (list Z) :=
  (children x, parent x, key x, value x).

Record edge_ok (ps root : nat) (h : gmap nat TreeNode) (P : paths) (n : nat) (x : TreeNode) (p : nat) : Prop := {
  edge_parent : parent x = Some p;
  edge_link : ∃ px ck, h !! p = Some px ∧ child_key (key x) ps = Ok ck ∧ children px !! ck = Some n ∧
    (p ≠ root → ns (key x) = ns (key px));
  edge_value : ∃ v, value x = Some v ∧ length v = key_len (key x) ∧ P n = ((P p).1 ++ key_iter (key x), (P p).2 ++ v);
  edge_len : ps ≤ key_len (key x) ∧ (ps | key_len (key x));
  edge_key : key_ok (key x);
}.

Record tree_ok (ps root : nat) (h : gmap nat TreeNode) (P : paths) : Prop := {
  tree_ps : 0 < ps;
  tree_root : ∃ r, h !! root = Some r ∧ parent r = None ∧ value r = Some [] ∧ key_len (key r) = 0 ∧ P root = ([], []);
  tree_edge : ∀ n x, n ≠ root → h !! n = Some x → ∃ p, edge_ok ps root h P n x p;
  tree_child : ∀ n x ck m, h !! n = Some x → children x !! ck = Some m →
    ∃ y, m ≠ root ∧ h !! m = Some y ∧ parent y = Some n ∧ child_key (key y) ps = Ok ck;
}.

(** Only the skeleton of the nodes matters. *)
Lemma tree_ok_ext ps root h h' P :
  (∀ n, skeleton <$> h !! n = skeleton <$> h' !! n) → tree_ok ps root h P → tree_ok ps root h' P.
Proof.
  intros Hext [Hps (r & Hr & Hroot) Hedge Hchild].
  assert (Hf : ∀ n x', h' !! n = Some x' → ∃ x, h !! n = Some x ∧ skeleton x = skeleton x').
  { intros n x' Hx'. specialize (Hext n). rewrite Hx' in Hext. destruct (h !! n) as [x|]; [|done].
    exists x. split; [done|]. by apply (inj Some) in Hext. }
  assert (Hb : ∀ n x, h !! n = Some x → ∃ x', h' !! n = Some x' ∧ skeleton x = skeleton x').
  { intros n x Hx. specialize (Hext n). rewrite Hx in Hext. destruct (h' !! n) as [x'|]; [|done].
    exists x'. split; [done|]. by apply (inj Some) in Hext. }
  split; [done|..].
  - destruct (Hb _ _ Hr) as (r' & Hr' & E). unfold skeleton in E. exists r'. split; [done|]. injection E as E1 E2 E3 E4.
    rewrite <- E2, <- E3, <- E4. done.
  - intros n x' Hn Hx'. destruct (Hf _ _ Hx') as (x & Hx & E). destruct (Hedge n x Hn Hx) as (p & [H1 H2 H3 H4 H5]).
    injection E as E1 E2 E3 E4. exists p. destruct H2 as (px & ck & Hp & Hck & Hc & Hns).
    destruct (Hb _ _ Hp) as (px' & Hp' & E'). injection E' as F1 F2 F3 F4.
    split; [congruence| |rewrite <- E3, <- E4; done|by rewrite <- E3|by rewrite <- E3].
    exists px', ck. rewrite <- E3, <- F1, <- F3. done.
  - intros n x' ck m Hx' Hc. destruct (Hf _ _ Hx') as (x & Hx & E). injection E as E1 E2 E3 E4. rewrite <- E1 in Hc.
    destruct (Hchild n x ck m Hx Hc) as (y & Hm & Hy & Hpy & Hcy). destruct (Hb _ _ Hy) as (y' & Hy' & E').
    injection E' as F1 F2 F3 F4. exists y'. rewrite <- F2, <- F3. done.
Qed.

Section tree.
Context {ps root : nat} {h : gmap nat TreeNode} {P : paths} (Ht : tree_ok ps root h P).

Lemma edge_path n x p :
  edge_ok ps root h P n x p →
  length (P n).1 = length (P p).1 + key_len (key x) ∧ length (P n).2 = length (P p).2 + key_len (key x) ∧
  (P p).1 `prefix_of` (P n).1 ∧ (P p).2 `prefix_of` (P n).2.
Proof.
  intros [_ _ (v & _ & Hv & ->) _ _]. cbn. rewrite !length_app, key_len_iter, Hv. split_and!; try done; by eexists.
Qed.

(** Induction along the path from the root. *)
Lemma tree_ind (Q : nat → Prop) :
  Q root →
  (∀ n x p px, n ≠ root → h !! n = Some x → h !! p = Some px → edge_ok ps root h P n x p → Q p → Q n) →
  ∀ n x, h !! n = Some x → Q n.
Proof.
  intros Hroot Hstep n. remember (length (P n).1) as m eqn:Hm. revert n Hm.
  induction (lt_wf m) as [m _ IH]. intros n -> x Hx. destruct (decide (n = root)) as [->|Hn]; [done|].
  destruct (tree_edge _ _ _ _ Ht n x Hn Hx) as (p & He). pose proof (edge_link _ _ _ _ _ _ _ He) as (px & ck & Hp & _).
  eapply Hstep; [done..|]. eapply IH; [|done|done].
  destruct (edge_path _ _ _ He) as [-> _]. destruct (edge_len _ _ _ _ _ _ _ He). pose proof (tree_ps _ _ _ _ Ht). lia.
Qed.

Lemma path_lengths n x : h !! n = Some x → length (P n).1 = length (P n).2 ∧ (ps | length (P n).1).
Proof.
  revert n x. apply (tree_ind (λ n, length (P n).1 = length (P n).2 ∧ (ps | length (P n).1))).
  - destruct (tree_root _ _ _ _ Ht) as (r & _ & _ & _ & _ & ->). split; [done|]. apply Nat.divide_0_r.
  - intros n x p px Hn Hx Hp He [IH1 IH2]. destruct (edge_path _ _ _ He) as (-> & -> & _).
    split; [lia|]. apply Nat.divide_add_r; [done|]. apply He.
Qed.

Inductive anc (a : nat) : nat → Prop :=
  | anc_refl : anc a a
  | anc_step n x p : n ≠ root → h !! n = Some x → parent x = Some p → anc a p → anc a n.

Lemma root_anc n x : h !! n = Some x → anc root n.
Proof.
  revert n x. apply (tree_ind (anc root)); [constructor|].
  intros n x p px Hn Hx Hp He IH. eapply anc_step; [done|done|apply He|done].
Qed.

Lemma anc_prefix_path a n : anc a n → (P a).1 `prefix_of` (P n).1 ∧ (P a).2 `prefix_of` (P n).2.
Proof.
  induction 1 as [|n x p Hn Hx Hp Ha [IH1 IH2]]; [done|].
  destruct (tree_edge _ _ _ _ Ht n x Hn Hx) as (p' & He). pose proof (edge_parent _ _ _ _ _ _ _ He) as Hp'.
  assert (p' = p) as -> by congruence. destruct (edge_path _ _ _ He) as (_ & _ & ? & ?). split; by etrans.
Qed.

Lemma anc_ns a n x y : anc a n → a ≠ root → h !! a = Some x → h !! n = Some y → ns (key x) = ns (key y).
Proof.
  intros Ha Hne Hx. revert y. induction Ha as [|n z p Hn Hz Hp Ha IH]; intros y Hy; [congruence|].
  destruct (tree_edge _ _ _ _ Ht n z Hn Hz) as (p' & He). pose proof (edge_parent _ _ _ _ _ _ _ He) as Hp'.
  assert (p' = p) as -> by congruence. destruct (edge_link _ _ _ _ _ _ _ He) as (px & ck & Hpx & _ & _ & Hns).
  assert (z = y) as <- by congruence. rewrite (IH _ Hpx). symmetry. apply Hns. intros ->.
  apply Hne. clear -Ha Ht. destruct (tree_root _ _ _ _ Ht) as (r & Hr & Hrp & _).
  inversion Ha; subst; [done|]. congruence.
Qed.

(** The child of [a] on the way to [n]. *)
Lemma anc_child a n : anc a n → n ≠ a → ∃ c x, c ≠ root ∧ h !! c = Some x ∧ parent x = Some a ∧ anc c n.
Proof.
  induction 1 as [|n x p Hn Hx Hp Ha IH]; intros Hne; [done|].
  destruct (decide (p = a)) as [->|Hpa].
  - exists n, x. split_and!; [done..|constructor].
  - destruct (IH Hpa) as (c & z & ? & ? & ? & ?). exists c, z. split_and!; [done..|]. by eapply anc_step.
Qed.

(** The units of a child come right after the path of its parent. *)
Lemma child_units n x p us :
  edge_ok ps root h P n x p → (P n).1 `prefix_of` us →
  take (key_len (key x)) (drop (length (P p).1) us) = key_iter (key x).
Proof.
  intros [_ _ (v & _ & _ & HP) _ _] [w ->]. rewrite HP. cbn. rewrite <- app_assoc, drop_app_length.
  rewrite <- key_len_iter. by rewrite take_app_length.
Qed.

(** Two children of [p] with the same first page are the same node. *)
Lemma child_unique p n n' x x' :
  edge_ok ps root h P n x p → edge_ok ps root h P n' x' p → ns (key x) = ns (key x') →
  take ps (key_iter (key x)) = take ps (key_iter (key x')) → n = n'.
Proof.
  intros He He' Hns Htk. destruct (edge_link _ _ _ _ _ _ _ He) as (px & ck & Hp & Hck & Hc & _).
  destruct (edge_link _ _ _ _ _ _ _ He') as (px' & ck' & Hp' & Hck' & Hc' & _).
  destruct (edge_len _ _ _ _ _ _ _ He), (edge_len _ _ _ _ _ _ _ He').
  rewrite (child_key_ext _ (key x') ps (tree_ps _ _ _ _ Ht)) in Hck by done. congruence.
Qed.

(** Paths determine positions: a node whose path is a prefix is an ancestor. *)
Lemma prefix_anc n y :
  h !! n = Some y → ∀ a x, h !! a = Some x → a = root ∨ ns (key x) = ns (key y) →
  (P a).1 `prefix_of` (P n).1 → anc a n.
Proof.
  intros Hy. enough (∀ a x, h !! a = Some x →
    (∀ x, h !! a = Some x → a = root ∨ ns (key x) = ns (key y) → (P a).1 `prefix_of` (P n).1 → anc a n)) by eauto.
  apply (tree_ind (λ a, ∀ x, h !! a = Some x → a = root ∨ ns (key x) = ns (key y) → (P a).1 `prefix_of` (P n).1 → anc a n)).
  - intros x _ _ _. by eapply root_anc.
  - intros a x p px Ha Hx Hp He IH x' Hx' [?|Hns] Hpre; [done|]. assert (x' = x) as -> by congruence.
    destruct (edge_path _ _ _ He) as (Hl & _ & Hpp & _). destruct (edge_len _ _ _ _ _ _ _ He) as [Hps _].
    destruct (edge_link _ _ _ _ _ _ _ He) as (px' & ck & Hp' & _ & _ & Hnsp). assert (px' = px) as -> by congruence.
    assert (Hanc : anc p n).
    { apply (IH px Hp); [|by etrans]. destruct (decide (p = root)) as [->|Hpr]; [by left|right].
      rewrite <- Hns. symmetry. by apply Hnsp. }
    pose proof (tree_ps _ _ _ _ Ht) as Hps0.
    assert (n ≠ p) as Hnp. { intros ->. apply prefix_length in Hpre. lia. }
    destruct (anc_child p n Hanc Hnp) as (c & z & Hc & Hz & Hzp & Hcn).
    destruct (tree_edge _ _ _ _ Ht c z Hc Hz) as (p' & Hec). pose proof (edge_parent _ _ _ _ _ _ _ Hec) as Hzp'.
    assert (p' = p) as -> by congruence. enough (c = a) as -> by done.
    eapply (child_unique p c a z x); [done..| |].
    + rewrite Hns. by eapply anc_ns.
    + rewrite <- (child_units c z p (P n).1 Hec), <- (child_units a x p (P n).1 He) by (done || by apply anc_prefix_path).
      destruct (edge_len _ _ _ _ _ _ _ Hec). by rewrite !take_take, !Nat.min_l by done.
Qed.

(** A node no child of which continues the query is a longest match. *)
Lemma stuck_longest a x K N :
  h !! a = Some x → a = root ∨ ns (key x) = N → (P a).1 `prefix_of` K →
  (∀ c z, edge_ok ps root h P c z a → h !! c = Some z → c ≠ root → ns (key z) = N →
     length (P a).1 + ps ≤ length K → take ps (key_iter (key z)) ≠ take ps (drop (length (P a).1) K)) →
  ∀ n y, h !! n = Some y → n ≠ root → ns (key y) = N → page_floor ps (lcp (P n).1 K) ≤ length (P a).1.
Proof.
  intros Hx HN Hpre Hstuck n y Hy Hn HNy. pose proof (tree_ps _ _ _ _ Ht) as Hps.
  destruct (path_lengths a x Hx) as [_ [q Hq]]. set (l := page_floor ps (lcp (P n).1 K)).
  destruct (decide (l ≤ length (P a).1)) as [|Hgt]; [done|exfalso].
  assert (Hl : l ≤ lcp (P n).1 K) by (unfold l, page_floor; pose proof (Nat.div_mod (lcp (P n).1 K) ps ltac:(lia)); lia).
  assert (Hlq : length (P a).1 + ps ≤ l).
  { unfold l, page_floor in *. rewrite Hq in *. assert (q < lcp (P n).1 K / ps) by nia. nia. }
  destruct (lcp_le (P n).1 K) as [HlP HlK].
  assert (Htk : take l (P n).1 = take l K).
  { pose proof (lcp_take (P n).1 K) as E. apply (f_equal (take l)) in E. by rewrite !take_take, !Nat.min_l in E by lia. }
  assert (Hpn : (P a).1 `prefix_of` (P n).1).
  { exists (drop (length (P a).1) (P n).1). destruct Hpre as [w Hw].
    rewrite <- (take_drop (length (P a).1) (P n).1) at 1. f_equal.
    apply (f_equal (take (length (P a).1))) in Htk. rewrite !take_take, !Nat.min_l in Htk by lia.
    by rewrite Htk, Hw, take_app_length. }
  assert (Hanc : anc a n) by (eapply prefix_anc; [done..| |done]; destruct HN as [|HN]; [by left|right; congruence]).
  assert (n ≠ a) as Hna by (intros ->; lia).
  destruct (anc_child a n Hanc Hna) as (c & z & Hc & Hz & Hzp & Hcn).
  destruct (tree_edge _ _ _ _ Ht c z Hc Hz) as (p' & Hec). pose proof (edge_parent _ _ _ _ _ _ _ Hec) as Hzp'.
  assert (p' = a) as -> by congruence. eapply (Hstuck c z); [done..| |lia|].
  { rewrite <- HNy. by eapply anc_ns. }
  rewrite <- (child_units c z a (P n).1 Hec) by (by apply anc_prefix_path).
  destruct (edge_len _ _ _ _ _ _ _ Hec). rewrite take_take, Nat.min_l, !take_drop_commute by done. f_equal.
  apply (f_equal (take (length (P a).1 + ps))) in Htk. by rewrite !take_take, !Nat.min_l in Htk by lia.
Qed.
End tree.

(** ** Splitting a node *)

Section split.
Context {ps root : nat} {h : gmap nat TreeNode} {P : paths} (Ht : tree_ok ps root h P).
Variables (n p id k : nat) (x px new x' : TreeNode) (v : list Z) (ck pk : PyVal).
Hypothesis Hn : n ≠ root.
Hypothesis Hx : h !! n = Some x.
Hypothesis He : edge_ok ps root h P n x p.
Hypothesis Hp : h !! p = Some px.
Hypothesis Hid : h !! id = None.
Hypothesis Hk : 0 < k ∧ k < key_len (key x) ∧ (ps | k).
Hypothesis Hv : value x = Some v.
Hypothesis Hpk : child_key (key x) ps = Ok pk.
Hypothesis Hck : child_key (key_slice (key x) k (key_len (key x))) ps = Ok ck.
Hypothesis Hnew : skeleton new = ({[ck := n]}, Some p, key_slice (key x) 0 k, Some (take k v)).
Hypothesis Hx' : skeleton x' = (children x, Some id, key_slice (key x) k (key_len (key x)), Some (drop k v)).

Definition split_heap : gmap nat TreeNode := <[p := set_children (λ m, <[pk := id]> m) px]> (<[n := x']> (<[id := new]> h)).
Definition split_paths : paths := λ m,
  if decide (m = id) then ((P p).1 ++ take k (key_iter (key x)), (P p).2 ++ take k v) else P m.

Lemma split_ne : p ≠ n ∧ p ≠ id ∧ n ≠ id ∧ root ≠ id ∧ ps ≤ k ∧ ps ≤ key_len (key x) - k ∧ (ps | key_len (key x) - k).
Proof.
  destruct (edge_path _ _ _ He) as (Hl & _). destruct (edge_len _ _ _ _ _ _ _ He) as [Hl1 Hl2].
  pose proof (tree_ps _ _ _ _ Ht). destruct (tree_root _ _ _ _ Ht) as (r & Hr & _). destruct Hk as (Hk1 & Hk2 & [q Hq]).
  destruct Hl2 as [q2 Hq2]. split_and!; try congruence.
  - intros ->. lia.
  - destruct q; lia.
  - assert (q < q2) by nia. destruct (q2 - q) eqn:E; [lia|]. nia.
  - exists (q2 - q). rewrite Hq2, Hq, Nat.mul_sub_distr_r. lia.
Qed.

Lemma split_lookup m : split_heap !! m =
  if decide (m = p) then Some (set_children (λ m, <[pk := id]> m) px)
  else if decide (m = n) then Some x' else if decide (m = id) then Some new else h !! m.
Proof.
  unfold split_heap. destruct split_ne as (? & ? & ? & _). repeat case_decide; subst; by simplify_map_eq.
Qed.

Lemma split_tree_ok : tree_ok ps root split_heap split_paths.
Proof.
  destruct split_ne as (Hpn & Hpid & Hnid & Hrid & Hkps & Hrps & Hrdiv). pose proof (tree_ps _ _ _ _ Ht) as Hps0.
  pose proof Hnew as Enew. injection Enew as Hnc Hnp Hnk Hnv. pose proof Hx' as Ex'. injection Ex' as Hxc Hxp Hxk Hxv.
  destruct (edge_link _ _ _ _ _ _ _ He) as (px' & pk' & Hp' & Hpk' & Hpc & Hnsp).
  assert (px' = px) as -> by congruence. assert (pk' = pk) as -> by congruence.
  pose proof (edge_key _ _ _ _ _ _ _ He) as Hkey. destruct (edge_value _ _ _ _ _ _ _ He) as (v' & Hv' & Hvl & HPn).
  assert (v' = v) as -> by congruence.
  assert (Hns1 : ns (key new) = ns (key x)) by (rewrite Hnk; by apply key_slice_ns).
  assert (Hns2 : ns (key x') = ns (key x)) by (rewrite Hxk; by apply key_slice_ns).
  assert (Hkl1 : key_len (key new) = k) by (rewrite Hnk, key_slice_len; lia).
  assert (Hkl2 : key_len (key x') = key_len (key x) - k) by (rewrite Hxk, key_slice_len; lia).
  assert (HP : ∀ m y, h !! m = Some y → split_paths m = P m) by (intros m y Hm; unfold split_paths; case_decide; congruence).
  split; [done|..].
  - destruct (tree_root _ _ _ _ Ht) as (r & Hr & Hrest). rewrite (HP _ _ Hr), split_lookup.
    destruct (decide (root = p)) as [<-|]; [|rewrite !decide_False by congruence; by exists r].
    assert (px = r) as -> by congruence. eexists. split; [done|]. cbn. done.
  - intros m y Hm Hy. rewrite split_lookup in Hy. destruct (decide (m = id)) as [->|Hmid].
    { rewrite !decide_False in Hy by congruence. injection Hy as <-. exists p.
      split; [done| | |rewrite Hkl1; split; [done|apply Hk]|rewrite Hnk; by apply key_slice_ns].
      - eexists _, pk. rewrite split_lookup, decide_True by done. split; [done|].
        split; [|split; [cbn; by simplify_map_eq|cbn; by rewrite Hns1]]. rewrite <- Hpk. apply child_key_ext; try done; [lia..|].
        rewrite Hnk, key_slice_iter, py_slice_0, take_take, Nat.min_l; done.
      - exists (take k v). split; [done|]. split; [rewrite length_take; lia|].
        rewrite (HP _ _ Hp). unfold split_paths. rewrite decide_True by done. by rewrite Hnk, key_slice_iter, py_slice_0. }
    destruct (decide (m = n)) as [->|Hmn].
    { rewrite decide_False in Hy by done. injection Hy as <-. exists id.
      split; [done| | |rewrite Hkl2; done|rewrite Hxk; by apply key_slice_ns].
      - exists new, ck. rewrite split_lookup, !decide_False, decide_True by congruence. rewrite Hxk at 1. rewrite Hnc.
        split; [done|]. split; [done|]. split; [by simplify_map_eq|]. intros _. by rewrite Hns1, Hns2.
      - exists (drop k v). split; [done|]. split; [rewrite length_drop; lia|]. rewrite (HP n x Hx).
        unfold split_paths. rewrite decide_True by done. cbn. rewrite Hxk, key_slice_iter.
        unfold py_slice. rewrite (take_ge (drop k _)) by (rewrite length_drop, key_len_iter; done).
        rewrite <- !app_assoc, !take_drop. done. }
    assert (∃ y0, h !! m = Some y0 ∧ parent y0 = parent y ∧ key y0 = key y ∧ value y0 = value y) as (y0 & Hy0 & Ep & Ek & Ev).
    { destruct (decide (m = p)) as [->|]; [injection Hy as <-; by exists px|by exists y]. }
    destruct (tree_edge _ _ _ _ Ht m y0 Hm Hy0) as (q & [F1 (qx & cq & Hq & Hcq & Hqc & Hqns) F3 F4 F5]).
    exists q. split; [congruence| |rewrite (HP _ _ Hy0), (HP _ _ Hq), <- Ek, <- Ev; done|by rewrite <- Ek|by rewrite <- Ek].
    rewrite <- Ek. rewrite split_lookup. destruct (decide (q = p)) as [->|Hqp].
    + eexists _, cq. split; [done|]. split; [done|]. cbn. assert (qx = px) as -> by congruence.
      split; [|done]. rewrite lookup_insert_ne; [done|]. intros ->. congruence.
    + destruct (decide (q = n)) as [->|Hqn].
      * exists x', cq. assert (qx = x) as -> by congruence. rewrite Hxc, Hns2. done.
      * rewrite decide_False by congruence. by exists qx, cq.
  - intros m y c j Hy Hc. rewrite split_lookup in Hy.
    assert (Hold : ∀ j z, j ≠ n → h !! j = Some z → ∃ z', split_heap !! j = Some z' ∧ parent z' = parent z ∧ key z' = key z).
    { intros i z Hi Hz. rewrite split_lookup. destruct (decide (i = p)) as [->|]; [|exists z; by rewrite !decide_False by congruence].
      assert (z = px) as -> by congruence. by eexists. }
    assert (Hchild : ∀ m y, h !! m = Some y → children y !! c = Some j → j ≠ n →
      ∃ z, j ≠ root ∧ split_heap !! j = Some z ∧ parent z = Some m ∧ child_key (key z) ps = Ok c).
    { intros m' y' Hy' Hc' Hj. destruct (tree_child _ _ _ _ Ht _ _ _ _ Hy' Hc') as (z & Hjr & Hz & Hzp & Hzk).
      destruct (Hold j z Hj Hz) as (z' & Hz' & E1 & E2). exists z'. split; [done|]. split; [done|]. by rewrite E1, E2. }
    destruct (decide (m = p)) as [->|Hmp].
    { injection Hy as <-. cbn in Hc. destruct (decide (c = pk)) as [->|Hcpk].
      - rewrite lookup_insert_eq in Hc. injection Hc as <-. exists new. split; [congruence|].
        rewrite split_lookup, !decide_False, decide_True by congruence. split; [done|]. split; [done|].
        rewrite <- Hpk. apply child_key_ext; try done; [lia..|]. rewrite Hnk, key_slice_iter, py_slice_0, take_take, Nat.min_l; done.
      - rewrite lookup_insert_ne in Hc by done. apply (Hchild p px); [done..|]. intros ->.
        destruct (tree_child _ _ _ _ Ht _ _ _ _ Hp Hc) as (z & _ & Hz & _ & Hzk). congruence. }
    destruct (decide (m = n)) as [->|Hmn].
    { injection Hy as <-. rewrite Hxc in Hc. apply (Hchild n x); [done..|]. intros ->.
      destruct (tree_child _ _ _ _ Ht _ _ _ _ Hx Hc) as (z & _ & Hz & Hzp & _).
      pose proof (edge_parent _ _ _ _ _ _ _ He). congruence. }
    destruct (decide (m = id)) as [->|Hmid].
    { injection Hy as <-. rewrite Hnc in Hc. apply lookup_singleton_Some in Hc as [<- <-].
      exists x'. rewrite split_lookup, decide_False, decide_True by done. split; [done|]. split; [done|].
      split; [done|]. by rewrite Hxk. }
    apply (Hchild m y); [done..|]. intros ->.
    destruct (tree_child _ _ _ _ Ht _ _ _ _ Hy Hc) as (z & _ & Hz & Hzp & _).
    pose proof (edge_parent _ _ _ _ _ _ _ He). congruence.
Qed.
End split.

(** ** Sums over finite maps *)

Section msum.
Context {K A : Type} `{Countable K}.
Implicit Types (f : K → A → Z) (m : gmap K A).

Definition msum f m : Z := map_fold (λ k a acc, f k a + acc)%Z 0%Z m.

Lemma msum_empty f : msum f ∅ = 0%Z.
Proof. unfold msum. by rewrite map_fold_empty. Qed.

Lemma msum_insert f m k a : m !! k = None → msum f (<[k := a]> m) = (f k a + msum f m)%Z.
Proof. intros Hk. unfold msum. rewrite map_fold_insert_L; [done|intros; lia|done]. Qed.

Lemma msum_delete f m k a : m !! k = Some a → msum f (delete k m) = (msum f m - f k a)%Z.
Proof.
  intros Hk. rewrite <- (insert_delete_id m k a Hk) at 2. rewrite msum_insert by apply lookup_delete_eq. lia.
Qed.

Lemma msum_update f m k a b : m !! k = Some a → msum f (<[k := b]> m) = (msum f m - f k a + f k b)%Z.
Proof.
  intros Hk. rewrite <- insert_delete_eq, msum_insert, (msum_delete _ _ _ _ Hk) by apply lookup_delete_eq. lia.
Qed.

Lemma msum_ext f g m m' : (∀ k, f k <$> m !! k = g k <$> m' !! k) → msum f m = msum g m'.
Proof.
  revert m'. induction m as [|k a m Hk IH] using map_ind; intros m' Hext.
  - assert (m' = ∅) as ->; [|by rewrite !msum_empty]. apply map_eq. intros i. specialize (Hext i).
    rewrite lookup_empty in *. by destruct (m' !! i).
  - pose proof (Hext k) as En. rewrite lookup_insert_eq in En. destruct (m' !! k) as [b|] eqn:Hb; [|done].
    cbn in En. injection En as En. rewrite msum_insert by done. rewrite (IH (delete k m')).
    + rewrite (msum_delete _ _ _ _ Hb), En. lia.
    + intros i. destruct (decide (i = k)) as [->|Hi]; [by rewrite lookup_delete_eq, Hk|].
      rewrite lookup_delete_ne by done. specialize (Hext i). by rewrite lookup_insert_ne in Hext.
Qed.

Lemma msum_ge f m k a : (∀ k a, m !! k = Some a → 0 ≤ f k a)%Z → m !! k = Some a → (f k a ≤ msum f m)%Z.
Proof.
  intros Hf Hk. rewrite <- (insert_delete_id m k a Hk), msum_insert by apply lookup_delete_eq.
  enough (0 ≤ msum f (delete k m))%Z by lia. assert (Hd : ∀ i b, delete k m !! i = Some b → (0 ≤ f i b)%Z).
  { intros i b Hi. apply lookup_delete_Some in Hi as [_ Hi]. by apply Hf. }
  revert Hd. generalize (delete k m). clear. intros m. induction m as [|i b m Hi IH] using map_ind; intros Hf.
  - by rewrite msum_empty.
  - rewrite msum_insert by done. pose proof (Hf i b (lookup_insert_eq _ _ _)).
    enough (0 ≤ msum f m)%Z by lia. apply IH. intros j d Hj. apply Hf. rewrite lookup_insert_ne; [done|congruence].
Qed.

Lemma msum_nonneg f m : (∀ k a, m !! k = Some a → 0 ≤ f k a)%Z → (0 ≤ msum f m)%Z.
Proof.
  intros Hf. destruct (decide (m = ∅)) as [->|(k & a & Hk)%map_choose]; [by rewrite msum_empty|].
  pose proof (msum_ge f m k a Hf Hk). pose proof (Hf k a Hk). lia.
Qed.

Lemma msum_zero f m : (∀ k a, m !! k = Some a → f k a = 0%Z) → msum f m = 0%Z.
Proof.
  intros Hf. rewrite (msum_ext f (λ _ _, 0%Z) m m).
  - clear. induction m as [|k a m Hk IH] using map_ind; [apply msum_empty|]. by rewrite msum_insert, IH.
  - intros k. destruct (m !! k) as [a|] eqn:E; [|done]. cbn. by rewrite (Hf k a).
Qed.
End msum.

(** ** Token counts *)

(** The tokens of the nodes that satisfy [q], the root apart. *)
Definition node_weight (root : nat) (q : TreeNode → bool) (n : nat) (x : TreeNode) : Z :=
  if bool_decide (n = root) then 0 else if q x then Z.of_nat (key_len (key x)) else 0.
Definition weight (root : nat) (q : TreeNode → bool) (h : gmap nat TreeNode) : Z := msum (node_weight root q) h.

Definition unlocked (x : TreeNode) : bool := (lock_ref x =? 0)%Z.
Definition locked (x : TreeNode) : bool := negb (lock_ref x =? 0)%Z.

(** How often an index occurs in a list, and how often the tree owns a KV slot. *)
Definition tally (l : list Z) (i : Z) : Z := Z.of_nat (count_occ Z.eq_dec l i).
Definition owned_at (i : Z) (x : TreeNode) : Z := tally (default [] (value x)) i.
Definition owned (h : gmap nat TreeNode) (i : Z) : Z := msum (λ _ x, owned_at i x) h.

Lemma tally_app l k i : tally (l ++ k) i = (tally l i + tally k i)%Z.
Proof. unfold tally. rewrite count_occ_app. lia. Qed.
Lemma tally_take_drop n l i : (tally (take n l) i + tally (drop n l) i = tally l i)%Z.
Proof. by rewrite <- tally_app, take_drop. Qed.
Lemma tally_nonneg l i : (0 ≤ tally l i)%Z.
Proof. unfold tally. lia. Qed.

(** The locks of the children of a node. *)
Definition lock_at (h : gmap nat TreeNode) (n : nat) : Z := default 0%Z (lock_ref <$> h !! n).
Definition kids_lock (h : gmap nat TreeNode) (x : TreeNode) : Z := msum (λ _ m, lock_at h m) (children x).

(** ** The invariant *)

(** [H n] counts the handles a client holds on [n]: a node is locked once for every handle
    on it and on its descendants. *)
Definition holders : Type := nat → Z.

Record cache_ok (c : Cache) (P : paths) (H : holders) : Prop := {
  co_tree : tree_ok (page_size c) (root_node c) (heap c) P;
  co_fresh : ∀ n x, heap c !! n = Some x → n < counter c;
  co_root : ∀ r, heap c !! root_node c = Some r → lock_ref r = 1%Z;
  co_locks : ∀ n x, heap c !! n = Some x → n ≠ root_node c →
    (0 ≤ lock_ref x)%Z ∧ lock_ref x = (H n + kids_lock (heap c) x)%Z;
  co_holders : ∀ n, (0 ≤ H n)%Z ∧ (heap c !! n = None → H n = 0%Z);
  co_evictable : evictable_size_ c = weight (root_node c) unlocked (heap c);
  co_protected : protected_size_ c = weight (root_node c) locked (heap c);
  co_leaves : ∀ n, n ∈ evictable_leaves c ↔ ∃ x, heap c !! n = Some x ∧ lock_ref x = 0%Z ∧ children x = ∅;
}.

(** What an operation leaves alone. *)
Record frame (c c' : Cache) : Prop := {
  fr_disable : disable c' = disable c;
  fr_ps : page_size c' = page_size c;
  fr_eagle : is_eagle c' = is_eagle c;
  fr_finished : disable_finished_insert c' = disable_finished_insert c;
  fr_strategy : eviction_strategy c' = eviction_strategy c;
  fr_root : root_node c' = root_node c;
}.

#[export] Instance frame_refl : Reflexive frame.
Proof. by split. Qed.
#[export] Instance frame_trans : Transitive frame.
Proof. intros c1 c2 c3 [] []. split; congruence. Qed.

(** The cached prefixes: the units [us] of namespace [N] are cached at the indices [vs]. *)
Definition content (c : Cache) (P : paths) (N : option string * option string * bool)
    (us : list PyVal) (vs : list Z) : Prop :=
  ∃ n x m, n ≠ root_node c ∧ heap c !! n = Some x ∧ ns (key x) = N ∧ us = take m (P n).1 ∧ vs = take m (P n).2.

(** Every node keeps its identity, path and lock. *)
Definition keeps (c : Cache) (P : paths) (c' : Cache) (P' : paths) : Prop :=
  ∀ n x, heap c !! n = Some x → P' n = P n ∧ ∃ x', heap c' !! n = Some x' ∧ lock_ref x' = lock_ref x ∧
    (n ≠ root_node c → ns (key x') = ns (key x)).

Lemma keeps_refl c P : keeps c P c P.
Proof. intros n x Hx. split; [done|]. by exists x. Qed.

Lemma keeps_trans c1 P1 c2 P2 c3 P3 :
  frame c1 c2 → keeps c1 P1 c2 P2 → keeps c2 P2 c3 P3 → keeps c1 P1 c3 P3.
Proof.
  intros Hf H1 H2 n x Hx. destruct (H1 n x Hx) as (E1 & x2 & Hx2 & El & En).
  destruct (H2 n x2 Hx2) as (E2 & x3 & Hx3 & El' & En'). rewrite (fr_root _ _ Hf) in En'.
  split; [congruence|]. exists x3. split; [done|]. split; [congruence|]. intros Hn. rewrite En', En; done.
Qed.

(** Bookkeeping updates of a node are invisible. *)
Definition neutral (f : TreeNode → TreeNode) : Prop := ∀ x, skeleton (f x) = skeleton x ∧ lock_ref (f x) = lock_ref x.

Lemma touch_neutral t : neutral (touch t).
Proof. done. Qed.
Lemma raise_priority_neutral p : neutral (raise_priority p).
Proof. done. Qed.
Lemma inc_hit_count_neutral b : neutral (inc_hit_count b).
Proof. intros x. unfold inc_hit_count. by destruct b. Qed.

(** Two heaps that agree on skeletons and locks. *)
Definition similar (h h' : gmap nat TreeNode) : Prop :=
  ∀ n, (λ x, (skeleton x, lock_ref x)) <$> h !! n = (λ x, (skeleton x, lock_ref x)) <$> h' !! n.

Lemma similar_lookup h h' n x' :
  similar h h' → h' !! n = Some x' → ∃ x, h !! n = Some x ∧ skeleton x = skeleton x' ∧ lock_ref x = lock_ref x'.
Proof.
  intros Hs Hx'. specialize (Hs n). rewrite Hx' in Hs. destruct (h !! n) as [x|]; [|done].
  apply (inj Some) in Hs. injection Hs as E1 E2 E3 E4 E5. exists x. split; [done|]. unfold skeleton. by rewrite E1, E2, E3, E4.
Qed.

Lemma similar_sym h h' : similar h h' → similar h' h.
Proof. intros Hs n. by rewrite Hs. Qed.

Lemma similar_lock_at h h' n : similar h h' → lock_at h n = lock_at h' n.
Proof.
  intros Hs. specialize (Hs n). unfold lock_at. destruct (h !! n), (h' !! n); try done.
  apply (inj Some) in Hs. injection Hs as _ _ _ _ E. cbn. congruence.
Qed.

Lemma similar_kids_lock h h' x x' : similar h h' → children x = children x' → kids_lock h x = kids_lock h' x'.
Proof.
  intros Hs E. unfold kids_lock. rewrite E. apply msum_ext. intros k. destruct (_ !! k); [|done]. cbn. f_equal.
  by apply similar_lock_at.
Qed.

Lemma similar_weight root h h' (q : TreeNode → bool) :
  similar h h' → (∀ x y, lock_ref x = lock_ref y → q x = q y) → weight root q h = weight root q h'.
Proof.
  intros Hs Hq. apply msum_ext. intros n. specialize (Hs n). destruct (h !! n) as [x|], (h' !! n) as [y|]; try done.
  apply (inj Some) in Hs. injection Hs as E1 E2 E3 E4 E5. cbn. unfold node_weight. by rewrite E3, (Hq x y).
Qed.

Lemma unlocked_ext x y : lock_ref x = lock_ref y → unlocked x = unlocked y.
Proof. unfold unlocked. by intros ->. Qed.
Lemma locked_ext x y : lock_ref x = lock_ref y → locked x = locked y.
Proof. unfold locked. by intros ->. Qed.

Lemma similar_owned h h' i : similar h h' → owned h i = owned h' i.
Proof.
  intros Hs. apply msum_ext. intros n. specialize (Hs n). destruct (h !! n) as [x|], (h' !! n) as [y|]; try done.
  apply (inj Some) in Hs. injection Hs as E1 E2 E3 E4 E5. cbn. unfold owned_at. by rewrite E4.
Qed.

Lemma cache_ok_similar c c' P H :
  similar (heap c) (heap c') → page_size c' = page_size c → root_node c' = root_node c →
  counter c ≤ counter c' → evictable_size_ c' = evictable_size_ c → protected_size_ c' = protected_size_ c →
  evictable_leaves c' = evictable_leaves c → cache_ok c P H → cache_ok c' P H.
Proof.
  intros Hs Eps Er Ec Ee Epr El [H1 H2 H3 H4 H4' H5 H6 H7].
  split; rewrite ?Eps, ?Er, ?Ee, ?Epr, ?El.
  - eapply tree_ok_ext; [|done]. intros n. specialize (Hs n). destruct (heap c !! n), (heap c' !! n); try done.
    apply (inj Some) in Hs. injection Hs as E1 E2 E3 E4 E5. cbn. unfold skeleton. congruence.
  - intros n x' Hx'. destruct (similar_lookup _ _ _ _ Hs Hx') as (x & Hx & _). specialize (H2 _ _ Hx). lia.
  - intros r' Hr'. destruct (similar_lookup _ _ _ _ Hs Hr') as (r & Hr & _ & <-). by apply H3.
  - intros n x' Hx' Hn. destruct (similar_lookup _ _ _ _ Hs Hx') as (x & Hx & Esk & <-).
    unfold skeleton in Esk. injection Esk as E1 _ _ _. rewrite <- (similar_kids_lock _ _ x x' Hs E1). by apply H4.
  - intros n. destruct (H4' n) as [Hn1 Hn2]. split; [done|]. intros Hn. apply Hn2. specialize (Hs n). rewrite Hn in Hs.
    by destruct (heap c !! n).
  - rewrite H5. by apply similar_weight, unlocked_ext.
  - rewrite H6. by apply similar_weight, locked_ext.
  - intros n. rewrite H7. split; intros (x & Hx & Hl & Hc).
    + destruct (similar_lookup _ _ _ _ (similar_sym _ _ Hs) Hx) as (y & Hy & Esk & E). unfold skeleton in Esk.
      injection Esk as E1 _ _ _. exists y. split; [done|]. split; congruence.
    + destruct (similar_lookup _ _ _ _ Hs Hx) as (y & Hy & Esk & E). unfold skeleton in Esk.
      injection Esk as E1 _ _ _. exists y. split; [done|]. split; congruence.
Qed.

Lemma upd_similar n f c : neutral f → similar (heap c) (heap (upd n f c)).
Proof.
  intros Hf m. unfold upd. cbn. destruct (decide (m = n)) as [->|]; [rewrite lookup_alter_eq|by rewrite lookup_alter_ne].
  destruct (heap c !! n) as [x|]; [|done]. cbn. destruct (Hf x) as [-> ->]. done.
Qed.

Lemma upd_ok n f c P H : neutral f → cache_ok c P H → cache_ok (upd n f c) P H.
Proof. intros Hf. by apply cache_ok_similar; [apply upd_similar|..]. Qed.

Lemma similar_keeps c c' P : similar (heap c) (heap c') → keeps c P c' P.
Proof.
  intros Hs n x Hx. split; [done|]. destruct (similar_lookup _ _ _ _ (similar_sym _ _ Hs) Hx) as (y & Hy & E & El).
  exists y. split; [done|]. split; [done|]. intros _. unfold skeleton in E. injection E as _ _ E _. by rewrite E.
Qed.

Lemma similar_content c c' P N us vs :
  similar (heap c) (heap c') → root_node c' = root_node c → content c P N us vs ↔ content c' P N us vs.
Proof.
  intros Hs Er. unfold content. rewrite Er.
  split; intros (n & x & m & Hn & Hx & HN & Hus & Hvs); [apply similar_sym in Hs|];
    destruct (similar_lookup _ _ _ _ Hs Hx) as (y & Hy & E & _); unfold skeleton in E; injection E as _ _ E _;
    exists n, y, m; rewrite E; done.
Qed.

(** ** Splitting *)

Lemma split_hashes_total h k ps : ∃ a b, split_node_hash_value h k ps = (a, b).
Proof. destruct h; cbn; eauto. Qed.

Lemma weight_split root q h n p id x px new x' pk :
  h !! n = Some x → h !! p = Some px → h !! id = None → p ≠ n → p ≠ id → n ≠ id → n ≠ root → root ≠ id →
  (q new = q x ∧ q x' = q x) → (∀ f, q (set_children f px) = q px) →
  key_len (key new) + key_len (key x') = key_len (key x) →
  weight root q (split_heap n p id px new x' pk (h := h)) = weight root q h.
Proof.
  intros Hx Hp Hid Hpn Hpid Hnid Hn Hrid [Hq1 Hq2] Hqp Hlen. unfold split_heap.
  unfold weight. rewrite (msum_update _ _ p px) by by simplify_map_eq.
  rewrite (msum_update _ _ n x) by by simplify_map_eq. rewrite msum_insert by done.
  unfold node_weight. rewrite Hqp. cbn [key set_children].
  rewrite (bool_decide_eq_false_2 (n = root)), (bool_decide_eq_false_2 (id = root)) by congruence.
  rewrite Hq1, Hq2. destruct (q x); lia.
Qed.

Lemma alter_Some {A} (f : A → A) (m : gmap nat A) i x : m !! i = Some x → alter f i m = <[i := f x]> m.
Proof.
  intros Hx. apply map_eq. intros j. destruct (decide (j = i)) as [->|].
  - by rewrite lookup_alter_eq, Hx, lookup_insert_eq.
  - by rewrite lookup_alter_ne, lookup_insert_ne.
Qed.

(** The facts about a node that is about to be split. *)
Record splittable (c : Cache) (P : paths) (n k p : nat) (x px new x' : TreeNode) (v : list Z) (ck pk : PyVal) : Prop := {
  sp_n : n ≠ root_node c;
  sp_x : heap c !! n = Some x;
  sp_edge : edge_ok (page_size c) (root_node c) (heap c) P n x p;
  sp_p : heap c !! p = Some px;
  sp_id : heap c !! counter c = None;
  sp_k : 0 < k ∧ k < key_len (key x) ∧ (page_size c | k);
  sp_v : value x = Some v;
  sp_pk : child_key (key x) (page_size c) = Ok pk;
  sp_ck : child_key (key_slice (key x) k (key_len (key x))) (page_size c) = Ok ck;
  sp_new : skeleton new = ({[ck := n]}, Some p, key_slice (key x) 0 k, Some (take k v));
  sp_x' : skeleton x' = (children x, Some (counter c), key_slice (key x) k (key_len (key x)), Some (drop k v));
  sp_lock : lock_ref new = lock_ref x ∧ lock_ref x' = lock_ref x;
}.

Section split_cache.
Variables (c : Cache) (P : paths) (H : holders) (n k p : nat) (x px new x' : TreeNode) (v : list Z) (ck pk : PyVal).
Hypothesis Hok : cache_ok c P H.
Hypothesis D : splittable c P n k p x px new x' v ck pk.

Let id := counter c.
Let h' := split_heap n p id px new x' pk (h := heap c).
Let P' := split_paths p id k x v (P := P).

Lemma splittable_ne : p ≠ n ∧ p ≠ id ∧ n ≠ id ∧ root_node c ≠ id.
Proof.
  destruct D. destruct (split_ne (co_tree _ _ _ Hok) n p id k x px new v ck) as (? & ? & ? & ? & _); done.
Qed.

Lemma splittable_fields :
  (children new = {[ck := n]} ∧ parent new = Some p ∧ key new = key_slice (key x) 0 k ∧ value new = Some (take k v)) ∧
  (children x' = children x ∧ parent x' = Some id ∧ key x' = key_slice (key x) k (key_len (key x)) ∧
   value x' = Some (drop k v)).
Proof. destruct D. unfold skeleton in *. by simplify_eq. Qed.

Lemma splittable_lookup m : h' !! m =
  if decide (m = p) then Some (set_children (λ m, <[pk := id]> m) px)
  else if decide (m = n) then Some x' else if decide (m = id) then Some new else heap c !! m.
Proof. destruct D. apply (split_lookup (co_tree _ _ _ Hok) n p id k x px new x' v ck pk); done. Qed.

Lemma splittable_tree : tree_ok (page_size c) (root_node c) h' P'.
Proof. destruct D. apply (split_tree_ok (co_tree _ _ _ Hok) n p id k x px new x' v ck pk); done. Qed.

Lemma splittable_weight q :
  (∀ y z, lock_ref y = lock_ref z → q y = q z) → weight (root_node c) q h' = weight (root_node c) q (heap c).
Proof.
  intros Hq. destruct splittable_ne as (? & ? & ? & ?). destruct splittable_fields as [(_ & _ & Nk & _) (_ & _ & Ek & _)].
  destruct D. destruct sp_lock0 as [El1 El2].
  apply (weight_split _ _ _ n p id x); try done; [by split; apply Hq|intros; by apply Hq|].
  rewrite Nk, Ek, !key_slice_len. lia.
Qed.

(** Old nodes, seen through the split. *)
Lemma splittable_old m y :
  heap c !! m = Some y → ∃ y', h' !! m = Some y' ∧ lock_ref y' = lock_ref y ∧ ns (key y') = ns (key y) ∧ P' m = P m ∧
    (children y' = ∅ ↔ children y = ∅) ∧ (m ≠ n → parent y' = parent y).
Proof.
  intros Hy. destruct splittable_ne as (Hpn & Hpid & Hnid & Hrid). rewrite splittable_lookup.
  assert (m ≠ id) as Hmid by (intros ->; pose proof (sp_id _ _ _ _ _ _ _ _ _ _ _ _ D); unfold id in Hy; congruence).
  assert (P' m = P m) as HP by (unfold P', split_paths; by rewrite decide_False).
  destruct splittable_fields as [_ (Ec & Ep & Ek & _)]. destruct D. destruct sp_lock0 as [El1 El2].
  destruct (decide (m = p)) as [->|Hmp]; [|destruct (decide (m = n)) as [->|Hmn]; [|rewrite decide_False by done]].
  - assert (y = px) as -> by congruence. eexists. split; [done|]. cbn. split_and!; try done.
    destruct (edge_link _ _ _ _ _ _ _ sp_edge0) as (px' & pk' & Hp' & _ & Hc & _).
    assert (px' = px) as -> by congruence.
    split; intros E; [by apply insert_non_empty in E|by rewrite E, lookup_empty in Hc].
  - assert (y = x) as -> by congruence. exists x'. split_and!; try done.
    + rewrite Ek. apply key_slice_ns, (edge_key _ _ _ _ _ _ _ sp_edge0).
    + by rewrite Ec.
  - by exists y.
Qed.

Lemma splittable_new : h' !! id = Some new ∧ P' id = ((P p).1 ++ take k (key_iter (key x)), (P p).2 ++ take k v).
Proof.
  destruct splittable_ne as (Hpn & Hpid & Hnid & Hrid). rewrite splittable_lookup, !decide_False, decide_True by done.
  split; [done|]. unfold P', split_paths. by rewrite decide_True.
Qed.

Lemma splittable_inv m y' :
  h' !! m = Some y' → (m = id ∧ y' = new) ∨ ∃ y, heap c !! m = Some y ∧ m ≠ id ∧
    lock_ref y' = lock_ref y ∧ ns (key y') = ns (key y) ∧ P' m = P m ∧ (children y' = ∅ ↔ children y = ∅) ∧
    (m ≠ n → parent y' = parent y).
Proof.
  intros Hy'. destruct (decide (m = id)) as [->|Hm]; [left; destruct splittable_new; split; [done|congruence]|right].
  destruct (heap c !! m) as [y|] eqn:Hy.
  - exists y. destruct (splittable_old m y Hy) as (y2 & E & Hy2). assert (y2 = y') as -> by congruence. done.
  - rewrite splittable_lookup in Hy'. destruct D. repeat case_decide; congruence.
Qed.
End split_cache.
