(* ===== verification/RadixSplit.v ===== *)
(** * RadixSplit: splitting a node keeps the cache

    [split_node] of [RadixTree] succeeds on every node but the root at a page boundary
    inside its key, and keeps the invariant, the identities, paths and locks of the nodes and
    the cached prefixes.  [update_leaf_status] restores the set of evictable leaves. *)

From S2P Require Import Prelude RadixKey RadixTree RadixInv.
#[local] Open Scope nat_scope.

Lemma fresh_none c P H : cache_ok c P H → heap c !! counter c = None.
Proof. intros Hok. destruct (heap c !! counter c) as [x|] eqn:E; [|done]. pose proof (co_fresh _ _ _ Hok _ _ E). lia. Qed.

Lemma get_Some c n x : heap c !! n = Some x → get c n = Ok x.
Proof. unfold get. by intros ->. Qed.

(** The node of a tree with its edge. *)
Lemma node_edge c P H n x : cache_ok c P H → n ≠ root_node c → heap c !! n = Some x →
  ∃ p px, edge_ok (page_size c) (root_node c) (heap c) P n x p ∧ heap c !! p = Some px.
Proof.
  intros Hok Hn Hx. destruct (tree_edge _ _ _ _ (co_tree _ _ _ Hok) n x Hn Hx) as (p & He).
  destruct (edge_link _ _ _ _ _ _ _ He) as (px & _ & Hp & _). eauto.
Qed.

Section split_facts.
Variables (c : Cache) (P : paths) (H : holders) (n k p : nat) (x px new x' : TreeNode) (v : list Z) (ck pk : PyVal).
Hypothesis Hok : cache_ok c P H.
Hypothesis D : splittable c P n k p x px new x' v ck pk.
Variable c' : Cache.
Hypothesis Hheap : heap c' = split_heap n p (counter c) px new x' pk (h := heap c).
Hypothesis Hframe : frame c c'.
Hypothesis Hrest : counter c' = S (counter c) ∧ evictable_size_ c' = evictable_size_ c ∧
  protected_size_ c' = protected_size_ c ∧ evictable_leaves c' = evictable_leaves c.

Notation P' := (split_paths p (counter c) k x v (P := P)).

Lemma split_lock_at m : m ≠ counter c → lock_at (heap c') m = lock_at (heap c) m.
Proof.
  intros Hm. pose proof (sp_lock _ _ _ _ _ _ _ _ _ _ _ _ D) as [El1 El2].
  unfold lock_at. rewrite Hheap, (splittable_lookup _ _ _ _ _ _ _ _ _ _ _ _ _ Hok D).
  destruct (decide (m = p)) as [->|]; [|destruct (decide (m = n)) as [->|]; [|by rewrite decide_False]].
  - by rewrite (sp_p _ _ _ _ _ _ _ _ _ _ _ _ D).
  - rewrite (sp_x _ _ _ _ _ _ _ _ _ _ _ _ D). cbn. congruence.
Qed.

(** The children of an old node are old. *)
Lemma split_kids_lock m y y' :
  heap c !! m = Some y → children y' = children y → kids_lock (heap c') y' = kids_lock (heap c) y.
Proof.
  intros Hy E. unfold kids_lock. rewrite E. apply msum_ext. intros q. destruct (children y !! q) as [j|] eqn:Hj; [|done].
  cbn. f_equal. apply split_lock_at. intros ->.
  destruct (tree_child _ _ _ _ (co_tree _ _ _ Hok) _ _ _ _ Hy Hj) as (z & _ & Hz & _). pose proof (fresh_none _ _ _ Hok). congruence.
Qed.

Lemma split_locks m y : heap c' !! m = Some y → m ≠ root_node c →
  (0 ≤ lock_ref y)%Z ∧ lock_ref y = (H m + kids_lock (heap c') y)%Z.
Proof.
  intros Hy Hm. pose proof (sp_lock _ _ _ _ _ _ _ _ _ _ _ _ D) as [El1 El2].
  pose proof (sp_x _ _ _ _ _ _ _ _ _ _ _ _ D) as Hx. pose proof (sp_p _ _ _ _ _ _ _ _ _ _ _ _ D) as Hp.
  pose proof (co_locks _ _ _ Hok n x Hx (sp_n _ _ _ _ _ _ _ _ _ _ _ _ D)) as [L1 L2].
  destruct (splittable_fields _ _ _ _ _ _ _ _ _ _ _ _ D) as [(Nc & _) (Xc & _)].
  destruct (splittable_ne _ _ _ _ _ _ _ _ _ _ _ _ _ Hok D) as (Hpn & Hpid & Hnid & Hrid).
  assert (Hlk := Hy). rewrite Hheap, (splittable_lookup _ _ _ _ _ _ _ _ _ _ _ _ _ Hok D) in Hlk.
  destruct (decide (m = p)) as [->|Hmp]; [|destruct (decide (m = n)) as [->|Hmn]; [|destruct (decide (m = counter c)) as [->|Hmid]]].
  - injection Hlk as <-. pose proof (co_locks _ _ _ Hok p px Hp Hm) as [L3 L4]. split; [done|]. cbn [lock_ref set_children].
    rewrite L4. f_equal. unfold kids_lock. cbn [children set_children].
    destruct (edge_link _ _ _ _ _ _ _ (sp_edge _ _ _ _ _ _ _ _ _ _ _ _ D)) as (px' & pk' & Hp' & Hpk' & Hpc & _).
    assert (px' = px) as -> by congruence. pose proof (sp_pk _ _ _ _ _ _ _ _ _ _ _ _ D) as Hpk.
    assert (pk' = pk) as -> by congruence. rewrite (msum_update _ _ pk n) by done.
    pose proof (split_kids_lock p px px Hp eq_refl) as Hk. unfold kids_lock in Hk. rewrite Hk.
    rewrite (split_lock_at n Hnid). assert (E1 : lock_at (heap c) n = lock_ref x) by (unfold lock_at; by rewrite Hx).
    assert (E2 : lock_at (heap c') (counter c) = lock_ref new).
    { unfold lock_at. rewrite Hheap. by destruct (splittable_new _ _ _ _ _ _ _ _ _ _ _ _ _ Hok D) as [-> _]. }
    lia.
  - injection Hlk as <-. rewrite El2, (split_kids_lock n x x' Hx Xc). done.
  - injection Hlk as <-. rewrite El1. split; [done|]. rewrite (proj2 (co_holders _ _ _ Hok (counter c)) (fresh_none _ _ _ Hok)).
    unfold kids_lock. rewrite Nc, <- insert_empty, msum_insert, msum_empty, (split_lock_at n Hnid) by apply lookup_empty.
    unfold lock_at. rewrite Hx. cbn. lia.
  - rewrite (split_kids_lock m y y Hlk eq_refl). by apply (co_locks _ _ _ Hok).
Qed.

Lemma split_leaves m :
  m ∈ evictable_leaves c' ↔ ∃ y, heap c' !! m = Some y ∧ lock_ref y = 0%Z ∧ children y = ∅.
Proof.
  destruct Hrest as (_ & _ & _ & ->). rewrite Hheap, (co_leaves _ _ _ Hok). split.
  - intros (y & Hy & Hl & Hc). destruct (splittable_old _ _ _ _ _ _ _ _ _ _ _ _ _ Hok D m y Hy) as (y' & Hy' & El & _ & _ & Ec & _).
    exists y'. split; [done|]. split; [congruence|by apply Ec].
  - intros (y & Hy & Hl & Hc).
    destruct (splittable_inv _ _ _ _ _ _ _ _ _ _ _ _ _ Hok D m y Hy) as [[-> ->]|(y0 & Hy0 & _ & El & _ & _ & Ec & _)].
    + destruct (splittable_fields _ _ _ _ _ _ _ _ _ _ _ _ D) as [(E & _) _]. rewrite E in Hc. by apply map_non_empty_singleton in Hc.
    + exists y0. split; [done|]. split; [congruence|by apply Ec].
Qed.

Lemma split_cache_ok : cache_ok c' P' H.
Proof.
  destruct Hrest as (Ecnt & Eev & Epr & Elv). pose proof Hframe as [_ Eps _ _ _ Ert].
  destruct (splittable_ne _ _ _ _ _ _ _ _ _ _ _ _ _ Hok D) as (Hpn & Hpid & Hnid & Hrid).
  split; rewrite ?Eps, ?Ert, ?Ecnt, ?Eev, ?Epr.
  - rewrite Hheap. by eapply splittable_tree.
  - intros m y Hy. rewrite Hheap in Hy.
    destruct (splittable_inv _ _ _ _ _ _ _ _ _ _ _ _ _ Hok D m y Hy) as [[-> ->]|(y0 & Hy0 & _)]; [lia|].
    pose proof (co_fresh _ _ _ Hok _ _ Hy0). lia.
  - intros r Hr. rewrite Hheap in Hr. destruct (splittable_inv _ _ _ _ _ _ _ _ _ _ _ _ _ Hok D _ r Hr) as [[E _]|(r0 & Hr0 & _ & El & _)].
    + by destruct Hrid.
    + rewrite El. by apply (co_root _ _ _ Hok).
  - exact split_locks.
  - intros m. destruct (co_holders _ _ _ Hok m) as [Hm1 Hm2]. split; [done|]. intros Hm. apply Hm2.
    destruct (heap c !! m) as [y|] eqn:Hy; [|done].
    destruct (splittable_old _ _ _ _ _ _ _ _ _ _ _ _ _ Hok D m y Hy) as (y' & Hy' & _). rewrite Hheap in Hm. congruence.
  - rewrite Hheap, (splittable_weight _ _ _ _ _ _ _ _ _ _ _ _ _ Hok D); [apply Hok|]. exact unlocked_ext.
  - rewrite Hheap, (splittable_weight _ _ _ _ _ _ _ _ _ _ _ _ _ Hok D); [apply Hok|]. exact locked_ext.
  - exact split_leaves.
Qed.

Lemma split_keeps : keeps c P c' P'.
Proof.
  intros m y Hy. destruct (splittable_old _ _ _ _ _ _ _ _ _ _ _ _ _ Hok D m y Hy) as (y' & Hy' & El & En & EP & _).
  split; [done|]. exists y'. rewrite Hheap. done.
Qed.

(** The new node stands for a prefix of its child, so no prefix appears or vanishes. *)
Lemma split_content N us vs : content c P N us vs ↔ content c' P' N us vs.
Proof.
  unfold content. rewrite (fr_root _ _ Hframe). split.
  - intros (m & y & j & Hm & Hy & HN & Hus & Hvs). destruct (split_keeps m y Hy) as (EP & y' & Hy' & _ & En).
    exists m, y', j. rewrite EP, (En Hm). done.
  - intros (m & y' & j & Hm & Hy' & HN & Hus & Hvs). rewrite Hheap in Hy'.
    destruct (splittable_inv _ _ _ _ _ _ _ _ _ _ _ _ _ Hok D m y' Hy') as [[-> ->]|(y & Hy & _ & _ & En & EP & _)].
    2: { exists m, y, j. by rewrite <- En, <- EP. }
    destruct (splittable_fields _ _ _ _ _ _ _ _ _ _ _ _ D) as [(_ & _ & Ek & _) _].
    destruct (splittable_new _ _ _ _ _ _ _ _ _ _ _ _ _ Hok D) as [_ EP]. rewrite EP in Hus, Hvs. clear EP.
    destruct D as [Hn Hx He Hp _ [Hk1 [Hk2 _]] Hv _ _ _ _ _]. cbn [fst snd] in Hus, Hvs.
    destruct (edge_value _ _ _ _ _ _ _ He) as (v' & Hv' & Hvl & HP). assert (v' = v) as -> by congruence.
    destruct (path_lengths (co_tree _ _ _ Hok) p px Hp) as [Hpl _].
    exists n, x, (Nat.min j (length (P p).1 + k)). rewrite HP. cbn [fst snd]. split_and!; try done.
    + rewrite <- HN, Ek. symmetry. by apply key_slice_ns, (edge_key _ _ _ _ _ _ _ He).
    + rewrite Hus, <- take_take. f_equal. rewrite take_app_add. done.
    + rewrite Hvs, <- take_take. f_equal. rewrite Hpl, take_app_add. done.
Qed.

Lemma split_owned i : owned (heap c') i = owned (heap c) i.
Proof.
  destruct (splittable_ne _ _ _ _ _ _ _ _ _ _ _ _ _ Hok D) as (Hpn & Hpid & Hnid & _).
  destruct (splittable_fields _ _ _ _ _ _ _ _ _ _ _ _ D) as [(_ & _ & _ & Nv) (_ & _ & _ & Xv)].
  destruct D as [_ Hx _ Hp Hid _ Hv _ _ _ _ _]. rewrite Hheap. unfold owned, split_heap.
  rewrite (msum_update _ _ p px) by by simplify_map_eq. rewrite (msum_update _ _ n x) by by simplify_map_eq.
  rewrite msum_insert by done. unfold owned_at. rewrite Nv, Xv, Hv. cbn. rewrite <- (tally_take_drop k v i). lia.
Qed.
End split_facts.

(** ** Reorganisations: the cache changes, what it stores does not *)

Record reorg (c : Cache) (P : paths) (H : holders) (c' : Cache) (P' : paths) : Prop := {
  ro_ok : cache_ok c' P' H;
  ro_frame : frame c c';
  ro_frees : frees c' = frees c;
  ro_sizes : evictable_size_ c' = evictable_size_ c ∧ protected_size_ c' = protected_size_ c ∧
    evictable_leaves c' = evictable_leaves c;
  ro_keeps : keeps c P c' P';
  ro_content N us vs : content c P N us vs ↔ content c' P' N us vs;
  ro_owned i : owned (heap c') i = owned (heap c) i;
}.

Lemma reorg_refl c P H : cache_ok c P H → reorg c P H c P.
Proof. intros Hok. split; [done..|apply keeps_refl|done|done]. Qed.

Lemma reorg_trans c1 P1 c2 P2 c3 P3 H : reorg c1 P1 H c2 P2 → reorg c2 P2 H c3 P3 → reorg c1 P1 H c3 P3.
Proof.
  intros [O1 F1 L1 (S1 & S1' & S1'') K1 C1 W1] [O2 F2 L2 (S2 & S2' & S2'') K2 C2 W2]. split; [done|by etrans|congruence| | | |].
  - split_and!; congruence.
  - by eapply keeps_trans.
  - intros N us vs. by rewrite C1, C2.
  - intros i. by rewrite W2, W1.
Qed.

Lemma reorg_upd n f c P H : neutral f → cache_ok c P H → reorg c P H (upd n f c) P.
Proof.
  intros Hf Hok. split; [by apply upd_ok|by split|done|done| | |].
  - by apply similar_keeps, upd_similar.
  - intros N us vs. apply similar_content; [by apply upd_similar|done].
  - intros i. symmetry. by apply similar_owned, upd_similar.
Qed.

Section operations.
Variable monotonic : nat → Z.

(** Splitting a node at a page boundary inside its key. *)
Record split_result (c : Cache) (P : paths) (H : holders) (n k : nat) (x : TreeNode) (c' : Cache) (P' : paths) : Prop := {
  sr_reorg : reorg c P H c' P';
  sr_fresh : counter c ≠ root_node c ∧ heap c !! counter c = None;
  sr_new : ∃ p v new ck, parent x = Some p ∧ value x = Some v ∧ heap c' !! counter c = Some new ∧
    value new = Some (take k v) ∧ ns (key new) = ns (key x) ∧ children new = {[ck := n]} ∧
    lock_ref new = lock_ref x ∧ key_len (key new) = k ∧
    P' (counter c) = ((P p).1 ++ take k (key_iter (key x)), (P p).2 ++ take k v);
  sr_old : ∃ x', heap c' !! n = Some x' ∧ key_iter (key x') = drop k (key_iter (key x));
}.

Lemma split_node_spec c P H n k x :
  cache_ok c P H → n ≠ root_node c → heap c !! n = Some x →
  0 < k → k < key_len (key x) → (page_size c | k) →
  ∃ c' P', split_node monotonic (key x) n k c = Ok (counter c, c') ∧ split_result c P H n k x c' P'.
Proof.
  intros Hok Hn Hx Hk1 Hk2 Hk3. pose proof (fresh_none _ _ _ Hok) as Hid.
  destruct (node_edge _ _ _ _ _ Hok Hn Hx) as (p & px & He & Hp). pose proof (co_tree _ _ _ Hok) as Ht.
  pose proof (tree_ps _ _ _ _ Ht) as Hps. destruct (edge_len _ _ _ _ _ _ _ He) as [Hlen Hdiv].
  destruct (edge_value _ _ _ _ _ _ _ He) as (v & Hv & Hvl & _). pose proof (edge_key _ _ _ _ _ _ _ He) as Hkey.
  destruct (child_key_total (key x) (page_size c) Hps Hlen) as [pk Hpk].
  assert (Hrem : page_size c ≤ key_len (key_slice (key x) k (key_len (key x)))).
  { rewrite key_slice_len. destruct Hdiv as [a Ha], Hk3 as [b Hb]. assert (b < a) by nia. destruct (a - b) eqn:E; [lia|]. nia. }
  destruct (child_key_total _ (page_size c) Hps Hrem) as [ck Hck].
  destruct (split_hashes_total (hash_value x) k (page_size c)) as (nh & h & Hh).
  destruct (split_hashes_total (event_hash_value x) k (page_size c)) as (ne & e & He').
  set (new := mkNode {[ck := n]} (Some p) (key_slice (key x) 0 k) (Some (take k v)) (lock_ref x)
    (monotonic (ticks c)) (monotonic (S (ticks c))) (hit_count x) 0 nh ne (priority x)).
  set (x' := set_parent (Some (counter c)) (set_segment (key_slice (key x) k (key_len (key x))) (Some (drop k v)) h e x)).
  assert (D : splittable c P n k p x px new x' v ck pk) by (split; done).
  destruct (splittable_ne _ _ _ _ _ _ _ _ _ _ _ _ _ Hok D) as (Hpn & Hpid & Hnid & Hrid).
  set (c1 := mkCache (disable c) (page_size c) (is_eagle c) (disable_finished_insert c) (eviction_strategy c)
    (split_heap n p (counter c) px new x' pk (h := heap c)) (S (counter c)) (root_node c) (evictable_size_ c)
    (protected_size_ c) (evictable_leaves c) (S (S (ticks c))) (frees c)).
  assert (Hrun : split_node monotonic (key x) n k c = Ok (counter c, c1)).
  { unfold split_node, get. rewrite Hx. cbn [mbind result_bind]. rewrite Hck. cbn [mbind result_bind].
    rewrite (edge_parent _ _ _ _ _ _ _ He), Hv. cbn [mbind result_bind]. rewrite Hh, He'. cbn [new_node].
    cbn. rewrite Hpk. cbn [mbind result_bind].
    rewrite lookup_alter_ne, lookup_insert_ne, Hp by done. cbn. f_equal. f_equal. unfold upd, set_heap. cbn. unfold c1.
    f_equal. unfold split_heap. rewrite (alter_Some _ _ p px) by by simplify_map_eq. by rewrite (alter_Some _ _ n x) by by simplify_map_eq. }
  assert (Hframe : frame c c1) by by split.
  exists c1, (split_paths p (counter c) k x v (P := P)). split; [exact Hrun|]. split; try done.
  - split; try done.
    + by apply (split_cache_ok c P H n k p x px new x' v ck pk).
    + by apply (split_keeps c P H n k p x px new x' v ck pk).
    + intros N us vs. by apply (split_content c P H n k p x px new x' v ck pk).
    + intros i. by apply (split_owned c P H n k p x px new x' v ck pk).
  - destruct (splittable_new _ _ _ _ _ _ _ _ _ _ _ _ _ Hok D) as [Hnew HPn].
    exists p, v, new, ck. split_and!; try done; [apply He|by apply key_slice_ns|cbn; rewrite key_slice_len; lia].
  - exists x'. split.
    + cbn. rewrite (splittable_lookup _ _ _ _ _ _ _ _ _ _ _ _ _ Hok D), decide_False, decide_True by done. done.
    + cbn. rewrite key_slice_iter. unfold py_slice. rewrite take_ge; [done|]. rewrite length_drop, key_len_iter. done.
Qed.
End operations.
