(* ===== verification/RadixMatch.v ===== *)
(** * RadixMatch: looking up the longest cached prefix

    [match_prefix] of [RadixTree]: the walk down the tree ends on a node that stands for the
    longest page-aligned cached prefix of the query, after at most one split; what the cache
    stores does not change. *)

From S2P Require Import Prelude RadixKey RadixTree RadixInv RadixSplit.
#[local] Open Scope nat_scope.

Lemma page_floor_le ps n : 0 < ps → page_floor ps n ≤ n.
Proof. intros. unfold page_floor. pose proof (Nat.div_mod n ps ltac:(lia)). lia. Qed.

Lemma page_floor_lt ps n : 0 < ps → n < page_floor ps n + ps.
Proof. intros. unfold page_floor. pose proof (Nat.div_mod n ps ltac:(lia)). pose proof (Nat.mod_upper_bound n ps ltac:(lia)). lia. Qed.

Lemma page_floor_divide ps n : (ps | page_floor ps n).
Proof. by exists (n / ps). Qed.

Lemma page_floor_ge ps m n : 0 < ps → (ps | m) → m ≤ n → m ≤ page_floor ps n.
Proof. intros Hps [q ->] Hm. unfold page_floor. apply Nat.mul_le_mono_r. apply Nat.div_le_lower_bound; lia. Qed.

(** ** The cursor of a walk *)

Notation namespace := (option string * option string * bool)%type.

(** The walk stands on node [a] and still has the units of [k] to look for. *)
Record cursor (c : Cache) (P : paths) (N : namespace) (K : list PyVal) (a : nat) (k : RadixKey) : Prop := {
  cu_node : ∃ x, heap c !! a = Some x ∧ (a = root_node c ∨ ns (key x) = N);
  cu_path : (P a).1 ++ key_iter k = K;
  cu_ns : ns k = N;
  cu_key : key_ok k;
  cu_pages : (page_size c | key_len k);
}.

(** No node stands for a longer page-aligned prefix of [K] than [a]. *)
Definition stuck (c : Cache) (P : paths) (N : namespace) (K : list PyVal) (a : nat) : Prop :=
  ∀ n y, heap c !! n = Some y → n ≠ root_node c → ns (key y) = N →
    page_floor (page_size c) (lcp (P n).1 K) ≤ length (P a).1.

Section cursor.
Context {c : Cache} {P : paths} {H : holders} (Hok : cache_ok c P H).
Context {N : namespace} {K : list PyVal} {a : nat} {k : RadixKey} (Hcu : cursor c P N K a k).

Lemma cursor_ps : 0 < page_size c.
Proof. apply (tree_ps _ _ _ _ (co_tree _ _ _ Hok)). Qed.

Lemma cursor_page : 0 < key_len k → page_size c ≤ key_len k.
Proof. destruct (cu_pages _ _ _ _ _ _ Hcu) as [q ->]. pose proof cursor_ps. destruct q; lia. Qed.

(** The child the dictionary gives, and how far its key agrees with the query. *)
Record branch (m : nat) (y : TreeNode) (v : list Z) (l : nat) : Prop := {
  br_root : m ≠ root_node c;
  br_node : heap c !! m = Some y;
  br_edge : edge_ok (page_size c) (root_node c) (heap c) P m y a;
  br_ns : ns (key y) = N;
  br_value : value y = Some v ∧ length v = key_len (key y);
  br_len : l = page_floor (page_size c) (lcp (key_iter (key y)) (key_iter k));
  br_pages : page_size c ≤ l ∧ l ≤ key_len (key y) ∧ l ≤ key_len k ∧ (page_size c | l);
  br_units : take l (key_iter (key y)) = take l (key_iter k);
}.

Lemma cursor_child x ck m :
  heap c !! a = Some x → 0 < key_len k → child_key k (page_size c) = Ok ck → children x !! ck = Some m →
  ∃ y v l, branch m y v l ∧ match_ (key y) k (page_size c) = Ok l.
Proof.
  intros Hx Hk Hck Hm. pose proof cursor_ps as Hps. pose proof (cursor_page Hk) as Hpk.
  destruct (tree_child _ _ _ _ (co_tree _ _ _ Hok) _ _ _ _ Hx Hm) as (y & Hmr & Hy & Hyp & Hyk).
  destruct (tree_edge _ _ _ _ (co_tree _ _ _ Hok) m y Hmr Hy) as (a' & He).
  pose proof (edge_parent _ _ _ _ _ _ _ He) as Hp'. assert (a' = a) as -> by congruence.
  destruct (edge_len _ _ _ _ _ _ _ He) as [Hl1 Hl2]. destruct (edge_value _ _ _ _ _ _ _ He) as (v & Hv & Hvl & _).
  destruct (child_key_inj (key y) k (page_size c) ck Hps Hl1 Hpk Hyk Hck) as (E1 & E2 & E3 & Et).
  set (l := page_floor (page_size c) (lcp (key_iter (key y)) (key_iter k))).
  destruct (lcp_le (key_iter (key y)) (key_iter k)) as [L1 L2]. rewrite !key_len_iter in L1, L2.
  pose proof (page_floor_le (page_size c) (lcp (key_iter (key y)) (key_iter k)) Hps) as Hle. fold l in Hle.
  exists y, v, l. split; [split|by apply match_lcp]; try done.
  - rewrite <- (cu_ns _ _ _ _ _ _ Hcu). unfold ns. congruence.
  - split_and!; [|lia|lia|apply page_floor_divide]. apply page_floor_ge; [done|done|].
    apply lcp_ge; [by rewrite key_len_iter|by rewrite key_len_iter|done].
  - pose proof (lcp_take (key_iter (key y)) (key_iter k)) as E. apply (f_equal (take l)) in E.
    by rewrite !take_take, !Nat.min_l in E by done.
Qed.

(** The whole key of the child agrees: the walk moves there. *)
Lemma cursor_step m y v l :
  branch m y v l → l = key_len (key y) →
  cursor c P N K m (key_slice k l (key_len k)) ∧ (P m).2 = (P a).2 ++ v.
Proof.
  intros [B1 B2 B3 B4 [B5 B5'] B6 (B7 & B7' & B7'' & B7''') B8] Hl.
  destruct (edge_value _ _ _ _ _ _ _ B3) as (v' & Hv' & _ & HP). assert (v' = v) as -> by congruence.
  assert (Hit : key_iter (key_slice k l (key_len k)) = drop l (key_iter k)).
  { rewrite key_slice_iter. unfold py_slice. rewrite take_ge; [done|]. rewrite length_drop, key_len_iter. done. }
  destruct (key_slice_ns k l (key_len k) (cu_key _ _ _ _ _ _ Hcu)) as [E1 E2].
  split; [split|].
  - exists y. split; [done|by right].
  - rewrite HP, Hit. cbn. rewrite <- app_assoc. rewrite <- (cu_path _ _ _ _ _ _ Hcu). f_equal.
    rewrite take_ge in B8 by (rewrite key_len_iter; lia). rewrite B8. apply take_drop.
  - rewrite E1. apply Hcu.
  - done.
  - rewrite key_slice_len, Nat.min_id. apply Nat.divide_sub_r; [apply Hcu|done].
  - by rewrite HP.
Qed.

(** No child continues the query. *)
Lemma cursor_stuck x ck :
  heap c !! a = Some x → (0 < key_len k → child_key k (page_size c) = Ok ck) →
  (0 < key_len k → children x !! ck = None) → stuck c P N K a.
Proof.
  intros Hx Hck Hno. destruct (cu_node _ _ _ _ _ _ Hcu) as (x' & Hx' & HN). assert (x' = x) as -> by congruence.
  pose proof (cu_path _ _ _ _ _ _ Hcu) as HK. unfold stuck.
  apply (stuck_longest (co_tree _ _ _ Hok) a x K N Hx HN); [rewrite <- HK; by eexists|].
  intros m z He Hz Hm HNz Hlen Heq. rewrite <- HK, length_app, key_len_iter in Hlen.
  rewrite <- HK, drop_app_length in Heq. destruct (edge_link _ _ _ _ _ _ _ He) as (x'' & ck' & Hx'' & Hck' & Hc & _).
  assert (x'' = x) as -> by congruence. pose proof cursor_ps as Hps. destruct (edge_len _ _ _ _ _ _ _ He) as [Hl _].
  rewrite (child_key_ext (key z) k (page_size c)) in Hck'; [|done|done|lia|rewrite HNz; symmetry; apply Hcu|done].
  rewrite Hck in Hck' by lia. injection Hck' as <-. rewrite Hno in Hc by lia. done.
Qed.
End cursor.

(** [take] of two pieces. *)
Lemma take_add_drop {A} (l : list A) n m : take (n + m) l = take n l ++ take m (drop n l).
Proof. revert l. induction n as [|n IH]; intros [|x l]; cbn; [done|done|by rewrite take_nil|]. f_equal. apply IH. Qed.

Section split_cursor.
Context {c : Cache} {P : paths} {H : holders} (Hok : cache_ok c P H).
Context {N : namespace} {K : list PyVal} {a : nat} {k : RadixKey} (Hcu : cursor c P N K a k).
Context {m : nat} {y : TreeNode} {v : list Z} {l : nat} (B : branch m y v l (c := c) (P := P) (N := N) (a := a) (k := k)).
Context {c' : Cache} {P' : paths} (S : split_result c P H m l y c' P').

Lemma split_branch_path : P' (counter c) = ((P a).1 ++ take l (key_iter k), (P a).2 ++ take l v).
Proof.
  destruct (sr_new _ _ _ _ _ _ _ _ S) as (p & v' & new & ck & Hp & Hv & _ & _ & _ & _ & _ & _ & HP).
  pose proof (edge_parent _ _ _ _ _ _ _ (br_edge _ _ _ _ B)) as Hp'. assert (p = a) as -> by congruence.
  destruct (br_value _ _ _ _ B) as [Hv' _]. assert (v' = v) as -> by congruence.
  by rewrite HP, (br_units _ _ _ _ B).
Qed.

(** The walk may stand on the new node. *)
Lemma split_cursor : cursor c' P' N K (counter c) (key_slice k l (key_len k)).
Proof.
  destruct (sr_new _ _ _ _ _ _ _ _ S) as (p & v' & new & ck & _ & _ & Hnew & _ & Hns & _).
  destruct (br_pages _ _ _ _ B) as (B1 & B2 & B3 & B4).
  destruct (key_slice_ns k l (key_len k) (cu_key _ _ _ _ _ _ Hcu)) as [E1 E2]. split.
  - exists new. split; [done|right]. rewrite Hns. apply B.
  - rewrite split_branch_path, key_slice_iter. cbn [fst]. unfold py_slice.
    rewrite (take_ge (drop l _)) by (rewrite length_drop, key_len_iter; done).
    rewrite <- app_assoc, take_drop. apply Hcu.
  - rewrite E1. apply Hcu.
  - done.
  - rewrite (fr_ps _ _ (ro_frame _ _ _ _ _ (sr_reorg _ _ _ _ _ _ _ _ S))), key_slice_len, Nat.min_id.
    apply Nat.divide_sub_r; [apply Hcu|done].
Qed.

(** After the split only the rest of the child hangs off the new node, and it diverges. *)
Lemma split_stuck : stuck c' P' N K (counter c).
Proof.
  pose proof (sr_reorg _ _ _ _ _ _ _ _ S) as R. pose proof (ro_ok _ _ _ _ _ R) as Hok'.
  pose proof split_branch_path as HPid. pose proof (cursor_ps Hok) as Hps. pose proof (ro_frame _ _ _ _ _ R) as F.
  destruct (sr_new _ _ _ _ _ _ _ _ S) as (p & v' & new & ck & _ & _ & Hnew & _ & Hns & Hch & _).
  destruct (sr_old _ _ _ _ _ _ _ _ S) as (x' & Hx' & Hiter). pose proof (cu_path _ _ _ _ _ _ Hcu) as HK.
  destruct (br_pages _ _ _ _ B) as (B1 & B2 & B3 & B4).
  assert (Hlen : length (P' (counter c)).1 = length (P a).1 + l).
  { rewrite HPid. cbn. rewrite length_app, length_take, key_len_iter. lia. }
  unfold stuck. rewrite (fr_ps _ _ F), (fr_root _ _ F). pose proof (co_tree _ _ _ Hok') as Ht.
  rewrite (fr_ps _ _ F), (fr_root _ _ F) in Ht. apply (stuck_longest Ht (counter c) new K N Hnew).
  - right. rewrite Hns. apply B.
  - rewrite HPid. cbn. rewrite <- HK. exists (drop l (key_iter k)). rewrite <- app_assoc. by rewrite take_drop.
  - intros q z He Hz Hq HNz Hle. rewrite Hlen in Hle |- *. rewrite <- HK, length_app, key_len_iter in Hle.
    destruct (edge_link _ _ _ _ _ _ _ He) as (new' & ck' & Hnew' & _ & Hc & _). assert (new' = new) as -> by congruence.
    rewrite Hch in Hc. apply lookup_singleton_Some in Hc as [_ <-]. assert (z = x') as -> by congruence.
    rewrite Hiter, <- HK, <- drop_drop, drop_app_length. intros Heq.
    destruct (edge_len _ _ _ _ _ _ _ He) as [Hz1 _]. rewrite <- key_len_iter, Hiter, length_drop, key_len_iter in Hz1.
    assert (Hlcp : l + page_size c ≤ lcp (key_iter (key y)) (key_iter k)).
    { apply lcp_ge; [rewrite key_len_iter; lia|rewrite key_len_iter; lia|].
      rewrite !take_add_drop, Heq, (br_units _ _ _ _ B). done. }
    pose proof (page_floor_lt (page_size c) (lcp (key_iter (key y)) (key_iter k)) Hps) as Hlt.
    rewrite <- (br_len _ _ _ _ B) in Hlt. lia.
Qed.
End split_cursor.

(** ** The walk *)

(** Where the walk ends. *)
Record arrived (c : Cache) (P : paths) (N : namespace) (K : list PyVal) (b : nat) : Prop := {
  ar_node : ∃ z, heap c !! b = Some z ∧ (b = root_node c ∨ ns (key z) = N);
  ar_prefix : (P b).1 `prefix_of` K;
  ar_stuck : stuck c P N K b;
}.

Section walk.
Variable monotonic : nat → Z.

Lemma reorg_cursor c P H c' P' N K a k : reorg c P H c' P' → cursor c P N K a k → cursor c' P' N K a k.
Proof.
  intros R [(x & Hx & HN) C2 C3 C4 C5]. destruct (ro_keeps _ _ _ _ _ R a x Hx) as (EP & x' & Hx' & _ & En).
  pose proof (ro_frame _ _ _ _ _ R) as F. split; try done; [|by rewrite EP|by rewrite (fr_ps _ _ F)].
  exists x'. split; [done|]. rewrite (fr_root _ _ F). destruct (decide (a = root_node c)) as [|Ha]; [by left|right].
  destruct HN as [?|HN]; [done|]. by rewrite En.
Qed.

Lemma match_loop_spec fuel t c P H N K a k ck acc :
  cache_ok c P H → cursor c P N K a k → (0 < key_len k → child_key k (page_size c) = Ok ck) →
  concat acc = (P a).2 → key_len k < fuel →
  ∃ acc' b c' P', match_loop monotonic fuel t a k ck acc c = Ok (acc', b, c') ∧ reorg c P H c' P' ∧
    arrived c' P' N K b ∧ concat acc' = (P' b).2.
Proof.
  revert c P a k ck acc. induction fuel as [|fuel IH]; intros c P a k ck acc Hok Hcu Hck Hacc Hf; [lia|].
  destruct (cu_node _ _ _ _ _ _ Hcu) as (x & Hx & HN). cbn [match_loop]. rewrite (get_Some c a x Hx). cbn [mbind result_bind].
  assert (Hstop : (0 < key_len k → children x !! ck = None) → arrived c P N K a).
  { intros Hno. split; [by exists x| |by eapply cursor_stuck].
    rewrite <- (cu_path _ _ _ _ _ _ Hcu). by eexists. }
  destruct (Nat.ltb_spec 0 (key_len k)) as [Hk|Hk]; cbn [negb].
  2: { exists acc, a, c, P. split; [done|]. split; [by apply reorg_refl|]. split; [apply Hstop; lia|done]. }
  specialize (Hck Hk). destruct (children x !! ck) as [m|] eqn:Hm.
  2: { exists acc, a, c, P. split; [done|]. split; [by apply reorg_refl|]. split; [by apply Hstop|done]. }
  clear Hstop. set (c1 := upd m (touch t) c).
  assert (R1 : reorg c P H c1 P) by (apply reorg_upd; [apply touch_neutral|done]).
  pose proof (ro_ok _ _ _ _ _ R1) as Hok1. pose proof (reorg_cursor _ _ _ _ _ _ _ _ _ R1 Hcu) as Hcu1.
  assert (Hx1 : ∃ x1, heap c1 !! a = Some x1 ∧ children x1 !! ck = Some m).
  { unfold c1, upd. cbn. destruct (decide (a = m)) as [->|Ha].
    - rewrite lookup_alter_eq, Hx. cbn. by eexists.
    - rewrite lookup_alter_ne by done. by exists x. }
  destruct Hx1 as (x1 & Hx1 & Hm1).
  destruct (cursor_child Hok1 Hcu1 x1 ck m Hx1 Hk Hck Hm1) as (y & v & l & B & Hmatch).
  rewrite (get_Some _ _ _ (br_node _ _ _ _ B)). cbn [mbind result_bind]. change (page_size c) with (page_size c1). rewrite Hmatch. cbn [mbind result_bind].
  destruct (br_pages _ _ _ _ B) as (B1 & B2 & B3 & B4). pose proof (cursor_ps Hok1) as Hps.
  destruct (br_value _ _ _ _ B) as [Hv Hvl]. destruct (Nat.ltb_spec l (key_len (key y))) as [Hl|Hl].
  - destruct (split_node_spec monotonic c1 P H m l y Hok1 (br_root _ _ _ _ B) (br_node _ _ _ _ B)) as (c2 & P2 & Hsp & S); [lia|lia|done|].
    rewrite Hsp. cbn [mbind result_bind]. pose proof (sr_reorg _ _ _ _ _ _ _ _ S) as R2.
    pose proof (split_branch_path B S) as HPid. pose proof (split_stuck Hok1 Hcu1 B S) as Hst.
    destruct (sr_new _ _ _ _ _ _ _ _ S) as (p & v' & new & ck' & _ & Hv' & Hnew & Hnv & Hns & _).
    assert (v' = v) as -> by congruence. rewrite (get_Some _ _ _ Hnew). cbn [mbind result_bind]. rewrite Hnv. cbn [mbind result_bind].
    exists (acc ++ [take l v]), (counter c1), c2, P2. split; [done|]. split; [by eapply reorg_trans|]. split; [split; [|rewrite HPid; cbn|done]|].
    + exists new. split; [done|right]. rewrite Hns. apply B.
    + rewrite <- (cu_path _ _ _ _ _ _ Hcu). exists (drop l (key_iter k)). rewrite <- app_assoc. by rewrite take_drop.
    + rewrite HPid, concat_app, Hacc. cbn. by rewrite app_nil_r.
  - rewrite Hv. cbn [mbind result_bind]. assert (l = key_len (key y)) as El by lia.
    destruct (cursor_step Hcu1 m y v l B El) as [Hcu2 HPm]. set (k2 := key_slice k l (key_len k)) in *.
    assert (Hck2 : ∃ ck2, (if 0 <? key_len k2 then child_key k2 (page_size c1) else Ok ck) = Ok ck2 ∧
      (0 < key_len k2 → child_key k2 (page_size c1) = Ok ck2)).
    { destruct (Nat.ltb_spec 0 (key_len k2)) as [Hk2|Hk2]; [|exists ck; split; [done|lia]].
      destruct (child_key_total k2 (page_size c1) Hps (cursor_page Hok1 Hcu2 Hk2)) as [ck2 E]. by exists ck2. }
    destruct Hck2 as (ck2 & -> & Hck2). cbn [mbind result_bind].
    destruct (IH c1 P m k2 ck2 (acc ++ [v]) Hok1 Hcu2 Hck2) as (acc' & b & c' & P' & Hrun & R & Har & Hcat).
    + rewrite concat_app, Hacc, HPm. cbn. by rewrite app_nil_r.
    + unfold k2. rewrite key_slice_len, Nat.min_id. lia.
    + exists acc', b, c', P'. split; [done|]. split; [by eapply reorg_trans|]. done.
Qed.
End walk.

(** ** Equal units are cached at equal indices *)

Lemma prefix_take {A} (l k : list A) n : l `prefix_of` k → n ≤ length l → take n k = take n l.
Proof. intros [w ->] Hn. by rewrite take_app_le. Qed.

Lemma take_length_take {A} (l us : list A) m : us = take m l → take (length us) l = us.
Proof. intros ->. rewrite length_take, <- take_take. by rewrite (take_ge l (length l)). Qed.

Lemma paths_agree ps root h P N n y :
  tree_ok ps root h P → h !! n = Some y → ns (key y) = N →
  ∀ a x, h !! a = Some x → a = root ∨ ns (key x) = N →
  let l := page_floor ps (lcp (P a).1 (P n).1) in take l (P a).2 = take l (P n).2.
Proof.
  intros Ht Hy HNy. pose proof (tree_ps _ _ _ _ Ht) as Hps. enough (Hgen : ∀ a x, h !! a = Some x → ∀ x, h !! a = Some x →
    a = root ∨ ns (key x) = N → ∀ l, (ps | l) → l ≤ lcp (P a).1 (P n).1 → take l (P a).2 = take l (P n).2).
  { intros a x Hx HN l. apply (Hgen a x Hx x Hx HN l); [apply page_floor_divide|by apply page_floor_le]. }
  apply (tree_ind Ht (λ a, ∀ x, h !! a = Some x → a = root ∨ ns (key x) = N → ∀ l, (ps | l) → l ≤ lcp (P a).1 (P n).1 →
    take l (P a).2 = take l (P n).2)).
  - intros x _ _ l _ Hl. destruct (tree_root _ _ _ _ Ht) as (r & _ & _ & _ & _ & E). rewrite E in Hl. cbn in Hl.
    by replace l with 0 by lia.
  - intros a x p px Ha Hx Hp He IH x' Hx' HN l [q ->] Hl. assert (x' = x) as -> by congruence. destruct HN as [?|HN]; [done|].
    destruct (edge_path _ _ _ He) as (Ll1 & Ll2 & Pp1 & Pp2). destruct (edge_len _ _ _ _ _ _ _ He) as [Hkl Hkd].
    destruct (path_lengths Ht p px Hp) as [Hlp [qp Hqp]]. destruct (lcp_le (P a).1 (P n).1) as [L1 L2].
    destruct (edge_link _ _ _ _ _ _ _ He) as (px' & ck & Hp' & _ & _ & Hnsp). assert (px' = px) as -> by congruence.
    assert (Hpn : p = root ∨ ns (key px) = N).
    { destruct (decide (p = root)) as [|Hpr]; [by left|right]. rewrite <- HN. symmetry. by apply Hnsp. }
    assert (Htk : take (q * ps) (P a).1 = take (q * ps) (P n).1).
    { pose proof (lcp_take (P a).1 (P n).1) as E. apply (f_equal (take (q * ps))) in E.
      by rewrite !take_take, !Nat.min_l in E by done. }
    destruct (decide (q ≤ qp)) as [Hq|Hq].
    + assert (Hqle : q * ps ≤ length (P p).1) by nia.
      rewrite (prefix_take _ _ _ Pp2) by lia. apply (IH px Hp Hpn); [by exists q|].
      rewrite (prefix_take _ _ _ Pp1) in Htk by done. by apply lcp_ge; [|lia|].
    + assert (Hge : length (P p).1 + ps ≤ q * ps) by nia.
      assert (Hpre : (P p).1 `prefix_of` (P n).1).
      { exists (drop (length (P p).1) (P n).1). rewrite <- (take_drop (length (P p).1) (P n).1) at 1. f_equal.
        apply (f_equal (take (length (P p).1))) in Htk. rewrite !take_take, !Nat.min_l in Htk by lia.
        rewrite <- Htk, (prefix_take _ _ _ Pp1) by done. by rewrite take_ge. }
      assert (Hanc : anc p n (root := root) (h := h)).
      { eapply (prefix_anc Ht); [done|done| |done]. destruct Hpn as [|Hpn]; [by left|right; congruence]. }
      destruct (anc_child p n Hanc) as (c & z & Hc & Hz & Hzp & Hcn); [intros ->; lia|].
      destruct (tree_edge _ _ _ _ Ht c z Hc Hz) as (p' & Hec). pose proof (edge_parent _ _ _ _ _ _ _ Hec) as Hzp'.
      assert (p' = p) as -> by congruence.
      assert (c = a) as ->.
      { apply (child_unique Ht p c a z x Hec He).
        - rewrite HN, <- HNy. by eapply (anc_ns Ht).
        - rewrite <- (child_units c z p (P n).1 Hec), <- (child_units a x p (P a).1 He) by (done || by apply (anc_prefix_path Ht)).
          destruct (edge_len _ _ _ _ _ _ _ Hec). rewrite !take_take, !Nat.min_l, !take_drop_commute by done. f_equal.
          apply (f_equal (take (length (P p).1 + ps))) in Htk. by rewrite !take_take, !Nat.min_l in Htk by lia. }
      destruct (anc_prefix_path Ht a n Hcn) as [_ Hpre2]. symmetry. apply prefix_take; [done|]. lia.
Qed.

Lemma content_functional c P H N us vs vs' :
  cache_ok c P H → (page_size c | length us) → content c P N us vs → content c P N us vs' → vs = vs'.
Proof.
  intros Hok Hdiv (n & x & m & Hn & Hx & HN & Hus & ->) (n' & x' & m' & Hn' & Hx' & HN' & Hus' & ->).
  pose proof (co_tree _ _ _ Hok) as Ht. destruct (path_lengths Ht n x Hx) as [E _], (path_lengths Ht n' x' Hx') as [E' _].
  pose proof (paths_agree _ _ _ P N n' x' Ht Hx' HN' n x Hx (or_intror HN)) as Hag. cbv zeta in Hag.
  assert (Hm : take m (P n).2 = take (length us) (P n).2).
  { rewrite Hus, length_take, E. destruct (Nat.le_ge_cases m (length (P n).2)); [by rewrite Nat.min_l|].
    rewrite Nat.min_r, !take_ge; lia || done. }
  assert (Hm' : take m' (P n').2 = take (length us) (P n').2).
  { rewrite Hus', length_take, E'. destruct (Nat.le_ge_cases m' (length (P n').2)); [by rewrite Nat.min_l|].
    rewrite Nat.min_r, !take_ge; lia || done. }
  rewrite Hm, Hm'. assert (L : length us ≤ length (P n).1) by (rewrite Hus, length_take; lia).
  assert (L' : length us ≤ length (P n').1) by (rewrite Hus', length_take; lia).
  assert (U : take (length us) (P n).1 = us) by (by eapply take_length_take).
  assert (U' : take (length us) (P n').1 = us) by (by eapply take_length_take).
  assert (Hle : length us ≤ page_floor (page_size c) (lcp (P n).1 (P n').1)).
  { apply page_floor_ge; [apply Ht|done|]. apply lcp_ge; [done|done|congruence]. }
  apply (f_equal (take (length us))) in Hag. by rewrite !take_take, !Nat.min_l in Hag by done.
Qed.

(** ** [match_prefix] *)

(** The key a request is looked up and stored with. *)
Definition lookup_key (c : Cache) (k : RadixKey) : RadixKey :=
  page_aligned (maybe_to_bigram_view k (is_eagle c) None).1 (page_size c).

Lemma bigram_view_key k b v : (maybe_to_bigram_view k b v).1 = (maybe_to_bigram_view k b None).1.
Proof. unfold maybe_to_bigram_view. by destruct (b && _). Qed.

Lemma page_aligned_ok k ps : 0 < ps → key_ok k →
  key_ok (page_aligned k ps) ∧ (ps | key_len (page_aligned k ps)) ∧ key_len (page_aligned k ps) ≤ key_len k.
Proof.
  intros Hps Hk. unfold page_aligned. destruct (Nat.eqb_spec ps 1) as [->|]; [split_and!; [done|apply Nat.divide_1_l|done]|].
  split; [by apply key_slice_ns|]. rewrite key_slice_len. pose proof (page_floor_le ps (key_len k) Hps) as Hle. unfold page_floor in Hle.
  rewrite Nat.min_l, Nat.sub_0_r by done. split; [by eexists|done].
Qed.

Lemma lookup_key_ok c k : 0 < page_size c → key_ok k →
  key_ok (lookup_key c k) ∧ (page_size c | key_len (lookup_key c k)).
Proof.
  intros Hps Hk. unfold lookup_key.
  destruct (page_aligned_ok (maybe_to_bigram_view k (is_eagle c) None).1 (page_size c) Hps) as (? & ? & _); [|done].
  unfold maybe_to_bigram_view. by destruct (is_eagle c && _).
Qed.

Lemma root_cursor c P H k : cache_ok c P H → key_ok k → (page_size c | key_len k) →
  cursor c P (ns k) (key_iter k) (root_node c) k.
Proof.
  intros Hok Hk Hd. destruct (tree_root _ _ _ _ (co_tree _ _ _ Hok)) as (r & Hr & _ & _ & _ & HP).
  split; [exists r; split; [done|by left]|by rewrite HP|done..].
Qed.

Lemma content_length c P H N us vs : cache_ok c P H → content c P N us vs → length vs = length us.
Proof.
  intros Hok (n & x & m & _ & Hx & _ & -> & ->). destruct (path_lengths (co_tree _ _ _ Hok) n x Hx) as [E _].
  rewrite !length_take. lia.
Qed.

(** A page-aligned cached prefix of the query is not longer than the arrival. *)
Lemma arrived_longest c P H N K b m vs :
  cache_ok c P H → arrived c P N K b → (page_size c | m) → m ≤ length K → content c P N (take m K) vs →
  m ≤ length (P b).2 ∧ vs = take m (P b).2.
Proof.
  intros Hok [(z & Hz & HN) Hpre Hst] Hdiv HmK Hc. destruct (path_lengths (co_tree _ _ _ Hok) b z Hz) as [E _].
  pose proof (tree_ps _ _ _ _ (co_tree _ _ _ Hok)) as Hps. pose proof Hc as (n & x & j & Hn & Hx & HNx & Hus & Hvs).
  assert (Hm : length (take m K) = m) by (rewrite length_take; lia).
  pose proof (take_length_take _ _ _ Hus) as Ht. rewrite Hm in Ht.
  assert (Hmn : m ≤ length (P n).1) by (rewrite <- Hm, Hus, length_take; lia).
  assert (Hle : m ≤ length (P b).1).
  { etrans; [|by apply (Hst n x)]. apply page_floor_ge; [done|done|]. by apply lcp_ge. }
  split; [lia|]. destruct (decide (m = 0)) as [->|Hm0].
  - pose proof (content_length _ _ _ _ _ _ Hok Hc) as Hl. cbn in Hl. by destruct vs.
  - eapply (content_functional c P H N (take m K)); [done|by rewrite Hm|exact Hc|].
    exists b, z, m. destruct HN as [->|HN].
    + destruct (tree_root _ _ _ _ (co_tree _ _ _ Hok)) as (r & _ & _ & _ & _ & EP). rewrite EP in Hle. cbn in Hle. lia.
    + split_and!; try done.
      * intros ->. destruct (tree_root _ _ _ _ (co_tree _ _ _ Hok)) as (r & _ & _ & _ & _ & EP). rewrite EP in Hle. cbn in Hle. lia.
      * destruct Hpre as [w ->]. by rewrite take_app_le.
Qed.

Lemma arrived_content c P H N K b :
  cache_ok c P H → arrived c P N K b →
  (page_size c | length (P b).2) ∧ length (P b).2 ≤ length K ∧
  (0 < length (P b).2 → content c P N (take (length (P b).2) K) (P b).2).
Proof.
  intros Hok [(z & Hz & HN) Hpre Hst]. destruct (path_lengths (co_tree _ _ _ Hok) b z Hz) as [E Hd].
  rewrite <- E. split; [done|]. split; [by apply prefix_length|]. intros Hpos.
  assert (Hb : b ≠ root_node c).
  { intros ->. destruct (tree_root _ _ _ _ (co_tree _ _ _ Hok)) as (r & _ & _ & _ & _ & EP). rewrite EP in Hpos. cbn in Hpos. lia. }
  destruct HN as [?|HN]; [done|]. exists b, z, (length (P b).1). split_and!; try done.
  - destruct Hpre as [w ->]. rewrite take_app_length. by rewrite take_ge.
  - rewrite E. by rewrite take_ge.
Qed.

Lemma reorg_tick c P H : cache_ok c P H → reorg c P H (tick c) P.
Proof.
  intros Hok. split; try done; [|apply (similar_keeps c (tick c)); by intros n].
  by apply (cache_ok_similar c).
Qed.

Section match_prefix.
Variable monotonic : nat → Z.

(** The helper, on a page-aligned key that is not empty. *)
Lemma match_prefix_helper_spec c P H k :
  cache_ok c P H → key_ok k → (page_size c | key_len k) → 0 < key_len k →
  ∃ acc b c' P', match_prefix_helper monotonic (root_node c) k c = Ok (acc, b, c') ∧ reorg c P H c' P' ∧
    arrived c' P' (ns k) (key_iter k) b ∧ concat acc = (P' b).2.
Proof.
  intros Hok Hk Hd Hpos. unfold match_prefix_helper. set (t := monotonic (ticks c)).
  set (c1 := upd (root_node c) (touch t) (tick c)).
  assert (R1 : reorg c P H c1 P).
  { eapply reorg_trans; [by apply reorg_tick|]. apply reorg_upd; [apply touch_neutral|by eapply reorg_tick]. }
  pose proof (ro_ok _ _ _ _ _ R1) as Hok1. pose proof (root_cursor c1 P H k Hok1 Hk Hd) as Hcu.
  destruct (child_key_total k (page_size c1) (cursor_ps Hok1) (cursor_page Hok1 Hcu Hpos)) as [ck Hck].
  change (page_size c) with (page_size c1). rewrite Hck. cbn [mbind result_bind].
  destruct (match_loop_spec monotonic (S (key_len k)) t c1 P H (ns k) (key_iter k) (root_node c1) k ck [])
    as (acc & b & c' & P' & Hrun & R & Har & Hcat); [done|done|done| |lia|].
  - destruct (tree_root _ _ _ _ (co_tree _ _ _ Hok1)) as (r & _ & _ & _ & _ & E). by rewrite E.
  - exists acc, b, c', P'. split; [done|]. split; [by eapply reorg_trans|]. done.
Qed.

Lemma empty_arrived c P H N : cache_ok c P H → arrived c P N [] (root_node c).
Proof.
  intros Hok. destruct (tree_root _ _ _ _ (co_tree _ _ _ Hok)) as (r & Hr & _ & _ & _ & HP).
  split; [exists r; split; [done|by left]|by rewrite HP|]. intros n y _ _ _.
  pose proof (page_floor_le (page_size c) (lcp (P n).1 []) (tree_ps _ _ _ _ (co_tree _ _ _ Hok))).
  destruct (lcp_le (P n).1 []). cbn in *. lia.
Qed.

Lemma match_prefix_spec c P H k :
  cache_ok c P H → key_ok k → disable c = false →
  let q := lookup_key c k in
  ∃ r c' P', match_prefix monotonic k c = Ok (r, c') ∧ reorg c P H c' P' ∧
    arrived c' P' (ns q) (key_iter q) (last_device_node r) ∧ device_indices r = (P' (last_device_node r)).2.
Proof.
  intros Hok Hk Hdis q. pose proof (tree_ps _ _ _ _ (co_tree _ _ _ Hok)) as Hps.
  destruct (lookup_key_ok c k Hps Hk) as [Hq Hd]. fold q in Hq, Hd.
  assert (Hempty : key_len q = 0 → ∃ c' P', Ok (mkMatch [] (root_node c), c) = Ok (mkMatch [] (root_node c), c') ∧ reorg c P H c' P' ∧
    arrived c' P' (ns q) (key_iter q) (root_node c) ∧ [] = (P' (root_node c)).2).
  { intros E. exists c, P. split; [done|]. split; [by apply reorg_refl|].
    assert (key_iter q = []) as -> by (apply length_zero_iff_nil; by rewrite key_len_iter).
    split; [by eapply empty_arrived|]. by destruct (tree_root _ _ _ _ (co_tree _ _ _ Hok)) as (r & _ & _ & _ & _ & ->). }
  unfold match_prefix. unfold q, lookup_key in *. destruct (maybe_to_bigram_view k (is_eagle c) None) as [k' v']. cbn [fst] in *.
  rewrite Hdis. cbn [orb]. destruct (Nat.eqb_spec (key_len k') 0) as [E|E].
  { destruct Hempty as (c' & P' & H1 & H2); [|by eexists _, c', P'].
    unfold page_aligned. destruct (page_size c =? 1); [done|]. rewrite key_slice_len. lia. }
  destruct (Nat.eqb_spec (key_len (page_aligned k' (page_size c))) 0) as [E'|E'].
  { destruct (Hempty E') as (c' & P' & H1 & H2). by eexists _, c', P'. }
  clear Hempty. destruct (match_prefix_helper_spec c P H (page_aligned k' (page_size c)) Hok Hq Hd ltac:(lia))
    as (acc & b & c' & P' & Hrun & R & Har & Hcat).
  rewrite Hrun. cbn [mbind result_bind]. exists (mkMatch (concat acc) b), c', P'. done.
Qed.
End match_prefix.
