(* ===== verification/RadixInsert.v ===== *)
(** * RadixInsert: storing a sequence in the prefix cache

    [update_leaf_status] and [insert] of [RadixTree]: the walk keeps what is cached, then one
    new leaf stores the part of the sequence that was missing. *)

From S2P Require Import Prelude RadixKey RadixTree RadixInv RadixSplit RadixMatch.
#[local] Open Scope nat_scope.

(** ** The set of evictable leaves *)

Lemma child_ids_nil x : child_ids x = [] ↔ children x = ∅.
Proof.
  unfold child_ids. rewrite <- (map_to_list_empty_iff (children x)). split; [by intros ?%fmap_nil_inv|by intros ->].
Qed.

Lemma child_ids_elem x m : m ∈ child_ids x ↔ ∃ ck, children x !! ck = Some m.
Proof.
  unfold child_ids. rewrite list_elem_of_fmap. split.
  - intros ([ck m'] & -> & Hm%elem_of_map_to_list). by exists ck.
  - intros (ck & Hm). exists (ck, m). split; [done|]. by apply elem_of_map_to_list.
Qed.

(** [update_leaf_status n] decides the membership of [n] and of no other node. *)
Lemma update_leaf_status_spec c n x :
  heap c !! n = Some x → value x ≠ None → (0 ≤ lock_ref x)%Z →
  (∀ ck m, children x !! ck = Some m → ∃ y, heap c !! m = Some y ∧ value y ≠ None) →
  ∃ L, update_leaf_status n c = Ok (set_leaves (λ _, L) c) ∧
    ∀ m, m ∈ L ↔ (m = n ∧ lock_ref x = 0%Z ∧ children x = ∅) ∨ (m ≠ n ∧ m ∈ evictable_leaves c).
Proof.
  intros Hx Hv Hl Hkids. unfold update_leaf_status. rewrite (get_Some _ _ _ Hx). cbn [mbind result_bind].
  unfold evicted. rewrite bool_decide_eq_false_2 by done. cbn [orb]. destruct (Z.ltb_spec 0 (lock_ref x)) as [Hlt|Hge].
  { exists (evictable_leaves c ∖ {[n]}). split; [done|]. intros m. rewrite elem_of_difference, elem_of_singleton.
    split; [naive_solver|]. intros [(_ & ? & _)|?]; [lia|naive_solver]. }
  assert (Hlive : live_child c (child_ids x) = Ok (bool_decide (children x ≠ ∅))).
  { destruct (child_ids x) as [|i l] eqn:E.
    - cbn. rewrite bool_decide_eq_false_2; [done|]. apply child_ids_nil in E. by intros [].
    - assert (∃ ck, children x !! ck = Some i) as [ck Hi] by (apply child_ids_elem; rewrite E; by left).
      destruct (Hkids ck i Hi) as (y & Hy & Hyv). cbn. rewrite (get_Some _ _ _ Hy). cbn. unfold evicted.
      rewrite bool_decide_eq_false_2, bool_decide_eq_true_2; [done| |done]. intros E0. by rewrite E0, lookup_empty in Hi. }
  rewrite Hlive. cbn [mbind result_bind]. unfold mark_leaf. case_bool_decide as Hc.
  - exists (evictable_leaves c ∖ {[n]}). split; [done|]. intros m. rewrite elem_of_difference, elem_of_singleton. naive_solver.
  - exists ({[n]} ∪ evictable_leaves c). split; [done|]. intros m. rewrite elem_of_union, elem_of_singleton.
    assert (children x = ∅) by (by destruct (decide (children x = ∅))). assert (lock_ref x = 0%Z) by lia.
    destruct (decide (m = n)); naive_solver.
Qed.

(** Every node of a tree holds a value. *)
Lemma tree_value ps root h P n x : tree_ok ps root h P → h !! n = Some x → value x ≠ None.
Proof.
  intros Ht Hx. destruct (decide (n = root)) as [->|Hn].
  - destruct (tree_root _ _ _ _ Ht) as (r & Hr & _ & Hv & _). assert (x = r) as -> by congruence. by rewrite Hv.
  - destruct (tree_edge _ _ _ _ Ht n x Hn Hx) as (p & He). destruct (edge_value _ _ _ _ _ _ _ He) as (v & Hv & _). by rewrite Hv.
Qed.

Lemma node_value c P H n x : cache_ok c P H → heap c !! n = Some x → value x ≠ None.
Proof. intros Hok. by apply (tree_value _ _ _ _ _ _ (co_tree _ _ _ Hok)). Qed.

(** ** The walk of [insert] *)

Section walk.
Variable monotonic : nat → Z.

Lemma insert_loop_spec fuel t c P H N K V a k ck v p chunked :
  cache_ok c P H → cursor c P N K a k → (0 < key_len k → child_key k (page_size c) = Ok ck) →
  v = drop (length (P a).1) V → key_len k < fuel →
  ∃ b k' ck' c' P', let total := length (P' b).1 in
    insert_loop monotonic fuel t a k ck v p chunked (length (P a).1) c = Ok (b, k', ck', drop total V, total, c') ∧
    reorg c P H c' P' ∧ cursor c' P' N K b k' ∧ stuck c' P' N K b ∧
    (0 < key_len k' → child_key k' (page_size c) = Ok ck' ∧ ∀ z, heap c' !! b = Some z → children z !! ck' = None).
Proof.
  revert c P a k ck v. induction fuel as [|fuel IH]; intros c P a k ck v Hok Hcu Hck Hv Hf; [lia|].
  destruct (cu_node _ _ _ _ _ _ Hcu) as (x & Hx & HN). cbn [insert_loop]. rewrite (get_Some _ _ _ Hx). cbn [mbind result_bind].
  assert (Hstop : (0 < key_len k → children x !! ck = None) →
    ∃ b k' ck' c' P', let total := length (P' b).1 in
      Ok (a, k, ck, v, length (P a).1, c) = Ok (b, k', ck', drop total V, total, c') ∧
      reorg c P H c' P' ∧ cursor c' P' N K b k' ∧ stuck c' P' N K b ∧
      (0 < key_len k' → child_key k' (page_size c) = Ok ck' ∧ ∀ z, heap c' !! b = Some z → children z !! ck' = None)).
  { intros Hno. exists a, k, ck, c, P. cbv zeta. split; [by rewrite Hv|]. split; [by apply reorg_refl|]. split; [done|].
    split; [by eapply cursor_stuck|]. intros Hk. split; [by apply Hck|]. intros z Hz. assert (z = x) as -> by congruence. by apply Hno. }
  destruct (Nat.ltb_spec 0 (key_len k)) as [Hk|Hk]; cbn [negb]; [|apply Hstop; lia].
  specialize (Hck Hk). destruct (children x !! ck) as [m|] eqn:Hm; [|by apply Hstop].
  clear Hstop. set (c1 := upd m (touch t) c).
  assert (R1 : reorg c P H c1 P) by (apply reorg_upd; [apply touch_neutral|done]).
  pose proof (ro_ok _ _ _ _ _ R1) as Hok1. pose proof (reorg_cursor _ _ _ _ _ _ _ _ _ R1 Hcu) as Hcu1.
  assert (Hx1 : ∃ x1, heap c1 !! a = Some x1 ∧ children x1 !! ck = Some m).
  { unfold c1, upd. cbn. destruct (decide (a = m)) as [->|Ha].
    - rewrite lookup_alter_eq, Hx. cbn. by eexists.
    - rewrite lookup_alter_ne by done. by exists x. }
  destruct Hx1 as (x1 & Hx1 & Hm1).
  destruct (cursor_child Hok1 Hcu1 x1 ck m Hx1 Hk Hck Hm1) as (y & w & l & B & Hmatch).
  rewrite (get_Some _ _ _ (br_node _ _ _ _ B)). cbn [mbind result_bind]. change (page_size c) with (page_size c1).
  rewrite Hmatch. cbn [mbind result_bind].
  enough (Hmove : ∃ b c2 P2, (if l <? key_len (key y) then
        '(new, c) ← split_node monotonic (key y) m l c1; Ok (new, upd new (inc_hit_count chunked) (upd new (raise_priority p) c))
      else Ok (m, upd m (inc_hit_count chunked) (upd m (raise_priority p) c1))) = Ok (b, c2) ∧
    reorg c1 P H c2 P2 ∧ cursor c2 P2 N K b (key_slice k l (key_len k)) ∧ length (P2 b).1 = length (P a).1 + l).
  - destruct Hmove as (b & c2 & P2 & -> & R2 & Hcu2 & Hlen). cbn [mbind result_bind].
    destruct (br_pages _ _ _ _ B) as (B1 & B2 & B3 & B4). pose proof (cursor_ps Hok1) as Hps.
    pose proof (ro_ok _ _ _ _ _ R2) as Hok2. set (k2 := key_slice k l (key_len k)) in *.
    pose proof (fr_ps _ _ (ro_frame _ _ _ _ _ R2)) as Eps. rewrite <- Eps.
    assert (Hck2 : ∃ ck2, (if 0 <? key_len k2 then child_key k2 (page_size c2) else Ok ck) = Ok ck2 ∧
      (0 < key_len k2 → child_key k2 (page_size c2) = Ok ck2)).
    { destruct (Nat.ltb_spec 0 (key_len k2)) as [Hk2|Hk2]; [|exists ck; split; [done|lia]].
      destruct (child_key_total k2 (page_size c2) ltac:(by rewrite Eps) (cursor_page Hok2 Hcu2 Hk2)) as [ck2 E]. by exists ck2. }
    destruct Hck2 as (ck2 & -> & Hck2). cbn [mbind result_bind]. rewrite <- Hlen.
    destruct (IH c2 P2 b k2 ck2 (drop l v) Hok2 Hcu2 Hck2) as (b' & k' & ck' & c' & P' & Hrun & R & Hrest).
    + rewrite Hlen, Hv, drop_drop. done.
    + unfold k2. rewrite key_slice_len, Nat.min_id. lia.
    + exists b', k', ck', c', P'. cbv zeta in *. split; [done|]. split; [do 2 (eapply reorg_trans; [eassumption|]); exact R|done].
  - destruct (br_pages _ _ _ _ B) as (B1 & B2 & B3 & B4). destruct (Nat.ltb_spec l (key_len (key y))) as [Hl|Hl].
    + destruct (split_node_spec monotonic c1 P H m l y Hok1 (br_root _ _ _ _ B) (br_node _ _ _ _ B)) as (c2 & P2 & Hsp & S);
        [pose proof (cursor_ps Hok1); lia|lia|done|].
      rewrite Hsp. cbn [mbind result_bind]. pose proof (sr_reorg _ _ _ _ _ _ _ _ S) as R2.
      pose proof (reorg_upd (counter c1) (raise_priority p) c2 P2 H (raise_priority_neutral p) (ro_ok _ _ _ _ _ R2)) as R3.
      pose proof (reorg_upd (counter c1) (inc_hit_count chunked) _ P2 H (inc_hit_count_neutral chunked) (ro_ok _ _ _ _ _ R3)) as R4.
      eexists _, _, P2. split; [done|]. split; [do 2 (eapply reorg_trans; [eassumption|]); exact R4|].
      split; [|rewrite (split_branch_path B S); cbn; rewrite length_app, length_take, key_len_iter; lia].
      eapply reorg_cursor; [exact R4|]. eapply reorg_cursor; [exact R3|]. by eapply split_cursor.
    + pose proof (reorg_upd m (raise_priority p) c1 P H (raise_priority_neutral p) Hok1) as R3.
      pose proof (reorg_upd m (inc_hit_count chunked) _ P H (inc_hit_count_neutral chunked) (ro_ok _ _ _ _ _ R3)) as R4.
      eexists _, _, P. split; [done|]. split; [by eapply reorg_trans|].
      destruct (cursor_step Hcu1 m y w l B ltac:(lia)) as [Hcu2 _]. split.
      * eapply reorg_cursor; [exact R4|]. by eapply reorg_cursor.
      * destruct (edge_path _ _ _ (br_edge _ _ _ _ B)) as [-> _]. lia.
Qed.
End walk.

(** ** A new leaf *)

Record graft (c : Cache) (P : paths) (N : namespace) (K : list PyVal) (b : nat) (z new : TreeNode) (k : RadixKey)
    (ck : PyVal) (v : list Z) : Prop := {
  gr_cursor : cursor c P N K b k;
  gr_node : heap c !! b = Some z;
  gr_len : 0 < key_len k;
  gr_ck : child_key k (page_size c) = Ok ck;
  gr_free : children z !! ck = None;
  gr_value : length v = key_len k;
  gr_new : skeleton new = (∅, Some b, k, Some v) ∧ lock_ref new = 0%Z;
}.

Section graft.
Context {c : Cache} {P : paths} {H : holders} (Hok : cache_ok c P H).
Context {N : namespace} {K : list PyVal} {b : nat} {z new : TreeNode} {k : RadixKey} {ck : PyVal} {v : list Z}.
Hypothesis G : graft c P N K b z new k ck v.

Let id := counter c.
Definition graft_heap : gmap nat TreeNode := <[b := set_children (λ m, <[ck := id]> m) z]> (<[id := new]> (heap c)).
Definition graft_paths : paths := λ m, if decide (m = id) then (K, (P b).2 ++ v) else P m.

Lemma graft_ne : b ≠ id ∧ root_node c ≠ id ∧ page_size c ≤ key_len k.
Proof.
  pose proof (fresh_none _ _ _ Hok) as Hid. destruct (tree_root _ _ _ _ (co_tree _ _ _ Hok)) as (r & Hr & _).
  pose proof (gr_node _ _ _ _ _ _ _ _ _ _ G). unfold id. split_and!; [congruence|congruence|].
  apply (cursor_page Hok (gr_cursor _ _ _ _ _ _ _ _ _ _ G)), (gr_len _ _ _ _ _ _ _ _ _ _ G).
Qed.

Lemma graft_lookup m : graft_heap !! m =
  if decide (m = b) then Some (set_children (λ m, <[ck := id]> m) z)
  else if decide (m = id) then Some new else heap c !! m.
Proof. unfold graft_heap. destruct graft_ne as (? & ? & _). repeat case_decide; subst; by simplify_map_eq. Qed.

Lemma graft_old m y : heap c !! m = Some y → ∃ y', graft_heap !! m = Some y' ∧ graft_paths m = P m ∧
  parent y' = parent y ∧ key y' = key y ∧ value y' = value y ∧ lock_ref y' = lock_ref y ∧
  (m ≠ b → y' = y) ∧ (m = b → children y' = <[ck := id]> (children z)).
Proof.
  intros Hy. assert (m ≠ id) as Hm by (intros ->; pose proof (fresh_none _ _ _ Hok); unfold id in Hy; congruence).
  assert (graft_paths m = P m) as -> by (unfold graft_paths; by rewrite decide_False).
  rewrite graft_lookup. destruct (decide (m = b)) as [->|Hb]; [|rewrite decide_False by done; by exists y].
  pose proof (gr_node _ _ _ _ _ _ _ _ _ _ G). assert (y = z) as -> by congruence. by eexists.
Qed.

Lemma graft_new : graft_heap !! id = Some new ∧ graft_paths id = (K, (P b).2 ++ v).
Proof.
  destruct graft_ne as (? & ? & _). rewrite graft_lookup, decide_False, decide_True by done.
  unfold graft_paths. by rewrite decide_True.
Qed.

Lemma graft_inv m y' : graft_heap !! m = Some y' → (m = id ∧ y' = new) ∨ ∃ y, heap c !! m = Some y ∧ m ≠ id.
Proof.
  rewrite graft_lookup. pose proof (gr_node _ _ _ _ _ _ _ _ _ _ G). destruct graft_ne as (? & ? & _).
  destruct (decide (m = b)) as [->|]; [intros _; right; by exists z|].
  destruct (decide (m = id)) as [->|]; [intros [= <-]; by left|]. intros Hy. right. by exists y'.
Qed.

Lemma graft_edge_new : edge_ok (page_size c) (root_node c) graft_heap graft_paths id new b.
Proof.
  destruct graft_ne as (Hb & Hr & Hps). destruct G as [Gc Gn Gl Gk Gf Gv [Gs _]]. injection Gs as Ec Ep Ek Ev.
  destruct (graft_old b z Gn) as (z' & Hz' & EP & E1 & E2 & E3 & _ & _ & E4). destruct graft_new as [_ EPn].
  split; [done| | |rewrite Ek; split; [done|apply Gc]|rewrite Ek; apply Gc].
  - exists z', ck. rewrite Ek, E4 by done. split_and!; [done|done|by rewrite lookup_insert_eq|].
    intros Hbr. rewrite E2. destruct (cu_node _ _ _ _ _ _ Gc) as (z0 & Hz0 & HN). assert (z0 = z) as -> by congruence.
    destruct HN as [?|HN]; [done|]. rewrite HN. apply Gc.
  - exists v. rewrite Ek, EPn, EP. split_and!; [done|done|]. by rewrite (cu_path _ _ _ _ _ _ Gc).
Qed.

Lemma graft_edge_old m y p : m ≠ root_node c → heap c !! m = Some y →
  edge_ok (page_size c) (root_node c) (heap c) P m y p →
  ∃ y', graft_heap !! m = Some y' ∧ edge_ok (page_size c) (root_node c) graft_heap graft_paths m y' p.
Proof.
  intros Hm Hy [F1 (px & cq & Hp & Hcq & Hpc & Hns) F3 F4 F5].
  destruct (graft_old m y Hy) as (y' & Hy' & EP & E1 & E2 & E3 & _).
  destruct (graft_old p px Hp) as (px' & Hp' & EPp & Ep1 & Ep2 & Ep3 & _ & Ep4 & Ep5).
  exists y'. split; [done|]. split; [congruence| |rewrite E2, E3, EP, EPp; done|by rewrite E2|by rewrite E2].
  exists px', cq. rewrite E2, Ep2. split_and!; try done. destruct (decide (p = b)) as [->|Hpb]; [|by rewrite Ep4].
  pose proof (gr_node _ _ _ _ _ _ _ _ _ _ G). assert (px = z) as -> by congruence. rewrite Ep5 by done.
  rewrite lookup_insert_ne; [done|]. intros <-. pose proof (gr_free _ _ _ _ _ _ _ _ _ _ G). congruence.
Qed.

Lemma graft_tree : tree_ok (page_size c) (root_node c) graft_heap graft_paths.
Proof.
  pose proof (co_tree _ _ _ Hok) as Ht. destruct graft_ne as (Hb & Hr & Hps). pose proof G as [Gc Gn Gl Gk Gf Gv [Gs _]].
  split; [apply Ht|..].
  - destruct (tree_root _ _ _ _ Ht) as (r & Hroot & R1 & R2 & R3 & R4).
    destruct (graft_old _ r Hroot) as (r' & Hr' & EP & E1 & E2 & E3 & _). exists r'. rewrite EP, E1, E2, E3. done.
  - intros m y' Hm Hy'. destruct (graft_inv m y' Hy') as [[-> ->]|(y & Hy & Hmid)]; [exists b; apply graft_edge_new|].
    destruct (tree_edge _ _ _ _ Ht m y Hm Hy) as (p & He).
    destruct (graft_edge_old m y p Hm Hy He) as (y2 & Hy2 & He2). exists p. by assert (y2 = y') as <- by congruence.
  - intros m y' q j Hy' Hc.
    assert (Hkid : ∀ m y, heap c !! m = Some y → children y !! q = Some j →
      ∃ w, j ≠ root_node c ∧ graft_heap !! j = Some w ∧ parent w = Some m ∧ child_key (key w) (page_size c) = Ok q).
    { intros m' y Hy Hj. destruct (tree_child _ _ _ _ Ht _ _ _ _ Hy Hj) as (w & Hjr & Hw & Hwp & Hwk).
      destruct (graft_old j w Hw) as (w' & Hw' & _ & E1 & E2 & _). exists w'. rewrite E1, E2. done. }
    destruct (graft_inv m y' Hy') as [[-> ->]|(y & Hy & Hmid)].
    { injection Gs as Ec _ _ _. rewrite Ec, lookup_empty in Hc. done. }
    destruct (graft_old m y Hy) as (y2 & Hy2 & _ & _ & _ & _ & _ & E4 & E5). assert (y2 = y') as -> by congruence.
    destruct (decide (m = b)) as [->|Hmb]; [|rewrite E4 in Hc by done; by apply (Hkid m y)].
    rewrite E5 in Hc by done. assert (y = z) as -> by congruence. destruct (decide (q = ck)) as [->|Hq].
    + rewrite lookup_insert_eq in Hc. injection Hc as <-. injection Gs as Ec Ep Ek Ev. exists new.
      destruct graft_new as [-> _]. rewrite Ek. split_and!; [congruence|done..].
    + rewrite lookup_insert_ne in Hc by done. by apply (Hkid b z).
Qed.

Lemma graft_lock_at m : m ≠ id → lock_at graft_heap m = lock_at (heap c) m.
Proof.
  intros Hm. unfold lock_at. rewrite graft_lookup. destruct (decide (m = b)) as [->|]; [|by rewrite decide_False].
  by rewrite (gr_node _ _ _ _ _ _ _ _ _ _ G).
Qed.

Lemma graft_kids m y : heap c !! m = Some y → kids_lock graft_heap y = kids_lock (heap c) y.
Proof.
  intros Hy. unfold kids_lock. apply msum_ext. intros q. destruct (children y !! q) as [j|] eqn:Hj; [|done].
  cbn. f_equal. apply graft_lock_at. intros ->.
  destruct (tree_child _ _ _ _ (co_tree _ _ _ Hok) _ _ _ _ Hy Hj) as (w & _ & Hw & _). pose proof (fresh_none _ _ _ Hok). unfold id in Hw. congruence.
Qed.

Lemma graft_locks m y : graft_heap !! m = Some y → m ≠ root_node c →
  (0 ≤ lock_ref y)%Z ∧ lock_ref y = (H m + kids_lock graft_heap y)%Z.
Proof.
  intros Hy Hm. destruct (gr_new _ _ _ _ _ _ _ _ _ _ G) as [Gs Gl]. destruct (graft_inv m y Hy) as [[-> ->]|(y0 & Hy0 & Hmid)].
  - injection Gs as Ec _ _ _. rewrite Gl. split; [done|]. unfold id. rewrite (proj2 (co_holders _ _ _ Hok _) (fresh_none _ _ _ Hok)).
    unfold kids_lock. by rewrite Ec, msum_empty.
  - pose proof (co_locks _ _ _ Hok m y0 Hy0 Hm) as [L1 L2].
    destruct (graft_old m y0 Hy0) as (y2 & Hy2 & _ & _ & _ & _ & El & E4 & E5). assert (y2 = y) as -> by congruence.
    rewrite El. split; [done|]. rewrite L2. f_equal. destruct (decide (m = b)) as [->|Hmb]; [|by rewrite E4, (graft_kids m y0)].
    pose proof (gr_node _ _ _ _ _ _ _ _ _ _ G). assert (y0 = z) as -> by congruence.
    rewrite <- (graft_kids b z) by done. unfold kids_lock. rewrite E5, msum_insert by (done || apply (gr_free _ _ _ _ _ _ _ _ _ _ G)).
    unfold lock_at at 2. destruct graft_new as [-> _]. cbn. lia.
Qed.

Lemma graft_weight (q : TreeNode → bool) :
  (∀ x y, lock_ref x = lock_ref y → q x = q y) →
  weight (root_node c) q graft_heap = (weight (root_node c) q (heap c) + if q new then Z.of_nat (key_len k) else 0)%Z.
Proof.
  intros Hq. destruct graft_ne as (Hb & Hr & _). pose proof (gr_node _ _ _ _ _ _ _ _ _ _ G) as Gn.
  destruct (gr_new _ _ _ _ _ _ _ _ _ _ G) as [Gs _]. injection Gs as _ _ Ek _. unfold weight, graft_heap.
  rewrite (msum_update _ _ b z) by by simplify_map_eq. rewrite msum_insert by (apply (fresh_none _ _ _ Hok)).
  unfold node_weight at 1 3 4. cbn [key set_children]. rewrite (Hq (set_children _ z) z) by done.
  rewrite (bool_decide_eq_false_2 (id = root_node c)) by congruence. rewrite Ek. lia.
Qed.

Lemma graft_leaf m : (∃ y, graft_heap !! m = Some y ∧ lock_ref y = 0%Z ∧ children y = ∅) ↔
  m = id ∨ (m ≠ id ∧ m ≠ b ∧ m ∈ evictable_leaves c).
Proof.
  destruct (gr_new _ _ _ _ _ _ _ _ _ _ G) as [Gs Gl]. injection Gs as Ec _ _ _. destruct graft_ne as (Hb & _). split.
  - intros (y & Hy & Hl & Hc). destruct (graft_inv m y Hy) as [[-> ->]|(y0 & Hy0 & Hmid)]; [by left|right].
    destruct (graft_old m y0 Hy0) as (y2 & Hy2 & _ & _ & _ & _ & El & E4 & E5). assert (y2 = y) as -> by congruence.
    destruct (decide (m = b)) as [->|Hmb]; [rewrite E5 in Hc by done; by apply insert_non_empty in Hc|].
    split_and!; [done|done|]. apply (co_leaves _ _ _ Hok). specialize (E4 Hmb). subst y. by exists y0.
  - intros [->|(Hmid & Hmb & Hm)]; [exists new; split; [apply graft_new|done]|].
    apply (co_leaves _ _ _ Hok) in Hm as (y & Hy & Hl & Hc). exists y. rewrite graft_lookup, !decide_False by done. done.
Qed.

Context {c' : Cache}.
Hypothesis Hheap : heap c' = graft_heap.
Hypothesis Hframe : frame c c'.

Lemma graft_ok :
  counter c' = S id → evictable_size_ c' = (evictable_size_ c + Z.of_nat (key_len k))%Z →
  protected_size_ c' = protected_size_ c →
  (∀ m, m ∈ evictable_leaves c' ↔ m = id ∨ (m ≠ id ∧ m ≠ b ∧ m ∈ evictable_leaves c)) →
  cache_ok c' graft_paths H.
Proof.
  intros Ecnt Eev Epr Elv. pose proof Hframe as [_ Eps _ _ _ Ert]. destruct (gr_new _ _ _ _ _ _ _ _ _ _ G) as [Gs Gl].
  split; rewrite ?Eps, ?Ert, ?Ecnt, ?Eev, ?Epr, ?Hheap.
  - apply graft_tree.
  - intros m y Hy. destruct (graft_inv m y Hy) as [[-> ->]|(y0 & Hy0 & _)]; [lia|].
    pose proof (co_fresh _ _ _ Hok _ _ Hy0). unfold id. lia.
  - intros r Hr. destruct (tree_root _ _ _ _ (co_tree _ _ _ Hok)) as (r0 & Hr0 & _).
    destruct (graft_old _ r0 Hr0) as (r' & Hr' & _ & _ & _ & _ & El & _). assert (r' = r) as <- by congruence.
    rewrite El. by apply (co_root _ _ _ Hok).
  - apply graft_locks.
  - intros m. destruct (co_holders _ _ _ Hok m) as [Hm1 Hm2]. split; [done|]. intros Hm. apply Hm2.
    destruct (heap c !! m) as [y|] eqn:Hy; [|done]. destruct (graft_old m y Hy) as (y' & Hy' & _). congruence.
  - rewrite (graft_weight unlocked unlocked_ext), (co_evictable _ _ _ Hok). unfold unlocked at 3. by rewrite Gl.
  - rewrite (graft_weight locked locked_ext), (co_protected _ _ _ Hok). unfold locked at 3. rewrite Gl. cbn. lia.
  - intros m. by rewrite Elv, graft_leaf.
Qed.

Lemma graft_keeps : keeps c P c' graft_paths.
Proof.
  intros m y Hy. destruct (graft_old m y Hy) as (y' & Hy' & EP & _ & Ek & _ & El & _). split; [done|].
  exists y'. rewrite Hheap, Ek. done.
Qed.

(** The new leaf caches the prefixes of the whole sequence. *)
Lemma graft_content N' us vs :
  content c' graft_paths N' us vs ↔
  content c P N' us vs ∨ (N' = N ∧ ∃ m, us = take m K ∧ vs = take m ((P b).2 ++ v)).
Proof.
  destruct (gr_new _ _ _ _ _ _ _ _ _ _ G) as [Gs Gl]. injection Gs as _ _ Ek _. destruct graft_ne as (_ & Hr & _).
  assert (HN : ns (key new) = N) by (rewrite Ek; apply (gr_cursor _ _ _ _ _ _ _ _ _ _ G)).
  unfold content. rewrite (fr_root _ _ Hframe). split.
  - intros (m & y' & j & Hm & Hy' & HNy & Hus & Hvs). rewrite Hheap in Hy'.
    destruct (graft_inv m y' Hy') as [[-> ->]|(y & Hy & Hmid)].
    + right. rewrite (proj2 graft_new) in Hus, Hvs. split; [congruence|]. by exists j.
    + left. destruct (graft_keeps m y Hy) as (EP & y2 & Hy2 & _ & En). rewrite EP in Hus, Hvs.
      exists m, y, j. rewrite <- En by done. assert (y2 = y') as -> by (rewrite Hheap in Hy2; congruence). done.
  - intros [(m & y & j & Hm & Hy & HNy & Hus & Hvs)|(-> & j & Hus & Hvs)].
    + destruct (graft_keeps m y Hy) as (EP & y2 & Hy2 & _ & En). exists m, y2, j. rewrite EP, En by done. done.
    + exists id, new, j. rewrite Hheap, (proj2 graft_new). split_and!; [congruence|apply graft_new|done..].
Qed.

Lemma graft_owned i : owned (heap c') i = (owned (heap c) i + tally v i)%Z.
Proof.
  destruct (graft_ne) as (Hbid & _ & _). pose proof (fresh_none _ _ _ Hok) as Hid. pose proof G as [_ Gb _ _ _ _ [Gs _]].
  injection Gs as _ _ _ Gv.
  rewrite Hheap. unfold owned, graft_heap. rewrite (msum_update _ _ b z) by by simplify_map_eq. rewrite msum_insert by done.
  unfold owned_at. rewrite Gv. cbn. lia.
Qed.
End graft.

(** ** [insert] *)

(** What storing the units [K] of namespace [N] at the indices [V] does. *)
Record stored (c : Cache) (P : paths) (H : holders) (N : namespace) (K : list PyVal) (V : list Z)
    (l b : nat) (W : list Z) (c' : Cache) (P' : paths) : Prop := {
  st_ok : cache_ok c' P' H;
  st_frame : frame c c';
  st_frees : frees c' = frees c;
  st_keeps : keeps c P c' P';
  st_sizes : evictable_size_ c' = (evictable_size_ c + Z.of_nat (length K - l))%Z ∧ protected_size_ c' = protected_size_ c;
  st_node : ∃ z, heap c' !! b = Some z ∧ (b = root_node c ∨ ns (key z) = N) ∧ P' b = (K, W);
  st_prefix : (page_size c | l) ∧ l ≤ length K ∧ (0 < l → content c P N (take l K) (take l W)) ∧
    ∀ m vs, (page_size c | m) → m ≤ length K → content c P N (take m K) vs → m ≤ l ∧ vs = take m W;
  st_rest : drop l W = drop l V ∧ length W = length K;
  st_owned i : owned (heap c') i = (owned (heap c) i + tally (drop l V) i)%Z;
  st_content N' us vs : us ≠ [] →
    content c' P' N' us vs ↔ content c P N' us vs ∨ (N' = N ∧ ∃ m, us = take m K ∧ vs = take m W);
}.

Section insert.
Variable monotonic : nat → Z.

(** The new leaf and the two status updates. *)
Lemma insert_leaf c P H N K b z k ck v p chunked :
  cache_ok c P H → cursor c P N K b k → heap c !! b = Some z → 0 < key_len k → child_key k (page_size c) = Ok ck →
  children z !! ck = None → length v = key_len k →
  ∃ new c', graft c P N K b z new k ck v ∧ heap c' = graft_heap (c := c) (b := b) (z := z) (new := new) (ck := ck) ∧
    frame c c' ∧ frees c' = frees c ∧ evictable_size_ c' = (evictable_size_ c + Z.of_nat (key_len k))%Z ∧
    protected_size_ c' = protected_size_ c ∧ cache_ok c' (graft_paths (c := c) (P := P) (K := K) (b := b) (v := v)) H ∧
    (let '(n, c0) := new_node monotonic c (Some b) k (Some v) 0 0 p ∅ None None in
     let c0 := upd n (inc_hit_count chunked) c0 in
     let c0 := upd b (set_children (λ m, <[ck := n]> m)) c0 in
     let c0 := add_sizes (Z.of_nat (key_len k)) 0 c0 in
     c0 ← update_leaf_status b c0;
     update_leaf_status n c0) = Ok c'.
Proof.
  intros Hok Hcu Hz Hk Hck Hfree Hv. pose proof (fresh_none _ _ _ Hok) as Hid.
  set (n0 := mkNode ∅ (Some b) k (Some v) 0 (monotonic (ticks c)) (monotonic (S (ticks c))) 0 0 None None p).
  set (new := inc_hit_count chunked n0).
  assert (Hnew : skeleton new = (∅, Some b, k, Some v) ∧ lock_ref new = 0%Z) by (unfold new, inc_hit_count; by destruct chunked).
  assert (G : graft c P N K b z new k ck v) by (split; done).
  destruct (graft_ne Hok G) as (Hbid & Hrid & _).
  set (h := graft_heap (c := c) (b := b) (z := z) (new := new) (ck := ck)).
  set (st L := mkCache (disable c) (page_size c) (is_eagle c) (disable_finished_insert c) (eviction_strategy c) h
    (S (counter c)) (root_node c) (evictable_size_ c + Z.of_nat (key_len k)) (protected_size_ c + 0) L (S (S (ticks c))) (frees c)).
  set (z' := set_children (λ m, <[ck := counter c]> m) z).
  assert (Hzb : h !! b = Some z') by (unfold h; by rewrite (graft_lookup Hok G), decide_True).
  assert (Hnb : h !! counter c = Some new) by (apply (graft_new Hok G)).
  assert (Hkids : ∀ q m, children z' !! q = Some m → ∃ y, h !! m = Some y ∧ value y ≠ None).
  { intros q m. cbn. destruct (decide (q = ck)) as [->|Hq].
    - rewrite lookup_insert_eq. intros [= <-]. exists new. split; [done|]. destruct Hnew as [E _]. injection E as _ _ _ E. by rewrite E.
    - rewrite lookup_insert_ne by done. intros Hm.
      destruct (tree_child _ _ _ _ (co_tree _ _ _ Hok) _ _ _ _ Hz Hm) as (y & _ & Hy & _).
      destruct (graft_old Hok G m y Hy) as (y' & Hy' & _ & _ & _ & E & _). exists y'. split; [done|]. rewrite E. by eapply node_value. }
  destruct (update_leaf_status_spec (st (evictable_leaves c)) b z' Hzb) as (L1 & Hrun1 & HL1); [| |done|].
  { cbn. by eapply node_value. }
  { cbn. destruct (decide (b = root_node c)) as [->|Hb]; [rewrite (co_root _ _ _ Hok _ Hz); lia|by apply (co_locks _ _ _ Hok b)]. }
  destruct (update_leaf_status_spec (st L1) (counter c) new Hnb) as (L2 & Hrun2 & HL2).
  { destruct Hnew as [E _]. injection E as _ _ _ E. by rewrite E. }
  { destruct Hnew as [_ ->]. lia. }
  { destruct Hnew as [E _]. injection E as E _ _ _. intros q m. by rewrite E, lookup_empty. }
  exists new, (st L2). split_and!; try done; [cbn; lia| |].
  - apply (graft_ok Hok G); try done; [cbn; lia|]. intros m. cbn. rewrite HL2. cbn. rewrite HL1. cbn.
    destruct Hnew as [E ->]. injection E as E _ _ _. split.
    + intros [(-> & _)|(Hm & [(-> & _ & Hc)|?])]; [by left|by apply insert_non_empty in Hc|right; tauto].
    + intros [->|(? & ? & ?)]; [by left|right]. split; [done|]. by right.
  - cbn [new_node]. unfold upd, set_heap, add_sizes. cbn -[update_leaf_status].
    rewrite (alter_Some _ _ (counter c) n0) by by simplify_map_eq. rewrite insert_insert_eq.
    rewrite (alter_Some _ _ b z) by by simplify_map_eq. fold new.
    change (update_leaf_status b _) with (update_leaf_status b (st (evictable_leaves c))).
    rewrite Hrun1. cbn [mbind result_bind]. exact Hrun2.
Qed.

(** The end of the walk tells the longest cached prefix. *)
Lemma arrived_prefix c P H c' P' N K b :
  reorg c P H c' P' → arrived c' P' N K b →
  let l := length (P' b).1 in
  (page_size c | l) ∧ l ≤ length K ∧ (0 < l → content c P N (take l K) (P' b).2) ∧
  ∀ m vs, (page_size c | m) → m ≤ length K → content c P N (take m K) vs → m ≤ l ∧ vs = take m (P' b).2.
Proof.
  intros R Har l. pose proof (ro_ok _ _ _ _ _ R) as Hok'. pose proof (ro_frame _ _ _ _ _ R) as F.
  destruct (ar_node _ _ _ _ _ Har) as (z & Hz & _). destruct (path_lengths (co_tree _ _ _ Hok') b z Hz) as [E _].
  destruct (arrived_content _ _ _ _ _ _ Hok' Har) as (A1 & A2 & A3). rewrite (fr_ps _ _ F), <- E in A1. rewrite <- E in A2, A3.
  split; [done|]. split; [done|]. split.
  - intros Hl. apply (ro_content _ _ _ _ _ R). by apply A3.
  - intros m vs Hm HmK Hc. apply (ro_content _ _ _ _ _ R) in Hc. unfold l. rewrite E.
    eapply (arrived_longest c' P' H N K); [done|done|by rewrite (fr_ps _ _ F)|done|done].
Qed.

(** Nothing is missing: the walk alone. *)
Lemma stored_nothing c P H N K V c' P' b k :
  reorg c P H c' P' → cursor c' P' N K b k → stuck c' P' N K b → key_len k = 0 → length V = length K →
  stored c P H N K V (length (P' b).1) b (P' b).2 c' P' ∧ length (P' b).1 = length K.
Proof.
  intros R Hcu Hst Hk HV. pose proof (ro_ok _ _ _ _ _ R) as Hok'. destruct (cu_node _ _ _ _ _ _ Hcu) as (z & Hz & HN).
  assert (HK : (P' b).1 = K).
  { rewrite <- (cu_path _ _ _ _ _ _ Hcu), (proj1 (length_zero_iff_nil (key_iter k))) by (by rewrite key_len_iter). by rewrite app_nil_r. }
  assert (Har : arrived c' P' N K b) by (split; [by exists z|by rewrite HK|done]).
  destruct (arrived_prefix c P H c' P' N K b R Har) as (A1 & A2 & A3 & A4). rewrite HK in *.
  destruct (path_lengths (co_tree _ _ _ Hok') b z Hz) as [E _]. rewrite HK in E. pose proof (fr_root _ _ (ro_frame _ _ _ _ _ R)) as Er.
  split; [|done]. split; try done; try apply R.
  - destruct (ro_sizes _ _ _ _ _ R) as (-> & -> & _). split; [lia|done].
  - exists z. rewrite <- Er. split; [done|]. split; [done|]. destruct (P' b) as [p1 p2]. cbn in *. congruence.
  - split_and!; try done. intros Hl. rewrite E, take_ge by lia. rewrite take_ge by done. rewrite take_ge in A3 by done. by apply A3.
  - split; [|done]. rewrite !drop_ge; lia || done.
  - intros i. rewrite (ro_owned _ _ _ _ _ R), (drop_ge V) by (by rewrite HV). change (tally [] i) with 0%Z. lia.
  - intros N' us vs Hus. rewrite <- (ro_content _ _ _ _ _ R). split; [by left|]. intros [?|(-> & m & -> & ->)]; [done|].
    apply (ro_content _ _ _ _ _ R). exists b, z, m. rewrite HK. destruct HN as [->|HN].
    + destruct (tree_root _ _ _ _ (co_tree _ _ _ Hok')) as (r & _ & _ & _ & _ & EP). rewrite EP in HK. cbn in HK. subst K.
      by rewrite take_nil in Hus.
    + split_and!; try done. intros ->.
      destruct (tree_root _ _ _ _ (co_tree _ _ _ Hok')) as (r & _ & _ & _ & _ & EP). rewrite EP in HK. cbn in HK. subst K.
      by rewrite take_nil in Hus.
Qed.

(** A new leaf holds the rest. *)
Lemma stored_leaf c P H N K V c1 P1 b z k ck new c' :
  let v := drop (length (P1 b).1) V in
  reorg c P H c1 P1 → stuck c1 P1 N K b → graft c1 P1 N K b z new k ck v → length V = length K →
  heap c' = graft_heap (c := c1) (b := b) (z := z) (new := new) (ck := ck) → frame c1 c' → frees c' = frees c1 →
  evictable_size_ c' = (evictable_size_ c1 + Z.of_nat (key_len k))%Z → protected_size_ c' = protected_size_ c1 →
  let P' := graft_paths (c := c1) (P := P1) (K := K) (b := b) (v := v) in
  cache_ok c' P' H → stored c P H N K V (length (P1 b).1) (counter c1) ((P1 b).2 ++ v) c' P'.
Proof.
  intros v R Hst G HV Hh F Efr Eev Epr P' Hok'. pose proof (ro_ok _ _ _ _ _ R) as Hok1. pose proof (gr_cursor _ _ _ _ _ _ _ _ _ _ G) as Hcu.
  pose proof (cu_path _ _ _ _ _ _ Hcu) as HK. destruct (cu_node _ _ _ _ _ _ Hcu) as (z0 & Hz0 & HN).
  assert (Har : arrived c1 P1 N K b) by (split; [by exists z0|rewrite <- HK; by eexists|done]).
  destruct (arrived_prefix c P H c1 P1 N K b R Har) as (A1 & A2 & A3 & A4).
  destruct (path_lengths (co_tree _ _ _ Hok1) b z0 Hz0) as [E _]. destruct (ro_sizes _ _ _ _ _ R) as (S1 & S2 & _).
  assert (Hkl : key_len k = length K - length (P1 b).1) by (rewrite <- HK, length_app, key_len_iter; lia).
  assert (Hvl : length v = key_len k) by apply G.
  split.
  - done.
  - etrans; [apply R|done].
  - rewrite Efr. apply R.
  - eapply keeps_trans; [apply R|apply R|]. by apply (graft_keeps Hok1 G).
  - rewrite Eev, Epr, S1, S2. split; [lia|done].
  - destruct (graft_new Hok1 G) as [Hn EP]. exists new. rewrite Hh. split; [done|]. split; [right|exact EP].
    destruct (gr_new _ _ _ _ _ _ _ _ _ _ G) as [Gs _]. injection Gs as _ _ -> _. apply Hcu.
  - split_and!; [done|done| |].
    + intros Hl. rewrite take_app_le, (take_ge (P1 b).2) by lia. by apply A3.
    + intros m vs Hm HmK Hc. destruct (A4 m vs Hm HmK Hc) as [Hle ->]. split; [done|]. rewrite take_app_le by lia. done.
  - rewrite length_app. split; [|lia]. rewrite drop_app_ge by lia. by replace (length (P1 b).1 - length (P1 b).2) with 0 by lia.
  - intros i. rewrite (graft_owned Hok1 G Hh i), (ro_owned _ _ _ _ _ R). done.
  - intros N' us vs Hus. unfold P'. rewrite (graft_content Hok1 G Hh F), <- (ro_content _ _ _ _ _ R). done.
Qed.

Lemma insert_helper_spec c P H k V p chunked :
  cache_ok c P H → key_ok k → (page_size c | key_len k) → length V = key_len k →
  ∃ l b W c' P', insert_helper monotonic (root_node c) k V p chunked c = Ok (l, b, c') ∧
    stored c P H (ns k) (key_iter k) V l b W c' P'.
Proof.
  intros Hok Hk Hd HV. unfold insert_helper. set (t := monotonic (ticks c)).
  set (c1 := upd (root_node c) (raise_priority p) (upd (root_node c) (touch t) (tick c))).
  assert (R1 : reorg c P H c1 P).
  { eapply reorg_trans; [by apply reorg_tick|].
    pose proof (reorg_upd (root_node c) (touch t) (tick c) P H (touch_neutral t) (ro_ok _ _ _ _ _ (reorg_tick c P H Hok))) as R0.
    eapply reorg_trans; [exact R0|]. apply reorg_upd; [apply raise_priority_neutral|apply R0]. }
  pose proof (ro_ok _ _ _ _ _ R1) as Hok1. pose proof (root_cursor c1 P H k Hok1 Hk Hd) as Hcu.
  assert (HVK : length V = length (key_iter k)) by (by rewrite key_len_iter).
  destruct (tree_root _ _ _ _ (co_tree _ _ _ Hok1)) as (r & Hr & _ & _ & _ & EP).
  destruct (Nat.eqb_spec (key_len k) 0) as [E0|E0].
  { exists 0, (root_node c), (P (root_node c)).2, c1, P. split; [done|].
    pose proof (cursor_stuck Hok1 Hcu r VNone Hr ltac:(lia) ltac:(lia)) as Hst.
    destruct (stored_nothing c P H (ns k) (key_iter k) V c1 P (root_node c1) k R1 Hcu Hst E0 HVK) as [Hs _].
    change (root_node c1) with (root_node c) in *. rewrite EP in Hs |- *. exact Hs. }
  destruct (child_key_total k (page_size c1) (cursor_ps Hok1) (cursor_page Hok1 Hcu ltac:(lia))) as [ck Hck].
  change (page_size c) with (page_size c1). rewrite Hck. cbn [mbind result_bind].
  destruct (insert_loop_spec monotonic (S (key_len k)) t c1 P H (ns k) (key_iter k) V (root_node c1) k ck V p chunked Hok1 Hcu)
    as (b & k' & ck' & c2 & P2 & Hrun & R2 & Hcu2 & Hst & Hno); [done|by rewrite EP|lia|].
  change (root_node c1) with (root_node c) in *. rewrite EP in Hrun. cbn [fst length] in Hrun. rewrite Hrun. cbn [mbind result_bind].
  assert (R : reorg c P H c2 P2) by (by eapply reorg_trans). pose proof (ro_ok _ _ _ _ _ R2) as Hok2.
  destruct (Nat.ltb_spec 0 (key_len k')) as [Hk'|Hk'].
  2: { eexists _, _, _, c2, P2. split; [done|].
       by destruct (stored_nothing c P H (ns k) (key_iter k) V c2 P2 b k' R Hcu2 Hst ltac:(lia) HVK) as [Hs _]. }
  destruct (Hno Hk') as [Hck' Hfree]. destruct (cu_node _ _ _ _ _ _ Hcu2) as (z & Hz & _).
  rewrite <- (fr_ps _ _ (ro_frame _ _ _ _ _ R2)) in Hck'.
  destruct (insert_leaf c2 P2 H (ns k) (key_iter k) b z k' ck' (drop (length (P2 b).1) V) p chunked Hok2 Hcu2 Hz Hk' Hck')
    as (new & c3 & G & Hh & F & Efr & Eev & Epr & Hok3 & Hrun3); [by apply Hfree| |].
  { rewrite length_drop, HVK, <- (cu_path _ _ _ _ _ _ Hcu2), length_app, key_len_iter. lia. }
  cbn [new_node] in Hrun3 |- *. apply result_bind_Ok in Hrun3 as (c4 & Hu1 & Hu2). rewrite Hu1. cbn [mbind result_bind].
  rewrite Hu2. cbn [mbind result_bind]. eexists _, _, _, c3, _. split; [done|].
  by apply (stored_leaf c P H (ns k) (key_iter k) V c2 P2 b z k' ck' new c3 R Hst G HVK Hh F Efr Eev Epr).
Qed.
End insert.
