(* ===== verification/RadixLock.v ===== *)
(** * RadixLock: locking the path of a request

    [inc_lock_ref] and [dec_lock_ref] of [RadixTree] walk from a node to the root.  While
    they walk, exactly one node, the one they stand on, disagrees with its handles and its
    children by the amount being added: the debt moves up and vanishes at the root. *)

From S2P Require Import Prelude RadixKey RadixTree RadixInv RadixSplit RadixMatch RadixInsert.
#[local] Open Scope nat_scope.

(** ** A cache with a debt of [d] locks at node [n] *)

Record debt_ok (c : Cache) (P : paths) (H : holders) (n : nat) (d : Z) : Prop := {
  db_tree : tree_ok (page_size c) (root_node c) (heap c) P;
  db_fresh : ∀ m x, heap c !! m = Some x → m < counter c;
  db_root : ∀ r, heap c !! root_node c = Some r → lock_ref r = 1%Z;
  db_locks : ∀ m x, heap c !! m = Some x → m ≠ root_node c →
    (0 ≤ lock_ref x)%Z ∧ lock_ref x = (H m + kids_lock (heap c) x - (if decide (m = n) then d else 0))%Z;
  db_holders : ∀ m, (0 ≤ H m)%Z ∧ (heap c !! m = None → H m = 0%Z);
  db_evictable : evictable_size_ c = weight (root_node c) unlocked (heap c);
  db_protected : protected_size_ c = weight (root_node c) locked (heap c);
  db_leaves : ∀ m, m ∈ evictable_leaves c ↔ ∃ x, heap c !! m = Some x ∧ lock_ref x = 0%Z ∧ children x = ∅;
}.

(** At the root there is nothing to owe. *)
Lemma debt_root c P H d : debt_ok c P H (root_node c) d ↔ cache_ok c P H.
Proof.
  split; intros [H1 H2 H3 H4 H5 H6 H7 H8]; split; try done.
  - intros m x Hx Hm. destruct (H4 m x Hx Hm) as [L1 L2]. rewrite decide_False in L2 by done. split; [done|lia].
  - intros m x Hx Hm. destruct (H4 m x Hx Hm) as [L1 L2]. rewrite decide_False by done. split; [done|lia].
Qed.

(** A handle more or less on a node is a debt there. *)
Definition add_handle (n : nat) (d : Z) (H : holders) : holders := λ m, (H m + if decide (m = n) then d else 0)%Z.

Lemma debt_start c P H n x d :
  cache_ok c P H → heap c !! n = Some x → (0 ≤ H n + d)%Z → debt_ok c P (add_handle n d H) n d.
Proof.
  intros [H1 H2 H3 H4 H5 H6 H7 H8] Hx Hd. split; try done.
  - intros m y Hy Hm. destruct (H4 m y Hy Hm) as [L1 L2]. split; [done|]. unfold add_handle. destruct (decide (m = n)); lia.
  - intros m. destruct (H5 m) as [L1 L2]. unfold add_handle. destruct (decide (m = n)) as [->|]; [|split; [lia|]].
    + split; [done|]. congruence.
    + intros Hm. rewrite (L2 Hm). lia.
Qed.

(** Only locks differ. *)
Definition relocked (h h' : gmap nat TreeNode) : Prop :=
  ∀ n, h' !! n = (λ x, add_lock (lock_at h' n - lock_ref x) x) <$> h !! n.

Lemma add_lock_0 x : add_lock 0 x = x.
Proof. destruct x. unfold add_lock. cbn. by rewrite Z.add_0_r. Qed.

Lemma add_lock_add d d' x : add_lock d (add_lock d' x) = add_lock (d' + d) x.
Proof. unfold add_lock. cbn. by rewrite Z.add_assoc. Qed.

Lemma relocked_refl h : relocked h h.
Proof.
  intros n. unfold lock_at. destruct (h !! n) as [x|]; [|done]. cbn. f_equal.
  by rewrite Z.sub_diag, add_lock_0.
Qed.

Lemma relocked_trans h1 h2 h3 : relocked h1 h2 → relocked h2 h3 → relocked h1 h3.
Proof.
  intros H1 H2 n. specialize (H1 n). specialize (H2 n). destruct (h1 !! n) as [x|]; cbn in *.
  - rewrite H1 in H2. cbn in H2. rewrite add_lock_add in H2. rewrite H2. f_equal. f_equal. cbn. lia.
  - by rewrite H1 in H2.
Qed.

Lemma relocked_insert h n x d : h !! n = Some x → relocked h (<[n := add_lock d x]> h).
Proof.
  intros Hx m. unfold lock_at. destruct (decide (m = n)) as [->|Hm].
  - rewrite lookup_insert_eq, Hx. cbn. f_equal. f_equal. lia.
  - rewrite lookup_insert_ne by done. apply (relocked_refl h m).
Qed.

Lemma relocked_lookup h h' n x :
  relocked h h' → h !! n = Some x → ∃ y, h' !! n = Some y ∧ skeleton y = skeleton x.
Proof. intros Hr Hx. specialize (Hr n). rewrite Hx in Hr. cbn in Hr. eexists. split; [exact Hr|done]. Qed.

(** ** One step of the walk *)

Section step.
Context {c : Cache} {P : paths} {H : holders} {n : nat} {x : TreeNode} {d : Z}.
Hypothesis Hok : debt_ok c P H n d.
Hypothesis Hx : heap c !! n = Some x.
Hypothesis Hn : n ≠ root_node c.
Hypothesis Hd : (0 ≤ lock_ref x + d)%Z.

Let h' := <[n := add_lock d x]> (heap c).

Lemma step_lock_at m : lock_at h' m = (lock_at (heap c) m + if decide (m = n) then d else 0)%Z.
Proof.
  unfold lock_at, h'. destruct (decide (m = n)) as [->|Hm].
  - rewrite lookup_insert_eq, Hx. done.
  - rewrite lookup_insert_ne by done. lia.
Qed.

(** Only the parent of [n] sees the lock of [n]. *)
Lemma step_kids m y p : heap c !! m = Some y → parent x = Some p →
  kids_lock h' y = (kids_lock (heap c) y + if decide (m = p) then d else 0)%Z.
Proof.
  intros Hy Hp. pose proof (db_tree _ _ _ _ _ Hok) as Ht. unfold kids_lock.
  destruct (tree_edge _ _ _ _ Ht n x Hn Hx) as (p' & He). pose proof (edge_parent _ _ _ _ _ _ _ He) as Hp'.
  assert (p' = p) as -> by congruence. destruct (edge_link _ _ _ _ _ _ _ He) as (px & ck & Hpx & Hck & Hc & _).
  destruct (decide (m = p)) as [->|Hm].
  - assert (y = px) as -> by congruence. rewrite <- (insert_delete_id (children px) ck n Hc).
    rewrite !msum_insert by apply lookup_delete_eq. rewrite step_lock_at, decide_True by done.
    assert (msum (λ _ m, lock_at h' m) (delete ck (children px)) = msum (λ _ m, lock_at (heap c) m) (delete ck (children px))) as ->.
    { apply msum_ext. intros q. destruct (delete ck (children px) !! q) as [j|] eqn:Hj; [|done]. cbn. f_equal.
      rewrite step_lock_at, decide_False; [lia|]. intros ->. apply lookup_delete_Some in Hj as [Hq Hj].
      destruct (tree_child _ _ _ _ Ht _ _ _ _ Hpx Hj) as (w & _ & Hw & _ & Hwk). congruence. }
    lia.
  - rewrite Z.add_0_r. apply msum_ext. intros q. destruct (children y !! q) as [j|] eqn:Hj; [|done]. cbn. f_equal.
    rewrite step_lock_at, decide_False; [lia|]. intros ->.
    destruct (tree_child _ _ _ _ Ht _ _ _ _ Hy Hj) as (w & _ & Hw & Hwp & _). congruence.
Qed.

Lemma step_weight (q : TreeNode → bool) :
  (∀ x y, lock_ref x = lock_ref y → q x = q y) →
  weight (root_node c) q h' = (weight (root_node c) q (heap c) - (if q x then Z.of_nat (key_len (key x)) else 0)
    + (if q (add_lock d x) then Z.of_nat (key_len (key x)) else 0))%Z.
Proof.
  intros Hq. unfold weight, h'. rewrite (msum_update _ _ n x) by done. unfold node_weight.
  rewrite (bool_decide_eq_false_2 (n = root_node c)) by done. cbn [key add_lock]. done.
Qed.

Context {c' : Cache}.
Hypothesis Hheap : heap c' = h'.
Hypothesis Hframe : frame c c'.

Lemma step_debt p :
  parent x = Some p → counter c' = counter c →
  evictable_size_ c' = (evictable_size_ c - (if unlocked x then Z.of_nat (key_len (key x)) else 0)
    + (if unlocked (add_lock d x) then Z.of_nat (key_len (key x)) else 0))%Z →
  protected_size_ c' = (protected_size_ c - (if locked x then Z.of_nat (key_len (key x)) else 0)
    + (if locked (add_lock d x) then Z.of_nat (key_len (key x)) else 0))%Z →
  (∀ m, m ∈ evictable_leaves c' ↔
     (m = n ∧ lock_ref (add_lock d x) = 0%Z ∧ children x = ∅) ∨ (m ≠ n ∧ m ∈ evictable_leaves c)) →
  debt_ok c' P H p d.
Proof.
  intros Hp Ecnt Eev Epr Elv. pose proof Hframe as [_ Eps _ _ _ Ert]. pose proof (relocked_insert (heap c) n x d Hx) as Hr. fold h' in Hr.
  split; rewrite ?Eps, ?Ert, ?Ecnt, ?Eev, ?Epr, ?Hheap.
  - eapply tree_ok_ext; [|apply Hok]. intros m. unfold h'. destruct (decide (m = n)) as [->|]; [by rewrite lookup_insert_eq, Hx|].
    by rewrite lookup_insert_ne.
  - intros m y Hy. unfold h' in Hy. destruct (decide (m = n)) as [->|]; [by eapply (db_fresh _ _ _ _ _ Hok)|].
    rewrite lookup_insert_ne in Hy by done. by eapply (db_fresh _ _ _ _ _ Hok).
  - intros r Hroot. unfold h' in Hroot. rewrite lookup_insert_ne in Hroot by done. by apply (db_root _ _ _ _ _ Hok).
  - intros m y Hy Hm. unfold h' in Hy. destruct (decide (m = n)) as [->|Hmn].
    + rewrite lookup_insert_eq in Hy. injection Hy as <-. destruct (db_locks _ _ _ _ _ Hok n x Hx Hn) as [L1 L2].
      rewrite decide_True in L2 by done. cbn [lock_ref add_lock]. split; [done|].
      assert (n ≠ p) as Hnp.
      { intros <-. destruct (tree_edge _ _ _ _ (db_tree _ _ _ _ _ Hok) n x Hn Hx) as (p' & He).
        pose proof (edge_parent _ _ _ _ _ _ _ He) as Hp'. assert (p' = n) as -> by congruence.
        destruct (edge_path _ _ _ He) as [Hl _]. destruct (edge_len _ _ _ _ _ _ _ He).
        pose proof (tree_ps _ _ _ _ (db_tree _ _ _ _ _ Hok)). lia. }
      pose proof (step_kids n x p Hx Hp) as Hk. rewrite decide_False in Hk by done. rewrite decide_False by done.
      change (kids_lock h' (add_lock d x)) with (kids_lock h' x). lia.
    + rewrite lookup_insert_ne in Hy by done. destruct (db_locks _ _ _ _ _ Hok m y Hy Hm) as [L1 L2].
      rewrite decide_False in L2 by done. split; [done|]. rewrite (step_kids m y p Hy Hp). destruct (decide (m = p)); lia.
  - intros m. destruct (db_holders _ _ _ _ _ Hok m) as [H1 H2]. split; [done|]. intros Hm. apply H2. unfold h' in Hm.
    by apply lookup_insert_None in Hm as [? _].
  - rewrite (step_weight unlocked unlocked_ext), (db_evictable _ _ _ _ _ Hok). done.
  - rewrite (step_weight locked locked_ext), (db_protected _ _ _ _ _ Hok). done.
  - intros m. rewrite Elv, (db_leaves _ _ _ _ _ Hok). unfold h'. destruct (decide (m = n)) as [->|Hm].
    + rewrite lookup_insert_eq. split; [intros [(_ & ? & ?)|[? _]]; [by eexists|done]|]. intros (y & [= <-] & Hl & Hc). by left.
    + rewrite lookup_insert_ne by done. split; [intros [[? _]|[_ ?]]; done|]. intros ?. by right.
Qed.
End step.

(** ** The walks *)

(** What the walks never touch. *)
Record same (c c' : Cache) : Prop := {
  sm_frame : frame c c';
  sm_counter : counter c' = counter c;
  sm_ticks : ticks c' = ticks c;
  sm_frees : frees c' = frees c;
  sm_heap : relocked (heap c) (heap c');
  sm_total : (evictable_size_ c' + protected_size_ c' = evictable_size_ c + protected_size_ c)%Z;
}.

Lemma same_refl c : same c c.
Proof. split; try done. apply relocked_refl. Qed.
Lemma same_trans c1 c2 c3 : same c1 c2 → same c2 c3 → same c1 c3.
Proof. intros [] []. split; [by etrans|congruence|congruence|congruence|by eapply relocked_trans|lia]. Qed.

Definition direction (d : Z) : Prop := d = 1%Z ∨ d = (-1)%Z.
(** The lock at which a node changes sides. *)
Definition threshold (d : Z) : Z := if (d =? 1)%Z then 0 else 1.

Definition resize (d : Z) (x : TreeNode) (c : Cache) : Cache :=
  let len := Z.of_nat (key_len (key x)) in
  if (lock_ref x =? threshold d)%Z then add_sizes (- d * len) (d * len) c else c.

Lemma resize_heap d x c : heap (resize d x c) = heap c ∧ page_size (resize d x c) = page_size c ∧
  root_node (resize d x c) = root_node c ∧ evictable_leaves (resize d x c) = evictable_leaves c.
Proof. unfold resize. by destruct (_ =? _)%Z. Qed.

Lemma walk_step c P H n x p d :
  direction d → debt_ok c P H n d → heap c !! n = Some x → n ≠ root_node c → (0 ≤ lock_ref x + d)%Z → parent x = Some p →
  ∃ c', update_leaf_status n (upd n (add_lock d) (resize d x c)) = Ok c' ∧ debt_ok c' P H p d ∧ same c c' ∧
    evictable_size_ c' = evictable_size_ (resize d x c) ∧ heap c' = <[n := add_lock d x]> (heap c).
Proof.
  intros Hdir Hok Hx Hn Hd Hp. destruct (resize_heap d x c) as (Eh & Eps & Er & El). pose proof (db_tree _ _ _ _ _ Hok) as Ht.
  set (c1 := upd n (add_lock d) (resize d x c)).
  assert (Hh : heap c1 = <[n := add_lock d x]> (heap c)) by (unfold c1, upd; cbn; rewrite Eh; by apply alter_Some).
  assert (Hx1 : heap c1 !! n = Some (add_lock d x)) by (by rewrite Hh, lookup_insert_eq).
  destruct (update_leaf_status_spec c1 n (add_lock d x) Hx1) as (L & Hrun & HL); [exact (tree_value _ _ _ _ _ _ Ht Hx)|cbn; lia| |].
  { intros q m Hm. destruct (tree_child _ _ _ _ Ht _ _ _ _ Hx Hm) as (y & _ & Hy & _).
    rewrite Hh. destruct (decide (m = n)) as [->|Hmn].
    - rewrite lookup_insert_eq. eexists. split; [done|]. exact (tree_value _ _ _ _ _ _ Ht Hx).
    - rewrite lookup_insert_ne by done. exists y. split; [done|]. by eapply (tree_value _ _ _ _ _ _ Ht). }
  exists (set_leaves (λ _, L) c1). split; [exact Hrun|].
  assert (Hf : frame c (set_leaves (λ _, L) c1)) by (unfold c1, resize; destruct (_ =? _)%Z; by split).
  destruct (db_locks _ _ _ _ _ Hok n x Hx Hn) as [L1 _].
  assert (Hsz : evictable_size_ c1 = (evictable_size_ c - (if unlocked x then Z.of_nat (key_len (key x)) else 0)
      + (if unlocked (add_lock d x) then Z.of_nat (key_len (key x)) else 0))%Z ∧
    protected_size_ c1 = (protected_size_ c - (if locked x then Z.of_nat (key_len (key x)) else 0)
      + (if locked (add_lock d x) then Z.of_nat (key_len (key x)) else 0))%Z).
  { unfold c1, resize, threshold, unlocked, locked. cbn [lock_ref add_lock].
    destruct Hdir as [-> | ->]; cbn [Z.eqb Pos.eqb];
      repeat match goal with |- context [(?a =? ?b)%Z] => destruct (Z.eqb_spec a b) end; cbn; lia. }
  split; [|split; [|split; [done|exact Hh]]].
  - apply (step_debt Hok Hx Hn Hd (c' := set_leaves (λ _, L) c1)); [exact Hh|exact Hf|exact Hp| |apply Hsz|apply Hsz|].
    + unfold c1, resize. by destruct (_ =? _)%Z.
    + intros m. change (evictable_leaves (set_leaves (λ _, L) c1)) with L. rewrite HL.
      change (evictable_leaves c1) with (evictable_leaves (resize d x c)). by rewrite El.
  - split; [exact Hf|unfold c1, resize; by destruct (_ =? _)%Z..| |].
    + cbn -[heap]. change (heap (set_leaves (λ _, L) c1)) with (heap c1). rewrite Hh. by apply relocked_insert.
    + change (evictable_size_ (set_leaves (λ _, L) c1)) with (evictable_size_ c1).
      change (protected_size_ (set_leaves (λ _, L) c1)) with (protected_size_ c1). destruct Hsz as [-> ->].
      unfold locked, unlocked. destruct (_ =? 0)%Z, (_ =? 0)%Z; cbn; lia.
Qed.

(** Nodes at most as deep as [n]: an upper bound of the walk. *)
Definition depth (c : Cache) (P : paths) (n : nat) : nat :=
  size (filter (λ m, length (P m).1 ≤ length (P n).1) (dom (heap c))).

Lemma depth_parent c P H n x p d :
  debt_ok c P H n d → heap c !! n = Some x → n ≠ root_node c → parent x = Some p → depth c P p < depth c P n.
Proof.
  intros Hok Hx Hn Hp. destruct (tree_edge _ _ _ _ (db_tree _ _ _ _ _ Hok) n x Hn Hx) as (p' & He).
  pose proof (edge_parent _ _ _ _ _ _ _ He) as Hp'. assert (p' = p) as -> by congruence.
  destruct (edge_path _ _ _ He) as [Hl _]. destruct (edge_len _ _ _ _ _ _ _ He).
  pose proof (tree_ps _ _ _ _ (db_tree _ _ _ _ _ Hok)). unfold depth. apply subset_size. split.
  - intros m. rewrite !elem_of_filter. intros [? ?]. split; [lia|done].
  - intros Hsub. specialize (Hsub n). rewrite !elem_of_filter in Hsub. destruct Hsub as [? _]; [|lia].
    split; [done|]. apply elem_of_dom. by exists x.
Qed.

Lemma relocked_dom h h' : relocked h h' → dom h' = dom h.
Proof.
  intros Hr. apply set_eq. intros n. rewrite !elem_of_dom, (Hr n). by destruct (h !! n).
Qed.

Lemma depth_le c P n : depth c P n ≤ size (heap c).
Proof. unfold depth. rewrite <- size_dom. apply subseteq_size. intros m. rewrite elem_of_filter. by intros [_ ?]. Qed.

Lemma kids_nonneg c P H n d x y :
  debt_ok c P H n d → heap c !! y = Some x → (0 ≤ kids_lock (heap c) x)%Z.
Proof.
  intros Hok Hx. apply msum_nonneg. intros q m Hm. destruct (tree_child _ _ _ _ (db_tree _ _ _ _ _ Hok) _ _ _ _ Hx Hm) as (w & Hr & Hw & _).
  unfold lock_at. rewrite Hw. cbn. by apply (db_locks _ _ _ _ _ Hok m w).
Qed.

(** The step never makes a lock negative. *)
Lemma debt_nonneg c P H n x d :
  direction d → debt_ok c P H n d → heap c !! n = Some x → n ≠ root_node c → (0 ≤ lock_ref x + d)%Z.
Proof.
  intros Hd Hok Hx Hn. destruct (db_locks _ _ _ _ _ Hok n x Hx Hn) as [L1 L2]. rewrite decide_True in L2 by done.
  pose proof (kids_nonneg _ _ _ _ _ _ _ Hok Hx). pose proof (db_holders _ _ _ _ _ Hok n) as [? _]. lia.
Qed.

(** The walk of either direction. *)
Fixpoint walk (d : Z) (e : py_exn) (fuel : nat) (node : nat) (delta : Z) (c : Cache) : result (Z * Cache) :=
  match fuel with
  | 0 => Raise OutOfFuel
  | S fuel =>
      if node =? root_node c then Ok (delta, c) else
      x ← get c node;
      let len := Z.of_nat (key_len (key x)) in
      let '(delta, c) := if (lock_ref x =? threshold d)%Z then ((delta + - d * len)%Z, add_sizes (- d * len) (d * len) c)
                         else (delta, c) in
      c ← update_leaf_status node (upd node (add_lock d) c);
      p ← match parent x with Some p => Ok p | None => Raise e end;
      walk d e fuel p delta c
  end.

Lemma inc_loop_walk fuel n delta c : inc_loop fuel n delta c = walk 1 AttributeError fuel n delta c.
Proof.
  revert n delta c. induction fuel as [|fuel IH]; intros n delta c; [done|]. cbn [inc_loop walk].
  destruct (n =? root_node c); [done|]. destruct (get c n) as [x|e]; [|done]. cbn [mbind result_bind].
  change (threshold 1) with 0%Z. rewrite Z.mul_1_l. replace (- (1) * Z.of_nat (key_len (key x)))%Z with (- Z.of_nat (key_len (key x)))%Z by lia.
  rewrite <- Z.sub_opp_r, Z.opp_involutive. destruct (lock_ref x =? 0)%Z; destruct (update_leaf_status _ _); cbn [mbind result_bind]; try done;
    destruct (parent x); cbn [mbind result_bind]; try done; apply IH.
Qed.

Lemma dec_loop_walk fuel n delta c : dec_loop fuel n delta c = walk (-1) AssertionError fuel n delta c.
Proof.
  revert n delta c. induction fuel as [|fuel IH]; intros n delta c; [done|]. cbn [dec_loop walk].
  destruct (n =? root_node c); [done|]. destruct (get c n) as [x|e]; [|done]. cbn [mbind result_bind].
  change (threshold (-1)) with 1%Z. replace (- -1 * Z.of_nat (key_len (key x)))%Z with (Z.of_nat (key_len (key x))) by lia.
  replace (-1 * Z.of_nat (key_len (key x)))%Z with (- Z.of_nat (key_len (key x)))%Z by lia.
  destruct (lock_ref x =? 1)%Z; destruct (update_leaf_status _ _); cbn [mbind result_bind]; try done;
    destruct (parent x); cbn [mbind result_bind]; try done; apply IH.
Qed.

(** The walk from [n] adds [d] to the lock of every node on the path to the root, to no other. *)
Definition path_locks (c c' : Cache) (n : nat) (d : Z) : Prop :=
  ∀ m, m ≠ root_node c →
    (anc (root := root_node c) (h := heap c) m n → lock_at (heap c') m = (lock_at (heap c) m + d)%Z) ∧
    (¬ anc (root := root_node c) (h := heap c) m n → lock_at (heap c') m = lock_at (heap c) m).

Lemma relocked_anc root h h' a n :
  relocked h h' → anc (root := root) (h := h) a n ↔ anc (root := root) (h := h') a n.
Proof.
  intros Hr. split; (induction 1 as [|n x p Hn Hx Hp Ha IH]; [constructor|]).
  - specialize (Hr n). rewrite Hx in Hr. cbn in Hr. by eapply anc_step.
  - specialize (Hr n). rewrite Hx in Hr. destruct (h !! n) as [y|] eqn:Hy; [|done]. cbn in Hr. injection Hr as E.
    eapply anc_step; [done|done| |done]. by rewrite E in Hp.
Qed.

Lemma path_locks_step c P H n x p d c1 c' :
  debt_ok c P H n d → heap c !! n = Some x → n ≠ root_node c → parent x = Some p →
  heap c1 = <[n := add_lock d x]> (heap c) → root_node c1 = root_node c → path_locks c1 c' p d → path_locks c c' n d.
Proof.
  intros Hok Hx Hn Hp Hh Er Hpl m Hm. pose proof (db_tree _ _ _ _ _ Hok) as Ht.
  pose proof (relocked_insert (heap c) n x d Hx) as Hr. rewrite <- Hh in Hr. destruct (Hpl m ltac:(by rewrite Er)) as [Hy Hno].
  rewrite Er, <- !(relocked_anc _ _ _ _ _ Hr) in *. assert (E1 : lock_at (heap c1) m = (lock_at (heap c) m + if decide (m = n) then d else 0)%Z).
  { rewrite Hh. by apply step_lock_at. }
  destruct (decide (m = n)) as [->|Hmn].
  - split; [intros _|intros Ha; destruct Ha; constructor]. rewrite Hno, E1; [done|]. intros Ha.
    destruct (anc_prefix_path Ht n p Ha) as [Hl%prefix_length _]. destruct (tree_edge _ _ _ _ Ht n x Hn Hx) as (p' & He).
    pose proof (edge_parent _ _ _ _ _ _ _ He) as Hp'. assert (p' = p) as -> by congruence.
    destruct (edge_path _ _ _ He) as [El _]. destruct (edge_len _ _ _ _ _ _ _ He). pose proof (tree_ps _ _ _ _ Ht). lia.
  - rewrite Z.add_0_r in E1. split.
    + intros Ha. rewrite <- E1. apply Hy. inversion Ha as [|? x' p' ? Hx' Hp' Ha']; subst; [done|]. congruence.
    + intros Ha. rewrite <- E1. apply Hno. contradict Ha. by eapply anc_step.
Qed.

Lemma walk_spec d e fuel c P H n x delta :
  direction d → debt_ok c P H n d → heap c !! n = Some x → depth c P n < fuel →
  ∃ c', walk d e fuel n delta c = Ok ((delta + (evictable_size_ c' - evictable_size_ c))%Z, c') ∧
    cache_ok c' P H ∧ same c c' ∧ path_locks c c' n d.
Proof.
  intros Hd. revert c n x delta. induction fuel as [|fuel IH]; intros c n x delta Hok Hx Hf; [lia|].
  cbn [walk]. destruct (Nat.eqb_spec n (root_node c)) as [->|Hn].
  { exists c. rewrite Z.sub_diag, Z.add_0_r. split; [done|]. split; [by apply debt_root in Hok|]. split; [apply same_refl|].
    intros m Hm. split; [|done]. intros Ha. inversion Ha; subst; done. }
  rewrite (get_Some _ _ _ Hx). cbn [mbind result_bind].
  destruct (tree_edge _ _ _ _ (db_tree _ _ _ _ _ Hok) n x Hn Hx) as (p & He).
  pose proof (edge_parent _ _ _ _ _ _ _ He) as Hp. destruct (edge_link _ _ _ _ _ _ _ He) as (px & _ & Hpx & _).
  destruct (walk_step c P H n x p d Hd Hok Hx Hn (debt_nonneg _ _ _ _ _ _ Hd Hok Hx Hn) Hp) as (c1 & Hrun & Hok1 & S1 & E1 & Hh1).
  assert (Hc1 : ∀ k : Z → Cache → result (Z * Cache),
    (let '(delta, c0) := if (lock_ref x =? threshold d)%Z
       then ((delta + - d * Z.of_nat (key_len (key x)))%Z, add_sizes (- d * Z.of_nat (key_len (key x))) (d * Z.of_nat (key_len (key x))) c)
       else (delta, c) in
     c0 ← update_leaf_status n (upd n (add_lock d) c0); k delta c0) = k (delta + (evictable_size_ c1 - evictable_size_ c))%Z c1).
  { intros k. rewrite E1. unfold resize in Hrun |- *. destruct (lock_ref x =? threshold d)%Z; rewrite Hrun; cbn [mbind result_bind]; f_equal; cbn; lia. }
  rewrite Hp. cbv zeta. setoid_rewrite (Hc1 (λ delta c0, p ← Ok p; walk d e fuel p delta c0)). cbn [mbind result_bind].
  destruct (relocked_lookup _ _ _ _ (sm_heap _ _ S1) Hpx) as (px' & Hpx' & _).
  assert (Hdp : depth c1 P p = depth c P p) by (unfold depth; by rewrite (relocked_dom _ _ (sm_heap _ _ S1))).
  pose proof (depth_parent _ _ _ _ _ _ _ Hok Hx Hn Hp) as Hlt.
  destruct (IH c1 p px' (delta + (evictable_size_ c1 - evictable_size_ c))%Z Hok1 Hpx' ltac:(lia)) as (c' & -> & Hok' & S' & Hpl).
  exists c'. split; [f_equal; f_equal; lia|]. split; [done|]. split; [by eapply same_trans|].
  apply (path_locks_step c P H n x p d c1 c' Hok Hx Hn Hp Hh1); [apply S1|done].
Qed.

(** ** Content and locks *)

Lemma relocked_content c c' P N us vs :
  relocked (heap c) (heap c') → root_node c' = root_node c → content c P N us vs ↔ content c' P N us vs.
Proof.
  intros Hr Er. unfold content. rewrite Er. split; intros (n & x & m & Hn & Hx & HN & Hus & Hvs).
  - destruct (relocked_lookup _ _ _ _ Hr Hx) as (y & Hy & E). unfold skeleton in E. injection E as _ _ Ek _.
    exists n, y, m. rewrite Ek. done.
  - specialize (Hr n). rewrite Hx in Hr. destruct (heap c !! n) as [y|] eqn:Hy; [|done]. cbn in Hr. injection Hr as ->.
    exists n, y, m. done.
Qed.

(** Nodes deeper than [n]: fewer for a child. *)
Definition deeper (c : Cache) (P : paths) (n : nat) : nat :=
  size (filter (λ m, length (P n).1 < length (P m).1) (dom (heap c))).

Lemma deeper_child c P H n x q m :
  cache_ok c P H → heap c !! n = Some x → children x !! q = Some m →
  ∃ y, m ≠ root_node c ∧ heap c !! m = Some y ∧ deeper c P m < deeper c P n.
Proof.
  intros Hok Hx Hm. pose proof (co_tree _ _ _ Hok) as Ht.
  destruct (tree_child _ _ _ _ Ht _ _ _ _ Hx Hm) as (y & Hmr & Hy & Hyp & _). exists y. split_and!; try done.
  destruct (tree_edge _ _ _ _ Ht m y Hmr Hy) as (p & He). pose proof (edge_parent _ _ _ _ _ _ _ He) as Hp.
  assert (p = n) as -> by congruence. destruct (edge_path _ _ _ He) as [Hlen _]. destruct (edge_len _ _ _ _ _ _ _ He).
  pose proof (tree_ps _ _ _ _ Ht). apply subset_size. split.
  - intros j. rewrite !elem_of_filter. intros [? ?]. split; [lia|done].
  - intros Hsub. specialize (Hsub m). rewrite !elem_of_filter in Hsub. destruct Hsub as [? _]; [|lia].
    split; [lia|]. apply elem_of_dom. by exists y.
Qed.

(** The locks follow from the handles. *)
Lemma locks_unique c c' P P' H :
  cache_ok c P H → cache_ok c' P' H → root_node c' = root_node c → relocked (heap c) (heap c') → heap c' = heap c.
Proof.
  intros Hok Hok' Er Hr.
  enough (Hl : ∀ k n x, heap c !! n = Some x → deeper c P n < k →
    lock_at (heap c') n = lock_ref x).
  { apply map_eq. intros n. rewrite (Hr n). destruct (heap c !! n) as [x|] eqn:Hx; [|done]. cbn.
    by rewrite (Hl _ n x Hx (Nat.lt_succ_diag_r _)), Z.sub_diag, add_lock_0. }
  induction k as [|k IH]; intros n x Hx Hk; [lia|]. destruct (relocked_lookup _ _ _ _ Hr Hx) as (x' & Hx' & Esk).
  unfold lock_at. rewrite Hx'. cbn. destruct (decide (n = root_node c)) as [->|Hn].
  { rewrite (co_root _ _ _ Hok x Hx). apply (co_root _ _ _ Hok'). by rewrite Er. }
  destruct (co_locks _ _ _ Hok n x Hx Hn) as [_ ->]. destruct (co_locks _ _ _ Hok' n x' Hx' ltac:(by rewrite Er)) as [_ ->].
  f_equal. unfold kids_lock. unfold skeleton in Esk. injection Esk as -> _ _ _. apply msum_ext. intros q.
  destruct (children x !! q) as [m|] eqn:Hm; [|done]. cbn. f_equal.
  destruct (deeper_child c P H n x q m Hok Hx Hm) as (y & _ & Hy & Hlt).
  unfold lock_at at 2. rewrite Hy. cbn. apply (IH m y Hy). lia.
Qed.

Lemma inc_lock_ref_spec c P H n x :
  cache_ok c P H → heap c !! n = Some x → disable c = false →
  ∃ c', inc_lock_ref n c = Ok ((evictable_size_ c' - evictable_size_ c)%Z, c') ∧
    cache_ok c' P (add_handle n 1 H) ∧ same c c' ∧ path_locks c c' n 1.
Proof.
  intros Hok Hx Hdis. unfold inc_lock_ref. rewrite Hdis, inc_loop_walk.
  pose proof (co_holders _ _ _ Hok n) as [Hn _].
  apply (walk_spec 1 AttributeError (S (size (heap c))) c P (add_handle n 1 H) n x 0); [by left| |done|].
  - eapply debt_start; [done|done|lia].
  - pose proof (depth_le c P n). lia.
Qed.

Lemma dec_lock_ref_spec c P H n x :
  cache_ok c P H → heap c !! n = Some x → disable c = false → (1 ≤ H n)%Z ∨ n = root_node c →
  ∃ c', dec_lock_ref n c = Ok ((evictable_size_ c' - evictable_size_ c)%Z, c') ∧
    cache_ok c' P (if decide (n = root_node c) then H else add_handle n (-1) H) ∧ same c c' ∧ path_locks c c' n (-1).
Proof.
  intros Hok Hx Hdis Hn. unfold dec_lock_ref. rewrite Hdis, dec_loop_walk. case_decide as Hr.
  - apply (walk_spec (-1) AssertionError (S (size (heap c))) c P H n x 0); [by right| |done|].
    + subst n. by apply debt_root.
    + pose proof (depth_le c P n). lia.
  - destruct Hn as [Hn|?]; [|done].
    apply (walk_spec (-1) AssertionError (S (size (heap c))) c P (add_handle n (-1) H) n x 0); [by right| |done|].
    + eapply debt_start; [done|done|lia].
    + pose proof (depth_le c P n). lia.
Qed.
