(* ===== verification/RadixEvict.v ===== *)
(** * RadixEvict: giving cached tokens back

    [_delete_leaf] and [evict] of [RadixTree]: victims are unlocked leaves, taken in the order
    of the eviction strategy, and freeing stops when enough tokens are free or nothing
    unlocked is left. *)

From S2P Require Import Prelude RadixKey RadixTree RadixInv RadixSplit RadixMatch RadixInsert RadixLock.
#[local] Open Scope nat_scope.

(** ** Removing a leaf *)

Record prunable (c : Cache) (P : paths) (n p : nat) (x px : TreeNode) (ck : PyVal) (v : list Z) : Prop := {
  pr_n : n ≠ root_node c;
  pr_x : heap c !! n = Some x;
  pr_edge : edge_ok (page_size c) (root_node c) (heap c) P n x p;
  pr_p : heap c !! p = Some px;
  pr_ck : child_key (key x) (page_size c) = Ok ck;
  pr_link : children px !! ck = Some n;
  pr_value : value x = Some v ∧ length v = key_len (key x);
  pr_leaf : children x = ∅;
  pr_lock : lock_ref x = 0%Z;
}.

Lemma leaf_prunable c P H n :
  cache_ok c P H → n ∈ evictable_leaves c → ∃ p x px ck v, prunable c P n p x px ck v.
Proof.
  intros Hok Hn. apply (co_leaves _ _ _ Hok) in Hn as (x & Hx & Hl & Hc).
  assert (Hr : n ≠ root_node c). { intros ->. rewrite (co_root _ _ _ Hok x Hx) in Hl. done. }
  destruct (node_edge _ _ _ _ _ Hok Hr Hx) as (p & px & He & Hp).
  destruct (edge_link _ _ _ _ _ _ _ He) as (px' & ck & Hp' & Hck & Hlink & _). assert (px' = px) as -> by congruence.
  destruct (edge_value _ _ _ _ _ _ _ He) as (v & Hv & Hvl & _). exists p, x, px, ck, v. by split.
Qed.

Section prune.
Context {c : Cache} {P : paths} {H : holders} (Hok : cache_ok c P H).
Context {n p : nat} {x px : TreeNode} {ck : PyVal} {v : list Z}.
Hypothesis D : prunable c P n p x px ck v.

Definition prune_heap : gmap nat TreeNode := delete n (<[p := set_children (delete ck) px]> (heap c)).

Lemma prune_ne : p ≠ n ∧ H n = 0%Z.
Proof.
  pose proof (co_tree _ _ _ Hok) as Ht. destruct D as [Dn Dx De Dp Dck Dl [Dv _] Dlf Dlk]. split.
  - intros ->. destruct (edge_path _ _ _ De) as [Hl _]. destruct (edge_len _ _ _ _ _ _ _ De).
    pose proof (tree_ps _ _ _ _ Ht). lia.
  - destruct (co_locks _ _ _ Hok n x Dx Dn) as [_ L]. unfold kids_lock in L. rewrite Dlf, msum_empty in L. lia.
Qed.

Lemma prune_lookup m : prune_heap !! m =
  if decide (m = n) then None else if decide (m = p) then Some (set_children (delete ck) px) else heap c !! m.
Proof. unfold prune_heap. destruct prune_ne as [? _]. repeat case_decide; subst; by simplify_map_eq. Qed.

(** Other nodes stay; only the parent loses a child. *)
Lemma prune_old m y : heap c !! m = Some y → m ≠ n → ∃ y', prune_heap !! m = Some y' ∧
  parent y' = parent y ∧ key y' = key y ∧ value y' = value y ∧ lock_ref y' = lock_ref y ∧
  get_priority (eviction_strategy c) y' = get_priority (eviction_strategy c) y ∧ last_access_time y' = last_access_time y ∧
  (m ≠ p → y' = y) ∧ (m = p → children y' = delete ck (children y)).
Proof.
  intros Hy Hm. rewrite prune_lookup, decide_False by done. destruct (decide (m = p)) as [->|Hp]; [|by exists y].
  pose proof (pr_p _ _ _ _ _ _ _ _ D). assert (y = px) as -> by congruence. eexists. split; [done|].
  done.
Qed.

Lemma prune_inv m y' : prune_heap !! m = Some y' → m ≠ n ∧ ∃ y, heap c !! m = Some y.
Proof.
  rewrite prune_lookup. case_decide; [done|]. intros Hy. split; [done|]. case_decide; [subst|by exists y'].
  exists px. apply D.
Qed.

(** No other node has [n] as child. *)
Lemma prune_child m y q : heap c !! m = Some y → children y !! q = Some n → m = p ∧ q = ck.
Proof.
  intros Hy Hq. destruct (tree_child _ _ _ _ (co_tree _ _ _ Hok) _ _ _ _ Hy Hq) as (w & _ & Hw & Hwp & Hwk).
  destruct D as [Dn Dx De Dp Dck Dl _ _ _]. assert (w = x) as -> by congruence.
  pose proof (edge_parent _ _ _ _ _ _ _ De). split; congruence.
Qed.

Lemma prune_tree : tree_ok (page_size c) (root_node c) prune_heap P.
Proof.
  pose proof (co_tree _ _ _ Hok) as Ht. destruct prune_ne as [Hpn _]. pose proof D as [Dn Dx De Dp Dck Dl _ Dlf _].
  split; [apply Ht|..].
  - destruct (tree_root _ _ _ _ Ht) as (r & Hr & R1 & R2 & R3 & R4).
    destruct (prune_old _ r Hr (not_eq_sym Dn)) as (r' & Hr' & E1 & E2 & E3 & _). exists r'. by rewrite E1, E2, E3.
  - intros m y' Hm Hy'. destruct (prune_inv m y' Hy') as (Hmn & y & Hy).
    destruct (prune_old m y Hy Hmn) as (y2 & Hy2 & E1 & E2 & E3 & _). assert (y2 = y') as -> by congruence.
    destruct (tree_edge _ _ _ _ Ht m y Hm Hy) as (q & [F1 (qx & cq & Hq & Hcq & Hqc & Hns) F3 F4 F5]).
    assert (q ≠ n) as Hqn. { intros ->. assert (qx = x) as -> by congruence. by rewrite Dlf, lookup_empty in Hqc. }
    destruct (prune_old q qx Hq Hqn) as (qx' & Hq' & G1 & G2 & G3 & _ & _ & _ & G4 & G5).
    exists q. split; [congruence| |rewrite E2, E3; done|by rewrite E2|by rewrite E2].
    exists qx', cq. rewrite E2, G2. split_and!; try done. destruct (decide (q = p)) as [->|Hqp]; [|by rewrite G4].
    rewrite G5 by done. rewrite lookup_delete_ne; [done|]. intros <-. congruence.
  - intros m y' q j Hy' Hc. destruct (prune_inv m y' Hy') as (Hmn & y & Hy).
    destruct (prune_old m y Hy Hmn) as (y2 & Hy2 & E1 & E2 & E3 & _ & _ & _ & E4 & E5). assert (y2 = y') as -> by congruence.
    assert (Hcy : children y !! q = Some j ∧ j ≠ n).
    { destruct (decide (m = p)) as [->|Hmp].
      - rewrite E5 in Hc by done. apply lookup_delete_Some in Hc as [Hq Hc]. split; [done|]. intros ->.
        by destruct (prune_child p y q Hy Hc).
      - rewrite E4 in Hc by done. split; [done|]. intros ->. by destruct (prune_child m y q Hy Hc). }
    destruct Hcy as [Hcy Hjn]. destruct (tree_child _ _ _ _ Ht _ _ _ _ Hy Hcy) as (w & Hjr & Hw & Hwp & Hwk).
    destruct (prune_old j w Hw Hjn) as (w' & Hw' & G1 & G2 & _). exists w'. by rewrite G1, G2.
Qed.

Lemma prune_kids m y y' : heap c !! m = Some y → prune_heap !! m = Some y' → kids_lock prune_heap y' = kids_lock (heap c) y.
Proof.
  intros Hy Hy'. destruct (prune_inv m y' Hy') as (Hmn & _).
  destruct (prune_old m y Hy Hmn) as (y2 & Hy2 & _ & _ & _ & _ & _ & _ & E4 & E5). assert (y2 = y') as -> by congruence.
  assert (Hat : ∀ j, j ≠ n → lock_at prune_heap j = lock_at (heap c) j).
  { intros j Hj. unfold lock_at. rewrite prune_lookup, decide_False by done. case_decide as E; [|done]. subst j.
    by rewrite (pr_p _ _ _ _ _ _ _ _ D). }
  unfold kids_lock. destruct (decide (m = p)) as [->|Hmp].
  - rewrite E5 by done. pose proof (pr_p _ _ _ _ _ _ _ _ D). assert (y = px) as -> by congruence.
    rewrite <- (insert_delete_id (children px) ck n) at 2 by apply D. rewrite msum_insert by apply lookup_delete_eq.
    unfold lock_at at 2. rewrite (pr_x _ _ _ _ _ _ _ _ D). cbn. rewrite (pr_lock _ _ _ _ _ _ _ _ D), Z.add_0_l.
    apply msum_ext. intros q. destruct (delete ck (children px) !! q) as [j|] eqn:Hj; [|done]. cbn. f_equal. apply Hat. intros ->.
    apply lookup_delete_Some in Hj as [Hq Hj]. by destruct (prune_child p px q Hy Hj).
  - rewrite E4 by done. apply msum_ext. intros q. destruct (children y !! q) as [j|] eqn:Hj; [|done]. cbn. f_equal. apply Hat. intros ->.
    by destruct (prune_child m y q Hy Hj).
Qed.

Lemma prune_weight (q : TreeNode → bool) :
  (∀ x y, lock_ref x = lock_ref y → q x = q y) →
  weight (root_node c) q prune_heap = (weight (root_node c) q (heap c) - if q x then Z.of_nat (key_len (key x)) else 0)%Z.
Proof.
  intros Hq. destruct prune_ne as [Hpn _]. pose proof D as [Dn Dx De Dp Dck Dl _ _ _]. unfold weight, prune_heap.
  rewrite (msum_delete _ _ n x) by by simplify_map_eq. rewrite (msum_update _ _ p px) by done.
  unfold node_weight at 2 3 4. rewrite (Hq (set_children _ px) px) by done. cbn [key set_children].
  rewrite (bool_decide_eq_false_2 (n = root_node c)) by done. lia.
Qed.

Lemma prune_owned i : owned prune_heap i = (owned (heap c) i - tally v i)%Z.
Proof.
  destruct prune_ne as [Hpn _]. pose proof D as [Dn Dx De Dp Dck Dl [Dv _] _ _]. unfold owned, prune_heap.
  rewrite (msum_delete _ _ n x) by by simplify_map_eq. rewrite (msum_update _ _ p px) by done.
  unfold owned_at at 2 3 4. rewrite Dv. cbn. lia.
Qed.

Lemma prune_size : S (size prune_heap) = size (heap c).
Proof.
  destruct prune_ne as [Hpn _]. pose proof D as [Dn Dx De Dp _ _ _ _ _]. unfold prune_heap.
  assert (Hn : <[p := set_children (delete ck) px]> (heap c) !! n = Some x) by by simplify_map_eq.
  rewrite map_size_delete, Hn, map_size_insert, Dp. destruct (size (heap c)) as [|s] eqn:E; [|done].
  apply map_size_empty_inv in E. by rewrite E, lookup_empty in Dx.
Qed.

Lemma prune_leaf m : (∃ y, prune_heap !! m = Some y ∧ lock_ref y = 0%Z ∧ children y = ∅) ↔
  (m = p ∧ lock_ref px = 0%Z ∧ delete ck (children px) = ∅) ∨ (m ≠ n ∧ m ≠ p ∧ m ∈ evictable_leaves c).
Proof.
  destruct prune_ne as [Hpn _]. split.
  - intros (y' & Hy' & Hl & Hc). destruct (prune_inv m y' Hy') as (Hmn & y & Hy).
    destruct (prune_old m y Hy Hmn) as (y2 & Hy2 & _ & _ & _ & El & _ & _ & E4 & E5). assert (y2 = y') as -> by congruence.
    destruct (decide (m = p)) as [->|Hmp].
    + left. pose proof (pr_p _ _ _ _ _ _ _ _ D). assert (y = px) as -> by congruence. rewrite E5 in Hc by done. split_and!; [done|congruence|done].
    + right. split_and!; [done..|]. apply (co_leaves _ _ _ Hok). exists y. rewrite <- (E4 Hmp). specialize (E4 Hmp). subst y'. done.
  - intros [(-> & Hl & Hc)|(Hmn & Hmp & Hm)].
    + eexists. rewrite prune_lookup, decide_False, decide_True by done. done.
    + apply (co_leaves _ _ _ Hok) in Hm as (y & Hy & Hl & Hc). exists y. rewrite prune_lookup, !decide_False by done. done.
Qed.

Context {c' : Cache}.
Hypothesis Hheap : heap c' = prune_heap.
Hypothesis Hframe : frame c c'.

Lemma prune_ok :
  counter c' = counter c → evictable_size_ c' = (evictable_size_ c - Z.of_nat (key_len (key x)))%Z →
  protected_size_ c' = protected_size_ c →
  (∀ m, m ∈ evictable_leaves c' ↔
    (m = p ∧ lock_ref px = 0%Z ∧ delete ck (children px) = ∅) ∨ (m ≠ n ∧ m ≠ p ∧ m ∈ evictable_leaves c)) →
  cache_ok c' P H.
Proof.
  intros Ecnt Eev Epr Elv. pose proof Hframe as [_ Eps _ _ _ Ert]. destruct prune_ne as [Hpn HHn].
  assert (Hback : ∀ m y', prune_heap !! m = Some y' → ∃ y, heap c !! m = Some y ∧ lock_ref y' = lock_ref y).
  { intros m y' Hy'. destruct (prune_inv m y' Hy') as (Hmn & y & Hy).
    destruct (prune_old m y Hy Hmn) as (y2 & Hy2 & _ & _ & _ & El & _). exists y. split; [done|congruence]. }
  split; rewrite ?Eps, ?Ert, ?Ecnt, ?Eev, ?Epr, ?Hheap.
  - apply prune_tree.
  - intros m y' Hy'. destruct (Hback m y' Hy') as (y & Hy & _). by eapply (co_fresh _ _ _ Hok).
  - intros r Hr. destruct (Hback _ r Hr) as (r0 & Hr0 & ->). by apply (co_root _ _ _ Hok).
  - intros m y' Hy' Hm. destruct (Hback m y' Hy') as (y & Hy & ->). rewrite (prune_kids m y y') by done. by apply (co_locks _ _ _ Hok).
  - intros m. destruct (co_holders _ _ _ Hok m) as [H1 H2]. split; [done|]. intros Hm. destruct (decide (m = n)) as [->|Hmn]; [done|].
    apply H2. destruct (heap c !! m) as [y|] eqn:Hy; [|done]. destruct (prune_old m y Hy Hmn) as (y' & Hy' & _). congruence.
  - rewrite (prune_weight unlocked unlocked_ext), (co_evictable _ _ _ Hok). unfold unlocked at 3. by rewrite (pr_lock _ _ _ _ _ _ _ _ D).
  - rewrite (prune_weight locked locked_ext), (co_protected _ _ _ Hok). unfold locked at 3. rewrite (pr_lock _ _ _ _ _ _ _ _ D). cbn. lia.
  - intros m. by rewrite Elv, prune_leaf.
Qed.
End prune.

(** [_delete_leaf] on an evictable leaf. *)
Lemma delete_leaf_spec c P H n p x px ck v :
  cache_ok c P H → prunable c P n p x px ck v →
  ∃ c', delete_leaf n c = Ok c' ∧ cache_ok c' P H ∧ frame c c' ∧ frees c' = frees c ∧
    heap c' = prune_heap (c := c) (n := n) (p := p) (px := px) (ck := ck) ∧
    evictable_size_ c' = (evictable_size_ c - Z.of_nat (length v))%Z ∧ protected_size_ c' = protected_size_ c.
Proof.
  intros Hok D. destruct (prune_ne Hok D) as [Hpn _]. pose proof D as [Dn Dx De Dp Dck Dl [Dv Dvl] Dlf Dlk].
  unfold delete_leaf. rewrite (get_Some _ _ _ Dx). cbn [mbind result_bind]. rewrite Dck. cbn [mbind result_bind].
  rewrite (edge_parent _ _ _ _ _ _ _ De). cbn [mbind result_bind]. rewrite (get_Some _ _ _ Dp). cbn [mbind result_bind].
  rewrite Dl. unfold py_assert. rewrite bool_decide_eq_true_2 by done. cbn [py_check mbind result_bind].
  set (c1 := set_leaves (λ l, l ∖ {[n]}) (add_sizes (- Z.of_nat (key_len (key x))) 0 (upd p (set_children (delete ck)) c))).
  assert (Hh1 : heap c1 = <[p := set_children (delete ck) px]> (heap c)) by (by apply alter_Some).
  assert (Hp1 : heap c1 !! p = Some (set_children (delete ck) px)) by (by rewrite Hh1, lookup_insert_eq).
  destruct (update_leaf_status_spec c1 p _ Hp1) as (L & Hrun & HL).
  - cbn. exact (node_value _ _ _ _ _ Hok Dp).
  - cbn. destruct (decide (p = root_node c)) as [->|Hp]; [rewrite (co_root _ _ _ Hok px Dp); lia|by apply (co_locks _ _ _ Hok p)].
  - intros q m Hm. cbn in Hm. apply lookup_delete_Some in Hm as [_ Hm].
    destruct (tree_child _ _ _ _ (co_tree _ _ _ Hok) _ _ _ _ Dp Hm) as (y & _ & Hy & Hyp & _). rewrite Hh1.
    destruct (decide (m = p)) as [->|Hmp].
    + rewrite lookup_insert_eq. eexists. split; [done|]. exact (node_value _ _ _ _ _ Hok Dp).
    + rewrite lookup_insert_ne by done. exists y. split; [done|]. exact (node_value _ _ _ _ _ Hok Hy).
  - rewrite Hrun. cbn [mbind result_bind]. set (c' := set_heap (delete n) (set_leaves (λ _, L) c1)). exists c'.
    assert (Hh : heap c' = prune_heap (c := c) (n := n) (p := p) (px := px) (ck := ck)).
    { change (heap c') with (delete n (heap c1)). by rewrite Hh1. }
    assert (Hf : frame c c') by by split.
    assert (Eev : evictable_size_ c' = (evictable_size_ c - Z.of_nat (key_len (key x)))%Z) by done.
    assert (Epr : protected_size_ c' = protected_size_ c) by (change (protected_size_ c') with (protected_size_ c + 0)%Z; lia).
    split; [done|]. split; [|rewrite Dvl; done]. apply (prune_ok Hok D Hh Hf eq_refl Eev Epr). intros m.
    change (evictable_leaves c') with L. rewrite HL. cbn [lock_ref children set_children].
    change (evictable_leaves c1) with (evictable_leaves c ∖ {[n]}). rewrite elem_of_difference, elem_of_singleton. tauto.
Qed.

(** ** One eviction *)

(** What evicting the leaf [n] with indices [v] does: the node goes, every other node keeps
    everything but the link to it, and the pool gets exactly the indices of [n]. *)
Record removed (c : Cache) (P : paths) (H : holders) (n : nat) (v : list Z) (c' : Cache) : Prop := {
  rm_ok : cache_ok c' P H;
  rm_frame : frame c c';
  rm_frees : frees c' = frees c ++ [FreeSegment v 0];
  rm_sizes : evictable_size_ c' = (evictable_size_ c - Z.of_nat (length v))%Z ∧ protected_size_ c' = protected_size_ c;
  rm_node : heap c' !! n = None;
  rm_old m y : heap c !! m = Some y → m ≠ n → ∃ y', heap c' !! m = Some y' ∧ parent y' = parent y ∧ key y' = key y ∧
    value y' = value y ∧ lock_ref y' = lock_ref y ∧ entry_of c' m = entry_of c m;
  rm_new m y' : heap c' !! m = Some y' → ∃ y, heap c !! m = Some y;
  rm_leaves m : m ∈ evictable_leaves c' ↔ (m ≠ n ∧ m ∈ evictable_leaves c) ∨
    (m ∉ evictable_leaves c ∧ (parent <$> heap c !! n) = Some (Some m) ∧
     ∃ y, heap c' !! m = Some y ∧ lock_ref y = 0%Z ∧ children y = ∅);
  rm_owned i : owned (heap c') i = (owned (heap c) i - tally v i)%Z;
}.

Lemma log_free_ok f c P H : cache_ok c P H → cache_ok (log_free f c) P H.
Proof. by apply cache_ok_similar. Qed.

(** The parent of an evictable leaf is not one. *)
Lemma parent_not_leaf c P H n p x px ck v : cache_ok c P H → prunable c P n p x px ck v → p ∉ evictable_leaves c.
Proof.
  intros Hok D Hp. apply (co_leaves _ _ _ Hok) in Hp as (y & Hy & _ & Hc).
  assert (y = px) as -> by (pose proof (pr_p _ _ _ _ _ _ _ _ D); congruence).
  pose proof (pr_link _ _ _ _ _ _ _ _ D) as Hl. by rewrite Hc, lookup_empty in Hl.
Qed.

Lemma evict_one c P H n p x px ck v :
  cache_ok c P H → prunable c P n p x px ck v →
  ∃ c', delete_leaf n (log_free (FreeSegment v 0) c) = Ok c' ∧ removed c P H n v c' ∧ S (size (heap c')) = size (heap c) ∧
    parent x = Some p ∧ ∃ px', heap c' !! p = Some px'.
Proof.
  intros Hok D. set (c1 := log_free (FreeSegment v 0) c). pose proof (log_free_ok (FreeSegment v 0) c P H Hok) as Hok1. fold c1 in Hok1.
  assert (D1 : prunable c1 P n p x px ck v) by (destruct D; by split).
  destruct (delete_leaf_spec c1 P H n p x px ck v Hok1 D1) as (c' & Hrun & Hok' & F & Efr & Hh & Eev & Epr).
  destruct (prune_ne Hok1 D1) as [Hpn _]. exists c'. split; [done|]. split; [|split_and!].
  - split; try done.
    + etrans; [|exact F]. by split.
    + rewrite Hh. by rewrite (prune_lookup Hok1 D1), decide_True.
    + intros m y Hy Hm. destruct (prune_old Hok1 D1 m y Hy Hm) as (y' & Hy' & E1 & E2 & E3 & E4 & E5 & E6 & _).
      exists y'. rewrite Hh. split_and!; try done. unfold entry_of. rewrite (get_Some _ _ _ Hy), (get_Some c' m y') by (by rewrite Hh).
      cbn [mbind result_bind]. rewrite (fr_strategy _ _ F). change (eviction_strategy c1) with (eviction_strategy c) in *. by rewrite E5, E6.
    + intros m y' Hy'. rewrite Hh in Hy'. by destruct (prune_inv Hok1 D1 m y' Hy') as [_ ?].
    + intros m. rewrite (co_leaves _ _ _ Hok'), Hh, (prune_leaf Hok1 D1). change (evictable_leaves c1) with (evictable_leaves c).
      pose proof (parent_not_leaf c1 P H n p x px ck v Hok1 D1) as Hpl. change (evictable_leaves c1) with (evictable_leaves c) in Hpl.
      rewrite (pr_x _ _ _ _ _ _ _ _ D). cbn [fmap option_fmap option_map]. pose proof (edge_parent _ _ _ _ _ _ _ (pr_edge _ _ _ _ _ _ _ _ D)) as Ep.
      split.
      * intros [(-> & Hl & Hc)|(Hmn & Hmp & Hm)]; [right|by left]. split_and!; [done|by rewrite Ep|by left].
      * intros [[Hmn Hm]|(Hm & Hmp & [?|(_ & _ & ?)])]; [|by left|done]. right. split_and!; [done| |done]. by intros ->.
    + intros i. rewrite Hh. apply (prune_owned Hok1 D1).
  - rewrite Hh. apply (prune_size Hok1 D1).
  - apply D.
  - rewrite Hh. eexists. by rewrite (prune_lookup Hok1 D1), decide_False, decide_True.
Qed.

(** ** Eviction *)

(** The next victim: an evictable leaf that comes first in the order of the strategy. *)
Definition victim (c : Cache) (n : nat) (v : list Z) : Prop :=
  n ∈ evictable_leaves c ∧ (value <$> heap c !! n) = Some (Some v) ∧
  ∃ e, entry_of c n = Ok e ∧ ∀ m, m ∈ evictable_leaves c → ∃ e', entry_of c m = Ok e' ∧ entry_le e e' = true.

(** Freeing [num] tokens, [freed] of them already: victims go one by one until enough is
    free or no leaf is evictable. *)
Inductive evictions (num : nat) (P : paths) (H : holders) : nat → Cache → nat → Cache → Prop :=
  | ev_enough freed c : num ≤ freed ∨ evictable_leaves c = ∅ → evictions num P H freed c freed c
  | ev_victim freed c n v c1 total c' :
      freed < num → victim c n v → removed c P H n v c1 → evictions num P H (freed + length v) c1 total c' →
      evictions num P H freed c total c'.

(** The heap of the loop holds the evictable leaves. *)
Record queue_ok (c : Cache) (q : list entry) : Prop := {
  qu_nodup : NoDup q.*2;
  qu_leaves n : n ∈ q.*2 ↔ n ∈ evictable_leaves c;
  qu_entries e : e ∈ q → entry_of c e.2 = Ok e;
}.

Lemma tuple_le_refl l : tuple_le l l = true.
Proof. induction l as [|x l IH]; [done|]. cbn. by rewrite Z.eqb_refl, IH, orb_true_r. Qed.

Lemma mapM_entries c l q : mapM (entry_of c) l = Ok q → q.*2 = l ∧ ∀ e, e ∈ q → entry_of c e.2 = Ok e.
Proof.
  revert q. induction l as [|n l IH]; intros q; cbn.
  - intros [= <-]. split; [done|]. intros e He. by apply elem_of_nil in He.
  - intros (e & He & (q' & Hq & [= <-])%result_bind_Ok)%result_bind_Ok. destruct (IH q' Hq) as [E Hq'].
    assert (e.2 = n) as En by (unfold entry_of in He; apply result_bind_Ok in He as (x & _ & [= <-]); done).
    split; [cbn; by rewrite E, En|]. intros e' [->|?]%elem_of_cons; [by rewrite En|auto].
Qed.

Lemma queue_start c P H : cache_ok c P H → ∃ q, mapM (entry_of c) (elements (evictable_leaves c)) = Ok q ∧ queue_ok c q.
Proof.
  intros Hok. destruct (mapM_Ok_exists (entry_of c) (elements (evictable_leaves c))) as [q Hq].
  - apply Forall_forall. intros n Hn. apply elem_of_elements, (co_leaves _ _ _ Hok) in Hn as (x & Hx & _).
    unfold entry_of. rewrite (get_Some _ _ _ Hx). cbn. by eexists.
  - exists q. split; [done|]. destruct (mapM_entries c _ q Hq) as [E He]. split; [|intros n|done].
    + rewrite E. apply NoDup_elements.
    + rewrite E. apply elem_of_elements.
Qed.

Lemma queue_perm c q q' : q ≡ₚ q' → queue_ok c q → queue_ok c q'.
Proof.
  intros Hp [H1 H2 H3]. split.
  - by rewrite <- Hp.
  - intros n. by rewrite <- Hp.
  - intros e He. apply H3. by rewrite Hp.
Qed.

(** The popped entry is the next victim. *)
Lemma queue_victim c e q v :
  queue_ok c (e :: q) → Forall (λ e', entry_le e e' = true) q → (value <$> heap c !! e.2) = Some (Some v) → victim c e.2 v.
Proof.
  intros [H1 H2 H3] Hmin Hv. split; [apply H2; by left|]. split; [done|]. exists e. split; [apply H3; by left|].
  intros m Hm. apply H2, list_elem_of_fmap in Hm as (e' & -> & He'). exists e'. split; [by apply H3|].
  apply elem_of_cons in He' as [->|He']; [apply tuple_le_refl|]. rewrite Forall_forall in Hmin. by apply Hmin.
Qed.

(** The queue after an eviction, the parent added when it became an evictable leaf. *)
Lemma queue_next c P H e q v c' p x y :
  queue_ok c (e :: q) → removed c P H e.2 v c' → cache_ok c P H → heap c !! e.2 = Some x → parent x = Some p → heap c' !! p = Some y →
  p ∉ evictable_leaves c →
  ∃ q', (if bool_decide (children y = ∅) && (lock_ref y =? 0)%Z then e' ← entry_of c' p; Ok (e' :: q) else Ok q) = Ok q' ∧
    queue_ok c' q'.
Proof.
  intros [H1 H2 H3] R Hok Hx Hp Hy Hpl. cbn in H1. apply NoDup_cons in H1 as [Hne H1].
  assert (Hq : ∀ e', e' ∈ q → entry_of c' e'.2 = Ok e').
  { intros e' He'. assert (entry_of c e'.2 = Ok e') as E by (apply H3; by right). rewrite <- E.
    assert (e'.2 ∈ evictable_leaves c) as Hl by (apply H2; right; by apply list_elem_of_fmap_2).
    apply (co_leaves _ _ _ Hok) in Hl as (w & Hw & _).
    destruct (rm_old _ _ _ _ _ _ R e'.2 w Hw) as (_ & _ & _ & _ & _ & _ & E2); [|done]. intros E3. apply Hne. rewrite <- E3.
    by apply list_elem_of_fmap_2. }
  assert (Hold : ∀ m, m ∈ q.*2 ↔ m ≠ e.2 ∧ m ∈ evictable_leaves c).
  { intros m. rewrite <- H2. cbn. rewrite elem_of_cons. split; [|naive_solver]. intros Hm. split; [by intros ->|by right]. }
  destruct (bool_decide _ && _) eqn:E.
  - apply andb_true_iff in E as [Hc%bool_decide_eq_true Hl%Z.eqb_eq]. unfold entry_of at 1. rewrite (get_Some _ _ _ Hy). cbn [mbind result_bind].
    eexists. split; [done|]. split; cbn.
    + apply NoDup_cons. split; [|done]. rewrite Hold. tauto.
    + intros m. rewrite elem_of_cons, Hold, (rm_leaves _ _ _ _ _ _ R m), Hx. cbn. rewrite Hp. split.
      * intros [->|?]; [right|by left]. split_and!; [done|done|by exists y].
      * intros [?|(_ & [= ->] & _)]; [by right|by left].
    + intros e' [->|He']%elem_of_cons; [cbn|by apply Hq]. unfold entry_of. by rewrite (get_Some _ _ _ Hy).
  - exists q. split; [done|]. split; [done| |done]. intros m. rewrite Hold, (rm_leaves _ _ _ _ _ _ R m), Hx. cbn. rewrite Hp.
    split; [by left|]. intros [?|(_ & [= ->] & w & Hw & Hl & Hc)]; [done|]. assert (w = y) as -> by congruence.
    rewrite Hl, bool_decide_eq_true_2 in E by done. done.
Qed.

Section evict.
Context `{HeapQLaws}.

Lemma evict_loop_spec fuel num freed q c P Hs :
  cache_ok c P Hs → queue_ok c q → size (heap c) < fuel →
  ∃ total c', evict_loop fuel num freed q c = Ok (total, c') ∧ evictions num P Hs freed c total c'.
Proof.
  revert freed q c. induction fuel as [|fuel IH]; intros freed q c Hok Hq Hf; [lia|]. cbn [evict_loop].
  destruct (Nat.ltb_spec freed num) as [Hlt|Hge]; cbn [negb].
  2: { exists freed, c. split; [done|]. constructor. by left. }
  destruct q as [|e0 q0].
  { rewrite heappop_nil. exists freed, c. split; [done|]. constructor. right. apply set_eq. intros n.
    rewrite <- (qu_leaves _ _ Hq). set_solver. }
  destruct (heappop_cons e0 q0) as (e & q1 & -> & Hperm & Hmin). pose proof (queue_perm _ _ _ Hperm Hq) as Hq1.
  destruct e as [pr n]. assert (Hn : n ∈ evictable_leaves c) by (apply (qu_leaves _ _ Hq1); by left).
  destruct (leaf_prunable c P Hs n Hok Hn) as (p & x & px & ck & v & D). pose proof (pr_x _ _ _ _ _ _ _ _ D) as Hx.
  destruct (pr_value _ _ _ _ _ _ _ _ D) as [Hv _]. rewrite (get_Some _ _ _ Hx). cbn [mbind result_bind]. rewrite Hv. cbn [mbind result_bind].
  destruct (evict_one c P Hs n p x px ck v Hok D) as (c1 & -> & R & Hsz & Hp & px' & Hpx'). cbn [mbind result_bind].
  rewrite Hp. cbn [mbind result_bind]. rewrite (get_Some _ _ _ Hpx'). cbn [mbind result_bind].
  destruct (queue_next c P Hs (pr, n) q1 v c1 p x px' Hq1 R Hok Hx Hp Hpx' (parent_not_leaf _ _ _ _ _ _ _ _ _ Hok D)) as (q2 & -> & Hq2).
  cbn [mbind result_bind]. destruct (IH (freed + length v) q2 c1 (rm_ok _ _ _ _ _ _ R) Hq2 ltac:(lia)) as (total & c' & Hrun & Hev).
  exists total, c'. split; [done|]. eapply ev_victim; [done| |exact R|done].
  apply (queue_victim c (pr, n) q1); [done|done|]. cbn. by rewrite Hx, <- Hv.
Qed.

Lemma evict_spec c P Hs num :
  cache_ok c P Hs → disable c = false →
  ∃ total c', evict num c = Ok (total, c') ∧ evictions num P Hs 0 c total c'.
Proof.
  intros Hok Hdis. unfold evict. rewrite Hdis. destruct (queue_start c P Hs Hok) as (q & -> & Hq). cbn [mbind result_bind].
  apply evict_loop_spec; [done|done|lia].
Qed.
End evict.

(** ** What a run of evictions amounts to *)

Lemma unlocked_leaf c P H k n x :
  cache_ok c P H → heap c !! n = Some x → n ≠ root_node c → lock_ref x = 0%Z → deeper c P n < k →
  ∃ m, m ∈ evictable_leaves c.
Proof.
  intros Hok. revert n x. induction k as [|k IH]; intros n x Hx Hn Hl Hk; [lia|].
  destruct (decide (children x = ∅)) as [Hc|(q & m & Hm)%map_choose].
  - exists n. apply (co_leaves _ _ _ Hok). by exists x.
  - destruct (deeper_child c P H n x q m Hok Hx Hm) as (y & Hmr & Hy & Hlt). apply (IH m y); [done|done| |lia].
    destruct (co_locks _ _ _ Hok n x Hx Hn) as [_ L]. destruct (co_holders _ _ _ Hok n) as [Hh _].
    destruct (co_locks _ _ _ Hok m y Hy Hmr) as [Ly _].
    enough (lock_at (heap c) m ≤ kids_lock (heap c) x)%Z as Hle by (unfold lock_at in Hle; rewrite Hy in Hle; cbn in Hle; lia).
    apply (msum_ge (λ _ m, lock_at (heap c) m) _ q); [|done]. intros q' m' Hm'.
    destruct (deeper_child c P H n x q' m' Hok Hx Hm') as (y' & Hr' & Hy' & _). unfold lock_at. rewrite Hy'. cbn.
    by apply (co_locks _ _ _ Hok m' y').
Qed.

(** Nothing evictable is left but what is locked. *)
Lemma no_leaves_no_size c P H : cache_ok c P H → evictable_leaves c = ∅ → evictable_size_ c = 0%Z.
Proof.
  intros Hok E. rewrite (co_evictable _ _ _ Hok). apply msum_zero. intros n x Hx. unfold node_weight.
  case_bool_decide as Hn; [done|]. unfold unlocked. destruct (Z.eqb_spec (lock_ref x) 0) as [Hl|]; [|done].
  destruct (unlocked_leaf c P H _ n x Hok Hx Hn Hl (Nat.lt_succ_diag_r _)) as [m Hm]. rewrite E in Hm. set_solver.
Qed.

Record evict_outcome (num : nat) (P : paths) (H : holders) (freed : nat) (c : Cache) (total : nat) (c' : Cache) : Prop := {
  eo_ok : cache_ok c' P H;
  eo_frame : frame c c';
  eo_sizes : evictable_size_ c' = (evictable_size_ c + Z.of_nat freed - Z.of_nat total)%Z ∧ protected_size_ c' = protected_size_ c;
  eo_enough : num ≤ total ∨ evictable_size_ c' = 0%Z;
  eo_frees : ∃ segs, frees c' = frees c ++ ((λ v, FreeSegment v 0) <$> segs) ∧ freed + length (concat segs) = total ∧
    ∀ i, owned (heap c) i = (owned (heap c') i + tally (concat segs) i)%Z;
  eo_locked n x : heap c !! n = Some x → lock_ref x ≠ 0%Z →
    ∃ x', heap c' !! n = Some x' ∧ parent x' = parent x ∧ key x' = key x ∧ value x' = value x ∧ lock_ref x' = lock_ref x;
  eo_content N us vs : content c' P N us vs → content c P N us vs;
}.

Lemma evictions_outcome num P H freed c total c' :
  cache_ok c P H → evictions num P H freed c total c' → evict_outcome num P H freed c total c'.
Proof.
  intros Hok Hev. induction Hev as [freed c Hdone|freed c n v c1 total c' Hlt Hvic R Hev IH].
  - split; [done|done|split; [lia|done]| | |intros n x Hx _; by exists x|done].
    + destruct Hdone as [?|E]; [by left|right]. by eapply no_leaves_no_size.
    + exists []. cbn [concat fmap list_fmap]. rewrite app_nil_r. split_and!; [done|cbn; lia|]. intros i. change (tally [] i) with 0%Z. lia.
  - destruct (IH (rm_ok _ _ _ _ _ _ R)) as [O F [S1 S2] E (segs & Fr & Len & Ow) L C]. clear IH.
    destruct (rm_sizes _ _ _ _ _ _ R) as [T1 T2]. pose proof (rm_frame _ _ _ _ _ _ R) as F1.
    split; [done|by etrans|split; [lia|congruence]|done|..].
    + exists (v :: segs). rewrite Fr, (rm_frees _ _ _ _ _ _ R), <- app_assoc. cbn [concat]. rewrite length_app. split_and!; [done|lia|].
      intros i. rewrite tally_app. pose proof (Ow i). pose proof (rm_owned _ _ _ _ _ _ R i). lia.
    + intros m y Hy Hl. destruct (decide (m = n)) as [->|Hm].
      * destruct Hvic as [Hn _]. apply (co_leaves _ _ _ Hok) in Hn as (z & Hz & ? & _). congruence.
      * destruct (rm_old _ _ _ _ _ _ R m y Hy Hm) as (y1 & Hy1 & E1 & E2 & E3 & E4 & _).
        destruct (L m y1 Hy1 ltac:(congruence)) as (y2 & Hy2 & G1 & G2 & G3 & G4). exists y2. split_and!; congruence.
    + intros N us vs Hc. apply C in Hc as (m & y1 & j & Hm & Hy1 & HN & Hus & Hvs). rewrite (fr_root _ _ F1) in Hm.
      destruct (rm_new _ _ _ _ _ _ R m y1 Hy1) as [y Hy]. destruct (decide (m = n)) as [->|Hmn]; [by rewrite (rm_node _ _ _ _ _ _ R) in Hy1|].
      destruct (rm_old _ _ _ _ _ _ R m y Hy Hmn) as (y2 & Hy2 & _ & Ek & _). assert (y2 = y1) as -> by congruence.
      exists m, y, j. rewrite <- Ek. done.
Qed.
