(* ===== verification/RadixProps.v ===== *)
(** * RadixProps: what the prefix cache promises

    The client's view of [RadixTree]: creation, lookup, insertion, locking and eviction, each
    on every cache that satisfies the invariant of [RadixInv]. *)

From S2P Require Import Prelude RadixKey RadixTree RadixInv RadixSplit RadixMatch RadixInsert RadixLock RadixEvict.
#[local] Open Scope nat_scope.

(** ** A heap queue *)

(** [heappop] by selection: the laws of [HeapQ] can be met. *)
Module SelectionHeap.
Fixpoint pop (l : list entry) : option (entry * list entry) :=
  match l with
  | [] => None
  | x :: l =>
      match pop l with
      | None => Some (x, [])
      | Some (y, l') => if entry_le x y then Some (x, y :: l') else Some (y, x :: l')
      end
  end.

Lemma tuple_le_trans a b c : tuple_le a b = true → tuple_le b c = true → tuple_le a c = true.
Proof.
  revert b c. induction a as [|x a IH]; intros [|y b] [|z c]; cbn; try done.
  rewrite !orb_true_iff, !andb_true_iff, !Z.ltb_lt, !Z.eqb_eq. intros [?|[-> H1]] [?|[-> H2]].
  - left. lia.
  - by left.
  - by left.
  - right. split; [done|]. by eapply IH.
Qed.

Lemma tuple_le_total a b : tuple_le a b = false → tuple_le b a = true.
Proof.
  revert b. induction a as [|x a IH]; intros [|y b]; cbn; try done.
  rewrite orb_false_iff, andb_false_iff, orb_true_iff, andb_true_iff, Z.ltb_ge, Z.ltb_lt, !Z.eqb_eq, Z.eqb_neq.
  intros [H1 [H2|H2]]; [left; lia|]. destruct (decide (x = y)) as [->|]; [right; auto|left; lia].
Qed.

#[export] Instance heap : HeapQ := pop.

#[export] Instance laws : HeapQLaws.
Proof.
  split; [done|]. unfold heappop, heap. intros x l. revert x. induction l as [|z l IH]; intros x.
  { exists x, []. split; [done|]. split; [done|]. constructor. }
  destruct (IH z) as (y & l' & E & Hp & Hle). cbn [pop] in E |- *. rewrite E. destruct (entry_le x y) eqn:Exy.
  - exists x, (y :: l'). split; [done|]. split; [by rewrite Hp|]. constructor; [done|].
    eapply Forall_impl; [exact Hle|]. intros w Hw. by eapply tuple_le_trans.
  - exists y, (x :: l'). split; [done|]. split; [rewrite Hp; constructor|]. constructor; [by apply tuple_le_total|done].
Qed.
End SelectionHeap.

(** ** Creation *)

Definition no_paths : paths := λ _, ([], []).
Definition no_holders : holders := λ _, 0%Z.

Section props.
Variable monotonic : nat → Z.

(** [reset] leaves an empty tree and nothing locked. *)
Lemma reset_ok c : 0 < page_size c → cache_ok (reset monotonic c) no_paths no_holders ∧ frees (reset monotonic c) = frees c.
Proof.
  intros Hps. split; [|done]. set (r := mkNode ∅ None (new_key [] None false None None) (Some []) 1 (monotonic (ticks c))
    (monotonic (S (ticks c))) 0 0 (Some []) None min_priority).
  assert (Hh : heap (reset monotonic c) = {[counter c := r]}) by done.
  assert (Hin : ∀ n x, heap (reset monotonic c) !! n = Some x → n = counter c ∧ x = r).
  { intros n x. rewrite Hh. intros [<- <-]%lookup_singleton_Some. done. }
  split; change (root_node (reset monotonic c)) with (counter c); change (page_size (reset monotonic c)) with (page_size c).
  - split; [done|..].
    + exists r. rewrite Hh, lookup_singleton_eq. done.
    + intros n x Hn Hx. by destruct (Hin n x Hx).
    + intros n x ck m Hx. destruct (Hin n x Hx) as [_ ->]. cbn. by rewrite lookup_empty.
  - intros n x Hx. destruct (Hin n x Hx) as [-> _]. change (counter (reset monotonic c)) with (S (counter c)). lia.
  - intros x Hx. by destruct (Hin _ x Hx) as [_ ->].
  - intros n x Hx Hn. by destruct (Hin n x Hx).
  - intros n. done.
  - rewrite Hh. unfold weight. rewrite msum_zero; [done|]. intros n x [<- <-]%lookup_singleton_Some.
    unfold node_weight. by rewrite bool_decide_eq_true_2.
  - rewrite Hh. unfold weight. rewrite msum_zero; [done|]. intros n x [<- <-]%lookup_singleton_Some.
    unfold node_weight. by rewrite bool_decide_eq_true_2.
  - intros n. change (evictable_leaves (reset monotonic c)) with (∅ : gset nat). split; [set_solver|].
    intros (x & Hx & Hl & _). destruct (Hin n x Hx) as [_ ->]. done.
Qed.

Lemma init_ok dis ps eagle fin policy c :
  0 < ps → init monotonic dis ps eagle fin policy = Ok c →
  cache_ok c no_paths no_holders ∧ disable c = dis ∧ page_size c = ps ∧ is_eagle c = eagle.
Proof.
  intros Hps. unfold init. intros (s & _ & [= <-])%result_bind_Ok. split; [|done]. by apply reset_ok.
Qed.

(** ** Insertion *)

(** The indices stored: the caller's, cut to the key; without values, the token ids. *)
Definition insert_values (c : Cache) (k : RadixKey) (v : option (list Z)) : list Z :=
  let q := lookup_key c k in take (key_len q) (default (token_ids q) v).

(** The caller has an index for every unit of the key. *)
Definition enough_values (c : Cache) (k : RadixKey) (v : option (list Z)) : Prop :=
  match v with Some w => key_len (lookup_key c k) ≤ length w | None => True end.

Lemma key_len_tokens k : key_len k ≤ length (token_ids k).
Proof. pose proof (raw_len_le k). unfold key_len. destruct (is_bigram k); [destruct (0 <? raw_len k)|]; lia. Qed.

Lemma insert_values_len c k v : enough_values c k v → length (insert_values c k v) = key_len (lookup_key c k).
Proof.
  unfold insert_values, enough_values. intros Hv. rewrite length_take. pose proof (key_len_tokens (lookup_key c k)).
  destruct v; cbn; lia.
Qed.

Lemma insert_spec c P H k v p chunked :
  cache_ok c P H → key_ok k → disable c = false → enough_values c k v →
  let q := lookup_key c k in
  ∃ l b W c' P', insert monotonic k v p chunked c = Ok (mkInsert l (Some b), c') ∧
    stored c P H (ns q) (key_iter q) (insert_values c k v) l b W c' P'.
Proof.
  intros Hok Hk Hdis Hv q. pose proof (tree_ps _ _ _ _ (co_tree _ _ _ Hok)) as Hps.
  destruct (lookup_key_ok c k Hps Hk) as [Hq Hd]. pose proof (insert_values_len c k v Hv) as HV. fold q in Hq, Hd, HV.
  destruct (insert_helper_spec monotonic c P H q (insert_values c k v) p chunked Hok Hq Hd HV) as (l & b & W & c' & P' & Hrun & Hst).
  exists l, b, W, c', P'. split; [|done]. unfold insert. rewrite Hdis.
  destruct (maybe_to_bigram_view k (is_eagle c) v) as [k1 v1] eqn:E.
  assert (Eq : page_aligned k1 (page_size c) = q) by (unfold q, lookup_key; by rewrite <- (bigram_view_key k (is_eagle c) v), E).
  rewrite Eq. enough (match v1 with Some w => take (key_len q) w | None => take (key_len q) (token_ids q) end = insert_values c k v) as ->.
  { by rewrite Hrun. }
  unfold insert_values. fold q. destruct (page_aligned_ok k1 (page_size c) Hps) as (_ & _ & Hle).
  { unfold maybe_to_bigram_view in E. destruct (is_eagle c && _); injection E as <- _; done. }
  rewrite Eq in Hle. unfold maybe_to_bigram_view in E. destruct (is_eagle c && _); injection E as E1 E2.
  - rewrite E1 in E2. rewrite <- E2. destruct v as [w|]; cbn; [|done]. by rewrite take_take, Nat.min_l.
  - rewrite <- E2. by destruct v.
Qed.

(** A lookup of a key that is cached as a whole finds all of it. *)
Lemma content_match c P H k W :
  let q := lookup_key c k in
  cache_ok c P H → key_ok k → disable c = false → length W = length (key_iter q) →
  (key_iter q ≠ [] → content c P (ns q) (key_iter q) W) →
  ∃ r c' P', match_prefix monotonic k c = Ok (r, c') ∧ reorg c P H c' P' ∧ device_indices r = W ∧
    P' (last_device_node r) = (key_iter q, W) ∧
    ∃ z, heap c' !! last_device_node r = Some z ∧ (last_device_node r = root_node c ∨ ns (key z) = ns q).
Proof.
  intros q Hok Hk Hdis HW Hcont.
  destruct (match_prefix_spec monotonic c P H k Hok Hk Hdis) as (r & c2 & P2 & Hrun & R & Har & Hind). fold q in Har.
  pose proof (ro_ok _ _ _ _ _ R) as Hok2. destruct (ar_node _ _ _ _ _ Har) as (z & Hz & HN).
  destruct (path_lengths (co_tree _ _ _ Hok2) _ z Hz) as [El _].
  pose proof (ar_prefix _ _ _ _ _ Har) as Hpre. pose proof (prefix_length _ _ Hpre) as Hlen.
  assert (Hres : P2 (last_device_node r) = (key_iter q, W)).
  { destruct (decide (key_iter q = [])) as [E|Hne].
    - rewrite E in *. destruct (P2 _) as [us vs]. cbn in *. destruct us; [|cbn in Hlen; lia]. destruct vs; [|done]. by destruct W.
    - destruct (arrived_longest c2 P2 H _ _ _ (length (key_iter q)) W Hok2 Har) as [Hge HWt]; [|done| |].
      + rewrite (fr_ps _ _ (ro_frame _ _ _ _ _ R)), key_len_iter.
        by apply (lookup_key_ok c k (tree_ps _ _ _ _ (co_tree _ _ _ Hok)) Hk).
      + rewrite take_ge by lia. by apply (ro_content _ _ _ _ _ R), Hcont.
      + destruct Hpre as [w Hw]. destruct (P2 _) as [us vs]. cbn in *. f_equal.
        * assert (w = []) as -> by (apply (f_equal length) in Hw; rewrite length_app in Hw; destruct w; [done|cbn in *; lia]).
          by rewrite app_nil_r in Hw.
        * by rewrite take_ge in HWt by lia. }
  exists r, c2, P2. split; [done|]. split; [done|]. rewrite Hind, Hres. split; [done|]. split; [done|]. exists z. split; [done|].
  by rewrite <- (fr_root _ _ (ro_frame _ _ _ _ _ R)).
Qed.

(** In particular right after its insertion. *)
Lemma stored_content c P H N K V l b W c' P' : stored c P H N K V l b W c' P' → K ≠ [] → content c' P' N K W.
Proof.
  intros S HK. destruct (st_rest _ _ _ _ _ _ _ _ _ _ _ S) as [_ HW]. apply (st_content _ _ _ _ _ _ _ _ _ _ _ S); [done|].
  right. split; [done|]. exists (length K). by rewrite !take_ge by lia.
Qed.

(** ** Lookup and insertion *)

(** C36: on a consistent cache, [match_prefix] never raises; it returns the KV indices of the
    longest page-aligned prefix of the query that is cached in its namespace, which are the
    only indices cached for those units, and it changes neither what is cached nor the
    sizes, the evictable leaves and the pool. *)
Theorem match_prefix_longest (c : Cache) (P : paths) (H : holders) (k : RadixKey)
    (Hok : cache_ok c P H) (Hkey : key_ok k) (Hdis : disable c = false) :
  let q := lookup_key c k in let N := ns q in let K := key_iter q in
  ∃ r c' P', match_prefix monotonic k c = Ok (r, c') ∧ reorg c P H c' P' ∧
    let l := length (device_indices r) in
    (page_size c | l) ∧ l ≤ length K ∧ (0 < l → content c P N (take l K) (device_indices r)) ∧
    ∀ m vs, (page_size c | m) → m ≤ length K → content c P N (take m K) vs →
      m ≤ l ∧ vs = take m (device_indices r).
Proof.
  intros q N K. destruct (match_prefix_spec monotonic c P H k Hok Hkey Hdis) as (r & c' & P' & Hrun & R & Har & Hind).
  pose proof (ro_ok _ _ _ _ _ R) as Hok'. pose proof (ro_frame _ _ _ _ _ R) as F.
  destruct (arrived_content _ _ _ _ _ _ Hok' Har) as (A1 & A2 & A3). rewrite (fr_ps _ _ F) in A1.
  exists r, c', P'. split; [done|]. split; [done|]. cbv zeta. rewrite Hind. split_and!; [done|done| |].
  - intros Hl. apply (ro_content _ _ _ _ _ R). by apply A3.
  - intros m vs Hm HmK Hc. apply (ro_content _ _ _ _ _ R) in Hc.
    eapply (arrived_longest c' P' H N K); [done|done|by rewrite (fr_ps _ _ F)|done|done].
Qed.

(** C37: on a consistent cache, [insert] never raises.  It returns the length of the longest
    cached page-aligned prefix of the key and the node that now stands for the whole key; the
    indices [W] cached for the key are the old ones up to that length and the caller's
    after it; the cached prefixes are the old ones and those of the new key; the tree owns
    the caller's slots past the prefix and no other new one; the evictable size grows by the
    units that are new; identities, paths and locks of the old nodes are kept. *)
Theorem insert_stores (c : Cache) (P : paths) (H : holders) (k : RadixKey) (v : option (list Z)) (p : Z) (chunked : bool)
    (Hok : cache_ok c P H) (Hkey : key_ok k) (Hdis : disable c = false) (Hv : enough_values c k v) :
  let q := lookup_key c k in
  ∃ l b W c' P', insert monotonic k v p chunked c = Ok (mkInsert l (Some b), c') ∧
    stored c P H (ns q) (key_iter q) (insert_values c k v) l b W c' P'.
Proof. exact (insert_spec c P H k v p chunked Hok Hkey Hdis Hv). Qed.

(** What [insert] stored, [match_prefix] finds: right after the insertion the lookup of
    the same key covers the whole page-aligned key, with the caller's indices past the old
    prefix and, before it, what the lookup would have returned before the insertion. *)
Theorem insert_then_match (c : Cache) (P : paths) (H : holders) (k : RadixKey) (v : option (list Z)) (p : Z) (chunked : bool)
    (Hok : cache_ok c P H) (Hkey : key_ok k) (Hdis : disable c = false) (Hv : enough_values c k v) :
  ∃ l b c1 r c2 r0 c0, insert monotonic k v p chunked c = Ok (mkInsert l (Some b), c1) ∧
    match_prefix monotonic k c1 = Ok (r, c2) ∧ match_prefix monotonic k c = Ok (r0, c0) ∧
    length (device_indices r) = key_len (lookup_key c k) ∧ drop l (device_indices r) = drop l (insert_values c k v) ∧
    take l (device_indices r) = device_indices r0.
Proof.
  destruct (insert_spec c P H k v p chunked Hok Hkey Hdis Hv) as (l & b & W & c1 & P1 & Hins & S).
  pose proof (st_frame _ _ _ _ _ _ _ _ _ _ _ S) as F. destruct (content_match c1 P1 H k W) as (r & c2 & P2 & Hrun & _ & Hd & _).
  { apply S. }
  { done. }
  { by rewrite (fr_disable _ _ F). }
  { unfold lookup_key. rewrite (fr_eagle _ _ F), (fr_ps _ _ F). apply S. }
  { unfold lookup_key. rewrite (fr_eagle _ _ F), (fr_ps _ _ F). apply (stored_content _ _ _ _ _ _ _ _ _ _ _ S). }
  destruct (match_prefix_spec monotonic c P H k Hok Hkey Hdis) as (r0 & c0 & P0 & Hrun0 & R0 & Har0 & Hind0).
  exists l, b, c1, r, c2, r0, c0. rewrite Hd. split_and!; try done.
  - rewrite <- key_len_iter. apply S.
  - apply S.
  - rewrite Hind0. destruct (arrived_content _ _ _ _ _ _ (ro_ok _ _ _ _ _ R0) Har0) as (A1 & A2 & A3).
    destruct (st_prefix _ _ _ _ _ _ _ _ _ _ _ S) as (B1 & B2 & B3 & B4). destruct (st_rest _ _ _ _ _ _ _ _ _ _ _ S) as [_ HW].
    rewrite (fr_ps _ _ (ro_frame _ _ _ _ _ R0)) in A1.
    assert (Hle : length (P0 (last_device_node r0)).2 ≤ l ∧ (0 < length (P0 (last_device_node r0)).2 →
      (P0 (last_device_node r0)).2 = take (length (P0 (last_device_node r0)).2) W)).
    { destruct (decide (length (P0 (last_device_node r0)).2 = 0)) as [->|]; [split; lia|].
      destruct (B4 _ (P0 (last_device_node r0)).2 A1 A2) as [E1 E2]; [|done]. apply (ro_content _ _ _ _ _ R0), A3. lia. }
    assert (Hge : l ≤ length (P0 (last_device_node r0)).2).
    { destruct (decide (l = 0)) as [->|]; [lia|].
      apply (arrived_longest c0 P0 H _ _ _ l (take l W) (ro_ok _ _ _ _ _ R0) Har0); [by rewrite (fr_ps _ _ (ro_frame _ _ _ _ _ R0))|done|].
      apply (ro_content _ _ _ _ _ R0), B3. lia. }
    destruct Hle as [Hle HWt]. assert (Heq : length (P0 (last_device_node r0)).2 = l) by lia. rewrite Heq in HWt.
    destruct l; [|symmetry; apply HWt; lia]. by destruct (P0 (last_device_node r0)).2.
Qed.

(** ** Locks *)

(** [inc_lock_ref] on a node of the tree never raises.  It adds exactly one lock to every
    node on the path to the root and to no other, keeps the tree and what is cached, moves
    the sizes of the nodes that become locked from evictable to protected, and returns the
    change of the evictable size. *)
Theorem inc_lock_ref_protects (c : Cache) (P : paths) (H : holders) (n : nat)
    (Hok : cache_ok c P H) (Hn : is_Some (heap c !! n)) (Hdis : disable c = false) :
  ∃ c', inc_lock_ref n c = Ok ((evictable_size c' - evictable_size c)%Z, c') ∧
    cache_ok c' P (add_handle n 1 H) ∧ path_locks c c' n 1 ∧ relocked (heap c) (heap c') ∧
    (evictable_size c' + protected_size c' = evictable_size c + protected_size c)%Z ∧
    frees c' = frees c ∧ (∀ N us vs, content c P N us vs ↔ content c' P N us vs).
Proof.
  destruct Hn as [x Hx]. destruct (inc_lock_ref_spec c P H n x Hok Hx Hdis) as (c' & Hrun & Hok' & S & Hpl).
  exists c'. split_and!; try done; [apply S..|]. intros N us vs. apply relocked_content; [apply S|]. apply (sm_frame _ _ S).
Qed.

(** The invariant decides everything a walk may change. *)
Lemma same_eq c c' P H : cache_ok c P H → cache_ok c' P H → same c c' → c' = c.
Proof.
  intros Hok Hok' S. pose proof (sm_frame _ _ S) as F.
  pose proof (locks_unique c c' P P H Hok Hok' (fr_root _ _ F) (sm_heap _ _ S)) as Hh.
  assert (El : evictable_leaves c' = evictable_leaves c).
  { apply set_eq. intros m. by rewrite (co_leaves _ _ _ Hok), (co_leaves _ _ _ Hok'), Hh. }
  pose proof (co_evictable _ _ _ Hok) as E1. pose proof (co_evictable _ _ _ Hok') as E2. rewrite Hh, (fr_root _ _ F) in E2.
  pose proof (co_protected _ _ _ Hok) as E3. pose proof (co_protected _ _ _ Hok') as E4. rewrite Hh, (fr_root _ _ F) in E4.
  assert (E5 : evictable_size_ c' = evictable_size_ c) by congruence. assert (E6 : protected_size_ c' = protected_size_ c) by congruence.
  clear -S F Hh El E5 E6. destruct S as [_ Ec Et Ef _ _], F. destruct c, c'; cbn in *. by subst.
Qed.

Lemma cache_ok_ext c P H H' : (∀ m, H' m = H m) → cache_ok c P H → cache_ok c P H'.
Proof.
  intros He [H1 H2 H3 H4 H5 H6 H7 H8]. split; try done.
  - intros m x Hx Hm. rewrite He. by apply H4.
  - intros m. rewrite He. apply H5.
Qed.

(** [dec_lock_ref] undoes [inc_lock_ref]: the cache is the one from before the pair, in
    every field, and the two deltas are opposite. *)
Theorem lock_roundtrip (c : Cache) (P : paths) (H : holders) (n : nat)
    (Hok : cache_ok c P H) (Hn : is_Some (heap c !! n)) (Hdis : disable c = false) :
  ∃ delta c', inc_lock_ref n c = Ok (delta, c') ∧ dec_lock_ref n c' = Ok ((- delta)%Z, c).
Proof.
  destruct Hn as [x Hx]. destruct (inc_lock_ref_spec c P H n x Hok Hx Hdis) as (c1 & Hrun & Hok1 & S1 & _).
  pose proof (sm_frame _ _ S1) as F1. destruct (relocked_lookup _ _ _ _ (sm_heap _ _ S1) Hx) as (y & Hy & _).
  destruct (co_holders _ _ _ Hok n) as [Hnn _].
  destruct (dec_lock_ref_spec c1 P (add_handle n 1 H) n y Hok1 Hy ltac:(by rewrite (fr_disable _ _ F1))) as (c2 & Hrun2 & Hok2 & S2 & _).
  { left. unfold add_handle. rewrite decide_True by done. lia. }
  assert (c2 = c) as ->; [|exists (evictable_size_ c1 - evictable_size_ c)%Z, c1; split; [done|]; rewrite Hrun2; do 2 f_equal; lia].
  rewrite (fr_root _ _ F1) in Hok2. pose proof (same_trans _ _ _ S1 S2) as S. case_decide as Hr.
  - apply (same_eq c c2 P (add_handle n 1 H)); [|done|done]. subst n. apply (debt_root _ _ _ 1). eapply debt_start; [done|done|lia].
  - apply (same_eq c c2 P H); [done| |done]. eapply cache_ok_ext; [|exact Hok2]. intros m. unfold add_handle.
    destruct (decide (m = n)); lia.
Qed.
End props.

(** ** Eviction *)

(** What a client with handles still finds: the prefixes on the path of a node it holds. *)
Definition held_content (c : Cache) (P : paths) (H : holders) (N : namespace) (us : list PyVal) (vs : list Z) : Prop :=
  ∃ n x m, n ≠ root_node c ∧ heap c !! n = Some x ∧ (1 ≤ H n)%Z ∧ ns (key x) = N ∧ us = take m (P n).1 ∧ vs = take m (P n).2.

Lemma held_locked c P H n x : cache_ok c P H → n ≠ root_node c → heap c !! n = Some x → (1 ≤ H n)%Z → lock_ref x ≠ 0%Z.
Proof.
  intros Hok Hn Hx Hh. destruct (co_locks _ _ _ Hok n x Hx Hn) as [_ ->].
  enough (0 ≤ kids_lock (heap c) x)%Z by lia. apply msum_nonneg. intros q m Hm.
  destruct (deeper_child c P H n x q m Hok Hx Hm) as (y & Hmr & Hy & _). unfold lock_at. rewrite Hy. cbn. by apply (co_locks _ _ _ Hok m y).
Qed.

Section evict_props.
Context `{HeapQLaws}.

(** C38: [evict] refines its specification and never raises: victims go one at a time, each an
    unlocked leaf that is first in the order of the eviction strategy among all of them at
    that moment, a parent counts as soon as it is such a leaf, the indices of each victim are
    freed, and the run stops exactly when enough tokens are free or no leaf is evictable. *)
Theorem evict_refines (c : Cache) (P : paths) (Hs : holders) (num : nat)
    (Hok : cache_ok c P Hs) (Hdis : disable c = false) :
  ∃ total c', evict num c = Ok (total, c') ∧ evictions num P Hs 0 c total c'.
Proof. exact (evict_spec c P Hs num Hok Hdis). Qed.

(** [evict] is safe: it keeps the invariant, every locked node and every prefix a client
    holds; it caches nothing new; the tokens it counts are exactly the slots it hands to the
    pool, slots that the tree owned and no longer owns; and unless nothing evictable is
    left, at least as many are freed as were asked for. *)
Theorem evict_safe (c : Cache) (P : paths) (Hs : holders) (num : nat)
    (Hok : cache_ok c P Hs) (Hdis : disable c = false) :
  ∃ total c', evict num c = Ok (total, c') ∧ evict_outcome num P Hs 0 c total c' ∧
    ∀ N us vs, held_content c P Hs N us vs → held_content c' P Hs N us vs.
Proof.
  destruct (evict_spec c P Hs num Hok Hdis) as (total & c' & Hrun & Hev). exists total, c'.
  pose proof (evictions_outcome num P Hs 0 c total c' Hok Hev) as O. split_and!; [done|done|].
  intros N us vs (n & x & m & Hn & Hx & Hh & HN & Hus & Hvs).
  destruct (eo_locked _ _ _ _ _ _ _ O n x Hx (held_locked c P Hs n x Hok Hn Hx Hh)) as (x' & Hx' & _ & Ek & _).
  exists n, x', m. rewrite (fr_root _ _ (eo_frame _ _ _ _ _ _ _ O)), Ek. done.
Qed.
End evict_props.

(** ** A small cache *)

Module TinyRadix.
Definition clock : nat → Z := Z.of_nat.
Definition key4 : RadixKey := new_key [1; 2; 3; 4]%Z None false None None.
Definition key6 : RadixKey := new_key [1; 2; 3; 4; 5; 6]%Z None false None None.
Definition empty : Cache := reset clock (mkCache false 2 false false LRUStrategy ∅ 0 0 0 0 ∅ 0 []).
Definition stored4 : Cache :=
  match insert clock key4 (Some [10; 11; 12; 13]%Z) 0 false empty with Ok (_, c) => c | Raise _ => empty end.

Lemma empty_ok : cache_ok empty no_paths no_holders.
Proof. apply (reset_ok clock). cbn. lia. Qed.

Lemma stored4_ok : ∃ P, cache_ok stored4 P no_holders.
Proof.
  destruct (insert_spec clock empty no_paths no_holders key4 (Some [10; 11; 12; 13]%Z) 0 false empty_ok)
    as (l & b & W & c' & P' & Hrun & S); [done|done|vm_compute; lia|].
  exists P'. unfold stored4. rewrite Hrun. apply S.
Qed.

(** Node 1 is the leaf of [key4]. *)
Lemma stored4_leaf : is_Some (heap stored4 !! 1).
Proof. vm_compute. by eexists. Qed.
End TinyRadix.

Lemma match_prefix_longest_witness : let c := TinyRadix.stored4 in let k := TinyRadix.key6 in
  ∃ P, (cache_ok c P no_holders ∧ key_ok k ∧ disable c = false) ∧
  ∃ r c' P', match_prefix TinyRadix.clock k c = Ok (r, c') ∧ reorg c P no_holders c' P' ∧ device_indices r = [10; 11; 12; 13]%Z.
Proof.
  intros c k. destruct TinyRadix.stored4_ok as [P HP]. exists P. split; [done|].
  destruct (match_prefix_longest TinyRadix.clock c P no_holders k HP) as (r & c' & P' & Hrun & R & _); [done|done|].
  exists r, c', P'. split; [exact Hrun|]. split; [exact R|]. vm_compute in Hrun. injection Hrun as <- _. reflexivity.
Defined.

Lemma insert_stores_witness : let c := TinyRadix.stored4 in let k := TinyRadix.key6 in
  let v := Some [20; 21; 22; 23; 24; 25]%Z in
  ∃ P, (cache_ok c P no_holders ∧ key_ok k ∧ disable c = false ∧ enough_values c k v) ∧
  ∃ b W c' P', insert TinyRadix.clock k v 0 false c = Ok (mkInsert 4 (Some b), c') ∧
    stored c P no_holders (ns (lookup_key c k)) (key_iter (lookup_key c k)) (insert_values c k v) 4 b W c' P'.
Proof.
  intros c k v. destruct TinyRadix.stored4_ok as [P HP]. exists P. assert (Hv : enough_values c k v) by (vm_compute; lia).
  split; [done|]. destruct (insert_stores TinyRadix.clock c P no_holders k v 0 false HP) as (l & b & W & c' & P' & Hrun & S); [done..|].
  assert (l = 4) as -> by (vm_compute in Hrun; injection Hrun as <- _; reflexivity). exists b, W, c', P'. split; [exact Hrun|exact S].
Defined.

Lemma insert_then_match_witness : let c := TinyRadix.stored4 in let k := TinyRadix.key6 in
  let v := Some [20; 21; 22; 23; 24; 25]%Z in
  ∃ P, (cache_ok c P no_holders ∧ key_ok k ∧ disable c = false ∧ enough_values c k v) ∧
  ∃ l b c1 r c2 r0 c0, insert TinyRadix.clock k v 0 false c = Ok (mkInsert l (Some b), c1) ∧
    match_prefix TinyRadix.clock k c1 = Ok (r, c2) ∧ match_prefix TinyRadix.clock k c = Ok (r0, c0) ∧
    length (device_indices r) = key_len (lookup_key c k) ∧ drop l (device_indices r) = drop l (insert_values c k v) ∧
    take l (device_indices r) = device_indices r0.
Proof.
  intros c k v. destruct TinyRadix.stored4_ok as [P HP]. exists P. assert (Hv : enough_values c k v) by (vm_compute; lia).
  split; [done|]. by apply (insert_then_match TinyRadix.clock c P no_holders k v 0 false HP).
Defined.

Lemma inc_lock_ref_protects_witness : let c := TinyRadix.stored4 in
  ∃ P, (cache_ok c P no_holders ∧ is_Some (heap c !! 1) ∧ disable c = false) ∧
  ∃ c', inc_lock_ref 1 c = Ok ((evictable_size c' - evictable_size c)%Z, c') ∧
    cache_ok c' P (add_handle 1 1 no_holders) ∧ path_locks c c' 1 1 ∧ evictable_size c' = 0%Z.
Proof.
  intros c. destruct TinyRadix.stored4_ok as [P HP]. exists P. split; [split_and!; [done|apply TinyRadix.stored4_leaf|done]|].
  destruct (inc_lock_ref_protects c P no_holders 1 HP TinyRadix.stored4_leaf) as (c' & Hrun & Hok & Hpl & _); [done|].
  exists c'. split; [exact Hrun|]. split; [exact Hok|]. split; [exact Hpl|]. vm_compute in Hrun. injection Hrun as _ <-. reflexivity.
Defined.

Lemma lock_roundtrip_witness : let c := TinyRadix.stored4 in
  ∃ P, (cache_ok c P no_holders ∧ is_Some (heap c !! 1) ∧ disable c = false) ∧
  ∃ delta c', inc_lock_ref 1 c = Ok (delta, c') ∧ dec_lock_ref 1 c' = Ok ((- delta)%Z, c).
Proof.
  intros c. destruct TinyRadix.stored4_ok as [P HP]. exists P. split; [split_and!; [done|apply TinyRadix.stored4_leaf|done]|].
  exact (lock_roundtrip c P no_holders 1 HP TinyRadix.stored4_leaf eq_refl).
Defined.

Lemma evict_refines_witness : let c := TinyRadix.stored4 in
  ∃ P, (cache_ok c P no_holders ∧ disable c = false ∧ HeapQLaws (H := SelectionHeap.heap)) ∧
  ∃ c', evict (H := SelectionHeap.heap) 1 c = Ok (4, c') ∧ evictions 1 P no_holders 0 c 4 c'.
Proof.
  intros c. destruct TinyRadix.stored4_ok as [P HP]. exists P. split; [split_and!; [done|done|apply SelectionHeap.laws]|].
  destruct (evict_refines (H := SelectionHeap.heap) (H0 := SelectionHeap.laws) c P no_holders 1 HP) as (total & c' & Hrun & Hev); [done|].
  assert (total = 4) as -> by (vm_compute in Hrun; injection Hrun as <- _; reflexivity). exists c'. split; [exact Hrun|exact Hev].
Defined.

Lemma evict_safe_witness : let c := TinyRadix.stored4 in
  ∃ P, (cache_ok c P no_holders ∧ disable c = false ∧ HeapQLaws (H := SelectionHeap.heap)) ∧
  ∃ c', evict (H := SelectionHeap.heap) 1 c = Ok (4, c') ∧ evict_outcome 1 P no_holders 0 c 4 c'.
Proof.
  intros c. destruct TinyRadix.stored4_ok as [P HP]. exists P. split; [split_and!; [done|done|apply SelectionHeap.laws]|].
  destruct (evict_safe (H := SelectionHeap.heap) (H0 := SelectionHeap.laws) c P no_holders 1 HP) as (total & c' & Hrun & Ho & _); [done|].
  assert (total = 4) as -> by (vm_compute in Hrun; injection Hrun as <- _; reflexivity). exists c'. split; [exact Hrun|exact Ho].
Defined.
