(* ===== verification/RadixClient.v ===== *)
(** * RadixClient: requests on the prefix cache

    [cache_finished_req] and [cache_unfinished_req] of [RadixCache]: a request hands the KV
    slots of its row to the tree, frees its duplicates, and moves its lock.  The row of the
    request is [req_to_token[req_pool_idx]]; slots the request owns are those from
    [cache_protected_len] on, the earlier ones belong to the tree.  [kv_indices] is a view of
    that row: the write of [cache_unfinished_req] stays below [len(new_indices)], what is read
    after it lies above, and the pool copies the tensors it defers. *)

From S2P Require Import Prelude RadixKey RadixTree RadixInv RadixSplit RadixMatch RadixInsert RadixLock RadixEvict RadixProps.
#[local] Open Scope nat_scope.

(** ** Requests *)

(** The fields of [Req] and of its [kv] that the two operations use. *)
Record Req : Type := mkReq {
  origin_input_ids : list Z;
  output_ids : list Z;
  full_untruncated_fill_ids : list Z;
  extend_end : nat;
  req_extra_key : option string;
  req_cache_salt : option string;
  req_priority : option Z;
  req_pool_idx : nat;
  cache_protected_len : nat;
  prefix_indices : list Z;
  last_node : option nat;
}.

(** [req_to_token], a row per request slot. *)
Definition ReqToToken : Type := list (list Z).

Definition get_fill_ids (r : Req) : list Z := take (extend_end r) (full_untruncated_fill_ids r).

(** [write((i, slice(a, b)), values)] with [b = a + len(values)]. *)
Definition write (i a : nat) (values : list Z) (t : ReqToToken) : result ReqToToken :=
  match t !! i with
  | Some row => row' ← slice_assign a values row; Ok (<[i := row']> t)
  | None => Raise IndexError
  end.

Definition row_of (r : Req) (t : ReqToToken) : result (list Z) :=
  match t !! req_pool_idx r with Some row => Ok row | None => Raise IndexError end.

(** The key both operations store under. *)
Definition req_key (r : Req) (token_ids : list Z) (c : Cache) : RadixKey :=
  page_aligned (new_key token_ids (req_extra_key r) (is_eagle c) None (req_cache_salt r)) (page_size c).

Section client.
Variable monotonic : nat → Z.

Definition cache_finished_req (r : Req) (is_insert : bool) (kv_len_to_handle : nat) (t : ReqToToken) (c : Cache)
  : result Cache :=
  let is_insert := is_insert && negb (disable_finished_insert c) in
  row ← row_of r t;
  let prot := cache_protected_len r in
  if disable c then Ok (log_free (FreeSegment (row.[prot, kv_len_to_handle]) prot) c) else
  let token_ids := take kv_len_to_handle (origin_input_ids r ++ output_ids r) in
  let kv_indices := take (length token_ids) row in
  let radix_key := req_key r token_ids c in
  let key_len := key_len radix_key in
  let values := take key_len kv_indices in
  '(freed_end, c) ← (if is_insert
                     then '(res, c) ← insert monotonic radix_key (Some values) (default 0%Z (req_priority r)) false c;
                          Ok (prefix_len res, c)
                     else Ok (key_len, c));
  let c := log_free (FreeSegments [(kv_indices.[prot, freed_end], prot); (drop key_len kv_indices, key_len)]) c in
  match last_node r with
  | Some n => '(_, c) ← dec_lock_ref n c; Ok c
  | None => Ok c
  end.

Definition cache_unfinished_req (r : Req) (chunked : bool) (t : ReqToToken) (c : Cache)
  : result (Req * ReqToToken * Cache) :=
  if disable c then Ok (r, t, c) else
  let token_ids := get_fill_ids r in
  row ← row_of r t;
  let kv_indices := take (length token_ids) row in
  let radix_key := req_key r token_ids c in
  let values := take (key_len radix_key) kv_indices in
  let prot := cache_protected_len r in
  '(res, c) ← insert monotonic radix_key (Some values) (default 0%Z (req_priority r)) chunked c;
  let c := log_free (FreeSegment (kv_indices.[prot, prefix_len res]) prot) c in
  '(m, c) ← match_prefix monotonic radix_key c;
  let new_indices := device_indices m in
  _ ← py_assert (length new_indices =? key_len radix_key);
  t ← write (req_pool_idx r) prot (drop prot new_indices) t;
  old ← match last_node r with Some n => Ok n | None => Raise AttributeError end;
  '(_, c) ← dec_lock_ref old c;
  '(_, c) ← inc_lock_ref (last_device_node m) c;
  let prefix_indices := if length new_indices <? length kv_indices then new_indices ++ drop (length new_indices) kv_indices
                        else new_indices in
  Ok (mkReq (origin_input_ids r) (output_ids r) (full_untruncated_fill_ids r) (extend_end r) (req_extra_key r)
        (req_cache_salt r) (req_priority r) (req_pool_idx r) (length new_indices) prefix_indices (Some (last_device_node m)), t, c).
End client.

(** ** The slots of the pool *)

(** The slots named by the calls of the pool. *)
Definition call_slots (f : pool_call) : list Z :=
  match f with FreeSegment l _ => l | FreeSegments ls => concat ls.*1 end.
Definition freed (c : Cache) : list Z := concat (call_slots <$> frees c).

Lemma freed_log f c : freed (log_free f c) = freed c ++ call_slots f.
Proof. unfold freed. cbn [log_free frees]. rewrite fmap_app, concat_app. cbn. by rewrite app_nil_r. Qed.

Lemma freed_ext c c' : frees c' = frees c → freed c' = freed c.
Proof. unfold freed. by intros ->. Qed.

(** ** The invariant of a request *)

(** The protected part of the row is what the tree caches on the path of [last_node], on
    which the request holds a handle, for the first units of [tokens]. *)
Record req_ok (c : Cache) (P : paths) (H : holders) (r : Req) (tokens row : list Z) (n : nat) : Prop := {
  rq_last : last_node r = Some n;
  rq_node : ∃ x, heap c !! n = Some x ∧ (n = root_node c ∨ ns (key x) = ns (req_key r tokens c));
  rq_handle : (1 ≤ H n)%Z ∨ n = root_node c;
  rq_path : P n = (take (cache_protected_len r) (key_iter (req_key r tokens c)), take (cache_protected_len r) row);
  rq_len : cache_protected_len r ≤ key_len (req_key r tokens c);
  rq_row : length tokens ≤ length row;
}.

Definition drop_handle (c : Cache) (n : nat) (H : holders) : holders :=
  if decide (n = root_node c) then H else add_handle n (-1) H.

Lemma req_key_ok r tokens c : 0 < page_size c →
  let q := req_key r tokens c in
  key_ok q ∧ (page_size c | key_len q) ∧ key_len q ≤ length tokens ∧ is_bigram q = is_eagle c.
Proof.
  intros Hps q. unfold q, req_key. set (k := new_key _ _ _ _ _). destruct (page_aligned_ok k (page_size c) Hps) as (H1 & H2 & H3).
  { apply new_key_ok. }
  split_and!; try done.
  - etrans; [exact H3|]. apply (key_len_tokens k).
  - unfold page_aligned. destruct (_ =? 1); [done|]. unfold key_slice. cbn. destruct (is_eagle c); [|done].
    by match goal with |- context [if ?b then _ else _] => destruct b end.
Qed.

(** Looking an aligned key up changes neither its units nor its namespace. *)
Lemma lookup_key_aligned c q : 0 < page_size c → key_ok q → (page_size c | key_len q) → is_bigram q = is_eagle c →
  ns (lookup_key c q) = ns q ∧ key_iter (lookup_key c q) = key_iter q ∧ key_len (lookup_key c q) = key_len q.
Proof.
  intros Hps Hq Hd Hb. assert (lookup_key c q = page_aligned q (page_size c)) as ->.
  { unfold lookup_key, maybe_to_bigram_view. rewrite Hb. by destruct (is_eagle c). }
  unfold page_aligned. destruct (_ =? 1); [done|]. destruct Hd as [a Ha].
  assert (key_len q / page_size c * page_size c = key_len q) as -> by (rewrite Ha, Nat.div_mul by lia; done).
  split; [by apply key_slice_ns|]. rewrite key_slice_len, key_slice_iter, Nat.min_id, Nat.sub_0_r.
  split; [|done]. apply py_slice_full; [done|]. by rewrite key_len_iter.
Qed.

Section client_props.
Variable monotonic : nat → Z.

(** A row suffix, cut where the tree and the key end. *)
Lemma row_parts (kv : list Z) prot l n i : prot ≤ l → l ≤ n →
  (tally (kv.[prot, l]) i + tally (drop l (take n kv)) i + tally (drop n kv) i = tally (drop prot kv) i)%Z.
Proof.
  intros H1 H2. rewrite <- !tally_app, <- app_assoc. f_equal.
  assert (drop l (take n kv) ++ drop n kv = drop l kv) as ->.
  { rewrite <- (take_drop n kv) at 3. destruct (decide (n ≤ length kv)).
    - rewrite drop_app_le; [done|]. rewrite length_take. lia.
    - rewrite (take_ge kv), (drop_ge kv n) by lia. by rewrite !app_nil_r. }
  unfold py_slice. rewrite <- (take_drop (l - prot) (drop prot kv)) at 2. rewrite drop_drop. by replace (prot + (l - prot)) with l by lia.
Qed.

(** What [insert] does for a request. *)
Record req_stored (c : Cache) (P : paths) (H : holders) (r : Req) (tokens row : list Z) (n l b : nat) (W : list Z)
    (c' : Cache) (P' : paths) : Prop := {
  rs_stored : stored c P H (ns (req_key r tokens c)) (key_iter (req_key r tokens c))
    (take (key_len (req_key r tokens c)) (take (length tokens) row)) l b W c' P';
  rs_prot : cache_protected_len r ≤ l ∧ take (cache_protected_len r) W = take (cache_protected_len r) row;
}.

Lemma req_insert c P H r tokens row n p chunked :
  cache_ok c P H → req_ok c P H r tokens row n → disable c = false →
  let q := req_key r tokens c in
  let values := take (key_len q) (take (length tokens) row) in
  ∃ l b W c' P', insert monotonic q (Some values) p chunked c = Ok (mkInsert l (Some b), c') ∧
    req_stored c P H r tokens row n l b W c' P'.
Proof.
  intros Hok Hr Hdis q values. pose proof (tree_ps _ _ _ _ (co_tree _ _ _ Hok)) as Hps.
  destruct (req_key_ok r tokens c Hps) as (Hq & Hd & Hle & Hb). fold q in Hq, Hd, Hle, Hb.
  destruct (lookup_key_aligned c q Hps Hq Hd Hb) as (En & Ei & El). pose proof (rq_row _ _ _ _ _ _ _ Hr) as Hrow.
  assert (Hv : length values = key_len q) by (unfold values; rewrite !length_take; lia).
  destruct (insert_spec monotonic c P H q (Some values) p chunked Hok Hq Hdis) as (l & b & W & c' & P' & Hrun & S).
  { cbn. rewrite El. lia. }
  unfold insert_values in S. rewrite En, Ei, El in S. cbn [default] in S. rewrite (take_ge values) in S by lia.
  exists l, b, W, c', P'. split; [done|]. split; [exact S|].
  destruct (rq_node _ _ _ _ _ _ _ Hr) as (x & Hx & HN). pose proof (rq_path _ _ _ _ _ _ _ Hr) as HP. fold q in HN, HP.
  pose proof (rq_len _ _ _ _ _ _ _ Hr) as Hlen. fold q in Hlen. set (prot := cache_protected_len r) in *.
  destruct (decide (prot = 0)) as [E0|E0]; [rewrite E0; split; [lia|done]|].
  assert (Hne : n ≠ root_node c).
  { intros ->. destruct (tree_root _ _ _ _ (co_tree _ _ _ Hok)) as (rt & _ & _ & _ & _ & EP). rewrite EP in HP.
    injection HP as HP _. apply (f_equal length) in HP. rewrite length_take, key_len_iter in HP. cbn in HP. lia. }
  destruct HN as [?|HN]; [done|]. destruct (path_lengths (co_tree _ _ _ Hok) n x Hx) as [_ Hdiv]. rewrite HP in Hdiv. cbn [fst] in Hdiv.
  rewrite length_take, key_len_iter, Nat.min_l in Hdiv by lia.
  destruct (st_prefix _ _ _ _ _ _ _ _ _ _ _ S) as (_ & _ & _ & B4).
  destruct (B4 prot (take prot row) Hdiv) as [H1 H2]; [by rewrite key_len_iter| |by split].
  exists n, x, prot. rewrite HP. cbn [fst snd]. rewrite !take_take, !Nat.min_id. done.
Qed.

Lemma req_key_frame r tokens c c' : frame c c' → req_key r tokens c' = req_key r tokens c.
Proof. intros F. unfold req_key. by rewrite (fr_eagle _ _ F), (fr_ps _ _ F). Qed.

Lemma owned_reorg c P H c' P' i : reorg c P H c' P' → owned (heap c') i = owned (heap c) i.
Proof. intros R. apply R. Qed.

Lemma owned_same c c' i : same c c' → owned (heap c') i = owned (heap c) i.
Proof.
  intros S. apply msum_ext. intros m. rewrite (sm_heap _ _ S m). by destruct (heap c !! m).
Qed.

(** The lock of a request is dropped. *)
Lemma req_unlock c P H n x :
  cache_ok c P H → heap c !! n = Some x → (1 ≤ H n)%Z ∨ n = root_node c → disable c = false →
  ∃ d c', dec_lock_ref n c = Ok (d, c') ∧ cache_ok c' P (drop_handle c n H) ∧ same c c'.
Proof.
  intros Hok Hx Hh Hdis. destruct (dec_lock_ref_spec c P H n x Hok Hx Hdis Hh) as (c' & Hrun & Hok' & S & _).
  by exists (evictable_size_ c' - evictable_size_ c)%Z, c'.
Qed.

(** Freeing and unlocking, after whatever was inserted. *)
Lemma finish_tail c H c1 P1 n x f :
  cache_ok c1 P1 H → frame c c1 → heap c1 !! n = Some x → (1 ≤ H n)%Z ∨ n = root_node c → disable c = false →
  ∃ c', (let c2 := log_free f c1 in '(_, c3) ← dec_lock_ref n c2; Ok c3) = Ok c' ∧ cache_ok c' P1 (drop_handle c n H) ∧
    frame c c' ∧ freed c' = freed c1 ++ call_slots f ∧ (∀ i, owned (heap c') i = owned (heap c1) i) ∧
    ∀ N us vs, content c1 P1 N us vs → content c' P1 N us vs.
Proof.
  intros Hok1 F Hx Hh Hdis. set (c2 := log_free f c1). assert (F2 : frame c c2) by (etrans; [exact F|by split]).
  destruct (req_unlock c2 P1 H n x) as (d & c' & Hrun & Hok' & S); [by apply log_free_ok|done| | |].
  { by rewrite (fr_root _ _ F2). }
  { by rewrite (fr_disable _ _ F2). }
  exists c'. cbv zeta. rewrite Hrun. split; [done|]. split; [by rewrite (fr_root _ _ F2) in Hok' || (unfold drop_handle in *; rewrite (fr_root _ _ F2) in Hok')|].
  split; [etrans; [exact F2|apply S]|]. split; [|split].
  - rewrite (freed_ext c2 c') by apply S. apply freed_log.
  - intros i. by rewrite (owned_same c2 c' i S).
  - intros N us vs Hc. apply (relocked_content c2 c'); [apply S|apply (sm_frame _ _ S)|exact Hc].
Qed.

(** C40: a finished request leaks no KV slot and frees none twice.  On a consistent cache, for a
    request whose protected prefix is the path of the node it holds, [cache_finished_req]
    never raises; every slot of its row past the protected prefix ends up exactly once either
    in the tree or in the free list; its handle is dropped and the invariant kept; and unless
    insertion is off, all pages of the request are cached afterwards. *)
Theorem finished_req_no_leak (c : Cache) (P : paths) (H : holders) (r : Req) (is_insert : bool) (kv_len : nat)
    (t : ReqToToken) (row : list Z) (n : nat)
    (Hok : cache_ok c P H) (Hdis : disable c = false) (Hrow : t !! req_pool_idx r = Some row)
    (Hr : req_ok c P H r (take kv_len (origin_input_ids r ++ output_ids r)) row n) :
  let tokens := take kv_len (origin_input_ids r ++ output_ids r) in
  let q := req_key r tokens c in
  ∃ c' P' slots, cache_finished_req monotonic r is_insert kv_len t c = Ok c' ∧ cache_ok c' P' (drop_handle c n H) ∧
    frame c c' ∧ freed c' = freed c ++ slots ∧
    (∀ i, owned (heap c) i + tally (drop (cache_protected_len r) (take (length tokens) row)) i =
          owned (heap c') i + tally slots i)%Z ∧
    (is_insert && negb (disable_finished_insert c) = true → key_iter q ≠ [] → ∃ W, content c' P' (ns q) (key_iter q) W).
Proof.
  intros tokens q. set (prot := cache_protected_len r). set (kv := take (length tokens) row).
  destruct (rq_node _ _ _ _ _ _ _ Hr) as (x & Hx & _). pose proof (rq_len _ _ _ _ _ _ _ Hr) as Hlen.
  unfold cache_finished_req. fold tokens. fold q. unfold row_of. rewrite Hrow. cbn [mbind result_bind]. rewrite Hdis.
  rewrite (rq_last _ _ _ _ _ _ _ Hr). fold tokens in Hr. fold tokens q prot in Hlen. fold kv. destruct (is_insert && _).
  - destruct (req_insert c P H r tokens row n (default 0%Z (req_priority r)) false Hok Hr Hdis) as (l & b & W & c1 & P1 & Hrun & [S [Hl _]]).
    fold q kv in Hrun, S. rewrite Hrun. cbn [mbind result_bind prefix_len].
    destruct (st_keeps _ _ _ _ _ _ _ _ _ _ _ S n x Hx) as (_ & x1 & Hx1 & _).
    destruct (finish_tail c H c1 P1 n x1 (FreeSegments [(kv.[prot, l], prot); (drop (key_len q) kv, key_len q)]))
      as (c' & Hrun' & Hok' & F & Hf & Ho & Hcont); [apply S|apply S|done|apply Hr|done|].
    exists c', P1, (kv.[prot, l] ++ drop (key_len q) kv). split; [exact Hrun'|]. split_and!; try done.
    + rewrite Hf, (freed_ext c c1) by apply S. cbn. by rewrite app_nil_r.
    + intros i. rewrite Ho, (st_owned _ _ _ _ _ _ _ _ _ _ _ S), tally_app.
      destruct (st_prefix _ _ _ _ _ _ _ _ _ _ _ S) as (_ & Hle & _). rewrite key_len_iter in Hle. fold q in Hle.
      pose proof (row_parts kv prot l (key_len q) i Hl Hle). lia.
    + intros _ Hne. exists W. by apply Hcont, (stored_content _ _ _ _ _ _ _ _ _ _ _ S).
  - cbn [mbind result_bind].
    destruct (finish_tail c H c P n x (FreeSegments [(kv.[prot, key_len q], prot); (drop (key_len q) kv, key_len q)]))
      as (c' & Hrun' & Hok' & F & Hf & Ho & _); [done|done|done|apply Hr|done|].
    exists c', P, (kv.[prot, key_len q] ++ drop (key_len q) kv). split; [exact Hrun'|]. split_and!; try done.
    + rewrite Hf. cbn. by rewrite app_nil_r.
    + intros i. rewrite Ho, tally_app. pose proof (row_parts kv prot (key_len q) (key_len q) i Hlen (le_n _)) as E.
      rewrite (drop_ge (take _ kv)) in E by (rewrite length_take; lia). change (tally [] i) with 0%Z in E. lia.
Qed.

(** The request moves its handle to the node of its whole key. *)
Lemma move_lock c P H old new x y :
  cache_ok c P H → disable c = false → heap c !! old = Some x → heap c !! new = Some y → (1 ≤ H old)%Z ∨ old = root_node c →
  let H' := add_handle new 1 (drop_handle c old H) in
  ∃ d1 c1 d2 c2, dec_lock_ref old c = Ok (d1, c1) ∧ inc_lock_ref new c1 = Ok (d2, c2) ∧ cache_ok c2 P H' ∧ same c c2 ∧
    (1 ≤ H' new)%Z ∧ ∃ y', heap c2 !! new = Some y' ∧ key y' = key y.
Proof.
  intros Hok Hdis Hx Hy Hh H'. destruct (req_unlock c P H old x Hok Hx Hh Hdis) as (d1 & c1 & Hrun1 & Hok1 & S1).
  destruct (relocked_lookup _ _ _ _ (sm_heap _ _ S1) Hy) as (y1 & Hy1 & E1). pose proof (sm_frame _ _ S1) as F1.
  destruct (inc_lock_ref_spec c1 P _ new y1 Hok1 Hy1 ltac:(by rewrite (fr_disable _ _ F1))) as (c2 & Hrun2 & Hok2 & S2 & _).
  destruct (relocked_lookup _ _ _ _ (sm_heap _ _ S2) Hy1) as (y2 & Hy2 & E2).
  eexists d1, c1, _, c2. split; [done|]. split; [done|]. split; [done|]. split; [by eapply same_trans|]. split.
  - unfold H', add_handle at 1. rewrite decide_True by done. destruct (co_holders _ _ _ Hok1 new). lia.
  - exists y2. split; [done|]. unfold skeleton in E1, E2. injection E1 as _ _ E1 _. injection E2 as _ _ E2 _. congruence.
Qed.

(** The row after the write: the cached indices, then what the request still owns. *)
Lemma write_row r t row W prot n :
  t !! req_pool_idx r = Some row → take prot W = take prot row → prot ≤ length W → length W ≤ n → n ≤ length row →
  ∃ row', write (req_pool_idx r) prot (drop prot W) t = Ok (<[req_pool_idx r := row']> t) ∧
    length row' = length row ∧ take (length W) row' = W ∧ take n row' = W ++ drop (length W) (take n row) ∧
    drop (length W) (take n row') = drop (length W) (take n row).
Proof.
  intros Hrow Hpre H1 H2 H3. exists (W ++ drop (length W) row). unfold write. rewrite Hrow.
  rewrite slice_assign_ok by (rewrite length_drop; lia). cbn [mbind result_bind].
  assert (E : take prot row ++ drop prot W ++ drop (prot + length (drop prot W)) row = W ++ drop (length W) row).
  { rewrite length_drop. replace (prot + (length W - prot)) with (length W) by lia. by rewrite app_assoc, <- Hpre, take_drop. }
  rewrite E. assert (E2 : take n (W ++ drop (length W) row) = W ++ drop (length W) (take n row)).
  { rewrite take_app_ge by lia. f_equal. rewrite take_drop_commute. f_equal. f_equal. lia. }
  split_and!; [done|rewrite length_app, length_drop; lia|by rewrite take_app_length|done|]. by rewrite E2, drop_app_length.
Qed.

(** A request that goes on leaks nothing either and keeps its invariant.  Under the same
    conditions [cache_unfinished_req] never raises (its assertion holds); the request then
    holds the node of its whole page-aligned key, its row starts with the indices the tree
    caches for that key, the protected length is the length of the key, [prefix_indices] is
    its row up to the tokens; and every slot it owned is now exactly once in the tree, in the
    free list or still its own. *)
Theorem unfinished_req_keeps (c : Cache) (P : paths) (H : holders) (r : Req) (chunked : bool)
    (t : ReqToToken) (row : list Z) (n : nat)
    (Hok : cache_ok c P H) (Hdis : disable c = false) (Hrow : t !! req_pool_idx r = Some row)
    (Hr : req_ok c P H r (get_fill_ids r) row n) :
  let tokens := get_fill_ids r in
  let q := req_key r tokens c in
  ∃ r' t' c' P' row' m slots, cache_unfinished_req monotonic r chunked t c = Ok (r', t', c') ∧
    t' = <[req_pool_idx r := row']> t ∧ frame c c' ∧
    cache_ok c' P' (add_handle m 1 (drop_handle c n H)) ∧
    req_ok c' P' (add_handle m 1 (drop_handle c n H)) r' tokens row' m ∧
    cache_protected_len r' = key_len q ∧ prefix_indices r' = take (length tokens) row' ∧
    freed c' = freed c ++ slots ∧
    (∀ i, owned (heap c) i + tally (drop (cache_protected_len r) (take (length tokens) row)) i =
          owned (heap c') i + tally slots i + tally (drop (cache_protected_len r') (take (length tokens) row')) i)%Z.
Proof.
  intros tokens q. set (prot := cache_protected_len r). set (kv := take (length tokens) row).
  destruct (rq_node _ _ _ _ _ _ _ Hr) as (x & Hx & _). pose proof (rq_len _ _ _ _ _ _ _ Hr) as Hlen.
  pose proof (rq_row _ _ _ _ _ _ _ Hr) as Hrl. fold tokens in Hr, Hlen, Hrl. fold q prot in Hlen.
  pose proof (tree_ps _ _ _ _ (co_tree _ _ _ Hok)) as Hps. destruct (req_key_ok r tokens c Hps) as (Hq & Hd & Hle & Hb). fold q in Hq, Hd, Hle, Hb.
  destruct (req_insert c P H r tokens row n (default 0%Z (req_priority r)) chunked Hok Hr Hdis) as (l & b & W & c1 & P1 & Hrun & [S [Hl Hpre]]).
  fold q kv prot in Hrun, S, Hl, Hpre. pose proof (st_frame _ _ _ _ _ _ _ _ _ _ _ S) as F1.
  destruct (st_rest _ _ _ _ _ _ _ _ _ _ _ S) as [_ HW]. fold q in HW. rewrite key_len_iter in HW.
  set (c2 := log_free (FreeSegment (kv.[prot, l]) prot) c1). assert (F2 : frame c c2) by (etrans; [exact F1|by split]).
  destruct (lookup_key_aligned c2 q) as (En & Ei & El); [by rewrite (fr_ps _ _ F2)|done|by rewrite (fr_ps _ _ F2)|by rewrite (fr_eagle _ _ F2)|].
  destruct (content_match monotonic c2 P1 H q W) as (m & c3 & P3 & Hmatch & R & Hind & HP3 & z & Hz & Hzn);
    [by apply log_free_ok, S|done|by rewrite (fr_disable _ _ F2)|by rewrite Ei, HW, key_len_iter| |].
  { rewrite En, Ei. intros Hne. exact (stored_content _ _ _ _ _ _ _ _ _ _ _ S Hne). }
  rewrite Ei in HP3. rewrite En, (fr_root _ _ F2) in Hzn. pose proof (ro_frame _ _ _ _ _ R) as F3.
  destruct (st_keeps _ _ _ _ _ _ _ _ _ _ _ S n x Hx) as (_ & x1 & Hx1 & _).
  destruct (ro_keeps _ _ _ _ _ R n x1 Hx1) as (_ & x3 & Hx3 & _). assert (F : frame c c3) by by etrans.
  destruct (write_row r t row W prot (length tokens) Hrow Hpre) as (row' & Hw & W1 & W2 & W3 & W4); [lia|lia|done|].
  destruct (move_lock c3 P3 H n (last_device_node m) x3 z (ro_ok _ _ _ _ _ R)) as (d1 & c4 & d2 & c5 & Hdec & Hinc & Hok5 & S5 & Hh & y & Hy & Hyk);
    [by rewrite (fr_disable _ _ F)|done|done|rewrite (fr_root _ _ F); apply Hr|].
  assert (Edh : drop_handle c3 n H = drop_handle c n H) by (unfold drop_handle; by rewrite (fr_root _ _ F)). rewrite Edh in Hok5, Hh.
  assert (F5 : frame c c5) by (etrans; [exact F|apply S5]). assert (Erow : W ++ drop (length W) kv = take (length tokens) row') by done.
  eexists _, (<[req_pool_idx r := row']> t), c5, P3, row', (last_device_node m), (kv.[prot, l]).
  split; [|split; [done|split; [done|split; [exact Hok5|]]]].
  { unfold cache_unfinished_req, row_of. rewrite Hdis, Hrow. cbn [mbind result_bind]. fold tokens q kv prot. rewrite Hrun.
    cbn [mbind result_bind prefix_len]. fold c2. rewrite Hmatch. cbn [mbind result_bind]. rewrite Hind, HW, Nat.eqb_refl.
    cbn [py_assert py_check mbind result_bind]. rewrite Hw. cbn [mbind result_bind]. rewrite (rq_last _ _ _ _ _ _ _ Hr).
    cbn [mbind result_bind]. rewrite Hdec. cbn [mbind result_bind]. rewrite Hinc. cbn [mbind result_bind]. done. }
  assert (Ep : (if key_len q <? length kv then W ++ drop (key_len q) kv else W) = take (length tokens) row').
  { rewrite <- Erow, HW. destruct (Nat.ltb_spec (key_len q) (length kv)); [done|]. by rewrite drop_ge, app_nil_r by lia. }
  split; [|split; [done|split; [exact Ep|split]]].
  - split; try done.
    + exists y. split; [done|]. rewrite Hyk, (req_key_frame _ _ c c5 F5). by rewrite (fr_root _ _ F5).
    + by left.
    + rewrite (req_key_frame _ _ c c5 F5). cbn [cache_protected_len]. unfold req_key. cbn [req_extra_key req_cache_salt].
      change (page_aligned _ (page_size c)) with q. rewrite HP3, <- HW, W2, take_ge; [done|]. rewrite key_len_iter. lia.
    + rewrite (req_key_frame _ _ c c5 F5). done.
    + by rewrite W1.
  - rewrite (freed_ext c3 c5), (freed_ext c2 c3); [|apply R|apply S5]. unfold c2. rewrite freed_log, (freed_ext c c1) by apply S. done.
  - intros i. rewrite (owned_same c3 c5 i S5), (ro_owned _ _ _ _ _ R). change (heap c2) with (heap c1).
    rewrite (st_owned _ _ _ _ _ _ _ _ _ _ _ S). cbn [cache_protected_len]. rewrite <- HW, W4. fold kv.
    destruct (st_prefix _ _ _ _ _ _ _ _ _ _ _ S) as (_ & Hlk & _). rewrite key_len_iter in Hlk. fold q in Hlk.
    pose proof (row_parts kv prot l (key_len q) i Hl Hlk). rewrite HW in *. fold q. lia.
Qed.
End client_props.

(** ** A small request *)

Module TinyReq.
Definition req : Req := mkReq [1; 2; 3; 4; 5]%Z [6; 7]%Z [1; 2; 3; 4; 5; 6; 7]%Z 7 None None None 0 0 [] (Some 0).
Definition row : list Z := [30; 31; 32; 33; 34; 35; 36; 0]%Z.

(** A request without a protected prefix holds the root. *)
Lemma ok P : cache_ok TinyRadix.stored4 P no_holders → req_ok TinyRadix.stored4 P no_holders req [1; 2; 3; 4; 5; 6; 7]%Z row 0.
Proof.
  intros Hok. destruct (tree_root _ _ _ _ (co_tree _ _ _ Hok)) as (r & Hr & _ & _ & _ & HP).
  split; [done| |by right|exact HP|cbn; lia|cbn; lia]. exists r. split; [exact Hr|by left].
Qed.
End TinyReq.

Lemma finished_req_no_leak_witness : let c := TinyRadix.stored4 in let r := TinyReq.req in
  ∃ P, (cache_ok c P no_holders ∧ req_ok c P no_holders r [1; 2; 3; 4; 5; 6; 7]%Z TinyReq.row 0) ∧
  ∃ c' P' slots, cache_finished_req TinyRadix.clock r true 7 [TinyReq.row] c = Ok c' ∧ cache_ok c' P' no_holders ∧
    freed c' = freed c ++ slots ∧
    ∀ i, (owned (heap c) i + tally [30; 31; 32; 33; 34; 35; 36] i = owned (heap c') i + tally slots i)%Z.
Proof.
  intros c r. destruct TinyRadix.stored4_ok as [P HP]. exists P. split; [split; [exact HP|by apply TinyReq.ok]|].
  destruct (finished_req_no_leak TinyRadix.clock c P no_holders r true 7 [TinyReq.row] TinyReq.row 0 HP eq_refl eq_refl (TinyReq.ok P HP))
    as (c' & P' & slots & Hrun & Hok' & _ & Hf & Ho & _).
  exists c', P', slots. split; [exact Hrun|]. split; [exact Hok'|]. split; [exact Hf|exact Ho].
Defined.

Lemma unfinished_req_keeps_witness : let c := TinyRadix.stored4 in let r := TinyReq.req in
  ∃ P, (cache_ok c P no_holders ∧ req_ok c P no_holders r [1; 2; 3; 4; 5; 6; 7]%Z TinyReq.row 0) ∧
  ∃ r' t' c', cache_unfinished_req TinyRadix.clock r false [TinyReq.row] c = Ok (r', t', c') ∧
    cache_protected_len r' = 6 ∧ t' = [[10; 11; 12; 13; 34; 35; 36; 0]%Z] ∧
    ∃ P' m, req_ok c' P' (add_handle m 1 no_holders) r' [1; 2; 3; 4; 5; 6; 7]%Z [10; 11; 12; 13; 34; 35; 36; 0]%Z m.
Proof.
  intros c r. destruct TinyRadix.stored4_ok as [P HP]. exists P. split; [split; [exact HP|by apply TinyReq.ok]|].
  destruct (unfinished_req_keeps TinyRadix.clock c P no_holders r false [TinyReq.row] TinyReq.row 0 HP eq_refl eq_refl (TinyReq.ok P HP))
    as (r' & t' & c' & P' & row' & m & slots & Hrun & Ht & _ & _ & Hr' & Hp & _).
  assert (E : match cache_unfinished_req TinyRadix.clock r false [TinyReq.row] c with Ok (_, t, _) => t | Raise _ => [] end =
    [[10; 11; 12; 13; 34; 35; 36; 0]%Z]) by (vm_compute; reflexivity).
  rewrite Hrun in E. assert (row' = [10; 11; 12; 13; 34; 35; 36; 0]%Z) as -> by (rewrite Ht in E; cbn in E; congruence).
  exists r', t', c'. split; [exact Hrun|]. split; [exact Hp|]. split; [exact E|]. exists P', m. exact Hr'.
Defined.
