(* ===== verification/RadixTrace.v ===== *)
(** * RadixTrace: sessions of the prefix cache

    A client calls the operations of [RadixCache] in any order; the only rules are that it
    locks nodes of the tree and unlocks what it has locked.  The states it can reach are an
    inductive relation; the invariant, progress and the conservation of KV slots hold in all
    of them. *)

From S2P Require Import Prelude RadixKey RadixTree RadixInv RadixSplit RadixMatch RadixInsert RadixLock RadixEvict RadixProps RadixClient.
#[local] Open Scope nat_scope.

Inductive op : Type :=
  | Match (k : RadixKey)
  | Insert (k : RadixKey) (v : option (list Z)) (p : Z) (chunked : bool)
  | IncLock (n : nat)
  | DecLock (n : nat)
  | Evict (num : nat).

Section trace.
Context (monotonic : nat → Z) `{HeapQLaws}.

(** The new cache, and the slots the tree took over. *)
Definition exec (o : op) (c : Cache) : result (Cache * list Z) :=
  match o with
  | Match k => '(_, c) ← match_prefix monotonic k c; Ok (c, [])
  | Insert k v p chunked => '(r, c') ← insert monotonic k v p chunked c; Ok (c', drop (prefix_len r) (insert_values c k v))
  | IncLock n => '(_, c) ← inc_lock_ref n c; Ok (c, [])
  | DecLock n => '(_, c) ← dec_lock_ref n c; Ok (c, [])
  | Evict num => '(_, c) ← evict num c; Ok (c, [])
  end.

Definition allowed (c : Cache) (Hs : holders) (o : op) : Prop :=
  match o with
  | Match k => key_ok k
  | Insert k v _ _ => key_ok k ∧ enough_values c k v
  | IncLock n => is_Some (heap c !! n)
  | DecLock n => is_Some (heap c !! n) ∧ ((1 ≤ Hs n)%Z ∨ n = root_node c)
  | Evict _ => True
  end.

Definition handles (c : Cache) (o : op) (Hs : holders) : holders :=
  match o with
  | IncLock n => add_handle n 1 Hs
  | DecLock n => drop_handle c n Hs
  | _ => Hs
  end.

(** States reachable from [c0], with the handles of the client and the slots it gave. *)
Inductive reachable (c0 : Cache) : Cache → holders → list Z → Prop :=
  | reach_init : reachable c0 c0 no_holders []
  | reach_step c Hs G o c' g :
      reachable c0 c Hs G → allowed c Hs o → exec o c = Ok (c', g) → reachable c0 c' (handles c o Hs) (G ++ g).

(** Slots in the tree and slots given back: what the client gave. *)
Definition conserved (c0 c : Cache) (G : list Z) : Prop :=
  ∃ slots, freed c = freed c0 ++ slots ∧ ∀ i, (owned (heap c) i + tally slots i = owned (heap c0) i + tally G i)%Z.

Record step_ok (c : Cache) (P : paths) (Hs : holders) (o : op) (c' : Cache) (g : list Z) : Prop := {
  sk_ok : ∃ P', cache_ok c' P' (handles c o Hs);
  sk_frame : frame c c';
  sk_slots : ∃ slots, freed c' = freed c ++ slots ∧ ∀ i, (owned (heap c') i + tally slots i = owned (heap c) i + tally g i)%Z;
}.

Lemma still_conserved c c' g : frees c' = frees c → (∀ i, owned (heap c') i = (owned (heap c) i + tally g i)%Z) →
  ∃ slots, freed c' = freed c ++ slots ∧ ∀ i, (owned (heap c') i + tally slots i = owned (heap c) i + tally g i)%Z.
Proof.
  intros Hf Ho. exists []. rewrite app_nil_r, (freed_ext c c' Hf). split; [done|]. intros i. rewrite Ho. change (tally [] i) with 0%Z. lia.
Qed.

Lemma freed_segments c c' segs : frees c' = frees c ++ ((λ v, FreeSegment v 0) <$> segs) → freed c' = freed c ++ concat segs.
Proof.
  intros E. unfold freed. rewrite E, fmap_app, concat_app. do 2 f_equal.
  clear E. induction segs as [|v segs IH]; [done|]. cbn. by rewrite IH.
Qed.

Lemma exec_ok c P Hs o :
  cache_ok c P Hs → disable c = false → allowed c Hs o → ∃ c' g, exec o c = Ok (c', g) ∧ step_ok c P Hs o c' g.
Proof.
  intros Hok Hdis Hal. assert (Hnil : ∀ z : Z, (z = z + 0)%Z) by lia. destruct o as [k|k v p chunked|n|n|num]; cbn in Hal |- *.
  - destruct (match_prefix_spec monotonic c P Hs k Hok Hal Hdis) as (r & c' & P' & -> & R & _). cbn. exists c', [].
    split; [done|]. split; [exists P'; apply R|apply R|]. apply still_conserved; [apply R|]. intros i.
    rewrite (ro_owned _ _ _ _ _ R). apply Hnil.
  - destruct Hal as [Hk Hv]. destruct (insert_spec monotonic c P Hs k v p chunked Hok Hk Hdis Hv) as (l & b & W & c' & P' & -> & S).
    cbn. eexists c', _. split; [done|]. split; [exists P'; apply S|apply S|]. apply still_conserved; apply S.
  - destruct Hal as [x Hx]. destruct (inc_lock_ref_spec c P Hs n x Hok Hx Hdis) as (c' & -> & Hok' & S & _). cbn. exists c', [].
    split; [done|]. split; [by exists P|apply S|]. apply still_conserved; [apply S|]. intros i. rewrite (owned_same c c' i S). apply Hnil.
  - destruct Hal as [[x Hx] Hh]. destruct (dec_lock_ref_spec c P Hs n x Hok Hx Hdis Hh) as (c' & -> & Hok' & S & _). cbn. exists c', [].
    split; [done|]. split; [by exists P|apply S|]. apply still_conserved; [apply S|]. intros i. rewrite (owned_same c c' i S). apply Hnil.
  - destruct (evict_spec c P Hs num Hok Hdis) as (total & c' & -> & Hev). cbn. exists c', []. split; [done|].
    destruct (evictions_outcome num P Hs 0 c total c' Hok Hev) as [O F _ _ (segs & Hf & _ & Ho) _ _].
    split; [by exists P|done|]. exists (concat segs). split; [by apply freed_segments|]. intros i. rewrite Ho. apply Hnil.
Qed.

Lemma reachable_ok c0 c Hs G :
  cache_ok c0 no_paths no_holders → disable c0 = false → reachable c0 c Hs G →
  (∃ P, cache_ok c P Hs) ∧ frame c0 c ∧ conserved c0 c G.
Proof.
  intros Hok0 Hdis0 Hr. induction Hr as [|c Hs G o c' g Hr [[P Hok] [F (s1 & Hf1 & Ho1)]] Hal Hex].
  - split; [by exists no_paths|]. split; [done|]. exists []. rewrite app_nil_r. split; [done|]. done.
  - assert (Hdis : disable c = false) by (by rewrite (fr_disable _ _ F)).
    destruct (exec_ok c P Hs o Hok Hdis Hal) as (c2 & g2 & Hex2 & [HP F2 (s2 & Hf2 & Ho2)]).
    assert (c2 = c' ∧ g2 = g) as [-> ->] by (rewrite Hex in Hex2; injection Hex2; done).
    split; [exact HP|]. split; [by etrans|]. exists (s1 ++ s2). rewrite Hf2, Hf1, <- app_assoc. split; [done|].
    intros i. rewrite !tally_app. pose proof (Ho1 i). pose proof (Ho2 i). lia.
Qed.

(** C39: in every session of the cache, in every state it reaches, the invariant holds, every
    operation the client may call next returns (the cache never raises), and every KV slot
    that was given to the tree is exactly as often in the tree or freed. *)
Theorem sessions_safe (page_size : nat) (is_eagle disable_finished_insert : bool) (policy : string) (c0 c : Cache)
    (Hs : holders) (G : list Z) (Hps : 0 < page_size)
    (Hinit : init monotonic false page_size is_eagle disable_finished_insert policy = Ok c0)
    (Hr : reachable c0 c Hs G) :
  (∃ P, cache_ok c P Hs) ∧ (∀ o, allowed c Hs o → is_ok (exec o c) = true) ∧ ∀ i, (owned (heap c) i + tally (freed c) i = tally G i)%Z.
Proof.
  destruct (init_ok monotonic _ _ _ _ _ _ Hps Hinit) as (Hok0 & Hdis0 & _).
  destruct (reachable_ok c0 c Hs G Hok0 Hdis0 Hr) as ([P Hok] & F & slots & Hf & Ho). split; [by exists P|]. split.
  - intros o Ha. destruct (exec_ok c P Hs o Hok ltac:(by rewrite (fr_disable _ _ F)) Ha) as (c' & g & -> & _). done.
  - intros i. assert (freed c0 = [] ∧ owned (heap c0) i = 0%Z) as [E1 E2].
    { unfold init in Hinit. apply result_bind_Ok in Hinit as (s & _ & [= <-]). split; [done|].
      change (heap (reset _ _)) with (<[0 := mkNode ∅ None (new_key [] None false None None) (Some []) 1 (monotonic 0) (monotonic 1) 0 0 (Some []) None min_priority]> (∅ : gmap nat TreeNode)).
      unfold owned. rewrite msum_insert, msum_empty by apply lookup_empty. done. }
    rewrite Hf, E1. cbn [app]. rewrite Ho, E2. lia.
Qed.
End trace.

Lemma sessions_safe_witness : let clock := TinyRadix.clock in let c := TinyRadix.stored4 in
  ∃ c' Hs G, (0 < 2 ∧ init clock false 2 false false "LRU" = Ok TinyRadix.empty ∧
    reachable clock (H := SelectionHeap.heap) TinyRadix.empty c' Hs G ∧ Hs 1 = 1%Z) ∧
  (∃ P, cache_ok c' P Hs) ∧ (∀ o, allowed c' Hs o → is_ok (exec clock (H := SelectionHeap.heap) o c') = true) ∧
  ∀ i, (owned (heap c') i + tally (freed c') i = tally G i)%Z.
Proof.
  intros clock c. assert (R0 : reachable clock (H := SelectionHeap.heap) TinyRadix.empty TinyRadix.empty no_holders []) by constructor.
  assert (R1 : reachable clock (H := SelectionHeap.heap) TinyRadix.empty c no_holders [10; 11; 12; 13]%Z).
  { refine (reach_step clock TinyRadix.empty TinyRadix.empty no_holders [] (Insert TinyRadix.key4 (Some [10; 11; 12; 13]%Z) 0 false) c _ R0 _ _).
    - split; [done|vm_compute; lia].
    - vm_compute. reflexivity. }
  destruct (inc_lock_ref 1 c) as [[d c']|e] eqn:E; [|vm_compute in E; discriminate E].
  assert (R2 : reachable clock (H := SelectionHeap.heap) TinyRadix.empty c' (add_handle 1 1 no_holders) ([10; 11; 12; 13] ++ [])%Z).
  { refine (reach_step clock TinyRadix.empty c no_holders _ (IncLock 1) c' _ R1 _ _); [exact TinyRadix.stored4_leaf|].
    cbn [exec]. rewrite E. reflexivity. }
  exists c', (add_handle 1 1 no_holders), ([10; 11; 12; 13] ++ [])%Z. split; [split_and!; [lia|reflexivity|exact R2|reflexivity]|].
  exact (sessions_safe clock (H := SelectionHeap.heap) (H0 := SelectionHeap.laws) 2 false false "LRU" TinyRadix.empty c' _ _ (Nat.lt_0_succ 1) eq_refl R2).
Defined.
