(* ===== verification/RadixSize.v ===== *)
(** * RadixSize: the walk over the whole tree

    [total_size] of [RadixCache] sums the lengths of all values with an explicit stack.  The
    two size counters, which every operation updates in constant time, add up to the same
    number. *)

From S2P Require Import Prelude RadixKey RadixTree RadixInv RadixSplit RadixMatch RadixInsert RadixLock RadixEvict RadixProps.
#[local] Open Scope nat_scope.

(** ** Sums *)

Lemma msum_add {K A} `{Countable K} (f g : K → A → Z) (m : gmap K A) : (msum f m + msum g m)%Z = msum (λ k a, f k a + g k a)%Z m.
Proof.
  induction m as [|k a m Hk IH] using map_ind; [by rewrite !msum_empty|]. rewrite !msum_insert by done. lia.
Qed.

Lemma msum_point {K A} `{Countable K} (f g : K → A → Z) (m : gmap K A) k a :
  m !! k = Some a → (∀ i b, m !! i = Some b → i ≠ k → f i b = g i b) → msum g m = (msum f m - f k a + g k a)%Z.
Proof.
  intros Hk Hfg. rewrite <- (insert_delete_id m k a Hk), !msum_insert by apply lookup_delete_eq.
  rewrite (msum_ext g f (delete k m) (delete k m)); [lia|]. intros i. destruct (delete k m !! i) as [b|] eqn:E; [|done].
  apply lookup_delete_Some in E as [Hi Hb]. cbn. by rewrite (Hfg i b).
Qed.

(** ** The walk *)

Definition value_len (x : TreeNode) : nat := length (default [] (value x)).

(** The tokens of the nodes that are not in [V] yet. *)
Definition unseen (V : gset nat) (h : gmap nat TreeNode) : Z :=
  msum (λ n x, if decide (n ∈ V) then 0%Z else Z.of_nat (value_len x)) h.

(** The nodes in [V] are done; the stack holds the children of these that are not. *)
Record visiting (c : Cache) (V : gset nat) (stack : list nat) : Prop := {
  vs_nodup : NoDup stack;
  vs_stack n : n ∈ stack → n ∉ V ∧ ∃ x, heap c !! n = Some x ∧ (n = root_node c ∨ ∃ p, parent x = Some p ∧ p ∈ V);
  vs_done n x p : n ∈ V → heap c !! n = Some x → n ≠ root_node c → parent x = Some p → p ∈ V;
  vs_rest n x p : n ∉ V → heap c !! n = Some x → n ≠ root_node c → parent x = Some p → p ∈ V → n ∈ stack;
  vs_root : root_node c ∈ V ∨ root_node c ∈ stack;
  vs_dom : V ⊆ dom (heap c);
}.

Lemma child_ids_nodup c P H n x : cache_ok c P H → heap c !! n = Some x → NoDup (child_ids x).
Proof.
  intros Hok Hx. unfold child_ids. apply NoDup_fmap_2_strong; [|apply NoDup_map_to_list].
  intros [q m] [q' m'] Hm Hm' E. cbn in E. subst m'. apply elem_of_map_to_list in Hm, Hm'.
  destruct (tree_child _ _ _ _ (co_tree _ _ _ Hok) _ _ _ _ Hx Hm) as (y & _ & Hy & _ & E1).
  destruct (tree_child _ _ _ _ (co_tree _ _ _ Hok) _ _ _ _ Hx Hm') as (y' & _ & Hy' & _ & E2). congruence.
Qed.

(** A parent knows its children. *)
Lemma parent_child c P H n x p y : cache_ok c P H → heap c !! n = Some x → n ≠ root_node c → parent x = Some p →
  heap c !! p = Some y → n ∈ child_ids y.
Proof.
  intros Hok Hx Hn Hp Hy. destruct (node_edge _ _ _ _ _ Hok Hn Hx) as (p' & px & He & Hpx).
  pose proof (edge_parent _ _ _ _ _ _ _ He). assert (p' = p) as -> by congruence.
  destruct (edge_link _ _ _ _ _ _ _ He) as (px' & ck & Hp' & _ & Hc & _). apply child_ids_elem. exists ck. congruence.
Qed.

Lemma child_parent c P H n x m : cache_ok c P H → heap c !! n = Some x → m ∈ child_ids x →
  ∃ y, m ≠ root_node c ∧ heap c !! m = Some y ∧ parent y = Some n.
Proof.
  intros Hok Hx (ck & Hm)%child_ids_elem.
  destruct (tree_child _ _ _ _ (co_tree _ _ _ Hok) _ _ _ _ Hx Hm) as (y & ? & ? & ? & _). by exists y.
Qed.

Lemma visit c P H V n stack x :
  cache_ok c P H → visiting c V (n :: stack) → heap c !! n = Some x →
  visiting c ({[n]} ∪ V) (reverse (child_ids x) ++ stack).
Proof.
  intros Hok [V1 V2 V3 V4 V5 V6] Hx. apply NoDup_cons in V1 as [Vn V1]. destruct (V2 n) as [HnV _]; [by left|].
  assert (Hfresh : ∀ m, m ∈ child_ids x → m ∉ V ∧ m ≠ n ∧ m ∉ stack).
  { intros m Hm. destruct (child_parent _ _ _ _ _ _ Hok Hx Hm) as (y & Hmr & Hy & Hyp). split_and!.
    - intros HmV. by apply HnV, (V3 m y n).
    - intros ->. assert (y = x) as -> by congruence. destruct (node_edge _ _ _ _ _ Hok Hmr Hx) as (p & px & He & _).
      pose proof (edge_parent _ _ _ _ _ _ _ He). assert (p = n) as -> by congruence.
      destruct (edge_path _ _ _ He) as [Hl _]. destruct (edge_len _ _ _ _ _ _ _ He). pose proof (tree_ps _ _ _ _ (co_tree _ _ _ Hok)). lia.
    - intros Hms. destruct (V2 m) as [_ (y' & Hy' & [?|(p & Hp & HpV)])]; [by right|done|]. congruence. }
  split.
  - apply NoDup_app. split_and!; [rewrite reverse_Permutation; by eapply child_ids_nodup| |done]. intros m Hm. rewrite elem_of_reverse in Hm. by apply Hfresh.
  - intros m [Hm|Hm]%elem_of_app.
    + rewrite elem_of_reverse in Hm. destruct (Hfresh m Hm) as (? & ? & ?). split; [set_solver|].
      destruct (child_parent _ _ _ _ _ _ Hok Hx Hm) as (y & _ & Hy & Hyp). exists y. split; [done|]. right. exists n. set_solver.
    + destruct (V2 m) as [HmV (y & Hy & Hyp)]; [by right|]. split.
      * apply not_elem_of_union. split; [|done]. intros ->%elem_of_singleton. done.
      * exists y. split; [done|]. destruct Hyp as [?|(p & ? & ?)]; [by left|right]. exists p. set_solver.
  - intros m y p Hm Hy Hmr Hp. apply elem_of_union in Hm as [->%elem_of_singleton|Hm]; apply elem_of_union; right.
    + destruct (V2 n) as [_ (x' & Hx' & [?|(p' & Hp' & HpV)])]; [by left|done|]. congruence.
    + by apply (V3 m y p).
  - intros m y p Hm Hy Hmr Hp HpV. apply not_elem_of_union in Hm as [Hmn HmV]. apply elem_of_app.
    apply elem_of_union in HpV as [->%elem_of_singleton|HpV].
    + left. rewrite elem_of_reverse. by eapply parent_child.
    + right. assert (m ∈ n :: stack) as [->|?]%elem_of_cons by (by apply (V4 m y p)); [set_solver|done].
  - destruct V5 as [?|[->|?]%elem_of_cons]; [left; set_solver|left; set_solver|right; apply elem_of_app; by right].
  - apply union_subseteq. split; [|done]. intros m ->%elem_of_singleton. apply elem_of_dom. by exists x.
Qed.

(** When the stack is empty every node is done. *)
Lemma visited_all c P H V : cache_ok c P H → visiting c V [] → ∀ n x, heap c !! n = Some x → n ∈ V.
Proof.
  intros Hok [_ _ _ V4 V5 _]. apply (tree_ind (co_tree _ _ _ Hok)).
  - destruct V5 as [?|?%elem_of_nil]; done.
  - intros n x p px Hn Hx Hp He HpV. destruct (decide (n ∈ V)) as [|HnV]; [done|].
    by apply (V4 n x p HnV Hx Hn (edge_parent _ _ _ _ _ _ _ He)), elem_of_nil in HpV.
Qed.

Lemma live_kids c P H n x : cache_ok c P H → heap c !! n = Some x →
  mapM (λ i, y ← get c i; Ok (if evicted y then [] else [i])) (child_ids x) = Ok ((λ i, [i]) <$> child_ids x).
Proof.
  intros Hok Hx. assert (Hk : ∀ m, m ∈ child_ids x → ∃ y, heap c !! m = Some y ∧ evicted y = false).
  { intros m Hm. destruct (child_parent _ _ _ _ _ _ Hok Hx Hm) as (y & _ & Hy & _). exists y. split; [done|].
    apply bool_decide_eq_false_2. exact (node_value _ _ _ _ _ Hok Hy). }
  revert Hk. generalize (child_ids x). intros l. induction l as [|m l IH]; intros Hk; [done|]. cbn.
  destruct (Hk m) as (y & Hy & Ey); [by left|]. rewrite (get_Some _ _ _ Hy). cbn [mbind result_bind]. rewrite Ey.
  rewrite IH; [done|]. intros m' Hm'. apply Hk. by right.
Qed.

Lemma concat_singletons {A} (l : list A) : concat ((λ i, [i]) <$> l) = l.
Proof. induction l as [|x l IH]; [done|]. cbn. by rewrite IH. Qed.

Lemma total_size_loop_spec c P H fuel V stack total :
  cache_ok c P H → visiting c V stack → size (dom (heap c)) < fuel + size V →
  ∃ n, total_size_loop fuel stack total c = Ok n ∧ Z.of_nat n = (Z.of_nat total + unseen V (heap c))%Z.
Proof.
  intros Hok. revert V stack total. induction fuel as [|fuel IH]; intros V stack total Hv Hf.
  { pose proof (subseteq_size _ _ (vs_dom _ _ _ Hv)). lia. }
  destruct stack as [|n stack]; cbn [total_size_loop].
  { exists total. split; [done|]. unfold unseen. rewrite msum_zero; [lia|]. intros m x Hx.
    rewrite decide_True; [done|]. by eapply visited_all. }
  destruct (vs_stack _ _ _ Hv n) as [HnV (x & Hx & _)]; [by left|]. rewrite (get_Some _ _ _ Hx). cbn [mbind result_bind].
  pose proof (node_value _ _ _ _ _ Hok Hx) as Hval. destruct (value x) as [v|] eqn:Ev; [|done]. cbn [mbind result_bind].
  rewrite (live_kids _ _ _ _ _ Hok Hx). cbn [mbind result_bind]. rewrite concat_singletons.
  destruct (IH ({[n]} ∪ V) (reverse (child_ids x) ++ stack) (total + length v)) as (k & Hrun & Hk).
  - by eapply visit.
  - rewrite size_union, size_singleton by set_solver. lia.
  - exists k. split; [done|]. rewrite Hk. unfold unseen.
    rewrite (msum_point (λ n x, if decide (n ∈ V) then 0%Z else Z.of_nat (value_len x)) _ (heap c) n x Hx).
    + rewrite (decide_False (P := n ∈ V)), (decide_True (P := n ∈ {[n]} ∪ V)) by set_solver.
      unfold value_len at 2. rewrite Ev. cbn. lia.
    + intros m y Hy Hm. destruct (decide (m ∈ V)); [rewrite decide_True by set_solver|rewrite decide_False by set_solver]; done.
Qed.

(** The counters split the tokens by lock. *)
Lemma counters_total c P H : cache_ok c P H → (evictable_size c + protected_size c)%Z = unseen ∅ (heap c).
Proof.
  intros Hok. unfold evictable_size, protected_size. rewrite (co_evictable _ _ _ Hok), (co_protected _ _ _ Hok).
  unfold weight, unseen. rewrite msum_add. apply msum_ext. intros n. destruct (heap c !! n) as [x|] eqn:Hx; [|done]. cbn.
  rewrite decide_False by set_solver. f_equal. unfold node_weight. case_bool_decide as Hr.
  - subst n. destruct (tree_root _ _ _ _ (co_tree _ _ _ Hok)) as (r & Hr & _ & Hv & _). assert (r = x) as -> by congruence.
    unfold value_len. by rewrite Hv.
  - destruct (node_edge _ _ _ _ _ Hok Hr Hx) as (p & px & He & _). destruct (edge_value _ _ _ _ _ _ _ He) as (v & Hv & Hl & _).
    unfold value_len. rewrite Hv. cbn. rewrite Hl. unfold unlocked, locked. destruct (lock_ref x =? 0)%Z; cbn; lia.
Qed.

(** [total_size] terminates on every consistent cache and equals the sum of the two
    counters that the other operations maintain. *)
Theorem total_size_is_sum (c : Cache) (P : paths) (H : holders) (Hok : cache_ok c P H) :
  ∃ n, total_size c = Ok n ∧ Z.of_nat n = (evictable_size c + protected_size c)%Z.
Proof.
  destruct (tree_root _ _ _ _ (co_tree _ _ _ Hok)) as (r & Hr & _).
  destruct (total_size_loop_spec c P H (S (size (heap c))) ∅ [root_node c] 0 Hok) as (n & Hrun & Hn).
  - split; [apply NoDup_singleton| |set_solver|set_solver|right; by left|set_solver]. intros n ->%list_elem_of_singleton.
    split; [set_solver|]. exists r. split; [done|by left].
  - rewrite size_dom. lia.
  - exists n. split; [done|]. rewrite (counters_total _ _ _ Hok). lia.
Qed.

Lemma total_size_is_sum_witness : let c := TinyRadix.stored4 in
  ∃ P, cache_ok c P no_holders ∧ ∃ n, total_size c = Ok n ∧ Z.of_nat n = (evictable_size c + protected_size c)%Z.
Proof.
  intros c. destruct TinyRadix.stored4_ok as [P HP]. exists P. split; [exact HP|]. exact (total_size_is_sum c P no_holders HP).
Defined.
