(* ===== verification/TargetCodec.v ===== *)
(** * TargetCodec: the bytes of the target cache

    The binary part of [DeepSpec/deepspec/data/target_cache_dataset.py]: index records packed
    with [struct.Struct("<QIIQQQQQ")], integer tensors written with [numpy.tobytes] and read
    back with [np.frombuffer].  A byte is an integer between 0 and 255; all encodings are
    little-endian. *)

From S2P Require Import Prelude.
#[local] Open Scope nat_scope.

Notation bytes := (list Z).

(** ** Integers of [w] bytes *)

Fixpoint le_encode (w : nat) (z : Z) : bytes :=
  match w with 0 => [] | S w => (z mod 256)%Z :: le_encode w (z / 256) end.
Fixpoint le_decode (b : bytes) : Z :=
  match b with [] => 0%Z | x :: b => (x + 256 * le_decode b)%Z end.

Definition modulus (w : nat) : Z := (256 ^ Z.of_nat w)%Z.

Lemma modulus_pos w : (0 < modulus w)%Z.
Proof. unfold modulus. lia. Qed.

Lemma modulus_S w : modulus (S w) = (256 * modulus w)%Z.
Proof. unfold modulus. rewrite Nat2Z.inj_succ, Z.pow_succ_r by lia. done. Qed.

Lemma le_encode_length w z : length (le_encode w z) = w.
Proof. revert z. induction w as [|w IH]; intros z; [done|]. cbn. by rewrite IH. Qed.

Lemma le_decode_encode w z : le_decode (le_encode w z) = (z mod modulus w)%Z.
Proof.
  revert z. induction w as [|w IH]; intros z; [by rewrite Z.mod_1_r|]. cbn [le_encode le_decode].
  rewrite IH, modulus_S, Z.rem_mul_r by (pose proof (modulus_pos w); lia). lia.
Qed.

(** [struct.pack] of one unsigned field: out of range raises [struct.error]. *)
Definition pack_uint (w : nat) (z : Z) : result bytes :=
  if (0 <=? z)%Z && (z <? modulus w)%Z then Ok (le_encode w z) else Raise StructError.

Lemma pack_uint_Ok w z b : pack_uint w z = Ok b ↔ (0 ≤ z < modulus w)%Z ∧ b = le_encode w z.
Proof.
  unfold pack_uint. destruct (Z.leb_spec 0 z), (Z.ltb_spec z (modulus w)); cbn; split; try done; try lia.
  - by intros [= <-].
  - by intros [_ ->].
Qed.

(** ** [struct.Struct] of unsigned fields *)

Definition pack (fields : list (nat * Z)) : result bytes :=
  parts ← mapM (λ f, pack_uint f.1 f.2) fields; Ok (concat (parts : list bytes)).

Fixpoint unpack (widths : list nat) (b : bytes) : list Z :=
  match widths with [] => [] | w :: ws => le_decode (take w b) :: unpack ws (drop w b) end.

Definition unpack_from (widths : list nat) (b : bytes) (offset : nat) : result (list Z) :=
  if offset + sum_list widths <=? length b then Ok (unpack widths (drop offset b)) else Raise StructError.

Lemma pack_Ok fields b :
  pack fields = Ok b ↔ Forall (λ f : nat * Z, 0 ≤ f.2 < modulus f.1)%Z fields ∧ b = concat ((λ f, le_encode f.1 f.2) <$> fields).
Proof.
  unfold pack. revert b. induction fields as [|[w z] fields IH]; intros b; cbn.
  - split; [intros [= <-]; by split|by intros [_ ->]].
  - split.
    + intros (parts & (x & Hx%pack_uint_Ok & (ps & Hps & [= <-])%result_bind_Ok)%result_bind_Ok & [= <-])%result_bind_Ok.
      destruct (IH (concat ps)) as [IH' _]. rewrite Hps in IH'. destruct IH' as [HF E]; [done|]. destruct Hx as [Hx ->].
      split; [by constructor|]. cbn. by rewrite E.
    + intros [[Hz HF]%Forall_cons ->]. destruct (IH (concat ((λ f, le_encode f.1 f.2) <$> fields))) as [_ IH'].
      specialize (IH' (conj HF eq_refl)). apply result_bind_Ok in IH' as (ps & Hps & [= E]).
      assert (Hp : pack_uint w z = Ok (le_encode w z)) by by apply pack_uint_Ok.
      rewrite Hp. cbn. rewrite Hps. cbn. by rewrite E.
Qed.

Lemma pack_length fields b : pack fields = Ok b → length b = sum_list fields.*1.
Proof.
  intros [_ ->]%pack_Ok. induction fields as [|[w z] fields IH]; [done|]. cbn. by rewrite length_app, le_encode_length, IH.
Qed.

(** Reading back what was packed, anywhere in a buffer. *)
Lemma unpack_pack fields b pre post :
  pack fields = Ok b → unpack_from fields.*1 (pre ++ b ++ post) (length pre) = Ok fields.*2.
Proof.
  intros Hb. pose proof (pack_length _ _ Hb) as Hl. apply pack_Ok in Hb as [HF ->]. unfold unpack_from.
  rewrite !length_app, Hl, (proj2 (Nat.leb_le _ _)) by lia. f_equal. rewrite drop_app_length. clear Hl.
  induction HF as [|[w z] fields Hz _ IH]; [done|]. cbn in *. rewrite <- app_assoc.
  rewrite take_app_le, (take_ge (le_encode w z)) by (rewrite le_encode_length; lia).
  rewrite drop_app_ge, le_encode_length, Nat.sub_diag, drop_0 by (rewrite le_encode_length; lia).
  by rewrite IH, le_decode_encode, Z.mod_small.
Qed.

(** ** Index records *)

Record IndexRecord : Type := mkIndexRecord {
  sample_id : Z;
  shard_id : Z;
  seq_len : Z;
  input_ids_offset : Z;
  attention_mask_offset : Z;
  loss_mask_offset : Z;
  target_hidden_states_offset : Z;
  target_last_hidden_states_offset : Z;
}.

(** ["<QIIQQQQQ"]. *)
Definition INDEX_RECORD_STRUCT : list nat := [8; 4; 4; 8; 8; 8; 8; 8].
Definition INDEX_RECORD_SIZE : nat := sum_list INDEX_RECORD_STRUCT.

Definition record_fields (r : IndexRecord) : list (nat * Z) :=
  zip INDEX_RECORD_STRUCT
    [sample_id r; shard_id r; seq_len r; input_ids_offset r; attention_mask_offset r; loss_mask_offset r;
     target_hidden_states_offset r; target_last_hidden_states_offset r].

Definition pack_index_record (r : IndexRecord) : result bytes := pack (record_fields r).

Definition unpack_index_record (buffer : bytes) (offset : nat) : result IndexRecord :=
  l ← unpack_from INDEX_RECORD_STRUCT buffer offset;
  match l with
  | [a; b; c; d; e; f; g; h] => Ok (mkIndexRecord a b c d e f g h)
  | _ => Raise StructError
  end.

Lemma pack_record_length r b : pack_index_record r = Ok b → length b = INDEX_RECORD_SIZE.
Proof. apply pack_length. Qed.

Lemma unpack_pack_record r b pre post :
  pack_index_record r = Ok b → unpack_index_record (pre ++ b ++ post) (length pre) = Ok r.
Proof.
  intros Hb. unfold unpack_index_record. pose proof (unpack_pack (record_fields r) b pre post Hb) as E.
  change (record_fields r).*1 with INDEX_RECORD_STRUCT in E. rewrite E. by destruct r.
Qed.

(** A record fits its fields. *)
Definition record_fits (r : IndexRecord) : Prop := Forall (λ f : nat * Z, 0 ≤ f.2 < modulus f.1)%Z (record_fields r).

Lemma pack_record_fits r : record_fits r → ∃ b, pack_index_record r = Ok b.
Proof. intros Hr. eexists. by apply pack_Ok. Qed.

(** ** Tensors *)

(** [tensor.to(dtype).numpy().tobytes()]: the conversion wraps. *)
Definition tensor_to_bytes (w : nat) (t : list Z) : bytes := concat (le_encode w <$> t).

(** A [w]-byte pattern read as a signed integer. *)
Definition to_signed (w : nat) (z : Z) : Z := if (z <? modulus w / 2)%Z then z else (z - modulus w)%Z.

Fixpoint decode_all (w count : nat) (b : bytes) : list Z :=
  match count with 0 => [] | S n => le_decode (take w b) :: decode_all w n (drop w b) end.

(** [np.frombuffer(buffer, dtype, count, offset)] of unsigned integers of [w] bytes. *)
Definition frombuffer (w count offset : nat) (buffer : bytes) : result (list Z) :=
  if offset + count * w <=? length buffer then Ok (decode_all w count (drop offset buffer)) else Raise ValueError.

Lemma tensor_to_bytes_length w t : length (tensor_to_bytes w t) = length t * w.
Proof.
  unfold tensor_to_bytes. induction t as [|z t IH]; [done|]. cbn. by rewrite length_app, le_encode_length, IH.
Qed.

Lemma decode_all_bytes w t post : decode_all w (length t) (tensor_to_bytes w t ++ post) = (λ z, z mod modulus w)%Z <$> t.
Proof.
  induction t as [|z t IH]; [done|]. cbn [length decode_all fmap list_fmap]. unfold tensor_to_bytes in *. cbn [fmap list_fmap concat].
  rewrite <- app_assoc. rewrite take_app_le, (take_ge (le_encode w z)) by (rewrite le_encode_length; lia).
  rewrite drop_app_ge, le_encode_length, Nat.sub_diag, drop_0 by (rewrite le_encode_length; lia). by rewrite IH, le_decode_encode.
Qed.

(** Reading a tensor back, anywhere in a buffer. *)
Lemma frombuffer_tensor w t pre post :
  frombuffer w (length t) (length pre) (pre ++ tensor_to_bytes w t ++ post) = Ok ((λ z, z mod modulus w)%Z <$> t).
Proof.
  unfold frombuffer. rewrite !length_app, tensor_to_bytes_length, (proj2 (Nat.leb_le _ _)) by lia.
  by rewrite drop_app_length, decode_all_bytes.
Qed.

Lemma to_signed_mod w z : 0 < w → (- (modulus w / 2) ≤ z < modulus w / 2)%Z → to_signed w (z mod modulus w) = z.
Proof.
  intros Hw Hz. assert (He : modulus w = (2 * (modulus w / 2))%Z).
  { destruct w as [|w]; [lia|]. rewrite modulus_S. replace (256 * modulus w)%Z with (128 * modulus w * 2)%Z by lia.
    rewrite Z.div_mul by lia. lia. }
  set (h := (modulus w / 2)%Z) in *. pose proof (modulus_pos w) as Hm. unfold to_signed. fold h.
  destruct (decide (0 ≤ z)%Z) as [H0|H0].
  - rewrite Z.mod_small by lia. destruct (Z.ltb_spec z h); lia.
  - replace (z mod modulus w)%Z with (z + modulus w)%Z.
    + destruct (Z.ltb_spec (z + modulus w) h); lia.
    + rewrite <- (Z.mod_small (z + modulus w) (modulus w)) by lia. rewrite <- (Z.mul_1_l (modulus w)) at 1. by rewrite Z.mod_add by lia.
Qed.

(** [tensor.view(rows, width)] of a flat tensor. *)
Fixpoint view_rows {A} (width rows : nat) (l : list A) : list (list A) :=
  match rows with 0 => [] | S n => take width l :: view_rows width n (drop width l) end.

Lemma view_rows_concat {A} width (m : list (list A)) :
  Forall (λ r, length r = width) m → view_rows width (length m) (concat m) = m.
Proof.
  induction 1 as [|r m Hr _ IH]; [done|]. cbn. rewrite take_app_le, take_ge by lia.
  by rewrite drop_app_ge, Hr, Nat.sub_diag, drop_0, IH by lia.
Qed.
