(* ===== verification/TargetCache.v ===== *)
(** * TargetCache: the storage protocol of target hidden states

    [DeepSpec/deepspec/data/target_cache_dataset.py] and the part of
    [scripts/data/prepare_target_cache.py] that drives it: every rank writes its samples into
    local shards with a local index, rank 0 numbers all shards, the shards are renamed, the
    local indexes are merged into one, and [CacheDataset] reads samples back.

    A file is a list of bytes; a path is a directory and a file name, whose constructor stands
    for the format string.  Buffering and [fsync] are not observable.  JSON files (manifest and
    summaries) are the values they encode. *)

From S2P Require Import Prelude TargetCodec.
#[local] Open Scope nat_scope.

(** ** The disk *)

Inductive FileName : Type :=
  | SamplesIdx                  (* samples.idx *)
  | SamplesIdxTmp               (* samples.idx.tmp *)
  | SamplesLocalIdx             (* samples.local.idx *)
  | ShardBin (k : nat)          (* shard-%05d.bin *)
  | ShardLocalBin (k : nat).    (* shard-local-%05d.bin *)

#[export] Instance FileName_eq_dec : EqDecision FileName.
Proof. solve_decision. Defined.

#[export] Instance FileName_countable : Countable FileName.
Proof.
  refine (inj_countable'
    (λ f, match f with SamplesIdx => (0, 0) | SamplesIdxTmp => (1, 0) | SamplesLocalIdx => (2, 0)
                     | ShardBin k => (3, k) | ShardLocalBin k => (4, k) end)
    (λ p, match p with (0, _) => SamplesIdx | (1, _) => SamplesIdxTmp | (2, _) => SamplesLocalIdx
                     | (3, k) => ShardBin k | (_, k) => ShardLocalBin k end) _).
  by intros [].
Defined.

(** [None] is the output directory, [Some r] its [_tmp/rank_r]. *)
Notation Path := (option nat * FileName)%type.
Notation Disk := (gmap Path bytes).

(** [open(path, "wb")] truncates. *)
Definition open_wb (p : Path) (d : Disk) : Disk := <[p := []]> d.
(** Appending to an open file. *)
Definition append (p : Path) (b : bytes) (d : Disk) : Disk := <[p := default [] (d !! p) ++ b]> d.
Definition read_file (p : Path) (d : Disk) : result bytes :=
  match d !! p with Some b => Ok b | None => Raise OSError end.
(** [os.replace]. *)
Definition os_replace (src dst : Path) (d : Disk) : result Disk :=
  b ← read_file src d; Ok (<[dst := b]> (delete src d)).

(** ** Samples *)

Record Sample (F : Type) : Type := mkSample {
  input_ids : list Z;
  attention_mask : list Z;
  loss_mask : list Z;
  target_hidden_states : list (list F);
  target_last_hidden_states : list (list F);
}.
Arguments mkSample {F}.
Arguments input_ids {F}.
Arguments attention_mask {F}.
Arguments loss_mask {F}.
Arguments target_hidden_states {F}.
Arguments target_last_hidden_states {F}.

Record TargetCacheSampleBytes : Type := mkSampleBytes {
  sb_sample_id : Z;
  sb_seq_len : Z;
  sb_input_ids : bytes;
  sb_attention_mask : bytes;
  sb_loss_mask : bytes;
  sb_target_hidden_states : bytes;
  sb_target_last_hidden_states : bytes;
}.

(** The bit pattern of a number converted to bfloat16. *)
Class BFloat16 (F : Type) : Type := bfloat16_bits : F → Z.

Definition build_target_cache_sample_bytes {F} `{BFloat16 F} (id : Z) (s : Sample F) : TargetCacheSampleBytes :=
  mkSampleBytes id (Z.of_nat (length (input_ids s)))
    (tensor_to_bytes 4 (input_ids s))
    (tensor_to_bytes 1 (attention_mask s))
    (tensor_to_bytes 1 (loss_mask s))
    (tensor_to_bytes 2 (bfloat16_bits <$> concat (target_hidden_states s)))
    (tensor_to_bytes 2 (bfloat16_bits <$> concat (target_last_hidden_states s))).

(** ** [LocalTargetCacheWriter] *)

Record Writer : Type := mkWriter {
  rank : nat;
  max_shard_bytes : nat;
  index_handle : option Path;
  current_shard_id : Z;
  current_shard_handle : option Path;
  current_shard_size : nat;
  local_shard_files : list FileName;
  num_local_samples : nat;
}.

Definition writer_init (r max_bytes : nat) (d : Disk) : Writer * Disk :=
  let p := (Some r, SamplesLocalIdx) in
  (mkWriter r max_bytes (Some p) (-1) None 0 [] 0, open_wb p d).

Definition writer_close (w : Writer) : Writer :=
  mkWriter (rank w) (max_shard_bytes w) None (current_shard_id w) None (current_shard_size w) (local_shard_files w)
    (num_local_samples w).

Definition open_new_shard (w : Writer) (d : Disk) : Writer * Disk :=
  let id := (current_shard_id w + 1)%Z in
  let file_name := ShardLocalBin (Z.to_nat id) in
  let p := (Some (rank w), file_name) in
  (mkWriter (rank w) (max_shard_bytes w) (index_handle w) id (Some p) 0 (local_shard_files w ++ [file_name])
     (num_local_samples w), open_wb p d).

Definition ensure_shard (sample_nbytes : nat) (w : Writer) (d : Disk) : Writer * Disk :=
  match current_shard_handle w with
  | None => open_new_shard w d
  | Some _ =>
      if (0 <? current_shard_size w) && (max_shard_bytes w <? current_shard_size w + sample_nbytes)
      then open_new_shard w d else (w, d)
  end.

(** [current_shard_handle.write(b); current_shard_size += len(b)], after noting the offset. *)
Definition write_part (b : bytes) (w : Writer) (d : Disk) : result (Z * Writer * Disk) :=
  match current_shard_handle w with
  | None => Raise AttributeError
  | Some p =>
      Ok (Z.of_nat (current_shard_size w),
          mkWriter (rank w) (max_shard_bytes w) (index_handle w) (current_shard_id w) (current_shard_handle w)
            (current_shard_size w + length b) (local_shard_files w) (num_local_samples w),
          append p b d)
  end.

Definition write_sample_bytes (s : TargetCacheSampleBytes) (w : Writer) (d : Disk) : result (Writer * Disk) :=
  let sample_nbytes := length (sb_input_ids s) + length (sb_attention_mask s) + length (sb_loss_mask s) +
    length (sb_target_hidden_states s) + length (sb_target_last_hidden_states s) in
  let '(w, d) := ensure_shard sample_nbytes w d in
  '(o1, w, d) ← write_part (sb_input_ids s) w d;
  '(o2, w, d) ← write_part (sb_attention_mask s) w d;
  '(o3, w, d) ← write_part (sb_loss_mask s) w d;
  '(o4, w, d) ← write_part (sb_target_hidden_states s) w d;
  '(o5, w, d) ← write_part (sb_target_last_hidden_states s) w d;
  b ← pack_index_record (mkIndexRecord (sb_sample_id s) (current_shard_id w) (sb_seq_len s) o1 o2 o3 o4 o5);
  match index_handle w with
  | None => Raise AttributeError
  | Some p =>
      Ok (mkWriter (rank w) (max_shard_bytes w) (index_handle w) (current_shard_id w) (current_shard_handle w)
            (current_shard_size w) (local_shard_files w) (S (num_local_samples w)), append p b d)
  end.

(** The samples of one rank: [write_sample] numbers them, [close] ends the files. *)
Fixpoint write_samples (l : list TargetCacheSampleBytes) (w : Writer) (d : Disk) : result (Writer * Disk) :=
  match l with
  | [] => Ok (w, d)
  | s :: l => '(w, d) ← write_sample_bytes s w d; write_samples l w d
  end.

(** ** Merging the ranks *)

Definition compute_local_sample_range (num_samples rank world_size : nat) : nat * nat :=
  let base := num_samples / world_size in
  let remainder := num_samples mod world_size in
  let start := rank * base + Nat.min rank remainder in
  let local_count := base + if rank <? remainder then 1 else 0 in
  (start, start + local_count).

Record LocalCacheWriteSummary : Type := mkSummary {
  global_rank : nat;
  source_sample_start : nat;
  source_sample_end : nat;
  sum_num_local_samples : nat;
  num_local_shards : nat;
  sum_local_shard_files : list FileName;
}.

Record ShardInfo : Type := mkShard {
  info_shard_id : nat;
  info_file_name : FileName;
}.

(** [sorted(l, key=...)]: stable. *)
Fixpoint insert_by {A} (key : A → nat) (x : A) (l : list A) : list A :=
  match l with [] => [x] | y :: l => if key x <? key y then x :: y :: l else y :: insert_by key x l end.
Fixpoint sorted_by {A} (key : A → nat) (l acc : list A) : list A :=
  match l with [] => acc | x :: l => sorted_by key l (insert_by key x acc) end.

Definition in_source_order (summaries : list LocalCacheWriteSummary) : list LocalCacheWriteSummary :=
  sorted_by source_sample_start summaries [].

Notation ShardMap := (gmap nat (list nat)).

Fixpoint number_shards (l : list LocalCacheWriteSummary) (next : nat) (m : ShardMap) (shards : list ShardInfo)
  : ShardMap * list ShardInfo :=
  match l with
  | [] => (m, shards)
  | s :: l =>
      let ids := seq next (length (sum_local_shard_files s)) in
      number_shards l (next + length (sum_local_shard_files s)) (<[global_rank s := ids]> m)
        (shards ++ ((λ k, mkShard k (ShardBin k)) <$> ids))
  end.

Definition build_global_target_cache_shard_map (summaries : list LocalCacheWriteSummary) : ShardMap * list ShardInfo :=
  number_shards (in_source_order summaries) 0 ∅ [].

Definition py_get {A} (l : list A) (i : nat) : result A :=
  match l !! i with Some x => Ok x | None => Raise IndexError end.
Definition map_get (m : ShardMap) (k : nat) : result (list nat) :=
  match m !! k with Some l => Ok l | None => Raise KeyError end.

Fixpoint rename_shards (r : nat) (files : list FileName) (local_shard_id : nat) (local_map : list nat) (d : Disk) : result Disk :=
  match files with
  | [] => Ok d
  | f :: files =>
      id ← py_get local_map local_shard_id;
      d ← os_replace (Some r, f) (None, ShardBin id) d;
      rename_shards r files (S local_shard_id) local_map d
  end.

Definition rename_local_target_cache_shards (s : LocalCacheWriteSummary) (shard_map : ShardMap) (d : Disk) : result Disk :=
  local_map ← map_get shard_map (global_rank s);
  rename_shards (global_rank s) (sum_local_shard_files s) 0 local_map d.

(** The records of one local index, from [offset] on, renumbered. *)
Fixpoint renumber (count : nat) (local_bytes : bytes) (offset : nat) (local_map : list nat) (local_id next : nat)
  : result (bytes * nat) :=
  match count with
  | 0 => Ok ([], next)
  | S count =>
      r ← unpack_index_record local_bytes offset;
      _ ← py_assert (sample_id r =? Z.of_nat local_id)%Z;
      id ← py_get local_map (Z.to_nat (shard_id r));
      b ← pack_index_record (mkIndexRecord (Z.of_nat next) (Z.of_nat id) (seq_len r) (input_ids_offset r)
             (attention_mask_offset r) (loss_mask_offset r) (target_hidden_states_offset r) (target_last_hidden_states_offset r));
      '(bs, next) ← renumber count local_bytes (offset + INDEX_RECORD_SIZE) local_map (S local_id) (S next);
      Ok (b ++ bs, next)
  end.

Fixpoint finalize_loop (l : list LocalCacheWriteSummary) (shard_map : ShardMap) (next : nat) (d : Disk) : result (nat * Disk) :=
  match l with
  | [] => Ok (next, d)
  | s :: l =>
      local_bytes ← read_file (Some (global_rank s), SamplesLocalIdx) d;
      _ ← py_assert (length local_bytes mod INDEX_RECORD_SIZE =? 0);
      '(b, next) ← (if length local_bytes =? 0 then Ok ([], next)
                    else local_map ← map_get shard_map (global_rank s);
                         renumber (length local_bytes / INDEX_RECORD_SIZE) local_bytes 0 local_map 0 next);
      finalize_loop l shard_map next (append (None, SamplesIdxTmp) b d)
  end.

Definition finalize_target_cache_index (summaries : list LocalCacheWriteSummary) (shard_map : ShardMap) (d : Disk)
  : result (nat * Disk) :=
  '(next, d) ← finalize_loop (in_source_order summaries) shard_map 0 (open_wb (None, SamplesIdxTmp) d);
  d ← os_replace (None, SamplesIdxTmp) (None, SamplesIdx) d;
  Ok (next, d).

(** [shutil.rmtree] of [_tmp]. *)
Definition cleanup_target_cache_tmp_dir (d : Disk) : Disk := filter (λ p : Path * bytes, p.1.1 = None) d.

(** ** The manifest *)

Record Manifest : Type := mkManifest {
  version : Z;
  num_samples : nat;
  num_shards : nat;
  target_layer_ids : list Z;
  hidden_dtype : string;
  token_dtype : string;
  mask_dtype : string;
  index_record_size : nat;
  hidden_size : Z;
  shards : list ShardInfo;
}.

Definition TARGET_CACHE_VERSION : Z := 2.
Definition TARGET_CACHE_HIDDEN_DTYPE : string := "bfloat16".
Definition TARGET_CACHE_TOKEN_DTYPE : string := "int32".
Definition TARGET_CACHE_MASK_DTYPE : string := "uint8".

Definition build_target_cache_manifest (num_samples : nat) (shards : list ShardInfo) (target_layer_ids : list Z)
    (hidden_size : Z) : Manifest :=
  mkManifest TARGET_CACHE_VERSION num_samples (length shards) target_layer_ids TARGET_CACHE_HIDDEN_DTYPE
    TARGET_CACHE_TOKEN_DTYPE TARGET_CACHE_MASK_DTYPE INDEX_RECORD_SIZE hidden_size shards.

Fixpoint sorted_ids (l : list Z) : bool :=
  match l with x :: ((y :: _) as l') => (x <=? y)%Z && sorted_ids l' | _ => true end.

Fixpoint check_shards (l : list ShardInfo) (expected : nat) (d : Disk) : result unit :=
  match l with
  | [] => Ok tt
  | s :: l =>
      _ ← py_assert (info_shard_id s =? expected);
      _ ← py_assert (bool_decide (is_Some (d !! ((None, info_file_name s) : Path))));
      check_shards l (S expected) d
  end.

Definition validate_target_cache_manifest (m : Manifest) (d : Disk) : result unit :=
  _ ← py_assert (version m =? TARGET_CACHE_VERSION)%Z;
  _ ← py_assert (hidden_dtype m =? TARGET_CACHE_HIDDEN_DTYPE)%string;
  _ ← py_assert (token_dtype m =? TARGET_CACHE_TOKEN_DTYPE)%string;
  _ ← py_assert (mask_dtype m =? TARGET_CACHE_MASK_DTYPE)%string;
  _ ← py_assert (index_record_size m =? INDEX_RECORD_SIZE);
  _ ← py_assert (0 <? hidden_size m)%Z;
  _ ← py_assert (negb (bool_decide (target_layer_ids m = [])));
  _ ← py_assert (sorted_ids (target_layer_ids m));
  _ ← py_assert (num_shards m =? length (shards m));
  _ ← check_shards (shards m) 0 d;
  match d !! ((None, SamplesIdx) : Path) with
  | None => Raise AssertionError
  | Some index =>
      _ ← py_assert (length index mod INDEX_RECORD_SIZE =? 0);
      py_assert (length index =? num_samples m * INDEX_RECORD_SIZE)
  end.

(** ** [CacheDataset] *)

Record Dataset : Type := mkDataset {
  ds_manifest : Manifest;
  index_mmap : option bytes;
  max_open_shards : nat;
  shard_mmaps : list (nat * bytes);   (* an [OrderedDict], oldest first *)
  shard_paths : gmap nat Path;
}.

(** The layers and the hidden size of the manifest. *)
Definition ds_num_layers (ds : Dataset) : nat := length (target_layer_ids (ds_manifest ds)).
Definition ds_hidden (ds : Dataset) : nat := Z.to_nat (hidden_size (ds_manifest ds)).

Definition dataset_open (m : Manifest) (max_open_shards : nat) (d : Disk) : result Dataset :=
  _ ← validate_target_cache_manifest m d;
  Ok (mkDataset m None max_open_shards []
        (list_to_map ((λ s, (info_shard_id s, (None, info_file_name s))) <$> reverse (shards m)))).

Definition with_index (b : option bytes) (ds : Dataset) : Dataset :=
  mkDataset (ds_manifest ds) b (max_open_shards ds) (shard_mmaps ds) (shard_paths ds).
Definition with_mmaps (l : list (nat * bytes)) (ds : Dataset) : Dataset :=
  mkDataset (ds_manifest ds) (index_mmap ds) (max_open_shards ds) l (shard_paths ds).

(** [close] and [__getstate__]. *)
Definition dataset_close (ds : Dataset) : Dataset := with_index None (with_mmaps [] ds).

(** Opening and mapping a file; [mmap.mmap] of an empty file raises. *)
Definition py_mmap (p : Path) (d : Disk) : result bytes :=
  b ← read_file p d;
  _ ← py_check ValueError (negb (bool_decide (b = [])));
  Ok b.

Definition ensure_index_mmap (ds : Dataset) (d : Disk) : result (bytes * Dataset) :=
  match index_mmap ds with
  | Some b => Ok (b, ds)
  | None => b ← py_mmap (None, SamplesIdx) d; Ok (b, with_index (Some b) ds)
  end.

(** [OrderedDict]: lookup and [move_to_end]. *)
Fixpoint od_get (k : nat) (l : list (nat * bytes)) : option bytes :=
  match l with [] => None | (j, b) :: l => if j =? k then Some b else od_get k l end.
Definition move_to_end (k : nat) (b : bytes) (l : list (nat * bytes)) : list (nat * bytes) :=
  filter (λ e : nat * bytes, e.1 ≠ k) l ++ [(k, b)].

(** [while len(shard_mmaps) > max_open_shards: popitem(last=False)]. *)
Fixpoint evict_shards (fuel : nat) (max_open : nat) (l : list (nat * bytes)) : list (nat * bytes) :=
  match fuel with
  | 0 => l
  | S fuel => if max_open <? length l then match l with [] => [] | _ :: l => evict_shards fuel max_open l end else l
  end.

Definition get_shard_mmap (id : nat) (ds : Dataset) (d : Disk) : result (bytes * Dataset) :=
  match od_get id (shard_mmaps ds) with
  | Some b => Ok (b, with_mmaps (move_to_end id b (shard_mmaps ds)) ds)
  | None =>
      p ← match shard_paths ds !! id with Some p => Ok p | None => Raise KeyError end;
      b ← py_mmap p d;
      let l := evict_shards (S (length (shard_mmaps ds))) (max_open_shards ds) (shard_mmaps ds ++ [(id, b)]) in
      b ← match od_get id l with Some b => Ok b | None => Raise KeyError end;
      Ok (b, with_mmaps l ds)
  end.

Definition read_record (index : nat) (ds : Dataset) (d : Disk) : result (IndexRecord * Dataset) :=
  '(mm, ds) ← ensure_index_mmap ds d;
  r ← unpack_index_record mm (index * INDEX_RECORD_SIZE);
  _ ← py_assert (sample_id r =? Z.of_nat index)%Z;
  Ok (r, ds).

(** [_read_tensor_from_shard], [count] numbers of [w] bytes. *)
Definition read_tensor_from_shard (w count : nat) (mm : bytes) (offset : Z) (nbytes : nat) : result (list Z) :=
  _ ← py_assert (offset + Z.of_nat nbytes <=? Z.of_nat (length mm))%Z;
  frombuffer w count (Z.to_nat offset) mm.

Record Features : Type := mkFeatures {
  f_input_ids : list Z;
  f_loss_mask : list Z;
  f_target_hidden_states : list (list Z);
  f_target_last_hidden_states : list (list Z);
}.

(** Sizes of the tensors of a sample. *)
Record TensorSizes : Type := mkSizes {
  sz_input_ids : nat;
  sz_attention_mask : nat;
  sz_loss_mask : nat;
  sz_target_hidden_states : nat;
  sz_target_last_hidden_states : nat;
}.

Definition expected_target_cache_tensor_numel (seq_len hidden_size num_target_layers : nat) : TensorSizes :=
  mkSizes seq_len seq_len seq_len (seq_len * num_target_layers * hidden_size) (seq_len * hidden_size).

Definition expected_target_cache_tensor_nbytes (seq_len hidden_size num_target_layers : nat) : TensorSizes :=
  let numel := expected_target_cache_tensor_numel seq_len hidden_size num_target_layers in
  mkSizes (sz_input_ids numel * 4) (sz_attention_mask numel) (sz_loss_mask numel)
    (sz_target_hidden_states numel * 2) (sz_target_last_hidden_states numel * 2).

Definition getitem (index : nat) (ds : Dataset) (d : Disk) : result (Features * Dataset) :=
  _ ← py_check IndexError (index <? num_samples (ds_manifest ds));
  '(r, ds) ← read_record index ds d;
  _ ← py_assert (0 <? seq_len r)%Z;
  let n := Z.to_nat (seq_len r) in
  let layers := ds_num_layers ds in
  let hidden := ds_hidden ds in
  '(mm, ds) ← get_shard_mmap (Z.to_nat (shard_id r)) ds d;
  let nbytes := expected_target_cache_tensor_nbytes n hidden layers in
  ids ← read_tensor_from_shard 4 n mm (input_ids_offset r) (sz_input_ids nbytes);
  mask ← read_tensor_from_shard 1 n mm (loss_mask_offset r) (sz_loss_mask nbytes);
  states ← read_tensor_from_shard 2 (n * (layers * hidden)) mm (target_hidden_states_offset r) (sz_target_hidden_states nbytes);
  last ← read_tensor_from_shard 2 (n * hidden) mm (target_last_hidden_states_offset r) (sz_target_last_hidden_states nbytes);
  Ok (mkFeatures (to_signed 4 <$> ids) mask (view_rows (layers * hidden) n states) (view_rows hidden n last), ds).

(** ** The preparation script *)

Section prepare.
Context {F : Type} `{BFloat16 F}.

(** [AsyncTargetCacheWriter.write_sample] numbers the samples of a rank from 0. *)
Definition sample_bytes (l : list (Sample F)) : list TargetCacheSampleBytes :=
  imap (λ i s, build_target_cache_sample_bytes (Z.of_nat i) s) l.

Definition write_rank (r max_shard_bytes num_source world_size : nat) (l : list (Sample F)) (d : Disk)
  : result (LocalCacheWriteSummary * Disk) :=
  let '(start, stop) := compute_local_sample_range num_source r world_size in
  let '(w, d) := writer_init r max_shard_bytes d in
  '(w, d) ← write_samples (sample_bytes l) w d;
  let w := writer_close w in
  Ok (mkSummary r start stop (num_local_samples w) (length (local_shard_files w)) (local_shard_files w), d).

(** The ranks write into directories of their own; their order does not matter. *)
Fixpoint write_ranks (world : list (list (Sample F))) (r max_shard_bytes num_source world_size : nat) (d : Disk)
  : result (list LocalCacheWriteSummary * Disk) :=
  match world with
  | [] => Ok ([], d)
  | l :: world =>
      '(s, d) ← write_rank r max_shard_bytes num_source world_size l d;
      '(ss, d) ← write_ranks world (S r) max_shard_bytes num_source world_size d;
      Ok (s :: ss, d)
  end.

Fixpoint rename_ranks (l : list LocalCacheWriteSummary) (shard_map : ShardMap) (d : Disk) : result Disk :=
  match l with
  | [] => Ok d
  | s :: l => d ← rename_local_target_cache_shards s shard_map d; rename_ranks l shard_map d
  end.

(** The output directory must be empty. *)
Definition prepare_target_cache_output_dir (d : Disk) : result Disk :=
  _ ← py_check OSError (bool_decide (d = ∅)); Ok d.

(** [main]: [world] holds the valid samples of every rank, of [num_source] lines in all. *)
Definition prepare (max_shard_bytes num_source : nat) (target_layer_ids : list Z) (hidden_size : Z)
    (world : list (list (Sample F))) (d : Disk) : result (Manifest * Disk) :=
  d ← prepare_target_cache_output_dir d;
  '(summaries, d) ← write_ranks world 0 max_shard_bytes num_source (length world) d;
  let '(shard_map, shards) := build_global_target_cache_shard_map summaries in
  d ← rename_ranks summaries shard_map d;
  '(_, d) ← finalize_target_cache_index summaries shard_map d;
  let num_samples := sum_list (sum_num_local_samples <$> summaries) in
  Ok (build_target_cache_manifest num_samples shards target_layer_ids hidden_size, cleanup_target_cache_tmp_dir d).
End prepare.

(** Several accesses, in order. *)
Fixpoint getitems (indices : list nat) (ds : Dataset) (d : Disk) : result (list Features * Dataset) :=
  match indices with
  | [] => Ok ([], ds)
  | i :: indices =>
      '(f, ds) ← getitem i ds d;
      '(fs, ds) ← getitems indices ds d;
      Ok (f :: fs, ds)
  end.
