(* ===== verification/TargetWrite.v ===== *)
(** * TargetWrite: writing the target cache

    The invariant of [LocalTargetCacheWriter]: the local index holds one record per sample, in
    order, and the shards hold the bytes of every sample at the offsets of its record. *)

From S2P Require Import Prelude TargetCodec TargetCache.
#[local] Open Scope nat_scope.

(** ** Where bytes are *)

Definition slice_at (content : bytes) (off : Z) (b : bytes) : Prop :=
  ∃ pre post, content = pre ++ b ++ post ∧ off = Z.of_nat (length pre).

Lemma slice_at_app content off b rest : slice_at content off b → slice_at (content ++ rest) off b.
Proof. intros (pre & post & -> & ->). exists pre, (post ++ rest). by rewrite <- !app_assoc. Qed.

Definition parts (s : TargetCacheSampleBytes) : list bytes :=
  [sb_input_ids s; sb_attention_mask s; sb_loss_mask s; sb_target_hidden_states s; sb_target_last_hidden_states s].
Definition offsets (r : IndexRecord) : list Z :=
  [input_ids_offset r; attention_mask_offset r; loss_mask_offset r; target_hidden_states_offset r;
   target_last_hidden_states_offset r].
Definition sample_size (s : TargetCacheSampleBytes) : nat := length (concat (parts s)).

(** The record [r] finds the sample [s] in the files of its shard. *)
Record located (shard : Z → option bytes) (r : IndexRecord) (s : TargetCacheSampleBytes) : Prop := {
  lc_len : seq_len r = sb_seq_len s;
  lc_shard : ∃ content, shard (shard_id r) = Some content ∧ Forall2 (slice_at content) (offsets r) (parts s);
}.

Lemma located_mono (f g : Z → option bytes) r s :
  (∀ c, f (shard_id r) = Some c → ∃ rest, g (shard_id r) = Some (c ++ rest)) → located f r s → located g r s.
Proof.
  intros Hfg [H1 (c & Hc & Hs)]. split; [done|]. destruct (Hfg c Hc) as [rest Hr]. exists (c ++ rest). split; [done|].
  eapply Forall2_impl; [exact Hs|]. intros off b. apply slice_at_app.
Qed.

(** ** The writer *)

Definition local_shard (r : nat) (d : Disk) (k : Z) : option bytes := d !! ((Some r, ShardLocalBin (Z.to_nat k)) : Path).

(** Shard [n] is the next one; the last one is open. *)
Record writer_ok (w : Writer) (d : Disk) (n : nat) (R : list IndexRecord) (S : list TargetCacheSampleBytes) : Prop := {
  wo_index : index_handle w = Some (Some (rank w), SamplesLocalIdx);
  wo_records : ∃ ps, mapM pack_index_record R = Ok ps ∧ d !! ((Some (rank w), SamplesLocalIdx) : Path) = Some (concat ps);
  wo_located : Forall2 (λ r s, sample_id r = sb_sample_id s ∧ (0 ≤ shard_id r < Z.of_nat n)%Z ∧ located (local_shard (rank w) d) r s) R S;
  wo_count : num_local_samples w = length S;
  wo_files : local_shard_files w = ShardLocalBin <$> seq 0 n;
  wo_id : current_shard_id w = (Z.of_nat n - 1)%Z;
  wo_shards k : k < n → is_Some (local_shard (rank w) d (Z.of_nat k));
  wo_open : match n with
            | 0 => current_shard_handle w = None
            | S k => current_shard_handle w = Some (Some (rank w), ShardLocalBin k) ∧
                     ∃ c, local_shard (rank w) d (Z.of_nat k) = Some c ∧ current_shard_size w = length c
            end;
}.

Definition elsewhere (r : nat) (d d' : Disk) : Prop := ∀ p : Path, p.1 ≠ Some r → d' !! p = d !! p.

Lemma elsewhere_refl r d : elsewhere r d d.
Proof. done. Qed.
Lemma elsewhere_trans r d1 d2 d3 : elsewhere r d1 d2 → elsewhere r d2 d3 → elsewhere r d1 d3.
Proof. intros H1 H2 p Hp. by rewrite H2, H1. Qed.

Lemma append_Some p b d c : d !! p = Some c → append p b d !! p = Some (c ++ b).
Proof. intros Hp. unfold append. by rewrite Hp, lookup_insert_eq. Qed.
Lemma append_ne p q b d : p ≠ q → append p b d !! q = d !! q.
Proof. intros Hp. unfold append. by rewrite lookup_insert_ne. Qed.

Lemma writer_init_ok r mb d w d' : writer_init r mb d = (w, d') → writer_ok w d' 0 [] [] ∧ rank w = r ∧ elsewhere r d d'.
Proof.
  intros [= <- <-]. split; [|split; [done|]].
  - split; try done; [|intros k; lia]. exists []. split; [done|]. apply lookup_insert_eq.
  - intros p Hp. unfold open_wb. rewrite lookup_insert_ne; [done|]. intros <-. done.
Qed.

(** Opening a shard keeps everything. *)
Lemma open_new_shard_ok w d n R S0 w' d' :
  writer_ok w d n R S0 → open_new_shard w d = (w', d') →
  writer_ok w' d' (S n) R S0 ∧ rank w' = rank w ∧ elsewhere (rank w) d d' ∧ current_shard_size w' = 0 ∧
  max_shard_bytes w' = max_shard_bytes w.
Proof.
  intros [W1 W2 W3 W4 W5 W6 W7 W8] [= <- <-]. rewrite W6. replace (Z.of_nat n - 1 + 1)%Z with (Z.of_nat n) by lia. rewrite Nat2Z.id.
  assert (Hother : ∀ k, (0 ≤ k < Z.of_nat n)%Z →
    local_shard (rank w) (open_wb (Some (rank w), ShardLocalBin n) d) k = local_shard (rank w) d k).
  { intros k Hk. unfold local_shard, open_wb. rewrite lookup_insert_ne; [done|]. intros [= E]. lia. }
  split; [|split_and!; try done].
  - split; cbn [index_handle rank num_local_samples local_shard_files current_shard_id current_shard_handle current_shard_size]; try done.
    + destruct W2 as (ps & Hps & Hd). exists ps. split; [done|]. unfold open_wb. by rewrite lookup_insert_ne.
    + eapply Forall2_impl; [exact W3|]. intros r s (E & Hr & L). split; [done|]. split; [lia|].
      eapply located_mono; [|exact L]. intros c Hc. exists []. rewrite app_nil_r. by rewrite Hother.
    + by rewrite W5, seq_S, fmap_app.
    + lia.
    + intros k Hk. unfold local_shard, open_wb. rewrite Nat2Z.id. destruct (decide (k = n)) as [->|].
      * rewrite lookup_insert_eq. by eexists.
      * rewrite lookup_insert_ne by congruence. specialize (W7 k). unfold local_shard in W7. rewrite Nat2Z.id in W7. apply W7. lia.
    + split; [done|]. exists []. split; [|done]. unfold local_shard, open_wb. by rewrite Nat2Z.id, lookup_insert_eq.
  - intros p Hp. unfold open_wb. rewrite lookup_insert_ne; [done|]. intros <-. done.
Qed.

Lemma ensure_shard_ok m w d n R S0 w' d' :
  writer_ok w d n R S0 → ensure_shard m w d = (w', d') →
  ∃ n', writer_ok w' d' (S n') R S0 ∧ S n' ≤ S n ∧ rank w' = rank w ∧ elsewhere (rank w) d d' ∧
    current_shard_size w' ≤ current_shard_size w.
Proof.
  intros Hw. unfold ensure_shard. pose proof (wo_open _ _ _ _ _ Hw) as Ho. destruct n as [|n].
  - rewrite Ho. intros E. destruct (open_new_shard_ok _ _ _ _ _ _ _ Hw E) as (H1 & H2 & H3 & H4 & _).
    exists 0. split_and!; try done. lia.
  - destruct Ho as [-> _]. destruct (_ && _); intros E.
    + destruct (open_new_shard_ok _ _ _ _ _ _ _ Hw E) as (H1 & H2 & H3 & H4 & _). exists (S n). split_and!; try done. lia.
    + injection E as <- <-. exists n. split_and!; try done. lia.
Qed.

(** ** One sample *)

(** Appending to the open shard. *)
Record grown (p : Path) (w : Writer) (d : Disk) (c : bytes) (w' : Writer) (d' : Disk) (c' : bytes) : Prop := {
  gw_handle : current_shard_handle w' = Some p;
  gw_file : d' !! p = Some c';
  gw_size : current_shard_size w' = length c';
  gw_same : rank w' = rank w ∧ index_handle w' = index_handle w ∧ current_shard_id w' = current_shard_id w ∧
    local_shard_files w' = local_shard_files w ∧ num_local_samples w' = num_local_samples w ∧ max_shard_bytes w' = max_shard_bytes w;
  gw_other q : q ≠ p → d' !! q = d !! q;
  gw_prefix : c `prefix_of` c';
}.

Lemma grown_refl p w d c :
  current_shard_handle w = Some p → d !! p = Some c → current_shard_size w = length c → grown p w d c w d c.
Proof. by split. Qed.

Lemma write_part_ok p w0 d0 c0 w d c b : grown p w0 d0 c0 w d c →
  ∃ w' d', write_part b w d = Ok (Z.of_nat (length c), w', d') ∧ grown p w0 d0 c0 w' d' (c ++ b).
Proof.
  intros [G1 G2 G3 G4 G5 G6]. unfold write_part. rewrite G1, G3. eexists _, _. split; [done|]. split; cbn; try done.
  - by apply append_Some.
  - by rewrite length_app.
  - intros q Hq. rewrite append_ne by done. by apply G5.
  - etrans; [exact G6|]. by eexists.
Qed.

(** The five parts and the record that describes them. *)
Lemma write_parts_ok s p w d c :
  current_shard_handle w = Some p → d !! p = Some c → current_shard_size w = length c →
  ∃ o1 w1 d1 o2 w2 d2 o3 w3 d3 o4 w4 d4 o5 w5 d5,
    write_part (sb_input_ids s) w d = Ok (o1, w1, d1) ∧ write_part (sb_attention_mask s) w1 d1 = Ok (o2, w2, d2) ∧
    write_part (sb_loss_mask s) w2 d2 = Ok (o3, w3, d3) ∧ write_part (sb_target_hidden_states s) w3 d3 = Ok (o4, w4, d4) ∧
    write_part (sb_target_last_hidden_states s) w4 d4 = Ok (o5, w5, d5) ∧
    grown p w d c w5 d5 (c ++ concat (parts s)) ∧ Forall2 (slice_at (c ++ concat (parts s))) [o1; o2; o3; o4; o5] (parts s) ∧
    Forall (λ o, 0 ≤ o ≤ Z.of_nat (length c + sample_size s))%Z [o1; o2; o3; o4; o5].
Proof.
  intros H1 H2 H3. pose proof (grown_refl p w d c H1 H2 H3) as G0.
  destruct (write_part_ok _ _ _ _ _ _ _ (sb_input_ids s) G0) as (w1 & d1 & R1 & G1).
  destruct (write_part_ok _ _ _ _ _ _ _ (sb_attention_mask s) G1) as (w2 & d2 & R2 & G2).
  destruct (write_part_ok _ _ _ _ _ _ _ (sb_loss_mask s) G2) as (w3 & d3 & R3 & G3).
  destruct (write_part_ok _ _ _ _ _ _ _ (sb_target_hidden_states s) G3) as (w4 & d4 & R4 & G4).
  destruct (write_part_ok _ _ _ _ _ _ _ (sb_target_last_hidden_states s) G4) as (w5 & d5 & R5 & G5).
  eexists _, w1, d1, _, w2, d2, _, w3, d3, _, w4, d4, _, w5, d5. split; [exact R1|]. split; [exact R2|].
  split; [exact R3|]. split; [exact R4|]. split; [exact R5|].
  assert (E : concat (parts s) = sb_input_ids s ++ sb_attention_mask s ++ sb_loss_mask s ++ sb_target_hidden_states s ++ sb_target_last_hidden_states s)
    by (unfold parts; cbn; by rewrite app_nil_r).
  split; [by rewrite E, !app_assoc|]. split.
  - rewrite E. unfold parts. repeat apply Forall2_cons_2; [..|apply Forall2_nil_2]; unfold slice_at.
    + eexists c, _. split; [reflexivity|done].
    + eexists (c ++ sb_input_ids s), _. split; [rewrite <- !app_assoc; reflexivity|done].
    + eexists ((c ++ sb_input_ids s) ++ sb_attention_mask s), _. split; [rewrite <- !app_assoc; reflexivity|done].
    + eexists (((c ++ sb_input_ids s) ++ sb_attention_mask s) ++ sb_loss_mask s), _. split; [rewrite <- !app_assoc; reflexivity|done].
    + eexists ((((c ++ sb_input_ids s) ++ sb_attention_mask s) ++ sb_loss_mask s) ++ sb_target_hidden_states s), [].
      split; [rewrite <- !app_assoc, app_nil_r; reflexivity|done].
  - unfold sample_size. rewrite E, !length_app. repeat apply Forall_cons_2; [lia..|done].
Qed.

(** What must fit the fields of a record. *)
Record sample_fits (w : Writer) (n : nat) (s : TargetCacheSampleBytes) : Prop := {
  sf_id : (0 ≤ sb_sample_id s < modulus 8)%Z;
  sf_shard : (Z.of_nat n < modulus 4)%Z;
  sf_len : (0 ≤ sb_seq_len s < modulus 4)%Z;
  sf_size : (Z.of_nat (current_shard_size w + sample_size s) < modulus 8)%Z;
}.

Lemma mapM_snoc {A B} (f : A → result B) l x k y : mapM f l = Ok k → f x = Ok y → mapM f (l ++ [x]) = Ok (k ++ [y]).
Proof.
  revert k. induction l as [|a l IH]; intros k; cbn.
  - intros [= <-] Hy. by rewrite Hy.
  - intros (b & Hb & (k' & Hk & [= <-])%result_bind_Ok)%result_bind_Ok Hy. rewrite Hb. cbn. by rewrite (IH k' Hk Hy).
Qed.

Lemma write_sample_ok w d n R S0 s :
  writer_ok w d n R S0 → sample_fits w n s →
  ∃ w' d' n' r, write_sample_bytes s w d = Ok (w', d') ∧ writer_ok w' d' n' (R ++ [r]) (S0 ++ [s]) ∧ n' ≤ S n ∧
    rank w' = rank w ∧ elsewhere (rank w) d d' ∧ current_shard_size w' ≤ current_shard_size w + sample_size s.
Proof.
  intros Hw [F1 F2 F3 F4]. unfold write_sample_bytes. set (m := _ + _ + _ + _ + _).
  destruct (ensure_shard m w d) as [w0 d0] eqn:He. destruct (ensure_shard_ok _ _ _ _ _ _ _ _ Hw He) as (n' & Hw0 & Hn & Er & Hel & Hsz).
  destruct (wo_open _ _ _ _ _ Hw0) as (Hh & c & Hc & Hsc). set (p := (Some (rank w0), ShardLocalBin n') : Path) in *.
  assert (Hcp : d0 !! p = Some c) by (unfold local_shard in Hc; by rewrite Nat2Z.id in Hc).
  destruct (write_parts_ok s p w0 d0 c Hh Hcp Hsc) as (o1 & w1 & d1 & o2 & w2 & d2 & o3 & w3 & d3 & o4 & w4 & d4 & o5 & w5 & d5 &
    R1 & R2 & R3 & R4 & R5 & G & Hsl & Hoff).
  rewrite R1. cbn [mbind result_bind]. rewrite R2. cbn [mbind result_bind]. rewrite R3. cbn [mbind result_bind].
  rewrite R4. cbn [mbind result_bind]. rewrite R5. cbn [mbind result_bind].
  destruct (gw_same _ _ _ _ _ _ _ G) as (E1 & E2 & E3 & E4 & E5 & E6). rewrite E2, E3, (wo_index _ _ _ _ _ Hw0), (wo_id _ _ _ _ _ Hw0).
  set (r := mkIndexRecord _ _ _ o1 o2 o3 o4 o5).
  assert (Hid : shard_id r = Z.of_nat n') by (cbn; lia).
  assert (Hfit : record_fits r).
  { apply Forall_cons in Hoff as [B1 Hoff]. apply Forall_cons in Hoff as [B2 Hoff]. apply Forall_cons in Hoff as [B3 Hoff].
    apply Forall_cons in Hoff as [B4 Hoff]. apply Forall_cons in Hoff as [B5 _].
    unfold record_fits, record_fields, r. cbn [zip_with zip INDEX_RECORD_STRUCT sample_id shard_id seq_len input_ids_offset
      attention_mask_offset loss_mask_offset target_hidden_states_offset target_last_hidden_states_offset].
    repeat apply Forall_cons_2; cbn [fst snd]; try lia. apply Forall_nil_2. }
  destruct (pack_record_fits r Hfit) as [b Hb]. rewrite Hb. cbn [mbind result_bind].
  set (ip := (Some (rank w0), SamplesLocalIdx) : Path). assert (Hip : ip ≠ p) by done.
  assert (Hgrow : current_shard_size w5 ≤ current_shard_size w + sample_size s).
  { rewrite (gw_size _ _ _ _ _ _ _ G), length_app. fold (sample_size s). lia. }
  eexists _, _, (S n'), r. split; [done|]. split; [|split_and!; [lia|cbn; congruence| |exact Hgrow]].
  - assert (Hsh : ∀ k, (0 ≤ k)%Z → ∀ e, local_shard (rank w0) d0 k = Some e → ∃ rest, local_shard (rank w0) (append ip b d5) k = Some (e ++ rest)).
    { intros k Hk e He0. unfold local_shard in *. rewrite append_ne by done. destruct (decide (Z.to_nat k = n')) as [Ek|Ek].
      - rewrite Ek in *. assert (e = c) as -> by (unfold p in Hcp; congruence). exists (concat (parts s)). apply (gw_file _ _ _ _ _ _ _ G).
      - exists []. rewrite app_nil_r, (gw_other _ _ _ _ _ _ _ G); [done|]. unfold p. congruence. }
    split; cbn [index_handle rank num_local_samples local_shard_files current_shard_id current_shard_handle current_shard_size]; rewrite ?E1.
    + done.
    + destruct (wo_records _ _ _ _ _ Hw0) as (ps & Hps & Hix). exists (ps ++ [b]). split; [by apply mapM_snoc|].
      rewrite concat_app. cbn. rewrite app_nil_r. apply append_Some. rewrite (gw_other _ _ _ _ _ _ _ G) by done. exact Hix.
    + apply Forall2_app; [|repeat constructor].
      * eapply Forall2_impl; [apply Hw0|]. intros r' s' (I1 & I2 & L). split; [done|]. split; [done|].
        eapply located_mono; [|exact L]. intros e He0. apply Hsh; [lia|done].
      * rewrite Hid. lia.
      * rewrite Hid. lia.
      * rewrite Hid. destruct (Hsh (Z.of_nat n') ltac:(lia) c Hc) as [rest Hrest]. exists (c ++ concat (parts s)). split; [|done].
        unfold local_shard. rewrite append_ne, Nat2Z.id by done. apply (gw_file _ _ _ _ _ _ _ G).
    + by rewrite E5, (wo_count _ _ _ _ _ Hw0), length_app, Nat.add_1_r.
    + by rewrite E4, (wo_files _ _ _ _ _ Hw0).
    + lia.
    + intros k Hk. destruct (wo_shards _ _ _ _ _ Hw0 k Hk) as [e He0]. destruct (Hsh (Z.of_nat k) ltac:(lia) e He0) as [rest ->]. by eexists.
    + split; [apply G|]. exists (c ++ concat (parts s)). split; [|apply G].
      unfold local_shard. rewrite append_ne, Nat2Z.id by done. apply (gw_file _ _ _ _ _ _ _ G).
  - intros q Hq. rewrite append_ne by (intros <-; apply Hq; cbn; congruence).
    rewrite (gw_other _ _ _ _ _ _ _ G) by (intros ->; apply Hq; cbn; congruence). by apply Hel.
Qed.

(** ** All samples of a rank *)

Definition payload_size (l : list TargetCacheSampleBytes) : nat := sum_list (sample_size <$> l).
Lemma payload_size_cons s l : payload_size (s :: l) = sample_size s + payload_size l.
Proof. done. Qed.

Definition meta_fits (s : TargetCacheSampleBytes) : Prop := (0 ≤ sb_sample_id s < modulus 8)%Z ∧ (0 ≤ sb_seq_len s < modulus 4)%Z.

Lemma write_samples_ok l w d n R S0 :
  writer_ok w d n R S0 → Forall meta_fits l → (Z.of_nat (n + length l) < modulus 4)%Z →
  (Z.of_nat (current_shard_size w + payload_size l) < modulus 8)%Z →
  ∃ w' d' n' R', write_samples l w d = Ok (w', d') ∧ writer_ok w' d' n' (R ++ R') (S0 ++ l) ∧ n' ≤ n + length l ∧
    rank w' = rank w ∧ elsewhere (rank w) d d'.
Proof.
  revert w d n R S0. induction l as [|s l IH]; intros w d n R S0 Hw Hm Hn Hs.
  { exists w, d, n, []. rewrite !app_nil_r. split_and!; try done. lia. }
  apply Forall_cons in Hm as [[M1 M2] Hm]. rewrite payload_size_cons in Hs. cbn [length] in Hn.
  destruct (write_sample_ok w d n R S0 s Hw) as (w1 & d1 & n1 & r & Hrun & Hw1 & Hn1 & Er & Hel & Hsz); [split; lia|].
  destruct (IH w1 d1 n1 (R ++ [r]) (S0 ++ [s]) Hw1 Hm) as (w' & d' & n' & R' & Hrun' & Hw' & Hn' & Er' & Hel');
    [lia|lia|].
  exists w', d', n', (r :: R'). cbn [write_samples]. rewrite Hrun. cbn [mbind result_bind]. split; [done|].
  rewrite <- !app_assoc in Hw'. split; [done|]. split; [cbn [length]; lia|].
  split; [congruence|]. rewrite Er in Hel'. by eapply elsewhere_trans.
Qed.

(** What a rank leaves in its directory: [n] shards, the index of [R] and the samples [S]. *)
Record rank_files (r : nat) (d : Disk) (n : nat) (R : list IndexRecord) (S : list TargetCacheSampleBytes) : Prop := {
  rf_index : ∃ ps, mapM pack_index_record R = Ok ps ∧ d !! ((Some r, SamplesLocalIdx) : Path) = Some (concat ps);
  rf_located : Forall2 (λ x s, sample_id x = sb_sample_id s ∧ (0 ≤ shard_id x < Z.of_nat n)%Z ∧ located (local_shard r d) x s) R S;
  rf_shards k : k < n → is_Some (d !! ((Some r, ShardLocalBin k) : Path));
}.

Lemma rank_files_ext r d d' n R S : (∀ p : Path, p.1 = Some r → d' !! p = d !! p) → rank_files r d n R S → rank_files r d' n R S.
Proof.
  intros Hd [(ps & Hps & Hix) H2 H3]. split.
  - exists ps. split; [done|]. by rewrite Hd.
  - eapply Forall2_impl; [exact H2|]. intros x s (E & Hx & L). split; [done|]. split; [done|].
    eapply located_mono; [|exact L]. intros c Hc. exists []. rewrite app_nil_r. unfold local_shard in *. by rewrite Hd.
  - intros k Hk. rewrite Hd by done. by apply H3.
Qed.

Section ranks.
Context {F : Type} `{BFloat16 F}.

(** What one rank may write. *)
Record rank_fits (l : list (Sample F)) : Prop := {
  rk_count : (Z.of_nat (length l) < modulus 4)%Z;
  rk_lens : Forall (λ s : Sample F, Z.of_nat (length (input_ids s)) < modulus 4)%Z l;
  rk_size : (Z.of_nat (payload_size (sample_bytes l)) < modulus 8)%Z;
}.

Lemma modulus_4_8 : (modulus 4 < modulus 8)%Z.
Proof. by vm_compute. Qed.

Lemma sample_bytes_meta l : rank_fits l → Forall meta_fits (sample_bytes l).
Proof.
  intros [H1 H2 _]. apply Forall_lookup. intros i s Hs. unfold sample_bytes in Hs. rewrite list_lookup_imap in Hs.
  destruct (l !! i) as [x|] eqn:Hx; [|done]. injection Hs as <-. apply lookup_lt_Some in Hx as Hi. pose proof modulus_4_8.
  rewrite Forall_lookup in H2. specialize (H2 i x Hx). split; cbn; lia.
Qed.

Lemma write_rank_ok r mb num_source world_size l d :
  rank_fits l →
  ∃ n R d', write_rank r mb num_source world_size l d =
      Ok (let '(a, b) := compute_local_sample_range num_source r world_size in
          mkSummary r a b (length l) n (ShardLocalBin <$> seq 0 n), d') ∧
    rank_files r d' n R (sample_bytes l) ∧ n ≤ length l ∧ elsewhere r d d'.
Proof.
  intros Hl. unfold write_rank. destruct (compute_local_sample_range _ _ _) as [a b].
  destruct (writer_init r mb d) as [w0 d0] eqn:E0. destruct (writer_init_ok r mb d w0 d0 E0) as (Hw0 & Er & Hel0).
  assert (Hz : current_shard_size w0 = 0) by (unfold writer_init in E0; injection E0 as <- _; done).
  assert (Hlen : length (sample_bytes l) = length l) by apply length_imap.
  destruct (write_samples_ok (sample_bytes l) w0 d0 0 [] [] Hw0) as (w & d' & n & R & Hrun & Hw & Hn & Er' & Hel).
  { by apply sample_bytes_meta. }
  { rewrite Hlen. apply Hl. }
  { rewrite Hz. apply Hl. }
  rewrite Hrun. cbn [mbind result_bind]. exists n, R, d'. rewrite Er in *. cbn [app] in Hw. split; [|split; [|split]].
  - cbn. rewrite (wo_count _ _ _ _ _ Hw), (wo_files _ _ _ _ _ Hw), Hlen, length_fmap, length_seq. done.
  - destruct Hw as [_ W2 W3 _ _ _ W7 _]. rewrite Er' in *. split; [done|done|]. intros k Hk. specialize (W7 k Hk).
    unfold local_shard in W7. by rewrite Nat2Z.id in W7.
  - rewrite Hlen in Hn. lia.
  - eapply elsewhere_trans; [exact Hel0|exact Hel].
Qed.
End ranks.
