(* ===== verification/TargetMerge.v ===== *)
(** * TargetMerge: merging the ranks

    Global shard numbers, the renaming of the shards and the merged index of
    [TargetCache.prepare]: the samples of all ranks, in rank order, get dense sample ids and
    stay where their records say. *)

From S2P Require Import Prelude TargetCodec TargetCache TargetWrite.
#[local] Open Scope nat_scope.

(** ** Ranges of source samples *)

Lemma range_le num world r : (compute_local_sample_range num r world).1 ≤ (compute_local_sample_range num (S r) world).1.
Proof.
  unfold compute_local_sample_range. generalize (num / world), (num mod world). intros a b. cbn [fst]. nia.
Qed.

(** ** Sorting *)

Lemma insert_by_last {A} (key : A → nat) x l : Forall (λ y, key y ≤ key x) l → insert_by key x l = l ++ [x].
Proof.
  induction 1 as [|y l Hy _ IH]; [done|]. cbn [insert_by].
  destruct (Nat.ltb_spec (key x) (key y)); [lia|]. cbn [app]. f_equal. exact IH.
Qed.

Lemma sorted_by_id {A} (key : A → nat) (l acc : list A) :
  (∀ i j x y, (acc ++ l) !! i = Some x → (acc ++ l) !! j = Some y → i ≤ j → key x ≤ key y) → sorted_by key l acc = acc ++ l.
Proof.
  revert acc. induction l as [|x l IH]; intros acc Hs; cbn; [by rewrite app_nil_r|].
  rewrite insert_by_last.
  - rewrite IH; rewrite <- app_assoc; [done|exact Hs].
  - apply Forall_lookup. intros i y Hy. apply (Hs i (length acc)).
    + rewrite lookup_app_l by (by eapply lookup_lt_Some). done.
    + by rewrite lookup_app_r, Nat.sub_diag by lia.
    + apply lookup_lt_Some in Hy. lia.
Qed.

(** ** What the ranks left *)

Definition summary_of (num world r count n : nat) : LocalCacheWriteSummary :=
  let '(a, b) := compute_local_sample_range num r world in mkSummary r a b count n (ShardLocalBin <$> seq 0 n).

(** One entry per rank: its shard count, its records and its samples. *)
Notation Info := (nat * list IndexRecord * list TargetCacheSampleBytes)%type.

Definition summaries_of (num world r0 : nat) (infos : list Info) : list LocalCacheWriteSummary :=
  imap (λ i x, summary_of num world (r0 + i) (length x.2) x.1.1) infos.

Definition ranks_left (r0 : nat) (infos : list Info) (d : Disk) : Prop :=
  ∀ i x, infos !! i = Some x → rank_files (r0 + i) d x.1.1 x.1.2 x.2.

Lemma summaries_cons num world r0 x infos :
  summaries_of num world r0 (x :: infos) = summary_of num world r0 (length x.2) x.1.1 :: summaries_of num world (S r0) infos.
Proof.
  unfold summaries_of. cbn. rewrite Nat.add_0_r. f_equal. apply imap_ext. intros i y _. cbn. by rewrite Nat.add_succ_r.
Qed.

Lemma summaries_lookup num world r0 infos i s :
  summaries_of num world r0 infos !! i = Some s → ∃ x, infos !! i = Some x ∧ s = summary_of num world (r0 + i) (length x.2) x.1.1.
Proof.
  unfold summaries_of. rewrite list_lookup_imap. destruct (infos !! i) as [x|]; [|done]. intros [= <-]. by exists x.
Qed.

(** The summaries are already in source order. *)
Lemma summaries_sorted num world r0 infos : in_source_order (summaries_of num world r0 infos) = summaries_of num world r0 infos.
Proof.
  apply sorted_by_id. cbn [app]. intros i j x y Hx Hy Hij.
  apply summaries_lookup in Hx as (a & _ & ->), Hy as (b & _ & ->). unfold summary_of.
  assert (Hle : ∀ k, (compute_local_sample_range num (r0 + i) world).1 ≤ (compute_local_sample_range num (r0 + i + k) world).1).
  { induction k as [|k IH]; [by rewrite Nat.add_0_r|]. rewrite Nat.add_succ_r. etrans; [exact IH|apply range_le]. }
  specialize (Hle (j - i)). replace (r0 + i + (j - i)) with (r0 + j) in Hle by lia.
  destruct (compute_local_sample_range num (r0 + i) world), (compute_local_sample_range num (r0 + j) world). done.
Qed.

(** ** Writing on all ranks *)

Section write.
Context {F : Type} `{BFloat16 F}.

Lemma write_ranks_ok (world : list (list (Sample F))) r0 mb num ws d :
  Forall rank_fits world → (∀ p : Path, p.1 = None → d !! p = None) →
  ∃ infos d', write_ranks world r0 mb num ws d = Ok (summaries_of num ws r0 infos, d') ∧ ranks_left r0 infos d' ∧
    infos.*2 = sample_bytes <$> world ∧ Forall (λ x : Info, x.1.1 ≤ length x.2) infos ∧
    (∀ p : Path, p.1 = None → d' !! p = None) ∧ (∀ r, r < r0 → ∀ p : Path, p.1 = Some r → d' !! p = d !! p).
Proof.
  revert r0 d. induction world as [|l world IH]; intros r0 d Hw Hd.
  { by exists [], d. }
  apply Forall_cons in Hw as [Hl Hw]. destruct (write_rank_ok r0 mb num ws l d Hl) as (n & R & d1 & Hrun & Hf & Hn & Hel).
  destruct (IH (S r0) d1 Hw) as (infos & d' & Hrun' & Hleft & Es & Hns & Hnone & Hlow).
  { intros p Hp. rewrite Hel by (rewrite Hp; done). by apply Hd. }
  assert (Hlen : length (sample_bytes l) = length l) by apply length_imap.
  exists ((n, R, sample_bytes l) :: infos), d'. cbn [write_ranks]. rewrite Hrun. cbn [mbind result_bind]. rewrite Hrun'. cbn [mbind result_bind].
  rewrite summaries_cons. cbn [fst snd]. split; [unfold summary_of; rewrite Hlen; done|]. split; [|split; [|split; [|split]]].
  - intros [|i] x; cbn.
    + intros [= <-]. rewrite Nat.add_0_r. cbn. eapply rank_files_ext; [|exact Hf]. intros p Hp. apply (Hlow r0); [lia|done].
    + intros Hx. rewrite Nat.add_succ_r. by apply (Hleft i).
  - cbn. by rewrite Es.
  - constructor; [cbn; lia|done].
  - done.
  - intros r Hr p Hp. rewrite (Hlow r) by (lia || done). apply Hel. rewrite Hp. intros [= ->]. lia.
Qed.
End write.

(** ** Numbering the shards *)

Definition base (infos : list Info) (i : nat) : nat := sum_list ((λ x : Info, x.1.1) <$> take i infos).

Lemma base_cons x infos i : base (x :: infos) (S i) = x.1.1 + base infos i.
Proof. done. Qed.

Lemma summary_fields num ws r c n :
  global_rank (summary_of num ws r c n) = r ∧ sum_local_shard_files (summary_of num ws r c n) = ShardLocalBin <$> seq 0 n ∧
  sum_num_local_samples (summary_of num ws r c n) = c.
Proof. unfold summary_of. by destruct (compute_local_sample_range num r ws). Qed.

Lemma number_shards_ok num ws infos r0 next m sh :
  (number_shards (summaries_of num ws r0 infos) next m sh).2 =
    sh ++ ((λ k, mkShard k (ShardBin k)) <$> seq next (base infos (length infos))) ∧
  (∀ i x, infos !! i = Some x →
     (number_shards (summaries_of num ws r0 infos) next m sh).1 !! (r0 + i) = Some (seq (next + base infos i) x.1.1)) ∧
  (∀ r, r < r0 → (number_shards (summaries_of num ws r0 infos) next m sh).1 !! r = m !! r).
Proof.
  revert r0 next m sh. induction infos as [|x infos IH]; intros r0 next m sh.
  { cbn. rewrite app_nil_r. done. }
  rewrite summaries_cons. cbn [number_shards]. destruct (summary_fields num ws r0 (length x.2) x.1.1) as (-> & -> & _).
  rewrite length_fmap, length_seq. set (m' := <[r0 := _]> m). set (sh' := sh ++ _).
  destruct (IH (S r0) (next + x.1.1) m' sh') as (H1 & H2 & H3). rewrite H1. split; [|split].
  - unfold sh'. rewrite <- app_assoc. f_equal. rewrite <- fmap_app. f_equal. cbn [length]. rewrite base_cons. by rewrite seq_app.
  - intros [|i] y; cbn [lookup list_lookup].
    + intros [= <-]. rewrite Nat.add_0_r. rewrite H3 by lia. unfold m'. rewrite lookup_insert_eq. unfold base. cbn. by rewrite Nat.add_0_r.
    + intros Hy. rewrite Nat.add_succ_r. change (S (r0 + i)) with (S r0 + i). rewrite (H2 i y Hy), base_cons. f_equal. f_equal. lia.
  - intros r Hr. rewrite H3 by lia. unfold m'. by rewrite lookup_insert_ne by lia.
Qed.

(** ** Renaming *)

Lemma rename_shards_ok r m j b n d :
  j + m = n → (∀ k, j ≤ k < n → is_Some (d !! ((Some r, ShardLocalBin k) : Path))) →
  ∃ d', rename_shards r (ShardLocalBin <$> seq j m) j (seq b n) d = Ok d' ∧
    (∀ k, j ≤ k < n → d' !! ((None, ShardBin (b + k)) : Path) = d !! ((Some r, ShardLocalBin k) : Path)) ∧
    (∀ p : Path, (∀ k, j ≤ k < n → p ≠ (None, ShardBin (b + k)) ∧ p ≠ (Some r, ShardLocalBin k)) → d' !! p = d !! p).
Proof.
  revert j d. induction m as [|m IH]; intros j d Hn Hd.
  { exists d. split; [done|]. split; [intros k Hk; lia|done]. }
  cbn [seq fmap list_fmap rename_shards]. unfold py_get. rewrite lookup_seq_lt by lia. cbn [mbind result_bind].
  destruct (Hd j) as [c Hc]; [lia|]. unfold os_replace, read_file. rewrite Hc. cbn [mbind result_bind].
  set (d1 := <[((None, ShardBin (b + j)) : Path) := c]> (delete ((Some r, ShardLocalBin j) : Path) d)).
  destruct (IH (S j) d1) as (d' & Hrun & Hnew & Hold); [lia| |].
  { intros k Hk. unfold d1. rewrite lookup_insert_ne, lookup_delete_ne by (intros [=]; lia). apply Hd. lia. }
  exists d'. split; [exact Hrun|]. split.
  - intros k Hk. destruct (decide (k = j)) as [->|Hkj].
    + rewrite Hold; [unfold d1; by rewrite lookup_insert_eq|]. intros k Hk'. split; [|done]. intros [=]. lia.
    + rewrite Hnew by lia. unfold d1. by rewrite lookup_insert_ne, lookup_delete_ne by (intros [=]; lia).
  - intros p Hp. rewrite Hold by (intros k Hk; apply Hp; lia). unfold d1. destruct (Hp j ltac:(lia)) as [H1 H2].
    by rewrite lookup_insert_ne, lookup_delete_ne by done.
Qed.

(** All ranks: the shards of rank [i] get the numbers from [b0 + base infos i] on. *)
Record renamed (r0 b0 : nat) (infos : list Info) (d d' : Disk) : Prop := {
  rn_new i x k : infos !! i = Some x → k < x.1.1 →
    d' !! ((None, ShardBin (b0 + base infos i + k)) : Path) = d !! ((Some (r0 + i), ShardLocalBin k) : Path);
  rn_index r : d' !! ((Some r, SamplesLocalIdx) : Path) = d !! ((Some r, SamplesLocalIdx) : Path);
  rn_low j : j < b0 → d' !! ((None, ShardBin j) : Path) = d !! ((None, ShardBin j) : Path);
  rn_rest p : (∀ j, p ≠ (None, ShardBin j)) → (∀ r k, p ≠ (Some r, ShardLocalBin k)) → d' !! p = d !! p;
}.

Lemma rename_ranks_ok num ws infos r0 b0 m d :
  (∀ i x, infos !! i = Some x → m !! (r0 + i) = Some (seq (b0 + base infos i) x.1.1)) →
  (∀ i x k, infos !! i = Some x → k < x.1.1 → is_Some (d !! ((Some (r0 + i), ShardLocalBin k) : Path))) →
  ∃ d', rename_ranks (summaries_of num ws r0 infos) m d = Ok d' ∧ renamed r0 b0 infos d d'.
Proof.
  revert r0 b0 d. induction infos as [|x infos IH]; intros r0 b0 d Hm Hd.
  { exists d. split; [done|]. by split. }
  rewrite summaries_cons. cbn [rename_ranks]. unfold rename_local_target_cache_shards.
  destruct (summary_fields num ws r0 (length x.2) x.1.1) as (-> & -> & _). unfold map_get.
  pose proof (Hm 0 x eq_refl) as E. rewrite Nat.add_0_r in E. change (base (x :: infos) 0) with 0 in E. rewrite Nat.add_0_r in E.
  rewrite E. cbn [mbind result_bind].
  destruct (rename_shards_ok r0 x.1.1 0 b0 x.1.1 d eq_refl) as (d1 & Hrun & Hnew & Hold).
  { intros k Hk. specialize (Hd 0 x k eq_refl). rewrite Nat.add_0_r in Hd. apply Hd. lia. }
  rewrite Hrun. cbn [mbind result_bind].
  assert (Hkeep : ∀ r k, r ≠ r0 → d1 !! ((Some r, ShardLocalBin k) : Path) = d !! ((Some r, ShardLocalBin k) : Path)).
  { intros r k Hr. apply Hold. intros j _. split; [done|]. intros [= ?]. done. }
  destruct (IH (S r0) (b0 + x.1.1) d1) as (d' & Hrun' & [R1 R2 R3 R4]).
  - intros i y Hy. specialize (Hm (S i) y Hy). rewrite Nat.add_succ_r, base_cons in Hm. by rewrite <- Nat.add_assoc.
  - intros i y k Hy Hk. rewrite Hkeep by lia. specialize (Hd (S i) y k Hy Hk). by rewrite Nat.add_succ_r in Hd.
  - exists d'. split; [done|]. split.
    + intros [|i] y k Hy Hk; cbn in Hy.
      * injection Hy as <-. change (base (x :: infos) 0) with 0. rewrite !Nat.add_0_r, R3 by lia. apply Hnew. lia.
      * rewrite base_cons, Nat.add_succ_r, Nat.add_assoc, (R1 i y k Hy Hk). apply Hkeep. lia.
    + intros r. rewrite R2. by apply Hold.
    + intros j Hj. rewrite R3 by lia. apply Hold. intros k Hk. split; [|done]. intros [=]. lia.
    + intros p H1 H2. rewrite R4 by done. apply Hold. intros k _. split; [apply H1|apply H2].
Qed.

(** ** The merged index *)

Definition relabel_record (id b : nat) (r : IndexRecord) : IndexRecord :=
  mkIndexRecord (Z.of_nat id) (Z.of_nat (b + Z.to_nat (shard_id r))) (seq_len r) (input_ids_offset r)
    (attention_mask_offset r) (loss_mask_offset r) (target_hidden_states_offset r) (target_last_hidden_states_offset r).
Definition relabel (next b : nat) (R : list IndexRecord) : list IndexRecord := imap (λ i r, relabel_record (next + i) b r) R.

Lemma relabel_cons next b r R : relabel next b (r :: R) = relabel_record next b r :: relabel (S next) b R.
Proof.
  unfold relabel. cbn. rewrite Nat.add_0_r. f_equal. apply imap_ext. intros i y _. cbn. by rewrite Nat.add_succ_r.
Qed.

Lemma relabel_fits r id b : record_fits r → (Z.of_nat id < modulus 8)%Z → (Z.of_nat (b + Z.to_nat (shard_id r)) < modulus 4)%Z →
  record_fits (relabel_record id b r).
Proof.
  unfold record_fits, record_fields. cbn [zip_with zip INDEX_RECORD_STRUCT relabel_record sample_id shard_id seq_len
    input_ids_offset attention_mask_offset loss_mask_offset target_hidden_states_offset target_last_hidden_states_offset].
  intros [_ [_ Hr]%Forall_cons]%Forall_cons H1 H2. apply Forall_cons_2; [cbn; lia|]. apply Forall_cons_2; [cbn; lia|done].
Qed.

Lemma pack_fits r b : pack_index_record r = Ok b → record_fits r.
Proof. by intros [? _]%pack_Ok. Qed.

Lemma renumber_ok n b next local_id R ps pre :
  mapM pack_index_record R = Ok ps →
  (∀ i r, R !! i = Some r → sample_id r = Z.of_nat (local_id + i) ∧ (0 ≤ shard_id r < Z.of_nat n)%Z) →
  (Z.of_nat (next + length R) < modulus 8)%Z → (Z.of_nat (b + n) < modulus 4)%Z →
  ∃ qs, renumber (length R) (pre ++ concat ps) (length pre) (seq b n) local_id next = Ok (concat qs, next + length R) ∧
    mapM pack_index_record (relabel next b R) = Ok qs.
Proof.
  revert ps pre next local_id. induction R as [|r R IH]; intros ps pre next local_id Hps Hr Hn Hb.
  { exists []. by rewrite Nat.add_0_r. }
  cbn in Hps. apply result_bind_Ok in Hps as (p & Hp & (ps' & Hps & [= <-])%result_bind_Ok).
  cbn [length renumber concat]. rewrite (unpack_pack_record r p pre (concat ps') Hp). cbn [mbind result_bind].
  destruct (Hr 0 r eq_refl) as [E Hid]. rewrite Nat.add_0_r in E. unfold py_assert. rewrite E, Z.eqb_refl. cbn [py_check mbind result_bind].
  unfold py_get. rewrite lookup_seq_lt by lia. cbn [mbind result_bind].
  cbn [length] in Hn. destruct (pack_record_fits (relabel_record next b r)) as [q Hq].
  { apply relabel_fits; [by eapply pack_fits|lia|lia]. }
  unfold relabel_record in Hq. rewrite Hq. cbn [mbind result_bind].
  destruct (IH ps' (pre ++ p) (S next) (S local_id) Hps) as (qs & Hrun & Hqs); [|lia|done|].
  { intros i r' Hr'. destruct (Hr (S i) r' Hr') as [E' ?]. split; [|done]. rewrite E'. f_equal. lia. }
  rewrite <- app_assoc, length_app, (pack_record_length r p Hp) in Hrun. rewrite Hrun. cbn [mbind result_bind].
  exists (q :: qs). cbn [concat]. split; [f_equal; f_equal; lia|]. rewrite relabel_cons. cbn [mapM]. unfold relabel_record at 1. rewrite Hq. cbn. by rewrite Hqs.
Qed.

(** The records of all ranks, renumbered. *)
Fixpoint merged (next b : nat) (infos : list Info) : list IndexRecord :=
  match infos with
  | [] => []
  | x :: infos => relabel next b x.1.2 ++ merged (next + length x.1.2) (b + x.1.1) infos
  end.

Lemma mapM_app_Ok {A B} (f : A → result B) l1 l2 k1 k2 : mapM f l1 = Ok k1 → mapM f l2 = Ok k2 → mapM f (l1 ++ l2) = Ok (k1 ++ k2).
Proof.
  revert k1. induction l1 as [|x l1 IH]; intros k1; cbn; [by intros [= <-]|].
  intros (y & Hy & (k & Hk & [= <-])%result_bind_Ok)%result_bind_Ok H2. rewrite Hy. cbn. by rewrite (IH k Hk H2).
Qed.

Lemma mapM_records_length R ps : mapM pack_index_record R = Ok ps → length (concat ps) = length R * INDEX_RECORD_SIZE ∧ length ps = length R.
Proof.
  revert ps. induction R as [|r R IH]; intros ps; cbn [mapM]; [by intros [= <-]|].
  intros (p & Hp & (ps' & Hps & [= <-])%result_bind_Ok)%result_bind_Ok. destruct (IH ps' Hps) as [E1 E2].
  cbn [concat]. rewrite length_app, E1, (pack_record_length r p Hp). split; [cbn [length]; lia|cbn [length]; lia].
Qed.

(** The index of one rank. *)
Record rank_index (d : Disk) (r : nat) (x : Info) : Prop := {
  ri_index : ∃ ps, mapM pack_index_record x.1.2 = Ok ps ∧ d !! ((Some r, SamplesLocalIdx) : Path) = Some (concat ps);
  ri_records i y : x.1.2 !! i = Some y → sample_id y = Z.of_nat i ∧ (0 ≤ shard_id y < Z.of_nat x.1.1)%Z;
}.

Lemma finalize_loop_ok num ws infos r0 b next m d acc :
  (∀ i x, infos !! i = Some x → rank_index d (r0 + i) x ∧ m !! (r0 + i) = Some (seq (b + base infos i) x.1.1)) →
  (Z.of_nat (next + length (merged next b infos)) < modulus 8)%Z → (Z.of_nat (b + base infos (length infos)) < modulus 4)%Z →
  d !! ((None, SamplesIdxTmp) : Path) = Some acc →
  ∃ qs d', finalize_loop (summaries_of num ws r0 infos) m next d = Ok (next + length (merged next b infos), d') ∧
    mapM pack_index_record (merged next b infos) = Ok qs ∧ d' !! ((None, SamplesIdxTmp) : Path) = Some (acc ++ concat qs) ∧
    ∀ p : Path, p ≠ (None, SamplesIdxTmp) → d' !! p = d !! p.
Proof.
  revert r0 b next d acc. induction infos as [|x infos IH]; intros r0 b next d acc Hi Hn Hb Hacc.
  { exists [], d. cbn. rewrite Nat.add_0_r, app_nil_r. done. }
  destruct (Hi 0 x eq_refl) as [[(ps & Hps & Hix) Hrec] Hm]. rewrite Nat.add_0_r in Hm, Hix. change (base (x :: infos) 0) with 0 in Hm.
  rewrite Nat.add_0_r in Hm. destruct (mapM_records_length _ _ Hps) as [Hlen _]. cbn [merged length] in Hn, Hb. rewrite base_cons in Hb.
  assert (Hrl : length (relabel next b x.1.2) = length x.1.2) by apply length_imap. rewrite length_app, Hrl in Hn.
  destruct (renumber_ok x.1.1 b next 0 x.1.2 ps [] Hps Hrec) as (qs & Hrun & Hqs); [lia|lia|].
  rewrite summaries_cons. cbn [finalize_loop]. destruct (summary_fields num ws r0 (length x.2) x.1.1) as (-> & _ & _).
  unfold read_file. rewrite Hix. cbn [mbind result_bind]. unfold py_assert at 1.
  rewrite Hlen, Nat.Div0.mod_mul, Nat.eqb_refl. cbn [py_check mbind result_bind].
  assert (Hone : (if length x.1.2 * INDEX_RECORD_SIZE =? 0 then Ok ([], next)
      else local_map ← map_get m r0; renumber (length x.1.2 * INDEX_RECORD_SIZE / INDEX_RECORD_SIZE) (concat ps) 0 local_map 0 next) =
      Ok (concat qs, next + length x.1.2)).
  { unfold map_get. rewrite Hm. cbn [mbind result_bind]. rewrite Nat.div_mul by done. cbn [app length] in Hrun. rewrite Hrun.
    destruct (Nat.eqb_spec (length x.1.2 * INDEX_RECORD_SIZE) 0) as [E|]; [|done].
    assert (x.1.2 = []) as E' by (apply length_zero_iff_nil; unfold INDEX_RECORD_SIZE in E; cbn in E; lia).
    rewrite E' in *. cbn in Hqs. injection Hqs as <-. cbn. by rewrite Nat.add_0_r. }
  rewrite Hone. cbn [mbind result_bind].
  destruct (IH (S r0) (b + x.1.1) (next + length x.1.2) (append (None, SamplesIdxTmp) (concat qs) d) (acc ++ concat qs))
    as (qs' & d' & Hrun' & Hqs' & Htmp & Hrest).
  - intros i y Hy. destruct (Hi (S i) y Hy) as [[(ps' & Hps' & Hix') Hrec'] Hm']. rewrite Nat.add_succ_r, base_cons in *. split.
    + split; [|done]. exists ps'. split; [done|]. by rewrite append_ne.
    + by rewrite <- Nat.add_assoc.
  - lia.
  - lia.
  - by apply append_Some.
  - cbn [merged]. exists (qs ++ qs'), d'. rewrite Hrun', length_app, Hrl. split; [f_equal; f_equal; lia|].
    split; [by apply mapM_app_Ok|]. split; [by rewrite concat_app, app_assoc|]. intros p Hp. rewrite Hrest by done. by apply append_ne.
Qed.
