(* ===== verification/TargetDataset.v ===== *)
(** * TargetDataset: reading samples back

    What [prepare] leaves on the disk, and [CacheDataset] over it: every sample of every rank is read
    back exactly, in any order of accesses, with at most [max_open_shards] shards open. *)

From S2P Require Import Prelude TargetCodec TargetCache TargetWrite TargetMerge.
#[local] Open Scope nat_scope.

(** ** The prepared files *)

Definition global_shard (d : Disk) (k : Z) : option bytes := d !! ((None, ShardBin (Z.to_nat k)) : Path).

Record cache_files (d : Disk) (total : nat) (G : list IndexRecord) (S : list TargetCacheSampleBytes) : Prop := {
  cf_index : ∃ qs, mapM pack_index_record G = Ok qs ∧ d !! ((None, SamplesIdx) : Path) = Some (concat qs);
  cf_ids i g : G !! i = Some g → sample_id g = Z.of_nat i;
  cf_located : Forall2 (λ g s, (0 ≤ shard_id g < Z.of_nat total)%Z ∧ located (global_shard d) g s) G S;
  cf_shards k : k < total → is_Some (d !! ((None, ShardBin k) : Path));
}.

Lemma merged_ids next b infos i g : merged next b infos !! i = Some g → sample_id g = Z.of_nat (next + i).
Proof.
  revert next b i. induction infos as [|x infos IH]; intros next b i; cbn; [done|]. intros Hg.
  assert (Hl : length (relabel next b x.1.2) = length x.1.2) by apply length_imap.
  apply lookup_app_Some in Hg as [Hg|[Hi Hg]].
  - unfold relabel in Hg. rewrite list_lookup_imap in Hg. destruct (x.1.2 !! i); [|done]. by injection Hg as <-.
  - apply IH in Hg. rewrite Hg. f_equal. lia.
Qed.

Lemma base_S infos i x : infos !! i = Some x → base infos (S i) = base infos i + x.1.1.
Proof. intros Hx. unfold base. rewrite (take_S_r _ _ x Hx), fmap_app, sum_list_with_app. cbn. lia. Qed.

Lemma base_mono infos i j : i ≤ j → base infos i ≤ base infos j.
Proof.
  intros Hij. unfold base. rewrite <- (take_drop i (take j infos)), take_take, Nat.min_l, fmap_app, sum_list_with_app by lia. lia.
Qed.

(** One rank's records, relabelled, find their samples in the renamed shards. *)
Lemma relabel_located r0 b0 infos d d' i x next :
  ranks_left r0 infos d → renamed r0 b0 infos d d' → infos !! i = Some x →
  Forall2 (λ g s, (0 ≤ shard_id g < Z.of_nat (b0 + base infos (length infos)))%Z ∧ located (global_shard d') g s)
    (relabel next (b0 + base infos i) x.1.2) x.2.
Proof.
  intros Hl Hr Hx. destruct (Hl _ _ Hx) as [_ Hloc _]. pose proof (base_S infos i x Hx) as Hb.
  assert (Hi : i < length infos) by by eapply lookup_lt_Some. pose proof (base_mono infos (S i) (length infos) ltac:(lia)) as Hm.
  unfold relabel. apply Forall2_lookup. intros j. rewrite list_lookup_imap. apply Forall2_lookup with (i := j) in Hloc.
  inversion Hloc as [r s (_ & Hid & L1 & c & Hc & Hsl) Ej1 Ej2|Ej1 Ej2]; cbn; constructor.
  split; cbn [shard_id relabel_record]; [lia|]. split; [exact L1|]. exists c. split; [|exact Hsl].
  cbn [shard_id relabel_record]. unfold global_shard, local_shard in *. rewrite Nat2Z.id, (rn_new _ _ _ _ _ Hr i x) by (done || lia). exact Hc.
Qed.

Lemma merged_located r0 b0 infos d d' next :
  ranks_left r0 infos d → renamed r0 b0 infos d d' →
  Forall2 (λ g s, (0 ≤ shard_id g < Z.of_nat (b0 + base infos (length infos)))%Z ∧ located (global_shard d') g s)
    (merged next b0 infos) (concat infos.*2).
Proof.
  intros Hl Hr. assert (Hgen : ∀ rest pre, infos = pre ++ rest → ∀ nx,
    Forall2 (λ g s, (0 ≤ shard_id g < Z.of_nat (b0 + base infos (length infos)))%Z ∧ located (global_shard d') g s)
      (merged nx (b0 + base infos (length pre)) rest) (concat rest.*2)).
  { induction rest as [|x rest IH]; intros pre E nx; cbn [merged fmap list_fmap concat]; [by apply Forall2_nil|].
    assert (Hx : infos !! length pre = Some x) by (rewrite E, lookup_app_r, Nat.sub_diag by lia; done).
    pose proof (base_S infos (length pre) x Hx) as Hb. apply Forall2_app.
    - by apply (relabel_located r0 b0 infos d d').
    - assert (Hn : b0 + base infos (length pre) + x.1.1 = b0 + base infos (length (pre ++ [x]))) by (rewrite length_app, Nat.add_1_r, Hb; lia).
      rewrite Hn. apply IH. by rewrite <- app_assoc. }
  specialize (Hgen infos [] eq_refl next). change (base infos (length (@nil Info))) with 0 in Hgen. by rewrite Nat.add_0_r in Hgen.
Qed.

Section read.
Context {F : Type} `{BFloat16 F}.

Lemma base_le (infos : list Info) : Forall (λ x : Info, x.1.1 ≤ length x.2) infos → base infos (length infos) ≤ length (concat infos.*2).
Proof.
  unfold base. rewrite firstn_all. induction 1 as [|x infos Hx _ IH]; [done|]. cbn in *. rewrite length_app. lia.
Qed.

Lemma concat_sample_bytes_length (world : list (list (Sample F))) : length (concat (sample_bytes <$> world)) = length (concat world).
Proof. induction world as [|l world IH]; [done|]. cbn. rewrite !length_app, IH. unfold sample_bytes. by rewrite length_imap. Qed.

Lemma summaries_counts num ws r0 (infos : list Info) :
  sum_list (sum_num_local_samples <$> summaries_of num ws r0 infos) = length (concat infos.*2).
Proof.
  revert r0. induction infos as [|x infos IH]; intros r0; [done|]. rewrite summaries_cons, !fmap_cons.
  cbn [sum_list concat]. destruct (summary_fields num ws r0 (length x.2) x.1.1) as (_ & _ & ->). by rewrite IH, length_app.
Qed.

Lemma sample_bytes_lookup (l : list (Sample F)) j s :
  sample_bytes l !! j = Some s ↔ ∃ x, l !! j = Some x ∧ s = build_target_cache_sample_bytes (Z.of_nat j) x.
Proof. unfold sample_bytes. rewrite list_lookup_imap, fmap_Some. naive_solver. Qed.

(** The local indexes are where the merge reads them, numbered from 0. *)
Lemma ranks_index infos d d' i x (world : list (list (Sample F))) :
  ranks_left 0 infos d → infos !! i = Some x → infos.*2 = sample_bytes <$> world →
  d' !! ((Some i, SamplesLocalIdx) : Path) = d !! ((Some i, SamplesLocalIdx) : Path) → rank_index d' (0 + i) x.
Proof.
  intros Hleft Hx Es Hd. destruct (Hleft i x Hx) as [(ps & Hps & Hix) HL _]. split.
  - exists ps. split; [done|]. cbn [Nat.add]. by rewrite Hd.
  - intros j y Hy. destruct (Forall2_lookup_l _ _ _ _ _ HL Hy) as (s & Hs & E1 & Hid & _). split; [|done]. rewrite E1.
    assert (Hinfo : infos.*2 !! i = Some x.2) by (by rewrite list_lookup_fmap, Hx).
    rewrite Es, list_lookup_fmap, fmap_Some in Hinfo. destruct Hinfo as (l & _ & El). rewrite El in Hs.
    apply sample_bytes_lookup in Hs as (z & _ & ->). done.
Qed.

(** Every global shard is some rank's shard. *)
Lemma base_inv infos k : k < base infos (length infos) → ∃ i x j, infos !! i = Some x ∧ j < x.1.1 ∧ k = base infos i + j.
Proof.
  revert k. induction infos as [|x infos IH]; intros k Hk; [by cbn in Hk; lia|]. cbn [length] in Hk. rewrite base_cons in Hk.
  destruct (decide (k < x.1.1)).
  - exists 0, x, k. done.
  - destruct (IH (k - x.1.1)) as (i & y & j & Hy & Hj & E); [lia|]. exists (S i), y, j. rewrite base_cons. split_and!; [done|done|lia].
Qed.

Lemma prepare_ok mb num ids hs (world : list (list (Sample F))) :
  Forall rank_fits world → (Z.of_nat (length (concat world)) < modulus 4)%Z →
  ∃ total G d, prepare mb num ids hs world ∅ =
      Ok (build_target_cache_manifest (length (concat world)) ((λ k, mkShard k (ShardBin k)) <$> seq 0 total) ids hs, d) ∧
    cache_files d total G (concat (sample_bytes <$> world)) ∧ ∀ p : Path, is_Some (d !! p) → p.1 = None.
Proof.
  intros Hw Hcount. unfold prepare, prepare_target_cache_output_dir. rewrite bool_decide_true by done. cbn [py_check mbind result_bind].
  destruct (write_ranks_ok world 0 mb num (length world) ∅ Hw) as (infos & d1 & Hrun & Hleft & Es & Hns & Hnone & _).
  { intros p _. apply lookup_empty. }
  rewrite Hrun. cbn [mbind result_bind]. unfold build_global_target_cache_shard_map. rewrite summaries_sorted.
  destruct (number_shards_ok num (length world) infos 0 0 ∅ []) as (Hsh & Hmap & _).
  destruct (number_shards (summaries_of num (length world) 0 infos) 0 ∅ []) as [m sh]. cbn [fst snd app] in Hsh, Hmap. rewrite Hsh.
  pose proof (base_le infos Hns) as Hble. rewrite Es, concat_sample_bytes_length in Hble. pose proof modulus_4_8.
  destruct (rename_ranks_ok num (length world) infos 0 0 m d1 Hmap) as (d2 & Hrun2 & Hren).
  { intros i x k Hx Hk. by apply (rf_shards _ _ _ _ _ (Hleft i x Hx)). }
  rewrite Hrun2. cbn [mbind result_bind]. unfold finalize_target_cache_index. rewrite summaries_sorted.
  pose proof (merged_located 0 0 infos d1 d2 0 Hleft Hren) as Hloc. pose proof (Forall2_length _ _ _ Hloc) as Hgl.
  rewrite Es, concat_sample_bytes_length in Hgl.
  destruct (finalize_loop_ok num (length world) infos 0 0 0 m (open_wb (None, SamplesIdxTmp) d2) []) as (qs & d3 & Hrun3 & Hqs & Htmp & Hrest);
    [|cbn; lia|cbn; lia|apply lookup_insert_eq|].
  { intros i x Hx. split; [|by apply Hmap]. eapply ranks_index; [exact Hleft|exact Hx|exact Es|]. unfold open_wb.
    rewrite lookup_insert_ne by done. exact (rn_index _ _ _ _ _ Hren i). }
  rewrite Hrun3. cbn [mbind result_bind]. unfold os_replace, read_file. rewrite Htmp. cbn [mbind result_bind].
  rewrite summaries_counts, Es, concat_sample_bytes_length.
  assert (Hkeep : ∀ k, cleanup_target_cache_tmp_dir (<[((None, SamplesIdx) : Path) := concat qs]> (delete ((None, SamplesIdxTmp) : Path) d3)) !!
    ((None, ShardBin k) : Path) = d2 !! ((None, ShardBin k) : Path)).
  { intros k. unfold cleanup_target_cache_tmp_dir. transitivity ((<[((None, SamplesIdx) : Path) := concat qs]> (delete ((None, SamplesIdxTmp) : Path) d3)) !! ((None, ShardBin k) : Path)).
    - rewrite map_lookup_filter. set (o := _ !! _). destruct o; [|done]. cbn. by rewrite option_guard_True.
    - rewrite lookup_insert_ne, lookup_delete_ne by done. rewrite Hrest by done. unfold open_wb. by rewrite lookup_insert_ne. }
  eexists (base infos (length infos)), (merged 0 0 infos), _. split; [reflexivity|]. split.
  - split.
    + exists qs. split; [done|]. unfold cleanup_target_cache_tmp_dir. apply map_lookup_filter_Some. split; [|done]. by rewrite lookup_insert_eq.
    + intros i g Hg. by apply merged_ids in Hg.
    + rewrite Es in Hloc. eapply Forall2_impl; [exact Hloc|]. intros g s [Hg L]. split; [exact Hg|].
      eapply located_mono; [|exact L]. intros c Hc. exists []. rewrite app_nil_r. unfold global_shard in *. by rewrite Hkeep.
    + intros k Hk. rewrite Hkeep. apply base_inv in Hk as (i & x & j & Hx & Hj & ->).
      change (base infos i + j) with (0 + base infos i + j).
      rewrite (rn_new _ _ _ _ _ Hren i x j Hx Hj). by apply (rf_shards _ _ _ _ _ (Hleft i x Hx)).
  - intros p [c Hc]. unfold cleanup_target_cache_tmp_dir in Hc. by apply map_lookup_filter_Some in Hc as [_ ?].
Qed.
End read.

(** ** The index *)

Lemma unpack_nth G qs i g pre :
  mapM pack_index_record G = Ok qs → G !! i = Some g →
  unpack_index_record (pre ++ concat qs) (length pre + i * INDEX_RECORD_SIZE) = Ok g.
Proof.
  revert qs i pre. induction G as [|g0 G IH]; intros qs i pre Hqs Hi; [done|].
  cbn [mapM] in Hqs. apply result_bind_Ok in Hqs as (q & Hq & (qs' & Hqs & [= <-])%result_bind_Ok). cbn [concat].
  destruct i as [|i]; cbn in Hi.
  - injection Hi as <-. rewrite Nat.add_0_r. by apply unpack_pack_record.
  - specialize (IH qs' i (pre ++ q) Hqs Hi). rewrite <- app_assoc, length_app, (pack_record_length _ _ Hq) in IH.
    rewrite <- IH. f_equal. lia.
Qed.

(** ** Tensors *)

Lemma read_tensor_ok w t content off :
  slice_at content off (tensor_to_bytes w t) →
  read_tensor_from_shard w (length t) content off (length t * w) = Ok ((λ z, z mod modulus w)%Z <$> t).
Proof.
  intros (pre & post & -> & ->). unfold read_tensor_from_shard, py_assert. rewrite py_check_true.
  - cbn [mbind result_bind]. by rewrite Nat2Z.id, frombuffer_tensor.
  - apply Z.leb_le. rewrite !length_app, tensor_to_bytes_length. lia.
Qed.

(** ** Open shards *)

Lemma evict_drop fuel max_open l : length l ≤ fuel + max_open → evict_shards fuel max_open l = drop (length l - max_open) l.
Proof.
  revert l. induction fuel as [|fuel IH]; intros l Hl; cbn [evict_shards].
  - by replace (length l - max_open) with 0 by lia.
  - destruct (Nat.ltb_spec max_open (length l)); [|by replace (length l - max_open) with 0 by lia].
    destruct l as [|e l]; [done|]. cbn [length] in *. rewrite IH by lia. by rewrite Nat.sub_succ_l by lia.
Qed.

Lemma od_get_elem k l b : od_get k l = Some b → (k, b) ∈ l.
Proof.
  induction l as [|[j c] l IH]; cbn [od_get]; [done|]. destruct (Nat.eqb_spec j k) as [->|]; intros Hb.
  - injection Hb as ->. by left.
  - right. by apply IH.
Qed.

Lemma od_get_app k l l' : od_get k l = None → od_get k (l ++ l') = od_get k l'.
Proof. induction l as [|[j c] l IH]; cbn [od_get app]; [done|]. destruct (j =? k); [done|exact IH]. Qed.

Lemma od_get_drop k l n : od_get k l = None → od_get k (drop n l) = None.
Proof.
  revert n. induction l as [|[j c] l IH]; intros [|n] Hl; try done. cbn [drop]. apply IH. cbn [od_get] in Hl. by destruct (j =? k).
Qed.

Lemma filter_ne_length k (l : list (nat * bytes)) b : (k, b) ∈ l → length (filter (λ e : nat * bytes, e.1 ≠ k) l) < length l.
Proof.
  induction l as [|e l IH]; [by intros ?%not_elem_of_nil|]. intros [<-|Hin]%elem_of_cons.
  - rewrite filter_cons_False by (cbn; tauto). cbn [length]. pose proof (length_filter (λ e : nat * bytes, e.1 ≠ k) l). lia.
  - apply IH in Hin. rewrite filter_cons. case_decide; cbn [length]; lia.
Qed.

(** ** The dataset *)

Record ds_ok (m : Manifest) (d : Disk) (total max_open : nat) (ds : Dataset) : Prop := {
  do_manifest : ds_manifest ds = m;
  do_max : max_open_shards ds = max_open;
  do_index b : index_mmap ds = Some b → d !! ((None, SamplesIdx) : Path) = Some b;
  do_paths k : k < total → shard_paths ds !! k = Some (None, ShardBin k);
  do_mmaps : Forall (λ e : nat * bytes, d !! ((None, ShardBin e.1) : Path) = Some e.2) (shard_mmaps ds);
  do_open : length (shard_mmaps ds) ≤ max_open;
}.

Lemma ds_close_ok m d total max_open ds : ds_ok m d total max_open ds → ds_ok m d total max_open (dataset_close ds).
Proof. intros [? ? ? ? ? ?]. split; cbn; try done. lia. Qed.

Lemma get_shard_ok m d total max_open ds id c :
  ds_ok m d total max_open ds → 0 < max_open → id < total → d !! ((None, ShardBin id) : Path) = Some c → c ≠ [] →
  ∃ ds', get_shard_mmap id ds d = Ok (c, ds') ∧ ds_ok m d total max_open ds'.
Proof.
  intros [H1 H2 H3 H4 H5 H6] Hmax Hid Hc Hne. unfold get_shard_mmap. destruct (od_get id (shard_mmaps ds)) as [b|] eqn:Eo.
  - pose proof (od_get_elem _ _ _ Eo) as Hin. rewrite Forall_forall in H5. pose proof (H5 _ Hin) as Hb. cbn in Hb.
    assert (b = c) as -> by congruence. eexists. split; [done|]. split; cbn; try done.
    + apply Forall_app. split; [|by repeat constructor]. apply Forall_forall. intros e He. apply list_elem_of_filter in He as [_ He]. by apply H5.
    + unfold move_to_end. rewrite length_app. cbn. pose proof (filter_ne_length id _ _ Hin). lia.
  - rewrite (H4 id Hid). cbn [mbind result_bind]. unfold py_mmap, read_file. rewrite Hc. cbn [mbind result_bind].
    rewrite py_check_true by (by rewrite bool_decide_false). cbn [mbind result_bind]. rewrite H2.
    rewrite evict_drop by (rewrite length_app; cbn; lia). rewrite drop_app_le by (rewrite length_app; cbn; lia).
    rewrite od_get_app by (by apply od_get_drop). cbn [od_get]. rewrite Nat.eqb_refl. cbn [mbind result_bind].
    eexists. split; [done|]. split; cbn; try done.
    + apply Forall_app. split; [by apply Forall_drop|by repeat constructor].
    + rewrite length_app, length_drop, length_app. cbn. lia.
Qed.

Lemma read_record_ok m d total max_open G S0 ds i g :
  ds_ok m d total max_open ds → cache_files d total G S0 → G !! i = Some g →
  ∃ ds', read_record i ds d = Ok (g, ds') ∧ ds_ok m d total max_open ds'.
Proof.
  intros Hds [(qs & Hqs & Hix) Hids _ _] Hg. pose proof (unpack_nth G qs i g [] Hqs Hg) as Hu. cbn [app length Nat.add] in Hu.
  assert (Hopen : ∃ ds', ensure_index_mmap ds d = Ok (concat qs, ds') ∧ ds_ok m d total max_open ds').
  { unfold ensure_index_mmap. destruct (index_mmap ds) as [b|] eqn:Eb.
    - exists ds. pose proof (do_index _ _ _ _ _ Hds b Eb) as Hb. split; [|done]. f_equal. f_equal. congruence.
    - unfold py_mmap, read_file. rewrite Hix. cbn [mbind result_bind]. rewrite py_check_true.
      + cbn. eexists. split; [done|]. destruct Hds. split; try done. cbn. congruence.
      + rewrite bool_decide_false; [done|]. intros E. apply (f_equal length) in E. destruct (mapM_records_length _ _ Hqs) as [El _].
        apply lookup_lt_Some in Hg. rewrite El in E. unfold INDEX_RECORD_SIZE in E. cbn in E. lia. }
  destruct Hopen as (ds' & Ho & Hds'). exists ds'. split; [|done]. unfold read_record. rewrite Ho. cbn [mbind result_bind].
  rewrite Hu. cbn [mbind result_bind]. unfold py_assert. rewrite (Hids i g Hg), Z.eqb_refl. done.
Qed.

Section dataset.
Context {F : Type} `{BFloat16 F}.

(** ** Samples *)

(** The shapes and ranges of a sample's tensors. *)
Record well_shaped (layers hidden : nat) (s : Sample F) : Prop := {
  ws_len : 0 < length (input_ids s);
  ws_ids : Forall (λ z, - (modulus 4 / 2) ≤ z < modulus 4 / 2)%Z (input_ids s);
  ws_mask_len : length (loss_mask s) = length (input_ids s);
  ws_mask : Forall (λ z, 0 ≤ z < 256)%Z (loss_mask s);
  ws_states_len : length (target_hidden_states s) = length (input_ids s);
  ws_states : Forall (λ r, length r = layers * hidden) (target_hidden_states s);
  ws_last_len : length (target_last_hidden_states s) = length (input_ids s);
  ws_last : Forall (λ r, length r = hidden) (target_last_hidden_states s);
}.

Notation row_bits := (λ r : list F, bfloat16_bits <$> r).

(** What the training loop sees of a sample: hidden states in bfloat16. *)
Definition features_of (s : Sample F) : Features :=
  mkFeatures (input_ids s) (loss_mask s) (row_bits <$> target_hidden_states s) (row_bits <$> target_last_hidden_states s).

Lemma concat_lookup_bytes (world : list (list (Sample F))) i s :
  concat world !! i = Some s → ∃ j, concat (sample_bytes <$> world) !! i = Some (build_target_cache_sample_bytes j s).
Proof.
  revert i. induction world as [|l world IH]; intros i; cbn [concat fmap list_fmap]; [done|].
  assert (Hl : length (sample_bytes l) = length l) by apply length_imap. intros [Hi|[Hi Hs]]%lookup_app_Some.
  - exists (Z.of_nat i). rewrite lookup_app_l by (rewrite Hl; by eapply lookup_lt_Some). apply sample_bytes_lookup. by exists s.
  - destruct (IH _ Hs) as [j Hj]. exists j. rewrite lookup_app_r by lia. by rewrite Hl.
Qed.

Hypothesis bits_range : ∀ x : F, (0 ≤ bfloat16_bits x < modulus 2)%Z.

Lemma mod_small_fmap w (t : list Z) : Forall (λ z, 0 ≤ z < modulus w)%Z t → (λ z, z mod modulus w)%Z <$> t = t.
Proof. induction 1 as [|z t Hz _ IH]; [done|]. cbn. by rewrite Z.mod_small, IH. Qed.

Lemma rows_length {A} n (m : list (list A)) : Forall (λ r, length r = n) m → length (concat m) = length m * n.
Proof. induction 1 as [|r m Hr _ IH]; [done|]. cbn. rewrite length_app, IH, Hr. done. Qed.

(** A matrix of hidden states is read back row by row. *)
Lemma read_matrix_ok (m : list (list F)) n content off nbytes :
  Forall (λ r, length r = n) m → slice_at content off (tensor_to_bytes 2 (bfloat16_bits <$> concat m)) → nbytes = length m * n * 2 →
  ∃ t, read_tensor_from_shard 2 (length m * n) content off nbytes = Ok t ∧ view_rows n (length m) t = row_bits <$> m.
Proof.
  intros Hm Hs ->. pose proof (rows_length _ _ Hm) as Hl.
  assert (Hbl : length (bfloat16_bits <$> concat m) = length m * n) by (by rewrite length_fmap).
  pose proof (read_tensor_ok 2 _ _ _ Hs) as Hr. rewrite Hbl, mod_small_fmap in Hr.
  - eexists. split; [exact Hr|]. assert (E : bfloat16_bits <$> concat m = concat (row_bits <$> m)).
    { clear. induction m as [|r m IH]; [done|]. cbn. by rewrite fmap_app, IH. }
    rewrite E. rewrite <- (length_fmap row_bits m) at 1. apply view_rows_concat. apply Forall_fmap.
    eapply Forall_impl; [exact Hm|]. intros r. cbn. by rewrite length_fmap.
  - apply Forall_fmap, Forall_forall. intros x _. apply bits_range.
Qed.

Lemma getitem_ok m d total max_open G S0 ds i s j :
  ds_ok m d total max_open ds → 0 < max_open → cache_files d total G S0 → num_samples m = length G →
  S0 !! i = Some (build_target_cache_sample_bytes j s) →
  well_shaped (length (target_layer_ids m)) (Z.to_nat (hidden_size m)) s →
  ∃ ds', getitem i ds d = Ok (features_of s, ds') ∧ ds_ok m d total max_open ds'.
Proof.
  intros Hds Hmax Hcf Hn Hi Hws. destruct (Forall2_lookup_r _ _ _ _ _ (cf_located _ _ _ _ Hcf) Hi) as (g & Hg & Hid & [L1 (c & Hc & Hsl)]).
  unfold getitem. rewrite (do_manifest _ _ _ _ _ Hds), Hn. apply lookup_lt_Some in Hg as Hlt.
  rewrite py_check_true by (by apply Nat.ltb_lt). cbn [mbind result_bind].
  destruct (read_record_ok _ _ _ _ _ _ _ _ _ Hds Hcf Hg) as (ds1 & R1 & Hds1). rewrite R1. cbn [mbind result_bind].
  rewrite L1. cbn [sb_seq_len build_target_cache_sample_bytes]. pose proof (ws_len _ _ _ Hws) as Hpos. unfold py_assert.
  rewrite py_check_true by (apply Z.ltb_lt; lia). cbn [mbind result_bind].
  unfold offsets, parts in Hsl. cbn [build_target_cache_sample_bytes sb_input_ids sb_attention_mask sb_loss_mask sb_target_hidden_states
    sb_target_last_hidden_states] in Hsl.
  apply Forall2_cons in Hsl as [S1 Hsl]. apply Forall2_cons in Hsl as [_ Hsl]. apply Forall2_cons in Hsl as [S3 Hsl].
  apply Forall2_cons in Hsl as [S4 Hsl]. apply Forall2_cons in Hsl as [S5 _].
  destruct (get_shard_ok m d total max_open ds1 (Z.to_nat (shard_id g)) c Hds1 Hmax) as (ds2 & R2 & Hds2); [lia|exact Hc| |].
  { intros ->. destruct S1 as (pre & post & E & _). apply (f_equal length) in E. rewrite !length_app, tensor_to_bytes_length in E. cbn in E. lia. }
  rewrite R2. cbn [mbind result_bind]. rewrite Nat2Z.id. unfold ds_num_layers, ds_hidden.
  unfold expected_target_cache_tensor_nbytes, expected_target_cache_tensor_numel.
  cbn [sz_input_ids sz_attention_mask sz_loss_mask sz_target_hidden_states sz_target_last_hidden_states]. rewrite (do_manifest _ _ _ _ _ Hds1) in *.
  set (layers := length (target_layer_ids m)) in *. set (hidden := Z.to_nat (hidden_size m)) in *.
  rewrite (read_tensor_ok 4 _ _ _ S1). cbn [mbind result_bind].
  pose proof (read_tensor_ok 1 _ _ _ S3) as R3. rewrite (ws_mask_len _ _ _ Hws), Nat.mul_1_r in R3. rewrite R3. cbn [mbind result_bind].
  destruct (read_matrix_ok _ _ _ _ (length (input_ids s) * layers * hidden * 2) (ws_states _ _ _ Hws) S4) as (t4 & R4 & V4).
  { rewrite (ws_states_len _ _ _ Hws). lia. }
  destruct (read_matrix_ok _ _ _ _ (length (input_ids s) * hidden * 2) (ws_last _ _ _ Hws) S5) as (t5 & R5 & V5).
  { by rewrite (ws_last_len _ _ _ Hws). }
  rewrite (ws_states_len _ _ _ Hws) in R4, V4. rewrite (ws_last_len _ _ _ Hws) in R5, V5. rewrite R4. cbn [mbind result_bind]. rewrite R5.
  cbn [mbind result_bind]. exists ds2. split; [|done]. unfold features_of. rewrite V4, V5. repeat f_equal.
  - rewrite <- list_fmap_compose. rewrite <- (list_fmap_id (input_ids s)) at 2. apply list_fmap_ext. intros k z Hz. cbn.
    apply to_signed_mod; [lia|]. pose proof (ws_ids _ _ _ Hws) as Hr. rewrite Forall_lookup in Hr. by apply (Hr k).
  - apply mod_small_fmap. exact (ws_mask _ _ _ Hws).
Qed.
End dataset.
