(* ===== verification/TargetProps.v ===== *)
(** * TargetProps: the target cache end to end

    Writing on all ranks, merging and reading back compose to the identity on samples; the
    ranks' source ranges tile the source. *)

From S2P Require Import Prelude TargetCodec TargetCache TargetWrite TargetMerge TargetDataset.
#[local] Open Scope nat_scope.

(** ** Opening what was prepared *)

Lemma check_shards_ok d from total :
  (∀ k, from ≤ k < from + total → is_Some (d !! ((None, ShardBin k) : Path))) →
  check_shards ((λ k, mkShard k (ShardBin k)) <$> seq from total) from d = Ok tt.
Proof.
  revert from. induction total as [|n IH]; intros from Hd; [done|]. cbn [seq fmap list_fmap check_shards info_shard_id info_file_name].
  unfold py_assert. rewrite Nat.eqb_refl, bool_decide_true by (apply Hd; lia). cbn [py_check mbind result_bind].
  apply IH. intros k Hk. apply Hd. lia.
Qed.

Lemma shard_paths_lookup total k :
  k < total →
  (list_to_map ((λ s, (info_shard_id s, (None, info_file_name s))) <$> reverse ((λ k, mkShard k (ShardBin k)) <$> seq 0 total))
    : gmap nat Path) !! k = Some (None, ShardBin k).
Proof.
  intros Hk. rewrite <- fmap_reverse, <- list_fmap_compose. apply elem_of_list_to_map_1.
  - rewrite <- list_fmap_compose. unfold compose. cbn [fst info_shard_id]. rewrite list_fmap_id, reverse_Permutation. apply NoDup_seq.
  - apply list_elem_of_fmap. exists k. split; [done|]. rewrite elem_of_reverse. apply elem_of_seq. lia.
Qed.

Section target_cache.
Context {F : Type} `{BFloat16 F}.

Lemma dataset_open_ok d G S0 total ids hs max_open :
  cache_files d total G S0 → (0 < hs)%Z → ids ≠ [] → sorted_ids ids = true →
  ∃ ds, dataset_open (build_target_cache_manifest (length G) ((λ k, mkShard k (ShardBin k)) <$> seq 0 total) ids hs) max_open d = Ok ds ∧
    ds_ok (build_target_cache_manifest (length G) ((λ k, mkShard k (ShardBin k)) <$> seq 0 total) ids hs) d total max_open ds.
Proof.
  intros [(qs & Hqs & Hix) _ _ Hsh] Hhs Hids Hsorted. unfold dataset_open. destruct (mapM_records_length _ _ Hqs) as [Hlen _].
  set (m := build_target_cache_manifest _ _ _ _).
  assert (Hv : validate_target_cache_manifest m d = Ok tt).
  { unfold validate_target_cache_manifest, m, build_target_cache_manifest. cbn [version hidden_dtype token_dtype mask_dtype
      index_record_size hidden_size target_layer_ids num_shards shards num_samples]. rewrite !String.eqb_refl, Z.eqb_refl, !Nat.eqb_refl.
    unfold py_assert. rewrite (proj2 (Z.ltb_lt _ _)) by done. rewrite bool_decide_false, Hsorted by done. cbn [negb py_check mbind result_bind].
    rewrite check_shards_ok by (intros k Hk; apply Hsh; lia). cbn [mbind result_bind]. rewrite Hix, Hlen, Nat.Div0.mod_mul, !Nat.eqb_refl. done. }
  rewrite Hv. cbn [mbind result_bind]. eexists. split; [done|]. split; cbn; try done; [|lia]. intros k Hk. by apply shard_paths_lookup.
Qed.

Lemma getitems_ok m d total max_open G S0 (world : list (list (Sample F))) indices ds :
  (∀ x : F, (0 ≤ bfloat16_bits x < modulus 2)%Z) →
  ds_ok m d total max_open ds → 0 < max_open → cache_files d total G S0 → S0 = concat (sample_bytes <$> world) →
  num_samples m = length G → Forall (well_shaped (length (target_layer_ids m)) (Z.to_nat (hidden_size m))) (concat world) →
  Forall (λ i, i < length (concat world)) indices →
  ∃ fs ds', getitems indices ds d = Ok (fs, ds') ∧ ds_ok m d total max_open ds' ∧
    Forall2 (λ i f, features_of <$> concat world !! i = Some f) indices fs.
Proof.
  intros Hbits Hds Hmax Hcf HS Hn Hws Hi. revert ds Hds. induction Hi as [|i indices Hi _ IH]; intros ds Hds.
  { exists [], ds. split; [done|]. split; [done|constructor]. }
  destruct (lookup_lt_is_Some_2 _ _ Hi) as [s Hs]. destruct (concat_lookup_bytes _ _ _ Hs) as [j Hj]. rewrite <- HS in Hj.
  rewrite Forall_lookup in Hws. destruct (getitem_ok Hbits _ _ _ _ _ _ _ _ _ _ Hds Hmax Hcf Hn Hj (Hws _ _ Hs)) as (ds1 & R1 & Hds1).
  destruct (IH ds1 Hds1) as (fs & ds' & R2 & Hds' & Hfs). exists (features_of s :: fs), ds'. cbn [getitems].
  rewrite R1. cbn [mbind result_bind]. rewrite R2. split; [done|]. split; [done|]. constructor; [by rewrite Hs|done].
Qed.

(** C9: preparing a cache in an empty directory from any samples of any number of ranks and opening it gives a
    dataset with all samples, in rank order, each of which is read back exactly, after any
    sequence of accesses; at most [max_open] shards are ever open, accesses past the end raise
    [IndexError], and no temporary file is left. *)
Theorem target_cache_roundtrip max_shard_bytes num_source target_layer_ids hidden_size max_open (world : list (list (Sample F))) :
  (∀ x : F, (0 ≤ bfloat16_bits x < modulus 2)%Z) →
  Forall rank_fits world → (Z.of_nat (length (concat world)) < modulus 4)%Z →
  (0 < hidden_size)%Z → target_layer_ids ≠ [] → sorted_ids target_layer_ids = true → 0 < max_open →
  Forall (well_shaped (length target_layer_ids) (Z.to_nat hidden_size)) (concat world) →
  ∃ m d ds, prepare max_shard_bytes num_source target_layer_ids hidden_size world ∅ = Ok (m, d) ∧
    dataset_open m max_open d = Ok ds ∧ num_samples m = length (concat world) ∧
    (∀ p : Path, is_Some (d !! p) → p.1 = None) ∧
    ∀ indices, Forall (λ i, i < length (concat world)) indices →
      ∃ fs ds', getitems indices ds d = Ok (fs, ds') ∧
        Forall2 (λ i f, features_of <$> concat world !! i = Some f) indices fs ∧
        length (shard_mmaps ds') ≤ max_open ∧
        ∀ i, length (concat world) ≤ i → getitem i ds' d = Raise IndexError.
Proof.
  intros Hbits Hfit Hcount Hhs Hids Hsorted Hmax Hws.
  destruct (prepare_ok max_shard_bytes num_source target_layer_ids hidden_size world Hfit Hcount) as (total & G & d & Hrun & Hcf & Htmp).
  pose proof (Forall2_length _ _ _ (cf_located _ _ _ _ Hcf)) as HG. rewrite concat_sample_bytes_length in HG. rewrite <- HG in Hrun.
  destruct (dataset_open_ok d G _ total target_layer_ids hidden_size max_open Hcf Hhs Hids Hsorted) as (ds & Hopen & Hds).
  eexists _, d, ds. split; [exact Hrun|]. split; [exact Hopen|]. split; [exact HG|]. split; [exact Htmp|].
  intros indices Hin.
  destruct (getitems_ok _ _ _ _ _ _ world indices ds Hbits Hds Hmax Hcf eq_refl eq_refl Hws Hin) as (fs & ds' & Hget & Hds' & Hfs).
  exists fs, ds'. split; [exact Hget|]. split; [exact Hfs|]. split; [apply Hds'|].
  intros i Hi. unfold getitem. rewrite (do_manifest _ _ _ _ _ Hds'). cbn [num_samples build_target_cache_manifest].
  rewrite (proj2 (Nat.ltb_ge _ _)) by lia. done.
Qed.
End target_cache.

(** Two ranks, three samples, shards of at most 40 bytes. *)
#[local] Instance tiny_bits : BFloat16 Z := λ x, (x mod 65536)%Z.

Definition tiny_world : list (list (Sample Z)) :=
  [[mkSample [7; -1]%Z [1; 1]%Z [0; 1]%Z [[1; 2]; [3; 4]]%Z [[5]; [6]]%Z;
    mkSample [9]%Z [1]%Z [1]%Z [[10; 11]]%Z [[12]]%Z];
   [mkSample [300]%Z [1]%Z [0]%Z [[13; 14]]%Z [[65535]]%Z]].

Lemma tiny_fits : Forall rank_fits tiny_world.
Proof. repeat constructor; vm_compute; done. Qed.

Lemma tiny_shaped : Forall (well_shaped 2 1) (concat tiny_world).
Proof. apply Forall_forall. intros s Hs. repeat (apply elem_of_cons in Hs as [->|Hs]); [..|by apply not_elem_of_nil in Hs]; split; cbn; try done; try lia; repeat (apply Forall_cons_2; [by vm_compute|]); apply Forall_nil_2. Qed.

Lemma target_cache_roundtrip_witness :
  ∃ m d ds, prepare 40 3 [1; 3]%Z 1 tiny_world ∅ = Ok (m, d) ∧ dataset_open m 1 d = Ok ds ∧ num_samples m = 3 ∧
    (∀ p : Path, is_Some (d !! p) → p.1 = None) ∧
    ∀ indices, Forall (λ i, i < 3) indices →
      ∃ fs ds', getitems indices ds d = Ok (fs, ds') ∧
        Forall2 (λ i f, features_of <$> concat tiny_world !! i = Some f) indices fs ∧
        length (shard_mmaps ds') ≤ 1 ∧ ∀ i, 3 ≤ i → getitem i ds' d = Raise IndexError.
Proof.
  apply (target_cache_roundtrip 40 3 [1; 3]%Z 1 1 tiny_world); [|exact tiny_fits|by vm_compute|done|done|done|lia|exact tiny_shaped].
  intros x. apply Z.mod_pos_bound. done.
Defined.
