(* ===== verification/TargetAsync.v ===== *)
(** * TargetAsync: the asynchronous writer

    [AsyncTargetCacheWriter] of [target_cache_dataset.py] with its bounded queue and its writer
    thread, as a step relation on the state the two threads share, driven by the loop of
    [scripts/data/prepare_target_cache.py] and its final [close()].  A step is one access to
    shared state, so every interleaving of the two threads is a sequence of steps; the
    operating system may refuse a write or the closing of the files at any time ([faults]). *)

From S2P Require Import Prelude TargetCodec TargetCache TargetWrite.
#[local] Open Scope nat_scope.

Inductive Item : Type :=
  | ISample (s : TargetCacheSampleBytes)
  | ISentinel.

(** The writer thread: waiting in [queue.get()], holding an item, in the [finally] block, ended. *)
Inductive ThreadPc : Type := TGet | TItem (i : Item) | TClose | TStopped.

#[export] Instance stopped_dec t : Decision (t = TStopped).
Proof. destruct t; (by left) || (by right). Defined.

(** The main thread: between two samples, at the check of [_put], in [queue.put()], at the start
    of [close()], in [thread.join()], past [close()]. *)
Inductive MainPc : Type :=
  | MLoop
  | MPut (i : Item)
  | MTry (i : Item)
  | MClose
  | MJoin
  | MDone (r : result unit).

Section async.
Context {F : Type} `{BFloat16 F} (max_queue_size : nat) (faults : bool).

Record Async : Type := mkAsync {
  todo : list (Sample F);           (* samples the loop has not passed to [write_sample] *)
  item_queue : list Item;
  exception : option py_exn;
  async_num_local_samples : nat;
  closed : bool;
  thread : ThreadPc;
  main : MainPc;
  local_writer : Writer;
  disk : Disk;
}.

Definition async_init (l : list (Sample F)) (r max_shard_bytes : nat) (d : Disk) : Async :=
  let '(w, d) := writer_init r max_shard_bytes d in mkAsync l [] None 0 false TGet MLoop w d.

(** [queue.Queue(maxsize)]: not positive means unbounded. *)
Definition has_room (q : list Item) : bool := (max_queue_size =? 0) || (length q <? max_queue_size).

(** [_raise_if_failed] in [_put]: out of the loop into [finally: writer.close()], or out of [close()]. *)
Definition put_raises (i : Item) : MainPc := match i with ISample _ => MClose | ISentinel => MDone (Raise RuntimeError) end.
(** [queue.put()] returned. *)
Definition after_put (i : Item) : MainPc := match i with ISample _ => MLoop | ISentinel => MJoin end.
Definition count_put (i : Item) (n : nat) : nat := match i with ISample _ => S n | ISentinel => n end.

Definition raise_if_failed (x : option py_exn) : result unit :=
  match x with Some _ => Raise RuntimeError | None => Ok tt end.

(** The end of [close()]. *)
Definition close_result (x : option py_exn) (n : nat) (w : Writer) : result unit :=
  _ ← raise_if_failed x; py_assert (num_local_samples w =? n).

Definition record_exception (x : option py_exn) (e : py_exn) : option py_exn :=
  match x with None => Some e | Some _ => x end.

(** Steps of the main thread. *)
Inductive main_step : Async → Async → Prop :=
  | step_write_sample s l q x n c t w d :
      main_step (mkAsync (s :: l) q x n c t MLoop w d)
           (mkAsync l q x n c t (MPut (ISample (build_target_cache_sample_bytes (Z.of_nat n) s))) w d)
  | step_loop_ends q x n c t w d :
      main_step (mkAsync [] q x n c t MLoop w d) (mkAsync [] q x n c t MClose w d)
  | step_put_raises l q e n c t i w d :
      main_step (mkAsync l q (Some e) n c t (MPut i) w d) (mkAsync l q (Some e) n c t (put_raises i) w d)
  | step_put_checked l q n c t i w d :
      main_step (mkAsync l q None n c t (MPut i) w d) (mkAsync l q None n c t (MTry i) w d)
  | step_put_full l q x n c t i w d :
      has_room q = false →
      main_step (mkAsync l q x n c t (MTry i) w d) (mkAsync l q x n c t (MPut i) w d)
  | step_put l q x n c t i w d :
      has_room q = true →
      main_step (mkAsync l q x n c t (MTry i) w d) (mkAsync l (q ++ [i]) x (count_put i n) c t (after_put i) w d)
  | step_close_puts l q n t w d :
      main_step (mkAsync l q None n false t MClose w d) (mkAsync l q None n false t (MPut ISentinel) w d)
  | step_close_joins l q e n t w d :
      main_step (mkAsync l q (Some e) n false t MClose w d) (mkAsync l q (Some e) n false t MJoin w d)
  | step_close_again l q x n t w d :
      main_step (mkAsync l q x n true t MClose w d) (mkAsync l q x n true t (MDone (raise_if_failed x)) w d)
  | step_joined l q x n c w d :
      main_step (mkAsync l q x n c TStopped MJoin w d) (mkAsync l q x n true TStopped (MDone (close_result x n w)) w d).

(** Steps of the writer thread. *)
Inductive thread_step : Async → Async → Prop :=
  | step_get l i q x n c m w d :
      thread_step (mkAsync l (i :: q) x n c TGet m w d) (mkAsync l q x n c (TItem i) m w d)
  | step_got_sentinel l q x n c m w d :
      thread_step (mkAsync l q x n c (TItem ISentinel) m w d) (mkAsync l q x n c TClose m w d)
  | step_written l q x n c m s w d w' d' :
      write_sample_bytes s w d = Ok (w', d') →
      thread_step (mkAsync l q x n c (TItem (ISample s)) m w d) (mkAsync l q x n c TGet m w' d')
  | step_write_raises l q x n c m s e w d :
      write_sample_bytes s w d = Raise e →
      thread_step (mkAsync l q x n c (TItem (ISample s)) m w d) (mkAsync l q (Some e) n c TClose m w d)
  | step_write_fault l q x n c m s w d d' :
      faults = true →
      thread_step (mkAsync l q x n c (TItem (ISample s)) m w d) (mkAsync l q (Some OSError) n c TClose m w d')
  | step_thread_ends l q x n c m w d :
      thread_step (mkAsync l q x n c TClose m w d) (mkAsync l q x n c TStopped m (writer_close w) d)
  | step_close_fault l q x n c m w d :
      faults = true →
      thread_step (mkAsync l q x n c TClose m w d) (mkAsync l q (record_exception x OSError) n c TStopped m w d).

Definition step (s s' : Async) : Prop := main_step s s' ∨ thread_step s s'.

(** ** The invariant *)

Context (samples : list (Sample F)) (w0 : Writer) (d0 : Disk).
Hypothesis writer_fresh : num_local_samples w0 = 0.

Definition payload : list TargetCacheSampleBytes := sample_bytes samples.

Definition pending_items (t : ThreadPc) (q : list Item) : list Item := match t with TItem i => i :: q | _ => q end.
Definition ended (t : ThreadPc) : Prop := match t with TClose | TStopped => True | _ => False end.
Definition past_put (m : MainPc) : Prop := match m with MJoin | MDone _ => True | _ => False end.
Definition sentinel_sent (m : MainPc) : list Item := match m with MJoin | MDone _ => [ISentinel] | _ => [] end.

(** Where the main thread is in the samples. *)
Definition main_ok (l : list (Sample F)) (x : option py_exn) (n : nat) (t : ThreadPc) (m : MainPc) : Prop :=
  match m with
  | MLoop => l = drop n samples
  | MPut (ISample b) | MTry (ISample b) => payload !! n = Some b ∧ l = drop (S n) samples
  | MPut ISentinel | MTry ISentinel => n = length samples
  | MClose | MJoin => x = None → n = length samples
  | MDone r => r = Raise RuntimeError ∧ x ≠ None ∨ r = Ok tt ∧ x = None ∧ t = TStopped ∧ n = length samples
  end.

(** What has been written, as long as nothing failed. *)
Definition thread_ok (q : list Item) (n : nat) (t : ThreadPc) (m : MainPc) (w : Writer) (d : Disk) : Prop :=
  ∃ k w1, k ≤ n ∧ write_samples (take k payload) w0 d0 = Ok (w1, d) ∧
    w = (match t with TStopped => writer_close w1 | _ => w1 end) ∧
    match t with
    | TClose | TStopped => q = [] ∧ k = n ∧ past_put m
    | _ => pending_items t q = (ISample <$> drop k (take n payload)) ++ sentinel_sent m
    end.

Record inv (s : Async) : Prop := {
  iv_bound : async_num_local_samples s ≤ length samples;
  iv_main : main_ok (todo s) (exception s) (async_num_local_samples s) (thread s) (main s);
  iv_thread : exception s = None → thread_ok (item_queue s) (async_num_local_samples s) (thread s) (main s) (local_writer s) (disk s);
  iv_failed : exception s ≠ None → ended (thread s);
  iv_closed : closed s = true → ∃ r, main s = MDone r;
}.

Lemma payload_length : length payload = length samples.
Proof. apply length_imap. Qed.

Lemma payload_lookup n s l : s :: l = drop n samples → payload !! n = Some (build_target_cache_sample_bytes (Z.of_nat n) s) ∧ l = drop (S n) samples ∧ n < length samples.
Proof.
  intros E. assert (Hs : samples !! n = Some s) by (rewrite <- (Nat.add_0_r n), <- lookup_drop, <- E; done).
  split; [unfold payload, sample_bytes; rewrite list_lookup_imap, Hs; done|]. split; [|by eapply lookup_lt_Some].
  rewrite <- Nat.add_1_r, <- drop_drop, <- E. done.
Qed.

Lemma write_samples_app l1 l2 w d : write_samples (l1 ++ l2) w d = ('(w, d) ← write_samples l1 w d; write_samples l2 w d).
Proof.
  revert w d. induction l1 as [|s l1 IH]; intros w d; [done|]. cbn [app write_samples].
  destruct (write_sample_bytes s w d) as [[w1 d1]|e]; [|done]. cbn [mbind result_bind]. apply IH.
Qed.

Lemma write_sample_count s w d w' d' : write_sample_bytes s w d = Ok (w', d') → num_local_samples w' = S (num_local_samples w).
Proof.
  unfold write_sample_bytes. set (k := _ + _ + _ + _ + _). intros Hw.
  assert (He : num_local_samples (ensure_shard k w d).1 = num_local_samples w).
  { unfold ensure_shard, open_new_shard. destruct (current_shard_handle w); [|done]. by destruct (_ && _). }
  destruct (ensure_shard k w d) as [w1 d1]. cbn [fst] in He. rewrite <- He. clear He. unfold write_part in Hw.
  destruct (current_shard_handle w1); [|done]. cbn [mbind result_bind current_shard_handle index_handle] in Hw.
  apply result_bind_Ok in Hw as (b & _ & Hw). destruct (index_handle w1); [|done]. by injection Hw as <- <-.
Qed.

Lemma write_samples_count l w d w' d' : write_samples l w d = Ok (w', d') → num_local_samples w' = num_local_samples w + length l.
Proof.
  revert w d. induction l as [|s l IH]; intros w d; cbn [write_samples length]; [intros [= <- _]; lia|].
  intros ([w1 d1] & H1 & H2)%result_bind_Ok. rewrite (IH _ _ H2), (write_sample_count _ _ _ _ _ H1). lia.
Qed.

Lemma thread_ok_put q n t i w d :
  (match i with ISample b => payload !! n = Some b | ISentinel => True end) →
  thread_ok q n t (MTry i) w d → thread_ok (q ++ [i]) (count_put i n) t (after_put i) w d.
Proof.
  intros Hi (k & w1 & Hk & Hw & Ew & Ht). exists k, w1. split; [destruct i; cbn; lia|]. split; [done|]. split; [done|].
  assert (Hp : pending_items t (q ++ [i]) = pending_items t q ++ [i]) by (by destruct t).
  assert (Hq : drop k (take (count_put i n) payload) = drop k (take n payload) ++ match i with ISample b => [b] | ISentinel => [] end).
  { destruct i as [b|]; cbn [count_put]; [|by rewrite app_nil_r].
    apply lookup_lt_Some in Hi as Hlt. rewrite (take_S_r _ _ b Hi), drop_app_le by (rewrite length_take; lia). done. }
  destruct t; try (destruct Ht as (_ & _ & [])); rewrite Hp, Ht, Hq, fmap_app; cbn [sentinel_sent]; rewrite app_nil_r;
    destruct i; cbn [after_put sentinel_sent fmap list_fmap]; by rewrite ?app_nil_r.
Qed.

Lemma inv_main_step s s' : inv s → main_step s s' → inv s'.
Proof.
  intros [V1 V2 V3 V4 V5] Hs. destruct Hs as [s l q x n c t w d|q x n c t w d|l q e n c t i w d|l q n c t i w d|l q x n c t i w d Hroom
    |l q x n c t i w d Hroom|l q n t w d|l q e n t w d|l q x n t w d|l q x n c w d];
    cbn [async_num_local_samples todo exception thread main item_queue local_writer disk closed] in *;
    try (assert (c = false) as -> by (destruct c; [by destruct (V5 eq_refl)|done])).
  - destruct (payload_lookup _ _ _ V2) as (H1 & H2 & H3). by split.
  - split; try done. intros _. cbn in V2. apply (f_equal length) in V2. rewrite length_drop in V2. cbn in *. lia.
  - split; try done. destruct i; cbn; [done|by left].
  - by split.
  - by split.
  - split; cbn; try done.
    + destruct i as [b|]; cbn in *; [|by rewrite V2]. destruct V2 as [Hb _]. apply lookup_lt_Some in Hb. rewrite payload_length in Hb. lia.
    + destruct i as [b|]; cbn in *; [apply V2|done].
    + intros Hx. apply thread_ok_put; [|by apply V3]. destruct i; [apply V2|done].
  - split; try done. by apply V2.
  - by split.
  - destruct (V5 eq_refl) as [r ?]. done.
  - split; cbn; try done; [|by eexists]. destruct x as [e|]; [by left|right]. split; [|by auto].
    destruct (V3 eq_refl) as (k & w1 & _ & Hw & -> & _ & -> & _). unfold close_result, py_assert. cbn [raise_if_failed mbind result_bind].
    apply py_check_true, Nat.eqb_eq. cbn. rewrite (write_samples_count _ _ _ _ _ Hw), writer_fresh, length_take, payload_length. lia.
Qed.

(** The item the thread holds is the next one to write. *)
Lemma thread_ok_item q n s m w d :
  thread_ok q n (TItem (ISample s)) m w d → ∃ k, k < n ∧ payload !! k = Some s ∧ write_samples (take k payload) w0 d0 = Ok (w, d) ∧
    q = (ISample <$> drop (S k) (take n payload)) ++ sentinel_sent m.
Proof.
  intros (k & w1 & Hk & Hw & -> & Hp). cbn [pending_items] in Hp. exists k. destruct (drop k (take n payload)) as [|s' rest] eqn:E.
  - cbn in Hp. by destruct m.
  - cbn in Hp. injection Hp as <- ->. assert (Hs : take n payload !! k = Some s) by (rewrite <- (Nat.add_0_r k), <- lookup_drop, E; done).
    apply lookup_take_Some in Hs as [Hs Hkn]. split; [done|]. split; [done|]. split; [done|].
    rewrite <- Nat.add_1_r, <- drop_drop, E. done.
Qed.

Lemma main_ok_thread l x x' n t t' m : main_ok l x n t m → t ≠ TStopped → (x' = None → x = None) → main_ok l x' n t' m.
Proof.
  intros Hm Ht Hx. destruct m as [|[b|]|[b|]| | |r]; cbn in *; try done; try (by auto).
  destruct Hm as [[-> Hne]|(_ & _ & Hs & _)]; [left|done]. split; [done|]. by intros E%Hx.
Qed.

Lemma inv_thread_step s s' : inv s → thread_step s s' → inv s'.
Proof.
  intros [V1 V2 V3 V4 V5] Hs.
  destruct Hs as [l i q x n c m w d|l q x n c m w d|l q x n c m s w d w' d' Hw|l q x n c m s e w d Hw|l q x n c m s w d d' _|l q x n c m w d|l q x n c m w d _];
    cbn [async_num_local_samples todo exception thread main item_queue local_writer disk closed] in *;
    (split; cbn [async_num_local_samples todo exception thread main item_queue local_writer disk closed];
     [done|by eapply main_ok_thread; [exact V2|done|try done; by destruct x]| | |exact V5]); try done; try (intros Hx; by destruct (V4 Hx)).
  - intros Hx. destruct (V3 Hx) as (k & w1 & Hk & Hw & -> & Hp). cbn in Hp.
    assert (Hd : drop k (take n payload) = []) by (destruct (drop k (take n payload)); done). rewrite Hd in Hp. cbn in Hp.
    assert (k = n) as -> by (apply (f_equal length) in Hd; rewrite length_drop, length_take, payload_length in Hd; cbn in Hd; lia).
    exists n, w1. split; [done|]. split; [done|]. split; [done|]. destruct m; cbn in Hp; try done; by injection Hp as <-.
  - intros Hx. destruct (thread_ok_item _ _ _ _ _ _ (V3 Hx)) as (k & Hk & Hs & Hrun & Hq). exists (S k), w'. split; [done|].
    split; [|by rewrite Hq]. rewrite (take_S_r _ _ s Hs), write_samples_app, Hrun. cbn. rewrite Hw. done.
  - intros Hx. destruct (V3 Hx) as (k & w1 & Hk & Hw & -> & -> & -> & Hp). exists n, w1. done.
  - by destruct x.
Qed.

(** ** Reachable states *)

Lemma inv_steps s s' : inv s → rtc step s s' → inv s'.
Proof. intros Hi. induction 1 as [|s s1 s' [Hs|Hs] _ IH]; [done|..]; apply IH; [by eapply inv_main_step|by eapply inv_thread_step]. Qed.

Lemma inv_init r max_shard_bytes d : writer_init r max_shard_bytes d = (w0, d0) → inv (async_init samples r max_shard_bytes d).
Proof.
  intros E. unfold async_init. rewrite E. split; cbn; try done; [lia|]. intros _. exists 0, w0. done.
Qed.

(** ** Progress *)

(** The work left: samples to pass, the end of [close()], items in the queue, the thread. *)
Definition main_work (l : list (Sample F)) (m : MainPc) : nat :=
  match m with
  | MLoop => 6 * length l + 10
  | MPut (ISample _) => 6 * length l + 15
  | MTry (ISample _) => 6 * length l + 14
  | MClose => 9
  | MPut ISentinel => 8
  | MTry ISentinel => 7
  | MJoin => 1
  | MDone _ => 0
  end.
Definition thread_work (t : ThreadPc) : nat := match t with TGet => 2 | TItem _ => 3 | TClose => 1 | TStopped => 0 end.
Definition work (s : Async) : nat := main_work (todo s) (main s) + 2 * length (item_queue s) + thread_work (thread s).

Lemma thread_progress l q x n c t m w d :
  (t = TGet → q ≠ []) → t ≠ TStopped →
  ∃ s', thread_step (mkAsync l q x n c t m w d) s' ∧ work s' < work (mkAsync l q x n c t m w d) ∧ (main s' = m).
Proof.
  intros Hq Ht. destruct t as [|[b|]| |]; [| | | |done].
  - destruct q as [|i q]; [by destruct (Hq eq_refl)|]. eexists. split; [by constructor|]. unfold work. cbn. split; [lia|done].
  - destruct (write_sample_bytes b w d) as [[w' d']|e] eqn:E; eexists; (split; [by econstructor|]); unfold work; cbn; (split; [lia|done]).
  - eexists. split; [by constructor|]. unfold work. cbn. split; [lia|done].
  - eexists. split; [by constructor|]. unfold work. cbn. split; [lia|done].
Qed.

(** Unless [close()] is over, some steps of the two threads make progress. *)
Lemma progress s : inv s → (∃ r, main s = MDone r) ∨ ∃ s', rtc step s s' ∧ work s' < work s.
Proof.
  intros [V1 V2 V3 V4 V5]. destruct s as [l q x n c t m w d]. cbn [async_num_local_samples todo exception thread main item_queue local_writer disk closed] in *.
  assert (Hone : ∀ s' : Async, step (mkAsync l q x n c t m w d) s' → work s' < work (mkAsync l q x n c t m w d) →
    ∃ s', rtc step (mkAsync l q x n c t m w d) s' ∧ work s' < work (mkAsync l q x n c t m w d)).
  { intros s' Hs Hw. exists s'. split; [by apply rtc_once|done]. }
  destruct m as [|i|i| | |r]; [..|by left; eexists]; right; try (assert (c = false) as -> by (destruct c; [by destruct (V5 eq_refl)|done])).
  - destruct l as [|s l]; eapply Hone; [left; constructor|unfold work; cbn; lia|left; constructor|unfold work; cbn; lia].
  - destruct x as [e|]; (eapply Hone; [left; constructor|unfold work; destruct i; cbn; lia]).
  - destruct (has_room q) eqn:Hr.
    + eapply Hone; [left; by constructor|]. unfold work. cbn. rewrite length_app. destruct i; cbn; lia.
    + assert (Hq : q ≠ []) by (intros ->; unfold has_room in Hr; cbn in Hr; destruct max_queue_size; done).
      destruct (decide (t = TStopped)) as [->|Ht].
      * assert (∃ e, x = Some e) as [e ->].
        { destruct x as [e|]; [by eexists|]. destruct (V3 eq_refl) as (k & w1 & _ & _ & _ & _ & _ & Hp). done. }
        exists (mkAsync l q (Some e) n false TStopped (put_raises i) w d). split.
        -- eapply rtc_l; [left; by apply step_put_full|]. apply rtc_once. left. constructor.
        -- unfold work. destruct i; cbn; lia.
      * destruct (thread_progress l q x n false t (MTry i) w d ltac:(done) Ht) as (s' & Hs & Hw & _). eapply Hone; [by right|done].
  - destruct x as [e|]; (eapply Hone; [left; constructor|unfold work; cbn; lia]).
  - destruct (decide (t = TStopped)) as [->|Ht].
    + eapply Hone; [left; constructor|]. unfold work. cbn. lia.
    + destruct (thread_progress l q x n false t MJoin w d) as (s' & Hs & Hw & _); [|done|eapply Hone; [by right|done]].
      intros ->. destruct x as [e|]; [by destruct (V4 ltac:(done))|]. destruct (V3 eq_refl) as (k & w1 & _ & _ & _ & Hp).
      cbn in Hp. intros ->. by destruct (ISample <$> _).
Qed.

Lemma reaches_end s : inv s → ∃ s' r, rtc step s s' ∧ inv s' ∧ main s' = MDone r.
Proof.
  remember (work s) as k eqn:Ek. revert s Ek. induction (lt_wf k) as [k _ IH]. intros s -> Hi.
  destruct (progress s Hi) as [[r Hr]|(s1 & Hs & Hw)].
  - by exists s, r.
  - destruct (IH _ Hw s1 eq_refl (inv_steps _ _ Hi Hs)) as (s' & r & Hs' & Hi' & Hr). exists s', r. split; [by etrans|done].
Qed.

(** Without faults nothing fails, when all samples fit. *)
Lemma never_fails s s' w d :
  faults = false → write_samples payload w0 d0 = Ok (w, d) → inv s → exception s = None → rtc step s s' → exception s' = None.
Proof.
  intros Hf Hw Hi He Hs. induction Hs as [|s s1 s' Hs _ IH]; [done|]. apply IH.
  - destruct Hs; [by eapply inv_main_step|by eapply inv_thread_step].
  - destruct Hs as [Hs|Hs]; [by destruct Hs|]. destruct Hs as [| | |? q x n ? m b e w1 d1 Hb| | |]; cbn in *; try done; try congruence.
    exfalso. destruct (thread_ok_item _ _ _ _ _ _ (iv_thread _ Hi He)) as (k & _ & Hk & Hrun & _).
    rewrite <- (take_drop_middle payload k b Hk), write_samples_app, Hrun in Hw. cbn in Hw. by rewrite Hb in Hw.
Qed.
End async.

(** The samples of a rank can be written. *)
Lemma rank_written {F} `{BFloat16 F} r max_shard_bytes (l : list (Sample F)) d :
  rank_fits l → ∃ w d', write_samples (sample_bytes l) (writer_init r max_shard_bytes d).1 (writer_init r max_shard_bytes d).2 = Ok (w, d').
Proof.
  intros Hl. destruct (write_rank_ok r max_shard_bytes 0 1 l d Hl) as (n & R & d' & Hw & _). unfold write_rank in Hw.
  destruct (compute_local_sample_range 0 r 1) as [a b]. destruct (writer_init r max_shard_bytes d) as [w0 d0]. cbn [fst snd].
  apply result_bind_Ok in Hw as ([w d1] & Hw & _). by exists w, d1.
Qed.

(** C11: whatever the interleaving of the main thread and the writer thread and whichever writes
    the operating system refuses, when the final [close()] is over it has either raised
    [RuntimeError], the failure being recorded, or the files hold exactly what writing the
    samples one after the other writes, all of them, and nothing is lost. *)
Theorem async_close_complete {F} `{BFloat16 F} max_queue_size faults (l : list (Sample F)) r max_shard_bytes d s res :
  rtc (step max_queue_size faults) (async_init l r max_shard_bytes d) s → main s = MDone res →
  res = Raise RuntimeError ∧ exception s ≠ None ∨
  res = Ok tt ∧ exception s = None ∧ async_num_local_samples s = length l ∧
  ∃ w, write_samples (sample_bytes l) (writer_init r max_shard_bytes d).1 (writer_init r max_shard_bytes d).2 = Ok (w, disk s) ∧
    local_writer s = writer_close w.
Proof.
  intros Hs Hm. destruct (writer_init r max_shard_bytes d) as [w0 d0] eqn:E. assert (Hz : num_local_samples w0 = 0) by (by injection E as <- _).
  pose proof (inv_steps max_queue_size faults l w0 d0 Hz _ _ (inv_init l w0 d0 Hz _ _ _ E) Hs) as [V1 V2 V3 V4 V5]. rewrite Hm in V2.
  destruct V2 as [?|(-> & Hx & Ht & Hn)]; [by left|right]. split; [done|]. split; [done|]. split; [done|].
  destruct (V3 Hx) as (k & w1 & _ & Hw & Ew & Hk). rewrite Ht in *. destruct Hk as (_ & -> & _). exists w1. split; [|done].
  rewrite take_ge in Hw; [exact Hw|]. rewrite (payload_length l), Hn. done.
Qed.

(** C12: the two threads never deadlock: from every reachable state, with the queue full or the
    writer thread dead, they can run until [close()] is over; without faults it then succeeds. *)
Theorem async_no_deadlock {F} `{BFloat16 F} max_queue_size faults (l : list (Sample F)) r max_shard_bytes d s :
  rank_fits l → rtc (step max_queue_size faults) (async_init l r max_shard_bytes d) s →
  ∃ s' res, rtc (step max_queue_size faults) s s' ∧ main s' = MDone res ∧ (faults = false → res = Ok tt).
Proof.
  intros Hl Hs. destruct (writer_init r max_shard_bytes d) as [w0 d0] eqn:E. assert (Hz : num_local_samples w0 = 0) by (by injection E as <- _).
  pose proof (inv_init l w0 d0 Hz _ _ _ E) as Hi. pose proof (inv_steps max_queue_size faults l w0 d0 Hz _ _ Hi Hs) as Hi'.
  destruct (reaches_end max_queue_size faults l w0 d0 Hz s Hi') as (s' & res & Hs' & Hi'' & Hm). exists s', res. split; [done|]. split; [done|].
  intros Hf. destruct (rank_written r max_shard_bytes l d Hl) as (w & d' & Hw). rewrite E in Hw.
  assert (Hx : exception s' = None).
  { eapply (never_fails max_queue_size faults l w0 d0 Hz); [exact Hf|exact Hw|exact Hi| |by etrans]. unfold async_init. by rewrite E. }
  pose proof (iv_main _ _ _ _ Hi'') as Hmain. rewrite Hm in Hmain. cbn in Hmain. destruct Hmain as [[_ ?]|[? _]]; done.
Qed.

(** A run: one sample through a queue of one place. *)
#[local] Instance small_bits : BFloat16 Z := λ x, (x mod 65536)%Z.
Definition small_sample : Sample Z := mkSample [5]%Z [1]%Z [1]%Z [[2; 3]]%Z [[4]]%Z.

Lemma small_run : ∃ s, rtc (step 1 true) (async_init [small_sample] 0 100 ∅) s ∧ main s = MDone (Ok tt).
Proof.
  eexists. split.
  - unfold async_init. eapply rtc_l; [left; apply step_write_sample|]. eapply rtc_l; [left; apply step_put_checked|].
    eapply rtc_l; [left; by apply step_put|]. eapply rtc_l; [right; apply step_get|].
    eapply rtc_l; [right; eapply step_written; vm_compute; reflexivity|]. eapply rtc_l; [left; apply step_loop_ends|].
    eapply rtc_l; [left; apply step_close_puts|]. eapply rtc_l; [left; apply step_put_checked|].
    eapply rtc_l; [left; by apply step_put|]. eapply rtc_l; [right; apply step_get|].
    eapply rtc_l; [right; apply step_got_sentinel|]. eapply rtc_l; [right; apply step_thread_ends|].
    eapply rtc_l; [left; apply step_joined|]. apply rtc_refl.
  - reflexivity.
Qed.

Lemma async_close_complete_witness :
  ∃ s, rtc (step 1 true) (async_init [small_sample] 0 100 ∅) s ∧
    ∃ w, write_samples (sample_bytes [small_sample]) (writer_init 0 100 ∅).1 (writer_init 0 100 ∅).2 = Ok (w, disk s) ∧
      local_writer s = writer_close w.
Proof.
  destruct small_run as (s & Hs & Hm). exists s. split; [exact Hs|].
  destruct (async_close_complete 1 true [small_sample] 0 100 ∅ s (Ok tt) Hs Hm) as [[? _]|(_ & _ & _ & Hw)]; [discriminate|exact Hw].
Defined.

Lemma small_fits : rank_fits [small_sample].
Proof. repeat constructor; vm_compute; done. Qed.

Lemma async_no_deadlock_witness :
  ∃ s' res, rtc (step 1 false) (async_init [small_sample] 0 100 ∅) s' ∧ main s' = MDone res ∧ res = Ok tt.
Proof.
  destruct (async_no_deadlock 1 false [small_sample] 0 100 ∅ _ small_fits (rtc_refl _ _)) as (s' & res & Hs & Hm & Hr).
  exists s', res. split; [exact Hs|]. split; [exact Hm|exact (Hr eq_refl)].
Defined.
