(* ===== verification/TensorOps.v ===== *)
(** * TensorOps: integer tensors, Triton launches and torch's sorting

    What the serving-side files share: 32-bit integers with their wrap-around, prefix sums,
    the blocks of an elementwise Triton launch, [bisect], and the sorting functions of torch as
    a class with their documented behaviour.  64-bit token counts are unbounded integers. *)

From S2P Require Import Prelude.
#[local] Open Scope Z_scope.

(** ** [torch.int32] *)

Definition i32 (z : Z) : Z := (z + 2 ^ 31) mod 2 ^ 32 - 2 ^ 31.
Definition int32_range (z : Z) : Prop := - 2 ^ 31 <= z < 2 ^ 31.

Lemma i32_id z : int32_range z → i32 z = z.
Proof. unfold int32_range, i32. intros. rewrite Z.mod_small; lia. Qed.

Lemma i32_range z : int32_range (i32 z).
Proof. unfold int32_range, i32. pose proof (Z.mod_pos_bound (z + 2 ^ 31) (2 ^ 32)). lia. Qed.

(** Equal modulo [2 ^ 32]: the congruence that [i32] decides. *)
Lemma i32_eq x y : i32 x = i32 y ↔ (x - y) mod 2 ^ 32 = 0.
Proof.
  unfold i32. split; intros H.
  - assert (E : (x + 2 ^ 31) mod 2 ^ 32 = (y + 2 ^ 31) mod 2 ^ 32) by lia.
    replace (x - y) with ((x + 2 ^ 31) - (y + 2 ^ 31)) by lia. rewrite Zminus_mod, E, Z.sub_diag. done.
  - replace (x + 2 ^ 31) with ((x - y) + (y + 2 ^ 31)) by lia. rewrite Zplus_mod, H, Z.add_0_l, Zmod_mod. done.
Qed.

Lemma i32_sub_mod z : (i32 z - z) mod 2 ^ 32 = 0.
Proof.
  unfold i32. pose proof (Z.div_mod (z + 2 ^ 31) (2 ^ 32) ltac:(lia)) as H.
  replace ((z + 2 ^ 31) mod 2 ^ 32 - 2 ^ 31 - z) with (- ((z + 2 ^ 31) / 2 ^ 32) * 2 ^ 32) by lia.
  apply Z_mod_mult.
Qed.

Lemma i32_add_l x y : i32 (i32 x + y) = i32 (x + y).
Proof. apply i32_eq. replace (i32 x + y - (x + y)) with (i32 x - x) by lia. apply i32_sub_mod. Qed.
Lemma i32_add_r x y : i32 (x + i32 y) = i32 (x + y).
Proof. rewrite Z.add_comm, i32_add_l. f_equal. lia. Qed.
Lemma i32_sub_l x y : i32 (i32 x - y) = i32 (x - y).
Proof. rewrite <- !Z.add_opp_r. apply i32_add_l. Qed.

(** ** Sums *)

Definition zsum (l : list Z) : Z := foldr Z.add 0 l.

(** [torch.cumsum], [acc] the sum so far. *)
Fixpoint cumsum_from (acc : Z) (l : list Z) : list Z :=
  match l with [] => [] | x :: l => acc + x :: cumsum_from (acc + x) l end.
Definition cumsum (l : list Z) : list Z := cumsum_from 0 l.

(** [tl.cumsum] of 32-bit lanes. *)
Fixpoint cumsum32_from (acc : Z) (l : list Z) : list Z :=
  match l with [] => [] | x :: l => i32 (acc + x) :: cumsum32_from (i32 (acc + x)) l end.
Definition cumsum32 (l : list Z) : list Z := cumsum32_from 0 l.

Lemma zsum_app l k : zsum (l ++ k) = zsum l + zsum k.
Proof. induction l as [|x l IH]; cbn; [done|]. fold (zsum (l ++ k)) (zsum l). lia. Qed.

Lemma zsum_cons x l : zsum (x :: l) = x + zsum l.
Proof. done. Qed.

Lemma zsum_replicate n x : zsum (replicate n x) = Z.of_nat n * x.
Proof. induction n as [|n IH]; [done|]. cbn [replicate]. rewrite zsum_cons, IH. lia. Qed.

Lemma zsum_nonneg l : Forall (λ x, 0 <= x) l → 0 <= zsum l.
Proof. induction 1 as [|x l Hx _ IH]; [done|]. rewrite zsum_cons. lia. Qed.

Lemma zsum_lower (c : Z) l : Forall (λ x, c <= x) l → Z.of_nat (length l) * c <= zsum l.
Proof. induction 1 as [|x l Hx _ IH]; [done|]. rewrite zsum_cons. cbn [length]. lia. Qed.

Lemma zsum_upper (c : Z) l : Forall (λ x, x <= c) l → zsum l <= Z.of_nat (length l) * c.
Proof. induction 1 as [|x l Hx _ IH]; [done|]. rewrite zsum_cons. cbn [length]. lia. Qed.

Lemma zsum_take_S l i x : l !! i = Some x → zsum (take (S i) l) = zsum (take i l) + x.
Proof. intros H. rewrite (take_S_r _ _ x) by done. rewrite zsum_app. cbn. lia. Qed.

Lemma zsum_take_le l i j : Forall (λ x, 0 <= x) l → (i <= j)%nat → zsum (take i l) <= zsum (take j l).
Proof.
  intros Hl Hij. rewrite <- (take_drop i (take j l)), take_take, Nat.min_l, zsum_app by done.
  enough (0 <= zsum (drop i (take j l))) by lia. by apply zsum_nonneg, Forall_drop, Forall_take.
Qed.

Lemma zsum_take_all l i : Forall (λ x, 0 <= x) l → zsum (take i l) <= zsum l.
Proof.
  intros Hl. rewrite <- (take_drop i l) at 2. rewrite zsum_app.
  enough (0 <= zsum (drop i l)) by lia. by apply zsum_nonneg, Forall_drop.
Qed.

Lemma length_cumsum_from acc l : length (cumsum_from acc l) = length l.
Proof. revert acc. induction l as [|x l IH]; intros acc; cbn; [done|]. by rewrite IH. Qed.
Lemma length_cumsum l : length (cumsum l) = length l.
Proof. apply length_cumsum_from. Qed.

Lemma lookup_cumsum_from acc l i :
  (i < length l)%nat → cumsum_from acc l !! i = Some (acc + zsum (take (S i) l)).
Proof.
  revert acc i. induction l as [|x l IH]; intros acc [|i] Hi; cbn [length] in Hi; [lia..| |].
  - cbn. by rewrite Z.add_0_r.
  - change (cumsum_from (acc + x) l !! i = Some (acc + zsum (x :: take (S i) l))).
    rewrite IH, zsum_cons by lia. f_equal. lia.
Qed.

Lemma lookup_cumsum l i : (i < length l)%nat → cumsum l !! i = Some (zsum (take (S i) l)).
Proof. intros. unfold cumsum. by rewrite lookup_cumsum_from. Qed.

(** Wrapping once at the end or after every addition is the same. *)
Lemma cumsum32_from_eq acc acc' l :
  i32 acc = i32 acc' → cumsum32_from acc l = i32 <$> cumsum_from acc' l.
Proof.
  revert acc acc'. induction l as [|x l IH]; intros acc acc' H; [done|]. cbn [cumsum32_from cumsum_from].
  rewrite fmap_cons. assert (E : i32 (acc + x) = i32 (acc' + x)).
  { by rewrite <- (i32_add_l acc), H, i32_add_l. }
  f_equal; [done|]. apply IH. rewrite (i32_id (i32 _)) by apply i32_range. done.
Qed.

Lemma cumsum32_eq l : cumsum32 l = i32 <$> cumsum l.
Proof. by apply cumsum32_from_eq. Qed.

(** ** Triton *)

Definition cdiv (a b : nat) : nat := ((a + b - 1) / b)%nat.
Definition next_power_of_2 (n : nat) : nat := (2 ^ Nat.log2_up n)%nat.

(** [tl.load(ptr + i, mask=mask, other=other)]; the pointer is a row-major tensor. *)
Definition tl_load {A} (l : list A) (i : nat) (mask : bool) (other : A) : A :=
  if mask then default other (l !! i) else other.

(** An elementwise launch: program [pid] owns the lanes [pid * BLOCK ..], those below [n] store
    one element each, and the programs' blocks are disjoint. *)
Definition tl_lanes (BLOCK pid : nat) : list nat := seq (pid * BLOCK) BLOCK.
Definition tl_launch {A} (n BLOCK : nat) (lane : nat → A) : list A :=
  concat ((λ pid, lane <$> filter (λ o, (o < n)%nat) (tl_lanes BLOCK pid)) <$> seq 0 (cdiv n BLOCK)).

Lemma filter_lt_seq n s k : filter (λ o, (o < n)%nat) (seq s k) = seq s (Nat.min k (n - s)).
Proof.
  revert s. induction k as [|k IH]; intros s; cbn [seq]; [by rewrite Nat.min_0_l|].
  rewrite filter_cons, IH. case_decide.
  - replace (n - s)%nat with (S (n - S s)) by lia. done.
  - replace (n - s)%nat with 0%nat by lia. by replace (n - S s)%nat with 0%nat by lia; rewrite !Nat.min_0_r.
Qed.

Lemma tl_launch_eq {A} n BLOCK (lane : nat → A) :
  (0 < BLOCK)%nat → tl_launch n BLOCK lane = lane <$> seq 0 n.
Proof.
  intros HB. unfold tl_launch.
  assert (Hk : ∀ k, concat ((λ pid, lane <$> filter (λ o, (o < n)%nat) (tl_lanes BLOCK pid)) <$> seq 0 k)
    = lane <$> seq 0 (Nat.min (k * BLOCK) n)).
  { induction k as [|k IH]; [done|]. rewrite seq_S, fmap_app, concat_app, IH. cbn [fmap list_fmap concat Nat.add].
    rewrite app_nil_r. unfold tl_lanes. rewrite filter_lt_seq, <- fmap_app. f_equal.
    destruct (decide (k * BLOCK <= n)%nat).
    - rewrite (Nat.min_l (k * BLOCK) n) by lia. rewrite <- seq_app. f_equal. lia.
    - replace (n - k * BLOCK)%nat with 0%nat by lia. rewrite Nat.min_0_r, app_nil_r. f_equal. lia. }
  rewrite Hk. f_equal. f_equal. apply Nat.min_r. unfold cdiv.
  pose proof (Nat.div_mod (n + BLOCK - 1) BLOCK ltac:(lia)).
  pose proof (Nat.mod_upper_bound (n + BLOCK - 1) BLOCK ltac:(lia)). nia.
Qed.

Lemma next_power_of_2_ge n : (n <= next_power_of_2 n)%nat.
Proof.
  unfold next_power_of_2. destruct (decide (n <= 1)%nat) as [H|H].
  - enough (2 ^ Nat.log2_up n <> 0)%nat by lia. by apply Nat.pow_nonzero.
  - pose proof (Nat.log2_up_spec n ltac:(lia)). lia.
Qed.

(** ** [bisect] on sorted lists: the number of leading elements that satisfy a predicate *)

Fixpoint leading {A} (p : A → bool) (l : list A) : nat :=
  match l with [] => 0 | x :: l => if p x then S (leading p l) else 0 end.

Definition py_bisect_left (l : list Z) (x : Z) : nat := leading (λ y, y <? x) l.
Definition py_bisect_right (l : list Z) (x : Z) : nat := leading (λ y, y <=? x) l.

Section leading.
Context {A : Type} (p : A → bool).

Lemma leading_le l : (leading p l <= length l)%nat.
Proof. induction l as [|x l IH]; cbn; [done|]. destruct (p x); lia. Qed.

Lemma leading_before l i x : (i < leading p l)%nat → l !! i = Some x → p x = true.
Proof.
  revert i. induction l as [|y l IH]; intros i Hi; cbn in *; [lia|].
  destruct (p y) eqn:E; [|lia]. destruct i as [|i]; cbn; [congruence|]. apply IH. lia.
Qed.

Lemma leading_at l x : l !! leading p l = Some x → p x = false.
Proof. induction l as [|y l IH]; cbn; [done|]. destruct (p y) eqn:E; cbn; [done|congruence]. Qed.

Lemma leading_snoc l x :
  leading p (l ++ [x]) =
    (if (leading p l =? length l)%nat && p x then S (leading p l) else leading p l).
Proof.
  induction l as [|y l IH]; cbn [leading app length]; [cbn; by destruct (p x)|].
  destruct (p y); [|done]. rewrite IH. cbn [Nat.eqb]. by destruct (_ && _).
Qed.

Lemma leading_unique l i :
  (i <= length l)%nat → (∀ j x, (j < i)%nat → l !! j = Some x → p x = true) →
  (∀ x, l !! i = Some x → p x = false) → leading p l = i.
Proof.
  revert i. induction l as [|y l IH]; intros i Hi Hlt Hat; cbn in *; [lia|].
  destruct i as [|i].
  - by rewrite (Hat y).
  - rewrite (Hlt 0%nat y) by (done || lia). f_equal. apply IH; [lia| |done].
    intros j x Hj. by apply (Hlt (S j)); lia.
Qed.
End leading.

(** ** Flattened tensors *)

Lemma lookup_concat_uniform {A} k (ls : list (list A)) c :
  (0 < k)%nat → Forall (λ l, length l = k) ls → concat ls !! c = ls !! (c / k)%nat ≫= λ l, l !! (c mod k)%nat.
Proof.
  intros Hk Hls. revert c. induction Hls as [|l ls Hl _ IH]; intros c; [done|]. cbn [concat].
  destruct (decide (c < k)%nat) as [Hc|Hc].
  - rewrite lookup_app_l, Nat.div_small, Nat.mod_small by lia. done.
  - rewrite lookup_app_r, IH by lia. rewrite Hl. set (d := (c - k)%nat). replace c with (d + 1 * k)%nat by (unfold d; lia).
    rewrite Nat.div_add, Nat.Div0.mod_add, Nat.add_1_r by lia. done.
Qed.

Lemma length_concat_uniform {A} k (ls : list (list A)) :
  Forall (λ l, length l = k) ls → length (concat ls) = (length ls * k)%nat.
Proof. induction 1 as [|l ls Hl _ IH]; [done|]. cbn. rewrite length_app, IH, Hl. done. Qed.

#[export] Instance zsum_perm : Proper ((≡ₚ) ==> eq) zsum.
Proof. induction 1; cbn in *; unfold zsum in *; cbn; lia. Qed.

Lemma zsum_zero {A} (f : A → Z) l : Forall (λ x, f x = 0) l → zsum (f <$> l) = 0.
Proof. induction 1 as [|x l Hx _ IH]; [done|]. rewrite fmap_cons, zsum_cons, IH, Hx. done. Qed.

Lemma zsum_filter {A} (P : A → Prop) `{!∀ x, Decision (P x)} (f : A → Z) l :
  zsum (f <$> filter P l) = zsum ((λ x, if decide (P x) then f x else 0) <$> l).
Proof.
  induction l as [|x l IH]; [done|]. rewrite filter_cons, (fmap_cons _ x l), zsum_cons, <- IH.
  case_decide; rewrite ?fmap_cons, ?zsum_cons; lia.
Qed.

Lemma zsum_count {A} (p : A → bool) l :
  zsum ((λ x, if p x then 1 else 0) <$> l) = Z.of_nat (length (filter (λ x, p x = true) l)).
Proof.
  induction l as [|x l IH]; [done|]. rewrite fmap_cons, zsum_cons, IH, filter_cons.
  destruct (p x); cbn [decide]; case_decide; (congruence || cbn [length]; lia).
Qed.

Lemma tl_load_padded {A} (l : list A) (other : A) (bs BLOCK : nat) :
  length l = bs → (bs <= BLOCK)%nat →
  (λ i, tl_load l i (i <? bs)%nat other) <$> seq 0 BLOCK = l ++ replicate (BLOCK - bs) other.
Proof.
  intros Hl HB. apply list_eq. intros i. rewrite list_lookup_fmap.
  destruct (decide (i < BLOCK)%nat) as [Hi|Hi].
  - rewrite lookup_seq_lt by done. cbn [fmap option_fmap option_map Nat.add]. unfold tl_load. destruct (Nat.ltb_spec i bs).
    + rewrite lookup_app_l by lia. destruct (lookup_lt_is_Some_2 l i) as [x Hx]; [lia|]. by rewrite Hx.
    + rewrite lookup_app_r by lia. rewrite lookup_replicate_2 by lia. done.
  - rewrite lookup_seq_ge by lia. symmetry. apply lookup_ge_None. rewrite length_app, length_replicate. lia.
Qed.

(** The flat indices, row by row. *)
Lemma rows_seq R k : seq 0 (R * k) = concat ((λ r, seq (r * k) k) <$> seq 0 R).
Proof.
  induction R as [|R IH]; [done|]. rewrite seq_S, fmap_app, concat_app, <- IH. cbn [fmap list_fmap concat Nat.add].
  rewrite app_nil_r, <- seq_app. f_equal. lia.
Qed.

Lemma row_div r p k : (p < k)%nat → ((r * k + p) / k = r ∧ (r * k + p) mod k = p)%nat.
Proof. intros Hp. rewrite Nat.add_comm, Nat.div_add, Nat.Div0.mod_add, Nat.div_small, Nat.mod_small by lia. done. Qed.

Lemma filter_concat {A} (P : A → Prop) `{!∀ x, Decision (P x)} (ls : list (list A)) :
  filter P (concat ls) = concat (filter P <$> ls).
Proof. induction ls as [|l ls IH]; [done|]. cbn. by rewrite filter_app, IH. Qed.

Lemma zsum_concat {A} (f : A → Z) (ls : list (list A)) :
  zsum (f <$> concat ls) = zsum ((λ l : list A, zsum (f <$> l)) <$> ls).
Proof. induction ls as [|l ls IH]; [done|]. cbn [concat]. rewrite fmap_app, zsum_app, IH. done. Qed.

Lemma zsum_single (r n : nat) (x : Z) :
  (r < n)%nat → zsum ((λ i, if decide (i = r) then x else 0) <$> seq 0 n) = x.
Proof.
  intros Hr. replace n with (r + (1 + (n - S r)))%nat by lia. rewrite seq_app, fmap_app, zsum_app. cbn [seq Nat.add].
  rewrite fmap_cons, zsum_cons, decide_True by done.
  rewrite !zsum_zero; [lia|apply Forall_seq; intros; by rewrite decide_False by lia..].
Qed.
