(* ===== verification/StableSort.v ===== *)
(** * StableSort: [torch.argsort], ranks and sums of the largest elements

    [torch]'s sorting functions as a class with their documented behaviour, the lexicographic
    order that repeated stable sorting builds, the rank of an element as a count, and the fact
    that the first [k] elements of a descending list have the largest sum. *)

From S2P Require Import Prelude Sampling.
#[local] Open Scope nat_scope.

(** ** Indexing a tensor with a tensor of indices *)

Definition torch_index {A} (l : list A) (idx : list nat) : result (list A) :=
  mapM (λ i, match l !! i with Some x => Ok x | None => Raise IndexError end) idx.

Lemma torch_index_ok {A} (l : list A) idx :
  Forall (λ i, i < length l) idx →
  ∃ k, torch_index l idx = Ok k ∧ Forall2 (λ i x, l !! i = Some x) idx k.
Proof.
  intros Hidx. destruct (mapM_Ok_exists (λ i, match l !! i with Some x => Ok x | None => Raise IndexError end) idx) as [k Hk].
  { eapply Forall_impl; [exact Hidx|]. intros i [x Hx]%lookup_lt_is_Some_2. exists x. by rewrite Hx. }
  exists k. split; [exact Hk|]. apply mapM_Ok_Forall2 in Hk.
  eapply Forall2_impl; [exact Hk|]. cbn. intros i x. by destruct (l !! i); [intros [= ->]|].
Qed.

Lemma torch_index_fmap {A} (l : list A) (d : A) idx :
  Forall (λ i, i < length l) idx → torch_index l idx = Ok ((λ i, default d (l !! i)) <$> idx).
Proof.
  intros Hidx. apply mapM_Ok_fmap. eapply Forall_impl; [exact Hidx|].
  intros i [x Hx]%lookup_lt_is_Some_2. cbn. by rewrite Hx.
Qed.

(** ** The sorting functions *)

(** [argsort leb keys] is [torch.argsort(keys, stable=True)] of keys compared by [leb];
    [sort_descending] is [torch.sort(values, descending=True).values]. *)
Class TorchArgsort : Type := {
  argsort {A : Type} : (A → A → bool) → list A → list nat;
  sort_descending : list Q → list Q;
}.

Definition total_preorder {A} (leb : A → A → bool) : Prop :=
  (∀ a b, leb a b = true ∨ leb b a = true) ∧
  (∀ a b c, leb a b = true → leb b c = true → leb a c = true).

(** [i] goes before [j]: its key is smaller, or equal and [R] says so. *)
Definition key_lex {A} (leb : A → A → bool) (keys : list A) (R : nat → nat → Prop) (i j : nat) : Prop :=
  ∃ a b, keys !! i = Some a ∧ keys !! j = Some b ∧ leb a b = true ∧ (leb b a = true → R i j).

Class TorchArgsortLaws `{TorchArgsort} : Prop := {
  argsort_perm {A} (leb : A → A → bool) keys : total_preorder leb → argsort leb keys ≡ₚ seq 0 (length keys);
  argsort_sorted {A} (leb : A → A → bool) keys :
    total_preorder leb → StronglySorted (key_lex leb keys lt) (argsort leb keys);
  sort_descending_perm l : sort_descending l ≡ₚ l;
  sort_descending_sorted l : StronglySorted (λ a b, b <= a)%Q (sort_descending l);
}.

(** ** Sorted lists *)

Lemma StronglySorted_Forall2 {A B} (R : A → A → Prop) (T : B → B → Prop) (P : A → B → Prop) l k :
  StronglySorted R l → Forall2 P l k →
  (∀ a b x y, R a b → P a x → P b y → T x y) → StronglySorted T k.
Proof.
  intros Hl Hk HT. revert k Hk. induction Hl as [|a l _ IH Ha]; intros k Hk; inversion Hk as [|? x ? k' Hx Hk']; subst; constructor.
  - by apply IH.
  - clear IH Hk. induction Hk' as [|b y l k' Hy _ IHk]; constructor; inversion Ha; subst; eauto.
Qed.

Lemma StronglySorted_lookup {A} (R : A → A → Prop) l i j x y :
  StronglySorted R l → i < j → l !! i = Some x → l !! j = Some y → R x y.
Proof.
  intros Hl. revert i j. induction Hl as [|a l _ IH Ha]; intros i j Hij Hi Hj; [done|].
  destruct j as [|j]; [lia|]. destruct i as [|i]; cbn in Hi, Hj.
  - injection Hi as <-. rewrite Forall_forall in Ha. apply Ha. by eapply list_elem_of_lookup_2.
  - apply (IH i j); (lia || done).
Qed.

Lemma StronglySorted_take {A} (R : A → A → Prop) n l : StronglySorted R l → StronglySorted R (take n l).
Proof.
  intros Hl. revert n. induction Hl as [|a l _ IH Ha]; intros [|n]; cbn; constructor; [done|].
  by apply Forall_take.
Qed.

Lemma seq_sorted s n : StronglySorted lt (seq s n).
Proof.
  revert s. induction n as [|n IH]; intros s; cbn; constructor; [done|].
  apply Forall_seq. lia.
Qed.

Lemma Forall2_lookup_fmap {A B} (P : A → B → Prop) (l : list A) k :
  Forall2 P l k → ∀ i x, l !! i = Some x → ∃ y, k !! i = Some y ∧ P x y.
Proof. intros H i x Hi. destruct (Forall2_lookup_l _ _ _ _ _ H Hi) as (y & ? & ?); eauto. Qed.

(** Picking a permutation of the positions permutes the list. *)
Lemma index_perm {A} (l k : list A) pos :
  pos ≡ₚ seq 0 (length l) → Forall2 (λ i x, l !! i = Some x) pos k → k ≡ₚ l.
Proof.
  intros Hpos Hk. destruct l as [|d l'] eqn:El; rewrite <- El in *.
  { subst l. cbn in Hpos. apply Permutation_nil_r in Hpos as ->. by inversion Hk. }
  clear El. assert (Ek : k = (λ i, default d (l !! i)) <$> pos).
  { clear Hpos. induction Hk as [|i x pos k Hx _ IH]; [done|]. cbn. rewrite Hx. cbn. by f_equal. }
  subst k. rewrite Hpos. clear. apply reflexive_eq, list_eq. intros i.
  rewrite list_lookup_fmap. destruct (decide (i < length l)).
  - rewrite lookup_seq_lt by done. cbn. destruct (lookup_lt_is_Some_2 l i) as [x ->]; done.
  - rewrite lookup_seq_ge by lia. symmetry. apply lookup_ge_None. lia.
Qed.

Lemma Permutation_seq_lt l n : l ≡ₚ seq 0 n → Forall (λ i, i < n) l.
Proof. intros ->. apply Forall_seq. lia. Qed.

(** [order[torch.argsort(keys[order], stable=True)]]: sort by a key, keep the old order among
    equal keys. *)
Definition stable_resort `{TorchArgsort} {A} (leb : A → A → bool) (keys : list A) (order : list nat)
  : result (list nat) :=
  ks ← torch_index keys order; torch_index order (argsort leb ks).

Lemma stable_resort_ok `{TorchArgsortLaws} {A} (leb : A → A → bool) keys order R :
  total_preorder leb → Forall (λ i, i < length keys) order → StronglySorted R order →
  ∃ order', stable_resort leb keys order = Ok order' ∧ order' ≡ₚ order ∧
    StronglySorted (key_lex leb keys R) order'.
Proof.
  intros Hleb Hlt HR. unfold stable_resort.
  destruct (torch_index_ok keys order Hlt) as (ks & -> & Hks). cbn [mbind result_bind].
  assert (Hlen : length ks = length order) by (symmetry; by eapply Forall2_length).
  pose proof (argsort_perm leb ks Hleb) as Hperm.
  destruct (torch_index_ok order (argsort leb ks)) as (order' & E & Hk).
  { apply Permutation_seq_lt. by rewrite <- Hlen. }
  exists order'. split; [exact E|]. split; [apply (index_perm _ _ _ ltac:(by rewrite <- Hlen) Hk)|].
  eapply StronglySorted_Forall2; [exact (argsort_sorted leb ks Hleb)|exact Hk|].
  cbn. intros p q i j (a & b & Ha & Hb & Hab & Hst) Hi Hj.
  destruct (Forall2_lookup_r _ _ _ _ _ Hks Ha) as (i' & Hi' & Hai).
  destruct (Forall2_lookup_r _ _ _ _ _ Hks Hb) as (j' & Hj' & Hbj).
  simplify_eq. exists a, b. split_and!; [done..|]. intros Hba. exact (StronglySorted_lookup R order p q i j HR (Hst Hba) Hi Hj).
Qed.

(** ** Ranks *)

Section rank.
Context (R : nat → nat → Prop) `{!∀ i j, Decision (R i j)}.
Hypothesis R_asym : ∀ i j, R i j → ¬ R j i.

(** In a list sorted by [R] the position of an element is the number of elements before it. *)
Lemma sorted_rank l i x :
  StronglySorted R l → l !! i = Some x → length (filter (λ y, R y x) l) = i.
Proof.
  intros Hl. revert i. induction Hl as [|a l Hl' IH Ha]; intros i Hi; [done|]. rewrite filter_cons.
  destruct i as [|i]; cbn in Hi.
  - injection Hi as ->. rewrite decide_False by (intros Hx; by apply (R_asym _ _ Hx)).
    apply length_zero_iff_nil. clear -Ha R_asym. induction Ha as [|y l Hy _ IH]; [done|].
    rewrite filter_cons, decide_False by (by apply R_asym). done.
  - rewrite decide_True by (rewrite Forall_forall in Ha; by eapply Ha, list_elem_of_lookup_2).
    cbn. by rewrite (IH i).
Qed.

Lemma take_rank order cands k x :
  order ≡ₚ cands → StronglySorted R order → NoDup order →
  x ∈ take k order ↔ x ∈ cands ∧ length (filter (λ y, R y x) cands) < k.
Proof.
  intros Hperm Hs Hnd. rewrite elem_of_take, <- Hperm, (list_elem_of_lookup order). split.
  - intros (i & Hi & Hk). rewrite (sorted_rank order i x) by done. eauto.
  - intros [[i Hi] Hk]. exists i. split; [done|]. by rewrite <- (sorted_rank order i x Hs Hi).
Qed.
End rank.

(** ** The largest sum of [k] elements *)

Notation descending_values := (StronglySorted (λ a b, b <= a)%Q).

Lemma topk_step x l k :
  Forall (λ y, y <= x)%Q l → (0 <= x)%Q → (Qsum (take (S k) l) <= x + Qsum (take k l))%Q.
Proof.
  revert k. induction l as [|y l IH]; intros k Hl Hx.
  - rewrite !take_nil, Qsum_nil. lra.
  - apply Forall_cons in Hl as [Hy Hl]. cbn beta in Hy.
    change (take (S (S k)) (y :: l)) with (y :: take (S k) l). destruct k as [|k].
    + change (take 1 (y :: l)) with [y]. rewrite take_0, Qsum_cons, Qsum_nil. lra.
    + change (take (S (S k)) (y :: l)) with (y :: take (S k) l).
      change (take (S k) (y :: l)) with (y :: take k l). rewrite !Qsum_cons. specialize (IH k Hl Hx). lra.
Qed.

(** No sublist of at most [k] values sums to more than the first [k]. *)
Lemma topk_sublist s l k :
  s `sublist_of` l → descending_values l → Forall (λ x, 0 <= x)%Q l → length s ≤ k →
  (Qsum s <= Qsum (take k l))%Q.
Proof.
  intros Hs. revert k. induction Hs as [|x s l Hs IH|x s l Hs IH]; intros k Hl Hnn Hk.
  - rewrite take_nil. lra.
  - inversion Hl as [|? ? Hl' Hx]; subst. apply Forall_cons in Hnn as [H0 Hnn]. cbn in Hk. destruct k as [|k]; [lia|].
    cbn [take]. rewrite !Qsum_cons. specialize (IH k Hl' Hnn ltac:(lia)). lra.
  - inversion Hl as [|? ? Hl' Hx]; subst. apply Forall_cons in Hnn as [H0 Hnn]. specialize (IH k Hl' Hnn Hk).
    destruct k as [|k].
    + rewrite take_0 in IH |- *. done.
    + pose proof (topk_step x l k Hx H0). cbn [take]. rewrite Qsum_cons. lra.
Qed.

Lemma topk_submseteq s l k :
  s ⊆+ l → descending_values l → Forall (λ x, 0 <= x)%Q l → length s ≤ k → (Qsum s <= Qsum (take k l))%Q.
Proof.
  intros (s' & Hss & Hs')%submseteq_sublist_r Hl Hnn Hk. rewrite Hss.
  apply topk_sublist; [done..|]. by rewrite <- Hss.
Qed.

Lemma take_sum_mono l j k :
  Forall (λ x, 0 <= x)%Q l → j ≤ k → (Qsum (take j l) <= Qsum (take k l))%Q.
Proof.
  intros Hnn Hjk. rewrite <- (take_drop j (take k l)), take_take, Nat.min_l, Qsum_app by done.
  enough (0 <= Qsum (drop j (take k l)))%Q by lra. by apply Qsum_nonneg, Forall_drop, Forall_take.
Qed.

(** The descending order of a list of numbers is unique up to [Qeq]. *)
Lemma descending_unique l k :
  descending_values l → descending_values k → Forall (λ x, 0 <= x)%Q l → l ≡ₚ k →
  ∀ i, (Qsum (take i l) == Qsum (take i k))%Q.
Proof.
  intros Hl Hk Hnn Hlk i. assert (Hnk : Forall (λ x, 0 <= x)%Q k) by (by rewrite <- Hlk).
  apply Qle_antisym; (apply topk_submseteq; [|done..|rewrite length_take; lia]).
  - rewrite <- Hlk. apply sublist_submseteq, sublist_take.
  - rewrite Hlk. apply sublist_submseteq, sublist_take.
Qed.

(** A sorted list starts with the elements of a predicate closed under going before. *)
Lemma sorted_filter_first {A} (R : A → A → Prop) (P : A → Prop) `{!∀ x, Decision (P x)} l :
  StronglySorted R l → (∀ x y, R x y → P y → P x) → l = filter P l ++ filter (λ x, ¬ P x) l.
Proof.
  intros Hl HP. induction Hl as [|x l Hl IH Hx]; [done|]. rewrite !filter_cons. destruct (decide (P x)) as [Hp|Hp].
  - rewrite decide_False by tauto. cbn. by rewrite <- IH.
  - rewrite decide_True by done. assert (filter P l = []) as E.
    { clear IH Hl. induction Hx as [|y l Hy _ IHx]; [done|]. rewrite filter_cons, decide_False; [done|]. intros Hy'. by apply Hp, (HP x y). }
    rewrite E in IH |- *. cbn in IH |- *. by rewrite <- IH.
Qed.

(** ** An instance: insertion sort *)

Module Insertion.
Section insertion.
Context {A : Type} (leb : A → A → bool) (keys : list A).

Definition key_leb (i j : nat) : bool :=
  match keys !! i, keys !! j with Some a, Some b => leb a b | _, _ => true end.

Fixpoint insert (i : nat) (l : list nat) : list nat :=
  match l with
  | [] => [i]
  | j :: l => if key_leb i j then i :: j :: l else j :: insert i l
  end.

Definition sort : list nat := foldr insert [] (seq 0 (length keys)).

Lemma insert_perm i l : insert i l ≡ₚ i :: l.
Proof.
  induction l as [|j l IH]; cbn; [done|]. destruct (key_leb i j); [done|]. rewrite IH. apply Permutation_swap.
Qed.

Lemma sort_perm l : foldr insert [] l ≡ₚ l.
Proof. induction l as [|i l IH]; cbn; [done|]. by rewrite insert_perm, IH. Qed.

Hypothesis Hleb : total_preorder leb.

Lemma insert_sorted i l :
  i < length keys → Forall (λ j, i < j < length keys) l →
  StronglySorted (key_lex leb keys lt) l → StronglySorted (key_lex leb keys lt) (insert i l).
Proof.
  destruct Hleb as [Htot Htr]. intros Hi Hl Hs. destruct (lookup_lt_is_Some_2 keys i Hi) as [a Ha].
  induction Hs as [|j l Hs IH Hj]; cbn [insert]; [by repeat constructor|].
  apply Forall_cons in Hl as [[Hij Hjlt] Hl]. destruct (lookup_lt_is_Some_2 keys j Hjlt) as [b Hb].
  unfold key_leb. rewrite Ha, Hb. destruct (leb a b) eqn:E.
  - constructor; [by constructor|]. constructor; [by exists a, b|]. rewrite Forall_forall in Hj, Hl |- *. intros k Hk.
    destruct (Hj k Hk) as (b' & c & Hb' & Hc & Hbc & _). simplify_eq. exists a, c. split_and!; [done..|by eapply Htr|].
    intros _. by apply Hl.
  - constructor; [by apply IH|]. rewrite insert_perm. constructor; [|done].
    exists b, a. split_and!; [done..| |congruence]. destruct (Htot a b); congruence.
Qed.

Lemma sort_sorted : StronglySorted (key_lex leb keys lt) sort.
Proof.
  unfold sort. enough (∀ k s, s + k = length keys → StronglySorted (key_lex leb keys lt) (foldr insert [] (seq s k))) by (by apply H).
  induction k as [|k IH]; intros s Hs; cbn; [constructor|]. apply insert_sorted; [lia| |apply IH; lia].
  rewrite sort_perm. apply Forall_seq. lia.
Qed.
End insertion.

Definition descending (l : list Q) : list Q := (λ i, default 0%Q (l !! i)) <$> sort (λ a b, Qle_bool b a) l.

Lemma descending_order : total_preorder (λ a b, Qle_bool b a).
Proof.
  split.
  - intros a b. rewrite !Qle_bool_iff. destruct (Qlt_le_dec a b); [right|left]; lra.
  - intros a b c. rewrite !Qle_bool_iff. lra.
Qed.

Lemma descending_pos l : Forall2 (λ i x, l !! i = Some x) (sort (λ a b, Qle_bool b a) l) (descending l).
Proof.
  apply Forall2_fmap_r, Forall_Forall2_diag. unfold sort. rewrite sort_perm. apply Forall_seq. intros i [_ Hi].
  destruct (lookup_lt_is_Some_2 l i) as [x Hx]; [done|]. cbn. rewrite Hx. done.
Qed.

#[export] Instance torch_argsort : TorchArgsort := {| argsort A leb keys := sort leb keys; sort_descending := descending |}.
#[export] Instance torch_argsort_laws : TorchArgsortLaws.
Proof.
  constructor; intros; cbn.
  - apply sort_perm.
  - by apply sort_sorted.
  - eapply index_perm; [exact (sort_perm (λ a b, Qle_bool b a) l (seq 0 (length l)))|apply descending_pos].
  - eapply StronglySorted_Forall2; [apply (sort_sorted _ l descending_order)|apply descending_pos|].
    cbn. intros i j x y (a & b & Ha & Hb & Hab & _) Hx Hy. simplify_eq. by apply Qle_bool_iff.
Qed.
End Insertion.
