(* ===== verification/RaggedVerify.v ===== *)
(** * RaggedVerify: layouts of a ragged verification batch

    Models [sglang/srt/speculative/ragged_verify.py] and its kernels
    [sglang/kernels/ops/speculative/ragged_verify_kernels.py]: each request of a batch verifies
    its own number of draft tokens, the rows are packed one after the other and padded to a
    captured graph size.  [cuda] is [tensor.is_cuda], which chooses between the torch and the
    Triton version of a kernel; 32-bit tensors wrap. *)

From S2P Require Import Prelude TensorOps.
#[local] Open Scope Z_scope.

Inductive RaggedVerifyMode : Type := STATIC | CAP_ACCEPT | COMPACT.

#[export] Instance RaggedVerifyMode_eq_dec : EqDecision RaggedVerifyMode.
Proof. solve_decision. Defined.

Definition read_ragged_verify_mode (value : string) : result RaggedVerifyMode :=
  if String.eqb value "static" then Ok STATIC
  else if String.eqb value "cap-accept" then Ok CAP_ACCEPT
  else if String.eqb value "compact" then Ok COMPACT
  else Raise ValueError.

Definition py_min (x : Z) (l : list Z) : Z := foldr Z.min x l.
Definition py_max (x : Z) (l : list Z) : Z := foldr Z.max x l.

Definition round_up_grid (total : Z) (grid : list Z) : result Z :=
  match last grid with
  | None => Raise ValueError
  | Some top =>
      if top <? total then Raise ValueError
      else match grid !! py_bisect_left grid total with Some tier => Ok tier | None => Raise IndexError end
  end.

(** ** The kernels *)

Definition pad_verify_lens_to_bucket (verify_lens : list Z) (graph_num_tokens : Z) (bs padded_bs : nat)
  : result (list Z) :=
  _ ← py_assert (bs <=? padded_bs)%nat;
  let num_pad_reqs := (padded_bs - bs)%nat in
  let padded := i32 <$> verify_lens in
  let leftover := graph_num_tokens - zsum padded in
  if (0 <? num_pad_reqs)%nat then
    let base := leftover / Z.of_nat num_pad_reqs in
    let rem := leftover - base * Z.of_nat num_pad_reqs in
    let pad_block := (λ i, base + if Z.of_nat i <? rem then 1 else 0) <$> seq 0 num_pad_reqs in
    Ok (padded ++ (i32 <$> pad_block))
  else
    match last padded with
    | None => Raise IndexError
    | Some x => Ok (removelast padded ++ [i32 (x + leftover)])
    end.

(** One lane of [_padded_to_bucket_kernel], run as one program of [BLOCK] lanes; [//] of Triton
    truncates. *)
Definition padded_to_bucket_kernel (verify_lens : list Z) (bs padded_bs : nat) (graph_num_tokens : Z)
    (BLOCK idx : nat) : Z :=
  let vl i := tl_load verify_lens i (i <? bs)%nat 0 in
  let leftover := graph_num_tokens - zsum (vl <$> seq 0 BLOCK) in
  let num_pad := Z.of_nat padded_bs - Z.of_nat bs in
  let num_pad_safe := Z.max num_pad 1 in
  let base := Z.quot leftover num_pad_safe in
  let rem := leftover - base * num_pad_safe in
  let pad_len := base + (if Z.of_nat idx - Z.of_nat bs <? rem then 1 else 0) in
  let final := if (idx <? bs)%nat then vl idx else pad_len in
  i32 (final + if (num_pad =? 0) && (Z.of_nat idx =? Z.of_nat bs - 1) then leftover else 0).

Definition pad_verify_lens_to_bucket_triton (verify_lens : list Z) (graph_num_tokens : Z) (bs padded_bs : nat)
  : result (list Z) :=
  _ ← py_assert (bs <=? padded_bs)%nat;
  let BLOCK := next_power_of_2 (Nat.max padded_bs 1) in
  Ok (padded_to_bucket_kernel (i32 <$> verify_lens) bs padded_bs graph_num_tokens BLOCK <$>
      filter (λ idx, (idx < padded_bs)%nat) (seq 0 BLOCK)).

Definition PaddedToBucket (cuda : bool) (verify_lens : list Z) (graph_num_tokens : Z) (bs padded_bs : nat)
  : result (list Z) :=
  if cuda then pad_verify_lens_to_bucket_triton verify_lens graph_num_tokens bs padded_bs
  else pad_verify_lens_to_bucket verify_lens graph_num_tokens bs padded_bs.

Record QoIndptrResult : Type := mkQoIndptr {
  qo_indptr : list Z;
  qo_extend_start_loc : list Z;
}.

Definition build_qo_indptr (verify_lens : list Z) : QoIndptrResult :=
  let verify_lens := i32 <$> verify_lens in
  let qo_indptr := 0 :: (i32 <$> cumsum verify_lens) in
  mkQoIndptr qo_indptr (removelast qo_indptr).

(** [_qo_indptr_kernel]: one program, stores masked to the first [bs] lanes. *)
Definition build_qo_indptr_triton (verify_lens : list Z) : QoIndptrResult :=
  let bs := length verify_lens in
  let BLOCK := next_power_of_2 (Nat.max bs 1) in
  let vl := (λ idx, i32 (tl_load verify_lens idx (idx <? bs)%nat 0)) <$> seq 0 BLOCK in
  let incl := cumsum32 vl in
  let excl := zip_with (λ i v, i32 (i - v)) incl vl in
  mkQoIndptr (0 :: take bs incl) (take bs excl).

Definition BuildQoIndptr (cuda : bool) (verify_lens : list Z) : QoIndptrResult :=
  if cuda then build_qo_indptr_triton verify_lens else build_qo_indptr verify_lens.

(** ** [RaggedVerifyLayout] *)

Record RaggedVerifyLayout : Type := mkLayout {
  verify_lens : list Z;
  graph_num_tokens : Z;
  extend_start_loc : list Z;
  qo_indptr_device : list Z;
  verify_lens_cpu : option (list Z);
  total_verify_tokens : option Z;
  cap : option Z;
}.

Definition layout_bs (l : RaggedVerifyLayout) : nat := length (verify_lens l).

(** [__post_init__]. *)
Definition layout_post_init (l : RaggedVerifyLayout) : result RaggedVerifyLayout :=
  match verify_lens_cpu l with
  | None => Ok l
  | Some [] => Raise ValueError
  | Some (x :: lens) =>
      _ ← py_check ValueError (negb (py_min x lens <? 1));
      _ ← py_check ValueError (match cap l with Some c => negb (c <? py_max x lens) | None => true end);
      match total_verify_tokens l with
      | None => Raise ValueError
      | Some total =>
          _ ← py_check ValueError (total =? zsum (x :: lens));
          _ ← py_check ValueError (total <=? graph_num_tokens l);
          Ok l
      end
  end.

Section layout.
Context (cuda : bool).

Definition _assemble_device (lens : list Z) (graph_num_tokens : Z) (lens_cpu : option (list Z))
    (total : option Z) (cap : option Z) : result RaggedVerifyLayout :=
  let lens := i32 <$> lens in
  let indptr := BuildQoIndptr cuda lens in
  layout_post_init (mkLayout lens graph_num_tokens (qo_extend_start_loc indptr) (qo_indptr indptr) lens_cpu total cap).

(** [torch.tensor(lens_cpu, dtype=torch.int32)] rejects what does not fit. *)
Definition _assemble (lens_cpu : list Z) (total graph_num_tokens : Z) : result RaggedVerifyLayout :=
  _ ← py_check RuntimeError (forallb (λ z, i32 z =? z) lens_cpu);
  _assemble_device lens_cpu graph_num_tokens (Some lens_cpu) (Some total) None.

Definition from_verify_lens_device (lens : list Z) (graph_num_tokens : Z) : result RaggedVerifyLayout :=
  _assemble_device lens graph_num_tokens None None None.

Definition from_verify_lens (lens_cpu : list Z) (grid : list Z) (graph_num_tokens_floor : Z)
  : result RaggedVerifyLayout :=
  let total := zsum lens_cpu in
  let bucket_input := Z.max total graph_num_tokens_floor in
  graph_num_tokens ← round_up_grid bucket_input grid;
  _assemble lens_cpu total graph_num_tokens.

Definition padded_to_bucket (padded_bs : nat) (cap : option Z) (l : RaggedVerifyLayout) : result RaggedVerifyLayout :=
  padded ← PaddedToBucket cuda (verify_lens l) (graph_num_tokens l) (layout_bs l) padded_bs;
  let padded := match cap with Some c => Z.min c <$> padded | None => padded end in
  _assemble_device padded (graph_num_tokens l) None
    (match cap with Some _ => None | None => Some (graph_num_tokens l) end) cap.
End layout.

Definition build_capture_verify_lens (num_tokens num_slots num_draft_tokens : Z) : result (list Z) :=
  _ ← py_check ValueError (negb ((num_slots <? 1) || (num_tokens <? num_slots)));
  _ ← py_check ValueError (negb (num_slots * num_draft_tokens <? num_tokens));
  let base := num_tokens / num_slots in
  let rem := num_tokens - base * num_slots in
  Ok (replicate (Z.to_nat rem) (base + 1) ++ replicate (Z.to_nat (num_slots - rem)) base).

(** ** What the attention backends read *)

(** [a + b] of one-dimensional tensors, a single element broadcast. *)
Definition torch_add (a b : list Z) : result (list Z) :=
  if (length a =? length b)%nat then Ok (zip_with Z.add a b)
  else match a, b with
       | [x], _ => Ok (Z.add x <$> b)
       | _, [y] => Ok ((λ x, x + y) <$> a)
       | _, _ => Raise RuntimeError
       end.

Record RaggedTargetVerifyGeometry : Type := mkGeometry {
  cache_seqlens_int32 : list Z;
  cu_seqlens_q : list Z;
  cu_seqlens_k : list Z;
  max_seq_len_q : option Z;
}.

Definition build_ragged_target_verify_geometry (seq_lens : list Z) (l : RaggedVerifyLayout)
  : result RaggedTargetVerifyGeometry :=
  sum ← torch_add seq_lens (verify_lens l);
  let cache_seqlens_int32 := i32 <$> sum in
  let cu_seqlens_q := i32 <$> qo_indptr_device l in
  let cu_seqlens_k := 0 :: cumsum32 cache_seqlens_int32 in
  max_seq_len_q ← match verify_lens_cpu l with
                  | None => Ok None
                  | Some [] => Raise ValueError
                  | Some (x :: lens) => Ok (Some (py_max x lens))
                  end;
  Ok (mkGeometry cache_seqlens_int32 cu_seqlens_q cu_seqlens_k max_seq_len_q).

Definition compute_target_verify_graph_key (bs num_draft_tokens : Z) (ragged_layout : option RaggedVerifyLayout)
  : result (Z * Z) :=
  let num_tokens_full_block := num_draft_tokens * bs in
  match ragged_layout with
  | None => Ok (bs, num_tokens_full_block)
  | Some l =>
      let graph_num_tokens := graph_num_tokens l in
      _ ← py_assert (graph_num_tokens <=? num_tokens_full_block);
      _ ← py_assert (match total_verify_tokens l with Some total => total <=? graph_num_tokens | None => true end);
      Ok (graph_num_tokens, graph_num_tokens)
  end.

Record VerifyExtendLengths : Type := mkExtendLengths {
  seq_lens_extended : list Z;
  seq_lens_cpu_extended : list Z;
  extend_seq_lens_cpu : list Z;
  num_tokens : option Z;
  ve_extend_start_loc : option (list Z);
}.

Definition compute_uniform_extend_lengths (seq_lens seq_lens_cpu : list Z) (extend_len : Z) : VerifyExtendLengths :=
  let batch_size := length seq_lens_cpu in
  mkExtendLengths ((λ x, x + extend_len) <$> seq_lens) ((λ x, x + extend_len) <$> seq_lens_cpu)
    (replicate batch_size extend_len) (Some (extend_len * Z.of_nat batch_size)) None.

Definition compute_ragged_extend_lengths (seq_lens seq_lens_cpu : list Z) (l : RaggedVerifyLayout)
  : result VerifyExtendLengths :=
  extend_seq_lens_cpu ← match verify_lens_cpu l with Some lens => Ok lens | None => Raise TypeError end;
  seq_lens_extended ← torch_add seq_lens (verify_lens l);
  Ok (mkExtendLengths seq_lens_extended (zip_with Z.add seq_lens_cpu extend_seq_lens_cpu) extend_seq_lens_cpu
        (total_verify_tokens l) (Some (extend_start_loc l))).
