(* ===== verification/RaggedProps.v ===== *)
(** * RaggedProps: ragged layouts are well formed

    Proofs about [RaggedVerify]: the graph tier is the least one that fits, the torch and the
    Triton kernels agree (on every 32-bit value, overflow included, for the row offsets), padding
    to a captured graph keeps the place of every real token, capture layouts are balanced. *)

From S2P Require Import Prelude TensorOps StableSort RaggedVerify.
#[local] Open Scope Z_scope.

(** ** Tiers *)

Lemma py_bisect_left_spec grid total tier :
  StronglySorted Z.le grid → grid !! py_bisect_left grid total = Some tier →
  total <= tier ∧ ∀ t, t ∈ grid → total <= t → tier <= t.
Proof.
  intros Hs Hi. pose proof (leading_at _ _ _ Hi) as Hge. cbn in Hge. b2p. split; [lia|].
  intros t [j Hj]%list_elem_of_lookup Ht. destruct (Nat.lt_trichotomy j (py_bisect_left grid total)) as [H|[->|H]].
  - pose proof (leading_before _ _ _ _ H Hj) as Hlt. cbn in Hlt. b2p. lia.
  - simplify_eq; lia.
  - by eapply StronglySorted_lookup.
Qed.

Lemma round_up_grid_ok grid total top :
  StronglySorted Z.le grid → last grid = Some top → total <= top →
  ∃ tier, round_up_grid total grid = Ok tier ∧ tier ∈ grid ∧ total <= tier ∧
    ∀ t, t ∈ grid → total <= t → tier <= t.
Proof.
  intros Hs Hl Ht. unfold round_up_grid. rewrite Hl, (proj2 (Z.ltb_ge _ _)) by done.
  destruct (lookup_lt_is_Some_2 grid (py_bisect_left grid total)) as [tier Hi].
  - destruct (decide (py_bisect_left grid total < length grid)%nat) as [|Hn]; [done|exfalso].
    rewrite last_lookup in Hl. apply lookup_lt_Some in Hl as Hlen.
    assert (H : (pred (length grid) < py_bisect_left grid total)%nat) by lia.
    pose proof (leading_before _ _ _ _ H Hl) as Hlt. cbn in Hlt. b2p. lia.
  - rewrite Hi. destruct (py_bisect_left_spec grid total tier Hs Hi) as [Hge Hle].
    exists tier. split_and!; [done|by eapply list_elem_of_lookup_2|done|done].
Qed.

Lemma round_up_grid_error grid total top :
  last grid = Some top → top < total → round_up_grid total grid = Raise ValueError.
Proof. intros Hl Ht. unfold round_up_grid. by rewrite Hl, (proj2 (Z.ltb_lt _ _)). Qed.

Lemma round_up_grid_exact grid tier :
  StronglySorted Z.le grid → tier ∈ grid → round_up_grid tier grid = Ok tier.
Proof.
  intros Hs Ht. destruct (last grid) as [top|] eqn:Hl; cycle 1.
  { apply last_None in Hl as ->. by apply not_elem_of_nil in Ht. }
  assert (tier <= top).
  { apply list_elem_of_lookup in Ht as [i Hi]. rewrite last_lookup in Hl.
    destruct (decide (i = pred (length grid))) as [->|]; [naive_solver lia|].
    apply lookup_lt_Some in Hi as Hlt. eapply StronglySorted_lookup; [exact Hs| |exact Hi|exact Hl]. lia. }
  destruct (round_up_grid_ok grid tier top Hs Hl) as (t & -> & Hin & Hge & Hle); [done|].
  specialize (Hle tier Ht ltac:(lia)). f_equal. lia.
Qed.

(** ** Offsets *)

Lemma cumsum32_app acc l k : ∃ acc', cumsum32_from acc (l ++ k) = cumsum32_from acc l ++ cumsum32_from acc' k.
Proof.
  revert acc. induction l as [|x l IH]; intros acc; cbn; [by exists acc|].
  destruct (IH (i32 (acc + x))) as [acc' ->]. by exists acc'.
Qed.

Lemma length_cumsum32_from acc l : length (cumsum32_from acc l) = length l.
Proof. revert acc. induction l as [|x l IH]; intros acc; cbn; [done|]. by rewrite IH. Qed.

Lemma exclusive_cumsum32 acc l :
  int32_range acc →
  zip_with (λ i v, i32 (i - v)) (cumsum32_from acc l) l = take (length l) (acc :: cumsum32_from acc l).
Proof.
  revert acc. induction l as [|x l IH]; intros acc Hacc; [done|]. cbn [cumsum32_from zip_with length take].
  rewrite IH by apply i32_range. f_equal. rewrite i32_sub_l. replace (acc + x - x) with acc by lia. by apply i32_id.
Qed.

Lemma removelast_take {A} (x : A) l : removelast (x :: l) = take (length l) (x :: l).
Proof. rewrite removelast_firstn_len. done. Qed.

(** Both kernels compute the same offsets, for lengths that overflow as well. *)
Lemma build_qo_indptr_triton_eq verify_lens : build_qo_indptr_triton verify_lens = build_qo_indptr verify_lens.
Proof.
  unfold build_qo_indptr_triton, build_qo_indptr.
  set (bs := length verify_lens). set (BLOCK := next_power_of_2 _).
  assert (HB : (bs <= BLOCK)%nat) by (pose proof (next_power_of_2_ge (Nat.max bs 1)); unfold BLOCK; lia).
  rewrite (list_fmap_compose (λ idx, tl_load verify_lens idx (idx <? bs)%nat 0) i32), tl_load_padded by done.
  rewrite fmap_app. set (vl := i32 <$> verify_lens).
  assert (Hvl : length vl = bs) by (unfold vl; apply length_fmap).
  unfold cumsum32. destruct (cumsum32_app 0 vl (i32 <$> replicate (BLOCK - bs) 0)) as [acc' ->].
  rewrite zip_with_app by (rewrite length_cumsum32_from; done).
  rewrite !take_app_le by (rewrite ?length_zip_with, length_cumsum32_from; lia).
  rewrite exclusive_cumsum32 by (unfold int32_range; lia).
  rewrite (take_ge (cumsum32_from 0 vl)) by (rewrite length_cumsum32_from; lia).
  rewrite take_take, Hvl, Nat.min_id. fold (cumsum32 vl). rewrite cumsum32_eq.
  f_equal. rewrite removelast_take, length_fmap, length_cumsum. by rewrite Hvl.
Qed.

Lemma BuildQoIndptr_eq cuda verify_lens : BuildQoIndptr cuda verify_lens = build_qo_indptr verify_lens.
Proof. destruct cuda; [apply build_qo_indptr_triton_eq|done]. Qed.

(** ** Padding to a captured graph *)

(** The rows behind the real ones share what is left of the graph. *)
Definition pad_rows (leftover : Z) (k : nat) : list Z :=
  (λ i, leftover / Z.of_nat k + if Z.of_nat i <? leftover - leftover / Z.of_nat k * Z.of_nat k then 1 else 0) <$> seq 0 k.

Lemma pad_rows_range leftover k : 0 <= leftover → Forall (λ x, 0 <= x <= leftover) (pad_rows leftover k).
Proof.
  intros Hl. unfold pad_rows. apply Forall_fmap, Forall_seq. intros i Hi. unfold compose.
  pose proof (Z.div_mod leftover (Z.of_nat k) ltac:(lia)) as Hdm.
  pose proof (Z.mod_pos_bound leftover (Z.of_nat k) ltac:(lia)).
  pose proof (Z.div_pos leftover (Z.of_nat k) Hl ltac:(lia)).
  set (q := leftover / Z.of_nat k) in *. assert (Hq : q <= q * Z.of_nat k) by nia.
  destruct (Z.ltb_spec (Z.of_nat i) (leftover - q * Z.of_nat k)); lia.
Qed.

Lemma zsum_below (c : Z) (k : nat) (rem : Z) :
  0 <= rem <= Z.of_nat k → zsum ((λ i, c + if Z.of_nat i <? rem then 1 else 0) <$> seq 0 k) = Z.of_nat k * c + rem.
Proof.
  intros Hr. enough (H : ∀ n, zsum ((λ i, c + if Z.of_nat i <? rem then 1 else 0) <$> seq 0 n)
    = Z.of_nat n * c + Z.min rem (Z.of_nat n)) by (rewrite H; lia).
  induction n as [|n IH]; [cbn; lia|]. rewrite seq_S, fmap_app, zsum_app, IH. cbn [fmap list_fmap Nat.add].
  rewrite zsum_cons. cbn [zsum foldr]. destruct (Z.ltb_spec (Z.of_nat n) rem); lia.
Qed.

Lemma pad_rows_sum leftover k : (0 < k)%nat → zsum (pad_rows leftover k) = leftover.
Proof.
  intros Hk. unfold pad_rows. pose proof (Z.div_mod leftover (Z.of_nat k) ltac:(lia)).
  pose proof (Z.mod_pos_bound leftover (Z.of_nat k) ltac:(lia)). rewrite zsum_below by lia. lia.
Qed.

(** The padded row lengths, as a list. *)
Definition padded_rows (lens : list Z) (g : Z) (padded_bs : nat) : list Z :=
  let leftover := g - zsum lens in
  if (length lens <? padded_bs)%nat then lens ++ pad_rows leftover (padded_bs - length lens)
  else removelast lens ++ [default 0 (last lens) + leftover].

Lemma nonneg_int32 l : Forall (λ x, 0 <= x) l → zsum l < 2 ^ 31 → Forall int32_range l.
Proof.
  unfold int32_range. induction 1 as [|x l Hx Hl IH]; intros H; constructor; rewrite zsum_cons in H; cbn beta in *;
    pose proof (zsum_nonneg l Hl); [lia|]. apply IH. lia.
Qed.

Section padding.
Context (lens : list Z) (g : Z) (padded_bs : nat).
Hypothesis lens_nonneg : Forall (λ x, 0 <= x) lens.
Hypothesis lens_some : lens ≠ [].
Hypothesis lens_fit : zsum lens <= g.
Hypothesis g_int32 : g < 2 ^ 31.
Hypothesis slots_fit : (length lens <= padded_bs)%nat.

Lemma lens_int32 : Forall int32_range lens.
Proof. apply nonneg_int32; [done|lia]. Qed.

Lemma i32_map_id (l : list Z) : Forall int32_range l → i32 <$> l = l.
Proof. induction 1 as [|x l Hx _ IH]; [done|]. rewrite fmap_cons, i32_id, IH by done. done. Qed.

Lemma last_split : lens = removelast lens ++ [default 0 (last lens)].
Proof.
  destruct lens as [|x l] using rev_ind; [done|]. by rewrite removelast_last, last_snoc.
Qed.

Lemma last_range : 0 <= default 0 (last lens) ∧ default 0 (last lens) + (g - zsum lens) <= g.
Proof.
  pose proof last_split as E. pose proof lens_nonneg as H. rewrite E in H.
  apply Forall_app in H as [H1 [H2 _]%Forall_cons]. cbn beta in H2.
  assert (Es : zsum lens = zsum (removelast lens) + default 0 (last lens)).
  { rewrite E at 1. rewrite zsum_app. cbn [zsum foldr]. lia. }
  pose proof (zsum_nonneg _ H1). lia.
Qed.

Lemma pad_torch_ok :
  pad_verify_lens_to_bucket lens g (length lens) padded_bs = Ok (padded_rows lens g padded_bs).
Proof.
  unfold pad_verify_lens_to_bucket, padded_rows. rewrite py_assert_true by (by apply Nat.leb_le).
  cbn [mbind result_bind]. rewrite (i32_map_id lens lens_int32).
  pose proof (zsum_nonneg lens lens_nonneg).
  destruct (Nat.ltb_spec 0 (padded_bs - length lens)), (Nat.ltb_spec (length lens) padded_bs); try lia.
  - rewrite i32_map_id; [done|]. eapply Forall_impl; [apply (pad_rows_range (g - zsum lens)); lia|].
    unfold int32_range. cbn. lia.
  - pose proof last_range. destruct (last lens) as [x|] eqn:E; [|by apply last_None in E].
    cbn in *. rewrite i32_id by (unfold int32_range; lia). done.
Qed.

Lemma pad_kernel_lane (idx : nat) :
  (idx < padded_bs)%nat →
  padded_rows lens g padded_bs !! idx =
  Some (padded_to_bucket_kernel lens (length lens) padded_bs g (next_power_of_2 (Nat.max padded_bs 1)) idx).
Proof.
  intros Hidx. unfold padded_to_bucket_kernel, padded_rows. set (BLOCK := next_power_of_2 _).
  assert (HB : (length lens <= BLOCK)%nat) by (pose proof (next_power_of_2_ge (Nat.max padded_bs 1)); unfold BLOCK; lia).
  rewrite (tl_load_padded lens 0 (length lens) BLOCK eq_refl HB), zsum_app, zsum_replicate, Z.mul_0_r, Z.add_0_r.
  set (leftover := g - zsum lens). pose proof (zsum_nonneg lens lens_nonneg). pose proof lens_int32 as Hi32.
  destruct (Nat.ltb_spec (length lens) padded_bs) as [Hlt|Hge].
  - rewrite Z.max_l by lia. rewrite (Z.quot_div_nonneg leftover) by lia.
    rewrite (proj2 (Z.eqb_neq (Z.of_nat padded_bs - _) 0)) by lia. cbn [andb]. rewrite Z.add_0_r.
    destruct (Nat.ltb_spec idx (length lens)) as [Hi|Hi].
    + rewrite lookup_app_l by done. destruct (lookup_lt_is_Some_2 lens idx Hi) as [x Hx]. rewrite Hx.
      unfold tl_load. rewrite Hx. rewrite Forall_lookup in Hi32. by rewrite i32_id by (by eapply Hi32).
    + rewrite lookup_app_r by done. pose proof (pad_rows_range leftover (padded_bs - length lens) ltac:(lia)) as Hr.
      rewrite Forall_lookup in Hr. unfold pad_rows in Hr |- *.
      specialize (Hr (idx - length lens)%nat). rewrite list_lookup_fmap, lookup_seq_lt in Hr |- * by lia.
      cbn [fmap option_fmap option_map Nat.add] in Hr |- *. specialize (Hr _ eq_refl). f_equal.
      rewrite Nat2Z.inj_sub in Hr |- * by lia. rewrite Nat2Z.inj_sub in Hr |- * by lia.
      rewrite i32_id by (unfold int32_range; lia). done.
  - assert (E : padded_bs = length lens) by lia. rewrite E, Z.sub_diag, Z.eqb_refl. cbn [andb].
    rewrite (proj2 (Nat.ltb_lt idx (length lens))) by lia. pose proof last_range as [H0 H1]. fold leftover in H1.
    assert (El : (length (removelast lens) = length lens - 1)%nat) by (rewrite removelast_firstn_len, length_take; lia).
    destruct (Z.eqb_spec (Z.of_nat idx) (Z.of_nat (length lens) - 1)) as [Hz|Hz].
    + assert (Ei : (idx = length (removelast lens))%nat) by lia. rewrite Ei, list_lookup_middle by done.
      assert (Hx : lens !! length (removelast lens) = Some (default 0 (last lens))).
      { rewrite El. destruct (last lens) as [x|] eqn:Ex; [|by apply last_None in Ex].
        rewrite last_lookup in Ex. cbn. rewrite <- Ex. f_equal. lia. }
      set (x := default 0 (last lens)) in *. unfold tl_load. rewrite Hx. cbn [default from_option id].
      by rewrite i32_id by (unfold int32_range; lia).
    + rewrite lookup_app_l by lia. rewrite removelast_firstn_len, lookup_take_lt by lia.
      destruct (lookup_lt_is_Some_2 lens idx ltac:(lia)) as [x Hx]. rewrite Hx. unfold tl_load. rewrite Hx.
      cbn [default from_option id]. rewrite Z.add_0_r. rewrite Forall_lookup in Hi32. by rewrite i32_id by (by eapply Hi32).
Qed.
Lemma length_padded_rows : length (padded_rows lens g padded_bs) = padded_bs.
Proof.
  unfold padded_rows. destruct (Nat.ltb_spec (length lens) padded_bs).
  - unfold pad_rows. rewrite length_app, length_fmap, length_seq. lia.
  - rewrite length_app, removelast_firstn_len, length_take. cbn [length].
    destruct lens; [done|cbn [length] in *; lia].
Qed.

Lemma PaddedToBucket_ok (cuda : bool) :
  PaddedToBucket cuda lens g (length lens) padded_bs = Ok (padded_rows lens g padded_bs).
Proof.
  destruct cuda; [|exact pad_torch_ok]. cbn [PaddedToBucket]. unfold pad_verify_lens_to_bucket_triton.
  rewrite py_assert_true by (by apply Nat.leb_le). cbn [mbind result_bind]. rewrite (i32_map_id lens lens_int32).
  f_equal. rewrite filter_lt_seq, Nat.sub_0_r, Nat.min_r by (pose proof (next_power_of_2_ge (Nat.max padded_bs 1)); lia).
  apply list_eq. intros i. rewrite list_lookup_fmap. destruct (decide (i < padded_bs)%nat) as [Hi|Hi].
  - rewrite lookup_seq_lt by done. by rewrite pad_kernel_lane.
  - rewrite lookup_seq_ge by lia. symmetry. apply lookup_ge_None. rewrite length_padded_rows. lia.
Qed.

Lemma padded_rows_nonneg : Forall (λ x, 0 <= x) (padded_rows lens g padded_bs).
Proof.
  unfold padded_rows. destruct (Nat.ltb_spec (length lens) padded_bs).
  - apply Forall_app. split; [done|]. eapply Forall_impl; [apply pad_rows_range; lia|]. cbn. lia.
  - apply Forall_app. split; [|repeat constructor; pose proof last_range; lia].
    rewrite removelast_firstn_len. by apply Forall_take.
Qed.

Lemma padded_rows_sum : zsum (padded_rows lens g padded_bs) = g.
Proof.
  unfold padded_rows. destruct (Nat.ltb_spec (length lens) padded_bs).
  - rewrite zsum_app, pad_rows_sum by lia. lia.
  - rewrite zsum_app. cbn [zsum foldr]. fold (zsum (removelast lens)).
    enough (zsum lens = zsum (removelast lens) + default 0 (last lens)) by lia.
    rewrite last_split at 1. rewrite zsum_app. cbn [zsum foldr]. lia.
Qed.

(** Real rows keep their place; only the last one can grow, when no slot is free. *)
Lemma padded_rows_take i : (i < length lens)%nat → take i (padded_rows lens g padded_bs) = take i lens.
Proof.
  intros Hi. unfold padded_rows. destruct (Nat.ltb_spec (length lens) padded_bs).
  - by rewrite take_app_le by lia.
  - rewrite removelast_firstn_len, take_app_le by (rewrite length_take; lia). by rewrite take_take, Nat.min_l by lia.
Qed.

Lemma padded_rows_lookup i x :
  lens !! i = Some x → ∃ y, padded_rows lens g padded_bs !! i = Some y ∧ x <= y ∧
    ((length lens < padded_bs ∨ S i < length lens)%nat → y = x).
Proof.
  intros Hi. pose proof (lookup_lt_Some _ _ _ Hi) as Hlt. unfold padded_rows. destruct (Nat.ltb_spec (length lens) padded_bs).
  - exists x. rewrite lookup_app_l by done. done.
  - assert (El : (length (removelast lens) = length lens - 1)%nat) by (rewrite removelast_firstn_len, length_take; lia).
    destruct (decide (S i < length lens)%nat).
    + exists x. rewrite lookup_app_l, removelast_firstn_len, lookup_take_lt by lia. done.
    + assert (Ei : (i = length (removelast lens))%nat) by lia.
      exists (default 0 (last lens) + (g - zsum lens)). split; [rewrite Ei; by apply list_lookup_middle|].
      rewrite last_lookup. replace (pred (length lens)) with i by lia. rewrite Hi. cbn [default from_option id]. lia.
Qed.
End padding.

(** ** Well-formed layouts *)

Record layout_ok (l : RaggedVerifyLayout) : Prop := {
  lok_rows : Forall (λ x, 0 <= x) (verify_lens l);
  lok_fit : zsum (verify_lens l) <= graph_num_tokens l;
  lok_graph : graph_num_tokens l < 2 ^ 31;
  lok_starts : extend_start_loc l = (λ i, zsum (take i (verify_lens l))) <$> seq 0 (layout_bs l);
  lok_indptr : qo_indptr_device l = (λ i, zsum (take i (verify_lens l))) <$> seq 0 (S (layout_bs l));
}.

Lemma cumsum_starts l : 0 :: cumsum l = (λ i, zsum (take i l)) <$> seq 0 (S (length l)).
Proof.
  apply list_eq. intros [|i]; [done|]. rewrite list_lookup_fmap. cbn [lookup list_lookup].
  change (list_lookup i (cumsum l)) with (cumsum l !! i). destruct (decide (i < length l)%nat).
  - rewrite lookup_cumsum, lookup_seq_lt by lia. done.
  - rewrite (lookup_seq_ge 0) by lia. apply lookup_ge_None. rewrite length_cumsum. lia.
Qed.

Lemma cumsum_int32 l : Forall (λ x, 0 <= x) l → zsum l < 2 ^ 31 → i32 <$> cumsum l = cumsum l.
Proof.
  intros Hl Hs. apply i32_map_id. apply Forall_lookup. intros i x Hi.
  pose proof (lookup_lt_Some _ _ _ Hi) as Hlt. rewrite length_cumsum in Hlt. rewrite lookup_cumsum in Hi by done. simplify_eq.
  pose proof (zsum_nonneg (take (S i) l) (Forall_take _ _ _ Hl)). pose proof (zsum_take_all l (S i) Hl).
  unfold int32_range. lia.
Qed.

Lemma assemble_device_ok cuda lens g lens_cpu total c :
  Forall (λ x, 0 <= x) lens → zsum lens <= g → g < 2 ^ 31 →
  (∀ l, verify_lens_cpu l = lens_cpu → total_verify_tokens l = total → cap l = c → graph_num_tokens l = g → layout_post_init l = Ok l) →
  ∃ l, _assemble_device cuda lens g lens_cpu total c = Ok l ∧ layout_ok l ∧ verify_lens l = lens ∧
    graph_num_tokens l = g ∧ verify_lens_cpu l = lens_cpu ∧ total_verify_tokens l = total ∧ cap l = c.
Proof.
  intros Hl Hfit Hg Hinit. unfold _assemble_device. rewrite (i32_map_id lens) by (apply nonneg_int32; [done|lia]).
  rewrite BuildQoIndptr_eq. unfold build_qo_indptr. rewrite (i32_map_id lens) by (apply nonneg_int32; [done|lia]).
  rewrite (cumsum_int32 lens) by (done || lia). cbn [qo_indptr qo_extend_start_loc].
  rewrite cumsum_starts. rewrite Hinit by done. eexists. split; [done|].
  split; [|done]. constructor; [done..| |done]. cbn [extend_start_loc verify_lens layout_bs].
  unfold layout_bs. cbn [verify_lens]. rewrite seq_S, fmap_app. cbn [fmap list_fmap]. apply removelast_last.
Qed.

Lemma from_verify_lens_device_ok cuda lens g :
  Forall (λ x, 0 <= x) lens → zsum lens <= g → g < 2 ^ 31 →
  ∃ l, from_verify_lens_device cuda lens g = Ok l ∧ layout_ok l ∧ verify_lens l = lens ∧ graph_num_tokens l = g ∧ cap l = None.
Proof.
  intros Hl Hfit Hg. destruct (assemble_device_ok cuda lens g None None None Hl Hfit Hg) as (l & E & Hok & H1 & H2 & _ & _ & H3).
  { intros l Hc _ _ _. unfold layout_post_init. by rewrite Hc. }
  exists l. done.
Qed.

Lemma py_min_lower (c x : Z) l : c <= x → Forall (λ y, c <= y) l → c <= py_min x l.
Proof. intros Hx. induction 1 as [|y l Hy _ IH]; cbn; [done|]. fold (py_min x l). lia. Qed.

Lemma py_max_upper (c x : Z) l : x <= c → Forall (λ y, y <= c) l → py_max x l <= c.
Proof. intros Hx. induction 1 as [|y l Hy _ IH]; cbn; [done|]. fold (py_max x l). lia. Qed.

Lemma from_verify_lens_ok cuda lens grid floor g :
  lens ≠ [] → Forall (λ x, 1 <= x) lens → round_up_grid (Z.max (zsum lens) floor) grid = Ok g →
  zsum lens <= g → g < 2 ^ 31 →
  ∃ l, from_verify_lens cuda lens grid floor = Ok l ∧ layout_ok l ∧ verify_lens l = lens ∧ graph_num_tokens l = g ∧ cap l = None.
Proof.
  intros Hne Hl Hr Hfit Hg. unfold from_verify_lens. rewrite Hr. cbn [mbind result_bind]. unfold _assemble.
  assert (Hnn : Forall (λ x, 0 <= x) lens) by forall_impl Hl.
  pose proof (nonneg_int32 lens Hnn ltac:(lia)) as Hi32. rewrite py_check_true; cycle 1.
  { apply forallb_forall. intros z Hz%list_elem_of_In. rewrite Forall_forall in Hi32. rewrite i32_id by (by apply Hi32). apply Z.eqb_refl. }
  cbn [mbind result_bind].
  destruct (assemble_device_ok cuda lens g (Some lens) (Some (zsum lens)) None Hnn Hfit Hg) as (l & E & Hok & H1 & H2 & _ & _ & H3).
  { intros l Hc Ht Hcap Hgr. unfold layout_post_init. rewrite Hc, Ht, Hcap, Hgr.
    destruct lens as [|x lens']; [done|]. apply Forall_cons in Hl as [Hx Hl].
    rewrite (proj2 (Z.ltb_ge (py_min x lens') 1)) by (by apply py_min_lower).
    rewrite Z.eqb_refl, (proj2 (Z.leb_le _ _)) by done. done. }
  exists l. done.
Qed.

Lemma zsum_min_le c l : zsum (Z.min c <$> l) <= zsum l.
Proof. induction l as [|x l IH]; [done|]. rewrite fmap_cons, !zsum_cons. apply Z.add_le_mono; [apply Z.le_min_r|done]. Qed.

Lemma map_min_id c l : Forall (λ x, x <= c) l → Z.min c <$> l = l.
Proof. induction 1 as [|y l Hy _ IH]; [done|]. rewrite fmap_cons, IH. f_equal. lia. Qed.

(** Padding a layout to the slots of a captured graph keeps every real token where it was, on the
    host and on the GPU: each real row starts at the same offset and is at least as long, exactly
    as long if a slot is free or it is not the last one; without a cap the rows cover the graph
    exactly, with one no row exceeds it. *)
Lemma padded_to_bucket_places (cuda : bool) (l : RaggedVerifyLayout) (padded_bs : nat) (c : option Z) :
  layout_ok l → verify_lens l ≠ [] → (layout_bs l <= padded_bs)%nat →
  (∀ cap, c = Some cap → 0 <= cap ∧ Forall (λ x, x <= cap) (verify_lens l)) →
  ∃ l', padded_to_bucket cuda padded_bs c l = Ok l' ∧ layout_ok l' ∧ layout_bs l' = padded_bs ∧
    graph_num_tokens l' = graph_num_tokens l ∧
    (∀ i x, verify_lens l !! i = Some x →
       extend_start_loc l' !! i = extend_start_loc l !! i ∧
       ∃ y, verify_lens l' !! i = Some y ∧ x <= y ∧ ((layout_bs l < padded_bs ∨ S i < layout_bs l)%nat → y = x)) ∧
    (c = None → zsum (verify_lens l') = graph_num_tokens l') ∧
    (∀ cap, c = Some cap → Forall (λ y, y <= cap) (verify_lens l')).
Proof.
  intros [Hrows Hfit Hg Hst _] Hne Hbs Hcap. unfold padded_to_bucket. unfold layout_bs at 1.
  rewrite PaddedToBucket_ok by done. cbn [mbind result_bind].
  set (g := graph_num_tokens l) in *. set (lens := verify_lens l) in *.
  set (rows := padded_rows lens g padded_bs).
  set (rows' := match c with Some cap => Z.min cap <$> rows | None => rows end).
  assert (Hlen : length rows' = padded_bs) by (unfold rows'; destruct c; rewrite ?length_fmap; by apply length_padded_rows).
  assert (Hnn : Forall (λ x, 0 <= x) rows).
  { by apply padded_rows_nonneg. }
  assert (Hnn' : Forall (λ x, 0 <= x) rows').
  { unfold rows'. destruct c as [cap|]; [|done]. apply Forall_fmap. destruct (Hcap cap eq_refl) as [Hc0 _].
    forall_impl Hnn. unfold compose. lia. }
  assert (Hsum : zsum rows' <= zsum rows).
  { unfold rows'. destruct c as [cap|]; [apply zsum_min_le|done]. }
  assert (Hg' : zsum rows = g) by (by apply padded_rows_sum).
  destruct (assemble_device_ok cuda rows' g None (match c with Some _ => None | None => Some g end) c Hnn' ltac:(lia) Hg)
    as (l' & E & Hok & Hv & Hgr & _).
  { intros l' Hc _ _ _. unfold layout_post_init. by rewrite Hc. }
  exists l'. split; [exact E|]. split; [exact Hok|]. split; [by unfold layout_bs; rewrite Hv|]. split; [done|].
  destruct Hok as [_ _ _ Hst' _]. split; [|split].
  - intros i x Hi. pose proof (lookup_lt_Some _ _ _ Hi) as Hlt. rewrite Hst, Hst', !list_lookup_fmap.
    unfold layout_bs. rewrite Hv, Hlen. fold lens. rewrite !lookup_seq_lt by (unfold layout_bs in Hbs; fold lens in Hbs; lia).
    cbn [fmap option_fmap option_map Nat.add]. split.
    + assert (Ht : take i rows = take i lens) by (by apply padded_rows_take).
      do 2 f_equal. unfold rows'. destruct c as [cap|]; [|done]. destruct (Hcap cap eq_refl) as [_ Hle].
      rewrite <- fmap_take, Ht. by apply map_min_id, Forall_take.
    + destruct (padded_rows_lookup lens g padded_bs Hfit Hbs i x Hi) as (y & Hy & Hxy & Heq). fold rows in Hy.
      unfold rows'. destruct c as [cap|]; [|by exists y]. destruct (Hcap cap eq_refl) as [_ Hle].
      rewrite Forall_lookup in Hle. specialize (Hle _ _ Hi). cbn beta in Hle. exists (Z.min cap y).
      rewrite list_lookup_fmap, Hy. split; [done|]. split; [lia|]. intros H. rewrite (Heq H). lia.
  - intros ->. by rewrite Hv, Hgr.
  - intros cap ->. rewrite Hv. unfold rows'. apply Forall_fmap, Forall_true. intros y. unfold compose. lia.
Qed.

(** Two requests of 3 and 1 tokens in a graph of 8 tokens and 4 slots, no row above 4. *)
Definition tiny_layout : RaggedVerifyLayout := mkLayout [3; 1] 8 [0; 3] [0; 3; 4] None None None.

Lemma tiny_layout_ok : layout_ok tiny_layout.
Proof. constructor; try reflexivity; repeat constructor; cbn; lia. Qed.

Example tiny_layout_padded :
  padded_to_bucket true 4 (Some 4) tiny_layout = Ok (mkLayout [3; 1; 2; 2] 8 [0; 3; 4; 6] [0; 3; 4; 6; 8] None None (Some 4)).
Proof. reflexivity. Qed.

(** ** Capture layouts *)

Lemma build_capture_verify_lens_ok n slots draft :
  1 <= slots <= n → n <= slots * draft →
  ∃ lens, build_capture_verify_lens n slots draft = Ok lens ∧ Z.of_nat (length lens) = slots ∧
    zsum lens = n ∧ Forall (λ x, 1 <= x <= draft ∧ n / slots <= x <= n / slots + 1) lens.
Proof.
  intros Hs Hd. unfold build_capture_verify_lens.
  rewrite (proj2 (Z.ltb_ge slots 1)), (proj2 (Z.ltb_ge n slots)), (proj2 (Z.ltb_ge (slots * draft) n)) by lia.
  cbn [orb negb py_check mbind result_bind]. eexists. split; [done|].
  pose proof (Z.div_mod n slots ltac:(lia)) as Hdm. pose proof (Z.mod_pos_bound n slots ltac:(lia)).
  set (base := n / slots) in *. assert (1 <= base) by nia. assert (Hr : n - base * slots = n mod slots) by lia.
  rewrite length_app, !length_replicate, zsum_app, !zsum_replicate. split; [lia|]. split; [rewrite !Z2Nat.id by lia; nia|].
  apply Forall_app. split.
  - destruct (Z.to_nat (n - base * slots)) as [|k] eqn:E; [constructor|].
    assert (0 < n mod slots) by lia. assert (base + 1 <= draft) by nia. apply Forall_replicate. lia.
  - apply Forall_replicate. assert (base <= draft) by nia. lia.
Qed.
