(* ===== verification/DSparkSchedule.v ===== *)
(** * DSparkSchedule: per-request verify lengths from a token budget

    Models [sglang/kernels/ops/speculative/dspark/dspark_schedule.py] and [DSparkScheduleConfig]
    of [S/speculative/dspark_components/dspark_planner.py].  A request's survival probabilities
    are the cumulative products of its confidences; the [budget] most likely draft tokens of the
    batch are verified.  The torch version sorts, the Triton version counts ranks. *)

From S2P Require Import Prelude Sampling TensorOps StableSort.
#[local] Open Scope Z_scope.

(** ** [DSparkScheduleConfig] *)

Record DSparkScheduleConfig : Type := mkScheduleConfig {
  gamma : Z;
  min_verify_len : Z;
  max_verify_len : Z;
  survival_eps : Q;
}.

(** The defaults of the struct. *)
Definition default_schedule_config (gamma : Z) : DSparkScheduleConfig := mkScheduleConfig gamma 1 0 (1 # 1000000).

Definition resolved_max_verify_len (cfg : DSparkScheduleConfig) : Z :=
  if max_verify_len cfg =? 0 then gamma cfg + 1 else max_verify_len cfg.

Definition validate (cfg : DSparkScheduleConfig) : result unit :=
  let max_len := resolved_max_verify_len cfg in
  _ ← py_check ValueError (negb (gamma cfg <? 1));
  _ ← py_check ValueError ((0 <=? min_verify_len cfg) && (min_verify_len cfg <=? max_len) && (max_len <=? gamma cfg + 1));
  py_check ValueError (negb (Qltb (survival_eps cfg) 0)).

(** [row[:n]] with Python's meaning of a negative [n]. *)
Definition row_prefix {A} (n : Z) (row : list A) : list A :=
  take (Z.to_nat (if n <? 0 then Z.max 0 (Z.of_nat (length row) + n) else n)) row.

Definition compute_sort_survival (confidence : list (list Q)) : list (list Q) := Qcumprod 1 <$> confidence.

(** ** Floats with infinities, as the sort compares them *)

Inductive xfloat : Type := NegInf | Fin (q : Q) | PosInf.

Definition xneg (x : xfloat) : xfloat :=
  match x with NegInf => PosInf | Fin q => Fin (- q) | PosInf => NegInf end.
Definition xleb (x y : xfloat) : bool :=
  match x, y with
  | NegInf, _ | _, PosInf => true
  | Fin a, Fin b => Qle_bool a b
  | _, _ => false
  end.
Definition xltb (x y : xfloat) : bool := negb (xleb y x).
Definition xeqb (x y : xfloat) : bool := xleb x y && xleb y x.

(** ** The torch version *)

(** [selected_extra.scatter_add_(0, index, src)]. *)
Fixpoint scatter_add_into (t : list Z) (index : list nat) (src : list Z) : result (list Z) :=
  match index, src with
  | i :: index, x :: src =>
      match t !! i with
      | Some y => scatter_add_into (<[i := y + x]> t) index src
      | None => Raise RuntimeError
      end
  | _, _ => Ok t
  end.

Section torch.
Context `{TorchArgsort}.

Definition _value_independent_descending_order (probs : list Q) (positions requests : list nat) (valid : list bool)
  : result (list nat) :=
  let masked_prob := zip_with (λ (v : bool) p, if v then Fin p else NegInf) valid probs in
  let num_candidates := length masked_prob in
  let order := seq 0 num_candidates in
  order ← stable_resort Nat.leb requests order;
  order ← stable_resort Nat.leb positions order;
  stable_resort xleb (xneg <$> masked_prob) order.

Definition topk_selected_extra (survival_probs : list (list Q)) (budget : Z) (cfg : DSparkScheduleConfig)
  : result (list Z) :=
  let num_requests := length survival_probs in
  let selected_extra := replicate num_requests 0 in
  if 0 <? budget then
    let candidate_window := row_prefix (resolved_max_verify_len cfg) <$> survival_probs in
    let flat_prob := concat candidate_window in
    let num_candidates := length flat_prob in
    if (0 <? num_candidates)%nat then
      let flat_request := concat (imap (λ r row, replicate (length row) r) candidate_window) in
      let flat_position := concat ((λ row : list Q, seq 0 (length row)) <$> candidate_window) in
      let flat_valid := (λ p, Qle_bool (survival_eps cfg) p) <$> flat_prob in
      order ← _value_independent_descending_order flat_prob flat_position flat_request flat_valid;
      let take_n := Z.min budget (Z.of_nat num_candidates) in
      let chosen := take (Z.to_nat take_n) order in
      chosen_requests ← torch_index flat_request chosen;
      chosen_valid ← torch_index flat_valid chosen;
      scatter_add_into selected_extra chosen_requests ((λ v : bool, if v then 1 else 0) <$> chosen_valid)
    else Ok selected_extra
  else Ok selected_extra.

(** [torch.clamp(x, min=lo, max=hi)]: the upper bound wins. *)
Definition torch_clamp (lo hi x : Z) : Z := Z.min hi (Z.max lo x).

Definition schedule_verify_lens_topk_from_survival (survival_probs : list (list Q)) (budget : Z) (cfg : DSparkScheduleConfig)
  : result (list Z) :=
  selected_extra ← topk_selected_extra survival_probs budget cfg;
  let verify_lens : list Z := (λ extra, min_verify_len cfg + extra) <$> selected_extra in
  let lower_bound := Z.max (min_verify_len cfg) 1 in
  let verify_lens : list Z := torch_clamp lower_bound (resolved_max_verify_len cfg) <$> verify_lens in
  Ok (i32 <$> verify_lens).

Definition schedule_verify_lens_topk (confidence : list (list Q)) (budget : Z) (cfg : DSparkScheduleConfig)
  : result (list Z) :=
  schedule_verify_lens_topk_from_survival (compute_sort_survival confidence) budget cfg.
End torch.

(** ** The Triton version *)

(** [_schedule_topk_prep_kernel]: the row of [survival] one program stores. *)
Definition schedule_topk_prep_kernel (gamma cols : nat) (row : list Q) : list Q :=
  let G_P2 := next_power_of_2 (Nat.max gamma 1) in
  let conf := (λ g, tl_load row g (g <? gamma)%nat 1%Q) <$> seq 0 G_P2 in
  let surv := Qcumprod 1 conf in
  take cols surv.

(** The masked probability of a candidate and the order of the candidates. *)
Definition masked_candidate (survival : list Q) (survival_eps : Q) (c : nat) (cmask : bool) : xfloat :=
  let sp := tl_load survival c cmask 0%Q in
  if Qle_bool survival_eps sp then Fin sp else NegInf.

Definition candidate_before (survival : list Q) (survival_eps : Q) (cols n cp c : nat) : bool :=
  let mp := masked_candidate survival survival_eps c (c <? n)%nat in
  let mpp := masked_candidate survival survival_eps cp (cp <? n)%nat in
  let gt := xltb mp mpp in
  let eq := xeqb mpp mp in
  let pos_lt := (cp mod cols <? c mod cols)%nat in
  let pos_eq := (cp mod cols =? c mod cols)%nat in
  let req_lt := (cp / cols <? c / cols)%nat in
  (gt || eq && (pos_lt || pos_eq && req_lt)) && (cp <? n)%nat.

(** The lane of candidate [c] in [_schedule_topk_selected_extra_kernel]: what it adds to its
    request's counter; the inner loop walks the candidates in blocks of [BLOCK_CP]. *)
Definition selected_extra_lane (survival : list Q) (survival_eps : Q) (budget : Z) (cols n BLOCK_CP c : nat) : Z :=
  let valid_c := Qle_bool survival_eps (tl_load survival c (c <? n)%nat 0%Q) in
  let rank := zsum (tl_launch n BLOCK_CP (λ cp, if candidate_before survival survival_eps cols n cp c then 1 else 0)) in
  if valid_c && (rank <? budget) then 1 else 0.

(** [landed] is the order in which the atomic additions of the lanes arrive. *)
Definition topk_selected_extra_triton (landed : list nat) (survival : list Q) (num_requests : nat) (cols : nat) (budget : Z)
    (survival_eps : Q) : result (list Z) :=
  let n := (num_requests * cols)%nat in
  let selected_extra := replicate num_requests 0 in
  if (0 <? budget) && (0 <? n)%nat then
    scatter_add_into selected_extra ((λ c, c / cols)%nat <$> landed)
      (selected_extra_lane survival survival_eps budget cols n 256 <$> landed)
  else Ok selected_extra.

Definition schedule_topk_finalize_kernel (selected_extra : list Z) (min_verify_len lower_bound max_len : Z) (offs : nat) : Z :=
  let lens := min_verify_len + i32 (tl_load selected_extra offs true 0) in
  Z.min (Z.max lens lower_bound) max_len.

(** [confidence.shape] is [num_requests] by [gamma_dim]. *)
Definition schedule_verify_lens_topk_triton (landed : list nat) (gamma_dim : nat) (confidence : list (list Q)) (budget : Z)
    (cfg : DSparkScheduleConfig) : result (list Z) :=
  let num_requests := length confidence in
  let max_len := resolved_max_verify_len cfg in
  let cols := Z.to_nat (Z.min max_len (Z.of_nat gamma_dim)) in
  let survival := concat (schedule_topk_prep_kernel gamma_dim cols <$> confidence) in
  selected_extra ← topk_selected_extra_triton landed survival num_requests cols budget (survival_eps cfg);
  Ok (tl_launch num_requests 256
        (schedule_topk_finalize_kernel selected_extra (min_verify_len cfg) (Z.max (min_verify_len cfg) 1) max_len)).

(** [ScheduleVerifyLensTopk.execute]. *)
Definition ScheduleVerifyLensTopk `{TorchArgsort} (cuda : bool) (landed : list nat) (gamma_dim : nat)
    (confidence : list (list Q)) (budget : Z) (cfg : DSparkScheduleConfig) : result (list Z) :=
  if cuda then schedule_verify_lens_topk_triton landed gamma_dim confidence budget cfg
  else schedule_verify_lens_topk confidence budget cfg.
