(* ===== verification/DSparkTopk.v ===== *)
(** * DSparkTopk: the two top-k kernels select the same draft tokens

    Proofs about [DSparkSchedule]: sorting three times stably orders the candidates by
    probability, then position, then request; the position of a candidate in that order is the
    rank the Triton kernel counts; so both versions compute the same verify lengths, in whatever
    order the atomic additions land. *)

From S2P Require Import Prelude Sampling TensorOps StableSort DSparkSchedule.
#[local] Open Scope Z_scope.

(** ** Comparing floats *)

Lemma xleb_refl x : xleb x x = true.
Proof. destruct x; cbn; [done| |done]. apply Qle_bool_iff. lra. Qed.

Lemma xleb_preorder : total_preorder xleb.
Proof.
  split.
  - intros [|a|] [|b|]; cbn; auto. rewrite !Qle_bool_iff. destruct (Qlt_le_dec a b); [left|right]; lra.
  - intros [|a|] [|b|] [|c|]; cbn; try done. rewrite !Qle_bool_iff. lra.
Qed.

Lemma xleb_neg x y : xleb (xneg x) (xneg y) = xleb y x.
Proof.
  destruct x as [|a|], y as [|b|]; cbn; try done. apply eq_true_iff_eq. rewrite !Qle_bool_iff. lra.
Qed.

Lemma xltb_irrefl x : xltb x x = false.
Proof. unfold xltb. by rewrite xleb_refl. Qed.

Lemma nat_preorder : total_preorder Nat.leb.
Proof. split; intros *; rewrite !Nat.leb_le; lia. Qed.

(** ** Counters *)

Lemma scatter_add_into_ok t index src :
  length index = length src → Forall (λ i, (i < length t)%nat) index →
  scatter_add_into t index src =
  Ok (imap (λ r y, y + zsum (zip_with (λ i x, if decide (i = r) then x else 0) index src)) t).
Proof.
  intros Hlen. revert t src Hlen. induction index as [|i index IH]; intros t [|x src] Hlen Hlt; try done.
  - cbn. f_equal. apply list_eq. intros r. rewrite list_lookup_imap. destruct (t !! r); cbn; f_equal. lia.
  - cbn [scatter_add_into zip_with]. apply Forall_cons in Hlt as [Hi Hlt].
    destruct (lookup_lt_is_Some_2 t i Hi) as [y Hy]. rewrite Hy. rewrite IH; cycle 1.
    { by injection Hlen. }
    { by rewrite length_insert. }
    f_equal. apply list_eq. intros r. rewrite !list_lookup_imap. destruct (decide (i = r)) as [->|Hne].
    + rewrite list_lookup_insert_eq, Hy by done. cbn [fmap option_fmap option_map]. rewrite zsum_cons. f_equal. lia.
    + rewrite list_lookup_insert_ne by done. destruct (t !! r); cbn [fmap option_fmap option_map]; [|done]. rewrite zsum_cons. f_equal; lia.
Qed.

Lemma zip_with_fmap_same {A B C D} (f : B → C → D) (g : A → B) (h : A → C) l :
  zip_with f (g <$> l) (h <$> l) = (λ x, f (g x) (h x)) <$> l.
Proof. induction l as [|x l IH]; [done|]. cbn. by rewrite IH. Qed.

(** ** The candidates of a window *)

Section candidates.
Context (W : list (list Q)) (eps : Q) (cols : nat).
Hypothesis cols_pos : (0 < cols)%nat.
Hypothesis W_uniform : Forall (λ row, length row = cols) W.

Definition candidates : nat := (length W * cols)%nat.
Definition flat : list Q := concat W.
Definition before (i j : nat) : Prop := candidate_before flat eps cols candidates i j = true.

#[local] Instance before_dec i j : Decision (before i j) := decide (candidate_before flat eps cols candidates i j = true).

(** Number of candidates that go before [c]. *)
Definition rank (c : nat) : nat := length (filter (λ cp, before cp c) (seq 0 candidates)).

Definition prob_at (c : nat) : Q := default 0%Q (flat !! c).
Definition valid_at (c : nat) : bool := Qle_bool eps (prob_at c).

Lemma length_flat : length flat = candidates.
Proof. by apply length_concat_uniform. Qed.

Lemma flat_lookup c : (c < candidates)%nat → flat !! c = Some (prob_at c).
Proof. intros Hc. unfold prob_at. destruct (lookup_lt_is_Some_2 flat c) as [x Hx]; [by rewrite length_flat|]. by rewrite Hx. Qed.

Lemma requests_lookup c :
  (c < candidates)%nat → concat (imap (λ r row, replicate (length row) r) W) !! c = Some (c / cols)%nat.
Proof.
  intros Hc. assert (Hr : (c / cols < length W)%nat) by (apply Nat.Div0.div_lt_upper_bound; unfold candidates in Hc; lia).
  rewrite (lookup_concat_uniform cols); [|done|].
  - rewrite list_lookup_imap. destruct (lookup_lt_is_Some_2 W _ Hr) as [row Hrow]. rewrite Hrow. cbn.
    rewrite Forall_lookup in W_uniform. rewrite (W_uniform _ _ Hrow).
    apply lookup_replicate_2. apply Nat.mod_upper_bound. lia.
  - apply Forall_lookup. intros r l. rewrite list_lookup_imap. destruct (W !! r) eqn:E; cbn; [|done]. intros [= <-].
    rewrite length_replicate. rewrite Forall_lookup in W_uniform. by eapply W_uniform.
Qed.

Lemma positions_lookup c :
  (c < candidates)%nat → concat ((λ row : list Q, seq 0 (length row)) <$> W) !! c = Some (c mod cols)%nat.
Proof.
  intros Hc. assert (Hr : (c / cols < length W)%nat) by (apply Nat.Div0.div_lt_upper_bound; unfold candidates in Hc; lia).
  rewrite (lookup_concat_uniform cols); [|done|].
  - rewrite list_lookup_fmap. destruct (lookup_lt_is_Some_2 W _ Hr) as [row Hrow]. rewrite Hrow. cbn [fmap option_fmap option_map].
    rewrite Forall_lookup in W_uniform. cbn [mbind option_bind]. rewrite (W_uniform _ _ Hrow).
    rewrite lookup_seq_lt; [done|]. apply Nat.mod_upper_bound. lia.
  - apply Forall_fmap. eapply Forall_impl; [exact W_uniform|]. intros row Hrow. unfold compose. by rewrite length_seq.
Qed.
Definition masked : list xfloat := zip_with (λ (v : bool) p, if v then Fin p else NegInf) ((λ p, Qle_bool eps p) <$> flat) flat.

Lemma masked_eq : masked = (λ p, if Qle_bool eps p then Fin p else NegInf) <$> flat.
Proof. unfold masked. induction flat as [|p l IH]; [done|]. cbn. by rewrite IH. Qed.

Lemma length_masked : length masked = candidates.
Proof. by rewrite masked_eq, length_fmap, length_flat. Qed.

Lemma masked_lookup c : (c < candidates)%nat → masked !! c = Some (masked_candidate flat eps c (c <? candidates)%nat).
Proof.
  intros Hc. rewrite masked_eq, list_lookup_fmap, flat_lookup by done. unfold masked_candidate, tl_load.
  rewrite (proj2 (Nat.ltb_lt _ _) Hc). done.
Qed.

(** The three stable sorts give the kernel's order. *)
Lemma lex_before i j :
  (i < candidates)%nat → (j < candidates)%nat → i ≠ j →
  key_lex xleb (xneg <$> masked)
    (key_lex Nat.leb (concat ((λ row : list Q, seq 0 (length row)) <$> W))
      (key_lex Nat.leb (concat (imap (λ r row, replicate (length row) r) W)) lt)) i j →
  before i j.
Proof.
  intros Hi Hj Hne (a & b & Ha & Hb & Hab & Hp). rewrite list_lookup_fmap, masked_lookup in Ha, Hb by done.
  injection Ha as <-. injection Hb as <-. unfold before, candidate_before.
  rewrite (proj2 (Nat.ltb_lt _ _) Hi), (proj2 (Nat.ltb_lt _ _) Hj) in *. rewrite andb_true_r.
  rewrite !xleb_neg in *. unfold xltb, xeqb. rewrite Hab. cbn [andb].
  destruct (xleb (masked_candidate flat eps i true) (masked_candidate flat eps j true)) eqn:E; [|done]. cbn [negb orb andb].
  destruct (Hp eq_refl) as (pi & pj & Hpi & Hpj & Hpos & Hr). rewrite positions_lookup in Hpi, Hpj by done.
  injection Hpi as <-. injection Hpj as <-. apply Nat.leb_le in Hpos. rewrite Nat.leb_le in Hr.
  destruct (Nat.ltb_spec (i mod cols) (j mod cols)); [done|]. cbn [orb]. rewrite (proj2 (Nat.eqb_eq _ _)) by lia. cbn [andb].
  destruct (Hr ltac:(lia)) as (ri & rj & Hri & Hrj & Hreq & _). rewrite requests_lookup in Hri, Hrj by done.
  injection Hri as <-. injection Hrj as <-. apply Nat.leb_le in Hreq. apply Nat.ltb_lt.
  assert (i / cols ≠ j / cols)%nat; [|lia]. intros Hd. apply Hne.
  rewrite (Nat.div_mod_eq i cols), (Nat.div_mod_eq j cols), Hd. f_equal. lia.
Qed.

Lemma before_asym i j : before i j → ¬ before j i.
Proof.
  unfold before, candidate_before, xltb, xeqb. intros [H1 _]%andb_true_iff [H2 _]%andb_true_iff.
  set (a := masked_candidate flat eps i _) in *. set (b := masked_candidate flat eps j _) in *.
  destruct (xleb a b) eqn:Eab, (xleb b a) eqn:Eba; cbn [negb orb andb] in H1, H2; try done.
  - apply orb_true_iff in H1, H2. rewrite !andb_true_iff, !Nat.ltb_lt, !Nat.eqb_eq in H1, H2. lia.
  - destruct (proj1 xleb_preorder a b); congruence.
Qed.

Lemma before_range i j : before i j → (i < candidates)%nat.
Proof. unfold before, candidate_before. intros [_ H]%andb_true_iff. by apply Nat.ltb_lt. Qed.

Section order.
Context `{TorchArgsortLaws}.

Lemma StronglySorted_strengthen (R T : nat → nat → Prop) l :
  NoDup l → Forall (λ i, (i < candidates)%nat) l →
  (∀ i j, (i < candidates)%nat → (j < candidates)%nat → i ≠ j → R i j → T i j) →
  StronglySorted R l → StronglySorted T l.
Proof.
  intros Hnd Hlt HRT Hs. induction Hs as [|i l _ IH Hi]; constructor.
  - apply NoDup_cons in Hnd as [_ Hnd]. apply Forall_cons in Hlt as [_ Hlt]. by apply IH.
  - apply NoDup_cons in Hnd as [Hni _]. apply Forall_cons in Hlt as [Hlt0 Hlt]. rewrite Forall_forall in Hi, Hlt |- *.
    intros j Hj. apply HRT; [done|by apply Hlt| |by apply Hi]. by intros ->.
Qed.

Lemma order_ok :
  ∃ order,
    _value_independent_descending_order flat (concat ((λ row : list Q, seq 0 (length row)) <$> W))
      (concat (imap (λ r row, replicate (length row) r) W)) ((λ p, Qle_bool eps p) <$> flat) = Ok order ∧
    order ≡ₚ seq 0 candidates ∧ StronglySorted before order.
Proof.
  unfold _value_independent_descending_order. fold masked. rewrite length_masked.
  set (requests := concat (imap _ W)). set (positions := concat (_ <$> W)).
  assert (Hreq : length requests = candidates).
  { unfold requests. rewrite (length_concat_uniform cols); [by rewrite length_imap|]. apply Forall_lookup. intros r l.
    rewrite list_lookup_imap. destruct (W !! r) eqn:E; cbn; [|done]. intros [= <-]. rewrite length_replicate.
    rewrite Forall_lookup in W_uniform. by eapply W_uniform. }
  assert (Hpos : length positions = candidates).
  { unfold positions. rewrite (length_concat_uniform cols); [by rewrite length_fmap|].
    apply Forall_fmap. eapply Forall_impl; [exact W_uniform|]. intros row Hrow. unfold compose. by rewrite length_seq. }
  destruct (stable_resort_ok Nat.leb requests (seq 0 candidates) lt nat_preorder) as (o1 & -> & P1 & S1).
  { rewrite Hreq. apply Forall_seq. lia. }
  { apply seq_sorted. }
  cbn [mbind result_bind].
  destruct (stable_resort_ok Nat.leb positions o1 (key_lex Nat.leb requests lt) nat_preorder) as (o2 & -> & P2 & S2).
  { rewrite Hpos. by apply Permutation_seq_lt. }
  { exact S1. }
  cbn [mbind result_bind].
  destruct (stable_resort_ok xleb (xneg <$> masked) o2 (key_lex Nat.leb positions (key_lex Nat.leb requests lt)) xleb_preorder) as (o3 & -> & P3 & S3).
  { rewrite length_fmap, length_masked. apply Permutation_seq_lt. by rewrite P2. }
  { exact S2. }
  exists o3. assert (P : o3 ≡ₚ seq 0 candidates) by (by rewrite P3, P2). split; [done|]. split; [done|].
  eapply StronglySorted_strengthen; [|by apply Permutation_seq_lt|apply lex_before|exact S3].
  rewrite P. apply NoDup_seq.
Qed.

(** The chosen candidates are those of small rank. *)
Lemma chosen_ok order k :
  order ≡ₚ seq 0 candidates → StronglySorted before order →
  take k order ≡ₚ filter (λ c, (rank c < k)%nat) (seq 0 candidates).
Proof.
  intros Hp Hs. assert (Hnd : NoDup order) by (rewrite Hp; apply NoDup_seq).
  apply NoDup_Permutation; [by apply NoDup_take|apply NoDup_filter, NoDup_seq|].
  intros c. rewrite list_elem_of_filter. rewrite (take_rank before before_asym order (seq 0 candidates) k c Hp Hs Hnd). unfold rank. tauto.
Qed.

Lemma rank_lt c : (c < candidates)%nat → (rank c < candidates)%nat.
Proof.
  intros Hc. unfold rank. rewrite <- (length_seq candidates 0) at 2. apply (length_filter_lt _ _ c).
  - apply elem_of_seq. lia.
  - intros Hb. by apply (before_asym _ _ Hb).
Qed.

(** ** The draft tokens each request gets *)

Definition selected (budget : Z) (c : nat) : bool := valid_at c && (Z.of_nat (rank c) <? budget).
Definition extra_of (budget : Z) (r : nat) : Z :=
  zsum ((λ c, if decide (c / cols = r)%nat then (if selected budget c then 1 else 0) else 0) <$> seq 0 candidates).

Lemma request_lt c : (c < candidates)%nat → (c / cols < length W)%nat.
Proof. intros Hc. apply Nat.Div0.div_lt_upper_bound. unfold candidates in Hc. lia. Qed.

Lemma counters_ok (f : nat → Z) cs :
  Forall (λ c, (c < candidates)%nat) cs →
  scatter_add_into (replicate (length W) 0) ((λ c, c / cols)%nat <$> cs) (f <$> cs) =
  Ok ((λ r, zsum ((λ c, if decide (c / cols = r)%nat then f c else 0) <$> cs)) <$> seq 0 (length W)).
Proof.
  intros Hcs. rewrite scatter_add_into_ok.
  - f_equal. apply list_eq. intros r. rewrite list_lookup_imap, list_lookup_fmap.
    destruct (decide (r < length W)%nat).
    + rewrite lookup_replicate_2, lookup_seq_lt by done. cbn [fmap option_fmap option_map]. f_equal.
      rewrite zip_with_fmap_same. done.
    + rewrite (lookup_seq_ge 0) by lia. rewrite lookup_ge_None_2 by (rewrite length_replicate; lia). done.
  - by rewrite !length_fmap.
  - rewrite length_replicate. apply Forall_fmap. eapply Forall_impl; [exact Hcs|]. intros c Hc. by apply request_lt.
Qed.

Lemma extra_of_nonpos budget : budget <= 0 → extra_of budget <$> seq 0 (length W) = replicate (length W) 0.
Proof.
  intros Hb. apply list_eq. intros r. rewrite list_lookup_fmap. destruct (decide (r < length W)%nat).
  - rewrite lookup_seq_lt, lookup_replicate_2 by done. cbn [fmap option_fmap option_map]. f_equal. unfold extra_of.
    apply zsum_zero, Forall_true. intros c. unfold selected.
    rewrite (proj2 (Z.ltb_ge _ _)) by lia. rewrite andb_false_r. by case_decide.
  - rewrite lookup_seq_ge by lia. symmetry. apply lookup_ge_None_2. rewrite length_replicate. lia.
Qed.

Lemma topk_selected_extra_ok survival budget cfg :
  row_prefix (resolved_max_verify_len cfg) <$> survival = W → survival_eps cfg = eps →
  topk_selected_extra survival budget cfg = Ok (extra_of budget <$> seq 0 (length W)).
Proof.
  intros HW Heps. assert (Hlen : length survival = length W) by (rewrite <- HW; by rewrite length_fmap).
  unfold topk_selected_extra. rewrite HW, Hlen, Heps. fold flat. rewrite length_flat.
  destruct (Z.ltb_spec 0 budget) as [Hb|Hb]; [|by rewrite extra_of_nonpos].
  destruct (Nat.ltb_spec 0 candidates) as [Hn|Hn]; cycle 1.
  { assert (length W = 0%nat) as -> by (unfold candidates in Hn; nia). done. }
  destruct order_ok as (order & -> & Hperm & Hs). cbn [mbind result_bind].
  set (k := Z.to_nat _). pose proof (chosen_ok order k Hperm Hs) as Hch. set (chosen := take k order) in *.
  assert (Hlt : Forall (λ c, (c < candidates)%nat) chosen).
  { rewrite Hch. apply Forall_forall. intros c [_ Hc]%list_elem_of_filter. apply elem_of_seq in Hc. lia. }
  rewrite (torch_index_fmap _ 0%nat) by (eapply Forall_impl; [exact Hlt|]; intros c Hc; eapply lookup_lt_Some, (requests_lookup c Hc)).
  rewrite (torch_index_fmap _ false) by (rewrite length_fmap, length_flat; done). cbn [mbind result_bind].
  rewrite <- list_fmap_compose.
  rewrite (list_fmap_ext _ (λ c, c / cols)%nat); cycle 1.
  { intros i c Hi. rewrite Forall_lookup in Hlt. by rewrite requests_lookup by (by eapply Hlt). }
  rewrite (list_fmap_ext (_ ∘ _) (λ c, if valid_at c then 1 else 0)); cycle 1.
  { intros i c Hi. rewrite Forall_lookup in Hlt. unfold compose. rewrite list_lookup_fmap, flat_lookup by (by eapply Hlt). done. }
  rewrite counters_ok by done. f_equal. apply list_fmap_ext. intros i r _. unfold extra_of. rewrite Hch, zsum_filter.
  f_equal. apply list_fmap_ext. intros j c Hj. apply lookup_seq in Hj as [-> Hj]. cbn [Nat.add].
  pose proof (rank_lt j Hj). unfold selected.
  destruct (decide (rank j < k)%nat) as [Hr|Hr]; destruct (Z.ltb_spec (Z.of_nat (rank j)) budget); unfold k in Hr; try lia.
  - by rewrite andb_true_r.
  - rewrite andb_false_r. by case_decide.
Qed.

Lemma selected_lane_ok budget c :
  (c < candidates)%nat → selected_extra_lane flat eps budget cols candidates 256 c = if selected budget c then 1 else 0.
Proof.
  intros Hc. unfold selected_extra_lane, selected. rewrite tl_launch_eq, zsum_count by lia.
  rewrite (proj2 (Nat.ltb_lt _ _) Hc). unfold tl_load. rewrite (flat_lookup c Hc). done.
Qed.

Lemma topk_selected_extra_triton_ok landed budget :
  landed ≡ₚ seq 0 candidates →
  topk_selected_extra_triton landed flat (length W) cols budget eps = Ok (extra_of budget <$> seq 0 (length W)).
Proof.
  intros Hl. unfold topk_selected_extra_triton. fold candidates.
  destruct (Z.ltb_spec 0 budget) as [Hb|Hb]; [|by rewrite extra_of_nonpos]. cbn [andb].
  destruct (Nat.ltb_spec 0 candidates) as [Hn|Hn]; cycle 1.
  { assert (length W = 0%nat) as -> by (unfold candidates in Hn; nia). done. }
  assert (Hlt : Forall (λ c, (c < candidates)%nat) landed) by (rewrite Hl; apply Forall_seq; lia).
  rewrite counters_ok by done. f_equal. apply list_fmap_ext. intros i r _. unfold extra_of. rewrite Hl.
  f_equal. apply list_fmap_ext. intros j c Hj. apply lookup_seq in Hj as [-> Hj]. cbn [Nat.add].
  by rewrite selected_lane_ok.
Qed.
End order.

(** ** Row by row *)

Lemma row_candidate r p : (r < length W)%nat → (p < cols)%nat → (r * cols + p < candidates)%nat.
Proof. unfold candidates. nia. Qed.

Lemma extra_of_row budget r :
  (r < length W)%nat → extra_of budget r = zsum ((λ p, if selected budget (r * cols + p) then 1 else 0) <$> seq 0 cols).
Proof.
  intros Hr. unfold extra_of, candidates. rewrite rows_seq, zsum_concat, <- list_fmap_compose.
  rewrite (list_fmap_ext _ (λ r', if decide (r' = r) then zsum ((λ p, if selected budget (r * cols + p) then 1 else 0) <$> seq 0 cols) else 0)).
  { by apply zsum_single. }
  intros i r' _. unfold compose. rewrite fmap_seq_shift. case_decide as Hd.
  - subst r'. f_equal. apply list_fmap_ext. intros j p Hp. apply lookup_seq in Hp as [-> Hp].
    destruct (row_div r (0 + j) cols Hp) as [-> _]. by rewrite decide_True.
  - apply zsum_zero, Forall_seq. intros p Hp. destruct (row_div r' p cols) as [-> _]; [lia|]. by rewrite decide_False.
Qed.

Lemma extra_of_range budget r : (r < length W)%nat → 0 <= extra_of budget r <= Z.of_nat cols.
Proof.
  intros Hr. rewrite extra_of_row, zsum_count by done.
  pose proof (length_filter (λ p, selected budget (r * cols + p) = true) (seq 0 cols)). rewrite length_seq in H. lia.
Qed.

Lemma prob_row r p row : W !! r = Some row → (p < cols)%nat → row !! p = Some (prob_at (r * cols + p)).
Proof.
  intros Hr Hp. apply lookup_lt_Some in Hr as Hlt. pose proof (flat_lookup _ (row_candidate r p Hlt Hp)) as Hf.
  unfold flat in Hf at 1. rewrite (lookup_concat_uniform cols) in Hf by done.
  destruct (row_div r p cols Hp) as [E1 E2]. rewrite E1, E2, Hr in Hf. done.
Qed.
End candidates.

(** ** The two versions agree *)

Lemma Qcumprod_app acc l k : ∃ acc', Qcumprod acc (l ++ k) = Qcumprod acc l ++ Qcumprod acc' k.
Proof.
  revert acc. induction l as [|x l IH]; intros acc; cbn [app Qcumprod]; [by exists acc|].
  destruct (IH (acc * x)%Q) as [acc' ->]. by exists acc'.
Qed.

Lemma validate_ok cfg :
  validate cfg = Ok tt →
  1 <= gamma cfg ∧ 0 <= min_verify_len cfg ∧ 1 <= resolved_max_verify_len cfg ∧ min_verify_len cfg <= resolved_max_verify_len cfg
  ∧ resolved_max_verify_len cfg <= gamma cfg + 1 ∧ (0 <= survival_eps cfg)%Q.
Proof.
  unfold validate. intros H. inv_ok. b2p. split_and!; try lia.
  - unfold resolved_max_verify_len in *. destruct (Z.eqb_spec (max_verify_len cfg) 0); lia.
  - unfold Qltb in *. b2p. done.
Qed.

(** What the theorems assume of a call: a validated configuration of machine size and one
    confidence per draft position. *)
Record schedule_input_ok (cfg : DSparkScheduleConfig) (confidence : list (list Q)) : Prop := {
  sio_cfg : validate cfg = Ok tt;
  sio_int32 : gamma cfg < 2 ^ 31 - 1;
  sio_rows : Forall (λ row, length row = Z.to_nat (gamma cfg)) confidence;
}.

Definition window_cols (cfg : DSparkScheduleConfig) : nat := Z.to_nat (Z.min (resolved_max_verify_len cfg) (gamma cfg)).
Definition survival_window (cfg : DSparkScheduleConfig) (confidence : list (list Q)) : list (list Q) :=
  row_prefix (resolved_max_verify_len cfg) <$> compute_sort_survival confidence.
Definition lens_of_extra (cfg : DSparkScheduleConfig) (extra : Z) : Z :=
  Z.min (resolved_max_verify_len cfg) (Z.max (Z.max (min_verify_len cfg) 1) (min_verify_len cfg + extra)).

Section schedule.
Context (cfg : DSparkScheduleConfig) (confidence : list (list Q)) (Hin : schedule_input_ok cfg confidence).

Lemma window_cols_pos : (0 < window_cols cfg)%nat.
Proof. destruct Hin as [Hc _ _]. apply validate_ok in Hc. unfold window_cols. lia. Qed.

Lemma survival_window_eq : survival_window cfg confidence = (λ row, take (window_cols cfg) (Qcumprod 1 row)) <$> confidence.
Proof.
  destruct Hin as [Hc _ Hrows]. apply validate_ok in Hc. unfold survival_window, compute_sort_survival.
  rewrite <- list_fmap_compose. apply list_fmap_ext. intros i row Hi. rewrite Forall_lookup in Hrows.
  specialize (Hrows _ _ Hi). unfold compose, row_prefix, window_cols. rewrite (proj2 (Z.ltb_ge _ _)) by lia.
  destruct (Z.le_gt_cases (resolved_max_verify_len cfg) (gamma cfg)).
  - by rewrite Z.min_l by lia.
  - rewrite Z.min_r by lia. rewrite !take_ge; [done|rewrite length_Qcumprod; lia..].
Qed.

Lemma survival_window_uniform : Forall (λ row, length row = window_cols cfg) (survival_window cfg confidence).
Proof.
  rewrite survival_window_eq. destruct Hin as [Hc _ Hrows]. apply Forall_fmap. eapply Forall_impl; [exact Hrows|].
  intros row Hrow. unfold compose. rewrite length_take, length_Qcumprod, Hrow. unfold window_cols. lia.
Qed.

Lemma prep_kernel_window :
  schedule_topk_prep_kernel (Z.to_nat (gamma cfg)) (window_cols cfg) <$> confidence = survival_window cfg confidence.
Proof.
  rewrite survival_window_eq. destruct Hin as [Hc _ Hrows]. apply list_fmap_ext. intros i row Hi.
  rewrite Forall_lookup in Hrows. specialize (Hrows _ _ Hi). unfold schedule_topk_prep_kernel.
  rewrite (tl_load_padded row 1%Q (Z.to_nat (gamma cfg))); [|done|].
  - destruct (Qcumprod_app 1 row (replicate (next_power_of_2 (Nat.max (Z.to_nat (gamma cfg)) 1) - Z.to_nat (gamma cfg)) 1%Q)) as [acc ->].
    rewrite take_app_le; [done|]. rewrite length_Qcumprod, Hrows. unfold window_cols. lia.
  - pose proof (next_power_of_2_ge (Nat.max (Z.to_nat (gamma cfg)) 1)). lia.
Qed.

Lemma length_survival_window : length (survival_window cfg confidence) = length confidence.
Proof. unfold survival_window, compute_sort_survival. by rewrite !length_fmap. Qed.

(** Verify lengths of the batch, as a function of the ranks. *)
Definition scheduled_lens (budget : Z) : list Z :=
  (λ r, lens_of_extra cfg (extra_of (survival_window cfg confidence) (survival_eps cfg) (window_cols cfg) budget r))
    <$> seq 0 (length confidence).

Lemma topk_lens_int32 budget r :
  (r < length confidence)%nat →
  int32_range (lens_of_extra cfg (extra_of (survival_window cfg confidence) (survival_eps cfg) (window_cols cfg) budget r)).
Proof.
  intros Hr. destruct Hin as [Hc Hi _]. apply validate_ok in Hc.
  unfold int32_range, lens_of_extra. lia.
Qed.

Lemma schedule_torch_ok `{TorchArgsortLaws} budget :
  schedule_verify_lens_topk confidence budget cfg = Ok (scheduled_lens budget).
Proof.
  unfold schedule_verify_lens_topk, schedule_verify_lens_topk_from_survival.
  rewrite (topk_selected_extra_ok (survival_window cfg confidence) (survival_eps cfg) (window_cols cfg)
    window_cols_pos survival_window_uniform _ budget cfg eq_refl eq_refl).
  cbn [mbind result_bind]. rewrite length_survival_window. f_equal. unfold scheduled_lens. rewrite <- !list_fmap_compose.
  apply list_fmap_ext. intros i r Hr. apply lookup_seq in Hr as [-> Hr]. unfold compose.
  change (torch_clamp _ _ _) with (lens_of_extra cfg (extra_of (survival_window cfg confidence) (survival_eps cfg) (window_cols cfg) budget (0 + i))).
  by rewrite i32_id by (by apply topk_lens_int32).
Qed.

Lemma schedule_triton_ok landed budget :
  landed ≡ₚ seq 0 (length confidence * window_cols cfg) →
  schedule_verify_lens_topk_triton landed (Z.to_nat (gamma cfg)) confidence budget cfg = Ok (scheduled_lens budget).
Proof.
  intros Hl. unfold schedule_verify_lens_topk_triton. destruct Hin as [Hc Hi _]. apply validate_ok in Hc.
  rewrite Z2Nat.id by lia. fold (window_cols cfg). rewrite prep_kernel_window. fold (flat (survival_window cfg confidence)).
  rewrite <- length_survival_window in Hl |- *.
  rewrite (topk_selected_extra_triton_ok (survival_window cfg confidence) (survival_eps cfg) (window_cols cfg)
    window_cols_pos survival_window_uniform) by exact Hl.
  cbn [mbind result_bind]. rewrite tl_launch_eq by lia. f_equal. unfold scheduled_lens. rewrite <- length_survival_window.
  apply list_fmap_ext. intros i r Hr. apply lookup_seq in Hr as [-> Hr]. unfold schedule_topk_finalize_kernel, tl_load.
  rewrite list_lookup_fmap, lookup_seq_lt by done. cbn [fmap option_fmap option_map default from_option Nat.add id].
  pose proof (extra_of_range (survival_window cfg confidence) (survival_eps cfg) (window_cols cfg) window_cols_pos budget i Hr).
  rewrite i32_id by (unfold int32_range, window_cols in *; lia). unfold lens_of_extra. lia.
Qed.
End schedule.

(** C15: Scheduling gives the same verify lengths on the host and on the GPU.  For a validated
    configuration, one confidence per draft position, any budget, any stable sorting function
    behaving as documented and any order in which the lanes' atomic additions land, the three
    stable sorts of the torch version and the rank counting of the Triton kernels both return,
    and return the same lengths. *)
Theorem topk_torch_triton_equiv `{TorchArgsortLaws} (cfg : DSparkScheduleConfig) (confidence : list (list Q)) (budget : Z)
    (landed : list nat) :
  schedule_input_ok cfg confidence → landed ≡ₚ seq 0 (length confidence * window_cols cfg) →
  ∃ lens, ScheduleVerifyLensTopk false landed (Z.to_nat (gamma cfg)) confidence budget cfg = Ok lens ∧
    ScheduleVerifyLensTopk true landed (Z.to_nat (gamma cfg)) confidence budget cfg = Ok lens.
Proof.
  intros Hin Hl. exists (scheduled_lens cfg confidence budget). split.
  - by apply schedule_torch_ok.
  - by apply schedule_triton_ok.
Qed.

(** Two requests, gamma 2, survivals [9/10, 1/2] and [1/2, 1/4]: a budget of 2 takes the first
    draft of both. *)
Definition tiny_cfg : DSparkScheduleConfig := default_schedule_config 2.
Definition tiny_confidence : list (list Q) := [[9 # 10; 5 # 9]; [1 # 2; 1 # 2]]%Q.

Lemma tiny_input_ok : schedule_input_ok tiny_cfg tiny_confidence.
Proof. constructor; [reflexivity|cbn; lia|by repeat constructor]. Qed.

Import Insertion.

Lemma topk_torch_triton_equiv_witness :
  ScheduleVerifyLensTopk true [3; 1; 0; 2]%nat 2 tiny_confidence 2 tiny_cfg = Ok [2; 2] ∧
  ∃ lens, ScheduleVerifyLensTopk false [3; 1; 0; 2]%nat 2 tiny_confidence 2 tiny_cfg = Ok lens ∧
    ScheduleVerifyLensTopk true [3; 1; 0; 2]%nat 2 tiny_confidence 2 tiny_cfg = Ok lens.
Proof.
  split; [vm_compute; reflexivity|].
  apply (topk_torch_triton_equiv tiny_cfg tiny_confidence 2 [3; 1; 0; 2]%nat tiny_input_ok).
  apply (bool_decide_unpack _). vm_compute. exact I.
Defined.
