(* ===== verification/DSparkOptimal.v ===== *)
(** * DSparkOptimal: the schedule spends its budget best

    Survival probabilities decrease along a request's draft, so the most likely candidates of the
    batch form a prefix of every request; the scheduled verify lengths therefore have the largest
    expected number of accepted drafts among all lengths with the same budget. *)

From S2P Require Import Prelude Sampling TensorOps StableSort DSparkSchedule DSparkTopk.
#[local] Open Scope nat_scope.

(** ** Prefixes of the rows *)

(** The survival probabilities of the drafts that [extras] selects, request by request. *)
Definition chosen_probs (W : list (list Q)) (extras : list nat) : list Q := concat (zip_with take extras W).

Lemma sublist_concat {A} (ls ks : list (list A)) : Forall2 sublist ls ks → concat ls `sublist_of` concat ks.
Proof. induction 1; [done|]. cbn. by apply sublist_app. Qed.

Lemma chosen_sublist W extras : chosen_probs W extras `sublist_of` concat W.
Proof.
  revert extras. induction W as [|row W IH]; intros [|e extras]; unfold chosen_probs in *; cbn; try done.
  - apply sublist_nil_l.
  - apply sublist_app; [apply sublist_take|apply IH].
Qed.

Lemma sublist_filter_mono {A} (P : A → Prop) `{!∀ x, Decision (P x)} (s l : list A) :
  s `sublist_of` l → filter P s `sublist_of` filter P l.
Proof.
  induction 1 as [|x s l _ IH|x s l _ IH]; [done| |]; rewrite !filter_cons; case_decide; try done; by constructor.
Qed.

Lemma length_chosen W extras k :
  Forall (λ row, length row = k) W → Forall (λ e, e ≤ k) extras → length extras = length W →
  length (chosen_probs W extras) = sum_list extras.
Proof.
  intros HW. revert extras. induction HW as [|row W Hrow _ IH]; intros [|e extras] He Hlen; try done.
  apply Forall_cons in He as [He1 He]. unfold chosen_probs in *. cbn. rewrite length_app, length_take, Hrow, IH by (done || by injection Hlen).
  lia.
Qed.

(** A decreasing predicate on the first [k] numbers holds exactly of the first ones. *)
Lemma count_prefix (f : nat → bool) k :
  (∀ p q, p ≤ q → q < k → f q = true → f p = true) →
  ∀ p, p < k → f p = true ↔ p < length (filter (λ q, f q = true) (seq 0 k)).
Proof.
  induction k as [|k IH]; intros Hf p Hp; [lia|].
  assert (IH' : ∀ p, p < k → f p = true ↔ p < length (filter (λ q, f q = true) (seq 0 k))).
  { apply IH. intros p' q' Hpq Hq. apply Hf; lia. }
  pose proof (length_filter (λ q, f q = true) (seq 0 k)) as Hlen. rewrite length_seq in Hlen.
  rewrite seq_S, filter_app, length_app. cbn [Nat.add]. rewrite filter_cons. destruct (f k) eqn:E.
  - cbn [decide]. rewrite decide_True by done. cbn [length filter list_filter].
    assert (f p = true) by (apply (Hf p k); (lia || done)).
    clear IH. generalize dependent (length (filter (λ q, f q = true) (seq 0 k))). intros n IH' Hn.
    enough (k ≤ n) by (split; [lia|done]). destruct (Nat.eq_0_gt_0_cases k) as [->|Hk]; [lia|].
    enough (pred k < n) by lia. apply (proj1 (IH' (pred k) ltac:(lia))), (Hf (pred k) k); (lia || done).
  - rewrite decide_False by done. cbn [length filter list_filter]. rewrite Nat.add_0_r.
    destruct (decide (p = k)) as [->|]; [rewrite E; split; [done|lia]|]. apply IH'. lia.
Qed.

Lemma filter_fmap {A B} (g : A → B) (P : B → Prop) `{!∀ x, Decision (P x)} (l : list A) :
  filter P (g <$> l) = g <$> filter (λ x, P (g x)) l.
Proof. induction l as [|x l IH]; [done|]. rewrite fmap_cons, !filter_cons, IH. by case_decide. Qed.

Lemma filter_filter {A} (P R : A → Prop) `{!∀ x, Decision (P x)} `{!∀ x, Decision (R x)} (l : list A) :
  filter P (filter R l) = filter (λ x, R x ∧ P x) l.
Proof. induction l as [|x l IH]; [done|]. rewrite !filter_cons. repeat case_decide; rewrite ?filter_cons; repeat case_decide; (tauto || congruence). Qed.

Lemma filter_all {A} (P : A → Prop) `{!∀ x, Decision (P x)} (l : list A) : Forall P l → filter P l = l.
Proof. induction 1 as [|x l Hx _ IH]; [done|]. rewrite filter_cons, decide_True, IH by done. done. Qed.

Lemma filter_none {A} (P : A → Prop) `{!∀ x, Decision (P x)} (l : list A) : Forall (λ x, ¬ P x) l → filter P l = [].
Proof. induction 1 as [|x l Hx _ IH]; [done|]. rewrite filter_cons, decide_False, IH by done. done. Qed.

Lemma take_filter_first {A} (P : A → Prop) `{!∀ x, Decision (P x)} (l : list A) k :
  l = filter P l ++ filter (λ x, ¬ P x) l → filter P (take k l) = take k (filter P l).
Proof.
  intros E. assert (HV : Forall P (filter P l)) by (apply Forall_forall; intros x Hx; by apply list_elem_of_filter in Hx as [Hx _]).
  assert (HI : Forall (λ x, ¬ P x) (filter (λ x, ¬ P x) l)) by (apply Forall_forall; intros x Hx; by apply list_elem_of_filter in Hx as [Hx _]).
  revert E HV HI. generalize (filter P l) (filter (λ x, ¬ P x) l). intros V I -> HV HI.
  rewrite take_app, filter_app, (filter_all P (take k V)), (filter_none P (take _ I)) by (by apply Forall_take). apply app_nil_r.
Qed.

Lemma fmap_concat {A B} (f : A → B) (ls : list (list A)) : f <$> concat ls = concat ((λ l : list A, f <$> l) <$> ls).
Proof. induction ls as [|l ls IH]; [done|]. cbn [concat]. rewrite fmap_app, IH. done. Qed.

Lemma StronglySorted_filter {A} (R : A → A → Prop) (P : A → Prop) `{!∀ x, Decision (P x)} (l : list A) :
  StronglySorted R l → StronglySorted R (filter P l).
Proof.
  induction 1 as [|x l _ IH Hx]; [constructor|]. rewrite filter_cons. case_decide; [|done]. constructor; [done|].
  rewrite Forall_forall in Hx |- *. intros y [_ Hy]%list_elem_of_filter. by apply Hx.
Qed.

(** ** Survival rows decrease *)

Lemma Qcumprod_descending acc l :
  (0 <= acc)%Q → Forall (λ x, 0 <= x <= 1)%Q l →
  descending_values (Qcumprod acc l) ∧ Forall (λ y, 0 <= y <= acc)%Q (Qcumprod acc l).
Proof.
  intros Hacc Hl. revert acc Hacc. induction Hl as [|x l [H0 H1] _ IH]; intros acc Hacc; cbn [Qcumprod]; [by repeat constructor|].
  assert (Hx : (0 <= acc * x <= acc)%Q) by (split; nra). destruct (IH (acc * x)%Q) as [Hs Hb]; [lra|]. split.
  - constructor; [done|]. eapply Forall_impl; [exact Hb|]. cbn. intros y Hy. lra.
  - constructor; [done|]. eapply Forall_impl; [exact Hb|]. cbn. intros y Hy. lra.
Qed.

Lemma descending_take l k : descending_values l → descending_values (take k l).
Proof. apply StronglySorted_take. Qed.

(** ** The scheduled prefixes *)

#[local] Existing Instances Insertion.torch_argsort Insertion.torch_argsort_laws.

Section optimal.
Context (W : list (list Q)) (eps : Q) (cols : nat).
Hypothesis cols_pos : 0 < cols.
Hypothesis W_uniform : Forall (λ row, length row = cols) W.
Hypothesis W_descending : Forall descending_values W.
Hypothesis W_nonneg : Forall (Forall (λ x, 0 <= x)%Q) W.
Hypothesis eps_nonneg : (0 <= eps)%Q.

Notation cand := (candidates W cols).
Notation prob := (prob_at W).
Notation valid := (valid_at W eps).
Notation rnk := (rank W eps cols).
Notation bef := (before W eps cols).

#[local] Instance bef_dec i j : Decision (bef i j) := decide (candidate_before (flat W) eps cols cand i j = true).

Definition cand_values : list Q := filter (λ p, Qle_bool eps p = true) (concat W).

(** The order of the candidates; any sorting function gives the same one. *)
Definition order : list nat :=
  match _value_independent_descending_order (flat W)
      (concat ((λ row : list Q, seq 0 (length row)) <$> W)) (concat (imap (λ r row, replicate (length row) r) W))
      ((λ p, Qle_bool eps p) <$> flat W) with Ok o => o | Raise _ => [] end.

Lemma order_spec : order ≡ₚ seq 0 cand ∧ StronglySorted bef order.
Proof.
  destruct (order_ok W eps cols cols_pos W_uniform) as (o & E & H). unfold order. rewrite E. done.
Qed.

Lemma rank_at i c : order !! i = Some c → rnk c = i.
Proof.
  intros Hi. destruct order_spec as [Hp Hs]. unfold rank.
  pose proof (sorted_rank bef (before_asym W eps cols cols_pos) order i c Hs Hi) as E. rewrite Hp in E. exact E.
Qed.

Lemma before_rank c' c : c < cand → bef c' c → rnk c' < rnk c.
Proof.
  intros Hc Hb. pose proof (before_range W eps cols c' c Hb) as Hc'. destruct order_spec as [Hp Hs].
  assert (Hin : ∀ x, x < cand → ∃ i, order !! i = Some x) by (intros x Hx; apply list_elem_of_lookup; rewrite Hp; apply elem_of_seq; lia).
  destruct (Hin c Hc) as [i Hi], (Hin c' Hc') as [j Hj]. rewrite (rank_at i c Hi), (rank_at j c' Hj).
  destruct (Nat.lt_trichotomy j i) as [|[->|Hij]]; [done|exfalso..].
  - simplify_eq. by apply (before_asym W eps cols cols_pos _ _ Hb).
  - apply (before_asym W eps cols cols_pos _ _ Hb). by eapply StronglySorted_lookup.
Qed.

Lemma prob_nonneg c : (0 <= prob c)%Q.
Proof.
  unfold prob_at. destruct (flat W !! c) as [x|] eqn:E; cbn; [|lra]. apply list_elem_of_lookup_2 in E.
  unfold flat in E. apply list_elem_of_In, in_concat in E as (row & Hrow%list_elem_of_In & Hx%list_elem_of_In). rewrite Forall_forall in W_nonneg.
  specialize (W_nonneg _ Hrow). rewrite Forall_forall in W_nonneg. by apply W_nonneg.
Qed.

Lemma prob_row_mono r p q : r < length W → p ≤ q → q < cols → (prob (r * cols + q) <= prob (r * cols + p))%Q.
Proof.
  intros Hr Hpq Hq. destruct (lookup_lt_is_Some_2 W r Hr) as [row Hrow].
  pose proof (prob_row W cols cols_pos W_uniform r p row Hrow ltac:(lia)) as Hp.
  pose proof (prob_row W cols cols_pos W_uniform r q row Hrow Hq) as Hq'.
  rewrite Forall_lookup in W_descending. specialize (W_descending _ _ Hrow).
  destruct (Nat.eq_dec p q) as [->|]; [lra|]. by apply (StronglySorted_lookup _ _ p q _ _ W_descending ltac:(lia) Hp Hq').
Qed.

(** What precedes a candidate inside its own row goes before it. *)
Lemma row_before r p q : r < length W → p < q → q < cols → bef (r * cols + p) (r * cols + q).
Proof.
  intros Hr Hpq Hq. pose proof (row_candidate W cols cols_pos r q Hr Hq) as Hcq. pose proof (row_candidate W cols cols_pos r p Hr ltac:(lia)) as Hcp.
  pose proof (prob_row_mono r p q Hr ltac:(lia) Hq) as Hm.
  unfold before, candidate_before. rewrite (proj2 (Nat.ltb_lt _ _) Hcq), (proj2 (Nat.ltb_lt _ _) Hcp), andb_true_r.
  destruct (row_div r p cols ltac:(lia)) as [-> ->], (row_div r q cols Hq) as [-> ->].
  rewrite (proj2 (Nat.ltb_lt p q)) by done. cbn [orb]. rewrite andb_true_r. unfold xltb, xeqb.
  assert (Hx : xleb (masked_candidate (flat W) eps (r * cols + q) true) (masked_candidate (flat W) eps (r * cols + p) true) = true).
  { unfold masked_candidate, tl_load. idtac.
    fold (prob (r * cols + q)) (prob (r * cols + p)).
    destruct (Qle_bool eps (prob (r * cols + q))) eqn:E; [|done]. apply Qle_bool_iff in E.
    rewrite (proj2 (Qle_bool_iff eps (prob (r * cols + p)))) by lra. cbn. by apply Qle_bool_iff. }
  rewrite Hx, andb_true_r. rewrite orb_comm. apply orb_negb_r.
Qed.

Definition extras (budget : Z) : list nat := (λ r, Z.to_nat (extra_of W eps cols budget r)) <$> seq 0 (length W).

Lemma selected_prefix budget r p :
  r < length W → p < cols →
  selected W eps cols budget (r * cols + p) = true ↔ p < Z.to_nat (extra_of W eps cols budget r).
Proof.
  intros Hr Hp. rewrite extra_of_row, zsum_count, Nat2Z.id by done.
  apply (count_prefix (λ p, selected W eps cols budget (r * cols + p)) cols); [|done].
  intros p' q Hpq Hq Hs. destruct (Nat.eq_dec p' q) as [->|]; [done|]. unfold selected in *.
  apply andb_true_iff in Hs as [Hv Hr']. unfold valid_at in *. apply Qle_bool_iff in Hv. apply Z.ltb_lt in Hr'.
  pose proof (prob_row_mono r p' q Hr Hpq Hq).
  pose proof (before_rank _ _ (row_candidate W cols cols_pos r q Hr Hq) (row_before r p' q Hr ltac:(lia) Hq)).
  apply andb_true_iff. split; [apply Qle_bool_iff; lra|apply Z.ltb_lt; lia].
Qed.

(** What the budget selects, as positions and as probabilities. *)
Lemma scheduled_probs budget :
  chosen_probs W (extras budget) = prob <$> filter (λ c, selected W eps cols budget c = true) (seq 0 cand).
Proof.
  unfold candidates. rewrite rows_seq, filter_concat, fmap_concat, <- !list_fmap_compose. unfold chosen_probs. f_equal.
  apply list_eq. intros r. rewrite lookup_zip_with, list_lookup_fmap. unfold extras. rewrite list_lookup_fmap.
  destruct (decide (r < length W)) as [Hr|Hr]; cycle 1.
  { by rewrite !lookup_seq_ge by lia. }
  rewrite !lookup_seq_lt by done. destruct (lookup_lt_is_Some_2 W r Hr) as [row Hrow]. rewrite Hrow.
  cbn [fmap option_fmap option_map mbind option_bind Nat.add]. f_equal. unfold compose.
  set (e := Z.to_nat (extra_of W eps cols budget r)).
  rewrite <- (Nat.add_0_r (r * cols)) at 1. rewrite <- (fmap_add_seq (r * cols) 0 cols), filter_fmap, <- list_fmap_compose.
  rewrite (filter_ext_in _ (λ p, p < e)); cycle 1.
  { intros p Hp%elem_of_seq. by apply selected_prefix; lia. }
  rewrite filter_lt_seq, Nat.sub_0_r. apply list_eq. intros p. rewrite list_lookup_fmap.
  assert (Hrl : length row = cols) by (rewrite Forall_lookup in W_uniform; by eapply W_uniform).
  destruct (decide (p < Nat.min cols e)).
  - rewrite lookup_take_lt, lookup_seq_lt by lia. cbn [fmap option_fmap option_map Nat.add]. unfold compose.
    by apply (prob_row W cols cols_pos W_uniform); [|lia].
  - rewrite lookup_seq_ge by lia. cbn. apply lookup_ge_None_2. rewrite length_take. lia.
Qed.

Lemma cand_values_eq : cand_values = prob <$> filter (λ c, valid c = true) (seq 0 cand).
Proof.
  etransitivity; [|exact (filter_fmap prob (λ p, Qle_bool eps p = true) (seq 0 cand))]. unfold cand_values. f_equal.
  apply list_eq. intros c. rewrite list_lookup_fmap. change (concat W) with (flat W).
  destruct (decide (c < cand)).
  - rewrite lookup_seq_lt by done. by apply (flat_lookup W cols).
  - rewrite lookup_seq_ge by lia. apply lookup_ge_None_2. rewrite (length_flat W cols) by done. lia.
Qed.

Definition best_first : list nat := filter (λ c, valid c = true) order.

Lemma masked_prob c : masked_candidate (flat W) eps c (c <? cand) = if valid c then Fin (prob c) else NegInf.
Proof.
  unfold masked_candidate, tl_load, valid_at, prob_at. destruct (Nat.ltb_spec c cand); [done|].
  rewrite (lookup_ge_None_2 (flat W)) by (rewrite (length_flat W cols) by done; lia). done.
Qed.

Lemma before_valid i j : bef i j → valid j = true → valid i = true ∧ (prob j <= prob i)%Q.
Proof.
  unfold before, candidate_before. rewrite !masked_prob. intros [Hb _]%andb_true_iff Hj. rewrite Hj in Hb.
  destruct (valid i); [|done]. split; [done|]. unfold xltb, xeqb in Hb. cbn in Hb.
  destruct (Qlt_le_dec (prob i) (prob j)) as [Hlt|Hle]; [|done]. exfalso.
  rewrite (proj2 (Qle_bool_iff (prob i) (prob j))) in Hb by lra. cbn in Hb.
  destruct (Qle_bool (prob j) (prob i)) eqn:E; [apply Qle_bool_iff in E; lra|done].
Qed.

Lemma order_best_first : order = best_first ++ filter (λ c, ¬ valid c = true) order.
Proof. apply (sorted_filter_first bef); [apply order_spec|]. intros i j Hb Hj. by destruct (before_valid i j Hb Hj). Qed.

Lemma best_first_descending : descending_values (prob <$> best_first).
Proof.
  eapply (StronglySorted_Forall2 bef _ (λ i x, x = prob i ∧ valid i = true)).
  - apply (StronglySorted_filter bef (λ c, valid c = true)), order_spec.
  - apply Forall2_fmap_r, Forall_Forall2_diag, Forall_forall. intros i [Hi _]%list_elem_of_filter. done.
  - intros i j x y Hb [-> _] [-> Hj]. by destruct (before_valid i j Hb Hj).
Qed.

Lemma best_first_perm : prob <$> best_first ≡ₚ cand_values.
Proof. rewrite cand_values_eq. unfold best_first. by rewrite (proj1 order_spec). Qed.

Lemma scheduled_best_first budget :
  (0 <= budget)%Z → filter (λ c, selected W eps cols budget c = true) (seq 0 cand) ≡ₚ take (Z.to_nat budget) best_first.
Proof.
  intros Hb. unfold best_first. rewrite <- take_filter_first by apply order_best_first.
  rewrite (chosen_ok W eps cols cols_pos order (Z.to_nat budget)) by apply order_spec.
  rewrite filter_filter. apply reflexive_eq, filter_ext_in. intros c _. unfold selected.
  rewrite andb_true_iff, Z.ltb_lt. split; intros [? ?]; split; (done || lia).
Qed.

Lemma values_nonneg : Forall (λ x, 0 <= x)%Q cand_values.
Proof. rewrite cand_values_eq. apply Forall_fmap, Forall_true. intros c. apply prob_nonneg. Qed.

Lemma scheduled_perm budget :
  (0 <= budget)%Z → chosen_probs W (extras budget) ≡ₚ take (Z.to_nat budget) (prob <$> best_first).
Proof. intros Hb. by rewrite scheduled_probs, scheduled_best_first, fmap_take by done. Qed.

Context {HS : TorchArgsort} {HL : @TorchArgsortLaws HS}.

(** The expected number of drafts accepted is the sum of the largest probabilities. *)
Lemma scheduled_gain budget :
  (0 <= budget)%Z →
  (Qsum (chosen_probs W (extras budget)) == Qsum (take (Z.to_nat budget) (@sort_descending HS cand_values)))%Q.
Proof.
  intros Hb. rewrite scheduled_perm by done. apply descending_unique.
  - apply best_first_descending.
  - apply sort_descending_sorted.
  - rewrite best_first_perm. apply values_nonneg.
  - by rewrite best_first_perm, sort_descending_perm.
Qed.

Lemma scheduled_count budget :
  (0 <= budget)%Z → length (chosen_probs W (extras budget)) = Nat.min (Z.to_nat budget) (length cand_values).
Proof. intros Hb. by rewrite scheduled_perm, length_take, best_first_perm by done. Qed.

Lemma sum_lt_eps l : Forall (λ x, ¬ Qle_bool eps x = true) l → (Qsum l <= eps * inject_Z (Z.of_nat (length l)))%Q.
Proof.
  induction 1 as [|x l Hx _ IH]; [rewrite Qsum_nil; change (inject_Z (Z.of_nat (length []))) with 0%Q; lra|]. rewrite Qsum_cons. cbn [length]. rewrite Nat2Z.inj_succ.
  unfold Z.succ. rewrite inject_Z_plus. change (inject_Z 1) with 1%Q.
  assert (x < eps)%Q by (apply Qnot_le_lt; intros Hle; by apply Hx, Qle_bool_iff). nra.
Qed.

(** No other prefixes do better, up to [eps] for each candidate below the threshold. *)
Lemma alternative_gain alt k :
  length (chosen_probs W alt) ≤ k →
  (Qsum (chosen_probs W alt) <= Qsum (take k (@sort_descending HS cand_values)) + eps * inject_Z (Z.of_nat k))%Q.
Proof.
  intros Hk. set (l := chosen_probs W alt) in *.
  rewrite <- (filter_app_complement (λ p, Qle_bool eps p = true) l), Qsum_app.
  set (hi := filter _ l). set (lo := filter _ l).
  assert (Hlen : length hi + length lo ≤ k).
  { rewrite <- length_app. unfold hi, lo. by rewrite filter_app_complement. }
  assert (Qsum hi <= Qsum (take k (@sort_descending HS cand_values)))%Q.
  { apply topk_submseteq; [|apply sort_descending_sorted| |lia].
    - rewrite sort_descending_perm. apply sublist_submseteq, sublist_filter_mono, chosen_sublist.
    - rewrite sort_descending_perm. apply values_nonneg. }
  assert (Hlo : (Qsum lo <= eps * inject_Z (Z.of_nat (length lo)))%Q).
  { apply sum_lt_eps, Forall_forall. intros x Hx. by apply list_elem_of_filter in Hx as [Hx _]. }
  assert (inject_Z (Z.of_nat (length lo)) <= inject_Z (Z.of_nat k))%Q by (rewrite <- Zle_Qle; lia). nra.
Qed.

(** Prefixes above the threshold do not even do better by that. *)
Lemma valid_alternative_gain alt :
  Forall (λ x, Qle_bool eps x = true) (chosen_probs W alt) →
  (Qsum (chosen_probs W alt) <= Qsum (take (length (chosen_probs W alt)) (@sort_descending HS cand_values)))%Q ∧
  length (chosen_probs W alt) ≤ length cand_values.
Proof.
  intros Hv. assert (Hs : chosen_probs W alt `sublist_of` cand_values).
  { rewrite <- (filter_all (λ x, Qle_bool eps x = true) (chosen_probs W alt)) by done. apply sublist_filter_mono, chosen_sublist. }
  split; [|by apply sublist_length]. apply topk_submseteq; [|apply sort_descending_sorted| |done].
  - rewrite sort_descending_perm. by apply sublist_submseteq.
  - rewrite sort_descending_perm. apply values_nonneg.
Qed.
End optimal.

(** ** The schedule is optimal *)

(** Draft tokens that the lengths verify (every request verifies its anchor besides), and the
    expected number of them that is accepted. *)
Definition spent (lens : list Z) : Z := zsum ((λ l, (l - 1)%Z) <$> lens).
Definition extras_of_lens (lens : list Z) : list nat := (λ l, Z.to_nat (l - 1)) <$> lens.
Definition expected_accepted (survival : list (list Q)) (lens : list Z) : Q := Qsum (chosen_probs survival (extras_of_lens lens)).

Definition lens_ok (cfg : DSparkScheduleConfig) (n : nat) (lens : list Z) : Prop :=
  length lens = n ∧ Forall (λ l, 1 <= l <= gamma cfg + 1)%Z lens.

(** The configuration that the worker builds: every request verifies its anchor and at most the
    whole draft. *)
Definition whole_draft (cfg : DSparkScheduleConfig) : Prop :=
  min_verify_len cfg = 1%Z ∧ resolved_max_verify_len cfg = (gamma cfg + 1)%Z.

Lemma spent_extras lens : Forall (λ l, 1 <= l)%Z lens → spent lens = Z.of_nat (sum_list (extras_of_lens lens)).
Proof.
  unfold spent, extras_of_lens. induction 1 as [|l lens Hl _ IH]; [done|]. rewrite !fmap_cons, zsum_cons, IH. cbn. lia.
Qed.

Section whole.
Context (cfg : DSparkScheduleConfig) (confidence : list (list Q)).
Hypothesis Hin : schedule_input_ok cfg confidence.
Hypothesis Hwhole : whole_draft cfg.
Hypothesis Hconf : Forall (Forall (λ x, 0 <= x <= 1)%Q) confidence.

Notation W := (compute_sort_survival confidence).
Notation cols := (window_cols cfg).

Lemma gamma_pos : (1 <= gamma cfg)%Z.
Proof. destruct Hin as [Hc _ _]. apply validate_ok in Hc. lia. Qed.

Lemma cols_gamma : cols = Z.to_nat (gamma cfg).
Proof. unfold window_cols. destruct Hwhole as [_ ->]. f_equal. lia. Qed.

Lemma window_whole : survival_window cfg confidence = W.
Proof.
  rewrite survival_window_eq by done. apply list_fmap_ext. intros i row Hi. destruct Hin as [_ _ Hrows].
  rewrite Forall_lookup in Hrows. apply take_ge. rewrite length_Qcumprod, (Hrows _ _ Hi), cols_gamma. done.
Qed.

Lemma whole_uniform : Forall (λ row, length row = cols) W.
Proof. rewrite <- window_whole. by apply survival_window_uniform. Qed.

Lemma whole_descending : Forall descending_values W.
Proof. apply Forall_fmap. eapply Forall_impl; [exact Hconf|]. intros row Hrow. unfold compose. apply Qcumprod_descending; [lra|done]. Qed.

Lemma whole_nonneg : Forall (Forall (λ x, 0 <= x)%Q) W.
Proof.
  apply Forall_fmap. eapply Forall_impl; [exact Hconf|]. intros row Hrow. unfold compose.
  destruct (Qcumprod_descending 1 row ltac:(lra) Hrow) as [_ H]. eapply Forall_impl; [exact H|]. cbn. intros y Hy. lra.
Qed.

Lemma eps_whole : (0 <= survival_eps cfg)%Q.
Proof. destruct Hin as [Hc _ _]. apply validate_ok in Hc. by destruct Hc as (_ & _ & _ & _ & _ & H). Qed.

Lemma cols_pos' : 0 < cols.
Proof. by eapply window_cols_pos. Qed.

Lemma scheduled_lens_eq budget :
  scheduled_lens cfg confidence budget = (λ r, (1 + extra_of W (survival_eps cfg) cols budget r)%Z) <$> seq 0 (length confidence).
Proof.
  unfold scheduled_lens. rewrite window_whole. apply list_fmap_ext. intros i r Hr. apply lookup_seq in Hr as [-> Hr].
  unfold lens_of_extra. destruct Hwhole as [-> ->]. cbn [Nat.add].
  pose proof (extra_of_range W (survival_eps cfg) cols cols_pos' budget i) as He.
  unfold compute_sort_survival in He at 1. rewrite length_fmap in He. specialize (He Hr). rewrite cols_gamma in He |- *. pose proof gamma_pos. lia.
Qed.

Lemma scheduled_extras budget : extras_of_lens (scheduled_lens cfg confidence budget) = extras W (survival_eps cfg) cols budget.
Proof.
  rewrite scheduled_lens_eq. unfold extras_of_lens, extras, compute_sort_survival. rewrite <- list_fmap_compose, length_fmap.
  apply list_fmap_ext. intros i r _. unfold compose. f_equal. lia.
Qed.

Lemma scheduled_lens_ok budget : lens_ok cfg (length confidence) (scheduled_lens cfg confidence budget).
Proof.
  rewrite scheduled_lens_eq. split; [by rewrite length_fmap, length_seq|]. apply Forall_fmap, Forall_seq. intros r Hr. unfold compose.
  pose proof (extra_of_range W (survival_eps cfg) cols cols_pos' budget r) as He.
  unfold compute_sort_survival in He at 1. rewrite length_fmap in He. specialize (He ltac:(lia)). rewrite cols_gamma in He |- *. pose proof gamma_pos. lia.
Qed.

Lemma lens_chosen_length lens :
  lens_ok cfg (length confidence) lens → Z.of_nat (length (chosen_probs W (extras_of_lens lens))) = spent lens.
Proof.
  intros [Hlen Hl]. rewrite spent_extras by (forall_impl Hl). f_equal. apply length_chosen with (k := cols).
  - apply whole_uniform.
  - unfold extras_of_lens. apply Forall_fmap. eapply Forall_impl; [exact Hl|]. intros l H. unfold compose. rewrite cols_gamma. cbn beta in *. lia.
  - unfold extras_of_lens, compute_sort_survival. by rewrite !length_fmap.
Qed.
End whole.

(** C8: The scheduled verify lengths make the best use of the budget.  For confidences in the
    unit interval and the configuration of the worker, scheduling returns one length per request,
    between the anchor alone and the whole draft, that verify at most [budget] draft tokens; and
    no other such lengths have a larger expected number of accepted drafts (the sum of the
    survival probabilities of the drafts verified), except for candidates below the threshold
    [survival_eps], which the schedule never verifies. *)
Theorem topk_schedule_optimal `{TorchArgsortLaws} (cfg : DSparkScheduleConfig) (confidence : list (list Q)) (budget : Z) :
  schedule_input_ok cfg confidence → whole_draft cfg → Forall (Forall (λ x, 0 <= x <= 1)%Q) confidence → (0 <= budget)%Z →
  ∃ lens, schedule_verify_lens_topk confidence budget cfg = Ok lens ∧
    lens_ok cfg (length confidence) lens ∧ (spent lens <= budget)%Z ∧
    ∀ alt, lens_ok cfg (length confidence) alt → (spent alt <= budget)%Z →
      (expected_accepted (compute_sort_survival confidence) alt <=
       expected_accepted (compute_sort_survival confidence) lens + survival_eps cfg * inject_Z budget)%Q.
Proof.
  intros Hin Hw Hc Hb. exists (scheduled_lens cfg confidence budget). split; [by apply schedule_torch_ok|].
  pose proof (scheduled_lens_ok cfg confidence Hin Hw budget) as Hok. split; [done|].
  pose proof (whole_uniform cfg confidence Hin Hw) as Hu. pose proof (whole_descending confidence Hc) as Hd.
  pose proof (whole_nonneg confidence Hc) as Hn. pose proof (cols_pos' cfg confidence Hin) as Hp.
  unfold expected_accepted. rewrite scheduled_extras by done. split.
  - rewrite <- (lens_chosen_length cfg confidence Hin Hw) by done. rewrite scheduled_extras by done.
    rewrite (scheduled_count _ _ _ Hp Hu Hd) by done. lia.
  - intros alt Halt Hs. rewrite (scheduled_gain _ _ _ Hp Hu Hd Hn) by done.
    replace (inject_Z budget) with (inject_Z (Z.of_nat (Z.to_nat budget))) by (f_equal; lia).
    apply (alternative_gain _ _ _ Hp Hu Hn).
    + by eapply eps_whole.
    + done.
    + rewrite <- (lens_chosen_length cfg confidence Hin Hw) in Hs by done. lia.
Qed.


Lemma topk_schedule_optimal_witness :
  ∃ lens, schedule_verify_lens_topk tiny_confidence 2 tiny_cfg = Ok lens ∧
    lens_ok tiny_cfg (length tiny_confidence) lens ∧ (spent lens <= 2)%Z ∧
    ∀ alt, lens_ok tiny_cfg (length tiny_confidence) alt → (spent alt <= 2)%Z →
      (expected_accepted (compute_sort_survival tiny_confidence) alt <=
       expected_accepted (compute_sort_survival tiny_confidence) lens + survival_eps tiny_cfg * inject_Z 2)%Q.
Proof.
  apply (topk_schedule_optimal tiny_cfg tiny_confidence 2).
  - apply tiny_input_ok.
  - split; reflexivity.
  - repeat constructor; cbn; unfold Qle; cbn; lia.
  - lia.
Defined.

(** Two requests, [gamma] 2 and at most 2 verified tokens: the second column of the window can
    never be verified, and the candidates in it take the budget of the others. *)
Example capped_window_wastes_budget :
  schedule_verify_lens_topk [[9 # 10; 1]; [1 # 2; 1]]%Q 2 (mkScheduleConfig 2 1 2 (1 # 1000000)) = Ok [2; 1]%Z.
Proof. vm_compute. reflexivity. Qed.
