(* ===== verification/DSparkSps.v ===== *)
(** * DSparkSps: cost tables of a verification step

    Models [S/speculative/dspark_components/dspark_sps.py]: the profiled tables that predict the
    speed of a step from the number of tokens it verifies, and the tensor versions of their
    lookups in [dspark_planner.py].  Floats are rational numbers. *)

From S2P Require Import Prelude Sampling TensorOps.
#[local] Open Scope Z_scope.

(** ** Python on lists of integers *)

(** [l[i]], where a negative [i] counts from the end. *)
Definition py_nth {A} (l : list A) (i : Z) : result A :=
  let j := if i <? 0 then Z.of_nat (length l) + i else i in
  if j <? 0 then Raise IndexError
  else match l !! Z.to_nat j with Some x => Ok x | None => Raise IndexError end.

(** [sorted(set(l))]. *)
Definition sorted_set (l : list Z) : list Z := merge_sort Z.le (remove_dups l).

(** [bisect.bisect_right(xs, x)] of integers and a float. *)
Definition bisect_right_float (xs : list Z) (x : Q) : nat := leading (λ y, Qle_bool (inject_Z y) x) xs.

(** ** The step table *)

Definition floor_probe_index (edges : list Z) (batch_tokens : Z) : Z :=
  let idx := Z.of_nat (py_bisect_right edges batch_tokens) - 1 in
  Z.max 0 (Z.min idx (Z.of_nat (length edges) - 1)).

Record SpsCostTable : Type := mkSpsCostTable {
  sample_batch_tokens : list Z;
  sample_steps_per_sec : list Q;
  max_batch_tokens : Z;
}.

(** [__post_init__]. *)
Definition sps_post_init (t : SpsCostTable) : result SpsCostTable :=
  match last (sample_batch_tokens t) with
  | None => Raise ValueError
  | Some top =>
      _ ← py_check ValueError (bool_decide (sample_batch_tokens t = sorted_set (sample_batch_tokens t)));
      _ ← py_check ValueError (length (sample_batch_tokens t) =? length (sample_steps_per_sec t))%nat;
      _ ← py_check ValueError (negb (max_batch_tokens t <? top));
      Ok t
  end.

Definition sps_lookup (t : SpsCostTable) (batch_tokens : Z) : result Q :=
  py_nth (sample_steps_per_sec t) (floor_probe_index (sample_batch_tokens t) batch_tokens).

Definition sps_table (tokens : list Z) (steps : list Q) (max_tokens : Z) : result SpsCostTable :=
  sps_post_init (mkSpsCostTable tokens steps max_tokens).

(** One turn of the loop of [profile_sps_table]. *)
Definition profile_step (acc : list Z * list Q) (probe : Z * Q) : result (list Z * list Q) :=
  let '(tokens, steps) := acc in
  let '(batch_tokens, steps_per_sec) := probe in
  _ ← py_check ValueError (negb (batch_tokens <? 1));
  _ ← py_check ValueError (match last tokens with Some t => negb (batch_tokens =? t) | None => true end);
  Ok (tokens ++ [batch_tokens], steps ++ [steps_per_sec]).

Fixpoint profile_loop (acc : list Z * list Q) (probes : list (Z * Q)) : result (list Z * list Q) :=
  match probes with
  | [] => Ok acc
  | probe :: probes => acc ← profile_step acc probe; profile_loop acc probes
  end.

Definition probe_le (p q : Z * Q) : Prop := p.1 <= q.1.
#[export] Instance probe_le_dec p q : Decision (probe_le p q) := Z_le_dec p.1 q.1.

(** [sorted(probes, key=lambda probe: probe[0])] is [merge_sort probe_le]. *)
Definition profile_sps_table (probes : list (Z * Q)) (max_batch_tokens : option Z) : result SpsCostTable :=
  _ ← py_check ValueError (match probes with [] => false | _ => true end);
  sampled ← profile_loop ([], []) (merge_sort probe_le probes);
  resolved_max ← match max_batch_tokens with Some m => Ok m | None => py_nth sampled.1 (-1) end;
  sps_table sampled.1 sampled.2 resolved_max.

Definition build_uninitialized_sps_table (max_batch_tokens : Z) : result SpsCostTable := sps_table [1] [1%Q] max_batch_tokens.

(** ** The additive table *)

Definition _interp_clamped (xs : list Z) (ys : list Q) (x : Q) : result Q :=
  x0 ← py_nth xs 0;
  if Qle_bool x (inject_Z x0) then py_nth ys 0
  else
    xn ← py_nth xs (-1);
    if Qle_bool (inject_Z xn) x then py_nth ys (-1)
    else
      let hi := Z.of_nat (bisect_right_float xs x) in
      let lo := hi - 1 in
      xlo ← py_nth xs lo;
      xhi ← py_nth xs hi;
      ylo ← py_nth ys lo;
      yhi ← py_nth ys hi;
      _ ← py_check ZeroDivisionError (negb (xhi =? xlo));
      let frac := ((x - inject_Z xlo) / (inject_Z xhi - inject_Z xlo))%Q in
      Ok (ylo + frac * (yhi - ylo))%Q.

Record SpsAdditiveCostTable : Type := mkAdditiveTable {
  bias_seconds : Q;
  bs_probes : list Z;
  alpha_seconds : list Q;
  m_probes : list Z;
  theta_seconds : list Q;
}.

(** One turn of the loop of [__post_init__]. *)
Definition additive_check (probes : list Z) (values : list Q) : result unit :=
  _ ← py_check ValueError (match probes with [] => false | _ => true end);
  _ ← py_check ValueError (bool_decide (probes = sorted_set probes));
  py_check ValueError (length probes =? length values)%nat.

Definition additive_post_init (t : SpsAdditiveCostTable) : result SpsAdditiveCostTable :=
  _ ← additive_check (bs_probes t) (alpha_seconds t);
  _ ← additive_check (m_probes t) (theta_seconds t);
  _ ← py_check ValueError (negb (Qle_bool (bias_seconds t) 0));
  Ok t.

Definition step_time (t : SpsAdditiveCostTable) (num_reqs budget : Z) : result Q :=
  alpha ← _interp_clamped (bs_probes t) (alpha_seconds t) (inject_Z num_reqs);
  theta ← _interp_clamped (m_probes t) (theta_seconds t) (inject_Z (num_reqs + budget));
  Ok (bias_seconds t + alpha + theta)%Q.

(** [Union[SpsCostTable, SpsAdditiveCostTable]]. *)
Inductive CostTable : Type := Steps (t : SpsCostTable) | Additive (t : SpsAdditiveCostTable).

Definition is_uninitialized_sps_table (t : CostTable) : bool :=
  match t with Additive _ => false | Steps t => (length (sample_batch_tokens t) <=? 1)%nat end.

(** ** The tensor versions *)

(** [tensor.clamp(lo, hi)]: the upper bound wins. *)
Definition clampZ (lo hi x : Z) : Z := Z.min hi (Z.max lo x).
Definition Qminb (x y : Q) : Q := if Qle_bool x y then x else y.
Definition Qmaxb (x y : Q) : Q := if Qle_bool x y then y else x.
Definition clampQ (lo hi x : Q) : Q := Qminb hi (Qmaxb lo x).

Definition _lookup_sps_tensor (t : SpsCostTable) (batch_tokens : list Z) : result (list Q) :=
  let probes := sample_batch_tokens t in
  let idx := (λ b, Z.of_nat (py_bisect_right probes b) - 1) <$> batch_tokens in
  let idx := (λ i, clampZ 0 (Z.of_nat (length probes) - 1) i) <$> idx in
  mapM (py_nth (sample_steps_per_sec t)) idx.

(** One element of the tensors of [_additive_step_time_tensor]. *)
Definition additive_lane (t : SpsAdditiveCostTable) (m0 mn : Z) (m : Q) : result Q :=
  let m := clampQ (inject_Z m0) (inject_Z mn) m in
  let hi := clampZ 1 (Z.of_nat (length (m_probes t)) - 1) (Z.of_nat (bisect_right_float (m_probes t) m)) in
  let lo := hi - 1 in
  mhi ← py_nth (m_probes t) hi;
  mlo ← py_nth (m_probes t) lo;
  let span := Qmaxb (1 # 1000000000) (inject_Z mhi - inject_Z mlo) in
  let frac := ((m - inject_Z mlo) / span)%Q in
  tlo ← py_nth (theta_seconds t) lo;
  thi ← py_nth (theta_seconds t) hi;
  Ok (tlo + frac * (thi - tlo))%Q.

Definition _additive_step_time_tensor (t : SpsAdditiveCostTable) (num_requests : Z) (num_budgets : nat) : result (list Q) :=
  alpha ← _interp_clamped (bs_probes t) (alpha_seconds t) (inject_Z num_requests);
  let floor := (bias_seconds t + alpha)%Q in
  m0 ← py_nth (m_probes t) 0;
  mn ← py_nth (m_probes t) (-1);
  theta_at_m ← mapM (λ b, additive_lane t m0 mn (inject_Z num_requests + inject_Z (Z.of_nat b))) (seq 0 num_budgets);
  Ok ((λ x, floor + x)%Q <$> theta_at_m).

(** ** Lemmas *)

Lemma py_nth_lookup {A} (l : list A) i x : l !! i = Some x → py_nth l (Z.of_nat i) = Ok x.
Proof.
  intros Hi. unfold py_nth. rewrite (proj2 (Z.ltb_ge (Z.of_nat i) 0)) by lia.
  rewrite (proj2 (Z.ltb_ge _ 0)) by lia. by rewrite Nat2Z.id, Hi.
Qed.

Lemma py_nth_at {A} (l : list A) z x : 0 <= z → l !! Z.to_nat z = Some x → py_nth l z = Ok x.
Proof. intros Hz Hx. rewrite <- (Z2Nat.id z Hz). by apply py_nth_lookup. Qed.

Lemma py_nth_last {A} (l : list A) x : last l = Some x → py_nth l (-1) = Ok x.
Proof.
  intros Hl. rewrite last_lookup in Hl. pose proof (lookup_lt_Some _ _ _ Hl). unfold py_nth. cbn [Z.ltb Z.compare].
  rewrite (proj2 (Z.ltb_ge _ 0)) by lia. replace (Z.to_nat (Z.of_nat (length l) + -1)) with (pred (length l)) by lia. by rewrite Hl.
Qed.

(** A list is its own sorted set exactly when it increases strictly. *)
Lemma increasing_NoDup l : StronglySorted Z.lt l → NoDup l.
Proof.
  induction 1 as [|x l _ IH Hx]; constructor; [|done]. intros Hin. rewrite Forall_forall in Hx. specialize (Hx _ Hin). lia.
Qed.

Lemma increasing_le l : StronglySorted Z.lt l → StronglySorted Z.le l.
Proof. induction 1 as [|x l _ IH Hx]; constructor; [done|]. eapply Forall_impl; [exact Hx|]. cbn. lia. Qed.

Lemma sorted_set_perm l : sorted_set l ≡ₚ remove_dups l.
Proof. apply merge_sort_Permutation. Qed.

Lemma sorted_set_sorted l : StronglySorted Z.le (sorted_set l).
Proof. apply StronglySorted_merge_sort; [intros ???; lia|intros ??; lia]. Qed.

Lemma elem_of_sorted_set x l : x ∈ sorted_set l ↔ x ∈ l.
Proof. by rewrite sorted_set_perm, elem_of_remove_dups. Qed.

Lemma increasing_of_sorted l : StronglySorted Z.le l → NoDup l → StronglySorted Z.lt l.
Proof.
  intros Hs. induction Hs as [|x l _ IH Hx]; intros Hnd; constructor.
  - apply IH. by apply NoDup_cons in Hnd as [_ Hnd].
  - apply NoDup_cons in Hnd as [Hni _]. rewrite Forall_forall in Hx |- *. intros y Hy. specialize (Hx _ Hy).
    assert (x ≠ y) by (by intros ->). lia.
Qed.

Lemma sorted_set_increasing l : StronglySorted Z.lt (sorted_set l).
Proof. apply increasing_of_sorted; [apply sorted_set_sorted|]. rewrite sorted_set_perm. apply NoDup_remove_dups. Qed.

Lemma increasing_sorted_set l : l = sorted_set l ↔ StronglySorted Z.lt l.
Proof.
  split.
  - intros ->. apply sorted_set_increasing.
  - intros Hs. unfold sorted_set. apply (StronglySorted_unique Z.le).
    + by apply increasing_le.
    + apply StronglySorted_merge_sort; [intros ???; lia|intros ??; lia].
    + rewrite merge_sort_Permutation. apply NoDup_Permutation; [by apply increasing_NoDup|apply NoDup_remove_dups|].
      intros x. by rewrite elem_of_remove_dups.
Qed.

Lemma increasing_lookup l i j x y : StronglySorted Z.lt l → (i < j)%nat → l !! i = Some x → l !! j = Some y → x < y.
Proof.
  intros Hl. revert i j. induction Hl as [|a l _ IH Ha]; intros i j Hij Hi Hj; [done|].
  destruct j as [|j]; [lia|]. destruct i as [|i]; cbn in Hi, Hj.
  - injection Hi as <-. rewrite Forall_forall in Ha. apply Ha. by eapply list_elem_of_lookup_2.
  - apply (IH i j); (lia || done).
Qed.

Lemma increasing_lookup_le l i j x y : StronglySorted Z.lt l → (i <= j)%nat → l !! i = Some x → l !! j = Some y → x <= y.
Proof.
  intros Hl Hij Hi Hj. destruct (Nat.eq_dec i j) as [->|]; [simplify_eq; lia|].
  enough (x < y) by lia. apply (increasing_lookup l i j); (done || lia).
Qed.

(** ** Validated tables *)

Record steps_ok (t : SpsCostTable) : Prop := {
  so_nonempty : sample_batch_tokens t ≠ [];
  so_increasing : StronglySorted Z.lt (sample_batch_tokens t);
  so_length : length (sample_steps_per_sec t) = length (sample_batch_tokens t);
  so_max : ∀ top, last (sample_batch_tokens t) = Some top → top <= max_batch_tokens t;
}.

(** The constructor accepts exactly the tables of [steps_ok]. *)
Lemma sps_post_init_ok t : sps_post_init t = Ok t ↔ steps_ok t.
Proof.
  unfold sps_post_init. destruct (last (sample_batch_tokens t)) as [top|] eqn:El; cycle 1.
  { apply last_None in El. split; [done|]. intros [H _ _ _]. done. }
  split.
  - intros H. inv_ok. b2p. constructor.
    + intros E. by rewrite E in El.
    + by apply increasing_sorted_set.
    + done.
    + intros top' Htop. rewrite El in Htop. injection Htop as <-. done.
  - intros [Hne Hs Hlen Hm]. apply increasing_sorted_set in Hs.
    rewrite (py_check_true _ (bool_decide _)) by (by apply bool_decide_eq_true_2). cbn [mbind result_bind].
    rewrite (py_check_true _ (_ =? _)%nat) by (rewrite Hlen; apply Nat.eqb_refl). cbn [mbind result_bind].
    rewrite py_check_true by (specialize (Hm _ El); apply negb_true_iff, Z.ltb_ge; lia). done.
Qed.

(** ** Lookups *)

Lemma floor_probe_clamp edges b :
  edges ≠ [] → floor_probe_index edges b = clampZ 0 (Z.of_nat (length edges) - 1) (Z.of_nat (py_bisect_right edges b) - 1).
Proof. intros H. unfold floor_probe_index, clampZ. destruct edges; [done|]. cbn [length]. lia. Qed.

Lemma floor_probe_range edges b : edges ≠ [] → 0 <= floor_probe_index edges b < Z.of_nat (length edges).
Proof. intros H. unfold floor_probe_index. destruct edges; [done|]. cbn [length]. lia. Qed.

Lemma sps_lookup_ok t b :
  steps_ok t → ∃ s, sps_lookup t b = Ok s ∧ sample_steps_per_sec t !! Z.to_nat (floor_probe_index (sample_batch_tokens t) b) = Some s.
Proof.
  intros [Hne _ Hlen _]. pose proof (floor_probe_range _ b Hne). unfold sps_lookup.
  destruct (lookup_lt_is_Some_2 (sample_steps_per_sec t) (Z.to_nat (floor_probe_index (sample_batch_tokens t) b))) as [s Hs]; [lia|].
  exists s. split; [|done]. apply py_nth_at; [lia|done].
Qed.

Lemma lookup_sps_tensor_eq t tokens : steps_ok t → _lookup_sps_tensor t tokens = mapM (sps_lookup t) tokens.
Proof.
  intros Hok. unfold _lookup_sps_tensor. rewrite <- list_fmap_compose.
  rewrite (list_fmap_ext _ (floor_probe_index (sample_batch_tokens t))); cycle 1.
  { intros i b _. symmetry. apply floor_probe_clamp, Hok. }
  induction tokens as [|b tokens IH]; [done|]. cbn [fmap list_fmap mapM] in *. by rewrite IH.
Qed.

(** The table answers with the speed of the largest probe that is not larger. *)
Lemma sps_lookup_probe t i b s :
  steps_ok t → sample_batch_tokens t !! i = Some b → sample_steps_per_sec t !! i = Some s → sps_lookup t b = Ok s.
Proof.
  intros [Hne Hs Hlen _] Hi Hsi. pose proof (lookup_lt_Some _ _ _ Hi).
  assert (E : py_bisect_right (sample_batch_tokens t) b = S i).
  { apply leading_unique; [lia| |].
    - intros j y Hj Hy. apply Z.leb_le. by apply (increasing_lookup_le _ j i _ _ Hs ltac:(lia)).
    - intros y Hy. apply Z.leb_gt. apply (increasing_lookup _ i (S i) b y Hs); (lia || done). }
  unfold sps_lookup, floor_probe_index. rewrite E. apply py_nth_at; [lia|].
  replace (Z.to_nat _) with i by lia. done.
Qed.

(** ** Interpolation on integers *)

Lemma Qle_inject a b : Qle_bool (inject_Z a) (inject_Z b) = (a <=? b).
Proof. unfold Qle_bool, inject_Z. cbn. by rewrite !Z.mul_1_r. Qed.

Lemma bisect_right_inject xs z : bisect_right_float xs (inject_Z z) = py_bisect_right xs z.
Proof. induction xs as [|x xs IH]; [done|]. cbn. rewrite Qle_inject. destruct (x <=? z); [by f_equal|done]. Qed.

Lemma clampQ_inject lo hi z : clampQ (inject_Z lo) (inject_Z hi) (inject_Z z) = inject_Z (clampZ lo hi z).
Proof.
  unfold clampQ, clampZ, Qminb, Qmaxb. rewrite Qle_inject. destruct (Z.leb_spec lo z).
  - rewrite Z.max_r, Qle_inject by lia. destruct (Z.leb_spec hi z); [by rewrite Z.min_l by lia|by rewrite Z.min_r by lia].
  - rewrite Z.max_l, Qle_inject by lia. destruct (Z.leb_spec hi lo); [by rewrite Z.min_l by lia|by rewrite Z.min_r by lia].
Qed.

Lemma Qmaxb_span a b : a < b → Qmaxb (1 # 1000000000) (inject_Z b - inject_Z a) = (inject_Z b - inject_Z a)%Q.
Proof.
  intros H. unfold Qmaxb. rewrite (proj2 (Qle_bool_iff _ _)); [done|].
  assert (inject_Z a + 1 <= inject_Z b)%Q by (change 1%Q with (inject_Z 1); rewrite <- inject_Z_plus, <- Zle_Qle; lia). lra.
Qed.

Section interp.
Context (xs : list Z) (ys : list Q) (x0 xn : Z) (y0 yn : Q).
Hypothesis xs_increasing : StronglySorted Z.lt xs.
Hypothesis xs_ys : length ys = length xs.
Hypothesis at_x0 : xs !! 0%nat = Some x0.
Hypothesis at_y0 : ys !! 0%nat = Some y0.
Hypothesis at_xn : xs !! pred (length xs) = Some xn.
Hypothesis at_yn : ys !! pred (length xs) = Some yn.

Lemma xs_pos : (0 < length xs)%nat.
Proof. by apply lookup_lt_Some in at_x0. Qed.

Lemma bisect_range z : x0 <= z < xn → (1 <= py_bisect_right xs z <= pred (length xs))%nat.
Proof.
  intros Hz. pose proof (leading_le (λ y, y <=? z) xs) as Hle. fold (py_bisect_right xs z) in Hle. split.
  - destruct (py_bisect_right xs z) eqn:E; [|lia]. unfold py_bisect_right in E. pose proof at_x0 as H. rewrite <- E in H.
    apply leading_at in H. apply Z.leb_gt in H. lia.
  - destruct (Nat.le_gt_cases (py_bisect_right xs z) (pred (length xs))) as [|Hgt]; [done|].
    pose proof (leading_before _ _ _ _ Hgt at_xn) as H. apply Z.leb_le in H. lia.
Qed.

Lemma bisect_last : py_bisect_right xs xn = length xs.
Proof.
  apply leading_unique; [done| |].
  - intros j y Hj Hy. apply Z.leb_le. by apply (increasing_lookup_le _ j (pred (length xs)) _ _ xs_increasing ltac:(lia)).
  - intros y Hy. apply lookup_lt_Some in Hy. lia.
Qed.

Lemma bisect_first : py_bisect_right xs x0 = 1%nat.
Proof.
  pose proof xs_pos. apply leading_unique; [done| |].
  - intros j y Hj Hy. replace j with 0%nat in Hy by lia. simplify_eq. apply Z.leb_le. lia.
  - intros y Hy. apply Z.leb_gt. by apply (increasing_lookup _ 0 1 _ _ xs_increasing ltac:(lia)).
Qed.

Lemma ends_le : x0 <= xn.
Proof. pose proof xs_pos. by apply (increasing_lookup_le xs 0 (pred (length xs)) _ _ xs_increasing ltac:(lia)). Qed.

(** The table's neighbours of a position strictly inside. *)
Lemma neighbours hi :
  (1 <= hi <= pred (length xs))%nat →
  ∃ a b ya yb, py_nth xs (Z.of_nat hi - 1) = Ok a ∧ py_nth xs (Z.of_nat hi) = Ok b ∧ a < b ∧
    py_nth ys (Z.of_nat hi - 1) = Ok ya ∧ py_nth ys (Z.of_nat hi) = Ok yb ∧
    xs !! pred hi = Some a ∧ ys !! pred hi = Some ya ∧ xs !! hi = Some b ∧ ys !! hi = Some yb.
Proof.
  intros Hhi. pose proof xs_pos.
  destruct (lookup_lt_is_Some_2 xs (pred hi)) as [a Ha]; [lia|]. destruct (lookup_lt_is_Some_2 xs hi) as [b Hb]; [lia|].
  destruct (lookup_lt_is_Some_2 ys (pred hi)) as [ya Hya]; [lia|]. destruct (lookup_lt_is_Some_2 ys hi) as [yb Hyb]; [lia|].
  exists a, b, ya, yb. replace (Z.of_nat hi - 1) with (Z.of_nat (pred hi)) by lia.
  split_and!; try done; try (by apply py_nth_lookup). apply (increasing_lookup xs (pred hi) hi _ _ xs_increasing); (done || lia).
Qed.

Lemma py_nth_0 {A} (l : list A) x : l !! 0%nat = Some x → py_nth l 0 = Ok x.
Proof. apply (py_nth_lookup l 0). Qed.

Lemma py_nth_end {A} (l : list A) x : l !! pred (length l) = Some x → py_nth l (-1) = Ok x.
Proof. intros H. apply py_nth_last. by rewrite last_lookup. Qed.

Lemma interp_cases z :
  ∃ v, _interp_clamped xs ys (inject_Z z) = Ok v ∧ (z <= x0 → v = y0) ∧ (x0 < z → xn <= z → v = yn) ∧
    (x0 < z < xn → ∃ a b ya yb, py_nth xs (Z.of_nat (py_bisect_right xs z) - 1) = Ok a ∧ py_nth xs (Z.of_nat (py_bisect_right xs z)) = Ok b ∧
      a < b ∧ py_nth ys (Z.of_nat (py_bisect_right xs z) - 1) = Ok ya ∧ py_nth ys (Z.of_nat (py_bisect_right xs z)) = Ok yb ∧
      v = (ya + (inject_Z z - inject_Z a) / (inject_Z b - inject_Z a) * (yb - ya))%Q).
Proof.
  unfold _interp_clamped. rewrite (py_nth_0 xs x0), (py_nth_0 ys y0), (py_nth_end xs xn), (py_nth_end ys yn) by (done || by rewrite xs_ys).
  cbn [mbind result_bind]. rewrite !Qle_inject.
  destruct (Z.leb_spec z x0); [exists y0; split_and!; (done || lia)|].
  destruct (Z.leb_spec xn z); [exists yn; split_and!; (done || lia)|]. rewrite bisect_right_inject.
  destruct (neighbours (py_bisect_right xs z)) as (a & b & ya & yb & -> & -> & Hab & -> & -> & _); [by apply bisect_range; lia|].
  cbn [mbind result_bind]. rewrite py_check_true by (apply negb_true_iff, Z.eqb_neq; lia). cbn [mbind result_bind].
  eexists. split; [done|]. split_and!; [lia..|]. intros _. by exists a, b, ya, yb.
Qed.

(** Outside the probes, and at the ends, the table answers with its first or last value. *)
Lemma interp_ends z v : _interp_clamped xs ys (inject_Z z) = Ok v → (z <= x0 → v = y0) ∧ (xn <= z → v = yn).
Proof.
  intros Ev. destruct (interp_cases z) as (v' & Ev' & Hlo & Hhi & _). rewrite Ev in Ev'. injection Ev' as <-.
  split; [done|]. intros Hz. destruct (Z.lt_ge_cases x0 z); [by apply Hhi|].
  pose proof ends_le. assert (Hx : x0 = xn) by lia. rewrite Hlo by lia.
  destruct (Nat.eq_dec (length xs) 1%nat) as [E1|Hne1].
  - pose proof at_yn as H1. rewrite E1 in H1. cbn [pred] in H1. pose proof at_y0. congruence.
  - pose proof xs_pos. pose proof (increasing_lookup xs 0%nat (pred (length xs)) _ _ xs_increasing ltac:(lia) at_x0 at_xn). lia.
Qed.
End interp.

(** ** The additive table *)

Record additive_ok (t : SpsAdditiveCostTable) : Prop := {
  ao_bs_nonempty : bs_probes t ≠ [];
  ao_bs_increasing : StronglySorted Z.lt (bs_probes t);
  ao_bs_length : length (alpha_seconds t) = length (bs_probes t);
  ao_m_nonempty : m_probes t ≠ [];
  ao_m_increasing : StronglySorted Z.lt (m_probes t);
  ao_m_length : length (theta_seconds t) = length (m_probes t);
  ao_bias : (0 < bias_seconds t)%Q;
}.

Lemma additive_check_ok probes values :
  additive_check probes values = Ok tt ↔ probes ≠ [] ∧ StronglySorted Z.lt probes ∧ length values = length probes.
Proof.
  unfold additive_check. split.
  - intros H. inv_ok. b2p. split_and!; [by intros ->|by apply increasing_sorted_set|done].
  - intros (Hne & Hs & Hl). apply increasing_sorted_set in Hs. destruct probes; [done|]. cbn [py_check mbind result_bind].
    rewrite bool_decide_eq_true_2 by done. cbn [py_check mbind result_bind]. rewrite Hl. by apply py_check_true, Nat.eqb_refl.
Qed.

Lemma additive_post_init_ok t : additive_post_init t = Ok t ↔ additive_ok t.
Proof.
  unfold additive_post_init. split.
  - intros H. apply result_bind_Ok in H as ([] & H1%additive_check_ok & H). apply result_bind_Ok in H as ([] & H2%additive_check_ok & H).
    apply result_bind_Ok in H as ([] & H3%py_check_Ok & _). apply negb_true_iff in H3.
    destruct H1 as (? & ? & ?), H2 as (? & ? & ?). constructor; try done.
    apply Qnot_le_lt. intros Hle. apply Qle_bool_iff in Hle. congruence.
  - intros [? ? ? ? ? ? Hb]. rewrite (proj2 (additive_check_ok (bs_probes t) _)), (proj2 (additive_check_ok (m_probes t) _)) by done.
    cbn [mbind result_bind]. rewrite py_check_true; [done|]. apply negb_true_iff, not_true_iff_false. rewrite Qle_bool_iff. lra.
Qed.

Lemma ends_exist {A} (l : list A) : l ≠ [] → ∃ x y, l !! 0%nat = Some x ∧ l !! pred (length l) = Some y.
Proof.
  intros Hl. destruct l as [|x l]; [done|]. destruct (lookup_lt_is_Some_2 (x :: l) (pred (length (x :: l)))) as [y Hy]; [cbn; lia|].
  by exists x, y.
Qed.

(** An element of the tensor is the interpolated value. *)
Lemma additive_lane_ok t x0 xn z :
  additive_ok t → m_probes t !! 0%nat = Some x0 → m_probes t !! pred (length (m_probes t)) = Some xn →
  ∃ v w, _interp_clamped (m_probes t) (theta_seconds t) (inject_Z z) = Ok v ∧
    additive_lane t x0 xn (inject_Z z) = Ok w ∧ (w == v)%Q.
Proof.
  intros Hok H0 Hn. destruct Hok as [_ _ _ Hne Hs Hl _]. set (xs := m_probes t) in *. set (ys := theta_seconds t) in *.
  destruct (ends_exist ys) as (y0 & yn & Hy0 & Hyn); [by destruct xs, ys|]. rewrite Hl in Hyn.
  destruct (interp_cases xs ys x0 xn y0 yn Hs Hl H0 Hy0 Hn Hyn z) as (v & Ev & _ & _ & Hmid).
  exists v. unfold additive_lane. fold xs ys. rewrite clampQ_inject, bisect_right_inject.
  pose proof (ends_le xs ys x0 xn Hs Hl H0 Hn) as Hends. pose proof (xs_pos xs x0 H0) as Hpos.
  pose proof (interp_ends xs ys x0 xn y0 yn Hs Hl H0 Hy0 Hn Hyn z v Ev) as Hv.
  destruct Hv as [Hvlo Hvhi]. destruct (Nat.eq_dec (length xs) 1%nat) as [E1|E1].
  { rewrite E1 in Hn, Hyn |- *. cbn [pred] in Hn, Hyn. rewrite H0 in Hn. rewrite Hy0 in Hyn. injection Hn as <-. injection Hyn as <-.
    replace (clampZ 1 _ _) with 0 by (unfold clampZ; lia). change (0 - 1) with (-1).
    rewrite (py_nth_0 xs x0), (py_nth_0 ys y0), (py_nth_end xs x0), (py_nth_end ys y0) by (done || by rewrite ?Hl, E1).
    cbn [mbind result_bind]. eexists. split; [done|]. split; [done|]. destruct (Z.le_ge_cases z x0); rewrite ?Hvlo, ?Hvhi by lia; ring. }
  assert (Hlen2 : (2 <= length xs)%nat) by lia.
  assert (Hin : ∀ k, (1 <= k <= pred (length xs))%nat → clampZ 1 (Z.of_nat (length xs) - 1) (Z.of_nat k) = Z.of_nat k) by (unfold clampZ; lia).
  destruct (Z.le_gt_cases z x0) as [Hz|Hz]; [|destruct (Z.le_gt_cases xn z) as [Hz'|Hz']].
  - replace (clampZ x0 xn z) with x0 by (unfold clampZ; lia). rewrite (bisect_first xs ys x0 Hs Hl H0), Hin by lia.
    destruct (neighbours xs ys x0 Hs Hl H0 1%nat) as (a & b & ya & yb & -> & -> & Hab & -> & -> & Ea & Eya & _); [lia|]. cbn [pred] in Ea, Eya.
    rewrite H0 in Ea. rewrite Hy0 in Eya. injection Ea as <-. injection Eya as <-.
    cbn [mbind result_bind]. rewrite Qmaxb_span by done. eexists. split; [exact Ev|]. split; [done|].
    rewrite Hvlo by done. unfold Qdiv. ring.
  - replace (clampZ x0 xn z) with xn by (unfold clampZ; lia). rewrite (bisect_last xs ys xn Hs Hl Hn).
    replace (clampZ 1 _ _) with (Z.of_nat (pred (length xs))) by (unfold clampZ; lia).
    destruct (neighbours xs ys x0 Hs Hl H0 (pred (length xs))) as (a & b & ya & yb & -> & -> & Hab & -> & -> & _ & _ & Eb & Eyb); [lia|].
    rewrite Hn in Eb. rewrite Hyn in Eyb. injection Eb as <-. injection Eyb as <-. cbn [mbind result_bind]. rewrite Qmaxb_span by done. eexists. split; [exact Ev|]. split; [done|]. rewrite Hvhi by done.
    assert (~ (inject_Z xn - inject_Z a == 0)%Q) by (rewrite Zlt_Qlt in Hab; lra). field. done.
  - replace (clampZ x0 xn z) with z by (unfold clampZ; lia). rewrite Hin by (apply (bisect_range xs ys x0 xn); (done || lia)).
    destruct Hmid as (a & b & ya & yb & -> & -> & Hab & -> & -> & ->); [lia|]. cbn [mbind result_bind]. rewrite Qmaxb_span by lia.
    by eexists.
Qed.

Lemma step_time_ok t n b : additive_ok t → ∃ s, step_time t n b = Ok s.
Proof.
  intros [Hb1 Hb2 Hb3 Hm1 Hm2 Hm3 _]. unfold step_time.
  destruct (ends_exist (bs_probes t)) as (x0 & xn & H0 & Hn); [done|].
  destruct (ends_exist (alpha_seconds t)) as (y0 & yn & Hy0 & Hyn); [by destruct (alpha_seconds t), (bs_probes t)|]. rewrite Hb3 in Hyn.
  destruct (interp_cases _ _ x0 xn y0 yn Hb2 Hb3 H0 Hy0 Hn Hyn n) as (v & -> & _).
  destruct (ends_exist (m_probes t)) as (u0 & un & G0 & Gn); [done|].
  destruct (ends_exist (theta_seconds t)) as (w0 & wn & Hw0 & Hwn); [by destruct (theta_seconds t), (m_probes t)|]. rewrite Hm3 in Hwn.
  destruct (interp_cases _ _ u0 un w0 wn Hm2 Hm3 G0 Hw0 Gn Hwn (n + b)) as (w & -> & _). by eexists.
Qed.

(** The tensor holds the step times of the budgets 0, 1, ... *)
Lemma additive_tensor_ok t n k :
  additive_ok t →
  ∃ l, _additive_step_time_tensor t n k = Ok l ∧ length l = k ∧
    ∀ b, (b < k)%nat → ∃ s w, step_time t n (Z.of_nat b) = Ok s ∧ l !! b = Some w ∧ (w == s)%Q.
Proof.
  intros Hok. destruct (step_time_ok t n 0 Hok) as (s0 & Hs0). unfold step_time in Hs0.
  unfold _additive_step_time_tensor, step_time. destruct (_interp_clamped (bs_probes t) _ _) as [alpha|]; [|done]. clear Hs0. cbn [mbind result_bind].
  destruct (ends_exist (m_probes t)) as (x0 & xn & H0 & Hn); [apply Hok|].
  rewrite (py_nth_0 _ x0 H0), (py_nth_end _ xn Hn). cbn [mbind result_bind].
  destruct (mapM_Ok_exists (λ b, additive_lane t x0 xn (inject_Z n + inject_Z (Z.of_nat b))) (seq 0 k)) as [l El].
  { apply Forall_seq. intros b _. rewrite <- inject_Z_plus.
    destruct (additive_lane_ok t x0 xn (n + Z.of_nat b) Hok H0 Hn) as (_ & w & _ & Hw & _). eauto. }
  rewrite El. cbn [mbind result_bind]. eexists. split; [done|]. split; [by rewrite length_fmap, (mapM_Ok_length _ _ _ El), length_seq|].
  intros b Hb. destruct (mapM_Ok_lookup _ _ _ b b El) as (w & Hw & Elw); [by rewrite lookup_seq_lt|].
  rewrite <- inject_Z_plus in Elw. destruct (additive_lane_ok t x0 xn (n + Z.of_nat b) Hok H0 Hn) as (v & w' & Ev & Ew & Hvw).
  rewrite Elw in Ew. injection Ew as <-. rewrite Ev. cbn [mbind result_bind]. eexists _, _. split; [done|].
  rewrite list_lookup_fmap, Hw. split; [done|]. by rewrite Hvw.
Qed.

(** ** Assembling a table from probes *)

Definition probe_start (tokens : list Z) (probes : list (Z * Q)) : Prop :=
  match probes with [] => True | p :: _ => ∀ t, last tokens = Some t → t < p.1 end.

Lemma profile_loop_ok probes tokens steps :
  StronglySorted Z.lt probes.*1 → Forall (λ p : Z * Q, 1 <= p.1) probes → probe_start tokens probes →
  profile_loop (tokens, steps) probes = Ok (tokens ++ probes.*1, steps ++ probes.*2).
Proof.
  revert tokens steps. induction probes as [|[b s] probes IH]; intros tokens steps Hs Hp Hst; [by rewrite !app_nil_r|].
  apply Forall_cons in Hp as [H1 Hp]. inversion Hs as [|? ? Hs' Hb]; subst. cbn [fst] in H1. cbn [profile_loop profile_step].
  rewrite (py_check_true _ (negb (b <? 1))) by (apply negb_true_iff, Z.ltb_ge; lia). cbn [mbind result_bind].
  rewrite py_check_true; cycle 1.
  { destruct (last tokens) as [t|] eqn:E; [|done]. specialize (Hst t E). cbn in Hst. apply negb_true_iff, Z.eqb_neq. lia. }
  cbn [mbind result_bind]. assert (Hst' : probe_start (tokens ++ [b]) probes).
  { destruct probes as [|q probes]; [done|]. intros t Ht. rewrite last_snoc in Ht. injection Ht as <-. by apply Forall_cons in Hb as [? _]. }
  rewrite IH, <- !app_assoc by done. done.
Qed.

Lemma merge_probes_increasing probes : NoDup probes.*1 → StronglySorted Z.lt (merge_sort probe_le probes).*1.
Proof.
  intros Hnd. assert (Hs : StronglySorted probe_le (merge_sort probe_le probes)) by
    (apply StronglySorted_merge_sort; unfold probe_le; [intros ???; lia|intros ??; lia]).
  rewrite <- (merge_sort_Permutation probe_le probes) in Hnd. induction Hs as [|p l _ IH Hp]; cbn in *; constructor.
  - apply IH. by apply NoDup_cons in Hnd as [_ ?].
  - apply NoDup_cons in Hnd as [Hni _]. pose proof (proj1 (Forall_forall _ _) Hp) as Hp'. apply Forall_forall. intros b (q & -> & Hq)%list_elem_of_fmap.
    specialize (Hp' _ Hq). unfold probe_le in Hp'. assert (p.1 ≠ q.1) by (intros E; apply Hni; rewrite E; by apply list_elem_of_fmap_2). lia.
Qed.

(** Distinct positive probes are accepted, and the table answers each of them with its speed. *)
Lemma profile_sps_table_lookup probes :
  probes ≠ [] → NoDup probes.*1 → Forall (λ p : Z * Q, 1 <= p.1) probes →
  ∃ t, profile_sps_table probes None = Ok t ∧ steps_ok t ∧ ∀ b s, (b, s) ∈ probes → sps_lookup t b = Ok s.
Proof.
  intros Hne Hnd H1. pose proof (merge_probes_increasing probes Hnd) as Hs. pose proof (merge_sort_Permutation probe_le probes) as Hp.
  unfold profile_sps_table. set (l := merge_sort probe_le probes) in *.
  rewrite py_check_true by (by destruct probes). cbn [mbind result_bind].
  rewrite profile_loop_ok by (done || by rewrite Hp || by destruct l). cbn [mbind result_bind fst snd app].
  assert (Hl : l.*1 ≠ []) by (intros E%fmap_nil_inv; rewrite E in Hp; apply Permutation_nil_l in Hp; done).
  destruct (ends_exist l.*1 Hl) as (x0 & xn & Hx0 & Hxn). rewrite (py_nth_end _ _ Hxn). cbn [mbind result_bind].
  assert (Hok : steps_ok (mkSpsCostTable l.*1 l.*2 xn)).
  { constructor; cbn; [done|done|by rewrite !length_fmap|]. intros top Ht. rewrite last_lookup in Ht. rewrite Ht in Hxn. injection Hxn as <-. done. }
  eexists. split; [by apply sps_post_init_ok|]. split; [done|].
  intros b s Hbs. rewrite <- Hp in Hbs. apply list_elem_of_lookup in Hbs as [i Hi].
  apply (sps_lookup_probe _ i b s Hok); cbn; by rewrite list_lookup_fmap, Hi.
Qed.
