(* ===== verification/DSparkBudget.v ===== *)
(** * DSparkBudget: the token budget of a verification step

    Models [compute_verify_token_budget] of [S/speculative/dspark_components/dspark_planner.py]:
    the budget that maximises the predicted throughput, the number of tokens a step produces
    times the number of such steps per second. *)

From S2P Require Import Prelude Sampling TensorOps StableSort DSparkSchedule DSparkTopk DSparkOptimal DSparkSps.
#[local] Open Scope Z_scope.

Record VerifyBudgetDecision : Type := mkDecision {
  budget : Z;
  predicted_step_seconds : option Q;
  predicted_theta : option Q;
}.

(** [torch.cumsum]. *)
Fixpoint cumsumQ (acc : Q) (l : list Q) : list Q :=
  match l with [] => [] | x :: l => (acc + x)%Q :: cumsumQ (acc + x) l end.

Definition compute_verify_token_budget `{TorchArgsort} (history_survival_probs : list (list Q)) (sps_table : CostTable)
    (cfg : DSparkScheduleConfig) : result VerifyBudgetDecision :=
  let num_requests := Z.of_nat (length history_survival_probs) in
  let max_len := resolved_max_verify_len cfg in
  let candidates := concat (row_prefix max_len <$> history_survival_probs) in
  let candidates := filter (λ p, Qle_bool (survival_eps cfg) p = true) candidates in
  let candidates_sorted := sort_descending candidates in
  let prefix_sum := cumsumQ 0 candidates_sorted in
  let tau_star := (λ x, inject_Z num_requests + x)%Q <$> (0%Q :: prefix_sum) in
  match sps_table with
  | Additive t =>
      step_time ← _additive_step_time_tensor t num_requests (length tau_star);
      let theta := zip_with Qdiv tau_star step_time in
      let idx := Z.of_nat (argmax theta) in
      seconds ← py_nth step_time idx;
      theta_at ← py_nth theta idx;
      Ok (mkDecision idx (Some seconds) (Some theta_at))
  | Steps t =>
      let batch_tokens := (λ i, num_requests + Z.of_nat i) <$> seq 0 (length tau_star) in
      sps ← _lookup_sps_tensor t batch_tokens;
      let theta := zip_with Qmult tau_star sps in
      let idx := Z.of_nat (argmax theta) in
      sps_at_idx ← py_nth sps idx;
      theta_at ← py_nth theta idx;
      Ok (mkDecision idx (if Qltb 0 sps_at_idx then Some (1 / sps_at_idx)%Q else None) (Some theta_at))
  end.

(** ** Specification *)

(** Steps per second that the table predicts when [b] draft tokens are verified for [n]
    requests. *)
Definition step_rate (table : CostTable) (n b : Z) : Q :=
  match table with
  | Steps t => match sps_lookup t (n + b) with Ok s => s | Raise _ => 0%Q end
  | Additive t => match step_time t n b with Ok s => (/ s)%Q | Raise _ => 0%Q end
  end.

(** Predicted tokens per second of a step that verifies [lens]: each request gets its bonus
    token and the drafts accepted. *)
Definition tokens_per_second (table : CostTable) (survival : list (list Q)) (lens : list Z) : Q :=
  ((inject_Z (Z.of_nat (length survival)) + expected_accepted survival lens) *
   step_rate table (Z.of_nat (length survival)) (spent lens))%Q.

(** A validated table of measured speeds or durations. *)
Definition table_ok (table : CostTable) : Prop :=
  match table with
  | Steps t => steps_ok t ∧ Forall (λ s, 0 <= s)%Q (sample_steps_per_sec t)
  | Additive t => additive_ok t ∧ Forall (λ s, 0 <= s)%Q (alpha_seconds t) ∧ Forall (λ s, 0 <= s)%Q (theta_seconds t)
  end.

(** ** Lemmas *)

Lemma length_cumsumQ acc l : length (cumsumQ acc l) = length l.
Proof. revert acc. induction l as [|x l IH]; intros acc; cbn; [done|]. by rewrite IH. Qed.

Lemma cumsumQ_lookup acc l i x :
  (acc :: cumsumQ acc l) !! i = Some x → (x == acc + Qsum (take i l))%Q.
Proof.
  revert acc i. induction l as [|y l IH]; intros acc [|i]; intros Hi.
  - cbn in Hi. injection Hi as <-. rewrite take_0, Qsum_nil. ring.
  - done.
  - cbn in Hi. injection Hi as <-. rewrite take_0, Qsum_nil. ring.
  - cbn [cumsumQ lookup list_lookup] in Hi. change (((acc + y)%Q :: cumsumQ (acc + y) l) !! i = Some x) in Hi.
    rewrite (IH _ _ Hi). cbn [take]. rewrite Qsum_cons. ring.
Qed.

Lemma interp_between (a b z : Z) (ya yb : Q) :
  (0 <= ya)%Q → (0 <= yb)%Q → a <= z → z < b →
  (0 <= ya + (inject_Z z - inject_Z a) / (inject_Z b - inject_Z a) * (yb - ya))%Q.
Proof.
  intros Hya Hyb Ha Hb. rewrite Zle_Qle in Ha. rewrite Zlt_Qlt in Hb.
  set (d := (inject_Z b - inject_Z a)%Q). assert (Hd : (0 < d)%Q) by (unfold d; lra).
  set (f := ((inject_Z z - inject_Z a) / d)%Q).
  assert (Hf : (f * d == inject_Z z - inject_Z a)%Q) by (unfold f; field; lra).
  assert ((0 <= f)%Q ∧ (f <= 1)%Q) as [Hf0 Hf1] by (unfold d in *; split; nra). nra.
Qed.

Lemma interp_nonneg xs ys z v :
  xs ≠ [] → StronglySorted Z.lt xs → length ys = length xs → Forall (λ y, 0 <= y)%Q ys →
  _interp_clamped xs ys (inject_Z z) = Ok v → (0 <= v)%Q.
Proof.
  intros Hne Hs Hl Hpos Ev. rewrite Forall_lookup in Hpos.
  destruct (ends_exist xs Hne) as (x0 & xn & H0 & Hn). destruct (ends_exist ys) as (y0 & yn & Hy0 & Hyn); [by destruct xs, ys|]. rewrite Hl in Hyn.
  destruct (interp_cases xs ys x0 xn y0 yn Hs Hl H0 Hy0 Hn Hyn z) as (v' & Ev' & Hlo & Hhi & Hmid). rewrite Ev in Ev'. injection Ev' as <-.
  destruct (Z.le_gt_cases z x0); [rewrite Hlo by done; by eapply Hpos|].
  destruct (Z.le_gt_cases xn z); [rewrite Hhi by done; by eapply Hpos|].
  destruct Hmid as (a & b & ya & yb & E1 & E2 & Hab & E3 & E4 & ->); [lia|].
  destruct (neighbours xs ys x0 Hs Hl H0 (py_bisect_right xs z)) as (a' & b' & ya' & yb' & E1' & E2' & _ & E3' & E4' & Ga & Gya & Gb & Gyb);
    [by apply (bisect_range xs ys x0 xn); (done || lia)|].
  rewrite E1 in E1'. rewrite E2 in E2'. rewrite E3 in E3'. rewrite E4 in E4'. injection E1' as <-. injection E2' as <-. injection E3' as <-. injection E4' as <-.
  assert (Ha : a <= z).
  { apply Z.leb_le, (leading_before (λ y, y <=? z) xs (pred (py_bisect_right xs z))); [|done]. fold (py_bisect_right xs z).
    pose proof (bisect_range xs ys x0 xn Hl H0 Hn z ltac:(lia)). lia. }
  assert (Hb : z < b) by (by apply Z.leb_gt, (leading_at (λ y, y <=? z) xs)).
  apply interp_between; [by eapply Hpos|by eapply Hpos|done|done].
Qed.

Lemma step_rate_nonneg table n b : table_ok table → (0 <= step_rate table n b)%Q.
Proof.
  destruct table as [t|t]; cbn [table_ok step_rate].
  - intros [Hok Hpos]. destruct (sps_lookup_ok t (n + b) Hok) as (s & -> & Hs). rewrite Forall_lookup in Hpos. by eapply Hpos.
  - intros (Hok & Ha & Ht). unfold step_time. destruct Hok as [B1 B2 B3 M1 M2 M3 Hb].
    destruct (_interp_clamped (bs_probes t) (alpha_seconds t) (inject_Z n)) as [al|] eqn:Ea; cbn [mbind result_bind]; [|apply Qle_refl].
    destruct (_interp_clamped (m_probes t) (theta_seconds t) (inject_Z (n + b))) as [th|] eqn:Et; cbn [mbind result_bind]; [|apply Qle_refl].
    pose proof (interp_nonneg _ _ _ _ B1 B2 B3 Ha Ea). pose proof (interp_nonneg _ _ _ _ M1 M2 M3 Ht Et).
    apply Qinv_le_0_compat. lra.
Qed.

Lemma py_nth_lt {A} (l : list A) i : (i < length l)%nat → ∃ x, l !! i = Some x ∧ py_nth l (Z.of_nat i) = Ok x.
Proof. intros Hi. destruct (lookup_lt_is_Some_2 l i Hi) as [x Hx]. exists x. split; [done|by apply py_nth_lookup]. Qed.

(** What the decision is made of: the predicted throughput of every possible budget. *)
Record decided (theta : list Q) (d : VerifyBudgetDecision) : Prop := {
  dec_budget : budget d = Z.of_nat (argmax theta);
  dec_theta : predicted_theta d = theta !! argmax theta;
}.

Section budgets.
Context `{TorchArgsortLaws} (survival : list (list Q)) (cfg : DSparkScheduleConfig).

Definition budget_candidates : list Q :=
  sort_descending (filter (λ p, Qle_bool (survival_eps cfg) p = true) (concat (row_prefix (resolved_max_verify_len cfg) <$> survival))).

Notation n := (Z.of_nat (length survival)).
Notation tau := ((λ x, inject_Z n + x)%Q <$> (0%Q :: cumsumQ 0 budget_candidates)).

Lemma length_tau : length tau = S (length budget_candidates).
Proof. by rewrite length_fmap, length_cons, length_cumsumQ. Qed.

Lemma tau_lookup b x : tau !! b = Some x → (x == inject_Z n + Qsum (take b budget_candidates))%Q.
Proof.
  rewrite list_lookup_fmap. destruct ((0%Q :: cumsumQ 0 budget_candidates) !! b) as [y|] eqn:E; [|done].
  cbn [fmap option_fmap option_map]. intros [= <-]. rewrite (cumsumQ_lookup _ _ _ _ E). ring.
Qed.

Lemma compute_budget_ok table :
  table_ok table →
  ∃ d theta, compute_verify_token_budget survival table cfg = Ok d ∧ decided theta d ∧
    length theta = S (length budget_candidates) ∧
    ∀ b x, theta !! b = Some x → (x == (inject_Z n + Qsum (take b budget_candidates)) * step_rate table n (Z.of_nat b))%Q.
Proof.
  intros Htab. unfold compute_verify_token_budget. fold budget_candidates. destruct table as [t|t].
  - destruct Htab as [Hok _]. rewrite lookup_sps_tensor_eq by done.
    destruct (mapM_Ok_exists (sps_lookup t) ((λ i, n + Z.of_nat i) <$> seq 0 (length tau))) as [sps Es].
    { apply Forall_fmap, Forall_true. intros i. unfold compose. destruct (sps_lookup_ok t (n + Z.of_nat i) Hok) as (s & -> & _). eauto. }
    rewrite Es. cbn [mbind result_bind]. pose proof (mapM_Ok_length _ _ _ Es) as Hl. rewrite length_fmap, length_seq in Hl.
    set (theta := zip_with Qmult tau sps). assert (Hlt : length theta = S (length budget_candidates)) by (unfold theta; rewrite length_zip_with, Hl, length_tau; lia).
    assert (Ham : (argmax theta < length theta)%nat) by (apply argmax_lt; lia).
    destruct (py_nth_lt sps (argmax theta)) as (s & _ & ->); [rewrite Hl, length_tau; lia|].
    destruct (py_nth_lt theta (argmax theta) Ham) as (th & Hth & ->). cbn [mbind result_bind].
    eexists _, theta. split; [done|]. split; [by constructor|]. split; [done|]. intros b x Hx.
    unfold theta in Hx. apply lookup_zip_with_Some in Hx as (u & v & -> & Hu & Hv). rewrite (tau_lookup _ _ Hu).
    assert (Hb : (b < length tau)%nat) by (by eapply lookup_lt_Some).
    destruct (mapM_Ok_lookup _ _ _ b (n + Z.of_nat b) Es) as (v' & Hv' & Ev).
    { by rewrite list_lookup_fmap, lookup_seq_lt. }
    rewrite Hv in Hv'. injection Hv' as <-. cbn [step_rate]. by rewrite Ev.
  - destruct Htab as (Hok & _). destruct (additive_tensor_ok t n (length tau) Hok) as (step & -> & Hl & Hstep). cbn [mbind result_bind].
    set (theta := zip_with Qdiv tau step). assert (Hlt : length theta = S (length budget_candidates)) by (unfold theta; rewrite length_zip_with, Hl, length_tau; lia).
    assert (Ham : (argmax theta < length theta)%nat) by (apply argmax_lt; lia).
    destruct (py_nth_lt step (argmax theta)) as (s & _ & ->); [rewrite Hl, length_tau; lia|].
    destruct (py_nth_lt theta (argmax theta) Ham) as (th & Hth & ->). cbn [mbind result_bind].
    eexists _, theta. split; [done|]. split; [by constructor|]. split; [done|]. intros b x Hx.
    unfold theta in Hx. apply lookup_zip_with_Some in Hx as (u & v & -> & Hu & Hv). rewrite (tau_lookup _ _ Hu).
    assert (Hb : (b < length tau)%nat) by (by eapply lookup_lt_Some).
    destruct (Hstep b Hb) as (s' & w & Es & Hw & Ew). rewrite Hv in Hw. injection Hw as <-. cbn [step_rate]. rewrite Es, Ew. reflexivity.
Qed.
End budgets.

(** ** The budget and the schedule maximise the predicted throughput *)

Lemma whole_candidates `{TorchArgsort} cfg confidence :
  schedule_input_ok cfg confidence → whole_draft cfg →
  budget_candidates (compute_sort_survival confidence) cfg = sort_descending (cand_values (compute_sort_survival confidence) (survival_eps cfg)).
Proof.
  intros Hin Hw. unfold budget_candidates. fold (survival_window cfg confidence). by rewrite window_whole.
Qed.

Section throughput.
Context `{TorchArgsortLaws} (cfg : DSparkScheduleConfig) (confidence : list (list Q)) (table : CostTable).
Hypothesis Hin : schedule_input_ok cfg confidence.
Hypothesis Hw : whole_draft cfg.
Hypothesis Hc : Forall (Forall (λ x, 0 <= x <= 1)%Q) confidence.
Hypothesis Htab : table_ok table.

Notation W := (compute_sort_survival confidence).
Notation sorted := (budget_candidates W cfg).
Notation n := (Z.of_nat (length W)).

Lemma length_W : length W = length confidence.
Proof. apply length_fmap. Qed.

(** Throughput of the schedule with a budget that the candidates can use up. *)
Lemma scheduled_throughput (b : nat) :
  (b <= length sorted)%nat →
  spent (scheduled_lens cfg confidence (Z.of_nat b)) = Z.of_nat b ∧
  (tokens_per_second table W (scheduled_lens cfg confidence (Z.of_nat b)) ==
   (inject_Z n + Qsum (take b sorted)) * step_rate table n (Z.of_nat b))%Q.
Proof.
  intros Hb. rewrite whole_candidates in Hb |- * by done. rewrite sort_descending_perm in Hb.
  pose proof (whole_uniform cfg confidence Hin Hw) as Hu. pose proof (whole_descending confidence Hc) as Hd.
  pose proof (whole_nonneg confidence Hc) as Hn. pose proof (cols_pos' cfg confidence Hin) as Hp.
  assert (Hs : spent (scheduled_lens cfg confidence (Z.of_nat b)) = Z.of_nat b).
  { rewrite <- (lens_chosen_length cfg confidence Hin Hw) by (by apply scheduled_lens_ok). rewrite scheduled_extras by done.
    rewrite (scheduled_count _ _ _ Hp Hu Hd) by lia. lia. }
  split; [done|]. unfold tokens_per_second, expected_accepted. rewrite Hs, scheduled_extras by done.
  rewrite (scheduled_gain _ _ _ Hp Hu Hd Hn) by lia. by rewrite Nat2Z.id.
Qed.

(** Any other lengths above the threshold do at most as well as the best candidates. *)
Lemma alternative_throughput alt :
  lens_ok cfg (length confidence) alt → Forall (λ x, Qle_bool (survival_eps cfg) x = true) (chosen_probs W (extras_of_lens alt)) →
  ∃ b : nat, (b <= length sorted)%nat ∧
    (tokens_per_second table W alt <= (inject_Z n + Qsum (take b sorted)) * step_rate table n (Z.of_nat b))%Q.
Proof.
  intros Halt Hv. rewrite whole_candidates by done.
  pose proof (whole_uniform cfg confidence Hin Hw) as Hu. pose proof (whole_nonneg confidence Hc) as Hn.
  pose proof (cols_pos' cfg confidence Hin) as Hp.
  destruct (valid_alternative_gain W (survival_eps cfg) (window_cols cfg) Hp Hu Hn (extras_of_lens alt) Hv) as [Hg Hl].
  exists (length (chosen_probs W (extras_of_lens alt))). split; [by rewrite sort_descending_perm|].
  unfold tokens_per_second, expected_accepted. rewrite <- (lens_chosen_length cfg confidence Hin Hw alt Halt).
  apply Qmult_le_compat_r; [lra|by apply step_rate_nonneg].
Qed.
End throughput.

(** C14: The budget and the schedule together maximise the predicted throughput.  For validated
    configuration and cost table with measured (non-negative) values, the budget computed from
    the survival probabilities is one that the schedule uses up; the predicted throughput is that
    of the scheduled lengths, and no lengths that verify drafts above the threshold only have a
    larger one. *)
Theorem budget_maximizes_throughput `{TorchArgsortLaws} (cfg : DSparkScheduleConfig) (confidence : list (list Q)) (table : CostTable) :
  schedule_input_ok cfg confidence → whole_draft cfg → Forall (Forall (λ x, 0 <= x <= 1)%Q) confidence → table_ok table →
  ∃ d lens theta,
    compute_verify_token_budget (compute_sort_survival confidence) table cfg = Ok d ∧
    schedule_verify_lens_topk confidence (budget d) cfg = Ok lens ∧
    spent lens = budget d ∧ predicted_theta d = Some theta ∧
    (theta == tokens_per_second table (compute_sort_survival confidence) lens)%Q ∧
    ∀ alt, lens_ok cfg (length confidence) alt →
      Forall (λ x, Qle_bool (survival_eps cfg) x = true) (chosen_probs (compute_sort_survival confidence) (extras_of_lens alt)) →
      (tokens_per_second table (compute_sort_survival confidence) alt <= theta)%Q.
Proof.
  intros Hin Hw Hc Htab.
  destruct (compute_budget_ok (compute_sort_survival confidence) cfg table Htab) as (d & thetas & Ed & [Hb Ht] & Hlen & Hval).
  assert (Ham : (argmax thetas < length thetas)%nat) by (apply argmax_lt; lia).
  destruct (lookup_lt_is_Some_2 thetas (argmax thetas) Ham) as [theta Htheta].
  exists d, (scheduled_lens cfg confidence (budget d)), theta. rewrite Hb, Ht. split; [done|]. split; [by apply schedule_torch_ok|].
  destruct (scheduled_throughput cfg confidence table Hin Hw Hc (argmax thetas)) as [Hs Htp]; [lia|].
  split; [done|]. split; [done|]. split; [by rewrite Htp, (Hval _ _ Htheta)|]. intros alt Halt Hv.
  destruct (alternative_throughput cfg confidence table Hin Hw Hc Htab alt Halt Hv) as (b & Hble & Hle).
  destruct (lookup_lt_is_Some_2 thetas b) as [x Hx]; [lia|]. eapply Qle_trans; [exact Hle|]. rewrite <- (Hval _ _ Hx).
  pose proof (argmax_max thetas theta Htheta) as Hmax. rewrite Forall_lookup in Hmax. by eapply Hmax.
Qed.

(** A table in which a fourth token halves the speed: two of the four drafts are worth it. *)
Definition tiny_table : CostTable := Steps (mkSpsCostTable [1; 5] [10; 4]%Q 8).

#[local] Existing Instances Insertion.torch_argsort Insertion.torch_argsort_laws.

Lemma budget_maximizes_throughput_witness :
  ∃ d lens theta,
    compute_verify_token_budget (compute_sort_survival tiny_confidence) tiny_table tiny_cfg = Ok d ∧
    schedule_verify_lens_topk tiny_confidence (budget d) tiny_cfg = Ok lens ∧
    spent lens = budget d ∧ predicted_theta d = Some theta ∧
    (theta == tokens_per_second tiny_table (compute_sort_survival tiny_confidence) lens)%Q ∧
    ∀ alt, lens_ok tiny_cfg (length tiny_confidence) alt →
      Forall (λ x, Qle_bool (survival_eps tiny_cfg) x = true) (chosen_probs (compute_sort_survival tiny_confidence) (extras_of_lens alt)) →
      (tokens_per_second tiny_table (compute_sort_survival tiny_confidence) alt <= theta)%Q.
Proof.
  apply (budget_maximizes_throughput tiny_cfg tiny_confidence tiny_table).
  - apply tiny_input_ok.
  - split; reflexivity.
  - repeat constructor; cbn; unfold Qle; cbn; lia.
  - split; [|repeat constructor; cbn; unfold Qle; cbn; lia]. constructor; cbn; [done| |done|intros top [= <-]; lia].
    repeat constructor.
Defined.

Example tiny_budget :
  option_map budget (match compute_verify_token_budget (compute_sort_survival tiny_confidence) tiny_table tiny_cfg with Ok d => Some d | Raise _ => None end)
  = Some 2.
Proof. vm_compute. reflexivity. Qed.
