(* ===== verification/DSparkPlanner.v ===== *)
(** * DSparkPlanner: the layout of a verification step

    Models the layout half of [S/speculative/dspark_components/dspark_planner.py], the tier
    agreement of [dspark_worker_v2.py] between data-parallel ranks, and the parts of
    [S/model_executor/runner/decode_cuda_graph_runner.py] that capture, admit and stage ragged
    layouts.  [cuda] selects the kernels; rank 0 of a tensor-parallel group, whose lengths the
    others receive, is the rank modelled. *)

From S2P Require Import Prelude Sampling TensorOps StableSort RaggedVerify DSparkSchedule DSparkSps.
#[local] Open Scope Z_scope.

(** ** The CUDA graph runner *)

Record GraphRunner : Type := mkRunner {
  ragged_verify_mode : bool;
  captured_req_width : Z;
  capture_num_tokens : list Z;
  max_bs : Z;
  force_uniform_capture : bool;
  _captured_ragged_layouts : gmap Z RaggedVerifyLayout;
}.

(** [{bs * self.captured_req_width for bs in self.capture_bs}], sorted. *)
Definition _build_ragged_verify_token_buckets (captured_req_width : Z) (capture_bs : list Z) : result (list Z) :=
  let buckets := sorted_set ((λ bs, bs * captured_req_width) <$> capture_bs) in
  _ ← py_assert (match buckets with b :: _ => 0 <? b | [] => false end);
  Ok buckets.

Definition _ragged_capture_slots (r : GraphRunner) (num_tokens : Z) : Z :=
  if force_uniform_capture r then num_tokens / captured_req_width r else Z.min num_tokens (max_bs r).

Definition set_captured (r : GraphRunner) (layouts : gmap Z RaggedVerifyLayout) : GraphRunner :=
  mkRunner (ragged_verify_mode r) (captured_req_width r) (capture_num_tokens r) (max_bs r) (force_uniform_capture r) layouts.

Definition _capture_ragged_verify_layout (cuda : bool) (r : GraphRunner) (num_tokens : Z)
  : result (option RaggedVerifyLayout * GraphRunner) :=
  if negb (ragged_verify_mode r) then Ok (None, r)
  else if force_uniform_capture r then Ok (None, r)
  else
    verify_lens_cpu ← build_capture_verify_lens num_tokens (_ragged_capture_slots r num_tokens) (captured_req_width r);
    layout ← from_verify_lens cuda verify_lens_cpu (capture_num_tokens r) 0;
    Ok (Some layout, set_captured r (<[num_tokens := layout]> (_captured_ragged_layouts r))).

(** [dst.copy_(src)] into a tensor of the same shape or from one element. *)
Definition copy_into (dst src : list Z) : result (list Z) :=
  if (length src =? length dst)%nat then Ok src
  else match src with [x] => Ok (replicate (length dst) x) | _ => Raise RuntimeError end.

Definition _stage_ragged_verify_layout (cuda : bool) (r : GraphRunner) (live : RaggedVerifyLayout) (graph_size_key : Z)
  : result GraphRunner :=
  match _captured_ragged_layouts r !! graph_size_key with
  | None => Ok r
  | Some cap_layout =>
      live ← (if negb (layout_bs live =? layout_bs cap_layout)%nat || (match cap live with None => true | Some _ => false end)
              then padded_to_bucket cuda (layout_bs cap_layout) (Some (captured_req_width r)) live
              else Ok live);
      lens ← copy_into (verify_lens cap_layout) (verify_lens live);
      indptr ← copy_into (qo_indptr_device cap_layout) (qo_indptr_device live);
      let staged := mkLayout lens (graph_num_tokens cap_layout) (extend_start_loc cap_layout) indptr
                      (verify_lens_cpu cap_layout) (total_verify_tokens cap_layout) (cap cap_layout) in
      Ok (set_captured r (<[graph_size_key := staged]> (_captured_ragged_layouts r)))
  end.

(** The token and slot conditions of [_can_run_ragged_verify_graph]. *)
Definition _can_run_ragged_verify_graph (r : GraphRunner) (batch_size : Z) (layout : RaggedVerifyLayout) : result bool :=
  let admission_tokens := graph_num_tokens layout in
  top ← py_nth (capture_num_tokens r) (-1);
  Ok ((admission_tokens <=? top) && (batch_size <=? _ragged_capture_slots r admission_tokens)).

Definition _ragged_graph_num_tokens (r : GraphRunner) (total_verify_tokens : Z) : result Z :=
  round_up_grid total_verify_tokens (capture_num_tokens r).

(** The ragged branch of [load_batch]. *)
Definition load_ragged_batch (cuda : bool) (r : GraphRunner) (raw_bs : Z) (layout : RaggedVerifyLayout) : result GraphRunner :=
  let raw_num_token := graph_num_tokens layout in
  graph_size_key ← _ragged_graph_num_tokens r raw_num_token;
  _ ← py_assert (graph_size_key =? graph_num_tokens layout);
  let bs := _ragged_capture_slots r graph_size_key in
  _ ← py_assert (raw_bs <=? bs);
  _stage_ragged_verify_layout cuda r layout graph_size_key.

(** ** Tiers *)

Section functions.
Context (runner : option GraphRunner).

Definition ragged_capture_num_tokens : option (list Z) :=
  match runner with
  | Some r => if ragged_verify_mode r then Some (capture_num_tokens r) else None
  | None => None
  end.

Definition ragged_capture_max_slots : option Z :=
  match runner with
  | Some r => if ragged_verify_mode r then Some (max_bs r) else None
  | None => None
  end.

Definition ragged_layout_exceeds_captured_grid (num_reqs verify_num_draft_tokens : Z) (tier_tokens_hint : option Z) : result bool :=
  match ragged_capture_num_tokens with
  | None => Ok false
  | Some capture_num_tokens =>
      if match ragged_capture_max_slots with Some max_slots => max_slots <? num_reqs | None => false end then Ok true
      else
        let tier_tokens := default (num_reqs * verify_num_draft_tokens) tier_tokens_hint in
        top ← py_nth capture_num_tokens (-1);
        Ok (top <? tier_tokens)
  end.

Definition verify_layout_grid (verify_lens_cpu : list Z) (mode : RaggedVerifyMode) : list Z :=
  let total := zsum verify_lens_cpu in
  if bool_decide (mode ≠ COMPACT) then [total]
  else match ragged_capture_num_tokens with None => [total] | Some capture_num_tokens => capture_num_tokens end.

Definition verify_layout_graph_num_tokens_floor (num_reqs : Z) (mode : RaggedVerifyMode) (verify_num_draft_tokens : Z)
    (tier_num_tokens : option Z) : Z :=
  if bool_decide (mode ≠ COMPACT) || (match ragged_capture_num_tokens with None => true | Some _ => false end) then 0
  else match tier_num_tokens with
       | Some tier => Z.min tier (num_reqs * verify_num_draft_tokens)
       | None => num_reqs * verify_num_draft_tokens
       end.

Definition local_verify_tier_num_tokens (bs : Z) (verify_token_budget : option Z) (verify_num_draft_tokens min_verify_len : Z) : Z :=
  match verify_token_budget with
  | None => -1
  | Some budget =>
      let floor_tokens := bs * Z.max min_verify_len 1 in
      Z.min (floor_tokens + budget) (bs * verify_num_draft_tokens)
  end.

Definition graph_tier_fill_budget (graph_num_tokens bs verify_num_draft_tokens min_verify_len : Z) : Z :=
  let fill_total := Z.min graph_num_tokens (bs * verify_num_draft_tokens) in
  let floor_tokens := bs * Z.max min_verify_len 1 in
  Z.max 0 (fill_total - floor_tokens).

Definition dp_global_verify_tier_num_tokens (global_tier_num_tokens : option (list Z)) : option Z :=
  match global_tier_num_tokens with
  | None => None
  | Some tiers =>
      if existsb (λ tier, tier <? 0) tiers then None
      else
        let max_tier_num_tokens := match tiers with [] => 0 | tier :: tiers => py_max tier tiers end in
        if 0 <? max_tier_num_tokens then Some max_tier_num_tokens else None
  end.

Definition uniform_ragged_layout (cuda : bool) (bs verify_num_draft_tokens : Z) (mode : RaggedVerifyMode) (tier_num_reqs : option Z)
  : result (option RaggedVerifyLayout) :=
  let tier_num_reqs := default bs tier_num_reqs in
  exceeds ← ragged_layout_exceeds_captured_grid tier_num_reqs verify_num_draft_tokens None;
  if (exceeds : bool) then Ok None
  else
    let verify_lens_cpu := replicate (Z.to_nat bs) verify_num_draft_tokens in
    let grid := verify_layout_grid verify_lens_cpu mode in
    let graph_num_tokens_floor := verify_layout_graph_num_tokens_floor tier_num_reqs mode verify_num_draft_tokens None in
    layout ← from_verify_lens cuda verify_lens_cpu grid graph_num_tokens_floor;
    Ok (Some layout).

Definition idle_ragged_layout (cuda : bool) (tier_num_reqs : Z) (dp_tier_num_tokens : option Z) (verify_num_draft_tokens : Z)
  : result (option RaggedVerifyLayout) :=
  let dp_tier_num_tokens := match ragged_capture_num_tokens with None => None | Some _ => dp_tier_num_tokens end in
  match dp_tier_num_tokens with
  | None => uniform_ragged_layout cuda tier_num_reqs verify_num_draft_tokens COMPACT None
  | Some tier =>
      exceeds ← ragged_layout_exceeds_captured_grid tier_num_reqs verify_num_draft_tokens (Some tier);
      if (exceeds : bool) then Ok None
      else
        let verify_lens_cpu := replicate (Z.to_nat tier_num_reqs) 1 in
        let grid := verify_layout_grid verify_lens_cpu COMPACT in
        layout ← from_verify_lens cuda verify_lens_cpu grid tier;
        Ok (Some layout)
  end.
End functions.

(** ** [DSparkVerifyPlanner] *)

Record DSparkVerifyPlanner : Type := mkPlanner {
  _ragged_verify_mode : RaggedVerifyMode;
  verify_num_draft_tokens : Z;
  _schedule_cfg : DSparkScheduleConfig;
  has_budget_planner : bool;
  _dynamic_graph_tier : bool;
  _align_verify_tokens_to_graph_tier : bool;
  _is_verify_all : bool;
  decode_cuda_graph_runner : option GraphRunner;
}.

(** [self._uniform_layout_cache]. *)
Notation layout_cache := (gmap (Z * option Z) (option RaggedVerifyLayout)).

Section planner.
Context `{TorchArgsort} (cuda : bool) (landed : list nat) (p : DSparkVerifyPlanner).

Definition _schedule_verify_lens (confidence : option (list (list Q))) (budget : option Z) : result (option (list Z)) :=
  if negb (has_budget_planner p) then Ok None
  else match confidence, budget with
       | Some confidence, Some budget =>
           verify_lens ← ScheduleVerifyLensTopk cuda landed (Z.to_nat (gamma (_schedule_cfg p))) confidence budget (_schedule_cfg p);
           Ok (Some (i32 <$> (verify_lens : list Z)))
       | _, _ => Ok None
       end.

(** The tier both functions below derive: the agreed one, the local one, or none. *)
Definition tier_of (tier_num_reqs : Z) (budget dp_tier_num_tokens : option Z) : option Z :=
  match dp_tier_num_tokens with
  | Some tier => Some tier
  | None =>
      if _dynamic_graph_tier p && (match budget with Some _ => true | None => false end) then
        Some (local_verify_tier_num_tokens tier_num_reqs budget (verify_num_draft_tokens p) (min_verify_len (_schedule_cfg p)))
      else None
  end.

Definition _budget_aligned_to_graph_tier (num_reqs : Z) (budget global_num_reqs dp_tier_num_tokens : option Z) : result (option Z) :=
  match budget with
  | None => Ok budget
  | Some _ =>
      if negb (_align_verify_tokens_to_graph_tier p) then Ok budget
      else
        let tier_num_reqs := default num_reqs global_num_reqs in
        let tier_num_tokens := tier_of tier_num_reqs budget dp_tier_num_tokens in
        let graph_num_tokens_floor := verify_layout_graph_num_tokens_floor (decode_cuda_graph_runner p) tier_num_reqs
          (_ragged_verify_mode p) (verify_num_draft_tokens p) tier_num_tokens in
        match ragged_capture_num_tokens (decode_cuda_graph_runner p) with
        | None => Ok budget
        | Some capture_num_tokens =>
            if graph_num_tokens_floor <=? 0 then Ok budget
            else
              graph_num_tokens ← round_up_grid graph_num_tokens_floor capture_num_tokens;
              Ok (Some (graph_tier_fill_budget graph_num_tokens num_reqs (verify_num_draft_tokens p) (min_verify_len (_schedule_cfg p))))
        end
  end.

(** The layout of scheduled lengths: [schedule_layout] from [bs = int(verify_lens.shape[0])] on. *)
Definition layout_of_lens (verify_lens : list Z) (budget global_num_reqs dp_tier_num_tokens : option Z)
  : result (option RaggedVerifyLayout) :=
  let bs := Z.of_nat (length verify_lens) in
  let tier_num_reqs := default bs global_num_reqs in
  _ ← py_assert (match dp_tier_num_tokens, global_num_reqs with Some _, None => false | _, _ => true end);
  let tier_num_tokens := tier_of tier_num_reqs budget dp_tier_num_tokens in
  exceeds ← ragged_layout_exceeds_captured_grid (decode_cuda_graph_runner p) tier_num_reqs (verify_num_draft_tokens p) tier_num_tokens;
  if (exceeds : bool) then Ok None
  else
    let graph_num_tokens_floor := verify_layout_graph_num_tokens_floor (decode_cuda_graph_runner p) tier_num_reqs
      (_ragged_verify_mode p) (verify_num_draft_tokens p) tier_num_tokens in
    match ragged_capture_num_tokens (decode_cuda_graph_runner p) with
    | Some capture_num_tokens =>
        if 0 <? graph_num_tokens_floor then
          graph_num_tokens ← round_up_grid graph_num_tokens_floor capture_num_tokens;
          Some <$> from_verify_lens_device cuda verify_lens graph_num_tokens
        else
          Some <$> from_verify_lens cuda verify_lens (verify_layout_grid (decode_cuda_graph_runner p) verify_lens (_ragged_verify_mode p))
                     graph_num_tokens_floor
    | None =>
        Some <$> from_verify_lens cuda verify_lens (verify_layout_grid (decode_cuda_graph_runner p) verify_lens (_ragged_verify_mode p))
                   graph_num_tokens_floor
    end.

(** [num_reqs] is [len(req_pool_indices)]. *)
Definition schedule_layout (cache : layout_cache) (num_reqs : Z) (confidence : option (list (list Q)))
    (budget global_num_reqs dp_tier_num_tokens : option Z) : result (option RaggedVerifyLayout * layout_cache) :=
  let mode := _ragged_verify_mode p in
  let uniform := uniform_ragged_layout (decode_cuda_graph_runner p) cuda num_reqs (verify_num_draft_tokens p) mode global_num_reqs in
  if bool_decide (mode = STATIC) then Ok (None, cache)
  else if _is_verify_all p && bool_decide (mode = COMPACT) then
    let key := (num_reqs, global_num_reqs) in
    match cache !! key with
    | Some layout => Ok (layout, cache)
    | None => layout ← uniform; Ok (layout, <[key := layout]> cache)
    end
  else
    aligned ← _budget_aligned_to_graph_tier num_reqs budget global_num_reqs dp_tier_num_tokens;
    verify_lens ← _schedule_verify_lens confidence aligned;
    match verify_lens with
    | None =>
        _ ← py_assert (match dp_tier_num_tokens with Some _ => false | None => true end);
        if bool_decide (mode = COMPACT) then layout ← uniform; Ok (layout, cache) else Ok (None, cache)
    | Some verify_lens =>
        layout ← layout_of_lens verify_lens budget global_num_reqs dp_tier_num_tokens;
        Ok (layout, cache)
    end.
End planner.

(** ** The worker's view of the data-parallel group *)

(** [global_num_tokens]: requests per rank; [global_spec_verify_tier_num_tokens]: the gathered
    local tiers. *)
Record DpBatch : Type := mkDpBatch {
  global_num_tokens : option (list Z);
  global_spec_verify_tier_num_tokens : option (list Z);
}.

(** [max(l)] of Python. *)
Definition py_max_list (l : list Z) : result Z :=
  match l with [] => Raise ValueError | x :: l => Ok (py_max x l) end.

Section worker.
Context `{TorchArgsort} (cuda : bool) (landed : list nat) (p : DSparkVerifyPlanner) (draft_is_moe enable_dp_attention : bool).

Definition is_compact_mode : bool := bool_decide (_ragged_verify_mode p = COMPACT).

Definition _dp_verify_tier_num_tokens (b : DpBatch) : option Z :=
  if negb (draft_is_moe && enable_dp_attention && (match global_num_tokens b with Some _ => true | None => false end) && is_compact_mode)
  then None
  else dp_global_verify_tier_num_tokens (global_spec_verify_tier_num_tokens b).

Definition _idle_verify_ragged_layout (b : DpBatch) : result (option RaggedVerifyLayout) :=
  match global_num_tokens b with
  | None => Ok None
  | Some tokens =>
      if negb is_compact_mode then Ok None
      else
        global_bs ← py_max_list tokens;
        if global_bs <=? 0 then Ok None
        else idle_ragged_layout (decode_cuda_graph_runner p) cuda global_bs (_dp_verify_tier_num_tokens b) (verify_num_draft_tokens p)
  end.

(** The layout of [_forward_decode] on a rank with requests. *)
Definition decode_layout (cache : layout_cache) (b : DpBatch) (num_reqs : Z) (confidence : option (list (list Q))) (budget : option Z)
  : result (option RaggedVerifyLayout * layout_cache) :=
  global_num_reqs ← (if draft_is_moe && enable_dp_attention then
                       match global_num_tokens b with Some tokens => Some <$> py_max_list tokens | None => Ok None end
                     else Ok None);
  schedule_layout cuda landed p cache num_reqs confidence budget global_num_reqs (_dp_verify_tier_num_tokens b).
End worker.
