(* ===== verification/DSparkLayout.v ===== *)
(** * DSparkLayout: every scheduled layout can be replayed

    The layout that the planner of [DSparkPlanner] schedules exists for every call, is
    well-formed, fits the token tier and the slots of a captured graph, and staging it there
    keeps every request's tokens in place. *)

From S2P Require Import Prelude Sampling TensorOps StableSort RaggedVerify.
From S2P Require Import RaggedProps DSparkSchedule DSparkTopk DSparkOptimal DSparkSps DSparkPlanner.
#[local] Open Scope Z_scope.

(** ** The captured tiers *)

(** A runner as the constructor leaves it: the tiers are the multiples of the verify width for
    the captured batch sizes, the largest of which is [max_bs]. *)
Record runner_ok (r : GraphRunner) : Prop := {
  ro_sorted : StronglySorted Z.le (capture_num_tokens r);
  ro_width : 1 <= captured_req_width r;
  ro_tiers : Forall (λ g, 1 <= g <= max_bs r * captured_req_width r) (capture_num_tokens r);
  ro_top : last (capture_num_tokens r) = Some (max_bs r * captured_req_width r);
  ro_int32 : max_bs r * captured_req_width r < 2 ^ 31;
  ro_mixed : force_uniform_capture r = false;
}.

Lemma sorted_last l x : StronglySorted Z.le l → x ∈ l → Forall (λ y, y <= x) l → last l = Some x.
Proof.
  intros Hs Hx Hmax. destruct (last l) as [y|] eqn:E; cycle 1.
  { apply last_None in E as ->. by apply not_elem_of_nil in Hx. }
  f_equal. apply last_Some in E as [l' ->]. rewrite Forall_app in Hmax. destruct Hmax as [_ [Hy _]%Forall_cons].
  apply elem_of_app in Hx as [Hx|Hx%list_elem_of_singleton]; [|done].
  apply StronglySorted_app_1_elem_of with (x1 := x) (x2 := y) in Hs; [lia|done|by constructor].
Qed.

(** The tiers that the constructor builds satisfy the invariant. *)
Lemma build_buckets_ok w capture_bs m :
  1 <= w → Forall (λ bs, 1 <= bs <= m) capture_bs → m ∈ capture_bs → m * w < 2 ^ 31 →
  ∃ buckets, _build_ragged_verify_token_buckets w capture_bs = Ok buckets ∧
    ∀ c, runner_ok (mkRunner true w buckets m false c).
Proof.
  intros Hw Hbs Hm H31. unfold _build_ragged_verify_token_buckets. set (buckets := sorted_set _).
  assert (Hs : StronglySorted Z.le buckets) by apply sorted_set_sorted.
  assert (Hin : ∀ g, g ∈ buckets ↔ ∃ bs, g = bs * w ∧ bs ∈ capture_bs).
  { intros g. unfold buckets. by rewrite elem_of_sorted_set, list_elem_of_fmap. }
  assert (Hall : Forall (λ g, 1 <= g <= m * w) buckets).
  { rewrite Forall_forall in Hbs |- *. intros g (bs & -> & Hb)%Hin. specialize (Hbs _ Hb). cbn in Hbs. nia. }
  assert (Htop : m * w ∈ buckets) by (apply Hin; eauto).
  exists buckets. split.
  - destruct buckets as [|b l] eqn:E; [by apply not_elem_of_nil in Htop|]. apply Forall_cons in Hall as [Hb _]. cbn in Hb.
    rewrite py_assert_true by (apply Z.ltb_lt; lia). done.
  - intros c. constructor; cbn; try done. apply sorted_last; [done..|]. eapply Forall_impl; [exact Hall|]. cbn. lia.
Qed.

(** ** Capturing *)

Definition captured_at (r : GraphRunner) (g : Z) (l : RaggedVerifyLayout) : Prop :=
  Z.of_nat (layout_bs l) = _ragged_capture_slots r g ∧ graph_num_tokens l = g ∧
  length (qo_indptr_device l) = S (layout_bs l).

Definition captured_ok (r : GraphRunner) : Prop :=
  ∀ g l, _captured_ragged_layouts r !! g = Some l → captured_at r g l.

Section runner.
Context (r : GraphRunner).
Hypothesis Hr : runner_ok r.
Hypothesis Hragged : ragged_verify_mode r = true.

Notation w := (captured_req_width r).
Notation top := (max_bs r * captured_req_width r).

Lemma tier_range g : g ∈ capture_num_tokens r → 1 <= g <= top.
Proof. intros Hg. destruct Hr as [_ _ Ht _ _ _]. rewrite Forall_forall in Ht. by apply Ht. Qed.

Lemma top_pos : 1 <= max_bs r.
Proof.
  destruct Hr as [_ Hw Ht Hl _ _]. apply last_Some in Hl as [l E]. rewrite E in Ht. apply Forall_app in Ht as [_ [H _]%Forall_cons].
  cbn in H. nia.
Qed.

Lemma slots_eq g : _ragged_capture_slots r g = Z.min g (max_bs r).
Proof. unfold _ragged_capture_slots. by rewrite (ro_mixed r Hr). Qed.

(** Every tier can be captured: its tokens are spread over its slots. *)
Lemma capture_ok cuda g :
  g ∈ capture_num_tokens r → captured_ok r →
  ∃ l r', _capture_ragged_verify_layout cuda r g = Ok (Some l, r') ∧ captured_ok r' ∧
    _captured_ragged_layouts r' = <[g := l]> (_captured_ragged_layouts r).
Proof.
  intros Hg Hc. pose proof (tier_range g Hg) as Hgr. pose proof top_pos as Hmb. destruct Hr as [Hs Hw Ht Hl H31 Hf].
  unfold _capture_ragged_verify_layout. rewrite Hragged, Hf. cbn [negb]. rewrite slots_eq.
  destruct (build_capture_verify_lens_ok g (Z.min g (max_bs r)) w) as (lens & -> & Hlen & Hsum & Hrows); [lia|nia|].
  cbn [mbind result_bind].
  destruct (from_verify_lens_ok cuda lens (capture_num_tokens r) 0 g) as (l & -> & Hok & Hv & Hgl & _).
  - intros ->. cbn in Hlen. lia.
  - forall_impl Hrows.
  - rewrite Hsum, Z.max_l by lia. by apply round_up_grid_exact.
  - lia.
  - lia.
  - cbn [mbind result_bind]. eexists _, _. split; [done|]. split; [|done]. unfold captured_ok, captured_at, _ragged_capture_slots. cbn.
    rewrite Hf. intros g' l' [[-> <-]|[Hne Hl']]%lookup_insert_Some.
    + unfold layout_bs. rewrite Hv. split; [done|]. split; [done|]. rewrite (lok_indptr l Hok), length_fmap, length_seq. unfold layout_bs. by rewrite Hv.
    + destruct (Hc _ _ Hl') as (Hb & H2 & H3). unfold _ragged_capture_slots in Hb. rewrite Hf in Hb. done.
Qed.

(** ** Staging *)

(** A layout that the graph of tier [g] can run. *)
Record admitted (l : RaggedVerifyLayout) : Prop := {
  ad_ok : layout_ok l;
  ad_cap : cap l = None;
  ad_rows : verify_lens l ≠ [] ∧ Forall (λ x, 1 <= x <= w) (verify_lens l);
  ad_tier : graph_num_tokens l ∈ capture_num_tokens r;
  ad_slots : Z.of_nat (layout_bs l) <= _ragged_capture_slots r (graph_num_tokens l);
}.

Lemma admitted_runs l : admitted l → _can_run_ragged_verify_graph r (Z.of_nat (layout_bs l)) l = Ok true.
Proof.
  intros [_ _ _ Ht Hsl]. unfold _can_run_ragged_verify_graph. rewrite (py_nth_last _ _ (ro_top r Hr)). cbn [mbind result_bind].
  pose proof (tier_range _ Ht). rewrite !(proj2 (Z.leb_le _ _)) by lia. done.
Qed.

(** The tensors of the captured graph after staging: the rows of the batch, then padding. *)
Definition staged_rows (l staged : RaggedVerifyLayout) : Prop :=
  ∀ i x, verify_lens l !! i = Some x →
    qo_indptr_device staged !! i = qo_indptr_device l !! i ∧
    ∃ y, verify_lens staged !! i = Some y ∧ x <= y <= w ∧ ((layout_bs l < layout_bs staged ∨ S i < layout_bs l)%nat → y = x).

Lemma copy_into_same dst src : length src = length dst → copy_into dst src = Ok src.
Proof. intros H. unfold copy_into. by rewrite (proj2 (Nat.eqb_eq _ _)). Qed.

Lemma load_ragged_ok cuda l captured :
  admitted l → captured_ok r → _captured_ragged_layouts r !! graph_num_tokens l = Some captured →
  ∃ r' staged, load_ragged_batch cuda r (Z.of_nat (layout_bs l)) l = Ok r' ∧ captured_ok r' ∧
    _captured_ragged_layouts r' = <[graph_num_tokens l := staged]> (_captured_ragged_layouts r) ∧ staged_rows l staged.
Proof.
  intros [Hok Hcap [Hne Hrows] Ht Hsl] Hc Hl. destruct (Hc _ _ Hl) as (Hb & Hg & Hind).
  unfold load_ragged_batch, _ragged_graph_num_tokens. rewrite round_up_grid_exact by (done || apply (ro_sorted r Hr)). cbn [mbind result_bind].
  rewrite (py_assert_true (_ =? _)) by (apply Z.eqb_refl). cbn [mbind result_bind]. rewrite (py_assert_true (_ <=? _)) by (by apply Z.leb_le). cbn [mbind result_bind].
  unfold _stage_ragged_verify_layout. rewrite Hl, Hcap, orb_true_r.
  destruct (padded_to_bucket_places cuda l (layout_bs captured) (Some w) Hok Hne) as (l' & -> & Hok' & Hbs' & Hg' & Hrow & _ & Hw).
  { lia. }
  { intros c [= <-]. pose proof (ro_width r Hr). split; [lia|]. forall_impl Hrows. }
  cbn [mbind result_bind]. rewrite (copy_into_same (verify_lens captured)) by exact Hbs'. cbn [mbind result_bind].
  rewrite copy_into_same by (rewrite Hind, (lok_indptr l' Hok'), length_fmap, length_seq, Hbs'; done). cbn [mbind result_bind].
  eexists _, _. split; [done|]. split; [|split; [done|]].
  - intros g' l''. cbn. intros [[<- <-]|[_ H]]%lookup_insert_Some; [|by apply Hc].
    unfold captured_at. unfold layout_bs. cbn [verify_lens qo_indptr_device graph_num_tokens]. fold (layout_bs l').
    rewrite Hbs'. split; [done|]. split; [done|]. by rewrite (lok_indptr l' Hok'), length_fmap, length_seq, Hbs'.
  - intros i x Hi. cbn [verify_lens qo_indptr_device]. destruct (Hrow i x Hi) as (Hst & y & Hy & Hxy & Heq).
    pose proof (lookup_lt_Some _ _ _ Hi) as Hlt. assert (Hlt' : (i < layout_bs l')%nat) by (by eapply lookup_lt_Some). split.
    + rewrite (lok_starts l' Hok'), (lok_starts l Hok), !list_lookup_fmap, !lookup_seq_lt in Hst by done.
      rewrite (lok_indptr l' Hok'), (lok_indptr l Hok), !list_lookup_fmap, !lookup_seq_lt by (unfold layout_bs in *; lia). done.
    + exists y. split; [done|]. split.
      * pose proof (Hw w eq_refl) as Hwy. rewrite Forall_lookup in Hwy. specialize (Hwy _ _ Hy). cbn beta in Hwy. lia.
      * unfold layout_bs at 2. cbn [verify_lens]. fold (layout_bs l'). by rewrite Hbs'.
Qed.
End runner.

(** [for bs in reversed(self.capture_bs)]: capture one graph per size. *)
Fixpoint _capture_one_stream (cuda : bool) (r : GraphRunner) (sizes : list Z) : result GraphRunner :=
  match sizes with
  | [] => Ok r
  | size :: sizes =>
      '(_, r) ← _capture_ragged_verify_layout cuda r (size * captured_req_width r);
      _capture_one_stream cuda r sizes
  end.

Definition same_runner (r r' : GraphRunner) : Prop := ∃ c, r' = set_captured r c.

Lemma same_runner_ok r r' : same_runner r r' → runner_ok r → runner_ok r'.
Proof. by intros [c ->] [? ? ? ? ? ?]. Qed.

(** Capturing never fails, and afterwards every size has its graph. *)
Lemma capture_all_ok cuda r sizes :
  runner_ok r → ragged_verify_mode r = true → captured_ok r →
  Forall (λ size, size * captured_req_width r ∈ capture_num_tokens r) sizes →
  ∃ r', _capture_one_stream cuda r sizes = Ok r' ∧ same_runner r r' ∧ captured_ok r' ∧
    ∀ g, is_Some (_captured_ragged_layouts r !! g) ∨ g ∈ ((λ size, size * captured_req_width r) <$> sizes) →
      is_Some (_captured_ragged_layouts r' !! g).
Proof.
  intros Hr Hm Hc Hs. revert r Hr Hm Hc Hs. induction sizes as [|size sizes IH]; intros r Hr Hm Hc Hs.
  - exists r. split; [done|]. split; [exists (_captured_ragged_layouts r); by destruct r|]. split; [done|].
    intros g [H|H]; [done|by apply not_elem_of_nil in H].
  - apply Forall_cons in Hs as [Hsz Hs]. destruct (capture_ok r Hr Hm cuda _ Hsz Hc) as (l & r1 & E & Hc1 & Hl). cbn [_capture_one_stream].
    assert (Hsame : same_runner r r1).
    { unfold _capture_ragged_verify_layout in E. rewrite Hm, (ro_mixed r Hr) in E. cbn [negb] in E. inv_ok. by eexists. }
    rewrite E. cbn [mbind result_bind]. pose proof (same_runner_ok _ _ Hsame Hr) as Hr1. destruct Hsame as [c Er1].
    assert (Hw : captured_req_width r1 = captured_req_width r) by (by rewrite Er1).
    destruct (IH r1 Hr1) as (r' & -> & [c' Er'] & Hc' & Hall); [by rewrite Er1|done|by rewrite Hw, Er1|].
    exists r'. split; [done|]. split; [exists c'; by rewrite Er', Er1|]. split; [done|]. intros g Hg. apply Hall. rewrite Hw, Hl.
    destruct (decide (g = size * captured_req_width r)) as [->|Hne]; [left; rewrite lookup_insert_eq; eauto|].
    rewrite lookup_insert_ne by done. destruct Hg as [Hg|Hg]; [by left|]. cbn [fmap list_fmap] in Hg. apply elem_of_cons in Hg as [|]; [done|by right].
Qed.

(** ** What the planner may assume of a call *)

Record planner_ok (p : DSparkVerifyPlanner) : Prop := {
  po_width : 2 <= verify_num_draft_tokens p < 2 ^ 31;
  po_cfg : _schedule_cfg p = default_schedule_config (verify_num_draft_tokens p - 1);
  po_runner : ∀ r, decode_cuda_graph_runner p = Some r → ragged_verify_mode r = true →
    runner_ok r ∧ captured_req_width r = verify_num_draft_tokens p ∧ _ragged_verify_mode p = COMPACT;
}.

Section planner.
Context `{TorchArgsortLaws} (cuda : bool) (landed : list nat) (p : DSparkVerifyPlanner).
Hypothesis Hp : planner_ok p.

Notation w := (verify_num_draft_tokens p).
Notation cfg := (_schedule_cfg p).
Notation runner := (decode_cuda_graph_runner p).

Lemma cfg_whole : whole_draft cfg ∧ gamma cfg = w - 1 ∧ min_verify_len cfg = 1 ∧ validate cfg = Ok tt.
Proof.
  rewrite (po_cfg p Hp). destruct (po_width p Hp). split_and!; try done.
  unfold validate, default_schedule_config, resolved_max_verify_len. cbn [gamma min_verify_len max_verify_len survival_eps Z.eqb].
  rewrite (proj2 (Z.ltb_ge _ _)), !(proj2 (Z.leb_le _ _)) by lia. done.
Qed.

(** The confidences of [bs] requests: one in the unit interval per draft. *)
Definition confidence_ok (bs : Z) (confidence : list (list Q)) : Prop :=
  Z.of_nat (length confidence) = bs ∧ Forall (λ row, length row = Z.to_nat (w - 1)) confidence ∧
  Forall (Forall (λ x, 0 <= x <= 1)%Q) confidence.

Definition rows_ok (bs : Z) (lens : list Z) : Prop := Z.of_nat (length lens) = bs ∧ Forall (λ x, 1 <= x <= w) lens.

(** Scheduled lengths: every request verifies its anchor, and [budget] drafts at most. *)
Lemma schedule_lens_ok bs confidence budget :
  confidence_ok bs confidence → 0 <= budget → (cuda = true → landed ≡ₚ seq 0 (length confidence * Z.to_nat (w - 1))) →
  ∃ lens, ScheduleVerifyLensTopk cuda landed (Z.to_nat (gamma cfg)) confidence budget cfg = Ok lens ∧
    i32 <$> (lens : list Z) = lens ∧ rows_ok bs lens ∧ zsum lens <= bs + budget.
Proof.
  intros (Hlen & Hrows & Hunit) Hb Hl. destruct cfg_whole as (Hw & Hg & _ & Hv). pose proof (po_width p Hp).
  assert (Hin : schedule_input_ok cfg confidence) by (constructor; [done|lia|by rewrite Hg]).
  exists (scheduled_lens cfg confidence budget).
  assert (Hok : lens_ok cfg (length confidence) (scheduled_lens cfg confidence budget)) by (by apply scheduled_lens_ok).
  split; [|split; [|split]].
  - destruct cuda; [|by apply schedule_torch_ok]. apply schedule_triton_ok; [done|]. rewrite (Hl eq_refl).
    unfold window_cols. destruct Hw as [_ ->]. rewrite Hg. by replace (Z.min _ _) with (w - 1) by lia.
  - destruct Hok as [_ Hr]. rewrite Hg in Hr. apply i32_map_id. forall_impl Hr. unfold int32_range. lia.
  - destruct Hok as [Hl' Hr]. rewrite Hg in Hr. split; [lia|]. forall_impl Hr.
  - pose proof (whole_uniform cfg confidence Hin Hw) as Hu. pose proof (whole_descending confidence Hunit) as Hd.
    pose proof (cols_pos' cfg confidence Hin) as Hpos.
    pose proof (lens_chosen_length cfg confidence Hin Hw _ Hok) as Hs. rewrite scheduled_extras in Hs by done.
    rewrite (scheduled_count _ _ _ Hpos Hu Hd) in Hs by done.
    assert (zsum (scheduled_lens cfg confidence budget) = spent (scheduled_lens cfg confidence budget) + bs); [|lia].
    destruct Hok as [Hl' _]. rewrite <- Hlen, <- Hl'. unfold spent. generalize (scheduled_lens cfg confidence budget). intros l.
    induction l as [|x l IH]; [done|]. rewrite fmap_cons, !zsum_cons, IH. cbn [length]. lia.
Qed.

(** A call: [bs] requests, of the [g] of the busiest rank; an agreed tier comes with a budget and
    covers the rank's own tier. *)
Record call_ok (bs : Z) (confidence : option (list (list Q))) (budget global_num_reqs dp_tier : option Z) : Prop := {
  co_bs : 1 <= bs;
  co_int32 : bs * w < 2 ^ 31;
  co_confidence : ∀ c, confidence = Some c → confidence_ok bs c ∧ (cuda = true → landed ≡ₚ seq 0 (length c * Z.to_nat (w - 1)));
  co_budget : ∀ b, budget = Some b → 0 <= b;
  co_global : ∀ g, global_num_reqs = Some g → bs <= g;
  co_tier : ∀ t, dp_tier = Some t → is_Some global_num_reqs ∧ has_budget_planner p = true ∧ is_Some confidence ∧
    ∃ b, budget = Some b ∧ local_verify_tier_num_tokens bs (Some b) w 1 <= t;
  co_align : _align_verify_tokens_to_graph_tier p = true →
    ∀ r, runner = Some r → ragged_verify_mode r = true → default bs global_num_reqs <= max_bs r;
}.

(** A layout of the call's requests, which a captured graph can run if there are any. *)
Definition scheduled_ok (bs : Z) (l : RaggedVerifyLayout) : Prop :=
  layout_ok l ∧ rows_ok bs (verify_lens l) ∧
  ∀ r, runner = Some r → ragged_verify_mode r = true → admitted r l.

(** Token tier of a step: what the ranks agreed on, but at most every draft of every request. *)
Definition tier_tokens (num_reqs : Z) (tier : option Z) : Z :=
  match tier with Some t => Z.min t (num_reqs * w) | None => num_reqs * w end.

(** The graph of a step of [n] requests in that tier, if one is captured. *)
Definition step_graph (r : GraphRunner) (n : Z) (tier : option Z) : option Z :=
  if (max_bs r <? n) || (max_bs r * w <? default (n * w) tier) then None
  else match round_up_grid (tier_tokens n tier) (capture_num_tokens r) with Ok g => Some g | Raise _ => None end.

Section ragged.
Context (r : GraphRunner).
Hypothesis Hrunner : runner = Some r.
Hypothesis Hmode : ragged_verify_mode r = true.

Notation top := (max_bs r * w).

Lemma ragged_facts : runner_ok r ∧ captured_req_width r = w ∧ _ragged_verify_mode p = COMPACT ∧ last (capture_num_tokens r) = Some top.
Proof. destruct (po_runner p Hp r Hrunner Hmode) as (Hr & Hw & Hm). split_and!; try done. rewrite <- Hw. apply (ro_top r Hr). Qed.

Lemma ragged_capture : ragged_capture_num_tokens runner = Some (capture_num_tokens r) ∧ ragged_capture_max_slots runner = Some (max_bs r).
Proof. unfold ragged_capture_num_tokens, ragged_capture_max_slots. by rewrite Hrunner, Hmode. Qed.

Lemma floor_eq num_reqs tier :
  verify_layout_graph_num_tokens_floor runner num_reqs (_ragged_verify_mode p) w tier = tier_tokens num_reqs tier.
Proof.
  unfold verify_layout_graph_num_tokens_floor. destruct ragged_facts as (_ & _ & -> & _). destruct ragged_capture as [-> _].
  by rewrite bool_decide_eq_false_2 by (intros H'; by apply H').
Qed.

Lemma exceeds_eq num_reqs tier :
  ragged_layout_exceeds_captured_grid runner num_reqs w tier = Ok ((max_bs r <? num_reqs) || (top <? default (num_reqs * w) tier)).
Proof.
  unfold ragged_layout_exceeds_captured_grid. destruct ragged_capture as [-> ->]. destruct ragged_facts as (_ & _ & _ & Hl).
  destruct (max_bs r <? num_reqs); [done|]. by rewrite (py_nth_last _ _ Hl).
Qed.

Lemma tier_tokens_le num_reqs tier : tier_tokens num_reqs tier <= num_reqs * w ∧ tier_tokens num_reqs tier <= default (num_reqs * w) tier.
Proof. unfold tier_tokens. destruct tier; cbn; lia. Qed.

(** A tier within the grid is rounded up to a captured one. *)
Lemma round_up_tier x :
  x <= top → ∃ g, round_up_grid x (capture_num_tokens r) = Ok g ∧ g ∈ capture_num_tokens r ∧ x <= g ∧ g <= top ∧ g < 2 ^ 31.
Proof.
  intros Hx. destruct ragged_facts as (Hr & Hw & _ & Hl).
  destruct (round_up_grid_ok _ x top (ro_sorted r Hr) Hl Hx) as (g & E & Hin & Hxg & _). exists g.
  pose proof (tier_range r Hr g Hin) as Hg. rewrite Hw in Hg. pose proof (ro_int32 r Hr) as H31. rewrite Hw in H31. split_and!; (done || lia).
Qed.

(** What was scheduled for [bs] requests of [num_reqs] fits the tier. *)
Lemma admitted_lens l lens bs num_reqs :
  layout_ok l → cap l = None → verify_lens l = lens → rows_ok bs lens → 1 <= bs → zsum lens <= graph_num_tokens l →
  graph_num_tokens l ∈ capture_num_tokens r → bs <= num_reqs → num_reqs <= max_bs r → scheduled_ok bs l.
Proof.
  intros Hok Hcap Hv [Hlen Hrows] Hbs Hsum Ht Hn Hmb. split; [done|]. split; [by rewrite Hv|]. intros r' Hr' _.
  rewrite Hrunner in Hr'. injection Hr' as <-. destruct ragged_facts as (Hr & Hw & _ & _). constructor; try done.
  - rewrite Hv, Hw. split; [|done]. intros ->. cbn in Hlen. lia.
  - unfold layout_bs. rewrite Hv, slots_eq by done. pose proof (zsum_lower 1 lens ltac:(forall_impl Hrows)). lia.
Qed.

Lemma uniform_ragged_ok bs num_reqs :
  1 <= bs <= num_reqs →
  ∃ o, uniform_ragged_layout runner cuda bs w COMPACT (Some num_reqs) = Ok o ∧ graph_num_tokens <$> o = step_graph r num_reqs None ∧
    ∀ l, o = Some l → scheduled_ok bs l.
Proof.
  intros Hbs. destruct (po_width p Hp) as [Hw2 _]. unfold uniform_ragged_layout, step_graph. rewrite exceeds_eq. cbn [default from_option mbind result_bind id].
  destruct (Z.ltb_spec (max_bs r) num_reqs) as [|Hmb]; [by eexists|].
  destruct (Z.ltb_spec top (num_reqs * w)) as [|Htop]; [by eexists|]. cbn [orb].
  destruct ragged_facts as (Hr & Hwr & Hm & Hl). unfold verify_layout_grid. pose proof (floor_eq num_reqs None) as Hf. rewrite Hm in Hf. rewrite Hf. cbn [tier_tokens].
  destruct ragged_capture as [-> _]. rewrite bool_decide_eq_false_2 by (intros H'; by apply H').
  destruct (round_up_tier (num_reqs * w) Htop) as (g & Eg & Hin & Hge & Hgt & H31).
  assert (Hsum : zsum (replicate (Z.to_nat bs) w) = bs * w) by (rewrite zsum_replicate; lia).
  destruct (from_verify_lens_ok cuda (replicate (Z.to_nat bs) w) (capture_num_tokens r) (num_reqs * w) g) as (l & -> & Hok & Hv & Hgl & Hcap).
  - destruct (Z.to_nat bs) eqn:E; [lia|done].
  - apply Forall_replicate. lia.
  - rewrite Hsum, Z.max_r by nia. done.
  - nia.
  - done.
  - cbn [mbind result_bind]. eexists. split; [done|]. rewrite Eg. split; [cbn; by rewrite Hgl|]. intros ? [= <-].
    apply (admitted_lens l (replicate (Z.to_nat bs) w) bs num_reqs); try done; try lia.
    + split; [rewrite length_replicate; lia|]. apply Forall_replicate. lia.
    + rewrite Hsum, Hgl. nia.
    + by rewrite Hgl.
Qed.

(** The layout of given lengths. *)
Lemma layout_of_lens_ragged lens bs budget global_num_reqs dp_tier :
  rows_ok bs lens → 1 <= bs → (∀ g, global_num_reqs = Some g → bs <= g) → (is_Some dp_tier → is_Some global_num_reqs) →
  (∀ g, round_up_grid (tier_tokens (default bs global_num_reqs) (tier_of p (default bs global_num_reqs) budget dp_tier)) (capture_num_tokens r) = Ok g → zsum lens <= g) →
  1 <= tier_tokens (default bs global_num_reqs) (tier_of p (default bs global_num_reqs) budget dp_tier) →
  let n := default bs global_num_reqs in
  let tier := tier_of p n budget dp_tier in
  ∃ o, layout_of_lens cuda p lens budget global_num_reqs dp_tier = Ok o ∧ graph_num_tokens <$> o = step_graph r n tier ∧
    ∀ l, o = Some l → scheduled_ok bs l.
Proof.
  intros Hrows Hbs Hglob Htg Hfit H1 n tier. destruct Hrows as [Hlen Hr]. unfold layout_of_lens. rewrite Hlen. fold n.
  rewrite py_assert_true; cycle 1.
  { destruct dp_tier; [|by destruct global_num_reqs]. destruct Htg as [? ->]; eauto. }
  cbn [mbind result_bind]. fold tier. rewrite exceeds_eq. cbn [mbind result_bind]. unfold step_graph.
  destruct (Z.ltb_spec (max_bs r) n) as [|Hmb]; [by eexists|].
  destruct (Z.ltb_spec top (default (n * w) tier)) as [|Htop]; [by eexists|]. cbn [orb].
  rewrite floor_eq. destruct ragged_capture as [-> _]. fold n tier in Hfit, H1. pose proof (tier_tokens_le n tier) as Htt.
  rewrite (proj2 (Z.ltb_lt _ _)) by lia. destruct (round_up_tier (tier_tokens n tier)) as (g & Eg & Hin & Hge & Hgt & H31); [lia|].
  rewrite Eg. cbn [mbind result_bind]. specialize (Hfit g Eg).
  destruct (from_verify_lens_device_ok cuda lens g) as (l & -> & Hok & Hv & Hgl & Hcap); [forall_impl Hr|done|done|].
  cbn [fmap result_fmap]. eexists. split; [done|]. split; [cbn; by rewrite Hgl|]. intros ? [= <-].
  apply (admitted_lens l lens bs n); try done; rewrite ?Hgl; try done.
  unfold n. destruct global_num_reqs; [by apply Hglob|cbn; lia].
Qed.
End ragged.

(** ** Every call *)

Lemma tier_covers bs confidence b global_num_reqs dp_tier :
  call_ok bs confidence (Some b) global_num_reqs dp_tier →
  let n := default bs global_num_reqs in
  bs <= n ∧ bs <= tier_tokens n (tier_of p n (Some b) dp_tier) ∧
  Z.min (bs + b) (bs * w) <= tier_tokens n (tier_of p n (Some b) dp_tier).
Proof.
  intros [Hbs _ _ Hb Hg Ht _] n. assert (Hn : bs <= n) by (unfold n; destruct global_num_reqs; [by apply Hg|cbn; lia]).
  split; [done|]. destruct (po_width p Hp) as [Hw _]. destruct cfg_whole as (_ & _ & Hmin & _). specialize (Hb b eq_refl).
  unfold tier_tokens, tier_of. rewrite Hmin. destruct dp_tier as [t|].
  - destruct (Ht t eq_refl) as (_ & _ & _ & b' & [= <-] & Hloc). unfold local_verify_tier_num_tokens in Hloc. nia.
  - destruct (_dynamic_graph_tier p); cbn [andb]; unfold local_verify_tier_num_tokens; nia.
Qed.

Lemma aligned_ok bs confidence b global_num_reqs dp_tier :
  call_ok bs confidence (Some b) global_num_reqs dp_tier →
  ∃ b', _budget_aligned_to_graph_tier p bs (Some b) global_num_reqs dp_tier = Ok (Some b') ∧ 0 <= b' ∧
    ∀ r, runner = Some r → ragged_verify_mode r = true → let n := default bs global_num_reqs in
      ∀ g, round_up_grid (tier_tokens n (tier_of p n (Some b) dp_tier)) (capture_num_tokens r) = Ok g →
      ∀ x, x <= bs + b' → x <= bs * w → x <= g.
Proof.
  intros Hc. pose proof (tier_covers _ _ _ _ _ Hc) as (Hn & Hlo & Hcov). destruct Hc as [Hbs _ _ Hb Hg _ Hal]. set (n := default bs global_num_reqs) in *.
  specialize (Hb b eq_refl). unfold _budget_aligned_to_graph_tier. fold n.
  assert (Hround : ∀ r, runner = Some r → ragged_verify_mode r = true → ∀ g,
    round_up_grid (tier_tokens n (tier_of p n (Some b) dp_tier)) (capture_num_tokens r) = Ok g → tier_tokens n (tier_of p n (Some b) dp_tier) <= g).
  { intros r Hr Hm g Eg. destruct (Z.le_gt_cases (tier_tokens n (tier_of p n (Some b) dp_tier)) (max_bs r * w)) as [Hle|Hgt].
    - destruct (round_up_tier r Hr Hm _ Hle) as (g' & Eg' & _ & H' & _). rewrite Eg in Eg'. by injection Eg' as <-.
    - destruct (ragged_facts r Hr Hm) as (_ & _ & _ & Hl). by rewrite (round_up_grid_error _ _ _ Hl Hgt) in Eg. }
  destruct (_align_verify_tokens_to_graph_tier p) eqn:Ea; cbn [negb]; cycle 1.
  { exists b. split; [done|]. split; [done|]. intros r Hr Hm g Eg x H1 H2. specialize (Hround r Hr Hm g Eg). lia. }
  destruct (ragged_capture_num_tokens runner) as [tiers|] eqn:Et; cycle 1.
  { exists b. split; [done|]. split; [done|]. intros r Hr Hm. destruct (ragged_capture r Hr Hm). congruence. }
  assert (∃ r, runner = Some r ∧ ragged_verify_mode r = true) as (r & Hr & Hm).
  { unfold ragged_capture_num_tokens in Et. destruct runner as [r|]; [|done]. destruct (ragged_verify_mode r) eqn:E; [|done]. by exists r. }
  destruct (ragged_capture r Hr Hm) as [E _]. rewrite Et in E. injection E as ->. rewrite (floor_eq r Hr Hm).
  rewrite (proj2 (Z.leb_gt _ _)) by lia. destruct (ragged_facts r Hr Hm) as (Hrok & _ & _ & _).
  specialize (Hal eq_refl r Hr Hm). fold n in Hal. pose proof (tier_tokens_le n (tier_of p n (Some b) dp_tier)) as [Hle _].
  destruct (po_width p Hp) as [Hw _]. destruct (round_up_tier r Hr Hm (tier_tokens n (tier_of p n (Some b) dp_tier))) as (g & Eg & _ & Hge & _); [nia|].
  rewrite Eg. cbn [mbind result_bind]. destruct cfg_whole as (_ & _ & -> & _). eexists. split; [done|]. unfold graph_tier_fill_budget. split; [lia|].
  intros r' Hr' _ g' Eg' x H1 H2. rewrite Hr in Hr'. injection Hr' as <-. rewrite Eg in Eg'. injection Eg' as <-. lia.
Qed.

Lemma unragged : (∀ r, runner = Some r → ragged_verify_mode r = false) → ragged_capture_num_tokens runner = None.
Proof. intros Hn. unfold ragged_capture_num_tokens. destruct runner as [r|]; [|done]. by rewrite (Hn r eq_refl). Qed.

(** Without captured tiers a layout is exactly as large as its rows. *)
Lemma eager_layout_ok lens bs :
  (∀ r, runner = Some r → ragged_verify_mode r = false) → rows_ok bs lens → 1 <= bs → bs * w < 2 ^ 31 →
  ∃ l, from_verify_lens cuda lens (verify_layout_grid runner lens (_ragged_verify_mode p)) 0 = Ok l ∧ scheduled_ok bs l ∧ verify_lens l = lens.
Proof.
  intros Hn [Hlen Hrows] Hbs H31. assert (verify_layout_grid runner lens (_ragged_verify_mode p) = [zsum lens]) as ->.
  { unfold verify_layout_grid. rewrite unragged by done. by case_bool_decide. }
  pose proof (zsum_lower 1 lens ltac:(forall_impl Hrows)). pose proof (zsum_upper w lens ltac:(forall_impl Hrows)).
  destruct (from_verify_lens_ok cuda lens [zsum lens] 0 (zsum lens)) as (l & E & Hok & Hv & _).
  - intros ->. cbn in Hlen. lia.
  - forall_impl Hrows.
  - rewrite Z.max_l by lia. apply round_up_grid_exact; [by repeat constructor|by constructor].
  - done.
  - nia.
  - exists l. split; [done|]. split; [|done]. split; [done|]. split; [by rewrite Hv|].
    intros r Hr Hm. by rewrite (Hn r Hr) in Hm.
Qed.

Lemma ragged_dec : (∃ r, runner = Some r ∧ ragged_verify_mode r = true) ∨ (∀ r, runner = Some r → ragged_verify_mode r = false).
Proof.
  destruct runner as [r|]; [|by right]. destruct (ragged_verify_mode r) eqn:E; [left; by exists r|right]. by intros ? [= <-].
Qed.

(** The uniform layout of [bs] requests keyed by [n] of the group. *)
Lemma uniform_ok bs global_num_reqs :
  1 <= bs → bs * w < 2 ^ 31 → (∀ g, global_num_reqs = Some g → bs <= g) → _ragged_verify_mode p = COMPACT →
  ∃ o, uniform_ragged_layout runner cuda bs w (_ragged_verify_mode p) global_num_reqs = Ok o ∧
    (∀ r, runner = Some r → ragged_verify_mode r = true → graph_num_tokens <$> o = step_graph r (default bs global_num_reqs) None) ∧
    ∀ l, o = Some l → scheduled_ok bs l.
Proof.
  intros Hbs H31 Hg Hm. assert (Hbn : bs <= default bs global_num_reqs) by (destruct global_num_reqs; [by apply Hg|cbn; lia]).
  destruct (po_width p Hp) as [Hw _]. destruct ragged_dec as [(r & Hr & Hrm)|Hn].
  - rewrite Hm. destruct (uniform_ragged_ok r Hr Hrm bs (default bs global_num_reqs)) as (o & E & Hgr & Hl); [lia|].
    exists o. split; [by destruct global_num_reqs|]. split; [|done]. intros r' Hr' _. rewrite Hr in Hr'. by injection Hr' as <-.
  - unfold uniform_ragged_layout, ragged_layout_exceeds_captured_grid, verify_layout_graph_num_tokens_floor. rewrite unragged by done.
    cbn [mbind result_bind]. rewrite orb_true_r.
    destruct (eager_layout_ok (replicate (Z.to_nat bs) w) bs Hn) as (l & -> & Hl & _); [|done..|].
    + split; [rewrite length_replicate; lia|]. apply Forall_replicate. lia.
    + cbn [mbind result_bind]. eexists. split; [done|]. split; [intros r Hr Hrm; by rewrite (Hn r Hr) in Hrm|]. by intros ? [= <-].
Qed.

Lemma layout_of_lens_ok lens bs budget global_num_reqs dp_tier :
  rows_ok bs lens → 1 <= bs → bs * w < 2 ^ 31 → (∀ g, global_num_reqs = Some g → bs <= g) → (is_Some dp_tier → is_Some global_num_reqs) →
  let n := default bs global_num_reqs in
  (∀ r, runner = Some r → ragged_verify_mode r = true → 1 <= tier_tokens n (tier_of p n budget dp_tier) ∧
    ∀ g, round_up_grid (tier_tokens n (tier_of p n budget dp_tier)) (capture_num_tokens r) = Ok g → zsum lens <= g) →
  ∃ o, layout_of_lens cuda p lens budget global_num_reqs dp_tier = Ok o ∧
    (∀ r, runner = Some r → ragged_verify_mode r = true → graph_num_tokens <$> o = step_graph r n (tier_of p n budget dp_tier)) ∧
    ∀ l, o = Some l → scheduled_ok bs l.
Proof.
  intros Hrows Hbs H31 Hg Ht n Hfit. destruct ragged_dec as [(r & Hr & Hrm)|Hn].
  - destruct (Hfit r Hr Hrm) as [H1 Hfit']. destruct (layout_of_lens_ragged r Hr Hrm lens bs budget global_num_reqs dp_tier) as (o & E & Hgr & Hl); try done.
    exists o. split; [done|]. split; [|done]. intros r' Hr' _. rewrite Hr in Hr'. by injection Hr' as <-.
  - unfold layout_of_lens. rewrite py_assert_true by (destruct dp_tier; [destruct Ht as [? ->]; eauto|by destruct global_num_reqs]).
    cbn [mbind result_bind]. unfold ragged_layout_exceeds_captured_grid, verify_layout_graph_num_tokens_floor. rewrite unragged by done.
    cbn [mbind result_bind]. rewrite orb_true_r. destruct (eager_layout_ok lens bs Hn Hrows Hbs H31) as (l & -> & Hl & _).
    cbn [fmap result_fmap]. eexists. split; [done|]. split; [intros r Hr Hm; by rewrite (Hn r Hr) in Hm|]. by intros ? [= <-].
Qed.
End planner.
