(* ===== verification/DSparkReplay.v ===== *)
(** * DSparkReplay: the planner's promises

    A step's layout exists and replays on a captured graph; data-parallel ranks, busy or idle,
    agree on the graph; and the two cases in which the code does not keep these promises. *)

From S2P Require Import Prelude Sampling TensorOps StableSort RaggedVerify RaggedProps.
From S2P Require Import DSparkSchedule DSparkTopk DSparkOptimal DSparkSps DSparkBudget DSparkPlanner DSparkLayout.
#[local] Open Scope Z_scope.

(** The cache of uniform layouts holds what would be computed. *)
Definition cache_ok (cuda : bool) (p : DSparkVerifyPlanner) (cache : layout_cache) : Prop :=
  ∀ n g o, cache !! (n, g) = Some o →
    uniform_ragged_layout (decode_cuda_graph_runner p) cuda n (verify_num_draft_tokens p) (_ragged_verify_mode p) g = Ok o.

(** The runner has a graph for each of its tiers. *)
Definition fully_captured (r : GraphRunner) : Prop :=
  captured_ok r ∧ Forall (λ g, is_Some (_captured_ragged_layouts r !! g)) (capture_num_tokens r).

Section replay.
Context `{TorchArgsortLaws} (cuda : bool) (landed : list nat) (p : DSparkVerifyPlanner).
Hypothesis Hp : planner_ok p.

Lemma schedule_verify_lens_cases bs confidence budget aligned global_num_reqs dp_tier :
  call_ok cuda landed p bs confidence budget global_num_reqs dp_tier →
  (budget = None → aligned = None) → (∀ b', aligned = Some b' → 0 <= b') →
  _schedule_verify_lens cuda landed p confidence aligned = Ok None ∧ (is_Some dp_tier → aligned = None) ∨
  ∃ lens b', aligned = Some b' ∧ _schedule_verify_lens cuda landed p confidence aligned = Ok (Some lens) ∧ rows_ok p bs lens ∧ zsum lens <= bs + b'.
Proof.
  intros Hc Hnone Hpos. unfold _schedule_verify_lens. destruct (has_budget_planner p) eqn:Eh; cbn [negb]; cycle 1.
  { left. split; [done|]. intros [t Ht]. destruct (co_tier _ _ _ _ _ _ _ _ Hc t Ht) as (_ & ? & _). congruence. }
  destruct confidence as [c|]; cycle 1.
  { left. split; [done|]. intros [t Ht]. by destruct (co_tier _ _ _ _ _ _ _ _ Hc t Ht) as (_ & _ & [? ?] & _). }
  destruct aligned as [b'|]; [|left; by split]. right.
  destruct (co_confidence _ _ _ _ _ _ _ _ Hc c eq_refl) as [Hconf Hl].
  destruct (schedule_lens_ok cuda landed p Hp bs c b' Hconf (Hpos b' eq_refl) Hl) as (lens & -> & Hi & Hrows & Hsum).
  cbn [mbind result_bind]. rewrite Hi. by exists lens, b'.
Qed.

(** The graph of a step, unless every step verifies everything, depends on the group only. *)
Definition graph_agrees (n : Z) (dp_tier : option Z) (o : option RaggedVerifyLayout) : Prop :=
  ∀ r, decode_cuda_graph_runner p = Some r → ragged_verify_mode r = true → _dynamic_graph_tier p = false →
    _is_verify_all p = false → graph_num_tokens <$> o = step_graph p r n dp_tier.

Lemma tier_of_agreed n budget dp_tier : _dynamic_graph_tier p = false → tier_of p n budget dp_tier = dp_tier.
Proof. intros Hd. unfold tier_of. rewrite Hd. by destruct dp_tier. Qed.

Lemma schedule_layout_total cache bs confidence budget global_num_reqs dp_tier :
  call_ok cuda landed p bs confidence budget global_num_reqs dp_tier → cache_ok cuda p cache →
  ∃ o cache', schedule_layout cuda landed p cache bs confidence budget global_num_reqs dp_tier = Ok (o, cache') ∧
    cache_ok cuda p cache' ∧ (∀ l, o = Some l → scheduled_ok p bs l) ∧ graph_agrees (default bs global_num_reqs) dp_tier o.
Proof.
  intros Hc Hcache. pose proof Hc as [Hbs H31 _ Hb Hg Ht _]. unfold schedule_layout, graph_agrees.
  case_bool_decide as Hst.
  { exists None, cache. split_and!; try done. intros r Hr Hm. destruct (po_runner p Hp r Hr Hm) as (_ & _ & E). congruence. }
  assert (Hnc : ∀ r, decode_cuda_graph_runner p = Some r → ragged_verify_mode r = true → _ragged_verify_mode p = COMPACT).
  { intros r Hr Hm. by destruct (po_runner p Hp r Hr Hm) as (_ & _ & ?). }
  destruct (_is_verify_all p && bool_decide (_ragged_verify_mode p = COMPACT)) eqn:Eall.
  { apply andb_true_iff in Eall as [Hva Hm%bool_decide_eq_true].
    destruct (uniform_ok cuda p Hp bs global_num_reqs Hbs H31 Hg Hm) as (o & Eo & _ & Hl). rewrite Eo.
    destruct (cache !! (bs, global_num_reqs)) as [o'|] eqn:Ec.
    - pose proof (Hcache _ _ _ Ec) as Eo'. rewrite Eo in Eo'. injection Eo' as <-. exists o, cache. split_and!; try done. congruence.
    - cbn [mbind result_bind]. eexists _, _. split; [done|]. split; [|split; [done|congruence]].
      intros n g o' [[[= <- <-] <-]|[_ H']]%lookup_insert_Some; [done|by apply Hcache]. }
  assert (Huni : dp_tier = None → ∃ o cache', (if bool_decide (_ragged_verify_mode p = COMPACT)
      then layout ← uniform_ragged_layout (decode_cuda_graph_runner p) cuda bs (verify_num_draft_tokens p) (_ragged_verify_mode p) global_num_reqs; Ok (layout, cache)
      else Ok (None, cache)) = Ok (o, cache') ∧ cache_ok cuda p cache' ∧ (∀ l, o = Some l → scheduled_ok p bs l) ∧ graph_agrees (default bs global_num_reqs) dp_tier o).
  { intros ->. case_bool_decide as Hm.
    - destruct (uniform_ok cuda p Hp bs global_num_reqs Hbs H31 Hg Hm) as (o & -> & Hgr & Hl). exists o, cache. split_and!; try done.
      intros r Hr Hrm _ _. by apply Hgr.
    - exists None, cache. split_and!; try done. intros r Hr Hrm. by specialize (Hnc r Hr Hrm). }
  destruct budget as [b|]; cycle 1.
  - assert (dp_tier = None) as Hdt by (destruct dp_tier as [t|]; [by destruct (Ht t eq_refl) as (_ & _ & _ & ? & ? & _)|done]).
    cbn [_budget_aligned_to_graph_tier mbind result_bind].
    destruct (schedule_verify_lens_cases _ _ _ None _ _ Hc) as [[-> _]|(? & ? & ? & _)]; [done..| |done]. cbn [mbind result_bind].
    rewrite py_assert_true by (by rewrite Hdt). by apply Huni.
  - destruct (aligned_ok cuda landed p Hp _ _ _ _ _ Hc) as (b' & -> & Hb' & Hfit). cbn [mbind result_bind].
    destruct (schedule_verify_lens_cases _ _ _ (Some b') _ _ Hc) as [[-> Hnt]|(lens & b'' & [= <-] & -> & Hrows & Hsum)]; [done|by intros ? [= <-]|..];
      cbn [mbind result_bind].
    + assert (dp_tier = None) as Hdt by (destruct dp_tier; [by specialize (Hnt ltac:(eauto))|done]).
      rewrite py_assert_true by (by rewrite Hdt). by apply Huni.
    + destruct (layout_of_lens_ok cuda p Hp lens bs (Some b) global_num_reqs dp_tier) as (o & -> & Hgr & Hl); try done.
      * intros [t ->]. by destruct (Ht t eq_refl) as (? & _).
      * intros r Hr Hm. destruct (tier_covers cuda landed p Hp _ _ _ _ _ Hc) as (_ & H1 & _). split; [lia|].
        intros g Eg. apply (Hfit r Hr Hm g Eg); [done|]. destruct Hrows as [Hlen Hrows].
        pose proof (zsum_upper (verify_num_draft_tokens p) lens ltac:(forall_impl Hrows)). lia.
      * cbn [mbind result_bind]. exists o, cache. split_and!; try done. intros r Hr Hm Hd _. rewrite (Hgr r Hr Hm). by rewrite tier_of_agreed.
Qed.
End replay.


#[local] Existing Instances Insertion.torch_argsort Insertion.torch_argsort_laws.

(** A runner for batches of 1 and 2 requests and 3 tokens each, and its planner. *)
Definition empty_runner : GraphRunner := mkRunner true 3 [3; 6] 2 false ∅.
Definition tiny_runner : GraphRunner := match _capture_one_stream true empty_runner [2; 1] with Ok r => r | Raise _ => empty_runner end.
Definition tiny_planner : DSparkVerifyPlanner := mkPlanner COMPACT 3 (default_schedule_config 2) true true false false (Some tiny_runner).

Lemma empty_runner_ok : runner_ok empty_runner.
Proof. constructor; cbn; try done; repeat constructor; lia. Qed.

Lemma tiny_runner_ok : runner_ok tiny_runner ∧ fully_captured tiny_runner.
Proof.
  destruct (capture_all_ok true empty_runner [2; 1] empty_runner_ok eq_refl) as (r & E & Hs & Hc & Hall).
  - intros g l Hl. cbn in Hl. by rewrite lookup_empty in Hl.
  - repeat constructor; apply (bool_decide_unpack _); vm_compute; exact I.
  - unfold tiny_runner. rewrite E. pose proof Hs as [c ->]. split; [by apply (same_runner_ok _ _ Hs), empty_runner_ok|]. split; [done|].
    apply Forall_forall. intros g Hg. apply Hall. right. cbn in Hg |- *. set_solver.
Qed.

Lemma tiny_planner_ok : planner_ok tiny_planner.
Proof. constructor; cbn; [lia|done|]. intros r [= <-] _. split; [apply tiny_runner_ok|]. split; vm_compute; reflexivity. Qed.

Lemma tiny_call_ok : call_ok true [3; 1; 0; 2]%nat tiny_planner 2 (Some tiny_confidence) (Some 1) None None.
Proof.
  constructor; cbn; try lia; try done.
  - intros c [= <-]. split; [split; [done|split; [by repeat constructor|]]|].
    + repeat constructor; cbn; unfold Qle; cbn; lia.
    + intros _. apply (bool_decide_unpack _). vm_compute. exact I.
  - by intros b [= <-].
Qed.


(** ** Data-parallel ranks *)

(** A rank: its number of requests and the budget computed for them. *)
Notation rank_step := (Z * option Z)%type.

(** The tier a rank announces: 0 when idle, -1 without a budget ([prepare_verify_budget]). *)
Definition local_tier (p : DSparkVerifyPlanner) (rk : rank_step) : Z :=
  if rk.1 =? 0 then 0 else local_verify_tier_num_tokens rk.1 rk.2 (verify_num_draft_tokens p) (min_verify_len (_schedule_cfg p)).

(** What every rank holds after the two gathers. *)
Definition group_batch (p : DSparkVerifyPlanner) (ranks : list rank_step) : DpBatch :=
  mkDpBatch (Some ranks.*1) (Some (local_tier p <$> ranks)).

Lemma py_max_ge x l y : y ∈ x :: l → y <= py_max x l.
Proof.
  intros Hy. induction l as [|z l IH]; cbn.
  - apply list_elem_of_singleton in Hy as ->. lia.
  - fold (py_max x l). apply elem_of_cons in Hy as [->|Hy]; [specialize (IH ltac:(by left)); lia|].
    apply elem_of_cons in Hy as [->|Hy]; [lia|]. specialize (IH ltac:(by right)). lia.
Qed.

Lemma py_max_in x l : py_max x l ∈ x :: l.
Proof.
  induction l as [|z l IH]; cbn; [by left|]. fold (py_max x l).
  destruct (Z.max_spec z (py_max x l)) as [[_ ->]|[_ ->]]; set_solver.
Qed.

Section agreement.
Context `{TorchArgsortLaws} (cuda : bool) (p : DSparkVerifyPlanner) (r : GraphRunner) (ranks : list rank_step) (G : Z).
Hypothesis Hp : planner_ok p.
Hypothesis Hrunner : decode_cuda_graph_runner p = Some r.
Hypothesis Hmode : ragged_verify_mode r = true.
Hypothesis Hstatic : _dynamic_graph_tier p = false.
Hypothesis Hplans : has_budget_planner p = true ∧ _is_verify_all p = false.
Hypothesis Hranks : Forall (λ rk : rank_step, 0 <= rk.1 ∧ rk.1 * verify_num_draft_tokens p < 2 ^ 31 ∧ ∀ b, rk.2 = Some b → 0 <= b) ranks.
Hypothesis HG : py_max_list ranks.*1 = Ok G.
Hypothesis Hfits : _align_verify_tokens_to_graph_tier p = true → G <= max_bs r.

Notation w := (verify_num_draft_tokens p).
Notation tier := (_dp_verify_tier_num_tokens p true true (group_batch p ranks)).

Lemma group_max : G ∈ ranks.*1 ∧ ∀ rk, rk ∈ ranks → rk.1 <= G.
Proof.
  unfold py_max_list in HG. destruct (ranks.*1) as [|x l] eqn:E; [done|]. injection HG as <-. split; [apply py_max_in|].
  intros rk Hrk. apply py_max_ge. rewrite <- E. by apply list_elem_of_fmap_2.
Qed.

Lemma rank_facts rk : rk ∈ ranks → 0 <= rk.1 ∧ rk.1 * w < 2 ^ 31 ∧ ∀ b, rk.2 = Some b → 0 <= b.
Proof. intros Hrk. rewrite Forall_forall in Hranks. by apply Hranks. Qed.

Lemma tier_eq : tier = dp_global_verify_tier_num_tokens (Some (local_tier p <$> ranks)).
Proof.
  unfold _dp_verify_tier_num_tokens, is_compact_mode, group_batch. destruct (po_runner p Hp r Hrunner Hmode) as (_ & _ & ->).
  by rewrite bool_decide_eq_true_2.
Qed.

(** An agreed tier is at least every rank's own, and some rank's own. *)
Lemma tier_some t :
  tier = Some t → (∀ rk, rk ∈ ranks → 0 <= local_tier p rk <= t) ∧ ∃ rk, rk ∈ ranks ∧ local_tier p rk = t.
Proof.
  rewrite tier_eq. unfold dp_global_verify_tier_num_tokens. set (tiers := local_tier p <$> ranks).
  assert (Hin : ∀ rk, rk ∈ ranks → local_tier p rk ∈ tiers) by (intros rk Hrk; by apply list_elem_of_fmap_2).
  destruct (existsb _ tiers) eqn:Ex; [done|].
  destruct tiers as [|x l] eqn:El; [done|]. destruct (0 <? py_max x l); [|done]. intros [= <-]. split.
  - intros rk Hrk. specialize (Hin rk Hrk). split; [|by apply py_max_ge].
    apply Z.nlt_ge. intros Hneg. apply not_true_iff_false in Ex. apply Ex, existsb_exists.
    exists (local_tier p rk). split; [by apply list_elem_of_In|by apply Z.ltb_lt].
  - pose proof (py_max_in x l) as Hm. rewrite <- El in Hm. apply list_elem_of_fmap in Hm as (rk & Hrk & ?). by exists rk.
Qed.

Lemma local_tier_busy rk : 1 <= rk.1 → local_tier p rk = local_verify_tier_num_tokens rk.1 rk.2 w 1.
Proof.
  intros Hb. unfold local_tier. rewrite (proj2 (Z.eqb_neq _ _)) by lia. by destruct (cfg_whole p Hp) as (_ & _ & -> & _).
Qed.

(** With requests anywhere, an agreed tier lies between one token and all tokens per request. *)
Lemma tier_range_some t : tier = Some t → 1 <= G → G <= t <= G * w.
Proof.
  intros Ht H1. destruct (tier_some t Ht) as [Hall (rk & Hrk & Ert)]. destruct group_max as [Hin Hmax].
  destruct (po_width p Hp) as [Hw _]. apply list_elem_of_fmap in Hin as (rm & EG & Hrm). split.
  - pose proof (Hall rm Hrm) as Hle. rewrite local_tier_busy in Hle by lia. unfold local_verify_tier_num_tokens in Hle.
    destruct (rm.2) as [b|] eqn:Eb; [|lia]. destruct (rank_facts rm Hrm) as (_ & _ & Hb). specialize (Hb b Eb). nia.
  - destruct (rank_facts rk Hrk) as (Hnn & _ & _). specialize (Hmax rk Hrk). subst t. unfold local_tier.
    destruct (Z.eqb_spec (rk.1) 0); [nia|]. unfold local_verify_tier_num_tokens. destruct (rk.2); nia.
Qed.

Lemma busy_graph cache landed bs budget confidence :
  (bs, budget) ∈ ranks → 1 <= bs → confidence_ok p bs confidence → (cuda = true → landed ≡ₚ seq 0 (length confidence * Z.to_nat (w - 1))) →
  cache_ok cuda p cache →
  ∃ o cache', decode_layout cuda landed p true true cache (group_batch p ranks) bs (Some confidence) budget = Ok (o, cache') ∧
    graph_num_tokens <$> o = step_graph p r G tier.
Proof.
  intros Hrk Hbs Hconf Hl Hcache. unfold decode_layout. cbn [andb group_batch global_num_tokens]. rewrite HG. cbn [fmap result_fmap mbind result_bind].
  destruct group_max as [_ Hmax]. specialize (Hmax _ Hrk). destruct (rank_facts _ Hrk) as (_ & H31 & Hb). cbn [fst snd] in *.
  destruct (schedule_layout_total cuda landed p Hp cache bs (Some confidence) budget (Some G) tier) as (o & cache' & E & _ & _ & Hgr).
  - constructor; try done.
    + intros c [= <-]. done.
    + by intros g [= <-].
    + intros t Ht. destruct Hplans as [-> _]. split_and!; [by eexists|done|by eexists|].
      destruct (tier_some t Ht) as [Hall _]. specialize (Hall _ Hrk). rewrite local_tier_busy in Hall by done. cbn [fst snd] in Hall.
      destruct budget as [b|]; [|unfold local_verify_tier_num_tokens in Hall; lia]. exists b. split; [done|lia].
    + intros Ha r' Hr' _. rewrite Hrunner in Hr'. injection Hr' as <-. by apply Hfits.
  - done.
  - exists o, cache'. split; [exact E|]. destruct Hplans as [_ Hva]. by apply Hgr.
Qed.

Lemma idle_graph :
  1 <= G → G * w < 2 ^ 31 →
  ∃ o, _idle_verify_ragged_layout cuda p true true (group_batch p ranks) = Ok o ∧ graph_num_tokens <$> o = step_graph p r G tier.
Proof.
  intros H1 H31. unfold _idle_verify_ragged_layout, is_compact_mode. cbn [group_batch global_num_tokens].
  destruct (po_runner p Hp r Hrunner Hmode) as (Hr & Hw & Hm). rewrite (bool_decide_eq_true_2 (_ragged_verify_mode p = COMPACT)) by done. cbn [negb]. rewrite HG. cbn [mbind result_bind].
  rewrite (proj2 (Z.leb_gt _ _)) by lia. unfold idle_ragged_layout. destruct (ragged_capture p r Hrunner Hmode) as [Hcap _]. rewrite Hcap.
  change (mkDpBatch _ _) with (group_batch p ranks). destruct tier as [t|] eqn:Et; cycle 1.
  { destruct (uniform_ok cuda p Hp G None H1 H31 ltac:(done) Hm) as (o & Eo & Hgr & _). rewrite Hm in Eo. exists o. split; [done|by apply Hgr]. }
  pose proof (tier_range_some t Et H1) as Ht. rewrite (exceeds_eq p Hp r Hrunner Hmode). cbn [mbind result_bind]. unfold step_graph.
  destruct ((max_bs r <? G) || (max_bs r * w <? default (G * w) (Some t))) eqn:Ex; [by eexists|].
  apply orb_false_iff in Ex as [_ Htop%Z.ltb_ge]. cbn [default from_option id] in Htop. unfold verify_layout_grid. rewrite Hcap.
  rewrite bool_decide_eq_false_2 by (intros H'; by apply H'). cbn [tier_tokens]. rewrite Z.min_l by lia.
  destruct (round_up_tier p Hp r Hrunner Hmode t Htop) as (g & Eg & _ & Htg & _ & Hg31). rewrite Eg.
  assert (Hsum : zsum (replicate (Z.to_nat G) 1) = G) by (rewrite zsum_replicate; lia).
  destruct (from_verify_lens_ok cuda (replicate (Z.to_nat G) 1) (capture_num_tokens r) t g) as (l & -> & _ & _ & Hgl & _).
  - destruct (Z.to_nat G) eqn:E; [lia|done].
  - apply Forall_replicate. lia.
  - rewrite Hsum, Z.max_r by lia. done.
  - lia.
  - done.
  - cbn [mbind result_bind]. eexists. split; [done|]. cbn. by rewrite Hgl.
Qed.
End agreement.


(** Three ranks with 2, 0 and 1 requests: the first needs 3 tokens, the last all its 3. *)
Definition dp_planner : DSparkVerifyPlanner := mkPlanner COMPACT 3 (default_schedule_config 2) true false false false (Some tiny_runner).
Definition dp_ranks : list (Z * option Z) := [(2, Some 1); (0, None); (1, Some 2)].


(** ** Where the code falls short *)

(** Past the captured grid a step falls back to eager execution, but with budgets aligned to the
    graph tier the budget is rounded up before that is checked, which raises. *)
Definition with_alignment (align : bool) : DSparkVerifyPlanner :=
  mkPlanner COMPACT 3 (default_schedule_config 2) true true align false (Some tiny_runner).

Definition three_requests : list (list Q) := replicate 3 [1 # 2; 1 # 2]%Q.

Example align_past_grid_raises :
  schedule_layout false [] (with_alignment false) ∅ 3 (Some three_requests) (Some 6) None None = Ok (None, ∅) ∧
  schedule_layout false [] (with_alignment true) ∅ 3 (Some three_requests) (Some 6) None None = Raise ValueError.
Proof. split; vm_compute; reflexivity. Qed.

(** With an uninitialised cost table busy ranks verify everything, whatever the tier the group
    agreed on, while idle ranks take the agreed tier: here two requests of which one draft is
    likely enough announce 3 tokens and run the graph of 6, the idle rank the graph of 3. *)
Definition verify_all_planner : DSparkVerifyPlanner :=
  mkPlanner COMPACT 3 (default_schedule_config 2) true false false true (Some tiny_runner).

Definition unlikely : list (list Q) := [[1 # 2; 0]; [0; 0]]%Q.

Definition flat_table : CostTable := Steps (mkSpsCostTable [1] [1%Q] 6).
Definition budget_of (m : result VerifyBudgetDecision) : option Z := match m with Ok d => Some (budget d) | Raise _ => None end.
Definition graph_of (m : result (option RaggedVerifyLayout)) : option (option Z) :=
  match m with Ok o => Some (graph_num_tokens <$> o) | Raise _ => None end.

Example verify_all_ranks_disagree :
  let ranks := [(2, Some 1); (0, None)] in
  budget_of (compute_verify_token_budget (compute_sort_survival unlikely) flat_table (default_schedule_config 2)) = Some 1 ∧
  graph_of (fst <$> decode_layout false [] verify_all_planner true true ∅ (group_batch verify_all_planner ranks) 2 (Some unlikely) (Some 1))
    = Some (Some 6) ∧
  graph_of (_idle_verify_ragged_layout false verify_all_planner true true (group_batch verify_all_planner ranks)) = Some (Some 3).
Proof. split_and!; vm_compute; reflexivity. Qed.
