(* ===== verification/AdaptiveSpec.v ===== *)
(** * AdaptiveSpec: choosing the number of draft steps at run time

    Models [S/speculative/adaptive_spec_params.py] and the controller of
    [S/speculative/adaptive_runtime_state.py].  A slot per batch-size range follows the accepted
    draft length with a moving average and moves between its candidate step counts; the
    controller keeps one runtime state per step count and swaps the worker between them.  Floats
    are rational numbers; a [while] loop is a fixpoint with fuel. *)

From Stdlib Require Import Qround.
From S2P Require Import Prelude Sampling TensorOps DSparkSps.
#[local] Open Scope Z_scope.

(** ** Configuration *)

(** A JSON object of the configuration, with the values of the keys the code reads. *)
Record SlotCfg : Type := mkSlotCfg {
  cfg_candidate_steps : option (list Z);
  cfg_ema_alpha : option Q;
  cfg_update_interval : option Z;
  cfg_warmup_batches : option Z;
  cfg_down_hysteresis : option Q;
  cfg_up_hysteresis : option Q;
  cfg_ceiling_coeff : option Q;
}.

Definition override {A} (base new : option A) : option A := match new with Some _ => new | None => base end.

(** [{**cfg, **entry}]. *)
Definition merge_cfg (cfg entry : SlotCfg) : SlotCfg :=
  mkSlotCfg (override (cfg_candidate_steps cfg) (cfg_candidate_steps entry))
    (override (cfg_ema_alpha cfg) (cfg_ema_alpha entry)) (override (cfg_update_interval cfg) (cfg_update_interval entry))
    (override (cfg_warmup_batches cfg) (cfg_warmup_batches entry)) (override (cfg_down_hysteresis cfg) (cfg_down_hysteresis entry))
    (override (cfg_up_hysteresis cfg) (cfg_up_hysteresis entry)) (override (cfg_ceiling_coeff cfg) (cfg_ceiling_coeff entry)).

(** The configuration: its own settings and its entries, a key that is a number or not. *)
Record AdaptiveCfg : Type := mkAdaptiveCfg {
  cfg_globals : SlotCfg;
  cfg_entries : list (option Z * SlotCfg);
}.

Definition steps_only (steps : list Z) (down : Q) : SlotCfg := mkSlotCfg (Some steps) None None None (Some down) (Some 0%Q) (Some 0%Q).

Definition DEFAULT_ADAPTIVE_CONFIG : AdaptiveCfg :=
  mkAdaptiveCfg (mkSlotCfg None None None None None None None)
    [(Some 1, steps_only [1; 3; 7] (- (1 # 4))); (Some 8, steps_only [0; 1; 3] 0);
     (Some 32, steps_only [0; 1] 0); (Some 64, steps_only [0] 0)].

(** The loop of [_load_adaptive_config] over the entries. *)
Fixpoint load_entries (bs_entries : gmap Z SlotCfg) (entries : list (option Z * SlotCfg)) : result (gmap Z SlotCfg) :=
  match entries with
  | [] => Ok bs_entries
  | (None, _) :: entries => load_entries bs_entries entries
  | (Some key, entry) :: entries =>
      _ ← py_check ValueError (match cfg_candidate_steps entry with
                               | Some (s :: steps) => forallb (λ s, 0 <=? s) (s :: steps)
                               | _ => false
                               end);
      load_entries (<[key := entry]> bs_entries) entries
  end.

Definition _load_adaptive_config (cfg : AdaptiveCfg) : result (gmap Z SlotCfg) :=
  bs_entries ← load_entries ∅ (cfg_entries cfg);
  _ ← py_check ValueError (bool_decide (bs_entries ≠ ∅));
  Ok bs_entries.

(** [sorted(bs_entries)]. *)
Definition sorted_keys {A} (m : gmap Z A) : list Z := merge_sort Z.le (map_to_list m).*1.

Definition resolve_candidate_steps_from_config (cfg : AdaptiveCfg) : result (list Z) :=
  bs_entries ← _load_adaptive_config cfg;
  Ok (sorted_set (concat ((λ kv : Z * SlotCfg, default [] (cfg_candidate_steps kv.2)) <$> map_to_list bs_entries))).

(** ** [AdaptiveStepSlot] *)

Record AdaptiveStepSlot : Type := mkSlot {
  candidate_steps : list Z;
  ema_alpha : Q;
  update_interval : Z;
  warmup_batches : Z;
  down_hysteresis : Q;
  up_hysteresis : Q;
  ceiling_coeff : Q;
  current_steps : Z;
  ema_accept_len : Q;
  _batch_count : Z;
}.

Definition with_state (s : AdaptiveStepSlot) (steps : Z) (ema : Q) (count : Z) : AdaptiveStepSlot :=
  mkSlot (candidate_steps s) (ema_alpha s) (update_interval s) (warmup_batches s) (down_hysteresis s) (up_hysteresis s)
    (ceiling_coeff s) steps ema count.

Definition new_slot (initial_steps : Z) (cfg : SlotCfg) : result AdaptiveStepSlot :=
  raw ← match cfg_candidate_steps cfg with Some l => Ok l | None => Raise KeyError end;
  let candidates := sorted_set raw in
  _ ← py_assert (1 <=? length candidates)%nat;
  current ← (if bool_decide (initial_steps ∈ candidates) then Ok initial_steps
             else py_nth candidates (Z.of_nat (length candidates) / 2));
  Ok (mkSlot candidates (default (1 # 5)%Q (cfg_ema_alpha cfg)) (default 5 (cfg_update_interval cfg))
        (default 10 (cfg_warmup_batches cfg)) (default (- (1 # 4))%Q (cfg_down_hysteresis cfg))
        (default 0%Q (cfg_up_hysteresis cfg)) (default 0%Q (cfg_ceiling_coeff cfg))
        current (inject_Z (current - 1)) 0).

Definition _apply_target_steps (s : AdaptiveStepSlot) (old_steps target : Z) : AdaptiveStepSlot * bool :=
  if negb (target =? old_steps) then (with_state s target (ema_accept_len s) (_batch_count s), true) else (s, false).

Section loops.
Context (s : AdaptiveStepSlot).

Definition drop_threshold (prev_step : Z) : Q :=
  ((if (prev_step =? 0)%Z then 1 # 2 else inject_Z prev_step - (1 # 2)) + down_hysteresis s)%Q.
Definition rise_threshold (current_step : Z) : Q := (inject_Z current_step - (1 # 2) + up_hysteresis s)%Q.

(** [while current_idx > 0: ... current_idx -= 1 or break]. *)
Fixpoint drop_loop (fuel : nat) (current_idx : Z) : result Z :=
  match fuel with
  | O => Raise OutOfFuel
  | S fuel =>
      if 0 <? current_idx then
        prev_step ← py_nth (candidate_steps s) (current_idx - 1);
        if Qle_bool (ema_accept_len s) (drop_threshold prev_step) then drop_loop fuel (current_idx - 1) else Ok current_idx
      else Ok current_idx
  end.

(** [while current_idx < len(self.candidate_steps) - 1: ...]. *)
Fixpoint rise_loop (fuel : nat) (current_idx : Z) : result Z :=
  match fuel with
  | O => Raise OutOfFuel
  | S fuel =>
      if current_idx <? Z.of_nat (length (candidate_steps s)) - 1 then
        current_step ← py_nth (candidate_steps s) current_idx;
        if Qltb (rise_threshold current_step) (ema_accept_len s) then rise_loop fuel (current_idx + 1) else Ok current_idx
      else Ok current_idx
  end.

(** [while current_idx > 0 and self.candidate_steps[current_idx] > ceiling: ...]. *)
Fixpoint ceiling_loop (fuel : nat) (ceiling current_idx : Z) : result Z :=
  match fuel with
  | O => Raise OutOfFuel
  | S fuel =>
      if 0 <? current_idx then
        step ← py_nth (candidate_steps s) current_idx;
        if ceiling <? step then ceiling_loop fuel ceiling (current_idx - 1) else Ok current_idx
      else Ok current_idx
  end.
End loops.

(** [list.index]. *)
Definition py_index (l : list Z) (x : Z) : result Z :=
  match find_index (λ y, y =? x) l with Some i => Ok (Z.of_nat i) | None => Raise ValueError end.

Definition _recompute_params (s : AdaptiveStepSlot) : result (AdaptiveStepSlot * bool) :=
  let fuel := S (length (candidate_steps s)) in
  let last_idx := Z.of_nat (length (candidate_steps s)) - 1 in
  let old_steps := current_steps s in
  old_idx ← py_index (candidate_steps s) old_steps;
  if old_steps =? 0 then
    target ← py_nth (candidate_steps s) (Z.min (old_idx + 1) last_idx);
    let s := if (0 <? target) && Qltb (ema_accept_len s) 0 then with_state s (current_steps s) (inject_Z (target - 1)) (_batch_count s) else s in
    Ok (_apply_target_steps s old_steps target)
  else
    dropped ← drop_loop s fuel old_idx;
    current_idx ← (if negb (dropped <? old_idx) then rise_loop s fuel dropped else Ok dropped);
    target ← py_nth (candidate_steps s) current_idx;
    target ← (if Qltb 0 (ceiling_coeff s) then
                let ceiling := Z.max 1 (Qceiling (ema_accept_len s * ceiling_coeff s)) in
                if (ceiling <? target) && (target <=? old_steps) then
                  current_idx ← ceiling_loop s fuel ceiling current_idx;
                  py_nth (candidate_steps s) current_idx
                else Ok target
              else Ok target);
    Ok (_apply_target_steps s old_steps target).

Definition update (s : AdaptiveStepSlot) (num_correct_drafts_per_req : list Z) : result (AdaptiveStepSlot * bool) :=
  match num_correct_drafts_per_req with
  | [] => Ok (s, false)
  | drafts =>
      let batch_avg := (inject_Z (zsum drafts) / inject_Z (Z.of_nat (length drafts)))%Q in
      let ema := if 0 <? current_steps s then ((1 - ema_alpha s) * ema_accept_len s + ema_alpha s * batch_avg)%Q else ema_accept_len s in
      let s := with_state s (current_steps s) ema (_batch_count s + 1) in
      if _batch_count s <=? warmup_batches s then Ok (s, false)
      else
        _ ← py_check ZeroDivisionError (negb (update_interval s =? 0));
        if negb ((_batch_count s - warmup_batches s) mod update_interval s =? 0) then Ok (s, false)
        else _recompute_params s
  end.

(** ** [AdaptiveSpeculativeParams] *)

Record AdaptiveSpeculativeParams : Type := mkParams {
  _bs_list : list Z;
  _slots : gmap Z AdaptiveStepSlot;
  _cuda_graph_bs : option (list Z);
}.

Fixpoint build_slots (initial_steps : Z) (globals : SlotCfg) (entries : list (Z * SlotCfg)) (slots : gmap Z AdaptiveStepSlot)
  : result (gmap Z AdaptiveStepSlot) :=
  match entries with
  | [] => Ok slots
  | (bs, entry) :: entries =>
      slot ← new_slot initial_steps (merge_cfg globals entry);
      build_slots initial_steps globals entries (<[bs := slot]> slots)
  end.

Definition new_params (initial_steps : Z) (cfg : AdaptiveCfg) : result AdaptiveSpeculativeParams :=
  bs_entries ← _load_adaptive_config cfg;
  let bs_list := sorted_keys bs_entries in
  slots ← build_slots initial_steps (cfg_globals cfg) (omap (λ bs, (λ e, (bs, e)) <$> bs_entries !! bs) bs_list) ∅;
  Ok (mkParams bs_list slots None).

Definition all_candidate_steps (p : AdaptiveSpeculativeParams) : list Z :=
  sorted_set (concat ((λ kv : Z * AdaptiveStepSlot, candidate_steps kv.2) <$> map_to_list (_slots p))).

Definition set_cuda_graph_bs (p : AdaptiveSpeculativeParams) (cuda_graph_bs : option (list Z)) : AdaptiveSpeculativeParams :=
  mkParams (_bs_list p) (_slots p)
    (match cuda_graph_bs with Some (b :: l) => Some (merge_sort Z.le (b :: l)) | _ => None end).

Definition _pad_to_cuda_graph_bs (p : AdaptiveSpeculativeParams) (batch_size : Z) : Z :=
  match _cuda_graph_bs p with
  | None => batch_size
  | Some l => default batch_size (l !! py_bisect_left l batch_size)
  end.

Definition _find_closest_bs (p : AdaptiveSpeculativeParams) (target : Z) : result Z :=
  let idx := Z.of_nat (py_bisect_right (_bs_list p) target) - 1 in
  py_nth (_bs_list p) (Z.max 0 idx).

Definition slot_at (p : AdaptiveSpeculativeParams) (bs : Z) : result (Z * AdaptiveStepSlot) :=
  key ← _find_closest_bs p bs;
  match _slots p !! key with Some s => Ok (key, s) | None => Raise KeyError end.

Definition _route (p : AdaptiveSpeculativeParams) (batch_size : Z) : result (Z * AdaptiveStepSlot) :=
  slot_at p (_pad_to_cuda_graph_bs p batch_size).

Definition get_steps_for_batch (p : AdaptiveSpeculativeParams) (batch_size : Z) : result Z :=
  '(_, s) ← _route p batch_size; Ok (current_steps s).

Definition params_on_verify_complete (p : AdaptiveSpeculativeParams) (drafts : list Z) (batch_size : Z)
  : result (AdaptiveSpeculativeParams * option Z) :=
  '(key, s) ← _route p batch_size;
  '(s, changed) ← update s drafts;
  Ok (mkParams (_bs_list p) (<[key := s]> (_slots p)) (_cuda_graph_bs p), if (changed : bool) then Some (current_steps s) else None).

Definition cuda_graph_bs_for_step (p : AdaptiveSpeculativeParams) (step : Z) : result (option (list Z)) :=
  match _cuda_graph_bs p with
  | None => Ok None
  | Some l =>
      reached ← mapM (λ v, '(_, s) ← slot_at p v; Ok (v, bool_decide (step ∈ candidate_steps s))) l;
      Ok (Some ((filter (λ vb : Z * bool, vb.2 = true) reached).*1))
  end.

(** ** [AdaptiveController] *)

(** What the controller asks of a worker [W] and of the runtime states [St] it builds. *)
Class AdaptiveSpecWorker (W St : Type) : Type := {
  speculative_num_steps : W → Z;
  build_adaptive_runtime_state : W → Z → Z → option (list Z) → St;
  apply_runtime_state : W → St → W;
  state_num_steps : St → Z;
  state_cuda_graph_bs : St → option (list Z);
}.

Class AdaptiveSpecWorkerLaws (W St : Type) `{AdaptiveSpecWorker W St} : Prop := {
  apply_num_steps (w : W) (st : St) : speculative_num_steps (apply_runtime_state w st) = state_num_steps st;
  build_num_steps (w : W) steps tokens bs : state_num_steps (build_adaptive_runtime_state w steps tokens bs) = steps;
  build_cuda_graph_bs (w : W) steps tokens bs : state_cuda_graph_bs (build_adaptive_runtime_state w steps tokens bs) = bs;
}.

Section controller.
Context {W St : Type} `{AdaptiveSpecWorker W St}.

Record AdaptiveController : Type := mkController {
  worker : W;
  params : AdaptiveSpeculativeParams;
  _states : gmap Z St;
}.

Definition new_controller (w : W) (cfg : AdaptiveCfg) : result AdaptiveController :=
  params ← new_params (speculative_num_steps w) cfg; Ok (mkController w params ∅).

Definition register (c : AdaptiveController) (state : St) : AdaptiveController :=
  mkController (worker c) (params c) (<[state_num_steps state := state]> (_states c)).

Definition _activate (c : AdaptiveController) (steps : Z) : result AdaptiveController :=
  match _states c !! steps with
  | None => Raise ValueError
  | Some state => Ok (mkController (apply_runtime_state (worker c) state) (params c) (_states c))
  end.

(** The loop of [init_states]. *)
Fixpoint build_states (w : W) (p : AdaptiveSpeculativeParams) (steps : list Z) (states : gmap Z St) : result (gmap Z St) :=
  match steps with
  | [] => Ok states
  | s :: steps =>
      match states !! s with
      | Some _ => build_states w p steps states
      | None =>
          pruned_bs ← cuda_graph_bs_for_step p s;
          build_states w p steps (<[s := build_adaptive_runtime_state w s (s + 1) pruned_bs]> states)
      end
  end.

Definition init_states (c : AdaptiveController) (cuda_graph_bs : option (list Z)) : result AdaptiveController :=
  let p := set_cuda_graph_bs (params c) cuda_graph_bs in
  states ← build_states (worker c) p (all_candidate_steps p) (_states c);
  _activate (mkController (worker c) p states) (speculative_num_steps (worker c)).

Definition activate_step_by_batch (c : AdaptiveController) (batch_size : Z) : result AdaptiveController :=
  target ← get_steps_for_batch (params c) batch_size;
  if negb (target =? speculative_num_steps (worker c)) then _activate c target else Ok c.

Definition on_verify_complete (c : AdaptiveController) (drafts : list Z) (batch_size : Z) : result AdaptiveController :=
  '(p, new_step) ← params_on_verify_complete (params c) drafts batch_size;
  let c := mkController (worker c) p (_states c) in
  match new_step with Some steps => _activate c steps | None => Ok c end.
End controller.
Arguments AdaptiveController W St : clear implicits.

(** ** The loops end *)

Record slot_ok (s : AdaptiveStepSlot) : Prop := {
  sl_increasing : StronglySorted Z.lt (candidate_steps s);
  sl_current : current_steps s ∈ candidate_steps s;
  sl_interval : update_interval s ≠ 0;
}.

Section loop_lemmas.
Context (s : AdaptiveStepSlot).
Notation steps := (candidate_steps s).

Lemma drop_loop_ok fuel idx :
  0 <= idx < Z.of_nat (length steps) → (Z.to_nat idx < fuel)%nat →
  ∃ j, drop_loop s fuel idx = Ok j ∧ 0 <= j <= idx ∧
    (∀ k c, j <= k < idx → steps !! Z.to_nat k = Some c → (ema_accept_len s <= drop_threshold s c)%Q) ∧
    (∀ c, 0 < j → steps !! Z.to_nat (j - 1) = Some c → (drop_threshold s c < ema_accept_len s)%Q).
Proof.
  revert idx. induction fuel as [|fuel IH]; intros idx Hi Hf; [lia|]. cbn [drop_loop].
  destruct (Z.ltb_spec 0 idx) as [H0|H0]; cycle 1.
  { exists idx. split_and!; (done || lia). }
  destruct (lookup_lt_is_Some_2 steps (Z.to_nat (idx - 1))) as [c Hc]; [lia|]. rewrite (py_nth_at steps (idx - 1) c ltac:(lia) Hc). cbn [mbind result_bind].
  destruct (Qle_bool (ema_accept_len s) (drop_threshold s c)) eqn:E.
  - apply Qle_bool_iff in E. destruct (IH (idx - 1)) as (j & -> & Hj & Hdown & Hstop); [lia..|]. exists j. split; [done|]. split; [lia|]. split; [|done].
    intros k c' Hk Hc'. destruct (Z.eq_dec k (idx - 1)) as [->|]; [|apply (Hdown k); (done || lia)]. rewrite Hc in Hc'. by injection Hc' as <-.
  - exists idx. split; [done|]. split; [lia|]. split; [lia|]. intros c' _ Hc'. rewrite Hc in Hc'. injection Hc' as <-.
    apply Qnot_le_lt. intros Hle. apply Qle_bool_iff in Hle. congruence.
Qed.

Lemma rise_loop_ok fuel idx :
  0 <= idx < Z.of_nat (length steps) → (length steps - Z.to_nat idx <= fuel)%nat →
  ∃ j, rise_loop s fuel idx = Ok j ∧ idx <= j < Z.of_nat (length steps) ∧
    (∀ k c, idx <= k < j → steps !! Z.to_nat k = Some c → (rise_threshold s c < ema_accept_len s)%Q) ∧
    (∀ c, j < Z.of_nat (length steps) - 1 → steps !! Z.to_nat j = Some c → (ema_accept_len s <= rise_threshold s c)%Q).
Proof.
  revert idx. induction fuel as [|fuel IH]; intros idx Hi Hf; [lia|]. cbn [rise_loop].
  destruct (Z.ltb_spec idx (Z.of_nat (length steps) - 1)) as [H0|H0]; cycle 1.
  { exists idx. split_and!; (done || lia). }
  destruct (lookup_lt_is_Some_2 steps (Z.to_nat idx)) as [c Hc]; [lia|]. rewrite (py_nth_at steps idx c ltac:(lia) Hc). cbn [mbind result_bind].
  destruct (Qltb (rise_threshold s c) (ema_accept_len s)) eqn:E.
  - apply Qltb_lt in E. destruct (IH (idx + 1)) as (j & -> & Hj & Hup & Hstop); [lia..|]. exists j. split; [done|]. split; [lia|]. split; [|done].
    intros k c' Hk Hc'. destruct (Z.eq_dec k idx) as [->|]; [|apply (Hup k); (done || lia)]. rewrite Hc in Hc'. by injection Hc' as <-.
  - apply Qltb_ge in E. exists idx. split; [done|]. split; [lia|]. split; [lia|]. intros c' _ Hc'. rewrite Hc in Hc'. by injection Hc' as <-.
Qed.

Lemma ceiling_loop_ok fuel ceiling idx :
  0 <= idx < Z.of_nat (length steps) → (Z.to_nat idx < fuel)%nat →
  ∃ j, ceiling_loop s fuel ceiling idx = Ok j ∧ 0 <= j <= idx.
Proof.
  revert idx. induction fuel as [|fuel IH]; intros idx Hi Hf; [lia|]. cbn [ceiling_loop].
  destruct (Z.ltb_spec 0 idx); [|exists idx; split; (done || lia)].
  destruct (lookup_lt_is_Some_2 steps (Z.to_nat idx)) as [c Hc]; [lia|]. rewrite (py_nth_at steps idx c ltac:(lia) Hc). cbn [mbind result_bind].
  destruct (ceiling <? c); [|exists idx; split; (done || lia)]. destruct (IH (idx - 1)) as (j & -> & Hj); [lia..|]. exists j. split; (done || lia).
Qed.
End loop_lemmas.

Lemma slot_index s : slot_ok s → ∃ i, py_index (candidate_steps s) (current_steps s) = Ok (Z.of_nat i) ∧ candidate_steps s !! i = Some (current_steps s).
Proof.
  intros [_ Hc _]. unfold py_index. destruct (find_index _ _) as [i|] eqn:E.
  - exists i. split; [done|]. apply find_index_Some in E as [(x & Hx & Hxc) _]. apply Z.eqb_eq in Hxc. by subst.
  - apply find_index_None in E. rewrite Forall_forall in E. specialize (E _ Hc). cbn in E. by rewrite Z.eqb_refl in E.
Qed.

(** What [update] may change of a slot. *)
Definition same_slot (s s' : AdaptiveStepSlot) : Prop := ∃ steps ema count, s' = with_state s steps ema count.

Lemma with_state_id s : with_state s (current_steps s) (ema_accept_len s) (_batch_count s) = s.
Proof. by destruct s. Qed.

Lemma same_slot_refl s : same_slot s s.
Proof. exists (current_steps s), (ema_accept_len s), (_batch_count s). by rewrite with_state_id. Qed.

Lemma apply_target_ok s target :
  slot_ok s → target ∈ candidate_steps s →
  ∃ s' b, _apply_target_steps s (current_steps s) target = (s', b) ∧ slot_ok s' ∧ same_slot s s' ∧ current_steps s' = target ∧
    (b = true ↔ current_steps s' ≠ current_steps s).
Proof.
  intros [Hi Hc Hn] Ht. unfold _apply_target_steps. destruct (Z.eqb_spec target (current_steps s)) as [->|Hne]; cbn [negb].
  - exists s, false. split_and!; try done. apply same_slot_refl.
  - eexists _, true. split; [done|]. split; [by constructor|]. split; [by eexists _, _, _|]. done.
Qed.

Lemma recompute_ok s :
  slot_ok s → ∃ s' b, _recompute_params s = Ok (s', b) ∧ slot_ok s' ∧ same_slot s s' ∧ (b = true ↔ current_steps s' ≠ current_steps s).
Proof.
  intros Hs. destruct (slot_index s Hs) as (i & Ei & Hi). pose proof (lookup_lt_Some _ _ _ Hi) as Hlt. unfold _recompute_params. rewrite Ei. cbn [mbind result_bind].
  assert (Hin : ∀ j, 0 <= j < Z.of_nat (length (candidate_steps s)) → ∃ c, py_nth (candidate_steps s) j = Ok c ∧ c ∈ candidate_steps s).
  { intros j Hj. destruct (lookup_lt_is_Some_2 (candidate_steps s) (Z.to_nat j)) as [c Hc]; [lia|]. exists c.
    split; [by apply py_nth_at; [lia|]|by eapply list_elem_of_lookup_2]. }
  destruct (Z.eqb_spec (current_steps s) 0) as [E0|E0].
  - destruct (Hin (Z.min (Z.of_nat i + 1) (Z.of_nat (length (candidate_steps s)) - 1))) as (target & -> & Htarget); [lia|]. cbn [mbind result_bind].
    set (s1 := if _ && _ then _ else s). assert (Hs1 : slot_ok s1 ∧ same_slot s s1 ∧ current_steps s1 = current_steps s ∧ candidate_steps s1 = candidate_steps s).
    { unfold s1. destruct (_ && _).
      - destruct Hs. split; [by constructor|]. split; [by eexists _, _, _|]. done.
      - split; [done|]. split; [apply same_slot_refl|done]. }
    destruct Hs1 as (Hok1 & (a & e & n & Es1) & Hcur & Hcand). cbv zeta. rewrite <- Hcur.
    destruct (apply_target_ok s1 target Hok1) as (s' & b & -> & Hok & (a' & e' & n' & ->) & _ & Hb); [by rewrite Hcand|].
    eexists _, b. split; [done|]. split; [done|]. split; [|exact Hb]. rewrite Es1. by eexists _, _, _.
  - destruct (drop_loop_ok s (S (length (candidate_steps s))) (Z.of_nat i)) as (d & -> & Hd & _); [lia..|]. cbn [mbind result_bind].
    assert (∃ j, (if negb (d <? Z.of_nat i) then rise_loop s (S (length (candidate_steps s))) d else Ok d) = Ok j ∧ 0 <= j < Z.of_nat (length (candidate_steps s))) as (j & -> & Hj).
    { destruct (negb _); [|exists d; split; (done || lia)].
      destruct (rise_loop_ok s (S (length (candidate_steps s))) d) as (j & -> & Hj & _); [lia..|]. exists j. split; (done || lia). }
    cbn [mbind result_bind]. destruct (Hin j Hj) as (target & -> & Htarget). cbn [mbind result_bind].
    match goal with |- context [?m ≫= _] => assert (∃ t, m = Ok t ∧ t ∈ candidate_steps s) as (t & -> & Ht) end.
    { destruct (Qltb 0 (ceiling_coeff s)); [|by eexists]. destruct (_ && _); [|by eexists].
      destruct (ceiling_loop_ok s (S (length (candidate_steps s))) (Z.max 1 (Qceiling (ema_accept_len s * ceiling_coeff s))) j) as (k & -> & Hk); [lia..|].
      cbn [mbind result_bind]. destruct (Hin k) as (t & -> & Ht); [lia|]. by eexists. }
    cbn [mbind result_bind]. destruct (apply_target_ok s t Hs Ht) as (s' & b & -> & Hok & Hsame & _ & Hb). by eexists _, b.
Qed.

Lemma update_ok s drafts :
  slot_ok s → ∃ s' b, update s drafts = Ok (s', b) ∧ slot_ok s' ∧ same_slot s s' ∧ (b = true ↔ current_steps s' ≠ current_steps s).
Proof.
  intros Hs. assert (Hid : ∃ s' b, Ok (s, false) = Ok (s', b) ∧ slot_ok s' ∧ same_slot s s' ∧ (b = true ↔ current_steps s' ≠ current_steps s)).
  { exists s, false. split; [done|]. split; [done|]. split; [apply same_slot_refl|done]. }
  unfold update. destruct drafts as [|d drafts]; [exact Hid|]. set (s1 := with_state s _ _ _).
  assert (Hs1 : slot_ok s1) by (destruct Hs; by constructor).
  assert (Hret : ∃ s' b, Ok (s1, false) = Ok (s', b) ∧ slot_ok s' ∧ same_slot s s' ∧ (b = true ↔ current_steps s' ≠ current_steps s)).
  { exists s1, false. split; [done|]. split; [done|]. split; [by eexists _, _, _|done]. }
  destruct (_batch_count s1 <=? warmup_batches s1); [exact Hret|].
  rewrite py_check_true by (apply negb_true_iff, Z.eqb_neq, (sl_interval _ Hs1)). cbn [mbind result_bind].
  destruct (negb _); [exact Hret|]. destruct (recompute_ok s1 Hs1) as (s' & b & -> & Hok & (a & e & n & ->) & Hb).
  eexists _, b. split; [done|]. split; [done|]. split; [by eexists _, _, _|done].
Qed.
