(* ===== verification/AdaptiveControl.v ===== *)
(** * AdaptiveControl: the controller always finds a runtime state

    Invariants of the slots, their routing and the controller of [AdaptiveSpec]: whatever the
    accepted lengths and batch sizes, the step count chosen has a runtime state, whose CUDA
    graphs cover the batch it is chosen for. *)

From Stdlib Require Import Qround.
From S2P Require Import Prelude Sampling TensorOps DSparkSps AdaptiveSpec.
#[local] Open Scope Z_scope.

(** ** Slots and routing *)

Record params_ok (p : AdaptiveSpeculativeParams) : Prop := {
  pa_nonempty : _bs_list p ≠ [];
  pa_slots : ∀ bs, bs ∈ _bs_list p → is_Some (_slots p !! bs);
  pa_ok : ∀ key s, _slots p !! key = Some s → slot_ok s;
}.

Lemma new_slot_ok initial cfg :
  default [] (cfg_candidate_steps cfg) ≠ [] → cfg_update_interval cfg ≠ Some 0 →
  ∃ s, new_slot initial cfg = Ok s ∧ slot_ok s.
Proof.
  intros Hc Hi. unfold new_slot. destruct (cfg_candidate_steps cfg) as [raw|]; [|done]. cbn [default from_option id mbind result_bind] in *.
  pose proof (sorted_set_increasing raw) as Hs. set (cands := sorted_set raw) in *.
  assert (Hlen : (1 <= length cands)%nat).
  { destruct raw as [|x raw]; [done|]. assert (x ∈ cands) as Hx by (apply elem_of_sorted_set; by left).
    destruct cands; [by apply not_elem_of_nil in Hx|cbn; lia]. }
  rewrite py_assert_true by (by apply Nat.leb_le). cbn [mbind result_bind].
  assert (∃ c, (if bool_decide (initial ∈ cands) then Ok initial else py_nth cands (Z.of_nat (length cands) / 2)) = Ok c ∧ c ∈ cands) as (c & -> & Hcc).
  { case_bool_decide; [by eexists|]. pose proof (Z.div_lt (Z.of_nat (length cands)) 2 ltac:(lia) ltac:(lia)).
    assert (0 <= Z.of_nat (length cands) / 2) by (apply Z.div_pos; lia).
    destruct (lookup_lt_is_Some_2 cands (Z.to_nat (Z.of_nat (length cands) / 2))) as [c Hcx]; [lia|]. exists c.
    split; [by apply py_nth_at|by eapply list_elem_of_lookup_2]. }
  cbn [mbind result_bind]. eexists. split; [done|]. constructor; cbn; [done|done|].
  destruct (cfg_update_interval cfg) as [n|]; cbn; [congruence|lia].
Qed.

Lemma slot_at_ok p bs :
  params_ok p → ∃ key s, slot_at p bs = Ok (key, s) ∧ _slots p !! key = Some s ∧ slot_ok s.
Proof.
  intros [Hne Hs Hok]. unfold slot_at, _find_closest_bs.
  assert (Hle : (py_bisect_right (_bs_list p) bs <= length (_bs_list p))%nat) by apply leading_le.
  assert (0 < length (_bs_list p))%nat by (destruct (_bs_list p); [done|cbn; lia]).
  destruct (lookup_lt_is_Some_2 (_bs_list p) (Z.to_nat (Z.max 0 (Z.of_nat (py_bisect_right (_bs_list p) bs) - 1)))) as [key Hkey]; [lia|].
  rewrite (py_nth_at _ _ _ (Z.le_max_l 0 _) Hkey). cbn [mbind result_bind]. destruct (Hs key) as [s Es]; [by eapply list_elem_of_lookup_2|].
  rewrite Es. exists key, s. split_and!; try done. by eapply Hok.
Qed.

(** Verification results change the state of one slot only. *)
Definition same_params (p p' : AdaptiveSpeculativeParams) : Prop :=
  _bs_list p' = _bs_list p ∧ _cuda_graph_bs p' = _cuda_graph_bs p ∧
  ∀ key, candidate_steps <$> _slots p' !! key = candidate_steps <$> _slots p !! key.

Lemma verify_ok p drafts bs :
  params_ok p →
  ∃ p' o, params_on_verify_complete p drafts bs = Ok (p', o) ∧ params_ok p' ∧ same_params p p' ∧
    ∀ x, o = Some x → ∃ key s, _slots p !! key = Some s ∧ x ∈ candidate_steps s.
Proof.
  intros Hp. unfold params_on_verify_complete, _route. destruct (slot_at_ok p (_pad_to_cuda_graph_bs p bs) Hp) as (key & s & -> & Hs & Hok).
  cbn [mbind result_bind]. destruct (update_ok s drafts Hok) as (s' & b & -> & Hok' & (a & e & n & ->) & Hb). cbn [mbind result_bind].
  eexists _, _. split; [done|]. destruct Hp as [Hne Hsl Hall]. split; [|split].
  - constructor; cbn; [done| |].
    + intros bs' Hbs'. destruct (decide (bs' = key)) as [->|]; [rewrite lookup_insert_eq; eauto|]. rewrite lookup_insert_ne by done. by apply Hsl.
    + intros key' s'' [[<- <-]|[_ H]]%lookup_insert_Some; [done|by eapply Hall].
  - split; [done|]. split; [done|]. intros key'. cbn. destruct (decide (key = key')) as [<-|]; [by rewrite lookup_insert_eq, Hs|by rewrite lookup_insert_ne].
  - intros x Hx. destruct b; [|done]. injection Hx as <-. exists key, s. split; [done|]. exact (sl_current _ Hok').
Qed.

Lemma same_slot_at p p' bs key s :
  same_params p p' → slot_at p' bs = Ok (key, s) → ∃ s0, slot_at p bs = Ok (key, s0) ∧ candidate_steps s0 = candidate_steps s.
Proof.
  intros (Hb & _ & Hc) H. unfold slot_at, _find_closest_bs in *. rewrite Hb in H.
  destruct (py_nth _ _) as [k|]; [|done]. cbn [mbind result_bind] in *. specialize (Hc k).
  destruct (_slots p' !! k) as [s1|]; [|done]. injection H as <- <-. destruct (_slots p !! k) as [s0|]; [|done]. injection Hc as Hc. by exists s0.
Qed.

(** ** Graph sizes per step count *)

(** A state for [x] steps has a graph for every captured size that may run with [x] steps. *)
Definition graphs_cover {W St} `{AdaptiveSpecWorker W St} (p : AdaptiveSpeculativeParams) (x : Z) (st : St) : Prop :=
  ∀ l, _cuda_graph_bs p = Some l → ∃ g, state_cuda_graph_bs st = Some g ∧
    ∀ v key s, v ∈ l → slot_at p v = Ok (key, s) → x ∈ candidate_steps s → v ∈ g.

Lemma graph_bs_for_step_ok p x :
  params_ok p → ∃ o, cuda_graph_bs_for_step p x = Ok o ∧
    match _cuda_graph_bs p with
    | None => o = None
    | Some l => ∃ g, o = Some g ∧ ∀ v, v ∈ g ↔ v ∈ l ∧ ∃ key s, slot_at p v = Ok (key, s) ∧ x ∈ candidate_steps s
    end.
Proof.
  intros Hp. unfold cuda_graph_bs_for_step. destruct (_cuda_graph_bs p) as [l|]; [|by exists None].
  assert (Hall : ∃ k, mapM (λ v, '(_, s) ← slot_at p v; Ok (v, bool_decide (x ∈ candidate_steps s))) l = Ok k).
  { apply mapM_Ok_exists, Forall_true. intros v. destruct (slot_at_ok p v Hp) as (key & s & -> & _). cbn. eauto. }
  destruct Hall as [k Hk]. rewrite Hk. cbn [mbind result_bind]. eexists. split; [done|]. eexists. split; [done|].
  apply mapM_Ok_Forall2 in Hk. intros v. rewrite list_elem_of_fmap. split.
  - intros ([v' b] & -> & [Hb Hin]%list_elem_of_filter). cbn in Hb. subst b. apply list_elem_of_lookup in Hin as [i Hi].
    destruct (Forall2_lookup_r _ _ _ _ _ Hk Hi) as (y & Hy & Ey). destruct (slot_at p y) as [[key s]|] eqn:E; [|done].
    cbn [mbind result_bind] in Ey. injection Ey as -> Hb. apply bool_decide_eq_true in Hb. split; [by eapply list_elem_of_lookup_2|]. by exists key, s.
  - intros [Hv (key & s & Es & Hx)]. apply list_elem_of_lookup in Hv as [i Hi].
    destruct (Forall2_lookup_l _ _ _ _ _ Hk Hi) as (y & Hy & Ey). rewrite Es in Ey. cbn [mbind result_bind] in Ey. injection Ey as <-.
    rewrite bool_decide_eq_true_2 in Hy by done. exists (v, true). split; [done|]. apply list_elem_of_filter. split; [done|by eapply list_elem_of_lookup_2].
Qed.

Lemma elem_of_all_candidates p x : x ∈ all_candidate_steps p ↔ ∃ key s, _slots p !! key = Some s ∧ x ∈ candidate_steps s.
Proof.
  unfold all_candidate_steps. rewrite elem_of_sorted_set, list_elem_of_In, in_concat. split.
  - intros (l & Hl%list_elem_of_In & Hx%list_elem_of_In). apply list_elem_of_fmap in Hl as ([key s] & -> & Hks). exists key, s.
    split; [by apply elem_of_map_to_list|done].
  - intros (key & s & Hs & Hx). exists (candidate_steps s). split; [|by apply list_elem_of_In].
    apply list_elem_of_In, list_elem_of_fmap. exists (key, s). split; [done|by apply elem_of_map_to_list].
Qed.

(** ** The constructor *)

(** The entries that survive: a candidate list each, and no update interval of 0. *)
Definition cfg_ok (cfg : AdaptiveCfg) : Prop :=
  (∃ k e, (Some k, e) ∈ cfg_entries cfg) ∧
  Forall (λ ke : option Z * SlotCfg, is_Some ke.1 →
    default [] (cfg_candidate_steps ke.2) ≠ [] ∧ Forall (λ s, 0 <= s) (default [] (cfg_candidate_steps ke.2)) ∧
    cfg_update_interval (merge_cfg (cfg_globals cfg) ke.2) ≠ Some 0) (cfg_entries cfg).

Definition entry_ok (globals e : SlotCfg) : Prop :=
  default [] (cfg_candidate_steps e) ≠ [] ∧ cfg_update_interval (merge_cfg globals e) ≠ Some 0.

Lemma load_entries_ok globals entries m :
  Forall (λ ke : option Z * SlotCfg, is_Some ke.1 →
    default [] (cfg_candidate_steps ke.2) ≠ [] ∧ Forall (λ s, 0 <= s) (default [] (cfg_candidate_steps ke.2)) ∧
    cfg_update_interval (merge_cfg globals ke.2) ≠ Some 0) entries →
  (∀ k e, m !! k = Some e → entry_ok globals e) →
  ∃ m', load_entries m entries = Ok m' ∧ (∀ k e, m' !! k = Some e → entry_ok globals e) ∧
    ∀ k, is_Some (m !! k) ∨ (∃ e, (Some k, e) ∈ entries) → is_Some (m' !! k).
Proof.
  intros He. revert m. induction He as [|[[key|] entry] entries Hke _ IH]; intros m Hm.
  - exists m. split; [done|]. split; [done|]. intros k [H|(e & H)]; [done|by apply not_elem_of_nil in H].
  - cbn [load_entries]. destruct (Hke (ltac:(by eexists))) as (Hne & Hnn & Hi). cbn [snd] in *.
    destruct (cfg_candidate_steps entry) as [[|s steps]|] eqn:Ec; [done| |done]. cbn [default from_option id] in Hnn.
    rewrite py_check_true; cycle 1.
    { apply forallb_forall. intros x Hx%list_elem_of_In. rewrite Forall_forall in Hnn. by apply Z.leb_le, Hnn. }
    cbn [mbind result_bind]. destruct (IH (<[key := entry]> m)) as (m' & -> & Hm' & Hdom).
    + intros k e [[<- <-]|[_ H]]%lookup_insert_Some; [|by eapply Hm]. split; [by rewrite Ec|done].
    + exists m'. split; [done|]. split; [done|]. intros k Hk. apply Hdom. destruct (decide (k = key)) as [->|Hn]; [left; rewrite lookup_insert_eq; eauto|].
      rewrite lookup_insert_ne by done. destruct Hk as [Hk|(e & Hk)]; [by left|]. apply elem_of_cons in Hk as [[= -> ->]|Hk]; [done|]. right. by exists e.
  - cbn [load_entries]. destruct (IH m Hm) as (m' & -> & Hm' & Hdom). exists m'. split; [done|]. split; [done|]. intros k [Hk|(e & Hk)]; apply Hdom; [by left|].
    apply elem_of_cons in Hk as [[=]|Hk]. right. by exists e.
Qed.

Lemma elem_of_sorted_keys {A} (m : gmap Z A) k : k ∈ sorted_keys m ↔ is_Some (m !! k).
Proof.
  unfold sorted_keys. rewrite merge_sort_Permutation, list_elem_of_fmap. split.
  - intros ([k' a] & -> & Hka). apply elem_of_map_to_list in Hka. eauto.
  - intros [a Ha]. exists (k, a). split; [done|by apply elem_of_map_to_list].
Qed.

Lemma build_slots_ok initial globals entries slots :
  Forall (λ be : Z * SlotCfg, entry_ok globals be.2) entries → (∀ k s, slots !! k = Some s → slot_ok s) →
  ∃ slots', build_slots initial globals entries slots = Ok slots' ∧ (∀ k s, slots' !! k = Some s → slot_ok s) ∧
    ∀ k, is_Some (slots !! k) ∨ k ∈ entries.*1 → is_Some (slots' !! k).
Proof.
  intros He. revert slots. induction He as [|[bs e] entries [Hc Hi] _ IH]; intros slots Hs.
  - exists slots. split; [done|]. split; [done|]. intros k [H|H]; [done|by apply not_elem_of_nil in H].
  - cbn [build_slots]. destruct (new_slot_ok initial (merge_cfg globals e)) as (s & -> & Hok).
    + cbn. unfold override. cbn [snd] in Hc. by destruct (cfg_candidate_steps e).
    + done.
    + cbn [mbind result_bind]. destruct (IH (<[bs := s]> slots)) as (slots' & -> & Hs' & Hd).
      * intros k s' [[<- <-]|[_ H]]%lookup_insert_Some; [done|by eapply Hs].
      * exists slots'. split; [done|]. split; [done|]. intros k Hk. apply Hd. destruct (decide (k = bs)) as [->|Hn]; [left; rewrite lookup_insert_eq; eauto|].
        rewrite lookup_insert_ne by done. destruct Hk as [Hk|Hk]; [by left|]. apply elem_of_cons in Hk as [|]; [done|by right].
Qed.

Lemma new_params_ok initial cfg : cfg_ok cfg → ∃ p, new_params initial cfg = Ok p ∧ params_ok p.
Proof.
  intros [(k & e & Hke) Hall]. unfold new_params, _load_adaptive_config.
  destruct (load_entries_ok (cfg_globals cfg) (cfg_entries cfg) ∅ Hall) as (m & -> & Hm & Hdom); [by intros ? ?; rewrite lookup_empty|].
  destruct (Hdom k) as [e' Hk]; [right; by exists e|]. cbn [mbind result_bind].
  rewrite py_check_true by (apply bool_decide_eq_true; intros ->; by rewrite lookup_empty in Hk). cbn [mbind result_bind].
  set (keys := sorted_keys m). set (entries := omap _ keys).
  destruct (build_slots_ok initial (cfg_globals cfg) entries ∅) as (slots & -> & Hs & Hd).
  - apply Forall_forall. intros [b e''] (b' & _ & Hb)%list_elem_of_omap. destruct (m !! b') as [x|] eqn:E; [|done]. injection Hb as <- <-. by eapply Hm.
  - by intros ? ?; rewrite lookup_empty.
  - cbn [mbind result_bind]. eexists. split; [done|]. constructor; cbn.
    + intros E. assert (Hin : k ∈ keys) by (apply elem_of_sorted_keys; eauto). rewrite E in Hin. by apply not_elem_of_nil in Hin.
    + intros b Hb. apply Hd. right. pose proof Hb as Hb'. apply elem_of_sorted_keys in Hb' as [x Hx].
      apply list_elem_of_fmap. exists (b, x). split; [done|]. apply list_elem_of_omap. exists b. split; [done|]. by rewrite Hx.
    + done.
Qed.

(** ** The controller *)

Section controller.
Context {W St : Type} `{AdaptiveSpecWorkerLaws W St}.
Implicit Types c : AdaptiveController W St.

(** Every step count that a slot may choose has a state, with the graphs it needs. *)
Definition states_ok (p : AdaptiveSpeculativeParams) (states : gmap Z St) : Prop :=
  ∀ x st, states !! x = Some st → state_num_steps st = x ∧ graphs_cover p x st.

Record controller_ok c : Prop := {
  ct_params : params_ok (params c);
  ct_states : states_ok (params c) (_states c);
  ct_all : ∀ key s x, _slots (params c) !! key = Some s → x ∈ candidate_steps s → is_Some (_states c !! x);
  ct_worker : is_Some (_states c !! speculative_num_steps (worker c));
}.

Lemma graphs_cover_same p p' x st : same_params p p' → graphs_cover p x st → graphs_cover p' x st.
Proof.
  intros Hs Hc l Hl. destruct (Hc l) as (g & Hg & Hv); [by destruct Hs as (_ & <- & _)|]. exists g. split; [done|].
  intros v key s Hvl Hat Hx. destruct (same_slot_at p p' v key s Hs Hat) as (s0 & Hat0 & Hc0). apply (Hv v key s0 Hvl Hat0). by rewrite Hc0.
Qed.

Lemma activate_ok c x : controller_ok c → is_Some (_states c !! x) →
  ∃ c', _activate c x = Ok c' ∧ controller_ok c' ∧ speculative_num_steps (worker c') = x ∧ params c' = params c ∧ _states c' = _states c.
Proof.
  intros [Hp Hs Ha Hw] [st Hst]. unfold _activate. rewrite Hst. eexists. split; [done|]. destruct (Hs x st Hst) as [Hx _].
  cbn [worker params _states]. assert (E : speculative_num_steps (apply_runtime_state (worker c) st) = x) by (by rewrite apply_num_steps).
  split; [|done]. constructor; cbn; try done. rewrite E. eauto.
Qed.

Lemma build_states_ok w p steps states :
  params_ok p → states_ok p states →
  ∃ states', build_states w p steps states = Ok states' ∧ states_ok p states' ∧
    ∀ x, is_Some (states !! x) ∨ x ∈ steps → is_Some (states' !! x).
Proof.
  intros Hp. revert states. induction steps as [|s steps IH]; intros states Hs.
  - exists states. split; [done|]. split; [done|]. intros x [H'|H']; [done|by apply not_elem_of_nil in H'].
  - cbn [build_states]. destruct (states !! s) as [st|] eqn:Es.
    + destruct (IH states Hs) as (states' & -> & Hs' & Hd). exists states'. split; [done|]. split; [done|]. intros x [Hx|Hx]; apply Hd; [by left|].
      apply elem_of_cons in Hx as [->|Hx]; [left; eauto|by right].
    + destruct (graph_bs_for_step_ok p s Hp) as (o & -> & Ho). cbn [mbind result_bind].
      destruct (IH (<[s := build_adaptive_runtime_state w s (s + 1) o]> states)) as (states' & -> & Hs' & Hd).
      * intros x st [[<- <-]|[_ Hx]]%lookup_insert_Some; [|by apply Hs]. split; [by apply build_num_steps|]. intros l Hl. rewrite Hl in Ho.
        destruct Ho as (g & -> & Hg). exists g. split; [by apply build_cuda_graph_bs|]. intros v key sl Hv Hat Hx. apply Hg. split; [done|]. by exists key, sl.
      * exists states'. split; [done|]. split; [done|]. intros x Hx. apply Hd. destruct (decide (x = s)) as [->|Hn]; [left; rewrite lookup_insert_eq; eauto|].
        rewrite lookup_insert_ne by done. destruct Hx as [Hx|Hx]; [by left|]. apply elem_of_cons in Hx as [|]; [done|by right].
Qed.

(** Startup: the constructor, the registration of the initial state, and [init_states]. *)
Definition start_controller (w : W) (cfg : AdaptiveCfg) (initial : St) (cuda_graph_bs : option (list Z)) : result (AdaptiveController W St) :=
  c ← new_controller w cfg; init_states (register c initial) cuda_graph_bs.

(** The initial state has all the graphs. *)
Definition initial_ok (w : W) (initial : St) (cuda_graph_bs : option (list Z)) : Prop :=
  state_num_steps initial = speculative_num_steps w ∧
  ∀ l, cuda_graph_bs = Some l → l ≠ [] → ∃ g, state_cuda_graph_bs initial = Some g ∧ ∀ v, v ∈ l → v ∈ g.

Lemma set_graphs_ok p g : params_ok p → params_ok (set_cuda_graph_bs p g).
Proof. intros [? ? ?]. by constructor. Qed.

Lemma start_ok w cfg initial cuda_graph_bs :
  cfg_ok cfg → initial_ok w initial cuda_graph_bs → ∃ c, start_controller w cfg initial cuda_graph_bs = Ok c ∧ controller_ok c.
Proof.
  intros Hcfg [Hsteps Hgraphs]. unfold start_controller, new_controller.
  destruct (new_params_ok (speculative_num_steps w) cfg Hcfg) as (p & -> & Hp). cbn [mbind result_bind].
  unfold init_states, register. cbn [params worker _states]. set (p' := set_cuda_graph_bs p cuda_graph_bs).
  pose proof (set_graphs_ok p cuda_graph_bs Hp) as Hp'. fold p' in Hp'.
  destruct (build_states_ok w p' (all_candidate_steps p') {[state_num_steps initial := initial]} Hp') as (states & E & Hs & Hd).
  { intros x st [<- <-]%lookup_singleton_Some. split; [done|]. intros l Hl. unfold p', set_cuda_graph_bs in Hl. cbn [_cuda_graph_bs] in Hl.
    destruct cuda_graph_bs as [[|b l']|]; [done| |done]. injection Hl as <-. destruct (Hgraphs _ eq_refl ltac:(done)) as (g & Hg & Hall).
    exists g. split; [done|]. intros v key s Hv _ _. apply Hall. by rewrite merge_sort_Permutation in Hv. }
  change (<[state_num_steps initial := initial]> ∅) with ({[state_num_steps initial := initial]} : gmap Z St). rewrite E. cbn [mbind result_bind].
  destruct (Hd (speculative_num_steps w)) as [st Hst]; [left; rewrite <- Hsteps, lookup_singleton_eq; eauto|].
  unfold _activate. cbn [_states worker params]. rewrite Hst. eexists. split; [done|]. destruct (Hs _ _ Hst) as [Hx _]. constructor; cbn; try done.
  - intros key s x Hks Hxs. apply Hd. right. apply elem_of_all_candidates. by exists key, s.
  - rewrite apply_num_steps, Hx. eauto.
Qed.

(** ** Runs *)

(** What happens after startup, in any order: steps are activated for a batch, and verification
    results come in. *)
Inductive controller_step : AdaptiveController W St → AdaptiveController W St → Prop :=
  | step_activate c batch c' : activate_step_by_batch c batch = Ok c' → controller_step c c'
  | step_verify c drafts batch c' : on_verify_complete c drafts batch = Ok c' → controller_step c c'.

Definition reachable (c0 c : AdaptiveController W St) : Prop := rtc controller_step c0 c.

Lemma activate_by_batch_ok c batch :
  controller_ok c →
  ∃ c' key s, activate_step_by_batch c batch = Ok c' ∧ controller_ok c' ∧ params c' = params c ∧ _states c' = _states c ∧
    _route (params c) batch = Ok (key, s) ∧ current_steps s ∈ candidate_steps s ∧ speculative_num_steps (worker c') = current_steps s.
Proof.
  intros Hc. unfold activate_step_by_batch, get_steps_for_batch, _route.
  destruct (slot_at_ok (params c) (_pad_to_cuda_graph_bs (params c) batch) (ct_params c Hc)) as (key & s & -> & Hs & Hok). cbn [mbind result_bind].
  destruct (Z.eqb_spec (current_steps s) (speculative_num_steps (worker c))) as [E|E]; cbn [negb].
  - exists c, key, s. split_and!; try done. apply Hok.
  - destruct (activate_ok c (current_steps s) Hc) as (c' & -> & Hc' & Hw & Hp & Hst); [apply (ct_all c Hc key s); [done|apply Hok]|].
    exists c', key, s. split_and!; try done. apply Hok.
Qed.

Lemma verify_complete_ok c drafts batch : controller_ok c → ∃ c', on_verify_complete c drafts batch = Ok c' ∧ controller_ok c'.
Proof.
  intros Hc. unfold on_verify_complete. destruct (verify_ok (params c) drafts batch (ct_params c Hc)) as (p' & o & -> & Hp' & Hsame & Ho). cbn [mbind result_bind].
  assert (Hc1 : controller_ok (mkController (worker c) p' (_states c))).
  { destruct Hc as [Hp Hs Ha Hw]. constructor; cbn; try done.
    - intros x st Hst. destruct (Hs x st Hst) as [Hx Hg]. split; [done|by eapply graphs_cover_same].
    - intros key s x Hks Hx. destruct Hsame as (_ & _ & Hcand). specialize (Hcand key). rewrite Hks in Hcand.
      destruct (_slots (params c) !! key) as [s0|] eqn:E; [|done]. injection Hcand as Hcand. apply (Ha key s0 x E). by rewrite <- Hcand. }
  destruct o as [x|]; [|by eexists]. destruct (Ho x eq_refl) as (key & s & Hks & Hx).
  destruct (activate_ok (mkController (worker c) p' (_states c)) x Hc1) as (c' & -> & Hc' & _); [by eapply (ct_all c Hc)|]. by eexists.
Qed.

Lemma controller_reachable_ok c0 c : controller_ok c0 → reachable c0 c → controller_ok c.
Proof.
  intros Hc0 Hr. induction Hr as [|c1 c2 c3 Hstep _ IH]; [done|]. apply IH. destruct Hstep as [c batch c' E|c drafts batch c' E].
  - destruct (activate_by_batch_ok c batch Hc0) as (c'' & _ & _ & E' & Hc' & _). rewrite E in E'. by injection E' as <-.
  - destruct (verify_complete_ok c drafts batch Hc0) as (c'' & E' & Hc'). rewrite E in E'. by injection E' as <-.
Qed.
End controller.

(** C18: Updating a slot ends, and keeps it well-formed.  For a slot with increasing candidates
    that include its current step count, and an update interval that is not 0, one update with any
    accepted lengths returns: the three loops over the candidates end within as many turns as
    there are candidates.  The new step count is again a candidate, everything else of the slot's
    configuration is unchanged, and the flag says whether the step count changed. *)
Theorem slot_update_terminates (s : AdaptiveStepSlot) (drafts : list Z) :
  slot_ok s →
  ∃ s' changed, update s drafts = Ok (s', changed) ∧ slot_ok s' ∧ candidate_steps s' = candidate_steps s ∧
    (∃ steps ema count, s' = with_state s steps ema count) ∧ (changed = true ↔ current_steps s' ≠ current_steps s).
Proof.
  intros Hs. destruct (update_ok s drafts Hs) as (s' & b & E & Hok & Hsame & Hb). exists s', b. split_and!; try done.
  by destruct Hsame as (? & ? & ? & ->).
Qed.

(** The slot for small batches of the default configuration, after its warm-up. *)
Definition tiny_slot : AdaptiveStepSlot := mkSlot [1; 3; 7] (1 # 5) 5 10 (- (1 # 4)) 0 0 3 2 14.

Lemma tiny_slot_ok : slot_ok tiny_slot.
Proof. constructor; [repeat constructor; lia|cbn; set_solver|cbn; lia]. Qed.

Lemma slot_update_terminates_witness :
  option_map (current_steps ∘ fst) (match update tiny_slot [7; 7] with Ok r => Some r | Raise _ => None end) = Some 7 ∧
  ∃ s' changed, update tiny_slot [7; 7] = Ok (s', changed) ∧ slot_ok s' ∧ candidate_steps s' = [1; 3; 7] ∧
    (∃ steps ema count, s' = with_state tiny_slot steps ema count) ∧ (changed = true ↔ current_steps s' ≠ 3).
Proof. split; [vm_compute; reflexivity|]. apply (slot_update_terminates tiny_slot [7; 7] tiny_slot_ok). Defined.

(** C17: The controller always finds a runtime state that can run the batch.  For any worker that
    keeps its promises, a configuration whose entries have candidates, and an initial state with
    all CUDA graphs, startup succeeds; and whatever batches are activated and verified afterwards,
    in any order, no call raises.  Activating a batch size puts the worker on the step count of
    the slot that the padded batch size is routed to, in a state that was built for that step
    count and, when CUDA graphs are captured, has a graph for the padded size. *)
Theorem controller_finds_state {W St : Type} `{AdaptiveSpecWorkerLaws W St} (w : W) (cfg : AdaptiveCfg) (initial : St)
    (cuda_graph_bs : option (list Z)) :
  cfg_ok cfg → initial_ok w initial cuda_graph_bs →
  ∃ c0, start_controller w cfg initial cuda_graph_bs = Ok c0 ∧
    ∀ c, reachable c0 c → ∀ drafts batch,
      (∃ c', on_verify_complete c drafts batch = Ok c') ∧
      ∃ c' key s st, activate_step_by_batch c batch = Ok c' ∧ _route (params c) batch = Ok (key, s) ∧
        speculative_num_steps (worker c') = current_steps s ∧ _states c' !! current_steps s = Some st ∧
        state_num_steps st = current_steps s ∧
        ∀ l, _cuda_graph_bs (params c) = Some l → _pad_to_cuda_graph_bs (params c) batch ∈ l →
          ∃ g, state_cuda_graph_bs st = Some g ∧ _pad_to_cuda_graph_bs (params c) batch ∈ g.
Proof.
  intros Hcfg Hinit. destruct (start_ok w cfg initial cuda_graph_bs Hcfg Hinit) as (c0 & E & Hc0). exists c0. split; [done|].
  intros c Hr drafts batch. pose proof (controller_reachable_ok c0 c Hc0 Hr) as Hc. split.
  { destruct (verify_complete_ok c drafts batch Hc) as (c' & Ec & _). by exists c'. }
  destruct (activate_by_batch_ok c batch Hc) as (c' & key & s & Ec & Hc' & Hp & Hst & Hroute & Hcur & Hw).
  destruct (ct_worker c' Hc') as [st Hs]. rewrite Hw in Hs. destruct (ct_states c' Hc' _ _ Hs) as [Hsteps Hg].
  exists c', key, s, st. split_and!; try done. intros l Hl Hpad. rewrite <- Hp in Hl.
  destruct (Hg l Hl) as (g & Eg & Hv). exists g. split; [done|]. apply (Hv _ key s Hpad); [|done]. by rewrite Hp.
Qed.

(** A worker that is its step count, with states that are what they were built from. *)
#[export] Instance plain_worker : AdaptiveSpecWorker Z (Z * option (list Z)) := {
  speculative_num_steps w := w;
  build_adaptive_runtime_state _ steps _ bs := (steps, bs);
  apply_runtime_state _ st := st.1;
  state_num_steps st := st.1;
  state_cuda_graph_bs st := st.2;
}.

#[export] Instance plain_worker_laws : AdaptiveSpecWorkerLaws Z (Z * option (list Z)).
Proof. by constructor. Qed.

Lemma default_cfg_ok : cfg_ok DEFAULT_ADAPTIVE_CONFIG.
Proof. split; [exists 1, (steps_only [1; 3; 7] (- (1 # 4))); by left|]. repeat constructor; cbn; (done || lia). Qed.

Lemma controller_finds_state_witness :
  ∃ c0, start_controller 3 DEFAULT_ADAPTIVE_CONFIG (3, Some [1; 2; 16; 40]) (Some [1; 2; 16; 40]) = Ok c0 ∧
    ∀ c, reachable c0 c → ∀ drafts batch,
      (∃ c', on_verify_complete c drafts batch = Ok c') ∧
      ∃ c' key s st, activate_step_by_batch c batch = Ok c' ∧ _route (params c) batch = Ok (key, s) ∧
        speculative_num_steps (worker c') = current_steps s ∧ _states c' !! current_steps s = Some st ∧
        state_num_steps st = current_steps s ∧
        ∀ l, _cuda_graph_bs (params c) = Some l → _pad_to_cuda_graph_bs (params c) batch ∈ l →
          ∃ g, state_cuda_graph_bs st = Some g ∧ _pad_to_cuda_graph_bs (params c) batch ∈ g.
Proof.
  apply (controller_finds_state (W := Z) 3 DEFAULT_ADAPTIVE_CONFIG (3, Some [1; 2; 16; 40]) (Some [1; 2; 16; 40])).
  - apply default_cfg_ok.
  - split; [reflexivity|]. intros l [= <-] _. by exists [1; 2; 16; 40].
Defined.

(** The docstring's formula, [clamp(round(ema_accept_len) + 1, min_steps, max_steps)], and the
    code differ: at 2.4 accepted drafts the formula says 3 steps, the hysteresis stays at 4. *)
Example docstring_formula_differs :
  option_map (current_steps ∘ fst)
    (match _recompute_params (mkSlot [1; 2; 3; 4; 5] (1 # 5) 5 10 (- (1 # 4)) 0 0 4 (12 # 5) 20) with Ok r => Some r | Raise _ => None end) = Some 4 ∧
  Z.max 1 (Z.min 5 (Qfloor ((12 # 5) + (1 # 2)) + 1)) = 3.
Proof. split; vm_compute; reflexivity. Qed.
