(* ===== verification/GreedyAccept.v ===== *)
(** * GreedyAccept: greedy verification of a drafted block

    Models the greedy branch of the LatentSpec/DFlash worker: the torch and the
    fused implementation of [compute_dflash_correct_drafts_and_bonus]
    ([srt/speculative/dflash_utils.py]), the accept/bonus kernel of
    [kernels/ops/speculative/dflash.py], [_commit_accept] and the greedy branch of
    [_accept_block] ([srt/speculative/dflash_worker_v2.py]), which tries the
    kernel and falls back to the eager path.  A token id is an integer; a launch
    has one program per row. *)

From S2P Require Import Prelude TensorOps SpecDecode SpecDecodeProps.
#[local] Open Scope nat_scope.
#[local] Arguments Nat.ltb : simpl never.

(** ** The eager path *)

(** One row of the torch code, [candidates] and [target_predict] of length [block_size]. *)
Definition correct_drafts_row (candidates target_predict : list Z) : nat * Z :=
  let matches := zip_with Z.eqb (drop 1 candidates) (removelast target_predict) in
  let correct_len := sum_list (cumprod ((λ b : bool, if b then 1 else 0) <$> matches)) in
  (correct_len, default 0%Z (target_predict !! correct_len)).

Definition tl_min (l : list nat) : nat := match l with [] => 0 | x :: l' => foldl Nat.min x l' end.

Definition _fused_correct_drafts_and_bonus_kernel (candidates target_predict : list Z)
    (block_size BLOCK : nat) : nat * Z :=
  let offs := seq 0 BLOCK in
  let eq o :=
    let in_row := o <? block_size - 1 in
    let drafts := tl_load candidates (1 + o) in_row (-1)%Z in
    let targets := tl_load target_predict o in_row (-2)%Z in
    (drafts =? targets)%Z && in_row in
  let num_correct := tl_min ((λ o, if eq o then BLOCK else o) <$> offs) in
  (num_correct, default 0%Z (target_predict !! num_correct)).

(** [is_cuda] selects the fused kernel. *)
Definition compute_dflash_correct_drafts_and_bonus (is_cuda : bool) (block_size : nat)
    (candidates target_predict : list (list Z)) : result (list nat * list Z) :=
  _ ← py_check ValueError (bool_decide (length <$> target_predict = length <$> candidates));
  let bs := length candidates in
  _ ← py_check ValueError (0 <? bs);
  _ ← py_check ValueError (0 <? block_size);
  let rows :=
    if is_cuda then
      zip_with (λ c t, _fused_correct_drafts_and_bonus_kernel c t block_size
                         (next_power_of_2 (Nat.max (block_size - 1) 1))) candidates target_predict
    else zip_with correct_drafts_row candidates target_predict in
  Ok (rows.*1, rows.*2).

(** [out_tokens[:, :-1] = candidates[:, 1:]; out_tokens[:, -1] = 0; scatter the bonus]; [zero] is
    the zero of the token type. *)
Definition _commit_accept {T} (zero : T) (candidates : list (list T)) (accept_len : list nat)
    (bonus_tokens : list T) : list (list T) * list nat :=
  (zip_with (λ c '(n, b), <[n := b]> (drop 1 c ++ [zero])) candidates (zip accept_len bonus_tokens),
   S <$> accept_len).

(** ** The accept/bonus kernel *)

Record AcceptRow := {
  accept_lens_out : nat;
  commit_lens_out : nat;
  bonus_ids_out : Z;
  new_seq_lens_out : Z;
  out_tokens : list Z
}.

(** [for col in range(BLOCK_SIZE - 1)], keeping (accept_len, prefix_live). *)
Definition accept_col (candidates target_top1 : list Z) (block_size : nat) (st : nat * bool) (col : nat)
  : nat * bool :=
  let '(accept_len, prefix_live) := st in
  let in_range := col <? block_size - 1 in
  let candidate_id := tl_load candidates (col + 1) in_range 0%Z in
  let target_id := tl_load target_top1 col in_range 0%Z in
  let match_ := (candidate_id =? target_id)%Z in
  let keep := in_range && prefix_live && match_ in
  ((if keep then S accept_len else accept_len), (if in_range then prefix_live && match_ else prefix_live)).

Definition _dflash_accept_bonus_contig_kernel (candidates target_top1 : list Z) (prefix_len : Z)
    (block_size BLOCK_SIZE : nat) : AcceptRow :=
  let cols := seq 0 BLOCK_SIZE in
  let accept_len := (foldl (accept_col candidates target_top1 block_size) (0, true) (seq 0 (BLOCK_SIZE - 1))).1 in
  let commit_len := S accept_len in
  let bonus_id := default 0%Z (target_top1 !! accept_len) in
  let out_val c :=
    let v := tl_load candidates (c + 1) (c <? block_size - 1) 0%Z in
    if c =? accept_len then bonus_id else v in
  {| accept_lens_out := accept_len; commit_lens_out := commit_len; bonus_ids_out := bonus_id;
     new_seq_lens_out := (prefix_len + Z.of_nat commit_len)%Z;
     out_tokens := out_val <$> filter (λ c, c < block_size) cols |}.

Definition _compute_dflash_accept_bonus_triton_unchecked (candidates target_top1 : list (list Z))
    (prefix_lens : list Z) (block_size : nat) : list AcceptRow :=
  zip_with (λ c '(t, p), _dflash_accept_bonus_contig_kernel c t p block_size (next_power_of_2 block_size))
    candidates (zip target_top1 prefix_lens).

(** ** The greedy branch of [_accept_block] *)

(** (accept_len, commit_lens, bonus, out_tokens, new_seq_lens). *)
Definition AcceptOut : Type := list nat * list nat * list Z * list (list Z) * option (list Z).

Definition eager_accept (is_cuda : bool) (block_size : nat) (candidates target_predict : list (list Z))
  : result AcceptOut :=
  '(accept_len, bonus) ← compute_dflash_correct_drafts_and_bonus is_cuda block_size candidates target_predict;
  let '(out_tokens, commit_lens) := _commit_accept 0%Z candidates accept_len bonus in
  Ok (accept_len, commit_lens, bonus, out_tokens, None).

(** [launch_fails] is a failure of the kernel's launch; the flag [_use_triton_accept_bonus] is
    returned, cleared after a failure. *)
Definition _accept_block_greedy (use_triton_accept_bonus launch_fails is_cuda : bool) (block_size : nat)
    (candidates target_predict : list (list Z)) (prefix_lens : list Z) : result (AcceptOut * bool) :=
  if use_triton_accept_bonus then
    if launch_fails then
      out ← eager_accept is_cuda block_size candidates target_predict;
      Ok (out, false)
    else
      let rows := _compute_dflash_accept_bonus_triton_unchecked candidates target_predict prefix_lens block_size in
      Ok ((accept_lens_out <$> rows, commit_lens_out <$> rows, bonus_ids_out <$> rows,
           out_tokens <$> rows, Some (new_seq_lens_out <$> rows)), true)
  else
    out ← eager_accept is_cuda block_size candidates target_predict;
    Ok (out, false).

(** The worker's fallback when the branch returned no new lengths. *)
Definition resolve_new_seq_lens (prefix_lens : list Z) (commit_lens : list nat) (new_seq_lens : option (list Z))
  : list Z :=
  match new_seq_lens with
  | Some l => l
  | None => zip_with (λ p n, (p + Z.of_nat n)%Z) prefix_lens commit_lens
  end.

(** ** Every path counts the leading matches *)

Section row.
Context (n : nat) (c t : list Z) (Hn : 0 < n) (Hc : length c = n) (Ht : length t = n).

Definition draft_matches (i : nat) : bool := bool_decide (c !! S i = t !! i).
Definition match_len : nat := leading draft_matches (seq 0 (n - 1)).
Definition bonus_of : Z := default 0%Z (t !! match_len).

Lemma match_len_le : match_len ≤ n - 1.
Proof. pose proof (leading_le draft_matches (seq 0 (n - 1))). by rewrite length_seq in *. Qed.

Lemma match_len_before i : i < match_len → c !! S i = t !! i.
Proof.
  intros Hi. pose proof match_len_le. pose proof (leading_before _ _ i i Hi) as M.
  rewrite lookup_seq_lt in M by lia. specialize (M eq_refl). by apply bool_decide_eq_true in M.
Qed.

Lemma match_len_at : match_len < n - 1 → c !! S match_len ≠ t !! match_len.
Proof.
  intros Hi. pose proof (leading_at draft_matches (seq 0 (n - 1)) match_len) as M.
  fold match_len in M. rewrite lookup_seq_lt in M by lia. specialize (M eq_refl). by apply bool_decide_eq_false in M.
Qed.

Lemma match_len_unique m :
  m ≤ n - 1 → (∀ i, i < m → c !! S i = t !! i) → (m < n - 1 → c !! S m ≠ t !! m) → match_len = m.
Proof.
  intros Hm Hb Ha. apply leading_unique; [by rewrite length_seq|..].
  - intros j x Hj Hx. apply lookup_seq in Hx as [-> _]. apply bool_decide_eq_true_2. by apply Hb.
  - intros x Hx. apply lookup_seq in Hx as [-> Hx]. apply bool_decide_eq_false_2. apply Ha. lia.
Qed.

Lemma correct_drafts_row_ok : correct_drafts_row c t = (match_len, bonus_of).
Proof.
  unfold correct_drafts_row. rewrite sum_cumprod. unfold bonus_of.
  set (l := zip_with Z.eqb (drop 1 c) (removelast t)).
  assert (Hrl : removelast t = take (n - 1) t) by (rewrite removelast_firstn_len, Ht; f_equal; lia).
  assert (Hl : length l = n - 1) by (unfold l; rewrite length_zip_with, Hrl, length_drop, length_take; lia).
  assert (El : ∀ i b, l !! i = Some b → b = draft_matches i).
  { intros i b Hb. unfold l in Hb. apply lookup_zip_with_Some in Hb as (x & y & -> & Hx & Hy).
    rewrite lookup_drop in Hx. rewrite Hrl in Hy. apply lookup_take_Some in Hy as [Hy _].
    unfold draft_matches. change (S i) with (1 + i). rewrite Hx, Hy.
    destruct (Z.eqb_spec x y); symmetry; [by apply bool_decide_eq_true_2; subst|].
    apply bool_decide_eq_false_2. congruence. }
  destruct (lead_spec l) as (L1 & L2 & L3). rewrite (match_len_unique (lead l)); [done|lia|..].
  - intros i Hi. pose proof (El i true (L2 i Hi)) as E. symmetry in E. by apply bool_decide_eq_true_1 in E.
  - intros Hi. pose proof (El _ false (L3 ltac:(lia))) as E. symmetry in E. by apply bool_decide_eq_false_1 in E.
Qed.

Lemma tl_min_ok l m : m ∈ l → Forall (λ x, m ≤ x) l → tl_min l = m.
Proof.
  destruct l as [|x l]; [by intros ?%not_elem_of_nil|]. intros Hm Hl. cbn.
  assert (G : ∀ l x, (m ≤ x) → Forall (λ y, m ≤ y) l → m ≤ foldl Nat.min x l ∧ foldl Nat.min x l ≤ x
    ∧ Forall (λ y, foldl Nat.min x l ≤ y) l).
  { induction l0 as [|y l0 IH]; intros z Hz Hl0; cbn; [done|]. inversion Hl0; subst.
    destruct (IH (Nat.min z y) ltac:(lia)) as (A & B & C); [done|]. split_and!; [done|lia|].
    constructor; [lia|done]. }
  inversion Hl; subst. destruct (G l x) as (A & B & C); [done..|].
  apply elem_of_cons in Hm as [->|Hm]; [lia|]. rewrite Forall_forall in C. specialize (C m Hm). lia.
Qed.

Lemma load_eq i : i < n - 1 →
  (tl_load c (1 + i) true (-1) =? tl_load t i true (-2))%Z = draft_matches i.
Proof.
  intros Hi. unfold tl_load, draft_matches. cbn [Nat.add].
  destruct (lookup_lt_is_Some_2 c (S i) ltac:(lia)) as [x Hx].
  destruct (lookup_lt_is_Some_2 t i ltac:(lia)) as [y Hy]. rewrite Hx, Hy. cbn.
  destruct (Z.eqb_spec x y); symmetry; [by apply bool_decide_eq_true_2; subst|].
  apply bool_decide_eq_false_2. congruence.
Qed.

Lemma fused_kernel_ok BLOCK :
  n - 1 ≤ BLOCK → 0 < BLOCK →
  _fused_correct_drafts_and_bonus_kernel c t n BLOCK = (match_len, bonus_of).
Proof.
  intros HB HB0. unfold _fused_correct_drafts_and_bonus_kernel, bonus_of.
  match goal with |- (tl_min ?l, _) = _ => enough (tl_min l = match_len) as -> by done end.
  pose proof match_len_le.
  assert (E : ∀ o, (Z.eqb (tl_load c (1 + o) (o <? n - 1) (-1)%Z) (tl_load t o (o <? n - 1) (-2)%Z) && (o <? n - 1))
    = (o <? n - 1) && draft_matches o).
  { intros o. destruct (o <? n - 1) eqn:Eo; [|by rewrite andb_false_r].
    apply Nat.ltb_lt in Eo. rewrite load_eq by done. by rewrite andb_true_r. }
  apply tl_min_ok.
  - apply list_elem_of_fmap. destruct (decide (match_len < BLOCK)) as [Hm|Hm].
    + exists match_len. split; [|apply elem_of_seq; lia]. cbv zeta. rewrite E.
      destruct (decide (match_len < n - 1)) as [Hlt|Hge].
      * rewrite (proj2 (Nat.ltb_lt _ _)) by done. unfold draft_matches.
        by rewrite bool_decide_eq_false_2 by (by apply match_len_at).
      * by rewrite (proj2 (Nat.ltb_ge _ _)) by lia.
    + exists 0. split; [|apply elem_of_seq; lia]. cbv zeta. rewrite E.
      rewrite (proj2 (Nat.ltb_lt _ _)) by lia. unfold draft_matches.
      rewrite bool_decide_eq_true_2 by (apply match_len_before; lia). cbn. lia.
  - apply Forall_fmap, Forall_forall. intros o Ho%elem_of_seq. cbn. rewrite E.
    destruct (decide (o < match_len)) as [Hlt|Hge].
    + rewrite (proj2 (Nat.ltb_lt _ _)) by lia. unfold draft_matches.
      rewrite bool_decide_eq_true_2 by (by apply match_len_before). cbn. lia.
    + destruct (_ && _); lia.
Qed.

Lemma accept_cols_ok k :
  foldl (accept_col c t n) (0, true) (seq 0 k)
  = (leading draft_matches (seq 0 (Nat.min k (n - 1))),
     leading draft_matches (seq 0 (Nat.min k (n - 1))) =? Nat.min k (n - 1)).
Proof.
  induction k as [|k IH]; [done|]. rewrite seq_S, foldl_app, IH. cbn [foldl Nat.add]. unfold accept_col.
  destruct (decide (k < n - 1)) as [Hk|Hk].
  - rewrite (proj2 (Nat.ltb_lt k _)) by done. rewrite Nat.add_1_r.
    assert (El : (tl_load c (S k) true 0 =? tl_load t k true 0)%Z = draft_matches k).
    { rewrite <- load_eq by done. unfold tl_load. cbn [Nat.add].
      destruct (lookup_lt_is_Some_2 c (S k) ltac:(lia)) as [x ->].
      by destruct (lookup_lt_is_Some_2 t k ltac:(lia)) as [y ->]. }
    rewrite El, !Nat.min_l by lia. rewrite (seq_S k). cbn [Nat.add]. rewrite leading_snoc, length_seq.
    pose proof (leading_le draft_matches (seq 0 k)) as HL. rewrite length_seq in HL.
    destruct (Nat.eqb_spec (leading draft_matches (seq 0 k)) k) as [->|Hne]; cbn.
    + destruct (draft_matches k); [by rewrite Nat.eqb_refl|].
      by rewrite (proj2 (Nat.eqb_neq k (S k))) by lia.
    + by rewrite (proj2 (Nat.eqb_neq _ (S k))) by lia.
  - rewrite (proj2 (Nat.ltb_ge k _)) by lia. by rewrite !Nat.min_r by lia.
Qed.

Definition commit_row : list Z := <[match_len := bonus_of]> (drop 1 c ++ [0%Z]).

Lemma contig_kernel_ok p BLOCK :
  n ≤ BLOCK →
  _dflash_accept_bonus_contig_kernel c t p n BLOCK
  = {| accept_lens_out := match_len; commit_lens_out := S match_len; bonus_ids_out := bonus_of;
       new_seq_lens_out := (p + Z.of_nat (S match_len))%Z; out_tokens := commit_row |}.
Proof.
  intros HB. unfold _dflash_accept_bonus_contig_kernel. rewrite accept_cols_ok.
  rewrite Nat.min_r by lia. cbn [fst]. fold match_len. f_equal.
  rewrite filter_lt_seq, Nat.sub_0_r, Nat.min_r by lia. pose proof match_len_le.
  apply list_eq. intros i. rewrite list_lookup_fmap. unfold commit_row.
  destruct (decide (i < n)) as [Hi|Hi].
  - rewrite lookup_seq_lt by done. cbn [fmap option_fmap option_map Nat.add]. destruct (Nat.eqb_spec i match_len) as [->|Hne].
    + by rewrite list_lookup_insert_eq by (rewrite length_app, length_drop; cbn; lia).
    + rewrite list_lookup_insert_ne by done. unfold tl_load. destruct (decide (i < n - 1)) as [Hlt|Hge].
      * rewrite (proj2 (Nat.ltb_lt i _)) by done. rewrite lookup_app_l by (rewrite length_drop; lia).
        rewrite lookup_drop, Nat.add_1_r. cbn [Nat.add].
        by destruct (lookup_lt_is_Some_2 c (S i) ltac:(lia)) as [x ->].
      * rewrite (proj2 (Nat.ltb_ge i _)) by lia. rewrite lookup_app_r by (rewrite length_drop; lia).
        rewrite length_drop. by replace (i - (length c - 1)) with 0 by lia.
  - rewrite lookup_seq_ge by lia. symmetry. apply lookup_ge_None.
    rewrite length_insert, length_app, length_drop. cbn. lia.
Qed.

(** The committed tokens are the target's own predictions. *)
Lemma commit_row_target : take (S match_len) commit_row = take (S match_len) t.
Proof.
  pose proof match_len_le. apply list_eq. intros i. destruct (decide (i < S match_len)) as [Hi|Hi].
  - rewrite !lookup_take_lt by done. unfold commit_row. destruct (decide (i = match_len)) as [->|Hne].
    + rewrite list_lookup_insert_eq by (rewrite length_app, length_drop; cbn; lia). unfold bonus_of.
      by destruct (lookup_lt_is_Some_2 t match_len ltac:(lia)) as [x ->].
    + rewrite list_lookup_insert_ne by done. rewrite lookup_app_l by (rewrite length_drop; lia).
      rewrite lookup_drop. apply match_len_before. lia.
  - by rewrite !lookup_take_ge by lia.
Qed.
End row.

(** ** The batch *)

Definition block_rows (n : nat) (cs ts : list (list Z)) : Prop :=
  Forall2 (λ c t, length c = n ∧ length t = n) cs ts.

Section batch.
Context (n : nat) (cs ts : list (list Z)) (Hrows : block_rows n cs ts) (Hn : 0 < n).
#[local] Notation lens := (zip_with (match_len n) cs ts).
#[local] Notation bonuses := (zip_with (bonus_of n) cs ts).
#[local] Notation commits := (zip_with (commit_row n) cs ts).

Lemma rows_agree (f : list Z → list Z → nat * Z) :
  (∀ c t, length c = n → length t = n → f c t = (match_len n c t, bonus_of n c t)) →
  (zip_with f cs ts).*1 = lens ∧ (zip_with f cs ts).*2 = bonuses.
Proof.
  intros Hf. pose proof Hrows as HR. unfold block_rows in HR. clear Hrows. induction HR as [|c t cs' ts' [Hc Ht] _ [E1 E2]]; [done|].
  cbn. by rewrite Hf, E1, E2 by done.
Qed.

Lemma commit_accept_ok : _commit_accept 0%Z cs lens bonuses = (commits, S <$> lens).
Proof.
  unfold _commit_accept. f_equal. pose proof Hrows as HR. unfold block_rows in HR. clear Hrows. induction HR as [|c t cs' ts' _ _ IH]; [done|]. cbn. by rewrite IH.
Qed.

Lemma eager_ok is_cuda : cs ≠ [] →
  eager_accept is_cuda n cs ts = Ok (lens, S <$> lens, bonuses, commits, None).
Proof.
  intros Hne. unfold eager_accept, compute_dflash_correct_drafts_and_bonus.
  assert (E : length <$> ts = length <$> cs).
  { clear Hne. pose proof Hrows as HR. unfold block_rows in HR. clear Hrows. induction HR as [|c t cs' ts' [Hc Ht] Hr IH]; [done|]. cbn. rewrite Hc, Ht. f_equal.
    done. }
  rewrite (py_check_true _ (bool_decide _)) by (by apply bool_decide_eq_true_2). cbn [mbind result_bind].
  rewrite (py_check_true _ (0 <? length cs)) by (apply Nat.ltb_lt; by destruct cs; cbn; [|lia]). cbn [mbind result_bind].
  rewrite (py_check_true _ (0 <? n)) by (by apply Nat.ltb_lt). cbn [mbind result_bind].
  pose proof (next_power_of_2_ge (Nat.max (n - 1) 1)) as HB. destruct is_cuda.
  - destruct (rows_agree _ (λ c t Hc Ht, fused_kernel_ok n c t Hn Hc Ht (next_power_of_2 (Nat.max (n - 1) 1))
      ltac:(lia) ltac:(lia))) as [-> ->]. by rewrite commit_accept_ok.
  - destruct (rows_agree _ (λ c t, correct_drafts_row_ok n c t Hn)) as [-> ->]. by rewrite commit_accept_ok.
Qed.

Lemma kernel_rows_ok ps : length ps = length cs →
  let rows := _compute_dflash_accept_bonus_triton_unchecked cs ts ps n in
  accept_lens_out <$> rows = lens ∧ commit_lens_out <$> rows = S <$> lens ∧
  bonus_ids_out <$> rows = bonuses ∧ out_tokens <$> rows = commits ∧
  new_seq_lens_out <$> rows = zip_with (λ p m, (p + Z.of_nat m)%Z) ps (S <$> lens).
Proof.
  cbv zeta. unfold _compute_dflash_accept_bonus_triton_unchecked. pose proof (next_power_of_2_ge n) as HB.
  revert ps. pose proof Hrows as HR. unfold block_rows in HR. clear Hrows. induction HR as [|c t cs' ts' [Hc Ht] _ IH]; intros [|p ps] Hl; try done.
  destruct (IH ps ltac:(by injection Hl)) as (E1 & E2 & E3 & E4 & E5).
  cbn [zip_with zip fmap list_fmap]. rewrite contig_kernel_ok, E1, E2, E3, E4, E5 by done. done.
Qed.

Lemma commits_target : zip_with take (S <$> lens) commits = zip_with take (S <$> lens) ts.
Proof.
  pose proof Hrows as HR. unfold block_rows in HR. clear Hrows. induction HR as [|c t cs' ts' [Hc Ht] _ IH]; [done|].
  cbn [zip_with fmap list_fmap]. by rewrite commit_row_target, IH.
Qed.
End batch.


