(* ===== verification/RealLaw.v ===== *)
(** * RealLaw: rows of real weights and the law of a function of uniform draws

    Shared by the files that model the serving sampler of LatentSpec, whose
    weights are exponentials: rows of real numbers and their partial sums
    ([cdf]), [tl.cumsum] and the count of a comparison, the inverse-CDF relation
    [draws], the softmax of a row, and the relation [Law n f d]: a function [f]
    of [n] independent uniform draws on [[0,1)] has the distribution [d].
    Comparisons of reals are decided classically ([Rle_dec]), so these
    definitions do not evaluate. *)

From S2P Require Import Prelude.
From Stdlib Require Import Reals Lra.
#[local] Open Scope nat_scope.

(** ** Sums and partial sums *)

Definition Rsum (l : list R) : R := fold_right Rplus 0%R l.
Definition wt (w : list R) (i : nat) : R := default 0%R (w !! i).
Definition cdf (w : list R) (k : nat) : R := Rsum (take k w).

(** [tl.cumsum] of a block, on top of the running total [acc]. *)
Fixpoint tl_cumsum (acc : R) (l : list R) : list R :=
  match l with
  | [] => []
  | x :: l' => (acc + x)%R :: tl_cumsum (acc + x) l'
  end.

Definition Rle_b (x y : R) : bool := if Rle_dec x y then true else false.
Definition Rlt_b (x y : R) : bool := if Rlt_dec x y then true else false.

(** [tl.sum] of a mask. *)
Fixpoint tl_count (l : list bool) : nat :=
  match l with [] => 0 | b :: l' => (if b then 1 else 0) + tl_count l' end.

(** [u] falls in the [k]-th interval of the row's inverse CDF. *)
Definition draws (w : list R) (u : R) (k : nat) : Prop :=
  (cdf w k <= u < cdf w (S k))%R.

Definition softmaxR (row : list R) : list R :=
  let e := exp <$> row in (λ x, x / Rsum e)%R <$> e.

Definition sumN (n : nat) (f : nat → R) : R := Rsum (f <$> seq 0 n).

Lemma Rle_b_true x y : Rle_b x y = true ↔ (x <= y)%R.
Proof. unfold Rle_b. destruct (Rle_dec x y); naive_solver. Qed.
Lemma Rle_b_false x y : Rle_b x y = false ↔ (y < x)%R.
Proof. unfold Rle_b. destruct (Rle_dec x y); split; intros; try done; lra. Qed.
Lemma Rlt_b_true x y : Rlt_b x y = true ↔ (x < y)%R.
Proof. unfold Rlt_b. destruct (Rlt_dec x y); naive_solver. Qed.
Lemma Rlt_b_false x y : Rlt_b x y = false ↔ (y <= x)%R.
Proof. unfold Rlt_b. destruct (Rlt_dec x y); split; intros; try done; lra. Qed.

Lemma Rsum_nil : Rsum [] = 0%R.
Proof. done. Qed.
Lemma Rsum_cons x l : Rsum (x :: l) = (x + Rsum l)%R.
Proof. done. Qed.
#[global] Arguments Rsum : simpl never.

Lemma Rsum_app l k : Rsum (l ++ k) = (Rsum l + Rsum k)%R.
Proof. induction l as [|x l IH]; cbn; rewrite ?Rsum_nil, ?Rsum_cons, ?IH; lra. Qed.

Lemma Rsum_nonneg l : Forall (λ x, 0 <= x)%R l → (0 <= Rsum l)%R.
Proof. induction 1; rewrite ?Rsum_nil, ?Rsum_cons; lra. Qed.

Lemma Rsum_pos l : l ≠ [] → Forall (λ x, 0 < x)%R l → (0 < Rsum l)%R.
Proof.
  intros Hn Hl. destruct Hl as [|x l Hx Hl]; [done|]. rewrite Rsum_cons.
  assert (0 <= Rsum l)%R; [|lra]. apply Rsum_nonneg. eapply Forall_impl; [exact Hl|]. cbn. intros; lra.
Qed.

Lemma Rsum_scale {A} (c : R) (f : A → R) l : Rsum ((λ x, c * f x)%R <$> l) = (c * Rsum (f <$> l))%R.
Proof. induction l as [|x l IH]; cbn; rewrite ?Rsum_nil, ?Rsum_cons, ?IH; lra. Qed.

Lemma Rsum_add {A} (f g : A → R) l :
  Rsum ((λ x, f x + g x)%R <$> l) = (Rsum (f <$> l) + Rsum (g <$> l))%R.
Proof. induction l as [|x l IH]; cbn; rewrite ?Rsum_nil, ?Rsum_cons, ?IH; lra. Qed.

Lemma Rsum_ext {A} (f g : A → R) l : Forall (λ x, f x = g x) l → Rsum (f <$> l) = Rsum (g <$> l).
Proof. induction 1 as [|x l E _ IH]; [done|]. cbn. by rewrite !Rsum_cons, E, IH. Qed.

Lemma Rsum_const0 {A} (l : list A) : Rsum ((λ _, 0%R) <$> l) = 0%R.
Proof. induction l as [|x l IH]; cbn; rewrite ?Rsum_cons, ?IH, ?Rsum_nil; lra. Qed.

Lemma Rsum_zeros_replicate n : Rsum (replicate n 0%R) = 0%R.
Proof. induction n as [|n IH]; [done|]. cbn. rewrite Rsum_cons, IH. lra. Qed.

Lemma Rsum_concat ls : Rsum (concat ls) = Rsum (Rsum <$> ls).
Proof. induction ls as [|l ls IH]; [done|]. cbn. by rewrite Rsum_app, Rsum_cons, IH. Qed.

Lemma Rsum_zeros l : Forall (λ x, 0 <= x)%R l → Rsum l = 0%R → Forall (λ x, x = 0%R) l.
Proof.
  induction 1 as [|x l Hx Hl IH]; [by constructor|]. rewrite Rsum_cons. intros E.
  pose proof (Rsum_nonneg l Hl). constructor; [lra|]. apply IH. lra.
Qed.

Lemma sumN_ext n f g : (∀ i, i < n → f i = g i) → sumN n f = sumN n g.
Proof. intros H. apply Rsum_ext, Forall_forall. intros i Hi%elem_of_seq. apply H. lia. Qed.
Lemma sumN_scale n c f : sumN n (λ i, c * f i)%R = (c * sumN n f)%R.
Proof. apply Rsum_scale. Qed.
Lemma sumN_add n f g : sumN n (λ i, f i + g i)%R = (sumN n f + sumN n g)%R.
Proof. apply Rsum_add. Qed.
Lemma sumN_S n f : sumN (S n) f = (sumN n f + f n)%R.
Proof. unfold sumN. rewrite seq_S, fmap_app, Rsum_app. cbn. rewrite Rsum_cons, Rsum_nil. lra. Qed.

(** A single term of a sum that vanishes elsewhere. *)
Lemma sumN_pick n k c f :
  k < n → sumN n (λ i, f i * (if decide (i = k) then c else 0))%R = (f k * c)%R.
Proof.
  induction n as [|n IH]; [lia|]. intros Hk. rewrite sumN_S.
  destruct (decide (k = n)) as [->|].
  - rewrite (sumN_ext n _ (λ _, 0%R)).
    + unfold sumN. rewrite Rsum_const0. rewrite decide_True by done. lra.
    + intros i Hi. rewrite decide_False by lia. lra.
  - rewrite IH by lia. rewrite decide_False by lia. lra.
Qed.

Lemma Rsum_wts w : Rsum w = sumN (length w) (wt w).
Proof.
  unfold sumN. f_equal. apply list_eq. intros i. rewrite list_lookup_fmap. unfold wt.
  destruct (decide (i < length w)) as [Hi|Hi].
  - rewrite lookup_seq_lt by done. cbn. destruct (lookup_lt_is_Some_2 w i Hi) as [x ->]. done.
  - rewrite (proj2 (lookup_ge_None w i)) by lia. by rewrite lookup_seq_ge by lia.
Qed.

Lemma wt_seq f n j : j < n → wt (f <$> seq 0 n) j = f j.
Proof. intros Hj. unfold wt. by rewrite list_lookup_fmap, lookup_seq_lt by done. Qed.

Lemma wt_self (x : list R) n : length x = n → wt x <$> seq 0 n = x.
Proof.
  intros Hx. apply list_eq. intros i. rewrite list_lookup_fmap. destruct (decide (i < n)).
  - rewrite lookup_seq_lt by done. cbn. unfold wt. destruct (lookup_lt_is_Some_2 x i ltac:(lia)) as [a ->]. done.
  - rewrite lookup_seq_ge, lookup_ge_None_2 by lia. done.
Qed.

(** ** The inverse CDF *)

Lemma cdf_0 w : cdf w 0 = 0%R.
Proof. done. Qed.

Lemma cdf_full w k : length w ≤ k → cdf w k = Rsum w.
Proof. intros. unfold cdf. by rewrite take_ge. Qed.

Lemma cdf_S w k : cdf w (S k) = (cdf w k + wt w k)%R.
Proof.
  unfold cdf, wt. destruct (w !! k) as [x|] eqn:E.
  - rewrite (take_S_r _ _ _ E), Rsum_app, Rsum_cons, Rsum_nil. cbn. lra.
  - apply lookup_ge_None in E. rewrite !take_ge by lia. cbn. lra.
Qed.

Lemma cdf_cons x w k : cdf (x :: w) (S k) = (x + cdf w k)%R.
Proof. done. Qed.

Lemma wt_nonneg w k : Forall (λ x, 0 <= x)%R w → (0 <= wt w k)%R.
Proof.
  intros H. unfold wt. destruct (w !! k) eqn:E; cbn; [|lra].
  by eapply Forall_lookup_1 in E; [|exact H].
Qed.

Lemma cdf_mono w i j : Forall (λ x, 0 <= x)%R w → i ≤ j → (cdf w i <= cdf w j)%R.
Proof.
  intros H. induction 1 as [|j _ IH]; [lra|]. rewrite cdf_S. pose proof (wt_nonneg w j H). lra.
Qed.

Lemma cdf_le_total w k : Forall (λ x, 0 <= x)%R w → (cdf w k <= Rsum w)%R.
Proof. intros H. rewrite <- (cdf_full w (k + length w)) by lia. apply cdf_mono; [done|lia]. Qed.

Lemma draws_lt w u k : draws w u k → k < length w ∧ (0 < wt w k)%R.
Proof.
  unfold draws. rewrite cdf_S. unfold wt. destruct (w !! k) eqn:E; cbn.
  - intros. split; [by eapply lookup_lt_Some|]. lra.
  - intros. exfalso. lra.
Qed.

Lemma draws_inj w u i j : Forall (λ x, 0 <= x)%R w → draws w u i → draws w u j → i = j.
Proof.
  unfold draws. intros H Hi Hj. destruct (lt_eq_lt_dec i j) as [[L| ->]|L]; [|done|].
  - pose proof (cdf_mono w (S i) j H L). lra.
  - pose proof (cdf_mono w (S j) i H L). lra.
Qed.

Lemma draws_scale w u k c : (0 < c)%R →
  draws ((λ x, x / c)%R <$> w) u k ↔ draws w (u * c) k.
Proof.
  intros Hc.
  assert (S : ∀ j, cdf ((λ x, x / c)%R <$> w) j = (cdf w j / c)%R).
  { intros j. unfold cdf. rewrite <- fmap_take.
    rewrite (Rsum_ext _ (λ x, / c * x)%R) by (apply Forall_forall; intros; unfold Rdiv; lra).
    rewrite Rsum_scale, list_fmap_id. unfold Rdiv. lra. }
  unfold draws. rewrite !S. split; intros [A B]; split.
  - apply (Rmult_le_compat_r c) in A; [|lra]. replace (cdf w k / c * c)%R with (cdf w k) in A; [done|].
    field. lra.
  - apply (Rmult_lt_compat_r c) in B; [|lra].
    replace (cdf w (Datatypes.S k) / c * c)%R with (cdf w (Datatypes.S k)) in B; [done|]. field. lra.
  - apply (Rmult_le_reg_r c); [lra|]. replace (cdf w k / c * c)%R with (cdf w k); [done|]. field. lra.
  - apply (Rmult_lt_reg_r c); [lra|].
    replace (cdf w (Datatypes.S k) / c * c)%R with (cdf w (Datatypes.S k)); [done|]. field. lra.
Qed.

Lemma Rsum_mul_r c l : Rsum ((λ x, x * c)%R <$> l) = (Rsum l * c)%R.
Proof. induction l as [|x l IH]; cbn; rewrite ?Rsum_nil, ?Rsum_cons, ?IH; lra. Qed.

Lemma draws_scale_mul w u k c : (0 < c)%R →
  draws ((λ x, x * c)%R <$> w) u k ↔ draws w (u / c) k.
Proof.
  intros Hc. pose proof (Rinv_0_lt_compat c Hc). rewrite <- (draws_scale w u k (/ c)) by done.
  unfold Rdiv. by rewrite Rinv_inv.
Qed.

Lemma tl_cumsum_lookup acc w i :
  tl_cumsum acc w !! i = (λ x, acc + cdf w i + x)%R <$> w !! i.
Proof.
  revert acc i. induction w as [|x w IH]; intros acc i; [done|]. destruct i as [|i]; cbn.
  - rewrite cdf_0. f_equal. lra.
  - rewrite IH, cdf_cons. destruct (w !! i); cbn; [|done]. f_equal. lra.
Qed.

Lemma length_tl_cumsum acc w : length (tl_cumsum acc w) = length w.
Proof. revert acc. induction w as [|x w IH]; intros acc; cbn; [done|]. by rewrite IH. Qed.

Lemma tl_count_none l : Forall (λ b, b = false) l → tl_count l = 0.
Proof. induction 1 as [|b l -> _ IH]; [done|]. by cbn. Qed.

(** Counting the prefixes that have not crossed [u] inverts the CDF. *)
Lemma count_draws acc w u :
  Forall (λ x, 0 <= x)%R w → (acc <= u < acc + Rsum w)%R →
  draws w (u - acc) (tl_count ((λ c, Rle_b c u) <$> tl_cumsum acc w)).
Proof.
  intros H. revert acc. induction H as [|x w Hx Hw IH]; intros acc Hu.
  - rewrite Rsum_nil in Hu. lra.
  - rewrite Rsum_cons in Hu. cbn. destruct (Rle_b (acc + x) u) eqn:E; cbn.
    + apply Rle_b_true in E. specialize (IH (acc + x)%R ltac:(lra)).
      unfold draws in *. rewrite !cdf_cons. lra.
    + apply Rle_b_false in E. rewrite tl_count_none.
      { unfold draws. rewrite cdf_cons, !cdf_0. lra. }
      apply Forall_fmap, Forall_lookup. intros i c. rewrite tl_cumsum_lookup.
      destruct (w !! i) as [y|] eqn:Ey; [|done]. intros [= <-]. cbn. apply Rle_b_false.
      pose proof (Forall_lookup_1 _ _ _ _ Hw Ey). cbn in *.
      pose proof (cdf_mono w 0 i Hw ltac:(lia)). rewrite cdf_0 in *. lra.
Qed.

(** ** Softmax is a distribution *)

Lemma exp_sum_pos l : l ≠ [] → (0 < Rsum (exp <$> l))%R.
Proof.
  intros Hl. apply Rsum_pos; [by destruct l|]. apply Forall_fmap, Forall_forall. intros x _. apply exp_pos.
Qed.

Lemma softmaxR_nonneg l : l ≠ [] → Forall (λ x, 0 <= x)%R (softmaxR l).
Proof.
  intros Hl. pose proof (exp_sum_pos l Hl). unfold softmaxR.
  apply Forall_fmap, Forall_fmap, Forall_forall. intros x _. cbn. pose proof (exp_pos x).
  apply Rmult_le_pos; [lra|]. left. by apply Rinv_0_lt_compat.
Qed.

Lemma softmaxR_sum l : l ≠ [] → Rsum (softmaxR l) = 1%R.
Proof.
  intros Hl. pose proof (exp_sum_pos l Hl). unfold softmaxR.
  rewrite (Rsum_ext _ (λ x, / Rsum (exp <$> l) * id x)%R)
    by (apply Forall_forall; intros; unfold Rdiv, id; lra).
  rewrite Rsum_scale, list_fmap_id. field. lra.
Qed.

(** The reference sampler: the number of partial sums at most [u]. *)
Definition icdf (w : list R) (u : R) : nat := tl_count ((λ c, Rle_b c u) <$> tl_cumsum 0 w).

Lemma icdf_spec w u : Forall (λ x, 0 <= x)%R w → (0 <= u < Rsum w)%R → draws w u (icdf w u).
Proof. intros Hn Hu. pose proof (count_draws 0 w u Hn ltac:(lra)) as D. by rewrite Rminus_0_r in D. Qed.

(** ** The law of a function of uniform draws

    [Law n f d]: [f us] over lists [us] of [n] independent uniform draws has
    the probability mass function [d].  The first draw is cut into consecutive
    intervals of widths [ws]; within the [i]-th one the law of the rest is
    [ds i]. *)
Inductive Law {A : Type} `{EqDecision A} : nat → (list R → A) → (A → R) → Prop :=
  | law_ret f d :
      (∀ x, d x = if decide (x = f []) then 1%R else 0%R) → Law 0 f d
  | law_draw n f d ws ds :
      Forall (λ x, 0 <= x)%R ws → Rsum ws = 1%R →
      (∀ u i, draws ws u i → Law n (λ us, f (u :: us)) (ds i)) →
      (∀ x, d x = sumN (length ws) (λ i, wt ws i * ds i x)%R) →
      Law (S n) f d.

Definition uniforms (n : nat) (us : list R) : Prop :=
  length us = n ∧ Forall (λ u, 0 <= u < 1)%R us.

Lemma draws_range ws u i :
  Forall (λ x, 0 <= x)%R ws → Rsum ws = 1%R → draws ws u i → (0 <= u < 1)%R.
Proof.
  intros H S [A B]. pose proof (cdf_mono ws 0 i H ltac:(lia)). rewrite cdf_0 in *.
  assert (cdf ws (Datatypes.S i) <= Rsum ws)%R; [|lra].
  rewrite <- (cdf_full ws (Datatypes.S i + length ws)) by lia. apply cdf_mono; [done|lia].
Qed.

Lemma Law_ext {A} `{EqDecision A} n (f g : list R → A) d e :
  Law n f d → (∀ us, uniforms n us → f us = g us) → (∀ x, d x = e x) → Law n g e.
Proof.
  intros L. revert g e. induction L as [f d Hd|n f d ws ds Hw Hs HL IH Hd]; intros g e Hfg Hde.
  - apply law_ret. intros x. rewrite <- Hde, Hd. by rewrite (Hfg []) by (split; [done|constructor]).
  - eapply (law_draw n g e ws ds); [done..| |].
    + intros u i Hi. apply (IH u i Hi); [|done]. intros us [Hl Hu]. apply Hfg.
      split; [by cbn; rewrite Hl|]. constructor; [|done]. by eapply draws_range.
    + intros x. by rewrite <- Hde.
Qed.

(** A law is a probability distribution on any list that holds the support. *)
Lemma Law_nonneg {A} `{EqDecision A} n (f : list R → A) d x : Law n f d → (0 <= d x)%R.
Proof.
  intros L. revert x. induction L as [f d Hd|n f d ws ds Hw Hs HL IH Hd]; intros x.
  - rewrite Hd. destruct (decide _); lra.
  - rewrite Hd. apply Rsum_nonneg, Forall_fmap, Forall_forall. intros i _. cbn.
    destruct (Req_dec (wt ws i) 0) as [->|Hn]; [lra|].
    pose proof (wt_nonneg ws i Hw). apply Rmult_le_pos; [done|].
    apply (IH (cdf ws i) i). unfold draws. rewrite cdf_S. lra.
Qed.
