(* ===== verification/LatentSampler.v ===== *)
(** * LatentSampler: drawing the LatentSpec proposals on the device

    Models the samplers of [srt/speculative/dflash_utils.py]: the two-level
    inverse-CDF kernels over a row of probabilities, the same over a row of
    logits (block maxima and sums, then one selection per row), and their hosts.
    Floats are real numbers.  A masked-out lane loads minus infinity, the value
    [None] of [option R]; its exponential is zero.  [torch.rand] is third-party
    code: its draws are an argument.  The cached output buffers only avoid
    allocations and are not modelled. *)

From S2P Require Import Prelude TensorOps RealLaw.
From Stdlib Require Import Reals Lra.
#[local] Open Scope nat_scope.
#[local] Arguments Nat.ltb : simpl never.

(** The block size of every kernel over the vocabulary, 4096. *)
Definition VOCAB_BLOCK : nat := 2 ^ 12.

Lemma VOCAB_BLOCK_pos : 0 < VOCAB_BLOCK.
Proof. unfold VOCAB_BLOCK. apply Nat.neq_0_lt_0. by apply Nat.pow_nonzero. Qed.
#[global] Opaque VOCAB_BLOCK.

(** ** Device floats with minus infinity *)

Definition tl_exp (x : option R) : R := match x with Some v => exp v | None => 0%R end.
Definition xsub (x y : option R) : option R :=
  match x, y with Some a, Some b => Some (a - b)%R | _, _ => None end.
Definition xadd (x y : option R) : option R :=
  match x, y with Some a, Some b => Some (a + b)%R | _, _ => None end.
Definition xdiv (x : option R) (t : R) : option R := (λ a, a / t)%R <$> x.
Definition xmax (x y : option R) : option R :=
  match x, y with Some a, Some b => Some (Rmax a b) | Some a, None => Some a | None, y => y end.
Definition tl_max (l : list (option R)) : option R := foldr xmax None l.

(** ** Probabilities: [_latentspec_categorical_*_kernel] *)

Section categorical.
Context (BLOCK_SIZE : nat).

Definition _latentspec_categorical_block_sums_kernel (probs_row : list R) (VOCAB_SIZE block : nat) : R :=
  let offsets := tl_lanes BLOCK_SIZE block in
  let values := (λ o, tl_load probs_row o (o <? VOCAB_SIZE) 0%R) <$> offsets in
  Rsum values.

Definition _latentspec_categorical_select_kernel (probs_row block_sums : list R) (uniform : R)
    (VOCAB_SIZE N_BLOCKS N_BLOCK_LANES : nat) : nat :=
  let block_ids := seq 0 N_BLOCK_LANES in
  let block_values := (λ b, tl_load block_sums b (b <? N_BLOCKS) 0%R) <$> block_ids in
  let total := Rsum block_values in
  let target := (uniform * total)%R in
  let block_prefix := tl_cumsum 0 block_values in
  let selected_block :=
    tl_count (zip_with (λ c b, Rle_b c target && (b <? N_BLOCKS)) block_prefix block_ids) in
  let selected_block := Nat.min selected_block (N_BLOCKS - 1) in
  let prefix_before :=
    Rsum (zip_with (λ b v, if b <? selected_block then v else 0%R) block_ids block_values) in
  let token_ids := tl_lanes BLOCK_SIZE selected_block in
  let token_values := (λ o, tl_load probs_row o (o <? VOCAB_SIZE) 0%R) <$> token_ids in
  let token_prefix := tl_cumsum 0 token_values in
  let selected_local :=
    tl_count (zip_with (λ c o, Rle_b c (target - prefix_before) && (o <? VOCAB_SIZE))
                token_prefix token_ids) in
  let selected_local := Nat.min selected_local (VOCAB_SIZE - 1 - selected_block * BLOCK_SIZE) in
  selected_block * BLOCK_SIZE + selected_local.

(** One row: the block sums, then the selection. *)
Definition categorical_row (vocab_size : nat) (probs_row : list R) (uniform : R) : nat :=
  let num_blocks := cdiv vocab_size BLOCK_SIZE in
  _latentspec_categorical_select_kernel probs_row
    (_latentspec_categorical_block_sums_kernel probs_row vocab_size <$> seq 0 num_blocks)
    uniform vocab_size num_blocks (next_power_of_2 num_blocks).

(** ** Logits: [_latentspec_logit_*_kernel] *)

Definition _latentspec_logit_block_stats_kernel (logits_row : list R) (temperature : R)
    (VOCAB_SIZE block : nat) : option R * R :=
  let offsets := tl_lanes BLOCK_SIZE block in
  let values :=
    (λ o, xdiv (tl_load (Some <$> logits_row) o (o <? VOCAB_SIZE) None) temperature) <$> offsets in
  let block_max := tl_max values in
  let exponentials :=
    zip_with (λ o v, if o <? VOCAB_SIZE then tl_exp (xsub v block_max) else 0%R) offsets values in
  (block_max, Rsum exponentials).

Definition _latentspec_logit_select_kernel (logits_row : list R) (temperature : R)
    (block_max : list (option R)) (block_sum : list R) (uniform : R)
    (VOCAB_SIZE N_BLOCKS N_BLOCK_LANES : nat) : nat * R :=
  let block_ids := seq 0 N_BLOCK_LANES in
  let maxima := (λ b, tl_load block_max b (b <? N_BLOCKS) None) <$> block_ids in
  let sums := (λ b, tl_load block_sum b (b <? N_BLOCKS) 0%R) <$> block_ids in
  let global_max := tl_max maxima in
  let block_weights := zip_with (λ s m, s * tl_exp (xsub m global_max))%R sums maxima in
  let total := Rsum block_weights in
  let target := (uniform * total)%R in
  let block_prefix := tl_cumsum 0 block_weights in
  let selected_block :=
    tl_count (zip_with (λ c b, Rle_b c target && (b <? N_BLOCKS)) block_prefix block_ids) in
  let selected_block := Nat.min selected_block (N_BLOCKS - 1) in
  let prefix_before :=
    Rsum (zip_with (λ b v, if b <? selected_block then v else 0%R) block_ids block_weights) in
  let selected_max :=
    foldr xadd (Some 0%R)
      (zip_with (λ b m, if b =? selected_block then m else Some 0%R) block_ids maxima) in
  let selected_scale := tl_exp (xsub selected_max global_max) in
  let local_target := ((target - prefix_before) / selected_scale)%R in
  let token_ids := tl_lanes BLOCK_SIZE selected_block in
  let values :=
    (λ o, xdiv (tl_load (Some <$> logits_row) o (o <? VOCAB_SIZE) None) temperature) <$> token_ids in
  let token_weights :=
    zip_with (λ o v, if o <? VOCAB_SIZE then tl_exp (xsub v selected_max) else 0%R) token_ids values in
  let token_prefix := tl_cumsum 0 token_weights in
  let selected_local :=
    tl_count (zip_with (λ c o, Rle_b c local_target && (o <? VOCAB_SIZE)) token_prefix token_ids) in
  let selected_local := Nat.min selected_local (VOCAB_SIZE - 1 - selected_block * BLOCK_SIZE) in
  (selected_block * BLOCK_SIZE + selected_local, (default 0 global_max + ln total)%R).

Definition logit_row (vocab_size : nat) (logits_row : list R) (temperature uniform : R) : nat * R :=
  let num_blocks := cdiv vocab_size BLOCK_SIZE in
  let stats := _latentspec_logit_block_stats_kernel logits_row temperature vocab_size <$> seq 0 num_blocks in
  _latentspec_logit_select_kernel logits_row temperature stats.*1 stats.*2
    uniform vocab_size num_blocks (next_power_of_2 num_blocks).
End categorical.

(** ** Hosts *)

(** [t.view(batch_size, width)] of a flat tensor. *)
Definition view_2d {A} (batch_size width : nat) (l : list A) : list (list A) :=
  (λ b, l.[b * width, b * width + width]) <$> seq 0 batch_size.

Definition _sample_latentspec_categorical_cuda (probs : list (list R)) (vocab_size : nat)
    (uniforms : list R) : list nat :=
  let block_size := VOCAB_BLOCK in
  imap (λ row p, categorical_row block_size vocab_size p (wt uniforms row)) probs.

(** [draft_logits] is [batch_size] x [rows_per_request] x [vocab_size]. *)
Definition sample_latentspec_draft_logits_cuda (draft_logits : list (list (list R)))
    (rows_per_request vocab_size : nat) (temperatures uniforms : list R)
  : list (list nat) * list (list R) :=
  let batch_size := length draft_logits in
  let flat_logits := concat draft_logits in
  let block_size := VOCAB_BLOCK in
  let out :=
    imap (λ row l, logit_row block_size vocab_size l (wt temperatures (row / rows_per_request))
                     (wt uniforms row)) flat_logits in
  (view_2d batch_size rows_per_request out.*1, view_2d batch_size rows_per_request out.*2).

(** [torch.argmax] of a row: its first maximum. *)
Fixpoint argmaxR_from (best : nat) (best_v : R) (i : nat) (l : list R) : nat :=
  match l with
  | [] => best
  | x :: l' => if Rlt_b best_v x then argmaxR_from i x (S i) l' else argmaxR_from best best_v (S i) l'
  end.
Definition argmaxR (l : list R) : nat :=
  match l with [] => 0 | x :: l' => argmaxR_from 0 x 1 l' end.

Definition greedy_or {A} (greedy : bool) (a b : A) : A := if greedy then a else b.

(** The device branch; the CPU branch calls [torch.multinomial].  A greedy request's row is
    multiplied by zero and gets one at its argmax ([scatter_add_]). *)
Definition sample_latentspec_draft_tokens (draft_logits : list (list (list R)))
    (num_proposals vocab_size : nat) (temperatures : list R) (greedy_mask : list bool)
    (is_any_greedy : bool) (uniforms : list R) : result (list (list nat) * list (list (list R))) :=
  let bs := length draft_logits in
  _ ← py_check ValueError (length temperatures =? bs);
  _ ← py_check ValueError (length greedy_mask =? bs);
  let sample_probs :=
    zip_with (λ (rows : list (list R)) t, (λ row : list R, softmaxR ((λ l, l / t)%R <$> row)) <$> rows)
      draft_logits temperatures in
  let flat_probs := concat sample_probs in
  let sampled_tokens :=
    view_2d bs num_proposals (_sample_latentspec_categorical_cuda flat_probs vocab_size uniforms) in
  if negb is_any_greedy then Ok (sampled_tokens, sample_probs) else
  let argmax_tokens := (λ rows : list (list R), argmaxR <$> rows) <$> draft_logits in
  let tokens :=
    zip_with (λ (g : bool) '(a, s), greedy_or g a s) greedy_mask (zip argmax_tokens sampled_tokens) in
  let masked :=
    zip_with (λ (g : bool) (rows : list (list R)),
                (λ row : list R, (λ x, x * (if negb g then 1 else 0))%R <$> row) <$> rows)
      greedy_mask sample_probs in
  let scattered :=
    zip_with (λ (g : bool) '(rows, args),
                zip_with (λ (row : list R) (a : nat), alter (λ x, x + (if g then 1 else 0))%R a row)
                  rows args)
      greedy_mask (zip masked argmax_tokens) in
  Ok (tokens, scattered).

(** ** Lanes of a block *)

(** [BLOCK] elements from [s]: the lanes of a masked load that are in range. *)
Definition tile {A} (B : nat) (l : list A) (b : nat) : list A := take B (drop (b * B) l).

Lemma load_lanes {A} (l : list A) lim s L d :
  length l = lim →
  (λ o, tl_load l o (o <? lim) d) <$> seq s L =
  take L (drop s l) ++ replicate (L - length (take L (drop s l))) d.
Proof.
  intros <-.
  revert s. induction L as [|L IH]; intros s; [done|]. cbn [seq fmap list_fmap]. rewrite IH. unfold tl_load.
  destruct (l !! s) as [x|] eqn:E.
  - rewrite (proj2 (Nat.ltb_lt s _)) by (by eapply lookup_lt_Some).
    rewrite (drop_S l x s E). cbn. done.
  - apply lookup_ge_None in E. rewrite (proj2 (Nat.ltb_ge s _)) by done.
    rewrite !drop_ge by lia. rewrite !take_nil. cbn. by rewrite Nat.sub_0_r.
Qed.

Lemma load_tile {A} (l : list A) lim B b d :
  length l = lim →
  (λ o, tl_load l o (o <? lim) d) <$> tl_lanes B b = tile B l b ++ replicate (B - length (tile B l b)) d.
Proof. apply load_lanes. Qed.

Lemma length_tile_lanes {A} (l : list A) s L :
  length (take L (drop s l)) = Nat.min L (length l - s).
Proof. by rewrite length_take, length_drop. Qed.

Lemma mask_lanes {A B} (g : A → B) (a : list A) lim s L d z :
  length a = Nat.min L (lim - s) →
  zip_with (λ o v, if o <? lim then g v else z) (seq s L) (a ++ replicate (L - length a) d) =
  (g <$> a) ++ replicate (L - length a) z.
Proof.
  revert s L. induction a as [|x a IH]; intros s L Ha; cbn in Ha |- *.
  - rewrite Nat.sub_0_r. revert s Ha. induction L as [|L IHL]; intros s Ha; [done|]. cbn.
    rewrite (proj2 (Nat.ltb_ge s _)) by lia. f_equal. apply IHL. lia.
  - destruct L as [|L]; [cbn in Ha; lia|]. cbn. rewrite (proj2 (Nat.ltb_lt s _)) by lia.
    f_equal. apply IH. lia.
Qed.

Lemma count_lanes acc (w : list R) t lim s L :
  length w = Nat.min L (lim - s) →
  tl_count (zip_with (λ c o, Rle_b c t && (o <? lim))
    (tl_cumsum acc (w ++ replicate (L - length w) 0%R)) (seq s L)) =
  tl_count ((λ c, Rle_b c t) <$> tl_cumsum acc w).
Proof.
  revert acc s L. induction w as [|x w IH]; intros acc s L Hw; cbn in Hw |- *.
  - rewrite Nat.sub_0_r. revert acc s Hw. induction L as [|L IHL]; intros acc s Hw; [done|]. cbn.
    rewrite (proj2 (Nat.ltb_ge s _)) by lia. rewrite andb_false_r. apply IHL. lia.
  - destruct L as [|L]; [cbn in Hw; lia|]. cbn. rewrite (proj2 (Nat.ltb_lt s _)) by lia.
    rewrite andb_true_r. f_equal. apply IH. lia.
Qed.

Lemma masked_prefix (w : list R) k s :
  Rsum (zip_with (λ b v, if b <? k then v else 0%R) (seq s (length w)) w) = cdf w (k - s).
Proof.
  revert s. induction w as [|x w IH]; intros s; cbn; [by unfold cdf; rewrite take_nil|].
  rewrite Rsum_cons, IH. destruct (decide (s < k)).
  - rewrite (proj2 (Nat.ltb_lt s k)) by done. replace (k - s) with (S (k - S s)) by lia. by rewrite cdf_cons.
  - rewrite (proj2 (Nat.ltb_ge s k)) by lia.
    replace (k - s) with 0 by lia. replace (k - S s) with 0 by lia. rewrite !cdf_0. lra.
Qed.

Lemma masked_pick (l : list (option R)) k s v :
  s ≤ k → l !! (k - s) = Some (Some v) →
  foldr xadd (Some 0%R) (zip_with (λ b m, if b =? k then m else Some 0%R) (seq s (length l)) l) = Some v.
Proof.
  revert s. assert (Z : ∀ (l : list (option R)) s, k < s →
    foldr xadd (Some 0%R) (zip_with (λ b m, if b =? k then m else Some 0%R) (seq s (length l)) l) = Some 0%R).
  { induction l0 as [|x l0 IH]; intros s Hs; [done|]. cbn [length seq zip_with foldr].
    rewrite IH by lia. rewrite (proj2 (Nat.eqb_neq s k)) by lia. cbn. f_equal. lra. }
  induction l as [|x l IH]; intros s Hs Hl; [done|]. cbn [length seq zip_with foldr].
  destruct (decide (s = k)) as [->|].
  - rewrite Nat.sub_diag in Hl. injection Hl as ->. rewrite Nat.eqb_refl, Z by lia. cbn. f_equal. lra.
  - rewrite (proj2 (Nat.eqb_neq s k)) by lia. rewrite IH; [cbn; f_equal; lra|lia|].
    by replace (k - s) with (S (k - S s)) in Hl by lia.
Qed.

Lemma tl_max_lanes (l : list R) n : l ≠ [] → ∃ m, tl_max ((Some <$> l) ++ replicate n None) = Some m.
Proof.
  intros Hl. destruct l as [|x l]; [done|]. cbn.
  destruct (foldr xmax None ((Some <$> l) ++ replicate n None)); cbn; eauto.
Qed.

(** ** Two-level partial sums *)

Section tiles.
Context (B : nat) (HB : 0 < B).

Lemma cdiv_bounds V : V ≤ cdiv V B * B ∧ (0 < V → (cdiv V B - 1) * B < V ∧ 0 < cdiv V B).
Proof.
  unfold cdiv. pose proof (Nat.div_mod (V + B - 1) B ltac:(lia)).
  pose proof (Nat.mod_upper_bound (V + B - 1) B ltac:(lia)).
  set (q := (V + B - 1) / B) in *. split; [nia|]. intros HV. assert (0 < q) by nia. split; nia.
Qed.

Lemma tile_length {A} (l : list A) b : length (tile B l b) = Nat.min B (length l - b * B).
Proof. apply length_tile_lanes. Qed.

Lemma tile_nonempty {A} (l : list A) b : b < cdiv (length l) B → tile B l b ≠ [].
Proof.
  intros Hb Hn. apply (f_equal length) in Hn. rewrite tile_length in Hn. cbn in Hn.
  destruct (cdiv_bounds (length l)) as [_ Hd]. destruct (decide (length l = 0)) as [E|].
  - rewrite E in Hb. unfold cdiv in Hb. rewrite Nat.div_small in Hb by lia. lia.
  - destruct Hd; [lia|]. nia.
Qed.

Definition tile_sums (w : list R) (N : nat) : list R := (λ b, Rsum (tile B w b)) <$> seq 0 N.

Lemma tile_sums_cdf w N j : j ≤ N → cdf (tile_sums w N) j = Rsum (take (j * B) w).
Proof.
  induction j as [|j IH]; intros Hj; [done|]. rewrite cdf_S, IH by lia.
  unfold tile_sums. rewrite wt_seq by lia. unfold tile. rewrite <- Rsum_app. f_equal. cbn [Nat.add].
  rewrite <- (take_drop (j * B) (take (S j * B) w)). rewrite take_take, skipn_firstn_comm. f_equal; f_equal; lia.
Qed.

Lemma tile_sums_total w : Rsum (tile_sums w (cdiv (length w) B)) = Rsum w.
Proof.
  rewrite <- (cdf_full _ (cdiv (length w) B)) by (unfold tile_sums; by rewrite length_fmap, length_seq).
  rewrite tile_sums_cdf by done. rewrite take_ge; [done|]. apply cdiv_bounds.
Qed.

Lemma tile_sums_nonneg w N : Forall (λ x, 0 <= x)%R w → Forall (λ x, 0 <= x)%R (tile_sums w N).
Proof.
  intros H. apply Forall_fmap, Forall_forall. intros b _. cbn. apply Rsum_nonneg.
  apply Forall_take, Forall_drop, H.
Qed.

Lemma two_level w N t j k :
  draws (tile_sums w N) t j → draws (tile B w j) (t - cdf (tile_sums w N) j) k → draws w t (j * B + k).
Proof.
  intros Hj Hk. destruct (draws_lt _ _ _ Hj) as [Hlj _]. destruct (draws_lt _ _ _ Hk) as [Hlk _].
  unfold tile_sums in Hlj. rewrite length_fmap, length_seq in Hlj. rewrite tile_length in Hlk.
  assert (E : ∀ i, i ≤ B → cdf w (j * B + i) = (cdf (tile_sums w N) j + cdf (tile B w j) i)%R).
  { intros i Hi. rewrite tile_sums_cdf by lia. unfold cdf, tile. rewrite take_take, Nat.min_l by lia.
    rewrite <- Rsum_app. f_equal. rewrite <- (take_drop (j * B) (take (j * B + i) w)).
    rewrite take_take, skipn_firstn_comm. f_equal; f_equal; lia. }
  unfold draws in *. rewrite <- Nat.add_succ_r, !E by lia. lra.
Qed.
End tiles.

(** ** Both kernels are the inverse CDF *)

Section select.
Context (B : nat) (HB : 0 < B).

(** The selection shared by both kernels, on the valid lanes of the blocks and of the tile. *)
Lemma select_ok (w : list R) t N L j :
  Forall (λ x, 0 <= x)%R w → (0 <= t < Rsum w)%R → N = cdiv (length w) B → N ≤ L →
  j = Nat.min (tl_count (zip_with (λ c b, Rle_b c t && (b <? N))
        (tl_cumsum 0 (tile_sums B w N ++ replicate (L - N) 0%R)) (seq 0 L))) (N - 1) →
  draws (tile_sums B w N) t j ∧ j < N ∧
  (0 <= t - cdf (tile_sums B w N) j < Rsum (tile B w j))%R ∧
  Rsum (zip_with (λ b v, if b <? j then v else 0%R) (seq 0 L) (tile_sums B w N ++ replicate (L - N) 0%R))
    = cdf (tile_sums B w N) j.
Proof.
  intros Hw Ht HN HL Hj.
  assert (Hl : length (tile_sums B w N) = N) by (unfold tile_sums; by rewrite length_fmap, length_seq).
  rewrite <- Hl in Hj at 2. rewrite count_lanes in Hj by (rewrite Hl; lia).
  pose proof (tile_sums_nonneg B w N Hw) as Hn.
  pose proof (count_draws 0 (tile_sums B w N) t Hn) as D.
  rewrite HN in D at 1. rewrite (tile_sums_total B HB) in D. specialize (D ltac:(lra)).
  rewrite Rminus_0_r in D. destruct (draws_lt _ _ _ D) as [Hlt _].
  rewrite Hl in Hlt. rewrite Nat.min_l in Hj by lia. rewrite <- Hj in *. split_and!; [done|done|..].
  - unfold draws in D. rewrite cdf_S in D. unfold tile_sums in D at 3. rewrite wt_seq in D by done. lra.
  - unfold draws in D. rewrite cdf_S in D. unfold tile_sums in D at 3. rewrite wt_seq in D by done. lra.
  - replace L with (length (tile_sums B w N ++ replicate (L - N) 0%R)) at 1
      by (rewrite length_app, Hl, length_replicate; lia).
    rewrite masked_prefix, Nat.sub_0_r. unfold cdf. rewrite take_app_le by lia. done.
Qed.

(** The selection within the tile; the clamp never bites. *)
Lemma select_local (v : list R) t V j k :
  Forall (λ x, 0 <= x)%R v → (0 <= t < Rsum v)%R → length v = Nat.min B (V - j * B) →
  k = Nat.min (tl_count (zip_with (λ c o, Rle_b c t && (o <? V))
        (tl_cumsum 0 (v ++ replicate (B - length v) 0%R)) (tl_lanes B j))) (V - 1 - j * B) →
  draws v t k.
Proof.
  intros Hv Ht Hl Hk. unfold tl_lanes in Hk. rewrite count_lanes in Hk by done.
  pose proof (count_draws 0 v t Hv ltac:(lra)) as D. rewrite Rminus_0_r in D.
  destruct (draws_lt _ _ _ D) as [Hlt _]. rewrite Nat.min_l in Hk by lia. by subst k.
Qed.

Lemma categorical_row_draws (w : list R) u :
  Forall (λ x, 0 <= x)%R w → (0 < Rsum w)%R → (0 <= u < 1)%R →
  draws w (u * Rsum w) (categorical_row B (length w) w u).
Proof.
  intros Hw Hs Hu. unfold categorical_row.
  assert (Hb : _latentspec_categorical_block_sums_kernel B w (length w) <$> seq 0 (cdiv (length w) B)
    = tile_sums B w (cdiv (length w) B)).
  { apply list_fmap_ext. intros _ b _. unfold _latentspec_categorical_block_sums_kernel.
    rewrite load_tile, Rsum_app, Rsum_zeros_replicate by done. lra. }
  rewrite Hb. unfold _latentspec_categorical_select_kernel. set (N := cdiv (length w) B).
  pose proof (next_power_of_2_ge N) as HL. set (L := next_power_of_2 N) in *.
  assert (Hlt : length (tile_sums B w N) = N) by (unfold tile_sums; by rewrite length_fmap, length_seq).
  assert (Hload : (λ b, tl_load (tile_sums B w N) b (b <? N) 0%R) <$> seq 0 L
    = tile_sums B w N ++ replicate (L - N) 0%R).
  { rewrite load_lanes, drop_0, take_ge, Hlt by (rewrite ?Hlt; lia). done. }
  cbv zeta. rewrite Hload. rewrite load_tile by done.
  assert (Ht : Rsum (tile_sums B w N ++ replicate (L - N) 0%R) = Rsum w).
  { rewrite Rsum_app, Rsum_zeros_replicate. unfold N. rewrite tile_sums_total by done. lra. }
  rewrite Ht. edestruct (select_ok w (u * Rsum w) N L _ Hw ltac:(nra) eq_refl HL eq_refl) as (D & HjN & Hr & Hp).
  rewrite Hp. apply two_level with N; [done..|]. eapply select_local; [| |apply length_tile_lanes|reflexivity].
  - apply Forall_take, Forall_drop, Hw.
  - exact Hr.
Qed.

(** *** Logits *)

Context (row : list R) (T : R) (Hrow : row ≠ []).
#[local] Notation V := (length row).
#[local] Notation scaled := ((λ a, a / T)%R <$> row).
#[local] Notation N := (cdiv V B).
#[local] Notation maxima_of b := (default 0%R (tl_max (Some <$> tile B scaled b))).
#[local] Notation expsum g l := (Rsum ((λ x, exp (x - g)) <$> l)).

Lemma row_pos : 0 < V.
Proof using Hrow. clear B HB. apply Nat.neq_0_lt_0. by intros E%nil_length_inv. Qed.
Lemma scaled_nonempty : scaled ≠ [].
Proof using Hrow. clear B HB. intros E%(f_equal length). rewrite length_fmap in E. pose proof row_pos. cbn in E. lia. Qed.

Lemma values_lanes b :
  (λ o, xdiv (tl_load (Some <$> row) o (o <? V) None) T) <$> tl_lanes B b =
  (Some <$> tile B scaled b) ++ replicate (B - length (tile B scaled b)) None.
Proof.
  trans ((λ x, xdiv x T) <$> ((λ o, tl_load (Some <$> row) o (o <? V) None) <$> tl_lanes B b));
    [by rewrite <- list_fmap_compose|].
  rewrite load_tile by (by rewrite length_fmap). rewrite fmap_app, fmap_replicate. f_equal.
  - unfold tile. rewrite <- fmap_drop, <- fmap_take, <- fmap_drop, <- fmap_take, <- !list_fmap_compose. done.
  - unfold tile. by rewrite !length_take, !length_drop, !length_fmap.
Qed.

Lemma tl_max_nones l n : tl_max (l ++ replicate n None) = tl_max l.
Proof.
  induction l as [|x l IH]; cbn; [by induction n|]. unfold tl_max in *. by rewrite IH.
Qed.

Lemma maxima_some b : b < N → tl_max (Some <$> tile B scaled b) = Some (maxima_of b).
Proof.
  intros Hb. destruct (tl_max_lanes (tile B scaled b) 0) as [m Hm].
  - apply tile_nonempty; [done|]. by rewrite length_fmap.
  - cbn in Hm. rewrite app_nil_r in Hm. by rewrite Hm.
Qed.

(** The exponentials of a tile's lanes against a finite maximum. *)
Lemma exp_lanes b m :
  zip_with (λ o v, if o <? V then tl_exp (xsub v (Some m)) else 0%R) (tl_lanes B b)
    ((Some <$> tile B scaled b) ++ replicate (B - length (tile B scaled b)) None) =
  ((λ x, exp (x - m)) <$> tile B scaled b) ++ replicate (B - length (tile B scaled b)) 0%R.
Proof.
  unfold tl_lanes. pose proof (mask_lanes (λ v, tl_exp (xsub v (Some m))) (Some <$> tile B scaled b)
    V (b * B) B None 0%R) as M. rewrite length_fmap in M. rewrite M.
  - by rewrite <- list_fmap_compose.
  - by rewrite tile_length, length_fmap.
Qed.

Lemma block_stats b : b < N →
  _latentspec_logit_block_stats_kernel B row T V b
    = (Some (maxima_of b), expsum (maxima_of b) (tile B scaled b)).
Proof.
  intros Hb. unfold _latentspec_logit_block_stats_kernel. rewrite values_lanes. cbv zeta.
  rewrite tl_max_nones, maxima_some by done. f_equal.
  by rewrite exp_lanes, Rsum_app, Rsum_zeros_replicate, Rplus_0_r.
Qed.

Lemma expsum_shift g m l : (expsum m l * exp (m - g))%R = expsum g l.
Proof.
  rewrite Rmult_comm, <- Rsum_scale. apply Rsum_ext, Forall_forall. intros x _.
  rewrite <- exp_plus. f_equal. lra.
Qed.

Lemma exp_weights_pos g l : Forall (λ x, 0 < x)%R ((λ x, exp (x - g)) <$> l).
Proof. apply Forall_fmap, Forall_forall. intros x _. apply exp_pos. Qed.
Lemma exp_weights_nonneg g l : Forall (λ x, 0 <= x)%R ((λ x, exp (x - g)) <$> l).
Proof. eapply Forall_impl; [apply exp_weights_pos|]. cbn. intros; lra. Qed.

Lemma tile_fmap {X Y} (f : X → Y) l b : tile B (f <$> l) b = f <$> tile B l b.
Proof. unfold tile. by rewrite <- fmap_drop, <- fmap_take. Qed.

(** Softmax does not depend on the maximum subtracted from the logits. *)
Lemma softmax_shift g l u k :
  l ≠ [] → draws ((λ x, exp (x - g)) <$> l) (u * expsum g l) k → draws (softmaxR l) u k.
Proof.
  intros Hl D. rewrite <- draws_scale in D by (apply Rsum_pos; [by destruct l|apply exp_weights_pos]).
  assert (E : softmaxR l = (λ x, x / expsum g l)%R <$> ((λ x, exp (x - g)) <$> l)); [|by rewrite E].
  unfold softmaxR. rewrite <- !list_fmap_compose. apply list_fmap_ext. intros _ x _. cbn.
  rewrite <- (expsum_shift g 0 l).
  assert (Hp : (0 < Rsum ((λ x, exp (x - 0)) <$> l))%R).
  { apply Rsum_pos; [by destruct l|apply exp_weights_pos]. }
  rewrite (Rsum_ext exp (λ x, exp (x - 0))) by (apply Forall_forall; intros; f_equal; lra).
  replace (x - g)%R with (x + (0 - g))%R by lra. rewrite exp_plus.
  pose proof (exp_pos (0 - g)). field. split; lra.
Qed.

#[local] Notation Ms := ((λ b, maxima_of b) <$> seq 0 N).
#[local] Notation Ss := ((λ b, expsum (maxima_of b) (tile B scaled b)) <$> seq 0 N).

Lemma block_lanes {A} (l : list A) L d :
  length l = N → N ≤ L → (λ b, tl_load l b (b <? N) d) <$> seq 0 L = l ++ replicate (L - N) d.
Proof. intros Hl HL. by rewrite (load_lanes l N), drop_0, take_ge, Hl by (rewrite ?Hl; lia). Qed.

Lemma block_weights_eq g n :
  zip_with (λ s m, s * tl_exp (xsub m (Some g)))%R (Ss ++ replicate n 0%R)
    ((Some <$> Ms) ++ replicate n None)
  = tile_sums B ((λ x, exp (x - g)) <$> scaled) N ++ replicate n 0%R.
Proof.
  rewrite zip_with_app by (by rewrite !length_fmap). f_equal.
  - unfold tile_sums. generalize (seq 0 N) as bs. intros bs. induction bs as [|b bs IH]; [done|].
    cbn [fmap list_fmap zip_with]. rewrite IH. cbn [xsub tl_exp]. by rewrite expsum_shift, !tile_fmap.
  - induction n as [|n IH]; [done|]. cbn [replicate zip_with]. rewrite IH. cbn. f_equal. lra.
Qed.

Lemma global_max_some n : ∃ g, tl_max ((Some <$> Ms) ++ replicate n None) = Some g.
Proof.
  apply tl_max_lanes. destruct (cdiv_bounds B HB V) as [_ [_ HN]]; [apply row_pos|].
  intros E. apply (f_equal length) in E. rewrite length_fmap, length_seq in E. cbn in E. lia.
Qed.

Lemma stats_eq :
  let stats := _latentspec_logit_block_stats_kernel B row T V <$> seq 0 N in
  stats.*1 = Some <$> Ms ∧ stats.*2 = Ss.
Proof.
  cbv zeta.
  assert (HS : _latentspec_logit_block_stats_kernel B row T V <$> seq 0 N
    = (λ b, (Some (maxima_of b), expsum (maxima_of b) (tile B scaled b))) <$> seq 0 N).
  { apply list_fmap_ext. intros i b Hb. apply lookup_seq in Hb as [-> Hb]. by apply block_stats. }
  rewrite HS. by rewrite <- !list_fmap_compose.
Qed.

Lemma logit_row_draws u :
  (0 <= u < 1)%R →
  draws (softmaxR scaled) u (logit_row B V row T u).1 ∧
  (logit_row B V row T u).2 = ln (Rsum (exp <$> scaled)).
Proof.
  intros Hu. unfold logit_row.
  destruct stats_eq as [HS1 HS2]. rewrite HS1, HS2. clear HS1 HS2.
  pose proof (next_power_of_2_ge N) as HL. set (L := next_power_of_2 N) in *.
  destruct (global_max_some (L - N)) as [g Hg]. unfold _latentspec_logit_select_kernel.
  rewrite !block_lanes by (rewrite ?length_fmap, ?length_seq; done). cbv zeta. rewrite Hg, block_weights_eq.
  set (w := (λ x, exp (x - g)) <$> scaled).
  assert (Hlen : length w = V) by (unfold w; by rewrite !length_fmap).
  pose proof scaled_nonempty as Hne.
  pose proof (exp_weights_nonneg g scaled) as Hw. fold w in Hw.
  assert (Hpos : (0 < Rsum w)%R) by (apply Rsum_pos; [unfold w; by destruct scaled|apply exp_weights_pos]).
  assert (Ht : Rsum (tile_sums B w N ++ replicate (L - N) 0%R) = Rsum w).
  { rewrite Rsum_app, Rsum_zeros_replicate, <- Hlen, tile_sums_total by done. lra. }
  rewrite Ht. set (t := (u * Rsum w)%R).
  edestruct (select_ok w t N L) as (D & HjN & Hr & Hp); [exact Hw|unfold t; nra|by rewrite Hlen|exact HL|reflexivity|].
  set (j := Nat.min _ (N - 1)) in *.
  assert (Hlook : ((Some <$> Ms) ++ replicate (L - N) None) !! (j - 0) = Some (Some (maxima_of j))).
  { rewrite lookup_app_l by (rewrite !length_fmap, length_seq; lia). rewrite Nat.sub_0_r.
    by rewrite !list_lookup_fmap, lookup_seq_lt by done. }
  pose proof (masked_pick _ j 0 _ ltac:(lia) Hlook) as Hm.
  rewrite length_app, !length_fmap, length_seq, length_replicate in Hm.
  replace (N + (L - N)) with L in Hm by lia. rewrite Hm. cbn [xsub tl_exp fst snd default].
  rewrite values_lanes, exp_lanes, Hp. split.
  - apply softmax_shift with g; [done|]. apply (two_level B HB w N t j); [exact D|].
    set (c := exp (maxima_of j - g)). assert (Hc : (0 < c)%R) by apply exp_pos.
    assert (Et : tile B w j = (λ x, x * c)%R <$> ((λ x, exp (x - maxima_of j)) <$> tile B scaled j)).
    { unfold w. rewrite (tile_fmap (λ x, exp (x - g))), <- list_fmap_compose. apply list_fmap_ext. intros _ x _. cbn.
      unfold c. rewrite <- exp_plus. f_equal. lra. }
    rewrite Et in Hr |- *. rewrite Rsum_mul_r in Hr. apply draws_scale_mul; [done|].
    eapply select_local; [apply exp_weights_nonneg| |by rewrite length_fmap, tile_length, length_fmap|].
    2: by rewrite length_fmap.
    split.
    + apply Rmult_le_pos; [lra|]. left. by apply Rinv_0_lt_compat.
    + apply (Rmult_lt_reg_r c); [done|]. unfold Rdiv. rewrite Rmult_assoc, Rinv_l by lra. lra.
  - replace (Rsum (exp <$> scaled)) with (exp g * Rsum w)%R.
    + rewrite ln_mult, ln_exp by (done || apply exp_pos). done.
    + unfold w. rewrite <- Rsum_scale. apply Rsum_ext, Forall_forall. intros x _.
      rewrite <- exp_plus. f_equal. lra.
Qed.
End select.

(** C13: Both two-level samplers are the inverse CDF of their row.  For every row, the block
    reduction followed by one selection returns the token whose interval of the row's partial sums
    holds the draw, with the clamps never biting; from logits it is the inverse CDF of the softmax at
    the request's temperature, and the stored normalizer is exactly the log-sum-exp of the row. *)
Theorem two_level_samplers_invert_cdf (B : nat) (HB : 0 < B) :
  (∀ (w : list R) (u : R), Forall (λ x, 0 <= x)%R w → (0 < Rsum w)%R → (0 <= u < 1)%R →
     categorical_row B (length w) w u = icdf w (u * Rsum w)) ∧
  (∀ (row : list R) (T u : R), row ≠ [] → (0 <= u < 1)%R →
     logit_row B (length row) row T u
     = (icdf (softmaxR ((λ a, a / T)%R <$> row)) u, ln (Rsum (exp <$> ((λ a, a / T)%R <$> row))))).
Proof.
  split.
  - intros w u Hw Hs Hu. apply (draws_inj w (u * Rsum w)); [done|by apply categorical_row_draws|].
    apply icdf_spec; [done|]. split; [apply Rmult_le_pos; lra|].
    rewrite <- (Rmult_1_l (Rsum w)) at 2. apply Rmult_lt_compat_r; lra.
  - intros row T u Hr Hu. destruct (logit_row_draws B HB row T Hr u Hu) as [D E].
    destruct (logit_row B (length row) row T u) as [tok norm]. cbn [fst snd] in *. rewrite E. f_equal.
    set (l := (λ a, a / T)%R <$> row) in *. assert (Hl : l ≠ []) by (intros ?%(f_equal length);
      unfold l in *; rewrite length_fmap in *; by destruct row).
    apply (draws_inj (softmaxR l) u); [by apply softmaxR_nonneg|done|].
    apply icdf_spec; [by apply softmaxR_nonneg|]. by rewrite softmaxR_sum.
Qed.

Lemma two_level_samplers_invert_cdf_witness :
  categorical_row 2 3 [1; 2; 3]%R (1 / 2) = icdf [1; 2; 3]%R (1 / 2 * Rsum [1; 2; 3]%R) ∧
  logit_row 2 3 [1; 2; 3]%R 2 (1 / 2)
  = (icdf (softmaxR ((λ a, a / 2)%R <$> [1; 2; 3]%R)) (1 / 2),
     ln (Rsum (exp <$> ((λ a, a / 2)%R <$> [1; 2; 3]%R)))).
Proof.
  destruct (two_level_samplers_invert_cdf 2 ltac:(lia)) as [H1 H2]. split.
  - apply (H1 [1; 2; 3]%R (1 / 2)%R); [repeat (constructor; try lra)| |lra].
    rewrite !Rsum_cons, Rsum_nil. lra.
  - apply (H2 [1; 2; 3]%R 2%R (1 / 2)%R); [done|lra].
Defined.
