(* ===== verification/RejectKernel.v ===== *)
(** * RejectKernel: chain rejection sampling on the device

    Models [kernels/ops/speculative/reject_sampling.py]: the verification loop,
    the two-pass residual sampling and the two kernels built from them
    ([speculative_sampling_classic_kernel] reads probabilities,
    [speculative_sampling_from_logits_kernel] rebuilds them from logits and log
    normalizers), with their launches over a batch, which share the flat
    [predicts] buffer.  Floats are real numbers, so the kernels' test for a NaN
    draft probability has no counterpart. *)

From S2P Require Import Prelude TensorOps RealLaw LatentSampler.
From Stdlib Require Import Reals Lra FunctionalExtensionality.
#[local] Open Scope nat_scope.
#[local] Arguments Nat.ltb : simpl never.

(** ** The kernels *)

Record verify_state := {
  Predicts : list nat;
  AcceptIndex : list nat;
  num_accept : nat;
  cur_prob_row : nat;
  last_accepted_global_idx : nat;
  step : nat;
  continue_verifying : bool
}.

Section kernel.
Context (NUM_SLOTS VOCAB_SIZE BLOCK_V : nat).

(** [p row tok] and [q row tok] are the target's and the draft's probabilities. *)
Section loop.
Context (p q : nat → nat → R) (Candidates RetriveIndex : list nat) (UniformSamples : list R).

Definition verify_body (s : verify_state) : verify_state :=
  let draft_token := default 0 (Candidates !! step s) in
  let coin := wt UniformSamples (step s - 1) in
  if Rlt_b (coin * q (cur_prob_row s) draft_token) (p (cur_prob_row s) draft_token) then
    let curr_global_idx := default 0 (RetriveIndex !! step s) in
    {| Predicts := <[last_accepted_global_idx s := draft_token]> (Predicts s);
       AcceptIndex := <[S (num_accept s) := curr_global_idx]> (AcceptIndex s);
       num_accept := S (num_accept s);
       cur_prob_row := step s;
       last_accepted_global_idx := curr_global_idx;
       step := S (step s);
       continue_verifying := true |}
  else
    {| Predicts := Predicts s; AcceptIndex := AcceptIndex s; num_accept := num_accept s;
       cur_prob_row := cur_prob_row s; last_accepted_global_idx := last_accepted_global_idx s;
       step := step s; continue_verifying := false |}.

(** [while (step < NUM_SLOTS) and (continue_verifying == 1)]; [None] when the fuel runs out. *)
Fixpoint verify_loop (fuel : nat) (s : verify_state) : option verify_state :=
  match fuel with
  | 0 => None
  | S fuel =>
      if (step s <? NUM_SLOTS) && continue_verifying s then verify_loop fuel (verify_body s) else Some s
  end.

Definition verify_init (predicts accept_index : list nat) : verify_state :=
  let root_global_idx := default 0 (RetriveIndex !! 0) in
  {| Predicts := predicts; AcceptIndex := <[0 := root_global_idx]> accept_index;
     num_accept := 0; cur_prob_row := 0; last_accepted_global_idx := root_global_idx;
     step := 1; continue_verifying := true |}.
End loop.

(** The lanes of the block at [v_start] of a function of the token, zero past the vocabulary. *)
Definition block_values (values : nat → R) (b : nat) : list R :=
  (λ o, if o <? VOCAB_SIZE then values o else 0%R) <$> tl_lanes BLOCK_V b.

Definition sum_pass (values : nat → R) : R :=
  foldl (λ norm_sum b, norm_sum + Rsum (block_values values b))%R 0%R (seq 0 (cdiv VOCAB_SIZE BLOCK_V)).

Definition cdf_pass (values : nat → R) (target_u : R) : nat :=
  let '(_, final_token, _) :=
    foldl (λ '(cum_sum, final_token, found) b,
      if (found : bool) then (cum_sum, final_token, found) else
      let vals := block_values values b in
      let total_cumsum := (λ c, cum_sum + c)%R <$> tl_cumsum 0 vals in
      let candidates_mask := (λ c, Rlt_b target_u c) <$> total_cumsum in
      let cum_sum' := (cum_sum + Rsum vals)%R in
      match find_index (λ c : bool, c) candidates_mask with
      | Some match_idx => (cum_sum', b * BLOCK_V + match_idx, true)
      | None => (cum_sum', final_token, false)
      end)
    (0%R, VOCAB_SIZE - 1, false) (seq 0 (cdiv VOCAB_SIZE BLOCK_V)) in
  final_token.

Definition final_sample (values : nat → R) (coin_final : R) : nat :=
  cdf_pass values (coin_final * sum_pass values).

Definition at2 (m : list (list R)) (i j : nat) : R := wt (default [] (m !! i)) j.

(** Both kernels return the stored predictions, the row of [accept_index] and [accept_token_num]. *)
Definition speculative_sampling_classic_kernel (predicts accept_index Candidates RetriveIndex : list nat)
    (UniformSamples : list R) (UniformSamplesFinal : R) (TargetProbs DraftProbs : list (list R))
  : option (list nat * list nat * nat) :=
  s ← verify_loop (at2 TargetProbs) (at2 DraftProbs) Candidates RetriveIndex UniformSamples (S NUM_SLOTS)
        (verify_init RetriveIndex predicts accept_index);
  let values v :=
    let p_val := at2 TargetProbs (cur_prob_row s) v in
    if continue_verifying s then p_val
    else let diff := (p_val - at2 DraftProbs (cur_prob_row s) v)%R in if Rlt_b 0 diff then diff else 0%R in
  let final_token := final_sample values UniformSamplesFinal in
  Some (<[last_accepted_global_idx s := final_token]> (Predicts s), AcceptIndex s, num_accept s).

Definition prob_of (logits : list (list R)) (log_norm : list R) (temperature : R) (row v : nat) : R :=
  exp (at2 logits row v / temperature - wt log_norm row).

Definition speculative_sampling_from_logits_kernel (predicts accept_index Candidates RetriveIndex : list nat)
    (UniformSamples : list R) (UniformSamplesFinal : R) (TargetLogits DraftLogits : list (list R))
    (TargetLogNorm DraftLogNorm : list R) (temperature : R) : option (list nat * list nat * nat) :=
  s ← verify_loop (prob_of TargetLogits TargetLogNorm temperature)
        (prob_of DraftLogits DraftLogNorm temperature) Candidates RetriveIndex UniformSamples (S NUM_SLOTS)
        (verify_init RetriveIndex predicts accept_index);
  let safe_draft_row := Nat.min (cur_prob_row s) (NUM_SLOTS - 2) in
  let values v :=
    let p := prob_of TargetLogits TargetLogNorm temperature (cur_prob_row s) v in
    if continue_verifying s then p
    else Rmax (p - prob_of DraftLogits DraftLogNorm temperature safe_draft_row v) 0 in
  let final_token := final_sample values UniformSamplesFinal in
  Some (<[last_accepted_global_idx s := final_token]> (Predicts s), AcceptIndex s, num_accept s).
End kernel.

(** A launch over the batch: program [pid] owns row [pid] of every tensor but [predicts]. *)
Definition launch_chain (kernel : nat → list nat → list nat → option (list nat * list nat * nat))
    (bs : nat) (predicts : list nat) (accept_index : list (list nat)) (accept_token_num : list nat)
  : option (list nat * list (list nat) * list nat) :=
  foldl (λ acc pid,
      '(predicts, accept_index, accept_token_num) ← acc;
      '(predicts', row, n) ← kernel pid predicts (default [] (accept_index !! pid));
      Some (predicts', <[pid := row]> accept_index, <[pid := n]> accept_token_num))
    (Some (predicts, accept_index, accept_token_num)) (seq 0 bs).

Definition row2 {A} (m : list (list A)) (i : nat) : list A := default [] (m !! i).

Definition chain_speculative_sampling_triton (predicts : list nat) (accept_index : list (list nat))
    (accept_token_num : list nat) (candidates retrive_index : list (list nat))
    (uniform_samples : list (list R)) (uniform_samples_for_final_sampling : list R)
    (target_probs draft_probs : list (list (list R))) (num_slots vocab_size : nat)
  : option (list nat * list (list nat) * list nat) :=
  launch_chain (λ pid predicts row,
      speculative_sampling_classic_kernel num_slots vocab_size VOCAB_BLOCK predicts row
        (row2 candidates pid) (row2 retrive_index pid) (row2 uniform_samples pid)
        (wt uniform_samples_for_final_sampling pid) (row2 target_probs pid) (row2 draft_probs pid))
    (length candidates) predicts accept_index accept_token_num.

Definition chain_speculative_sampling_from_logits_triton (predicts : list nat)
    (accept_index : list (list nat)) (accept_token_num : list nat)
    (candidates retrive_index : list (list nat)) (uniform_samples : list (list R))
    (uniform_samples_for_final_sampling : list R) (target_logits draft_logits : list (list (list R)))
    (target_log_norm draft_log_norm : list (list R)) (temperatures : list R) (num_slots vocab_size : nat)
  : option (list nat * list (list nat) * list nat) :=
  launch_chain (λ pid predicts row,
      speculative_sampling_from_logits_kernel num_slots vocab_size VOCAB_BLOCK predicts row
        (row2 candidates pid) (row2 retrive_index pid) (row2 uniform_samples pid)
        (wt uniform_samples_for_final_sampling pid) (row2 target_logits pid) (row2 draft_logits pid)
        (row2 target_log_norm pid) (row2 draft_log_norm pid) (wt temperatures pid))
    (length candidates) predicts accept_index accept_token_num.

(** ** The two passes are the inverse CDF *)

Section passes.
Context (V B : nat) (HB : 0 < B) (values : nat → R).
#[local] Notation w := (values <$> seq 0 V).
#[local] Notation N := (cdiv V B).

Lemma block_values_tile b :
  block_values V B values b = tile B w b ++ replicate (B - length (tile B w b)) 0%R.
Proof.
  rewrite <- (load_tile w V) by (by rewrite length_fmap, length_seq).
  apply list_fmap_ext. intros _ o _. unfold tl_load. destruct (o <? V) eqn:E; [|done].
  apply Nat.ltb_lt in E. by rewrite list_lookup_fmap, lookup_seq_lt.
Qed.

Lemma block_values_sum b : Rsum (block_values V B values b) = Rsum (tile B w b).
Proof. by rewrite block_values_tile, Rsum_app, Rsum_zeros_replicate, Rplus_0_r. Qed.

Lemma sum_pass_ok : sum_pass V B values = Rsum w.
Proof.
  pose proof (tile_sums_total B HB w) as T. rewrite length_fmap, length_seq in T. rewrite <- T.
  unfold sum_pass, tile_sums. rewrite <- (Rplus_0_l (Rsum _)). generalize 0%R as acc.
  induction (seq 0 N) as [|b bs IH]; intros acc; cbn [foldl fmap list_fmap].
  - rewrite Rsum_nil. lra.
  - rewrite IH, block_values_sum, Rsum_cons. lra.
Qed.

Lemma first_crossing acc (l : list R) t n :
  Forall (λ x, 0 <= x)%R l → (acc <= t)%R →
  match find_index (λ c : bool, c)
          ((λ c, Rlt_b t c) <$> ((λ c, acc + c)%R <$> tl_cumsum 0 (l ++ replicate n 0%R))) with
  | Some k => draws l (t - acc) k
  | None => (acc + Rsum l <= t)%R
  end.
Proof.
  intros Hl. rewrite <- list_fmap_compose.
  enough (G : ∀ c0 : R, (acc + c0 <= t)%R →
    match find_index (λ c : bool, c) (((λ c, Rlt_b t c) ∘ (λ c, acc + c)%R) <$> tl_cumsum c0 (l ++ replicate n 0%R)) with
    | Some k => draws l (t - acc - c0) k
    | None => (acc + c0 + Rsum l <= t)%R
    end).
  { intros Ha. specialize (G 0%R ltac:(lra)). rewrite Rplus_0_r, Rminus_0_r in G. exact G. }
  induction Hl as [|x l Hx Hl IH]; intros c0 Hc; cbn [app tl_cumsum fmap list_fmap find_index].
  - rewrite Rsum_nil. enough (find_index (λ c : bool, c)
      (((λ c, Rlt_b t c) ∘ (λ c, acc + c)%R) <$> tl_cumsum c0 (replicate n 0%R)) = None) as -> by lra.
    revert c0 Hc. induction n as [|n IH]; intros c0 Hc; [done|]. cbn.
    rewrite (proj2 (Rlt_b_false t _)) by lra. rewrite IH; [done|lra].
  - change (((λ c, Rlt_b t c) ∘ (λ c, acc + c)%R) (c0 + x)%R) with (Rlt_b t (acc + (c0 + x))).
    destruct (Rlt_b t (acc + (c0 + x))) eqn:E.
    + apply Rlt_b_true in E. unfold draws. rewrite cdf_cons, !cdf_0. lra.
    + apply Rlt_b_false in E. specialize (IH (c0 + x)%R ltac:(lra)).
      destruct (find_index _ _); cbn.
      * unfold draws in *. rewrite !cdf_cons. lra.
      * rewrite Rsum_cons. lra.
Qed.

Definition cdf_state : Type := R * nat * bool.

(** Before the crossing the running total is the CDF at the block's start; the crossing keeps the
    token that inverts the CDF. *)
Lemma cdf_pass_ok t :
  Forall (λ x, 0 <= x)%R w → (0 <= t)%R →
  if Rlt_b t (Rsum w) then draws w t (cdf_pass V B values t) else cdf_pass V B values t = V - 1.
Proof.
  intros Hw Ht. unfold cdf_pass.
  set (body := λ '(cum_sum, final_token, found) b, _).
  assert (G : ∀ k, k ≤ N → let '(c, y, f) := foldl body (0%R, V - 1, false) (seq 0 k) in
    if (f : bool) then draws w t y else y = V - 1 ∧ c = cdf (tile_sums B w N) k ∧ (c <= t)%R).
  { induction k as [|k IH]; intros Hk; [cbn; split_and!; [done|done|lra]|].
    rewrite seq_S, foldl_app. specialize (IH ltac:(lia)).
    destruct (foldl body _ (seq 0 k)) as [[c y] f]. cbn [foldl body Nat.add].
    destruct f; [done|]. destruct IH as (-> & -> & Hc). rewrite block_values_tile.
    assert (Ht' : Forall (λ x, 0 <= x)%R (tile B w k)) by (apply Forall_take, Forall_drop, Hw).
    assert (HS : cdf (tile_sums B w N) (S k) = (cdf (tile_sums B w N) k + Rsum (tile B w k))%R).
    { rewrite cdf_S. f_equal. unfold tile_sums. by rewrite wt_seq by lia. }
    pose proof (first_crossing (cdf (tile_sums B w N) k) (tile B w k) t (B - length (tile B w k))
      Ht' Hc) as F.
    destruct (find_index _ _) as [m|].
    - apply (two_level B HB w N t k m); [|exact F]. unfold draws in F |- *. rewrite HS.
      pose proof (cdf_le_total (tile B w k) (S m) Ht'). lra.
    - rewrite Rsum_app, Rsum_zeros_replicate, HS. split_and!; [done|lra|lra]. }
  specialize (G N ltac:(lia)). destruct (foldl _ _ _) as [[c y] f].
  pose proof (tile_sums_total B HB w) as T. rewrite length_fmap, length_seq in T. destruct f.
  - rewrite (proj2 (Rlt_b_true t _)); [done|]. unfold draws in G.
    pose proof (cdf_le_total w (S y) Hw). lra.
  - destruct G as (-> & -> & Hc). rewrite cdf_full, T in Hc by (unfold tile_sums; by rewrite length_fmap, length_seq).
    by rewrite (proj2 (Rlt_b_false t _)).
Qed.

Lemma final_sample_ok u :
  Forall (λ x, 0 <= x)%R w → (0 <= u < 1)%R → (0 < Rsum w)%R →
  draws ((λ x, x / Rsum w)%R <$> w) u (final_sample V B values u).
Proof.
  intros Hw Hu Hs. apply draws_scale; [done|]. unfold final_sample. rewrite sum_pass_ok.
  assert (Hlo : (0 <= u * Rsum w)%R) by (apply Rmult_le_pos; lra).
  assert (Hhi : (u * Rsum w < Rsum w)%R) by (rewrite <- (Rmult_1_l (Rsum w)) at 2; apply Rmult_lt_compat_r; lra).
  pose proof (cdf_pass_ok (u * Rsum w) Hw Hlo) as D.
  rewrite (proj2 (Rlt_b_true (u * Rsum w) (Rsum w))) in D by done. exact D.
Qed.
End passes.

(** ** The verification loop stops at the first rejection *)

(** [l] written into [P] from index [base]. *)
Definition overlay {A} (base : nat) (l P : list A) : list A := take base P ++ l ++ drop (base + length l) P.

Lemma overlay_insert {A} base (l P : list A) x :
  base + length l < length P → <[base + length l := x]> (overlay base l P) = overlay base (l ++ [x]) P.
Proof.
  intros Hl. unfold overlay. rewrite insert_app_r_alt by (rewrite length_take; lia).
  rewrite length_take, Nat.min_l by lia. replace (base + length l - base) with (length l) by lia.
  rewrite insert_app_r_alt by lia. rewrite Nat.sub_diag, length_app. cbn [length].
  destruct (lookup_lt_is_Some_2 P (base + length l) Hl) as [y Hy].
  rewrite (drop_S P y _ Hy). cbn. rewrite <- !app_assoc. cbn. do 4 f_equal. lia.
Qed.

Lemma length_overlay {A} base (l P : list A) :
  base + length l ≤ length P → length (overlay base l P) = length P.
Proof. intros. unfold overlay. rewrite !length_app, length_take, length_drop. lia. Qed.

Lemma overlay_lookup {A} base (l P : list A) i :
  base + length l ≤ length P →
  overlay base l P !! i = if decide (base ≤ i < base + length l) then l !! (i - base) else P !! i.
Proof.
  intros H. unfold overlay. case_decide.
  - rewrite lookup_app_r by (rewrite length_take; lia). rewrite length_take, Nat.min_l by lia.
    by rewrite lookup_app_l by lia.
  - destruct (decide (i < base)).
    + rewrite lookup_app_l by (rewrite length_take; lia). by rewrite lookup_take_lt.
    + rewrite lookup_app_r by (rewrite length_take; lia). rewrite length_take, Nat.min_l by lia.
      rewrite lookup_app_r by lia. rewrite lookup_drop. f_equal. lia.
Qed.

Section verify.
Context (NUM_SLOTS V B base : nat) (Candidates Predicts0 AcceptIndex0 : list nat) (coins : list R).
Context (p q : nat → nat → R).
Context (HS : 0 < NUM_SLOTS) (Hc : length Candidates = NUM_SLOTS)
  (HA : length AcceptIndex0 = NUM_SLOTS) (HP : base + NUM_SLOTS ≤ length Predicts0).
#[local] Notation Retrive := (seq base NUM_SLOTS).

Definition accept_flag (i : nat) : bool :=
  let x := default 0 (Candidates !! S i) in Rlt_b (wt coins i * q i x) (p i x).

Definition num_accepted : nat := leading accept_flag (seq 0 (NUM_SLOTS - 1)).

Definition verify_at (k : nat) (c : bool) : verify_state :=
  {| Predicts := overlay base (take k (drop 1 Candidates)) Predicts0;
     AcceptIndex := overlay 0 (seq base (S k)) AcceptIndex0;
     num_accept := k; cur_prob_row := k; last_accepted_global_idx := base + k; step := S k;
     continue_verifying := c |}.

Lemma drafts_length k : k < NUM_SLOTS → length (take k (drop 1 Candidates)) = k.
Proof. intros. rewrite length_take, length_drop. lia. Qed.

Lemma verify_init_at : verify_init Retrive Predicts0 AcceptIndex0 = verify_at 0 true.
Proof.
  unfold verify_init, verify_at. rewrite lookup_seq_lt by lia. cbn [default]. rewrite Nat.add_0_r.
  f_equal.
  - unfold overlay. rewrite take_0, Nat.add_0_r. symmetry. apply take_drop.
  - pose proof (overlay_insert 0 [] AcceptIndex0 base) as O. cbn in O. apply O. lia.
Qed.

Lemma verify_body_at k :
  S k < NUM_SLOTS →
  verify_body p q Candidates Retrive coins (verify_at k true)
  = if accept_flag k then verify_at (S k) true else verify_at k false.
Proof.
  intros Hk. unfold verify_body, accept_flag. cbn [verify_at step cur_prob_row num_accept
    last_accepted_global_idx Predicts AcceptIndex]. rewrite Nat.sub_succ, Nat.sub_0_r.
  destruct (Rlt_b _ _); [|done]. unfold verify_at. rewrite lookup_seq_lt by lia. cbn [default].
  destruct (lookup_lt_is_Some_2 Candidates (S k) ltac:(lia)) as [x Hx]. rewrite Hx. cbn [default]. f_equal.
  - rewrite <- (drafts_length k) at 1 by lia. rewrite overlay_insert by (rewrite drafts_length; lia).
    f_equal. symmetry. apply take_S_r. by rewrite lookup_drop.
  - pose proof (overlay_insert 0 (seq base (S k)) AcceptIndex0 (base + S k)) as O.
    rewrite length_seq in O. cbn [Nat.add] in O. etrans; [apply O; lia|]. by rewrite (seq_S (S k)).
Qed.

Lemma verify_loop_at fuel k r :
  k + r = NUM_SLOTS - 1 → r < fuel →
  verify_loop NUM_SLOTS p q Candidates Retrive coins fuel (verify_at k true)
  = Some (verify_at (k + leading accept_flag (seq k r)) (leading accept_flag (seq k r) =? r)).
Proof.
  revert k r. induction fuel as [|fuel IH]; intros k r Hr Hf; [lia|]. cbn [verify_loop].
  cbn [verify_at step continue_verifying]. rewrite andb_true_r. destruct r as [|r].
  - rewrite (proj2 (Nat.ltb_ge _ _)) by lia. cbn. by rewrite Nat.add_0_r.
  - rewrite (proj2 (Nat.ltb_lt _ _)) by lia. fold (verify_at k true). rewrite verify_body_at by lia.
    cbn [seq leading]. destruct (accept_flag k).
    + rewrite (IH (S k) r) by lia. f_equal. by rewrite Nat.add_succ_comm.
    + destruct fuel as [|fuel]; [lia|]. cbn [verify_loop]. cbn [verify_at continue_verifying].
      rewrite andb_false_r. by rewrite Nat.add_0_r.
Qed.

Lemma verify_loop_ok :
  verify_loop NUM_SLOTS p q Candidates Retrive coins (S NUM_SLOTS) (verify_init Retrive Predicts0 AcceptIndex0)
  = Some (verify_at num_accepted (num_accepted =? NUM_SLOTS - 1)).
Proof. rewrite verify_init_at. by rewrite (verify_loop_at _ 0 (NUM_SLOTS - 1)) by lia. Qed.

(** The weights of the last token: the target's after a full acceptance, else the residual. *)
Definition final_values (v : nat) : R :=
  if num_accepted =? NUM_SLOTS - 1 then p num_accepted v
  else Rmax (p num_accepted v - q num_accepted v) 0.

Definition final_token (coin_final : R) : nat := final_sample V B final_values coin_final.

Definition kernel_out (coin_final : R) : list nat * list nat * nat :=
  (overlay base (take num_accepted (drop 1 Candidates) ++ [final_token coin_final]) Predicts0,
   overlay 0 (seq base (S num_accepted)) AcceptIndex0, num_accepted).

Lemma num_accepted_lt : num_accepted < NUM_SLOTS.
Proof. pose proof (leading_le accept_flag (seq 0 (NUM_SLOTS - 1))). rewrite length_seq in *. unfold num_accepted. lia. Qed.

Lemma store_final c y :
  <[last_accepted_global_idx (verify_at num_accepted c) := y]> (Predicts (verify_at num_accepted c))
  = overlay base (take num_accepted (drop 1 Candidates) ++ [y]) Predicts0.
Proof.
  cbn [verify_at Predicts last_accepted_global_idx]. pose proof num_accepted_lt.
  rewrite <- (drafts_length num_accepted) at 1 by done. by rewrite overlay_insert by (rewrite drafts_length; lia).
Qed.
End verify.

(** Only the tokens of the vocabulary matter. *)
Lemma final_sample_ext V B f g u :
  (∀ v, v < V → f v = g v) → final_sample V B f u = final_sample V B g u.
Proof.
  intros E. assert (Eb : block_values V B f = block_values V B g).
  { apply functional_extensionality. intros b. apply list_fmap_ext. intros _ o _.
    destruct (o <? V) eqn:Eo; [|done]. by apply E, Nat.ltb_lt. }
  unfold final_sample, sum_pass, cdf_pass. by rewrite Eb.
Qed.

Lemma relu_Rmax x : (if Rlt_b 0 x then x else 0%R) = Rmax x 0.
Proof.
  destruct (Rlt_b 0 x) eqn:E.
  - apply Rlt_b_true in E. by rewrite Rmax_left by lra.
  - apply Rlt_b_false in E. by rewrite Rmax_right by lra.
Qed.

Section kernels_ok.
Context (NUM_SLOTS V B base : nat) (Candidates Predicts0 AcceptIndex0 : list nat) (coins : list R).
Context (HS : 0 < NUM_SLOTS) (Hc : length Candidates = NUM_SLOTS)
  (HA : length AcceptIndex0 = NUM_SLOTS) (HP : base + NUM_SLOTS ≤ length Predicts0).

Lemma classic_kernel_ok u tp dp :
  speculative_sampling_classic_kernel NUM_SLOTS V B Predicts0 AcceptIndex0 Candidates (seq base NUM_SLOTS)
    coins u tp dp
  = Some (kernel_out NUM_SLOTS V B base Candidates Predicts0 AcceptIndex0 coins (at2 tp) (at2 dp) u).
Proof.
  unfold speculative_sampling_classic_kernel. rewrite (verify_loop_ok NUM_SLOTS base) by done. cbn [mbind option_bind].
  rewrite store_final by done. unfold kernel_out, final_token. 
  erewrite final_sample_ext; [reflexivity|]. intros v _. unfold final_values. cbn [verify_at cur_prob_row continue_verifying].
  destruct (_ =? _); [done|]. apply relu_Rmax.
Qed.

Lemma from_logits_kernel_ok u tl dl tn dn temperature :
  speculative_sampling_from_logits_kernel NUM_SLOTS V B Predicts0 AcceptIndex0 Candidates (seq base NUM_SLOTS)
    coins u tl dl tn dn temperature
  = Some (kernel_out NUM_SLOTS V B base Candidates Predicts0 AcceptIndex0 coins
            (prob_of tl tn temperature) (prob_of dl dn temperature) u).
Proof.
  unfold speculative_sampling_from_logits_kernel. rewrite (verify_loop_ok NUM_SLOTS base) by done. cbn [mbind option_bind].
  rewrite store_final by done. unfold kernel_out, final_token. 
  erewrite final_sample_ext; [reflexivity|]. intros v _. unfold final_values. cbn [verify_at cur_prob_row continue_verifying].
  destruct (_ =? _) eqn:E; [done|]. apply Nat.eqb_neq in E. rewrite Nat.min_l; [done|].
  enough (num_accepted NUM_SLOTS Candidates coins (prob_of tl tn temperature) (prob_of dl dn temperature)
    < NUM_SLOTS) by lia. by eapply num_accepted_lt.
Qed.
End kernels_ok.

(** ** A launch: every program's stores survive the others' *)

Section launch.
Context (NUM_SLOTS bs : nat) (kernel : nat → list nat → list nat → option (list nat * list nat * nat)).
Context (toks idx : nat → list nat) (n : nat → nat).
Hypothesis Hker : ∀ pid P row, pid < bs → length P = bs * NUM_SLOTS → length row = NUM_SLOTS →
  kernel pid P row = Some (overlay (pid * NUM_SLOTS) (toks pid) P, overlay 0 (idx pid) row, n pid).
Hypothesis Htoks : ∀ pid, pid < bs → length (toks pid) ≤ NUM_SLOTS.
Hypothesis Hidx : ∀ pid, pid < bs → length (idx pid) ≤ NUM_SLOTS.

Record launched (k : nat) (P : list nat) (ai : list (list nat)) (an : list nat) : Prop := {
  ln_predicts : length P = bs * NUM_SLOTS;
  ln_rows : length ai = bs;
  ln_cols : Forall (λ r, length r = NUM_SLOTS) ai;
  ln_nums : length an = bs;
  ln_tok : ∀ pid i, pid < k → i < length (toks pid) → P !! (pid * NUM_SLOTS + i) = toks pid !! i;
  ln_idx : ∀ pid, pid < k → ∃ r, ai !! pid = Some r ∧ ∀ i, i < length (idx pid) → r !! i = idx pid !! i;
  ln_num : ∀ pid, pid < k → an !! pid = Some (n pid)
}.

Lemma launch_step k P ai an :
  k < bs → launched k P ai an →
  ∃ P' ai' an', (r ← kernel k P (default [] (ai !! k));
    let '(P', row, m) := r in Some (P', <[k := row]> ai, <[k := m]> an)) = Some (P', ai', an')
    ∧ launched (S k) P' ai' an'.
Proof.
  intros Hk [HP Hr Hcol Hn Ht Hi Hm].
  destruct (lookup_lt_is_Some_2 ai k ltac:(lia)) as [row Hrow].
  pose proof (Forall_lookup_1 _ _ _ _ Hcol Hrow) as Hlr. cbn in Hlr.
  pose proof (Htoks k Hk). pose proof (Hidx k Hk).
  assert (Hfit : k * NUM_SLOTS + length (toks k) ≤ length P) by nia.
  rewrite Hrow. change (default [] (Some row)) with row. rewrite Hker by done. cbn [mbind option_bind]. do 3 eexists. split; [done|]. split.
  - by rewrite length_overlay.
  - by rewrite length_insert.
  - apply Forall_insert; [done|]. cbn beta. by rewrite length_overlay by lia.
  - by rewrite length_insert.
  - intros pid i Hp Hi'. rewrite overlay_lookup by done. destruct (decide (pid = k)) as [->|].
    + rewrite decide_True by lia. f_equal. lia.
    + pose proof (Htoks pid ltac:(lia)). rewrite decide_False by nia. apply Ht; [lia|done].
  - intros pid Hp. destruct (decide (pid = k)) as [->|].
    + rewrite list_lookup_insert_eq by lia. eexists. split; [done|]. intros i Hi'.
      rewrite overlay_lookup by lia. rewrite decide_True by lia. f_equal. lia.
    + rewrite list_lookup_insert_ne by lia. apply Hi. lia.
  - intros pid Hp. destruct (decide (pid = k)) as [->|].
    + by rewrite list_lookup_insert_eq by lia.
    + rewrite list_lookup_insert_ne by lia. apply Hm. lia.
Qed.

Lemma launch_chain_ok P ai an :
  length P = bs * NUM_SLOTS → length ai = bs → Forall (λ r, length r = NUM_SLOTS) ai → length an = bs →
  ∃ P' ai' an', launch_chain kernel bs P ai an = Some (P', ai', an') ∧ launched bs P' ai' an'.
Proof.
  intros HP Hr Hcol Hn. unfold launch_chain.
  assert (H0 : launched 0 P ai an) by (split; try done; intros; lia).
  enough (G : ∀ k, k ≤ bs → ∃ P' ai' an', foldl (λ acc pid,
      '(predicts, accept_index, accept_token_num) ← acc;
      '(predicts', row, n) ← kernel pid predicts (default [] (accept_index !! pid));
      Some (predicts', <[pid := row]> accept_index, <[pid := n]> accept_token_num))
    (Some (P, ai, an)) (seq 0 k) = Some (P', ai', an') ∧ launched k P' ai' an') by by apply G.
  induction k as [|k IH]; intros Hk; [by exists P, ai, an|].
  destruct (IH ltac:(lia)) as (P1 & a1 & n1 & E & L). rewrite seq_S, foldl_app, E. cbn [foldl mbind option_bind].
  by apply launch_step.
Qed.
End launch.
