(* ===== verification/LatentAccept.v ===== *)
(** * LatentAccept: sampled verification of a drafted block

    Models [kernels/ops/speculative/dspark/dspark_accept.py]: the softmax and
    log-sum-exp kernels, [cap_correct_len], the gather of the bonus token,
    [accept_sampling_from_logits] and the tail of [_accept_sampling_core] shared
    by [accept_sampling], [select_mixed_accept] and [finalize_accept_lens]; the
    cached verification buffers of [srt/speculative/dflash_utils.py]; and the
    logits branch of [_accept_block].  The buffers are a state: slices of them are
    views, so a launch writes into the cache.  [torch.empty] and [torch.rand] are
    third-party code: uninitialised contents and draws are arguments. *)

From S2P Require Import Prelude TensorOps RealLaw LatentSampler RejectKernel.
From Stdlib Require Import Reals Lra.
#[local] Open Scope nat_scope.
#[local] Arguments Nat.ltb : simpl never.

(** ** Softmax and log-sum-exp *)

Section kernels.
Context (BLOCK_V : nat).

Definition scaled_lanes (logits_row : list R) (temperature : R) (vocab b : nat) : list (option R) :=
  (λ o, xdiv (tl_load (Some <$> logits_row) o (o <? vocab) None) temperature) <$> tl_lanes BLOCK_V b.

(** [row_max] of the first loop of both kernels. *)
Definition row_max_pass (logits_row : list R) (temperature : R) (vocab : nat) : option R :=
  foldl (λ row_max b, xmax row_max (tl_max (scaled_lanes logits_row temperature vocab b)))
    None (seq 0 (cdiv vocab BLOCK_V)).

Definition exp_sum_pass (logits_row : list R) (temperature : R) (vocab : nat) (row_max : option R) : R :=
  foldl (λ exp_sum b, exp_sum +
      Rsum (zip_with (λ o x, if o <? vocab then tl_exp (xsub x row_max) else 0)
              (tl_lanes BLOCK_V b) (scaled_lanes logits_row temperature vocab b)))%R
    0%R (seq 0 (cdiv vocab BLOCK_V)).

Definition _logsumexp_temp_kernel (logits_row : list R) (temperature : R) (VOCAB_SIZE : nat) : R :=
  let row_max := row_max_pass logits_row temperature VOCAB_SIZE in
  let exp_sum := exp_sum_pass logits_row temperature VOCAB_SIZE row_max in
  (default 0 row_max + ln exp_sum)%R.

Definition _softmax_temp_kernel (logits_row : list R) (temp : R) (vocab : nat) : list R :=
  let row_max := row_max_pass logits_row temp vocab in
  let sum_exp := exp_sum_pass logits_row temp vocab row_max in
  tl_launch vocab BLOCK_V (λ o,
    let x := xdiv (tl_load (Some <$> logits_row) o (o <? vocab) None) temp in
    let e := tl_exp (xsub x row_max) in (e / sum_exp)%R).
End kernels.

Definition logsumexp_temp_triton (logits : list (list R)) (temperatures : list R)
    (rows_per_request vocab_size : nat) : list (list R) :=
  let batch_size := length logits / rows_per_request in
  view_2d batch_size rows_per_request
    (imap (λ row l, _logsumexp_temp_kernel VOCAB_BLOCK l (wt temperatures (row / rows_per_request)) vocab_size)
      logits).

Definition softmax_temp (logits : list (list R)) (temperatures : list R) (rows_per_request : nat)
  : result (list (list R)) :=
  let num_rows := length logits in
  let bs := num_rows / rows_per_request in
  _ ← py_assert (bs * rows_per_request =? num_rows);
  let temp_per_row := concat ((λ t, replicate rows_per_request t) <$> take bs temperatures) in
  Ok (zip_with (λ l t, softmaxR ((λ x, x / t)%R <$> l)) logits temp_per_row).

Definition softmax_temp_triton (logits : list (list R)) (temperatures : list R)
    (rows_per_request vocab : nat) : result (list (list R)) :=
  let num_rows := length logits in
  let bs := num_rows / rows_per_request in
  _ ← py_assert (bs * rows_per_request =? num_rows);
  Ok (imap (λ row l, _softmax_temp_kernel VOCAB_BLOCK l (wt temperatures (row / rows_per_request)) vocab) logits).

(** ** Acceptance lengths *)

Definition cap_correct_len (correct_len verify_lens : list Z) : list Z * list Z :=
  let ell_r := (λ v, v - 1)%Z <$> verify_lens in
  let capped := zip_with Z.min correct_len ell_r in
  (capped, zip_with Z.sub correct_len capped).

Definition cap_correct_len_triton (correct_len verify_lens : list Z) : list Z * list Z :=
  let n := length correct_len in
  let capped o :=
    let cl := tl_load correct_len o (o <? n) 0%Z in
    let ell := (tl_load verify_lens o (o <? n)%nat 0 - 1)%Z in Z.min cl ell in
  (tl_launch n 1024 capped, tl_launch n 1024 (λ o, (tl_load correct_len o (o <? n)%nat 0 - capped o)%Z)).

Record FinalizeAcceptLensResult := {
  commit_lens : list Z;
  new_seq_lens : list Z;
  cap_trim_lens : list Z
}.

Definition finalize_accept_lens (correct_len cap_trim prefix_lens : list Z) : FinalizeAcceptLensResult :=
  let commit := (λ c, i32 (c + 1)) <$> correct_len in
  {| commit_lens := commit; new_seq_lens := zip_with Z.add prefix_lens commit; cap_trim_lens := i32 <$> cap_trim |}.

Definition select_mixed_accept {B} (greedy_mask : list bool) (greedy_len : list Z) (greedy_bonus : list B)
    (greedy_trim sampling_len : list Z) (sampling_bonus : list B) (sampling_trim : list Z)
  : list Z * list B * list Z :=
  let where_ {A} (a b : list A) := zip_with (λ (g : bool) '(x, y), if g then x else y) greedy_mask (zip a b) in
  (where_ greedy_len sampling_len, where_ greedy_bonus sampling_bonus, where_ greedy_trim sampling_trim).

(** A device load at a possibly negative offset; out of bounds it reads nothing. *)
Definition tl_load_at {A} (l : list A) (z : Z) (mask : bool) (other : A) : A :=
  if (0 <=? z)%Z then tl_load l (Z.to_nat z) mask other else other.

Definition gather_two_level_bonus_triton (accept_index : list (list nat)) (predicts : list nat)
    (cols : nat) (correct_len : list Z) : list nat :=
  let bs := length accept_index in
  tl_launch bs 256 (λ offs,
    let mask := offs <? bs in
    let cl := tl_load correct_len offs mask 0%Z in
    let accept_pos := tl_load_at (concat accept_index) (Z.of_nat offs * Z.of_nat cols + cl)%Z mask 0 in
    tl_load predicts accept_pos mask 0).

(** ** The cached buffers *)

Record chain_buffers := {
  cap_bs : nat;
  retrieve_index : list (list nat);
  buf_predicts : list nat;
  buf_accept_index : list (list nat);
  buf_accept_token_num : list nat
}.

Section buffers.
(** [torch.empty((n,))]: [n] elements of unknown content. *)
Context (torch_empty : nat → list nat).

(** [_DFLASH_CHAIN_VERIFY_BUFFERS] of one device, by [draft_token_num]. *)
Definition _get_or_create_chain_verify_buffers (bs draft_token_num : nat) (cache : gmap nat chain_buffers)
  : gmap nat chain_buffers :=
  let cap := match cache !! draft_token_num with None => 0 | Some c => cap_bs c end in
  if cap <? bs then
    let new_cap := Nat.max bs (if 0 <? cap then cap * 2 else bs) in
    <[draft_token_num :=
      {| cap_bs := new_cap;
         retrieve_index := view_2d new_cap draft_token_num (seq 0 (new_cap * draft_token_num));
         buf_predicts := torch_empty (new_cap * draft_token_num);
         buf_accept_index := view_2d new_cap draft_token_num (torch_empty (new_cap * draft_token_num));
         buf_accept_token_num := torch_empty new_cap |}]> cache
  else cache.

(** A launch on the views [buf[:bs]] writes into the cached buffers. *)
Definition write_back (bs draft_token_num : nat) (b : chain_buffers)
    (predicts : list nat) (accept_index : list (list nat)) (accept_token_num : list nat) : chain_buffers :=
  {| cap_bs := cap_bs b; retrieve_index := retrieve_index b;
     buf_predicts := predicts ++ drop (bs * draft_token_num) (buf_predicts b);
     buf_accept_index := accept_index ++ drop bs (buf_accept_index b);
     buf_accept_token_num := accept_token_num ++ drop bs (buf_accept_token_num b) |}.

(** The launch on the cached buffers, then the cap and the gather of the bonus. *)
Definition run_chain (chain : list nat → list (list nat) → list nat → list (list nat) →
      option (list nat * list (list nat) * list nat))
    (bs draft_token_num : nat) (cutoff_verify_lens : option (list Z)) (cache : gmap nat chain_buffers)
  : result (list Z * list nat * list Z * gmap nat chain_buffers) :=
  let cache := _get_or_create_chain_verify_buffers bs draft_token_num cache in
  match cache !! draft_token_num with
  | None => Raise AssertionError
  | Some b =>
      match chain (take (bs * draft_token_num) (buf_predicts b)) (take bs (buf_accept_index b))
              (take bs (buf_accept_token_num b)) (take bs (retrieve_index b)) with
      | None => Raise OutOfFuel
      | Some (predicts, accept_index, accept_token_num) =>
          let correct_len := Z.of_nat <$> accept_token_num in
          let '(correct_len, cap_trim_lens) :=
            match cutoff_verify_lens with
            | Some verify_lens => cap_correct_len correct_len verify_lens
            | None => (correct_len, (λ _, 0%Z) <$> correct_len)
            end in
          let bonus := gather_two_level_bonus_triton accept_index predicts draft_token_num correct_len in
          Ok (correct_len, bonus, cap_trim_lens,
              <[draft_token_num := write_back bs draft_token_num b predicts accept_index accept_token_num]> cache)
      end
  end.

(** [accept_sampling] once [_accept_sampling_core] has built [target_probs]. *)
Definition accept_sampling (candidates : list (list nat)) (target_probs draft_probs : list (list (list R)))
    (vocab_size verify_num_draft_tokens : nat) (cutoff_verify_lens : option (list Z))
    (uniform_samples : list (list R)) (uniform_samples_final : list R) (cache : gmap nat chain_buffers) :=
  run_chain (λ predicts accept_index accept_token_num retrive_index,
      chain_speculative_sampling_triton predicts accept_index accept_token_num candidates retrive_index
        uniform_samples uniform_samples_final target_probs draft_probs verify_num_draft_tokens vocab_size)
    (length candidates) verify_num_draft_tokens cutoff_verify_lens cache.

Definition shape_ok (batch_size gamma vocab_size : nat) (t : list (list (list R))) : bool :=
  (length t =? batch_size) && forallb (λ rows : list (list R),
    (length rows =? gamma) && forallb (λ row : list R, length row =? vocab_size) rows) t.

Definition accept_sampling_from_logits (candidates : list (list nat)) (target_logits : list (list R))
    (draft_logits : list (list (list R))) (draft_log_norm : list (list R)) (temperatures : list R)
    (gamma vocab_size verify_num_draft_tokens : nat) (cutoff_verify_lens : option (list Z))
    (uniform_samples : list (list R)) (uniform_samples_final : list R) (cache : gmap nat chain_buffers)
  : result (list Z * list nat * list Z * gmap nat chain_buffers) :=
  let batch_size := length candidates in
  let target_logits_3d := view_2d batch_size verify_num_draft_tokens target_logits in
  _ ← py_check ValueError (shape_ok batch_size gamma vocab_size draft_logits);
  let target_log_norm := logsumexp_temp_triton target_logits temperatures verify_num_draft_tokens vocab_size in
  run_chain (λ predicts accept_index accept_token_num retrive_index,
      chain_speculative_sampling_from_logits_triton predicts accept_index accept_token_num candidates
        retrive_index uniform_samples uniform_samples_final target_logits_3d draft_logits
        target_log_norm draft_log_norm temperatures verify_num_draft_tokens vocab_size)
    batch_size verify_num_draft_tokens cutoff_verify_lens cache.
End buffers.

(** ** The softmax and log-sum-exp kernels *)

Section lse.
Context (B : nat) (HB : 0 < B) (row : list R) (T : R) (Hrow : row ≠ []).
#[local] Notation V := (length row).
#[local] Notation scaled := ((λ a, a / T)%R <$> row).
#[local] Notation N := (cdiv V B).

Lemma row_max_some : ∃ m, row_max_pass B row T V = Some m.
Proof.
  unfold row_max_pass, scaled_lanes. destruct (cdiv_bounds B HB V) as [_ [_ HN]]; [by apply row_pos|].
  assert (K : ∀ bs o, is_Some o → is_Some (foldl (λ row_max b, xmax row_max
    (tl_max ((λ o, xdiv (tl_load (Some <$> row) o (o <? V) None) T) <$> tl_lanes B b))) o bs)).
  { induction bs as [|b bs IH]; intros o [x ->]; [by eexists|]. apply IH. cbn. by destruct (tl_max _). }
  destruct N as [|n] eqn:EN; [lia|]. cbn [seq foldl xmax]. apply K.
  rewrite values_lanes. rewrite tl_max_nones. pose proof (maxima_some B HB row T 0) as M. rewrite M by lia. by eexists.
Qed.

Lemma exp_sum_ok m :
  exp_sum_pass B row T V (Some m) = Rsum ((λ x, exp (x - m)) <$> scaled).
Proof.
  pose proof (tile_sums_total B HB ((λ x, exp (x - m)) <$> scaled)) as S. rewrite !length_fmap in S. rewrite <- S.
  unfold exp_sum_pass, scaled_lanes, tile_sums. rewrite <- (Rplus_0_l (Rsum (_ <$> seq 0 N))).
  generalize (seq 0 N) as bs. intros bs.
  match goal with |- foldl ?f _ _ = (_ + Rsum (?g <$> _))%R =>
    enough (G : ∀ acc, foldl f acc bs = (acc + Rsum (g <$> bs))%R) by apply G end.
  induction bs as [|b bs IH]; intros acc; cbn [foldl fmap list_fmap].
  - rewrite Rsum_nil. lra.
  - rewrite IH, values_lanes, exp_lanes, Rsum_app, Rsum_zeros_replicate, Rsum_cons, (tile_fmap B (λ x, exp (x - m))). lra.
Qed.

Lemma exp_sum_shift m : (exp m * Rsum ((λ x, exp (x - m)) <$> scaled))%R = Rsum (exp <$> scaled).
Proof.
  rewrite <- Rsum_scale. apply Rsum_ext, Forall_forall. intros x _. rewrite <- exp_plus. f_equal. lra.
Qed.

Lemma logsumexp_kernel_ok : _logsumexp_temp_kernel B row T V = ln (Rsum (exp <$> scaled)).
Proof.
  unfold _logsumexp_temp_kernel. destruct row_max_some as [m ->]. cbv zeta. rewrite exp_sum_ok.
  change (default 0%R (Some m)) with m. rewrite <- (exp_sum_shift m), ln_mult, ln_exp; [done|apply exp_pos|].
  apply Rsum_pos; [|apply exp_weights_pos]. pose proof (scaled_nonempty row T Hrow).
    by destruct scaled.
Qed.

Lemma softmax_kernel_ok : _softmax_temp_kernel B row T V = softmaxR scaled.
Proof.
  unfold _softmax_temp_kernel. destruct row_max_some as [m Hm]. rewrite Hm. cbv zeta. rewrite exp_sum_ok.
  rewrite tl_launch_eq by done. unfold softmaxR. rewrite <- !list_fmap_compose. apply list_eq. intros i.
  rewrite !list_lookup_fmap. destruct (row !! i) as [x|] eqn:E.
  - pose proof (lookup_lt_Some _ _ _ E). rewrite lookup_seq_lt by done. cbn [fmap option_fmap option_map Nat.add compose].
    f_equal. unfold tl_load. rewrite (proj2 (Nat.ltb_lt i V)) by done. rewrite list_lookup_fmap, E. cbn.
    assert (Hp : (0 < Rsum ((λ x, exp (x - m)) <$> scaled))%R).
    { apply Rsum_pos; [|apply exp_weights_pos]. pose proof (scaled_nonempty row T Hrow).
    by destruct scaled. }
    rewrite (list_fmap_compose (λ a, a / T)%R exp), <- (exp_sum_shift m).
    replace (exp (x / T)) with (exp m * exp (x / T - m))%R by (rewrite <- exp_plus; f_equal; lra).
    rewrite (list_fmap_compose (λ a, a / T)%R (λ x0, exp (x0 - m))).
    pose proof (exp_pos m). field. split; lra.
  - apply lookup_ge_None in E. by rewrite lookup_seq_ge by lia.
Qed.
End lse.

(** ** The capped length and the bonus of every request *)

Lemma concat_rows_lookup {A} (m : list (list A)) W b i :
  Forall (λ r, length r = W) m → i < W → concat m !! (b * W + i) = m !! b ≫= (λ r, r !! i).
Proof.
  intros Hm Hi. revert b. induction Hm as [|r m Hr _ IH]; intros b; [by destruct b|]. cbn [concat].
  destruct b as [|b].
  - cbn. by rewrite lookup_app_l by lia.
  - rewrite lookup_app_r by lia. change ((r :: m) !! S b) with (m !! b). rewrite <- IH. f_equal. lia.
Qed.

Lemma view_2d_seq n w : view_2d n w (seq 0 (n * w)) = (λ b, seq (b * w) w) <$> seq 0 n.
Proof.
  unfold view_2d. apply list_fmap_ext. intros j b Hb. apply lookup_seq in Hb as [-> Hb].
  unfold py_slice. rewrite drop_seq, take_seq. f_equal; nia.
Qed.

Lemma view_2d_ok {A} n w (l : list A) : length l = n * w →
  length (view_2d n w l) = n ∧ Forall (λ r, length r = w) (view_2d n w l).
Proof.
  intros Hl. unfold view_2d. rewrite length_fmap, length_seq. split; [done|].
  apply Forall_fmap, Forall_forall. intros b Hb%elem_of_seq. cbn. rewrite length_py_slice. nia.
Qed.

Record buffers_ok (W : nat) (c : chain_buffers) : Prop := {
  bo_retrieve : retrieve_index c = (λ b, seq (b * W) W) <$> seq 0 (cap_bs c);
  bo_predicts : length (buf_predicts c) = cap_bs c * W;
  bo_rows : length (buf_accept_index c) = cap_bs c;
  bo_cols : Forall (λ r, length r = W) (buf_accept_index c);
  bo_nums : length (buf_accept_token_num c) = cap_bs c
}.

Definition chain_cache_ok (cache : gmap nat chain_buffers) : Prop :=
  ∀ W c, cache !! W = Some c → buffers_ok W c.

Section run.
Context (torch_empty : nat → list nat) (Hempty : ∀ n, length (torch_empty n) = n).

Lemma get_or_create_ok bs W cache :
  chain_cache_ok cache →
  let cache' := _get_or_create_chain_verify_buffers torch_empty bs W cache in
  chain_cache_ok cache' ∧ (0 < bs → ∃ c, cache' !! W = Some c ∧ bs ≤ cap_bs c).
Proof.
  intros Hc. unfold _get_or_create_chain_verify_buffers. cbv zeta.
  destruct (_ <? bs) eqn:E.
  - split.
    + intros S' c. destruct (decide (S' = W)) as [->|]; [|rewrite lookup_insert_ne by done; apply Hc].
      rewrite lookup_insert_eq. intros [= <-]. set (n := Nat.max bs _).
      destruct (view_2d_ok n W (torch_empty (n * W)) (Hempty _)) as [V1 V2].
      split; cbn; [apply view_2d_seq|apply Hempty|done|done|apply Hempty].
    + intros _. rewrite lookup_insert_eq. eexists. split; [done|]. cbn. lia.
  - apply Nat.ltb_ge in E. split; [done|]. intros Hbs. destruct (cache !! W) as [c|]; [|lia]. by exists c.
Qed.

Lemma write_back_ok bs W c P ai an :
  buffers_ok W c → bs ≤ cap_bs c → length P = bs * W → length ai = bs →
  Forall (λ r, length r = W) ai → length an = bs → buffers_ok W (write_back bs W c P ai an).
Proof.
  intros [H1 H2 H3 H4 H5] Hbs HP Ha Hr Hn. split; cbn.
  - done.
  - rewrite length_app, length_drop. nia.
  - rewrite length_app, length_drop. lia.
  - apply Forall_app. split; [done|]. by apply Forall_drop.
  - rewrite length_app, length_drop. lia.
Qed.

(** The capped length of request [pid] whose first rejection is after [n] drafts. *)
Definition cap_at (cutoff : option (list Z)) (pid n : nat) : nat :=
  match cutoff with
  | None => n
  | Some vl => Z.to_nat (Z.min (Z.of_nat n) (default 0%Z (vl !! pid) - 1))
  end.

Definition cutoff_ok (bs : nat) (cutoff : option (list Z)) : Prop :=
  match cutoff with None => True | Some vl => length vl = bs ∧ Forall (λ v, 1 <= v)%Z vl end.

Lemma cap_at_le cutoff pid n : cap_at cutoff pid n ≤ n.
Proof. destruct cutoff; cbn; lia. Qed.

Lemma cap_list_ok bs cutoff (an : list nat) :
  cutoff_ok bs cutoff → length an = bs →
  (match cutoff with
   | Some vl => cap_correct_len (Z.of_nat <$> an) vl
   | None => (Z.of_nat <$> an, (λ _, 0%Z) <$> (Z.of_nat <$> an))
   end).1 = imap (λ pid n, Z.of_nat (cap_at cutoff pid n)) an.
Proof.
  intros Hk Hl. apply list_eq. intros i. rewrite list_lookup_imap. destruct cutoff as [vl|]; cbn.
  - destruct Hk as [Hv Hf]. rewrite lookup_zip_with, !list_lookup_fmap.
    destruct (an !! i) as [n|] eqn:E; [|done]. cbn.
    destruct (lookup_lt_is_Some_2 vl i) as [v Ev]; [rewrite Hv, <- Hl; by eapply lookup_lt_Some|].
    rewrite Ev. cbn. f_equal. pose proof (Forall_lookup_1 _ _ _ _ Hf Ev). cbn in *. lia.
  - rewrite list_lookup_fmap. by destruct (an !! i).
Qed.

(** A launch of a kernel that stores [toks pid] in its slots, then the cap and the gather. *)
Section chain.
Context (NS bs : nat) (kernel : nat → list nat → list nat → option (list nat * list nat * nat)).
Context (toks : nat → list nat) (n : nat → nat) (HNS : 0 < NS) (Hbs : 0 < bs).
Hypothesis Hker : ∀ pid P row, pid < bs → length P = bs * NS → length row = NS →
  kernel pid P row = Some (overlay (pid * NS) (toks pid) P, overlay 0 (seq (pid * NS) (S (n pid))) row, n pid).
Hypothesis Htoks : ∀ pid, pid < bs → length (toks pid) = S (n pid) ∧ n pid < NS.

Lemma run_chain_ok chain cutoff cache :
  chain_cache_ok cache → cutoff_ok bs cutoff →
  (∀ P ai an, chain P ai an ((λ b, seq (b * NS) NS) <$> seq 0 bs) = launch_chain kernel bs P ai an) →
  ∃ correct_len bonus trims cache',
    run_chain torch_empty chain bs NS cutoff cache = Ok (correct_len, bonus, trims, cache') ∧
    chain_cache_ok cache' ∧ length correct_len = bs ∧ length bonus = bs ∧
    ∀ pid, pid < bs → correct_len !! pid = Some (Z.of_nat (cap_at cutoff pid (n pid))) ∧
                      bonus !! pid = toks pid !! cap_at cutoff pid (n pid).
Proof.
  intros Hc Hk Hchain. unfold run_chain. cbv zeta.
  destruct (get_or_create_ok bs NS cache Hc) as [Hc' Hcap].
  set (cache1 := _get_or_create_chain_verify_buffers _ _ _ _) in *.
  destruct (Hcap Hbs) as (b & Hb & Hcb). rewrite Hb. pose proof (Hc' _ _ Hb) as [B1 B2 B3 B4 B5].
  assert (Er : take bs (retrieve_index b) = (λ b, seq (b * NS) NS) <$> seq 0 bs).
  { rewrite B1, <- fmap_take, take_seq, Nat.min_l by lia. done. }
  rewrite Er, Hchain.
  destruct (launch_chain_ok NS bs kernel toks (λ pid, seq (pid * NS) (S (n pid))) n Hker) with
    (P := take (bs * NS) (buf_predicts b)) (ai := take bs (buf_accept_index b))
    (an := take bs (buf_accept_token_num b)) as (P & ai & an & E & L).
  { intros pid Hp. destruct (Htoks pid Hp). lia. }
  { intros pid Hp. destruct (Htoks pid Hp). rewrite length_seq. lia. }
  { rewrite length_take. nia. } { rewrite length_take. lia. } { by apply Forall_take. }
  { rewrite length_take. lia. }
  rewrite E. destruct L as [L1 L2 L3 L4 L5 L6 L7].
  pose proof (cap_list_ok bs cutoff an Hk L4) as El.
  destruct (match cutoff with Some _ => _ | None => _ end) as [cl trims] eqn:Ecl. cbn [fst] in El. subst cl.
  do 4 eexists. split; [reflexivity|]. split_and!.
  - intros S' c. destruct (decide (S' = NS)) as [->|]; [|rewrite lookup_insert_ne by done; apply Hc'].
    rewrite lookup_insert_eq. intros [= <-]. by apply write_back_ok.
  - by rewrite length_imap.
  - unfold gather_two_level_bonus_triton. rewrite tl_launch_eq, length_fmap, length_seq by lia. done.
  - intros pid Hp. pose proof (L7 pid Hp) as En. rewrite list_lookup_imap, En. split; [done|].
    unfold gather_two_level_bonus_triton. rewrite tl_launch_eq, list_lookup_fmap, lookup_seq_lt by lia.
    cbn [fmap option_fmap option_map Nat.add]. rewrite (proj2 (Nat.ltb_lt pid _)) by lia.
    unfold tl_load at 2. rewrite list_lookup_imap, En. change (default 0%Z (_ <$> Some ?x)) with (Z.of_nat (cap_at cutoff pid x)).
    destruct (Htoks pid Hp) as [Ht Hn]. pose proof (cap_at_le cutoff pid (n pid)) as Hle.
    set (k := cap_at cutoff pid (n pid)) in *.
    destruct (L6 pid Hp) as (r & Hr & Hri). rewrite length_seq in Hri.
    assert (Ep : tl_load_at (concat ai) (Z.of_nat pid * Z.of_nat NS + Z.of_nat k)%Z true 0 = pid * NS + k).
    { unfold tl_load_at. rewrite (proj2 (Z.leb_le _ _)) by lia. unfold tl_load.
      replace (Z.to_nat _) with (pid * NS + k) by lia. rewrite (concat_rows_lookup ai NS) by (done || lia).
      rewrite Hr. cbn [mbind option_bind]. rewrite Hri, lookup_seq_lt by lia. done. }
    rewrite Ep. unfold tl_load. rewrite L5 by lia.
    by destruct (lookup_lt_is_Some_2 (toks pid) k ltac:(lia)) as [x ->].
Qed.
End chain.
End run.

(** ** The device kernels agree with the torch code *)

Lemma cap_correct_len_triton_ok cl vl :
  length vl = length cl → cap_correct_len_triton cl vl = cap_correct_len cl vl.
Proof.
  intros Hl. unfold cap_correct_len_triton, cap_correct_len. rewrite !tl_launch_eq by lia.
  f_equal; apply list_eq; intros i; rewrite list_lookup_fmap, ?lookup_zip_with;
    rewrite ?lookup_zip_with, ?list_lookup_fmap; (destruct (decide (i < length cl)) as [Hi|Hi];
    [rewrite lookup_seq_lt by done; cbn [fmap option_fmap option_map Nat.add]; unfold tl_load;
     rewrite (proj2 (Nat.ltb_lt i _)) by done;
     destruct (lookup_lt_is_Some_2 cl i ltac:(lia)) as [x Hx], (lookup_lt_is_Some_2 vl i ltac:(lia)) as [y Hy];
     rewrite Hx, Hy; done
    |rewrite lookup_seq_ge by lia; by rewrite (proj2 (lookup_ge_None cl i)) by lia]).
Qed.

Lemma temp_per_row_lookup rpr (ts : list R) b i :
  i < rpr → concat ((λ t, replicate rpr t) <$> ts) !! (b * rpr + i) = ts !! b.
Proof.
  intros Hi. rewrite (concat_rows_lookup _ rpr) by (done ||
    (apply Forall_fmap, Forall_forall; intros t _; cbn; by rewrite length_replicate)).
  rewrite list_lookup_fmap. destruct (ts !! b); cbn; [by rewrite lookup_replicate_2|done].
Qed.

Lemma softmax_temp_triton_ok logits temps rpr vocab :
  0 < rpr → 0 < vocab → Forall (λ l, length l = vocab) logits →
  length temps * rpr = length logits →
  softmax_temp_triton logits temps rpr vocab = softmax_temp logits temps rpr.
Proof.
  intros Hr Hv Hl Ht. unfold softmax_temp_triton, softmax_temp. rewrite <- Ht, Nat.div_mul, Nat.eqb_refl by lia.
  cbn [py_assert py_check mbind result_bind]. f_equal. rewrite (take_ge temps) by done. apply list_eq. intros j.
  rewrite list_lookup_imap, lookup_zip_with. destruct (logits !! j) as [l|] eqn:E; [|done].
  pose proof (lookup_lt_Some _ _ _ E) as Hj. pose proof (Nat.div_mod j rpr ltac:(lia)) as Hdm.
  pose proof (Nat.mod_upper_bound j rpr ltac:(lia)) as Hmod.
  assert (Hb : j / rpr < length temps) by (apply Nat.Div0.div_lt_upper_bound; lia).
  destruct (lookup_lt_is_Some_2 temps (j / rpr) Hb) as [t Et].
  pose proof (temp_per_row_lookup rpr temps (j / rpr) (j mod rpr) Hmod) as Ec.
  replace (j / rpr * rpr + j mod rpr) with j in Ec by lia. rewrite Ec, Et.
  cbn [fmap option_fmap option_map mbind option_bind]. f_equal. unfold wt. rewrite Et. cbn [from_option].
  pose proof (Forall_lookup_1 _ _ _ _ Hl E) as Hlv. cbn in Hlv. rewrite <- Hlv. apply softmax_kernel_ok.
  - apply VOCAB_BLOCK_pos.
  - intros ->. cbn in Hlv. lia.
Qed.
