(* ===== verification/ExactLaw.v ===== *)
(** * ExactLaw: chain rejection sampling draws from the target

    The probability argument behind the serving sampler, on top of the
    device-level definitions: for one request, the tokens the verification loop
    keeps and the final draw ([emit]), as a function of the uniform draws of the
    proposals, of the acceptance coins and of the final sample, have a law whose
    continuation by the target is the target's own distribution of token
    sequences.  [T pre] is the target's distribution after the emitted tokens
    [pre]; the rows [qs] are the proposals' distributions. *)

From S2P Require Import Prelude TensorOps RealLaw LatentSampler RejectKernel.
From Stdlib Require Import Reals Lra.
#[local] Open Scope nat_scope.
#[local] Arguments Nat.ltb : simpl never.

Definition pmf (V : nat) (w : list R) : Prop :=
  length w = V ∧ Forall (λ x, 0 <= x)%R w ∧ Rsum w = 1%R.

(** The uniform draws of one request, interleaved: proposal, coin, ..., final. *)
Fixpoint deal (us : list R) : list R * list R * R :=
  match us with
  | u :: c :: us' => let '(a, b, f) := deal us' in (u :: a, c :: b, f)
  | [f] => ([], [], f)
  | [] => ([], [], 0%R)
  end.

Lemma Rmin_cases x y : (x <= y ∧ Rmin x y = x)%R ∨ (y <= x ∧ Rmin x y = y)%R.
Proof. destruct (Rle_dec x y); [left|right]; split; try lra; [by apply Rmin_left|apply Rmin_right; lra]. Qed.

(** ** Elementary laws *)

Section laws.
Context {A : Type} `{EqDecision A}.
Implicit Types (f : list R → A) (d : A → R).

Definition point (a : A) : A → R := λ x, if decide (x = a) then 1%R else 0%R.

Lemma law_skip n f d : Law n f d → Law (S n) (λ us, f (tail us)) d.
Proof.
  intros L. apply (law_draw n _ d [1%R] (λ _, d)).
  - constructor; [lra|constructor].
  - rewrite Rsum_cons, Rsum_nil. lra.
  - intros u i _. exact L.
  - intros x. unfold sumN, wt. cbn. rewrite Rsum_cons, Rsum_nil. lra.
Qed.

Lemma law_const n a : Law n (λ _, a) (point a).
Proof. induction n as [|n IH]; [by apply law_ret|]. exact (law_skip n _ _ IH). Qed.

Lemma law_ext_d n f d e : Law n f d → (∀ x, d x = e x) → Law n f e.
Proof. intros L E. by apply (Law_ext n f f d e). Qed.

(** A single draw from the row [w]. *)
Lemma law_row w (g : R → A) (h : nat → A) :
  Forall (λ x, 0 <= x)%R w → Rsum w = 1%R → (∀ u i, draws w u i → g u = h i) →
  Law 1 (λ us, g (default 0%R (head us))) (λ x, sumN (length w) (λ i, wt w i * point (h i) x)%R).
Proof.
  intros Hw Hs Hg. apply (law_draw 0 _ _ w (λ i, point (h i))); [done..| |done].
  intros u i Hi. cbn. rewrite (Hg u i Hi). apply law_ret. done.
Qed.

Lemma law_last k (g : R → A) d :
  Law 1 (λ us, g (default 0%R (head us))) d → Law (k * 2 + 1) (λ us, g (deal us).2) d.
Proof.
  intros L. induction k as [|k IH].
  - apply (Law_ext 1 (λ us, g (default 0%R (head us))) _ d d); [done| |done].
    intros us [Hl _]. by destruct us as [|u [|c us]].
  - apply (Law_ext _ (λ us, g (deal (tail (tail us))).2) _ d d); [| |done].
    + apply (law_skip (S (k * 2 + 1)) (λ us, g (deal (tail us)).2)). by apply (law_skip _ (λ us, g (deal us).2)).
    + intros us [Hl _]. destruct us as [|u [|c us]]; [done|cbn in Hl; lia|]. cbn.
      by destruct (deal us) as [[a b] f].
Qed.

(** Accept with probability [a], else reject. *)
Lemma law_coin n a f g1 g2 d1 d2 :
  (0 <= a <= 1)%R →
  (∀ c us, (0 <= c < a)%R → f (c :: us) = g1 us) → (∀ c us, (a <= c < 1)%R → f (c :: us) = g2 us) →
  ((0 < a)%R → Law n g1 d1) → ((a < 1)%R → Law n g2 d2) →
  Law (S n) f (λ x, a * d1 x + (1 - a) * d2 x)%R.
Proof.
  intros Ha H1 H2 L1 L2. apply (law_draw n _ _ [a; 1 - a]%R (λ i, if i =? 0 then d1 else d2)).
  - constructor; [lra|]. constructor; [lra|constructor].
  - rewrite !Rsum_cons, Rsum_nil. lra.
  - intros u i D. destruct i as [|[|i]]; [| |by destruct (draws_lt _ _ _ D); cbn in *; lia].
    + unfold draws, cdf in D. cbn in D. rewrite Rsum_cons, !Rsum_nil in D.
      eapply Law_ext; [apply L1; lra| |done]. intros us _. symmetry. apply H1. lra.
    + unfold draws, cdf in D. cbn in D. rewrite !Rsum_cons, !Rsum_nil in D.
      eapply Law_ext; [apply L2; lra| |done]. intros us _. symmetry. apply H2. lra.
  - intros x. unfold sumN, wt. cbn. rewrite !Rsum_cons, Rsum_nil. lra.
Qed.
End laws.

(** ** Rejection sampling of one token *)

Section one.
Context (V : nat) (p q : list R) (Hp : pmf V p) (Hq : pmf V q).

Definition accept_of (x : nat) : R := Rmin 1 (wt p x / wt q x).
Definition residual (v : nat) : R := Rmax (wt p v - wt q v) 0.
Definition residual_mass : R := sumN V residual.

Lemma accept_range x : (0 < wt q x)%R → (0 <= accept_of x <= 1)%R.
Proof.
  intros Hx. unfold accept_of. split; [|apply Rmin_l]. apply Rmin_glb; [lra|].
  pose proof (wt_nonneg p x (proj1 (proj2 Hp))). apply Rmult_le_pos; [done|]. left. by apply Rinv_0_lt_compat.
Qed.

Lemma accept_coin x c : (0 < wt q x)%R → (0 <= c < 1)%R →
  Rlt_b (c * wt q x) (wt p x) = Rlt_b c (accept_of x).
Proof.
  intros Hx Hc. assert (E : (wt p x = wt p x / wt q x * wt q x)%R) by (field; lra).
  destruct (Rlt_b c (accept_of x)) eqn:A.
  - apply Rlt_b_true in A. apply Rlt_b_true. rewrite E. apply Rmult_lt_compat_r; [done|].
    pose proof (Rmin_r 1 (wt p x / wt q x)). unfold accept_of in A. lra.
  - apply Rlt_b_false in A. apply Rlt_b_false. rewrite E. apply Rmult_le_compat_r; [lra|].
    unfold accept_of in A. destruct (Rmin_cases 1 (wt p x / wt q x)) as [[? Em]|[? Em]]; rewrite Em in A; lra.
Qed.

(** The mass accepted at [x] and the mass the residual adds make up the target. *)
Lemma accept_residual x : (wt q x * accept_of x + residual x)%R = wt p x \/ wt q x = 0%R.
Proof.
  destruct (Req_dec (wt q x) 0) as [|Hx]; [by right|left].
  pose proof (wt_nonneg q x (proj1 (proj2 Hq))). unfold accept_of, residual.
  assert (E : (wt q x * (wt p x / wt q x) = wt p x)%R) by (field; lra).
  destruct (Rmin_cases 1 (wt p x / wt q x)) as [[Hm ->]|[Hm ->]].
  - apply (Rmult_le_compat_l (wt q x)) in Hm; [|done]. rewrite E in Hm. rewrite Rmax_left by lra. lra.
  - apply (Rmult_le_compat_l (wt q x)) in Hm; [|done]. rewrite E in Hm |- *. rewrite Rmax_right by lra. lra.
Qed.

Lemma mass_split x : (wt q x * accept_of x + residual x)%R = wt p x.
Proof.
  destruct (accept_residual x) as [E|E]; [done|]. rewrite E. unfold residual. rewrite E.
  pose proof (wt_nonneg p x (proj1 (proj2 Hp))). rewrite Rmax_left by lra. lra.
Qed.

Lemma reject_mass : sumN V (λ x, wt q x * (1 - accept_of x))%R = residual_mass.
Proof.
  destruct Hp as (Lp & _ & Sp), Hq as (Lq & _ & Sq). rewrite Rsum_wts, Lp in Sp. rewrite Rsum_wts, Lq in Sq.
  assert (E : sumN V (λ x, wt q x * (1 - accept_of x) + wt p x)%R = sumN V (λ x, wt q x + residual x)%R).
  { apply sumN_ext. intros x _. rewrite <- (mass_split x). lra. }
  rewrite !sumN_add in E. unfold residual_mass. lra.
Qed.
End one.

(** ** The chain *)

(** The law of [[y]] for [y] drawn from the row [w]. *)
Definition one (w : list R) (l : list nat) : R := match l with [y] => wt w y | _ => 0%R end.

Definition shift (x : nat) (d : list nat → R) (l : list nat) : R :=
  match l with y :: l' => if decide (y = x) then d l' else 0%R | [] => 0%R end.

Lemma sumN_zero n f : (∀ i, i < n → f i = 0%R) → sumN n f = 0%R.
Proof. intros H. rewrite (sumN_ext n f (λ _, 0%R)) by done. apply Rsum_const0. Qed.

Lemma sumN_front n f : sumN (S n) f = (f 0%nat + sumN n (λ i, f (S i)))%R.
Proof. unfold sumN. cbn [seq fmap list_fmap]. rewrite Rsum_cons, <- fmap_S_seq, <- list_fmap_compose. done. Qed.

Lemma sumN_ge n f x : (∀ i, 0 <= f i)%R → x < n → (f x <= sumN n f)%R.
Proof.
  intros Hf. induction n as [|n IH]; [lia|]. intros Hx. rewrite sumN_S.
  assert (Hs : (0 <= sumN n f)%R) by (apply Rsum_nonneg, Forall_fmap, Forall_forall; intros; apply Hf).
  destruct (decide (x = n)) as [->|]; [lra|]. specialize (IH ltac:(lia)). pose proof (Hf n). lra.
Qed.

Lemma wt_ge w i : length w ≤ i → wt w i = 0%R.
Proof. intros H. unfold wt. by rewrite (proj2 (lookup_ge_None w i)) by done. Qed.

Lemma one_sum w l : sumN (length w) (λ i, wt w i * point [i] l)%R = one w l.
Proof.
  destruct l as [|y [|z l]].
  1, 3: apply sumN_zero; intros i _; unfold point; rewrite decide_False by done; lra.
  cbn. destruct (decide (y < length w)) as [Hy|Hy].
  - rewrite <- (Rmult_1_r (wt w y)), <- (sumN_pick (length w) y 1%R (wt w) Hy). apply sumN_ext. intros i _.
    unfold point. by repeat case_decide; simplify_eq.
  - rewrite wt_ge by lia. apply sumN_zero. intros i Hi. unfold point. rewrite decide_False by (intros [=]; lia). lra.
Qed.

Lemma law_shift n x g d : Law n g d → Law n (λ us, x :: g us) (shift x d).
Proof.
  intros L. induction L as [f d Hd|n f d ws ds Hw Hs _ IH Hd].
  - apply law_ret. intros [|y l]; cbn; [done|]. rewrite Hd. repeat case_decide; simplify_eq; done.
  - apply (law_draw n _ _ ws (λ i, shift x (ds i))); [done..|exact IH|].
    intros [|y l]; cbn; [symmetry; apply sumN_zero; intros; lra|]. case_decide; [apply Hd|].
    symmetry. apply sumN_zero. intros. lra.
Qed.

Section chain.
Context (V B : nat) (HB : 0 < B) (T : list nat → list R) (HT : ∀ pre, pmf V (T pre)).
Context (dr : list R → R → nat) (Hdr : ∀ q u, pmf V q → (0 <= u < 1)%R → draws q u (dr q u)).

(** The tokens the verification keeps, then the final draw. *)
Fixpoint emit (qs : list (list R)) (pre xs : list nat) (cs : list R) (f : R) : list nat :=
  match qs, xs, cs with
  | q :: qs, x :: xs, c :: cs =>
      if Rlt_b (c * wt q x) (wt (T pre) x) then x :: emit qs (pre ++ [x]) xs cs f
      else [final_sample V B (residual (T pre) q) f]
  | _, _, _ => [final_sample V B (wt (T pre)) f]
  end.

(** As a function of the request's draws; at most [m] tokens are committed. *)
Definition served (m : nat) (qs : list (list R)) (pre : list nat) (us : list R) : list nat :=
  let '(a, b, f) := deal us in take m (emit qs pre (zip_with dr qs a) b f).

Definition residual_row (p q : list R) : list R := (λ v, residual p q v / residual_mass V p q)%R <$> seq 0 V.

Fixpoint emitted_law (m : nat) (qs : list (list R)) (pre : list nat) : list nat → R :=
  match m with
  | 0 => point []
  | S m => match qs with
      | [] => one (T pre)
      | q :: qs => λ l, sumN V (λ x,
          wt q x * (accept_of (T pre) q x * shift x (emitted_law m qs (pre ++ [x])) l
                    + (1 - accept_of (T pre) q x) * one (residual_row (T pre) q) l))%R
      end
  end.

(** The target's probability of continuing [pre] with the tokens [y]. *)
Fixpoint seq_prob (pre y : list nat) : R :=
  match y with [] => 1%R | x :: y => (wt (T pre) x * seq_prob (pre ++ [x]) y)%R end.

Lemma target_draws pre u : (0 <= u < 1)%R → draws (T pre) u (final_sample V B (wt (T pre)) u).
Proof.
  intros Hu. destruct (HT pre) as (Hl & Hn & Hs).
  pose proof (final_sample_ok V B HB (wt (T pre)) u) as D. rewrite wt_self, Hs in D by done.
  specialize (D Hn Hu ltac:(lra)). apply draws_scale in D; [|lra]. by rewrite Rmult_1_r in D.
Qed.

Lemma residual_nonneg p q v : (0 <= residual p q v)%R.
Proof. apply Rmax_r. Qed.

Lemma residual_draws p q u : (0 < residual_mass V p q)%R → (0 <= u < 1)%R →
  draws (residual_row p q) u (final_sample V B (residual p q) u).
Proof.
  intros Hm Hu. pose proof (final_sample_ok V B HB (residual p q) u) as D.
  rewrite <- list_fmap_compose in D. apply D; [|done|done].
  apply Forall_fmap, Forall_forall. intros v _. apply residual_nonneg.
Qed.

Lemma residual_row_pmf p q : (0 < residual_mass V p q)%R → pmf V (residual_row p q).
Proof.
  intros Hm. unfold residual_row. split_and!.
  - by rewrite length_fmap, length_seq.
  - apply Forall_fmap, Forall_forall. intros v _. cbn. pose proof (residual_nonneg p q v).
    apply Rmult_le_pos; [done|]. left. by apply Rinv_0_lt_compat.
  - rewrite (Rsum_ext _ (λ v, / residual_mass V p q * residual p q v)%R)
      by (apply Forall_forall; intros; unfold Rdiv; lra).
    rewrite Rsum_scale. change (Rsum (residual p q <$> seq 0 V)) with (residual_mass V p q). field. lra.
Qed.

Lemma rejected_mass_pos p q x :
  pmf V p → pmf V q → (0 < wt q x)%R → (accept_of p q x < 1)%R → (0 < residual_mass V p q)%R.
Proof.
  intros Hp Hq Hx Ha. rewrite <- (reject_mass V p q Hp Hq).
  assert (Hxv : x < V). { destruct (decide (x < V)); [done|]. rewrite wt_ge in Hx by (rewrite (proj1 Hq); lia). lra. }
  set (f := λ x, (wt q x * (1 - accept_of p q x))%R).
  assert (Hf : ∀ i, (0 <= f i)%R).
  { intros i. unfold f. pose proof (wt_nonneg q i (proj1 (proj2 Hq))). apply Rmult_le_pos; [done|].
    unfold accept_of. pose proof (Rmin_l 1 (wt p i / wt q i)). lra. }
  assert (Hfx : (0 < f x)%R) by (unfold f; apply Rmult_lt_0_compat; lra).
  pose proof (sumN_ge V f x Hf Hxv). fold f. lra.
Qed.

Lemma deal_cons u c us : deal (u :: c :: us) = (u :: (deal us).1.1, c :: (deal us).1.2, (deal us).2).
Proof. cbn. by destruct (deal us) as [[a b] f]. Qed.

Lemma served_cons m q qs pre u c us x :
  pmf V q → draws q u x → (0 <= c < 1)%R →
  served (S m) (q :: qs) pre (u :: c :: us) =
    if Rlt_b c (accept_of (T pre) q x) then x :: served m qs (pre ++ [x]) us
    else [final_sample V B (residual (T pre) q) (deal us).2].
Proof.
  intros Hq D Hc. unfold served. rewrite deal_cons. destruct (deal us) as [[a b] f]. cbn [fst snd zip_with emit].
  assert (E : dr q u = x).
  { destruct Hq as (Hl & Hn & Hs). apply (draws_inj q u); [done| |done]. apply Hdr; [done|].
    by apply (draws_range q u x). }
  rewrite E, (accept_coin (T pre) q) by (try done; apply (draws_lt _ _ _ D)).
  destruct (Rlt_b _ _); [done|]. cbn [take]. by rewrite take_nil.
Qed.

Lemma served_law m qs pre :
  Forall (pmf V) qs → Law (length qs * 2 + 1) (served m qs pre) (emitted_law m qs pre).
Proof.
  intros Hqs. revert m pre. induction Hqs as [|q qs Hq Hqs IH]; intros m pre.
  - destruct m as [|m].
    + apply (Law_ext _ (λ _, []) _ (point []) _); [apply law_const| |done].
      intros us _. unfold served. by destruct (deal us) as [[a b] f].
    + destruct (HT pre) as (Hl & Hn & Hs).
      pose proof (law_row (T pre) (λ u, [final_sample V B (wt (T pre)) u]) (λ i, [i]) Hn Hs) as L.
      assert (Hd : ∀ u i, draws (T pre) u i → [final_sample V B (wt (T pre)) u] = [i]).
      { intros u i D. f_equal. apply (draws_inj (T pre) u); [done|apply target_draws|done].
        by apply (draws_range _ _ _ Hn Hs D). }
      apply (Law_ext _ _ _ _ _ (L Hd)).
      * intros [|u [|c us]] [Hu _]; try done. unfold served. cbn. by destruct m.
      * intros l. cbn. apply one_sum.
  - destruct m as [|m].
    { apply (Law_ext _ (λ _, []) _ (point []) _); [apply law_const| |done].
      intros us _. unfold served. by destruct (deal us) as [[a b] f]. }
    pose proof Hq as (Hl & Hn & Hs). cbn [length Nat.mul Nat.add emitted_law].
    eapply (law_draw _ _ _ q); [done|done| |intros l; by rewrite Hl].
    intros u x D. destruct (draws_lt _ _ _ D) as [_ Hpos]. pose proof (accept_range V (T pre) q (HT pre) x Hpos) as Ha.
    apply (law_coin _ _ _ (λ us, x :: served m qs (pre ++ [x]) us)
      (λ us, [final_sample V B (residual (T pre) q) (deal us).2]) _ _ Ha).
    + intros c us Hc. rewrite (served_cons m q qs pre u c us x) by (done || lra).
      by rewrite (proj2 (Rlt_b_true _ _)) by lra.
    + intros c us Hc. rewrite (served_cons m q qs pre u c us x) by (done || lra).
      by rewrite (proj2 (Rlt_b_false _ _)) by lra.
    + intros _. apply law_shift, IH.
    + intros Hlt. pose proof (rejected_mass_pos (T pre) q x (HT pre) Hq Hpos Hlt) as Hm.
      destruct (residual_row_pmf (T pre) q Hm) as (Rl & Rn & Rs).
      apply (law_last (length qs) (λ f, [final_sample V B (residual (T pre) q) f])).
      pose proof (law_row (residual_row (T pre) q) (λ u, [final_sample V B (residual (T pre) q) u]) (λ i, [i]) Rn Rs) as L.
      eapply law_ext_d; [apply L|apply one_sum].
      intros v i Di. f_equal. apply (draws_inj (residual_row (T pre) q) v); [done| |done].
      apply residual_draws; [done|]. by apply (draws_range _ _ _ Rn Rs Di).
Qed.

Lemma emitted_law_nil m qs pre : emitted_law (S m) qs pre [] = 0%R.
Proof.
  destruct qs as [|q qs]; cbn; [done|]. apply sumN_zero. intros. lra.
Qed.

Lemma residual_one p q y l :
  pmf V p → pmf V q →
  (residual_mass V p q * one (residual_row p q) (y :: l))%R =
    if decide (l = []) then residual p q y else 0%R.
Proof.
  intros Hp Hq. destruct l as [|z l]; [|rewrite decide_False by done; cbn; lra]. rewrite decide_True by done. cbn [one].
  assert (Hn : Forall (λ x, 0 <= x)%R (residual p q <$> seq 0 V))
    by (apply Forall_fmap, Forall_forall; intros; apply residual_nonneg).
  destruct (decide (y < V)) as [Hy|Hy].
  - unfold residual_row. rewrite wt_seq by done. destruct (Req_dec (residual_mass V p q) 0) as [E|E].
    + pose proof (Rsum_zeros _ Hn E) as Z. rewrite E, Rmult_0_l. symmetry.
      eapply (Forall_lookup_1 _ _ y) in Z; [exact Z|]. by rewrite list_lookup_fmap, lookup_seq_lt.
    + field. done.
  - rewrite wt_ge by (unfold residual_row; rewrite length_fmap, length_seq; lia). unfold residual.
    rewrite !wt_ge by (rewrite ?(proj1 Hp), ?(proj1 Hq); lia). rewrite Rmax_left by lra. lra.
Qed.

Lemma emitted_law_cons m q qs pre y l :
  pmf V q →
  emitted_law (S m) (q :: qs) pre (y :: l) =
    (wt q y * accept_of (T pre) q y * emitted_law m qs (pre ++ [y]) l
     + if decide (l = []) then residual (T pre) q y else 0)%R.
Proof.
  intros Hq. cbn [emitted_law]. rewrite <- (residual_one (T pre) q y l (HT pre) Hq), <- reject_mass by done.
  rewrite (sumN_ext V _ (λ x, wt q x * accept_of (T pre) q x
      * (if decide (x = y) then emitted_law m qs (pre ++ [y]) l else 0)
    + one (residual_row (T pre) q) (y :: l) * (wt q x * (1 - accept_of (T pre) q x)))%R).
  2: { intros x _. cbn [shift]. destruct (decide (y = x)) as [->|]; [rewrite decide_True by done|rewrite decide_False by done]; lra. }
  rewrite sumN_add, sumN_scale. f_equal; [|lra]. destruct (decide (y < V)) as [Hy|Hy].
  - by rewrite (sumN_pick V y _ (λ x, wt q x * accept_of (T pre) q x)%R).
  - rewrite (wt_ge q y) by (rewrite (proj1 Hq); lia). rewrite sumN_zero; [lra|].
    intros x Hx. rewrite decide_False by lia. lra.
Qed.

(** Committing at most [m] tokens and letting the target continue is sampling [m] tokens from the
    target. *)
Lemma emitted_law_exact m qs pre y :
  Forall (pmf V) qs → m ≤ S (length qs) → length y = m →
  sumN (S m) (λ k, emitted_law m qs pre (take k y) * seq_prob (pre ++ take k y) (drop k y))%R
  = seq_prob pre y.
Proof.
  intros Hqs. revert m pre y. induction Hqs as [|q qs Hq Hqs IH]; intros m pre y Hm Hy.
  - destruct m as [|[|m]]; [| |cbn in Hm; lia].
    + apply nil_length_inv in Hy as ->. rewrite sumN_S. unfold sumN. cbn. rewrite Rsum_nil.
      unfold point. rewrite decide_True by done. lra.
    + destruct y as [|y0 [|y1 y]]; [done| |done]. unfold sumN. cbn. rewrite !Rsum_cons, Rsum_nil. lra.
  - destruct m as [|m].
    + apply nil_length_inv in Hy as ->. rewrite sumN_S. unfold sumN. cbn. rewrite Rsum_nil.
      unfold point. rewrite decide_True by done. lra.
    + destruct y as [|y0 y]; [done|]. injection Hy as Hy. cbn in Hm. rewrite sumN_front.
      cbn [take drop]. rewrite emitted_law_nil, Rmult_0_l, Rplus_0_l.
      rewrite (sumN_ext (S m) _ (λ k,
        wt q y0 * accept_of (T pre) q y0 *
          (emitted_law m qs (pre ++ [y0]) (take k y) * seq_prob ((pre ++ [y0]) ++ take k y) (drop k y))
        + (λ k, residual (T pre) q y0 * seq_prob ((pre ++ [y0]) ++ take k y) (drop k y))%R k
            * (if decide (k = 0%nat) then 1 else 0))%R).
      2: { intros k Hk. rewrite emitted_law_cons by done. rewrite <- app_assoc. cbn [app].
           assert (E : (if decide (take k y = []) then residual (T pre) q y0 else 0)%R
             = (residual (T pre) q y0 * (if decide (k = 0%nat) then 1 else 0))%R).
           { destruct k as [|k]; [rewrite !decide_True by done; lra|].
             rewrite !decide_False; [lra|done|]. destruct y; cbn in *; [lia|done]. }
           rewrite E. lra. }
      rewrite sumN_add, sumN_scale, IH, sumN_pick by (done || lia). cbn [take drop seq_prob].
      rewrite app_nil_r. rewrite <- (mass_split V (T pre) q (HT pre) Hq y0). rewrite drop_0. lra.
Qed.
End chain.
