(* ===== verification/LatentServe.v ===== *)
(** * LatentServe: one speculative step of the LatentSpec worker

    Composes, for a batch, what [forward_batch_generation] of
    [srt/speculative/dflash_worker_v2.py] does once the draft model has produced
    its logits: draw the proposals ([_sample_latentspec_draft_block], device
    branch), prepend the current token, let the target model score every prefix,
    and accept ([_accept_block], logits branch).  The target model is third-party
    to this file: [next_logits b toks] are its logits after request [b]'s context
    and the tokens [toks] of the verified block; causal attention makes row [i]
    of the verification a function of the first [S i] tokens.  The theorem is
    that every request's committed tokens follow the target's distribution. *)

From S2P Require Import Prelude TensorOps GreedyAccept RealLaw LatentSampler RejectKernel LatentAccept ExactLaw.
From Stdlib Require Import Reals Lra.
#[local] Open Scope nat_scope.
#[local] Arguments Nat.ltb : simpl never.

(** ** The step *)

(** [sampling_info.temperatures.view(-1).float().clamp_min(1e-5)]. *)
Definition clamp_temperatures (temperatures : list R) : list R :=
  (λ t, Rmax t (1 / 100000))%R <$> temperatures.

Definition _sample_latentspec_draft_block (draft_logits : list (list (list R)))
    (num_draft_predictions vocab_size : nat) (temperatures uniforms : list R)
  : list (list nat) * list (list R) :=
  sample_latentspec_draft_logits_cuda draft_logits num_draft_predictions vocab_size
    (clamp_temperatures temperatures) uniforms.

(** The target scores each position of each row from the tokens up to it. *)
Definition target_verify (next_logits : nat → list nat → list R) (candidates : list (list nat))
  : list (list R) :=
  concat (imap (λ b (cand : list nat), (λ i, next_logits b (take (S i) cand)) <$> seq 0 (length cand)) candidates).

Section step.
Context (torch_empty : nat → list nat).

(** (accept_len, commit_lens, bonus, out_tokens) and the buffers. *)
Definition StepOut : Type :=
  list nat * list nat * list nat * list (list nat) * gmap nat chain_buffers.

Definition _accept_block_logits (candidates : list (list nat)) (next_token_logits : list (list R))
    (temperatures : list R) (draft_logits : list (list (list R))) (draft_log_norm : list (list R))
    (vocab_size verify_num_draft_tokens : nat) (uniform_samples : list (list R))
    (uniform_samples_final : list R) (cache : gmap nat chain_buffers) : result StepOut :=
  let gamma := verify_num_draft_tokens - 1 in
  '(accept_len, bonus, _, cache) ← accept_sampling_from_logits torch_empty candidates next_token_logits
      draft_logits draft_log_norm temperatures gamma vocab_size verify_num_draft_tokens None
      uniform_samples uniform_samples_final cache;
  let accept_len := Z.to_nat <$> accept_len in
  let '(out_tokens, commit_lens) := _commit_accept 0 candidates accept_len bonus in
  Ok (accept_len, commit_lens, bonus, out_tokens, cache).

Definition latentspec_step (next_logits : nat → list nat → list R) (anchors : list nat)
    (draft_logits : list (list (list R))) (num_draft_predictions vocab_size : nat) (temperatures : list R)
    (draft_uniforms : list R) (uniform_samples : list (list R)) (uniform_samples_final : list R)
    (cache : gmap nat chain_buffers) : result StepOut :=
  let '(draft_next, draft_log_norm) :=
    _sample_latentspec_draft_block draft_logits num_draft_predictions vocab_size temperatures draft_uniforms in
  let candidates := zip_with cons anchors draft_next in
  let next_token_logits := target_verify next_logits candidates in
  _accept_block_logits candidates next_token_logits temperatures draft_logits draft_log_norm vocab_size
    (S num_draft_predictions) uniform_samples uniform_samples_final cache.

(** The tokens request [b] commits. *)
Definition committed (b : nat) (r : result StepOut) : list nat :=
  match r with
  | Ok (_, commit_lens, _, out_tokens, _) => take (default 0 (commit_lens !! b)) (row2 out_tokens b)
  | Raise _ => []
  end.
End step.

(** ** Rows of a batch *)

Lemma view_2d_row {A} n w (l r : list A) b :
  b < n → length r = w → (∀ i, i < w → l !! (b * w + i) = r !! i) → view_2d n w l !! b = Some r.
Proof.
  intros Hb Hr Hl. unfold view_2d. rewrite list_lookup_fmap, lookup_seq_lt by done. cbn [fmap option_fmap option_map Nat.add]. f_equal.
  apply list_eq. intros i. destruct (decide (i < w)) as [Hi|Hi].
  - rewrite lookup_py_slice by lia. by apply Hl.
  - rewrite !(proj2 (lookup_ge_None _ i)); [done|lia|]. rewrite length_py_slice. lia.
Qed.

(** A flat per-row function, viewed again as a batch. *)
Lemma view_imap_row {A B} n w (f : nat → A → B) (m : list (list A)) b r :
  Forall (λ r, length r = w) m → m !! b = Some r → b < n →
  view_2d n w (imap f (concat m)) !! b = Some (imap (λ i, f (b * w + i)) r).
Proof.
  intros Hm Hr Hb. pose proof (Forall_lookup_1 _ _ _ _ Hm Hr) as Hw. cbn in Hw.
  apply view_2d_row; [done|by rewrite length_imap|]. intros i Hi.
  by rewrite !list_lookup_imap, (concat_rows_lookup m w), Hr by done.
Qed.

Lemma row2_Some {A} (m : list (list A)) b r : m !! b = Some r → row2 m b = r.
Proof. unfold row2. by intros ->. Qed.

Lemma wt_Some w i x : w !! i = Some x → wt w i = x.
Proof. unfold wt. by intros ->. Qed.

Lemma div_row b w i : i < w → (b * w + i) / w = b.
Proof. intros. rewrite Nat.div_add_l, Nat.div_small by lia. lia. Qed.

(** ** The committed tokens *)

Lemma commit_toks (drafts toks : list nat) n k :
  k ≤ n → n ≤ length drafts → take n toks = take n drafts → length toks = S n →
  take (S k) (<[k := default 0 (toks !! k)]> (drafts ++ [0])) = take (S k) toks.
Proof.
  intros Hk Hn Ht Hl. apply list_eq. intros i. destruct (decide (i < S k)) as [Hi|Hi].
  - rewrite !lookup_take_lt by done. destruct (decide (i = k)) as [->|].
    + rewrite list_lookup_insert_eq by (rewrite length_app; cbn; lia).
      by destruct (lookup_lt_is_Some_2 toks k ltac:(lia)) as [x ->].
    + rewrite list_lookup_insert_ne by done. rewrite lookup_app_l by lia.
      rewrite <- (lookup_take_lt toks n) by lia. by rewrite Ht, lookup_take_lt by lia.
  - by rewrite !lookup_take_ge by lia.
Qed.

Lemma leading_shift (f : nat → bool) s k : leading f (seq (S s) k) = leading (λ i, f (S i)) (seq s k).
Proof. revert s. induction k as [|k IH]; intros s; cbn; [done|]. by rewrite IH. Qed.

Lemma leading_ext {A} (f g : A → bool) l : (∀ x, x ∈ l → f x = g x) → leading f l = leading g l.
Proof.
  induction l as [|x l IH]; intros H; [done|]. cbn. rewrite (H x) by left. rewrite IH; [done|].
  intros y Hy. apply H. by right.
Qed.

(** The kernel's stores for one request are [emit]. *)
Lemma emit_kernel V B (T : list nat → list R) qs pre xs cs f :
  length xs = length qs → length cs = length qs →
  let p i := wt (T (pre ++ take i xs)) in
  let q i := wt (default [] (qs !! i)) in
  let flag i := Rlt_b (wt cs i * q i (default 0 (xs !! i))) (p i (default 0 (xs !! i))) in
  let n := leading flag (seq 0 (length qs)) in
  emit V B T qs pre xs cs f
  = take n xs ++ [final_sample V B (λ v, if n =? length qs then p n v else Rmax (p n v - q n v) 0) f].
Proof.
  revert pre xs cs. induction qs as [|q qs IH]; intros pre xs cs Hx Hc.
  - cbn. by rewrite take_0, app_nil_r.
  - destruct xs as [|x xs]; [done|]. destruct cs as [|c cs]; [done|]. injection Hx as Hx. injection Hc as Hc.
    cbv zeta. cbn [emit length seq leading]. rewrite leading_shift. cbn [lookup list_lookup default take].
    change (wt (c :: cs) 0) with c. rewrite app_nil_r. unfold Datatypes.id. destruct (Rlt_b (c * wt q x) (wt (T pre) x)).
    + rewrite (IH (pre ++ [x]) xs cs Hx Hc). cbv zeta. cbn [take app].
      assert (Ea : ∀ i, (pre ++ [x]) ++ take i xs = pre ++ x :: take i xs) by (intros; by rewrite <- app_assoc).
      rewrite (leading_ext _ (λ i, Rlt_b (wt cs i * wt (default [] (qs !! i)) (default 0 (xs !! i)))
        (wt (T (pre ++ x :: take i xs)) (default 0 (xs !! i))))) by (intros i _; by rewrite Ea).
      apply (f_equal (λ y, x :: _ ++ [y])). apply final_sample_ext. intros v _. by rewrite Ea.
    + cbn [take app]. f_equal. apply final_sample_ext. intros v _. by rewrite app_nil_r.
Qed.

Section request.
Context (V B : nat) (T : list nat → list R) (qs : list (list R)) (a : nat) (xs : list nat) (cs : list R).
Context (p q : nat → nat → R).
#[local] Notation gamma := (length qs).
Context (Hxs : length xs = gamma) (Hcs : length cs = gamma) (HxV : Forall (λ x, x < V) xs).
Context (Hp : ∀ i v, i ≤ gamma → v < V → p i v = wt (T (take i xs)) v).
Context (Hq : ∀ i v, i < gamma → v < V → q i v = wt (default [] (qs !! i)) v).

Definition request_toks (f : R) : list nat :=
  let n := num_accepted (S gamma) (a :: xs) cs p q in
  take n (drop 1 (a :: xs)) ++ [final_token (S gamma) V B (a :: xs) cs p q f].

Lemma request_n_le : num_accepted (S gamma) (a :: xs) cs p q ≤ gamma.
Proof.
  pose proof (leading_le (accept_flag (a :: xs) cs p q) (seq 0 (S gamma - 1))) as L.
  rewrite length_seq in L. unfold num_accepted. lia.
Qed.

Lemma request_emit f : request_toks f = emit V B T qs [] xs cs f.
Proof.
  rewrite (emit_kernel V B T qs [] xs cs f Hxs Hcs). cbv zeta. unfold request_toks, final_token.
  set (n := num_accepted (S gamma) (a :: xs) cs p q).
  match goal with |- _ = take ?m _ ++ _ => assert (En : n = m) end.
  { unfold n, num_accepted. rewrite Nat.sub_succ, Nat.sub_0_r. apply leading_ext. intros i Hi%elem_of_seq.
    unfold accept_flag. change ((a :: xs) !! S i) with (xs !! i).
    destruct (lookup_lt_is_Some_2 xs i ltac:(lia)) as [x Hx]. rewrite Hx.
    pose proof (Forall_lookup_1 _ _ _ _ HxV Hx) as HxV'. cbn in HxV'.
    cbn [from_option app]. unfold Datatypes.id. by rewrite (Hp i x), (Hq i x) by lia. }
  pose proof request_n_le as Hn. fold n in Hn.
  rewrite <- En. cbn [drop app]. apply (f_equal (λ y, _ ++ [y])). apply final_sample_ext. intros v Hv.
  unfold final_values. fold n. rewrite Nat.sub_succ, Nat.sub_0_r.
  destruct (n =? gamma) eqn:E; [by apply Hp|]. apply Nat.eqb_neq in E. by rewrite Hp, Hq by lia.
Qed.

Lemma request_toks_length f :
  length (request_toks f) = S (num_accepted (S gamma) (a :: xs) cs p q) ∧
  num_accepted (S gamma) (a :: xs) cs p q < S gamma.
Proof.
  pose proof request_n_le. split; [|lia]. unfold request_toks. rewrite length_app, length_take, length_drop. cbn [length]. lia.
Qed.
End request.

(** ** Distributions *)

Lemma icdf_draws V w u : pmf V w → (0 <= u < 1)%R → draws w u (icdf w u).
Proof. intros (Hl & Hn & Hs) Hu. apply icdf_spec; [done|lra]. Qed.

Lemma softmax_pmf l : l ≠ [] → pmf (length l) (softmaxR l).
Proof.
  intros Hl. split_and!; [unfold softmaxR; by rewrite !length_fmap|by apply softmaxR_nonneg|by apply softmaxR_sum].
Qed.

(** The temperature-scaled softmax of a row of logits. *)
Definition temp_dist (t : R) (l : list R) : list R := softmaxR ((λ x, x / t)%R <$> l).

Lemma temp_dist_pmf V t l : length l = V → 0 < V → pmf V (temp_dist t l).
Proof.
  intros Hl HV. unfold temp_dist. rewrite <- Hl, <- (length_fmap (λ x, x / t)%R l). apply softmax_pmf.
  intros E%(f_equal length). rewrite length_fmap in E. cbn in E. lia.
Qed.

(** Rebuilding a probability from its logit and the row's log normalizer. *)
Lemma prob_of_ok V logits norms t i v l :
  logits !! i = Some l → length l = V → v < V →
  norms !! i = Some (ln (Rsum (exp <$> ((λ x, x / t)%R <$> l)))) →
  prob_of logits norms t i v = wt (temp_dist t l) v.
Proof.
  intros Hi Hl Hv Hn. unfold prob_of, at2. rewrite Hi. change (default [] (Some l)) with l.
  destruct (lookup_lt_is_Some_2 l v ltac:(lia)) as [x Hx]. rewrite (wt_Some l v x Hx), (wt_Some norms i _ Hn).
  assert (Hp : (0 < Rsum (exp <$> ((λ x, x / t)%R <$> l)))%R).
  { apply exp_sum_pos. intros E%(f_equal length). rewrite !length_fmap in E. cbn in E. lia. }
  symmetry. unfold temp_dist, softmaxR. apply wt_Some. rewrite !list_lookup_fmap, Hx. cbn. f_equal.
  unfold Rminus. rewrite exp_plus, exp_Ropp, exp_ln by done. done.
Qed.

(** ** The batch *)

Section batch.
Context (torch_empty : nat → list nat) (Hempty : ∀ n, length (torch_empty n) = n).
Context (gamma V : nat) (next_logits : nat → list nat → list R) (anchors : list nat).
Context (draft_logits : list (list (list R))) (temperatures : list R).
#[local] Notation bs := (length anchors).

Record batch_ok : Prop := {
  bk_vocab : 0 < V;
  bk_target : ∀ b toks, length (next_logits b toks) = V;
  bk_draft : length draft_logits = bs;
  bk_rows : Forall (λ rows, length rows = gamma ∧ Forall (λ l, length l = V) rows) draft_logits;
  bk_temps : length temperatures = bs;
  bk_clamp : Forall (λ t, 1 / 100000 <= t)%R temperatures
}.
Context (Hok : batch_ok).

Definition draft_dists (b : nat) : list (list R) := temp_dist (wt temperatures b) <$> row2 draft_logits b.
Definition target_dist (b : nat) (pre : list nat) : list R :=
  temp_dist (wt temperatures b) (next_logits b (default 0 (anchors !! b) :: pre)).

Lemma clamp_id : clamp_temperatures temperatures = temperatures.
Proof using Hok.
  unfold clamp_temperatures. pose proof (bk_clamp Hok) as H.
  induction H as [|t ts Ht _ IH]; [done|]. cbn. by rewrite Rmax_left, IH by done.
Qed.

Lemma draft_rows b : b < bs → ∃ rows, draft_logits !! b = Some rows ∧ length rows = gamma ∧
  Forall (λ l, length l = V) rows ∧ draft_dists b = temp_dist (wt temperatures b) <$> rows.
Proof using Hok.
  intros Hb. destruct (lookup_lt_is_Some_2 draft_logits b) as [rows Hr]; [by rewrite (bk_draft Hok)|].
  destruct (Forall_lookup_1 _ _ _ _ (bk_rows Hok) Hr) as [H1 H2]. exists rows. split_and!; try done.
  unfold draft_dists. by rewrite (row2_Some _ _ _ Hr).
Qed.

Lemma draft_dists_ok b : b < bs → length (draft_dists b) = gamma ∧ Forall (pmf V) (draft_dists b).
Proof using Hok.
  intros Hb. destruct (draft_rows b Hb) as (rows & _ & Hl & Hv & ->). rewrite length_fmap. split; [done|].
  apply Forall_fmap. eapply Forall_impl; [exact Hv|]. intros l Hlv. cbn. apply temp_dist_pmf; [done|apply Hok].
Qed.

Lemma target_dist_ok b pre : pmf V (target_dist b pre).
Proof using Hok. apply temp_dist_pmf; [apply (bk_target Hok)|apply Hok]. Qed.

(** The proposals of request [b] are drawn from its distributions, and the normalizers are exact. *)
Lemma draft_block_row b du :
  b < bs → length du = bs * gamma → Forall (λ u, 0 <= u < 1)%R du →
  let '(toks, norms) := _sample_latentspec_draft_block draft_logits gamma V temperatures du in
  length toks = bs ∧
  toks !! b = Some (zip_with icdf (draft_dists b) (take gamma (drop (b * gamma) du))) ∧
  norms !! b = Some ((λ l, ln (Rsum (exp <$> ((λ x, x / wt temperatures b)%R <$> l)))) <$> row2 draft_logits b).
Proof using Hok.
  intros Hb Hdu Hu. unfold _sample_latentspec_draft_block, sample_latentspec_draft_logits_cuda. rewrite clamp_id.
  destruct (draft_rows b Hb) as (rows & Hr & Hl & Hv & ->). rewrite (row2_Some _ _ _ Hr), (bk_draft Hok).
  rewrite !fmap_imap. cbv zeta.
  assert (Hrows : Forall (λ r, length r = gamma) draft_logits).
  { eapply Forall_impl; [apply (bk_rows Hok)|]. by intros r []. }
  split; [unfold view_2d; by rewrite length_fmap, length_seq|].
  rewrite !(view_imap_row bs gamma _ draft_logits b rows) by done.
  split; f_equal; apply list_eq; intros i; rewrite list_lookup_imap.
  - rewrite lookup_zip_with, list_lookup_fmap. destruct (rows !! i) as [l|] eqn:E; [|done].
    pose proof (lookup_lt_Some _ _ _ E) as Hi. rewrite lookup_take_lt, lookup_drop by lia. cbn.
    destruct (lookup_lt_is_Some_2 du (b * gamma + i)) as [u Eu]; [nia|]. rewrite Eu. cbn. f_equal.
    rewrite div_row, (wt_Some du _ u Eu) by lia. pose proof (Forall_lookup_1 _ _ _ _ Hu Eu) as Hur. cbn in Hur.
    pose proof (Forall_lookup_1 _ _ _ _ Hv E) as Hlv. cbn in Hlv.
    rewrite <- Hlv.
    assert (Hne : l ≠ []) by (intros ->; pose proof (bk_vocab Hok); cbn in *; lia).
    destruct (logit_row_draws VOCAB_BLOCK VOCAB_BLOCK_pos l (wt temperatures b) Hne u Hur) as [D _].
    pose proof (temp_dist_pmf V (wt temperatures b) l Hlv (bk_vocab Hok)) as Hd.
    eapply draws_inj; [apply Hd|exact D|by eapply icdf_draws].
  - rewrite list_lookup_fmap. destruct (rows !! i) as [l|] eqn:E; [|done].
    pose proof (lookup_lt_Some _ _ _ E) as Hi.
    cbn [fmap option_fmap option_map compose]. f_equal. rewrite div_row by lia.
    destruct (lookup_lt_is_Some_2 du (b * gamma + i)) as [u Eu]; [nia|]. rewrite (wt_Some du _ u Eu).
    pose proof (Forall_lookup_1 _ _ _ _ Hu Eu) as Hur. cbn in Hur.
    pose proof (Forall_lookup_1 _ _ _ _ Hv E) as Hlv. cbn in Hlv.
    rewrite <- Hlv.
    assert (Hne : l ≠ []) by (intros ->; pose proof (bk_vocab Hok); cbn in *; lia).
    by destruct (logit_row_draws VOCAB_BLOCK VOCAB_BLOCK_pos l (wt temperatures b) Hne u Hur) as [_ D].
Qed.

(** The verification's rows for request [b]. *)
Lemma verify_target_rows cands b cand :
  length cands = bs → Forall (λ c, length c = S gamma) cands → cands !! b = Some cand →
  row2 (view_2d bs (S gamma) (target_verify next_logits cands)) b
    = (λ i, next_logits b (take (S i) cand)) <$> seq 0 (S gamma) ∧
  row2 (logsumexp_temp_triton (target_verify next_logits cands) temperatures (S gamma) V) b
    = (λ i, ln (Rsum (exp <$> ((λ x, x / wt temperatures b)%R <$> next_logits b (take (S i) cand)))))
        <$> seq 0 (S gamma).
Proof using Hok.
  intros Hl Hc Hb. pose proof (lookup_lt_Some _ _ _ Hb) as Hlt. rewrite Hl in Hlt. unfold target_verify.
  set (M := imap _ cands).
  assert (HM : Forall (λ r, length r = S gamma) M).
  { apply Forall_lookup. intros j r Hr. unfold M in Hr. rewrite list_lookup_imap in Hr.
    destruct (cands !! j) as [c|] eqn:E; [|done]. injection Hr as <-.
    rewrite length_fmap, length_seq. by apply (Forall_lookup_1 _ _ _ _ Hc E). }
  assert (Hlen : length M = bs) by (unfold M; by rewrite length_imap).
  assert (Hrow : M !! b = Some ((λ i, next_logits b (take (S i) cand)) <$> seq 0 (S gamma))).
  { unfold M. rewrite list_lookup_imap, Hb. cbn [fmap option_fmap option_map].
    by rewrite (Forall_lookup_1 _ _ _ _ Hc Hb). }
  assert (Hcl : length (concat M) = bs * S gamma).
  { rewrite <- Hlen. clear -HM. induction HM as [|r M Hr _ IH]; [done|]. cbn [concat length].
    rewrite length_app, IH, Hr. lia. }
  split; apply row2_Some.
  - apply view_2d_row; [done|by rewrite length_fmap, length_seq|]. intros i Hi.
    by rewrite (concat_rows_lookup M (S gamma)), Hrow by done.
  - unfold logsumexp_temp_triton. cbv zeta. rewrite Hcl, Nat.div_mul by lia.
    rewrite (view_imap_row bs (S gamma) _ M b _ HM Hrow Hlt). f_equal. apply list_eq. intros i.
    rewrite list_lookup_imap, !list_lookup_fmap. destruct (decide (i < S gamma)) as [Hi|Hi].
    + rewrite lookup_seq_lt by done. cbn [fmap option_fmap option_map Nat.add]. rewrite div_row by done. f_equal.
      pose proof (bk_target Hok b (take (S i) cand)) as Hnl. rewrite <- Hnl at 1.
      apply logsumexp_kernel_ok; [apply VOCAB_BLOCK_pos|]. intros E. rewrite E in Hnl.
      pose proof (bk_vocab Hok). cbn in Hnl. lia.
    + by rewrite lookup_seq_ge by lia.
Qed.

Lemma shape_check : shape_ok bs gamma V draft_logits = true.
Proof using Hok.
  unfold shape_ok. rewrite (bk_draft Hok), Nat.eqb_refl. cbn [andb]. apply forallb_forall.
  intros rows Hin%list_elem_of_In. pose proof (bk_rows Hok) as Hr. rewrite Forall_forall in Hr.
  destruct (Hr rows Hin) as [-> Hv]. rewrite Nat.eqb_refl. cbn [andb]. apply forallb_forall.
  intros l Hl%list_elem_of_In. rewrite Forall_forall in Hv. rewrite (Hv l Hl). by rewrite Nat.eqb_refl.
Qed.

(** ** Every request's committed tokens *)

Record draws_ok (du : list R) (coins : list (list R)) (fin : list R) : Prop := {
  do_len : length du = bs * gamma;
  do_range : Forall (λ u, 0 <= u < 1)%R du;
  do_coins : length coins = bs;
  do_fin : length fin = bs;
  do_coin_rows : Forall (λ c, length c = gamma) coins
}.

Section verify.
Context (du : list R) (coins : list (list R)) (fin : list R) (Hdraws : draws_ok du coins fin).

Definition proposals (b : nat) : list nat := zip_with icdf (draft_dists b) (take gamma (drop (b * gamma) du)).
Definition candidate_row (b : nat) : list nat := default 0 (anchors !! b) :: proposals b.

Lemma proposals_ok b : b < bs → length (proposals b) = gamma ∧ Forall (λ x, x < V) (proposals b).
Proof using Hok Hdraws.
  intros Hb. destruct (draft_dists_ok b Hb) as [Hl Hd]. destruct Hdraws as [D1 D2 _ _ _]. split.
  - unfold proposals. rewrite length_zip_with, Hl, length_take, length_drop. nia.
  - unfold proposals. apply Forall_lookup. intros i x Hx.
    apply lookup_zip_with_Some in Hx as (q & u & -> & Hq & Hu).
    pose proof (Forall_lookup_1 _ _ _ _ Hd Hq) as Hqd. apply lookup_take_Some in Hu as [Hu _].
    rewrite lookup_drop in Hu. pose proof (Forall_lookup_1 _ _ _ _ D2 Hu) as Hur.
    rewrite <- (proj1 Hqd). apply (draws_lt q u). by eapply icdf_draws.
Qed.

Lemma candidates_ok toks :
  length toks = bs → (∀ b, b < bs → toks !! b = Some (proposals b)) →
  zip_with cons anchors toks = candidate_row <$> seq 0 bs.
Proof using Hok.
  intros Hl Ht. apply list_eq. intros b. rewrite lookup_zip_with, list_lookup_fmap.
  destruct (decide (b < bs)) as [Hb|Hb].
  - rewrite lookup_seq_lt by done. rewrite (Ht b Hb). unfold candidate_row.
    cbn [fmap option_fmap option_map Nat.add].
    by destruct (lookup_lt_is_Some_2 anchors b Hb) as [a ->].
  - rewrite lookup_seq_ge by lia. by rewrite (proj2 (lookup_ge_None anchors b)) by lia.
Qed.

Lemma candidate_rows b : b < bs → length (candidate_row b) = S gamma.
Proof using Hok Hdraws. intros Hb. cbn. by rewrite (proj1 (proposals_ok b Hb)). Qed.

(** The tokens request [b] commits, as a function of its own draws. *)
Definition emitted (b : nat) : list nat :=
  emit V VOCAB_BLOCK (target_dist b) (draft_dists b) [] (proposals b) (row2 coins b) (wt fin b).

Section kernel.
Context (tl3 : list (list (list R))) (tn dn : list (list R)).
Hypothesis Htl : ∀ b, b < bs →
  row2 tl3 b = (λ i, next_logits b (take (S i) (candidate_row b))) <$> seq 0 (S gamma).
Hypothesis Htn : ∀ b, b < bs → row2 tn b =
  (λ i, ln (Rsum (exp <$> ((λ x, x / wt temperatures b)%R <$> next_logits b (take (S i) (candidate_row b))))))
    <$> seq 0 (S gamma).
Hypothesis Hdn : ∀ b, b < bs → row2 dn b =
  (λ l, ln (Rsum (exp <$> ((λ x, x / wt temperatures b)%R <$> l)))) <$> row2 draft_logits b.

Definition p_of (b : nat) := prob_of (row2 tl3 b) (row2 tn b) (wt temperatures b).
Definition q_of (b : nat) := prob_of (row2 draft_logits b) (row2 dn b) (wt temperatures b).

Lemma p_of_ok b i v : b < bs → i ≤ gamma → v < V →
  p_of b i v = wt (target_dist b (take i (proposals b))) v.
Proof using Hok Htl Htn.
  intros Hb Hi Hv. unfold p_of, target_dist. rewrite (Htl b Hb), (Htn b Hb).
  apply (prob_of_ok V); [|apply (bk_target Hok)|done|];
    rewrite list_lookup_fmap, lookup_seq_lt by lia; done.
Qed.

Lemma q_of_ok b i v : b < bs → i < gamma → v < V →
  q_of b i v = wt (default [] (draft_dists b !! i)) v.
Proof using Hok Hdn.
  intros Hb Hi Hv. unfold q_of. rewrite (Hdn b Hb). destruct (draft_rows b Hb) as (rows & Hr & Hl & Hf & ->).
  rewrite (row2_Some _ _ _ Hr). destruct (lookup_lt_is_Some_2 rows i ltac:(lia)) as [l El].
  rewrite list_lookup_fmap, El. apply (prob_of_ok V); [done|by apply (Forall_lookup_1 _ _ _ _ Hf El)|done|].
  by rewrite list_lookup_fmap, El.
Qed.

Definition stored (b : nat) : list nat :=
  let n := num_accepted (S gamma) (candidate_row b) (row2 coins b) (p_of b) (q_of b) in
  take n (drop 1 (candidate_row b))
    ++ [final_token (S gamma) V VOCAB_BLOCK (candidate_row b) (row2 coins b) (p_of b) (q_of b) (wt fin b)].

Lemma stored_ok b : b < bs →
  let n := num_accepted (S gamma) (candidate_row b) (row2 coins b) (p_of b) (q_of b) in
  stored b = emitted b ∧ length (stored b) = S n ∧ n < S gamma ∧ take n (stored b) = take n (proposals b).
Proof using Hok Hdraws Htl Htn Hdn.
  intros Hb. destruct (proposals_ok b Hb) as [Hx HxV]. destruct (draft_dists_ok b Hb) as [Hg _].
  pose proof (request_emit V VOCAB_BLOCK (target_dist b) (draft_dists b) (default 0 (anchors !! b)) (proposals b)
    (row2 coins b) (p_of b) (q_of b)) as RE.
  pose proof (request_toks_length V VOCAB_BLOCK (draft_dists b) (default 0 (anchors !! b)) (proposals b)
    (row2 coins b) (p_of b) (q_of b)) as RL.
  rewrite Hg in RE, RL. unfold request_toks in RE, RL. rewrite Hg in RE, RL.
  fold (candidate_row b) in RE, RL. cbv zeta in *.
  assert (Hcl : length (row2 coins b) = gamma).
  { destruct Hdraws as [_ _ C1 _ C2]. destruct (lookup_lt_is_Some_2 coins b) as [c Ec]; [lia|].
    rewrite (row2_Some _ _ _ Ec). by apply (Forall_lookup_1 _ _ _ _ C2 Ec). }
  destruct (RL Hx Hcl (wt fin b)) as [R1 R2]. split_and!.
  - apply RE; [done..| |].
    + intros i v Hi Hv. by apply p_of_ok.
    + intros i v Hi Hv. by apply q_of_ok.
  - exact R1.
  - exact R2.
  - unfold stored. cbv zeta. cbn [candidate_row drop].
    set (n := num_accepted _ _ _ _ _). rewrite drop_0, take_app_le by (rewrite length_take; lia).
    by rewrite take_take, Nat.min_id.
Qed.
End kernel.

(** The acceptance of a verified batch, for any buffers' content. *)
Lemma accept_block_ok dn cache :
  0 < bs → chain_cache_ok cache →
  (∀ b, b < bs → row2 dn b =
    (λ l, ln (Rsum (exp <$> ((λ x, x / wt temperatures b)%R <$> l)))) <$> row2 draft_logits b) →
  ∃ r, _accept_block_logits torch_empty (candidate_row <$> seq 0 bs)
         (target_verify next_logits (candidate_row <$> seq 0 bs)) temperatures draft_logits dn V (S gamma)
         coins fin cache = Ok r ∧ chain_cache_ok r.2 ∧ ∀ b, b < bs → committed b (Ok r) = emitted b.
Proof using Hempty Hok Hdraws.
  intros Hbs Hcache Hdn. unfold _accept_block_logits, accept_sampling_from_logits. cbv zeta.
  rewrite Nat.sub_succ, Nat.sub_0_r, length_fmap, length_seq, shape_check by done. cbn [py_check mbind result_bind].
  set (cands := candidate_row <$> seq 0 bs).
  assert (Hlc : length cands = bs) by (unfold cands; by rewrite length_fmap, length_seq).
  assert (Hcb : ∀ b, b < bs → cands !! b = Some (candidate_row b))
    by (intros; unfold cands; by rewrite list_lookup_fmap, lookup_seq_lt).
  assert (Hcr : Forall (λ c, length c = S gamma) cands).
  { apply Forall_fmap, Forall_forall. intros b Hb%elem_of_seq. apply candidate_rows. lia. }
  set (tl3 := view_2d bs (S gamma) (target_verify next_logits cands)).
  set (tn := logsumexp_temp_triton (target_verify next_logits cands) temperatures (S gamma) V).
  assert (HT := λ b Hb, verify_target_rows cands b _ Hlc Hcr (Hcb b Hb)). fold tl3 tn in HT.
  pose proof (λ b Hb, stored_ok tl3 tn dn (λ b Hb, proj1 (HT b Hb)) (λ b Hb, proj2 (HT b Hb)) Hdn b Hb) as HS.
  set (n := λ b, num_accepted (S gamma) (candidate_row b) (row2 coins b) (p_of tl3 tn b) (q_of dn b)) in HS.
  edestruct (run_chain_ok torch_empty Hempty (S gamma) bs
    (λ pid predicts row, speculative_sampling_from_logits_kernel (S gamma) V VOCAB_BLOCK predicts row
      (row2 cands pid) (row2 ((λ b, seq (b * S gamma) (S gamma)) <$> seq 0 bs) pid) (row2 coins pid)
      (wt fin pid) (row2 tl3 pid) (row2 draft_logits pid) (row2 tn pid) (row2 dn pid) (wt temperatures pid))
    (stored tl3 tn dn) n) with (cutoff := @None (list Z)) (cache := cache)
    (chain := λ predicts accept_index accept_token_num retrive_index,
       chain_speculative_sampling_from_logits_triton predicts accept_index accept_token_num cands retrive_index
         coins fin tl3 draft_logits tn dn temperatures (S gamma) V) as (cl & bonus & trims & cache' & E & Hc' & Hl1 & Hl2 & Hall);
    [lia|done| | |exact Hcache|exact I|intros P ai an|].
  - intros pid P row Hp HP Hrow. rewrite (row2_Some _ _ _ (Hcb pid Hp)).
    rewrite (row2_Some _ pid (seq (pid * S gamma) (S gamma))) by (by rewrite list_lookup_fmap, lookup_seq_lt).
    rewrite from_logits_kernel_ok; [reflexivity|lia|by apply candidate_rows|done|]. rewrite HP. nia.
  - intros pid Hp. destruct (HS pid Hp) as (_ & H2 & H3 & _). done.
  - unfold chain_speculative_sampling_from_logits_triton. rewrite Hlc. reflexivity.
  - rewrite E. cbn [mbind result_bind]. unfold _commit_accept.
    eexists. split; [reflexivity|]. split; [exact Hc'|]. intros b Hb. unfold committed.
    destruct (Hall b Hb) as [Hcl Hbo]. destruct (HS b Hb) as (H1 & H2 & H3 & H4).
    cbn [cap_at] in Hcl, Hbo. rewrite <- H1. fold (n b) in H2, H3, H4.
    destruct (lookup_lt_is_Some_2 (stored tl3 tn dn b) (n b) ltac:(lia)) as [y Hy]. rewrite Hy in Hbo.
    rewrite !list_lookup_fmap, Hcl. cbn [fmap option_fmap option_map default from_option]. rewrite Nat2Z.id.
    erewrite row2_Some.
    2: { rewrite lookup_zip_with, (Hcb b Hb), lookup_zip_with, list_lookup_fmap, Hcl, Hbo.
         cbn [fmap option_fmap option_map mbind option_bind]. reflexivity. }
    rewrite Nat2Z.id. cbn [candidate_row drop]. rewrite drop_0.
    pose proof (commit_toks (proposals b) (stored tl3 tn dn b) (n b) (n b) ltac:(lia)) as C.
    rewrite Hy in C. cbn [from_option] in C. unfold Datatypes.id in *. rewrite C; [|rewrite (proj1 (proposals_ok b Hb)); lia|done..].
    apply take_ge. lia.
Qed.

End verify.

Lemma step_ok du coins fin cache :
  draws_ok du coins fin → 0 < bs → chain_cache_ok cache →
  ∃ r, latentspec_step torch_empty next_logits anchors draft_logits gamma V temperatures du coins fin cache = Ok r
    ∧ chain_cache_ok r.2 ∧ ∀ b, b < bs → committed b (Ok r) = emitted du coins fin b.
Proof using Hempty Hok.
  intros Hd Hbs Hc. unfold latentspec_step.
  assert (HB := λ b Hb, draft_block_row b du Hb (do_len _ _ _ Hd) (do_range _ _ _ Hd)).
  destruct (_sample_latentspec_draft_block _ _ _ _ _) as [toks norms].
  rewrite (candidates_ok du).
  - apply (accept_block_ok du coins fin Hd); [done..|]. intros b Hb.
    destruct (HB b Hb) as (_ & _ & Hn). by apply row2_Some.
  - by destruct (HB 0 Hbs) as (Hl & _).
  - intros b Hb. by destruct (HB b Hb) as (_ & Ht & _).
Qed.

(** *** The draws of one request *)

Definition set_draws (b : nat) (us : list R) (du : list R) (coins : list (list R)) (fin : list R)
  : list R * list (list R) * list R :=
  let '(a, c, f) := deal us in (overlay (b * gamma) a du, <[b := c]> coins, <[b := f]> fin).

Lemma deal_ok k us : uniforms (k * 2 + 1) us →
  let '(a, c, f) := deal us in length a = k ∧ length c = k ∧ Forall (λ u, 0 <= u < 1)%R a.
Proof.
  revert us. induction k as [|k IH]; intros us [Hl Hu].
  - destruct us as [|f [|? ?]]; done.
  - destruct us as [|u [|c us]]; [done|cbn in Hl; lia|]. inversion Hu as [|? ? Hu1 Hu2]; subst.
    inversion Hu2; subst. specialize (IH us ltac:(split; [cbn in Hl; lia|done])). cbn.
    destruct (deal us) as [[a cs] f]. destruct IH as (E1 & E2 & E3). cbn. split_and!; [lia|lia|by constructor].
Qed.

Lemma set_draws_ok b us du coins fin :
  b < bs → uniforms (gamma * 2 + 1) us → draws_ok du coins fin →
  let '(du', coins', fin') := set_draws b us du coins fin in draws_ok du' coins' fin'.
Proof.
  intros Hb Hus [D1 D2 D3 D4 D5]. pose proof (deal_ok gamma us Hus) as DK. unfold set_draws.
  destruct (deal us) as [[a c] f]. destruct DK as (Ha & Hc & Hr). split.
  - rewrite length_overlay; [done|]. rewrite Ha. nia.
  - unfold overlay. repeat (apply Forall_app; split); [by apply Forall_take|done|by apply Forall_drop].
  - by rewrite length_insert.
  - by rewrite length_insert.
  - by apply Forall_insert.
Qed.

Lemma emit_length T qs pre xs cs f : length (emit V VOCAB_BLOCK T qs pre xs cs f) ≤ S (length qs).
Proof.
  revert pre xs cs. induction qs as [|q qs IH]; intros pre [|x xs] [|c cs]; cbn; try lia.
  destruct (Rlt_b _ _); cbn; [|lia]. specialize (IH (pre ++ [x]) xs cs). lia.
Qed.

(** With its own draws set, the request commits [served]. *)
Lemma emitted_served b us du coins fin :
  b < bs → uniforms (gamma * 2 + 1) us → draws_ok du coins fin →
  (let '(du', coins', fin') := set_draws b us du coins fin in emitted du' coins' fin' b)
  = served V VOCAB_BLOCK (target_dist b) icdf (S gamma) (draft_dists b) [] us.
Proof using Hok.
  intros Hb Hus [D1 D2 D3 D4 D5]. pose proof (deal_ok gamma us Hus) as DK. unfold set_draws, served.
  destruct (deal us) as [[a c] f]. destruct DK as (Ha & Hc & Hr).
  rewrite take_ge by (etrans; [apply emit_length|]; by rewrite (proj1 (draft_dists_ok b Hb))).
  unfold emitted, proposals. f_equal.
  - f_equal. unfold overlay. rewrite drop_app_length' by (rewrite length_take; nia).
    by rewrite take_app_length'.
  - apply row2_Some. apply list_lookup_insert_eq. lia.
  - apply wt_Some. apply list_lookup_insert_eq. lia.
Qed.
End batch.

(** C3: One LatentSpec serving step is exact speculative sampling.  For every request of the batch,
    whatever the other requests draw and whatever the cached buffers held, the tokens the step
    commits are, as a function of the request's own independent uniform draws (one per proposal,
    one acceptance coin per proposal, one final draw), distributed so that letting the target model
    continue them gives exactly the target's distribution over sequences of gamma + 1 tokens: the
    two-level inverse-CDF sampler, the log normalizers, the probabilities rebuilt from logits, the
    acceptance loop, the residual draw, the gather of the bonus and the commit compose to no bias. *)
Theorem latentspec_step_exact (torch_empty : nat → list nat) (gamma V : nat)
    (next_logits : nat → list nat → list R) (anchors : list nat) (draft_logits : list (list (list R)))
    (temperatures du : list R) (coins : list (list R)) (fin : list R) (cache : gmap nat chain_buffers) (b : nat)
    (Hempty : ∀ n, length (torch_empty n) = n)
    (Hok : batch_ok gamma V next_logits anchors draft_logits temperatures)
    (Hd : draws_ok gamma anchors du coins fin) (Hc : chain_cache_ok cache) (Hb : b < length anchors) :
  let target := target_dist next_logits anchors temperatures b in
  ∃ law,
    Law (gamma * 2 + 1) (λ us, let '(du', coins', fin') := set_draws gamma b us du coins fin in
      committed b (latentspec_step torch_empty next_logits anchors draft_logits gamma V temperatures
                     du' coins' fin' cache)) law ∧
    ∀ y, length y = S gamma →
      sumN (S (S gamma)) (λ k, law (take k y) * seq_prob target (take k y) (drop k y))%R
      = seq_prob target [] y.
Proof.
  cbv zeta. pose proof (target_dist_ok gamma V next_logits anchors draft_logits temperatures Hok b) as HT.
  destruct (draft_dists_ok gamma V next_logits anchors draft_logits temperatures Hok b Hb) as [Hg Hq].
  pose proof (served_law V VOCAB_BLOCK VOCAB_BLOCK_pos _ HT icdf (λ q u, icdf_draws V q u) (S gamma) _ [] Hq) as L.
  eexists. split.
  - rewrite Hg in L. eapply Law_ext; [exact L| |done]. intros us Hus.
    rewrite <- (emitted_served gamma V next_logits anchors draft_logits temperatures Hok b us du coins fin Hb Hus Hd).
    pose proof (set_draws_ok gamma anchors b us du coins fin Hb Hus Hd) as Hd'.
    destruct (set_draws _ _ _ _ _ _) as [[du' coins'] fin'].
    destruct (step_ok torch_empty Hempty gamma V next_logits anchors draft_logits temperatures Hok du' coins' fin'
      cache Hd' ltac:(lia) Hc) as (r & -> & _ & Hr). symmetry. by apply Hr.
  - intros y Hy. apply (emitted_law_exact V VOCAB_BLOCK VOCAB_BLOCK_pos _ HT); [done|by rewrite Hg|done].
Qed.

Lemma tiny_batch_ok :
  batch_ok 1 2 (λ _ _, [0; 1]%R) [5; 6] [[[0; 1]%R]; [[1; 0]%R]] [1; 2]%R.
Proof. split; try done; repeat (constructor; try lra); done. Qed.

Lemma tiny_draws_ok : draws_ok 1 [5; 6] [0; 1 / 2]%R [[0]; [1 / 2]]%R [0; 1 / 2]%R.
Proof. split; try done; repeat (constructor; try lra); done. Qed.

Lemma latentspec_step_exact_witness :
  let target := target_dist (λ _ _, [0; 1]%R) [5; 6] [1; 2]%R 1 in
  ∃ law,
    Law 3 (λ us, let '(du', coins', fin') := set_draws 1 1 us [0; 1 / 2]%R [[0]; [1 / 2]]%R [0; 1 / 2]%R in
      committed 1 (latentspec_step (λ n, replicate n 7) (λ _ _, [0; 1]%R) [5; 6] [[[0; 1]%R]; [[1; 0]%R]] 1 2
                     [1; 2]%R du' coins' fin' ∅)) law ∧
    ∀ y, length y = 2 →
      sumN 3 (λ k, law (take k y) * seq_prob target (take k y) (drop k y))%R = seq_prob target [] y.
Proof.
  exact (latentspec_step_exact (λ n, replicate n 7) 1 2 (λ _ _, [0; 1]%R) [5; 6] [[[0; 1]%R]; [[1; 0]%R]]
    [1; 2]%R [0; 1 / 2]%R [[0]; [1 / 2]]%R [0; 1 / 2]%R ∅ 1 (λ n, length_replicate n 7) tiny_batch_ok tiny_draws_ok
    (λ W c H, False_rect _ (eq_ind None (λ o, match o with None => True | Some _ => False end) I _
       (eq_trans (eq_sym (lookup_empty W)) H))) ltac:(cbn; lia)).
Defined.

(** The proposals are drawn at a temperature clamped from below at [1e-5], but the verification
    rebuilds their probabilities at the request's own temperature.  Below the clamp, where a request
    is still sampled (greedy decoding starts under [1e-6]), the rebuilt [q] is no probability. *)
Example clamped_temperature_mismatch :
  let '(_, norms) := _sample_latentspec_draft_block [[[1; 0]%R]] 1 2 [2 / 1000000]%R [0]%R in
  (1 < prob_of [[1; 0]%R] (row2 norms 0) (2 / 1000000) 0 0)%R.
Proof.
  assert (G : ∀ f : list R → R → R → nat * R,
    let out := imap (λ row l, f l (wt (clamp_temperatures [2 / 1000000]%R) (row / 1)) (wt [0]%R row)) [[1; 0]%R] in
    (view_2d 1 1 out.*1, view_2d 1 1 out.*2)
    = ([[(f [1; 0] (Rmax (2 / 1000000) (1 / 100000)) 0).1]],
       [[(f [1; 0] (Rmax (2 / 1000000) (1 / 100000)) 0).2]])%R) by reflexivity.
  specialize (G (logit_row VOCAB_BLOCK 2)). cbv zeta in G. apply (f_equal snd) in G. cbn [snd] in G.
  unfold _sample_latentspec_draft_block, sample_latentspec_draft_logits_cuda. cbv zeta.
  change (concat [[[1; 0]%R]]) with [[1; 0]%R]. cbn [length]. rewrite G. clear G.
  rewrite Rmax_right by lra.
  destruct (logit_row_draws VOCAB_BLOCK VOCAB_BLOCK_pos [1; 0]%R (1 / 100000) ltac:(done) 0 ltac:(lra)) as [_ E].
  cbn [length] in E. rewrite E. unfold prob_of, at2, row2, wt.
  cbn [lookup list_lookup from_option fmap list_fmap]. unfold Datatypes.id. rewrite !Rsum_cons, Rsum_nil.
  rewrite <- exp_0 at 1. apply exp_increasing.
  assert (L : (exp (1 / (1 / 100000)) + (exp (0 / (1 / 100000)) + 0) < exp (1 / (2 / 1000000)))%R).
  { replace (1 / (1 / 100000))%R with 100000%R by field. replace (0 / (1 / 100000))%R with 0%R by field.
    replace (1 / (2 / 1000000))%R with (1 + (100000 + 399999))%R by field. rewrite !exp_plus, exp_0.
    pose proof (exp_ineq1 1 ltac:(lra)). pose proof (exp_ineq1 100000 ltac:(lra)).
    pose proof (exp_ineq1 399999 ltac:(lra)).
    set (a := exp 100000) in *. set (b := exp 399999) in *. set (c := exp 1) in *.
    assert (a * 2 <= a * b)%R by (apply Rmult_le_compat_l; lra).
    assert (1 * (a * b) <= c * (a * b))%R by (apply Rmult_le_compat_r; nra). lra. }
  apply ln_increasing in L; [|pose proof (exp_pos (1 / (1 / 100000))); pose proof (exp_pos (0 / (1 / 100000))); lra].
  rewrite ln_exp in L.
  change (0 < 1 / (2 / 1000000) - ln (exp (1 / (1 / 100000)) + (exp (0 / (1 / 100000)) + 0)))%R. lra.
Qed.
