(* ===== verification/ExtendAttention.v ===== *)
(** * ExtendAttention: the two-stage extend attention kernel

    Models [kernels/ops/attention/extend_attention.py]: [_fwd_kernel], which
    attends from the new tokens of every request to the request's cached prefix
    (read through [kv_indices], stage 1) and to the new tokens themselves
    (stage 2) with a blocked, rescaled softmax; the choice of the block sizes; and
    the two launch grids of [extend_attention_fwd].  Floats are real numbers, a
    masked score is minus infinity, the value [None]; the casts between float
    types are the identity.  A tensor is a list of tokens of heads of rows, a KV
    buffer a function from slots and heads to rows (strides are [_extract_kv_strides]'s:
    a page is [PAGE_SIZE] slots).  The theorem is that every stored row is the
    softmax average over the visible keys, whatever the blocks and the order in
    which the programs run. *)

From S2P Require Import Prelude TensorOps RealLaw LatentSampler RejectKernel.
From Stdlib Require Import Reals Lra.
#[local] Open Scope nat_scope.
#[local] Arguments Nat.ltb : simpl never.
#[local] Arguments Nat.leb : simpl never.

(** ** Block sizes *)

Inductive Arch : Type :=
  | Hip (is_gfx95 is_triton_ge_37 : bool)
  | Cuda (major minor : nat)
  | OtherDevice.

(** (BLOCK_DMODEL, BLOCK_DPE, BLOCK_DV, BLOCK_M, BLOCK_N); the number of warps changes no value. *)
Definition _get_block_sizes_for_extend_attention (arch : Arch) (Lq Lv : nat) : nat * nat * nat * nat * nat :=
  let '(BLOCK_DMODEL, BLOCK_DPE) :=
    if Lq =? 576 then (512, 64) else if Lq =? 288 then (256, 32) else if Lq =? 192 then (128, 64)
    else (next_power_of_2 Lq, 0) in
  let BLOCK_DV := next_power_of_2 Lv in
  let '(BLOCK_M, BLOCK_N) :=
    match arch with
    | Hip is_gfx95 is_triton_ge_37 =>
        if is_gfx95 && is_triton_ge_37 && (Lq =? 576) && (Lv =? 512) then (64, 32)
        else if is_gfx95 && (Lq <=? 256) then (128, 64) else (64, 64)
    | Cuda major minor =>
        if major =? 12 then if Lq <=? 128 then (64, 128) else if Lq <=? 256 then (64, 64) else (32, 32)
        else if major =? 10 then if Lq <=? 256 then (64, 64) else (16, 64)
        else if 9 <=? major then if Lq <=? 128 then (128, 64) else if Lq <=? 256 then (64, 64) else (32, 64)
        else if 8 <=? major then
          if (minor =? 9) || (minor =? 6) then if Lq <=? 128 then (64, 128) else if Lq <=? 256 then (64, 64) else (32, 32)
          else if Lq <=? 128 then (128, 128) else if Lq <=? 256 then (64, 64) else (32, 64)
        else if Lq <=? 128 then (64, 64) else (32, 32)
    | OtherDevice => if Lq <=? 128 then (64, 64) else (32, 32)
    end in
  (BLOCK_DMODEL, BLOCK_DPE, BLOCK_DV, BLOCK_M, BLOCK_N).

(** ** The kernel *)

(** The scalar and constexpr arguments; [None] for an absent tensor or function. *)
Record FwdConf := {
  sm_scale : R;
  k_scale : R;
  v_scale : R;
  kv_group_num : nat;
  SLIDING_WINDOW_SIZE : Z;
  logit_cap : R;
  xai_temperature_len : Z;
  Lq : nat;
  Lv : nat;
  BLOCK_DMODEL : nat;
  BLOCK_DPE : nat;
  BLOCK_DV : nat;
  BLOCK_M : nat;
  BLOCK_N : nat;
  custom_mask : option (list bool);
  IS_CAUSAL : bool;
  SKIP_PREFIX_CUSTOM_MASK : bool;
  SKIP_PREFIX : bool;
  SKIP_EXTEND : bool;
  sinks : option (list R);
  PAGE_SIZE : nat;
  SCORE_MOD : option (R → nat → nat → nat → nat → R)
}.

(** The tensors. *)
Record FwdMem := {
  Q_Extend : list (list (list R));
  K_Extend : list (list (list R));
  V_Extend : list (list (list R));
  K_Buffer : nat → nat → list R;
  V_Buffer : nat → nat → list R;
  qo_indptr : list nat;
  kv_indptr : list nat;
  kv_indices : list nat;
  mask_indptr : list nat;
  window_kv_offsets : list nat
}.

(** [tl.load] of an integer, in bounds. *)
Definition ld (l : list nat) (i : nat) : nat := default 0 (l !! i).
Definition head_row (t : list (list (list R))) (tok head : nat) : list R := row2 (row2 t tok) head.

Definition tl_sigmoid (x : R) : R := (1 / (1 + exp (- x)))%R.
Definition tl_tanh (x : R) : R := (2 * tl_sigmoid (2 * x) - 1)%R.
Definition tl_log2 (x : R) : R := (ln x / ln 2)%R.
Definition tl_dot (a b : list R) : R := Rsum (zip_with Rmult a b).

(** [acc], [deno] and [e_max] of one query row. *)
Definition lane_state : Type := list R * R * option R.

(** One tile of keys: masked scores, their value rows, and the scale of the values. *)
Definition softmax_tile (BLOCK_DV : nat) (qk : list (option R)) (v : list (list R)) (v_scale : R)
    (st : lane_state) : lane_state :=
  let '(acc, deno, e_max) := st in
  let row_max := tl_max qk in
  let row_max_fixed := match row_max with None => (- (10 ^ 20))%R | Some x => x end in
  let n_e_max := xmax (Some row_max_fixed) e_max in
  let re_scale := tl_exp (xsub e_max n_e_max) in
  let p := (λ x, tl_exp (xsub x n_e_max)) <$> qk in
  let deno := (deno * re_scale + Rsum p)%R in
  let dot := (λ d, tl_dot p ((λ row, wt row d) <$> v)) <$> seq 0 BLOCK_DV in
  (zip_with (λ a x, a * re_scale + x * v_scale)%R acc dot, deno, n_e_max).

Section fwd.
Context (c : FwdConf) (t : FwdMem) (cur_seq cur_head : nat).

Definition cur_kv_head : nat := cur_head / kv_group_num c.
Definition cur_seq_extend_start_idx : nat := ld (qo_indptr t) cur_seq.
Definition cur_seq_len_extend : nat := ld (qo_indptr t) (S cur_seq) - cur_seq_extend_start_idx.
Definition cur_seq_kv_start_idx : nat := ld (kv_indptr t) cur_seq.
Definition cur_seq_len_prefix : nat := ld (kv_indptr t) (S cur_seq) - cur_seq_kv_start_idx.
Definition cur_seq_len : nat := cur_seq_len_prefix + cur_seq_len_extend.
Definition windowed : bool := (0 <? SLIDING_WINDOW_SIZE c)%Z.
Definition window : nat := Z.to_nat (SLIDING_WINDOW_SIZE c).
Definition window_kv_offset : nat :=
  match custom_mask c with
  | Some _ => if windowed then ld (window_kv_offsets t) cur_seq else 0
  | None => 0
  end.

(** The custom mask of query row [m] at column [col] of the request's keys. *)
Definition mask_at (mask : list bool) (m col : nat) : bool :=
  default false (mask !! (ld (mask_indptr t) cur_seq + m * (cur_seq_len + window_kv_offset) + window_kv_offset + col)).

(** [final_mask] of the two stages, query row [m] and key [n] of the request. *)
Definition prefix_mask (m n : nat) : bool :=
  (m <? cur_seq_len_extend) && (n <? cur_seq_len_prefix)
  && match custom_mask c with
     | Some mask => if SKIP_PREFIX_CUSTOM_MASK c then true else mask_at mask m n
     | None => true
     end
  && (if windowed then cur_seq_len_prefix + m <=? n + window else true).

(** [cur_block_m_end]. *)
Definition block_end (cur_block_m : nat) : nat :=
  if IS_CAUSAL c then Nat.min cur_seq_len_extend ((cur_block_m + 1) * BLOCK_M c) else cur_seq_len_extend.

Definition extend_mask (cur_block_m m n : nat) : bool :=
  (m <? cur_seq_len_extend) && (n <? block_end cur_block_m)
  && match custom_mask c with
     | Some mask => mask_at mask m (cur_seq_len_prefix + n)
     | None => if IS_CAUSAL c then n <=? m else true
     end
  && (if windowed then m <=? n + window else true).

(** The transformations of a scaled score. *)
Definition adjust (qk : R) (m key_pos : nat) : R :=
  let qk := if Rlt_b 0 (logit_cap c) then (logit_cap c * tl_tanh (qk / logit_cap c))%R else qk in
  let offs_qidx := cur_seq_len_prefix + m in
  let qk :=
    if (0 <? xai_temperature_len c)%Z then
      (qk * (if (xai_temperature_len c <? Z.of_nat offs_qidx)%Z
             then tl_log2 (INR offs_qidx) * (1 / tl_log2 (IZR (xai_temperature_len c))) else 1))%R
    else qk in
  match SCORE_MOD c with
  | None => qk
  | Some f => f qk offs_qidx key_pos (cur_seq_extend_start_idx + m) cur_head
  end.

(** The slot of a KV location. *)
Definition slot_of (loc : nat) : nat :=
  if PAGE_SIZE c =? 1 then loc else (loc / PAGE_SIZE c) * PAGE_SIZE c + loc mod PAGE_SIZE c.

Definition offs_kv_loc (n : nat) : nat :=
  tl_load (kv_indices t) (cur_seq_kv_start_idx + n) (n <? cur_seq_len_prefix) 0.

(** The dot product of a query row with a key row, [BLOCK_DMODEL] lanes and then [BLOCK_DPE]. *)
Definition block_dot (q k : list R) (mask_m mask_n : bool) : R :=
  let offs_d := seq 0 (BLOCK_DMODEL c) in
  let offs_dpe := seq (BLOCK_DMODEL c) (BLOCK_DPE c) in
  let main :=
    tl_dot ((λ d, tl_load q d (mask_m && (d <? Lq c)) 0%R) <$> offs_d)
           ((λ d, tl_load k d (mask_n && (d <? Lq c)) 0%R) <$> offs_d) in
  if 0 <? BLOCK_DPE c then
    (main + tl_dot ((λ d, tl_load q d mask_m 0%R) <$> offs_dpe) ((λ d, tl_load k d mask_n 0%R) <$> offs_dpe))%R
  else main.

Definition query (m : nat) : list R := head_row (Q_Extend t) (cur_seq_extend_start_idx + m) cur_head.

Definition value_lanes (row : list R) (mask_n : bool) : list R :=
  (λ d, tl_load row d (mask_n && (d <? Lv c)) 0%R) <$> seq 0 (BLOCK_DV c).

(** One tile of stage 1 for query row [m]. *)
Definition prefix_tile (m i : nat) (st : lane_state) : lane_state :=
  let lanes := tl_lanes (BLOCK_N c) i in
  let k n := K_Buffer t (slot_of (offs_kv_loc n)) cur_kv_head in
  let qk n :=
    adjust (block_dot (query m) (k n) (m <? cur_seq_len_extend) (n <? cur_seq_len_prefix) * (sm_scale c * k_scale c))%R m n in
  softmax_tile (BLOCK_DV c) ((λ n, if prefix_mask m n then Some (qk n) else None) <$> lanes)
    ((λ n, value_lanes (V_Buffer t (slot_of (offs_kv_loc n)) cur_kv_head) (n <? cur_seq_len_prefix)) <$> lanes)
    (v_scale c) st.

(** One tile of stage 2. *)
Definition extend_tile (cur_block_m m i : nat) (st : lane_state) : lane_state :=
  let lanes := tl_lanes (BLOCK_N c) i in
  let mask_n n := n <? block_end cur_block_m in
  let k n := head_row (K_Extend t) (cur_seq_extend_start_idx + n) cur_kv_head in
  let qk n :=
    adjust (block_dot (query m) (k n) (m <? cur_seq_len_extend) (mask_n n) * sm_scale c)%R m (cur_seq_len_prefix + n) in
  softmax_tile (BLOCK_DV c) ((λ n, if extend_mask cur_block_m m n then Some (qk n) else None) <$> lanes)
    ((λ n, value_lanes (head_row (V_Extend t) (cur_seq_extend_start_idx + n) cur_kv_head) (mask_n n)) <$> lanes)
    1 st.

(** No row of the block sees a key of the tile. *)
Definition all_masked (mask : nat → nat → bool) (cur_block_m i : nat) : bool :=
  forallb (λ m, forallb (λ n, negb (mask m n)) (tl_lanes (BLOCK_N c) i)) (tl_lanes (BLOCK_M c) cur_block_m).

Definition skip_prefix_tile (cur_block_m i : nat) : bool :=
  ((match custom_mask c with Some _ => negb (SKIP_PREFIX_CUSTOM_MASK c) | None => false end) || windowed)
  && all_masked prefix_mask cur_block_m i.
Definition skip_extend_tile (cur_block_m i : nat) : bool :=
  ((match custom_mask c with Some _ => true | None => false end) || windowed)
  && all_masked (extend_mask cur_block_m) cur_block_m i.

(** The first tile of stage 2: [extend_start // BLOCK_N]. *)
Definition extend_first (cur_block_m : nat) : nat :=
  if windowed then (cur_block_m * BLOCK_M c - window) / BLOCK_N c else 0.

(** Stage 1 and stage 2 of query row [m]. *)
Definition prefix_state (cur_block_m m : nat) : lane_state :=
  let prefix_end := if SKIP_PREFIX c then 0 else cur_seq_len_prefix in
  foldl (λ st i, if skip_prefix_tile cur_block_m i then st else prefix_tile m i st)
    (replicate (BLOCK_DV c) 0%R, 0%R, None) (seq 0 (cdiv prefix_end (BLOCK_N c))).

Definition final_state (cur_block_m m : nat) : lane_state :=
  let extend_end := if SKIP_EXTEND c then 0 else block_end cur_block_m in
  let first := extend_first cur_block_m in
  foldl (λ st i, if skip_extend_tile cur_block_m i then st else extend_tile cur_block_m m i st)
    (prefix_state cur_block_m m) (seq first (cdiv extend_end (BLOCK_N c) - first)).

Definition lane_row (cur_block_m m : nat) : list R :=
  let '(acc, deno, e_max) := final_state cur_block_m m in
  let deno := match sinks c with
              | Some s => (deno + tl_exp (xsub (Some (wt s cur_head)) e_max))%R
              | None => deno
              end in
  (λ d, wt acc d / deno)%R <$> filter (λ d, d < Lv c) (seq 0 (BLOCK_DV c)).

(** The rows the program stores: token, head and row; none when the block starts past the request. *)
Definition _fwd_kernel (cur_block_m : nat) : list (nat * nat * list R) :=
  if cur_seq_len_extend <=? cur_block_m * BLOCK_M c then []
  else (λ m, (cur_seq_extend_start_idx + m, cur_head, lane_row cur_block_m m)) <$>
         filter (λ m, m < cur_seq_len_extend) (tl_lanes (BLOCK_M c) cur_block_m).
End fwd.

(** ** The launch *)

(** [while (cur_seq < compact_batch_size) & (found == 0)]: the request and block of a compact tile. *)
Fixpoint find_tile (BLOCK_M : nat) (qo_indptr : list nat) (bs output_tile fuel cur_seq cum_tiles : nat)
  : option (nat * nat) :=
  match fuel with
  | 0 => None
  | S fuel =>
      if cur_seq <? bs then
        let seq_q_len := ld qo_indptr (S cur_seq) - ld qo_indptr cur_seq in
        let next_cum_tiles := cum_tiles + (seq_q_len + BLOCK_M - 1) / BLOCK_M in
        if output_tile <? next_cum_tiles then Some (cur_seq, output_tile - cum_tiles)
        else find_tile BLOCK_M qo_indptr bs output_tile fuel (S cur_seq) next_cum_tiles
      else None
  end.

Definition _compact_extend_q_tiles_per_head (batch_size max_len_extend total_extend_tokens block_m : nat)
    (extend_seq_lens_cpu : option (list nat)) : option nat :=
  if (batch_size <=? 1) || (max_len_extend <=? 0) then None
  else
    let legacy_tiles := batch_size * cdiv max_len_extend block_m in
    if legacy_tiles <=? 0 then None
    else
      let compact_tiles :=
        match extend_seq_lens_cpu with
        | Some lens =>
            if length lens <? batch_size then None
            else Some (sum_list ((λ i, cdiv (ld lens i) block_m) <$> seq 0 batch_size))
        | None =>
            if total_extend_tokens =? batch_size * max_len_extend then None
            else Some ((total_extend_tokens + batch_size * (block_m - 1)) / block_m)
        end in
      match compact_tiles with
      | None => None
      | Some n => if (n <=? 0) || (legacy_tiles <=? n) then None else Some n
      end.

(** The programs of the grid: request, head, block of rows; a compact tile past the last returns. *)
Definition grid (qo_indptr : list nat) (batch_size head_num max_len_extend BLOCK_M : nat) (compact : option nat)
  : list (nat * nat * nat) :=
  match compact with
  | Some tiles =>
      tile ← seq 0 tiles; head ← seq 0 head_num;
      match find_tile BLOCK_M qo_indptr batch_size tile (S batch_size) 0 0 with
      | Some (b, blk) => [(b, head, blk)]
      | None => []
      end
  | None =>
      b ← seq 0 batch_size; head ← seq 0 head_num; blk ← seq 0 (cdiv max_len_extend BLOCK_M);
      [(b, head, blk)]
  end.

Definition store_row (o : nat → nat → list R) (w : nat * nat * list R) : nat → nat → list R :=
  λ tok head, if (tok =? w.1.1) && (head =? w.1.2) then w.2 else o tok head.

(** [programs] is the order in which the grid's programs run; [o] the output before the launch. *)
Definition launch_fwd (c : FwdConf) (t : FwdMem) (programs : list (nat * nat * nat)) (o : nat → nat → list R)
  : nat → nat → list R :=
  foldl (λ o '(b, head, blk), foldl store_row o (_fwd_kernel c t b head blk)) o programs.

(** The launch's configuration, from the shapes. *)
Definition fwd_conf (arch : Arch) (block_m_override : option nat) (Lq Lv heads kv_heads : nat)
    (sm_scale : option R) (k_scale v_scale logit_cap : R) (sliding_window_size xai_temperature_len : Z)
    (custom_mask : option (list bool)) (is_causal skip_prefix_custom_mask skip_prefix skip_extend : bool)
    (sinks : option (list R)) (page_size : nat) (score_mod : option (R → nat → nat → nat → nat → R)) : FwdConf :=
  let '(BLOCK_DMODEL, BLOCK_DPE, BLOCK_DV, BLOCK_M, BLOCK_N) := _get_block_sizes_for_extend_attention arch Lq Lv in
  {| sm_scale := match sm_scale with
                 | Some s => if Req_dec_T s 0 then (1 / sqrt (INR Lq))%R else s
                 | None => (1 / sqrt (INR Lq))%R
                 end;
     k_scale := k_scale; v_scale := v_scale; kv_group_num := heads / kv_heads;
     SLIDING_WINDOW_SIZE := sliding_window_size; logit_cap := logit_cap;
     xai_temperature_len := xai_temperature_len; Lq := Lq; Lv := Lv;
     BLOCK_DMODEL := BLOCK_DMODEL; BLOCK_DPE := BLOCK_DPE; BLOCK_DV := BLOCK_DV;
     BLOCK_M := default BLOCK_M block_m_override; BLOCK_N := BLOCK_N;
     custom_mask := custom_mask; IS_CAUSAL := is_causal; SKIP_PREFIX_CUSTOM_MASK := skip_prefix_custom_mask;
     SKIP_PREFIX := skip_prefix; SKIP_EXTEND := skip_extend; sinks := sinks; PAGE_SIZE := page_size;
     SCORE_MOD := score_mod |}.

(** [is_hip && SGLANG_TRITON_COMPACT_EXTEND_ATTENTION] is [compact_grid]; [order] permutes the grid. *)
Definition extend_attention_fwd (compact_grid : bool) (c : FwdConf) (t : FwdMem) (max_len_extend head_num : nat)
    (extend_seq_lens_cpu : option (list nat)) (order : list (nat * nat * nat) → list (nat * nat * nat))
    (o : nat → nat → list R) : nat → nat → list R :=
  let batch_size := length (qo_indptr t) - 1 in
  let compact_q_tiles :=
    if compact_grid then
      _compact_extend_q_tiles_per_head batch_size max_len_extend (length (Q_Extend t)) (BLOCK_M c) extend_seq_lens_cpu
    else None in
  launch_fwd c t (order (grid (qo_indptr t) batch_size head_num max_len_extend (BLOCK_M c) compact_q_tiles)) o.

(** ** Reference: the softmax average over the visible keys *)

(** [keys] are scores with value rows; a sink adds its exponential to the denominator. *)
Definition attention (Lv : nat) (sink : option R) (keys : list (R * list R)) : list R :=
  let deno := (Rsum ((λ k, exp k.1) <$> keys) + match sink with Some s => exp s | None => 0 end)%R in
  (λ d, Rsum ((λ k, exp k.1 * wt k.2 d) <$> keys) / deno)%R <$> seq 0 Lv.

Definition key_dot (Lq : nat) (q k : list R) : R := Rsum ((λ d, wt q d * wt k d)%R <$> seq 0 Lq).

Section reference.
Context (c : FwdConf) (t : FwdMem) (cur_seq cur_head : nat).
Notation kv_head := (cur_kv_head c cur_head).

Definition prefix_key (m n : nat) : option (R * list R) :=
  if prefix_mask c t cur_seq m n then
    let loc := ld (kv_indices t) (cur_seq_kv_start_idx t cur_seq + n) in
    Some (adjust c t cur_seq cur_head
            (key_dot (Lq c) (query t cur_seq cur_head m) (K_Buffer t loc kv_head) * (sm_scale c * k_scale c)) m n,
          (λ x, x * v_scale c)%R <$> V_Buffer t loc kv_head)
  else None.

(** Key [n] of the new tokens, whatever the block the query row is in. *)
Definition sees_extend (m n : nat) : bool :=
  (n <? cur_seq_len_extend t cur_seq)
  && match custom_mask c with
     | Some mask => mask_at c t cur_seq mask m (cur_seq_len_prefix t cur_seq + n)
     | None => if IS_CAUSAL c then n <=? m else true
     end
  && (if windowed c then m <=? n + window c else true).

Definition extend_key (m n : nat) : option (R * list R) :=
  if sees_extend m n then
    let tok := cur_seq_extend_start_idx t cur_seq + n in
    Some (adjust c t cur_seq cur_head
            (key_dot (Lq c) (query t cur_seq cur_head m) (head_row (K_Extend t) tok kv_head) * sm_scale c)
            m (cur_seq_len_prefix t cur_seq + n),
          head_row (V_Extend t) tok kv_head)
  else None.

Definition visible_keys (m : nat) : list (R * list R) :=
  (if SKIP_PREFIX c then [] else omap (prefix_key m) (seq 0 (cur_seq_len_prefix t cur_seq))) ++
  (if SKIP_EXTEND c then [] else omap (extend_key m) (seq 0 (cur_seq_len_extend t cur_seq))).

Definition attention_row (m : nat) : list R :=
  attention (Lv c) ((λ s, wt s cur_head) <$> sinks c) (visible_keys m).
End reference.

(** ** The rescaled softmax *)

Section tracks.
Context (DV : nat).

(** A state summarises the keys seen so far, relative to its running maximum. *)
Definition tracks (st : lane_state) (ks : list (R * list R)) : Prop :=
  let '(acc, deno, e_max) := st in
  length acc = DV ∧
  match e_max with
  | None => ks = [] ∧ deno = 0%R ∧ ∀ d, wt acc d = 0%R
  | Some M => deno = Rsum ((λ k, exp (k.1 - M)) <$> ks) ∧
              ∀ d, d < DV → wt acc d = Rsum ((λ k, exp (k.1 - M) * wt k.2 d)%R <$> ks)
  end.

Lemma tracks_init : tracks (replicate DV 0%R, 0%R, None) [].
Proof.
  split; [by rewrite length_replicate|]. split_and!; [done..|]. intros d. unfold wt.
  destruct (replicate DV 0%R !! d) eqn:E; [|done]. by apply lookup_replicate in E as [-> _].
Qed.

Lemma wt_zip_with (f : R → R → R) a b d :
  length a = DV → length b = DV → d < DV → wt (zip_with f a b) d = f (wt a d) (wt b d).
Proof.
  intros Ha Hb Hd. unfold wt. rewrite lookup_zip_with.
  destruct (lookup_lt_is_Some_2 a d ltac:(lia)) as [x ->].
  by destruct (lookup_lt_is_Some_2 b d ltac:(lia)) as [y ->].
Qed.

Lemma wt_fmap (f : R → R) l d : f 0%R = 0%R → wt (f <$> l) d = f (wt l d).
Proof. intros Hf. unfold wt. rewrite list_lookup_fmap. by destruct (l !! d); cbn. Qed.

(** The keys of a tile that are not masked, with scaled values. *)
Definition tile_key (s : R) (kv : option R * list R) : option (R * list R) :=
  match kv.1 with Some y => Some (y, (λ z, z * s)%R <$> kv.2) | None => None end.
Definition tile_keys (qk : list (option R)) (v : list (list R)) (s : R) : list (R * list R) :=
  omap (tile_key s) (zip qk v).

Lemma tile_deno qk v s M : length qk = length v →
  Rsum ((λ x, tl_exp (xsub x (Some M))) <$> qk) = Rsum ((λ k, exp (k.1 - M)) <$> tile_keys qk v s).
Proof.
  revert v. induction qk as [|x qk IH]; intros [|row v] Hl; try done. cbn [length] in Hl.
  unfold tile_keys. cbn [zip zip_with omap list_omap]. rewrite fmap_cons, Rsum_cons, (IH v) by lia.
  destruct x as [x|]; cbn [tile_key fst snd xsub tl_exp]; [by rewrite fmap_cons, Rsum_cons|].
  unfold tile_keys. lra.
Qed.

Lemma tile_dot qk v s M d : length qk = length v →
  (tl_dot ((λ x, tl_exp (xsub x (Some M))) <$> qk) ((λ row, wt row d) <$> v) * s)%R
  = Rsum ((λ k, exp (k.1 - M) * wt k.2 d)%R <$> tile_keys qk v s).
Proof.
  revert v. induction qk as [|x qk IH]; intros [|row v] Hl; cbn [length] in Hl; try done.
  { unfold tl_dot, Rsum. cbn. lra. }
  specialize (IH v ltac:(lia)). unfold tile_keys, tl_dot in *. rewrite !fmap_cons. cbn [zip zip_with omap list_omap fmap list_fmap].
  rewrite Rsum_cons. destruct x as [x|]; cbn [tile_key fst snd xsub tl_exp].
  - rewrite fmap_cons, Rsum_cons, <- IH. cbn [fst snd]. rewrite (wt_fmap (λ z, z * s)%R) by lra. lra.
  - rewrite <- IH. lra.
Qed.

Lemma rescale_deno ks M M' :
  (Rsum ((λ k : R * list R, exp (k.1 - M)) <$> ks) * exp (M - M'))%R = Rsum ((λ k, exp (k.1 - M')) <$> ks).
Proof.
  induction ks as [|k ks IH]; [unfold Rsum; cbn; lra|]. rewrite !fmap_cons, !Rsum_cons, Rmult_plus_distr_r, IH, <- exp_plus.
  do 2 f_equal. lra.
Qed.

Lemma rescale_acc ks M M' d :
  (Rsum ((λ k : R * list R, exp (k.1 - M) * wt k.2 d)%R <$> ks) * exp (M - M'))%R
  = Rsum ((λ k, exp (k.1 - M') * wt k.2 d)%R <$> ks).
Proof.
  induction ks as [|k ks IH]; [unfold Rsum; cbn; lra|]. rewrite !fmap_cons, !Rsum_cons, Rmult_plus_distr_r, IH.
  f_equal. replace (k.1 - M')%R with ((k.1 - M) + (M - M'))%R by lra. rewrite exp_plus. lra.
Qed.

Lemma softmax_tile_ok qk v s st ks :
  length qk = length v → tracks st ks → tracks (softmax_tile DV qk v s st) (ks ++ tile_keys qk v s).
Proof.
  intros Hl. destruct st as [[acc deno] e_max]. intros [Hacc Hst]. unfold softmax_tile. cbv zeta.
  set (fixed := match tl_max qk with Some x => x | None => _ end).
  assert (E : ∃ M', xmax (Some fixed) e_max = Some M') by (destruct e_max; by eexists).
  destruct E as [M' ->]. split; [rewrite length_zip_with, length_fmap, length_seq; lia|].
  rewrite (tile_deno qk v s) by done.
  assert (Hd : ∀ d, d < DV →
    wt (zip_with (λ a x, a * tl_exp (xsub e_max (Some M')) + x * s)%R acc
          ((λ d, tl_dot ((λ x, tl_exp (xsub x (Some M'))) <$> qk) ((λ row, wt row d) <$> v)) <$> seq 0 DV)) d
    = (wt acc d * tl_exp (xsub e_max (Some M'))
       + Rsum ((λ k, exp (k.1 - M') * wt k.2 d) <$> tile_keys qk v s))%R).
  { intros d Hd. rewrite wt_zip_with by (rewrite ?length_fmap, ?length_seq; done).
    by rewrite wt_seq, tile_dot by done. }
  destruct e_max as [M|]; cbn [xsub tl_exp] in *.
  - destruct Hst as [-> Ha]. split; [by rewrite rescale_deno, fmap_app, Rsum_app|].
    intros d Hd'. by rewrite Hd, Ha, rescale_acc, fmap_app, Rsum_app.
  - destruct Hst as (-> & -> & Ha). split; [cbn [app]; lra|]. intros d Hd'. rewrite Hd, Ha by done. cbn [app]. lra.
Qed.

(** A run of tiles sees the keys of their lanes. *)
Lemma tiles_ok BN (key : nat → option (R * list R)) (skip : nat → bool) (tile : nat → lane_state → lane_state) :
  (∀ i st ks, tracks st ks → tracks (tile i st) (ks ++ omap key (tl_lanes BN i))) →
  (∀ i, skip i = true → omap key (tl_lanes BN i) = []) →
  ∀ count first st ks, tracks st ks →
    tracks (foldl (λ st i, if skip i then st else tile i st) st (seq first count))
      (ks ++ omap key (seq (first * BN) (count * BN))).
Proof.
  intros Ht Hs. induction count as [|n IH]; intros first st ks Hst; [cbn; by rewrite app_nil_r|].
  cbn [seq foldl]. replace (S n * BN) with (BN + n * BN) by lia. rewrite seq_app, omap_app, app_assoc.
  replace (first * BN + BN) with (S first * BN) by lia. apply IH. change (seq (first * BN) BN) with (tl_lanes BN first).
  destruct (skip first) eqn:E; [|by apply Ht]. by rewrite Hs, app_nil_r.
Qed.

Lemma omap_none {A B} (f : A → option B) l : (∀ x, x ∈ l → f x = None) → omap f l = [].
Proof.
  induction l as [|x l IH]; intros Hf; [done|]. cbn. rewrite Hf by (by left). apply IH. intros y Hy. apply Hf. by right.
Qed.

Lemma cdiv_0 n : 0 < n → cdiv 0 n = 0.
Proof. intros. unfold cdiv. apply Nat.div_small. lia. Qed.

(** Only the keys of [[lo, n)] are visible: the tiles that cover them see them all. *)
Lemma omap_cover {B} (key : nat → option B) lo n BN :
  0 < BN → (∀ x, x < lo ∨ n ≤ x → key x = None) →
  omap key (seq (lo / BN * BN) ((cdiv n BN - lo / BN) * BN)) = omap key (seq 0 n).
Proof.
  intros HB Hk. set (f := lo / BN).
  assert (Hf : f * BN ≤ lo) by (unfold f; pose proof (Nat.div_mod lo BN ltac:(lia)); lia).
  assert (Hn : n ≤ cdiv n BN * BN).
  { unfold cdiv. pose proof (Nat.div_mod (n + BN - 1) BN ltac:(lia)).
    pose proof (Nat.mod_upper_bound (n + BN - 1) BN ltac:(lia)). nia. }
  destruct (decide (f ≤ cdiv n BN)) as [Hc|Hc].
  - transitivity (omap key (seq 0 (cdiv n BN * BN))).
    + replace (cdiv n BN * BN) with (f * BN + (cdiv n BN - f) * BN) by nia. rewrite seq_app, omap_app.
      rewrite (omap_none _ (seq 0 _)); [done|]. intros x Hx%elem_of_seq. apply Hk. lia.
    + replace (cdiv n BN * BN) with (n + (cdiv n BN * BN - n)) by lia. rewrite seq_app, omap_app.
      rewrite (omap_none _ (seq (0 + n) _)), app_nil_r; [done|]. intros x Hx%elem_of_seq. apply Hk. lia.
  - replace (cdiv n BN - f) with 0 by lia. cbn [Nat.mul seq]. symmetry. apply omap_none.
    intros x Hx%elem_of_seq. apply Hk. left. nia.
Qed.

(** What the epilogue stores. *)
Lemma tracks_out acc deno e_max ks Lv sink :
  tracks (acc, deno, e_max) ks → ks ≠ [] → Lv ≤ DV →
  let deno' := match sink with Some s => (deno + tl_exp (xsub (Some s) e_max))%R | None => deno end in
  (λ d, wt acc d / deno')%R <$> filter (λ d, d < Lv) (seq 0 DV) = attention Lv sink ks.
Proof.
  intros [Hl Hst] Hks HLv. cbv zeta. rewrite filter_lt_seq, Nat.sub_0_r, Nat.min_r by done.
  destruct e_max as [M|]; [|by destruct Hst]. destruct Hst as [-> Ha]. unfold attention. cbv zeta.
  apply list_fmap_ext. intros i d Hd. apply lookup_seq in Hd as [-> Hi]. cbn [Nat.add].
  rewrite Ha by lia.
  pose proof (rescale_deno ks M 0) as E1. pose proof (rescale_acc ks M 0 i) as E2. rewrite Rminus_0_r in E1, E2.
  assert (X : ∀ x, exp (x - 0) = exp x) by (intros; by rewrite Rminus_0_r).
  assert (S1 : Rsum ((λ k : R * list R, exp k.1) <$> ks) = (Rsum ((λ k, exp (k.1 - M)) <$> ks) * exp M)%R).
  { rewrite E1. f_equal. apply list_fmap_ext. intros ? k _. by rewrite X. }
  assert (S2 : Rsum ((λ k : R * list R, exp k.1 * wt k.2 i)%R <$> ks)
    = (Rsum ((λ k, exp (k.1 - M) * wt k.2 i)%R <$> ks) * exp M)%R).
  { rewrite E2. f_equal. apply list_fmap_ext. intros ? k _. by rewrite X. }
  rewrite S1, S2. set (a := Rsum _). set (b := Rsum ((λ k, exp (k.1 - M)) <$> ks)).
  assert (Hb : (0 < b)%R).
  { unfold b. apply Rsum_pos; [by destruct ks|]. apply Forall_fmap, Forall_true. intros k. apply exp_pos. }
  pose proof (exp_pos M). destruct sink as [s|].
  - cbn [xsub tl_exp]. replace (exp s) with (exp (s - M) * exp M)%R by (rewrite <- exp_plus; f_equal; lra).
    pose proof (exp_pos (s - M)). rewrite <- Rmult_plus_distr_r. field. lra.
  - rewrite Rplus_0_r. field. lra.
Qed.
End tracks.

(** ** One program *)

Section program.
Context (c : FwdConf) (t : FwdMem) (cur_seq cur_head : nat).

(** Well-formed constants: what [_get_block_sizes_for_extend_attention] gives. *)
Record conf_ok : Prop := {
  cf_m : 0 < BLOCK_M c;
  cf_n : 0 < BLOCK_N c;
  cf_dims : if 0 <? BLOCK_DPE c then BLOCK_DMODEL c + BLOCK_DPE c = Lq c else Lq c ≤ BLOCK_DMODEL c;
  cf_dv : Lv c ≤ BLOCK_DV c;
  (** A custom mask under [IS_CAUSAL] is causal. *)
  cf_causal mask m n : custom_mask c = Some mask → IS_CAUSAL c = true →
    mask_at c t cur_seq mask m (cur_seq_len_prefix t cur_seq + n) = true → n ≤ m
}.

Hypothesis Hc : conf_ok.

Lemma slot_of_id loc : slot_of c loc = loc.
Proof.
  unfold slot_of. destruct (_ =? _); [done|]. pose proof (Nat.div_mod_eq loc (PAGE_SIZE c)). lia.
Qed.

Lemma dot_seq (f g : nat → R) l : tl_dot (f <$> l) (g <$> l) = Rsum ((λ d, f d * g d)%R <$> l).
Proof. unfold tl_dot. induction l as [|x l IH]; [done|]. rewrite !fmap_cons. cbn [zip_with]. by rewrite !Rsum_cons, IH. Qed.

Lemma tl_load_wt (l : list R) d : tl_load l d true 0%R = wt l d.
Proof. done. Qed.

Lemma block_dot_ok q k : block_dot c q k true true = key_dot (Lq c) q k.
Proof using Hc.
  unfold block_dot, key_dot. rewrite !dot_seq. pose proof (cf_dims Hc) as Hd. destruct (0 <? BLOCK_DPE c) eqn:E.
  - rewrite <- Hd, seq_app, fmap_app, Rsum_app. cbn [Nat.add]. f_equal. f_equal.
    apply list_fmap_ext. intros i d Hi. apply lookup_seq in Hi as [-> Hi].
    assert ((0 + i <? BLOCK_DMODEL c + BLOCK_DPE c) = true) as -> by (apply Nat.ltb_lt; lia). done.
  - replace (BLOCK_DMODEL c) with (Lq c + (BLOCK_DMODEL c - Lq c)) by lia.
    rewrite seq_app, fmap_app, Rsum_app, (Rsum_ext _ (λ _ : nat, 0%R) (seq (0 + _) _)), Rsum_const0.
    + rewrite Rplus_0_r. f_equal. apply list_fmap_ext. intros i d Hi. apply lookup_seq in Hi as [-> Hi].
      assert ((0 + i <? Lq c) = true) as -> by (apply Nat.ltb_lt; lia). done.
    + apply Forall_forall. intros d Hd'%elem_of_seq. assert ((d <? Lq c) = false) as -> by (apply Nat.ltb_ge; lia). unfold tl_load. cbn. lra.
Qed.

(** Keys that weigh the same in every stored column. *)
Definition same_key (k k' : R * list R) : Prop := k.1 = k'.1 ∧ ∀ d, d < Lv c → wt k.2 d = wt k'.2 d.

Lemma attention_same sink ks ks' :
  Forall2 same_key ks ks' → attention (Lv c) sink ks = attention (Lv c) sink ks'.
Proof.
  intros Hk. unfold attention. cbv zeta. apply list_fmap_ext. intros i d Hd. apply lookup_seq in Hd as [-> Hi].
  assert (E1 : (λ k : R * list R, exp k.1) <$> ks = (λ k, exp k.1) <$> ks').
  { induction Hk as [|k k' ks ks' [E _] _ IH]; [done|]. by rewrite !fmap_cons, E, IH. }
  assert (E2 : (λ k : R * list R, exp k.1 * wt k.2 (0 + i))%R <$> ks = (λ k, exp k.1 * wt k.2 (0 + i))%R <$> ks').
  { clear E1. induction Hk as [|k k' ks ks' [E Hw] _ IH]; [done|]. by rewrite !fmap_cons, E, Hw, IH. }
  by rewrite E1, E2.
Qed.

Lemma omap_same {A} (f g : A → option (R * list R)) l :
  (∀ x, match f x, g x with Some a, Some b => same_key a b | None, None => True | _, _ => False end) →
  Forall2 same_key (omap f l) (omap g l).
Proof.
  intros H. induction l as [|x l IH]; [constructor|]. cbn. specialize (H x).
  destruct (f x), (g x); try done. by constructor.
Qed.

Lemma value_lanes_wt row d : d < Lv c → wt (value_lanes c row true) d = wt row d.
Proof using Hc.
  intros Hd. unfold value_lanes. pose proof (cf_dv Hc). rewrite wt_seq by lia.
  by assert ((d <? Lv c) = true) as -> by (by apply Nat.ltb_lt).
Qed.

Lemma tile_keys_lanes (f : nat → option R) (g : nat → list R) s l :
  tile_keys (f <$> l) (g <$> l) s = omap (λ n, tile_key s (f n, g n)) l.
Proof.
  unfold tile_keys. induction l as [|x l IH]; [done|]. rewrite !fmap_cons. cbn [zip zip_with omap list_omap].
  by rewrite IH.
Qed.

Section lane.
Context (blk m : nat) (Hm : m < cur_seq_len_extend t cur_seq) (Hblk : m ∈ tl_lanes (BLOCK_M c) blk).

Lemma lane_block : blk * BLOCK_M c ≤ m < (blk + 1) * BLOCK_M c.
Proof using Hblk. clear -Hblk. apply elem_of_seq in Hblk. lia. Qed.

Lemma extend_mask_sees n : extend_mask c t cur_seq blk m n = sees_extend c t cur_seq m n.
Proof using Hc Hm Hblk.
  pose proof lane_block. unfold extend_mask, sees_extend, block_end.
  assert ((m <? cur_seq_len_extend t cur_seq) = true) as -> by (by apply Nat.ltb_lt). cbn [andb].
  destruct (IS_CAUSAL c) eqn:EC; [|done].
  destruct (custom_mask c) as [mask|] eqn:EM.
  - destruct (mask_at c t cur_seq mask m _) eqn:E; [|by rewrite !andb_false_r].
    apply (cf_causal Hc _ _ _ EM EC) in E. do 2 f_equal. apply eq_true_iff_eq. rewrite !Nat.ltb_lt. lia.
  - destruct (Nat.leb_spec n m); [|by rewrite !andb_false_r].
    do 2 f_equal. apply eq_true_iff_eq. rewrite !Nat.ltb_lt. lia.
Qed.

Definition lane_prefix_key (n : nat) : option (R * list R) :=
  tile_key (v_scale c)
    (if prefix_mask c t cur_seq m n then
       Some (adjust c t cur_seq cur_head
         (block_dot c (query t cur_seq cur_head m)
            (K_Buffer t (slot_of c (offs_kv_loc t cur_seq n)) (cur_kv_head c cur_head))
            (m <? cur_seq_len_extend t cur_seq) (n <? cur_seq_len_prefix t cur_seq) * (sm_scale c * k_scale c))%R m n)
     else None,
     value_lanes c (V_Buffer t (slot_of c (offs_kv_loc t cur_seq n)) (cur_kv_head c cur_head))
       (n <? cur_seq_len_prefix t cur_seq)).

Definition lane_extend_key (n : nat) : option (R * list R) :=
  tile_key 1
    (if extend_mask c t cur_seq blk m n then
       Some (adjust c t cur_seq cur_head
         (block_dot c (query t cur_seq cur_head m)
            (head_row (K_Extend t) (cur_seq_extend_start_idx t cur_seq + n) (cur_kv_head c cur_head))
            (m <? cur_seq_len_extend t cur_seq) (n <? block_end c t cur_seq blk) * sm_scale c)%R
         m (cur_seq_len_prefix t cur_seq + n))
     else None,
     value_lanes c (head_row (V_Extend t) (cur_seq_extend_start_idx t cur_seq + n) (cur_kv_head c cur_head))
       (n <? block_end c t cur_seq blk)).

Lemma lane_prefix_same n :
  match lane_prefix_key n, prefix_key c t cur_seq cur_head m n with
  | Some a, Some b => same_key a b | None, None => True | _, _ => False end.
Proof using Hc Hm.
  unfold lane_prefix_key, prefix_key, tile_key. cbn [fst snd].
  destruct (prefix_mask c t cur_seq m n) eqn:E; [|done]. cbv zeta.
  unfold prefix_mask in E. apply andb_true_iff in E as [E _]. apply andb_true_iff in E as [E _].
  apply andb_true_iff in E as [E1 E2]. rewrite E1, E2, slot_of_id, block_dot_ok. unfold offs_kv_loc. rewrite E2.
  split; [done|]. intros d Hd. cbn [snd]. rewrite !(wt_fmap (λ z, z * v_scale c)%R) by lra. by rewrite value_lanes_wt.
Qed.

Lemma lane_extend_same n :
  match lane_extend_key n, extend_key c t cur_seq cur_head m n with
  | Some a, Some b => same_key a b | None, None => True | _, _ => False end.
Proof using Hc Hm Hblk.
  unfold lane_extend_key, extend_key, tile_key. cbn [fst snd]. rewrite <- extend_mask_sees.
  destruct (extend_mask c t cur_seq blk m n) eqn:E; [|done]. cbv zeta.
  unfold extend_mask in E. apply andb_true_iff in E as [E _]. apply andb_true_iff in E as [E _].
  apply andb_true_iff in E as [E1 E2]. rewrite E1, E2, block_dot_ok.
  split; [done|]. intros d Hd. cbn [snd]. rewrite (wt_fmap (λ z, z * 1)%R) by lra. rewrite value_lanes_wt by done. lra.
Qed.

Lemma prefix_tile_ok i st ks :
  tracks (BLOCK_DV c) st ks →
  tracks (BLOCK_DV c) (prefix_tile c t cur_seq cur_head m i st) (ks ++ omap lane_prefix_key (tl_lanes (BLOCK_N c) i)).
Proof.
  intros H. unfold prefix_tile. cbv zeta. unfold lane_prefix_key. rewrite <- tile_keys_lanes.
  apply softmax_tile_ok; [by rewrite !length_fmap|done].
Qed.

Lemma extend_tile_ok i st ks :
  tracks (BLOCK_DV c) st ks →
  tracks (BLOCK_DV c) (extend_tile c t cur_seq cur_head blk m i st) (ks ++ omap lane_extend_key (tl_lanes (BLOCK_N c) i)).
Proof.
  intros H. unfold extend_tile. cbv zeta. unfold lane_extend_key. rewrite <- tile_keys_lanes.
  apply softmax_tile_ok; [by rewrite !length_fmap|done].
Qed.

Lemma all_masked_lane mask i n :
  all_masked c mask blk i = true → n ∈ tl_lanes (BLOCK_N c) i → mask m n = false.
Proof using Hblk.
  unfold all_masked. rewrite forallb_forall. intros H Hn.
  specialize (H m (proj1 (list_elem_of_In _ _) Hblk)). rewrite forallb_forall in H.
  specialize (H n (proj1 (list_elem_of_In _ _) Hn)). by apply negb_true_iff in H.
Qed.

Lemma skip_prefix_ok i : skip_prefix_tile c t cur_seq blk i = true → omap lane_prefix_key (tl_lanes (BLOCK_N c) i) = [].
Proof using Hblk.
  unfold skip_prefix_tile. intros [_ H]%andb_true_iff. apply omap_none. intros n Hn. unfold lane_prefix_key.
  by rewrite (all_masked_lane _ _ _ H Hn).
Qed.

Lemma skip_extend_ok i : skip_extend_tile c t cur_seq blk i = true → omap lane_extend_key (tl_lanes (BLOCK_N c) i) = [].
Proof using Hblk.
  unfold skip_extend_tile. intros [_ H]%andb_true_iff. apply omap_none. intros n Hn. unfold lane_extend_key.
  by rewrite (all_masked_lane _ _ _ H Hn).
Qed.

Lemma prefix_key_range n : cur_seq_len_prefix t cur_seq ≤ n → lane_prefix_key n = None.
Proof.
  intros Hn. unfold lane_prefix_key, prefix_mask. assert ((n <? cur_seq_len_prefix t cur_seq) = false) as -> by (by apply Nat.ltb_ge).
  by rewrite andb_false_r.
Qed.

Lemma extend_key_range n :
  n < (if windowed c then blk * BLOCK_M c - window c else 0) ∨ block_end c t cur_seq blk ≤ n → lane_extend_key n = None.
Proof using Hblk Hm.
  pose proof lane_block as Hb. intros [Hn|Hn]; unfold lane_extend_key, extend_mask.
  - destruct (windowed c); [|lia]. assert ((m <=? n + window c) = false) as -> by (apply Nat.leb_gt; lia).
    by rewrite andb_false_r.
  - assert ((n <? block_end c t cur_seq blk) = false) as -> by (by apply Nat.ltb_ge). by rewrite andb_false_r.
Qed.

Lemma extend_keys_all :
  omap lane_extend_key (seq 0 (block_end c t cur_seq blk)) = omap lane_extend_key (seq 0 (cur_seq_len_extend t cur_seq)).
Proof using Hblk Hm.
  assert (block_end c t cur_seq blk ≤ cur_seq_len_extend t cur_seq) by (unfold block_end; destruct (IS_CAUSAL c); lia).
  replace (cur_seq_len_extend t cur_seq) with
    (block_end c t cur_seq blk + (cur_seq_len_extend t cur_seq - block_end c t cur_seq blk)) by lia.
  rewrite seq_app, omap_app, (omap_none _ (seq (0 + _) _)), app_nil_r; [done|].
  intros n Hn%elem_of_seq. apply extend_key_range. right. lia.
Qed.

(** What each stage has seen. *)
Definition prefix_seen : list (R * list R) :=
  if SKIP_PREFIX c then [] else omap lane_prefix_key (seq 0 (cur_seq_len_prefix t cur_seq)).
Definition extend_seen : list (R * list R) :=
  if SKIP_EXTEND c then [] else omap lane_extend_key (seq 0 (cur_seq_len_extend t cur_seq)).

Lemma prefix_state_ok : tracks (BLOCK_DV c) (prefix_state c t cur_seq cur_head blk m) prefix_seen.
Proof using Hc Hm Hblk.
  unfold prefix_state, prefix_seen. cbv zeta.
  pose proof (tiles_ok (BLOCK_DV c) (BLOCK_N c) lane_prefix_key _ _ prefix_tile_ok skip_prefix_ok
    (cdiv (if SKIP_PREFIX c then 0 else cur_seq_len_prefix t cur_seq) (BLOCK_N c)) 0 _ _ (tracks_init _)) as H.
  cbn [app Nat.mul] in H. destruct (SKIP_PREFIX c); [by rewrite (cdiv_0 _ (cf_n Hc)) in *|].
  pose proof (omap_cover lane_prefix_key 0 (cur_seq_len_prefix t cur_seq) (BLOCK_N c) (cf_n Hc)) as C.
  rewrite Nat.Div0.div_0_l, Nat.sub_0_r in C. cbn [Nat.mul] in C. rewrite C in H; [done|].
  intros x [Hx|Hx]; [lia|by apply prefix_key_range].
Qed.

Lemma final_state_ok : tracks (BLOCK_DV c) (final_state c t cur_seq cur_head blk m) (prefix_seen ++ extend_seen).
Proof using Hc Hm Hblk.
  set (lo := if windowed c then blk * BLOCK_M c - window c else 0).
  assert (Hlo : extend_first c blk = lo / BLOCK_N c).
  { unfold extend_first, lo. destruct (windowed c); [done|]. by rewrite Nat.Div0.div_0_l. }
  unfold final_state. cbv zeta. rewrite Hlo. unfold extend_seen.
  pose proof (tiles_ok (BLOCK_DV c) (BLOCK_N c) lane_extend_key _ _ extend_tile_ok skip_extend_ok
    (cdiv (if SKIP_EXTEND c then 0 else block_end c t cur_seq blk) (BLOCK_N c) - lo / BLOCK_N c) (lo / BLOCK_N c)
    _ _ prefix_state_ok) as H.
  destruct (SKIP_EXTEND c); [by rewrite (cdiv_0 _ (cf_n Hc)) in *|].
  rewrite omap_cover, extend_keys_all in H; [done|apply (cf_n Hc)|]. intros x Hx. by apply extend_key_range.
Qed.

Lemma seen_visible : Forall2 same_key (prefix_seen ++ extend_seen) (visible_keys c t cur_seq cur_head m).
Proof using Hc Hm Hblk.
  unfold prefix_seen, extend_seen, visible_keys. apply Forall2_app.
  - destruct (SKIP_PREFIX c); [constructor|]. apply omap_same, lane_prefix_same.
  - destruct (SKIP_EXTEND c); [constructor|]. apply omap_same, lane_extend_same.
Qed.

Lemma lane_row_ok :
  visible_keys c t cur_seq cur_head m ≠ [] →
  lane_row c t cur_seq cur_head blk m = attention_row c t cur_seq cur_head m.
Proof using Hc Hm Hblk.
  intros Hv. unfold lane_row, attention_row. pose proof final_state_ok as H. pose proof seen_visible as HF.
  destruct (final_state _ _ _ _ _ _) as [[acc deno] e_max].
  rewrite <- (attention_same _ _ _ HF).
  pose proof (tracks_out _ _ _ _ _ (Lv c) ((λ s, wt s cur_head) <$> sinks c) H) as O. cbv zeta in O.
  rewrite <- O; [by destruct (sinks c)| |apply (cf_dv Hc)].
  intros E. rewrite E in HF. by apply Forall2_nil_inv_l in HF.
Qed.
End lane.
End program.

(** ** The launch *)

Lemma foldl_store ws : ∀ o tok head row,
  (∀ w, w ∈ ws → w.1 = (tok, head) → w.2 = row) → (tok, head, row) ∈ ws ∨ o tok head = row →
  foldl store_row o ws tok head = row.
Proof.
  induction ws as [|w ws IH]; intros o tok head row Hall H; cbn [foldl].
  { destruct H as [H|H]; [by apply not_elem_of_nil in H|done]. }
  apply IH; [intros; apply Hall; [by right|done]|]. unfold store_row.
  destruct (Nat.eqb_spec tok w.1.1) as [E1|E1], (Nat.eqb_spec head w.1.2) as [E2|E2]; cbn [andb].
  1: right; apply Hall; [by left|destruct w as [[? ?] ?]; cbn in *; by subst].
  all: destruct H as [[H|H]%elem_of_cons|H]; [subst w; done|by left|by right].
Qed.

Lemma launch_fwd_concat c t programs o :
  launch_fwd c t programs o = foldl store_row o (concat ((λ '(b, head, blk), _fwd_kernel c t b head blk) <$> programs)).
Proof.
  unfold launch_fwd. revert o. induction programs as [|[[b head] blk] ps IH]; intros o; [done|].
  rewrite fmap_cons. cbn [foldl concat]. by rewrite IH, foldl_app.
Qed.

Section launch.
Context (c : FwdConf) (t : FwdMem) (batch_size head_num max_len_extend : nat).
Notation len b := (cur_seq_len_extend t b).
Notation start b := (cur_seq_extend_start_idx t b).
Notation tiles b := (cdiv (len b) (BLOCK_M c)).

(** A batch: the requests' rows are consecutive. *)
Record batch_rows : Prop := {
  br_size : length (qo_indptr t) = S batch_size;
  br_mono b : b < batch_size → ld (qo_indptr t) b ≤ ld (qo_indptr t) (S b);
  br_zero : ld (qo_indptr t) 0 = 0;
  br_total : ld (qo_indptr t) batch_size = length (Q_Extend t);
  br_max b : b < batch_size → len b ≤ max_len_extend
}.

Hypothesis Hb : batch_rows.
Hypothesis Hc : ∀ b, conf_ok c t b.

Lemma start_le b b' : b < b' → b' ≤ batch_size → start b + len b ≤ start b'.
Proof using Hb.
  intros Hlt Hle. unfold cur_seq_len_extend, cur_seq_extend_start_idx.
  assert (M : ∀ k, S b + k ≤ batch_size → ld (qo_indptr t) (S b) ≤ ld (qo_indptr t) (S b + k)).
  { induction k as [|k IH]; intros Hk; [by rewrite Nat.add_0_r|]. etrans; [apply IH; lia|].
    rewrite (Nat.add_succ_r (S b)). apply (br_mono Hb). lia. }
  specialize (M (b' - S b) ltac:(lia)). replace (S b + (b' - S b)) with b' in M by lia.
  pose proof (br_mono Hb b ltac:(lia)). lia.
Qed.

Lemma row_of_token b b' m m' :
  b < batch_size → b' < batch_size → m < len b → m' < len b' → start b + m = start b' + m' → b' = b ∧ m' = m.
Proof using Hb.
  intros H1 H2 H3 H4 E. destruct (decide (b < b')) as [Hlt|Hge].
  - pose proof (start_le b b' Hlt ltac:(lia)). lia.
  - destruct (decide (b' < b)) as [Hlt|]; [pose proof (start_le b' b Hlt ltac:(lia)); lia|].
    assert (b' = b) as -> by lia. split; [done|lia].
Qed.

(** *** Both grids reach every block *)

Lemma find_tile_ok b r bs fuel cur cum :
  cur ≤ b → b < bs → b - cur < fuel → r < tiles b →
  find_tile (BLOCK_M c) (qo_indptr t) bs (cum + sum_list ((λ i, tiles i) <$> seq cur (b - cur)) + r) fuel cur cum = Some (b, r).
Proof.
  revert cur cum. induction fuel as [|fuel IH]; intros cur cum H1 H2 H3 H4; [lia|]. cbn [find_tile].
  assert ((cur <? bs) = true) as -> by (apply Nat.ltb_lt; lia). cbv zeta.
  change ((ld (qo_indptr t) (S cur) - ld (qo_indptr t) cur + BLOCK_M c - 1) / BLOCK_M c) with (tiles cur).
  destruct (decide (cur = b)) as [->|Hne].
  - rewrite Nat.sub_diag. cbn [seq fmap list_fmap sum_list_with].
    match goal with |- (if ?x then _ else _) = _ => assert (x = true) as -> by (apply Nat.ltb_lt; lia) end.
    do 2 f_equal. lia.
  - replace (b - cur) with (S (b - S cur)) by lia. cbn [seq fmap list_fmap sum_list_with]. unfold Datatypes.id.
    match goal with |- (if ?x then _ else _) = _ => assert (x = false) as -> by (apply Nat.ltb_ge; lia) end.
    rewrite <- (IH (S cur) (cum + tiles cur)) by lia. f_equal. unfold fmap, list_fmap, Datatypes.id. lia.
Qed.

Lemma find_tile_range tile fuel cur cum b r bs :
  find_tile (BLOCK_M c) (qo_indptr t) bs tile fuel cur cum = Some (b, r) → b < bs.
Proof.
  revert cur cum. induction fuel as [|fuel IH]; intros cur cum; cbn [find_tile]; [done|].
  destruct (Nat.ltb_spec cur bs); [|done]. cbv zeta. destruct (_ <? _); [by intros [= <- _]|]. apply IH.
Qed.

Lemma grid_range compact b head blk :
  (b, head, blk) ∈ grid (qo_indptr t) batch_size head_num max_len_extend (BLOCK_M c) compact → b < batch_size.
Proof.
  unfold grid. destruct compact as [n|]; intros H.
  - apply list_elem_of_bind in H as (tile & H & _). apply list_elem_of_bind in H as (hd & H & _).
    destruct (find_tile _ _ _ _ _ _ _) as [[b' blk']|] eqn:E; [|by apply not_elem_of_nil in H].
    apply list_elem_of_singleton in H. injection H as -> -> ->. by eapply find_tile_range.
  - apply list_elem_of_bind in H as (b' & H & Hb'%elem_of_seq). apply list_elem_of_bind in H as (hd & H & _).
    apply list_elem_of_bind in H as (blk' & H & _). apply list_elem_of_singleton in H. injection H as -> -> ->. lia.
Qed.

Lemma block_lt b m : m < len b → 0 < BLOCK_M c → m / BLOCK_M c < tiles b.
Proof.
  intros Hm HM. unfold cdiv. apply Nat.div_lt_upper_bound; [lia|].
  pose proof (Nat.div_mod_eq (len b + BLOCK_M c - 1) (BLOCK_M c)).
  pose proof (Nat.mod_upper_bound (len b + BLOCK_M c - 1) (BLOCK_M c)). nia.
Qed.

(** The tiles of the requests before [b]. *)
Lemma tiles_prefix k : k ≤ batch_size →
  sum_list ((λ i, len i) <$> seq 0 k) = ld (qo_indptr t) k.
Proof using Hb.
  induction k as [|k IH]; intros Hk; [cbn; by rewrite (br_zero Hb)|].
  rewrite seq_S, fmap_app, sum_list_with_app, IH by lia. cbn. unfold cur_seq_len_extend, cur_seq_extend_start_idx. pose proof (br_mono Hb k ltac:(lia)). lia.
Qed.

Lemma tiles_bound k : 0 < BLOCK_M c →
  BLOCK_M c * sum_list ((λ i, tiles i) <$> seq 0 k) ≤ sum_list ((λ i, len i) <$> seq 0 k) + k * (BLOCK_M c - 1).
Proof.
  intros HM. induction k as [|k IH]; [cbn; lia|]. rewrite !seq_S, !fmap_app, !sum_list_with_app.
  cbn [fmap list_fmap sum_list_with Nat.add]. unfold Datatypes.id at 2 4.
  assert (BLOCK_M c * tiles k ≤ len k + (BLOCK_M c - 1)).
  { unfold cdiv. etrans; [apply Nat.Div0.mul_div_le|]. lia. }
  nia.
Qed.

Definition lens_ok (extend_seq_lens_cpu : option (list nat)) : Prop :=
  ∀ lens, extend_seq_lens_cpu = Some lens → ∀ b, b < batch_size → ld lens b = len b.

Lemma compact_tiles_ok lens n : 0 < BLOCK_M c → lens_ok lens →
  _compact_extend_q_tiles_per_head batch_size max_len_extend (length (Q_Extend t)) (BLOCK_M c) lens = Some n →
  sum_list ((λ i, tiles i) <$> seq 0 batch_size) ≤ n.
Proof using Hb.
  intros HM Hlens. unfold _compact_extend_q_tiles_per_head. destruct (_ || _); [done|]. destruct (_ <=? 0); [done|]. cbv zeta.
  destruct lens as [lens|].
  - destruct (_ <? _); [done|]. destruct (_ || _); [done|]. intros [= <-]. apply Nat.eq_le_incl. f_equal.
    apply list_fmap_ext. intros i x Hx. apply lookup_seq in Hx as [-> Hx]. by rewrite (Hlens lens) by done.
  - destruct (_ =? _); [done|]. destruct (_ || _); [done|]. intros [= <-].
    apply Nat.div_le_lower_bound; [lia|]. etrans; [by apply tiles_bound|]. rewrite tiles_prefix by done.
    by rewrite (br_total Hb).
Qed.

Lemma grid_reaches compact b head m :
  0 < BLOCK_M c → b < batch_size → head < head_num → m < len b →
  (∀ n, compact = Some n → sum_list ((λ i, tiles i) <$> seq 0 batch_size) ≤ n) →
  (b, head, m / BLOCK_M c) ∈ grid (qo_indptr t) batch_size head_num max_len_extend (BLOCK_M c) compact.
Proof using Hb.
  intros HM H1 H2 H3 Hn. pose proof (block_lt b m H3 HM) as Hblk. unfold grid. destruct compact as [n|].
  - specialize (Hn n eq_refl). set (tile := sum_list ((λ i, tiles i) <$> seq 0 b) + m / BLOCK_M c).
    apply list_elem_of_bind. exists tile. split; [|apply elem_of_seq; split; [lia|]].
    + apply list_elem_of_bind. exists head. split; [|apply elem_of_seq; lia].
      pose proof (find_tile_ok b (m / BLOCK_M c) batch_size (S batch_size) 0 0 ltac:(lia) H1 ltac:(lia) Hblk) as F.
      rewrite Nat.sub_0_r, Nat.add_0_l in F. fold tile in F. rewrite F. by apply list_elem_of_singleton.
    + replace batch_size with (b + (1 + (batch_size - S b))) in Hn by lia.
      rewrite !seq_app, !fmap_app, !sum_list_with_app in Hn. cbn in Hn. unfold tile.
      unfold Datatypes.id, fmap, list_fmap in *. lia.
  - apply list_elem_of_bind. exists b. split; [|apply elem_of_seq; lia].
    apply list_elem_of_bind. exists head. split; [|apply elem_of_seq; lia].
    apply list_elem_of_bind. exists (m / BLOCK_M c). split; [by apply list_elem_of_singleton|].
    apply elem_of_seq. split; [lia|]. cbn. eapply Nat.lt_le_trans; [exact Hblk|].
    unfold cdiv. apply Nat.Div0.div_le_mono. pose proof (br_max Hb b H1). lia.
Qed.

(** The stored rows of a launch. *)
Lemma launch_row programs o b head m :
  b < batch_size → m < len b → visible_keys c t b head m ≠ [] →
  (∀ b' head' blk, (b', head', blk) ∈ programs → b' < batch_size) →
  (b, head, m / BLOCK_M c) ∈ programs →
  launch_fwd c t programs o (start b + m) head = attention_row c t b head m.
Proof using Hb Hc.
  intros H1 H2 Hv Hp Hin. pose proof (cf_m c t b (Hc b)) as HM. rewrite launch_fwd_concat. apply foldl_store.
  - intros w Hw E. apply list_elem_of_In, in_concat in Hw as (ws & Hws & Hw).
    apply list_elem_of_In, list_elem_of_fmap in Hws as ([[b' head'] blk] & -> & Hprog). apply list_elem_of_In in Hw.
    unfold _fwd_kernel in Hw. destruct (_ <=? _); [by apply not_elem_of_nil in Hw|].
    apply list_elem_of_fmap in Hw as (m' & -> & Hm'). apply list_elem_of_filter in Hm' as [Hm' Hblk].
    cbn [fst snd] in *. injection E as E1 E2. subst head'.
    destruct (row_of_token b b' m m' H1 (Hp _ _ _ Hprog) H2 Hm' (eq_sym E1)) as [-> ->]. by apply lane_row_ok.
  - left. apply list_elem_of_In, in_concat.
    exists (_fwd_kernel c t b head (m / BLOCK_M c)). split.
    + apply list_elem_of_In, list_elem_of_fmap. by exists (b, head, m / BLOCK_M c).
    + apply list_elem_of_In. pose proof (Nat.div_mod_eq m (BLOCK_M c)). pose proof (Nat.mod_upper_bound m (BLOCK_M c)).
      assert (Hblk : m ∈ tl_lanes (BLOCK_M c) (m / BLOCK_M c)) by (apply elem_of_seq; nia).
      unfold _fwd_kernel. match goal with |- context [if ?x then _ else _] => assert (x = false) as -> by (apply Nat.leb_gt; nia) end.
      apply list_elem_of_fmap. exists m. split; [by rewrite lane_row_ok|]. by apply list_elem_of_filter.
Qed.
End launch.

(** The block sizes are well-formed for every device. *)
Lemma block_sizes_ok arch Lq Lv :
  let '(DM, DPE, DV, M, N) := _get_block_sizes_for_extend_attention arch Lq Lv in
  (if 0 <? DPE then DM + DPE = Lq else Lq ≤ DM) ∧ Lv ≤ DV ∧ 0 < M ∧ 0 < N.
Proof.
  unfold _get_block_sizes_for_extend_attention. pose proof (next_power_of_2_ge Lv) as HLv. pose proof (next_power_of_2_ge Lq) as HLq.
  destruct (Nat.eqb_spec Lq 576); [|destruct (Nat.eqb_spec Lq 288); [|destruct (Nat.eqb_spec Lq 192)]].
  all: destruct arch as [g95 t37|maj mnr|]; repeat case_match; simplify_eq; cbn; lia.
Qed.

Lemma fwd_conf_ok arch override lq lv heads kv_heads sm ks vs cap win xai mask causal skipm skipp skipe sinks page sc t b :
  (∀ m, override = Some m → 0 < m) → (mask = None ∨ causal = false) →
  conf_ok (fwd_conf arch override lq lv heads kv_heads sm ks vs cap win xai mask causal skipm skipp skipe sinks page sc) t b.
Proof.
  intros Ho Hm. unfold fwd_conf. pose proof (block_sizes_ok arch lq lv) as H.
  destruct (_get_block_sizes_for_extend_attention arch lq lv) as [[[[DM DPE] DV] M] N]. destruct H as (H1 & H2 & H3 & H4).
  split; cbn; [|done..|].
  - destruct override as [m|]; [by apply Ho|done].
  - intros mask' m n E1 E2. destruct Hm as [->| ->]; done.
Qed.

(** Every row of the launch, for the theorem below and the model that calls the kernel. *)
Lemma extend_attention_rows (compact_grid : bool) (c : FwdConf) (t : FwdMem) (batch_size head_num max_len_extend : nat)
    (lens : option (list nat)) (order : list (nat * nat * nat) → list (nat * nat * nat)) (o : nat → nat → list R)
    (b head m : nat)
    (Hc : ∀ b, conf_ok c t b) (Hb : batch_rows t batch_size max_len_extend) (Hlens : lens_ok t batch_size lens)
    (Horder : ∀ l, order l ≡ₚ l) (Hreq : b < batch_size) (Hhead : head < head_num)
    (Hm : m < cur_seq_len_extend t b) (Hv : visible_keys c t b head m ≠ []) :
  extend_attention_fwd compact_grid c t max_len_extend head_num lens order o (cur_seq_extend_start_idx t b + m) head
  = attention_row c t b head m.
Proof.
  pose proof (cf_m c t b (Hc b)) as HM. unfold extend_attention_fwd. cbv zeta.
  rewrite (br_size t batch_size max_len_extend Hb), Nat.sub_succ, Nat.sub_0_r.
  set (compact := if compact_grid then _ else _).
  apply (launch_row c t batch_size max_len_extend Hb Hc); [done..| |].
  - intros b' head' blk Hin. rewrite Horder in Hin. by eapply grid_range.
  - rewrite Horder. apply grid_reaches; [done..|]. intros n E. unfold compact in E.
    destruct compact_grid; [|done]. by apply (compact_tiles_ok c t batch_size max_len_extend Hb lens).
Qed.

(** C4: The extend attention kernel computes exact attention.  For every request, head and new
    token, whatever the device's block sizes, the tile grid (rectangular or compact), the order in
    which programs run and the output's previous content, the row stored is the softmax-weighted
    average of the values of exactly the keys the token may see: the request's cached slots read
    through [kv_indices] and its own new tokens, under the custom, causal and window masks, with
    soft capping, temperature and sinks.  The blocked loop with its running maximum and rescaling,
    the skipped tiles, the padded lanes and the page arithmetic change nothing. *)
Theorem extend_attention_exact (compact_grid : bool) (c : FwdConf) (t : FwdMem) (batch_size head_num max_len_extend : nat)
    (lens : option (list nat)) (order : list (nat * nat * nat) → list (nat * nat * nat)) (o : nat → nat → list R)
    (b head m : nat)
    (Hc : ∀ b, conf_ok c t b) (Hb : batch_rows t batch_size max_len_extend) (Hlens : lens_ok t batch_size lens)
    (Horder : ∀ l, order l ≡ₚ l) (Hreq : b < batch_size) (Hhead : head < head_num)
    (Hm : m < cur_seq_len_extend t b) (Hv : visible_keys c t b head m ≠ []) :
  extend_attention_fwd compact_grid c t max_len_extend head_num lens order o (cur_seq_extend_start_idx t b + m) head
  = attention_row c t b head m.
Proof. by apply (extend_attention_rows compact_grid c t batch_size). Qed.

(** One request with one cached token in slot 3 and one new token, one head of one dimension. *)
Definition tiny_fwd_mem : FwdMem :=
  {| Q_Extend := [[[1%R]]]; K_Extend := [[[1%R]]]; V_Extend := [[[2%R]]];
     K_Buffer := λ _ _, [1%R]; V_Buffer := λ slot _, [INR slot];
     qo_indptr := [0; 1]; kv_indptr := [0; 1]; kv_indices := [3]; mask_indptr := []; window_kv_offsets := [] |}.
Definition tiny_fwd_conf : FwdConf :=
  fwd_conf OtherDevice (Some 8) 1 1 1 1 None 1 1 0 (-1) (-1) None false true false false None 1 None.

Lemma extend_attention_exact_witness :
  extend_attention_fwd true tiny_fwd_conf tiny_fwd_mem 1 1 None reverse (λ _ _, []) 0 0
  = attention_row tiny_fwd_conf tiny_fwd_mem 0 0 0.
Proof.
  refine (extend_attention_exact true tiny_fwd_conf tiny_fwd_mem 1 1 1 None reverse (λ _ _, []) 0 0 0 _ _ _ _ _ _ _ _).
  - intros b. apply fwd_conf_ok; [by intros m [= <-]; lia|by left].
  - split; [reflexivity| |reflexivity|reflexivity|]; intros [|b] Hb; [cbn; lia|lia|cbn; lia|lia].
  - intros l Hl. discriminate Hl.
  - intros l. apply reverse_Permutation.
  - lia.
  - lia.
  - cbn. lia.
  - cbn. discriminate.
Defined.
