(* ===== verification/LatentStage.v ===== *)
(** * LatentStage: the attention metadata of the two LatentSpec stages

    Models [create_flashinfer_kv_indices_triton] ([kernels/ops/kvcache/kv_indices.py]),
    the non-translating [KVIndexTranslator.build_index_table]
    ([srt/mem_cache/kv_index_translator.py]) and the LatentSpec part of
    [TritonAttnBackend] ([srt/layers/attention/triton_backend.py]): building the
    metadata of the latent and the proposal stage, eagerly and into the buffers of a
    captured graph, and choosing the stage.  The lemmas say what each stage attends to: the
    request's slots, read from [req_to_token], up to its stage's prefix. *)

From S2P Require Import Prelude TensorOps RealLaw LatentSampler RejectKernel ExtendAttention.
#[local] Open Scope nat_scope.
#[local] Arguments Nat.ltb : simpl never.
#[local] Arguments Nat.leb : simpl never.
#[local] Arguments Nat.sub : simpl never.

(** ** The gather kernel *)

(** [KVIndexTable]; [ids] is the table whose row [row_ids[b]] is request [b]'s. *)
Record KVIndexTable := {
  ids : list (list nat);
  row_ids : list nat;
  entry_page_size : nat
}.

(** [build_index_table] when nothing is translated: a passthrough. *)
Definition build_index_table (req_to_token : list (list nat)) (req_pool_indices : list nat) : KVIndexTable :=
  {| ids := req_to_token; row_ids := req_pool_indices; entry_page_size := 1 |}.

(** The token id of position [pos] of table row [r]. *)
Definition entry_of (t : KVIndexTable) (r pos : nat) : nat :=
  let row := default [] (ids t !! r) in
  if entry_page_size t =? 1 then ld row pos
  else ld row (pos / entry_page_size t) * entry_page_size t + pos mod entry_page_size t.

Definition KV_BLOCK_SIZE : nat := 512.

(** The stores of program [pid]: address and value. *)
Definition create_flashinfer_kv_indices_triton (t : KVIndexTable) (page_kernel_lens kv_indptr : list nat)
    (kv_start_idx : option (list nat)) (pid : nat) : list (nat * nat) :=
  let req_pool_index := ld (row_ids t) pid in
  let kv_indices_offset := ld kv_indptr pid in
  let kv_start := match kv_start_idx with Some s => ld s pid | None => 0 end in
  let kv_end := kv_start + ld page_kernel_lens pid in
  i ← seq 0 (cdiv (kv_end - kv_start) KV_BLOCK_SIZE);
  offset ← filter (λ o, o < kv_end - kv_start) (tl_lanes KV_BLOCK_SIZE i);
  [(kv_indices_offset + offset, entry_of t req_pool_index (kv_start + offset))].

(** One program per request, in the order [pids]. *)
Definition launch_kv_indices (t : KVIndexTable) (page_kernel_lens kv_indptr : list nat)
    (kv_start_idx : option (list nat)) (pids : list nat) (kv_indices : list nat) : list nat :=
  foldl (λ buf w, <[w.1 := w.2]> buf) kv_indices
    (pid ← pids; create_flashinfer_kv_indices_triton t page_kernel_lens kv_indptr kv_start_idx pid).

(** [torch.cumsum(lens, dim=0)]. *)
Fixpoint cumsum_nat (acc : nat) (l : list nat) : list nat :=
  match l with
  | [] => []
  | x :: l => (acc + x) :: cumsum_nat (acc + x) l
  end.

(** [kv_indptr[1:] = cumsum(seq_lens)] over the first [bs + 1] cells, then the gather: the two
    arrays; [order] is the order in which the programs run. *)
Definition _fill_kv_indptr_and_indices (order : list nat → list nat) (bs : nat) (seq_lens : list nat)
    (index_table : KVIndexTable) (kv_indices kv_indptr : list nat) : list nat * list nat :=
  let kv_indptr := take 1 kv_indptr ++ cumsum_nat 0 (take bs seq_lens) in
  (kv_indptr, launch_kv_indices index_table seq_lens kv_indptr None (order (seq 0 bs)) kv_indices).

(** ** The metadata of the two stages *)

(** The fields of [ForwardMetadata] that are not [None]. *)
Record ForwardMetadata := {
  max_extend_len : nat;
  md_kv_indptr : list nat;
  md_kv_indices : list nat;
  md_qo_indptr : list nat
}.

(** The dict with keys ["latent"] and ["proposal"]. *)
Notation StageMetadata := (gmap string ForwardMetadata).

(** [torch.arange(0, (bs + 1) * width, step=width)]. *)
Definition stage_qo_indptr (bs width : nat) : list nat := (λ i, i * width) <$> seq 0 (bs + 1).

(** The index buffers of one stage: [kv_indptr] and [kv_indices]. *)
Definition stage_buffers : Type := list nat * list nat.

Section stages.
Context (order : list nat → list nat) (latent_width proposal_width : nat).

Definition stage_metadata (bs width : nat) (prefix_lens : list nat) (index_table : KVIndexTable)
    (buffers : stage_buffers) : ForwardMetadata :=
  let '(kv_indptr, kv_indices) :=
    _fill_kv_indptr_and_indices order bs prefix_lens index_table buffers.2 buffers.1 in
  {| max_extend_len := width; md_kv_indptr := take (bs + 1) kv_indptr; md_kv_indices := kv_indices;
     md_qo_indptr := stage_qo_indptr bs width |}.

Definition _build_latentspec_stage_metadata (bs : nat) (seq_lens : list nat) (index_table : KVIndexTable)
    (latent proposal : stage_buffers) : StageMetadata :=
  let prefix_lens := take bs seq_lens in
  let proposal_prefix_lens := (λ n, n + latent_width) <$> prefix_lens in
  <["proposal" := stage_metadata bs proposal_width proposal_prefix_lens index_table proposal]>
    (<["latent" := stage_metadata bs latent_width prefix_lens index_table latent]> ∅).

(** The buffers of an eager batch: zeros for [kv_indptr], [torch.empty] cells for [kv_indices]. *)
Definition eager_capacity (bs max_context_len : nat) (seq_lens_sum : option nat) : nat * nat :=
  let base_capacity := match seq_lens_sum with Some s => s | None => bs * max_context_len end in
  (Nat.max base_capacity 1, Nat.max (base_capacity + bs * latent_width) 1).

Definition _init_latentspec_eager_metadata (torch_empty : nat → list nat) (bs max_context_len : nat)
    (seq_lens_sum : option nat) (req_to_token : list (list nat)) (req_pool_indices seq_lens : list nat)
  : StageMetadata :=
  let '(latent_capacity, proposal_capacity) := eager_capacity bs max_context_len seq_lens_sum in
  let index_table := build_index_table req_to_token req_pool_indices in
  _build_latentspec_stage_metadata bs seq_lens index_table
    (replicate (bs + 1) 0, torch_empty latent_capacity) (replicate (bs + 1) 0, torch_empty proposal_capacity).

(** Into the captured graph's buffers; the backend's field is replaced in capture only: during a
    replay the graph reads the buffers the fill has just written. *)
Definition _update_latentspec_cuda_graph_metadata (bs : nat) (req_to_token : list (list nat))
    (req_pool_indices seq_lens : list nat) (buffers : stage_buffers * stage_buffers) : StageMetadata :=
  _build_latentspec_stage_metadata bs seq_lens (build_index_table req_to_token req_pool_indices)
    buffers.1 buffers.2.

(** The buffers [init_cuda_graph_state] allocates; a replay finds them as the last one left them. *)
Definition latentspec_cuda_graph_buffers (max_bs max_context_len : nat) : stage_buffers * stage_buffers :=
  ((replicate (max_bs + 1) 0, replicate (max_bs * max_context_len) 0),
   (replicate (max_bs + 1) 0, replicate (max_bs * (max_context_len + latent_width)) 0)).

(** The two ways a forward gets its metadata. *)
Inductive MetadataMode : Type :=
  | EagerMetadata (torch_empty : nat → list nat) (max_context_len : nat) (seq_lens_sum : option nat)
  | GraphMetadata (buffers : stage_buffers * stage_buffers).

Definition init_forward_metadata (mode : MetadataMode) (bs : nat) (req_to_token : list (list nat))
    (req_pool_indices seq_lens : list nat) : StageMetadata :=
  match mode with
  | EagerMetadata torch_empty max_context_len seq_lens_sum =>
      _init_latentspec_eager_metadata torch_empty bs max_context_len seq_lens_sum req_to_token req_pool_indices seq_lens
  | GraphMetadata buffers => _update_latentspec_cuda_graph_metadata bs req_to_token req_pool_indices seq_lens buffers
  end.
End stages.

(** [set_latentspec_stage]: the new [forward_metadata]. *)
Definition set_latentspec_stage (latentspec_stage_metadata : option StageMetadata) (stage : string)
  : result ForwardMetadata :=
  match latentspec_stage_metadata with
  | None => Raise RuntimeError
  | Some m => match m !! stage with Some md => Ok md | None => Raise ValueError end
  end.

(** ** What the gather leaves in the buffer *)

Definition psum (lens : list nat) (b : nat) : nat := sum_list (take b lens).

Lemma psum_S lens b : b < length lens → psum lens (S b) = psum lens b + ld lens b.
Proof.
  intros Hb. destruct (lookup_lt_is_Some_2 lens b Hb) as [x Hx]. unfold psum, ld.
  rewrite (take_S_r _ _ x Hx), sum_list_with_app, Hx. cbn. unfold Datatypes.id. lia.
Qed.

Lemma psum_le lens b b' : b ≤ b' → psum lens b ≤ psum lens b'.
Proof.
  intros H. unfold psum. replace b' with (b + (b' - b)) by lia. rewrite <- take_take_drop, sum_list_with_app. lia.
Qed.

Lemma psum_disjoint lens b b' o o' :
  b < length lens → b' < length lens → o < ld lens b → o' < ld lens b' →
  psum lens b + o = psum lens b' + o' → b' = b ∧ o' = o.
Proof.
  intros Hb Hb' Ho Ho' E. pose proof (psum_S lens b Hb). pose proof (psum_S lens b' Hb').
  destruct (decide (b < b')); [pose proof (psum_le lens (S b) b' ltac:(lia)); lia|].
  destruct (decide (b' < b)); [pose proof (psum_le lens (S b') b ltac:(lia)); lia|].
  assert (b' = b) as -> by lia. split; [done|lia].
Qed.

Lemma cumsum_nat_lookup acc l i : i < length l → cumsum_nat acc l !! i = Some (acc + psum l (S i)).
Proof.
  revert acc i. induction l as [|x l IH]; intros acc i Hi; [cbn in Hi; lia|]. destruct i as [|i].
  - cbn [cumsum_nat lookup list_lookup]. unfold psum. rewrite firstn_cons, take_0. cbn. unfold Datatypes.id. f_equal. lia.
  - cbn [cumsum_nat]. change ((?y :: ?k) !! S i) with (k !! i).
    rewrite IH by (cbn in Hi; lia). unfold psum. change (take (S (S i)) (x :: l)) with (x :: take (S i) l).
    cbn [sum_list_with]. unfold Datatypes.id at 2. f_equal. unfold Datatypes.id. lia.
Qed.

Lemma length_cumsum_nat acc l : length (cumsum_nat acc l) = length l.
Proof. revert acc. induction l as [|x l IH]; intros acc; [done|]. cbn. by rewrite IH. Qed.

Lemma foldl_insert_length (ws : list (nat * nat)) buf :
  length (foldl (λ buf w, <[w.1 := w.2]> buf) buf ws) = length buf.
Proof. revert buf. induction ws as [|w ws IH]; intros buf; [done|]. cbn. by rewrite IH, length_insert. Qed.

Lemma foldl_insert_lookup (ws : list (nat * nat)) buf a v :
  a < length buf → (∀ w, w ∈ ws → w.1 = a → w.2 = v) → buf !! a = Some v ∨ (∃ w, w ∈ ws ∧ w.1 = a) →
  foldl (λ buf w, <[w.1 := w.2]> buf) buf ws !! a = Some v.
Proof.
  revert buf. induction ws as [|w ws IH]; intros buf Ha Hv Hin; cbn.
  - destruct Hin as [|(w & Hw & _)]; [done|by apply not_elem_of_nil in Hw].
  - apply IH; [by rewrite length_insert|intros w' Hw'; apply Hv; by right|].
    destruct (decide (w.1 = a)) as [E|Hne].
    + left. subst a. rewrite list_lookup_insert_eq by done. f_equal. apply Hv; [by left|done].
    + destruct Hin as [Hin|(w' & [->|Hw']%elem_of_cons & E)]; [left; by rewrite list_lookup_insert_ne|done|].
      right. by exists w'.
Qed.

(** The lanes of a program's tiles that are in range are the range. *)
Lemma in_tiles N BLOCK o : 0 < BLOCK →
  (∃ i, o ∈ filter (λ o, o < N) (tl_lanes BLOCK i) ∧ i ∈ seq 0 (cdiv N BLOCK)) ↔ o < N.
Proof.
  intros HB. split.
  - intros (i & H & _). by apply list_elem_of_filter in H as [H _].
  - intros Ho. exists (o / BLOCK). pose proof (Nat.div_mod_eq o BLOCK). pose proof (Nat.mod_upper_bound o BLOCK).
    split; [apply list_elem_of_filter; split; [done|apply elem_of_seq; nia]|].
    apply elem_of_seq. split; [lia|]. cbn. unfold cdiv. apply Nat.div_lt_upper_bound; [lia|].
    pose proof (Nat.div_mod_eq (N + BLOCK - 1) BLOCK). pose proof (Nat.mod_upper_bound (N + BLOCK - 1) BLOCK). nia.
Qed.

Lemma kv_indices_writes t lens kv_indptr pid w :
  w ∈ create_flashinfer_kv_indices_triton t lens kv_indptr None pid ↔
  ∃ o, o < ld lens pid ∧ w = (ld kv_indptr pid + o, entry_of t (ld (row_ids t) pid) o).
Proof.
  unfold create_flashinfer_kv_indices_triton. rewrite Nat.add_0_l, Nat.sub_0_r. split.
  - intros H. apply list_elem_of_bind in H as (i & H & Hi). apply list_elem_of_bind in H as (o & H & Ho).
    apply list_elem_of_singleton in H as ->. exists o. split; [|by rewrite Nat.add_0_l].
    apply (in_tiles (ld lens pid) KV_BLOCK_SIZE); [unfold KV_BLOCK_SIZE; lia|]. by exists i.
  - intros (o & Ho & ->). apply (in_tiles _ KV_BLOCK_SIZE) in Ho as (i & Ho & Hi); [|unfold KV_BLOCK_SIZE; lia].
    apply list_elem_of_bind. exists i. split; [|done]. apply list_elem_of_bind. exists o. split; [|done].
    rewrite Nat.add_0_l. by apply list_elem_of_singleton.
Qed.

Lemma launch_kv_indices_ok t lens kv_indptr pids bs buf b n :
  pids ≡ₚ seq 0 bs → length lens = bs → (∀ b, b ≤ bs → ld kv_indptr b = psum lens b) →
  psum lens bs ≤ length buf → b < bs → n < ld lens b →
  ld (launch_kv_indices t lens kv_indptr None pids buf) (psum lens b + n) = entry_of t (ld (row_ids t) b) n.
Proof.
  intros Hp Hl Hptr Hcap Hb Hn. unfold launch_kv_indices, ld at 1.
  erewrite foldl_insert_lookup; [reflexivity|..].
  - pose proof (psum_S lens b ltac:(lia)). pose proof (psum_le lens (S b) bs ltac:(lia)). lia.
  - intros w Hw E. apply list_elem_of_bind in Hw as (pid & Hw & Hpid). rewrite Hp in Hpid. apply elem_of_seq in Hpid.
    apply kv_indices_writes in Hw as (o & Ho & ->). cbn in *. rewrite Hptr in E by lia.
    by destruct (psum_disjoint lens pid b o n ltac:(lia) ltac:(lia) Ho Hn E) as [-> ->].
  - right. exists (psum lens b + n, entry_of t (ld (row_ids t) b) n). split; [|done].
    apply list_elem_of_bind. exists b. split; [|rewrite Hp; apply elem_of_seq; lia].
    apply kv_indices_writes. exists n. by rewrite Hptr by lia.
Qed.

(** ** What a stage attends to *)

Lemma ld_seq_mul bs width b : b ≤ bs → ld (stage_qo_indptr bs width) b = b * width.
Proof.
  intros Hb. unfold ld, stage_qo_indptr. rewrite list_lookup_fmap, lookup_seq_lt by lia. done.
Qed.

Lemma ld_indptr_app buf lens b :
  take 1 buf = [0] → b ≤ length lens → ld (take 1 buf ++ cumsum_nat 0 lens) b = psum lens b.
Proof.
  intros -> Hb. unfold ld. destruct b as [|b]; [done|]. cbn [app]. change ((0 :: cumsum_nat 0 lens) !! S b) with (cumsum_nat 0 lens !! b).
  by rewrite cumsum_nat_lookup by lia.
Qed.

(** A stage's metadata: [width] new rows per request and the slots of its prefix. *)
Record stage_ok (md : ForwardMetadata) (bs width : nat) (lens : list nat) (slot : nat → nat → nat) : Prop := {
  so_len : length (md_qo_indptr md) = bs + 1;
  so_width : max_extend_len md = width;
  so_qo b : b ≤ bs → ld (md_qo_indptr md) b = b * width;
  so_kv b : b ≤ bs → ld (md_kv_indptr md) b = psum lens b;
  so_slot b n : b < bs → n < ld lens b → ld (md_kv_indices md) (psum lens b + n) = slot b n
}.

Lemma stage_metadata_ok order bs width lens t buffers :
  (∀ l, order l ≡ₚ l) → length lens = bs → take 1 buffers.1 = [0] → psum lens bs ≤ length buffers.2 →
  stage_ok (stage_metadata order bs width lens t buffers) bs width lens (λ b n, entry_of t (ld (row_ids t) b) n).
Proof.
  intros Ho Hl H0 Hcap. unfold stage_metadata, _fill_kv_indptr_and_indices. rewrite (firstn_all2 lens) by lia. split; cbn.
  - unfold stage_qo_indptr. by rewrite length_fmap, length_seq.
  - done.
  - apply ld_seq_mul.
  - intros b Hb. rewrite firstn_all2 by (rewrite length_app, H0, length_cumsum_nat; cbn; lia).
    apply ld_indptr_app; [done|lia].
  - intros b n Hb Hn. apply (launch_kv_indices_ok t lens _ (order (seq 0 bs)) bs); try done; [].
    intros b' Hb'. apply ld_indptr_app; [done|lia].
Qed.

Lemma ld_fmap_add lens k b : b < length lens → ld ((λ n, n + k) <$> lens) b = ld lens b + k.
Proof. intros Hb. unfold ld. rewrite list_lookup_fmap. destruct (lookup_lt_is_Some_2 lens b Hb) as [x ->]. done. Qed.

Lemma psum_fmap_add lens k b : b ≤ length lens → psum ((λ n, n + k) <$> lens) b = psum lens b + b * k.
Proof.
  induction b as [|b IH]; intros Hb; [done|].
  rewrite !psum_S by (rewrite ?length_fmap; lia). rewrite IH, ld_fmap_add by lia. lia.
Qed.

(** Both stages, in buffers that are large enough. *)
Lemma build_stages_ok order lw pw bs seq_lens rtt reqs latent proposal :
  (∀ l, order l ≡ₚ l) → length seq_lens = bs → take 1 latent.1 = [0] → take 1 proposal.1 = [0] →
  psum seq_lens bs ≤ length latent.2 → psum seq_lens bs + bs * lw ≤ length proposal.2 →
  let m := _build_latentspec_stage_metadata order lw pw bs seq_lens (build_index_table rtt reqs) latent proposal in
  let slot b n := ld (default [] (rtt !! ld reqs b)) n in
  (∃ md, set_latentspec_stage (Some m) "latent" = Ok md ∧ stage_ok md bs lw seq_lens slot) ∧
  (∃ md, set_latentspec_stage (Some m) "proposal" = Ok md ∧ stage_ok md bs pw ((λ n, n + lw) <$> seq_lens) slot).
Proof.
  intros Ho Hl H1 H2 Hc1 Hc2 m slot. unfold m, _build_latentspec_stage_metadata, set_latentspec_stage.
  rewrite (firstn_all2 seq_lens) by lia. split.
  - rewrite lookup_insert_ne, lookup_insert_eq by done. eexists. split; [done|]. by apply stage_metadata_ok.
  - rewrite lookup_insert_eq. eexists. split; [done|]. apply stage_metadata_ok; try done; [by rewrite length_fmap|].
    rewrite psum_fmap_add by lia. done.
Qed.

Lemma psum_bound seq_lens bs max_context_len :
  length seq_lens = bs → Forall (λ n, n ≤ max_context_len) seq_lens → psum seq_lens bs ≤ bs * max_context_len.
Proof.
  intros Hl Hs. unfold psum. rewrite firstn_all2 by lia. subst bs.
  induction Hs as [|x l Hx _ IH]; [done|]. cbn. unfold Datatypes.id in *. lia.
Qed.

(** The eager buffers are large enough when the planned sum is an upper bound. *)
Lemma eager_capacity_ok lw bs max_context_len sum seq_lens :
  length seq_lens = bs →
  match sum with Some s => psum seq_lens bs ≤ s | None => Forall (λ n, n ≤ max_context_len) seq_lens end →
  psum seq_lens bs ≤ (eager_capacity lw bs max_context_len sum).1 ∧
  psum seq_lens bs + bs * lw ≤ (eager_capacity lw bs max_context_len sum).2.
Proof.
  intros Hl Hs. unfold eager_capacity. cbn [fst snd]. destruct sum as [s|]; [lia|].
  pose proof (psum_bound seq_lens bs max_context_len Hl Hs). lia.
Qed.

(** What each mode needs: an upper bound of the lengths, or buffers like those allocated for at
    least as many requests. *)
Definition mode_ok (lw bs : nat) (seq_lens : list nat) (mode : MetadataMode) : Prop :=
  match mode with
  | EagerMetadata torch_empty max_context_len sum =>
      (∀ n, length (torch_empty n) = n) ∧
      match sum with Some s => psum seq_lens bs ≤ s | None => Forall (λ n, n ≤ max_context_len) seq_lens end
  | GraphMetadata buffers =>
      ∃ max_bs max_context_len, bs ≤ max_bs ∧ Forall (λ n, n ≤ max_context_len) seq_lens ∧
        let init := latentspec_cuda_graph_buffers lw max_bs max_context_len in
        take 1 buffers.1.1 = [0] ∧ take 1 buffers.2.1 = [0] ∧
        length buffers.1.2 = length init.1.2 ∧ length buffers.2.2 = length init.2.2
  end.

Lemma mode_buffers order lw pw mode bs rtt reqs seq_lens : length seq_lens = bs → mode_ok lw bs seq_lens mode →
  ∃ latent proposal,
    init_forward_metadata order lw pw mode bs rtt reqs seq_lens =
      _build_latentspec_stage_metadata order lw pw bs seq_lens (build_index_table rtt reqs) latent proposal ∧
    take 1 latent.1 = [0] ∧ take 1 proposal.1 = [0] ∧
    psum seq_lens bs ≤ length latent.2 ∧ psum seq_lens bs + bs * lw ≤ length proposal.2.
Proof.
  intros Hl. destruct mode as [torch_empty mc sum|buffers]; cbn [mode_ok init_forward_metadata].
  - intros [Hempty Hsum]. pose proof (eager_capacity_ok lw bs mc sum seq_lens Hl Hsum) as [H1 H2].
    unfold _init_latentspec_eager_metadata. destruct (eager_capacity lw bs mc sum) as [c1 c2]. cbn [fst snd] in *.
    eexists (_, _), (_, _). split; [done|]. cbn [fst snd]. rewrite !Hempty, Nat.add_comm. done.
  - intros (mb & mc & Hb & Hs & H1 & H2 & H3 & H4). exists buffers.1, buffers.2. split; [done|].
    cbn in H3, H4. rewrite length_replicate in H3, H4. pose proof (psum_bound _ _ _ Hl Hs). repeat split; [done|done|nia|nia].
Qed.

(** The buffers as allocated will do. *)
Lemma graph_buffers_ok lw max_bs max_context_len bs seq_lens :
  bs ≤ max_bs → Forall (λ n, n ≤ max_context_len) seq_lens →
  mode_ok lw bs seq_lens (GraphMetadata (latentspec_cuda_graph_buffers lw max_bs max_context_len)).
Proof. intros Hb Hs. exists max_bs, max_context_len. cbn. rewrite Nat.add_comm. done. Qed.
