(* ===== verification/DraftLayers.v ===== *)
(** * DraftLayers: the decoder layers of the trained MySpec draft

    Models [DeepSpec/deepspec/modeling/myspec/qwen3/latent_layer.py] and
    [mask_layer.py]: the attention of both stages with its separate projections for the
    context, the latent tokens and the block, the rotary embedding of queries that are the
    last rows of the keys, the draft cache, and the two residual connections; and the draft
    model they make with the backbone of [modeling.py].  Numbers are exact reals.  What the
    files import is a class: [F_linear] of torch, the norms, the MLP, the rotary embedding and
    the attention function of [transformers], and its [DynamicCache]; their laws are stated
    apart.  A tensor is a list of tokens of heads of rows, so [transpose(1, 2)] is not seen. *)

From S2P Require Import Prelude TensorOps RealLaw Sampling SpecDecode Markov Anchors MySpecModel DraftOps ExtendAttention.
From Stdlib Require Import Reals Lra.
#[local] Open Scope nat_scope.

Notation row := (list R).
(** Tokens, heads, lanes. *)
Notation head_tensor := (list (list (list R))).

Definition vadd : row → row → row := zip_with Rplus.
Definition vmul : row → row → row := zip_with Rmult.
Definition vsub : row → row → row := zip_with Rminus.

(** [nn.Linear]: its parameters. *)
Record Linear := { weight : list row; bias : option row }.

(** [torch.nn.functional.linear] on one row. *)
Class TorchLinear := F_linear : list row → option row → row → row.
Definition linear `{!TorchLinear} (l : Linear) (x : row) : row := F_linear (weight l) (bias l) x.

(** What the model files import from [transformers]; [attn_fn] is
    [ALL_ATTENTION_FUNCTIONS[attn_impl]], and [rotary] the two rows of
    [Qwen3RotaryEmbedding] at a position. *)
Class Transformers := {
  Qwen3RMSNorm : row → R → row → row;
  rotate_half : row → row;
  rotary : nat → row * row;
  Qwen3MLP : Linear → Linear → Linear → row → row;
  attn_fn : option BlockMask → bool → option nat → R → head_tensor → head_tensor → head_tensor → head_tensor
}.

(** [DynamicCache.update(k, v, layer_idx)] and the rows a layer has cached. *)
Class DynamicCacheRows (KV : Type) := {
  cache_update : nat → head_tensor → head_tensor → KV → head_tensor * head_tensor * KV;
  cache_rows : nat → KV → head_tensor * head_tensor
}.

(** [x.view(n, d)]. *)
Definition split_heads (d n : nat) (x : row) : list row := (λ h, take d (drop (h * d) x)) <$> seq 0 n.

Record Qwen3Config := {
  num_attention_heads : nat;
  num_key_value_heads : nat;
  head_dim : nat;
  rms_norm_eps : R;
  num_latent_layers : nat
}.

(** [Qwen3MySpecAttention]. *)
Record MySpecAttention := {
  layer_idx : nat;
  q_proj : Linear;
  k_proj : Linear;
  v_proj : Linear;
  k_proj_noise : Linear;
  v_proj_noise : Linear;
  o_proj : Linear;
  q_norm : row;
  k_norm : row;
  sliding_window : option nat
}.

(** [Qwen3MySpecMaskAttention]: the block's projections, [_noise] above, are called [_mask]. *)
Record MySpecMaskAttention := {
  mask_base : MySpecAttention;
  k_proj_latent : Linear;
  v_proj_latent : Linear
}.

(** A decoder layer with an attention of type [A]. *)
Record MySpecDecoderLayer (A : Type) := {
  self_attn : A;
  gate_proj : Linear;
  up_proj : Linear;
  down_proj : Linear;
  input_layernorm : row;
  post_attention_layernorm : row
}.
Arguments self_attn {A} _.
Arguments gate_proj {A} _.
Arguments up_proj {A} _.
Arguments down_proj {A} _.
Arguments input_layernorm {A} _.
Arguments post_attention_layernorm {A} _.

Section layers.
Context `{!TorchLinear, !Transformers} {KV : Type} `{!DynamicCacheRows KV} (config : Qwen3Config).
Notation d := (head_dim config).
Notation norm w := (Qwen3RMSNorm w (rms_norm_eps config)).

(** [self.head_dim**-0.5]. *)
Definition scaling : R := Rpower (INR d) (- (1 / 2)).

(** Every head of a token against the token's [cos] and [sin]. *)
Definition rotate_token (hs : list row) (pe : row * row) : list row :=
  (λ x, vadd (vmul x pe.1) (vmul (rotate_half x) pe.2)) <$> hs.

Definition apply_rotary_pos_emb (q k : head_tensor) (pe : list (row * row)) : head_tensor * head_tensor :=
  (zip_with rotate_token q (drop (length pe - length q) pe), zip_with rotate_token k pe).

(** [view] and [q_norm] or [k_norm]. *)
Definition normed_heads (n : nat) (w : row) (rows : list row) : head_tensor :=
  (λ x, norm w <$> split_heads d n x) <$> rows.

(** The keys or the values before the norm: context, latent tokens, block. *)
Definition cat_rows (ctx latent noise : Linear) (target_hidden_states latent_hidden_states hidden_states : list row) : list row :=
  (linear ctx <$> target_hidden_states) ++ (linear latent <$> latent_hidden_states) ++ (linear noise <$> hidden_states).

(** From the keys on, the two attentions are the same. *)
Definition attend (a : MySpecAttention) (k v : list row) (hidden_states : list row) (pe : list (row * row))
    (attention_mask : option BlockMask) (past : option KV) : list row * option KV :=
  let q := normed_heads (num_attention_heads config) (q_norm a) (linear (q_proj a) <$> hidden_states) in
  let k := normed_heads (num_key_value_heads config) (k_norm a) k in
  let v := split_heads d (num_key_value_heads config) <$> v in
  let '(q, k) := apply_rotary_pos_emb q k pe in
  let '(k, v, past) :=
    match past with
    | None => (k, v, None)
    | Some c => let '(k, v, c) := cache_update (layer_idx a) k v c in (k, v, Some c)
    end in
  let attn_output := attn_fn attention_mask false (sliding_window a) scaling q k v in
  ((λ hs, linear (o_proj a) (concat hs)) <$> attn_output, past).

(** [Qwen3MySpecAttention.forward]. *)
Definition latent_attention (a : MySpecAttention) (hidden_states target_hidden_states : list row)
    (pe : list (row * row)) (attention_mask : option BlockMask) (past : option KV) : list row * option KV :=
  let k := (linear (k_proj a) <$> target_hidden_states) ++ (linear (k_proj_noise a) <$> hidden_states) in
  let v := (linear (v_proj a) <$> target_hidden_states) ++ (linear (v_proj_noise a) <$> hidden_states) in
  attend a k v hidden_states pe attention_mask past.

(** [Qwen3MySpecMaskAttention.forward]. *)
Definition mask_attention (a : MySpecMaskAttention) (hidden_states target_hidden_states latent_hidden_states : list row)
    (pe : list (row * row)) (attention_mask : option BlockMask) (past : option KV) : list row * option KV :=
  let b := mask_base a in
  attend b
    (cat_rows (k_proj b) (k_proj_latent a) (k_proj_noise b) target_hidden_states latent_hidden_states hidden_states)
    (cat_rows (v_proj b) (v_proj_latent a) (v_proj_noise b) target_hidden_states latent_hidden_states hidden_states)
    hidden_states pe attention_mask past.

(** The rest of both [forward]s of the decoder layers: [attention] is given the normed rows. *)
Definition residual_layer {A} (l : MySpecDecoderLayer A) (attention : list row → list row * option KV)
    (hidden_states : list row) : list row * option KV :=
  let residual := hidden_states in
  let '(hidden_states, past) := attention (norm (input_layernorm l) <$> hidden_states) in
  let hidden_states := zip_with vadd residual hidden_states in
  let residual := hidden_states in
  let hidden_states :=
    (λ x, Qwen3MLP (gate_proj l) (up_proj l) (down_proj l) (norm (post_attention_layernorm l) x)) <$> hidden_states in
  (zip_with vadd residual hidden_states, past).

(** [Qwen3MySpecLatentDecoderLayer.forward] and [Qwen3MySpecMaskDecoderLayer.forward]. *)
Definition latent_decoder_layer (l : MySpecDecoderLayer MySpecAttention) : latent_layer_over row KV (list (row * row)) :=
  λ hidden_states target_hidden_states attention_mask _ position_embeddings past,
    residual_layer l (λ x, latent_attention (self_attn l) x target_hidden_states position_embeddings attention_mask past)
      hidden_states.
Definition mask_decoder_layer (l : MySpecDecoderLayer MySpecMaskAttention) : mask_layer_over row KV (list (row * row)) :=
  λ hidden_states target_hidden_states latent_hidden_states attention_mask _ position_embeddings past,
    residual_layer l
      (λ x, mask_attention (self_attn l) x target_hidden_states latent_hidden_states position_embeddings attention_mask past)
      hidden_states.
End layers.

(** The weights of a draft checkpoint. *)
Record Checkpoint := {
  ck_config : Qwen3Config;
  ck_num_latent_tokens : nat;
  ck_block_size : nat;
  ck_latent_token_id : nat;
  ck_mask_token_id : nat;
  ck_embed_weight : list row;
  ck_fc : Linear;
  ck_hidden_norm : row;
  ck_latent_hidden_norm : row;
  ck_norm : row;
  ck_latent_layers : list (MySpecDecoderLayer MySpecAttention);
  ck_layers : list (MySpecDecoderLayer MySpecMaskAttention)
}.

(** [torch.nn.functional.embedding] of an id below the size of the vocabulary. *)
Definition embedding (weight : list row) (id : nat) : row := default [] (weight !! id).

Definition ck_embed_tokens (ck : Checkpoint) : nat → row := embedding (ck_embed_weight ck).

Section model.
Context `{!TorchLinear, !Transformers} {KV : Type} `{!DynamicCache KV, !DynamicCacheRows KV} (ck : Checkpoint).
Notation config := (ck_config ck).
Notation norm w := (Qwen3RMSNorm w (rms_norm_eps config)).

(** [_forward_backbone] of the checkpoint. *)
Definition checkpoint_backbone : list row → list nat → option BlockMask → list nat → option BlockMask →
    list row → list row → option KV → list row * option KV :=
  backbone (linear (ck_fc ck)) (norm (ck_hidden_norm ck)) (norm (ck_latent_hidden_norm ck)) (norm (ck_norm ck))
    (λ position_ids, rotary <$> position_ids)
    (latent_decoder_layer config <$> ck_latent_layers ck) (mask_decoder_layer config <$> ck_layers ck).

(** One call of [forward_myspec_draft_block] when decoding is at token [anchor] of position [start]:
    the ids that [_propose] builds, with [position_ids = arange(N)]. *)
Definition trained_draft_block (anchor start N : nat) (target_hidden_states : list row) (past : KV)
  : result (list row * KV) :=
  draft_latent_input_ids ← set_first (replicate (ck_num_latent_tokens ck) (ck_latent_token_id ck)) anchor;
  draft_input_ids ← set_first (replicate (ck_block_size ck) (ck_mask_token_id ck)) anchor;
  draft_block (ck_embed_tokens ck) (ck_num_latent_tokens ck) checkpoint_backbone
    draft_latent_input_ids draft_input_ids (seq 0 N) past target_hidden_states start (ck_block_size ck).
End model.
