(* ===== verification/LatentModel.v ===== *)
(** * LatentModel: the served two-stage LatentSpec draft

    Models [srt/models/latentspec.py] with what it inherits from [srt/models/dflash.py]:
    packed projections, the norm and rotary embedding of queries and keys in both forms (the
    unfused [RMSNorm] of [srt/layers/layernorm.py] with [RotaryEmbedding.forward_native] of
    [srt/layers/rotary_embedding/base.py], and the fused table kernel of
    [srt/speculative/dflash_utils.py]), the two-rail residual, the KV pool write of
    [srt/mem_cache/memory_pool.py], the attention call of
    [srt/layers/attention/triton_backend.py] and [Qwen3MySpecModel.forward]; and, as a reference
    for [LatentLoad], a checkpoint in the served layout.  Numbers are exact reals, [bfloat16] a flag; a row
    per token, a pool from layers and slots to the heads of a token. *)

From Stdlib Require Import Reals Lra.
From S2P Require Import Prelude TensorOps RealLaw LatentSampler RejectKernel MySpecModel ExtendAttention LatentStage DraftLayers.
#[local] Open Scope nat_scope.
#[local] Arguments Nat.ltb : simpl never.
#[local] Arguments Nat.leb : simpl never.

(** ** Norms *)

Definition square (x : R) : R := (x * x)%R.

(** [RMSNorm.forward_native]. *)
Definition rms_norm (w : row) (eps : R) (x : row) : row :=
  let variance := (Rsum (square <$> x) / INR (length x))%R in
  zip_with (λ xi wi, xi * (1 / sqrt (variance + eps)) * wi)%R x w.

(** With a residual: the normed sum, and the sum. *)
Definition rms_norm_residual (w : row) (eps : R) (x residual : row) : row * row :=
  let x := vadd x residual in (rms_norm w eps x, x).

(** A norm on the two rails of every token. *)
Definition rail_norm (w : row) (eps : R) (hidden : list row) (residual : option (list row)) : list row * list row :=
  match residual with
  | None => (rms_norm w eps <$> hidden, hidden)
  | Some r => let p := zip_with (rms_norm_residual w eps) hidden r in (fst <$> p, snd <$> p)
  end.

(** ** Rotary embedding *)

Definition inv_freq (base : R) (rotary_dim : nat) : row :=
  (λ j, 1 / Rpower base (INR (2 * j) / INR rotary_dim))%R <$> seq 0 (cdiv rotary_dim 2).

(** A row of [_compute_cos_sin_cache]. *)
Definition cos_sin_cache (base : R) (rotary_dim pos : nat) : row :=
  let freqs := (λ f, INR pos * f)%R <$> inv_freq base rotary_dim in (cos <$> freqs) ++ (sin <$> freqs).

(** [apply_rotary_emb], neox style. *)
Definition apply_rotary_emb (x cos sin : row) : row :=
  let x1 := take (length x / 2) x in
  let x2 := drop (length x / 2) x in
  vsub (vmul x1 cos) (vmul x2 sin) ++ vadd (vmul x2 cos) (vmul x1 sin).

(** [RotaryEmbedding.forward_native] on one head, with [rotary_dim = head_size]. *)
Definition rotary_head (base : R) (rotary_dim pos : nat) (x : row) : row :=
  let cos_sin := cos_sin_cache base rotary_dim pos in
  let cos := take (length cos_sin / 2) cos_sin in
  let sin := drop (length cos_sin / 2) cos_sin in
  apply_rotary_emb (take rotary_dim x) cos sin ++ drop rotary_dim x.

(** ** The fused table kernel *)

(** Program [h] of one row. *)
Definition _table_qk_norm_rope_kernel (D NHQ q_size : nat) (EPS : R) (q_weight k_weight cos_sin : row)
    (x : row) (h : nat) : row :=
  let half := D / 2 in
  let is_q := h <? NHQ in
  let col0 := if is_q then h * D else q_size + (h - NHQ) * D in
  let w := if is_q then q_weight else k_weight in
  let ms := (Rsum ((λ i, square (wt x (col0 + i))) <$> seq 0 D) / INR D)%R in
  let inv := (1 / sqrt (ms + EPS))%R in
  let x1 := (λ i, wt x (col0 + i) * inv * wt w i)%R <$> seq 0 half in
  let x2 := (λ i, wt x (col0 + half + i) * inv * wt w (half + i))%R <$> seq 0 half in
  let cos := wt cos_sin <$> seq 0 half in
  let sin := (λ i, wt cos_sin (half + i)) <$> seq 0 half in
  let o1 := vsub (vmul x1 cos) (vmul x2 sin) in
  let o2 := vadd (vmul x2 cos) (vmul x1 sin) in
  list_inserts (col0 + half) o2 (list_inserts col0 o1 x).

(** One row of the launch; [order] is the order in which the programs of its heads run. *)
Definition table_qk_norm_rope_ (order : list nat → list nat) (D num_q_heads num_k_heads : nat) (eps : R)
    (q_weight k_weight cos_sin : row) (qkv : row) : row :=
  foldl (_table_qk_norm_rope_kernel D num_q_heads (num_q_heads * D) eps q_weight k_weight cos_sin) qkv
    (order (seq 0 (num_q_heads + num_k_heads))).

Definition table_k_norm_rope_ (order : list nat → list nat) (D num_k_heads : nat) (eps : R)
    (k_weight cos_sin : row) (packed_kv : row) : row :=
  foldl (_table_qk_norm_rope_kernel D 0 0 eps k_weight k_weight cos_sin) packed_kv (order (seq 0 num_k_heads)).

(** ** The KV pool *)

(** Per layer and slot, the heads of a token. *)
Record KVPool := {
  k_buffer : nat → nat → list row;
  v_buffer : nat → nat → list row
}.

Definition store_rows (buf : nat → list row) (loc : list nat) (rows : head_tensor) : nat → list row :=
  foldl (λ b w, λ s, if s =? w.1 then w.2 else b s) buf (zip loc rows).

Definition set_kv_buffer (pool : KVPool) (layer_id : nat) (loc : list nat) (cache_k cache_v : head_tensor) : KVPool :=
  {| k_buffer := λ l, if l =? layer_id then store_rows (k_buffer pool l) loc cache_k else k_buffer pool l;
     v_buffer := λ l, if l =? layer_id then store_rows (v_buffer pool l) loc cache_v else v_buffer pool l |}.

(** ** The model *)

(** A [_LatentSpecLayer] with its [_LatentSpecAttention]. *)
Record LatentSpecLayer := {
  layer_id : nat;
  in_norm : row;
  qkv_proj : Linear;
  kv_ctx : Linear;
  kv_latent : option Linear;
  out_proj : Linear;
  qn_weight : row;
  kn_weight : row;
  post_norm : row;
  gate_up_proj : Linear;
  down_proj_w : Linear
}.

(** [Qwen3MySpecModel]. *)
Record ServedModel := {
  num_heads : nat;
  num_kv_heads : nat;
  hd : nat;
  eps : R;
  rope_theta : R;
  sm_latent_tokens : nat;
  proposal_size : nat;
  sm_latent_token_id : nat;
  embed : nat → row;
  sm_fc : Linear;
  sm_hidden_norm : row;
  sm_latent_hidden_norm : row;
  sm_norm : row;
  sm_num_latent_layers : nat;
  sm_layers : list LatentSpecLayer;
  _stacked_latent_kv : option Linear;
  (** [use_table_qk_norm_rope] with [bfloat16] rows. *)
  fused_table : bool;
  (** [config.is_causal]. *)
  is_causal : option bool
}.

(** What a launch depends on and no result should. *)
Record Device := {
  arch : Arch;
  compact_grid : bool;
  grid_order : list (nat * nat * nat) → list (nat * nat * nat);
  lane_order : list nat → list nat;
  out_init : nat → nat → row;
  page_size : nat
}.

Section model.
Context `{!TorchLinear} (dev : Device) (m : ServedModel).
Notation D := (hd m).
Notation q_size := (num_heads m * hd m).
Notation kv_size := (num_kv_heads m * hd m).

Definition cos_sin (pos : nat) : row := cos_sin_cache (rope_theta m) D pos.

(** [x.split([q_size, kv_size, kv_size], dim=-1)] and [x.split(kv_out, dim=-1)]. *)
Definition split_qkv (x : row) : row * row * row :=
  (take q_size x, take kv_size (drop q_size x), drop (q_size + kv_size) x).
Definition split_kv (x : row) : row * row := (take kv_size x, drop kv_size x).

(** The norm and the rotation of every head of a flat row. *)
Definition norm_rope_row (n : nat) (w : row) (pos : nat) (x : row) : row :=
  concat ((λ h, rotary_head (rope_theta m) D pos (rms_norm w (eps m) h)) <$> split_heads D n x).

(** [project_current] on one token. *)
Definition project_current (l : LatentSpecLayer) (hidden : row) (pos : nat) : row * row * row :=
  let qkv := linear (qkv_proj l) hidden in
  if fused_table m then
    split_qkv (table_qk_norm_rope_ (lane_order dev) D (num_heads m) (num_kv_heads m) (eps m)
                 (qn_weight l) (kn_weight l) (cos_sin pos) qkv)
  else
    let '(q, k, v) := split_qkv qkv in
    (norm_rope_row (num_heads m) (qn_weight l) pos q, norm_rope_row (num_kv_heads m) (kn_weight l) pos k, v).

Definition prepare_latent_kv (l : LatentSpecLayer) (packed_kv : row) (pos : nat) : row * row :=
  if fused_table m then
    split_kv (table_k_norm_rope_ (lane_order dev) D (num_kv_heads m) (eps m) (kn_weight l) (cos_sin pos) packed_kv)
  else
    let '(k, v) := split_kv packed_kv in (norm_rope_row (num_kv_heads m) (kn_weight l) pos k, v).

(** [DFlashMLP.forward] with [SiluAndMul]. *)
Definition silu (x : R) : R := (x * (1 / (1 + exp (- x))))%R.
Definition silu_and_mul (x : row) : row :=
  vmul (silu <$> take (length x / 2) x) (drop (length x / 2) x).
Definition mlp (l : LatentSpecLayer) (x : row) : row :=
  linear (down_proj_w l) (silu_and_mul (linear (gate_up_proj l) x)).

(** The attention type of [_get_dflash_attention_type] is causal when the configuration says so. *)
Definition causal : bool := match is_causal m with Some b => b | None => false end.

(** [forward_extend] of the backend with the stage's metadata: the two-stage kernel in short tiles. *)
Definition forward_extend (md : ForwardMetadata) (l : LatentSpecLayer) (q k v : list row) (pool : KVPool) : list row :=
  let block_m_override := if max_extend_len md <=? 8 then Some 8 else None in
  let conf :=
    fwd_conf (arch dev) block_m_override D D (num_heads m) (num_kv_heads m) (Some (Rpower (INR D) (- (1 / 2)))) 1 1 0
      (-1) (-1) None causal true false false None (page_size dev) None in
  let mem :=
    {| Q_Extend := split_heads D (num_heads m) <$> q;
       K_Extend := split_heads D (num_kv_heads m) <$> k;
       V_Extend := split_heads D (num_kv_heads m) <$> v;
       K_Buffer := λ slot head, row2 (k_buffer pool (layer_id l) slot) head;
       V_Buffer := λ slot head, row2 (v_buffer pool (layer_id l) slot) head;
       qo_indptr := md_qo_indptr md; kv_indptr := md_kv_indptr md; kv_indices := md_kv_indices md;
       mask_indptr := []; window_kv_offsets := [] |} in
  let o :=
    extend_attention_fwd (compact_grid dev) conf mem (max_extend_len md) (num_heads m) None (grid_order dev) (out_init dev) in
  (λ tok, concat ((λ h, o tok h) <$> seq 0 (num_heads m))) <$> seq 0 (length q).

(** [_run_layer]: the new [hidden] and [residual]. *)
Definition _run_layer (md : ForwardMetadata) (pool : KVPool) (positions : list nat)
    (st : list row * option (list row)) (l : LatentSpecLayer) : list row * option (list row) :=
  let '(hidden, residual) := rail_norm (in_norm l) (eps m) st.1 st.2 in
  let qkv := zip_with (project_current l) hidden positions in
  let attn_out := forward_extend md l ((λ x, x.1.1) <$> qkv) ((λ x, x.1.2) <$> qkv) (snd <$> qkv) pool in
  let attn_out := linear (out_proj l) <$> attn_out in
  let '(hidden, residual) := rail_norm (post_norm l) (eps m) attn_out (Some residual) in
  (mlp l <$> hidden, Some residual).

(** [_write_latent_kv]; [projected_kv] is the layer's part of the stacked projection. *)
Definition _write_latent_kv (l : LatentSpecLayer) (latent : list row) (latent_positions cache_locs : list nat)
    (projected_kv : option (list row)) (pool : KVPool) : KVPool :=
  let packed_kv :=
    match projected_kv with
    | Some kv => kv
    | None => match kv_latent l with Some w => linear w <$> latent | None => [] end
    end in
  let kv := zip_with (prepare_latent_kv l) packed_kv latent_positions in
  set_kv_buffer pool (layer_id l) cache_locs
    ((λ x, split_heads D (num_kv_heads m) x.1) <$> kv) ((λ x, split_heads D (num_kv_heads m) x.2) <$> kv).

(** One turn of the proposal loop: the layer's latent keys and values, then the layer. *)
Definition proposal_step (md : ForwardMetadata) (num_proposal_layers : nat) (latent : list row) (latent_positions cache_locs positions : list nat)
    (stacked_latent_kv : option (list row)) (st : KVPool * (list row * option (list row)))
    (li : nat * LatentSpecLayer) : KVPool * (list row * option (list row)) :=
  let '(i, l) := li in
  let projected_kv :=
    match stacked_latent_kv with
    | Some rows => Some ((λ x : row, let width := length x / num_proposal_layers in take width (drop (i * width) x)) <$> rows)
    | None => None
    end in
  let pool := _write_latent_kv l latent latent_positions cache_locs projected_kv st.1 in
  (pool, _run_layer md pool positions st.2 l).

Definition final_rail (w : row) (st : list row * option (list row)) : list row := (rail_norm w (eps m) st.1 st.2).1.

(** [forward]: the hidden rows of the proposals and the pool. *)
Definition served_forward (stages : option StageMetadata) (bs : nat) (input_ids positions out_cache_loc : list nat)
    (input_embeds : option (list row)) (pool : KVPool) : result (list row * KVPool) :=
  let block_embeds := match input_embeds with Some e => e | None => embed m <$> input_ids end in
  proposal ← reshape_blocks bs (proposal_size m) block_embeds;
  raw_pos ← reshape_blocks bs (proposal_size m) positions;
  ids ← reshape_blocks bs (proposal_size m) input_ids;
  cache_locs ← reshape_blocks bs (proposal_size m) out_cache_loc;
  let base_pos := (λ r, ld r 0) <$> (raw_pos : list (list nat)) in
  let latent_pos := concat ((λ p, (λ o, p + o) <$> seq 0 (sm_latent_tokens m)) <$> base_pos) in
  let proposal_pos := concat ((λ p, (λ o, p + o) <$> seq 0 (proposal_size m)) <$> base_pos) in
  let latent_ids :=
    (λ r, <[0 := ld r 0]> (replicate (sm_latent_tokens m) (sm_latent_token_id m))) <$> (ids : list (list nat)) in
  let latent := concat ((λ r, embed m <$> r) <$> latent_ids) in
  let latent_cache_locs := concat (take (sm_latent_tokens m) <$> (cache_locs : list (list nat))) in
  md ← set_latentspec_stage stages "latent";
  let latent :=
    final_rail (sm_latent_hidden_norm m)
      (foldl (_run_layer md pool latent_pos) (latent, None) (take (sm_num_latent_layers m) (sm_layers m))) in
  md ← set_latentspec_stage stages "proposal";
  let proposal_layers := drop (sm_num_latent_layers m) (sm_layers m) in
  let stacked_latent_kv :=
    match _stacked_latent_kv m with Some w => Some (linear w <$> latent) | None => None end in
  let '(pool, st) :=
    foldl (proposal_step md (length proposal_layers) latent latent_pos latent_cache_locs proposal_pos stacked_latent_kv)
      (pool, (concat (proposal : list (list row)), None)) (zip (seq 0 (length proposal_layers)) proposal_layers) in
  Ok (final_rail (sm_norm m) st, pool).
End model.

(** ** The checkpoint in the served layout *)

(** The rows of one projection after those of the other. *)
Definition cat_linear (a b : Linear) : Linear :=
  {| weight := weight a ++ weight b;
     bias := match bias a, bias b with Some x, Some y => Some (x ++ y) | _, _ => None end |}.

Definition packed_layer {A} (i : nat) (l : MySpecDecoderLayer A) (a : MySpecAttention) (kv_lat : option Linear)
  : LatentSpecLayer :=
  {| layer_id := i; in_norm := input_layernorm l;
     qkv_proj := cat_linear (q_proj a) (cat_linear (k_proj_noise a) (v_proj_noise a));
     kv_ctx := cat_linear (k_proj a) (v_proj a); kv_latent := kv_lat; out_proj := o_proj a;
     qn_weight := q_norm a; kn_weight := k_norm a; post_norm := post_attention_layernorm l;
     gate_up_proj := cat_linear (gate_proj l) (up_proj l); down_proj_w := down_proj l |}.

Definition latent_kv_of (a : MySpecMaskAttention) : Linear := cat_linear (k_proj_latent a) (v_proj_latent a).

(** [torch.cat] of the proposal layers' [kv_latent]; it raises on an empty list. *)
Definition stack_linear (ls : list Linear) : option Linear :=
  match ls with [] => None | l :: ls => Some (foldl cat_linear l ls) end.

Definition packed_model (ck : Checkpoint) (theta : R) (fused : bool) (causal : option bool) : ServedModel :=
  let cfg := ck_config ck in
  let n := length (ck_latent_layers ck) in
  {| num_heads := num_attention_heads cfg; num_kv_heads := num_key_value_heads cfg; hd := head_dim cfg;
     eps := rms_norm_eps cfg; rope_theta := theta; sm_latent_tokens := ck_num_latent_tokens ck;
     proposal_size := ck_block_size ck; sm_latent_token_id := ck_latent_token_id ck; embed := ck_embed_tokens ck;
     sm_fc := ck_fc ck; sm_hidden_norm := ck_hidden_norm ck; sm_latent_hidden_norm := ck_latent_hidden_norm ck;
     sm_norm := ck_norm ck; sm_num_latent_layers := n;
     sm_layers :=
       imap (λ i l, packed_layer i l (self_attn l) None) (ck_latent_layers ck) ++
       imap (λ i l, packed_layer (n + i) l (mask_base (self_attn l)) (Some (latent_kv_of (self_attn l)))) (ck_layers ck);
     _stacked_latent_kv := stack_linear ((λ l, latent_kv_of (self_attn l)) <$> ck_layers ck);
     fused_table := fused; is_causal := causal |}.
