(* ===== verification/LatentRows.v ===== *)
(** * LatentRows: one token through the packed and the trained projections

    The laws of the imported functions of [DraftLayers] and, token by token, why the served
    model of [LatentModel] computes the trained rows: a packed projection is the projections
    one after the other, the fused table kernel is the norm and the rotation of every head
    (in any order of its programs), and [cos_sin_cache] rotates like [cos] and [sin] of the
    trained embedding. *)

From Stdlib Require Import Reals Lra.
From S2P Require Import Prelude TensorOps RealLaw LatentSampler RejectKernel MySpecModel ExtendAttention LatentStage DraftLayers LatentModel.
#[local] Open Scope nat_scope.
#[local] Arguments Nat.ltb : simpl never.
#[local] Arguments Nat.leb : simpl never.

(** ** Laws of the imported functions *)

(** A projection with [n] output features, with or without bias. *)
Definition linear_ok (has_bias : bool) (n : nat) (l : Linear) : Prop :=
  length (weight l) = n ∧
  match bias l with Some b => has_bias = true ∧ length b = n | None => has_bias = false end.

(** An output feature is computed from its own row of the weight and cell of the bias. *)
Class TorchLinearLaws `{!TorchLinear} : Prop := {
  F_linear_length w b x :
    match b with Some b => length b = length w | None => True end → length (F_linear w b x) = length w;
  F_linear_cat w1 w2 x : F_linear (w1 ++ w2) None x = F_linear w1 None x ++ F_linear w2 None x;
  F_linear_cat_bias w1 w2 b1 b2 x :
    length b1 = length w1 → length b2 = length w2 →
    F_linear (w1 ++ w2) (Some (b1 ++ b2)) x = F_linear w1 (Some b1) x ++ F_linear w2 (Some b2) x
}.

(** The documented behaviour of the [transformers] functions: the norm is [RMSNorm]'s formula, the
    rotary embedding is the default one with base [theta], the MLP is gated by [silu], and an
    attention function without mask averages over all keys, [kv] heads shared by groups of query heads. *)
Class TransformersLaws `{!TorchLinear, !Transformers} (theta : R) (cfg : Qwen3Config) : Prop := {
  Qwen3RMSNorm_law w eps x : Qwen3RMSNorm w eps x = rms_norm w eps x;
  rotate_half_law x : rotate_half x = (Ropp <$> drop (length x / 2) x) ++ take (length x / 2) x;
  rotary_law pos :
    let freqs := (λ f, INR pos * f)%R <$> inv_freq theta (head_dim cfg) in
    rotary pos = ((cos <$> freqs) ++ (cos <$> freqs), (sin <$> freqs) ++ (sin <$> freqs));
  Qwen3MLP_law gate up down x :
    Qwen3MLP gate up down x = linear down (vmul (silu <$> linear gate x) (linear up x));
  attn_fn_law s q k v :
    attn_fn None false None s q k v =
    (λ hs : list row, imap (λ h x,
       let kv_head := h / (num_attention_heads cfg / num_key_value_heads cfg) in
       attention (head_dim cfg) None
         ((λ kv, ((key_dot (head_dim cfg) x (row2 kv.1 kv_head) * s)%R, row2 kv.2 kv_head)) <$> zip k v)) hs) <$> q
}.

Class DynamicCacheRowsLaws (KV : Type) `{!DynamicCache KV, !DynamicCacheRows KV} : Prop := {
  cache_update_law l k v c :
    ∃ c', cache_update l k v c = ((cache_rows l c).1 ++ k, (cache_rows l c).2 ++ v, c') ∧
      ∀ l', cache_rows l' c' = if decide (l' = l) then ((cache_rows l c).1 ++ k, (cache_rows l c).2 ++ v) else cache_rows l' c;
  cache_crop_law n c l : cache_rows l (crop_cache n c) = (take n (cache_rows l c).1, take n (cache_rows l c).2);
  cache_length_law c : get_seq_length c = length (cache_rows 0 c).1
}.

(** ** Packed projections *)

Section linear.
Context `{!TorchLinear, !TorchLinearLaws}.

Lemma linear_length b n l x : linear_ok b n l → length (linear l x) = n.
Proof.
  intros [Hw Hb]. unfold linear. rewrite F_linear_length; [done|]. destruct (bias l); [|done]. destruct Hb as [_ ->]. done.
Qed.

Lemma cat_linear_ok b n n' l l' : linear_ok b n l → linear_ok b n' l' → linear_ok b (n + n') (cat_linear l l').
Proof.
  intros [Hw Hb] [Hw' Hb']. split; [cbn; rewrite length_app; lia|]. unfold cat_linear. cbn.
  destruct (bias l), (bias l'); [|destruct Hb as [-> _]; discriminate|destruct Hb' as [-> _]; discriminate|done].
  destruct Hb as [-> ?], Hb' as [_ ?]. split; [done|]. rewrite length_app. lia.
Qed.

Lemma linear_cat b n n' l l' x :
  linear_ok b n l → linear_ok b n' l' → linear (cat_linear l l') x = linear l x ++ linear l' x.
Proof.
  intros [Hw Hb] [Hw' Hb']. unfold linear, cat_linear. cbn.
  destruct (bias l), (bias l'); [|destruct Hb as [-> _]; discriminate|destruct Hb' as [-> _]; discriminate|].
  - apply F_linear_cat_bias; destruct Hb, Hb'; lia.
  - apply F_linear_cat.
Qed.

Lemma stack_linear_ok b n ls x : Forall (linear_ok b n) ls → ls ≠ [] →
  ∃ w, stack_linear ls = Some w ∧ linear w x = concat ((λ l, linear l x) <$> ls).
Proof.
  destruct ls as [|l ls]; [done|]. intros [Hl Hls]%Forall_cons _. eexists. split; [done|].
  assert (G : ∀ ls a k, linear_ok b k a → Forall (linear_ok b n) ls →
    linear (foldl cat_linear a ls) x = linear a x ++ concat ((λ l, linear l x) <$> ls)).
  { clear Hl Hls l ls. induction ls as [|l ls IH]; intros a k Ha Hls; [cbn; by rewrite app_nil_r|]. apply Forall_cons in Hls as [Hl Hls].
    cbn [foldl]. rewrite (IH _ (k + n)) by (by try apply cat_linear_ok). rewrite (linear_cat b k n) by done. by rewrite <- app_assoc. }
  by rewrite (G ls l n).
Qed.
End linear.

(** The [i]-th of equal chunks. *)
Lemma chunk_concat {A} n (ls : list (list A)) i l :
  Forall (λ l, length l = n) ls → ls !! i = Some l → take n (drop (i * n) (concat ls)) = l.
Proof.
  intros Hls. revert i. induction Hls as [|l' ls Hl' _ IH]; intros i Hi; [done|]. cbn [concat]. destruct i as [|i].
  - injection Hi as ->. cbn [Nat.mul]. rewrite drop_0. rewrite <- Hl'. apply take_app_length.
  - cbn [Nat.mul]. rewrite <- Hl' at 2. rewrite <- drop_drop, drop_app_length. by apply IH.
Qed.

Lemma length_concat_const {A} n (ls : list (list A)) :
  Forall (λ l, length l = n) ls → length (concat ls) = length ls * n.
Proof. induction 1 as [|l ls Hl _ IH]; [done|]. cbn. rewrite length_app. lia. Qed.

Lemma split_heads_concat D n hs : length hs = n → Forall (λ l, length l = D) hs → split_heads D n (concat hs) = hs.
Proof.
  intros <- Hhs. unfold split_heads. apply list_eq. intros i. rewrite list_lookup_fmap.
  destruct (decide (i < length hs)).
  - rewrite lookup_seq_lt by done. cbn. destruct (lookup_lt_is_Some_2 hs i ltac:(done)) as [y Hy].
    rewrite Hy. f_equal. by apply chunk_concat.
  - rewrite lookup_seq_ge, lookup_ge_None_2 by lia. done.
Qed.

Lemma split_heads_lengths D n x : n * D ≤ length x → Forall (λ l, length l = D) (split_heads D n x).
Proof.
  intros Hx. unfold split_heads. apply Forall_fmap, Forall_forall. intros h Hh%elem_of_seq. cbn.
  rewrite length_take, length_drop. nia.
Qed.

(** ** Norm and rotation of a head *)

Lemma zip_with_wt (f : R → R → R) x y n :
  length x = n → length y = n → zip_with f x y = (λ i, f (wt x i) (wt y i)) <$> seq 0 n.
Proof.
  intros Hx Hy. apply list_eq. intros i. rewrite lookup_zip_with, list_lookup_fmap. destruct (decide (i < n)).
  - rewrite lookup_seq_lt by done. cbn. unfold wt.
    destruct (lookup_lt_is_Some_2 x i ltac:(lia)) as [a ->], (lookup_lt_is_Some_2 y i ltac:(lia)) as [b ->]. done.
  - rewrite lookup_seq_ge, (lookup_ge_None_2 x) by lia. done.
Qed.

Lemma wt_take n x i : i < n → wt (take n x) i = wt x i.
Proof. intros Hi. unfold wt. by rewrite lookup_take_lt. Qed.
Lemma wt_drop n x i : wt (drop n x) i = wt x (n + i).
Proof. unfold wt. by rewrite lookup_drop. Qed.
Lemma length_rms_norm w eps x : length (rms_norm w eps x) = Nat.min (length x) (length w).
Proof. unfold rms_norm. by rewrite length_zip_with. Qed.

Lemma vmul_app a b c e : length a = length c → vmul (a ++ b) (c ++ e) = vmul a c ++ vmul b e.
Proof. unfold vmul. intros H. by rewrite zip_with_app. Qed.
Lemma vadd_app a b c e : length a = length c → vadd (a ++ b) (c ++ e) = vadd a c ++ vadd b e.
Proof. unfold vadd. intros H. by rewrite zip_with_app. Qed.
Lemma length_vmul a b : length (vmul a b) = Nat.min (length a) (length b).
Proof. apply length_zip_with. Qed.

Lemma vadd_opp a b c : vadd a (vmul (Ropp <$> b) c) = vsub a (vmul b c).
Proof.
  unfold vadd, vsub, vmul. revert b c. induction a as [|x a IH]; intros [|y b] [|z c]; try done.
  cbn. f_equal; [ring|]. apply IH.
Qed.

Lemma vadd_comm a b : vadd a b = vadd b a.
Proof.
  unfold vadd. revert b. induction a as [|x a IH]; intros [|y b]; try done. cbn. f_equal; [apply Rplus_comm|]. apply IH.
Qed.

Section rotary.
Context (theta : R) (half : nat).
Notation D := (2 * half).

Lemma half_D : D / 2 = half.
Proof. rewrite Nat.mul_comm. by apply Nat.div_mul. Qed.

Lemma length_inv_freq : length (inv_freq theta D) = half.
Proof.
  unfold inv_freq. rewrite length_fmap, length_seq. unfold cdiv. replace (D + 2 - 1) with (1 + half * 2) by lia.
  rewrite Nat.div_add by lia. done.
Qed.

Lemma length_cos_sin pos : length (cos_sin_cache theta D pos) = D.
Proof. unfold cos_sin_cache. rewrite length_app, !length_fmap, length_inv_freq. lia. Qed.

Lemma rotary_head_eq pos x : length x = D →
  let freqs := (λ f, INR pos * f)%R <$> inv_freq theta D in
  rotary_head theta D pos x = apply_rotary_emb x (cos <$> freqs) (sin <$> freqs).
Proof.
  intros Hx freqs. unfold rotary_head. cbv zeta. rewrite length_cos_sin, half_D.
  rewrite (firstn_all2 x) by lia. rewrite (drop_ge x) by lia. rewrite app_nil_r. unfold cos_sin_cache. fold freqs.
  assert (Hf : length (cos <$> freqs) = half) by (unfold freqs; by rewrite !length_fmap, length_inv_freq).
  rewrite <- Hf at 1 2. by rewrite take_app_length, drop_app_length.
Qed.

Lemma length_rotary_head pos x : length x = D → length (rotary_head theta D pos x) = D.
Proof.
  intros Hx. rewrite rotary_head_eq by done. unfold apply_rotary_emb, vsub, vadd, vmul. rewrite Hx, half_D.
  rewrite !length_app, !length_zip_with, length_take, length_drop, !length_fmap, length_inv_freq. lia.
Qed.

(** The served rotation is the trained one. *)
Lemma rotary_trained `{!TorchLinear, !Transformers} cfg `{!TransformersLaws theta cfg} pos x :
  head_dim cfg = D → length x = D →
  rotary_head theta D pos x = vadd (vmul x (rotary pos).1) (vmul (rotate_half x) (rotary pos).2).
Proof.
  intros Hd Hx. rewrite rotary_head_eq by done. rewrite (rotary_law (theta := theta) (cfg := cfg)), rotate_half_law, Hd, Hx, half_D.
  cbn [fst snd]. set (freqs := _ <$> inv_freq _ _).
  assert (Hf : ∀ g : R → R, length (g <$> freqs) = half) by (intros g; unfold freqs; by rewrite !length_fmap, length_inv_freq).
  assert (H1 : length (take half x) = half) by (rewrite length_take; lia).
  assert (H2 : length (drop half x) = half) by (rewrite length_drop; lia).
  assert (E1 : vmul x ((cos <$> freqs) ++ (cos <$> freqs)) = vmul (take half x) (cos <$> freqs) ++ vmul (drop half x) (cos <$> freqs)).
  { rewrite <- vmul_app by (by rewrite Hf, H1). by rewrite take_drop. }
  rewrite E1, vmul_app by (by rewrite length_fmap, Hf, H2). unfold apply_rotary_emb. rewrite Hx, half_D, vadd_app.
  - by rewrite vadd_opp.
  - by rewrite !length_vmul, !Hf, length_fmap, H1, H2.
Qed.

(** ** The fused table kernel *)

Definition chunk (h : nat) (x : row) : row := take D (drop (h * D) x).
Definition fused_head (NHQ : nat) (e : R) (qw kw : row) (pos h : nat) (x : row) : row :=
  rotary_head theta D pos (rms_norm (if h <? NHQ then qw else kw) e x).

Lemma kernel_eq NHQ e qw kw pos x h :
  length qw = D → length kw = D → (h + 1) * D ≤ length x →
  _table_qk_norm_rope_kernel D NHQ (NHQ * D) e qw kw (cos_sin_cache theta D pos) x h =
  list_inserts (h * D) (fused_head NHQ e qw kw pos h (chunk h x)) x.
Proof.
  intros Hqw Hkw Hx. unfold _table_qk_norm_rope_kernel, fused_head. cbv zeta. rewrite half_D.
  set (w := if h <? NHQ then qw else kw). assert (Hw : length w = D) by (unfold w; by destruct (h <? NHQ)).
  assert ((if h <? NHQ then h * D else NHQ * D + (h - NHQ) * D) = h * D) as ->.
  { destruct (Nat.ltb_spec h NHQ); [done|]. nia. }
  assert (Hs : length (chunk h x) = D) by (unfold chunk; rewrite length_take, length_drop; lia).
  assert (Hwt : ∀ i, i < D → wt x (h * D + i) = wt (chunk h x) i).
  { intros i Hi. unfold chunk. by rewrite wt_take, wt_drop. }
  assert (Hms : (Rsum ((λ i, square (wt x (h * D + i))) <$> seq 0 D) / INR D)%R
    = (Rsum (square <$> chunk h x) / INR (length (chunk h x)))%R).
  { rewrite Hs. f_equal. f_equal. rewrite <- (wt_self (chunk h x) D Hs) at 1. rewrite <- list_fmap_compose.
    apply list_fmap_ext. intros j i Hj. apply lookup_seq in Hj as [-> Hj]. cbn. by rewrite Hwt. }
  rewrite Hms. set (inv := (1 / sqrt _)%R).
  assert (Hn : rms_norm w e (chunk h x) = (λ i, wt (chunk h x) i * inv * wt w i)%R <$> seq 0 D).
  { unfold rms_norm. by rewrite (zip_with_wt _ _ _ D). }
  rewrite rotary_head_eq by (rewrite length_rms_norm, Hs, Hw; apply Nat.min_id). rewrite Hn.
  unfold apply_rotary_emb. rewrite length_fmap, length_seq, half_D.
  set (freqs := _ <$> inv_freq _ _).
  assert (Hf : ∀ g : R → R, length (g <$> freqs) = half) by (intros g; unfold freqs; by rewrite !length_fmap, length_inv_freq).
  assert (Hcos : wt (cos_sin_cache theta D pos) <$> seq 0 half = cos <$> freqs).
  { rewrite <- (wt_self (cos <$> freqs) half) by apply Hf. apply list_fmap_ext. intros j i Hj. apply lookup_seq in Hj as [-> Hj].
    unfold cos_sin_cache. fold freqs. unfold wt. by rewrite lookup_app_l by (rewrite Hf; lia). }
  assert (Hsin : (λ i, wt (cos_sin_cache theta D pos) (half + i)) <$> seq 0 half = sin <$> freqs).
  { rewrite <- (wt_self (sin <$> freqs) half) by apply Hf. apply list_fmap_ext. intros j i Hj. apply lookup_seq in Hj as [-> Hj].
    unfold cos_sin_cache. fold freqs. unfold wt. rewrite lookup_app_r by (rewrite Hf; lia). rewrite Hf. by replace (half + (0 + j) - half) with (0 + j) by lia. }
  rewrite Hcos, Hsin.
  assert (HD : seq 0 D = seq 0 half ++ seq half half) by (replace D with (half + half) by lia; apply seq_app).
  assert (E1 : (λ i, wt x (h * D + i) * inv * wt w i)%R <$> seq 0 half = take half ((λ i, wt (chunk h x) i * inv * wt w i)%R <$> seq 0 D)).
  { rewrite HD, fmap_app, take_app_le by (by rewrite length_fmap, length_seq).
    rewrite firstn_all2 by (by rewrite length_fmap, length_seq).
    apply list_fmap_ext. intros j i Hj. apply lookup_seq in Hj as [-> Hj]. rewrite Hwt by lia. done. }
  assert (E2 : (λ i, wt x (h * D + half + i) * inv * wt w (half + i))%R <$> seq 0 half
    = drop half ((λ i, wt (chunk h x) i * inv * wt w i)%R <$> seq 0 D)).
  { rewrite HD, fmap_app, drop_app_ge by (by rewrite length_fmap, length_seq).
    rewrite length_fmap, length_seq, Nat.sub_diag, drop_0. replace (seq half half) with (seq (half + 0) half) by (by rewrite Nat.add_0_r). rewrite <- (fmap_add_seq half 0 half), <- list_fmap_compose.
    apply list_fmap_ext. intros j i Hj. apply lookup_seq in Hj as [-> Hj]. cbn. rewrite <- Nat.add_assoc, Hwt by lia. done. }
  rewrite E1, E2, list_inserts_app_l. f_equal. unfold vsub, vmul.
  rewrite !length_zip_with, length_take, length_drop, length_fmap, length_seq, !Hf. lia.
Qed.
Lemma chunk_inserts_same h r x : length r = D → (h + 1) * D ≤ length x → chunk h (list_inserts (h * D) r x) = r.
Proof.
  intros Hr Hx. unfold chunk. apply list_eq. intros i. destruct (decide (i < D)).
  - rewrite lookup_take_lt, lookup_drop, list_lookup_inserts by lia. f_equal. lia.
  - rewrite lookup_take_ge by lia. by rewrite lookup_ge_None_2 by lia.
Qed.

Lemma chunk_inserts_ne h h' r x : h ≠ h' → length r = D → chunk h' (list_inserts (h * D) r x) = chunk h' x.
Proof.
  intros Hne Hr. unfold chunk. apply list_eq. intros i. destruct (decide (i < D)); [|by rewrite !lookup_take_ge by lia].
  rewrite !lookup_take_lt, !lookup_drop by lia.
  destruct (decide (h < h')); [apply list_lookup_inserts_ge|apply list_lookup_inserts_lt]; nia.
Qed.

Lemma drop_inserts h c (r x : row) : length r = D → (h + 1) * D ≤ c → drop c (list_inserts (h * D) r x) = drop c x.
Proof. intros Hr Hc. apply list_eq. intros i. rewrite !lookup_drop. apply list_lookup_inserts_ge. lia. Qed.

(** The programs of a row, in any order: every head is its own, the rest is untouched. *)
Lemma fold_table NHQ e qw kw pos ps : ∀ x,
  length qw = D → length kw = D → NoDup ps → (∀ h, h ∈ ps → (h + 1) * D ≤ length x) →
  let x' := foldl (_table_qk_norm_rope_kernel D NHQ (NHQ * D) e qw kw (cos_sin_cache theta D pos)) x ps in
  length x' = length x ∧
  (∀ h, chunk h x' = if decide (h ∈ ps) then fused_head NHQ e qw kw pos h (chunk h x) else chunk h x) ∧
  (∀ c, (∀ h, h ∈ ps → (h + 1) * D ≤ c) → drop c x' = drop c x).
Proof.
  induction ps as [|p ps IH]; intros x Hqw Hkw Hnd Hps; cbn [foldl].
  { split; [done|]. split; [|done]. intros h. rewrite decide_False by apply not_elem_of_nil. done. }
  apply NoDup_cons in Hnd as [Hp Hnd]. pose proof (Hps p ltac:(by left)) as Hpx. rewrite kernel_eq by done.
  set (r := fused_head NHQ e qw kw pos p (chunk p x)).
  assert (Hr : length r = D).
  { unfold r, fused_head. apply length_rotary_head. rewrite length_rms_norm. unfold chunk. rewrite length_take, length_drop.
    destruct (p <? NHQ); lia. }
  destruct (IH (list_inserts (p * D) r x)) as (H1 & H2 & H3); [done..| |].
  { intros h Hh. rewrite length_inserts. apply Hps. by right. }
  split; [by rewrite H1, length_inserts|]. split.
  - intros h. rewrite H2. destruct (decide (h = p)) as [->|Hne].
    + rewrite decide_False by done. rewrite decide_True by (by left). by apply chunk_inserts_same.
    + rewrite chunk_inserts_ne by done. destruct (decide (h ∈ ps)).
      * by rewrite decide_True by (by right).
      * rewrite decide_False; [done|]. by intros [?|?]%elem_of_cons.
  - intros c Hc. rewrite H3 by (intros h Hh; apply Hc; by right). apply drop_inserts; [done|]. apply Hc. by left.
Qed.

Lemma split_heads_take n c x : n * D ≤ c → split_heads D n (take c x) = (λ h, chunk h x) <$> seq 0 n.
Proof.
  intros Hc. unfold split_heads, chunk. apply list_fmap_ext. intros i h Hh. apply lookup_seq in Hh as [-> Hh].
  rewrite skipn_firstn_comm, take_take. f_equal. nia.
Qed.
Lemma chunk_drop n h x : chunk h (drop (n * D) x) = chunk (n + h) x.
Proof. unfold chunk. rewrite drop_drop. do 2 f_equal. lia. Qed.

(** What every path leaves in the heads of a flat row. *)
Definition token_rope (n : nat) (w : row) (e : R) (pos : nat) (x : row) : list row :=
  (λ h, rotary_head theta D pos (rms_norm w e h)) <$> split_heads D n x.

Lemma token_rope_chunks n c w e pos x : n * D ≤ c →
  token_rope n w e pos (take c x) = (λ h, rotary_head theta D pos (rms_norm w e (chunk h x))) <$> seq 0 n.
Proof. intros Hc. unfold token_rope. by rewrite split_heads_take, <- list_fmap_compose. Qed.

Lemma token_rope_lengths n w e pos x : length w = D → n * D ≤ length x →
  Forall (λ l, length l = D) (token_rope n w e pos x).
Proof.
  intros Hw Hx. unfold token_rope. apply Forall_fmap. eapply Forall_impl; [by apply split_heads_lengths|].
  intros h Hh. cbn in *. apply length_rotary_head. rewrite length_rms_norm. lia.
Qed.

Lemma native_heads n w e pos x : length w = D → n * D ≤ length x →
  split_heads D n (concat (token_rope n w e pos x)) = token_rope n w e pos x.
Proof.
  intros Hw Hx. apply split_heads_concat; [|by apply token_rope_lengths].
  unfold token_rope, split_heads. by rewrite !length_fmap, length_seq.
Qed.

(** The heads of a part of a row the fused kernel has rewritten. *)
Lemma fused_heads NHQ total first n c e qw kw w pos x order :
  (∀ l, order l ≡ₚ l) → length qw = D → length kw = D → total * D ≤ length x → first + n ≤ total → n * D ≤ c →
  (∀ h, h < n → (if first + h <? NHQ then qw else kw) = w) →
  let x' := foldl (_table_qk_norm_rope_kernel D NHQ (NHQ * D) e qw kw (cos_sin_cache theta D pos)) x (order (seq 0 total)) in
  split_heads D n (take c (drop (first * D) x')) = token_rope n w e pos (take c (drop (first * D) x)).
Proof.
  intros Ho Hqw Hkw Hx Hn Hc Hw x'. rewrite split_heads_take, token_rope_chunks by done.
  destruct (fold_table NHQ e qw kw pos (order (seq 0 total)) x Hqw Hkw) as (_ & H & _).
  { rewrite Ho. apply NoDup_seq. }
  { intros h Hh. rewrite Ho in Hh. apply elem_of_seq in Hh. nia. }
  apply list_fmap_ext. intros i h Hh. apply lookup_seq in Hh as [-> Hh]. rewrite !chunk_drop. unfold x'.
  rewrite H, decide_True by (rewrite Ho; apply elem_of_seq; lia). unfold fused_head. by rewrite Hw.
Qed.

Lemma fused_rest NHQ total c e qw kw pos x order :
  (∀ l, order l ≡ₚ l) → length qw = D → length kw = D → total * D ≤ length x → total * D ≤ c →
  drop c (foldl (_table_qk_norm_rope_kernel D NHQ (NHQ * D) e qw kw (cos_sin_cache theta D pos)) x (order (seq 0 total))) = drop c x.
Proof.
  intros Ho Hqw Hkw Hx Hc. destruct (fold_table NHQ e qw kw pos (order (seq 0 total)) x Hqw Hkw) as (_ & _ & H).
  { rewrite Ho. apply NoDup_seq. }
  { intros h Hh. rewrite Ho in Hh. apply elem_of_seq in Hh. nia. }
  apply H. intros h Hh. rewrite Ho in Hh. apply elem_of_seq in Hh. nia.
Qed.
End rotary.

(** ** The two paths of a projection *)

Section project.
Context `{!TorchLinear, !TorchLinearLaws} (dev : Device) (m : ServedModel) (half : nat).
Hypothesis Hhd : hd m = 2 * half.
Hypothesis Horder : ∀ l, lane_order dev l ≡ₚ l.
Notation rope n w pos := (token_rope (rope_theta m) half n w (eps m) pos).
Notation q_size := (num_heads m * hd m).
Notation kv_size := (num_kv_heads m * hd m).

Lemma project_current_ok l hidden pos q k v :
  length (qn_weight l) = hd m → length (kn_weight l) = hd m →
  linear (qkv_proj l) hidden = q ++ k ++ v → length q = q_size → length k = kv_size →
  let x := project_current dev m l hidden pos in
  split_heads (hd m) (num_heads m) x.1.1 = rope (num_heads m) (qn_weight l) pos q ∧
  split_heads (hd m) (num_kv_heads m) x.1.2 = rope (num_kv_heads m) (kn_weight l) pos k ∧ x.2 = v.
Proof using Hhd Horder.
  intros Hqw Hkw E Hq Hk. unfold project_current. rewrite E. unfold split_qkv.
  assert (Eq : take q_size (q ++ k ++ v) = q) by (rewrite <- Hq; apply take_app_length).
  assert (Ek : take kv_size (drop q_size (q ++ k ++ v)) = k).
  { rewrite <- Hq, drop_app_length, <- Hk. apply take_app_length. }
  assert (Ev : drop (q_size + kv_size) (q ++ k ++ v) = v).
  { rewrite <- drop_drop, <- Hq, drop_app_length, <- Hk. apply drop_app_length. }
  destruct (fused_table m); cbn [fst snd].
  - unfold table_qk_norm_rope_, cos_sin. rewrite Hhd in *.
    assert (Hlen : (num_heads m + num_kv_heads m) * (2 * half) ≤ length (q ++ k ++ v)) by (rewrite !length_app; lia).
    split; [|split].
    + change (take (num_heads m * (2 * half)) ?x) with (take (num_heads m * (2 * half)) (drop (0 * (2 * half)) x)).
      rewrite (fused_heads (rope_theta m) half) with (w := qn_weight l); [|done|done|done|done|lia|lia|].
      * change (0 * (2 * half)) with 0. by rewrite drop_0, Eq.
      * intros h Hh. by rewrite (proj2 (Nat.ltb_lt _ _)) by lia.
    + rewrite (fused_heads (rope_theta m) half) with (w := kn_weight l); [|done|done|done|done|lia|lia|].
      * by rewrite Ek.
      * intros h Hh. by rewrite (proj2 (Nat.ltb_ge _ _)) by lia.
    + rewrite fused_rest by (done || lia). done.
  - rewrite Eq, Ek, Ev. unfold norm_rope_row. rewrite Hhd in *. repeat split; apply native_heads; lia.
Qed.

Lemma prepare_latent_kv_ok l packed_kv pos k v :
  length (kn_weight l) = hd m → packed_kv = k ++ v → length k = kv_size →
  let x := prepare_latent_kv dev m l packed_kv pos in
  split_heads (hd m) (num_kv_heads m) x.1 = rope (num_kv_heads m) (kn_weight l) pos k ∧ x.2 = v.
Proof using Hhd Horder.
  intros Hkw -> Hk. unfold prepare_latent_kv, split_kv.
  assert (Ek : take kv_size (k ++ v) = k) by (rewrite <- Hk; apply take_app_length).
  assert (Ev : drop kv_size (k ++ v) = v) by (rewrite <- Hk; apply drop_app_length).
  destruct (fused_table m); cbn [fst snd].
  - unfold table_k_norm_rope_, cos_sin. rewrite Hhd in *.
    assert (Hlen : num_kv_heads m * (2 * half) ≤ length (k ++ v)) by (rewrite length_app; lia).
    change 0 with (0 * (2 * half)) at 3 6. split.
    + change (take (num_kv_heads m * (2 * half)) ?x) with (take (num_kv_heads m * (2 * half)) (drop (0 * (2 * half)) x)).
      rewrite (fused_heads (rope_theta m) half) with (w := kn_weight l); [|done|done|done|done|lia|lia|].
      * change (0 * (2 * half)) with 0. by rewrite drop_0, Ek.
      * intros h Hh. by destruct (_ <? _).
    + rewrite fused_rest by (done || lia). done.
  - rewrite Ek, Ev. unfold norm_rope_row. rewrite Hhd in *. split; [apply native_heads; lia|done].
Qed.
End project.
