(* ===== verification/LatentAttention.v ===== *)
(** * LatentAttention: the attention of a stage is the attention of each request

    [forward_extend] of [LatentModel] runs the extend kernel over a whole batch, reading the
    cached keys through the stage's metadata.  Here its rows are shown to be, request by
    request, the trained attention over the request's slots and its own block, by
    [extend_attention_rows].  [flat] is a batch of equally long blocks, one per request. *)

From Stdlib Require Import Reals Lra.
From S2P Require Import Prelude TensorOps RealLaw LatentSampler RejectKernel MySpecModel ExtendAttention LatentStage DraftLayers LatentModel LatentRows.
#[local] Open Scope nat_scope.
#[local] Arguments Nat.ltb : simpl never.
#[local] Arguments Nat.leb : simpl never.

(** ** Batches of blocks *)

Definition flat {A} (bs : nat) (f : nat → list A) : list A := concat (f <$> seq 0 bs).

Section flat.
Context {A : Type} (bs : nat).

Lemma flat_ext (f g : nat → list A) : (∀ b, b < bs → f b = g b) → flat bs f = flat bs g.
Proof.
  intros H. unfold flat. f_equal. apply list_fmap_ext. intros i b Hb. apply lookup_seq in Hb as [-> Hb]. by apply H.
Qed.

Lemma flat_fmap {B} (g : A → B) f : g <$> flat bs f = flat bs (λ b, g <$> f b).
Proof.
  unfold flat. induction (seq 0 bs) as [|b l IH]; [done|]. cbn. rewrite fmap_app. f_equal. apply IH.
Qed.

Lemma length_batch W (f : nat → list A) : (∀ b, b < bs → length (f b) = W) → length (flat bs f) = bs * W.
Proof.
  intros H. unfold flat. rewrite (length_concat_const W); [by rewrite length_fmap, length_seq|].
  apply Forall_fmap, Forall_forall. intros b Hb%elem_of_seq. apply H. lia.
Qed.

Lemma batch_lookup W (f : nat → list A) b i :
  (∀ b, b < bs → length (f b) = W) → b < bs → i < W → flat bs f !! (b * W + i) = f b !! i.
Proof.
  intros H Hb Hi. unfold flat. rewrite (lookup_concat_uniform W) by (try lia; apply Forall_fmap, Forall_forall; intros b' Hb'%elem_of_seq; apply H; lia).
  rewrite (Nat.add_comm (b * W)), Nat.div_add, Nat.Div0.mod_add, Nat.div_small, Nat.mod_small by lia.
  rewrite Nat.add_0_l, list_lookup_fmap, lookup_seq_lt by done. done.
Qed.

Lemma flat_chunk W (f : nat → list A) b :
  (∀ b, b < bs → length (f b) = W) → b < bs → take W (drop (b * W) (flat bs f)) = f b.
Proof.
  intros H Hb. apply chunk_concat; [|by rewrite list_lookup_fmap, lookup_seq_lt].
  apply Forall_fmap, Forall_forall. intros b' Hb'%elem_of_seq. apply H. lia.
Qed.
End flat.

Lemma flat_zip {A B C} bs (g : A → B → C) f1 f2 :
  (∀ b, b < bs → length (f1 b) = length (f2 b)) →
  zip_with g (flat bs f1) (flat bs f2) = flat bs (λ b, zip_with g (f1 b) (f2 b)).
Proof.
  intros H. unfold flat. assert (G : ∀ l, (∀ b, b ∈ l → length (f1 b) = length (f2 b)) →
    zip_with g (concat (f1 <$> l)) (concat (f2 <$> l)) = concat ((λ b, zip_with g (f1 b) (f2 b)) <$> l)).
  { induction l as [|b l IH]; intros Hl; [done|]. cbn. rewrite zip_with_app by (apply Hl; by left).
    f_equal. apply IH. intros b' Hb'. apply Hl. by right. }
  apply G. intros b Hb%elem_of_seq. apply H. lia.
Qed.

Lemma flat_seq bs W : seq 0 (bs * W) = flat bs (λ b, (λ i, b * W + i) <$> seq 0 W).
Proof.
  rewrite rows_seq. unfold flat. f_equal. apply list_fmap_ext. intros i b _.
  symmetry. etrans; [apply (fmap_add_seq (b * W) 0 W)|]. by rewrite Nat.add_0_r.
Qed.

Lemma reshape_flat {A} bs W (f : nat → list A) :
  (∀ b, b < bs → length (f b) = W) → reshape_blocks bs W (flat bs f) = Ok (f <$> seq 0 bs).
Proof.
  intros H. unfold reshape_blocks. rewrite (length_batch bs W) by done. rewrite py_check_true by (by apply Nat.eqb_eq).
  cbn [mbind result_bind]. f_equal. apply list_fmap_ext. intros i b Hb. apply lookup_seq in Hb as [-> Hb]. cbn [Nat.add].
  unfold py_slice. replace (i * W + W - i * W) with W by lia. by apply (flat_chunk bs W).
Qed.

Lemma omap_all {A B} (f : A → option B) (g : A → B) (l : list A) : (∀ x, x ∈ l → f x = Some (g x)) → omap f l = g <$> l.
Proof.
  induction l as [|x l IH]; intros H; [done|]. cbn. rewrite (H x) by (by left). f_equal. apply IH. intros y Hy. apply H. by right.
Qed.

Lemma imap_fmap_seq {A B} (F : nat → A → B) (G : nat → A) n :
  imap F (G <$> seq 0 n) = (λ h, F h (G h)) <$> seq 0 n.
Proof.
  apply list_eq. intros i. rewrite list_lookup_imap, !list_lookup_fmap. destruct (decide (i < n)).
  - by rewrite lookup_seq_lt.
  - by rewrite lookup_seq_ge by lia.
Qed.

Lemma row2_fmap {A B} (g : A → list B) (l : list A) i x : l !! i = Some x → row2 (g <$> l) i = g x.
Proof. intros H. unfold row2. by rewrite list_lookup_fmap, H. Qed.

(** ** The kernel's call *)

Section attention.
Context `{!TorchLinear, !Transformers} (theta : R) (cfg : Qwen3Config) `{!TransformersLaws theta cfg}.
Context (dev : Device) (m : ServedModel).
Hypothesis Hhd : hd m = head_dim cfg.
Hypothesis Hnh : num_heads m = num_attention_heads cfg.
Hypothesis Hkv : num_kv_heads m = num_key_value_heads cfg.
Hypothesis Hcausal : causal m = false.
Hypothesis Hgrid : ∀ l, grid_order dev l ≡ₚ l.
Notation D := (head_dim cfg).
Notation nh := (num_attention_heads cfg).
Notation nkv := (num_key_value_heads cfg).

(** The launch of [forward_extend]. *)
Definition stage_conf (md : ForwardMetadata) : FwdConf :=
  fwd_conf (arch dev) (if max_extend_len md <=? 8 then Some 8 else None) D D nh nkv (Some (scaling cfg)) 1 1 0
    (-1) (-1) None false true false false None (page_size dev) None.
Definition stage_mem (md : ForwardMetadata) (layer : nat) (q k v : list row) (pool : KVPool) : FwdMem :=
  {| Q_Extend := split_heads D nh <$> q; K_Extend := split_heads D nkv <$> k; V_Extend := split_heads D nkv <$> v;
     K_Buffer := λ slot head, row2 (k_buffer pool layer slot) head;
     V_Buffer := λ slot head, row2 (v_buffer pool layer slot) head;
     qo_indptr := md_qo_indptr md; kv_indptr := md_kv_indptr md; kv_indices := md_kv_indices md;
     mask_indptr := []; window_kv_offsets := [] |}.

Lemma forward_extend_eq md l q k v pool :
  forward_extend dev m md l q k v pool =
  (λ tok, concat ((λ h,
     extend_attention_fwd (compact_grid dev) (stage_conf md) (stage_mem md (layer_id l) q k v pool) (max_extend_len md)
       nh None (grid_order dev) (out_init dev) tok h) <$> seq 0 nh)) <$> seq 0 (length q).
Proof. unfold forward_extend. by rewrite Hhd, Hnh, Hkv, Hcausal. Qed.

Lemma stage_conf_ok md t b : conf_ok (stage_conf md) t b.
Proof.
  apply fwd_conf_ok; [|by left]. intros k. destruct (_ <=? _); [intros [= <-]; lia|done].
Qed.

Lemma scaling_nonzero : scaling cfg ≠ 0%R.
Proof. unfold scaling, Rpower. apply Rgt_not_eq, exp_pos. Qed.

(** The launch's constants. *)
Lemma stage_conf_fields md :
  let c := stage_conf md in
  ExtendAttention.sm_scale c = scaling cfg ∧ k_scale c = 1%R ∧ v_scale c = 1%R ∧ kv_group_num c = nh / nkv ∧
  SLIDING_WINDOW_SIZE c = (-1)%Z ∧ logit_cap c = 0%R ∧ xai_temperature_len c = (-1)%Z ∧ Lq c = D ∧ Lv c = D ∧
  custom_mask c = None ∧ IS_CAUSAL c = false ∧ SKIP_PREFIX c = false ∧ SKIP_EXTEND c = false ∧ sinks c = None ∧ SCORE_MOD c = None.
Proof.
  unfold stage_conf, fwd_conf. destruct (_get_block_sizes_for_extend_attention _ _ _) as [[[[DM DPE] DV] M] N].
  cbn. pose proof scaling_nonzero. destruct (Req_dec_T (scaling cfg) 0); [done|]. repeat split.
Qed.

Lemma stage_adjust md t b h qk i j : adjust (stage_conf md) t b h qk i j = qk.
Proof.
  destruct (stage_conf_fields md) as (_ & _ & _ & _ & _ & E1 & E2 & _ & _ & _ & _ & _ & _ & _ & E3).
  unfold adjust. rewrite E1, E2, E3. unfold Rlt_b. destruct (Rlt_dec 0 0); [exfalso; by eapply Rlt_irrefl|]. done.
Qed.

Section batch.
Context (md : ForwardMetadata) (bs W : nat) (lens : list nat) (slot : nat → nat → nat).
Hypothesis Hmd : stage_ok md bs W lens slot.
Hypothesis Hlens : length lens = bs.
Hypothesis HW : 0 < W.
Context (fq fk fv : nat → list row) (pool : KVPool) (l : LatentSpecLayer).
Hypothesis Hfq : ∀ b, b < bs → length (fq b) = W.
Hypothesis Hfk : ∀ b, b < bs → length (fk b) = W.
Hypothesis Hfv : ∀ b, b < bs → length (fv b) = W.
Notation t := (stage_mem md (layer_id l) (flat bs fq) (flat bs fk) (flat bs fv) pool).
Notation c := (stage_conf md).

Lemma stage_start b : b ≤ bs → cur_seq_extend_start_idx t b = b * W.
Proof. intros Hb. unfold cur_seq_extend_start_idx. cbn. by apply (so_qo _ _ _ _ _ Hmd). Qed.

Lemma stage_len b : b < bs → cur_seq_len_extend t b = W.
Proof.
  intros Hb. unfold cur_seq_len_extend. rewrite stage_start by lia. cbn. rewrite (so_qo _ _ _ _ _ Hmd) by lia. lia.
Qed.

Lemma stage_prefix b : b < bs → cur_seq_len_prefix t b = ld lens b.
Proof.
  intros Hb. unfold cur_seq_len_prefix, cur_seq_kv_start_idx. cbn.
  rewrite !(so_kv _ _ _ _ _ Hmd) by lia. rewrite psum_S by lia. lia.
Qed.

Lemma stage_batch_rows : batch_rows t bs (max_extend_len md).
Proof.
  split; cbn.
  - rewrite (so_len _ _ _ _ _ Hmd). lia.
  - intros b Hb. rewrite !(so_qo _ _ _ _ _ Hmd) by lia. lia.
  - by rewrite (so_qo _ _ _ _ _ Hmd) by lia.
  - rewrite (so_qo _ _ _ _ _ Hmd) by lia. by rewrite length_fmap, (length_batch bs W).
  - intros b Hb. rewrite stage_len by done. by rewrite (so_width _ _ _ _ _ Hmd).
Qed.

(** The score and value of a key token for query head [h]. *)
Definition scored (h : nat) (x : row) (kv : list row * list row) : R * row :=
  let kv_head := h / (nh / nkv) in ((key_dot D x (row2 kv.1 kv_head) * scaling cfg)%R, row2 kv.2 kv_head).

(** The cached tokens of a request, as the pool has them. *)
Definition pool_k (b : nat) : head_tensor := (λ n, k_buffer pool (layer_id l) (slot b n)) <$> seq 0 (ld lens b).
Definition pool_v (b : nat) : head_tensor := (λ n, v_buffer pool (layer_id l) (slot b n)) <$> seq 0 (ld lens b).

Lemma visible_stage b h i x : b < bs → i < W → fq b !! i = Some x → h < nh →
  visible_keys c t b h i =
  scored h (row2 (split_heads D nh x) h) <$>
    zip (pool_k b ++ (split_heads D nkv <$> fk b)) (pool_v b ++ (split_heads D nkv <$> fv b)).
Proof.
  intros Hb Hi Hx Hh.
  destruct (stage_conf_fields md) as (E1 & E2 & E3 & E4 & E5 & _ & _ & E6 & _ & E7 & E8 & E9 & E10 & _ & _).
  unfold visible_keys. rewrite E9, E10, stage_prefix, stage_len by done.
  assert (Hq : query t b h i = row2 (split_heads D nh x) h).
  { unfold query, head_row. rewrite stage_start by lia. cbn [Q_Extend stage_mem]. f_equal.
    apply row2_fmap. by rewrite (batch_lookup bs W). }
  rewrite zip_with_app by (unfold pool_k, pool_v; by rewrite !length_fmap). rewrite fmap_app. f_equal.
  - rewrite (omap_all _ (λ n, scored h (row2 (split_heads D nh x) h)
      (k_buffer pool (layer_id l) (slot b n), v_buffer pool (layer_id l) (slot b n)))).
    + unfold pool_k, pool_v. rewrite zip_with_fmap_l, zip_with_fmap_r. clear.
      induction (seq 0 (ld lens b)) as [|n k IH]; [done|]. cbn. by rewrite <- IH.
    + intros n Hn%elem_of_seq. unfold prefix_key, prefix_mask, windowed. rewrite E5, E7, stage_len, stage_prefix by done.
      rewrite (proj2 (Nat.ltb_lt i W)), (proj2 (Nat.ltb_lt n _)) by lia. cbn [andb]. change (0 <? -1)%Z with false. cbv iota.
      f_equal. rewrite stage_adjust. unfold cur_seq_kv_start_idx. cbn [kv_indptr kv_indices stage_mem K_Buffer V_Buffer].
      rewrite (so_kv _ _ _ _ _ Hmd) by lia. rewrite (so_slot _ _ _ _ _ Hmd) by lia.
      unfold scored, cur_kv_head. rewrite E4, E6, Hq, E1, E2, E3. cbn [fst snd]. f_equal; [by rewrite Rmult_1_r|].
      rewrite <- (list_fmap_id (row2 _ _)) at 2. apply list_fmap_ext. intros; apply Rmult_1_r.
  - assert (Hrow : ∀ (f : nat → list row) j, (∀ b, b < bs → length (f b) = W) → j < W →
      ∃ y, f b !! j = Some y ∧ row2 (split_heads D nkv <$> flat bs f) (b * W + j) = split_heads D nkv y).
    { intros f j Hf Hj. destruct (lookup_lt_is_Some_2 (f b) j ltac:(rewrite Hf; lia)) as [y Hy]. exists y. split; [done|].
      apply row2_fmap. by rewrite (batch_lookup bs W). }
    rewrite (omap_all _ (λ n, scored h (row2 (split_heads D nh x) h)
      (row2 (split_heads D nkv <$> fk b) n, row2 (split_heads D nkv <$> fv b) n))).
    + apply list_eq. intros j. rewrite !list_lookup_fmap, lookup_zip_with, !list_lookup_fmap. destruct (decide (j < W)).
      * rewrite lookup_seq_lt by done. destruct (Hrow fk j Hfk ltac:(done)) as (y & Hy & _), (Hrow fv j Hfv ltac:(done)) as (z & Hz & _).
        rewrite Hy, Hz. cbn. by rewrite (row2_fmap _ _ _ _ Hy), (row2_fmap _ _ _ _ Hz).
      * rewrite lookup_seq_ge, (lookup_ge_None_2 (fk b)) by (rewrite ?Hfk; lia). done.
    + intros n Hn%elem_of_seq. unfold extend_key, sees_extend, windowed. rewrite E5, E7, E8, stage_len by done.
      rewrite (proj2 (Nat.ltb_lt n W)) by lia. cbn [andb]. change (0 <? -1)%Z with false. cbv iota. f_equal.
      rewrite stage_adjust, stage_start by lia. unfold scored, cur_kv_head, head_row. rewrite E4, E6, Hq, E1.
      cbn [K_Extend V_Extend stage_mem fst snd].
      destruct (Hrow fk n Hfk ltac:(lia)) as (y & Hy & ->), (Hrow fv n Hfv ltac:(lia)) as (z & Hz & ->).
      by rewrite (row2_fmap _ _ _ _ Hy), (row2_fmap _ _ _ _ Hz).
Qed.

(** The whole call. *)
Lemma forward_extend_ok :
  forward_extend dev m md l (flat bs fq) (flat bs fk) (flat bs fv) pool =
  flat bs (λ b, @concat R <$>
    attn_fn None false None (scaling cfg) (split_heads D nh <$> fq b)
      (pool_k b ++ (split_heads D nkv <$> fk b)) (pool_v b ++ (split_heads D nkv <$> fv b))).
Proof.
  rewrite forward_extend_eq, (length_batch bs W), flat_seq, flat_fmap by done. apply flat_ext. intros b Hb.
  rewrite (attn_fn_law (theta := theta) (cfg := cfg)), <- !list_fmap_compose.
  apply list_eq. intros i. rewrite !list_lookup_fmap. destruct (decide (i < W)) as [Hi|].
  2: { by rewrite lookup_seq_ge, (lookup_ge_None_2 (fq b)) by (rewrite ?Hfq; lia). }
  destruct (lookup_lt_is_Some_2 (fq b) i ltac:(rewrite Hfq; lia)) as [x Hx].
  rewrite lookup_seq_lt, Hx by done. cbn. f_equal. f_equal. unfold split_heads at 3. rewrite imap_fmap_seq.
  apply list_fmap_ext. intros j h Hh. apply lookup_seq in Hh as [-> Hh]. cbn [Nat.add].
  pose proof (visible_stage b j i x Hb Hi Hx Hh) as Hv.
  rewrite <- (stage_start b) by lia.
  rewrite (extend_attention_rows (compact_grid dev) c t bs nh (max_extend_len md) None (grid_order dev) (out_init dev) b j i).
  - destruct (stage_conf_fields md) as (_ & _ & _ & _ & _ & _ & _ & _ & E & _ & _ & _ & _ & E' & _).
    unfold attention_row. rewrite E, E', Hv. cbn [fmap option_fmap option_map].
    assert (E3 : row2 (split_heads D nh x) j = take D (drop (j * D) x)).
    { apply (row2_fmap (λ h, take D (drop (h * D) x)) (seq 0 nh) j j). by apply lookup_seq_lt. }
    rewrite E3. done.
  - intros b'. apply stage_conf_ok.
  - apply stage_batch_rows.
  - intros lens' E. discriminate E.
  - done.
  - done.
  - done.
  - by rewrite stage_len.
  - rewrite Hv. intros E. apply (f_equal length) in E. rewrite length_fmap, length_zip_with, !length_app, !length_fmap, Hfk, Hfv in E by done.
    cbn in E. lia.
Qed.
End batch.
End attention.
