(* ===== verification/LatentLayers.v ===== *)
(** * LatentLayers: one layer, trained and served

    The two renderings of a decoder layer, on a batch of requests: the trained one reads its
    draft cache, the served one its pool.  [core] is the attention both compute over the keys
    before the block and the block's own; [run_layer_ok] gives it for the served layer with
    its two residual rails, [latent_layer_step] and [mask_layer_step] for the trained ones
    with their caches. *)

From Stdlib Require Import Reals Lra.
From S2P Require Import Prelude TensorOps RealLaw LatentSampler RejectKernel MySpecModel ExtendAttention LatentStage DraftLayers LatentModel LatentRows LatentAttention.
#[local] Open Scope nat_scope.
#[local] Arguments Nat.ltb : simpl never.
#[local] Arguments Nat.leb : simpl never.

(** ** Well-formed checkpoints *)

Record attn_ok (cfg : Qwen3Config) (has_bias : bool) (a : MySpecAttention) : Prop := {
  ao_q : linear_ok has_bias (num_attention_heads cfg * head_dim cfg) (q_proj a);
  ao_k : linear_ok has_bias (num_key_value_heads cfg * head_dim cfg) (k_proj a);
  ao_v : linear_ok has_bias (num_key_value_heads cfg * head_dim cfg) (v_proj a);
  ao_kn : linear_ok has_bias (num_key_value_heads cfg * head_dim cfg) (k_proj_noise a);
  ao_vn : linear_ok has_bias (num_key_value_heads cfg * head_dim cfg) (v_proj_noise a);
  ao_qn : length (q_norm a) = head_dim cfg;
  ao_kno : length (k_norm a) = head_dim cfg;
  ao_full : sliding_window a = None
}.

Definition mlp_ok {A} (l : MySpecDecoderLayer A) : Prop :=
  ∃ size, linear_ok false size (gate_proj l) ∧ linear_ok false size (up_proj l).

Section layers.
Context `{!TorchLinear, !TorchLinearLaws, !Transformers} (theta : R) (cfg : Qwen3Config) `{!TransformersLaws theta cfg}.
Notation D := (head_dim cfg).
Notation nh := (num_attention_heads cfg).
Notation nkv := (num_key_value_heads cfg).
Notation norm w := (Qwen3RMSNorm w (rms_norm_eps cfg)).

(** Rotated, normed heads of rows at positions [ps]. *)
Definition heads_at (n : nat) (w : row) (ps : list nat) (ys : list row) : head_tensor :=
  zip_with rotate_token (normed_heads cfg n w ys) (rotary <$> ps).
Notation keys_at := (heads_at nkv).
Definition values (ys : list row) : head_tensor := split_heads D nkv <$> ys.

Lemma length_heads_at n w ps ys : length (heads_at n w ps ys) = Nat.min (length ys) (length ps).
Proof. unfold heads_at, normed_heads. by rewrite length_zip_with, !length_fmap. Qed.

Lemma heads_at_app n w ps ps' ys ys' : length ps = length ys →
  heads_at n w (ps ++ ps') (ys ++ ys') = heads_at n w ps ys ++ heads_at n w ps' ys'.
Proof.
  intros Hl. unfold heads_at, normed_heads. rewrite !fmap_app, zip_with_app by (by rewrite !length_fmap). done.
Qed.

Lemma heads_at_take n w k ps ys : take k (heads_at n w ps ys) = heads_at n w (take k ps) (take k ys).
Proof. unfold heads_at, normed_heads. by rewrite zip_with_take, !fmap_take. Qed.
Lemma heads_at_drop n w k ps ys : drop k (heads_at n w ps ys) = heads_at n w (drop k ps) (drop k ys).
Proof. unfold heads_at, normed_heads. by rewrite zip_with_drop, !fmap_drop. Qed.

(** The keys and values of a request's context. *)
Definition ctx_k (a : MySpecAttention) (X : list row) : head_tensor :=
  keys_at (k_norm a) (seq 0 (length X)) (linear (k_proj a) <$> X).
Definition ctx_v (a : MySpecAttention) (X : list row) : head_tensor := values (linear (v_proj a) <$> X).

Lemma length_ctx_k a X : length (ctx_k a X) = length X.
Proof. unfold ctx_k. rewrite length_heads_at, length_fmap, length_seq. lia. Qed.
Lemma length_ctx_v a X : length (ctx_v a X) = length X.
Proof. unfold ctx_v, values. by rewrite !length_fmap. Qed.

(** Attention of a block at [start] over the keys before it and its own. *)
Definition core (a : MySpecAttention) (h : list row) (start : nat) (kpre vpre : head_tensor) : list row :=
  let ps := seq start (length h) in
  linear (o_proj a) <$> (@concat R <$>
    attn_fn None false None (scaling cfg) (heads_at nh (q_norm a) ps (linear (q_proj a) <$> h))
      (kpre ++ keys_at (k_norm a) ps (linear (k_proj_noise a) <$> h))
      (vpre ++ values (linear (v_proj_noise a) <$> h))).

Lemma length_core a h start kpre vpre : length (core a h start kpre vpre) = length h.
Proof.
  unfold core. rewrite !length_fmap, (attn_fn_law (theta := theta) (cfg := cfg)), length_fmap, length_heads_at, length_fmap, length_seq. lia.
Qed.

(** The layer around its attention rows. *)
Definition layer_out {A} (l : MySpecDecoderLayer A) (attn : list row) (h : list row) : list row :=
  let s := zip_with vadd h attn in
  zip_with vadd s ((λ x, Qwen3MLP (gate_proj l) (up_proj l) (down_proj l) (norm (post_attention_layernorm l) x)) <$> s).

Lemma length_layer_out {A} (l : MySpecDecoderLayer A) attn h : length attn = length h → length (layer_out l attn h) = length h.
Proof. intros Hl. unfold layer_out. rewrite !length_zip_with, length_fmap, length_zip_with. lia. Qed.

Lemma residual_layer_eq {KV A} (l : MySpecDecoderLayer A) (f : list row → list row * option KV) h :
  residual_layer cfg l f h =
  (layer_out l (f (norm (input_layernorm l) <$> h)).1 h, (f (norm (input_layernorm l) <$> h)).2).
Proof. unfold residual_layer, layer_out. by destruct (f _). Qed.

(** *** The trained layers *)

Section trained.
Context {KV : Type} `{!DynamicCache KV, !DynamicCacheRows KV, !DynamicCacheRowsLaws KV}.

Lemma attend_ok a k v h ps past : sliding_window a = None →
  ∃ past',
    attend cfg a k v h (rotary <$> ps) None (Some past) =
      (linear (o_proj a) <$> (@concat R <$>
         attn_fn None false None (scaling cfg) (heads_at nh (q_norm a) (drop (length ps - length h) ps) (linear (q_proj a) <$> h))
           ((cache_rows (layer_idx a) past).1 ++ keys_at (k_norm a) ps k)
           ((cache_rows (layer_idx a) past).2 ++ values v)), Some past') ∧
    ∀ j, cache_rows j past' =
      if decide (j = layer_idx a)
      then ((cache_rows j past).1 ++ keys_at (k_norm a) ps k, (cache_rows j past).2 ++ values v)
      else cache_rows j past.
Proof.
  intros Hs. destruct (cache_update_law (layer_idx a) (keys_at (k_norm a) ps k) (values v) past) as (past' & E & Hrows).
  exists past'. split.
  - unfold attend, apply_rotary_pos_emb. fold (heads_at nkv (k_norm a) ps k). fold (values v). rewrite E, Hs.
    unfold normed_heads at 2. rewrite !length_fmap, <- fmap_drop.
    fold (heads_at nh (q_norm a) (drop (length ps - length h) ps) (linear (q_proj a) <$> h)).
    rewrite <- list_fmap_compose. done.
  - intros j. rewrite Hrows. destruct (decide (j = layer_idx a)) as [->|]; done.
Qed.

(** With the cached and the fresh part of the context in front, the keys are the context's, the
    latent tokens' and the block's. *)
Lemma ctx_split a X c mid midk blk blkk ps : c ≤ length X → length ps = length mid →
  midk = keys_at (k_norm a) ps mid → blkk = keys_at (k_norm a) (seq (length X) (length blk)) blk →
  take c (ctx_k a X) ++ keys_at (k_norm a) (seq c (length X - c) ++ ps ++ seq (length X) (length blk))
    ((linear (k_proj a) <$> drop c X) ++ mid ++ blk) = ctx_k a X ++ midk ++ blkk.
Proof.
  intros Hc Hps -> ->. rewrite heads_at_app by (by rewrite length_seq, length_fmap, length_drop).
  rewrite heads_at_app by done. rewrite app_assoc. f_equal. rewrite <- (take_drop c (ctx_k a X)) at 2. f_equal.
  unfold ctx_k. rewrite heads_at_drop, fmap_drop. f_equal.
  replace (length X) with (c + (length X - c)) at 2 by lia. by rewrite seq_app, drop_app_length' by (by rewrite length_seq).
Qed.

(** What a layer's call leaves of the invariant: its context is cached in front. *)
Definition cached (n : nat) (a : MySpecAttention) (X : list row) (j : nat) (past : KV) : Prop :=
  cache_rows j past = (take n (ctx_k a X), take n (ctx_v a X)).
Definition holds_ctx (a : MySpecAttention) (X : list row) (j : nat) (past : KV) : Prop :=
  take (length X) (cache_rows j past).1 = ctx_k a X ∧ take (length X) (cache_rows j past).2 = ctx_v a X.

Lemma attend_core a X c mid midv ps h past : sliding_window a = None → c ≤ length X → length ps = length mid →
  cached c a X (layer_idx a) past →
  ∃ past',
    attend cfg a ((linear (k_proj a) <$> drop c X) ++ mid ++ (linear (k_proj_noise a) <$> h))
      ((linear (v_proj a) <$> drop c X) ++ midv ++ (linear (v_proj_noise a) <$> h)) h
      (rotary <$> (seq c (length X - c) ++ ps ++ seq (length X) (length h))) None (Some past) =
    (core a h (length X) (ctx_k a X ++ keys_at (k_norm a) ps mid) (ctx_v a X ++ values midv), Some past') ∧
    holds_ctx a X (layer_idx a) past' ∧ (∀ j, j ≠ layer_idx a → cache_rows j past' = cache_rows j past).
Proof.
  intros Hs Hc Hps Hcache.
  set (K := (linear (k_proj a) <$> drop c X) ++ mid ++ (linear (k_proj_noise a) <$> h)).
  set (V := (linear (v_proj a) <$> drop c X) ++ midv ++ (linear (v_proj_noise a) <$> h)).
  set (P := seq c (length X - c) ++ ps ++ seq (length X) (length h)).
  destruct (attend_ok a K V h P past Hs) as (past' & E & Hrows).
  assert (EK : take c (ctx_k a X) ++ keys_at (k_norm a) P K = ctx_k a X ++ keys_at (k_norm a) ps mid ++
    keys_at (k_norm a) (seq (length X) (length h)) (linear (k_proj_noise a) <$> h)).
  { unfold P, K. replace (seq (length X) (length h)) with (seq (length X) (length (linear (k_proj_noise a) <$> h))) by (by rewrite length_fmap).
    by apply ctx_split. }
  assert (EV : take c (ctx_v a X) ++ values V = ctx_v a X ++ values midv ++ values (linear (v_proj_noise a) <$> h)).
  { unfold V, values. rewrite !fmap_app, app_assoc. f_equal. rewrite <- (take_drop c (ctx_v a X)) at 2. f_equal.
    unfold ctx_v, values. by rewrite !fmap_drop. }
  exists past'. split; [|split].
  - rewrite E. f_equal. unfold core. rewrite Hcache. cbn [fst snd]. rewrite EK, EV, <- !app_assoc. do 4 f_equal.
    unfold P. rewrite !length_app, !length_seq.
    replace (length X - c + (length ps + length h) - length h) with (length (seq c (length X - c) ++ ps)) by (rewrite length_app, length_seq; lia).
    by rewrite app_assoc, drop_app_length.
  - unfold holds_ctx. rewrite Hrows, decide_True, Hcache by done. cbn [fst snd]. rewrite EK, EV.
    split; [rewrite <- (length_ctx_k a X)|rewrite <- (length_ctx_v a X)]; apply take_app_length.
  - intros j Hj. by rewrite Hrows, decide_False.
Qed.
End trained.
(** *** The served layer *)

Section served.
Context (half : nat) (Hhalf : head_dim cfg = 2 * half).
(** The heads a token's projections give, in the trained terms. *)
Lemma token_trained n w p y : n * D ≤ length y → length w = D →
  token_rope theta half n w (rms_norm_eps cfg) p y =
  rotate_token ((Qwen3RMSNorm w (rms_norm_eps cfg)) <$> split_heads D n y) (rotary p).
Proof.
  intros Hy Hw. unfold token_rope, rotate_token. rewrite <- Hhalf, <- list_fmap_compose.
  pose proof (split_heads_lengths D n y Hy) as Hl. induction Hl as [|x xs Hx _ IH]; [done|]. rewrite !fmap_cons. f_equal; [|apply IH].
  unfold compose. rewrite (Qwen3RMSNorm_law (theta := theta) (cfg := cfg)).
  pose proof (rotary_trained theta half cfg p (rms_norm w (rms_norm_eps cfg) x) Hhalf) as E. rewrite <- Hhalf in E.
  apply E. rewrite length_rms_norm. lia.
Qed.

Lemma heads_at_tokens n w ps ys :
  length w = D → Forall (λ y, n * D ≤ length y) ys →
  heads_at n w ps ys = zip_with (λ y p, token_rope theta half n w (rms_norm_eps cfg) p y) ys ps.
Proof.
  intros Hw Hys. unfold heads_at, normed_heads. revert ps. induction Hys as [|y ys Hy _ IH]; intros [|p ps]; try done.
  cbn. rewrite token_trained by done. f_equal. apply IH.
Qed.

Context (dev : Device) (m : ServedModel).
Hypothesis Hhd : hd m = D.
Hypothesis Hnh : num_heads m = nh.
Hypothesis Hkv : num_kv_heads m = nkv.
Hypothesis Heps : eps m = rms_norm_eps cfg.
Hypothesis Htheta : rope_theta m = theta.
Hypothesis Hcausal : causal m = false.
Hypothesis Hgrid : ∀ l, grid_order dev l ≡ₚ l.
Hypothesis Horder : ∀ l, lane_order dev l ≡ₚ l.

(** The hidden rows two rails stand for. *)
Definition rails_ok (st : list row * option (list row)) : Prop :=
  match st.2 with Some r => length r = length st.1 | None => True end.
Definition total (st : list row * option (list row)) : list row :=
  match st.2 with Some r => zip_with vadd st.1 r | None => st.1 end.

Lemma rail_norm_total w e st : rails_ok st →
  rail_norm w e st.1 st.2 = (rms_norm w e <$> total st, total st).
Proof.
  destruct st as [hidden [r|]]; cbn [fst snd]; [|done]. unfold rails_ok, total, rail_norm. cbn. revert r.
  induction hidden as [|x hidden IH]; intros [|y r] Hr; try done. injection Hr as Hr. cbn.
  specialize (IH r Hr). injection IH as E1 E2. by rewrite E1, E2.
Qed.

Section layer.
Context (has_bias : bool) (a : MySpecAttention) (l : LatentSpecLayer).
Hypothesis Ha : attn_ok cfg has_bias a.
Hypothesis Hqkv : qkv_proj l = cat_linear (q_proj a) (cat_linear (k_proj_noise a) (v_proj_noise a)).
Hypothesis Hqn : qn_weight l = q_norm a.
Hypothesis Hkn : kn_weight l = k_norm a.

Lemma project_rows hs ps : length ps = length hs →
  let rows := zip_with (project_current dev m l) hs ps in
  split_heads D nh <$> ((λ x, x.1.1) <$> rows) = heads_at nh (q_norm a) ps (linear (q_proj a) <$> hs) ∧
  split_heads D nkv <$> ((λ x, x.1.2) <$> rows) = keys_at (k_norm a) ps (linear (k_proj_noise a) <$> hs) ∧
  split_heads D nkv <$> (snd <$> rows) = values (linear (v_proj_noise a) <$> hs).
Proof.
  intros Hl. destruct Ha as [Hq Hk Hv Hkn' Hvn Hqn' Hkno _].
  rewrite (heads_at_tokens nh (q_norm a)) by (done || (apply Forall_fmap, Forall_true; intros x; unfold compose; by rewrite (linear_length _ _ _ _ Hq))).
  rewrite (heads_at_tokens nkv (k_norm a)) by (done || (apply Forall_fmap, Forall_true; intros x; unfold compose; by rewrite (linear_length _ _ _ _ Hkn'))).
  unfold values. cbv zeta. revert ps Hl. induction hs as [|x hs IH]; intros [|p ps] Hl; try done. injection Hl as Hl.
  destruct (IH ps Hl) as (E1 & E2 & E3).
  assert (Elin : linear (qkv_proj l) x = linear (q_proj a) x ++ linear (k_proj_noise a) x ++ linear (v_proj_noise a) x).
  { rewrite Hqkv, (linear_cat has_bias _ _ _ _ _ Hq (cat_linear_ok _ _ _ _ _ Hkn' Hvn)). f_equal. by apply (linear_cat has_bias _ _ _ _ _ Hkn' Hvn). }
  destruct (project_current_ok dev m half ltac:(congruence) Horder l x p _ _ _ ltac:(congruence) ltac:(congruence) Elin) as (F1 & F2 & F3).
  { rewrite (linear_length _ _ _ _ Hq). congruence. }
  { rewrite (linear_length _ _ _ _ Hkn'). congruence. }
  rewrite Hhd, Hnh, Hqn, Heps, Htheta in F1. rewrite Hhd, Hkv, Hkn, Heps, Htheta in F2.
  cbn. rewrite F1, F2, F3. repeat split; f_equal; done.
Qed.
End layer.

Lemma mlp_trained {A} (lay : MySpecDecoderLayer A) (l : LatentSpecLayer) x : mlp_ok lay →
  gate_up_proj l = cat_linear (gate_proj lay) (up_proj lay) → down_proj_w l = DraftLayers.down_proj lay →
  mlp l x = Qwen3MLP (gate_proj lay) (up_proj lay) (DraftLayers.down_proj lay) x.
Proof.
  intros (size & Hg & Hu) E1 E2. rewrite (Qwen3MLP_law (theta := theta) (cfg := cfg)). unfold mlp, silu_and_mul.
  rewrite E1, E2, (linear_cat false size size) by done. f_equal.
  pose proof (linear_length _ _ _ x Hg) as Lg. pose proof (linear_length _ _ _ x Hu) as Lu.
  rewrite length_app, Lg, Lu. replace ((size + size) / 2) with size by (replace (size + size) with (size * 2) by lia; by rewrite Nat.div_mul).
  rewrite <- Lg at 1 2. by rewrite take_app_length, drop_app_length.
Qed.

Lemma zip_vadd_comm (x y : list row) : zip_with vadd x y = zip_with vadd y x.
Proof. revert y. induction x as [|a x IH]; intros [|b y]; try done. cbn. rewrite vadd_comm. f_equal. apply IH. Qed.

Section run.
Context (md : ForwardMetadata) (bs W : nat) (lens start : nat → nat) (slot : nat → nat → nat).
Hypothesis Hmd : stage_ok md bs W (lens <$> seq 0 bs) slot.
Hypothesis HW : 0 < W.
Context (has_bias : bool) {A : Type} (lay : MySpecDecoderLayer A) (a : MySpecAttention) (i : nat) (kvl : option Linear).
Hypothesis Ha : attn_ok cfg has_bias a.
Hypothesis Hmlp : mlp_ok lay.
Context (pool : KVPool) (kpre vpre : nat → head_tensor).
Hypothesis Hk : ∀ b, b < bs → (λ n, k_buffer pool i (slot b n)) <$> seq 0 (lens b) = kpre b.
Hypothesis Hv : ∀ b, b < bs → (λ n, v_buffer pool i (slot b n)) <$> seq 0 (lens b) = vpre b.

(** One served layer on a batch. *)
Lemma run_layer_ok st h :
  rails_ok st → total st = flat bs h → (∀ b, b < bs → length (h b) = W) →
  let st' := _run_layer dev m md pool (flat bs (λ b, seq (start b) W)) st (packed_layer i lay a kvl) in
  rails_ok st' ∧
  total st' = flat bs (λ b, layer_out lay (core a (norm (input_layernorm lay) <$> h b) (start b) (kpre b) (vpre b)) (h b)).
Proof.
  intros Hst Ht Hh. unfold _run_layer. rewrite rail_norm_total by done. rewrite Ht, flat_fmap. cbn [in_norm packed_layer].
  set (hn b := rms_norm (input_layernorm lay) (eps m) <$> h b).
  assert (Ehn : ∀ b, norm (input_layernorm lay) <$> h b = hn b).
  { intros b. unfold hn. apply list_fmap_ext. intros j x _. by rewrite (Qwen3RMSNorm_law (theta := theta) (cfg := cfg)), Heps. }
  assert (Lhn : ∀ b, b < bs → length (hn b) = W) by (intros b Hb; unfold hn; rewrite length_fmap; auto).
  rewrite flat_zip by (intros b Hb; rewrite Lhn, length_seq; done). rewrite !flat_fmap.
  set (l := packed_layer i lay a kvl). set (rows b := zip_with (project_current dev m l) (hn b) (seq (start b) W)).
  assert (Lrows : ∀ b, b < bs → length (rows b) = W) by (intros b Hb; unfold rows; rewrite length_zip_with, Lhn, length_seq by done; lia).
  rewrite (forward_extend_ok theta cfg dev m Hhd Hnh Hkv Hcausal Hgrid md bs W (lens <$> seq 0 bs) slot Hmd
    ltac:(by rewrite length_fmap, length_seq) HW (λ b, (λ x, x.1.1) <$> rows b) (λ b, (λ x, x.1.2) <$> rows b)
    (λ b, snd <$> rows b) pool l) by (intros b Hb; rewrite length_fmap; by apply Lrows).
  rewrite flat_fmap.
  rewrite (flat_ext bs _ (λ b, core a (norm (input_layernorm lay) <$> h b) (start b) (kpre b) (vpre b))).
  2: { intros b Hb. destruct (project_rows has_bias a l Ha eq_refl eq_refl eq_refl (hn b) (seq (start b) W)) as (E1 & E2 & E3).
       { by rewrite length_seq, Lhn. }
       fold (rows b) in E1, E2, E3. rewrite E1, E2, E3. unfold core. rewrite Ehn, Lhn by done.
       assert (El : ld (lens <$> seq 0 bs) b = lens b) by (unfold ld; by rewrite list_lookup_fmap, lookup_seq_lt).
       unfold pool_k, pool_v. rewrite El. cbn [layer_id l packed_layer out_proj]. by rewrite (Hk b Hb), (Hv b Hb). }
  set (attn b := core a (norm (input_layernorm lay) <$> h b) (start b) (kpre b) (vpre b)).
  assert (Lattn : ∀ b, b < bs → length (attn b) = W) by (intros b Hb; unfold attn; rewrite length_core, length_fmap; auto).
  set (st1 := (flat bs attn, Some (flat bs h))).
  assert (R1 : rails_ok st1) by (unfold rails_ok; cbn; by rewrite !(length_batch bs W)).
  pose proof (rail_norm_total (post_norm l) (eps m) st1 R1) as E. unfold st1 in E. cbn [fst snd] in E. rewrite E. cbn [fst snd].
  assert (Etot : total (flat bs attn, Some (flat bs h)) = flat bs (λ b, zip_with vadd (h b) (attn b))).
  { unfold total. cbn [fst snd]. rewrite flat_zip by (intros b Hb; by rewrite Lattn, Hh).
    apply flat_ext. intros b Hb. apply zip_vadd_comm. }
  rewrite Etot, !flat_fmap. split.
  - unfold rails_ok. cbn. rewrite !(length_batch bs W); [done|intros b Hb; rewrite ?length_fmap, length_zip_with, Hh, Lattn by done; lia..].
  - unfold total. cbn [fst snd]. rewrite flat_zip by (intros b Hb; by rewrite !length_fmap).
    apply flat_ext. intros b Hb. unfold layer_out. fold (attn b). rewrite zip_vadd_comm. f_equal.
    rewrite <- list_fmap_compose. apply list_fmap_ext. intros j x _. cbn.
    rewrite (mlp_trained lay l) by done. by rewrite (Qwen3RMSNorm_law (theta := theta) (cfg := cfg)), Heps.
Qed.
End run.
End served.
End layers.
