(* ===== verification/LatentForward.v ===== *)
(** * LatentForward: the served draft computes what was trained

    Composes [LatentStage], [LatentModel] and [LatentLayers]: over a batch of requests whose
    context is in the pool, [served_forward] of the packed checkpoint returns, request by
    request, the hidden rows that [forward_myspec_draft_block] computes with the checkpoint
    and the request's draft cache; both leave their context as the next call expects it. *)

From Stdlib Require Import Reals Lra.
From S2P Require Import Prelude TensorOps RealLaw LatentSampler RejectKernel SpecDecode SpecDecodeProps MySpecModel DraftOps ExtendAttention LatentStage DraftLayers LatentModel LatentRows LatentAttention LatentLayers.
#[local] Open Scope nat_scope.
#[local] Arguments Nat.ltb : simpl never.
#[local] Arguments Nat.leb : simpl never.
#[local] Arguments Nat.sub : simpl never.

(** ** The setting *)

(** The attentions of a checkpoint by layer index. *)
Definition attns (ck : Checkpoint) : list MySpecAttention :=
  (self_attn <$> ck_latent_layers ck) ++ ((λ l, mask_base (self_attn l)) <$> ck_layers ck).

Record checkpoint_ok (has_bias : bool) (half : nat) (ck : Checkpoint) : Prop := {
  co_dim : head_dim (ck_config ck) = 2 * half;
  co_latent_tokens : 0 < ck_num_latent_tokens ck ≤ ck_block_size ck;
  co_latent i l : ck_latent_layers ck !! i = Some l →
    attn_ok (ck_config ck) has_bias (self_attn l) ∧ layer_idx (self_attn l) = i ∧ mlp_ok l;
  co_layers i l : ck_layers ck !! i = Some l →
    attn_ok (ck_config ck) has_bias (mask_base (self_attn l)) ∧
    layer_idx (mask_base (self_attn l)) = length (ck_latent_layers ck) + i ∧ mlp_ok l ∧
    linear_ok has_bias (num_key_value_heads (ck_config ck) * head_dim (ck_config ck)) (k_proj_latent (self_attn l)) ∧
    linear_ok has_bias (num_key_value_heads (ck_config ck) * head_dim (ck_config ck)) (v_proj_latent (self_attn l));
  (** [torch.cat] of the proposal layers' weights needs one. *)
  co_some : ck_layers ck ≠ []
}.

(** A request being decoded at [rq_anchor], its token of position [rq_start]: the target hidden
    rows of the positions before, the draft cache of the evaluator with those of the first
    [rq_cached] of them, and the row of the served request in [req_to_token]. *)
Record DraftRequest (KV : Type) := {
  rq_anchor : nat;
  rq_start : nat;
  rq_hidden : list row;
  rq_cached : nat;
  rq_past : KV;
  rq_row : nat
}.
Arguments rq_anchor {KV} _.
Arguments rq_start {KV} _.
Arguments rq_hidden {KV} _.
Arguments rq_cached {KV} _.
Arguments rq_past {KV} _.
Arguments rq_row {KV} _.

Section forward.
Context `{!TorchLinear, !TorchLinearLaws, !Transformers} (theta : R) (ck : Checkpoint) `{!TransformersLaws theta (ck_config ck)}.
Context {KV : Type} `{!DynamicCache KV, !DynamicCacheRows KV, !DynamicCacheRowsLaws KV}.
Notation cfg := (ck_config ck).
Notation L := (ck_num_latent_tokens ck).
Notation B := (ck_block_size ck).
Notation n_lat := (length (ck_latent_layers ck)).

(** [hidden_norm(fc(target_hidden_states))]. *)
Definition context_hidden (T : list row) : list row :=
  (λ x, Qwen3RMSNorm (ck_hidden_norm ck) (rms_norm_eps cfg) (linear (ck_fc ck) x)) <$> T.

(** Every layer's draft cache is that of the first [n] context rows. *)
Definition draft_cached (n : nat) (T : list row) (past : KV) : Prop :=
  ∀ j a, attns ck !! j = Some a → cached cfg n a (context_hidden T) j past.

Record request_ok (N : nat) (r : DraftRequest KV) : Prop := {
  ro_hidden : length (rq_hidden r) = rq_start r;
  ro_cached : rq_cached r ≤ rq_start r;
  ro_room : rq_start r + B ≤ N;
  ro_past : draft_cached (rq_cached r) (rq_hidden r) (rq_past r)
}.

Context (bs : nat) (rq : nat → DraftRequest KV) (req_to_token : list (list nat)).
Notation start b := (rq_start (rq b)).
Notation X b := (context_hidden (rq_hidden (rq b))).

(** The slot of a position of a request. *)
Definition slot (b n : nat) : nat := ld (default [] (req_to_token !! rq_row (rq b))) n.

(** Every layer's context of every request is in the pool. *)
Definition pool_holds (pool : KVPool) : Prop :=
  ∀ j a b, attns ck !! j = Some a → b < bs →
    (λ n, k_buffer pool j (slot b n)) <$> seq 0 (start b) = ctx_k cfg a (X b) ∧
    (λ n, v_buffer pool j (slot b n)) <$> seq 0 (start b) = ctx_v cfg a (X b).

(** The slots of the latent tokens: the first of each request's draft block. *)
Definition latent_locs : list nat := flat bs (λ b, slot b <$> seq (start b) L).

(** No two latent tokens share a slot, and none has the slot of a context position. *)
Definition latent_slots_free : Prop :=
  NoDup latent_locs ∧ ∀ b n, b < bs → n < start b → slot b n ∉ latent_locs.

(** ** Writing the latent keys and values *)

Lemma store_rows_snoc buf loc rows s r : length loc = length rows →
  store_rows buf (loc ++ [s]) (rows ++ [r]) = λ s', if s' =? s then r else store_rows buf loc rows s'.
Proof. intros Hl. unfold store_rows. by rewrite zip_with_app, foldl_app by done. Qed.

Lemma store_rows_other buf loc rows s : s ∉ loc → store_rows buf loc rows s = buf s.
Proof.
  unfold store_rows. revert buf rows. induction loc as [|l loc IH]; intros buf [|r rows] Hs; [done..|].
  apply not_elem_of_cons in Hs as [Hne Hs]. cbn. rewrite IH by done. by rewrite (proj2 (Nat.eqb_neq s l)).
Qed.

Lemma store_rows_at buf loc rows j s r :
  NoDup loc → loc !! j = Some s → rows !! j = Some r → store_rows buf loc rows s = r.
Proof.
  unfold store_rows. revert buf rows j. induction loc as [|l loc IH]; intros buf [|r' rows] [|j] Hnd Hl Hr; try done.
  - injection Hl as ->. injection Hr as ->. apply NoDup_cons in Hnd as [Hnd _]. cbn.
    fold (store_rows (λ s', if s' =? s then r else buf s') loc rows). rewrite store_rows_other by done. by rewrite Nat.eqb_refl.
  - apply NoDup_cons in Hnd as [_ Hnd]. cbn. by eapply IH.
Qed.

(** The slots of context and latent tokens after writing [rows] at the latent slots. *)
Lemma stored_prefix buf (rows : nat → head_tensor) b : latent_slots_free → b < bs →
  (∀ b, b < bs → length (rows b) = L) →
  (λ n, store_rows buf latent_locs (flat bs rows) (slot b n)) <$> seq 0 (start b + L) =
  ((λ n, buf (slot b n)) <$> seq 0 (start b)) ++ rows b.
Proof.
  intros [Hnd Hfree] Hb Hrows. rewrite seq_app, fmap_app. f_equal.
  - apply list_fmap_ext. intros i n Hn. apply lookup_seq in Hn as [-> Hn]. by rewrite store_rows_other by (apply Hfree; lia).
  - apply list_eq. intros j. rewrite list_lookup_fmap. destruct (decide (j < L)) as [Hj|].
    2: { by rewrite lookup_seq_ge, lookup_ge_None_2 by (rewrite ?Hrows; lia). }
    destruct (lookup_lt_is_Some_2 (rows b) j ltac:(rewrite Hrows; lia)) as [r Hr].
    rewrite lookup_seq_lt, Hr by done. cbn. f_equal. apply (store_rows_at _ _ _ (b * L + j)); [done|..].
    + unfold latent_locs. rewrite (batch_lookup bs L) by (done || lia || (intros; by rewrite length_fmap, length_seq)).
      by rewrite list_lookup_fmap, lookup_seq_lt.
    + by rewrite (batch_lookup bs L).
Qed.

Lemma pool_holds_write pool lid k v : latent_slots_free → pool_holds pool →
  pool_holds (set_kv_buffer pool lid latent_locs k v).
Proof.
  intros [_ Hfree] Hp j a b Hj Hb. destruct (Hp j a b Hj Hb) as [<- <-]. cbn.
  split; (apply list_fmap_ext; intros i n Hn; apply lookup_seq in Hn as [-> Hn]; cbn [Nat.add];
          destruct (j =? lid); [|done]; by apply store_rows_other, Hfree).
Qed.
(** ** Running the layers *)

Lemma fin_choice {Y} (y0 : Y) n (P : nat → Y → Prop) :
  (∀ b, b < n → ∃ y, P b y) → ∃ f, ∀ b, b < n → P b (f b).
Proof.
  induction n as [|n IH]; intros Hp; [exists (λ _, y0); intros; lia|].
  destruct IH as [f Hf]; [intros b Hb; apply Hp; lia|]. destruct (Hp n ltac:(lia)) as [y Hy].
  exists (λ b, if b =? n then y else f b). intros b Hb. destruct (Nat.eqb_spec b n) as [->|]; [done|]. apply Hf. lia.
Qed.

Context (has_bias : bool) (half N : nat).
Hypothesis Hck : checkpoint_ok has_bias half ck.
Hypothesis Hrq : ∀ b, b < bs → request_ok N (rq b).
Notation cached_len b := (rq_cached (rq b)).

Lemma length_X b : b < bs → length (X b) = start b.
Proof. intros Hb. unfold context_hidden. by rewrite length_fmap, (ro_hidden _ _ (Hrq b Hb)). Qed.

(** While the layers run: the first [k] have their context and more, the others what they had. *)
Definition running (k b : nat) (past : KV) : Prop :=
  ∀ j a, attns ck !! j = Some a →
    if decide (j < k) then holds_ctx cfg a (X b) j past else cached cfg (cached_len b) a (X b) j past.

Lemma running_0 b : b < bs → running 0 b (rq_past (rq b)).
Proof. intros Hb j a Hj. rewrite decide_False by lia. by apply (ro_past _ _ (Hrq b Hb)). Qed.

Lemma running_step k b a past past' : attns ck !! k = Some a → running k b past →
  holds_ctx cfg a (X b) k past' → (∀ j, j ≠ k → cache_rows j past' = cache_rows j past) → running (S k) b past'.
Proof.
  intros Ha Hr Hh Hother j a' Hj. destruct (decide (j = k)) as [->|Hne].
  - rewrite decide_True by lia. by simplify_eq.
  - specialize (Hr j a' Hj). unfold holds_ctx, cached in *. rewrite Hother by done.
    destruct (decide (j < k)); [rewrite decide_True by lia|rewrite decide_False by lia]; done.
Qed.

(** Cropping gives the next call its cache. *)
Lemma running_crop b past : b < bs → running (length (attns ck)) b past →
  draft_cached (start b) (rq_hidden (rq b)) (crop_cache (start b) past).
Proof.
  intros Hb Hr j a Hj. specialize (Hr j a Hj). rewrite decide_True in Hr by (by eapply lookup_lt_Some).
  unfold cached. rewrite cache_crop_law. destruct Hr as [E1 E2]. rewrite <- (length_X b) by done. rewrite E1, E2.
  by rewrite !firstn_all2 by (by rewrite ?length_ctx_k, ?length_ctx_v).
Qed.

Lemma latent_layer_step lay k b h past :
  b < bs → attns ck !! k = Some (self_attn lay) → layer_idx (self_attn lay) = k → attn_ok cfg has_bias (self_attn lay) →
  length h = L → running k b past →
  ∃ past',
    latent_decoder_layer cfg lay h (drop (cached_len b) (X b)) None
      (seq (cached_len b) (start b - cached_len b) ++ seq (start b) L)
      (rotary <$> (seq (cached_len b) (start b - cached_len b) ++ seq (start b) L)) (Some past) =
    (layer_out cfg lay (core cfg (self_attn lay) (Qwen3RMSNorm (input_layernorm lay) (rms_norm_eps cfg) <$> h) (start b)
       (ctx_k cfg (self_attn lay) (X b)) (ctx_v cfg (self_attn lay) (X b))) h, Some past') ∧
    running (S k) b past'.
Proof.
  intros Hb Ha Hidx Hok Hh Hr. pose proof (Hr k _ Ha) as Hc. rewrite decide_False in Hc by lia. subst k.
  set (hn := Qwen3RMSNorm (input_layernorm lay) (rms_norm_eps cfg) <$> h).
  destruct (attend_core cfg (self_attn lay) (X b) (cached_len b) [] [] [] hn past (ao_full _ _ _ Hok)) as (past' & E & Hh' & Hother).
  { rewrite length_X by done. apply (ro_cached _ _ (Hrq b Hb)). }
  { done. }
  { done. }
  exists past'. split; [|by eapply running_step].
  unfold latent_decoder_layer. rewrite residual_layer_eq. fold hn. unfold latent_attention.
  replace L with (length hn) by (unfold hn; by rewrite length_fmap). cbn [app] in E. rewrite length_X in E by done. rewrite E.
  cbn [fst snd]. unfold heads_at, values. cbn. by rewrite !app_nil_r.
Qed.

Lemma mask_layer_step lay k b lat h past :
  b < bs → attns ck !! k = Some (mask_base (self_attn lay)) → layer_idx (mask_base (self_attn lay)) = k →
  attn_ok cfg has_bias (mask_base (self_attn lay)) → length lat = L → length h = B → running k b past →
  let a := mask_base (self_attn lay) in
  let ps := seq (cached_len b) (start b - cached_len b) ++ seq (start b) L ++ seq (start b) B in
  ∃ past',
    mask_decoder_layer cfg lay h (drop (cached_len b) (X b)) lat None ps (rotary <$> ps) (Some past) =
    (layer_out cfg lay (core cfg a (Qwen3RMSNorm (input_layernorm lay) (rms_norm_eps cfg) <$> h) (start b)
       (ctx_k cfg a (X b) ++ heads_at cfg (num_key_value_heads cfg) (k_norm a) (seq (start b) L) (linear (k_proj_latent (self_attn lay)) <$> lat))
       (ctx_v cfg a (X b) ++ values cfg (linear (v_proj_latent (self_attn lay)) <$> lat))) h, Some past') ∧
    running (S k) b past'.
Proof.
  intros Hb Ha Hidx Hok Hlat Hh Hr a ps. pose proof (Hr k _ Ha) as Hc. rewrite decide_False in Hc by lia. subst k.
  set (hn := Qwen3RMSNorm (input_layernorm lay) (rms_norm_eps cfg) <$> h).
  destruct (attend_core cfg a (X b) (cached_len b) (linear (k_proj_latent (self_attn lay)) <$> lat)
    (linear (v_proj_latent (self_attn lay)) <$> lat) (seq (start b) L) hn past (ao_full _ _ _ Hok)) as (past' & E & Hh' & Hother).
  { rewrite length_X by done. apply (ro_cached _ _ (Hrq b Hb)). }
  { by rewrite length_seq, length_fmap. }
  { done. }
  exists past'. split; [|by eapply running_step].
  unfold mask_decoder_layer. rewrite residual_layer_eq. fold hn. unfold mask_attention, cat_rows. fold a.
  unfold ps. replace B with (length hn) by (unfold hn; by rewrite length_fmap). rewrite length_X in E by done. by rewrite E.
Qed.
(** ** The two stages *)

Context (dev : Device) (fused : bool) (is_causal : option bool).
Hypothesis Hcausal : is_causal ≠ Some true.
Hypothesis Hgrid : ∀ l, grid_order dev l ≡ₚ l.
Hypothesis Horder : ∀ l, lane_order dev l ≡ₚ l.
Notation m := (packed_model ck theta fused is_causal).

Lemma not_causal : causal m = false.
Proof. unfold causal. cbn. by destruct is_causal as [[]|]. Qed.

(** One served layer of the loaded model. *)
Lemma served_layer md W lens {A} (lay : MySpecDecoderLayer A) a i kvl pool kpre vpre st h :
  stage_ok md bs W (lens <$> seq 0 bs) slot → 0 < W → attn_ok cfg has_bias a → mlp_ok lay →
  (∀ b, b < bs → (λ n, k_buffer pool i (slot b n)) <$> seq 0 (lens b) = kpre b) →
  (∀ b, b < bs → (λ n, v_buffer pool i (slot b n)) <$> seq 0 (lens b) = vpre b) →
  rails_ok st → total st = flat bs h → (∀ b, b < bs → length (h b) = W) →
  let st' := _run_layer dev m md pool (flat bs (λ b, seq (start b) W)) st (packed_layer i lay a kvl) in
  rails_ok st' ∧
  total st' = flat bs (λ b, layer_out cfg lay
    (core cfg a (Qwen3RMSNorm (input_layernorm lay) (rms_norm_eps cfg) <$> h b) (start b) (kpre b) (vpre b)) (h b)).
Proof.
  intros. apply (run_layer_ok theta cfg half (co_dim _ _ _ Hck) dev m) with (lens := lens) (slot := slot) (has_bias := has_bias); try done.
  apply not_causal.
Qed.

Lemma length_block_out {A} (lay : MySpecDecoderLayer A) a h s kpre vpre W : length h = W →
  length (layer_out cfg lay (core cfg a (Qwen3RMSNorm (input_layernorm lay) (rms_norm_eps cfg) <$> h) s kpre vpre) h) = W.
Proof. intros <-. apply length_layer_out. by rewrite (length_core theta), length_fmap. Qed.

Definition latent_fold b (hp : list row * option KV) (layers : list (latent_layer_over row KV (list (row * row)))) :=
  let ps := seq (cached_len b) (start b - cached_len b) ++ seq (start b) L in
  foldl (λ '(h, past) layer, layer h (drop (cached_len b) (X b)) None ps (rotary <$> ps) past) hp layers.

Lemma latent_stage md pool ls : ∀ o h past st,
  stage_ok md bs L ((λ b, start b) <$> seq 0 bs) slot → pool_holds pool →
  (∀ i lay, ls !! i = Some lay → attns ck !! (o + i) = Some (self_attn lay) ∧
     attn_ok cfg has_bias (self_attn lay) ∧ layer_idx (self_attn lay) = o + i ∧ mlp_ok lay) →
  (∀ b, b < bs → length (h b) = L ∧ running o b (past b)) → rails_ok st → total st = flat bs h →
  let st' := foldl (_run_layer dev m md pool (flat bs (λ b, seq (start b) L))) st
               (imap (λ i l, packed_layer (o + i) l (self_attn l) None) ls) in
  ∃ h' past',
    (∀ b, b < bs → latent_fold b (h b, Some (past b)) (latent_decoder_layer cfg <$> ls) = (h' b, Some (past' b)) ∧
       length (h' b) = L ∧ running (o + length ls) b (past' b)) ∧
    rails_ok st' ∧ total st' = flat bs h'.
Proof.
  induction ls as [|lay ls IH]; intros o h past st Hmd Hpool Hls Hh Hst Ht.
  { exists h, past. cbn. rewrite Nat.add_0_r. split; [|done]. intros b Hb. by destruct (Hh b Hb). }
  destruct (Hls 0 lay eq_refl) as (Ha & Hok & Hidx & Hmlp). rewrite Nat.add_0_r in Ha, Hidx.
  cbn [imap foldl]. rewrite Nat.add_0_r.
  destruct (served_layer md L (λ b, start b) lay (self_attn lay) o None pool (λ b, ctx_k cfg (self_attn lay) (X b))
    (λ b, ctx_v cfg (self_attn lay) (X b)) st h) as [Hst1 Ht1]; try done.
  { apply (co_latent_tokens _ _ _ Hck). }
  { intros b Hb. by apply (Hpool o (self_attn lay) b). }
  { intros b Hb. by apply (Hpool o (self_attn lay) b). }
  { intros b Hb. by apply (Hh b). }
  set (st1 := _run_layer _ _ _ _ _ st _) in *. set (h1 b := layer_out _ _ _ _) in Ht1.
  destruct (fin_choice (past 0) bs (λ b p, latent_fold b (h b, Some (past b)) [latent_decoder_layer cfg lay] = (h1 b, Some p) ∧ running (S o) b p))
    as [past1 Hpast1].
  { intros b Hb. destruct (Hh b Hb) as [Hlen Hrun].
    destruct (latent_layer_step lay o b (h b) (past b) Hb Ha Hidx Hok Hlen Hrun) as (p & E & Hp). by exists p. }
  destruct (IH (S o) h1 past1 st1) as (h' & past' & Htr & Hst' & Ht'); try done.
  { intros i l Hi. specialize (Hls (S i) l Hi). by rewrite Nat.add_succ_r in Hls. }
  { intros b Hb. split; [|by apply Hpast1]. unfold h1. apply length_block_out. by apply (Hh b). }
  exists h', past'. split.
  - intros b Hb. destruct (Htr b Hb) as (E & Hl & Hr). destruct (Hpast1 b Hb) as [E1 _]. split; [|split; [done|]].
    + unfold latent_fold in *. rewrite fmap_cons. cbn [foldl] in *. by rewrite E1.
    + cbn [length]. by rewrite Nat.add_succ_r.
  - rewrite (imap_ext _ (λ i l, packed_layer (S o + i) l (self_attn l) None)); [done|].
    intros i l _. unfold compose. by rewrite Nat.add_succ_r.
Qed.
(** *** The latent keys and values of a proposal layer *)

Notation nkv := (num_key_value_heads cfg).
Notation D := (head_dim cfg).
Definition lat_k (a : MySpecMaskAttention) (lat : list row) (s : nat) : head_tensor :=
  heads_at cfg nkv (k_norm (mask_base a)) (seq s L) (linear (k_proj_latent a) <$> lat).
Definition lat_v (a : MySpecMaskAttention) (lat : list row) : head_tensor :=
  values cfg (linear (v_proj_latent a) <$> lat).

Lemma latent_kv_ok i lay : ck_layers ck !! i = Some lay →
  linear_ok has_bias (nkv * D + nkv * D) (latent_kv_of (self_attn lay)).
Proof. intros Hi. destruct (co_layers _ _ _ Hck i lay Hi) as (_ & _ & _ & Hk & Hv). by apply cat_linear_ok. Qed.

Lemma prepare_rows i lay l hs ps : ck_layers ck !! i = Some lay → kn_weight l = k_norm (mask_base (self_attn lay)) →
  length ps = length hs →
  let rows := zip_with (prepare_latent_kv dev m l) (linear (latent_kv_of (self_attn lay)) <$> hs) ps in
  (λ x, split_heads D nkv x.1) <$> rows =
    heads_at cfg nkv (k_norm (mask_base (self_attn lay))) ps (linear (k_proj_latent (self_attn lay)) <$> hs) ∧
  (λ x, split_heads D nkv x.2) <$> rows = values cfg (linear (v_proj_latent (self_attn lay)) <$> hs).
Proof.
  intros Hi Hkn Hl. destruct (co_layers _ _ _ Hck i lay Hi) as (Ha & _ & _ & Hk & Hv).
  pose proof (co_dim _ _ _ Hck) as Hdim. pose proof (ao_kno _ _ _ Ha) as Hw.
  rewrite (heads_at_tokens theta cfg half Hdim)
    by (done || (apply Forall_fmap, Forall_true; intros x; unfold compose; by rewrite (linear_length _ _ _ _ Hk))).
  unfold values. cbv zeta. revert ps Hl. induction hs as [|x hs IH]; intros [|p ps] Hl; try done. injection Hl as Hl.
  destruct (IH ps Hl) as (E1 & E2). unfold latent_kv_of in *.
  destruct (prepare_latent_kv_ok dev m half Hdim Horder l
    (linear (cat_linear (k_proj_latent (self_attn lay)) (v_proj_latent (self_attn lay))) x) p
    (linear (k_proj_latent (self_attn lay)) x) (linear (v_proj_latent (self_attn lay)) x)) as (F1 & F2).
  { rewrite Hkn. exact Hw. }
  { by rewrite (linear_cat has_bias _ _ _ _ _ Hk Hv). }
  { by rewrite (linear_length _ _ _ _ Hk). }
  rewrite Hkn in F1. change (num_kv_heads m) with nkv in F1. change (hd m) with D in F1.
  change (rope_theta m) with theta in F1. change (eps m) with (rms_norm_eps cfg) in F1.
  rewrite !fmap_cons. cbn [zip_with]. rewrite !fmap_cons. split; f_equal; [exact F1|exact E1|by rewrite F2|exact E2].
Qed.

(** The stacked projection of a latent row, layer by layer. *)
Lemma stacked_ok : ck_layers ck ≠ [] →
  ∃ w, _stacked_latent_kv m = Some w ∧
    ∀ i lay x, ck_layers ck !! i = Some lay →
      let width := length (linear w x) / length (ck_layers ck) in
      take width (drop (i * width) (linear w x)) = linear (latent_kv_of (self_attn lay)) x.
Proof.
  intros Hne. set (ls := (λ l, latent_kv_of (self_attn l)) <$> ck_layers ck).
  assert (Hls : Forall (linear_ok has_bias (nkv * D + nkv * D)) ls).
  { apply Forall_fmap, Forall_lookup_2. intros i lay Hi. by eapply latent_kv_ok. }
  assert (Hne' : ls ≠ []) by (unfold ls; by destruct (ck_layers ck)).
  destruct (stack_linear_ok has_bias (nkv * D + nkv * D) ls [] Hls Hne') as (w & Hw & _). exists w. split; [exact Hw|].
  intros i lay x Hi. destruct (stack_linear_ok has_bias (nkv * D + nkv * D) ls x Hls Hne') as (w' & Hw' & E).
  assert (w' = w) as -> by congruence. rewrite E.
  assert (Hlen : Forall (λ l : row, length l = nkv * D + nkv * D) ((λ l, linear l x) <$> ls)).
  { apply Forall_fmap. eapply Forall_impl; [exact Hls|]. intros l Hl. by apply (linear_length has_bias). }
  rewrite (length_concat_const (nkv * D + nkv * D)), length_fmap by done.
  assert (Els : length ls = length (ck_layers ck)) by apply length_fmap. rewrite Els, (Nat.mul_comm (length _)), Nat.div_mul by (by destruct (ck_layers ck)).
  apply chunk_concat; [done|]. unfold ls. by rewrite !list_lookup_fmap, Hi.
Qed.

Lemma write_latent_ok i lay kvl lat pool w : ck_layers ck !! i = Some lay → _stacked_latent_kv m = Some w →
  (∀ x, let width := length (linear w x) / length (ck_layers ck) in
     take width (drop (i * width) (linear w x)) = linear (latent_kv_of (self_attn lay)) x) →
  (∀ b, b < bs → length (lat b) = L) →
  _write_latent_kv dev m (packed_layer (n_lat + i) lay (mask_base (self_attn lay)) kvl) (flat bs lat)
    (flat bs (λ b, seq (start b) L)) latent_locs
    (Some ((λ x : row, take (length x / length (ck_layers ck)) (drop (i * (length x / length (ck_layers ck))) x)) <$>
            (linear w <$> flat bs lat))) pool =
  set_kv_buffer pool (n_lat + i) latent_locs
    (flat bs (λ b, lat_k (self_attn lay) (lat b) (start b))) (flat bs (λ b, lat_v (self_attn lay) (lat b))).
Proof.
  intros Hi Hw Hslice Hlat. unfold _write_latent_kv. cbn [layer_id packed_layer].
  rewrite <- list_fmap_compose.
  rewrite (list_fmap_ext _ (linear (latent_kv_of (self_attn lay))) (flat bs lat)) by (intros j x _; apply Hslice).
  rewrite flat_fmap, flat_zip by (intros b Hb; rewrite length_fmap, length_seq; auto). rewrite !flat_fmap.
  f_equal; apply flat_ext; intros b Hb;
    destruct (prepare_rows i lay (packed_layer (n_lat + i) lay (mask_base (self_attn lay)) kvl) (lat b) (seq (start b) L) Hi eq_refl
      ltac:(rewrite length_seq; symmetry; auto)) as [E1 E2]; done.
Qed.

Definition mask_fold b (lat : list row) (hp : list row * option KV) (layers : list (mask_layer_over row KV (list (row * row)))) :=
  let ps := seq (cached_len b) (start b - cached_len b) ++ seq (start b) L ++ seq (start b) B in
  foldl (λ '(h, past) layer, layer h (drop (cached_len b) (X b)) lat None ps (rotary <$> ps) past) hp layers.

Lemma mask_stage md w lat ls : ∀ o h past st pool,
  stage_ok md bs B ((λ b, start b + L) <$> seq 0 bs) slot → pool_holds pool → latent_slots_free →
  _stacked_latent_kv m = Some w →
  (∀ i lay x, ck_layers ck !! i = Some lay →
     let width := length (linear w x) / length (ck_layers ck) in
     take width (drop (i * width) (linear w x)) = linear (latent_kv_of (self_attn lay)) x) →
  (∀ b, b < bs → length (lat b) = L) →
  (∀ i lay, ls !! i = Some lay → ck_layers ck !! (o + i) = Some lay) →
  (∀ b, b < bs → length (h b) = B ∧ running (n_lat + o) b (past b)) → rails_ok st → total st = flat bs h →
  let st' := foldl (proposal_step dev m md (length (ck_layers ck)) (flat bs lat) (flat bs (λ b, seq (start b) L)) latent_locs
                      (flat bs (λ b, seq (start b) B)) (Some (linear w <$> flat bs lat))) (pool, st)
               (zip (seq o (length ls))
                  (imap (λ i l, packed_layer (n_lat + (o + i)) l (mask_base (self_attn l)) (Some (latent_kv_of (self_attn l)))) ls)) in
  ∃ h' past',
    (∀ b, b < bs → mask_fold b (lat b) (h b, Some (past b)) (mask_decoder_layer cfg <$> ls) = (h' b, Some (past' b)) ∧
       length (h' b) = B ∧ running (n_lat + (o + length ls)) b (past' b)) ∧
    rails_ok st'.2 ∧ total st'.2 = flat bs h' ∧ pool_holds st'.1.
Proof.
  induction ls as [|lay ls IH]; intros o h past st pool Hmd Hpool Hfree Hw Hslice Hlat Hls Hh Hst Ht.
  { exists h, past. cbn. rewrite Nat.add_0_r. split; [|done]. intros b Hb. by destruct (Hh b Hb). }
  pose proof (Hls 0 lay eq_refl) as Hi. rewrite Nat.add_0_r in Hi.
  destruct (co_layers _ _ _ Hck o lay Hi) as (Hok & Hidx & Hmlp & _).
  assert (Ha : attns ck !! (n_lat + o) = Some (mask_base (self_attn lay))).
  { unfold attns. rewrite lookup_app_r by (rewrite length_fmap; lia).
    rewrite length_fmap, list_lookup_fmap. replace (n_lat + o - n_lat) with o by lia. by rewrite Hi. }
  cbn [imap length seq zip zip_with foldl]. rewrite Nat.add_0_r.
  set (kvl := Some (latent_kv_of (self_attn lay))). set (l := packed_layer (n_lat + o) lay (mask_base (self_attn lay)) kvl).
  set (pool1 := set_kv_buffer pool (n_lat + o) latent_locs
    (flat bs (λ b, lat_k (self_attn lay) (lat b) (start b))) (flat bs (λ b, lat_v (self_attn lay) (lat b)))).
  set (st1 := _run_layer dev m md pool1 (flat bs (λ b, seq (start b) B)) st l).
  assert (Estep : proposal_step dev m md (length (ck_layers ck)) (flat bs lat) (flat bs (λ b, seq (start b) L)) latent_locs
    (flat bs (λ b, seq (start b) B)) (Some (linear w <$> flat bs lat)) (pool, st) (o, l) = (pool1, st1)).
  { unfold proposal_step, st1. cbn [fst snd]. unfold l, kvl.
    by rewrite (write_latent_ok o lay (Some (latent_kv_of (self_attn lay))) lat pool w Hi Hw) by (try done; intros x; by apply Hslice). }
  rewrite Estep. clear Estep.
  assert (Hpool1 : pool_holds pool1) by (by apply pool_holds_write).
  destruct (served_layer md B (λ b, start b + L) lay (mask_base (self_attn lay)) (n_lat + o) kvl pool1
    (λ b, ctx_k cfg (mask_base (self_attn lay)) (X b) ++ lat_k (self_attn lay) (lat b) (start b))
    (λ b, ctx_v cfg (mask_base (self_attn lay)) (X b) ++ lat_v (self_attn lay) (lat b)) st h) as [Hst1 Ht1]; try done.
  { pose proof (co_latent_tokens _ _ _ Hck). lia. }
  { intros b Hb. destruct (Hpool (n_lat + o) _ b Ha Hb) as [<- _]. unfold pool1. cbn [k_buffer set_kv_buffer]. rewrite Nat.eqb_refl.
    apply (stored_prefix _ (λ b, lat_k (self_attn lay) (lat b) (start b)) b); [done..|]. intros b' Hb'. unfold lat_k. rewrite length_heads_at, length_fmap, length_seq, Hlat by done. lia. }
  { intros b Hb. destruct (Hpool (n_lat + o) _ b Ha Hb) as [_ <-]. unfold pool1. cbn [v_buffer set_kv_buffer]. rewrite Nat.eqb_refl.
    apply (stored_prefix _ (λ b, lat_v (self_attn lay) (lat b)) b); [done..|]. intros b' Hb'. unfold lat_v, values. rewrite !length_fmap. auto. }
  { intros b Hb. by apply (Hh b). }
  fold l st1 in Hst1, Ht1. set (h1 b := layer_out _ _ _ _) in Ht1.
  destruct (fin_choice (past 0) bs (λ b p, mask_fold b (lat b) (h b, Some (past b)) [mask_decoder_layer cfg lay] = (h1 b, Some p) ∧ running (S (n_lat + o)) b p))
    as [past1 Hpast1].
  { intros b Hb. destruct (Hh b Hb) as [Hlen Hrun].
    destruct (mask_layer_step lay (n_lat + o) b (lat b) (h b) (past b) Hb Ha Hidx Hok (Hlat b Hb) Hlen Hrun) as (p & E & Hp). by exists p. }
  destruct (IH (S o) h1 past1 st1 pool1) as (h' & past' & Htr & Hst' & Ht' & Hp'); try done.
  { intros i l' Hi'. specialize (Hls (S i) l' Hi'). by rewrite Nat.add_succ_r in Hls. }
  { intros b Hb. split; [unfold h1; apply length_block_out; by apply (Hh b)|]. rewrite Nat.add_succ_r. by apply Hpast1. }
  exists h', past'. split.
  - intros b Hb. destruct (Htr b Hb) as (E & Hl & Hr). destruct (Hpast1 b Hb) as [E1 _]. split; [|split; [done|]].
    + unfold mask_fold in *. rewrite fmap_cons. cbn [foldl] in *. by rewrite E1.
    + by rewrite Nat.add_succ_r.
  - rewrite (imap_ext _ (λ i l, packed_layer (n_lat + (S o + i)) l (mask_base (self_attn l)) (Some (latent_kv_of (self_attn l))))); [done|].
    intros i l' _. unfold compose. by rewrite Nat.add_succ_r.
Qed.
(** ** The whole call *)

(** The batch the worker hands to the draft model. *)
Definition block_ids (b : nat) : list nat := rq_anchor (rq b) :: replicate (B - 1) (ck_mask_token_id ck).
Definition batch_ids : list nat := flat bs block_ids.
Definition batch_positions : list nat := flat bs (λ b, seq (start b) B).
Definition batch_locs : list nat := flat bs (λ b, slot b <$> seq (start b) B).
Definition batch_seq_lens : list nat := (λ b, start b) <$> seq 0 bs.
Definition batch_rows_ids : list nat := (λ b, rq_row (rq b)) <$> seq 0 bs.

Lemma stage_slots md W lens : 
  stage_ok md bs W lens (λ b n, ld (default [] (req_to_token !! ld batch_rows_ids b)) n) → stage_ok md bs W lens slot.
Proof.
  intros [? ? ? ? Hs]. split; try done. intros b n Hb Hn. rewrite Hs by done. unfold slot. do 3 f_equal.
  unfold batch_rows_ids, ld. by rewrite list_lookup_fmap, lookup_seq_lt.
Qed.

Lemma seq_shift s n : (λ o, s + o) <$> seq 0 n = seq s n.
Proof. etrans; [apply (fmap_add_seq s 0 n)|]. by rewrite Nat.add_0_r. Qed.

Lemma flat_compose {A C} (f : A → list C) (g : nat → A) : concat (f <$> (g <$> seq 0 bs)) = flat bs (λ b, f (g b)).
Proof. unfold flat. by rewrite <- list_fmap_compose. Qed.

Lemma final_rail_ok w st h : rails_ok st → total st = flat bs h →
  final_rail m w st = flat bs (λ b, Qwen3RMSNorm w (rms_norm_eps cfg) <$> h b).
Proof.
  intros Hst Ht. unfold final_rail. rewrite rail_norm_total, Ht, flat_fmap by done. cbn [fst]. apply flat_ext. intros b _.
  apply list_fmap_ext. intros i x _. by rewrite (Qwen3RMSNorm_law (theta := theta) (cfg := cfg)).
Qed.

Lemma replace_first (n x y : nat) : 0 < n → <[0 := x]> (replicate n y) = x :: replicate (n - 1) y.
Proof. destruct n; [lia|]. intros _. replace (S n - 1) with n by lia. done. Qed.

(** The trained call, stage by stage. *)
Lemma trained_stages b lat h past1 past2 : b < bs →
  latent_fold b (ck_embed_tokens ck <$> <[0 := rq_anchor (rq b)]> (replicate L (ck_latent_token_id ck)), Some (rq_past (rq b)))
    (latent_decoder_layer cfg <$> ck_latent_layers ck) = (lat, Some past1) →
  mask_fold b (Qwen3RMSNorm (ck_latent_hidden_norm ck) (rms_norm_eps cfg) <$> lat)
    (ck_embed_tokens ck <$> block_ids b, Some past1) (mask_decoder_layer cfg <$> ck_layers ck) = (h, Some past2) →
  trained_draft_block ck (rq_anchor (rq b)) (start b) N (drop (cached_len b) (rq_hidden (rq b))) (rq_past (rq b)) =
  Ok (Qwen3RMSNorm (ck_norm ck) (rms_norm_eps cfg) <$> h, crop_cache (start b) past2).
Proof.
  intros Hb E1 E2. destruct (Hrq b Hb) as [Hh Hc Hroom Hpast]. destruct (co_latent_tokens _ _ _ Hck) as [HL HB].
  unfold trained_draft_block. rewrite !set_first_replicate by lia. cbn [mbind result_bind].
  assert (Elen : get_seq_length (rq_past (rq b)) = cached_len b).
  { rewrite cache_length_law. destruct (attns ck !! 0) as [a|] eqn:Ea.
    - rewrite (Hpast 0 a Ea). cbn [fst]. rewrite length_take, length_ctx_k, length_X by done. lia.
    - exfalso. apply lookup_ge_None in Ea. unfold attns in Ea. rewrite length_app, !length_fmap in Ea.
      pose proof (co_some _ _ _ Hck). destruct (ck_layers ck); [done|]. cbn in Ea. lia. }
  unfold draft_block, py_assert. rewrite Elen, py_check_true by (by apply Nat.leb_le). cbn [mbind result_bind].
  unfold latent_position_ids_at, mask_position_ids_at. rewrite !seq_slice by lia.
  replace ((seq 0 N).[cached_len b, start b]) with (seq (cached_len b) (start b - cached_len b)).
  2: { replace (start b) with (cached_len b + (start b - cached_len b)) at 2 by lia. rewrite seq_slice by lia. done. }
  unfold checkpoint_backbone, backbone. rewrite fmap_drop.
  change ((λ h0 : row, Qwen3RMSNorm (ck_hidden_norm ck) (rms_norm_eps cfg) (linear (ck_fc ck) h0)) <$> rq_hidden (rq b)) with (X b).
  rewrite replace_first in E1 by lia. unfold latent_fold in E1. rewrite E1. unfold mask_fold in E2.
  fold (block_ids b). rewrite E2. done.
Qed.

Context (latent_bufs proposal_bufs : stage_buffers) (input_embeds : option (list row)).
Notation stages :=
  (_build_latentspec_stage_metadata (lane_order dev) L B bs batch_seq_lens (build_index_table req_to_token batch_rows_ids)
     latent_bufs proposal_bufs).

Lemma served_forward_ok pool :
  take 1 latent_bufs.1 = [0] → take 1 proposal_bufs.1 = [0] →
  psum batch_seq_lens bs ≤ length latent_bufs.2 → psum batch_seq_lens bs + bs * L ≤ length proposal_bufs.2 →
  match input_embeds with Some e => e = ck_embed_tokens ck <$> batch_ids | None => True end →
  latent_slots_free → pool_holds pool →
  ∃ (hid : nat → list row) (past' : nat → KV) pool',
    served_forward dev m (Some stages) bs batch_ids batch_positions batch_locs input_embeds pool = Ok (flat bs hid, pool') ∧
    pool_holds pool' ∧
    ∀ b, b < bs →
      trained_draft_block ck (rq_anchor (rq b)) (start b) N (drop (cached_len b) (rq_hidden (rq b))) (rq_past (rq b)) =
        Ok (hid b, past' b) ∧
      length (hid b) = B ∧ draft_cached (start b) (rq_hidden (rq b)) (past' b).
Proof.
  intros Hl0 Hp0 Hlcap Hpcap Hemb Hfree Hpool. destruct (co_latent_tokens _ _ _ Hck) as [HL HB].
  assert (Hlen : length batch_seq_lens = bs) by (unfold batch_seq_lens; by rewrite length_fmap, length_seq).
  destruct (build_stages_ok (lane_order dev) L B bs batch_seq_lens req_to_token batch_rows_ids latent_bufs proposal_bufs
    Horder Hlen Hl0 Hp0 Hlcap Hpcap) as [(md1 & S1 & O1) (md2 & S2 & O2)].
  apply stage_slots in O1. apply stage_slots in O2.
  assert (Lids : ∀ b, b < bs → length (block_ids b) = B) by (intros b Hb; unfold block_ids; cbn; rewrite length_replicate; lia).
  unfold served_forward.
  assert ((match input_embeds with Some e => e | None => embed m <$> batch_ids end) = flat bs (λ b, ck_embed_tokens ck <$> block_ids b)) as ->.
  { transitivity (ck_embed_tokens ck <$> batch_ids); [by destruct input_embeds|]. unfold batch_ids. apply flat_fmap. }
  change (proposal_size m) with B. unfold batch_positions, batch_ids, batch_locs.
  rewrite !(reshape_flat bs B) by (intros b Hb; rewrite ?length_fmap, ?length_seq; auto). cbn [mbind result_bind]. cbv zeta.
  change (sm_latent_tokens m) with L. rewrite S1. cbn [mbind result_bind]. rewrite S2. cbn [mbind result_bind].
  assert (Epos : ∀ W, concat ((λ p : nat, (λ o : nat, p + o) <$> seq 0 W) <$> ((λ r : list nat, ld r 0) <$> ((λ b, seq (start b) B) <$> seq 0 bs)))
    = flat bs (λ b, seq (start b) W)).
  { intros W. rewrite <- list_fmap_compose, flat_compose. apply flat_ext. intros b _.
    unfold compose. replace (ld (seq (start b) B) 0) with (start b); [apply seq_shift|].
    unfold ld. rewrite lookup_seq_lt by lia. cbn. lia. }
  rewrite !Epos. rewrite <- list_fmap_compose, !flat_compose.
  fold (flat bs (λ b, ck_embed_tokens ck <$> block_ids b)).
  assert ((flat bs (λ b, take L (slot b <$> seq (start b) B))) = latent_locs) as ->.
  { unfold latent_locs. apply flat_ext. intros b _. rewrite <- fmap_take. f_equal.
    replace B with (L + (B - L)) by lia. rewrite seq_app, take_app_le, firstn_all2 by (rewrite length_seq; lia). done. }
  set (h0 b := ck_embed_tokens ck <$> <[0 := rq_anchor (rq b)]> (replicate L (ck_latent_token_id ck))).
  change (flat bs (λ b, (_ ∘ _) (block_ids b))) with (flat bs h0).
  change (sm_num_latent_layers m) with n_lat. change (sm_latent_hidden_norm m) with (ck_latent_hidden_norm ck).
  assert (Etake : take n_lat (sm_layers m) = imap (λ i l, packed_layer (0 + i) l (self_attn l) None) (ck_latent_layers ck)).
  { cbn [sm_layers packed_model]. rewrite take_app_le, firstn_all2 by (rewrite length_imap; lia). done. }
  assert (Edrop : drop n_lat (sm_layers m) =
    imap (λ i l, packed_layer (n_lat + (0 + i)) l (mask_base (self_attn l)) (Some (latent_kv_of (self_attn l)))) (ck_layers ck)).
  { cbn [sm_layers packed_model]. rewrite drop_app_ge by (rewrite length_imap; lia). by rewrite length_imap, Nat.sub_diag. }
  rewrite Etake, Edrop, length_imap. clear Etake Edrop.
  destruct (latent_stage md1 pool (ck_latent_layers ck) 0 h0 (λ b, rq_past (rq b)) (flat bs h0, None)) as (h1 & past1 & Htr1 & R1 & T1); [done..| | |done|done|].
  { intros i lay Hi. destruct (co_latent _ _ _ Hck i lay Hi) as (? & ? & ?). split; [|done].
    cbn [Nat.add]. unfold attns. rewrite lookup_app_l by (rewrite length_fmap; by eapply lookup_lt_Some). by rewrite list_lookup_fmap, Hi. }
  { intros b Hb. split; [|by apply running_0]. unfold h0. by rewrite length_fmap, length_insert, length_replicate. }
  rewrite (final_rail_ok _ _ h1 R1 T1).
  destruct (stacked_ok (co_some _ _ _ Hck)) as (w & Hw & Hslice). rewrite Hw.
  set (lat b := Qwen3RMSNorm (ck_latent_hidden_norm ck) (rms_norm_eps cfg) <$> h1 b).
  destruct (mask_stage md2 w lat (ck_layers ck) 0 (λ b, ck_embed_tokens ck <$> block_ids b) past1
    (flat bs (λ b, ck_embed_tokens ck <$> block_ids b), None) pool) as (h2 & past2 & Htr2 & R2 & T2 & Hpool2); try done.
  { unfold batch_seq_lens in O2. by rewrite <- list_fmap_compose in O2. }
  { intros b Hb. unfold lat. rewrite length_fmap. by apply (Htr1 b). }
  { intros b Hb. destruct (Htr1 b Hb) as (_ & _ & Hr). rewrite length_fmap, Lids by done. split; [done|].
    by rewrite Nat.add_0_r. }
  destruct (foldl (proposal_step _ _ _ _ _ _ _ _ _) _ _) as [pool2 st2]. cbn [fst snd] in *.
  exists (λ b, Qwen3RMSNorm (ck_norm ck) (rms_norm_eps cfg) <$> h2 b), (λ b, crop_cache (start b) (past2 b)), pool2.
  split; [|split; [done|]].
  { change (sm_norm m) with (ck_norm ck). by rewrite (final_rail_ok _ _ h2 R2 T2). }
  intros b Hb. destruct (Htr1 b Hb) as (E1 & _ & _), (Htr2 b Hb) as (E2 & Hl2 & Hr2). split; [|split].
  - by apply (trained_stages b (h1 b) (h2 b) (past1 b) (past2 b)).
  - by rewrite length_fmap.
  - apply running_crop; [done|]. unfold attns. by rewrite length_app, !length_fmap.
Qed.
End forward.
