(* ===== verification/LatentLoad.v ===== *)
(** * LatentLoad: reading a checkpoint into the served LatentSpec model

    Models [Qwen3MySpecModel.load_weights] of [srt/models/latentspec.py] on the parameters that
    its constructors declare: the routing of every checkpoint name to a packed parameter, the
    weight loaders it calls ([srt/layers/linear.py] and [srt/model_loader/weight_utils.py],
    unquantised, one tensor-parallel rank, on a GPU) and the stacking of the latent
    projections; and the names under which [DeepSpec/deepspec/modeling/myspec/qwen3] stores a
    checkpoint.  Python strings are Rocq strings; a tensor is the list of its rows, or of
    its cells when it has one dimension. *)

From Stdlib Require Import Reals Ascii DecimalString DecimalNat.
From S2P Require Import Prelude TensorOps RealLaw LatentSampler RejectKernel MySpecModel ExtendAttention LatentStage DraftLayers LatentModel.
#[local] Open Scope nat_scope.

(** ** Strings *)

(** [s.startswith(p)]. *)
Fixpoint startswith (p s : string) : bool :=
  match p, s with
  | EmptyString, _ => true
  | String a p, String b s => Ascii.eqb a b && startswith p s
  | _, EmptyString => false
  end.

Fixpoint str_drop (n : nat) (s : string) : string :=
  match n, s with
  | S n, String _ s => str_drop n s
  | _, _ => s
  end.

Definition removeprefix (p s : string) : string :=
  if startswith p s then str_drop (String.length p) s else s.

(** [p in s]. *)
Fixpoint contains (p s : string) : bool :=
  startswith p s || match s with String _ s => contains p s | EmptyString => false end.

(** [s.replace(old, new)] for [old] not empty; [skip] characters of a match remain. *)
Fixpoint replace_from (old new : string) (skip : nat) (s : string) : string :=
  match s with
  | EmptyString => EmptyString
  | String c s =>
      match skip with
      | S skip => replace_from old new skip s
      | 0 =>
          if startswith old (String c s) then new +:+ replace_from old new (String.length old - 1) s
          else String c (replace_from old new 0 s)
      end
  end.
Definition replace (old new s : string) : string := replace_from old new 0 s.

(** The text before the first [c] and the text after it. *)
Fixpoint partition (c : ascii) (s : string) : option (string * string) :=
  match s with
  | EmptyString => None
  | String d s =>
      if Ascii.eqb d c then Some (EmptyString, s)
      else match partition c s with Some (a, b) => Some (String d a, b) | None => None end
  end.

(** [s.split(c, maxsplit)]. *)
Fixpoint split (c : ascii) (maxsplit : nat) (s : string) : list string :=
  match maxsplit with
  | 0 => [s]
  | S n => match partition c s with Some (a, b) => a :: split c n b | None => [s] end
  end.

(** [str(n)], and [int(s)] on decimal digits. *)
Definition py_str (n : nat) : string := NilZero.string_of_uint (Nat.to_uint n).
Definition py_int (s : string) : result nat :=
  match NilZero.uint_of_string s with Some d => Ok (Nat.of_uint d) | None => Raise ValueError end.

Definition part_at {A} (l : list A) (i : nat) : result A :=
  match l !! i with Some x => Ok x | None => Raise IndexError end.

(** ** Tensors *)

Inductive Tensor : Type :=
  | Matrix (rows : list row)
  | Vector (cells : row).

Inductive Shape : Type :=
  | Shape2 (rows cols : nat)
  | Shape1 (cells : nat).
#[export] Instance Shape_eq_dec : EqDecision Shape.
Proof. solve_decision. Defined.

(** The rows of a matrix have one length, that of the first. *)
Definition shape (t : Tensor) : Shape :=
  match t with
  | Matrix rows => Shape2 (length rows) (match rows with r :: _ => length r | [] => 0 end)
  | Vector cells => Shape1 (length cells)
  end.

Definition size0 (t : Tensor) : nat := match t with Matrix rows => length rows | Vector cells => length cells end.
Definition numel (t : Tensor) : nat := match shape t with Shape2 n m => n * m | Shape1 n => n end.

(** [t.narrow(0, off, size)]. *)
Definition narrow (off size : nat) (t : Tensor) : result Tensor :=
  _ ← py_check RuntimeError (off + size <=? size0 t);
  Ok match t with
     | Matrix rows => Matrix (rows.[off, off + size])
     | Vector cells => Vector (cells.[off, off + size])
     end.

(** The tensor after [narrow(0, off, size0 src).copy_(src)]; a view and a source of different shapes
    raise (what broadcasting would accept is not modelled). *)
Definition copy_at (off : nat) (src t : Tensor) : Tensor :=
  match t, src with
  | Matrix rows, Matrix new => Matrix (list_inserts off new rows)
  | Vector cells, Vector new => Vector (list_inserts off new cells)
  | _, _ => t
  end.
Definition copy_ (off size : nat) (src t : Tensor) : result Tensor :=
  view ← narrow off size t;
  _ ← py_check RuntimeError (bool_decide (shape view = shape src));
  Ok (copy_at off src t).

(** [param.data.fill_(loaded_weight.item())] on tensors of one element. *)
Definition item (t : Tensor) : R :=
  match t with Matrix rows => wt (default [] (rows !! 0)) 0 | Vector cells => wt cells 0 end.
Definition fill1 (x : R) (t : Tensor) : Tensor :=
  match t with Matrix _ => Matrix [[x]] | Vector _ => Vector [x] end.

(** ** Weight loaders *)

Inductive Shard : Type :=
  | ShardQ
  | ShardK
  | ShardV
  | ShardIdx (i : nat).

(** The class whose [weight_loader] a parameter carries, with the sizes it splits by. *)
Inductive WeightLoader : Type :=
  | QKVParallelLinear (q_size kv_size : nat)
  | MergedColumnParallelLinear (output_sizes : list nat)
  | RowParallelLinear.

Record Param := { data : Tensor; weight_loader : option WeightLoader }.

Definition default_weight_loader (param loaded_weight : Tensor) : result Tensor :=
  if (numel param =? 1) && (numel loaded_weight =? 1) then Ok (fill1 (item loaded_weight) param)
  else
    _ ← py_assert (bool_decide (shape param = shape loaded_weight));
    copy_ 0 (size0 param) loaded_weight param.

(** [param_data.narrow], then the assertion on the shapes and [copy_]. *)
Definition load_shard (shard_offset shard_size : nat) (param loaded_weight : Tensor) : result Tensor :=
  param_data ← narrow shard_offset shard_size param;
  _ ← py_assert (bool_decide (shape param_data = shape loaded_weight));
  copy_ shard_offset shard_size loaded_weight param.

(** [QKVParallelLinear.weight_loader]. *)
Definition qkv_weight_loader (q_size kv_size : nat) (shard : Shard) (param loaded_weight : Tensor) : result Tensor :=
  shard_at ← match shard with
             | ShardQ => Ok (0, q_size)
             | ShardK => Ok (q_size, kv_size)
             | ShardV => Ok (q_size + kv_size, kv_size)
             | ShardIdx _ => Raise AssertionError
             end;
  loaded_weight ← narrow 0 shard_at.2 loaded_weight;
  load_shard shard_at.1 shard_at.2 param loaded_weight.

(** [pad_or_narrow_weight] at the start of the output dimension. *)
Definition pad_rows (shard_size : nat) (t : Tensor) : Tensor :=
  match t with
  | Matrix rows => Matrix (rows ++ replicate (shard_size - length rows) (replicate (match rows with r :: _ => length r | [] => 0 end) 0%R))
  | Vector cells => Vector (cells ++ replicate (shard_size - length cells) 0%R)
  end.

(** [MergedColumnParallelLinear.weight_loader] with a shard id. *)
Definition merged_weight_loader (output_sizes : list nat) (shard : Shard) (param loaded_weight : Tensor) : result Tensor :=
  loaded_shard_id ← match shard with ShardIdx i => Ok i | _ => Raise TypeError end;
  _ ← py_assert (loaded_shard_id <? length output_sizes);
  let shard_offset := sum_list (take loaded_shard_id output_sizes) in
  let shard_size := ld output_sizes loaded_shard_id in
  loaded_weight ← (if size0 loaded_weight <? shard_size then Ok (pad_rows shard_size loaded_weight)
                   else narrow 0 shard_size loaded_weight);
  load_shard shard_offset shard_size param loaded_weight.

(** [RowParallelLinear.weight_loader]: the input dimension is padded or narrowed to the parameter's. *)
Definition row_weight_loader (param loaded_weight : Tensor) : result Tensor :=
  let loaded_weight :=
    match shape param, loaded_weight with
    | Shape2 _ shard_size, Matrix rows => Matrix ((λ r : row, take shard_size r ++ replicate (shard_size - length r) 0%R) <$> rows)
    | _, _ => loaded_weight
    end in
  _ ← py_assert (bool_decide (shape param = shape loaded_weight));
  copy_ 0 (size0 param) loaded_weight param.

(** [loader(param, value)] and [loader(param, value, shard)]. *)
Definition call_loader (p : Param) (value : Tensor) (shard : option Shard) : result Param :=
  t ← match weight_loader p, shard with
      | Some (QKVParallelLinear q kv), Some s => qkv_weight_loader q kv s (data p) value
      | Some (MergedColumnParallelLinear sizes), Some s => merged_weight_loader sizes s (data p) value
      | Some RowParallelLinear, None => row_weight_loader (data p) value
      | None, None => default_weight_loader (data p) value
      | None, Some _ | Some RowParallelLinear, Some _ => Raise TypeError
      | Some _, None => Raise NotImplementedError
      end;
  Ok {| data := t; weight_loader := weight_loader p |}.

(** ** [load_weights] *)

Notation Params := (gmap string Param).

Definition stacked : list (string * string * Shard) :=
  [("qkv_proj", "q_proj", ShardQ); ("qkv_proj", "k_proj_noise", ShardK); ("qkv_proj", "v_proj_noise", ShardV);
   ("qkv_proj", "k_proj_mask", ShardK); ("qkv_proj", "v_proj_mask", ShardV);
   ("gate_up_proj", "gate_proj", ShardIdx 0); ("gate_up_proj", "up_proj", ShardIdx 1)].

Definition packed_kv : list (string * string * nat) :=
  [("kv_latent", "k_proj_latent", 0); ("kv_latent", "v_proj_latent", 1); ("kv_ctx", "k_proj", 0); ("kv_ctx", "v_proj", 1)].

Section load.
Context (num_latent_layers : nat).

(** The name of the served module. *)
Definition served_name (raw_name : string) : result string :=
  let name := removeprefix "model." raw_name in
  if startswith "latent_layers." name then Ok ("layers." +:+ str_drop (String.length "latent_layers.") name)
  else if startswith "layers." name then
    let parts := split "." 2 name in
    part1 ← part_at parts 1;
    i ← py_int part1;
    part2 ← part_at parts 2;
    Ok ("layers." +:+ py_str (i + num_latent_layers) +:+ "." +:+ part2)
  else Ok name.

(** The two loops of one weight; [None] when nothing was loaded. *)
Fixpoint load_stacked (table : list (string * string * Shard)) (params : Params) (name : string) (value : Tensor)
  : result (option Params) :=
  match table with
  | [] => Ok None
  | (packed, source, shard) :: table =>
      if contains ("." +:+ source +:+ ".") name then
        let dst := replace source packed name in
        match params !! dst with
        | Some p => p' ← call_loader p value (Some shard); Ok (Some (<[dst := p']> params))
        | None => load_stacked table params name value
        end
      else load_stacked table params name value
  end.

Fixpoint load_packed_kv (table : list (string * string * nat)) (params : Params) (name : string) (value : Tensor)
  : result (option Params) :=
  match table with
  | [] => Ok None
  | (packed, source, shard) :: table =>
      if negb (contains ("." +:+ source +:+ ".") name) then load_packed_kv table params name value
      else
        let dst := replace source packed name in
        match params !! dst with
        | Some p =>
            let shard_size := size0 (data p) / 2 in
            _ ← py_check ValueError (size0 value =? shard_size);
            t ← copy_ (shard * shard_size) shard_size value (data p);
            Ok (Some (<[dst := {| data := t; weight_loader := weight_loader p |}]> params))
        | None => load_packed_kv table params name value
        end
  end.

(** One turn of the loop. *)
Definition load_weight (params : Params) (weight : string * Tensor) : result Params :=
  let '(raw_name, value) := weight in
  name ← served_name raw_name;
  by_stacked ← load_stacked stacked params name value;
  match by_stacked with
  | Some params => Ok params
  | None =>
      by_packed ← load_packed_kv packed_kv params name value;
      match by_packed with
      | Some params => Ok params
      | None =>
          match params !! name with
          | None => Ok params
          | Some p => p' ← call_loader p value None; Ok (<[name := p']> params)
          end
      end
  end.

Fixpoint load_loop (params : Params) (weights : list (string * Tensor)) : result Params :=
  match weights with
  | [] => Ok params
  | w :: weights => params ← load_weight params w; load_loop params weights
  end.
End load.

(** ** Reading the modules *)

Definition matrix_of (params : Params) (name : string) : list row :=
  match params !! name with Some {| data := Matrix rows |} => rows | _ => [] end.
Definition vector_of (params : Params) (name : string) : option row :=
  match params !! name with Some {| data := Vector cells |} => Some cells | _ => None end.
Definition norm_of (params : Params) (name : string) : row := default [] (vector_of params (name +:+ ".weight")).
Definition linear_of (params : Params) (name : string) : Linear :=
  {| weight := matrix_of params (name +:+ ".weight"); bias := vector_of params (name +:+ ".bias") |}.

Definition layer_name (i : nat) (attr : string) : string := "layers." +:+ py_str i +:+ "." +:+ attr.

(** The end of [load_weights]: [torch.cat] of no tensors raises; the biases are stacked when the first has one. *)
Definition stack_latent_kv (params : Params) (num_latent_layers num_proposal_layers : nat) : result Linear :=
  let proposal_attn :=
    (λ i, linear_of params (layer_name i "self_attn.kv_latent")) <$> seq num_latent_layers num_proposal_layers in
  _ ← py_check RuntimeError (negb (num_proposal_layers =? 0));
  Ok {| weight := concat (weight <$> proposal_attn);
        bias := match proposal_attn with
                | {| bias := Some _ |} :: _ => Some (concat ((λ l, default [] (bias l)) <$> proposal_attn))
                | _ => None
                end |}.

(** What the constructors take from the configuration. *)
Record ModelConfig := {
  mc_config : Qwen3Config;
  hidden_size : nat;
  vocab_size : nat;
  intermediate_size : nat;
  num_target_layers : nat;
  attention_bias : bool;
  num_hidden_layers : nat;
  mc_num_latent_tokens : nat;
  mc_block_size : nat;
  mc_latent_token_id : nat;
  mc_rope_theta : R;
  mc_is_causal : option bool
}.

(** A parameter as declared: its name, its shape and its loader. *)
Notation Declared := (string * Shape * option WeightLoader)%type.

Section named_parameters.
Context (mc : ModelConfig).
Notation cfg := (mc_config mc).
Notation hidden := (hidden_size mc).
Notation q_size := (num_attention_heads cfg * head_dim cfg).
Notation kv_size := (num_key_value_heads cfg * head_dim cfg).

Definition declare_linear (name : string) (in_features out_features : nat) (has_bias : bool) (loader : option WeightLoader)
  : list Declared :=
  (name +:+ ".weight", Shape2 out_features in_features, loader) ::
  if has_bias then [(name +:+ ".bias", Shape1 out_features, loader)] else [].
Definition declare_norm (name : string) (size : nat) : Declared := (name +:+ ".weight", Shape1 size, None).

(** [_LatentSpecAttention] over [DFlashAttention], and [_LatentSpecLayer]. *)
Definition declare_layer (with_latent_kv : bool) : list Declared :=
  let has_bias := attention_bias mc in
  declare_norm "input_layernorm" hidden ::
  declare_linear "self_attn.qkv_proj" hidden (q_size + 2 * kv_size) has_bias (Some (QKVParallelLinear q_size kv_size)) ++
  declare_linear "self_attn.o_proj" q_size hidden has_bias (Some RowParallelLinear) ++
  [declare_norm "self_attn.q_norm" (head_dim cfg); declare_norm "self_attn.k_norm" (head_dim cfg)] ++
  declare_linear "self_attn.kv_ctx" hidden (2 * kv_size) has_bias None ++
  (if with_latent_kv then declare_linear "self_attn.kv_latent" hidden (2 * kv_size) has_bias None else []) ++
  [declare_norm "post_attention_layernorm" hidden] ++
  declare_linear "mlp.gate_up_proj" hidden (2 * intermediate_size mc) false
    (Some (MergedColumnParallelLinear [intermediate_size mc; intermediate_size mc])) ++
  declare_linear "mlp.down_proj" (intermediate_size mc) hidden false (Some RowParallelLinear).

Definition in_layer (i : nat) (d : Declared) : Declared := (layer_name i d.1.1, d.1.2, d.2).

Definition declared : list Declared :=
  [("embed_tokens.weight", Shape2 (vocab_size mc) hidden, None)] ++
  declare_linear "fc" (num_target_layers mc * hidden) hidden false None ++
  [declare_norm "hidden_norm" hidden; declare_norm "latent_hidden_norm" hidden; declare_norm "norm" hidden] ++
  (i ← seq 0 (num_latent_layers cfg + num_hidden_layers mc);
   in_layer i <$> declare_layer (num_latent_layers cfg <=? i)).

(** [nn.Parameter(torch.empty(...))]: [content] is what the memory holds. *)
Definition torch_empty (content : nat → nat → R) (s : Shape) : Tensor :=
  match s with
  | Shape2 n m => Matrix ((λ i, content i <$> seq 0 m) <$> seq 0 n)
  | Shape1 n => Vector (content 0 <$> seq 0 n)
  end.

Definition named_parameters (content : string → nat → nat → R) : Params :=
  list_to_map ((λ d : Declared, (d.1.1, {| data := torch_empty (content d.1.1) d.1.2; weight_loader := d.2 |})) <$> declared).

(** The attributes of a layer. *)
Definition served_layer_of (params : Params) (i : nat) : LatentSpecLayer :=
  let at_ attr := layer_name i attr in
  {| layer_id := i;
     in_norm := norm_of params (at_ "input_layernorm");
     qkv_proj := linear_of params (at_ "self_attn.qkv_proj");
     kv_ctx := linear_of params (at_ "self_attn.kv_ctx");
     kv_latent := if num_latent_layers cfg <=? i then Some (linear_of params (at_ "self_attn.kv_latent")) else None;
     out_proj := linear_of params (at_ "self_attn.o_proj");
     qn_weight := norm_of params (at_ "self_attn.q_norm");
     kn_weight := norm_of params (at_ "self_attn.k_norm");
     post_norm := norm_of params (at_ "post_attention_layernorm");
     gate_up_proj := linear_of params (at_ "mlp.gate_up_proj");
     down_proj_w := linear_of params (at_ "mlp.down_proj") |}.

Definition served_model_of (params : Params) (stacked_latent_kv : Linear) (fused : bool) : ServedModel :=
  {| num_heads := num_attention_heads cfg; num_kv_heads := num_key_value_heads cfg; hd := head_dim cfg;
     eps := rms_norm_eps cfg; rope_theta := mc_rope_theta mc; sm_latent_tokens := mc_num_latent_tokens mc;
     proposal_size := mc_block_size mc; sm_latent_token_id := mc_latent_token_id mc;
     embed := embedding (matrix_of params "embed_tokens.weight"); sm_fc := linear_of params "fc";
     sm_hidden_norm := norm_of params "hidden_norm"; sm_latent_hidden_norm := norm_of params "latent_hidden_norm";
     sm_norm := norm_of params "norm"; sm_num_latent_layers := num_latent_layers cfg;
     sm_layers := served_layer_of params <$> seq 0 (num_latent_layers cfg + num_hidden_layers mc);
     _stacked_latent_kv := Some stacked_latent_kv;
     fused_table := fused; is_causal := mc_is_causal mc |}.

(** The model after construction and [load_weights]; [fused] as in [ServedModel]. *)
Definition load_weights (content : string → nat → nat → R) (fused : bool) (weights : list (string * Tensor)) : result ServedModel :=
  params ← load_loop (num_latent_layers cfg) (named_parameters content) weights;
  stacked_latent_kv ← stack_latent_kv params (num_latent_layers cfg) (num_hidden_layers mc);
  Ok (served_model_of params stacked_latent_kv fused).
End named_parameters.

(** ** The names of a checkpoint *)

Definition linear_state (name : string) (l : Linear) : list (string * Tensor) :=
  (name +:+ ".weight", Matrix (weight l)) :: match bias l with Some b => [(name +:+ ".bias", Vector b)] | None => [] end.
Definition norm_state (name : string) (w : row) : string * Tensor := (name +:+ ".weight", Vector w).

(** [noise] is the suffix of the block's projections: [Qwen3MySpecAttention] has [k_proj_noise],
    [Qwen3MySpecMaskAttention] has [k_proj_mask]. *)
Definition attention_state (noise : string) (a : MySpecAttention) : list (string * Tensor) :=
  linear_state "self_attn.q_proj" (q_proj a) ++ linear_state "self_attn.k_proj" (k_proj a) ++
  linear_state "self_attn.v_proj" (v_proj a) ++ linear_state ("self_attn.k_proj_" +:+ noise) (k_proj_noise a) ++
  linear_state ("self_attn.v_proj_" +:+ noise) (v_proj_noise a) ++ linear_state "self_attn.o_proj" (o_proj a) ++
  [norm_state "self_attn.q_norm" (q_norm a); norm_state "self_attn.k_norm" (k_norm a)].

Definition mask_attention_state (a : MySpecMaskAttention) : list (string * Tensor) :=
  attention_state "mask" (mask_base a) ++
  linear_state "self_attn.k_proj_latent" (k_proj_latent a) ++ linear_state "self_attn.v_proj_latent" (v_proj_latent a).

Definition layer_state {A} (attention : list (string * Tensor)) (l : MySpecDecoderLayer A) : list (string * Tensor) :=
  attention ++ linear_state "mlp.gate_proj" (gate_proj l) ++ linear_state "mlp.up_proj" (up_proj l) ++
  linear_state "mlp.down_proj" (down_proj l) ++
  [norm_state "input_layernorm" (input_layernorm l); norm_state "post_attention_layernorm" (post_attention_layernorm l)].

Definition under (module : string) (i : nat) (e : string * Tensor) : string * Tensor :=
  (module +:+ py_str i +:+ "." +:+ e.1, e.2).

(** [state_dict()] without the heads. *)
Definition state_dict (ck : Checkpoint) : list (string * Tensor) :=
  [("embed_tokens.weight", Matrix (ck_embed_weight ck))] ++ linear_state "fc" (ck_fc ck) ++
  [norm_state "hidden_norm" (ck_hidden_norm ck); norm_state "latent_hidden_norm" (ck_latent_hidden_norm ck);
   norm_state "norm" (ck_norm ck)] ++
  concat (imap (λ i l, under "latent_layers." i <$> layer_state (attention_state "noise" (self_attn l)) l) (ck_latent_layers ck)) ++
  concat (imap (λ i l, under "layers." i <$> layer_state (mask_attention_state (self_attn l)) l) (ck_layers ck)).
