(* ===== verification/LatentNames.v ===== *)
(** * LatentNames: the routing of checkpoint names

    Lemmas on the string functions of [LatentLoad]: a layer index is printed as digits and
    read back, and searching or replacing a projection's name in the name of a layer's
    parameter only looks at what follows the index. *)

From Stdlib Require Import Reals Ascii DecimalString DecimalNat DecimalFacts.
From S2P Require Import Prelude TensorOps RealLaw LatentSampler RejectKernel MySpecModel ExtendAttention LatentStage DraftLayers LatentModel LatentLoad.
#[local] Open Scope nat_scope.
#[local] Arguments String.append : simpl nomatch.

(** ** Digits *)

Fixpoint all_chars (p : ascii → bool) (s : string) : bool :=
  match s with EmptyString => true | String c s => p c && all_chars p s end.

Definition is_digit (c : ascii) : bool :=
  existsb (Ascii.eqb c) ["0"%char; "1"%char; "2"%char; "3"%char; "4"%char; "5"%char; "6"%char; "7"%char; "8"%char; "9"%char].

Lemma digits_of_uint d : all_chars is_digit (NilEmpty.string_of_uint d) = true.
Proof. by induction d. Qed.

Lemma py_str_digits n : all_chars is_digit (py_str n) = true.
Proof. unfold py_str. destruct (Nat.to_uint n); [done|..]; cbn; apply digits_of_uint. Qed.

Lemma py_str_cons n : ∃ c s, py_str n = String c s.
Proof. unfold py_str. destruct (Nat.to_uint n); cbn; eauto. Qed.

Lemma py_int_str n : py_int (py_str n) = Ok n.
Proof.
  unfold py_int, py_str. destruct (Nat.to_uint n) eqn:E; try (rewrite NilZero.usu by done; by rewrite <- E, Unsigned.of_to).
  exfalso. pose proof (Unsigned.of_to n) as Hn. rewrite E in Hn. cbn in Hn. subst n. done.
Qed.

Lemma py_str_inj i j : py_str i = py_str j → i = j.
Proof. intros E. pose proof (py_int_str i) as Hi. rewrite E, py_int_str in Hi. by injection Hi. Qed.

(** ** Splitting *)

Lemma str_app_assoc (a b c : string) : (a +:+ b) +:+ c = a +:+ (b +:+ c).
Proof. induction a as [|x a IH]; [done|]. cbn. f_equal. exact IH. Qed.

Lemma partition_digits d t : all_chars is_digit d = true → partition "." (d +:+ String "." t) = Some (d, t).
Proof.
  induction d as [|c d IH]; [done|]. cbn [all_chars]. intros [Hc Hd]%andb_true_iff. cbn [String.append partition].
  destruct (Ascii.eqb_spec c ".") as [->|]; [done|]. by rewrite IH.
Qed.

Lemma split_layer_name i attr : split "." 2 (layer_name i attr) = ["layers"; py_str i; attr].
Proof. unfold layer_name. cbn. by rewrite partition_digits by apply py_str_digits. Qed.

Lemma layer_name_inj i j a b : layer_name i a = layer_name j b → i = j ∧ a = b.
Proof.
  intros E. pose proof (split_layer_name i a) as H1. rewrite E, split_layer_name in H1. injection H1 as H1 H2.
  split; [symmetry; by apply py_str_inj|done].
Qed.

(** ** Searching and replacing below the index *)

(** A pattern that starts with a letter which is not in ["layers."]. *)
Definition letter_start (p : string) : bool :=
  match p with
  | String c _ => negb (is_digit c) && negb (existsb (Ascii.eqb c) ["l"%char; "a"%char; "y"%char; "e"%char; "r"%char; "s"%char; "."%char])
  | EmptyString => false
  end.

Lemma prefix_ne c p d s : Ascii.eqb c d = false → startswith (String c p) (String d s) = false.
Proof. intros H. cbn. by rewrite H. Qed.

Lemma contains_digits p d t : all_chars is_digit d = true →
  contains (String "." p) (d +:+ t) = contains (String "." p) t.
Proof.
  induction d as [|c d IH]; [done|]. cbn [all_chars]. intros [Hc Hd]%andb_true_iff. cbn [String.append contains].
  rewrite prefix_ne, IH by (done || by destruct (Ascii.eqb_spec "." c) as [<-|]). done.
Qed.

Lemma contains_layer_name p i attr : letter_start p = true →
  contains ("." +:+ p +:+ ".") (layer_name i attr) = contains ("." +:+ p +:+ ".") ("." +:+ attr).
Proof.
  destruct p as [|c p]; [done|]. cbn [letter_start]. intros [Hc _]%andb_true_iff. rewrite negb_true_iff in Hc.
  unfold layer_name.
  destruct (py_str_cons i) as (x & s & Hx). pose proof (py_str_digits i) as Hd.
  cbn [String.append contains]. rewrite !prefix_ne by done. cbn [orb].
  transitivity (contains (String "." (String c (p +:+ "."))) (py_str i +:+ "." +:+ attr)).
  - rewrite Hx in *. cbn [all_chars String.append] in *. apply andb_true_iff in Hd as [Hd _].
    cbn. destruct (Ascii.eqb_spec c x) as [->|]; [by rewrite Hd in Hc|done].
  - by rewrite contains_digits by done.
Qed.

Lemma replace_digits c p new d t : is_digit c = false → all_chars is_digit d = true →
  replace (String c p) new (d +:+ t) = d +:+ replace (String c p) new t.
Proof.
  intros Hc. unfold replace. induction d as [|x d IH]; [done|]. cbn [all_chars]. intros [Hx Hd]%andb_true_iff.
  cbn [String.append replace_from]. rewrite prefix_ne by (destruct (Ascii.eqb_spec c x) as [->|]; [by rewrite Hx in Hc|done]).
  by rewrite IH.
Qed.

Lemma replace_other c p new x s : Ascii.eqb c x = false →
  replace (String c p) new (String x s) = String x (replace (String c p) new s).
Proof. intros H. unfold replace. cbn [replace_from]. by rewrite prefix_ne. Qed.

Lemma replace_layer_name p new i attr : letter_start p = true →
  replace p new (layer_name i attr) = layer_name i (replace p new attr).
Proof.
  destruct p as [|c p]; [done|]. cbn [letter_start]. intros [Hc Hl]%andb_true_iff. rewrite negb_true_iff in Hc, Hl.
  cbn [existsb] in Hl. repeat rewrite orb_false_iff in Hl. destruct Hl as (? & ? & ? & ? & ? & ? & ? & _).
  unfold layer_name. change ("layers." +:+ ?x) with (String "l" (String "a" (String "y" (String "e" (String "r" (String "s" (String "." x))))))).
  rewrite !replace_other by done. rewrite replace_digits by (done || apply py_str_digits).
  change ("." +:+ attr) with (String "." attr). by rewrite replace_other by done.
Qed.

(** ** The served name *)

Section served_name.
Context (num_latent_layers : nat).

(** With or without the prefix of a wrapping module. *)
Definition raw_of (name raw : string) : Prop := raw = name ∨ raw = "model." +:+ name.

Lemma removeprefix_raw name raw : startswith "model." name = false → raw_of name raw → removeprefix "model." raw = name.
Proof.
  intros Hn [->| ->]; unfold removeprefix; [by rewrite Hn|]. done.
Qed.

Lemma served_name_top name raw :
  startswith "model." name = false → startswith "latent_layers." name = false → startswith "layers." name = false →
  raw_of name raw → served_name num_latent_layers raw = Ok name.
Proof.
  intros Hm H1 H2 Hr. unfold served_name. rewrite (removeprefix_raw name raw) by done. by rewrite H1, H2.
Qed.

Lemma served_name_latent i attr raw : raw_of ("latent_layers." +:+ py_str i +:+ "." +:+ attr) raw →
  served_name num_latent_layers raw = Ok (layer_name i attr).
Proof. intros Hr. unfold served_name. rewrite (removeprefix_raw ("latent_layers." +:+ py_str i +:+ "." +:+ attr) raw); [|reflexivity|exact Hr].
  reflexivity. Qed.

Lemma served_name_proposal i attr raw : raw_of ("layers." +:+ py_str i +:+ "." +:+ attr) raw →
  served_name num_latent_layers raw = Ok (layer_name (num_latent_layers + i) attr).
Proof.
  intros Hr. unfold served_name. rewrite (removeprefix_raw ("layers." +:+ py_str i +:+ "." +:+ attr) raw); [|reflexivity|exact Hr]. fold (layer_name i attr).
  rewrite split_layer_name. cbn [part_at lookup list_lookup mbind result_bind startswith]. rewrite py_int_str, Nat.add_comm. done.
Qed.
End served_name.
