(* ===== verification/LatentTensors.v ===== *)
(** * LatentTensors: what one weight loader call writes

    Lemmas on the tensors and the weight loaders of [LatentLoad]: on a parameter of the
    declared shape, a shard of the expected size replaces the rows of its offset and nothing
    else; and the routing of one name of a layer, up to the layer's index. *)

From Stdlib Require Import Reals Ascii.
From S2P Require Import Prelude TensorOps RealLaw LatentSampler RejectKernel MySpecModel ExtendAttention LatentStage DraftLayers LatentModel LatentLoad LatentNames.
#[local] Open Scope nat_scope.
#[local] Arguments Nat.ltb : simpl never.
#[local] Arguments Nat.leb : simpl never.
#[local] Arguments Nat.eqb : simpl never.
#[local] Arguments Nat.div : simpl never.

(** ** Shapes *)

Definition is_shape (t : Tensor) (s : Shape) : Prop :=
  match t, s with
  | Matrix rows, Shape2 n m => length rows = n ∧ Forall (λ r, length r = m) rows
  | Vector cells, Shape1 n => length cells = n
  | _, _ => False
  end.

Definition dim0 (s : Shape) : nat := match s with Shape2 n _ => n | Shape1 n => n end.
Definition resize (k : nat) (s : Shape) : Shape := match s with Shape2 _ m => Shape2 k m | Shape1 _ => Shape1 k end.

(** The entry of index [r] of the first dimension. *)
Definition trow (t : Tensor) (r : nat) : option (row + R) :=
  match t with Matrix rows => inl <$> rows !! r | Vector cells => inr <$> cells !! r end.

Lemma is_shape_size0 t s : is_shape t s → size0 t = dim0 s.
Proof. by destruct t, s; cbn; [intros []| | |]. Qed.

Lemma is_shape_shape t t' s : is_shape t s → is_shape t' s → shape t = shape t'.
Proof.
  destruct t as [a|a], t' as [b|b], s as [n m|n]; try done; cbn.
  - intros [<- Ha] [Hl Hb]. rewrite Hl. f_equal. destruct Ha, Hb; try done. by subst.
  - by intros -> ->.
Qed.

Lemma resize_self t s : is_shape t s → resize (size0 t) s = s.
Proof. intros H. rewrite (is_shape_size0 t s H). by destruct s. Qed.

Lemma torch_empty_shape content s : is_shape (torch_empty content s) s.
Proof.
  destruct s as [n m|n]; cbn; [|by rewrite length_fmap, length_seq]. rewrite length_fmap, length_seq.
  split; [done|]. apply Forall_fmap, Forall_true. intros i. cbn. by rewrite length_fmap, length_seq.
Qed.

Lemma trow_ext t t' s : is_shape t s → is_shape t' s → (∀ r, r < dim0 s → trow t r = trow t' r) → t = t'.
Proof.
  destruct t as [a|a], t' as [b|b], s as [n m|n]; try done; cbn.
  - intros [Ha _] [Hb _] H. f_equal. apply list_eq_same_length with (n := n); [done..|]. intros i x y Hi Hx Hy.
    specialize (H i Hi). rewrite Hx, Hy in H. by injection H.
  - intros Ha Hb H. f_equal. apply list_eq_same_length with (n := n); [done..|]. intros i x y Hi Hx Hy.
    specialize (H i Hi). rewrite Hx, Hy in H. by injection H.
Qed.

(** ** Views and copies *)

Lemma narrow_ok off size t s : is_shape t s → off + size ≤ dim0 s →
  ∃ v, narrow off size t = Ok v ∧ is_shape v (resize size s) ∧ (off = 0 → size = dim0 s → v = t).
Proof.
  intros Ht Hle. unfold narrow. rewrite (is_shape_size0 t s Ht), py_check_true by (by apply Nat.leb_le).
  eexists. split; [done|]. destruct t as [rows|cells], s as [n m|n]; try done; cbn in *.
  - destruct Ht as [Hl Hr]. split; [split|].
    + rewrite length_py_slice. lia.
    + unfold py_slice. by apply Forall_take, Forall_drop.
    + intros -> ->. f_equal. apply py_slice_full; lia.
  - split; [rewrite length_py_slice; lia|]. intros -> ->. f_equal. apply py_slice_full; lia.
Qed.

Lemma copy_ok off size src t s : is_shape t s → is_shape src (resize size s) → off + size ≤ dim0 s →
  copy_ off size src t = Ok (copy_at off src t).
Proof.
  intros Ht Hs Hle. unfold copy_. destruct (narrow_ok off size t s Ht Hle) as (v & -> & Hv & _). cbn [mbind result_bind].
  by rewrite bool_decide_true by (by eapply is_shape_shape).
Qed.

Lemma copy_at_shape off size src t s : is_shape t s → is_shape src (resize size s) → is_shape (copy_at off src t) s.
Proof.
  destruct t as [a|a], src as [b|b], s as [n m|n]; try done; cbn.
  - intros [Ha Hfa] [Hb Hfb]. rewrite length_inserts. split; [done|].
    apply Forall_lookup_2. intros i x Hx. apply list_lookup_inserts_Some in Hx as [[_ Hx]|(_ & _ & Hx)].
    + by eapply (Forall_lookup_1 _ _ _ _ Hfa).
    + by eapply (Forall_lookup_1 _ _ _ _ Hfb).
  - intros Ha _. by rewrite length_inserts.
Qed.

Lemma inserts_lookup {A} off (k l : list A) r : off + length k ≤ length l →
  list_inserts off k l !! r = if decide (off ≤ r < off + length k) then k !! (r - off) else l !! r.
Proof.
  intros Hle. destruct (decide (off ≤ r < off + length k)).
  - apply list_lookup_inserts; lia.
  - destruct (decide (r < off)); [by apply list_lookup_inserts_lt|]. apply list_lookup_inserts_ge. lia.
Qed.

Lemma trow_copy_at off size src t s r : is_shape t s → is_shape src (resize size s) → off + size ≤ dim0 s →
  trow (copy_at off src t) r = if decide (off ≤ r < off + size) then trow src (r - off) else trow t r.
Proof.
  destruct t as [a|a], src as [b|b], s as [n m|n]; try done; cbn.
  - intros [Ha _] [Hb _] Hle. rewrite inserts_lookup, Hb by lia. by destruct (decide _).
  - intros Ha Hb Hle. rewrite inserts_lookup, Hb by lia. by destruct (decide _).
Qed.

Lemma copy_at_all src t s : is_shape t s → is_shape src s → copy_at 0 src t = src.
Proof.
  intros Ht Hs. pose proof (is_shape_size0 _ _ Hs) as Hsz. pose proof (resize_self _ _ Hs) as Hr.
  assert (is_shape src (resize (size0 src) s)) as Hs' by (by rewrite Hr).
  eapply trow_ext; [by eapply copy_at_shape|exact Hs|]. intros r Hlt.
  rewrite (trow_copy_at 0 (size0 src) src t s) by (done || lia). rewrite decide_True by lia. by rewrite Nat.sub_0_r.
Qed.

(** ** The loaders *)

Lemma load_shard_ok off size src t s : is_shape t s → is_shape src (resize size s) → off + size ≤ dim0 s →
  load_shard off size t src = Ok (copy_at off src t).
Proof.
  intros Ht Hs Hle. unfold load_shard. destruct (narrow_ok off size t s Ht Hle) as (v & -> & Hv & _). cbn [mbind result_bind].
  rewrite py_assert_true by (apply bool_decide_eq_true; by eapply is_shape_shape). cbn. by eapply copy_ok.
Qed.

Lemma fill1_item src t s : is_shape t s → is_shape src s → numel t = 1 → fill1 (item src) t = src.
Proof.
  destruct t as [a|a], src as [b|b], s as [n m|n]; try done; cbn.
  - intros [Ha Hfa] [Hb Hfb] H1. unfold numel in H1. cbn in H1. destruct a as [|x a]; [done|]. cbn in H1.
    destruct a as [|y a]; [|cbn in H1; destruct (length x) as [|[|k]]; cbn in H1; lia]. cbn in Ha, H1, Hfa. subst n.
    destruct b as [|y [|]]; try done. apply Forall_inv in Hfa, Hfb. destruct y as [|z [|]]; cbn in Hfb; try lia. done.
  - intros Ha Hb H1. unfold numel in H1. cbn in H1. destruct b as [|z [|]]; cbn in Hb; try lia. done.
Qed.

Lemma default_loader_ok src t s : is_shape t s → is_shape src s → default_weight_loader t src = Ok (copy_at 0 src t).
Proof.
  intros Ht Hs. unfold default_weight_loader. rewrite (copy_at_all src t s) by done.
  destruct (numel t =? 1) eqn:E; [destruct (numel src =? 1) eqn:E'|]; cbn [andb].
  - apply Nat.eqb_eq in E. by rewrite (fill1_item src t s).
  - rewrite py_assert_true by (apply bool_decide_eq_true; by eapply is_shape_shape). cbn.
    rewrite (copy_ok 0 _ src t s), (copy_at_all src t s); try done; [by rewrite resize_self|by rewrite (is_shape_size0 t s Ht)].
  - rewrite py_assert_true by (apply bool_decide_eq_true; by eapply is_shape_shape). cbn.
    rewrite (copy_ok 0 _ src t s), (copy_at_all src t s); try done; [by rewrite resize_self|by rewrite (is_shape_size0 t s Ht)].
Qed.

Lemma row_loader_ok src t s : is_shape t s → is_shape src s → row_weight_loader t src = Ok (copy_at 0 src t).
Proof.
  intros Ht Hs. unfold row_weight_loader.
  assert (match shape t, src with
    | Shape2 _ size, Matrix rows => Matrix ((λ r : row, take size r ++ replicate (size - length r) 0%R) <$> rows)
    | _, _ => src end = src) as ->.
  { destruct t as [a|a], src as [b|b], s as [n m|n]; try done. cbn in *. destruct Ht as [Ha Hfa], Hs as [Hb Hfb]. f_equal.
    destruct a as [|x a]; [by destruct b; cbn in *; subst|]. apply Forall_inv in Hfa. rewrite Hfa.
    rewrite <- (list_fmap_id b) at 2. apply list_fmap_ext. intros i r Hr. pose proof (Forall_lookup_1 _ _ _ _ Hfb Hr) as Hl. cbn in Hl.
    rewrite Hl, Nat.sub_diag. cbn. rewrite app_nil_r. apply firstn_all2. lia. }
  rewrite py_assert_true by (apply bool_decide_eq_true; by eapply is_shape_shape). cbn.
  rewrite (copy_ok 0 _ src t s); try done; [by rewrite (is_shape_size0 t s Ht), <- (is_shape_size0 src s Hs), resize_self|by rewrite (is_shape_size0 t s Ht)].
Qed.

(** ** Where a name goes *)

Inductive route : Type :=
  | RStacked (dst : string) (shard : Shard)
  | RPacked (dst : string) (shard : nat)
  | RPlain (dst : string).

Definition route_dst (r : route) : string :=
  match r with RStacked dst _ | RPacked dst _ | RPlain dst => dst end.

(** The first entry of a table that names a part of [attr]. *)
Fixpoint first_source {A} (table : list (string * string * A)) (attr : string) : option (string * A) :=
  match table with
  | [] => None
  | (packed, source, x) :: table =>
      if contains ("." +:+ source +:+ ".") ("." +:+ attr) then Some (replace source packed attr, x)
      else first_source table attr
  end.

Definition route_of (attr : string) : route :=
  match first_source stacked attr with
  | Some (dst, shard) => RStacked dst shard
  | None => match first_source packed_kv attr with Some (dst, i) => RPacked dst i | None => RPlain attr end
  end.

(** The offset and the size of what is written, given the shape and the loader of the parameter. *)
Definition written_at (r : route) (s : Shape) (l : option WeightLoader) : option (nat * nat) :=
  match r, l with
  | RStacked _ ShardQ, Some (QKVParallelLinear q kv) => Some (0, q)
  | RStacked _ ShardK, Some (QKVParallelLinear q kv) => Some (q, kv)
  | RStacked _ ShardV, Some (QKVParallelLinear q kv) => Some (q + kv, kv)
  | RStacked _ (ShardIdx i), Some (MergedColumnParallelLinear sizes) =>
      if i <? length sizes then Some (sum_list (take i sizes), ld sizes i) else None
  | RPacked _ i, _ => Some (i * (dim0 s / 2), dim0 s / 2)
  | RPlain _, None | RPlain _, Some RowParallelLinear => Some (0, dim0 s)
  | _, _ => None
  end.

Lemma load_stacked_layer table P j attr value :
  Forall (λ e : string * string * Shard, letter_start e.1.2 = true) table →
  load_stacked table P (layer_name j attr) value =
  match first_source table attr with
  | Some (dst, shard) =>
      match P !! layer_name j dst with
      | Some p => p' ← call_loader p value (Some shard); Ok (Some (<[layer_name j dst := p']> P))
      | None => load_stacked table P (layer_name j attr) value
      end
  | None => Ok None
  end.
Proof.
  induction 1 as [|[[packed source] sh] table Hs _ IH]; [done|]. cbn [load_stacked first_source]. cbn in Hs.
  rewrite contains_layer_name, replace_layer_name by done. destruct (contains _ _); [|exact IH].
  by destruct (P !! _).
Qed.

Lemma load_packed_layer table P j attr value :
  Forall (λ e : string * string * nat, letter_start e.1.2 = true) table →
  load_packed_kv table P (layer_name j attr) value =
  match first_source table attr with
  | Some (dst, shard) =>
      match P !! layer_name j dst with
      | Some p =>
          let shard_size := size0 (data p) / 2 in
          _ ← py_check ValueError (size0 value =? shard_size);
          t ← copy_ (shard * shard_size) shard_size value (data p);
          Ok (Some (<[layer_name j dst := {| data := t; weight_loader := weight_loader p |}]> P))
      | None => load_packed_kv table P (layer_name j attr) value
      end
  | None => Ok None
  end.
Proof.
  induction 1 as [|[[packed source] sh] table Hs _ IH]; [done|]. cbn [load_packed_kv first_source]. cbn in Hs.
  rewrite contains_layer_name, replace_layer_name by done. destruct (contains _ _); [|exact IH]. cbn [negb].
  by destruct (P !! _).
Qed.

Lemma tables_ok :
  Forall (λ e : string * string * Shard, letter_start e.1.2 = true) stacked ∧
  Forall (λ e : string * string * nat, letter_start e.1.2 = true) packed_kv.
Proof. split; repeat constructor. Qed.

(** A stacked parameter's loader. *)
Lemma call_stacked_ok dst sh t l value s off size : is_shape t s → written_at (RStacked dst sh) s l = Some (off, size) →
  is_shape value (resize size s) → off + size ≤ dim0 s →
  call_loader {| data := t; weight_loader := l |} value (Some sh) = Ok {| data := copy_at off value t; weight_loader := l |}.
Proof.
  intros Ht Hw Hv Hle. unfold call_loader. cbn [data weight_loader].
  assert (size0 value = size) as Hsz by (rewrite (is_shape_size0 _ _ Hv); by destruct s).
  assert (narrow 0 size value = Ok value) as Hn.
  { destruct (narrow_ok 0 size value _ Hv) as (v & -> & _ & E); [by destruct s|]. f_equal. apply E; [done|by destruct s]. }
  destruct l as [[q kv|sizes|]|]; try (by destruct sh).
  - unfold qkv_weight_loader.
    destruct sh; try done; injection Hw as <- <-; cbn [mbind result_bind fst snd]; rewrite Hn; cbn;
      by rewrite (load_shard_ok _ _ value t s).
  - destruct sh as [| | |i]; try done. cbn [written_at] in Hw. destruct (i <? length sizes) eqn:Hi; [|done]. injection Hw as <- <-.
    unfold merged_weight_loader. cbn [mbind result_bind]. rewrite Hi. cbn [py_assert py_check].
    rewrite Hsz, Nat.ltb_irrefl, Hn. cbn. by rewrite (load_shard_ok _ _ value t s).
Qed.

Lemma call_plain_ok dst t l value s off size : is_shape t s → written_at (RPlain dst) s l = Some (off, size) →
  is_shape value (resize size s) →
  call_loader {| data := t; weight_loader := l |} value None = Ok {| data := copy_at off value t; weight_loader := l |}.
Proof.
  intros Ht Hw Hv. unfold call_loader. cbn [data weight_loader].
  destruct l as [[q kv|sizes|]|]; try done; injection Hw as <- <-; replace (resize (dim0 s) s) with s in Hv by (by destruct s).
  - by rewrite (row_loader_ok value t s).
  - by rewrite (default_loader_ok value t s).
Qed.

(** One weight of a layer replaces its rows of its parameter. *)
Lemma load_weight_layer n P raw j attr value t l s off size :
  served_name n raw = Ok (layer_name j attr) →
  P !! layer_name j (route_dst (route_of attr)) = Some {| data := t; weight_loader := l |} → is_shape t s →
  written_at (route_of attr) s l = Some (off, size) → is_shape value (resize size s) → off + size ≤ dim0 s →
  load_weight n P (raw, value) =
    Ok (<[layer_name j (route_dst (route_of attr)) := {| data := copy_at off value t; weight_loader := l |}]> P).
Proof.
  intros Hname Hp Ht Hw Hv Hle. destruct tables_ok as [Hst Hpk].
  unfold load_weight. rewrite Hname. cbn [mbind result_bind]. rewrite load_stacked_layer by done. unfold route_of in *.
  destruct (first_source stacked attr) as [[dst sh]|].
  { cbn [route_dst] in *. rewrite Hp. by rewrite (call_stacked_ok dst sh t l value s off size). }
  rewrite load_packed_layer by done. destruct (first_source packed_kv attr) as [[dst i]|].
  - cbn [route_dst] in *. rewrite Hp. cbn [data weight_loader]. cbn [written_at] in Hw.
    assert (Some (i * (dim0 s / 2), dim0 s / 2) = Some (off, size)) as E by (by destruct l as [[]|]).
    injection E as <- <-. rewrite (is_shape_size0 t s Ht).
    rewrite (is_shape_size0 _ _ Hv). replace (dim0 (resize (dim0 s / 2) s)) with (dim0 s / 2) by (by destruct s).
    rewrite py_check_true by apply Nat.eqb_refl. cbn [mbind result_bind]. by rewrite (copy_ok _ _ value t s).
  - cbn [route_dst] in *. cbn [mbind result_bind]. rewrite Hp. by rewrite (call_plain_ok attr t l value s off size).
Qed.
