(* ===== verification/LatentLayerLoad.v ===== *)
(** * LatentLayerLoad: every tensor of a trained layer finds its rows

    For one layer: every entry of the checkpoint is written at rows of a declared parameter
    that hold, in the packed layer, what the entry holds; and every row of a packed parameter
    is written by some entry. *)

From Stdlib Require Import Reals Ascii.
From S2P Require Import Prelude TensorOps RealLaw LatentSampler RejectKernel MySpecModel ExtendAttention LatentStage DraftLayers LatentModel LatentRows LatentLoad LatentNames LatentTensors.
#[local] Open Scope nat_scope.
#[local] Arguments Nat.ltb : simpl never.
#[local] Arguments Nat.leb : simpl never.
#[local] Arguments Nat.eqb : simpl never.
#[local] Arguments Nat.div : simpl never.

(** ** Parts of a tensor *)

Lemma psum_find sizes r : r < psum sizes (length sizes) → ∃ k, k < length sizes ∧ psum sizes k ≤ r < psum sizes (S k).
Proof.
  assert (∀ n, n ≤ length sizes → r < psum sizes n → ∃ k, k < n ∧ psum sizes k ≤ r < psum sizes (S k)) as H.
  { induction n as [|n IH]; intros Hn Hr; [unfold psum in Hr; rewrite take_0 in Hr; cbn in Hr; lia|].
    destruct (decide (r < psum sizes n)) as [Hlt|]; [|exists n; lia].
    destruct IH as (k & Hk & Hk'); [lia|done|]. exists k. split; [lia|done]. }
  by apply H.
Qed.

Lemma concat_part {A} (ls : list (list A)) k l r : ls !! k = Some l → r < length l →
  concat ls !! (psum (length <$> ls) k + r) = l !! r.
Proof.
  revert k. induction ls as [|x ls IH]; intros [|k] Hk Hr; try done.
  - injection Hk as ->. unfold psum. cbn. by rewrite lookup_app_l by done.
  - unfold psum. cbn. unfold Datatypes.id. rewrite lookup_app_r by lia.
    replace (length x + sum_list (take k (length <$> ls)) + r - length x) with (psum (length <$> ls) k + r) by (unfold psum; lia).
    by apply IH.
Qed.

Section module.
Context (DL : list Declared) (TL S : list (string * Tensor)).

(** The entry is written at row [off] of [dst], whose packed tensor has it there. *)
Definition entry_at (e : string * Tensor) (dst : string) (off : nat) : Prop :=
  route_dst (route_of e.1) = dst ∧ ∃ s l t,
    (dst, s, l) ∈ DL ∧ (dst, t) ∈ TL ∧ is_shape t s ∧ written_at (route_of e.1) s l = Some (off, size0 e.2) ∧
    is_shape e.2 (resize (size0 e.2) s) ∧ off + size0 e.2 ≤ dim0 s ∧
    ∀ r, r < size0 e.2 → trow t (off + r) = trow e.2 r.

Definition placed (e : string * Tensor) : Prop := ∃ dst off, entry_at e dst off.

Definition covered (d : string * Tensor) : Prop :=
  ∀ r, r < size0 d.2 → ∃ e off, e ∈ S ∧ entry_at e d.1 off ∧ off ≤ r < off + size0 e.2.

(** A tensor made of parts. *)
Lemma tensor_parts dst s l t (parts : list (string * Tensor)) :
  let sizes := (λ e : string * Tensor, size0 e.2) <$> parts in
  (dst, s, l) ∈ DL → (dst, t) ∈ TL → is_shape t s → parts ⊆ S → sum_list sizes = dim0 s →
  (∀ k e, parts !! k = Some e →
     route_dst (route_of e.1) = dst ∧ written_at (route_of e.1) s l = Some (psum sizes k, size0 e.2) ∧
     is_shape e.2 (resize (size0 e.2) s) ∧ ∀ r, r < size0 e.2 → trow t (psum sizes k + r) = trow e.2 r) →
  Forall placed parts ∧ covered (dst, t).
Proof.
  intros sizes Hd Ht Hs HS Hsum Hk.
  assert (psum sizes (length sizes) = dim0 s) as Hall by (unfold psum; by rewrite firstn_all).
  assert (∀ k e, parts !! k = Some e → entry_at e dst (psum sizes k) ∧ psum sizes (Datatypes.S k) = psum sizes k + size0 e.2) as Hat.
  { intros k e He. destruct (Hk k e He) as (Hr & Hw & Hes & Hrow).
    assert (k < length sizes) as Hlt by (unfold sizes; rewrite length_fmap; by eapply lookup_lt_Some).
    assert (psum sizes (Datatypes.S k) = psum sizes k + size0 e.2) as HS'.
    { rewrite psum_S by done. unfold ld, sizes. by rewrite list_lookup_fmap, He. }
    split; [|done]. split; [done|]. exists s, l, t. repeat (split; [done|]). split; [|done].
    pose proof (psum_le sizes (Datatypes.S k) (length sizes) ltac:(lia)). lia. }
  split.
  - apply Forall_lookup_2. intros k e He. exists dst, (psum sizes k). by apply Hat.
  - intros r Hr. cbn in Hr. rewrite (is_shape_size0 t s Hs), <- Hall in Hr.
    destruct (psum_find sizes r Hr) as (k & Hlt & Hk1).
    destruct (lookup_lt_is_Some_2 parts k) as [e He]; [unfold sizes in Hlt; by rewrite length_fmap in Hlt|].
    destruct (Hat k e He) as [He' HS']. exists e, (psum sizes k). split; [|split; [done|lia]].
    apply HS. by eapply list_elem_of_lookup_2.
Qed.

Lemma vector_single attr w l : (attr, Shape1 (length w), l) ∈ DL → (attr, Vector w) ∈ TL → (attr, Vector w) ∈ S →
  route_of attr = RPlain attr → l = None → Forall placed [(attr, Vector w)] ∧ covered (attr, Vector w).
Proof.
  intros Hd Ht HS Hr ->. apply (tensor_parts attr (Shape1 (length w)) None); try done.
  - intros x ->%list_elem_of_singleton. done.
  - intros [|k] e He; [|done]. injection He as <-. cbn. rewrite Hr. cbn. done.
Qed.

(** ** Packed projections *)

(** [n] rows of [cols] cells, and a bias of [n] when there is one. *)
Definition linear_shaped (has_bias : bool) (cols n : nat) (l : Linear) : Prop :=
  linear_ok has_bias n l ∧ Forall (λ r, length r = cols) (weight l).

Definition sfxs : list string := [".weight"; ".bias"].

Lemma linear_parts (dst : string) loader cols rows has_bias (parts : list (string * Linear)) (P : Linear) (sizes : list nat) :
  declare_linear dst cols rows has_bias loader ⊆ DL → linear_state dst P ⊆ TL →
  weight P = concat ((λ p, weight p.2) <$> parts) →
  bias P = (if has_bias then Some (concat ((λ p, default [] (bias p.2)) <$> parts)) else None) →
  sum_list sizes = rows → length sizes = length parts →
  (∀ k p, parts !! k = Some p →
     linear_shaped has_bias cols (ld sizes k) p.2 ∧ linear_state p.1 p.2 ⊆ S ∧
     ∀ sfx, sfx ∈ sfxs → route_dst (route_of (p.1 +:+ sfx)) = dst +:+ sfx ∧
       ∀ s, dim0 s = rows → written_at (route_of (p.1 +:+ sfx)) s loader = Some (psum sizes k, ld sizes k)) →
  Forall placed (concat ((λ p, linear_state p.1 p.2) <$> parts)) ∧ Forall covered (linear_state dst P).
Proof.
  intros HD HT Hw Hb Hsum Hlen Hparts.
  assert (Hws : (λ p, length (weight p.2)) <$> parts = sizes).
  { apply list_eq_same_length with (n := length parts); [done|by rewrite length_fmap|]. intros k x y Hk Hx Hy.
    rewrite list_lookup_fmap in Hx. destruct (parts !! k) as [p|] eqn:Hp; [|done]. injection Hx as <-.
    destruct (Hparts k p Hp) as ([[Hl _] _] & _). rewrite Hl. unfold ld. by rewrite Hy. }
  assert (HwP : length (weight P) = rows ∧ Forall (λ r, length r = cols) (weight P)).
  { rewrite Hw. split.
    - rewrite length_concat, <- list_fmap_compose. unfold compose. by rewrite Hws.
    - apply Forall_concat, Forall_fmap, Forall_lookup_2. intros k p Hp. apply (Hparts k p Hp). }
  destruct (tensor_parts (dst +:+ ".weight") (Shape2 rows cols) loader (Matrix (weight P))
    ((λ p, (p.1 +:+ ".weight", Matrix (weight p.2))) <$> parts)) as [Hpw Hcw]; try done.
  { apply HD. by left. }
  { apply HT. by left. }
  { intros e He. apply list_elem_of_fmap in He as (p & -> & Hp). apply list_elem_of_lookup_1 in Hp as [k Hp].
    apply (Hparts k p Hp). by left. }
  { rewrite <- list_fmap_compose. unfold compose. cbn. by rewrite Hws. }
  { intros k e He. rewrite list_lookup_fmap in He. destruct (parts !! k) as [p|] eqn:Hp; [|done]. injection He as <-. cbn.
    destruct (Hparts k p Hp) as ([[Hl _] Hr] & _ & Hroute). destruct (Hroute ".weight") as [Hdst Hwr]; [by left|].
    rewrite <- list_fmap_compose. unfold compose. cbn. rewrite Hws, Hl. split; [done|]. split; [by apply Hwr|].
    split; [done|]. intros r Hlt. f_equal. rewrite Hw, <- Hws.
    rewrite <- (concat_part ((λ p : string * Linear, weight p.2) <$> parts) k (weight p.2) r); [|by rewrite list_lookup_fmap, Hp|by rewrite Hl].
    by rewrite <- list_fmap_compose. }
  destruct has_bias.
  - assert (Hbs : (λ p, length (default [] (bias p.2))) <$> parts = sizes).
    { rewrite <- Hws. apply list_fmap_ext. intros k p Hp. destruct (Hparts k p Hp) as ([[Hl Hbias] _] & _).
      rewrite Hl. destruct (bias p.2); [by destruct Hbias|done]. }
    destruct (tensor_parts (dst +:+ ".bias") (Shape1 rows) loader (Vector (default [] (bias P)))
      ((λ p, (p.1 +:+ ".bias", Vector (default [] (bias p.2)))) <$> parts)) as [Hpb Hcb]; try done.
    { apply HD. right. by left. }
    { apply HT. unfold linear_state. rewrite Hb. right. by left. }
    { cbn. rewrite Hb. cbn. unfold id. rewrite length_concat, <- list_fmap_compose. unfold compose. by rewrite Hbs. }
    { intros e He. apply list_elem_of_fmap in He as (p & -> & Hp). apply list_elem_of_lookup_1 in Hp as [k Hp].
      destruct (Hparts k p Hp) as ([[_ Hbias] _] & HS' & _). apply HS'. unfold linear_state.
      destruct (bias p.2); [right; by left|done]. }
    { rewrite <- list_fmap_compose. unfold compose. cbn. by rewrite Hbs. }
    { intros k e He. rewrite list_lookup_fmap in He. destruct (parts !! k) as [p|] eqn:Hp; [|done]. injection He as <-. cbn.
      destruct (Hparts k p Hp) as ([[Hl Hbias] Hr] & _ & Hroute). destruct (Hroute ".bias") as [Hdst Hwr]; [right; by left|].
      assert (length (default [] (bias p.2)) = ld sizes k) as Hlb by (destruct (bias p.2); [by destruct Hbias|done]).
      rewrite <- list_fmap_compose. unfold compose. cbn. rewrite Hbs, Hlb. split; [done|]. split; [by apply Hwr|].
      split; [done|]. intros r Hlt. f_equal. rewrite Hb. cbn. rewrite <- Hbs.
      rewrite <- (concat_part ((λ p : string * Linear, default [] (bias p.2)) <$> parts) k (default [] (bias p.2)) r);
        [|by rewrite list_lookup_fmap, Hp|by rewrite Hlb].
      by rewrite <- list_fmap_compose. }
    split.
    + apply Forall_concat, Forall_fmap, Forall_lookup_2. intros k p Hp. unfold compose, linear_state.
      rewrite Forall_fmap in Hpw, Hpb. pose proof (Forall_lookup_1 _ _ _ _ Hpw Hp). pose proof (Forall_lookup_1 _ _ _ _ Hpb Hp) as Hpb'.
      unfold compose in Hpb'. destruct (bias p.2); by repeat constructor.
    + unfold linear_state. rewrite Hb in Hcb |- *. by repeat constructor.
  - split.
    + apply Forall_concat, Forall_fmap, Forall_lookup_2. intros k p Hp. unfold compose, linear_state.
      rewrite Forall_fmap in Hpw. pose proof (Forall_lookup_1 _ _ _ _ Hpw Hp).
      destruct (Hparts k p Hp) as ([[_ Hbias] _] & _). destruct (bias p.2); [by destruct Hbias|]. by repeat constructor.
    + unfold linear_state. rewrite Hb. by repeat constructor.
Qed.
End module.

(** ** The routes of a layer's projections *)

Ltac route_tac := intros sfx [->|[->|[]%not_elem_of_nil]%elem_of_cons]%elem_of_cons; vm_compute; reflexivity.

Lemma route_q sfx : sfx ∈ sfxs → route_of ("self_attn.q_proj" +:+ sfx) = RStacked ("self_attn.qkv_proj" +:+ sfx) ShardQ.
Proof. revert sfx. route_tac. Qed.
Lemma route_k_noise noise sfx : noise ∈ ["noise"; "mask"]%string → sfx ∈ sfxs →
  route_of (("self_attn.k_proj_" +:+ noise) +:+ sfx) = RStacked ("self_attn.qkv_proj" +:+ sfx) ShardK.
Proof. intros [->|[->|[]%not_elem_of_nil]%elem_of_cons]%elem_of_cons; revert sfx; route_tac. Qed.
Lemma route_v_noise noise sfx : noise ∈ ["noise"; "mask"]%string → sfx ∈ sfxs →
  route_of (("self_attn.v_proj_" +:+ noise) +:+ sfx) = RStacked ("self_attn.qkv_proj" +:+ sfx) ShardV.
Proof. intros [->|[->|[]%not_elem_of_nil]%elem_of_cons]%elem_of_cons; revert sfx; route_tac. Qed.
Lemma route_k sfx : sfx ∈ sfxs → route_of ("self_attn.k_proj" +:+ sfx) = RPacked ("self_attn.kv_ctx" +:+ sfx) 0.
Proof. revert sfx. route_tac. Qed.
Lemma route_v sfx : sfx ∈ sfxs → route_of ("self_attn.v_proj" +:+ sfx) = RPacked ("self_attn.kv_ctx" +:+ sfx) 1.
Proof. revert sfx. route_tac. Qed.
Lemma route_k_latent sfx : sfx ∈ sfxs → route_of ("self_attn.k_proj_latent" +:+ sfx) = RPacked ("self_attn.kv_latent" +:+ sfx) 0.
Proof. revert sfx. route_tac. Qed.
Lemma route_v_latent sfx : sfx ∈ sfxs → route_of ("self_attn.v_proj_latent" +:+ sfx) = RPacked ("self_attn.kv_latent" +:+ sfx) 1.
Proof. revert sfx. route_tac. Qed.
Lemma route_o sfx : sfx ∈ sfxs → route_of ("self_attn.o_proj" +:+ sfx) = RPlain ("self_attn.o_proj" +:+ sfx).
Proof. revert sfx. route_tac. Qed.
Lemma route_gate sfx : sfx ∈ sfxs → route_of ("mlp.gate_proj" +:+ sfx) = RStacked ("mlp.gate_up_proj" +:+ sfx) (ShardIdx 0).
Proof. revert sfx. route_tac. Qed.
Lemma route_up sfx : sfx ∈ sfxs → route_of ("mlp.up_proj" +:+ sfx) = RStacked ("mlp.gate_up_proj" +:+ sfx) (ShardIdx 1).
Proof. revert sfx. route_tac. Qed.
Lemma route_down sfx : sfx ∈ sfxs → route_of ("mlp.down_proj" +:+ sfx) = RPlain ("mlp.down_proj" +:+ sfx).
Proof. revert sfx. route_tac. Qed.

(** ** A layer *)

Section layer.
Context (mc : ModelConfig).
Notation cfg := (mc_config mc).
Notation hidden := (hidden_size mc).
Notation q_size := (num_attention_heads cfg * head_dim cfg).
Notation kv_size := (num_key_value_heads cfg * head_dim cfg).
Notation has_bias := (attention_bias mc).

Record attn_shaped (a : MySpecAttention) : Prop := {
  as_q : linear_shaped has_bias hidden q_size (q_proj a);
  as_k : linear_shaped has_bias hidden kv_size (k_proj a);
  as_v : linear_shaped has_bias hidden kv_size (v_proj a);
  as_kn : linear_shaped has_bias hidden kv_size (k_proj_noise a);
  as_vn : linear_shaped has_bias hidden kv_size (v_proj_noise a);
  as_o : linear_shaped has_bias q_size hidden (o_proj a);
  as_qn : length (q_norm a) = head_dim cfg;
  as_kno : length (k_norm a) = head_dim cfg
}.

Record block_shaped {A} (l : MySpecDecoderLayer A) : Prop := {
  bs_gate : linear_shaped false hidden (intermediate_size mc) (gate_proj l);
  bs_up : linear_shaped false hidden (intermediate_size mc) (up_proj l);
  bs_down : linear_shaped false (intermediate_size mc) hidden (down_proj l);
  bs_input : length (input_layernorm l) = hidden;
  bs_post : length (post_attention_layernorm l) = hidden
}.

(** The parameters of a served layer, by name. *)
Definition packed_state (l : LatentSpecLayer) : list (string * Tensor) :=
  norm_state "input_layernorm" (in_norm l) ::
  linear_state "self_attn.qkv_proj" (qkv_proj l) ++ linear_state "self_attn.o_proj" (out_proj l) ++
  [norm_state "self_attn.q_norm" (qn_weight l); norm_state "self_attn.k_norm" (kn_weight l)] ++
  linear_state "self_attn.kv_ctx" (kv_ctx l) ++
  match kv_latent l with Some w => linear_state "self_attn.kv_latent" w | None => [] end ++
  [norm_state "post_attention_layernorm" (post_norm l)] ++
  linear_state "mlp.gate_up_proj" (gate_up_proj l) ++ linear_state "mlp.down_proj" (down_proj_w l).

Lemma Forall_packed (Q : string * Tensor → Prop) l :
  Q (norm_state "input_layernorm" (in_norm l)) → Forall Q (linear_state "self_attn.qkv_proj" (qkv_proj l)) →
  Forall Q (linear_state "self_attn.o_proj" (out_proj l)) → Q (norm_state "self_attn.q_norm" (qn_weight l)) →
  Q (norm_state "self_attn.k_norm" (kn_weight l)) → Forall Q (linear_state "self_attn.kv_ctx" (kv_ctx l)) →
  (match kv_latent l with Some w => Forall Q (linear_state "self_attn.kv_latent" w) | None => True end) →
  Q (norm_state "post_attention_layernorm" (post_norm l)) → Forall Q (linear_state "mlp.gate_up_proj" (gate_up_proj l)) →
  Forall Q (linear_state "mlp.down_proj" (down_proj_w l)) → Forall Q (packed_state l).
Proof.
  intros. unfold packed_state. rewrite Forall_cons, !Forall_app, !Forall_cons. split_and!; try done; [].
  by destruct (kv_latent l).
Qed.

(** Two projections one after the other, with both biases or none. *)
Lemma cat_bias n m a b : linear_ok has_bias n a → linear_ok has_bias m b →
  bias (cat_linear a b) = if has_bias then Some (default [] (bias a) ++ default [] (bias b)) else None.
Proof.
  intros [_ Ha] [_ Hb]. unfold cat_linear. cbn.
  destruct (bias a), (bias b); [by destruct Ha as [-> _]|by destruct Ha as [Ha _]; rewrite Ha in Hb|
    by destruct Hb as [Hb _]; rewrite Hb in Ha|by rewrite Ha].
Qed.

Lemma psum3 q kv : psum [q; kv; kv] 0 = 0 ∧ psum [q; kv; kv] 1 = q ∧ psum [q; kv; kv] 2 = q + kv.
Proof. unfold psum. cbn. unfold Datatypes.id. lia. Qed.

Lemma half_double n : 2 * n / 2 = n.
Proof. by rewrite Nat.mul_comm, Nat.div_mul. Qed.

(** One or two projections packed into one parameter. *)
Lemma one_part DL TL S dst loader cols rows bias_ src l :
  declare_linear dst cols rows bias_ loader ⊆ DL → linear_state dst l ⊆ TL → linear_state src l ⊆ S →
  linear_shaped bias_ cols rows l → (loader = None ∨ loader = Some RowParallelLinear) →
  (∀ sfx, sfx ∈ sfxs → route_of (src +:+ sfx) = RPlain (dst +:+ sfx)) →
  Forall (placed DL TL) (linear_state src l) ∧ Forall (covered DL TL S) (linear_state dst l).
Proof.
  intros HD HT HS Hl Hloader Hr.
  destruct (linear_parts DL TL S dst loader cols rows bias_ [(src, l)] l [rows]) as [Hp Hc]; try done.
  - cbn. by rewrite app_nil_r.
  - destruct Hl as [[_ Hb] _]. cbn. destruct (bias l); [destruct Hb as [-> _]; cbn; by rewrite app_nil_r|by rewrite Hb].
  - intros [|k] p Hp; [|done]. injection Hp as <-. split; [done|]. split; [done|]. intros sfx Hsfx.
    cbn [fst]. rewrite Hr by done. split; [done|]. intros s <-. by destruct Hloader as [-> | ->].
  - split; [|done]. cbn [fmap list_fmap concat fst snd] in Hp. by rewrite app_nil_r in Hp.
Qed.

Lemma two_parts DL TL S dst loader cols size bias_ src1 src2 l1 l2 :
  declare_linear dst cols (2 * size) bias_ loader ⊆ DL → linear_state dst (cat_linear l1 l2) ⊆ TL →
  linear_state src1 l1 ⊆ S → linear_state src2 l2 ⊆ S →
  linear_shaped bias_ cols size l1 → linear_shaped bias_ cols size l2 →
  bias (cat_linear l1 l2) = (if bias_ then Some (default [] (bias l1) ++ default [] (bias l2)) else None) →
  (∀ sfx s, sfx ∈ sfxs → dim0 s = 2 * size →
     route_dst (route_of (src1 +:+ sfx)) = dst +:+ sfx ∧ written_at (route_of (src1 +:+ sfx)) s loader = Some (0, size) ∧
     route_dst (route_of (src2 +:+ sfx)) = dst +:+ sfx ∧ written_at (route_of (src2 +:+ sfx)) s loader = Some (size, size)) →
  Forall (placed DL TL) (linear_state src1 l1) ∧ Forall (placed DL TL) (linear_state src2 l2) ∧
  Forall (covered DL TL S) (linear_state dst (cat_linear l1 l2)).
Proof.
  intros HD HT HS1 HS2 Hl1 Hl2 Hb Hr.
  destruct (linear_parts DL TL S dst loader cols (2 * size) bias_ [(src1, l1); (src2, l2)] (cat_linear l1 l2) [size; size]) as [Hp Hc]; try done.
  - cbn. by rewrite app_nil_r.
  - rewrite Hb. cbn. by rewrite app_nil_r.
  - intros [|[|k]] p Hp; [| |done]; injection Hp as <-; (split; [done|]; split; [done|]; intros sfx Hsfx; cbn [fst]).
    + split; [by apply (Hr sfx (Shape1 (2 * size)))|]. intros s Hs. destruct (Hr sfx s Hsfx Hs) as (_ & E & _). exact E.
    + split; [by apply (Hr sfx (Shape1 (2 * size)))|]. intros s Hs. destruct (Hr sfx s Hsfx Hs) as (_ & _ & _ & E). rewrite E.
      unfold psum. cbn. unfold Datatypes.id. by rewrite Nat.add_0_r.
  - cbn [fmap list_fmap concat fst snd] in Hp. rewrite app_nil_r, Forall_app in Hp. by destruct Hp.
Qed.

Section one_layer.
Context {A : Type} (lay : MySpecDecoderLayer A) (a : MySpecAttention) (noise : string) (i : nat) (with_latent : bool)
  (kvl : option Linear) (S : list (string * Tensor)).
Hypothesis Hnoise : noise ∈ ["noise"; "mask"]%string.
Hypothesis Ha : attn_shaped a.
Hypothesis Hb : block_shaped lay.
Hypothesis HS : layer_state (attention_state noise a) lay ⊆ S.
Notation DL := (declare_layer mc with_latent).
Notation pl := (packed_layer i lay a kvl).
Notation TL := (packed_state pl).

Ltac in_list := intros x Hx; unfold declare_layer, packed_state, layer_state, attention_state in *;
  repeat first [rewrite elem_of_cons | rewrite elem_of_app]; tauto.

Lemma HSub (l : list (string * Tensor)) : l ⊆ layer_state (attention_state noise a) lay → l ⊆ S.
Proof. intros H x Hx. apply HS, H, Hx. Qed.

Lemma load_qkv :
  Forall (placed DL TL) (linear_state "self_attn.q_proj" (q_proj a)) ∧
  Forall (placed DL TL) (linear_state ("self_attn.k_proj_" +:+ noise) (k_proj_noise a)) ∧
  Forall (placed DL TL) (linear_state ("self_attn.v_proj_" +:+ noise) (v_proj_noise a)) ∧
  Forall (covered DL TL S) (linear_state "self_attn.qkv_proj" (qkv_proj pl)).
Proof.
  destruct (psum3 q_size kv_size) as (E0 & E1 & E2).
  destruct (linear_parts DL TL S "self_attn.qkv_proj" (Some (QKVParallelLinear q_size kv_size)) hidden (q_size + 2 * kv_size) has_bias
    [("self_attn.q_proj"%string, q_proj a); ("self_attn.k_proj_" +:+ noise, k_proj_noise a); ("self_attn.v_proj_" +:+ noise, v_proj_noise a)]
    (qkv_proj pl) [q_size; kv_size; kv_size]) as [Hp Hc].
  - in_list.
  - in_list.
  - cbn. by rewrite app_nil_r.
  - destruct (as_q a Ha) as [Hq _], (as_kn a Ha) as [Hk _], (as_vn a Ha) as [Hv _].
    cbn [qkv_proj packed_layer]. rewrite (cat_bias q_size (kv_size + kv_size)) by (done || by apply cat_linear_ok).
    rewrite (cat_bias kv_size kv_size) by done. destruct has_bias; [|done]. cbn. by rewrite app_nil_r.
  - cbn. unfold Datatypes.id. lia.
  - done.
  - intros [|[|[|k]]] p Hp; [| | |done]; injection Hp as <-; cbn [fst snd].
    + split; [apply Ha|]. split; [apply HSub; in_list|]. intros sfx Hsfx. rewrite route_q by done. split; [done|]. intros s _. by rewrite E0.
    + split; [apply Ha|]. split; [apply HSub; in_list|]. intros sfx Hsfx. rewrite route_k_noise by done. split; [done|]. intros s _. by rewrite E1.
    + split; [apply Ha|]. split; [apply HSub; in_list|]. intros sfx Hsfx. rewrite route_v_noise by done. split; [done|]. intros s _. by rewrite E2.
  - cbn [fmap list_fmap concat fst snd] in Hp. rewrite app_nil_r, !Forall_app in Hp. tauto.
Qed.

Lemma load_ctx :
  Forall (placed DL TL) (linear_state "self_attn.k_proj" (k_proj a)) ∧
  Forall (placed DL TL) (linear_state "self_attn.v_proj" (v_proj a)) ∧
  Forall (covered DL TL S) (linear_state "self_attn.kv_ctx" (kv_ctx pl)).
Proof.
  apply (two_parts DL TL S "self_attn.kv_ctx" None hidden kv_size has_bias); try (in_list || (apply HSub; in_list) || apply Ha).
  - destruct (as_k a Ha) as [Hk _], (as_v a Ha) as [Hv _]. by apply (cat_bias kv_size kv_size).
  - intros sfx s Hsfx Hs. rewrite route_k, route_v by done. cbn [written_at route_dst]. rewrite Hs, half_double, Nat.mul_1_l. done.
Qed.

Lemma load_gate_up :
  Forall (placed DL TL) (linear_state "mlp.gate_proj" (gate_proj lay)) ∧
  Forall (placed DL TL) (linear_state "mlp.up_proj" (up_proj lay)) ∧
  Forall (covered DL TL S) (linear_state "mlp.gate_up_proj" (gate_up_proj pl)).
Proof.
  apply (two_parts DL TL S "mlp.gate_up_proj" (Some (MergedColumnParallelLinear [intermediate_size mc; intermediate_size mc]))
    hidden (intermediate_size mc) false); try (in_list || (apply HSub; in_list) || apply Hb).
  - destruct (bs_gate lay Hb) as [[_ Hg] _]. unfold cat_linear. cbn. by destruct (bias (gate_proj lay)); [destruct Hg|].
  - intros sfx s Hsfx Hs. rewrite route_gate, route_up by done. cbn. unfold Datatypes.id. by rewrite Nat.add_0_r.
Qed.

Lemma load_o :
  Forall (placed DL TL) (linear_state "self_attn.o_proj" (o_proj a)) ∧
  Forall (covered DL TL S) (linear_state "self_attn.o_proj" (out_proj pl)).
Proof.
  apply (one_part DL TL S _ (Some RowParallelLinear) q_size hidden has_bias);
    [in_list|in_list|apply HSub; in_list|apply Ha|by right|apply route_o].
Qed.

Lemma load_down :
  Forall (placed DL TL) (linear_state "mlp.down_proj" (down_proj lay)) ∧
  Forall (covered DL TL S) (linear_state "mlp.down_proj" (down_proj_w pl)).
Proof.
  apply (one_part DL TL S _ (Some RowParallelLinear) (intermediate_size mc) hidden false);
    [in_list|in_list|apply HSub; in_list|apply Hb|by right|apply route_down].
Qed.

Lemma load_norm name w n : length w = n → declare_norm name n ∈ DL → norm_state name w ∈ TL →
  norm_state name w ∈ layer_state (attention_state noise a) lay → route_of (name +:+ ".weight") = RPlain (name +:+ ".weight") →
  placed DL TL (norm_state name w) ∧ covered DL TL S (norm_state name w).
Proof.
  intros <- Hd Ht Hs Hr. destruct (vector_single DL TL S (name +:+ ".weight") w None) as [Hp Hc]; try done; [by apply HS|].
  split; [by apply Forall_inv in Hp|done].
Qed.

Ltac member :=
  unfold declare_layer, packed_state, layer_state, attention_state; repeat first [rewrite elem_of_cons | rewrite elem_of_app]; tauto.

Lemma load_norms :
  Forall (λ e, placed DL TL e ∧ covered DL TL S e)
    [norm_state "self_attn.q_norm" (q_norm a); norm_state "self_attn.k_norm" (k_norm a);
     norm_state "input_layernorm" (input_layernorm lay); norm_state "post_attention_layernorm" (post_attention_layernorm lay)].
Proof.
  repeat apply Forall_cons_2; [..|apply Forall_nil_2].
  - apply (load_norm _ _ (head_dim cfg)); [apply Ha|member..|by vm_compute].
  - apply (load_norm _ _ (head_dim cfg)); [apply Ha|member..|by vm_compute].
  - apply (load_norm _ _ hidden); [apply Hb|member..|by vm_compute].
  - apply (load_norm _ _ hidden); [apply Hb|member..|by vm_compute].
Qed.

(** The layer, but for the latent projections. *)
Lemma layer_load :
  (match kvl with Some P => Forall (covered DL TL S) (linear_state "self_attn.kv_latent" P) | None => True end) →
  Forall (placed DL TL) (layer_state (attention_state noise a) lay) ∧ Forall (covered DL TL S) (packed_state pl).
Proof.
  intros Hlat. destruct load_qkv as (Q1 & Q2 & Q3 & Q4), load_ctx as (C1 & C2 & C3), load_gate_up as (G1 & G2 & G3),
    load_o as (O1 & O2), load_down as (D1 & D2). pose proof load_norms as N. rewrite !Forall_cons in N.
  split.
  - unfold layer_state, attention_state. rewrite !Forall_app, !Forall_cons. split_and!; first [apply Forall_nil_2|tauto].
  - apply Forall_packed; try tauto.
Qed.
End one_layer.

(** The latent projections. *)
Lemma load_latent {A} (lay : MySpecDecoderLayer A) (m : MySpecMaskAttention) i S :
  let pl := packed_layer i lay (mask_base m) (Some (latent_kv_of m)) in
  linear_shaped has_bias hidden kv_size (k_proj_latent m) → linear_shaped has_bias hidden kv_size (v_proj_latent m) →
  linear_state "self_attn.k_proj_latent" (k_proj_latent m) ⊆ S → linear_state "self_attn.v_proj_latent" (v_proj_latent m) ⊆ S →
  Forall (placed (declare_layer mc true) (packed_state pl)) (linear_state "self_attn.k_proj_latent" (k_proj_latent m)) ∧
  Forall (placed (declare_layer mc true) (packed_state pl)) (linear_state "self_attn.v_proj_latent" (v_proj_latent m)) ∧
  Forall (covered (declare_layer mc true) (packed_state pl) S) (linear_state "self_attn.kv_latent" (latent_kv_of m)).
Proof.
  intros pl Hk Hv Sk Sv.
  apply (two_parts (declare_layer mc true) (packed_state pl) S "self_attn.kv_latent" None hidden kv_size has_bias); try done.
  - intros x Hx. unfold declare_layer. repeat first [rewrite elem_of_cons | rewrite elem_of_app]. tauto.
  - intros x Hx. unfold packed_state. cbn [kv_latent pl packed_layer]. repeat first [rewrite elem_of_cons | rewrite elem_of_app]. tauto.
  - destruct Hk as [Hk _], Hv as [Hv _]. by apply (cat_bias kv_size kv_size).
  - intros sfx s Hsfx Hs. rewrite route_k_latent, route_v_latent by done. cbn [written_at route_dst]. rewrite Hs, half_double, Nat.mul_1_l. done.
Qed.

(** Both kinds of layer. *)
Lemma latent_layer_load i (l : MySpecDecoderLayer MySpecAttention) :
  attn_shaped (self_attn l) → block_shaped l →
  let S := layer_state (attention_state "noise" (self_attn l)) l in
  let pl := packed_layer i l (self_attn l) None in
  Forall (placed (declare_layer mc false) (packed_state pl)) S ∧ Forall (covered (declare_layer mc false) (packed_state pl) S) (packed_state pl).
Proof. intros Ha Hb S pl. by apply layer_load; [by left| | | |]. Qed.

Lemma mask_layer_load i (l : MySpecDecoderLayer MySpecMaskAttention) :
  attn_shaped (mask_base (self_attn l)) → block_shaped l →
  linear_shaped has_bias hidden kv_size (k_proj_latent (self_attn l)) →
  linear_shaped has_bias hidden kv_size (v_proj_latent (self_attn l)) →
  let S := layer_state (mask_attention_state (self_attn l)) l in
  let pl := packed_layer i l (mask_base (self_attn l)) (Some (latent_kv_of (self_attn l))) in
  Forall (placed (declare_layer mc true) (packed_state pl)) S ∧ Forall (covered (declare_layer mc true) (packed_state pl) S) (packed_state pl).
Proof.
  intros Ha Hb Hk Hv S pl.
  destruct (load_latent l (self_attn l) i S) as (L1 & L2 & L3); [done|done| | |].
  { intros x Hx. unfold S, layer_state, mask_attention_state. rewrite !elem_of_app. tauto. }
  { intros x Hx. unfold S, layer_state, mask_attention_state. rewrite !elem_of_app. tauto. }
  destruct (layer_load l (mask_base (self_attn l)) "mask" i true (Some (latent_kv_of (self_attn l))) S) as [P C]; try done.
  { right. by left. }
  { intros x Hx. unfold S, layer_state, mask_attention_state in *. rewrite !elem_of_app in *. tauto. }
  split; [|done]. unfold layer_state in P. rewrite !Forall_app in P. destruct P as (PA & PG & PU & PD & PN).
  unfold S, layer_state, mask_attention_state. rewrite !Forall_app. split_and!; assumption.
Qed.
End layer.
