(* ===== verification/LatentCheckpoint.v ===== *)
(** * LatentCheckpoint: loading a checkpoint gives the packed model

    Composes [LatentNames], [LatentTensors] and [LatentLayerLoad]: in any order of the entries of
    a checkpoint, with or without a module prefix, repeated or among the entries of the
    heads, over any content of the new parameters, [load_weights] returns [packed_model]. *)

From Stdlib Require Import Reals Ascii.
From S2P Require Import Prelude TensorOps RealLaw LatentSampler RejectKernel MySpecModel ExtendAttention LatentStage DraftLayers LatentModel LatentRows LatentLoad LatentNames LatentTensors LatentLayerLoad.
#[local] Open Scope nat_scope.
#[local] Arguments Nat.ltb : simpl never.
#[local] Arguments Nat.leb : simpl never.
#[local] Arguments Nat.eqb : simpl never.
#[local] Arguments Nat.div : simpl never.

(** ** The shapes of a checkpoint *)

Record checkpoint_shaped (mc : ModelConfig) (ck : Checkpoint) : Prop := {
  cs_config : mc_config mc = ck_config ck;
  cs_tokens : mc_num_latent_tokens mc = ck_num_latent_tokens ck;
  cs_block : mc_block_size mc = ck_block_size ck;
  cs_latent_id : mc_latent_token_id mc = ck_latent_token_id ck;
  cs_num_latent : num_latent_layers (mc_config mc) = length (ck_latent_layers ck);
  cs_num_layers : num_hidden_layers mc = length (ck_layers ck);
  cs_embed : is_shape (Matrix (ck_embed_weight ck)) (Shape2 (vocab_size mc) (hidden_size mc));
  cs_fc : linear_shaped false (num_target_layers mc * hidden_size mc) (hidden_size mc) (ck_fc ck);
  cs_hidden_norm : length (ck_hidden_norm ck) = hidden_size mc;
  cs_latent_norm : length (ck_latent_hidden_norm ck) = hidden_size mc;
  cs_norm : length (ck_norm ck) = hidden_size mc;
  cs_latent_layers i l : ck_latent_layers ck !! i = Some l → attn_shaped mc (self_attn l) ∧ block_shaped mc l;
  cs_layers i l : ck_layers ck !! i = Some l →
    attn_shaped mc (mask_base (self_attn l)) ∧ block_shaped mc l ∧
    linear_shaped (attention_bias mc) (hidden_size mc) (num_key_value_heads (mc_config mc) * head_dim (mc_config mc)) (k_proj_latent (self_attn l)) ∧
    linear_shaped (attention_bias mc) (hidden_size mc) (num_key_value_heads (mc_config mc) * head_dim (mc_config mc)) (v_proj_latent (self_attn l))
}.

(** ** Declared names *)

Lemma fmap_bind_list {A B C} (f : B → C) (g : A → list B) (l : list A) : f <$> (l ≫= g) = l ≫= (λ x, f <$> g x).
Proof. induction l as [|x l IH]; [done|]. cbn. by rewrite fmap_app, IH. Qed.

Section declared.
Context (mc : ModelConfig).

Definition names : list string := (λ d : Declared, d.1.1) <$> declared mc.

Lemma layer_names_NoDup w : NoDup ((λ d : Declared, d.1.1) <$> declare_layer mc w).
Proof.
  unfold declare_layer, declare_linear.
  destruct (attention_bias mc), w; cbn; refine (bool_decide_eq_true_1 _ _); vm_compute; reflexivity.
Qed.

(** What a declared name starts with. *)
Definition name_heads : list string := ["embed_tokens."; "fc."; "hidden_norm."; "latent_hidden_norm."; "norm."; "layers."].
Definition known_name (name : string) : bool := existsb (λ p, startswith p name) name_heads.

Lemma elem_of_declared d : d ∈ declared mc →
  d ∈ [("embed_tokens.weight"%string, Shape2 (vocab_size mc) (hidden_size mc), None : option WeightLoader);
       ("fc.weight"%string, Shape2 (hidden_size mc) (num_target_layers mc * hidden_size mc), None);
       declare_norm "hidden_norm" (hidden_size mc); declare_norm "latent_hidden_norm" (hidden_size mc);
       declare_norm "norm" (hidden_size mc)] ∨
  ∃ i e, i < num_latent_layers (mc_config mc) + num_hidden_layers mc ∧
    e ∈ declare_layer mc (num_latent_layers (mc_config mc) <=? i) ∧ d = in_layer i e.
Proof.
  unfold declared. rewrite !elem_of_app. intros [H|[H|[H|H]]].
  - left. apply list_elem_of_singleton in H as ->. by left.
  - left. cbn in H. apply list_elem_of_singleton in H as ->. right. by left.
  - left. by do 2 right.
  - right. apply list_elem_of_bind in H as (i & H & Hi). apply list_elem_of_fmap in H as (e & -> & He).
    apply elem_of_seq in Hi. exists i, e. split; [lia|done].
Qed.

Lemma declared_known d : d ∈ declared mc → known_name d.1.1 = true.
Proof.
  intros [H|(i & e & _ & _ & ->)]%elem_of_declared; [|done].
  repeat (apply elem_of_cons in H as [->|H]; [done|]). by apply not_elem_of_nil in H.
Qed.

Definition layer_names : list string :=
  (λ d : Declared, d.1.1) <$> (i ← seq 0 (num_latent_layers (mc_config mc) + num_hidden_layers mc);
                               in_layer i <$> declare_layer mc (num_latent_layers (mc_config mc) <=? i)).

Lemma layers_NoDup : NoDup layer_names.
Proof.
  unfold layer_names. rewrite fmap_bind_list. apply NoDup_bind; [| |apply NoDup_seq].
  - intros i j name _ _ H1 H2. rewrite <- list_fmap_compose in H1, H2.
    apply list_elem_of_fmap in H1 as (d & -> & _). apply list_elem_of_fmap in H2 as (d' & E & _).
    by apply layer_name_inj in E as [-> _].
  - intros i _. rewrite <- list_fmap_compose.
    assert (((λ d : Declared, d.1.1) ∘ in_layer i) <$> declare_layer mc (num_latent_layers (mc_config mc) <=? i) =
      layer_name i <$> ((λ d : Declared, d.1.1) <$> declare_layer mc (num_latent_layers (mc_config mc) <=? i))) as ->.
    { by rewrite <- list_fmap_compose. }
    apply NoDup_fmap_2_strong; [|apply layer_names_NoDup]. intros a b _ _ E. by apply layer_name_inj in E as [_ ->].
Qed.

Lemma layer_names_start name : name ∈ layer_names → startswith "layers." name = true.
Proof.
  intros H. apply list_elem_of_fmap in H as (d & -> & H). apply list_elem_of_bind in H as (i & H & _).
  by apply list_elem_of_fmap in H as (e & -> & _).
Qed.

Lemma names_eq : names =
  ["embed_tokens.weight"; "fc.weight"; "hidden_norm.weight"; "latent_hidden_norm.weight"; "norm.weight"]%string ++ layer_names.
Proof. unfold names, declared. by rewrite !fmap_app. Qed.

Lemma names_NoDup : NoDup names.
Proof.
  rewrite names_eq. apply NoDup_app. split; [refine (bool_decide_eq_true_1 _ _); vm_compute; reflexivity|].
  split; [|apply layers_NoDup]. intros name H Hl. apply layer_names_start in Hl.
  repeat (apply elem_of_cons in H as [->|H]; [done|]). by apply not_elem_of_nil in H.
Qed.

Lemma declared_unique dst s s' l l' : (dst, s, l) ∈ declared mc → (dst, s', l') ∈ declared mc → s = s' ∧ l = l'.
Proof.
  intros H1 H2. apply list_elem_of_lookup_1 in H1 as [i Hi]. apply list_elem_of_lookup_1 in H2 as [j Hj].
  assert (i = j) as ->.
  { apply (NoDup_lookup names i j dst names_NoDup); unfold names; by rewrite list_lookup_fmap, ?Hi, ?Hj. }
  rewrite Hi in Hj. by injection Hj as -> ->.
Qed.

(** ** Parameters of the declared shapes *)

Definition typed (P : Params) : Prop :=
  (∀ dst s l, (dst, s, l) ∈ declared mc → ∃ t, P !! dst = Some {| data := t; weight_loader := l |} ∧ is_shape t s) ∧
  (∀ dst, dst ∉ names → P !! dst = None).

Lemma typed_new content : typed (named_parameters mc content).
Proof.
  split.
  - intros dst s l H. exists (torch_empty (content dst) s). split; [|apply torch_empty_shape].
    unfold named_parameters. apply elem_of_list_to_map_1.
    + rewrite <- list_fmap_compose. exact names_NoDup.
    + apply list_elem_of_fmap. by exists (dst, s, l).
  - intros dst Hd. apply not_elem_of_list_to_map_1. by rewrite <- list_fmap_compose.
Qed.

Lemma typed_insert P dst s l t : typed P → (dst, s, l) ∈ declared mc → is_shape t s →
  typed (<[dst := {| data := t; weight_loader := l |}]> P).
Proof.
  intros [H1 H2] Hd Ht. split.
  - intros dst' s' l' Hd'. destruct (decide (dst' = dst)) as [->|Hne].
    + destruct (declared_unique _ _ _ _ _ Hd Hd') as [-> ->]. exists t. by rewrite lookup_insert_eq.
    + rewrite lookup_insert_ne by done. by apply H1.
  - intros dst' Hn. rewrite lookup_insert_ne; [by apply H2|]. intros <-. apply Hn. unfold names.
    apply list_elem_of_fmap. by exists (dst, s, l).
Qed.

(** ** The loop *)

(** What the packed model has under a name. *)
Context (T : list (string * Tensor)).

(** The entry is written at row [off] of [dst], whose packed tensor has it there. *)
Definition lands (n : nat) (w : string * Tensor) (dst : string) (off : nat) : Prop :=
  ∃ s l t, (dst, s, l) ∈ declared mc ∧ (dst, t) ∈ T ∧ is_shape w.2 (resize (size0 w.2) s) ∧
    off + size0 w.2 ≤ dim0 s ∧ (∀ r, r < size0 w.2 → trow t (off + r) = trow w.2 r) ∧
    ∀ P p, typed P → P !! dst = Some {| data := p; weight_loader := l |} →
      load_weight n P w = Ok (<[dst := {| data := copy_at off w.2 p; weight_loader := l |}]> P).

Definition skipped (n : nat) (w : string * Tensor) : Prop := ∀ P, typed P → load_weight n P w = Ok P.

(** Row [r] of [dst] is as in the packed model. *)
Definition right_row (P : Params) (dst : string) (r : nat) : Prop :=
  ∃ p t, P !! dst = Some p ∧ (dst, t) ∈ T ∧ trow (data p) r = trow t r.

Definition covers (w : string * Tensor) (n : nat) (dst : string) (r : nat) : Prop :=
  ∃ off, lands n w dst off ∧ off ≤ r < off + size0 w.2.

Hypothesis HT : ∀ dst t t', (dst, t) ∈ T → (dst, t') ∈ T → t = t'.

(** One entry puts its rows right and no row wrong. *)
Lemma lands_step n w dst off P P1 : lands n w dst off → typed P → load_weight n P w = Ok P1 →
  typed P1 ∧ (∀ r, off ≤ r < off + size0 w.2 → right_row P1 dst r) ∧ (∀ dst' r, right_row P dst' r → right_row P1 dst' r).
Proof.
  intros (s & l & t & Hd & Ht & Hs & Hle & Hrow & Hload) HP E. destruct (proj1 HP dst s l Hd) as (p & Hp & Hps).
  rewrite (Hload P p HP Hp) in E. injection E as <-.
  assert (Hin : ∀ r, off ≤ r < off + size0 w.2 → trow (copy_at off w.2 p) r = trow t r).
  { intros r Hr. rewrite (trow_copy_at off (size0 w.2) w.2 p s), decide_True by done. rewrite <- Hrow by lia. f_equal. lia. }
  split; [|split].
  - apply (typed_insert P dst s l); [done|done|]. by eapply copy_at_shape.
  - intros r Hr. eexists _, t. rewrite lookup_insert_eq. split; [done|]. split; [done|]. by apply Hin.
  - intros dst' r (q & t' & Hq & Ht' & E). destruct (decide (dst' = dst)) as [->|Hne].
    + eexists _, t. rewrite lookup_insert_eq. split; [done|]. split; [done|]. rewrite Hp in Hq. injection Hq as <-.
      rewrite (HT dst t t') by done. cbn in *. destruct (decide (off ≤ r < off + size0 w.2)) as [Hr|Hr].
      * rewrite Hin by done. by rewrite (HT dst t t').
      * by rewrite (trow_copy_at off (size0 w.2) w.2 p s), decide_False by done.
    + exists q, t'. by rewrite lookup_insert_ne.
Qed.

Lemma load_loop_ok n ws : ∀ P, typed P → Forall (λ w, (∃ dst off, lands n w dst off) ∨ skipped n w) ws →
  ∃ P', load_loop n P ws = Ok P' ∧ typed P' ∧
    ∀ dst r, (right_row P dst r ∨ ∃ w, w ∈ ws ∧ covers w n dst r) → right_row P' dst r.
Proof.
  induction ws as [|w ws IH]; intros P HP Hws.
  { exists P. split_and!; [done|done|]. intros dst r [H|(w & H & _)]; [done|by apply not_elem_of_nil in H]. }
  apply Forall_cons in Hws as [Hw Hws]. cbn [load_loop].
  assert (∃ P1, load_weight n P w = Ok P1 ∧ typed P1 ∧ ∀ dst r, right_row P dst r → right_row P1 dst r) as (P1 & E & HP1 & Hkeep).
  { destruct Hw as [(dst & off & Hl)|Hskip]; [|exists P; split_and!; auto].
    pose proof Hl as (s & l & t & Hd & _ & _ & _ & _ & Hload). destruct (proj1 HP dst s l Hd) as (p & Hp & _).
    pose proof (Hload P p HP Hp) as E. destruct (lands_step n w dst off P _ Hl HP E) as (H1 & _ & H3). by eexists. }
  rewrite E. cbn [mbind result_bind]. destruct (IH P1 HP1 Hws) as (P' & E' & HP' & Hright).
  exists P'. split_and!; [done|done|]. intros dst r [H|(w' & [->|Hw']%elem_of_cons & Hc)]; apply Hright.
  - left. by apply Hkeep.
  - left. destruct Hc as (off & Hl & Hr). destruct (lands_step n w dst off P P1 Hl HP E) as (_ & H2 & _). by apply H2.
  - right. by exists w'.
Qed.
End declared.

(** ** The packed tensors have the declared names and shapes *)

Definition as_declared (d : Declared) (e : string * Tensor) : Prop := d.1.1 = e.1 ∧ is_shape e.2 d.1.2.

Lemma linear_declared name cols rows b loader l : linear_shaped b cols rows l →
  Forall2 as_declared (declare_linear name cols rows b loader) (linear_state name l).
Proof.
  intros [[Hl Hb] Hr]. unfold declare_linear, linear_state. constructor; [done|].
  destruct (bias l) as [v|]; [destruct Hb as [-> Hv]; by repeat constructor|rewrite Hb; constructor].
Qed.

Lemma cat_shaped b cols n1 n2 l1 l2 : linear_shaped b cols n1 l1 → linear_shaped b cols n2 l2 →
  linear_shaped b cols (n1 + n2) (cat_linear l1 l2).
Proof. intros [H1 R1] [H2 R2]. split; [by apply cat_linear_ok|]. cbn. by apply Forall_app. Qed.

Section layer_declared.
Context (mc : ModelConfig).
Notation cfg := (mc_config mc).
Notation kv_size := (num_key_value_heads cfg * head_dim cfg).

Lemma layer_declared {A} (lay : MySpecDecoderLayer A) a i kvl w : attn_shaped mc a → block_shaped mc lay →
  match kvl with Some P => w = true ∧ linear_shaped (attention_bias mc) (hidden_size mc) (2 * kv_size) P | None => w = false end →
  Forall2 as_declared (declare_layer mc w) (packed_state (packed_layer i lay a kvl)).
Proof.
  intros Ha Hb Hk. unfold declare_layer, packed_state.
  assert (2 * kv_size = kv_size + kv_size) as E2 by lia.
  apply Forall2_cons. split; [by split; [|apply Hb]|].
  repeat apply Forall2_app.
  - apply linear_declared. rewrite E2. cbn. apply cat_shaped; [apply Ha|]. apply cat_shaped; apply Ha.
  - apply linear_declared. apply Ha.
  - repeat constructor; apply Ha.
  - apply linear_declared. rewrite E2. apply cat_shaped; apply Ha.
  - cbn [kv_latent packed_layer]. destruct kvl; [destruct Hk as [-> Hk]; by apply linear_declared|rewrite Hk; constructor].
  - repeat constructor; apply Hb.
  - apply linear_declared. replace (2 * intermediate_size mc) with (intermediate_size mc + intermediate_size mc) by lia.
    apply cat_shaped; apply Hb.
  - apply linear_declared. apply Hb.
Qed.
End layer_declared.

Lemma Forall2_bind_imap {A B C} (R : A → B → Prop) (f : nat → list A) (g : nat → C → list B) L : ∀ o,
  (∀ i x, L !! i = Some x → Forall2 R (f (o + i)) (g (o + i) x)) →
  Forall2 R (j ← seq o (length L); f j) (concat (imap (λ i x, g (o + i) x) L)).
Proof.
  induction L as [|x L IH]; intros o H; [constructor|]. cbn. apply Forall2_app.
  - specialize (H 0 x eq_refl). by rewrite Nat.add_0_r in H |- *.
  - rewrite (imap_ext _ (λ i x, g (S o + i) x)) by (intros i y _; unfold compose; by rewrite Nat.add_succ_r).
    apply IH. intros i y Hy. specialize (H (S i) y Hy). by rewrite Nat.add_succ_r in H.
Qed.

(** ** The model *)

Section checkpoint.
Context (mc : ModelConfig) (ck : Checkpoint) (fused : bool).
Hypothesis Hck : checkpoint_shaped mc ck.
Notation n := (num_latent_layers (mc_config mc)).
Notation N := (num_hidden_layers mc).
Notation m := (packed_model ck (mc_rope_theta mc) fused (mc_is_causal mc)).

(** The parameters of the packed model, by name. *)
Definition packed_top : list (string * Tensor) :=
  [("embed_tokens.weight"%string, Matrix (ck_embed_weight ck)); ("fc.weight"%string, Matrix (weight (ck_fc ck)));
   norm_state "hidden_norm" (ck_hidden_norm ck); norm_state "latent_hidden_norm" (ck_latent_hidden_norm ck);
   norm_state "norm" (ck_norm ck)].
Definition in_layer_state (i : nat) (e : string * Tensor) : string * Tensor := (layer_name i e.1, e.2).
Definition packed_params : list (string * Tensor) :=
  packed_top ++ concat (imap (λ i l, in_layer_state i <$> packed_state l) (sm_layers m)).

(** A served layer is the packing of a trained one. *)
Lemma served_layers i l : sm_layers m !! i = Some l →
  (i < n ∧ ∃ lay, ck_latent_layers ck !! i = Some lay ∧ l = packed_layer i lay (self_attn lay) None) ∨
  (n ≤ i ∧ ∃ lay, ck_layers ck !! (i - n) = Some lay ∧
     l = packed_layer i lay (mask_base (self_attn lay)) (Some (latent_kv_of (self_attn lay)))).
Proof.
  pose proof (cs_num_latent _ _ Hck) as Hn. cbn [sm_layers packed_model]. intros H.
  apply lookup_app_Some in H as [H|[Hle H]].
  - left. rewrite list_lookup_imap in H. destruct (ck_latent_layers ck !! i) as [lay|] eqn:E; [|done]. injection H as <-.
    split; [rewrite Hn; by eapply lookup_lt_Some|by exists lay].
  - right. rewrite length_imap, <- Hn in *. rewrite list_lookup_imap in H. split; [done|].
    destruct (ck_layers ck !! (i - n)) as [lay|] eqn:E; [|done]. injection H as <-. exists lay. split; [done|].
    by replace (n + (i - n)) with i by lia.
Qed.

Lemma length_sm_layers : length (sm_layers m) = n + N.
Proof.
  cbn [sm_layers packed_model]. rewrite length_app, !length_imap. by rewrite (cs_num_latent _ _ Hck), (cs_num_layers _ _ Hck).
Qed.

Lemma kv_latent_shaped i lay : ck_layers ck !! i = Some lay →
  linear_shaped (attention_bias mc) (hidden_size mc) (2 * (num_key_value_heads (mc_config mc) * head_dim (mc_config mc)))
    (latent_kv_of (self_attn lay)).
Proof.
  intros H. destruct (cs_layers _ _ Hck i lay H) as (_ & _ & Hk & Hv). unfold latent_kv_of.
  replace (2 * (num_key_value_heads (mc_config mc) * head_dim (mc_config mc))) with
    (num_key_value_heads (mc_config mc) * head_dim (mc_config mc) + num_key_value_heads (mc_config mc) * head_dim (mc_config mc)) by lia.
  by apply cat_shaped.
Qed.

Lemma packed_as_declared : Forall2 as_declared (declared mc) packed_params.
Proof.
  unfold declared, packed_params. rewrite !app_assoc. apply Forall2_app.
  - destruct (cs_fc _ _ Hck) as [[Hl _] Hr]. repeat constructor; try done; cbn; apply Hck.
  - rewrite <- length_sm_layers. apply (Forall2_bind_imap as_declared (λ i, in_layer i <$> declare_layer mc (n <=? i)) (λ i l, in_layer_state i <$> packed_state l) _ 0).
    intros i l Hl. cbn [Nat.add].
    apply Forall2_fmap_2. apply (Forall2_impl as_declared); [|intros d e [E Hs]; split; [cbn; by rewrite E|done]].
    destruct (served_layers i l Hl) as [(Hi & lay & Hlay & ->)|(Hi & lay & Hlay & ->)].
    + destruct (cs_latent_layers _ _ Hck i lay Hlay). apply layer_declared; [done|done|]. by apply Nat.leb_gt.
    + destruct (cs_layers _ _ Hck _ lay Hlay) as (Ha & Hb & _). apply layer_declared; [done|done|].
      split; [by apply Nat.leb_le|by eapply kv_latent_shaped].
Qed.

Lemma packed_names : packed_params.*1 = names mc.
Proof.
  unfold names. pose proof packed_as_declared as H. induction H as [|d e ds es [Hd _] _ IH]; [done|]. cbn. by rewrite IH, Hd.
Qed.

Lemma packed_unique dst t t' : (dst, t) ∈ packed_params → (dst, t') ∈ packed_params → t = t'.
Proof.
  intros H1 H2. apply list_elem_of_lookup_1 in H1 as [i Hi]. apply list_elem_of_lookup_1 in H2 as [j Hj].
  assert (i = j) as ->.
  { pose proof (names_NoDup mc) as Hnd. rewrite <- packed_names in Hnd.
    apply (NoDup_lookup _ i j dst Hnd); by rewrite list_lookup_fmap, ?Hi, ?Hj. }
  rewrite Hi in Hj. by injection Hj.
Qed.

Lemma packed_declared dst t : (dst, t) ∈ packed_params → ∃ s l, (dst, s, l) ∈ declared mc ∧ is_shape t s.
Proof.
  intros H. apply list_elem_of_lookup_1 in H as [i Hi]. destruct (Forall2_lookup_r _ _ _ _ _ packed_as_declared Hi) as ([[dst' s] l] & Hd & E & Hs).
  cbn in E, Hs. subst dst'. exists s, l. split; [by eapply list_elem_of_lookup_2|done].
Qed.
End checkpoint.
