(* ===== verification/LatentLoaded.v ===== *)
(** * LatentLoaded: [load_weights] returns the packed model

    The entries of a checkpoint land on the packed parameters and cover them, the entries of
    the heads are skipped, and the modules read from the loaded parameters are those of
    [packed_model]. *)

From Stdlib Require Import Reals Ascii.
From S2P Require Import Prelude TensorOps RealLaw LatentSampler RejectKernel MySpecModel ExtendAttention LatentStage DraftLayers LatentModel LatentRows LatentLoad LatentNames LatentTensors LatentLayerLoad LatentCheckpoint.
#[local] Open Scope nat_scope.
#[local] Arguments Nat.ltb : simpl never.
#[local] Arguments Nat.leb : simpl never.
#[local] Arguments Nat.eqb : simpl never.
#[local] Arguments Nat.div : simpl never.

(** ** The heads of the checkpoint are skipped *)

Definition head_name (name : string) : Prop := ∃ rest,
  name = "lm_head." +:+ rest ∨ name = "markov_head." +:+ rest ∨ name = "confidence_head." +:+ rest.

Section heads.
Context (mc : ModelConfig).
Notation n := (num_latent_layers (mc_config mc)).

Lemma head_not_declared name : head_name name → name ∉ names mc.
Proof.
  intros Hh H. apply list_elem_of_fmap in H as (d & -> & H). pose proof (declared_known mc d H) as Hk.
  destruct Hh as (rest & [E|[E|E]]); by rewrite E in Hk.
Qed.

Lemma replace_head old new name : old ∈ (λ e : string * string * Shard, e.1.2) <$> stacked ∨ old ∈ (λ e : string * string * nat, e.1.2) <$> packed_kv →
  head_name name → head_name (replace old new name).
Proof.
  intros Hold (rest & Hh). exists (replace old new rest).
  destruct Hold as [H|H]; cbn in H;
    repeat (apply elem_of_cons in H as [->|H]; [destruct Hh as [->|[->| ->]]; [by left|right; by left|right; by right]|]);
    by apply not_elem_of_nil in H.
Qed.

Lemma head_raw name raw : head_name name → raw_of name raw → served_name n raw = Ok name.
Proof. intros (rest & [->|[->| ->]]) Hr; by apply served_name_top. Qed.

Lemma skip_stacked P name value table : typed mc P → head_name name →
  (∀ e, e ∈ table → e.1.2 ∈ (λ e : string * string * Shard, e.1.2) <$> stacked) →
  load_stacked table P name value = Ok None.
Proof.
  intros HP Hh. induction table as [|[[packed source] sh] table IH]; intros Ht; [done|]. cbn [load_stacked].
  rewrite IH by (intros e He; apply Ht; by right). destruct (contains _ _); [|done].
  rewrite (proj2 HP); [done|]. apply head_not_declared, replace_head; [|done]. left. apply (Ht (packed, source, sh)). by left.
Qed.

Lemma skip_packed P name value table : typed mc P → head_name name →
  (∀ e, e ∈ table → e.1.2 ∈ (λ e : string * string * nat, e.1.2) <$> packed_kv) →
  load_packed_kv table P name value = Ok None.
Proof.
  intros HP Hh. induction table as [|[[packed source] sh] table IH]; intros Ht; [done|]. cbn [load_packed_kv].
  rewrite IH by (intros e He; apply Ht; by right). destruct (contains _ _); [|done]. cbn [negb].
  rewrite (proj2 HP); [done|]. apply head_not_declared, replace_head; [|done]. right. apply (Ht (packed, source, sh)). by left.
Qed.

Lemma head_skipped name raw value : head_name name → raw_of name raw → skipped mc n (raw, value).
Proof.
  intros Hh Hr P HP. unfold load_weight. rewrite (head_raw name raw) by done. cbn [mbind result_bind].
  rewrite skip_stacked; [|done|done|intros e He; apply list_elem_of_fmap; by exists e]. cbn [mbind result_bind].
  rewrite skip_packed; [|done|done|intros e He; apply list_elem_of_fmap; by exists e]. cbn [mbind result_bind].
  by rewrite (proj2 HP) by (by apply head_not_declared).
Qed.
End heads.

(** ** The entries land *)

Section checkpoint.
Context (mc : ModelConfig) (ck : Checkpoint) (fused : bool).
Hypothesis Hck : checkpoint_shaped mc ck.
Notation n := (num_latent_layers (mc_config mc)).
Notation N := (num_hidden_layers mc).
Notation m := (packed_model ck (mc_rope_theta mc) fused (mc_is_causal mc)).
Notation T := (packed_params mc ck fused).

Lemma in_layer_declared j l d : sm_layers m !! j = Some l → d ∈ declare_layer mc (n <=? j) → in_layer j d ∈ declared mc.
Proof.
  intros Hl Hd. apply lookup_lt_Some in Hl. rewrite (length_sm_layers mc ck fused Hck) in Hl. unfold declared. rewrite !elem_of_app.
  do 3 right. apply list_elem_of_bind. exists j. split; [apply list_elem_of_fmap; by exists d|apply elem_of_seq; lia].
Qed.

Lemma in_layer_packed j l e : sm_layers m !! j = Some l → e ∈ packed_state l → in_layer_state j e ∈ T.
Proof.
  intros Hl He. unfold packed_params. apply elem_of_app. right. apply list_elem_of_In, in_concat.
  exists (in_layer_state j <$> packed_state l). split.
  - apply list_elem_of_In, list_elem_of_lookup_2 with (i := j). by rewrite list_lookup_imap, Hl.
  - apply list_elem_of_In, list_elem_of_fmap. by exists e.
Qed.

Lemma lands_layer raw j l e dst off : sm_layers m !! j = Some l →
  served_name n raw = Ok (layer_name j e.1) → entry_at (declare_layer mc (n <=? j)) (packed_state l) e dst off →
  lands mc T n (raw, e.2) (layer_name j dst) off.
Proof.
  intros Hl Hname (Hr & s & ld & t & Hd & Ht & Hts & Hw & Hes & Hle & Hrow).
  exists s, ld, t. split; [by apply (in_layer_declared j l (dst, s, ld))|].
  split; [by apply (in_layer_packed j l (dst, t))|]. split; [done|]. split; [done|]. split; [done|].
  intros P p HP Hp. cbn [snd]. subst dst.
  destruct (proj1 HP _ _ _ (in_layer_declared j l _ Hl Hd)) as (p' & Hp' & Hps). cbn [fst] in Hp'. rewrite Hp in Hp'. injection Hp' as <-.
  by apply (load_weight_layer n P raw j e.1 e.2 p ld s off (size0 e.2)).
Qed.

(** A parameter with a name of its own. *)
Lemma lands_top name raw value s : raw_of name raw → (name, s, None) ∈ declared mc → (name, value) ∈ T → is_shape value s →
  startswith "model." name = false → startswith "latent_layers." name = false → startswith "layers." name = false →
  forallb (λ e : string * string * Shard, negb (contains ("." +:+ e.1.2 +:+ ".") name)) stacked = true →
  forallb (λ e : string * string * nat, negb (contains ("." +:+ e.1.2 +:+ ".") name)) packed_kv = true →
  lands mc T n (raw, value) name 0.
Proof.
  intros Hraw Hd Ht Hs Hm H1 H2 H3 H4. exists s, None, value. split; [done|]. split; [done|]. cbn [snd].
  rewrite (resize_self value s Hs). split; [done|]. split; [rewrite (is_shape_size0 value s Hs); lia|]. split; [done|].
  intros P p HP Hp. destruct (proj1 HP _ _ _ Hd) as (p' & Hp' & Hps). rewrite Hp in Hp'. injection Hp' as <-.
  unfold load_weight. rewrite (served_name_top n name raw) by done. cbn [mbind result_bind].
  assert (load_stacked stacked P name value = Ok None) as ->.
  { clear -H3. induction stacked as [|[[a b] c] tb IH]; [done|]. cbn [forallb fst snd] in H3. apply andb_true_iff in H3 as [H3 H4].
    cbn [load_stacked]. apply negb_true_iff in H3. rewrite H3. by apply IH. }
  cbn [mbind result_bind].
  assert (load_packed_kv packed_kv P name value = Ok None) as ->.
  { clear -H4. induction packed_kv as [|[[a b] c] tb IH]; [done|]. cbn [forallb fst snd] in H4. apply andb_true_iff in H4 as [H4 H5].
    cbn [load_packed_kv]. rewrite H4. by apply IH. }
  cbn [mbind result_bind]. rewrite Hp. unfold call_loader. cbn [weight_loader data]. by rewrite (default_loader_ok value p s).
Qed.

(** Where the entry with the name [name] lands, whatever the raw name. *)
Definition lands_as (e : string * Tensor) (dst : string) (off : nat) : Prop :=
  ∀ raw, raw_of e.1 raw → lands mc T n (raw, e.2) dst off.

Lemma layer_at_latent i lay : ck_latent_layers ck !! i = Some lay →
  i < n ∧ sm_layers m !! i = Some (packed_layer i lay (self_attn lay) None).
Proof.
  intros H. pose proof (lookup_lt_Some _ _ _ H) as Hi. rewrite (cs_num_latent _ _ Hck). split; [done|].
  cbn [sm_layers packed_model]. rewrite lookup_app_l by (by rewrite length_imap). by rewrite list_lookup_imap, H.
Qed.

Lemma layer_at_mask i lay : ck_layers ck !! i = Some lay →
  sm_layers m !! (n + i) = Some (packed_layer (n + i) lay (mask_base (self_attn lay)) (Some (latent_kv_of (self_attn lay)))).
Proof.
  intros H. rewrite (cs_num_latent _ _ Hck). cbn [sm_layers packed_model]. rewrite lookup_app_r by (rewrite length_imap; lia).
  rewrite length_imap, list_lookup_imap. replace (length (ck_latent_layers ck) + i - length (ck_latent_layers ck)) with i by lia.
  by rewrite H.
Qed.

(** Each entry of a layer lands, and each row of its packed parameters is covered. *)
Lemma latent_layer_lands i lay : ck_latent_layers ck !! i = Some lay →
  let S := layer_state (attention_state "noise" (self_attn lay)) lay in
  Forall (λ e, ∃ dst off, lands_as (under "latent_layers." i e) dst off) S ∧
  ∀ d r, d ∈ packed_state (packed_layer i lay (self_attn lay) None) → r < size0 d.2 →
    ∃ e off, e ∈ S ∧ lands_as (under "latent_layers." i e) (layer_name i d.1) off ∧ off ≤ r < off + size0 e.2.
Proof.
  intros H S. destruct (layer_at_latent i lay H) as [Hi Hl]. destruct (cs_latent_layers _ _ Hck i lay H) as [Ha Hb].
  destruct (latent_layer_load mc i lay Ha Hb) as [HP HC].
  assert (Hw : (n <=? i) = false) by (by apply Nat.leb_gt).
  assert (Hin : ∀ e dst off, entry_at (declare_layer mc false) (packed_state (packed_layer i lay (self_attn lay) None)) e dst off →
    lands_as (under "latent_layers." i e) (layer_name i dst) off).
  { intros e dst off He raw Hraw. apply (lands_layer raw i _ e dst off Hl); [|by rewrite Hw].
    by apply served_name_latent. }
  split.
  - eapply Forall_impl; [exact HP|]. intros e (dst & off & He). eexists _, off. by apply Hin.
  - intros d r Hd Hr. rewrite Forall_forall in HC. destruct (HC d Hd r Hr) as (e & off & He & Hat & Hrange).
    exists e, off. split; [done|]. split; [by apply Hin|done].
Qed.

Lemma mask_layer_lands i lay : ck_layers ck !! i = Some lay →
  let S := layer_state (mask_attention_state (self_attn lay)) lay in
  Forall (λ e, ∃ dst off, lands_as (under "layers." i e) dst off) S ∧
  ∀ d r, d ∈ packed_state (packed_layer (n + i) lay (mask_base (self_attn lay)) (Some (latent_kv_of (self_attn lay)))) → r < size0 d.2 →
    ∃ e off, e ∈ S ∧ lands_as (under "layers." i e) (layer_name (n + i) d.1) off ∧ off ≤ r < off + size0 e.2.
Proof.
  intros H S. pose proof (layer_at_mask i lay H) as Hl. destruct (cs_layers _ _ Hck i lay H) as (Ha & Hb & Hk & Hv).
  destruct (mask_layer_load mc (n + i) lay Ha Hb Hk Hv) as [HP HC].
  assert (Hw : (n <=? n + i) = true) by (apply Nat.leb_le; lia).
  set (pl := packed_layer (n + i) lay _ _) in *.
  assert (Hin : ∀ e dst off, entry_at (declare_layer mc true) (packed_state pl) e dst off →
    lands_as (under "layers." i e) (layer_name (n + i) dst) off).
  { intros e dst off He raw Hraw. apply (lands_layer raw (n + i) _ e dst off Hl); [|by rewrite Hw].
    by apply served_name_proposal. }
  split.
  - eapply Forall_impl; [exact HP|]. intros e (dst & off & He). eexists _, off. by apply Hin.
  - intros d r Hd Hr. rewrite Forall_forall in HC. destruct (HC d Hd r Hr) as (e & off & He & Hat & Hrange).
    exists e, off. split; [done|]. split; [by apply Hin|done].
Qed.

(** The entries outside the layers. *)
Definition top_state : list (string * Tensor) :=
  [("embed_tokens.weight"%string, Matrix (ck_embed_weight ck))] ++ linear_state "fc" (ck_fc ck) ++
  [norm_state "hidden_norm" (ck_hidden_norm ck); norm_state "latent_hidden_norm" (ck_latent_hidden_norm ck);
   norm_state "norm" (ck_norm ck)].

Lemma top_eq : top_state = packed_top ck.
Proof.
  destruct (cs_fc _ _ Hck) as [[_ Hb] _]. unfold top_state, linear_state. destruct (bias (ck_fc ck)); [by destruct Hb|done].
Qed.

Lemma top_lands e : e ∈ packed_top ck → lands_as e e.1 0.
Proof.
  intros He raw Hraw. assert (HeT : e ∈ T) by (unfold packed_params; apply elem_of_app; by left).
  destruct (cs_fc _ _ Hck) as [[Hl _] Hr]. unfold packed_top in He.
  assert (Htop : ∀ d, d ∈ [("embed_tokens.weight"%string, Shape2 (vocab_size mc) (hidden_size mc), None : option WeightLoader);
       ("fc.weight"%string, Shape2 (hidden_size mc) (num_target_layers mc * hidden_size mc), None);
       declare_norm "hidden_norm" (hidden_size mc); declare_norm "latent_hidden_norm" (hidden_size mc);
       declare_norm "norm" (hidden_size mc)] → d ∈ declared mc).
  { intros d Hd. unfold declared, declare_linear. rewrite !elem_of_app, !elem_of_cons in *. tauto. }
  repeat (apply elem_of_cons in He as [->|He];
    [eapply lands_top; [exact Hraw|apply Htop; repeat (first [by left|right])|exact HeT| |by vm_compute..]; first [done|apply Hck]|]).
  by apply not_elem_of_nil in He.
Qed.

(** Every entry of the checkpoint lands. *)
Lemma state_lands e : e ∈ state_dict ck → ∃ dst off, lands_as e dst off.
Proof.
  intros Hin. assert (e ∈ top_state ∨
    e ∈ concat (imap (λ i l, under "latent_layers." i <$> layer_state (attention_state "noise" (self_attn l)) l) (ck_latent_layers ck)) ∨
    e ∈ concat (imap (λ i l, under "layers." i <$> layer_state (mask_attention_state (self_attn l)) l) (ck_layers ck))) as [H|[H|H]].
  { unfold state_dict in Hin. unfold top_state. rewrite !elem_of_app in *. tauto. }
  - rewrite top_eq in H. exists e.1, 0. by apply top_lands.
  - apply list_elem_of_In, in_concat in H as (es & Hes & He). apply list_elem_of_In, list_elem_of_lookup_1 in Hes as [i Hi].
    rewrite list_lookup_imap in Hi. destruct (ck_latent_layers ck !! i) as [lay|] eqn:Hlay; [|done]. apply (inj Some) in Hi as <-.
    apply list_elem_of_In, list_elem_of_fmap in He as (e' & -> & He).
    destruct (latent_layer_lands i lay Hlay) as [Hl _]. rewrite Forall_forall in Hl. by apply Hl.
  - apply list_elem_of_In, in_concat in H as (es & Hes & He). apply list_elem_of_In, list_elem_of_lookup_1 in Hes as [i Hi].
    rewrite list_lookup_imap in Hi. destruct (ck_layers ck !! i) as [lay|] eqn:Hlay; [|done]. apply (inj Some) in Hi as <-.
    apply list_elem_of_In, list_elem_of_fmap in He as (e' & -> & He).
    destruct (mask_layer_lands i lay Hlay) as [Hl _]. rewrite Forall_forall in Hl. by apply Hl.
Qed.

Lemma in_state_latent i lay e : ck_latent_layers ck !! i = Some lay →
  e ∈ layer_state (attention_state "noise" (self_attn lay)) lay → under "latent_layers." i e ∈ state_dict ck.
Proof.
  intros Hl He. unfold state_dict. rewrite !elem_of_app. do 3 right. left. apply list_elem_of_In, in_concat.
  exists (under "latent_layers." i <$> layer_state (attention_state "noise" (self_attn lay)) lay).
  split; apply list_elem_of_In; [|apply list_elem_of_fmap; by exists e].
  apply list_elem_of_lookup_2 with (i := i). by rewrite list_lookup_imap, Hl.
Qed.

Lemma in_state_mask i lay e : ck_layers ck !! i = Some lay →
  e ∈ layer_state (mask_attention_state (self_attn lay)) lay → under "layers." i e ∈ state_dict ck.
Proof.
  intros Hl He. unfold state_dict. rewrite !elem_of_app. do 4 right. apply list_elem_of_In, in_concat.
  exists (under "layers." i <$> layer_state (mask_attention_state (self_attn lay)) lay).
  split; apply list_elem_of_In; [|apply list_elem_of_fmap; by exists e].
  apply list_elem_of_lookup_2 with (i := i). by rewrite list_lookup_imap, Hl.
Qed.

(** Every row of the packed parameters is written. *)
Lemma state_covers d r : d ∈ T → r < size0 d.2 →
  ∃ e off, e ∈ state_dict ck ∧ lands_as e d.1 off ∧ off ≤ r < off + size0 e.2.
Proof.
  unfold packed_params. intros [Hd|Hd]%elem_of_app Hr.
  - exists d, 0. split; [|split; [by apply top_lands|lia]]. unfold state_dict.
    rewrite <- top_eq in Hd. unfold top_state in Hd. rewrite !elem_of_app in *. tauto.
  - apply list_elem_of_In, in_concat in Hd as (ds & Hds & Hd). apply list_elem_of_In, list_elem_of_lookup_1 in Hds as [j Hj].
    rewrite list_lookup_imap in Hj. destruct (sm_layers m !! j) as [l|] eqn:Hl; [|done]. apply (inj Some) in Hj as <-.
    apply list_elem_of_In, list_elem_of_fmap in Hd as (d' & -> & Hd).
    destruct (served_layers mc ck fused Hck j l Hl) as [(Hi & lay & Hlay & ->)|(Hi & lay & Hlay & ->)].
    + destruct (latent_layer_lands j lay Hlay) as [_ Hc]. destruct (Hc d' r Hd Hr) as (e & off & He & Hat & Hrange).
      exists (under "latent_layers." j e), off. split; [by eapply in_state_latent|]. by split.
    + destruct (mask_layer_lands (j - n) lay Hlay) as [_ Hc]. replace (n + (j - n)) with j in Hc by lia.
      destruct (Hc d' r Hd Hr) as (e & off & He & Hat & Hrange).
      exists (under "layers." (j - n) e), off. split; [by eapply in_state_mask|]. by split.
Qed.

(** ** The loaded parameters *)

(** What is read: every entry of the checkpoint, and nothing else but entries of the heads. *)
Definition is_checkpoint (weights : list (string * Tensor)) : Prop :=
  (∀ e, e ∈ state_dict ck → ∃ raw, raw_of e.1 raw ∧ (raw, e.2) ∈ weights) ∧
  ∀ w, w ∈ weights →
    (∃ e, e ∈ state_dict ck ∧ raw_of e.1 w.1 ∧ w.2 = e.2) ∨ (∃ name, head_name name ∧ raw_of name w.1).

Lemma load_loop_packed content weights : is_checkpoint weights →
  ∃ P, load_loop n (named_parameters mc content) weights = Ok P ∧ typed mc P ∧
    ∀ dst t, (dst, t) ∈ T → ∃ l, P !! dst = Some {| data := t; weight_loader := l |}.
Proof.
  intros [Hall Hw].
  destruct (load_loop_ok mc T (packed_unique mc ck fused Hck) n weights _ (typed_new mc content)) as (P & E & HP & Hright).
  { apply Forall_forall. intros [raw value] Hin. destruct (Hw _ Hin) as [(e & He & Hraw & Hv)|(name & Hh & Hraw)].
    - left. destruct (state_lands e He) as (dst & off & Hl). exists dst, off. cbn in Hv. subst value. by apply Hl.
    - right. by eapply head_skipped. }
  exists P. split; [done|]. split; [done|]. intros dst t Ht.
  destruct (packed_declared mc ck fused Hck dst t Ht) as (s & l & Hd & Hs). destruct (proj1 HP dst s l Hd) as (p & Hp & Hps).
  exists l. rewrite Hp. do 2 f_equal. apply (trow_ext p t s Hps Hs). intros r Hr.
  destruct (state_covers (dst, t) r Ht) as (e & off & He & Hat & Hrange); [cbn [snd]; by rewrite (is_shape_size0 t s Hs)|].
  destruct (Hall e He) as (raw & Hraw & Hin).
  destruct (Hright dst r) as (q & t' & Hq & Ht' & Erow).
  { right. exists (raw, e.2). split; [done|]. exists off. split; [by apply Hat|done]. }
  rewrite Hp in Hq. injection Hq as <-. cbn in Erow. rewrite Erow. f_equal. by apply (packed_unique mc ck fused Hck dst).
Qed.

(** ** Reading the modules back *)

Section read.
Context (P : Params).
Hypothesis HP : typed mc P.
Hypothesis HT : ∀ dst t, (dst, t) ∈ T → ∃ l, P !! dst = Some {| data := t; weight_loader := l |}.

Lemma read_matrix name rows : (name, Matrix rows) ∈ T → matrix_of P name = rows.
Proof. intros H. destruct (HT _ _ H) as (l & E). unfold matrix_of. by rewrite E. Qed.
Lemma read_vector name v : (name, Vector v) ∈ T → vector_of P name = Some v.
Proof. intros H. destruct (HT _ _ H) as (l & E). unfold vector_of. by rewrite E. Qed.
Lemma read_norm name w : norm_state name w ∈ T → norm_of P name = w.
Proof. intros H. unfold norm_of. by rewrite (read_vector _ w). Qed.

Lemma read_linear name L : linear_state name L ⊆ T → (bias L = None → name +:+ ".bias" ∉ names mc) → linear_of P name = L.
Proof.
  intros HL Hb. unfold linear_of. rewrite (read_matrix _ (weight L)) by (apply HL; by left). destruct L as [w [b|]]; cbn [weight bias] in *.
  - rewrite (read_vector _ b); [done|]. apply HL. right. by left.
  - unfold vector_of. by rewrite (proj2 HP) by (by apply Hb).
Qed.

Lemma absent_in_layer j attr : attr ∉ ((λ d : Declared, d.1.1) <$> declare_layer mc (n <=? j)) → layer_name j attr ∉ names mc.
Proof.
  intros Ha H. apply list_elem_of_fmap in H as (d & E & H). apply elem_of_declared in H as [H|(i & e & _ & He & ->)].
  - repeat (apply elem_of_cons in H as [->|H]; [by vm_compute in E|]). by apply not_elem_of_nil in H.
  - cbn in E. apply layer_name_inj in E as [-> ->]. apply Ha. apply list_elem_of_fmap. by exists e.
Qed.

Lemma attn_bias_absent attr w : attr ∈ ["self_attn.qkv_proj"; "self_attn.o_proj"; "self_attn.kv_ctx"; "self_attn.kv_latent"]%string →
  attention_bias mc = false → attr +:+ ".bias" ∉ (λ d : Declared, d.1.1) <$> declare_layer mc w.
Proof.
  intros H Hb. unfold declare_layer, declare_linear. rewrite Hb.
  repeat (apply elem_of_cons in H as [->|H]; [destruct w; cbn; refine (bool_decide_eq_true_1 _ _); vm_compute; reflexivity|]).
  by apply not_elem_of_nil in H.
Qed.

Lemma mlp_bias_absent attr w : attr ∈ ["mlp.gate_up_proj"; "mlp.down_proj"]%string →
  attr +:+ ".bias" ∉ (λ d : Declared, d.1.1) <$> declare_layer mc w.
Proof.
  intros H. unfold declare_layer, declare_linear.
  repeat (apply elem_of_cons in H as [->|H]; [destruct (attention_bias mc), w; cbn; refine (bool_decide_eq_true_1 _ _); vm_compute; reflexivity|]).
  by apply not_elem_of_nil in H.
Qed.

Lemma no_bias b k l : linear_ok b k l → bias l = None → b = false.
Proof. intros [_ H] E. by rewrite E in H. Qed.

Lemma read_layer_linear j l attr L : sm_layers m !! j = Some l → linear_state attr L ⊆ packed_state l →
  (bias L = None → attr +:+ ".bias" ∉ (λ d : Declared, d.1.1) <$> declare_layer mc (n <=? j)) →
  linear_of P (layer_name j attr) = L.
Proof.
  intros Hl HL Hb. assert (Happ : ∀ sfx, layer_name j attr +:+ sfx = layer_name j (attr +:+ sfx)).
  { intros sfx. unfold layer_name. by rewrite !str_app_assoc. }
  apply read_linear.
  - intros e He. unfold linear_state in He. rewrite !Happ in He.
    assert (∃ e', e' ∈ linear_state attr L ∧ e = in_layer_state j e') as (e' & He' & ->).
    { unfold linear_state. destruct (bias L).
      - rewrite !elem_of_cons in He. destruct He as [->|[->|He]]; [| |by apply not_elem_of_nil in He].
        + eexists. split; [by left|done].
        + eexists. split; [right; by left|done].
      - rewrite elem_of_cons in He. destruct He as [->|He]; [|by apply not_elem_of_nil in He]. eexists. split; [by left|done]. }
    eapply (in_layer_packed j l); [done|]. by apply HL.
  - intros E. rewrite Happ. by apply absent_in_layer, Hb.
Qed.

Lemma read_layer_norm j l attr w : sm_layers m !! j = Some l → norm_state attr w ∈ packed_state l →
  norm_of P (layer_name j attr) = w.
Proof.
  intros Hl Hw. apply read_norm. unfold norm_state. unfold layer_name. rewrite !str_app_assoc. fold (layer_name j (attr +:+ ".weight")).
  by apply (in_layer_packed j l (norm_state attr w) Hl).
Qed.

Ltac in_packed := unfold packed_state; repeat first [rewrite elem_of_cons | rewrite elem_of_app]; tauto.

Lemma read_layer {A} j (lay : MySpecDecoderLayer A) a kvl :
  sm_layers m !! j = Some (packed_layer j lay a kvl) → attn_shaped mc a → block_shaped mc lay →
  match kvl with
  | Some L => (n <=? j) = true ∧ ∃ k, linear_ok (attention_bias mc) k L
  | None => (n <=? j) = false
  end →
  served_layer_of mc P j = packed_layer j lay a kvl.
Proof.
  intros Hl Ha Hb Hk. set (l := packed_layer j lay a kvl) in *.
  assert (Hcat : ∀ k1 k2 l1 l2, linear_ok (attention_bias mc) k1 l1 → linear_ok (attention_bias mc) k2 l2 →
    bias (cat_linear l1 l2) = None → attention_bias mc = false).
  { intros k1 k2 l1 l2 H1 H2. apply (no_bias _ (k1 + k2)). by apply cat_linear_ok. }
  unfold served_layer_of.
  rewrite (read_layer_norm j l "input_layernorm" (in_norm l)) by (done || in_packed).
  rewrite (read_layer_norm j l "self_attn.q_norm" (qn_weight l)) by (done || in_packed).
  rewrite (read_layer_norm j l "self_attn.k_norm" (kn_weight l)) by (done || in_packed).
  rewrite (read_layer_norm j l "post_attention_layernorm" (post_norm l)) by (done || in_packed).
  rewrite (read_layer_linear j l "self_attn.qkv_proj" (qkv_proj l)); [|done|intros e He; in_packed|].
  2: { intros E. apply attn_bias_absent; [by left|]. destruct (as_kn _ _ Ha) as [Hkn _], (as_vn _ _ Ha) as [Hvn _], (as_q _ _ Ha) as [Hq _].
       eapply (Hcat _ _ _ _ Hq); [|exact E]. by eapply cat_linear_ok. }
  rewrite (read_layer_linear j l "self_attn.kv_ctx" (kv_ctx l)); [|done|intros e He; in_packed|].
  2: { intros E. apply attn_bias_absent; [do 2 right; by left|]. destruct (as_k _ _ Ha) as [Hkk _], (as_v _ _ Ha) as [Hv _]. exact (Hcat _ _ _ _ Hkk Hv E). }
  rewrite (read_layer_linear j l "self_attn.o_proj" (out_proj l)); [|done|intros e He; in_packed|].
  2: { intros E. apply attn_bias_absent; [right; by left|]. destruct (as_o _ _ Ha) as [Ho _]. by eapply no_bias. }
  rewrite (read_layer_linear j l "mlp.gate_up_proj" (gate_up_proj l)); [|done|intros e He; in_packed|].
  2: { intros E. apply mlp_bias_absent. by left. }
  rewrite (read_layer_linear j l "mlp.down_proj" (down_proj_w l)); [|done|intros e He; in_packed|].
  2: { intros E. apply mlp_bias_absent. right. by left. }
  destruct kvl as [L|]; [|by rewrite Hk].
  destruct Hk as (Hj & k & HL). rewrite Hj.
  rewrite (read_layer_linear j l "self_attn.kv_latent" L); [done|done|intros e He; unfold packed_state; cbn [kv_latent l packed_layer]; repeat first [rewrite elem_of_cons | rewrite elem_of_app]; tauto|].
  intros E. apply attn_bias_absent; [do 3 right; by left|]. by eapply no_bias.
Qed.

Lemma read_kv_latent i lay : ck_layers ck !! i = Some lay →
  linear_of P (layer_name (n + i) "self_attn.kv_latent") = latent_kv_of (self_attn lay).
Proof.
  intros H. pose proof (layer_at_mask i lay H) as Hl. destruct (cs_layers _ _ Hck i lay H) as (Ha & Hb & [Hk _] & [Hv _]).
  eapply read_layer_linear; [exact Hl| |].
  - intros e He. unfold packed_state. cbn [kv_latent packed_layer]. repeat first [rewrite elem_of_cons | rewrite elem_of_app]. tauto.
  - intros E. apply attn_bias_absent; [do 3 right; by left|]. eapply no_bias; [|exact E]. by eapply cat_linear_ok.
Qed.

Lemma read_layers : served_layer_of mc P <$> seq 0 (n + N) = sm_layers m.
Proof.
  apply list_eq_same_length with (n := n + N); [by rewrite length_sm_layers|by rewrite length_fmap, length_seq|].
  intros j x y Hj Hx Hy. rewrite list_lookup_fmap, lookup_seq_lt in Hx by done. injection Hx as <-. cbn [Nat.add].
  destruct (served_layers mc ck fused Hck j y Hy) as [(Hi & lay & Hlay & ->)|(Hi & lay & Hlay & ->)].
  - destruct (cs_latent_layers _ _ Hck j lay Hlay) as [Ha Hb]. apply read_layer; [done|done|done|]. by apply Nat.leb_gt.
  - destruct (cs_layers _ _ Hck _ lay Hlay) as (Ha & Hb & [Hk _] & [Hv _]). apply read_layer; [done|done|done|].
    split; [by apply Nat.leb_le|]. eexists. by eapply cat_linear_ok.
Qed.
End read.

(** ** The stacked latent projections *)

Lemma foldl_cat_weight ls : ∀ l, weight (foldl cat_linear l ls) = weight l ++ concat (weight <$> ls).
Proof. induction ls as [|x ls IH]; intros l; cbn; [by rewrite app_nil_r|]. rewrite IH. cbn. by rewrite app_assoc. Qed.

Lemma foldl_cat_bias b k ls : ∀ l, Forall (λ l, ∃ k, linear_ok b k l) ls → linear_ok b k l →
  bias (foldl cat_linear l ls) =
  if b then Some (default [] (bias l) ++ concat ((λ l, default [] (bias l)) <$> ls)) else None.
Proof.
  revert k. induction ls as [|x ls IH]; intros k l Hls Hl; cbn.
  - destruct Hl as [_ Hl]. destruct (bias l); [destruct Hl as [-> _]; cbn; by rewrite app_nil_r|by rewrite Hl].
  - apply Forall_cons in Hls as [[k' Hx] Hls]. rewrite (IH (k + k')) by (done || by apply cat_linear_ok).
    destruct b; [|done]. f_equal. rewrite app_assoc. f_equal. cbn.
    destruct Hl as [_ Hl], Hx as [_ Hx]. by destruct (bias l), (bias x).
Qed.

Lemma stack_ok ls b : ls ≠ [] → Forall (λ l, ∃ k, linear_ok b k l) ls →
  Some {| weight := concat (weight <$> ls);
          bias := match ls with
                  | {| bias := Some _ |} :: _ => Some (concat ((λ l, default [] (bias l)) <$> ls))
                  | _ => None
                  end |} = stack_linear ls.
Proof.
  destruct ls as [|l ls]; [done|]. intros _ [[k Hl] Hls]%Forall_cons. cbn [stack_linear]. f_equal.
  destruct (foldl cat_linear l ls) as [w bi] eqn:E.
  pose proof (foldl_cat_weight ls l) as Ew. pose proof (foldl_cat_bias b k ls l Hls Hl) as Eb. rewrite E in Ew, Eb. cbn in Ew, Eb. subst w bi.
  f_equal. destruct Hl as [_ Hl]. destruct l as [wl [bl|]]; cbn in *; [by destruct Hl as [-> _]|by rewrite Hl].
Qed.

(** [load_weights] packs the checkpoint. *)
Lemma load_weights_ok content weights : is_checkpoint weights → ck_layers ck ≠ [] →
  load_weights mc content fused weights = Ok m.
Proof.
  intros Hw Hne. destruct (load_loop_packed content weights Hw) as (P & E & HP & HT). unfold load_weights. rewrite E.
  cbn [mbind result_bind].
  assert (Hkv : (λ i, linear_of P (layer_name i "self_attn.kv_latent")) <$> seq n N = (λ l, latent_kv_of (self_attn l)) <$> ck_layers ck).
  { apply list_eq_same_length with (n := N); [by rewrite length_fmap, (cs_num_layers _ _ Hck)|by rewrite length_fmap, length_seq|].
    intros i x y Hi Hx Hy. rewrite list_lookup_fmap, lookup_seq_lt in Hx by done. injection Hx as <-.
    rewrite list_lookup_fmap in Hy. destruct (ck_layers ck !! i) as [lay|] eqn:Hlay; [|done]. injection Hy as <-.
    by apply read_kv_latent. }
  assert (stack_latent_kv P n N = Ok (default {| weight := []; bias := None |} (_stacked_latent_kv m))) as ->.
  { unfold stack_latent_kv. rewrite Hkv, py_check_true; cbn [mbind result_bind].
    - cbn [_stacked_latent_kv packed_model]. rewrite <- (stack_ok _ (attention_bias mc)); [done|by destruct (ck_layers ck)|].
      apply Forall_fmap, Forall_lookup_2. intros i lay Hlay. destruct (cs_layers _ _ Hck i lay Hlay) as (_ & _ & [Hk _] & [Hv _]).
      eexists. by eapply cat_linear_ok.
    - rewrite (cs_num_layers _ _ Hck). by destruct (ck_layers ck). }
  cbn [mbind result_bind]. f_equal. unfold served_model_of. rewrite (read_layers P HP HT).
  assert (HtopT : ∀ e, e ∈ packed_top ck → e ∈ T) by (intros e He; unfold packed_params; apply elem_of_app; by left).
  rewrite (read_matrix P HT _ (ck_embed_weight ck)) by (apply HtopT; by left).
  rewrite (read_norm P HT "hidden_norm" (ck_hidden_norm ck)) by (apply HtopT; do 2 right; by left).
  rewrite (read_norm P HT "latent_hidden_norm" (ck_latent_hidden_norm ck)) by (apply HtopT; do 3 right; by left).
  rewrite (read_norm P HT "norm" (ck_norm ck)) by (apply HtopT; do 4 right; by left).
  rewrite (read_linear P HP HT "fc" (ck_fc ck)).
  2: { intros e He. apply HtopT. rewrite <- top_eq. unfold top_state. rewrite !elem_of_app. tauto. }
  2: { intros _ H. apply list_elem_of_fmap in H as (d & Ed & H). apply elem_of_declared in H as [H|(i & e & _ & _ & ->)]; [|done].
       repeat (apply elem_of_cons in H as [->|H]; [by vm_compute in Ed|]). by apply not_elem_of_nil in H. }
  pose proof (cs_config _ _ Hck) as Ec. unfold packed_model. rewrite <- Ec.
  rewrite (cs_tokens _ _ Hck), (cs_block _ _ Hck), (cs_latent_id _ _ Hck), (cs_num_latent _ _ Hck).
  f_equal. cbn [_stacked_latent_kv packed_model]. by destruct (ck_layers ck).
Qed.
End checkpoint.
