(* ===== verification/LatentDraft.v ===== *)
(** * LatentDraft: the served draft forward equals the trained one

    The theorem that [LatentForward] proves, for the model that [load_weights] reads from a
    checkpoint, a batch of requests and either way of building the attention metadata; and
    an instance of everything it assumes: the imported functions as formulas, the draft
    cache as a map from layers to rows. *)

From Stdlib Require Import Reals Lra.
From S2P Require Import Prelude TensorOps RealLaw LatentSampler RejectKernel SpecDecode SpecDecodeProps MySpecModel DraftOps ExtendAttention LatentStage DraftLayers LatentModel LatentRows LatentAttention LatentLayers LatentForward LatentLoad LatentNames LatentTensors LatentLayerLoad LatentCheckpoint LatentLoaded.
#[local] Open Scope nat_scope.

(** What the served model expects of a checkpoint besides the shapes: heads of even dimension, latent
    tokens that fit in the block, a layer in the proposal stack, full attention, and the layer
    indices that the constructors of the trained model give. *)
Record layers_served (half : nat) (ck : Checkpoint) : Prop := {
  sl_dim : head_dim (ck_config ck) = 2 * half;
  sl_tokens : 0 < ck_num_latent_tokens ck ≤ ck_block_size ck;
  sl_some : ck_layers ck ≠ [];
  sl_latent i l : ck_latent_layers ck !! i = Some l → layer_idx (self_attn l) = i ∧ sliding_window (self_attn l) = None;
  sl_layers i l : ck_layers ck !! i = Some l →
    layer_idx (mask_base (self_attn l)) = length (ck_latent_layers ck) + i ∧ sliding_window (mask_base (self_attn l)) = None
}.

Lemma attn_shaped_ok mc a : attn_shaped mc a → sliding_window a = None → attn_ok (mc_config mc) (attention_bias mc) a.
Proof. intros [[] [] [] [] [] _] Hw. by split. Qed.

Lemma block_shaped_ok {A} mc (l : MySpecDecoderLayer A) : block_shaped mc l → mlp_ok l.
Proof. intros [[Hg _] [Hu _] _ _ _]. by eexists. Qed.

Lemma served_checkpoint_ok mc half ck : checkpoint_shaped mc ck → layers_served half ck →
  checkpoint_ok (attention_bias mc) half ck.
Proof.
  intros Hs Hl. pose proof (cs_config _ _ Hs) as Ec. split; [apply Hl|apply Hl| | |apply Hl]; intros i l Hi0; rewrite <- Ec.
  - destruct (cs_latent_layers _ _ Hs i l Hi0) as [Ha Hb], (sl_latent _ _ Hl i l Hi0) as [Hi Hw].
    split_and!; [by apply attn_shaped_ok|done|by eapply block_shaped_ok].
  - destruct (cs_layers _ _ Hs i l Hi0) as (Ha & Hb & [Hk _] & [Hv _]), (sl_layers _ _ Hl i l Hi0) as [Hi Hw].
    split_and!; [by apply attn_shaped_ok|done|by eapply block_shaped_ok|done|done].
Qed.

(** A decoding batch: [bs] requests with their draft caches on one side, their slots and the pool
    on the other. *)
Record draft_batch `{!TorchLinear, !Transformers} {KV : Type} `{!DynamicCacheRows KV}
    (ck : Checkpoint) (N bs : nat) (rq : nat → DraftRequest KV) (req_to_token : list (list nat))
    (mode : MetadataMode) (input_embeds : option (list row)) (pool : KVPool) : Prop := {
  db_requests b : b < bs → request_ok ck N (rq b);
  db_slots : latent_slots_free ck bs rq req_to_token;
  db_pool : pool_holds ck bs rq req_to_token pool;
  db_mode : mode_ok (ck_num_latent_tokens ck) bs (batch_seq_lens bs rq) mode;
  db_embeds : match input_embeds with Some e => e = ck_embed_tokens ck <$> batch_ids ck bs rq | None => True end
}.

(** C5: The served LatentSpec draft computes exactly what was trained.  Reading the entries of a checkpoint
    in any order, with or without a module prefix and among those of the heads, over parameters with
    any content, [load_weights] does not raise; and for every batch of requests, the two-stage forward of
    the model it returns (fused or unfused norm and rotation, any device, tile grid and order of programs,
    metadata built eagerly or in a captured graph's buffers, any previous content of the output) does
    not raise, and its hidden rows are, request by request, those that the evaluator's
    [forward_myspec_draft_block] computes with the checkpoint's own layers and its draft cache.  Both
    leave their context complete: the draft cache holds the [start] context rows, and the pool still
    holds the context of every request. *)
Theorem latentspec_draft_forward_exact `{!TorchLinear, !TorchLinearLaws, !Transformers} {KV : Type}
    `{!DynamicCache KV, !DynamicCacheRows KV, !DynamicCacheRowsLaws KV}
    (mc : ModelConfig) (ck : Checkpoint) `{!TransformersLaws (mc_rope_theta mc) (ck_config ck)}
    (content : string → nat → nat → R) (weights : list (string * Tensor)) (half N : nat)
    (bs : nat) (rq : nat → DraftRequest KV) (req_to_token : list (list nat)) (dev : Device) (fused : bool)
    (mode : MetadataMode) (input_embeds : option (list row)) (pool : KVPool)
    (Hck : checkpoint_shaped mc ck) (Hlayers : layers_served half ck) (Hcausal : mc_is_causal mc ≠ Some true)
    (Hweights : is_checkpoint ck weights)
    (Hgrid : ∀ l, grid_order dev l ≡ₚ l) (Horder : ∀ l, lane_order dev l ≡ₚ l)
    (Hbatch : draft_batch ck N bs rq req_to_token mode input_embeds pool) :
  let stages := init_forward_metadata (lane_order dev) (ck_num_latent_tokens ck) (ck_block_size ck) mode bs
                  req_to_token (batch_rows_ids bs rq) (batch_seq_lens bs rq) in
  ∃ (m : ServedModel) (hid : nat → list row) (past' : nat → KV) (pool' : KVPool),
    load_weights mc content fused weights = Ok m ∧
    served_forward dev m (Some stages) bs (batch_ids ck bs rq)
      (batch_positions ck bs rq) (batch_locs ck bs rq req_to_token) input_embeds pool = Ok (flat bs hid, pool') ∧
    pool_holds ck bs rq req_to_token pool' ∧
    ∀ b, b < bs →
      trained_draft_block ck (rq_anchor (rq b)) (rq_start (rq b)) N
        (drop (rq_cached (rq b)) (rq_hidden (rq b))) (rq_past (rq b)) = Ok (hid b, past' b) ∧
      length (hid b) = ck_block_size ck ∧ draft_cached ck (rq_start (rq b)) (rq_hidden (rq b)) (past' b).
Proof.
  intros stages. destruct Hbatch as [Hreq Hslots Hpool Hmode Hemb]. pose proof (served_checkpoint_ok mc half ck Hck Hlayers) as Hok.
  exists (packed_model ck (mc_rope_theta mc) fused (mc_is_causal mc)).
  destruct (mode_buffers (lane_order dev) (ck_num_latent_tokens ck) (ck_block_size ck) mode bs req_to_token
    (batch_rows_ids bs rq) (batch_seq_lens bs rq)) as (lb & pb & E & Hl0 & Hp0 & Hlcap & Hpcap); [|done|].
  { unfold batch_seq_lens. by rewrite length_fmap, length_seq. }
  pose proof (load_weights_ok mc ck fused Hck content weights Hweights (sl_some _ _ Hlayers)) as Hload.
  unfold stages. rewrite E.
  destruct (served_forward_ok (mc_rope_theta mc) ck bs rq req_to_token (attention_bias mc) half N Hok Hreq dev fused (mc_is_causal mc)
    Hcausal Hgrid Horder lb pb input_embeds pool Hl0 Hp0 Hlcap Hpcap Hemb Hslots Hpool) as (hid & past' & pool' & Hfw).
  by exists hid, past', pool'.
Qed.

(** ** An instance *)

#[export] Instance linear_formula : TorchLinear := λ w b x,
  let y := (λ r : row, Rsum (vmul r x)) <$> w in match b with Some b => vadd y b | None => y end.

#[export] Instance linear_formula_laws : TorchLinearLaws.
Proof.
  split; unfold F_linear, linear_formula; intros.
  - destruct b as [b|]; [|apply length_fmap]. unfold vadd. rewrite length_zip_with, length_fmap. lia.
  - apply fmap_app.
  - rewrite fmap_app. apply vadd_app. by rewrite length_fmap.
Qed.

Definition transformers_formula (theta : R) (cfg : Qwen3Config) : Transformers := {|
  Qwen3RMSNorm := rms_norm;
  rotate_half x := (Ropp <$> drop (length x / 2) x) ++ take (length x / 2) x;
  rotary pos :=
    let freqs := (λ f, INR pos * f)%R <$> inv_freq theta (head_dim cfg) in
    ((cos <$> freqs) ++ (cos <$> freqs), (sin <$> freqs) ++ (sin <$> freqs));
  Qwen3MLP gate up down x := linear down (vmul (silu <$> linear gate x) (linear up x));
  attn_fn _ _ _ s q k v :=
    (λ hs : list row, imap (λ h x,
       let kv_head := h / (num_attention_heads cfg / num_key_value_heads cfg) in
       attention (head_dim cfg) None
         ((λ kv, ((key_dot (head_dim cfg) x (row2 kv.1 kv_head) * s)%R, row2 kv.2 kv_head)) <$> zip k v)) hs) <$> q
|}.

Lemma transformers_formula_laws theta cfg :
  @TransformersLaws linear_formula (transformers_formula theta cfg) theta cfg.
Proof. by split. Qed.

(** The draft cache as a map from layers. *)
Definition LayerCache : Type := nat → head_tensor * head_tensor.
#[export] Instance layer_cache : DynamicCache LayerCache := {|
  new_cache := λ _, ([], []);
  get_seq_length c := length (c 0).1;
  crop_cache n c := λ l, (take n (c l).1, take n (c l).2)
|}.
#[export] Instance layer_cache_rows : DynamicCacheRows LayerCache := {|
  cache_update l k v c :=
    let kv := ((c l).1 ++ k, (c l).2 ++ v) in (kv.1, kv.2, λ l', if decide (l' = l) then kv else c l');
  cache_rows l c := c l
|}.
#[export] Instance layer_cache_laws : DynamicCacheRowsLaws LayerCache.
Proof. split; [|done|done]. intros l k v c. by eexists. Qed.

(** One head of two lanes, one layer per stack, one latent token and a block of one. *)
Definition tiny_config : Qwen3Config :=
  {| num_attention_heads := 1; num_key_value_heads := 1; head_dim := 2; rms_norm_eps := 1; num_latent_layers := 1 |}.
Definition tiny_linear : Linear := {| weight := [[1%R; 0%R]; [0%R; 1%R]]; bias := None |}.
Definition tiny_attention (i : nat) : MySpecAttention :=
  {| layer_idx := i; q_proj := tiny_linear; k_proj := tiny_linear; v_proj := tiny_linear; k_proj_noise := tiny_linear;
     v_proj_noise := tiny_linear; o_proj := tiny_linear; q_norm := [1%R; 1%R]; k_norm := [1%R; 1%R]; sliding_window := None |}.
Definition tiny_layer {A} (a : A) : MySpecDecoderLayer A :=
  {| self_attn := a; gate_proj := tiny_linear; up_proj := tiny_linear; down_proj := tiny_linear;
     input_layernorm := [1%R; 1%R]; post_attention_layernorm := [1%R; 1%R] |}.
Definition tiny_checkpoint : Checkpoint :=
  {| ck_config := tiny_config; ck_num_latent_tokens := 1; ck_block_size := 1; ck_latent_token_id := 7; ck_mask_token_id := 8;
     ck_embed_weight := (λ t, [INR t; 1%R]) <$> seq 0 9; ck_fc := tiny_linear; ck_hidden_norm := [1%R; 1%R];
     ck_latent_hidden_norm := [1%R; 1%R]; ck_norm := [1%R; 1%R];
     ck_latent_layers := [tiny_layer (tiny_attention 0)];
     ck_layers := [tiny_layer {| mask_base := tiny_attention 1; k_proj_latent := tiny_linear; v_proj_latent := tiny_linear |}] |}.

Definition tiny_model : ModelConfig :=
  {| mc_config := tiny_config; hidden_size := 2; vocab_size := 9; intermediate_size := 2; num_target_layers := 1;
     attention_bias := false; num_hidden_layers := 1; mc_num_latent_tokens := 1; mc_block_size := 1;
     mc_latent_token_id := 7; mc_rope_theta := 10000; mc_is_causal := None |}.

Lemma tiny_linear_shaped : linear_shaped false 2 2 tiny_linear.
Proof. by repeat constructor. Qed.
Lemma tiny_attn_shaped i : attn_shaped tiny_model (tiny_attention i).
Proof. split; [apply tiny_linear_shaped..|done|done]. Qed.
Lemma tiny_block_shaped {A} (a : A) : block_shaped tiny_model (tiny_layer a).
Proof. split; [apply tiny_linear_shaped..|done|done]. Qed.

Lemma tiny_checkpoint_shaped : checkpoint_shaped tiny_model tiny_checkpoint.
Proof.
  split; try done.
  - by split; [|repeat constructor].
  - apply tiny_linear_shaped.
  - intros [|i] l Hl; [|done]. injection Hl as <-. split; [apply tiny_attn_shaped|apply tiny_block_shaped].
  - intros [|i] l Hl; [|done]. injection Hl as <-.
    split_and!; [apply tiny_attn_shaped|apply tiny_block_shaped|apply tiny_linear_shaped|apply tiny_linear_shaped].
Qed.

Lemma tiny_layers_served : layers_served 1 tiny_checkpoint.
Proof. split; [done|cbn; lia|done| |]; intros [|i] l Hl; try done; by injection Hl as <-. Qed.

(** The file names its entries below a module, in another order, after those of the output head. *)
Definition tiny_weights : list (string * Tensor) :=
  ("model.lm_head.weight"%string, Matrix []) :: reverse ((λ e, ("model." +:+ e.1, e.2)) <$> state_dict tiny_checkpoint).

Lemma tiny_is_checkpoint : is_checkpoint tiny_checkpoint tiny_weights.
Proof.
  split.
  - intros e He. exists ("model." +:+ e.1). split; [by right|]. right. apply elem_of_reverse, list_elem_of_fmap. by exists e.
  - intros w [->|Hw]%elem_of_cons.
    + right. exists "lm_head.weight"%string. split; [by exists "weight"%string; left|by right].
    + left. apply elem_of_reverse, list_elem_of_fmap in Hw as (e & -> & He). exists e. split; [done|]. split; [by right|done].
Qed.

(** One request after one context token, its draft cache empty. *)
Definition tiny_request : DraftRequest LayerCache :=
  {| rq_anchor := 5; rq_start := 1; rq_hidden := [[2%R; 3%R]]; rq_cached := 0; rq_past := new_cache; rq_row := 0 |}.

Section tiny.
#[local] Existing Instance transformers_formula_laws.
#[local] Instance tiny_transformers : Transformers := transformers_formula 10000 tiny_config.

(** Every slot holds the context token of the layer. *)
Definition tiny_pool : KVPool :=
  let ctx j := default (tiny_attention 0) (attns tiny_checkpoint !! j) in
  let X := context_hidden tiny_checkpoint [[2%R; 3%R]] in
  {| k_buffer := λ j _, row2 (ctx_k tiny_config (ctx j) X) 0; v_buffer := λ j _, row2 (ctx_v tiny_config (ctx j) X) 0 |}.

Lemma single_row {A} (l : list (list A)) : length l = 1 → [row2 l 0] = l.
Proof. by destruct l as [|x [|]]. Qed.

Lemma tiny_batch :
  draft_batch tiny_checkpoint 2 1 (λ _, tiny_request) [[3; 4]] (EagerMetadata (λ n, replicate n 0) 2 None) None tiny_pool.
Proof.
  split; [| | | |done].
  - intros b _. split; [done|cbn; lia|cbn; lia|]. by intros j a _.
  - split; [apply NoDup_singleton|]. intros [|b] [|n] Hb Hn; cbn in *; try lia. by intros [E|E%not_elem_of_nil]%elem_of_cons.
  - intros j a [|b] Hj Hb; [|lia]. unfold tiny_pool. cbn [rq_start tiny_request rq_hidden seq fmap list_fmap k_buffer v_buffer].
    rewrite Hj. cbn [default]. split; apply single_row; [apply length_ctx_k|apply length_ctx_v].
  - split; [intros n; apply length_replicate|]. by repeat constructor.
Qed.
End tiny.

Definition tiny_device : Device :=
  {| arch := OtherDevice; compact_grid := true; grid_order := reverse; lane_order := reverse;
     out_init := λ _ _, []; page_size := 1 |}.

Lemma latentspec_draft_forward_exact_witness :
  let ck := tiny_checkpoint in
  let tr := transformers_formula 10000 tiny_config in
  let mode := EagerMetadata (λ n, replicate n 0) 2 None in
  let rq := λ _ : nat, tiny_request in
  ∃ (m : ServedModel) (hid : nat → list row) (past' : nat → LayerCache) (pool' : KVPool),
    load_weights tiny_model (λ _ _ _, 3%R) true tiny_weights = Ok m ∧
    served_forward tiny_device m
      (Some (init_forward_metadata reverse 1 1 mode 1 [[3; 4]] (batch_rows_ids 1 rq) (batch_seq_lens 1 rq))) 1
      (batch_ids ck 1 rq) (batch_positions ck 1 rq) (batch_locs ck 1 rq [[3; 4]]) None tiny_pool = Ok (flat 1 hid, pool') ∧
    @pool_holds linear_formula tr ck LayerCache 1 rq [[3; 4]] pool' ∧
    ∀ b, b < 1 →
      @trained_draft_block linear_formula tr LayerCache _ _ ck 5 1 2 (drop 0 [[2%R; 3%R]]) new_cache = Ok (hid b, past' b) ∧
      length (hid b) = 1 ∧ @draft_cached linear_formula tr ck LayerCache _ 1 [[2%R; 3%R]] (past' b).
Proof.
  refine (@latentspec_draft_forward_exact linear_formula linear_formula_laws (transformers_formula 10000 tiny_config)
    LayerCache layer_cache layer_cache_rows layer_cache_laws tiny_model tiny_checkpoint (transformers_formula_laws 10000 tiny_config)
    (λ _ _ _, 3%R) tiny_weights 1 2 1 (λ _, tiny_request) [[3; 4]] tiny_device true (EagerMetadata (λ n, replicate n 0) 2 None) None tiny_pool
    tiny_checkpoint_shaped tiny_layers_served _ tiny_is_checkpoint _ _ tiny_batch).
  - discriminate.
  - intros l. apply reverse_Permutation.
  - intros l. apply reverse_Permutation.
Defined.
