(* ===== verification/DraftContext.v ===== *)
(** * DraftContext: the target's hidden rows in the draft's KV pool

    Models how [srt/speculative/dflash_worker_v2.py] appends the context of a LatentSpec draft:
    [_append_target_hidden_to_draft_kv_by_loc] with its three paths (per layer, per layer with
    the committed prefix of every block, fused over the layers with its fallback), the
    prefix-valid write of [srt/mem_cache/memory_pool.py] with the tiled kernel of
    [kernels/ops/kvcache/cache_move.py], and [kernels/ops/speculative/fused_kv_materialize.py].
    Numbers are exact reals, so a cell is [itemsize] bytes that move together. *)

From Stdlib Require Import Reals Lra.
From S2P Require Import Prelude TensorOps RealLaw LatentSampler RejectKernel MySpecModel ExtendAttention LatentStage DraftLayers LatentModel.
#[local] Open Scope nat_scope.
#[local] Arguments Nat.ltb : simpl never.
#[local] Arguments Nat.leb : simpl never.

(** ** The committed prefix of every block *)

(** The width of a tile in [_set_kv_buffer_prefix_valid_impl]. *)
Definition bytes_per_tile (row_bytes : nat) : nat :=
  if (8192 <=? Z.of_nat row_bytes)%Z then 512 else if (4096 <=? Z.of_nat row_bytes)%Z then 256 else 128.

Section prefix_valid.
Context (num_kv_heads head_dim itemsize : nat).
Notation row_dim := (num_kv_heads * head_dim).
Notation row_bytes := (num_kv_heads * head_dim * itemsize).

Definition cells_per_tile : nat := bytes_per_tile row_bytes / itemsize.

(** The masked load and store of tile [tid] of a token's row. *)
Definition copy_tile (tid : nat) (src dst : list row) : list row :=
  split_heads head_dim num_kv_heads
    ((λ c, if c / cells_per_tile =? tid then wt (concat src) c else wt (concat dst) c) <$> seq 0 row_dim).

(** Program [(bid, row, tid)]; the destination is a layer's two buffers. *)
Definition set_kv_buffer_prefix_valid_tiled (src_k src_v : head_tensor) (loc_2d : list (list nat)) (commit_lens : list nat)
    (block_size : nat) (dst : (nat → list row) * (nat → list row)) (p : nat * nat * nat)
  : (nat → list row) * (nat → list row) :=
  let '(bid, row, tid) := p in
  let commit_len := ld commit_lens bid in
  if commit_len <=? row then dst
  else
    let loc := ld (concat loc_2d) (bid * block_size + row) in
    let src_row := bid * block_size + row in
    (λ s, if s =? loc then copy_tile tid (row2 src_k src_row) (dst.1 s) else dst.1 s,
     λ s, if s =? loc then copy_tile tid (row2 src_v src_row) (dst.2 s) else dst.2 s).

(** [order] is the order in which the programs run. *)
Definition _set_kv_buffer_prefix_valid_impl (order : list (nat * nat * nat) → list (nat * nat * nat)) (k v : head_tensor)
    (cache : (nat → list row) * (nat → list row)) (loc_2d : list (list nat)) (commit_lens : list nat)
  : (nat → list row) * (nat → list row) :=
  if (length k =? 0) || (length (concat loc_2d) =? 0) || (length commit_lens =? 0) then cache
  else if row_bytes =? 0 then cache
  else
    let width := length (row2 loc_2d 0) in
    let grid :=
      bid ← seq 0 (length loc_2d); row ← seq 0 width; tid ← seq 0 (cdiv row_bytes (bytes_per_tile row_bytes));
      [(bid, row, tid)] in
    foldl (set_kv_buffer_prefix_valid_tiled k v loc_2d commit_lens width) cache (order grid).

(** [torch.nonzero(mask).flatten()]. *)
Definition nonzero (mask : list bool) : list nat := filter (λ i, mask !! i = Some true) (seq 0 (length mask)).

(** [is_gpu] is [_is_cuda or _is_hip]. *)
Definition set_kv_buffer_prefix_valid (is_gpu : bool) (order : list (nat * nat * nat) → list (nat * nat * nat))
    (pool : KVPool) (layer_id : nat) (loc_2d : list (list nat)) (commit_lens : list nat) (cache_k cache_v : head_tensor)
  : result KVPool :=
  _ ← py_check ValueError (length commit_lens =? length loc_2d);
  let num_rows := length (concat loc_2d) in
  _ ← py_check ValueError ((length cache_k =? num_rows) && (length cache_v =? num_rows));
  if is_gpu then
    let kv := _set_kv_buffer_prefix_valid_impl order cache_k cache_v (k_buffer pool layer_id, v_buffer pool layer_id) loc_2d commit_lens in
    Ok {| k_buffer := λ l, if l =? layer_id then kv.1 else k_buffer pool l;
          v_buffer := λ l, if l =? layer_id then kv.2 else v_buffer pool l |}
  else
    let valid_mask := zip_with (λ (locs : list nat) commit, (λ i, i <? commit) <$> seq 0 (length locs)) loc_2d commit_lens in
    let valid_idx := nonzero (concat valid_mask) in
    if length valid_idx =? 0 then Ok pool
    else Ok (set_kv_buffer pool layer_id (ld (concat loc_2d) <$> valid_idx) (row2 cache_k <$> valid_idx) (row2 cache_v <$> valid_idx)).
End prefix_valid.

(** ** The keys and values of context rows *)

Section context.
Context `{!TorchLinear} (m : ServedModel).
Notation D := (hd m).
Notation nkv := (num_kv_heads m).

Definition project_target_hidden (target_hidden : list row) : list row :=
  (λ x, rms_norm (sm_hidden_norm m) (eps m) (linear (sm_fc m) x)) <$> target_hidden.

Definition kv_proj_only (l : LatentSpecLayer) (hidden : row) : row * row := split_kv m (linear (kv_ctx l) hidden).
Definition apply_k_norm (l : LatentSpecLayer) (k : row) : row := concat (rms_norm (kn_weight l) (eps m) <$> split_heads D nkv k).
Definition apply_k_rope (position : nat) (k : row) : row := concat (rotary_head (rope_theta m) D position <$> split_heads D nkv k).

(** A layer's keys and values in the two unfused loops. *)
Definition layer_context_kv (l : LatentSpecLayer) (ctx_hidden : list row) (positions : list nat) : head_tensor * head_tensor :=
  let kv := kv_proj_only l <$> ctx_hidden in
  let k := apply_k_norm l <$> (fst <$> kv) in
  let k := zip_with apply_k_rope positions k in
  (split_heads D nkv <$> k, split_heads D nkv <$> (snd <$> kv)).

Definition _append_target_hidden_sequential (ctx_hidden : list row) (ctx_positions ctx_cache_loc : list nat) (pool : KVPool) : KVPool :=
  foldl (λ pool l, let '(k, v) := layer_context_kv l ctx_hidden ctx_positions in
                   set_kv_buffer pool (layer_id l) ctx_cache_loc k v) pool (sm_layers m).
End context.

(** ** The fused materialisation *)

(** What the helper uses of [RotaryEmbedding]. *)
Record RotaryEmb := {
  re_base : R;
  re_rotary_dim : nat;
  re_cos_sin_cache : list row
}.

(** [_compute_cos_sin_cache] in the constructor. *)
Definition new_rotary_emb (base : R) (rotary_dim max_position_embeddings : nat) : RotaryEmb :=
  {| re_base := base; re_rotary_dim := rotary_dim; re_cos_sin_cache := cos_sin_cache base rotary_dim <$> seq 0 max_position_embeddings |}.

(** [align] is [SGLANG_ROPE_CACHE_ALIGN]. *)
Definition _ensure_cos_sin_cache_length (align : nat) (e : RotaryEmb) (needed_max_pos : nat) : RotaryEmb :=
  let cur_len := length (re_cos_sin_cache e) in
  if needed_max_pos <? cur_len then e
  else
    let new_len := (needed_max_pos + align) / align * align in
    {| re_base := re_base e; re_rotary_dim := re_rotary_dim e;
       re_cos_sin_cache := re_cos_sin_cache e ++ (cos_sin_cache (re_base e) (re_rotary_dim e) <$> seq cur_len (new_len - cur_len)) |}.

Record FusedKVMaterializeHelper := {
  fh_num_kv_heads : nat;
  fh_head_dim : nat;
  fh_n_layers : nat;
  fh_rotary_dim : nat;
  fh_max_position_hint : option nat;
  fh_rotary_emb : RotaryEmb;
  _reserved_rope_cache_len : nat;
  flat_kv_weight : list row;
  fh_k_norm_weights : list row;
  fh_eps_values : list R
}.

(** Program [(ctx_id, head_id, layer_id)]: the rows of the two outputs it stores to; lanes past the
    rotated ones keep the normed value, and a lane that no store covers what was there. *)
Definition _fused_norm_rope_kernel_stacked (kv : list (list row)) (k_norm_weight : list row) (eps : list R)
    (cos_sin_cache : list row) (positions : list nat) (kv_size head_dim rotary_dim : nat)
    (out : (nat → nat → nat → row) * (nat → nat → nat → row)) (p : nat * nat * nat)
  : (nat → nat → nat → row) * (nat → nat → nat → row) :=
  let '(ctx_id, head_id, layer_id) := p in
  let half_rotary_dim := rotary_dim / 2 in
  let position := ld positions ctx_id in
  let kv_base := row2 (row2 kv ctx_id) layer_id in
  let k_base := head_id * head_dim in
  let v_base := kv_size + head_id * head_dim in
  let k_raw o := if o <? head_dim then wt kv_base (k_base + o) else 0%R in
  let lanes := seq 0 (next_power_of_2 head_dim) in
  let inv_rms := (1 / sqrt (Rsum ((λ o, square (k_raw o)) <$> lanes) / INR head_dim + wt eps layer_id))%R in
  let norm_w := row2 k_norm_weight layer_id in
  let k_normed o := (k_raw o * inv_rms * wt norm_w o)%R in
  let cos_v := wt (row2 cos_sin_cache position) in
  let sin_v o := wt (row2 cos_sin_cache position) (half_rotary_dim + o) in
  let k_second o := (wt kv_base (k_base + half_rotary_dim + o) * inv_rms * wt norm_w (half_rotary_dim + o))%R in
  let k_rot_first o := (k_normed o * cos_v o - k_second o * sin_v o)%R in
  let k_rot_second o := (k_second o * cos_v o + k_normed o * sin_v o)%R in
  let k_row old :=
    (λ o, if rotary_dim <=? o then k_normed o
          else if (half_rotary_dim <=? o) && (o <? half_rotary_dim + half_rotary_dim) then k_rot_second (o - half_rotary_dim)
          else if o <? half_rotary_dim then k_rot_first o
          else wt old o) <$> seq 0 head_dim in
  let v_row := (λ o, wt kv_base (v_base + o)) <$> seq 0 head_dim in
  let here l c h := (l =? layer_id) && (c =? ctx_id) && (h =? head_id) in
  (λ l c h, if here l c h then k_row (out.1 l c h) else out.1 l c h,
   λ l c h, if here l c h then v_row else out.2 l c h).

(** [k_out] and [v_out] hold [out_init] before; the result is read layer by layer, token by token. *)
Definition _fused_norm_rope_stacked (order : list (nat * nat * nat) → list (nat * nat * nat))
    (out_init : (nat → nat → nat → row) * (nat → nat → nat → row)) (kv : list (list row)) (n_layers kv_dim : nat)
    (k_norm_weight : list row) (eps : list R) (cos_sin_cache : list row) (positions : list nat)
    (num_kv_heads head_dim rotary_dim : nat) : result (list head_tensor * list head_tensor) :=
  let total_ctx := length kv in
  if total_ctx =? 0 then Ok (replicate n_layers [], replicate n_layers [])
  else
    let kv_size := num_kv_heads * head_dim in
    _ ← py_check ValueError (kv_dim =? kv_size * 2);
    _ ← py_check ValueError ((0 <? rotary_dim) && (rotary_dim <=? head_dim) && (rotary_dim mod 2 =? 0));
    _ ← py_check ValueError ((length k_norm_weight =? n_layers) && forallb (λ w : row, length w =? head_dim) k_norm_weight);
    _ ← py_check ValueError (length eps =? n_layers);
    let grid :=
      ctx_id ← seq 0 total_ctx; head_id ← seq 0 num_kv_heads; layer_id ← seq 0 n_layers; [(ctx_id, head_id, layer_id)] in
    let out :=
      foldl (_fused_norm_rope_kernel_stacked kv k_norm_weight eps cos_sin_cache positions kv_size head_dim rotary_dim)
        out_init (order grid) in
    let read (f : nat → nat → nat → row) := (λ l, (λ c, f l c <$> seq 0 num_kv_heads) <$> seq 0 total_ctx) <$> seq 0 n_layers in
    Ok (read out.1, read out.2).

Section fused.
Context `{!TorchLinear} (align : nat).

(** [_ensure_rope_cache]: the helper afterwards. *)
Definition _ensure_rope_cache (h : FusedKVMaterializeHelper) (max_position : nat) : result FusedKVMaterializeHelper :=
  let grows := _reserved_rope_cache_len h <? max_position + 1 in
  let e := if grows then _ensure_cos_sin_cache_length align (fh_rotary_emb h) max_position else fh_rotary_emb h in
  let reserved := if grows then length (re_cos_sin_cache e) else _reserved_rope_cache_len h in
  _ ← py_check RuntimeError (max_position <? length (re_cos_sin_cache e));
  Ok {| fh_num_kv_heads := fh_num_kv_heads h; fh_head_dim := fh_head_dim h; fh_n_layers := fh_n_layers h;
        fh_rotary_dim := fh_rotary_dim h; fh_max_position_hint := fh_max_position_hint h; fh_rotary_emb := e;
        _reserved_rope_cache_len := reserved; flat_kv_weight := flat_kv_weight h;
        fh_k_norm_weights := fh_k_norm_weights h; fh_eps_values := fh_eps_values h |}.

(** The constructor; the layers of a served model share their dimensions and the neox rotation.
    [context_kv_weight] is the weight of [kv_ctx] alone. *)
Definition new_fused_kv_helper (m : ServedModel) (rotary_emb : RotaryEmb) (max_position_hint : option nat)
  : result FusedKVMaterializeHelper :=
  _ ← py_check ValueError ((0 <? re_rotary_dim rotary_emb) && (re_rotary_dim rotary_emb <=? hd m));
  let max_position_hint := (λ n, n - 1) <$> max_position_hint in
  let h :=
    {| fh_num_kv_heads := num_kv_heads m; fh_head_dim := hd m; fh_n_layers := length (sm_layers m);
       fh_rotary_dim := re_rotary_dim rotary_emb; fh_max_position_hint := max_position_hint; fh_rotary_emb := rotary_emb;
       _reserved_rope_cache_len := length (re_cos_sin_cache rotary_emb);
       flat_kv_weight := concat ((λ l, weight (kv_ctx l)) <$> sm_layers m);
       fh_k_norm_weights := kn_weight <$> sm_layers m; fh_eps_values := (λ _, eps m) <$> sm_layers m |} in
  match max_position_hint with Some p => _ensure_rope_cache h p | None => Ok h end.

(** [materialize]: the helper, and the keys and values it hands to [write_layer_kv], layer by layer.
    [torch.mm] with the transposed weight is [F.linear] without bias. *)
Definition materialize (order : list (nat * nat * nat) → list (nat * nat * nat))
    (workspace : (nat → nat → nat → row) * (nat → nat → nat → row)) (h : FusedKVMaterializeHelper)
    (ctx_hidden : list row) (positions : list nat)
  : result (FusedKVMaterializeHelper * list (head_tensor * head_tensor)) :=
  let total_ctx := length ctx_hidden in
  if total_ctx =? 0 then Ok (h, [])
  else
    _ ← py_check ValueError (length positions =? total_ctx);
    let max_position := match fh_max_position_hint h with Some p => p | None => foldr Nat.max 0 positions end in
    h ← _ensure_rope_cache h max_position;
    let layer_out_dim := 2 * (fh_num_kv_heads h * fh_head_dim h) in
    let proj_out :=
      (λ x, let y := F_linear (flat_kv_weight h) None x in
            (λ l, take layer_out_dim (drop (l * layer_out_dim) y)) <$> seq 0 (fh_n_layers h)) <$> ctx_hidden in
    '(cache_k, cache_v) ←
      _fused_norm_rope_stacked order workspace proj_out (fh_n_layers h) layer_out_dim (fh_k_norm_weights h) (fh_eps_values h)
        (re_cos_sin_cache (fh_rotary_emb h)) positions (fh_num_kv_heads h) (fh_head_dim h) (fh_rotary_dim h);
    Ok (h, zip cache_k cache_v).
End fused.

(** ** The worker's append *)

(** The device and the options of the worker that the append depends on. *)
Record AppendConf := {
  is_gpu : bool;
  store_itemsize : nat;
  rope_align : nat;
  program_order : list (nat * nat * nat) → list (nat * nat * nat);
  kv_workspace : (nat → nat → nat → row) * (nat → nat → nat → row)
}.

(** A loop over layers that can raise. *)
Fixpoint each_layer {A} (f : KVPool → A → result KVPool) (pool : KVPool) (l : list A) : result KVPool :=
  match l with
  | [] => Ok pool
  | x :: l => pool ← f pool x; each_layer f pool l
  end.

Section append.
Context `{!TorchLinear} (conf : AppendConf) (m : ServedModel).
Notation prefix_valid := (set_kv_buffer_prefix_valid (num_kv_heads m) (hd m) (store_itemsize conf) (is_gpu conf) (program_order conf)).

(** [_append_target_hidden_fused]: every layer is written with [_write_layer_kv]. *)
Definition _append_target_hidden_fused (helper : FusedKVMaterializeHelper) (ctx_hidden : list row)
    (ctx_positions ctx_cache_loc : list nat) (block : option (list (list nat) * list nat)) (pool : KVPool)
  : result (KVPool * FusedKVMaterializeHelper) :=
  '(helper, kvs) ← materialize (rope_align conf) (program_order conf) (kv_workspace conf) helper ctx_hidden ctx_positions;
  let write (pool : KVPool) (ikv : nat * (head_tensor * head_tensor)) : result KVPool :=
    let '(layer_idx, (cache_k, cache_v)) := ikv in
    match sm_layers m !! layer_idx with
    | None => Raise IndexError
    | Some l =>
        match block with
        | Some (ctx_cache_loc_2d, commit_lens) => prefix_valid pool (layer_id l) ctx_cache_loc_2d commit_lens cache_k cache_v
        | None => Ok (set_kv_buffer pool (layer_id l) ctx_cache_loc cache_k cache_v)
        end
    end in
  pool ← each_layer write pool (zip (seq 0 (length kvs)) kvs);
  Ok (pool, helper).

(** The per-layer prefix-direct loop. *)
Definition append_prefix_direct (ctx_hidden : list row) (positions : list nat) (cache_loc_2d : list (list nat))
    (commit_lens : list nat) (pool : KVPool) : result KVPool :=
  each_layer (λ pool l, let '(k, v) := layer_context_kv m l ctx_hidden positions in
                        prefix_valid pool (layer_id l) cache_loc_2d commit_lens k v) pool (sm_layers m).

(** [None] is a worker whose [_use_fused_kv_materialize] is off.  A fused append that raises turns it off and the
    unfused loop starts again: the checks of the writes are the same for every layer, so none was made. *)
Definition _append_target_hidden_to_draft_kv_by_loc (fused : option FusedKVMaterializeHelper) (target_hidden : option (list row))
    (cache_loc positions : list nat) (cache_loc_2d : option (list (list nat))) (commit_lens : option (list nat)) (pool : KVPool)
  : result (KVPool * option FusedKVMaterializeHelper) :=
  match target_hidden with
  | None => Raise RuntimeError
  | Some target_hidden =>
      let num_tokens := length target_hidden in
      if num_tokens =? 0 then Ok (pool, fused)
      else
        _ ← py_check ValueError (length cache_loc =? num_tokens);
        _ ← py_check ValueError (length positions =? num_tokens);
        _ ← match cache_loc_2d with
            | None => Ok tt
            | Some loc_2d =>
                _ ← py_check ValueError (length (concat loc_2d) =? num_tokens);
                match commit_lens with None => Raise ValueError | Some _ => Ok tt end
            end;
        let ctx_hidden := project_target_hidden m target_hidden in
        match cache_loc_2d, commit_lens with
        | Some loc_2d, Some commit_lens =>
            _ ← py_check ValueError (length loc_2d =? length commit_lens);
            if length commit_lens =? 0 then Ok (pool, fused)
            else
              let direct := pool ← append_prefix_direct ctx_hidden positions loc_2d commit_lens pool; Ok (pool, None) in
              match fused with
              | None => direct
              | Some helper =>
                  match _append_target_hidden_fused helper ctx_hidden positions cache_loc (Some (loc_2d, commit_lens)) pool with
                  | Ok (pool, helper) => Ok (pool, Some helper)
                  | Raise _ => direct
                  end
              end
        | _, _ =>
            let sequential := Ok (_append_target_hidden_sequential m ctx_hidden positions cache_loc pool, None) in
            match fused with
            | None => sequential
            | Some helper =>
                match _append_target_hidden_fused helper ctx_hidden positions cache_loc None pool with
                | Ok (pool, helper) => Ok (pool, Some helper)
                | Raise _ => sequential
                end
            end
        end
  end.
End append.
