(* ===== verification/DraftRounds.v ===== *)
(** * DraftRounds: prefill and decode iterations of the LatentSpec draft

    Models what [forward_batch_generation] of [srt/speculative/dflash_worker_v2.py] does around the
    draft model: preparing the draft block in its Triton and its eager form
    ([kernels/ops/speculative/dflash.py], [cache_locs.py]), the draft forward, and appending
    the committed rows after the target's verification; in prefill, the prompt's rows at their positions
    ([compute_position] of [srt/model_executor/forward_batch_info.py] with
    [kernels/ops/attention/position.py]).  The target's part of an iteration, its hidden rows, the
    committed lengths and the bonus tokens, is given.  The full draft cache is modelled, not the
    compact one of a draft window. *)

From Stdlib Require Import Reals Lra.
From S2P Require Import Prelude TensorOps RealLaw LatentSampler RejectKernel MySpecModel ExtendAttention LatentStage DraftLayers LatentModel DraftContext.
#[local] Open Scope nat_scope.
#[local] Arguments Nat.ltb : simpl never.
#[local] Arguments Nat.leb : simpl never.

(** ** Positions of a prefill *)

Definition support_triton (backend : string) : bool := negb (bool_decide (backend ∈ ["torch_native"; "intel_amx"]%string)).

Definition compute_position_torch (extend_prefix_lens extend_seq_lens : list nat) : list nat :=
  concat (zip_with seq extend_prefix_lens extend_seq_lens).

(** The stores of program [pid] to [positions]. *)
Definition compute_position_kernel (extend_prefix_lens extend_seq_lens : list nat) (has_prefix : bool) (pid : nat) : list (nat * nat) :=
  let prefix_len := if has_prefix then ld extend_prefix_lens pid else 0 in
  let seq_len := ld extend_seq_lens pid in
  let cumsum_start := foldl (λ acc i, acc + ld extend_seq_lens i) 0 (seq 0 pid) in
  i ← seq 0 (cdiv seq_len 512);
  offset ← filter (λ o, o < seq_len) (tl_lanes 512 i);
  [(cumsum_start + offset, prefix_len + offset)].

(** Stores to a buffer, one after the other. *)
Definition store_all (buf : list nat) (stores : list (nat * nat)) : list nat := foldl (λ buf w, <[w.1 := w.2]> buf) buf stores.

Section rounds.
Context (order : list nat → list nat) (torch_empty : nat → list nat).

Definition compute_position_triton (extend_prefix_lens extend_seq_lens : list nat) (extend_seq_lens_sum : nat) : list nat :=
  let batch_size := length extend_seq_lens in
  let has_prefix := length extend_prefix_lens =? batch_size in
  store_all (torch_empty extend_seq_lens_sum)
    (pid ← order (seq 0 batch_size); compute_position_kernel extend_prefix_lens extend_seq_lens has_prefix pid).

Definition compute_position (attn_backend : string) (extend_prefix_lens extend_seq_lens : list nat) (extend_seq_lens_sum : nat) : list nat :=
  if support_triton attn_backend then compute_position_triton extend_prefix_lens extend_seq_lens extend_seq_lens_sum
  else compute_position_torch extend_prefix_lens extend_seq_lens.

(** ** The slots of a block *)

(** The stores of program [pid] to [out_cache_loc]. *)
Definition assign_extend_cache_locs (req_pool_indices : list nat) (req_to_token : list (list nat)) (start_offset end_offset : list nat)
    (bs_upper pid : nat) : list (nat * nat) :=
  let kv_start := ld start_offset pid in
  let kv_end := ld end_offset pid in
  let token_pool := row2 req_to_token (ld req_pool_indices pid) in
  let out_offset :=
    sum_list ((λ lane, if lane <? pid then ld end_offset lane - ld start_offset lane else 0) <$> seq 0 bs_upper) in
  i ← seq 0 (cdiv (kv_end - kv_start) 32);
  offset ← filter (λ o, kv_start + o < kv_end) (tl_lanes 32 i);
  [(out_offset + offset, ld token_pool (kv_start + offset))].

Definition assign_extend_cache_locs_func (req_pool_indices : list nat) (req_to_token : list (list nat)) (start_offset end_offset : list nat)
    (batch_size draft_token_num : nat) : list nat :=
  store_all (torch_empty (batch_size * draft_token_num))
    (pid ← order (seq 0 batch_size);
     assign_extend_cache_locs req_pool_indices req_to_token start_offset end_offset (next_power_of_2 batch_size) pid).

(** The row that program [row] stores to each of its three outputs. *)
Definition _prepare_dflash_draft_block_contig_kernel (bonus_tokens prefix_lens req_pool_indices : list nat) (req_to_token : list (list nat))
    (req_to_token_width block_size mask_token_id row : nat) : list nat * list nat * list nat :=
  let cols := filter (λ c, c < block_size) (seq 0 (next_power_of_2 block_size)) in
  let prefix_len := ld prefix_lens row in
  let req_row := row2 req_to_token (ld req_pool_indices row) in
  let bonus_token := ld bonus_tokens row in
  ((λ c, if c =? 0 then bonus_token else mask_token_id) <$> cols,
   (λ c, prefix_len + c) <$> cols,
   (λ c, tl_load req_row (prefix_len + c) (prefix_len + c <? req_to_token_width) 0) <$> cols).

(** The five buffers of an iteration, row by row. *)
Record DraftBlock := {
  block_ids_2d : list (list nat);
  draft_positions_2d : list (list nat);
  draft_out_cache_loc_2d : list (list nat);
  verify_positions_2d : list (list nat);
  verify_out_cache_loc_2d : list (list nat)
}.

(** [verify_size] is [draft_input_size + 1]: the proposals start at the first hidden row. *)
Definition prepare_draft_block (use_triton_prepare_block : bool) (bonus_tokens prefix_lens req_pool_indices : list nat)
    (req_to_token : list (list nat)) (draft_input_size mask_token_id : nat) : DraftBlock :=
  let bs := length prefix_lens in
  let verify_size := draft_input_size + 1 in
  let end_offset := (λ n, n + verify_size) <$> prefix_lens in
  let verify_locs :=
    view_2d bs verify_size (assign_extend_cache_locs_func req_pool_indices req_to_token prefix_lens end_offset bs verify_size) in
  let verify_positions := (λ p, (λ o, p + o) <$> seq 0 verify_size) <$> prefix_lens in
  if use_triton_prepare_block then
    let rows := _prepare_dflash_draft_block_contig_kernel bonus_tokens prefix_lens req_pool_indices req_to_token
                  (length (row2 req_to_token 0)) draft_input_size mask_token_id <$> seq 0 bs in
    {| block_ids_2d := (λ r, r.1.1) <$> rows; draft_positions_2d := (λ r, r.1.2) <$> rows; draft_out_cache_loc_2d := snd <$> rows;
       verify_positions_2d := verify_positions; verify_out_cache_loc_2d := verify_locs |}
  else
    {| block_ids_2d := (λ bonus, <[0 := bonus]> (replicate draft_input_size mask_token_id)) <$> bonus_tokens;
       draft_positions_2d := (λ p, (λ o, p + o) <$> seq 0 draft_input_size) <$> prefix_lens;
       draft_out_cache_loc_2d := take draft_input_size <$> verify_locs;
       verify_positions_2d := verify_positions; verify_out_cache_loc_2d := verify_locs |}.
End rounds.

(** ** The worker *)

Record WorkerConf := {
  wc_append : AppendConf;
  wc_torch_empty : nat → list nat;
  use_triton_prepare_block : bool;
  wc_mask_token_id : nat;
  (** [target_model.get_input_embeddings()], and [_noise_embed_scale] unless it is [1.0]. *)
  embed_module : nat → row;
  noise_embed_scale : option R;
  (** Whether [_use_fused_kv_materialize] starts on; [model_config.context_len] of the target;
      [max_position_embeddings] of the draft. *)
  use_fused_kv_materialize : bool;
  context_len : nat;
  max_position_embeddings : nat;
  prefill_attention_backend_str : string;
  (** The buffers of the captured graph, when the draft forward is replayed. *)
  graph_buffers : option (stage_buffers * stage_buffers);
  max_context_len : nat
}.

(** What the target's verification hands over: hidden rows of the verified tokens, row-major. *)
Record Verified := {
  commit_lens : list nat;
  bonus_tokens : list nat;
  target_hidden : option (list row)
}.

(** The pool, the fused helper, and the next draft input. *)
Record RoundState := {
  rs_pool : KVPool;
  rs_fused : option FusedKVMaterializeHelper;
  rs_bonus : list nat;
  rs_seq_lens : list nat
}.

(** A batch in extend mode. *)
Record ExtendBatch := {
  prefix_lens : list nat;
  extend_lens : list nat;
  seq_lens : list nat;
  out_cache_loc : list nat
}.

Section worker.
Context `{!TorchLinear} (dev : Device) (m : ServedModel) (conf : WorkerConf).

Definition _init_fused_kv_helper : option FusedKVMaterializeHelper :=
  if negb (use_fused_kv_materialize conf) || (length (sm_layers m) =? 0) then None
  else
    let rotary_emb := new_rotary_emb (rope_theta m) (hd m) (max_position_embeddings conf) in
    match new_fused_kv_helper (rope_align (wc_append conf)) m rotary_emb (Some (context_len conf + (proposal_size m + 1))) with
    | Ok helper => Some helper
    | Raise _ => None
    end.

(** The extend branch, after the target's forward. *)
Definition prefill_step (batch : ExtendBatch) (next_token_ids : list nat) (hidden_states : option (list row)) (pool : KVPool)
    (fused : option FusedKVMaterializeHelper) : result RoundState :=
  let positions :=
    compute_position (lane_order dev) (wc_torch_empty conf) (prefill_attention_backend_str conf) (prefix_lens batch) (extend_lens batch)
      (sum_list (extend_lens batch)) in
  '(pool, fused) ←
    _append_target_hidden_to_draft_kv_by_loc (wc_append conf) m fused hidden_states (out_cache_loc batch) positions None None pool;
  Ok {| rs_pool := pool; rs_fused := fused; rs_bonus := next_token_ids; rs_seq_lens := seq_lens batch |}.

(** How the draft forward gets its metadata; the planned sum is that of [seq_lens_cpu]. *)
Definition metadata_mode (prefix_lens : list nat) : MetadataMode :=
  match graph_buffers conf with
  | Some buffers => GraphMetadata buffers
  | None =>
      EagerMetadata (wc_torch_empty conf) (max_context_len conf) (Some (sum_list ((λ n, n + proposal_size m) <$> prefix_lens)))
  end.

(** The decode branch: the hidden rows of the draft, and the state for the next iteration. *)
Definition decode_step (req_to_token : list (list nat)) (req_pool_indices : list nat) (st : RoundState) (v : Verified)
  : result (list row * RoundState) :=
  let prefix_lens := rs_seq_lens st in
  let bs := length prefix_lens in
  let block :=
    prepare_draft_block (lane_order dev) (wc_torch_empty conf) (use_triton_prepare_block conf) (rs_bonus st) prefix_lens req_pool_indices
      req_to_token (proposal_size m) (wc_mask_token_id conf) in
  let noise_embedding := embed_module conf <$> concat (block_ids_2d block) in
  let noise_embedding :=
    match noise_embed_scale conf with
    | None => noise_embedding
    | Some s => (λ x : row, (λ y, y * s)%R <$> x) <$> noise_embedding
    end in
  let stages :=
    init_forward_metadata (lane_order dev) (sm_latent_tokens m) (proposal_size m) (metadata_mode prefix_lens) bs req_to_token
      req_pool_indices prefix_lens in
  '(draft_hidden, pool) ←
    served_forward dev m (Some stages) bs (concat (block_ids_2d block)) (concat (draft_positions_2d block))
      (concat (draft_out_cache_loc_2d block)) (Some noise_embedding) (rs_pool st);
  '(pool, fused) ←
    _append_target_hidden_to_draft_kv_by_loc (wc_append conf) m (rs_fused st) (target_hidden v)
      (concat (verify_out_cache_loc_2d block)) (concat (verify_positions_2d block)) (Some (verify_out_cache_loc_2d block))
      (Some (commit_lens v)) pool;
  Ok (draft_hidden, {| rs_pool := pool; rs_fused := fused; rs_bonus := bonus_tokens v;
                       rs_seq_lens := zip_with Nat.add prefix_lens (commit_lens v) |}).

Fixpoint decode_steps (req_to_token : list (list nat)) (req_pool_indices : list nat) (st : RoundState) (vs : list Verified)
  : result (list (list row) * RoundState) :=
  match vs with
  | [] => Ok ([], st)
  | v :: vs =>
      '(hidden, st) ← decode_step req_to_token req_pool_indices st v;
      '(hiddens, st) ← decode_steps req_to_token req_pool_indices st vs;
      Ok (hidden :: hiddens, st)
  end.

(** A prefill and the decode iterations that follow it. *)
Definition serve_batch (req_to_token : list (list nat)) (req_pool_indices : list nat) (batch : ExtendBatch) (next_token_ids : list nat)
    (hidden_states : option (list row)) (vs : list Verified) (pool : KVPool) : result (list (list row) * RoundState) :=
  st ← prefill_step batch next_token_ids hidden_states pool _init_fused_kv_helper;
  decode_steps req_to_token req_pool_indices st vs.
End worker.
