(* ===== verification/DraftStore.v ===== *)
(** * DraftStore: what the writers of the draft's context leave in the pool

    Lemmas on [DraftContext]: on a layer, every path of the append leaves what storing the
    committed rows one by one leaves.  The tiles of the prefix-valid kernel in any order copy whole rows; without
    a GPU the valid rows are selected first; a loop over layers touches each layer once.  On the
    gathers of [DraftRounds]: blocks of any lengths, stored by programs in any order, are the blocks one after the other.
    And on the fused materialisation: in any order of its programs and whatever its workspace held, the stacked
    kernel gives every layer, token and head the norm and rotation that the unfused loop computes, provided
    the context projections have no bias, which the helper drops; and the cache of rotary rows is long
    enough once its hint was ensured. *)

From Stdlib Require Import Reals Lra.
From S2P Require Import Prelude TensorOps RealLaw LatentSampler RejectKernel MySpecModel ExtendAttention LatentStage DraftLayers LatentModel LatentRows LatentAttention LatentForward LatentLayerLoad DraftContext DraftRounds.
#[local] Open Scope nat_scope.
#[local] Arguments Nat.ltb : simpl never.
#[local] Arguments Nat.leb : simpl never.
#[local] Arguments Nat.sub : simpl never.

(** ** Rows of a pool *)

(** A layer's buffers after storing [kv] at [locs]; the other layers keep theirs. *)
Definition stored (pool pool' : KVPool) (j : nat) (locs : list nat) (kv : head_tensor * head_tensor) : Prop :=
  (∀ s, k_buffer pool' j s = store_rows (k_buffer pool j) locs kv.1 s) ∧
  (∀ s, v_buffer pool' j s = store_rows (v_buffer pool j) locs kv.2 s) ∧
  ∀ j', j' ≠ j → k_buffer pool' j' = k_buffer pool j' ∧ v_buffer pool' j' = v_buffer pool j'.

Lemma set_kv_buffer_stored pool j locs k v : stored pool (set_kv_buffer pool j locs k v) j locs (k, v).
Proof.
  split_and!; [intros s; cbn; by rewrite Nat.eqb_refl..|]. intros j' Hj. cbn. by rewrite (proj2 (Nat.eqb_neq _ _) Hj).
Qed.

Lemma stored_nil pool j kv : stored pool pool j [] kv.
Proof. done. Qed.

(** A loop over layers with different ids. *)
Lemma each_layer_stored {A} (f : KVPool → A → result KVPool) (id : A → nat) (kv : A → head_tensor * head_tensor) locs ls : ∀ pool,
  (∀ x pool, x ∈ ls → ∃ pool', f pool x = Ok pool' ∧ stored pool pool' (id x) locs (kv x)) → NoDup (id <$> ls) →
  ∃ pool', each_layer f pool ls = Ok pool' ∧
    (∀ x, x ∈ ls → ∀ s, k_buffer pool' (id x) s = store_rows (k_buffer pool (id x)) locs (kv x).1 s ∧
                        v_buffer pool' (id x) s = store_rows (v_buffer pool (id x)) locs (kv x).2 s) ∧
    ∀ j, j ∉ id <$> ls → k_buffer pool' j = k_buffer pool j ∧ v_buffer pool' j = v_buffer pool j.
Proof.
  induction ls as [|x ls IH]; intros pool Hf Hnd; [exists pool; split_and!; try done; by intros x Hx%not_elem_of_nil|].
  rewrite fmap_cons in Hnd. apply NoDup_cons in Hnd as [Hx Hnd].
  destruct (Hf x pool ltac:(by left)) as (pool1 & E1 & Hk & Hv & Ho). cbn [each_layer]. rewrite E1. cbn [mbind result_bind].
  destruct (IH pool1) as (pool' & E & Hin & Hout); [intros y p Hy; apply Hf; by right|done|].
  exists pool'. split; [done|]. split.
  - intros y [->|Hy]%elem_of_cons s.
    + destruct (Hout (id x) Hx) as [-> ->]. by rewrite Hk, Hv.
    + assert (id y ≠ id x) as Hne by (intros Heq; apply Hx; rewrite <- Heq; by apply list_elem_of_fmap_2).
      destruct (Ho _ Hne) as [<- <-]. by apply Hin.
  - intros j Hj. rewrite fmap_cons in Hj. apply not_elem_of_cons in Hj as [Hne Hj].
    destruct (Hout j Hj) as [-> ->]. by apply Ho.
Qed.

Lemma each_layer_foldl {A} (g : KVPool → A → KVPool) ls : ∀ pool, each_layer (λ p x, Ok (g p x)) pool ls = Ok (foldl g pool ls).
Proof. induction ls as [|x ls IH]; intros pool; [done|]. apply IH. Qed.

(** ** Heads of a row *)

Lemma concat_split_heads D n x : length x = n * D → concat (split_heads D n x) = x.
Proof.
  revert x. induction n as [|n IH]; intros x Hx; [by destruct x|].
  unfold split_heads. change (seq 0 (S n)) with (0 :: seq 1 n). rewrite fmap_cons. cbn [concat Nat.mul]. rewrite drop_0.
  rewrite <- (take_drop D x) at 2. f_equal. rewrite <- (IH (drop D x)) by (rewrite length_drop; lia). f_equal.
  unfold split_heads. rewrite <- (fmap_S_seq 0 n), <- list_fmap_compose. apply list_fmap_ext. intros i h _. cbn.
  by rewrite drop_drop.
Qed.

Definition shaped (n D : nat) (x : list row) : Prop := length x = n ∧ Forall (λ l, length l = D) x.

Lemma split_heads_shaped D n x : n * D ≤ length x → shaped n D (split_heads D n x).
Proof. intros Hx. split; [unfold split_heads; by rewrite length_fmap, length_seq|by apply split_heads_lengths]. Qed.

Lemma shaped_length n D x : shaped n D x → length (concat x) = n * D.
Proof. intros [<- Hx]. by apply length_concat_const. Qed.

(** Heads are determined by their cells. *)
Lemma shaped_eq n D x y : shaped n D x → shaped n D y → (∀ c, c < n * D → wt (concat x) c = wt (concat y) c) → x = y.
Proof.
  intros Hx Hy Hc. rewrite <- (split_heads_concat D n x), <- (split_heads_concat D n y) by (by destruct Hx, Hy). f_equal.
  rewrite <- (wt_self (concat x) (n * D)), <- (wt_self (concat y) (n * D)) by (by apply shaped_length).
  apply list_fmap_ext. intros i c Hi. apply lookup_seq in Hi as [-> Hi]. by apply Hc.
Qed.

(** ** The tiled kernel *)

Section tiles.
Context (n D itemsize : nat) (loc_2d : list (list nat)) (commits : list nat) (W : nat).
Notation row_dim := (n * D).
Notation cpt := (cells_per_tile n D itemsize).

Definition prog_valid (p : nat * nat * nat) : Prop := p.1.2 < ld commits p.1.1.
Definition prog_loc (p : nat * nat * nat) : nat := ld (concat loc_2d) (p.1.1 * W + p.1.2).
#[local] Instance prog_valid_dec p : Decision (prog_valid p).
Proof. unfold prog_valid. apply _. Defined.

(** A program on one of the two buffers. *)
Definition tile_step (src : head_tensor) (buf : nat → list row) (p : nat * nat * nat) : nat → list row :=
  if decide (prog_valid p)
  then λ s, if s =? prog_loc p then copy_tile n D itemsize p.2 (row2 src (p.1.1 * W + p.1.2)) (buf s) else buf s
  else buf.

Lemma tiled_steps k v ps : ∀ bufs,
  foldl (set_kv_buffer_prefix_valid_tiled n D itemsize k v loc_2d commits W) bufs ps =
  (foldl (tile_step k) bufs.1 ps, foldl (tile_step v) bufs.2 ps).
Proof.
  induction ps as [|[[b r] t] ps IH]; intros bufs; [by destruct bufs|]. cbn [foldl]. rewrite IH.
  unfold tile_step at 4 6, prog_valid, prog_loc. cbn [fst snd]. unfold set_kv_buffer_prefix_valid_tiled.
  destruct (Nat.leb_spec (ld commits b) r).
  - by rewrite !decide_False by lia.
  - by rewrite !decide_True by lia.
Qed.

Lemma tiles_other src s ps : ∀ buf, (∀ p, p ∈ ps → prog_valid p → prog_loc p ≠ s) → foldl (tile_step src) buf ps s = buf s.
Proof.
  induction ps as [|p ps IH]; intros buf Hps; [done|]. cbn [foldl]. rewrite IH by (intros q Hq; apply Hps; by right).
  unfold tile_step. destruct (decide (prog_valid p)) as [Hv|]; [|done].
  rewrite (proj2 (Nat.eqb_neq _ _)); [done|]. intros ->. by apply (Hps p ltac:(by left) Hv).
Qed.

(** The programs that store to a slot all have the token's row as their source. *)
Lemma tiles_at src s b r ps : ∀ buf,
  (∀ p, p ∈ ps → prog_valid p → prog_loc p = s → p.1 = (b, r)) →
  (∀ c, c < row_dim → wt (concat (foldl (tile_step src) buf ps s)) c =
     if decide (Exists (λ p, prog_valid p ∧ prog_loc p = s ∧ c / cpt = p.2) ps)
     then wt (concat (row2 src (b * W + r))) c else wt (concat (buf s)) c) ∧
  (shaped n D (buf s) ∨ Exists (λ p, prog_valid p ∧ prog_loc p = s) ps → shaped n D (foldl (tile_step src) buf ps s)).
Proof.
  induction ps as [|p ps IH]; intros buf Hps.
  { split; [intros c _; rewrite decide_False by (by intros Hx%Exists_nil); done|]. by intros [Hx|Hx%Exists_nil]. }
  cbn [foldl]. destruct (IH (tile_step src buf p)) as [Hcell Hshape]; [intros q Hq; apply Hps; by right|]. clear IH.
  set (buf' := tile_step src buf p) in *.
  destruct (decide (prog_valid p ∧ prog_loc p = s)) as [[Hv Hs]|Hn].
  - pose proof (Hps p ltac:(by left) Hv Hs) as Ep.
    assert (Hlen : length ((λ c, if c / cpt =? p.2 then wt (concat (row2 src (b * W + r))) c else wt (concat (buf s)) c) <$> seq 0 row_dim) = row_dim)
      by (by rewrite length_fmap, length_seq).
    assert (Eb : buf' s = copy_tile n D itemsize p.2 (row2 src (b * W + r)) (buf s)).
    { unfold buf', tile_step. rewrite decide_True, <- Hs, Nat.eqb_refl, Ep by done. done. }
    split.
    + intros c Hc. rewrite Hcell by done. rewrite Eb. unfold copy_tile. rewrite concat_split_heads by done.
      unfold wt at 2. rewrite list_lookup_fmap, lookup_seq_lt by done. cbn [fmap option_fmap option_map default from_option Nat.add]. unfold Datatypes.id.
      destruct (decide (Exists _ ps)) as [He|He].
      * by rewrite decide_True by (by right).
      * destruct (Nat.eqb_spec (c / cpt) p.2) as [Ht|Ht].
        -- by rewrite decide_True by (by left).
        -- rewrite decide_False; [done|]. by intros [(? & ? & ?)|?]%Exists_cons.
    + intros _. apply Hshape. left. rewrite Eb. apply split_heads_shaped. by rewrite Hlen.
  - assert (Eb : buf' s = buf s).
    { unfold buf', tile_step. destruct (decide (prog_valid p)) as [Hv|]; [|done]. rewrite (proj2 (Nat.eqb_neq _ _)); [done|]. naive_solver. }
    split.
    + intros c Hc. rewrite Hcell, Eb by done. destruct (decide (Exists _ ps)) as [He|He].
      * by rewrite decide_True by (by right).
      * rewrite decide_False; [done|]. intros [(? & ? & ?)|?]%Exists_cons; naive_solver.
    + intros Hx. apply Hshape. rewrite Eb. destruct Hx as [|[|]%Exists_cons]; [by left|done|by right].
Qed.
End tiles.

(** ** Blocks of any lengths, one after the other *)

Section ragged.
Context {A : Type} (bs : nat) (lens : list nat) (f : nat → list A).
Hypothesis Hlens : length lens = bs.
Hypothesis Hf : ∀ b, b < bs → length (f b) = ld lens b.

Lemma flat_S k : flat (S k) f = flat k f ++ f k.
Proof. unfold flat. rewrite seq_S, fmap_app, concat_app. cbn. by rewrite app_nil_r. Qed.

Lemma length_ragged k : k ≤ bs → length (flat k f) = psum lens k.
Proof.
  induction k as [|k IH]; intros Hk; [done|]. rewrite flat_S, length_app, IH, Hf, psum_S by lia. done.
Qed.

Lemma ragged_lookup b o : b < bs → o < ld lens b → flat bs f !! (psum lens b + o) = f b !! o.
Proof.
  intros Hb Ho. assert (H : ∀ k, S b + k ≤ bs → flat (S b + k) f !! (psum lens b + o) = f b !! o).
  { induction k as [|k IH]; intros Hk.
    - rewrite Nat.add_0_r, flat_S, lookup_app_r by (rewrite length_ragged by lia; lia).
      rewrite length_ragged by lia. f_equal. lia.
    - rewrite Nat.add_succ_r, flat_S, lookup_app_l; [apply IH; lia|].
      rewrite length_ragged by lia. pose proof (psum_S lens b ltac:(lia)). pose proof (psum_le lens (S b) (S b + k) ltac:(lia)). lia. }
  replace bs with (S b + (bs - S b)) by lia. apply H. lia.
Qed.

Lemma ragged_index i : i < psum lens bs → ∃ b o, b < bs ∧ o < ld lens b ∧ i = psum lens b + o.
Proof.
  intros Hi. destruct (psum_find lens i) as (b & Hb & Hl & Hu); [by rewrite Hlens|].
  rewrite psum_S in Hu by done. exists b, (i - psum lens b). lia.
Qed.

Lemma elem_of_ragged x : x ∈ flat bs f ↔ ∃ b o, b < bs ∧ o < ld lens b ∧ f b !! o = Some x.
Proof.
  split.
  - intros (i & Hi)%list_elem_of_lookup. destruct (ragged_index i) as (b & o & Hb & Ho & ->).
    { rewrite <- length_ragged by done. by eapply lookup_lt_Some. }
    rewrite ragged_lookup in Hi by done. by exists b, o.
  - intros (b & o & Hb & Ho & Hx). eapply list_elem_of_lookup_2. by rewrite ragged_lookup.
Qed.

Lemma ragged_inj b b' o o' x : NoDup (flat bs f) → b < bs → b' < bs → o < ld lens b → o' < ld lens b' →
  f b !! o = Some x → f b' !! o' = Some x → b' = b ∧ o' = o.
Proof.
  intros Hnd Hb Hb' Ho Ho' Hx Hx'. apply (psum_disjoint lens); [lia..|].
  apply (NoDup_lookup (flat bs f) _ _ x Hnd); by rewrite ragged_lookup.
Qed.
End ragged.

(** Programs that store a block each, in any order. *)
Lemma store_all_ragged bs lens (f : nat → nat → nat) (prog : nat → list (nat * nat)) pids buf :
  length lens = bs → pids ≡ₚ seq 0 bs → length buf = psum lens bs →
  (∀ b w, b < bs → w ∈ prog b ↔ ∃ o, o < ld lens b ∧ w = (psum lens b + o, f b o)) →
  store_all buf (pid ← pids; prog pid) = flat bs (λ b, f b <$> seq 0 (ld lens b)).
Proof.
  intros Hl Hp Hbuf Hprog. assert (Hf : ∀ b, b < bs → length (f b <$> seq 0 (ld lens b)) = ld lens b) by (intros b _; by rewrite length_fmap, length_seq).
  unfold store_all. apply list_eq. intros i. destruct (decide (i < psum lens bs)) as [Hi|Hi].
  2: { rewrite !lookup_ge_None_2; [done|rewrite (length_ragged bs lens) by done; lia|rewrite foldl_insert_length; lia]. }
  destruct (ragged_index bs lens Hl i Hi) as (b & o & Hb & Ho & ->). rewrite (ragged_lookup bs lens) by done.
  rewrite list_lookup_fmap, lookup_seq_lt by done. cbn. apply foldl_insert_lookup; [by rewrite Hbuf| |].
  - intros w Hw E. apply list_elem_of_bind in Hw as (b' & Hw & Hb'). rewrite Hp in Hb'. apply elem_of_seq in Hb'.
    apply Hprog in Hw as (o' & Ho' & ->); [|lia]. cbn in *.
    by destruct (psum_disjoint lens b' b o' o ltac:(lia) ltac:(lia) Ho' Ho E) as [-> ->].
  - right. exists (psum lens b + o, f b o). split; [|done]. apply list_elem_of_bind. exists b. split; [|rewrite Hp; apply elem_of_seq; lia].
    apply Hprog; [done|]. by exists o.
Qed.

(** ** Selecting the valid rows *)

Lemma nonzero_app a b : nonzero (a ++ b) = nonzero a ++ ((λ i, length a + i) <$> nonzero b).
Proof.
  unfold nonzero. rewrite length_app, seq_app, filter_app. f_equal.
  - apply filter_ext_in. intros i Hi%elem_of_seq. by rewrite lookup_app_l by lia.
  - cbn [Nat.add]. rewrite <- (Nat.add_0_r (length a)) at 1. rewrite <- fmap_add_seq.
    induction (seq 0 (length b)) as [|i l IH]; [done|]. rewrite fmap_cons.
    assert (((a ++ b) !! (length a + i) = Some true) ↔ b !! i = Some true) as Hi.
    { rewrite lookup_app_r by lia. by replace (length a + i - length a) with i by lia. }
    destruct (decide (b !! i = Some true)).
    + rewrite !filter_cons_True by naive_solver. by rewrite IH.
    + rewrite !filter_cons_False by naive_solver. done.
Qed.

Lemma nonzero_prefix k mask : k ≤ length mask → (∀ i, i < length mask → mask !! i = Some true ↔ i < k) → nonzero mask = seq 0 k.
Proof.
  intros Hk G. unfold nonzero.
  assert (E : ∀ l : list nat, (∀ i, i ∈ l → i < k) → filter (λ i, mask !! i = Some true) l = l).
  { induction l as [|i l IH]; intros Hl; [done|]. pose proof (Hl i ltac:(by left)).
    rewrite filter_cons_True by (apply G; lia). f_equal. apply IH. intros j Hj. apply Hl. by right. }
  assert (E' : ∀ l : list nat, (∀ i, i ∈ l → k ≤ i < length mask) → filter (λ i, mask !! i = Some true) l = []).
  { induction l as [|i l IH]; intros Hl; [done|]. pose proof (Hl i ltac:(by left)).
    rewrite filter_cons_False by (rewrite G; lia). apply IH. intros j Hj. apply Hl. by right. }
  replace (seq 0 (length mask)) with (seq 0 k ++ seq k (length mask - k)) by (rewrite <- seq_app; f_equal; lia).
  rewrite filter_app, E, E', app_nil_r; [done|intros i Hi%elem_of_seq; lia..].
Qed.

(** ** The prefix-valid write *)

Section prefix.
Context (n D itemsize : nat) (bs W : nat) (locs : nat → list nat) (commit : nat → nat) (K V : nat → head_tensor).
Hypothesis Hlocs : ∀ b, b < bs → length (locs b) = W.
Hypothesis Hcommit : ∀ b, b < bs → commit b ≤ W.
Hypothesis HK : ∀ b, b < bs → length (K b) = W ∧ Forall (shaped n D) (K b).
Hypothesis HV : ∀ b, b < bs → length (V b) = W ∧ Forall (shaped n D) (V b).
Notation commits := (commit <$> seq 0 bs).
Notation valid f := (flat bs (λ b, take (commit b) (f b))).

Lemma ld_commits b : b < bs → ld commits b = commit b.
Proof. intros Hb. unfold ld. by rewrite list_lookup_fmap, lookup_seq_lt. Qed.

Lemma length_valid {A} (f : nat → list A) : (∀ b, b < bs → length (f b) = W) → ∀ b, b < bs → length (take (commit b) (f b)) = ld commits b.
Proof. intros Hf b Hb. rewrite ld_commits, length_take, Hf by done. pose proof (Hcommit b Hb). lia. Qed.

Lemma length_commits : length commits = bs.
Proof. by rewrite length_fmap, length_seq. Qed.

(** *** Without a GPU *)

Lemma nonzero_valid :
  nonzero (concat (zip_with (λ (ls : list nat) c, (λ i, i <? c) <$> seq 0 (length ls)) (locs <$> seq 0 bs) commits)) =
  flat bs (λ b, (λ i, b * W + i) <$> seq 0 (commit b)).
Proof.
  set (mask b := (λ i, i <? commit b) <$> seq 0 W).
  assert (zip_with (λ (ls : list nat) c, (λ i, i <? c) <$> seq 0 (length ls)) (locs <$> seq 0 bs) commits = mask <$> seq 0 bs) as ->.
  { rewrite zip_with_fmap_l, zip_with_fmap_r. rewrite zip_with_diag. apply list_fmap_ext. intros i b Hb. apply lookup_seq in Hb as [-> Hb].
    by rewrite Hlocs. }
  fold (flat bs mask). assert (G : ∀ k, k ≤ bs → nonzero (flat k mask) = flat k (λ b, (λ i, b * W + i) <$> seq 0 (commit b))).
  { induction k as [|k IH]; intros Hk; [done|]. rewrite !flat_S, nonzero_app, IH by lia. f_equal.
    rewrite (length_batch k W) by (intros b _; unfold mask; by rewrite length_fmap, length_seq).
    rewrite (nonzero_prefix (commit k)); [done|unfold mask; rewrite length_fmap, length_seq; apply Hcommit; lia|].
    intros i Hi. unfold mask in *. rewrite length_fmap, length_seq in Hi. rewrite list_lookup_fmap, lookup_seq_lt by done. cbn.
    rewrite <- Nat.ltb_lt. split; [by intros [= ->]|by intros ->]. }
  by apply G.
Qed.
(** *** With the tiled kernel *)

Hypothesis Hitem : itemsize = 1 ∨ itemsize = 2 ∨ itemsize = 4.
Hypothesis Hrow : 0 < n * D.

Lemma bytes_of_tile : bytes_per_tile (n * D * itemsize) = cells_per_tile n D itemsize * itemsize ∧ 0 < cells_per_tile n D itemsize.
Proof.
  unfold cells_per_tile, bytes_per_tile.
  destruct (8192 <=? _)%Z; [|destruct (4096 <=? _)%Z]; destruct Hitem as [->|[->| ->]]; cbn [Nat.div Nat.divmod fst]; split; try lia; reflexivity.
Qed.

Lemma tile_of_cell c : c < n * D → c / cells_per_tile n D itemsize < cdiv (n * D * itemsize) (bytes_per_tile (n * D * itemsize)).
Proof.
  intros Hc. destruct bytes_of_tile as [-> Hp]. set (t := cells_per_tile n D itemsize) in *.
  assert (0 < itemsize) by (destruct Hitem as [->|[->| ->]]; lia). unfold cdiv.
  pose proof (Nat.Div0.mul_div_le c t) as Hd. set (q := c / t) in *.
  apply Nat.le_succ_l, Nat.div_le_lower_bound; [nia|]. nia.
Qed.

Lemma in_grid b r t :
  (b, r, t) ∈ (bid ← seq 0 (length (locs <$> seq 0 bs)); row ← seq 0 W;
               tid ← seq 0 (cdiv (n * D * itemsize) (bytes_per_tile (n * D * itemsize))); [(bid, row, tid)]) ↔
  b < bs ∧ r < W ∧ t < cdiv (n * D * itemsize) (bytes_per_tile (n * D * itemsize)).
Proof.
  rewrite length_fmap, length_seq. split.
  - intros (b' & (r' & (t' & E%list_elem_of_singleton & Ht)%list_elem_of_bind & Hr)%list_elem_of_bind & Hb)%list_elem_of_bind.
    injection E as -> -> ->. apply elem_of_seq in Hb, Hr, Ht. lia.
  - intros (Hb & Hr & Ht). apply list_elem_of_bind. exists b. split; [|apply elem_of_seq; lia].
    apply list_elem_of_bind. exists r. split; [|apply elem_of_seq; lia].
    apply list_elem_of_bind. exists t. split; [by apply list_elem_of_singleton|apply elem_of_seq; lia].
Qed.

(** One buffer after all the programs. *)
Lemma tiles_stored order (F : nat → head_tensor) buf s :
  (∀ l, order l ≡ₚ l) → NoDup (valid locs) → (∀ b, b < bs → length (F b) = W ∧ Forall (shaped n D) (F b)) →
  foldl (tile_step n D itemsize (locs <$> seq 0 bs) commits W (flat bs F)) buf
    (order (bid ← seq 0 (length (locs <$> seq 0 bs)); row ← seq 0 W;
            tid ← seq 0 (cdiv (n * D * itemsize) (bytes_per_tile (n * D * itemsize))); [(bid, row, tid)])) s =
  store_rows buf (valid locs) (valid F) s.
Proof.
  intros Ho Hnd HF. set (grid := seq 0 _ ≫= _). assert (HlF : ∀ b, b < bs → length (F b) = W) by (intros b Hb; by apply HF).
  assert (Hloc : ∀ b r t, b < bs → r < W → locs b !! r = Some (prog_loc (locs <$> seq 0 bs) W (b, r, t))).
  { intros b r t Hb Hr. unfold prog_loc, ld. cbn [fst snd]. fold (flat bs locs). rewrite (batch_lookup bs W) by done.
    destruct (lookup_lt_is_Some_2 (locs b) r) as [x ->]; [by rewrite Hlocs|done]. }
  destruct (decide (s ∈ valid locs)) as [Hs|Hs].
  - apply (elem_of_ragged bs commits _ length_commits (length_valid locs Hlocs)) in Hs as Hs'.
    destruct Hs' as (b & r & Hb & Hr & Hsr). pose proof (Hcommit b Hb). rewrite ld_commits in Hr by done.
    rewrite lookup_take_lt in Hsr by done.
    destruct (lookup_lt_is_Some_2 (F b) r) as [x Hx]; [rewrite HlF by done; lia|].
    assert (Hsx : shaped n D x) by (eapply (Forall_lookup_1 (shaped n D)); [by apply HF|done]).
    rewrite (store_rows_at _ _ _ (psum commits b + r) s x Hnd).
    2: { rewrite (ragged_lookup bs commits) by (try apply length_commits; try apply length_valid; rewrite ?ld_commits; done).
         by rewrite lookup_take_lt. }
    2: { rewrite (ragged_lookup bs commits) by (try apply length_commits; try apply (length_valid F); rewrite ?ld_commits; done).
         by rewrite lookup_take_lt. }
    assert (Erow : row2 (flat bs F) (b * W + r) = x) by (unfold row2; by rewrite (batch_lookup bs W), Hx by (done || lia)).
    destruct (tiles_at n D itemsize (locs <$> seq 0 bs) commits W (flat bs F) s b r (order grid) buf) as [Hcell Hshape].
    { intros [[b' r'] t'] Hp Hv Hpl. rewrite Ho in Hp. apply in_grid in Hp as (Hb' & Hr' & _). unfold prog_valid in Hv. cbn [fst snd] in *.
      pose proof (Hloc b' r' t' Hb' Hr') as Hl'. rewrite Hpl in Hl'.
      destruct (ragged_inj bs commits (λ b, take (commit b) (locs b)) length_commits (length_valid locs Hlocs) b b' r r' s Hnd) as [-> ->];
        rewrite ?ld_commits in * by done; try done; by rewrite lookup_take_lt. }
    assert (Hall : ∀ c, c < n * D → Exists (λ p, prog_valid commits p ∧ prog_loc (locs <$> seq 0 bs) W p = s ∧ c / cells_per_tile n D itemsize = p.2) (order grid)).
    { intros c Hc. apply Exists_exists. exists (b, r, c / cells_per_tile n D itemsize). split.
      - rewrite Ho. apply in_grid. split_and!; [done|lia|by apply tile_of_cell].
      - split; [unfold prog_valid; cbn [fst snd]; by rewrite ld_commits|]. split; [|done].
        pose proof (Hloc b r (c / cells_per_tile n D itemsize) Hb ltac:(lia)). congruence. }
    apply (shaped_eq n D); [|done|].
    + apply Hshape. right. eapply Exists_impl; [apply (Hall 0 Hrow)|]. cbn. naive_solver.
    + intros c Hc. by rewrite Hcell, decide_True, Erow by auto.
  - rewrite store_rows_other by done. apply tiles_other. intros [[b r] t] Hp Hv Hpl. rewrite Ho in Hp. apply in_grid in Hp as (Hb & Hr & _).
    unfold prog_valid in Hv. cbn [fst snd] in Hv. apply Hs. apply (elem_of_ragged bs commits _ length_commits (length_valid locs Hlocs)).
    exists b, r. split_and!; [done|done|]. rewrite ld_commits in Hv by done. rewrite lookup_take_lt by done. rewrite <- Hpl. by apply Hloc.
Qed.

(** *** Both *)

Lemma prefix_valid_stored is_gpu order pool j : (∀ l, order l ≡ₚ l) → NoDup (valid locs) →
  ∃ pool', set_kv_buffer_prefix_valid n D itemsize is_gpu order pool j (locs <$> seq 0 bs) commits (flat bs K) (flat bs V) = Ok pool' ∧
    stored pool pool' j (valid locs) (valid K, valid V).
Proof.
  intros Ho Hnd. assert (HlK : ∀ b, b < bs → length (K b) = W) by (intros b Hb; by apply HK).
  assert (HlV : ∀ b, b < bs → length (V b) = W) by (intros b Hb; by apply HV).
  unfold set_kv_buffer_prefix_valid. rewrite (py_check_true _ (length commits =? length (locs <$> seq 0 bs))) by (rewrite !length_fmap; apply Nat.eqb_refl). cbn [mbind result_bind].
  fold (flat bs locs). rewrite py_check_true by (rewrite !(length_batch bs W) by done; by rewrite Nat.eqb_refl). cbn [mbind result_bind].
  destruct is_gpu.
  - eexists. split; [done|]. unfold _set_kv_buffer_prefix_valid_impl. fold (flat bs locs). rewrite !(length_batch bs W), length_commits by done.
    destruct (decide (bs = 0 ∨ W = 0)) as [H0|H0].
    { assert (((bs * W =? 0) || (bs * W =? 0) || (bs =? 0)) = true) as ->.
      { rewrite !orb_true_iff, !Nat.eqb_eq. destruct H0; subst; lia. }
      assert (valid locs = []) as ->.
      { apply elem_of_nil_inv. intros s (b & r & Hb & Hr & _)%(elem_of_ragged bs commits _ length_commits (length_valid locs Hlocs)).
        rewrite ld_commits in Hr by done. pose proof (Hcommit b Hb). lia. }
      split_and!; [intros s; cbn; by rewrite Nat.eqb_refl..|]. intros j' Hj. cbn. by rewrite (proj2 (Nat.eqb_neq _ _) Hj). }
    assert (((bs * W =? 0) || (bs * W =? 0) || (bs =? 0)) = false) as ->.
    { rewrite !orb_false_iff, !Nat.eqb_neq. lia. }
    assert ((n * D * itemsize =? 0) = false) as ->.
    { apply Nat.eqb_neq. destruct Hitem as [->|[->| ->]]; lia. }
    assert (length (row2 (locs <$> seq 0 bs) 0) = W) as ->.
    { rewrite (row2_fmap locs _ 0 0) by (rewrite lookup_seq_lt by lia; done). apply Hlocs. lia. }
    rewrite tiled_steps. cbn [fst snd]. split_and!.
    + intros s. cbn. rewrite Nat.eqb_refl. by apply tiles_stored.
    + intros s. cbn. rewrite Nat.eqb_refl. by apply tiles_stored.
    + intros j' Hj. cbn. by rewrite (proj2 (Nat.eqb_neq _ _) Hj).
  - rewrite nonzero_valid.
    assert (Hsel : ∀ {A} (d : A) (f : nat → list A), (∀ b, b < bs → length (f b) = W) →
      (λ i, default d (flat bs f !! i)) <$> flat bs (λ b, (λ i, b * W + i) <$> seq 0 (commit b)) = valid f).
    { intros A d f Hlf. rewrite flat_fmap. apply flat_ext. intros b Hb. rewrite <- list_fmap_compose. pose proof (Hcommit b Hb).
      apply list_eq. intros i. destruct (decide (i < commit b)) as [Hi|Hi].
      - rewrite list_lookup_fmap, lookup_seq_lt by done. cbn. rewrite (batch_lookup bs W) by (done || lia).
        rewrite lookup_take_lt by done. destruct (lookup_lt_is_Some_2 (f b) i) as [y ->]; [rewrite Hlf by done; lia|done].
      - rewrite list_lookup_fmap, lookup_seq_ge by lia. by rewrite lookup_take_ge by lia. }
    unfold ld, row2. rewrite !Hsel by done. destruct (length (flat bs _) =? 0) eqn:E.
    + exists pool. split; [done|]. apply Nat.eqb_eq, nil_length_inv in E.
      assert (valid locs = []) as -> by (rewrite <- (Hsel _ 0 locs Hlocs), E; done). apply stored_nil.
    + eexists. split; [done|]. apply set_kv_buffer_stored.
Qed.
End prefix.

(** ** Cells of a rotated head *)

Lemma wt_vmul a b i : wt (vmul a b) i = (wt a i * wt b i)%R.
Proof.
  unfold wt, vmul. rewrite lookup_zip_with. destruct (a !! i), (b !! i); cbn; try done; by rewrite ?Rmult_0_l, ?Rmult_0_r.
Qed.

Lemma wt_zip (f : R → R → R) a b i : i < length a → i < length b → wt (zip_with f a b) i = f (wt a i) (wt b i).
Proof.
  intros Ha Hb. unfold wt. rewrite lookup_zip_with.
  destruct (lookup_lt_is_Some_2 a i Ha) as [x ->], (lookup_lt_is_Some_2 b i Hb) as [y ->]. done.
Qed.

Lemma wt_app a b i : wt (a ++ b) i = if i <? length a then wt a i else wt b (i - length a).
Proof.
  unfold wt. destruct (Nat.ltb_spec i (length a)); [by rewrite lookup_app_l|by rewrite lookup_app_r].
Qed.

Lemma rotary_cells theta half pos x o : length x = 2 * half → o < 2 * half →
  let c := cos_sin_cache theta (2 * half) pos in
  wt (rotary_head theta (2 * half) pos x) o =
    if half <=? o then (wt x o * wt c (o - half) + wt x (o - half) * wt c (half + (o - half)))%R
    else (wt x o * wt c o - wt x (half + o) * wt c (half + o))%R.
Proof.
  intros Hx Ho c. rewrite rotary_head_eq by done. unfold apply_rotary_emb. rewrite Hx, half_D.
  set (freqs := _ <$> inv_freq _ _).
  assert (Hf : ∀ g : R → R, length (g <$> freqs) = half) by (intros g; unfold freqs; by rewrite !length_fmap, length_inv_freq).
  assert (Hc : ∀ i, i < half → wt (cos <$> freqs) i = wt c i).
  { intros i Hi. unfold c, cos_sin_cache. fold freqs. rewrite wt_app, Hf. by rewrite (proj2 (Nat.ltb_lt _ _) Hi). }
  assert (Hs : ∀ i, wt (sin <$> freqs) i = wt c (half + i)).
  { intros i. unfold c, cos_sin_cache. fold freqs. rewrite wt_app, Hf. rewrite (proj2 (Nat.ltb_ge _ _)) by lia. f_equal. lia. }
  assert (Hlen : ∀ (y : row) g, half ≤ length y → length (vmul y (g <$> freqs)) = half) by (intros; rewrite length_vmul, Hf; lia).
  assert (Ht : length (take half x) = half) by (rewrite length_take; lia).
  assert (Hd : length (drop half x) = half) by (rewrite length_drop; lia).
  rewrite wt_app. unfold vsub. rewrite length_zip_with, !Hlen by lia. rewrite Nat.min_id.
  destruct (Nat.leb_spec half o) as [Hho|Hho].
  - rewrite (proj2 (Nat.ltb_ge _ _)) by done. unfold vadd. rewrite wt_zip by (rewrite Hlen by lia; lia).
    rewrite !wt_vmul, wt_drop, wt_take, Hc, Hs by lia. by replace (half + (o - half)) with o by lia.
  - rewrite (proj2 (Nat.ltb_lt _ _)) by done. rewrite wt_zip by (rewrite Hlen by lia; lia).
    by rewrite !wt_vmul, wt_drop, wt_take, Hc, Hs by lia.
Qed.

(** ** One program *)

Lemma Rsum_masked_zeros {A} (l : list A) : Rsum ((λ _, 0%R) <$> l) = 0%R.
Proof. induction l as [|x l IH]; [done|]. change (Rsum (0%R :: ((λ _ : A, 0%R) <$> l)) = 0%R). rewrite Rsum_cons, IH. apply Rplus_0_l. Qed.

(** The masked lanes add nothing. *)
Lemma sum_lanes (f : nat → R) D P : D ≤ P → Rsum ((λ o, if o <? D then f o else 0%R) <$> seq 0 P) = Rsum (f <$> seq 0 D).
Proof.
  intros HD. replace P with (D + (P - D)) by lia. rewrite seq_app, fmap_app, Rsum_app.
  rewrite (list_fmap_ext _ f (seq 0 D)), (list_fmap_ext _ (λ _, 0%R) (seq (0 + D) _)), Rsum_masked_zeros; [apply Rplus_0_r| |].
  - intros i o Ho. apply lookup_seq in Ho as [-> Ho]. by rewrite (proj2 (Nat.ltb_ge _ _)) by lia.
  - intros i o Ho. apply lookup_seq in Ho as [-> Ho]. by rewrite (proj2 (Nat.ltb_lt _ _)) by lia.
Qed.


(** ** The launch *)

Section kernel.
Context (theta : R) (half : nat) (kv : list (list row)) (ws : list row) (es : list R) (cache : list row) (positions : list nat) (n : nat).
Notation D := (2 * half).
Notation base c l := (row2 (row2 kv c) l).

(** The cells that program [(c, h, l)] stores. *)
Definition fused_k (l c h : nat) : row :=
  rotary_head theta D (ld positions c) (rms_norm (row2 ws l) (wt es l) (chunk half h (base c l))).
Definition fused_v (l c h : nat) : row := chunk half h (drop (n * D) (base c l)).

Lemma kernel_cells out c h l :
  (h + 1) * D ≤ n * D → length (base c l) = 2 * (n * D) → length (row2 ws l) = D →
  row2 cache (ld positions c) = cos_sin_cache theta D (ld positions c) →
  let out' := _fused_norm_rope_kernel_stacked kv ws es cache positions (n * D) D D out (c, h, l) in
  (∀ l' c' h', out'.1 l' c' h' = if decide ((c', h', l') = (c, h, l)) then fused_k l c h else out.1 l' c' h') ∧
  (∀ l' c' h', out'.2 l' c' h' = if decide ((c', h', l') = (c, h, l)) then fused_v l c h else out.2 l' c' h').
Proof.
  intros Hh Hbase Hw Hcache. unfold _fused_norm_rope_kernel_stacked. cbv zeta. cbn [fst snd]. rewrite half_D, Hcache.
  assert (Hdec : ∀ {X} (l' c' h' : nat) (x y : X),
    (if (l' =? l) && (c' =? c) && (h' =? h) then x else y) = if decide ((c', h', l') = (c, h, l)) then x else y).
  { intros X l' c' h' x y. destruct (decide _) as [E|Hne]; [injection E as -> -> ->; by rewrite !Nat.eqb_refl|].
    destruct (Nat.eqb_spec l' l), (Nat.eqb_spec c' c), (Nat.eqb_spec h' h); subst; done. }
  set (b := base c l) in *. assert (Hs : length (chunk half h b) = D) by (unfold chunk; rewrite length_take, length_drop; lia).
  assert (Hwt : ∀ o, o < D → wt b (h * D + o) = wt (chunk half h b) o) by (intros o Ho; unfold chunk; by rewrite wt_take, wt_drop).
  assert (Hraw : ∀ o, o < D → (if o <? D then wt b (h * D + o) else 0%R) = wt (chunk half h b) o).
  { intros o Ho. rewrite (proj2 (Nat.ltb_lt _ _) Ho). by apply Hwt. }
  assert (Hms : (Rsum ((λ o, square (if o <? D then wt b (h * D + o) else 0)) <$> seq 0 (next_power_of_2 D)) / INR D)%R
    = (Rsum (square <$> chunk half h b) / INR (length (chunk half h b)))%R).
  { rewrite Hs. f_equal. rewrite <- (wt_self (chunk half h b) D Hs) at 1. rewrite <- list_fmap_compose.
    etrans; [|apply (sum_lanes (λ o, square (wt (chunk half h b) o)) D (next_power_of_2 D) (next_power_of_2_ge D))].
    f_equal. apply list_fmap_ext. intros i o _. destruct (Nat.ltb_spec o D); [by rewrite Hwt|]. unfold square. apply Rmult_0_l. }
  rewrite Hms. set (inv := (1 / sqrt _)%R).
  assert (Hn : ∀ o, o < D → wt (rms_norm (row2 ws l) (wt es l) (chunk half h b)) o = (wt (chunk half h b) o * inv * wt (row2 ws l) o)%R).
  { intros o Ho. unfold rms_norm. by rewrite wt_zip by lia. }
  assert (Hlen : length (rms_norm (row2 ws l) (wt es l) (chunk half h b)) = D) by (rewrite length_rms_norm; lia).
  split; intros l' c' h'; rewrite Hdec; (destruct (decide _); [|done]).
  - unfold fused_k. fold b. rewrite <- (wt_self (rotary_head theta D (ld positions c) (rms_norm (row2 ws l) (wt es l) (chunk half h b))) D)
      by (by apply length_rotary_head).
    apply list_fmap_ext. intros i o Ho. apply lookup_seq in Ho as [-> Ho]. cbn [Nat.add]. rewrite (proj2 (Nat.leb_gt _ _)) by done.
    rewrite rotary_cells by done. destruct (Nat.leb_spec half i) as [Hi|Hi].
    + rewrite (proj2 (Nat.ltb_lt _ _)) by lia. cbn [andb]. rewrite Hraw by lia. replace (h * D + half + (i - half)) with (h * D + i) by lia.
      replace (half + (i - half)) with i by lia. rewrite Hwt, !Hn by lia. done.
    + cbn [andb]. rewrite (proj2 (Nat.ltb_lt i half)) by lia. rewrite (proj2 (Nat.ltb_lt i D)) by lia. rewrite <- Nat.add_assoc.
      rewrite !Hwt, !Hn by lia. done.
  - unfold fused_v. fold b. assert (Hv : length (chunk half h (drop (n * D) b)) = D) by (unfold chunk; rewrite length_take, !length_drop; lia).
    rewrite <- (wt_self _ D Hv). apply list_fmap_ext. intros i o Ho. apply lookup_seq in Ho as [-> Ho]. cbn [Nat.add].
    unfold chunk. by rewrite wt_take, !wt_drop, Nat.add_assoc by done.
Qed.

(** All the programs, in any order and over any workspace. *)
Lemma kernel_run ps : ∀ out,
  (∀ c h l, (c, h, l) ∈ ps → (h + 1) * D ≤ n * D ∧ length (base c l) = 2 * (n * D) ∧ length (row2 ws l) = D ∧
     row2 cache (ld positions c) = cos_sin_cache theta D (ld positions c)) →
  let out' := foldl (_fused_norm_rope_kernel_stacked kv ws es cache positions (n * D) D D) out ps in
  ∀ l c h, ((c, h, l) ∈ ps ∨ out.1 l c h = fused_k l c h → out'.1 l c h = fused_k l c h) ∧
           ((c, h, l) ∈ ps ∨ out.2 l c h = fused_v l c h → out'.2 l c h = fused_v l c h).
Proof.
  induction ps as [|[[c0 h0] l0] ps IH]; intros out Hps; cbn [foldl].
  { intros l c h. split; (intros [Hin%not_elem_of_nil|]; done). }
  destruct (Hps c0 h0 l0 ltac:(by left)) as (Hh & Hb & Hw & Hc).
  destruct (kernel_cells out c0 h0 l0 Hh Hb Hw Hc) as [E1 E2].
  set (out1 := _fused_norm_rope_kernel_stacked _ _ _ _ _ _ _ _ out _) in *.
  intros l c h. destruct (IH out1 ltac:(intros ??? Hin; apply Hps; by right) l c h) as [I1 I2]. split; intros Hin.
  - apply I1. rewrite E1. destruct (decide _) as [E|Hne]; [injection E as -> -> ->; by right|].
    destruct Hin as [[|]%elem_of_cons|]; [done|by left|by right].
  - apply I2. rewrite E2. destruct (decide _) as [E|Hne]; [injection E as -> -> ->; by right|].
    destruct Hin as [[|]%elem_of_cons|]; [done|by left|by right].
Qed.
End kernel.

(** ** The unfused loop, token by token *)

Section model.
Context `{!TorchLinear, !TorchLinearLaws} (m : ServedModel) (half : nat).
Hypothesis Hhd : hd m = 2 * half.
Notation D := (hd m).
Notation nkv := (num_kv_heads m).
Notation kv_size := (num_kv_heads m * hd m).

(** A layer whose context projection has the declared shape. *)
Definition context_layer_ok (has_bias : bool) (l : LatentSpecLayer) : Prop :=
  linear_ok has_bias (kv_size + kv_size) (kv_ctx l) ∧ length (kn_weight l) = D.

Definition context_token (l : LatentSpecLayer) (x : row) (pos : nat) : list row * list row :=
  (token_rope (rope_theta m) half nkv (kn_weight l) (eps m) pos (take kv_size (linear (kv_ctx l) x)),
   split_heads D nkv (drop kv_size (linear (kv_ctx l) x))).

Lemma unfused_heads l k pos : length (kn_weight l) = D → length k = kv_size →
  split_heads D nkv (apply_k_rope m pos (apply_k_norm m l k)) = token_rope (rope_theta m) half nkv (kn_weight l) (eps m) pos k.
Proof.
  intros Hw Hk. unfold apply_k_rope, apply_k_norm, token_rope. rewrite Hhd in *.
  assert (Hs : Forall (λ x, length x = 2 * half) (split_heads (2 * half) nkv k)) by (apply split_heads_lengths; lia).
  assert (Hn : Forall (λ x, length x = 2 * half) (rms_norm (kn_weight l) (eps m) <$> split_heads (2 * half) nkv k)).
  { apply Forall_fmap. eapply Forall_impl; [exact Hs|]. intros x Hx. unfold compose. cbn beta in *. rewrite length_rms_norm. lia. }
  assert (Hl : ∀ f : row → row, length (f <$> split_heads (2 * half) nkv k) = nkv).
  { intros f. unfold split_heads. by rewrite !length_fmap, length_seq. }
  rewrite (split_heads_concat _ _ (rms_norm _ _ <$> _)) by done. rewrite <- list_fmap_compose.
  rewrite split_heads_concat; [done|by rewrite Hl|].
  apply Forall_fmap. eapply Forall_impl; [exact Hs|]. intros x Hx. unfold compose. cbn beta in *. apply length_rotary_head. rewrite length_rms_norm. lia.
Qed.

Lemma layer_context_kv_eq has_bias l X ps : context_layer_ok has_bias l → length ps = length X →
  layer_context_kv m l X ps = (zip_with (λ x p, (context_token l x p).1) X ps, zip_with (λ x p, (context_token l x p).2) X ps).
Proof.
  intros [Hl Hw] Hps. unfold layer_context_kv, kv_proj_only, split_kv. cbv zeta.
  assert (Hx : ∀ x, length (take kv_size (linear (kv_ctx l) x)) = kv_size).
  { intros x. rewrite length_take, (linear_length _ _ _ _ Hl). lia. }
  revert ps Hps. induction X as [|x X IH]; intros [|p ps] Hps; try done. injection Hps as Hps. specialize (IH ps Hps). injection IH as E1 E2.
  rewrite !fmap_cons. cbn [zip_with fst snd]. rewrite !fmap_cons. rewrite E1, E2. f_equal. f_equal. by apply unfused_heads.
Qed.

(** ** The stacked projection *)

Lemma F_linear_concat (ws : list (list row)) x : F_linear (concat ws) None x = concat ((λ w, F_linear w None x) <$> ws).
Proof.
  induction ws as [|w ws IH]; [|cbn [concat]; rewrite F_linear_cat, IH; done].
  apply nil_length_inv. by rewrite F_linear_length.
Qed.

Lemma stacked_chunk ls i l x : Forall (context_layer_ok false) ls → ls !! i = Some l →
  take (2 * kv_size) (drop (i * (2 * kv_size)) (F_linear (concat ((λ l, weight (kv_ctx l)) <$> ls)) None x)) = linear (kv_ctx l) x.
Proof.
  intros Hls Hi. rewrite F_linear_concat, <- list_fmap_compose.
  assert (Hb : ∀ l, context_layer_ok false l → F_linear (weight (kv_ctx l)) None x = linear (kv_ctx l) x).
  { intros l' [[_ Hb] _]. unfold linear. destruct (bias (kv_ctx l')); [|done]. by destruct Hb. }
  rewrite <- (Hb l) by (by eapply (Forall_lookup_1 (context_layer_ok false))). apply chunk_concat; [|by rewrite list_lookup_fmap, Hi].
  apply Forall_fmap. eapply Forall_impl; [exact Hls|]. intros l' Hl'. unfold compose. rewrite Hb by done.
  destruct Hl' as [Hl' _]. rewrite (linear_length _ _ _ _ Hl'). lia.
Qed.

(** ** The helper *)

(** A helper for the model, with rotary rows for the positions below [N]. *)
Record helper_ok (N : nat) (h : FusedKVMaterializeHelper) : Prop := {
  ho_num_kv_heads : fh_num_kv_heads h = nkv;
  ho_head_dim : fh_head_dim h = D;
  ho_n_layers : fh_n_layers h = length (sm_layers m);
  ho_rotary_dim : fh_rotary_dim h = D;
  ho_weight : flat_kv_weight h = concat ((λ l, weight (kv_ctx l)) <$> sm_layers m);
  ho_k_norm : fh_k_norm_weights h = kn_weight <$> sm_layers m;
  ho_eps : fh_eps_values h = (λ _, eps m) <$> sm_layers m;
  ho_hint : ∃ p, fh_max_position_hint h = Some p ∧ N ≤ p + 1 ∧ p < _reserved_rope_cache_len h;
  ho_reserved : _reserved_rope_cache_len h ≤ length (re_cos_sin_cache (fh_rotary_emb h));
  ho_rows p : p < length (re_cos_sin_cache (fh_rotary_emb h)) →
    row2 (re_cos_sin_cache (fh_rotary_emb h)) p = cos_sin_cache (rope_theta m) D p
}.

Lemma ensure_reserved align h p : p < _reserved_rope_cache_len h → _reserved_rope_cache_len h ≤ length (re_cos_sin_cache (fh_rotary_emb h)) →
  _ensure_rope_cache align h p = Ok h.
Proof.
  intros Hp Hr. unfold _ensure_rope_cache. rewrite (proj2 (Nat.ltb_ge _ _)) by lia. rewrite py_check_true by (apply Nat.ltb_lt; lia).
  by destruct h.
Qed.

Lemma cache_rows_seq base d n p : p < n → row2 (cos_sin_cache base d <$> seq 0 n) p = cos_sin_cache base d p.
Proof. intros Hp. unfold row2. by rewrite list_lookup_fmap, lookup_seq_lt. Qed.

(** The rows grow by the formula they started with, past what is needed. *)
Lemma ensure_length align base d n p : 0 < align →
  let e := _ensure_cos_sin_cache_length align (new_rotary_emb base d n) p in
  ∃ n', re_cos_sin_cache e = cos_sin_cache base d <$> seq 0 n' ∧ p < n'.
Proof.
  intros Ha. unfold _ensure_cos_sin_cache_length, new_rotary_emb. cbn [re_cos_sin_cache re_base re_rotary_dim]. cbv zeta.
  rewrite length_fmap, length_seq. destruct (Nat.ltb_spec p n) as [Hp|Hp]; [by exists n|].
  cbn [re_cos_sin_cache]. set (new_len := (p + align) / align * align).
  assert (p < new_len).
  { unfold new_len. pose proof (Nat.div_mod_eq (p + align) align). pose proof (Nat.mod_upper_bound (p + align) align ltac:(lia)). nia. }
  exists new_len. split; [|done]. rewrite <- fmap_app. f_equal. replace new_len with (n + (new_len - n)) at 2 by lia. by rewrite seq_app.
Qed.

Lemma new_helper_ok align max_pos N : 0 < align → 0 < D → 
  ∃ h, new_fused_kv_helper align m (new_rotary_emb (rope_theta m) D max_pos) (Some N) = Ok h ∧ helper_ok N h.
Proof.
  intros Ha HD. unfold new_fused_kv_helper. cbn [re_rotary_dim new_rotary_emb].
  rewrite py_check_true by (apply andb_true_iff; split; [by apply Nat.ltb_lt|by apply Nat.leb_le]). cbn [mbind result_bind fmap option_fmap option_map].
  unfold _ensure_rope_cache. cbn [_reserved_rope_cache_len fh_rotary_emb re_cos_sin_cache new_rotary_emb].
  fold (new_rotary_emb (rope_theta m) D max_pos). rewrite length_fmap, length_seq.
  destruct (ensure_length align (rope_theta m) D max_pos (N - 1) Ha) as (n' & E & Hn').
  destruct (Nat.ltb_spec max_pos (N - 1 + 1)) as [Hg|Hg].
  - rewrite E, length_fmap, length_seq. rewrite py_check_true by (by apply Nat.ltb_lt). cbn [mbind result_bind].
    eexists. split; [done|]. split; cbn; try done; rewrite ?E, ?length_fmap, ?length_seq; [|done|].
    + exists (N - 1). split_and!; [done|lia|done].
    + intros p Hp. by apply cache_rows_seq.
  - cbn [re_cos_sin_cache new_rotary_emb]. rewrite length_fmap, length_seq. rewrite py_check_true by (apply Nat.ltb_lt; lia). cbn [mbind result_bind].
    eexists. split; [done|]. split; cbn; try done; rewrite ?length_fmap, ?length_seq; [|done|].
    + exists (N - 1). split_and!; [done|lia|lia].
    + intros p Hp. by apply cache_rows_seq.
Qed.

(** The keys and values of a layer as the kernel's cells. *)
Lemma fused_layer l i X ps (kv : list (list row)) (ws : list row) (es : list R) :
  context_layer_ok false l → length ps = length X → row2 ws i = kn_weight l → wt es i = eps m →
  (∀ c x, X !! c = Some x → row2 (row2 kv c) i = linear (kv_ctx l) x) →
  ((λ c, fused_k (rope_theta m) half kv ws es ps i c <$> seq 0 nkv) <$> seq 0 (length X),
   (λ c, fused_v half kv nkv i c <$> seq 0 nkv) <$> seq 0 (length X)) = layer_context_kv m l X ps.
Proof.
  intros Hl Hps Hw He Hkv. rewrite (layer_context_kv_eq false) by done.
  assert (G : ∀ (f : nat → list row) (g : row → nat → list row), (∀ c x p, X !! c = Some x → ps !! c = Some p → f c = g x p) →
    f <$> seq 0 (length X) = zip_with g X ps).
  { intros f g Hfg. apply list_eq. intros c. rewrite list_lookup_fmap, lookup_zip_with. destruct (decide (c < length X)) as [Hc|Hc].
    - destruct (lookup_lt_is_Some_2 X c Hc) as [x Hx], (lookup_lt_is_Some_2 ps c ltac:(lia)) as [p Hp].
      rewrite lookup_seq_lt, Hx, Hp by done. cbn. f_equal. by apply Hfg.
    - by rewrite lookup_seq_ge, (lookup_ge_None_2 X) by lia. }
  f_equal; apply G; intros c x p Hx Hp; unfold fused_k, fused_v, context_token; rewrite (Hkv c x Hx).
  - cbn [fst]. rewrite Hw, He. assert (ld ps c = p) as -> by (unfold ld; by rewrite Hp).
    rewrite Hhd. by rewrite token_rope_chunks by lia.
  - cbn [snd]. unfold split_heads, chunk. by rewrite Hhd.
Qed.

Lemma materialize_ok N h align order workspace X ps :
  helper_ok N h → X ≠ [] → length ps = length X → Forall (λ p, p < N) ps → 0 < half → Forall (context_layer_ok false) (sm_layers m) →
  (∀ l, order l ≡ₚ l) →
  materialize align order workspace h X ps = Ok (h, (λ l, layer_context_kv m l X ps) <$> sm_layers m).
Proof.
  intros [Hkv Hd Hn Hrot HW Hkn Heps (p & Hhint & HNp & Hpr) Hres Hrows] HX Hps Hpos Hhalf Hls Ho. unfold materialize.
  assert ((length X =? 0) = false) as -> by (apply Nat.eqb_neq; by destruct X).
  rewrite py_check_true by (by apply Nat.eqb_eq). cbn [mbind result_bind]. rewrite Hhint, (ensure_reserved align h p) by done. cbn [mbind result_bind].
  rewrite Hkv, Hd, Hn, Hrot, HW, Hkn, Heps. set (W := 2 * (nkv * D)).
  set (kv := _ <$> X). assert (Hlk : length kv = length X) by apply length_fmap.
  assert (Hbase : ∀ i l c x, sm_layers m !! i = Some l → X !! c = Some x → row2 (row2 kv c) i = linear (kv_ctx l) x).
  { intros i l c x Hi Hx. unfold kv. rewrite (row2_fmap _ X c x Hx). unfold row2. rewrite list_lookup_fmap, lookup_seq_lt by (by eapply lookup_lt_Some).
    cbn. by apply stacked_chunk. }
  unfold _fused_norm_rope_stacked. rewrite Hlk. assert ((length X =? 0) = false) as -> by (apply Nat.eqb_neq; by destruct X).
  rewrite (py_check_true _ (W =? _)) by (apply Nat.eqb_eq; unfold W; lia). cbn [mbind result_bind].
  rewrite (py_check_true _ ((0 <? D) && (D <=? D) && (D mod 2 =? 0))).
  2: { rewrite Hhd, !andb_true_iff, Nat.ltb_lt, Nat.leb_le, Nat.eqb_eq. split_and!; [lia..|]. rewrite Nat.mul_comm. apply Nat.Div0.mod_mul. }
  cbn [mbind result_bind]. rewrite (py_check_true _ ((length (kn_weight <$> sm_layers m) =? length (sm_layers m)) && _)).
  2: { rewrite length_fmap, Nat.eqb_refl. cbn [andb]. apply forallb_forall. intros w Hw%list_elem_of_In.
    apply list_elem_of_fmap in Hw as (l & -> & Hl). apply Nat.eqb_eq. rewrite Forall_forall in Hls. by destruct (Hls l Hl). }
  cbn [mbind result_bind]. rewrite py_check_true by (apply Nat.eqb_eq, length_fmap). cbn [mbind result_bind].
  set (ws := kn_weight <$> sm_layers m). set (es := (λ _, eps m) <$> sm_layers m). set (cache := re_cos_sin_cache _) in *.
  set (grid := seq 0 (length X) ≫= _).
  assert (Hgrid : ∀ c hd' i, (c, hd', i) ∈ order grid ↔ c < length X ∧ hd' < nkv ∧ i < length (sm_layers m)).
  { intros c hd' i. rewrite Ho. unfold grid. rewrite list_elem_of_bind. split.
    - intros (c' & (h' & (i' & E%list_elem_of_singleton & Hi)%list_elem_of_bind & Hh)%list_elem_of_bind & Hc).
      injection E as -> -> ->. apply elem_of_seq in Hc, Hh, Hi. lia.
    - intros (Hc & Hh & Hi). exists c. split; [|apply elem_of_seq; lia]. apply list_elem_of_bind. exists hd'. split; [|apply elem_of_seq; lia].
      apply list_elem_of_bind. exists i. split; [by apply list_elem_of_singleton|apply elem_of_seq; lia]. }
  pose proof (kernel_run (rope_theta m) half kv ws es cache ps nkv (order grid) workspace) as Hrun. rewrite <- Hhd in Hrun.
  set (out := foldl _ workspace _) in *. cbv zeta in Hrun.
  assert (Hcells : ∀ i c hd', (c, hd', i) ∈ order grid → out.1 i c hd' = fused_k (rope_theta m) half kv ws es ps i c hd' ∧ out.2 i c hd' = fused_v half kv nkv i c hd').
  { intros i c hd' Hin. destruct (Hrun) with (l := i) (c := c) (h := hd') as [R1 R2]; [|by auto].
    intros c' h' i' (Hc & Hh & Hi)%Hgrid. destruct (lookup_lt_is_Some_2 X c' Hc) as [x Hx], (lookup_lt_is_Some_2 (sm_layers m) i' Hi) as [l Hl].
    assert (context_layer_ok false l) as [Hlo Hlw] by (by eapply (Forall_lookup_1 (context_layer_ok false))).
    rewrite (Hbase i' l c' x Hl Hx), (linear_length _ _ _ _ Hlo). unfold ws. rewrite (row2_fmap kn_weight _ _ l Hl), Hlw.
    split_and!; [nia|lia|done|]. apply Hrows. destruct (lookup_lt_is_Some_2 ps c' ltac:(lia)) as [q Hq].
    pose proof (Forall_lookup_1 _ _ _ _ Hpos Hq) as Hq'. cbn in Hq'. unfold ld. rewrite Hq. cbn. lia. }
  f_equal. f_equal. apply list_eq. intros i. rewrite lookup_zip_with, !list_lookup_fmap. destruct (decide (i < length (sm_layers m))) as [Hi|Hi].
  2: { by rewrite lookup_seq_ge, (lookup_ge_None_2 (sm_layers m)) by lia. }
  destruct (lookup_lt_is_Some_2 (sm_layers m) i Hi) as [l Hl]. rewrite lookup_seq_lt, Hl by done. cbn. f_equal.
  rewrite <- (fused_layer l i X ps kv ws es).
  - f_equal; apply list_fmap_ext; intros j c Hc; apply lookup_seq in Hc as [-> Hc]; apply list_fmap_ext; intros k hd' Hk;
      apply lookup_seq in Hk as [-> Hk]; apply Hcells, Hgrid; lia.
  - by eapply (Forall_lookup_1 (context_layer_ok false)).
  - done.
  - unfold ws. by apply row2_fmap.
  - unfold es, wt. by rewrite list_lookup_fmap, Hl.
  - intros c x Hx. by apply Hbase.
Qed.
End model.
