(* ===== verification/DraftAppend.v ===== *)
(** * DraftAppend: appending rows extends every request's context

    On the packed model of a checkpoint, both forms of
    [_append_target_hidden_to_draft_kv_by_loc], with or without the fused helper, store the keys and
    values of the trained projections at the slots of the committed rows; so a pool that holds the
    contexts of a batch then holds the extended ones.  Last, what the draft model is handed: both forms of
    [compute_position] give the extended positions, both forms of the block preparation the draft block and the
    verified slots of every request. *)

From Stdlib Require Import Reals Lra.
From S2P Require Import Prelude TensorOps RealLaw LatentSampler RejectKernel SpecDecode MySpecModel DraftOps ExtendAttention LatentStage DraftLayers LatentModel LatentRows LatentAttention LatentLayers LatentForward LatentLayerLoad DraftContext DraftRounds DraftStore.
#[local] Open Scope nat_scope.
#[local] Arguments Nat.ltb : simpl never.
#[local] Arguments Nat.leb : simpl never.
#[local] Arguments Nat.sub : simpl never.

(** ** Slots *)

(** The slots from [from b] on are request [b]'s alone; those before may be shared. *)
Definition slots_private (bs : nat) (slot : nat → nat → nat) (from : nat → nat) (N : nat) : Prop :=
  ∀ b n b' n', b < bs → b' < bs → from b ≤ n < N → n' < N → slot b n = slot b' n' → b = b' ∧ n = n'.

Section slots.
Context (bs : nat) (slot : nat → nat → nat) (from start count : nat → nat) (N : nat).
Hypothesis Hprivate : slots_private bs slot from N.
Hypothesis Hstart : ∀ b, b < bs → from b ≤ start b ∧ start b + count b ≤ N.
Notation new_locs := (flat bs (λ b, slot b <$> seq (start b) (count b))).
Notation lens := (count <$> seq 0 bs).

Lemma ld_counts b : b < bs → ld lens b = count b.
Proof. intros Hb. unfold ld. by rewrite list_lookup_fmap, lookup_seq_lt. Qed.

Lemma length_counts : length lens = bs.
Proof. by rewrite length_fmap, length_seq. Qed.

Lemma length_new b : b < bs → length (slot b <$> seq (start b) (count b)) = ld lens b.
Proof. intros Hb. by rewrite length_fmap, length_seq, ld_counts. Qed.

Lemma private_nodup : NoDup new_locs.
Proof.
  apply NoDup_alt. intros i j s Hi Hj.
  assert (Hlt : ∀ k, new_locs !! k = Some s → k < psum lens bs).
  { intros k Hk. rewrite <- (length_ragged bs lens _ length_counts length_new bs (le_n _)). by eapply lookup_lt_Some. }
  destruct (ragged_index bs lens length_counts i (Hlt i Hi)) as (b & o & Hb & Ho & ->).
  destruct (ragged_index bs lens length_counts j (Hlt j Hj)) as (b' & o' & Hb' & Ho' & ->).
  rewrite (ragged_lookup bs lens _ length_counts length_new) in Hi, Hj by done. rewrite ld_counts in Ho, Ho' by done.
  rewrite list_lookup_fmap, lookup_seq_lt in Hi, Hj by done. injection Hi as Hi. injection Hj as Hj.
  pose proof (Hstart b Hb). pose proof (Hstart b' Hb').
  destruct (Hprivate b (start b + o) b' (start b' + o')) as [-> E]; [done|done|lia|lia|congruence|]. f_equal. lia.
Qed.

Lemma private_fresh b n : b < bs → n < start b → slot b n ∉ new_locs.
Proof.
  intros Hb Hn (b' & o & Hb' & Ho & Hs)%(elem_of_ragged bs lens _ length_counts length_new). rewrite ld_counts in Ho by done.
  rewrite list_lookup_fmap, lookup_seq_lt in Hs by done. injection Hs as Hs. pose proof (Hstart b Hb). pose proof (Hstart b' Hb').
  destruct (Hprivate b' (start b' + o) b n) as [-> E]; [done|done|lia|lia|done|]. lia.
Qed.

(** Storing the next rows of every request. *)
Lemma stored_extends buf (rows : nat → head_tensor) b : b < bs → (∀ b, b < bs → length (rows b) = count b) →
  (λ n, store_rows buf new_locs (flat bs rows) (slot b n)) <$> seq 0 (start b + count b) =
  ((λ n, buf (slot b n)) <$> seq 0 (start b)) ++ rows b.
Proof.
  intros Hb Hrows. rewrite seq_app, fmap_app. f_equal.
  - apply list_fmap_ext. intros i n Hn. apply lookup_seq in Hn as [-> Hn]. rewrite store_rows_other; [done|]. apply private_fresh; [done|lia].
  - apply list_eq. intros j. rewrite list_lookup_fmap. cbn [Nat.add]. destruct (decide (j < count b)) as [Hj|].
    2: { by rewrite lookup_seq_ge, lookup_ge_None_2 by (rewrite ?Hrows; lia). }
    destruct (lookup_lt_is_Some_2 (rows b) j) as [r Hr]; [by rewrite Hrows|]. rewrite lookup_seq_lt, Hr by done. cbn. f_equal.
    apply (store_rows_at _ _ _ (psum lens b + j)); [apply private_nodup|..].
    + rewrite (ragged_lookup bs lens _ length_counts length_new) by (by rewrite ?ld_counts). by rewrite list_lookup_fmap, lookup_seq_lt.
    + by rewrite (ragged_lookup bs lens _ length_counts) by (intros; rewrite ?ld_counts; auto).
Qed.
End slots.

(** ** The packed model's layers *)

Section append.
Context `{!TorchLinear, !TorchLinearLaws, !Transformers} (theta : R) (ck : Checkpoint) `{!TransformersLaws theta (ck_config ck)}.
Context (fused_table : bool) (is_causal : option bool) (has_bias : bool) (half : nat).
Hypothesis Hck : checkpoint_ok has_bias half ck.
Notation cfg := (ck_config ck).
Notation D := (head_dim (ck_config ck)).
Notation nkv := (num_key_value_heads (ck_config ck)).
Notation m := (packed_model ck theta fused_table is_causal).

Lemma packed_layer_at j : match attns ck !! j with
  | Some a => ∃ l, sm_layers m !! j = Some l ∧ layer_id l = j ∧ kv_ctx l = cat_linear (k_proj a) (v_proj a) ∧ kn_weight l = k_norm a
  | None => sm_layers m !! j = None end.
Proof.
  unfold attns. cbn [sm_layers packed_model]. set (n := length (ck_latent_layers ck)). destruct (decide (j < n)) as [Hj|Hj].
  - rewrite lookup_app_l by (by rewrite length_fmap). rewrite lookup_app_l by (by rewrite length_imap). rewrite list_lookup_fmap, list_lookup_imap.
    destruct (lookup_lt_is_Some_2 (ck_latent_layers ck) j Hj) as [lay ->]. cbn. by eexists.
  - rewrite lookup_app_r by (rewrite length_fmap; lia). rewrite lookup_app_r by (rewrite length_imap; lia).
    rewrite length_fmap, length_imap, list_lookup_fmap, list_lookup_imap. fold n.
    destruct (ck_layers ck !! (j - n)) as [lay|]; [|done]. cbn. eexists. split; [done|]. split; [cbn; lia|done].
Qed.

Lemma attns_ok j a : attns ck !! j = Some a → attn_ok cfg has_bias a.
Proof.
  unfold attns. intros [Hj|(_ & Hj)]%lookup_app_Some; rewrite list_lookup_fmap in Hj.
  - destruct (ck_latent_layers ck !! j) as [l|] eqn:E; [|done]. injection Hj as <-. by apply (co_latent _ _ _ Hck j l).
  - set (i := j - _) in *. destruct (ck_layers ck !! i) as [l|] eqn:E; [|done]. injection Hj as <-. by apply (co_layers _ _ _ Hck i l).
Qed.

Lemma layer_of l : l ∈ sm_layers m → ∃ a, attns ck !! layer_id l = Some a ∧ sm_layers m !! layer_id l = Some l ∧
  kv_ctx l = cat_linear (k_proj a) (v_proj a) ∧ kn_weight l = k_norm a.
Proof.
  intros (j & Hj)%list_elem_of_lookup. pose proof (packed_layer_at j) as Hs. destruct (attns ck !! j) as [a|] eqn:Ha; [|congruence].
  destruct Hs as (l' & Hl' & Hid & Hkv & Hkn). assert (l' = l) as -> by congruence. exists a. by rewrite Hid.
Qed.

Lemma layer_ids_nodup : NoDup (layer_id <$> sm_layers m).
Proof.
  apply NoDup_alt. intros i j x Hi Hj. rewrite list_lookup_fmap in Hi, Hj.
  destruct (sm_layers m !! i) as [l|] eqn:El; [|done]. destruct (sm_layers m !! j) as [l'|] eqn:El'; [|done].
  pose proof (packed_layer_at i) as Si. pose proof (packed_layer_at j) as Sj.
  destruct (attns ck !! i); [|congruence]. destruct (attns ck !! j); [|congruence].
  destruct Si as (? & ? & ? & _), Sj as (? & ? & ? & _). cbn in Hi, Hj. congruence.
Qed.

Lemma context_layers_ok : Forall (context_layer_ok m has_bias) (sm_layers m).
Proof.
  apply Forall_forall. intros l Hl. destruct (layer_of l Hl) as (a & Ha & _ & Hkv & Hkn). destruct (attns_ok _ a Ha) as [_ Hk Hv _ _ _ Hkno _].
  split; [rewrite Hkv; by apply cat_linear_ok|by rewrite Hkn].
Qed.

Lemma project_target_hidden_eq T : project_target_hidden m T = context_hidden ck T.
Proof. apply list_fmap_ext. intros i x _. cbn. by rewrite (Qwen3RMSNorm_law (theta := theta) (cfg := cfg)). Qed.

(** The keys and values of rows at positions [ps]. *)
Definition rows_k (a : MySpecAttention) (ps : list nat) (T : list row) : head_tensor :=
  heads_at cfg nkv (k_norm a) ps (linear (k_proj a) <$> context_hidden ck T).
Definition rows_v (a : MySpecAttention) (T : list row) : head_tensor := values cfg (linear (v_proj a) <$> context_hidden ck T).

Lemma length_rows_k a ps T : length ps = length T → length (rows_k a ps T) = length T.
Proof. intros Hl. unfold rows_k, context_hidden. rewrite length_heads_at, !length_fmap. lia. Qed.
Lemma length_rows_v a T : length (rows_v a T) = length T.
Proof. unfold rows_v, values, context_hidden. by rewrite !length_fmap. Qed.

Lemma rows_tokens a ps T : attn_ok cfg has_bias a →
  rows_k a ps T = zip_with (λ y p, token_rope theta half nkv (k_norm a) (rms_norm_eps cfg) p y) (linear (k_proj a) <$> context_hidden ck T) ps.
Proof.
  intros [_ Hk _ _ _ _ Hkno _]. unfold rows_k. apply (heads_at_tokens theta cfg half (co_dim _ _ _ Hck)); [done|].
  apply Forall_fmap, Forall_true. intros x. unfold compose. by rewrite (linear_length _ _ _ _ Hk).
Qed.

Lemma rows_shaped a ps T : attn_ok cfg has_bias a → Forall (shaped nkv D) (rows_k a ps T) ∧ Forall (shaped nkv D) (rows_v a T).
Proof.
  intros Ha. pose proof (co_dim _ _ _ Hck) as Hd. split.
  - rewrite rows_tokens by done. destruct Ha as [_ Hk _ _ _ _ Hkno _]. apply Forall_lookup_2. intros i x Hx.
    apply lookup_zip_with_Some in Hx as (y & p & -> & Ey & _). apply list_lookup_fmap_Some in Ey as (z & -> & _).
    split; [unfold token_rope, split_heads; by rewrite !length_fmap, length_seq|]. rewrite Hd in *.
    apply token_rope_lengths; [done|]. by rewrite (linear_length _ _ _ _ Hk).
  - destruct Ha as [_ _ Hv _ _ _ _ _]. unfold rows_v, values. apply Forall_fmap, Forall_fmap, Forall_true. intros x. unfold compose.
    apply split_heads_shaped. by rewrite (linear_length _ _ _ _ Hv).
Qed.

(** The unfused loop computes them. *)
Lemma layer_rows l a T ps : l ∈ sm_layers m → attns ck !! layer_id l = Some a → length ps = length T →
  layer_context_kv m l (project_target_hidden m T) ps = (rows_k a ps T, rows_v a T).
Proof.
  intros Hl Ha Hps. destruct (layer_of l Hl) as (a' & Ha' & _ & Hkv & Hkn). assert (a' = a) as -> by congruence.
  pose proof (attns_ok _ a Ha) as Hok. rewrite project_target_hidden_eq.
  rewrite (layer_context_kv_eq m half (co_dim _ _ _ Hck) has_bias).
  2: { pose proof context_layers_ok as Hc. rewrite Forall_forall in Hc. by apply Hc. }
  2: { unfold context_hidden. by rewrite length_fmap. }
  rewrite rows_tokens by done. unfold rows_v, values. destruct Hok as [_ Hk Hv _ _ _ _ _].
  assert (E : ∀ x, linear (kv_ctx l) x = linear (k_proj a) x ++ linear (v_proj a) x) by (intros x; rewrite Hkv; by apply (linear_cat has_bias _ _ _ _ _ Hk Hv)).
  assert (El : ∀ x, length (linear (k_proj a) x) = nkv * D) by (intros x; by apply (linear_length has_bias)).
  unfold context_token. change (num_kv_heads m) with nkv. change (hd m) with D. change (rope_theta m) with theta. change (eps m) with (rms_norm_eps cfg). cbn [fst snd].
  assert (Hlen : length ps = length (context_hidden ck T)) by (unfold context_hidden; by rewrite length_fmap). clear Hps. revert ps Hlen.
  induction (context_hidden ck T) as [|x X IH]; intros [|p ps] Hlen; try done. injection Hlen as Hlen. specialize (IH ps Hlen). injection IH as E1 E2.
  assert (T1 : take (nkv * D) (linear (k_proj a) x ++ linear (v_proj a) x) = linear (k_proj a) x) by (rewrite <- (El x); apply take_app_length).
  assert (T2 : drop (nkv * D) (linear (k_proj a) x ++ linear (v_proj a) x) = linear (v_proj a) x) by (rewrite <- (El x); apply drop_app_length).
  rewrite !fmap_cons. cbn [zip_with]. by rewrite E1, E2, Hkn, E, T1, T2.
Qed.

(** ** The loops over the layers *)

Context (conf : AppendConf).
Hypothesis Hitem : store_itemsize conf = 1 ∨ store_itemsize conf = 2 ∨ store_itemsize conf = 4.
Hypothesis Hrow : 0 < nkv * D.
Hypothesis Horder : ∀ l, program_order conf l ≡ₚ l.

Definition fused_ok (N : nat) (fused : option FusedKVMaterializeHelper) : Prop :=
  match fused with None => True | Some h => has_bias = false ∧ helper_ok m N h end.

(** The write of one layer, as both loops call it. *)
Definition layer_write (locs : list nat) (block : option (list (list nat) * list nat)) (pool : KVPool) (j : nat) (k v : head_tensor) : result KVPool :=
  match block with
  | Some (locs_2d, commits) => set_kv_buffer_prefix_valid nkv D (store_itemsize conf) (is_gpu conf) (program_order conf) pool j locs_2d commits k v
  | None => Ok (set_kv_buffer pool j locs k v)
  end.

(** Every layer stores [sel] of its rows at [valid]. *)
Definition rows_stored (pool pool' : KVPool) (valid : list nat) (sel : head_tensor → head_tensor) (ps : list nat) (T : list row) : Prop :=
  ∀ j a, attns ck !! j = Some a → ∀ s,
    k_buffer pool' j s = store_rows (k_buffer pool j) valid (sel (rows_k a ps T)) s ∧
    v_buffer pool' j s = store_rows (v_buffer pool j) valid (sel (rows_v a T)) s.

Section write.
Context (locs : list nat) (block : option (list (list nat) * list nat)) (valid : list nat) (sel : head_tensor → head_tensor).
Context (ps : list nat) (T : list row).
Hypothesis Hps : length ps = length T.
Hypothesis Hwrite : ∀ j a pool, attns ck !! j = Some a →
  ∃ pool', layer_write locs block pool j (rows_k a ps T) (rows_v a T) = Ok pool' ∧ stored pool pool' j valid (sel (rows_k a ps T), sel (rows_v a T)).
Notation ctx := (project_target_hidden m T).

Lemma unfused_stored pool :
  ∃ pool', each_layer (λ pool l, let '(k, v) := layer_context_kv m l ctx ps in layer_write locs block pool (layer_id l) k v) pool (sm_layers m) = Ok pool' ∧
    rows_stored pool pool' valid sel ps T.
Proof.
  destruct (each_layer_stored (λ pool l, let '(k, v) := layer_context_kv m l ctx ps in layer_write locs block pool (layer_id l) k v) layer_id
    (λ l, (sel (layer_context_kv m l ctx ps).1, sel (layer_context_kv m l ctx ps).2)) valid (sm_layers m) pool) as (pool' & E & Hin & _).
  - intros l p Hl. destruct (layer_of l Hl) as (a & Ha & _). rewrite (layer_rows l a T ps Hl Ha Hps). cbn [fst snd]. by apply Hwrite.
  - apply layer_ids_nodup.
  - exists pool'. split; [done|]. intros j a Ha s. pose proof (packed_layer_at j) as Hs. rewrite Ha in Hs. destruct Hs as (l & Hl & Hid & _).
    apply list_elem_of_lookup_2 in Hl as Hin'. specialize (Hin l Hin' s). rewrite Hid in Hin.
    rewrite (layer_rows l a T ps Hin') in Hin by (done || by rewrite Hid). exact Hin.
Qed.

Lemma fused_stored N h pool : has_bias = false → helper_ok m N h → T ≠ [] → Forall (λ p, p < N) ps →
  ∃ pool', _append_target_hidden_fused conf m h ctx ps locs block pool = Ok (pool', h) ∧ rows_stored pool pool' valid sel ps T.
Proof.
  intros Hb Hh HT Hpos. pose proof context_layers_ok as Hls. rewrite Hb in Hls.
  assert (0 < half) by (pose proof (co_dim _ _ _ Hck); lia).
  unfold _append_target_hidden_fused. rewrite (materialize_ok m half (co_dim _ _ _ Hck) N); try done.
  2: { unfold project_target_hidden. by destruct T. }
  2: { unfold project_target_hidden. by rewrite length_fmap. }
  cbn [mbind result_bind]. rewrite length_fmap.
  set (write pool ikv := _ : result KVPool). set (kvs := _ <$> sm_layers m). set (items := zip (seq 0 (length (sm_layers m))) kvs).
  assert (Hitems : ∀ x, x ∈ items → ∃ l, sm_layers m !! x.1 = Some l ∧ x.2 = layer_context_kv m l ctx ps).
  { intros [i kv] (k & Hk)%list_elem_of_lookup. unfold items in Hk. apply lookup_zip_with_Some in Hk as (i' & kv' & [= -> ->] & Hi & Hkv).
    apply lookup_seq in Hi as [-> Hi]. unfold kvs in Hkv. rewrite list_lookup_fmap in Hkv. destruct (sm_layers m !! k) as [l|] eqn:El; [|done].
    injection Hkv as <-. by exists l. }
  assert (Hlayer : ∀ i l, sm_layers m !! i = Some l → ∃ a, layer_id l = i ∧ attns ck !! i = Some a ∧ layer_context_kv m l ctx ps = (rows_k a ps T, rows_v a T)).
  { intros i l Hl. pose proof (packed_layer_at i) as Hs. destruct (attns ck !! i) as [a|] eqn:Ha; [|congruence]. destruct Hs as (l' & Hl' & Hid & _).
    assert (l' = l) as -> by congruence. exists a. split_and!; [done|done|]. apply layer_rows; [by eapply list_elem_of_lookup_2|by rewrite Hid|done]. }
  destruct (each_layer_stored write fst (λ x, (sel x.2.1, sel x.2.2)) valid items pool) as (pool' & E & Hin & _).
  - intros x p Hx. destruct (Hitems x Hx) as (l & Hl & Hkv). destruct x as [i kv]. cbn [fst snd] in *. subst kv.
    destruct (Hlayer i l Hl) as (a & Hid & Ha & Hrows). unfold write. rewrite Hrows, Hl, Hid. cbn [fst snd].
    destruct (Hwrite i a p Ha) as (p' & Ew & Hs). exists p'. split; [|done]. unfold layer_write in Ew. by destruct block as [[??]|].
  - unfold items. rewrite fst_zip; [apply NoDup_seq|]. unfold kvs. by rewrite length_seq, length_fmap.
  - rewrite E. cbn [mbind result_bind]. exists pool'. split; [done|]. intros j a Ha s. pose proof (packed_layer_at j) as Hs. rewrite Ha in Hs.
    destruct Hs as (l & Hl & _). destruct (Hlayer j l Hl) as (a' & _ & Ha' & Hrows). assert (a' = a) as -> by congruence.
    specialize (Hin (j, layer_context_kv m l ctx ps)). cbn [fst snd] in Hin. rewrite Hrows in Hin. apply Hin.
    apply list_elem_of_lookup. exists j. unfold items, kvs. apply lookup_zip_with_Some. eexists _, _. split_and!; [done| |by rewrite list_lookup_fmap, Hl, <- Hrows].
    apply lookup_seq. split; [done|]. by eapply lookup_lt_Some.
Qed.
End write.

(** ** Batches *)

Context (bs : nat).

(** The layers store rows [Y b] of every request at [locs], from position [start b]. *)
Definition batch_stored (pool pool' : KVPool) (locs : list nat) (start : nat → nat) (Y : nat → list row) : Prop :=
  ∀ j a, attns ck !! j = Some a → ∀ s,
    k_buffer pool' j s = store_rows (k_buffer pool j) locs (flat bs (λ b, rows_k a (seq (start b) (length (Y b))) (Y b))) s ∧
    v_buffer pool' j s = store_rows (v_buffer pool j) locs (flat bs (λ b, rows_v a (Y b))) s.

Lemma rows_flat a (ps : nat → list nat) (Y : nat → list row) : (∀ b, b < bs → length (ps b) = length (Y b)) →
  rows_k a (flat bs ps) (flat bs Y) = flat bs (λ b, rows_k a (ps b) (Y b)) ∧ rows_v a (flat bs Y) = flat bs (λ b, rows_v a (Y b)).
Proof.
  intros Hl. unfold rows_k, rows_v, heads_at, normed_heads, values, context_hidden. rewrite !flat_fmap. split; [|done].
  apply flat_zip. intros b Hb. rewrite !length_fmap. by rewrite Hl.
Qed.

Lemma length_flat_eq {A B} (f : nat → list A) (g : nat → list B) : (∀ b, b < bs → length (f b) = length (g b)) → length (flat bs f) = length (flat bs g).
Proof.
  intros Hfg. rewrite <- (length_fmap (λ _, tt) (flat bs f)), <- (length_fmap (λ _, tt) (flat bs g)), !flat_fmap.
  f_equal. apply flat_ext. intros b Hb. specialize (Hfg b Hb). revert Hfg. generalize (f b), (g b).
  intros l. induction l as [|x l IH]; intros [|y k] Hlk; try done. cbn. f_equal. apply IH. by injection Hlk.
Qed.

Lemma flat_seq_lt N (start count : nat → nat) : (∀ b, b < bs → start b + count b ≤ N) → Forall (λ p, p < N) (flat bs (λ b, seq (start b) (count b))).
Proof.
  intros Hl. apply Forall_concat, Forall_fmap, Forall_forall. intros b Hb%elem_of_seq. apply Forall_forall. intros p Hp%elem_of_seq.
  specialize (Hl b ltac:(lia)). lia.
Qed.

Notation append fused T locs ps block commits pool := (_append_target_hidden_to_draft_kv_by_loc conf m fused T locs ps block commits pool).

(** A prefill: every row, at one slot each. *)
Lemma append_rows N fused pool (locs : nat → list nat) start Y : fused_ok N fused →
  (∀ b, b < bs → length (locs b) = length (Y b) ∧ start b + length (Y b) ≤ N) →
  ∃ pool', append fused (Some (flat bs Y)) (flat bs locs) (flat bs (λ b, seq (start b) (length (Y b)))) None None pool = Ok (pool', fused) ∧
    batch_stored pool pool' (flat bs locs) start Y.
Proof.
  intros Hf Hl. assert (Hps : ∀ b, b < bs → length (seq (start b) (length (Y b))) = length (Y b)) by (intros b _; apply length_seq).
  assert (Hl' : ∀ b, b < bs → length (locs b) = length (Y b)) by (intros b Hb; by apply Hl).
  pose proof (length_flat_eq _ _ Hps) as Ep. pose proof (length_flat_eq _ _ Hl') as El.
  set (T := flat bs Y) in *. set (ps := flat bs (λ b, seq (start b) (length (Y b)))) in *.
  assert (Hconv : ∀ pool', rows_stored pool pool' (flat bs locs) (λ x, x) ps T → batch_stored pool pool' (flat bs locs) start Y).
  { intros pool' Hs j a Ha s. destruct (rows_flat a (λ b, seq (start b) (length (Y b))) Y Hps) as [<- <-]. by apply Hs. }
  unfold _append_target_hidden_to_draft_kv_by_loc. destruct (Nat.eqb_spec (length T) 0) as [HT|HT].
  { exists pool. split; [done|]. apply Hconv. rewrite HT in El. apply nil_length_inv in El. rewrite El. by intros j a _ s. }
  rewrite (py_check_true _ (length (flat bs locs) =? _)) by (by apply Nat.eqb_eq). cbn [mbind result_bind].
  rewrite py_check_true by (by apply Nat.eqb_eq). cbn [mbind result_bind].
  assert (Hwrite : ∀ j a p, attns ck !! j = Some a → ∃ p', layer_write (flat bs locs) None p j (rows_k a ps T) (rows_v a T) = Ok p' ∧
    stored p p' j (flat bs locs) (rows_k a ps T, rows_v a T)) by (intros j a p _; eexists; split; [done|apply set_kv_buffer_stored]).
  destruct fused as [h|].
  - destruct Hf as [Hb Hh]. destruct (fused_stored (flat bs locs) None (flat bs locs) (λ x, x) ps T Ep Hwrite N h pool Hb Hh) as (pool' & E & Hs).
    { intros E. by rewrite E in HT. }
    { apply flat_seq_lt. intros b Hb'. by apply Hl. }
    rewrite E. exists pool'. split; [done|]. by apply Hconv.
  - destruct (unfused_stored (flat bs locs) None (flat bs locs) (λ x, x) ps T Ep Hwrite pool) as (pool' & E & Hs). exists pool'. split; [|by apply Hconv].
    unfold layer_write in E.
    assert (E' : each_layer (λ p l, Ok ((λ p l, let '(k, v) := layer_context_kv m l (project_target_hidden m T) ps in set_kv_buffer p (layer_id l) (flat bs locs) k v) p l)) pool (sm_layers m) = Ok pool').
    { etrans; [|exact E]. reflexivity. }
    rewrite each_layer_foldl in E'. 
    assert (_append_target_hidden_sequential m (project_target_hidden m T) ps (flat bs locs) pool = pool') as -> by (injection E' as E'; exact E'). done.
Qed.

(** A decode: of every block of [W] rows the first [commit b]. *)
Lemma append_blocks N W fused pool (locs : nat → list nat) start commit Y : fused_ok N fused →
  (∀ b, b < bs → length (locs b) = W ∧ length (Y b) = W ∧ commit b ≤ W ∧ start b + W ≤ N) →
  NoDup (flat bs (λ b, take (commit b) (locs b))) →
  ∃ pool', append fused (Some (flat bs Y)) (flat bs locs) (flat bs (λ b, seq (start b) W)) (Some (locs <$> seq 0 bs)) (Some (commit <$> seq 0 bs)) pool = Ok (pool', fused) ∧
    batch_stored pool pool' (flat bs (λ b, take (commit b) (locs b))) start (λ b, take (commit b) (Y b)).
Proof.
  intros Hf Hl Hnd. assert (Hl1 : ∀ b, b < bs → length (locs b) = W) by (intros b Hb; by apply Hl).
  assert (Hl2 : ∀ b, b < bs → length (Y b) = W) by (intros b Hb; by apply Hl). assert (Hl3 : ∀ b, b < bs → commit b ≤ W) by (intros b Hb; by apply Hl).
  assert (Hl4 : ∀ b, b < bs → length (seq (start b) W) = W) by (intros b _; apply length_seq).
  assert (Hps : ∀ b, b < bs → length (seq (start b) W) = length (Y b)) by (intros b Hb; by rewrite length_seq, Hl2).
  pose proof (length_flat_eq _ _ Hps) as Ep.
  set (T := flat bs Y) in *. set (ps := flat bs (λ b, seq (start b) W)) in *. set (valid := flat bs (λ b, take (commit b) (locs b))) in *.
  set (sel (x : head_tensor) := flat bs (λ b, take (commit b) (take W (drop (b * W) x)))).
  assert (Hsel : ∀ f : nat → head_tensor, (∀ b, b < bs → length (f b) = W) → sel (flat bs f) = flat bs (λ b, take (commit b) (f b))).
  { intros f Hlf. apply flat_ext. intros b Hb. by rewrite (flat_chunk bs W) by done. }
  assert (Hlk : ∀ a b, b < bs → length (rows_k a (seq (start b) W) (Y b)) = W) by (intros a b Hb; rewrite length_rows_k; auto).
  assert (Hlv : ∀ a b, b < bs → length (rows_v a (Y b)) = W) by (intros a b Hb; rewrite length_rows_v; auto).
  assert (Hconv : ∀ pool', rows_stored pool pool' valid sel ps T → batch_stored pool pool' valid start (λ b, take (commit b) (Y b))).
  { intros pool' Hs j a Ha s. specialize (Hs j a Ha s). destruct (rows_flat a (λ b, seq (start b) W) Y Hps) as [Ek Ev]. fold ps T in Ek, Ev.
    rewrite Ek, Ev, !Hsel in Hs by auto. destruct Hs as [-> ->]. split; f_equal; apply flat_ext; intros b Hb.
    - unfold rows_k. rewrite heads_at_take. unfold context_hidden. rewrite <- !fmap_take. f_equal. by rewrite length_take, Hl2, take_seq.
    - unfold rows_v, values, context_hidden. by rewrite <- !fmap_take. }
  assert (Hwrite : ∀ j a p, attns ck !! j = Some a → ∃ p', layer_write (flat bs locs) (Some (locs <$> seq 0 bs, commit <$> seq 0 bs)) p j (rows_k a ps T) (rows_v a T) = Ok p' ∧
    stored p p' j valid (sel (rows_k a ps T), sel (rows_v a T))).
  { intros j a p Ha. destruct (rows_flat a (λ b, seq (start b) W) Y Hps) as [Ek Ev]. fold ps T in Ek, Ev. rewrite Ek, Ev, !Hsel by auto.
    pose proof (attns_ok j a Ha) as Hok. apply (prefix_valid_stored nkv D (store_itemsize conf) bs W locs commit); try done.
    - intros b Hb. split; [by apply Hlk|by apply rows_shaped].
    - intros b Hb. split; [by apply Hlv|by apply (rows_shaped a [])]. }
  unfold _append_target_hidden_to_draft_kv_by_loc. destruct (Nat.eqb_spec (length T) 0) as [HT|HT].
  { exists pool. split; [done|]. apply Hconv. unfold T in HT. rewrite (length_batch bs W) in HT by done.
    assert (length valid = 0) as Hv%nil_length_inv; [|rewrite Hv; by intros j a _ s].
    unfold valid. rewrite (length_flat_eq _ (λ b, take (commit b) (Y b))) by (intros b Hb; by rewrite !length_take, Hl1, Hl2).
    assert (bs = 0 ∨ W = 0) as [E|E] by lia; [by rewrite E|]. rewrite (length_batch bs 0); [lia|]. intros b Hb. rewrite length_take, Hl2 by done. lia. }
  assert (length (flat bs locs) = length T) as El by (apply length_flat_eq; intros b Hb; by rewrite Hl1, Hl2).
  rewrite (py_check_true _ (length (flat bs locs) =? _)) by (by apply Nat.eqb_eq). cbn [mbind result_bind].
  rewrite (py_check_true _ (length ps =? _)) by (by apply Nat.eqb_eq). cbn [mbind result_bind]. fold (flat bs locs).
  rewrite (py_check_true _ (length (flat bs locs) =? _)) by (by apply Nat.eqb_eq). cbn [mbind result_bind].
  rewrite !length_fmap, Nat.eqb_refl. cbn [py_check mbind result_bind]. rewrite length_seq.
  destruct (Nat.eqb_spec bs 0) as [Hbs|_].
  { exfalso. apply HT. unfold T. by rewrite Hbs. }
  destruct fused as [h|].
  - destruct Hf as [Hb Hh].
    destruct (fused_stored (flat bs locs) (Some (locs <$> seq 0 bs, commit <$> seq 0 bs)) valid sel ps T Ep Hwrite N h pool Hb Hh) as (pool' & E & Hs).
    { intros E. by rewrite E in HT. }
    { apply flat_seq_lt. intros b Hb'. by apply Hl. }
    rewrite E. exists pool'. split; [done|]. by apply Hconv.
  - destruct (unfused_stored (flat bs locs) (Some (locs <$> seq 0 bs, commit <$> seq 0 bs)) valid sel ps T Ep Hwrite pool) as (pool' & E & Hs).
    exists pool'. split; [|by apply Hconv]. unfold append_prefix_direct. unfold layer_write in E.
    change (num_kv_heads m) with nkv. change (hd m) with D. by rewrite E.
Qed.
End append.

(** ** The block handed to the draft *)

Section prepare.
Context (order : list nat → list nat) (torch_empty : nat → list nat) (bs : nat).
Hypothesis Horder : ∀ l, order l ≡ₚ l.
Hypothesis Hempty : ∀ n, length (torch_empty n) = n.

Lemma ld_fn (f : nat → nat) b : b < bs → ld (f <$> seq 0 bs) b = f b.
Proof. intros Hb. unfold ld. by rewrite list_lookup_fmap, lookup_seq_lt. Qed.

Lemma psum_all (f : nat → nat) : psum (f <$> seq 0 bs) bs = sum_list (f <$> seq 0 bs).
Proof. unfold psum. by rewrite firstn_all2 by (rewrite length_fmap, length_seq; lia). Qed.

(** ** Positions *)

Lemma sum_before (lens : list nat) pid : foldl (λ acc i, acc + ld lens i) 0 (seq 0 pid) = psum lens pid.
Proof.
  induction pid as [|pid IH]; [done|]. rewrite seq_S, foldl_app, IH. cbn. destruct (decide (pid < length lens)) as [Hp|Hp].
  - by rewrite psum_S.
  - unfold psum, ld. rewrite !firstn_all2 by lia. rewrite lookup_ge_None_2 by lia. cbn. lia.
Qed.

Lemma prefill_positions_ok backend (prefix ext : nat → nat) :
  compute_position order torch_empty backend (prefix <$> seq 0 bs) (ext <$> seq 0 bs) (sum_list (ext <$> seq 0 bs)) =
  flat bs (λ b, seq (prefix b) (ext b)).
Proof.
  unfold compute_position. destruct (support_triton backend).
  - unfold compute_position_triton. rewrite !length_fmap, length_seq, Nat.eqb_refl.
    rewrite (store_all_ragged bs (ext <$> seq 0 bs) (λ b o, prefix b + o)).
    + apply flat_ext. intros b Hb. rewrite ld_fn by done. etrans; [apply (fmap_add_seq (prefix b) 0)|]. by rewrite Nat.add_0_r.
    + by rewrite length_fmap, length_seq.
    + apply Horder.
    + by rewrite Hempty, psum_all.
    + intros b w Hb. unfold compute_position_kernel. rewrite sum_before, !ld_fn by done. split.
      * intros (i & (o & Hw%list_elem_of_singleton & Ho)%list_elem_of_bind & Hi)%list_elem_of_bind. exists o. split; [|done].
        apply (in_tiles (ext b) 512); [lia|]. by exists i.
      * intros (o & Ho & ->). apply (in_tiles _ 512) in Ho as (i & Ho & Hi); [|lia]. apply list_elem_of_bind. exists i. split; [|done].
        apply list_elem_of_bind. exists o. split; [by apply list_elem_of_singleton|done].
  - unfold compute_position_torch, flat. f_equal. rewrite zip_with_fmap_l, zip_with_fmap_r. apply zip_with_diag.
Qed.

(** ** Slots and tokens of the block *)

Lemma lanes_sum (f : nat → nat) pid P : pid ≤ P →
  sum_list ((λ lane, if lane <? pid then f lane else 0) <$> seq 0 P) = sum_list (f <$> seq 0 pid).
Proof.
  intros HP. replace P with (pid + (P - pid)) by lia. rewrite seq_app, fmap_app, sum_list_with_app.
  rewrite (list_fmap_ext _ f (seq 0 pid)), (list_fmap_ext _ (λ _, 0) (seq (0 + pid) _)).
  - enough (∀ l : list nat, sum_list ((λ _, 0) <$> l) = 0) as -> by lia. induction l as [|x l IH]; [done|exact IH].
  - intros i o Ho. apply lookup_seq in Ho as [-> Ho]. by rewrite (proj2 (Nat.ltb_ge _ _)) by lia.
  - intros i o Ho. apply lookup_seq in Ho as [-> Ho]. by rewrite (proj2 (Nat.ltb_lt _ _)) by lia.
Qed.

Lemma sum_const c k : sum_list ((λ _ : nat, c) <$> seq 0 k) = k * c.
Proof. generalize 0. induction k as [|k IH]; intros s; [done|]. cbn. rewrite IH. unfold Datatypes.id. lia. Qed.

Lemma filter_lanes n P : n ≤ P → filter (λ c, c < n) (seq 0 P) = seq 0 n.
Proof.
  intros HP. replace P with (n + (P - n)) by lia. rewrite seq_app, filter_app.
  assert (E : ∀ l : list nat, (∀ i, i ∈ l → i < n) → filter (λ c, c < n) l = l).
  { induction l as [|i l IH]; intros Hl; [done|]. rewrite filter_cons_True by (apply Hl; by left). f_equal. apply IH. intros j Hj. apply Hl. by right. }
  assert (E' : ∀ l : list nat, (∀ i, i ∈ l → n ≤ i) → filter (λ c, c < n) l = []).
  { induction l as [|i l IH]; intros Hl; [done|]. pose proof (Hl i ltac:(by left)). rewrite filter_cons_False by lia. apply IH. intros j Hj. apply Hl. by right. }
  rewrite E, E', app_nil_r; [done|intros i Hi%elem_of_seq; lia..].
Qed.

Lemma view_flat {A} W (f : nat → list A) : (∀ b, b < bs → length (f b) = W) → view_2d bs W (flat bs f) = f <$> seq 0 bs.
Proof.
  intros Hf. unfold view_2d. apply list_fmap_ext. intros i b Hb. apply lookup_seq in Hb as [-> Hb]. cbn [Nat.add].
  unfold py_slice. replace (i * W + W - i * W) with W by lia. by apply (flat_chunk bs W).
Qed.

Context (req_to_token : list (list nat)) (rows start bonus : nat → nat) (B mask_id : nat).
Notation slot b n := (ld (default [] (req_to_token !! rows b)) n).
Notation V := (B + 1).

Lemma assign_extend_ok :
  assign_extend_cache_locs_func order torch_empty (rows <$> seq 0 bs) req_to_token (start <$> seq 0 bs)
    ((λ n, n + V) <$> (start <$> seq 0 bs)) bs V = flat bs (λ b, (λ n, slot b n) <$> seq (start b) V).
Proof.
  unfold assign_extend_cache_locs_func. rewrite <- list_fmap_compose. unfold compose.
  rewrite (store_all_ragged bs ((λ _, V) <$> seq 0 bs) (λ b o, slot b (start b + o))).
  - apply flat_ext. intros b Hb. rewrite ld_fn by done.
    assert (seq (start b) V = (λ o, start b + o) <$> seq 0 V) as -> by (symmetry; etrans; [apply fmap_add_seq|]; by rewrite Nat.add_0_r).
    by rewrite <- list_fmap_compose.
  - by rewrite length_fmap, length_seq.
  - apply Horder.
  - by rewrite Hempty, psum_all, sum_const.
  - intros b w Hb. unfold assign_extend_cache_locs. rewrite !ld_fn by done. unfold row2.
    assert (Hoff : sum_list ((λ lane, if lane <? b then ld ((λ x, start x + V) <$> seq 0 bs) lane - ld (start <$> seq 0 bs) lane else 0) <$> seq 0 (next_power_of_2 bs))
      = psum ((λ _, V) <$> seq 0 bs) b).
    { rewrite lanes_sum by (pose proof (next_power_of_2_ge bs); lia). unfold psum. rewrite <- fmap_take, take_seq, Nat.min_l by lia. f_equal.
      apply list_fmap_ext. intros i lane Hl. apply lookup_seq in Hl as [-> Hl]. rewrite !ld_fn by lia. lia. }
    rewrite Hoff. replace (start b + V - start b) with V by lia.
    assert (Hflt : ∀ i, filter (λ o, start b + o < start b + V) (tl_lanes 32 i) = filter (λ o, o < V) (tl_lanes 32 i)).
    { intros i. apply filter_ext_in. intros o _. lia. }
    split.
    + intros (i & (o & Hw%list_elem_of_singleton & Ho)%list_elem_of_bind & Hi)%list_elem_of_bind. rewrite Hflt in Ho. exists o. split; [|done].
      apply (in_tiles V 32); [lia|]. by exists i.
    + intros (o & Ho & ->). apply (in_tiles _ 32) in Ho as (i & Ho & Hi); [|lia]. apply list_elem_of_bind. exists i. split; [|done].
      apply list_elem_of_bind. exists o. split; [by apply list_elem_of_singleton|by rewrite Hflt].
Qed.

(** The Triton kernel reads a row of the table up to its width. *)
Lemma prepare_draft_block_ok triton : 0 < B → (triton = true → ∀ b, b < bs → start b + B ≤ length (row2 req_to_token 0)) →
  let blk := prepare_draft_block order torch_empty triton (bonus <$> seq 0 bs) (start <$> seq 0 bs) (rows <$> seq 0 bs) req_to_token B mask_id in
  concat (block_ids_2d blk) = flat bs (λ b, bonus b :: replicate (B - 1) mask_id) ∧
  concat (draft_positions_2d blk) = flat bs (λ b, seq (start b) B) ∧
  concat (draft_out_cache_loc_2d blk) = flat bs (λ b, (λ n, slot b n) <$> seq (start b) B) ∧
  concat (verify_positions_2d blk) = flat bs (λ b, seq (start b) V) ∧
  verify_out_cache_loc_2d blk = (λ b, (λ n, slot b n) <$> seq (start b) V) <$> seq 0 bs.
Proof.
  intros HB Hwidth blk. unfold blk, prepare_draft_block. rewrite length_fmap, length_seq, assign_extend_ok.
  rewrite view_flat by (intros b Hb; by rewrite length_fmap, length_seq).
  assert (Hshift : ∀ s k, (λ o, s + o) <$> seq 0 k = seq s k) by (intros s k; etrans; [apply fmap_add_seq|]; by rewrite Nat.add_0_r).
  assert (Hvpos : concat ((λ p, (λ o, p + o) <$> seq 0 V) <$> (start <$> seq 0 bs)) = flat bs (λ b, seq (start b) V)).
  { rewrite <- list_fmap_compose. apply flat_ext. intros b _. apply Hshift. }
  destruct triton; cbn [block_ids_2d draft_positions_2d draft_out_cache_loc_2d verify_positions_2d verify_out_cache_loc_2d]; (split_and!; [| | |done|done]).
  - rewrite <- list_fmap_compose. apply flat_ext. intros b Hb. unfold compose, _prepare_dflash_draft_block_contig_kernel. cbn [fst snd].
    rewrite filter_lanes by apply next_power_of_2_ge. rewrite ld_fn by done. destruct B as [|B']; [lia|]. replace (S B' - 1) with B' by lia.
    change (seq 0 (S B')) with (0 :: seq 1 B'). rewrite fmap_cons. cbn [Nat.eqb]. f_equal.
    rewrite <- (fmap_S_seq 0), <- list_fmap_compose. rewrite (list_fmap_ext _ (λ _, mask_id)) by done.
    clear. induction B' as [|n IH] using nat_ind; [done|]. rewrite seq_S, fmap_app, IH. cbn. by rewrite <- replicate_cons_app.
  - rewrite <- list_fmap_compose. apply flat_ext. intros b Hb. unfold compose, _prepare_dflash_draft_block_contig_kernel. cbn [fst snd].
    rewrite filter_lanes by apply next_power_of_2_ge. rewrite ld_fn by done. apply Hshift.
  - rewrite <- list_fmap_compose. apply flat_ext. intros b Hb. unfold compose, _prepare_dflash_draft_block_contig_kernel. cbn [fst snd].
    rewrite filter_lanes by apply next_power_of_2_ge. rewrite !ld_fn by done. rewrite <- (Hshift (start b) B), <- list_fmap_compose.
    apply list_fmap_ext. intros i c Hc. apply lookup_seq in Hc as [-> Hc]. unfold compose, tl_load. cbn [Nat.add].
    specialize (Hwidth eq_refl b Hb). by rewrite (proj2 (Nat.ltb_lt _ _)) by lia.
  - rewrite <- list_fmap_compose. apply flat_ext. intros b Hb. unfold compose. by apply replace_first.
  - rewrite <- list_fmap_compose. apply flat_ext. intros b _. apply Hshift.
  - rewrite <- list_fmap_compose. apply flat_ext. intros b _. unfold compose. rewrite <- fmap_take, take_seq. f_equal. f_equal. lia.
Qed.
End prepare.
