(* ===== verification/DraftSession.v ===== *)
(** * DraftSession: a prefill and any number of decode iterations

    The theorem that composes the draft model, the preparation of its block and the appends of
    its context: over a whole session of a batch, every iteration's hidden rows are those that the
    evaluator's loop gets from the trained draft and its own cache; and an instance. *)

From Stdlib Require Import Reals Lra.
From S2P Require Import Prelude TensorOps RealLaw LatentSampler RejectKernel SpecDecode SpecDecodeProps MySpecModel DraftOps ExtendAttention LatentStage DraftLayers LatentModel LatentRows LatentAttention LatentLayers LatentForward LatentLoad LatentNames LatentTensors LatentLayerLoad LatentCheckpoint LatentLoaded LatentDraft DraftContext DraftRounds DraftStore DraftAppend.
#[local] Open Scope nat_scope.
#[local] Arguments Nat.ltb : simpl never.
#[local] Arguments Nat.leb : simpl never.
#[local] Arguments Nat.sub : simpl never.

(** ** Sessions *)

(** What the target makes of an iteration, request by request: how many rows are committed, the
    token that follows them, and the hidden rows of the verified tokens. *)
Record RoundOutcome := {
  out_commit : nat → nat;
  out_bonus : nat → nat;
  out_rows : nat → list row
}.

Definition verified_batch (bs : nat) (o : RoundOutcome) : Verified :=
  {| commit_lens := out_commit o <$> seq 0 bs; bonus_tokens := out_bonus o <$> seq 0 bs; target_hidden := Some (flat bs (out_rows o)) |}.

(** Blocks of [W] verified rows that fit below position [N]. *)
Fixpoint rounds_fit (bs W N : nat) (start : nat → nat) (os : list RoundOutcome) : Prop :=
  match os with
  | [] => True
  | o :: os =>
      (∀ b, b < bs → out_commit o b ≤ W ∧ length (out_rows o b) = W ∧ start b + W ≤ N) ∧
      rounds_fit bs W N (λ b, start b + out_commit o b) os
  end.

(** The hidden rows committed after [T]. *)
Fixpoint committed_rows (b : nat) (T : list row) (os : list RoundOutcome) : list row :=
  match os with
  | [] => T
  | o :: os => committed_rows b (T ++ take (out_commit o b) (out_rows o b)) os
  end.

(** The evaluator's side of a session: each call of the draft gets the rows committed since the last. *)
Fixpoint trained_rounds `{!TorchLinear, !Transformers} {KV : Type} `{!DynamicCache KV, !DynamicCacheRows KV} (ck : Checkpoint)
    (N b anchor : nat) (T : list row) (cached : nat) (past : KV) (os : list RoundOutcome) : result (list (list row)) :=
  match os with
  | [] => Ok []
  | o :: os =>
      '(hidden, past) ← trained_draft_block ck anchor (length T) N (drop cached T) past;
      hiddens ← trained_rounds ck N b (out_bonus o b) (T ++ take (out_commit o b) (out_rows o b)) (length T) past os;
      Ok (hidden :: hiddens)
  end.

(** A request with context [T]. *)
Definition with_context {KV : Type} (row anchor : nat) (T : list (list R)) (cached : nat) (past : KV) : DraftRequest KV :=
  {| rq_anchor := anchor; rq_start := length T; rq_hidden := T; rq_cached := cached; rq_past := past; rq_row := row |}.

(** What the options of a worker must agree on with the draft: its mask token and its embedding are the
    target's, the fused helper is on only without bias, and its buffers cover [N] positions. *)
Record worker_ok (conf : WorkerConf) (mc : ModelConfig) (ck : Checkpoint) (N bs : nat) : Prop := {
  wo_itemsize : store_itemsize (wc_append conf) = 1 ∨ store_itemsize (wc_append conf) = 2 ∨ store_itemsize (wc_append conf) = 4;
  wo_order l : program_order (wc_append conf) l ≡ₚ l;
  wo_empty n : length (wc_torch_empty conf n) = n;
  wo_mask : wc_mask_token_id conf = ck_mask_token_id ck;
  wo_embed t : embed_module conf t = ck_embed_tokens ck t;
  wo_scale : noise_embed_scale conf = None;
  wo_align : 0 < rope_align (wc_append conf);
  wo_fused : use_fused_kv_materialize conf = true → attention_bias mc = false;
  wo_context : N ≤ context_len conf + (ck_block_size ck + 1);
  wo_graph : match graph_buffers conf with
    | None => True
    | Some buffers => ∃ max_bs,
        let init := latentspec_cuda_graph_buffers (ck_num_latent_tokens ck) max_bs (max_context_len conf) in
        bs ≤ max_bs ∧ N ≤ max_context_len conf ∧ take 1 buffers.1.1 = [0] ∧ take 1 buffers.2.1 = [0] ∧
        length buffers.1.2 = length init.1.2 ∧ length buffers.2.2 = length init.2.2
    end
}.

Lemma sum_list_le (f g : nat → nat) n : (∀ b, f b ≤ g b) → sum_list (f <$> seq 0 n) ≤ sum_list (g <$> seq 0 n).
Proof.
  intros Hfg. induction (seq 0 n) as [|b l IH]; [done|]. cbn. unfold Datatypes.id in *. specialize (Hfg b). lia.
Qed.

Section session.
Context `{!TorchLinear, !TorchLinearLaws, !Transformers} (ck : Checkpoint) (mc : ModelConfig) `{!TransformersLaws (mc_rope_theta mc) (ck_config ck)}.
Context {KV : Type} `{!DynamicCache KV, !DynamicCacheRows KV, !DynamicCacheRowsLaws KV}.
Context (half N bs : nat) (dev : Device) (fused_table : bool) (conf : WorkerConf).
Context (req_to_token : list (list nat)) (row_of from : nat → nat).
Notation cfg := (ck_config ck).
Notation L := (ck_num_latent_tokens ck).
Notation B := (ck_block_size ck).
Notation m := (packed_model ck (mc_rope_theta mc) fused_table (mc_is_causal mc)).
Notation rslot b n := (ld (default [] (req_to_token !! row_of b)) n).

Hypothesis Hck : checkpoint_ok (attention_bias mc) half ck.
Hypothesis Hcausal : mc_is_causal mc ≠ Some true.
Hypothesis Hgrid : ∀ l, grid_order dev l ≡ₚ l.
Hypothesis Hlanes : ∀ l, lane_order dev l ≡ₚ l.
Hypothesis Hconf : worker_ok conf mc ck N bs.
Hypothesis Hrow : 0 < num_key_value_heads cfg * head_dim cfg.
Hypothesis Hprivate : slots_private bs (λ b n, rslot b n) from N.
Hypothesis Hwidth : N ≤ length (row2 req_to_token 0).

(** *** The pool after an append *)

Lemma ctx_append a T Y : ctx_k cfg a (context_hidden ck (T ++ Y)) = ctx_k cfg a (context_hidden ck T) ++ rows_k ck a (seq (length T) (length Y)) Y ∧
  ctx_v cfg a (context_hidden ck (T ++ Y)) = ctx_v cfg a (context_hidden ck T) ++ rows_v ck a Y.
Proof.
  unfold ctx_k, ctx_v, rows_k, rows_v, values, context_hidden. rewrite !fmap_app, !length_app, !length_fmap. split; [|done].
  rewrite seq_app, heads_at_app by (by rewrite length_seq, !length_fmap). done.
Qed.

Lemma draft_cached_app n T Y (past : KV) : n ≤ length T → draft_cached ck n T past → draft_cached ck n (T ++ Y) past.
Proof.
  intros Hn Hc j a Ha. specialize (Hc j a Ha). unfold cached in *. rewrite Hc. destruct (ctx_append a T Y) as [-> ->].
  assert (Hl : length (context_hidden ck T) = length T) by apply length_fmap.
  by rewrite !take_app_le by (rewrite ?length_ctx_k, ?length_ctx_v; lia).
Qed.

Lemma pool_extended (rq rq' : nat → DraftRequest KV) Y pool pool' :
  (∀ b, b < bs → rq_row (rq b) = row_of b ∧ from b ≤ rq_start (rq b) ∧ length (rq_hidden (rq b)) = rq_start (rq b) ∧ rq_start (rq b) + length (Y b) ≤ N) →
  (∀ b, b < bs → rq_row (rq' b) = row_of b ∧ rq_start (rq' b) = rq_start (rq b) + length (Y b) ∧ rq_hidden (rq' b) = rq_hidden (rq b) ++ Y b) →
  pool_holds ck bs rq req_to_token pool →
  batch_stored ck bs pool pool' (flat bs (λ b, (λ n, rslot b n) <$> seq (rq_start (rq b)) (length (Y b)))) (λ b, rq_start (rq b)) Y →
  pool_holds ck bs rq' req_to_token pool'.
Proof.
  intros Hrq Hrq' Hp Hs j a b Ha Hb. destruct (Hrq' b Hb) as (Hr' & Hst & Hh), (Hrq b Hb) as (Hr & _ & Hl & _).
  rewrite Hst, Hh. destruct (ctx_append a (rq_hidden (rq b)) (Y b)) as [-> ->]. destruct (Hp j a b Ha Hb) as [<- <-].
  unfold slot. rewrite Hr, Hr', Hl.
  assert (Hrange : ∀ b, b < bs → from b ≤ rq_start (rq b) ∧ rq_start (rq b) + length (Y b) ≤ N) by (intros b' Hb'; by destruct (Hrq b' Hb') as (_ & ? & _ & ?)).
  split.
  - rewrite <- (stored_extends bs (λ b n, rslot b n) from (λ b, rq_start (rq b)) (λ b, length (Y b)) N Hprivate Hrange
      (k_buffer pool j) (λ b, rows_k ck a (seq (rq_start (rq b)) (length (Y b))) (Y b)) b Hb).
    + apply list_fmap_ext. intros i n _. by apply (Hs j a Ha).
    + intros b' _. apply length_rows_k, length_seq.
  - rewrite <- (stored_extends bs (λ b n, rslot b n) from (λ b, rq_start (rq b)) (λ b, length (Y b)) N Hprivate Hrange
      (v_buffer pool j) (λ b, rows_v ck a (Y b)) b Hb).
    + apply list_fmap_ext. intros i n _. by apply (Hs j a Ha).
    + intros b' _. apply length_rows_v.
Qed.
(** *** The metadata *)

Lemma metadata_mode_ok (starts : nat → nat) : (∀ b, b < bs → starts b ≤ N) →
  mode_ok L bs (starts <$> seq 0 bs) (metadata_mode m conf (starts <$> seq 0 bs)).
Proof.
  intros Hs. unfold metadata_mode. destruct Hconf as [_ _ Hempty _ _ _ _ _ _ Hg]. destruct (graph_buffers conf) as [buffers|].
  - destruct Hg as (max_bs & Hb & Hmax & G1 & G2 & G3 & G4). exists max_bs, (max_context_len conf). split_and!; try done.
    apply Forall_fmap, Forall_forall. intros b Hb'%elem_of_seq. specialize (Hs b ltac:(lia)). cbn. lia.
  - split; [done|]. rewrite psum_all, <- list_fmap_compose. apply sum_list_le. intros b. unfold compose. lia.
Qed.

(** *** One iteration *)

Record between (fused : option FusedKVMaterializeHelper) (rq : nat → DraftRequest KV) (st : RoundState) : Prop := {
  bt_lens : rs_seq_lens st = (λ b, rq_start (rq b)) <$> seq 0 bs;
  bt_bonus : rs_bonus st = (λ b, rq_anchor (rq b)) <$> seq 0 bs;
  bt_fused : rs_fused st = fused;
  bt_pool : pool_holds ck bs rq req_to_token (rs_pool st);
  bt_request b : b < bs → rq_row (rq b) = row_of b ∧ from b ≤ rq_start (rq b) ∧ length (rq_hidden (rq b)) = rq_start (rq b) ∧
    rq_cached (rq b) ≤ rq_start (rq b) ∧ draft_cached ck (rq_cached (rq b)) (rq_hidden (rq b)) (rq_past (rq b))
}.

Context (fused : option FusedKVMaterializeHelper).
Hypothesis Hfused : fused_ok (mc_rope_theta mc) ck fused_table (mc_is_causal mc) (attention_bias mc) N fused.

(** The draft's part: the block's buffers are the batch of [LatentForward]. *)
Lemma draft_part rq st : between fused rq st → (∀ b, b < bs → rq_start (rq b) + (B + 1) ≤ N) →
  ∃ (hid : nat → list row) (past' : nat → KV) pool1,
    served_forward dev m (Some (init_forward_metadata (lane_order dev) L B (metadata_mode m conf (rs_seq_lens st)) bs req_to_token
        (row_of <$> seq 0 bs) (rs_seq_lens st))) bs
      (flat bs (λ b, rq_anchor (rq b) :: replicate (B - 1) (ck_mask_token_id ck))) (flat bs (λ b, seq (rq_start (rq b)) B))
      (flat bs (λ b, (λ n, rslot b n) <$> seq (rq_start (rq b)) B))
      (Some (embed_module conf <$> flat bs (λ b, rq_anchor (rq b) :: replicate (B - 1) (ck_mask_token_id ck)))) (rs_pool st) = Ok (flat bs hid, pool1) ∧
    pool_holds ck bs rq req_to_token pool1 ∧
    ∀ b, b < bs →
      trained_draft_block ck (rq_anchor (rq b)) (rq_start (rq b)) N (drop (rq_cached (rq b)) (rq_hidden (rq b))) (rq_past (rq b)) = Ok (hid b, past' b) ∧
      draft_cached ck (rq_start (rq b)) (rq_hidden (rq b)) (past' b).
Proof.
  intros [Hlens Hbonus Hfu Hpool Hreq] Hroom. pose proof (co_latent_tokens _ _ _ Hck) as [HL HB].
  assert (Hrq : ∀ b, b < bs → request_ok ck N (rq b)).
  { intros b Hb. destruct (Hreq b Hb) as (_ & _ & ? & ? & ?). split; try done. specialize (Hroom b Hb). lia. }
  assert (Eslot : ∀ b n, b < bs → slot rq req_to_token b n = rslot b n) by (intros b n Hb; unfold slot; by destruct (Hreq b Hb) as (-> & _)).
  assert (Erows : batch_rows_ids bs rq = row_of <$> seq 0 bs).
  { apply list_fmap_ext. intros i b Hb. apply lookup_seq in Hb as [-> Hb]. by destruct (Hreq i Hb). }
  assert (Elocs : ∀ count, flat bs (λ b, slot rq req_to_token b <$> seq (rq_start (rq b)) count) = flat bs (λ b, (λ n, rslot b n) <$> seq (rq_start (rq b)) count)).
  { intros count. apply flat_ext. intros b Hb. apply list_fmap_ext. intros i n _. by apply Eslot. }
  assert (Hfree : latent_slots_free ck bs rq req_to_token).
  { assert (Hr : ∀ b, b < bs → from b ≤ rq_start (rq b) ∧ rq_start (rq b) + L ≤ N).
    { intros b Hb. destruct (Hreq b Hb) as (_ & ? & _). specialize (Hroom b Hb). lia. }
    split; unfold latent_locs; rewrite Elocs.
    - by apply (private_nodup bs (λ b n, rslot b n) from (λ b, rq_start (rq b)) (λ _, L) N).
    - intros b n Hb Hn. rewrite Eslot by done. by apply (private_fresh bs (λ b n, rslot b n) from (λ b, rq_start (rq b)) (λ _, L) N). }
  rewrite Hlens.
  destruct (mode_buffers (lane_order dev) L B (metadata_mode m conf (batch_seq_lens bs rq)) bs req_to_token (row_of <$> seq 0 bs) (batch_seq_lens bs rq))
    as (lb & pb & E & Hl0 & Hp0 & Hlcap & Hpcap).
  { unfold batch_seq_lens. by rewrite length_fmap, length_seq. }
  { apply metadata_mode_ok. intros b Hb. specialize (Hroom b Hb). lia. }
  fold (batch_seq_lens bs rq). rewrite E.
  destruct (served_forward_ok (mc_rope_theta mc) ck bs rq req_to_token (attention_bias mc) half N Hck Hrq dev fused_table (mc_is_causal mc) Hcausal Hgrid Hlanes
    lb pb (Some (embed_module conf <$> batch_ids ck bs rq)) (rs_pool st) Hl0 Hp0 Hlcap Hpcap) as (hid & past' & pool1 & Ef & Hp1 & Htr); [|done|done|].
  { apply list_fmap_ext. intros i t _. apply (wo_embed _ _ _ _ _ Hconf). }
  exists hid, past', pool1. unfold batch_locs in Ef. rewrite Elocs, Erows in Ef. split; [exact Ef|]. split; [done|].
  intros b Hb. by destruct (Htr b Hb) as (? & _ & ?).
Qed.

(** The next state of a request. *)
Definition next_request (o : RoundOutcome) (rq : nat → DraftRequest KV) (past' : nat → KV) (b : nat) : DraftRequest KV :=
  with_context (row_of b) (out_bonus o b) (rq_hidden (rq b) ++ take (out_commit o b) (out_rows o b)) (rq_start (rq b)) (past' b).

Lemma decode_step_ok rq st o : between fused rq st →
  (∀ b, b < bs → out_commit o b ≤ B + 1 ∧ length (out_rows o b) = B + 1 ∧ rq_start (rq b) + (B + 1) ≤ N) →
  ∃ (hid : nat → list row) (past' : nat → KV) st',
    decode_step dev m conf req_to_token (row_of <$> seq 0 bs) st (verified_batch bs o) = Ok (flat bs hid, st') ∧
    (∀ b, b < bs → trained_draft_block ck (rq_anchor (rq b)) (rq_start (rq b)) N (drop (rq_cached (rq b)) (rq_hidden (rq b))) (rq_past (rq b)) = Ok (hid b, past' b)) ∧
    between fused (next_request o rq past') st'.
Proof.
  intros Hbt Ho. destruct (draft_part rq st Hbt) as (hid & past' & pool1 & Ef & Hp1 & Htr); [intros b Hb; by apply Ho|].
  destruct Hbt as [Hlens Hbonus Hfu Hpool Hreq]. pose proof (co_latent_tokens _ _ _ Hck) as [HL HB].
  destruct (prepare_draft_block_ok (lane_order dev) (wc_torch_empty conf) bs Hlanes (wo_empty _ _ _ _ _ Hconf) req_to_token row_of (λ b, rq_start (rq b))
    (λ b, rq_anchor (rq b)) B (ck_mask_token_id ck) (use_triton_prepare_block conf)) as (P1 & P2 & P3 & P4 & P5); [lia| |].
  { intros _ b Hb. destruct (Ho b Hb) as (_ & _ & ?). lia. }
  destruct (append_blocks (mc_rope_theta mc) ck fused_table (mc_is_causal mc) (attention_bias mc) half Hck (wc_append conf)
    (wo_itemsize _ _ _ _ _ Hconf) Hrow (wo_order _ _ _ _ _ Hconf) bs N (B + 1) fused pool1 (λ b, (λ n, rslot b n) <$> seq (rq_start (rq b)) (B + 1))
    (λ b, rq_start (rq b)) (out_commit o) (out_rows o) Hfused) as (pool2 & Ea & Hs).
  { intros b Hb. destruct (Ho b Hb) as (? & ? & ?). by rewrite length_fmap, length_seq. }
  { assert (Hr : ∀ b, b < bs → from b ≤ rq_start (rq b) ∧ rq_start (rq b) + out_commit o b ≤ N).
    { intros b Hb. destruct (Hreq b Hb) as (_ & ? & _). specialize (Ho b Hb). lia. }
    pose proof (private_nodup bs (λ b n, rslot b n) from (λ b, rq_start (rq b)) (out_commit o) N Hprivate Hr) as Hnd.
    rewrite (flat_ext bs _ (λ b, (λ n, rslot b n) <$> seq (rq_start (rq b)) (out_commit o b))); [done|].
    intros b Hb. rewrite <- fmap_take, take_seq. destruct (Ho b Hb). by rewrite Nat.min_l. }
  exists hid, past', {| rs_pool := pool2; rs_fused := fused; rs_bonus := out_bonus o <$> seq 0 bs;
                        rs_seq_lens := zip_with Nat.add ((λ b, rq_start (rq b)) <$> seq 0 bs) (out_commit o <$> seq 0 bs) |}.
  split; [|split; [intros b Hb; by apply Htr|]].
  - unfold decode_step. rewrite Hlens, Hbonus, (wo_mask _ _ _ _ _ Hconf), (wo_scale _ _ _ _ _ Hconf). cbn [proposal_size packed_model sm_latent_tokens].
    cbv zeta. rewrite P1, P2, P3, P4, P5. rewrite Hlens in Ef. rewrite length_fmap, length_seq. cbn [proposal_size packed_model sm_latent_tokens] in Ef.
    rewrite Ef. cbn [mbind result_bind]. fold (flat bs (λ b, (λ n, rslot b n) <$> seq (rq_start (rq b)) (B + 1))).
    rewrite Hfu. cbn [verified_batch target_hidden commit_lens bonus_tokens]. rewrite Ea. done.
  - assert (Hc : ∀ b, b < bs → length (take (out_commit o b) (out_rows o b)) = out_commit o b).
    { intros b Hb. destruct (Ho b Hb) as (? & ? & _). rewrite length_take. lia. }
    split; cbn [rs_seq_lens rs_bonus rs_fused rs_pool]; try done.
    + rewrite zip_with_fmap_l, zip_with_fmap_r, zip_with_diag. apply list_fmap_ext. intros i b Hb. apply lookup_seq in Hb as [-> Hb]. cbn [Nat.add].
      unfold next_request. cbn. rewrite length_app, Hc by done. destruct (Hreq i Hb) as (_ & _ & Hh & _). by rewrite Hh.
    + apply (pool_extended rq _ (λ b, take (out_commit o b) (out_rows o b)) pool1); [| |done|].
      * intros b Hb. destruct (Hreq b Hb) as (? & ? & ? & _). rewrite Hc by done. destruct (Ho b Hb) as (? & _ & ?). split_and!; [done..|lia].
      * intros b Hb. destruct (Hreq b Hb) as (_ & _ & Hh & _). unfold next_request. cbn. by rewrite length_app, Hh.
      * rewrite (flat_ext bs _ (λ b, take (out_commit o b) ((λ n, rslot b n) <$> seq (rq_start (rq b)) (B + 1)))); [done|].
        intros b Hb. rewrite Hc by done. rewrite <- fmap_take, take_seq. destruct (Ho b Hb). by rewrite Nat.min_l.
    + intros b Hb. destruct (Hreq b Hb) as (_ & ? & Hh & _ & _). destruct (Htr b Hb) as [_ Hd]. unfold next_request. cbn. rewrite length_app, Hh.
      split_and!; [done|lia|done|lia|]. apply draft_cached_app; [by rewrite Hh|done].
Qed.

Lemma decode_steps_ok os : ∀ rq st, between fused rq st → rounds_fit bs (B + 1) N (λ b, rq_start (rq b)) os →
  ∃ (hids : list (nat → list row)) st' rq',
    decode_steps dev m conf req_to_token (row_of <$> seq 0 bs) st (verified_batch bs <$> os) = Ok (flat bs <$> hids, st') ∧
    (∀ b, b < bs → trained_rounds ck N b (rq_anchor (rq b)) (rq_hidden (rq b)) (rq_cached (rq b)) (rq_past (rq b)) os = Ok ((λ h, h b) <$> hids)) ∧
    between fused rq' st' ∧ ∀ b, b < bs → rq_hidden (rq' b) = committed_rows b (rq_hidden (rq b)) os.
Proof.
  induction os as [|o os IH]; intros rq st Hbt Hfit; [by exists [], st, rq|]. destruct Hfit as [Ho Hfit].
  destruct (decode_step_ok rq st o Hbt Ho) as (hid & past' & st1 & E1 & Htr & Hbt1).
  assert (Hh : ∀ b, b < bs → length (rq_hidden (rq b)) = rq_start (rq b)) by (intros b Hb; by apply (bt_request _ _ _ Hbt b Hb)).
  destruct (IH (next_request o rq past') st1 Hbt1) as (hids & st' & rq' & E & Htrs & Hbt' & Hrows).
  { assert (G : ∀ os s s', (∀ b, b < bs → s b = s' b) → rounds_fit bs (B + 1) N s os → rounds_fit bs (B + 1) N s' os).
    { clear. induction os as [|o os IH]; intros s s' Hs; [done|]. intros [Ho Hf]. split; [intros b Hb; rewrite <- Hs by done; by apply Ho|].
      eapply IH; [|exact Hf]. intros b Hb. cbn. by rewrite Hs. }
    eapply G; [|exact Hfit]. intros b Hb. unfold next_request. cbn. destruct (Ho b Hb) as (? & ? & _). rewrite length_app, length_take, Hh by done. lia. }
  exists (hid :: hids), st', rq'. split; [|split; [|split; [done|]]].
  - rewrite !fmap_cons. cbn [decode_steps]. rewrite E1. cbn [mbind result_bind]. rewrite E. done.
  - intros b Hb. cbn [trained_rounds]. rewrite (Hh b Hb), (Htr b Hb). cbn [mbind result_bind].
    specialize (Htrs b Hb). unfold next_request in Htrs. cbn in Htrs. rewrite Htrs. done.
  - intros b Hb. rewrite (Hrows b Hb). done.
Qed.

(** *** The prefill *)

Lemma prefill_ok (prefix rows : nat → list row) (next : nat → nat) (past0 : nat → KV) pool :
  (∀ b, b < bs → length (prefix b) + length (rows b) ≤ N ∧ from b ≤ length (prefix b)) → (∀ b l, cache_rows l (past0 b) = ([], [])) →
  pool_holds ck bs (λ b, with_context (row_of b) 0 (prefix b) 0 (past0 b)) req_to_token pool →
  ∃ st,
    prefill_step dev m conf
      {| prefix_lens := (λ b, length (prefix b)) <$> seq 0 bs; extend_lens := (λ b, length (rows b)) <$> seq 0 bs;
         seq_lens := (λ b, length (prefix b ++ rows b)) <$> seq 0 bs;
         out_cache_loc := flat bs (λ b, (λ n, rslot b n) <$> seq (length (prefix b)) (length (rows b))) |}
      (next <$> seq 0 bs) (Some (flat bs rows)) pool fused = Ok st ∧
    between fused (λ b, with_context (row_of b) (next b) (prefix b ++ rows b) 0 (past0 b)) st.
Proof.
  intros Hlen Hpast Hpool. unfold prefill_step. cbn [prefix_lens extend_lens seq_lens out_cache_loc].
  rewrite (prefill_positions_ok (lane_order dev) (wc_torch_empty conf) bs Hlanes (wo_empty _ _ _ _ _ Hconf)).
  destruct (append_rows (mc_rope_theta mc) ck fused_table (mc_is_causal mc) (attention_bias mc) half Hck (wc_append conf)
    (wo_itemsize _ _ _ _ _ Hconf) Hrow (wo_order _ _ _ _ _ Hconf) bs N fused pool (λ b, (λ n, rslot b n) <$> seq (length (prefix b)) (length (rows b)))
    (λ b, length (prefix b)) rows Hfused) as (pool1 & Ea & Hs).
  { intros b Hb. rewrite length_fmap, length_seq. split; [done|by apply Hlen]. }
  rewrite Ea. cbn [mbind result_bind]. eexists. split; [done|]. split; cbn [rs_seq_lens rs_bonus rs_fused rs_pool with_context rq_start rq_anchor]; try done.
  - apply (pool_extended (λ b, with_context (row_of b) 0 (prefix b) 0 (past0 b)) _ rows pool); [| |done|done].
    + intros b Hb. cbn. destruct (Hlen b Hb). done.
    + intros b Hb. cbn. by rewrite length_app.
  - intros b Hb. cbn. destruct (Hlen b Hb). rewrite length_app. split_and!; [done|lia|done|lia|].
    intros j a _. unfold cached. rewrite Hpast, !take_0. done.
Qed.
End session.

Section init.
Context `{!TorchLinear, !TorchLinearLaws, !Transformers} (ck : Checkpoint) (mc : ModelConfig).

Lemma init_helper_ok half N bs fused_table conf : checkpoint_ok (attention_bias mc) half ck → worker_ok conf mc ck N bs →
  0 < num_key_value_heads (ck_config ck) * head_dim (ck_config ck) →
  fused_ok (mc_rope_theta mc) ck fused_table (mc_is_causal mc) (attention_bias mc) N
    (_init_fused_kv_helper (packed_model ck (mc_rope_theta mc) fused_table (mc_is_causal mc)) conf).
Proof.
  intros Hck Hconf Hrow. unfold _init_fused_kv_helper. destruct (use_fused_kv_materialize conf) eqn:Hu; [|done]. cbn [negb orb].
  destruct (_ =? 0); [done|]. set (m := packed_model _ _ _ _).
  destruct (new_helper_ok m half (co_dim _ _ _ Hck) (rope_align (wc_append conf)) (max_position_embeddings conf) (context_len conf + (proposal_size m + 1)))
    as (h & E & Hh); [apply (wo_align _ _ _ _ _ Hconf)|change (hd m) with (head_dim (ck_config ck)); lia|].
  rewrite E. split; [by apply (wo_fused _ _ _ _ _ Hconf)|]. destruct Hh as [? ? ? ? ? ? ? (p & ? & ? & ?) ? ?]. split; try done.
  exists p. split_and!; [done| |done]. pose proof (wo_context _ _ _ _ _ Hconf). cbn in *. lia.
Qed.
End init.

(** ** The theorem *)

(** A session of [bs] requests: [prefix b] are the hidden rows of the positions whose draft context is in the pool
    when the prefill begins, with their slots perhaps shared, [rows b] those of the prefill, and [os] the iterations. *)
Record draft_session_ok `{!TorchLinear, !Transformers} {KV : Type} `{!DynamicCacheRows KV} (ck : Checkpoint) (N bs : nat)
    (req_to_token : list (list nat)) (row_of : nat → nat) (prefix rows : nat → list row) (past0 : nat → KV) (os : list RoundOutcome) (pool : KVPool) : Prop := {
  ss_row : 0 < num_key_value_heads (ck_config ck) * head_dim (ck_config ck);
  ss_private : slots_private bs (λ b n, ld (default [] (req_to_token !! row_of b)) n) (λ b, length (prefix b)) N;
  ss_width : N ≤ length (row2 req_to_token 0);
  ss_prefill b : b < bs → length (prefix b) + length (rows b) ≤ N;
  ss_rounds : rounds_fit bs (ck_block_size ck + 1) N (λ b, length (prefix b ++ rows b)) os;
  ss_past b l : cache_rows l (past0 b) = ([], []);
  ss_pool : pool_holds ck bs (λ b, with_context (row_of b) 0 (prefix b) 0 (past0 b)) req_to_token pool
}.

(** The batch of the prefill. *)
Definition session_batch (bs : nat) (req_to_token : list (list nat)) (row_of : nat → nat) (prefix rows : nat → list row) : ExtendBatch :=
  {| prefix_lens := (λ b, length (prefix b)) <$> seq 0 bs; extend_lens := (λ b, length (rows b)) <$> seq 0 bs;
     seq_lens := (λ b, length (prefix b ++ rows b)) <$> seq 0 bs;
     out_cache_loc :=
       flat bs (λ b, (λ n, ld (default [] (req_to_token !! row_of b)) n) <$> seq (length (prefix b)) (length (rows b))) |}.

(** C6: The served draft stays exact over whole sessions.  After loading a checkpoint, a prefill of a batch of requests
    (on top of prefixes whose context is already in the pool) and any number of decode iterations do not raise,
    whatever the target commits, says and returns as hidden rows in each: with or without a GPU, with the fused or the per-layer
    materialisation, the Triton or the eager block preparation, a captured graph or eager metadata, any order of
    programs and any content of fresh buffers.  Every iteration's hidden rows are, request by request, those that the evaluator's loop gets by
    calling the trained draft with its own cache, cropped after each call, and the rows committed since.  At the
    end the pool holds the draft context of every committed row. *)
Theorem latentspec_session_exact `{!TorchLinear, !TorchLinearLaws, !Transformers} {KV : Type}
    `{!DynamicCache KV, !DynamicCacheRows KV, !DynamicCacheRowsLaws KV}
    (mc : ModelConfig) (ck : Checkpoint) `{!TransformersLaws (mc_rope_theta mc) (ck_config ck)}
    (content : string → nat → nat → R) (weights : list (string * Tensor)) (half N bs : nat) (dev : Device) (fused_table : bool)
    (conf : WorkerConf) (req_to_token : list (list nat)) (row_of next : nat → nat) (prefix rows : nat → list row)
    (past0 : nat → KV) (os : list RoundOutcome) (pool : KVPool)
    (Hck : checkpoint_shaped mc ck) (Hlayers : layers_served half ck) (Hcausal : mc_is_causal mc ≠ Some true)
    (Hweights : is_checkpoint ck weights)
    (Hgrid : ∀ l, grid_order dev l ≡ₚ l) (Horder : ∀ l, lane_order dev l ≡ₚ l)
    (Hconf : worker_ok conf mc ck N bs)
    (Hsession : draft_session_ok ck N bs req_to_token row_of prefix rows past0 os pool) :
  ∃ (m : ServedModel) (hids : list (nat → list row)) (st : RoundState) (final : nat → DraftRequest KV),
    load_weights mc content fused_table weights = Ok m ∧
    serve_batch dev m conf req_to_token (row_of <$> seq 0 bs) (session_batch bs req_to_token row_of prefix rows) (next <$> seq 0 bs)
      (Some (flat bs rows)) (verified_batch bs <$> os) pool = Ok (flat bs <$> hids, st) ∧
    (∀ b, b < bs → trained_rounds ck N b (next b) (prefix b ++ rows b) 0 (past0 b) os = Ok ((λ h, h b) <$> hids)) ∧
    pool_holds ck bs final req_to_token (rs_pool st) ∧
    ∀ b, b < bs → rq_row (final b) = row_of b ∧ rq_hidden (final b) = committed_rows b (prefix b ++ rows b) os ∧
      rq_start (final b) = length (rq_hidden (final b)).
Proof.
  destruct Hsession as [Hrow Hprivate Hwidth Hprefill Hrounds Hpast Hpool]. pose proof (served_checkpoint_ok mc half ck Hck Hlayers) as Hok.
  exists (packed_model ck (mc_rope_theta mc) fused_table (mc_is_causal mc)).
  pose proof (load_weights_ok mc ck fused_table Hck content weights Hweights (sl_some _ _ Hlayers)) as Hload.
  pose proof (init_helper_ok ck mc half N bs fused_table conf Hok Hconf Hrow) as Hfused.
  destruct (prefill_ok ck mc half N bs dev fused_table conf req_to_token row_of (λ b, length (prefix b)) Hok Horder Hconf Hrow Hprivate Hwidth
    _ Hfused prefix rows next past0 pool (λ b Hb, conj (Hprefill b Hb) (le_n _)) Hpast Hpool) as (st0 & E0 & Hbt0).
  destruct (decode_steps_ok ck mc half N bs dev fused_table conf req_to_token row_of (λ b, length (prefix b)) Hok Hcausal Hgrid Horder Hconf Hrow Hprivate Hwidth
    _ Hfused os _ st0 Hbt0 Hrounds) as (hids & st & final & E & Htr & Hbt & Hrows).
  destruct Hbt as [_ _ _ Hpool' Hreq]. exists hids, st, final. split; [done|]. split; [|split; [exact Htr|split; [exact Hpool'|]]].
  - unfold serve_batch, session_batch. rewrite E0. exact E.
  - intros b Hb. destruct (Hreq b Hb) as (? & _ & ? & _). split_and!; [done|exact (Hrows b Hb)|done].
Qed.

(** ** An instance *)

(** The fused materialisation on a GPU, with Triton's block preparation and eager metadata. *)
Definition tiny_conf : WorkerConf :=
  {| wc_append := {| is_gpu := true; store_itemsize := 2; rope_align := 128; program_order := reverse;
                     kv_workspace := (λ _ _ _, [], λ _ _ _, []) |};
     wc_torch_empty := λ n, replicate n 0; use_triton_prepare_block := true; wc_mask_token_id := 8;
     embed_module := ck_embed_tokens tiny_checkpoint; noise_embed_scale := None; use_fused_kv_materialize := true; context_len := 4;
     max_position_embeddings := 4; prefill_attention_backend_str := "triton"; graph_buffers := None; max_context_len := 8 |}.

(** One row of the prompt, then two iterations that commit one and two rows. *)
Definition tiny_rounds : list RoundOutcome :=
  [ {| out_commit := λ _, 1; out_bonus := λ _, 4; out_rows := λ _, [[1%R; 5%R]; [0%R; 0%R]] |};
    {| out_commit := λ _, 2; out_bonus := λ _, 6; out_rows := λ _, [[2%R; 2%R]; [4%R; 1%R]] |} ].

Definition zero_pool : KVPool := {| k_buffer := λ _ _, []; v_buffer := λ _ _, [] |}.

Lemma tiny_worker_ok : worker_ok tiny_conf tiny_model tiny_checkpoint 4 1.
Proof. split; cbn; try done; try lia; auto; intros *; [apply reverse_Permutation|apply length_replicate]. Qed.

Lemma tiny_session_ok :
  @draft_session_ok linear_formula (transformers_formula 10000 tiny_config) LayerCache _ tiny_checkpoint 4 1 [[3; 4; 5; 6]] (λ _, 0) (λ _, []) (λ _, [[2%R; 3%R]])
    (λ _, new_cache) tiny_rounds zero_pool.
Proof.
  split; cbn; try done; try lia.
  - intros [|b] n [|b'] n' Hb Hb' Hn Hn' E; try lia. split; [done|]. cbn in E.
    do 4 (destruct n as [|n]; [do 4 (destruct n' as [|n']; [done || discriminate|]); lia|]). lia.
  - by repeat split; cbn; intros; try lia.
Qed.

Lemma latentspec_session_exact_witness :
  let tr := transformers_formula 10000 tiny_config in
  let rt := [[3; 4; 5; 6]] in
  ∃ (m : ServedModel) (hids : list (nat → list row)) (st : RoundState) (final : nat → DraftRequest LayerCache),
    load_weights tiny_model (λ _ _ _, 3%R) true tiny_weights = Ok m ∧
    serve_batch tiny_device m tiny_conf rt [0] (session_batch 1 rt (λ _, 0) (λ _, []) (λ _, [[2%R; 3%R]])) [5]
      (Some [[2%R; 3%R]]) (verified_batch 1 <$> tiny_rounds) zero_pool = Ok (flat 1 <$> hids, st) ∧
    (∀ b, b < 1 → @trained_rounds linear_formula tr LayerCache _ _ tiny_checkpoint 4 b 5 [[2%R; 3%R]] 0 new_cache tiny_rounds = Ok ((λ h, h b) <$> hids)) ∧
    @pool_holds linear_formula tr tiny_checkpoint LayerCache 1 final rt (rs_pool st) ∧
    ∀ b, b < 1 → rq_row (final b) = 0 ∧ rq_hidden (final b) = [[2%R; 3%R]; [1%R; 5%R]; [2%R; 2%R]; [4%R; 1%R]] ∧
      rq_start (final b) = length (rq_hidden (final b)).
Proof.
  refine (@latentspec_session_exact linear_formula linear_formula_laws (transformers_formula 10000 tiny_config)
    LayerCache layer_cache layer_cache_rows layer_cache_laws tiny_model tiny_checkpoint (transformers_formula_laws 10000 tiny_config)
    (λ _ _ _, 3%R) tiny_weights 1 4 1 tiny_device true tiny_conf [[3; 4; 5; 6]] (λ _, 0) (λ _, 5) (λ _, []) (λ _, [[2%R; 3%R]])
    (λ _, new_cache) tiny_rounds zero_pool tiny_checkpoint_shaped tiny_layers_served _ tiny_is_checkpoint _ _ tiny_worker_ok tiny_session_ok).
  - discriminate.
  - intros l. apply reverse_Permutation.
  - intros l. apply reverse_Permutation.
Defined.
