(* ===== verification/JsonLines.v ===== *)
(** * JsonLines: the JSONL source

    [DeepSpec/deepspec/data/jsonl_dataset.py]: the byte offsets of the lines of every file, and
    access to a line by its global index.  A file is a path and its bytes; [json.loads] of a
    decoded line is a parameter.  The pickled copies of the line offsets are not modelled: the
    offsets are always computed. *)

From S2P Require Import Prelude TargetCodec.
#[local] Open Scope nat_scope.

Definition line_feed : Z := 10.

(** [mm.readline()], from the current position on. *)
Fixpoint readline (b : bytes) : bytes :=
  match b with
  | [] => []
  | x :: b => if (x =? line_feed)%Z then [x] else x :: readline b
  end.

(** The loop of [_build_all_line_starts]: the offsets and the last position. *)
Fixpoint scan_lines (fuel : nat) (mm : bytes) (pos : nat) (starts : list nat) : result (list nat * nat) :=
  match fuel with
  | 0 => Raise OutOfFuel
  | S fuel =>
      let starts := starts ++ [pos] in
      let line := readline (drop pos mm) in
      if bool_decide (line = []) then Ok (starts, pos) else scan_lines fuel mm (pos + length line) starts
  end.

(** [mmap.mmap] of an empty file raises. *)
Definition line_starts (mm : bytes) : result (list nat) :=
  _ ← py_check ValueError (negb (bool_decide (mm = [])));
  '(starts, pos) ← scan_lines (S (length mm)) mm 0 [];
  Ok (if negb (bool_decide (starts = [])) && (length mm =? pos) then removelast starts else starts).

(** [sorted(data_paths)]. *)
Fixpoint insert_path (f : string * bytes) (l : list (string * bytes)) : list (string * bytes) :=
  match l with [] => [f] | g :: l => if String.ltb f.1 g.1 then f :: g :: l else g :: insert_path f l end.
Fixpoint sorted_paths (l acc : list (string * bytes)) : list (string * bytes) :=
  match l with [] => acc | f :: l => sorted_paths l (insert_path f acc) end.

Record JsonLineDataset : Type := mkJsonLines {
  data_paths : list (string * bytes);
  line_starts_per_file : list (list nat);
  cum_counts : list nat;
  num_data : nat;
}.

(** [cum_counts.append(cum_counts[-1] + count)]. *)
Fixpoint cumulate (last : nat) (counts : list nat) : list nat :=
  match counts with [] => [] | c :: counts => (last + c) :: cumulate (last + c) counts end.

Definition jsonlines_init (paths : list (string * bytes)) : result JsonLineDataset :=
  let files := sorted_paths paths [] in
  starts ← mapM (λ f : string * bytes, line_starts f.2) files;
  let counts := 0 :: cumulate 0 (length <$> starts) in
  Ok (mkJsonLines files starts counts (List.last counts 0)).

(** [bisect.bisect_right] on a sorted list: the number of leading elements up to [x]. *)
Fixpoint bisect_right (l : list nat) (x : nat) : nat :=
  match l with [] => 0 | y :: l => if x <? y then 0 else S (bisect_right l x) end.

Definition map_global_to_local (ds : JsonLineDataset) (global_idx : nat) : result (nat * nat) :=
  let file_idx := bisect_right (cum_counts ds) global_idx - 1 in
  c ← match cum_counts ds !! file_idx with Some c => Ok c | None => Raise IndexError end;
  Ok (file_idx, global_idx - c).

Definition json_getline (ds : JsonLineDataset) (idx : nat) : result bytes :=
  _ ← py_check IndexError (idx <? num_data ds);
  '(file_idx, local_idx) ← map_global_to_local ds idx;
  f ← match data_paths ds !! file_idx with Some f => Ok f | None => Raise IndexError end;
  starts ← match line_starts_per_file ds !! file_idx with Some s => Ok s | None => Raise IndexError end;
  start ← match starts !! local_idx with Some s => Ok s | None => Raise IndexError end;
  Ok (readline (drop start f.2)).

(** [__getitem__]. *)
Definition json_getitem {J} (loads : bytes → result J) (ds : JsonLineDataset) (idx : nat) : result J :=
  line ← json_getline ds idx; loads line.

(** ** The lines of a file *)

Fixpoint split_lines (b : bytes) : list bytes :=
  match b with
  | [] => []
  | x :: b =>
      if (x =? line_feed)%Z then [x] :: split_lines b
      else match split_lines b with [] => [[x]] | l :: ls => (x :: l) :: ls end
  end.

Lemma split_lines_concat b : concat (split_lines b) = b.
Proof.
  induction b as [|x b IH]; [done|]. cbn. destruct (x =? line_feed)%Z; cbn; [by rewrite IH|].
  destruct (split_lines b) as [|l ls]; cbn in *; by rewrite <- IH.
Qed.

Lemma readline_nil b : readline b = [] ↔ b = [].
Proof. destruct b as [|x b]; [done|]. cbn. by destruct (x =? line_feed)%Z. Qed.

(** The first line, and what follows it. *)
Lemma split_lines_readline b : b ≠ [] → split_lines b = readline b :: split_lines (drop (length (readline b)) b).
Proof.
  induction b as [|x b IH]; intros Hb; [done|]. cbn [split_lines readline]. destruct (x =? line_feed)%Z; [done|].
  destruct b as [|y b]; [done|]. rewrite IH by done. done.
Qed.

Fixpoint starts_of (pos : nat) (ls : list bytes) : list nat :=
  match ls with [] => [] | l :: ls => pos :: starts_of (pos + length l) ls end.

Lemma starts_of_length pos ls : length (starts_of pos ls) = length ls.
Proof. revert pos. induction ls as [|l ls IH]; intros pos; cbn; [done|]. by rewrite IH. Qed.

Lemma readline_length b : length (readline b) ≤ length b.
Proof. induction b as [|x b IH]; cbn; [done|]. destruct (x =? line_feed)%Z; cbn; lia. Qed.

Lemma scan_lines_ok fuel mm pos starts :
  pos ≤ length mm → length mm - pos < fuel →
  scan_lines fuel mm pos starts = Ok (starts ++ starts_of pos (split_lines (drop pos mm)) ++ [length mm], length mm).
Proof.
  revert pos starts. induction fuel as [|fuel IH]; intros pos starts Hp Hf; [lia|]. cbn [scan_lines].
  pose proof (length_drop mm pos) as Hl. case_bool_decide as Hr.
  - apply (proj1 (readline_nil _)) in Hr. assert (pos = length mm) as -> by (rewrite Hr in Hl; change (length (@nil Z)) with 0 in Hl; lia). by rewrite drop_all.
  - assert (Hd : drop pos mm ≠ []) by (intros E; apply Hr; by rewrite E). pose proof (readline_length (drop pos mm)) as Hle.
    assert (0 < length (readline (drop pos mm))) by (destruct (readline (drop pos mm)); [done|cbn; lia]).
    rewrite IH by lia. rewrite (split_lines_readline (drop pos mm)) by done. cbn [starts_of]. rewrite drop_drop.
    by rewrite <- !app_assoc.
Qed.

Lemma line_starts_ok mm : mm ≠ [] → line_starts mm = Ok (starts_of 0 (split_lines mm)).
Proof.
  intros Hmm. unfold line_starts. rewrite bool_decide_false by done. cbn [negb py_check mbind result_bind].
  rewrite scan_lines_ok by lia. cbn [mbind result_bind app]. rewrite drop_0, Nat.eqb_refl, bool_decide_false by (by destruct (starts_of _ _)).
  cbn [negb andb]. by rewrite removelast_app, app_nil_r.
Qed.

(** The [k]-th offset is where the [k]-th line starts. *)
Lemma readline_at mm k l :
  split_lines mm !! k = Some l → ∃ p, starts_of 0 (split_lines mm) !! k = Some p ∧ readline (drop p mm) = l.
Proof.
  assert (Hgen : ∀ n pos b, length b ≤ n → b = drop pos mm → split_lines b !! k = Some l →
    ∃ p, starts_of pos (split_lines b) !! k = Some p ∧ readline (drop p mm) = l).
  { induction k as [|k IH]; intros n pos b Hn Hb Hk.
    - destruct (decide (b = [])) as [->|Hne]; [done|]. rewrite (split_lines_readline b Hne) in *. cbn in Hk. injection Hk as <-.
      exists pos. by rewrite Hb.
    - destruct (decide (b = [])) as [->|Hne]; [done|]. rewrite (split_lines_readline b Hne) in *. cbn in Hk. cbn [starts_of lookup list_lookup].
      apply (IH (length (drop (length (readline b)) b)) (pos + length (readline b)) (drop (length (readline b)) b)); [done| |done].
      rewrite Hb. by rewrite drop_drop. }
  intros Hk. by apply (Hgen (length mm) 0 mm).
Qed.

(** ** Global indices *)

Lemma bisect_cumulate last counts x :
  last ≤ x → x < last + sum_list counts →
  ∃ k c, bisect_right (cumulate last counts) x = k ∧ counts !! k = Some c ∧
    last + sum_list (take k counts) ≤ x < last + sum_list (take k counts) + c ∧
    (last :: cumulate last counts) !! k = Some (last + sum_list (take k counts)).
Proof.
  revert last. induction counts as [|c counts IH]; intros last Hl Hx; cbn [sum_list] in *; [cbn in Hx; lia|]. cbn [cumulate bisect_right].
  destruct (Nat.ltb_spec x (last + c)).
  - exists 0, c. cbn. rewrite Nat.add_0_r. split_and!; (done || lia).
  - destruct (IH (last + c)) as (k & c' & E & Hk & Hr & Hc); [lia|cbn in Hx; lia|]. exists (S k), c'. rewrite E.
    cbn [take sum_list lookup list_lookup]. split; [done|]. split; [exact Hk|]. cbn. split; [lia|].
    change ((last + c :: cumulate (last + c) counts) !! k = Some (last + (c + sum_list (take k counts)))). rewrite Hc. f_equal. lia.
Qed.

Lemma cumulate_last last counts : List.last (last :: cumulate last counts) 0 = last + sum_list counts.
Proof.
  revert last. induction counts as [|c counts IH]; intros last; cbn [cumulate sum_list]; [cbn; lia|].
  change (List.last (last :: (last + c) :: cumulate (last + c) counts) 0) with (List.last ((last + c) :: cumulate (last + c) counts) 0).
  rewrite IH. cbn. lia.
Qed.

Lemma concat_lookup_split {A} (ls : list (list A)) k l x y :
  ls !! k = Some l → l !! x = Some y → concat ls !! (sum_list (length <$> take k ls) + x) = Some y.
Proof.
  revert k. induction ls as [|l0 ls IH]; intros [|k]; cbn; try done.
  - intros [= ->] Hx. rewrite lookup_app_l by (by eapply lookup_lt_Some). done.
  - intros Hk Hx. rewrite lookup_app_r by lia. rewrite <- Nat.add_assoc, Nat.add_comm, Nat.add_sub. by apply IH.
Qed.

(** The lines of all files, in the order of their paths. *)
Definition all_lines (paths : list (string * bytes)) : list bytes :=
  concat ((λ f : string * bytes, split_lines f.2) <$> sorted_paths paths []).

Lemma jsonlines_init_ok paths :
  Forall (λ f : string * bytes, f.2 ≠ []) (sorted_paths paths []) →
  jsonlines_init paths =
    Ok (let files := sorted_paths paths [] in
        let starts := (λ f : string * bytes, starts_of 0 (split_lines f.2)) <$> files in
        mkJsonLines files starts (0 :: cumulate 0 (length <$> starts)) (length (all_lines paths))).
Proof.
  intros Hne. unfold jsonlines_init, all_lines. set (files := sorted_paths paths []) in *.
  rewrite (mapM_Ok_fmap _ (λ f : string * bytes, starts_of 0 (split_lines f.2))).
  - cbn [mbind result_bind]. rewrite cumulate_last. cbn [Nat.add]. do 2 f_equal. clear Hne.
    induction files as [|f files IH]; [done|]. cbn. by rewrite length_app, starts_of_length, <- IH.
  - eapply Forall_impl; [exact Hne|]. intros f Hf. by apply line_starts_ok.
Qed.

(** Indexing the dataset by a global index reads exactly the line of that number in the
    concatenation of the files in path order, for every index below the number of lines, and
    raises [IndexError] past it. *)
Theorem jsonlines_getitem {J} (loads : bytes → result J) paths :
  Forall (λ f : string * bytes, f.2 ≠ []) (sorted_paths paths []) →
  ∃ ds, jsonlines_init paths = Ok ds ∧ num_data ds = length (all_lines paths) ∧
    (∀ i line, all_lines paths !! i = Some line → json_getitem loads ds i = loads line) ∧
    (∀ i, length (all_lines paths) ≤ i → json_getitem loads ds i = Raise IndexError).
Proof.
  intros Hne. eexists. split; [by apply jsonlines_init_ok|]. cbn [num_data]. split; [done|].
  unfold json_getitem, json_getline. cbn [num_data data_paths line_starts_per_file]. split.
  - intros i line Hi. apply lookup_lt_Some in Hi as Hlt. rewrite py_check_true by (by apply Nat.ltb_lt). cbn [mbind result_bind].
    unfold map_global_to_local. cbn [cum_counts bisect_right]. destruct (Nat.ltb_spec i 0); [lia|]. cbn [Nat.sub]. rewrite Nat.sub_0_r.
    unfold all_lines in *. set (files := sorted_paths paths []) in *. set (counts := length <$> _).
    assert (Hcounts : counts = length <$> ((λ f : string * bytes, split_lines f.2) <$> files)).
    { unfold counts. rewrite <- !list_fmap_compose. apply list_fmap_ext. intros k f _. unfold compose. by rewrite starts_of_length. }
    assert (Hsum : length (concat ((λ f : string * bytes, split_lines f.2) <$> files)) = sum_list counts) by (rewrite Hcounts; apply length_concat).
    destruct (bisect_cumulate 0 counts i) as (k & c & -> & Hk & Hr & ->); [lia|lia|]. cbn [mbind result_bind].
    rewrite Hcounts, !list_lookup_fmap in Hk. rewrite !list_lookup_fmap. destruct (files !! k) as [f|] eqn:Ef; [|done]. cbn in Hk |- *.
    injection Hk as <-. cbn [Nat.add] in *. destruct (lookup_lt_is_Some_2 (split_lines f.2) (i - sum_list (take k counts))) as [l Hl]; [lia|].
    destruct (readline_at f.2 _ l Hl) as (p & -> & Hread). cbn. rewrite Hread. f_equal.
    assert (Hk : ((λ f : string * bytes, split_lines f.2) <$> files) !! k = Some (split_lines f.2)) by (by rewrite list_lookup_fmap, Ef).
    pose proof (concat_lookup_split _ _ _ _ _ Hk Hl) as Hc. rewrite fmap_take, <- Hcounts in Hc.
    replace (sum_list (take k counts) + (i - sum_list (take k counts))) with i in Hc by lia. congruence.
  - intros i Hi. rewrite (proj2 (Nat.ltb_ge _ _)) by done. done.
Qed.

(** Two files, out of order, the second without a final line_feed. *)
Definition tiny_files : list (string * bytes) := [("b.jsonl", [1; 2; 10; 3]%Z); ("a.jsonl", [4; 10; 10]%Z)]%string.

Lemma jsonlines_getitem_witness :
  all_lines tiny_files = [[4; 10]; [10]; [1; 2; 10]; [3]]%Z ∧
  ∃ ds, jsonlines_init tiny_files = Ok ds ∧ num_data ds = 4 ∧
    (∀ i line, all_lines tiny_files !! i = Some line → json_getitem Ok ds i = Ok line) ∧
    (∀ i, 4 ≤ i → json_getitem (@Ok bytes) ds i = Raise IndexError).
Proof. split; [reflexivity|]. apply (jsonlines_getitem (@Ok bytes) tiny_files). by repeat constructor. Defined.
