(* ===== verification/TargetSource.v ===== *)
(** * TargetSource: from source records to the samples of a rank

    The collators of [target_cache_dataset.py] and the loop of
    [scripts/data/prepare_target_cache.py]: every rank takes its range of the records, filters
    and pads them into batches, runs the target model on each batch and cuts the padding off
    again.  Together the ranks produce one sample per valid record, in source order, whatever
    the number of ranks and the batch size. *)

From S2P Require Import Prelude TargetCodec TargetCache TargetWrite TargetMerge.
#[local] Open Scope nat_scope.

(** ** Padding *)

(** [max(item[key].shape[0] for item in features)]. *)
Definition max_length {A} (rows : list (list A)) : result nat :=
  match rows with [] => Raise ValueError | _ => Ok (foldr Nat.max 0 (length <$> rows)) end.

Definition pad_1d_batch (rows : list (list Z)) : result (list (list Z)) :=
  n ← max_length rows;
  mapM (λ r, slice_assign 0 r (replicate n 0%Z)) rows.

(** One vector assigned into a slot of [hidden_dim] numbers; a single number is broadcast. *)
Definition fit_row {A} (hidden_dim : nat) (v : list A) : result (list A) :=
  if length v =? hidden_dim then Ok v
  else match v with [x] => Ok (replicate hidden_dim x) | _ => Raise RuntimeError end.

(** [features[0][key].shape[1]] *)
Definition hidden_dim {A} (rows : list (list (list A))) : nat :=
  match rows with (v :: _) :: _ => length v | _ => 0 end.

Definition pad_hidden_batch {A} (zero : A) (rows : list (list (list A))) : result (list (list (list A))) :=
  n ← max_length rows;
  let h := hidden_dim rows in
  mapM (λ r, r ← mapM (fit_row h) r; slice_assign 0 r (replicate n (replicate h zero))) rows.

(** ** [ConversationCollator] *)

Record Processed : Type := mkProcessed {
  p_input_ids : list Z;
  p_attention_mask : list Z;
  p_loss_mask : list Z;
}.

Record Batch : Type := mkBatch {
  b_input_ids : list (list Z);
  b_attention_mask : list (list Z);
  b_loss_mask : list (list Z);
}.

Definition sumZ (l : list Z) : Z := foldr Z.add 0%Z l.

Section collate.
Context {J : Type} (preprocess_record : J → result Processed) (min_loss_tokens : Z).

Definition process_feature (item : J) : result (option Processed) :=
  p ← preprocess_record item;
  Ok (if (sumZ (p_loss_mask p) <? min_loss_tokens)%Z then None else Some p).

Definition conversation_collate (features : list J) : result (option Batch) :=
  l ← mapM process_feature features;
  match omap id l with
  | [] => Ok None
  | features =>
      ids ← pad_1d_batch (p_input_ids <$> features);
      mask ← pad_1d_batch (p_attention_mask <$> features);
      loss ← pad_1d_batch (p_loss_mask <$> features);
      Ok (Some (mkBatch ids mask loss))
  end.
End collate.

(** ** [CacheCollator] *)

Record CacheBatch : Type := mkCacheBatch {
  cb_input_ids : list (list Z);
  cb_loss_mask : list (list Z);
  cb_attention_mask : list (list Z);
  cb_target_hidden_states : list (list (list Z));
  cb_target_last_hidden_states : list (list (list Z));
}.

(** [attention_mask[i, :n] = 1] on a row of zeros. *)
Definition mask_row (width n : nat) : list Z := replicate (Nat.min n width) 1%Z ++ replicate (width - n) 0%Z.

Definition cache_collate (features : list Features) : result CacheBatch :=
  ids ← pad_1d_batch (f_input_ids <$> features);
  loss ← pad_1d_batch (f_loss_mask <$> features);
  let mask := zip_with (λ row f, mask_row (length row) (length (f_input_ids f))) ids features in
  hs ← pad_hidden_batch 0%Z (f_target_hidden_states <$> features);
  last ← pad_hidden_batch 0%Z (f_target_last_hidden_states <$> features);
  Ok (mkCacheBatch ids loss mask hs last).

(** ** The target model *)

(** The outputs of the hooked modules on a batch: per sequence a vector per position. *)
Record ModelOutput (F : Type) : Type := mkOutput {
  embed_output : list (list (list F));
  layer_outputs : list (list (list (list F)));
  last_hidden_state : list (list (list F));
}.
Arguments mkOutput {F}.
Arguments embed_output {F}.
Arguments layer_outputs {F}.
Arguments last_hidden_state {F}.

(** [torch.cat(..., dim=-1)] of batches of the same shape. *)
Definition cat_last {F} (l : list (list (list (list F)))) : result (list (list (list F))) :=
  match l with
  | [] => Raise RuntimeError
  | h :: l => Ok (foldl (zip_with (zip_with app)) h l)
  end.

(** Registering a forward hook, and what it captures: [-1] is the embedding. *)
Definition register_hook {F} (out : ModelOutput F) (layer_id : Z) : result unit :=
  py_check IndexError ((layer_id <? 0)%Z || (Z.to_nat layer_id <? length (layer_outputs out))).
Definition captured {F} (out : ModelOutput F) (layer_id : Z) : result (list (list (list F))) :=
  if (layer_id =? -1)%Z then Ok (embed_output out)
  else if (layer_id <? 0)%Z then Raise KeyError
  else match layer_outputs out !! Z.to_nat layer_id with Some h => Ok h | None => Raise KeyError end.

Definition run_target_forward_with_hooks {F} (target_model : list (list Z) → list (list Z) → ModelOutput F)
    (target_layer_ids : list Z) (ids mask : list (list Z)) : result (list (list (list F)) * list (list (list F))) :=
  let out := target_model ids mask in
  _ ← mapM (register_hook out) target_layer_ids;
  l ← mapM (captured out) target_layer_ids;
  h ← cat_last l;
  Ok (h, last_hidden_state out).

(** ** The loop of [main] *)

(** [DataLoader] over a [Subset], without shuffling and dropping nothing. *)
Class DataLoader (J : Type) : Type := load_batches : nat → list J → list (list J).

Section main.
Context {J F : Type} `{DataLoader J} (preprocess_record : J → result Processed) (min_loss_tokens : Z)
  (target_model : list (list Z) → list (list Z) → ModelOutput F) (target_layer_ids : list Z).

(** [tensor[sample_idx_in_batch, :seq_len]]. *)
Definition row_upto {A} (t : list (list A)) (i n : nat) : result (list A) :=
  match t !! i with Some r => Ok (take n r) | None => Raise IndexError end.

Fixpoint write_rows (seq_lens : list Z) (i : nat) (b : Batch) (hs last : list (list (list F))) : result (list (Sample F)) :=
  match seq_lens with
  | [] => Ok []
  | n :: seq_lens =>
      let n := Z.to_nat n in
      ids ← row_upto (b_input_ids b) i n;
      mask ← row_upto (b_attention_mask b) i n;
      loss ← row_upto (b_loss_mask b) i n;
      h ← row_upto hs i n;
      l ← row_upto last i n;
      rest ← write_rows seq_lens (S i) b hs last;
      Ok (mkSample ids mask loss h l :: rest)
  end.

Definition batch_samples (features : list J) : result (list (Sample F)) :=
  b ← conversation_collate preprocess_record min_loss_tokens features;
  match b with
  | None => Ok []
  | Some b =>
      '(hs, last) ← run_target_forward_with_hooks target_model target_layer_ids (b_input_ids b) (b_attention_mask b);
      write_rows (sumZ <$> b_attention_mask b) 0 b hs last
  end.

Definition rank_samples (batch_size : nat) (dataset : list J) (r world_size : nat) : result (list (Sample F)) :=
  let '(local_start, local_end) := compute_local_sample_range (length dataset) r world_size in
  l ← mapM batch_samples (load_batches batch_size dataset.[local_start, local_end]);
  Ok (concat (l : list (list (Sample F)))).

(** The samples of all ranks. *)
Definition world_samples (batch_size world_size : nat) (dataset : list J) : result (list (list (Sample F))) :=
  mapM (λ r, rank_samples batch_size dataset r world_size) (seq 0 world_size).
End main.
