(* ===== verification/TargetSourceProps.v ===== *)
(** * TargetSourceProps: the ranks together produce one sample per valid record

    Padding a batch and cutting the padding off again is invisible; the ranges of the ranks
    tile the source. *)

From S2P Require Import Prelude TargetCodec TargetCache TargetMerge TargetSource.
#[local] Open Scope nat_scope.

(** ** Padding *)

Definition pad_row {A} (zero : A) (n : nat) (r : list A) : list A := r ++ replicate (n - length r) zero.

Definition widest {A} (rows : list (list A)) : nat := foldr Nat.max 0 (length <$> rows).

Lemma widest_le {A} (rows : list (list A)) r : r ∈ rows → length r ≤ widest rows.
Proof.
  unfold widest. induction rows as [|r' rows IH]; [by intros ?%not_elem_of_nil|]. cbn. intros [<-|Hr]%elem_of_cons; [lia|]. apply IH in Hr. lia.
Qed.

Lemma slice_assign_pad {A} (zero : A) n r : length r ≤ n → slice_assign 0 r (replicate n zero) = Ok (pad_row zero n r).
Proof. intros Hr. rewrite slice_assign_ok by (rewrite length_replicate; cbn; lia). cbn [take app Nat.add]. by rewrite drop_replicate. Qed.

Lemma pad_1d_ok rows : rows ≠ [] → pad_1d_batch rows = Ok (pad_row 0%Z (widest rows) <$> rows).
Proof.
  intros Hr. unfold pad_1d_batch, max_length. destruct rows as [|r rows]; [done|]. cbn [mbind result_bind].
  apply mapM_Ok_fmap, Forall_forall. intros x Hx. apply slice_assign_pad. by apply widest_le.
Qed.

Lemma take_pad_row {A} (zero : A) n r : take (length r) (pad_row zero n r) = r.
Proof. unfold pad_row. by rewrite take_app_length. Qed.

Lemma pad_hidden_ok {A} (zero : A) (rows : list (list (list A))) h :
  rows ≠ [] → Forall (Forall (λ v, length v = h)) rows → (∃ r rest, rows = r :: rest ∧ r ≠ []) →
  pad_hidden_batch zero rows = Ok (pad_row (replicate h zero) (widest rows) <$> rows).
Proof.
  intros Hne Hrows (r0 & rest & E & Hr0). unfold pad_hidden_batch, max_length.
  assert (Hh : hidden_dim rows = h).
  { subst rows. apply Forall_cons in Hrows as [H0 _]. destruct r0 as [|v r0]; [done|]. by apply Forall_cons in H0 as [? _]. }
  destruct rows as [|r rows']; [done|]. cbn [mbind result_bind]. set (rows := r :: rows') in *. rewrite Hh. apply mapM_Ok_fmap, Forall_forall.
  intros x Hx. rewrite Forall_forall in Hrows. specialize (Hrows x Hx).
  rewrite (mapM_Ok_fmap _ id), list_fmap_id.
  - cbn [mbind result_bind]. apply slice_assign_pad. by apply widest_le.
  - eapply Forall_impl; [exact Hrows|]. intros v Hv. unfold fit_row. by rewrite Hv, Nat.eqb_refl.
Qed.

(** ** Sequences and batches of the target model *)

Lemma foldl_zip_take {A} (f : A → A → A) n h l : take n (foldl (zip_with f) h l) = foldl (zip_with f) (take n h) (take n <$> l).
Proof. revert h. induction l as [|x l IH]; intros h; [done|]. cbn. rewrite IH. f_equal. apply zip_with_take. Qed.

Lemma foldl_zip_lookup {A} (f : A → A → A) (i : nat) h l x (xs : list A) :
  h !! i = Some x → Forall2 (λ (b : list A) y, b !! i = Some y) l xs → foldl (zip_with f) h l !! i = Some (foldl f x xs).
Proof.
  intros Hx Hl. revert h x Hx. induction Hl as [|b y l xs Hb _ IH]; intros h x Hx; [done|]. cbn. apply IH.
  apply lookup_zip_with_Some. by exists x, y.
Qed.

(** [torch.cat] for one sequence. *)
Definition cat_sequence {F} (l : list (list (list F))) : list (list F) :=
  match l with [] => [] | h :: l => foldl (zip_with app) h l end.

(** Row [i] of the concatenation, up to its length, from the rows of the parts. *)
Lemma cat_last_row {F} (l : list (list (list (list F)))) (rows : list (list (list F))) i n c :
  cat_last l = Ok c → Forall2 (λ (b : list (list (list F))) y, ∃ h, b !! i = Some h ∧ take n h = y) l rows →
  ∃ h, c !! i = Some h ∧ take n h = cat_sequence rows.
Proof.
  destruct l as [|b l]; [done|]. cbn [cat_last]. intros [= <-] Hl. inversion Hl as [|? y ? ys (h & Hh & Eh) Hrest]; subst.
  assert (Hex : ∃ hs, Forall2 (λ (b : list (list (list F))) y, b !! i = Some y) l hs ∧ take n <$> hs = ys).
  { clear Hl Hh. induction Hrest as [|b' y' l ys (h' & Hh' & Eh') _ (hs & IH1 & IH2)]; [by exists []|].
    exists (h' :: hs). split; [by constructor|]. cbn. by rewrite Eh', IH2. }
  destruct Hex as (hs & Hhs & <-). exists (foldl (zip_with app) h hs). split.
  - by apply foldl_zip_lookup.
  - cbn [cat_sequence]. apply foldl_zip_take.
Qed.

(** A causal model with right padding: up to its length, what the hooked modules give for a
    row of a batch is what they give for the sequence alone. *)
Record causal {F} (target_model : list (list Z) → list (list Z) → ModelOutput F) (num_layers : nat)
    (states : list Z → Z → list (list F)) (last : list Z → list (list F)) : Prop := {
  cs_layers ids mask : length (layer_outputs (target_model ids mask)) = num_layers;
  cs_states ids mask layer_id b i row n k :
    captured (target_model ids mask) layer_id = Ok b → ids !! i = Some row →
    mask !! i = Some (replicate n 1%Z ++ replicate k 0%Z) →
    ∃ h, b !! i = Some h ∧ take n h = states (take n row) layer_id;
  cs_last ids mask i row n k :
    ids !! i = Some row → mask !! i = Some (replicate n 1%Z ++ replicate k 0%Z) →
    ∃ h, last_hidden_state (target_model ids mask) !! i = Some h ∧ take n h = last (take n row);
}.

Lemma sumZ_mask n k : sumZ (replicate n 1%Z ++ replicate k 0%Z) = Z.of_nat n.
Proof.
  induction n as [|n IH]; cbn [replicate app sumZ foldr].
  - induction k as [|k IH]; [done|]. cbn in *. exact IH.
  - unfold sumZ in IH. rewrite IH. lia.
Qed.

(** ** Ranges of source records *)

Lemma range_next num world r :
  (compute_local_sample_range num r world).2 = (compute_local_sample_range num (S r) world).1.
Proof.
  unfold compute_local_sample_range. generalize (num / world), (num mod world). intros a b. cbn [fst snd].
  destruct (Nat.ltb_spec r b); nia.
Qed.

Lemma range_zero num world : (compute_local_sample_range num 0 world).1 = 0.
Proof. by unfold compute_local_sample_range. Qed.

Lemma range_end num world : 0 < world → (compute_local_sample_range num world world).1 = num.
Proof.
  intros Hw. unfold compute_local_sample_range. cbn [fst]. pose proof (Nat.mod_upper_bound num world ltac:(lia)).
  rewrite Nat.min_r by lia. pose proof (Nat.div_mod_eq num world). lia.
Qed.

(** The ranges tile the list. *)
Lemma ranges_tile {A} (l : list A) world n :
  concat ((λ r, l.[(compute_local_sample_range (length l) r world).1, (compute_local_sample_range (length l) r world).2]) <$> seq 0 n) =
    take (compute_local_sample_range (length l) n world).1 l.
Proof.
  induction n as [|n IH]; [by rewrite range_zero|]. rewrite seq_S, fmap_app, concat_app, IH. cbn [fmap list_fmap concat Nat.add].
  rewrite app_nil_r, range_next. apply take_py_slice. apply range_le.
Qed.

Section main.
Context {J F : Type} `{DataLoader J} (preprocess_record : J → result Processed) (min_loss_tokens : Z)
  (target_model : list (list Z) → list (list Z) → ModelOutput F) (target_layer_ids : list Z).
Context (num_layers : nat) (states : list Z → Z → list (list F)) (last : list Z → list (list F)) (pre : J → Processed).

Hypothesis model_causal : causal target_model num_layers states last.
Hypothesis loader_keeps : ∀ k (l : list J), 0 < k → concat (load_batches k l) = l.
Hypothesis layers_given : target_layer_ids ≠ [].
Hypothesis layers_valid : Forall (λ l, l = -1 ∨ 0 ≤ l < Z.of_nat num_layers)%Z target_layer_ids.

(** What tokenizing one conversation gives: no padding, masks of the same length. *)
Record tokenized (j : J) : Prop := {
  tk_ok : preprocess_record j = Ok (pre j);
  tk_mask : p_attention_mask (pre j) = replicate (length (p_input_ids (pre j))) 1%Z;
  tk_loss : length (p_loss_mask (pre j)) = length (p_input_ids (pre j));
}.

Definition enough_loss (p : Processed) : Prop := (min_loss_tokens ≤ sumZ (p_loss_mask p))%Z.
#[global] Instance enough_loss_dec p : Decision (enough_loss p).
Proof. unfold enough_loss. apply _. Defined.

(** The sample of a record alone. *)
Definition sample_of (p : Processed) : Sample F :=
  mkSample (p_input_ids p) (p_attention_mask p) (p_loss_mask p)
    (cat_sequence (states (p_input_ids p) <$> target_layer_ids)) (last (p_input_ids p)).

Definition valid_samples (l : list J) : list (Sample F) := sample_of <$> filter enough_loss (pre <$> l).

Lemma valid_samples_app l1 l2 : valid_samples (l1 ++ l2) = valid_samples l1 ++ valid_samples l2.
Proof. unfold valid_samples. by rewrite fmap_app, filter_app, fmap_app. Qed.

Lemma process_ok l : Forall tokenized l →
  ∃ k, mapM (process_feature preprocess_record min_loss_tokens) l = Ok k ∧ omap id k = filter enough_loss (pre <$> l).
Proof.
  induction 1 as [|j l Hj _ (k & Hk & Ek)]; [by exists []|]. cbn [mapM].
  assert (E : process_feature preprocess_record min_loss_tokens j =
    Ok (if (sumZ (p_loss_mask (pre j)) <? min_loss_tokens)%Z then None else Some (pre j))) by (unfold process_feature; by rewrite (tk_ok _ Hj)).
  rewrite E. cbn [mbind result_bind]. rewrite Hk. cbn [mbind result_bind]. eexists. split; [done|]. rewrite fmap_cons, filter_cons.
  destruct (Z.ltb_spec (sumZ (p_loss_mask (pre j))) min_loss_tokens); cbn [omap list_omap id].
  - rewrite decide_False by (unfold enough_loss; lia). exact Ek.
  - rewrite decide_True by (unfold enough_loss; lia). by rewrite <- Ek.
Qed.

Lemma forward_ok ids mask :
  ∃ hs, run_target_forward_with_hooks target_model target_layer_ids ids mask = Ok (hs, last_hidden_state (target_model ids mask)) ∧
    ∀ i row n k, ids !! i = Some row → mask !! i = Some (replicate n 1%Z ++ replicate k 0%Z) →
      ∃ h, hs !! i = Some h ∧ take n h = cat_sequence (states (take n row) <$> target_layer_ids).
Proof.
  unfold run_target_forward_with_hooks. set (out := target_model ids mask).
  pose proof (cs_layers _ _ _ _ model_causal ids mask) as HL. fold out in HL.
  rewrite (mapM_Ok_fmap (register_hook out) (λ _, tt)).
  2: { eapply Forall_impl; [exact layers_valid|]. intros l Hl. cbn beta in Hl. apply py_check_true. rewrite HL.
       destruct (Z.ltb_spec l 0); [done|]. apply Nat.ltb_lt. lia. }
  cbn [mbind result_bind]. destruct (mapM_Ok_exists (captured out) target_layer_ids) as [l Hl].
  { eapply Forall_impl; [exact layers_valid|]. intros z Hz. cbn beta in Hz. unfold captured. destruct (Z.eqb_spec z (-1)); [by eexists|].
    destruct (Z.ltb_spec z 0); [lia|]. destruct (lookup_lt_is_Some_2 (layer_outputs out) (Z.to_nat z)) as [h ->]; [lia|by eexists]. }
  rewrite Hl. cbn [mbind result_bind]. pose proof (mapM_Ok_length _ _ _ Hl) as Hlen.
  destruct (cat_last l) as [c|e] eqn:Ec; [|destruct l; [destruct target_layer_ids|]; done]. cbn [mbind result_bind].
  exists c. split; [done|]. intros i row n k Hrow Hmask. eapply cat_last_row; [exact Ec|].
  apply mapM_Ok_Forall2 in Hl. clear Ec Hlen layers_given layers_valid. induction Hl as [|z b zs l Hz _ IH]; constructor.
  - eapply (cs_states _ _ _ _ model_causal); eassumption.
  - apply IH.
Qed.

(** The rows of a padded batch, cut to their lengths, are the samples. *)
Lemma write_rows_ok b hs out_last prev rest n :
  Forall (λ p, p_attention_mask p = replicate (length (p_input_ids p)) 1%Z ∧ length (p_loss_mask p) = length (p_input_ids p)) rest →
  b = mkBatch (pad_row 0%Z n <$> (p_input_ids <$> prev ++ rest)) (pad_row 0%Z n <$> (p_attention_mask <$> prev ++ rest))
    (pad_row 0%Z n <$> (p_loss_mask <$> prev ++ rest)) →
  (∀ i row m k, b_input_ids b !! i = Some row → b_attention_mask b !! i = Some (replicate m 1%Z ++ replicate k 0%Z) →
     (∃ h, hs !! i = Some h ∧ take m h = cat_sequence (states (take m row) <$> target_layer_ids)) ∧
     (∃ h, out_last !! i = Some h ∧ take m h = last (take m row))) →
  write_rows (sumZ <$> (pad_row 0%Z n <$> (p_attention_mask <$> rest))) (length prev) b hs out_last = Ok (sample_of <$> rest).
Proof.
  intros Hrest Hb Hout. revert prev Hb. induction Hrest as [|p rest [Hm Hl] _ IH]; intros prev Hb; [done|].
  assert (Hat : ∀ (f : Processed → list Z), (pad_row 0%Z n <$> (f <$> prev ++ p :: rest)) !! length prev = Some (pad_row 0%Z n (f p))).
  { intros f. rewrite !list_lookup_fmap, lookup_app_r, Nat.sub_diag by lia. done. }
  assert (Hmask : pad_row 0%Z n (p_attention_mask p) = replicate (length (p_input_ids p)) 1%Z ++ replicate (n - length (p_input_ids p)) 0%Z).
  { unfold pad_row. by rewrite Hm, length_replicate. }
  cbn [fmap list_fmap write_rows]. rewrite Hmask, sumZ_mask, Nat2Z.id.
  assert (Hrow : b_input_ids b !! length prev = Some (pad_row 0%Z n (p_input_ids p))) by (rewrite Hb; apply Hat).
  assert (Hmrow : b_attention_mask b !! length prev = Some (replicate (length (p_input_ids p)) 1%Z ++ replicate (n - length (p_input_ids p)) 0%Z))
    by (rewrite Hb, <- Hmask; apply Hat).
  destruct (Hout _ _ _ _ Hrow Hmrow) as [(h & Hh & Eh) (hl & Hhl & Ehl)]. rewrite take_pad_row in Eh, Ehl.
  unfold row_upto. rewrite Hrow, Hmrow. cbn [mbind result_bind].
  replace (b_loss_mask b !! length prev) with (Some (pad_row 0%Z n (p_loss_mask p))) by (rewrite Hb; symmetry; apply Hat).
  cbn [mbind result_bind]. rewrite Hh, Hhl. cbn [mbind result_bind].
  specialize (IH (prev ++ [p])). rewrite length_app, Nat.add_1_r in IH.
  rewrite IH by (rewrite <- app_assoc; exact Hb). cbn [mbind result_bind]. unfold sample_of at 2. rewrite Eh, Ehl, take_pad_row.
  rewrite <- Hl, take_pad_row, Hl. rewrite <- Hmask. rewrite <- (length_replicate (length (p_input_ids p)) 1%Z) at 1. rewrite <- Hm, take_pad_row. done.
Qed.
Lemma batch_samples_ok features : Forall tokenized features →
  batch_samples preprocess_record min_loss_tokens target_model target_layer_ids features = Ok (valid_samples features).
Proof.
  intros Hf. unfold batch_samples, conversation_collate. destruct (process_ok features Hf) as (k & Hk & Ek).
  rewrite Hk. cbn [mbind result_bind]. unfold valid_samples. rewrite Ek. set (fs := filter enough_loss _).
  assert (Hfs : Forall (λ p, p_attention_mask p = replicate (length (p_input_ids p)) 1%Z ∧ length (p_loss_mask p) = length (p_input_ids p)) fs).
  { apply Forall_forall. intros p Hp. apply list_elem_of_filter in Hp as [_ Hp]. apply list_elem_of_fmap in Hp as (j & -> & Hj).
    rewrite Forall_forall in Hf. destruct (Hf j Hj). done. }
  destruct fs as [|p0 fs'] eqn:Efs; [done|]. rewrite <- Efs in *. clearbody fs. assert (Hne : fs ≠ []) by (by rewrite Efs). 
  assert (Hw : widest (p_attention_mask <$> fs) = widest (p_input_ids <$> fs) ∧ widest (p_loss_mask <$> fs) = widest (p_input_ids <$> fs)).
  { clear Efs Hne Ek. unfold widest. induction Hfs as [|p l [Hm Hl] _ [IH1 IH2]]; [done|]. cbn in *. by rewrite Hm, Hl, length_replicate, IH1, IH2. }
  rewrite !pad_1d_ok by (rewrite Efs; done). cbn [mbind result_bind]. destruct Hw as [-> ->]. set (n := widest _). set (b := mkBatch _ _ _).
  destruct (forward_ok (b_input_ids b) (b_attention_mask b)) as (hs & Hrun & Hhs). rewrite Hrun. cbn [mbind result_bind].
  apply (write_rows_ok b hs _ [] fs n Hfs eq_refl). intros i row m k' Hrow Hmask. split; [by eapply Hhs|].
  by eapply (cs_last _ _ _ _ model_causal).
Qed.

Lemma rank_samples_ok batch_size dataset r world_size : 0 < batch_size → Forall tokenized dataset →
  rank_samples preprocess_record min_loss_tokens target_model target_layer_ids batch_size dataset r world_size =
    Ok (valid_samples dataset.[(compute_local_sample_range (length dataset) r world_size).1, (compute_local_sample_range (length dataset) r world_size).2]).
Proof.
  intros Hb Hd. unfold rank_samples. destruct (compute_local_sample_range _ _ _) as [a z]. cbn [fst snd].
  set (l := dataset.[a, z]). assert (Hl : Forall tokenized l) by (by apply Forall_take, Forall_drop).
  pose proof (loader_keeps batch_size l Hb) as E. rewrite <- E in Hl |- * at 2. clearbody l. clear E. set (bs := load_batches batch_size l) in *. 
  rewrite (mapM_Ok_fmap _ valid_samples).
  - cbn [mbind result_bind]. f_equal. clear Hl. induction bs as [|f bs IH]; [done|]. cbn [fmap list_fmap concat]. by rewrite valid_samples_app, IH.
  - apply Forall_concat in Hl. eapply Forall_impl; [exact Hl|]. intros f Hf. by apply batch_samples_ok.
Qed.

(** C32: the ranks together compute one sample per record with enough loss tokens, in source
    order, each as the model gives it for the record alone: the result does not depend on the
    number of ranks, the batch size or the padding. *)
Theorem world_samples_in_order batch_size world_size dataset :
  0 < batch_size → 0 < world_size → Forall tokenized dataset →
  ∃ world, world_samples preprocess_record min_loss_tokens target_model target_layer_ids batch_size world_size dataset = Ok world ∧
    length world = world_size ∧ concat world = sample_of <$> filter enough_loss (pre <$> dataset).
Proof.
  intros Hb Hw Hd. unfold world_samples.
  rewrite (mapM_Ok_fmap _ (λ r, valid_samples dataset.[(compute_local_sample_range (length dataset) r world_size).1,
    (compute_local_sample_range (length dataset) r world_size).2])).
  - eexists. split; [done|]. rewrite length_fmap, length_seq. split; [done|]. change (sample_of <$> filter enough_loss (pre <$> dataset)) with (valid_samples dataset).
    transitivity (valid_samples (take (compute_local_sample_range (length dataset) world_size world_size).1 dataset)).
    2: { by rewrite range_end, firstn_all. }
    rewrite <- ranges_tile.
    generalize (seq 0 world_size). intros l. induction l as [|r l IH]; [done|]. cbn [fmap list_fmap concat]. by rewrite valid_samples_app, IH.
  - apply Forall_forall. intros r _. by apply rank_samples_ok.
Qed.
End main.

(** *** A loader and a causal model *)

Fixpoint chunks {J} (fuel k : nat) (l : list J) : list (list J) :=
  match fuel, l with
  | S fuel, _ :: _ => take k l :: chunks fuel k (drop k l)
  | _, _ => []
  end.

#[local] Instance chunk_loader : DataLoader Processed := λ k l, chunks (length l) k l.

Lemma chunks_concat k (l : list Processed) : 0 < k → concat (load_batches k l) = l.
Proof.
  intros Hk. unfold load_batches, chunk_loader. assert (Hgen : ∀ fuel (m : list Processed), length m ≤ fuel → concat (chunks fuel k m) = m).
  { induction fuel as [|fuel IH]; intros m Hm; [destruct m; [done|cbn in Hm; lia]|]. destruct m as [|x m]; [done|]. cbn [chunks concat].
    rewrite IH; [apply take_drop|]. rewrite length_drop. cbn in *. lia. }
  by apply Hgen.
Qed.

(** An embedding and one layer. *)
Definition tiny_model (ids mask : list (list Z)) : ModelOutput Z :=
  mkOutput (map (map (λ z, [z])) ids) [map (map (λ z, [z + 1; z + 2]%Z)) ids] (map (map (λ z, [2 * z]%Z)) ids).
Definition tiny_states (row : list Z) (layer_id : Z) : list (list Z) :=
  if (layer_id =? -1)%Z then map (λ z, [z]) row else map (λ z, [z + 1; z + 2]%Z) row.
Definition tiny_last (row : list Z) : list (list Z) := map (λ z, [2 * z]%Z) row.

Lemma map_row_take {A B} (f : A → B) (rows : list (list A)) (i n : nat) row :
  rows !! i = Some row → ∃ h, map (map f) rows !! i = Some h ∧ take n h = map f (take n row).
Proof.
  intros Hrow. exists (map f row). split; [|by rewrite <- fmap_take].
  change (map (map f) rows) with (map f <$> rows). by rewrite list_lookup_fmap, Hrow.
Qed.

Lemma tiny_causal : causal tiny_model 1 tiny_states tiny_last.
Proof.
  split; [done|..].
  - intros ids mask layer_id b i row n k. unfold captured, tiny_states. destruct (layer_id =? -1)%Z.
    + intros [= <-] Hrow _. by apply map_row_take.
    + destruct (layer_id <? 0)%Z; [done|]. cbn [layer_outputs tiny_model]. destruct (Z.to_nat layer_id); [|done]. cbn [lookup list_lookup].
      intros [= <-] Hrow _. by apply map_row_take.
  - intros ids mask i row n k Hrow _. by apply map_row_take.
Qed.

(** Three conversations, the second without loss tokens, on two ranks. *)
Definition tiny_dataset : list Processed :=
  [mkProcessed [5; 6; 7] [1; 1; 1] [0; 1; 1]; mkProcessed [8] [1] [0]; mkProcessed [9; 3] [1; 1] [0; 1]]%Z.

Lemma world_samples_in_order_witness :
  ∃ world, world_samples Ok 1%Z tiny_model [-1; 0]%Z 2 2 tiny_dataset = Ok world ∧ length world = 2 ∧
    concat world = [mkSample [5; 6; 7] [1; 1; 1] [0; 1; 1] [[5; 6; 7]; [6; 7; 8]; [7; 8; 9]] [[10]; [12]; [14]];
                    mkSample [9; 3] [1; 1] [0; 1] [[9; 10; 11]; [3; 4; 5]] [[18]; [6]]]%Z.
Proof.
  apply (world_samples_in_order Ok 1%Z tiny_model [-1; 0]%Z 1 tiny_states tiny_last id tiny_causal); [|done| |lia|lia|].
  - intros k l. apply chunks_concat.
  - repeat constructor; lia.
  - by repeat constructor.
Defined.

(** ** Batches of cached samples *)

(** A sample with at least one token and one vector of [h] numbers per token. *)
Record feature_shape (layers h : nat) (f : Features) : Prop := {
  fs_pos : 0 < length (f_input_ids f);
  fs_mask : length (f_loss_mask f) = length (f_input_ids f);
  fs_states : length (f_target_hidden_states f) = length (f_input_ids f) ∧ Forall (λ v, length v = layers * h) (f_target_hidden_states f);
  fs_last : length (f_target_last_hidden_states f) = length (f_input_ids f) ∧ Forall (λ v, length v = h) (f_target_last_hidden_states f);
}.

Lemma widest_fmap {A B} (f : Features → list A) (g : Features → list B) l :
  Forall (λ x, length (f x) = length (g x)) l → widest (f <$> l) = widest (g <$> l).
Proof. unfold widest. induction 1 as [|x l Hx _ IH]; [done|]. cbn in *. by rewrite Hx, IH. Qed.

(** A batch of samples: every row holds its sample, then padding; the attention mask tells
    them apart. *)
Lemma cache_collate_ok layers h features :
  features ≠ [] → Forall (feature_shape layers h) features →
  let n := widest (f_input_ids <$> features) in
  cache_collate features = Ok (mkCacheBatch
    (pad_row 0%Z n <$> (f_input_ids <$> features)) (pad_row 0%Z n <$> (f_loss_mask <$> features))
    ((λ f, pad_row 0%Z n (replicate (length (f_input_ids f)) 1%Z)) <$> features)
    (pad_row (replicate (layers * h) 0%Z) n <$> (f_target_hidden_states <$> features))
    (pad_row (replicate h 0%Z) n <$> (f_target_last_hidden_states <$> features))).
Proof.
  intros Hne Hf n. unfold cache_collate. assert (∃ f0 rest, features = f0 :: rest) as (f0 & rest & E) by (destruct features; [done|by eexists _, _]). clear Hne.
  rewrite !pad_1d_ok by (by rewrite E). cbn [mbind result_bind].
  assert (H0 : feature_shape layers h f0) by (rewrite E in Hf; by apply Forall_cons in Hf as [? _]).
  assert (Hne : ∀ r : list (list Z), length r = length (f_input_ids f0) → r ≠ []) by (intros r Hr ->; pose proof (fs_pos _ _ _ H0); cbn in Hr; lia).
  rewrite (pad_hidden_ok 0%Z (f_target_hidden_states <$> features) (layers * h)).
  2: { by rewrite E. }
  2: { apply Forall_fmap. eapply Forall_impl; [exact Hf|]. intros f Hx. apply Hx. }
  2: { rewrite E, fmap_cons. eexists _, _. split; [done|]. apply Hne, H0. }
  cbn [mbind result_bind]. rewrite (pad_hidden_ok 0%Z (f_target_last_hidden_states <$> features) h).
  2: { by rewrite E. }
  2: { apply Forall_fmap. eapply Forall_impl; [exact Hf|]. intros f Hx. apply Hx. }
  2: { rewrite E, fmap_cons. eexists _, _. split; [done|]. apply Hne, H0. }
  cbn [mbind result_bind].
  rewrite (widest_fmap f_loss_mask f_input_ids), (widest_fmap f_target_hidden_states f_input_ids),
    (widest_fmap f_target_last_hidden_states f_input_ids); [fold n|eapply Forall_impl; [exact Hf|]; intros f Hx; by destruct Hx as [? ? [? ?] [? ?]]..].
  assert (Hm : zip_with (λ row f, mask_row (length row) (length (f_input_ids f))) (pad_row 0%Z n <$> (f_input_ids <$> features)) features =
    (λ f, pad_row 0%Z n (replicate (length (f_input_ids f)) 1%Z)) <$> features).
  { assert (Hn : Forall (λ f, length (f_input_ids f) ≤ n) features).
    { apply Forall_forall. intros f Hin. apply widest_le. apply list_elem_of_fmap. by exists f. }
    clear -Hn. clearbody n. induction Hn as [|f l Hn _ IH]; [done|]. cbn [fmap list_fmap zip_with]. rewrite IH. f_equal.
    unfold mask_row, pad_row. rewrite length_app, !length_replicate. replace (length (f_input_ids f) + (n - length (f_input_ids f))) with n by lia.
    by rewrite Nat.min_l by lia. }
  by rewrite Hm.
Qed.
