(* ===== verification/TrainSampler.v ===== *)
(** * TrainSampler: the training schedule and the resumable sampler

    [_compute_training_schedule] of [DeepSpec/deepspec/trainer/base_trainer.py] and
    [StatelessResumableDistributedSampler] of [deepspec/utils/distributed.py].
    [torch.randperm] with a seeded generator is a parameter; [math.ceil] of a quotient is exact. *)

From S2P Require Import Prelude.
#[local] Open Scope nat_scope.

(** ** The schedule *)

(** [a // b] and [a % b]. *)
Definition py_div (a b : nat) : result nat := _ ← py_check ZeroDivisionError (negb (b =? 0)); Ok (a / b).
Definition py_mod (a b : nat) : result nat := _ ← py_check ZeroDivisionError (negb (b =? 0)); Ok (a mod b).

Definition compute_gradient_accumulation_steps (world_size local_batch_size global_batch_size : nat) : result nat :=
  let denom := world_size * local_batch_size in
  r ← py_mod global_batch_size denom;
  _ ← py_assert (r =? 0);
  py_div global_batch_size denom.

Definition compute_samples_per_epoch (dataset_size global_batch_size : nat) : result nat :=
  q ← py_div dataset_size global_batch_size;
  let samples_per_epoch := q * global_batch_size in
  _ ← py_assert (0 <? samples_per_epoch);
  Ok samples_per_epoch.

Record Schedule : Type := mkSchedule {
  gradient_accumulation_steps : nat;
  samples_per_epoch : nat;
  per_rank_samples_per_epoch : nat;
  micro_batches_per_epoch : nat;
  steps_per_epoch : nat;
  resolved_max_train_steps : nat;
  resolved_num_train_epochs : nat;
}.

Definition compute_training_schedule (world_size dataset_size local_batch_size global_batch_size num_train_epochs : nat)
    (max_train_steps : option nat) : result Schedule :=
  gas ← compute_gradient_accumulation_steps world_size local_batch_size global_batch_size;
  samples ← compute_samples_per_epoch dataset_size global_batch_size;
  per_rank ← py_div samples world_size;
  micro ← py_div per_rank local_batch_size;
  steps ← py_div micro gas;
  match max_train_steps with
  | None => Ok (mkSchedule gas samples per_rank micro steps (num_train_epochs * steps) num_train_epochs)
  | Some m =>
      epochs ← py_div (m + (steps - 1)) steps;
      Ok (mkSchedule gas samples per_rank micro steps m epochs)
  end.

Lemma py_div_Ok a b q : py_div a b = Ok q ↔ b ≠ 0 ∧ q = a / b.
Proof. unfold py_div. destruct (Nat.eqb_spec b 0); cbn; naive_solver. Qed.
Lemma py_mod_Ok a b q : py_mod a b = Ok q ↔ b ≠ 0 ∧ q = a mod b.
Proof. unfold py_mod. destruct (Nat.eqb_spec b 0); cbn; naive_solver. Qed.

Lemma py_mod_nonzero a b : b ≠ 0 → py_mod a b = Ok (a mod b).
Proof. intros Hb. by apply py_mod_Ok. Qed.

(** What every schedule satisfies: an epoch is made of whole global batches, which split evenly
    over ranks, micro-batches and accumulation steps. *)
Record schedule_ok (world_size dataset_size local_batch_size global_batch_size : nat) (s : Schedule) : Prop := {
  sc_global : global_batch_size = gradient_accumulation_steps s * (world_size * local_batch_size);
  sc_gas : 0 < gradient_accumulation_steps s;
  sc_epoch : samples_per_epoch s = steps_per_epoch s * global_batch_size;
  sc_steps : 0 < steps_per_epoch s;
  sc_dataset : samples_per_epoch s ≤ dataset_size < samples_per_epoch s + global_batch_size;
  sc_per_rank : samples_per_epoch s = per_rank_samples_per_epoch s * world_size;
  sc_micro : per_rank_samples_per_epoch s = micro_batches_per_epoch s * local_batch_size;
  sc_accum : micro_batches_per_epoch s = steps_per_epoch s * gradient_accumulation_steps s;
}.

Lemma compute_training_schedule_ok world_size dataset_size local_batch_size global_batch_size num_train_epochs max_train_steps s :
  compute_training_schedule world_size dataset_size local_batch_size global_batch_size num_train_epochs max_train_steps = Ok s →
  schedule_ok world_size dataset_size local_batch_size global_batch_size s.
Proof.
  unfold compute_training_schedule. intros (gas & Hgas & (samples & Hsam & (per_rank & Hper & (micro & Hmic & (steps & Hst & Hs)
    %result_bind_Ok)%result_bind_Ok)%result_bind_Ok)%result_bind_Ok)%result_bind_Ok.
  unfold compute_gradient_accumulation_steps in Hgas. apply result_bind_Ok in Hgas as (r & Hr & (? & Ha & Hgas)%result_bind_Ok).
  apply py_check_Ok in Ha. apply Nat.eqb_eq in Ha. apply py_mod_Ok in Hr as [Hden Hr]. apply py_div_Ok in Hgas as [_ Hgas].
  unfold compute_samples_per_epoch in Hsam. apply result_bind_Ok in Hsam as (q & Hq & (? & Hpos & [= Hsam])%result_bind_Ok).
  apply py_check_Ok in Hpos. apply Nat.ltb_lt in Hpos. apply py_div_Ok in Hq as [Hg0 Hq].
  apply py_div_Ok in Hper as [Hw0 Hper]. apply py_div_Ok in Hmic as [Hl0 Hmic]. apply py_div_Ok in Hst as [Hgas0 Hst].
  assert (Hglob : global_batch_size = gas * (world_size * local_batch_size)).
  { pose proof (Nat.div_mod_eq global_batch_size (world_size * local_batch_size)). lia. }
  assert (E1 : per_rank = q * gas * local_batch_size).
  { rewrite Hper, <- Hsam, Hglob. replace (q * (gas * (world_size * local_batch_size))) with (q * gas * local_batch_size * world_size) by lia.
    by apply Nat.div_mul. }
  assert (E2 : micro = q * gas) by (rewrite Hmic, E1; by apply Nat.div_mul).
  assert (E3 : steps = q) by (rewrite Hst, E2; by apply Nat.div_mul).
  assert (Hd : q * global_batch_size ≤ dataset_size < q * global_batch_size + global_batch_size).
  { rewrite Hq. pose proof (Nat.div_mod_eq dataset_size global_batch_size). pose proof (Nat.mod_upper_bound dataset_size global_batch_size Hg0). lia. }
  assert (Hfields : gradient_accumulation_steps s = gas ∧ samples_per_epoch s = samples ∧ per_rank_samples_per_epoch s = per_rank ∧
    micro_batches_per_epoch s = micro ∧ steps_per_epoch s = steps).
  { destruct max_train_steps as [m|]; [apply result_bind_Ok in Hs as (e & _ & [= <-])|injection Hs as <-]; done. }
  destruct Hfields as (F1 & F2 & F3 & F4 & F5). split; rewrite ?F1, ?F2, ?F3, ?F4, ?F5; subst; try nia.
Qed.

(** ** The sampler *)

(** [torch.randperm(n, generator=g)] with [g] seeded. *)
Class RandPerm : Type := randperm : Z → nat → list nat.
Class RandPermLaws `{RandPerm} : Prop := randperm_perm : ∀ seed n, randperm seed n ≡ₚ seq 0 n.

(** [l[start:stop:step]] with a positive step. *)
Definition py_stride {A} (start stop step : nat) (l : list A) : list A :=
  omap (λ k, l !! (start + k * step)) (seq 0 ((Nat.min stop (length l) - start + (step - 1)) / step)).

Record Sampler : Type := mkSampler {
  num_replicas : nat;
  sampler_rank : nat;
  total_size : nat;
  sampler_seed : Z;
  sampler_dataset_size : nat;
  per_rank_len_per_epoch : nat;
  global_offset : nat;
  sampler_num_samples : option nat;
}.

Definition sampler_init (dataset_size num_replicas rank total_size : nat) (seed : Z) (start : nat) (num_samples : option nat)
  : result Sampler :=
  _ ← py_assert (0 <? dataset_size);
  _ ← py_assert (0 <? total_size);
  _ ← py_assert (total_size <=? dataset_size);
  r ← py_mod total_size num_replicas;
  _ ← py_assert (r =? 0);
  n ← py_div total_size num_replicas;
  Ok (mkSampler num_replicas rank total_size seed dataset_size n start num_samples).

(** [__len__]. *)
Definition sampler_len (s : Sampler) : nat :=
  match sampler_num_samples s with
  | Some n => n
  | None =>
      let m := global_offset s mod per_rank_len_per_epoch s in
      if m =? 0 then per_rank_len_per_epoch s else per_rank_len_per_epoch s - m
  end.

Section sampler.
Context `{RandPerm}.

Definition epoch_perm (s : Sampler) (epoch_idx : nat) : list nat :=
  take (total_size s) (randperm (sampler_seed s + Z.of_nat epoch_idx) (sampler_dataset_size s)).

Definition epoch_slice_for_rank (s : Sampler) (perm : list nat) : list nat :=
  py_stride (sampler_rank s) (total_size s) (num_replicas s) perm.

(** The generator [_iter_stream], resumed [n] times: [rest] is what its current [for] loop still
    has to yield. *)
Fixpoint stream_next (fuel n : nat) (s : Sampler) (epoch_idx : nat) (rest : list nat) : result (list nat) :=
  match n with
  | 0 => Ok []
  | S n' =>
      match fuel with
      | 0 => Raise OutOfFuel
      | S fuel =>
          match rest with
          | i :: rest => l ← stream_next fuel n' s epoch_idx rest; Ok (i :: l)
          | [] => stream_next fuel n s (S epoch_idx) (epoch_slice_for_rank s (epoch_perm s (S epoch_idx)))
          end
      end
  end.

(** [__iter__]. *)
Definition sampler_iter (s : Sampler) : result (list nat) :=
  let epoch_idx := global_offset s / per_rank_len_per_epoch s in
  let offset_in_epoch := global_offset s mod per_rank_len_per_epoch s in
  stream_next (2 * sampler_len s) (sampler_len s) s epoch_idx
    (drop offset_in_epoch (epoch_slice_for_rank s (epoch_perm s epoch_idx))).
End sampler.

(** ** The stream of a rank *)

Lemma omap_lookup_total {A B} (f : A → option B) (l : list A) i :
  Forall (λ x, is_Some (f x)) l → omap f l !! i = l !! i ≫= f.
Proof.
  intros Hl. revert i. induction Hl as [|x l [y Hy] _ IH]; intros i; [done|]. cbn. rewrite Hy. destruct i as [|i]; cbn; [by rewrite Hy|apply IH].
Qed.

Lemma stride_count P R r : r < R → (P * R - r + (R - 1)) / R = P.
Proof.
  intros Hr. destruct (decide (P = 0)) as [->|HP].
  - apply Nat.div_small. lia.
  - replace (P * R - r + (R - 1)) with (R - 1 - r + P * R) by nia. rewrite Nat.div_add by lia. rewrite Nat.div_small by lia. lia.
Qed.

Lemma stride_index r k P R : r < R → k < P → r + k * R < P * R.
Proof. nia. Qed.

Lemma py_stride_omap {A} r P R (l : list A) :
  r < R → length l = P * R → py_stride r (P * R) R l = omap (λ k, l !! (r + k * R)) (seq 0 P).
Proof. intros Hr Hl. unfold py_stride. by rewrite Hl, Nat.min_id, stride_count. Qed.

Lemma py_stride_lookup {A} r P R (l : list A) k :
  r < R → length l = P * R → py_stride r (P * R) R l !! k = (if decide (k < P) then l !! (r + k * R) else None).
Proof.
  intros Hr Hl. rewrite py_stride_omap, omap_lookup_total by done || (apply Forall_forall; intros j Hj%elem_of_seq; apply lookup_lt_is_Some_2; rewrite Hl; apply stride_index; lia).
  destruct (decide (k < P)).
  - by rewrite lookup_seq_lt by done.
  - by rewrite lookup_seq_ge by lia.
Qed.

Lemma py_stride_length {A} r P R (l : list A) : r < R → length l = P * R → length (py_stride r (P * R) R l) = P.
Proof.
  intros Hr Hl. apply Nat.le_antisymm.
  - apply lookup_ge_None. rewrite py_stride_lookup by done. by rewrite decide_False by lia.
  - destruct P as [|P]; [lia|]. assert (is_Some (py_stride r (S P * R) R l !! P)) as Hx%lookup_lt_is_Some; [|lia].
    rewrite py_stride_lookup, decide_True by (done || lia). apply lookup_lt_is_Some_2. rewrite Hl. apply stride_index; lia.
Qed.

(** The strides of all ranks partition the list. *)
Lemma concat_snoc_perm {A} (f : nat → list A) (g : nat → A) rs :
  concat ((λ r, f r ++ [g r]) <$> rs) ≡ₚ concat (f <$> rs) ++ (g <$> rs).
Proof.
  induction rs as [|r rs IH]; [done|]. cbn [fmap list_fmap concat]. rewrite IH, <- !app_assoc. apply Permutation_app_head.
  cbn [app]. by rewrite Permutation_middle.
Qed.

Lemma stride_indices P R : concat ((λ r, (λ k, r + k * R) <$> seq 0 P) <$> seq 0 R) ≡ₚ seq 0 (P * R).
Proof.
  induction P as [|P IH].
  - cbn. generalize (seq 0 R). intros l. by induction l.
  - assert (E : (λ r, (λ k, r + k * R) <$> seq 0 (S P)) <$> seq 0 R = (λ r, ((λ k, r + k * R) <$> seq 0 P) ++ [r + P * R]) <$> seq 0 R).
    { apply list_fmap_ext. intros i r _. by rewrite seq_S, fmap_app. }
    rewrite E, (concat_snoc_perm (λ r, (λ k, r + k * R) <$> seq 0 P) (λ r, r + P * R)), IH. rewrite Nat.mul_succ_l, seq_app. apply Permutation_app_head.
    rewrite (fmap_seq_shift id (0 + P * R) R) || idtac. cbn [Nat.add].
    rewrite <- (list_fmap_id (seq (P * R) R)), (fmap_seq_shift id (P * R) R). apply reflexive_eq, list_fmap_ext. intros i r _. unfold id. lia.
Qed.

Lemma omap_concat {A B} (f : A → option B) (ls : list (list A)) : omap f (concat ls) = concat ((λ l : list A, omap f l) <$> ls).
Proof. induction ls as [|l ls IH]; [done|]. cbn. by rewrite omap_app, IH. Qed.

Lemma omap_fmap {A B C} (f : B → option C) (g : A → B) (l : list A) : omap f (g <$> l) = omap (λ x, f (g x)) l.
Proof. induction l as [|x l IH]; [done|]. cbn. by rewrite IH. Qed.

Lemma omap_seq_id {A} (l : list A) : omap (λ j, l !! j) (seq 0 (length l)) = l.
Proof.
  apply list_eq. intros i. rewrite omap_lookup_total by (apply Forall_forall; intros j Hj%elem_of_seq; apply lookup_lt_is_Some_2; lia).
  destruct (decide (i < length l)).
  - by rewrite lookup_seq_lt by done.
  - rewrite lookup_seq_ge, lookup_ge_None_2 by lia. done.
Qed.

Lemma strides_partition {A} P R (l : list A) :
  length l = P * R → concat ((λ r, py_stride r (P * R) R l) <$> seq 0 R) ≡ₚ l.
Proof.
  intros Hl. assert (E : (λ r, py_stride r (P * R) R l) <$> seq 0 R = (λ js : list nat, omap (λ j, l !! j) js) <$> ((λ r, (λ k, r + k * R) <$> seq 0 P) <$> seq 0 R)).
  { rewrite <- list_fmap_compose. apply list_fmap_ext. intros i r Hr. apply lookup_seq in Hr as [-> Hr]. unfold compose.
    rewrite py_stride_omap by done. by rewrite omap_fmap. }
  rewrite E, <- omap_concat, stride_indices, <- Hl. by rewrite omap_seq_id.
Qed.

Section stream.
Context `{RandPermLaws}.

(** Sample [j] of rank [r]'s endless stream: it depends on nothing but the seed and the sizes. *)
Definition stream_at (dataset_size R P : nat) (seed : Z) (r j : nat) : nat :=
  default 0 (py_stride r (P * R) R (take (P * R) (randperm (seed + Z.of_nat (j / P)) dataset_size)) !! (j mod P)).

Lemma epoch_perm_length dataset_size total seed e :
  total ≤ dataset_size → length (take total (randperm (seed + Z.of_nat e) dataset_size)) = total.
Proof. intros Ht. rewrite length_take, (Permutation_length (randperm_perm _ _)), length_seq. lia. Qed.

Lemma stream_next_ok s P : 
  total_size s = P * num_replicas s → 0 < P → sampler_rank s < num_replicas s → total_size s ≤ sampler_dataset_size s →
  ∀ fuel n e o, (o < P → 2 * n ≤ S fuel) → (o = P → 2 * n ≤ fuel) → o ≤ P →
    stream_next fuel n s e (drop o (epoch_slice_for_rank s (epoch_perm s e))) =
      Ok (stream_at (sampler_dataset_size s) (num_replicas s) P (sampler_seed s) (sampler_rank s) <$> seq (e * P + o) n).
Proof.
  intros Ht HP Hr Hd. induction fuel as [|fuel IH]; intros n e o H1 H2 Ho; (destruct n as [|n]; [done|]).
  { destruct (decide (o < P)); [specialize (H1 ltac:(done))|specialize (H2 ltac:(lia))]; lia. }
  assert (Hl : ∀ e, length (epoch_perm s e) = P * num_replicas s) by (intros e'; unfold epoch_perm; rewrite <- Ht; by apply epoch_perm_length).
  assert (Hs : ∀ e, length (epoch_slice_for_rank s (epoch_perm s e)) = P) by (intros e'; unfold epoch_slice_for_rank; rewrite Ht; by apply py_stride_length).
  destruct (decide (o < P)) as [Hlt|].
  - destruct (lookup_lt_is_Some_2 (epoch_slice_for_rank s (epoch_perm s e)) o) as [i Hi]; [by rewrite Hs|].
    rewrite (drop_S _ _ _ Hi). cbn [stream_next]. rewrite IH by lia. cbn [mbind result_bind seq fmap list_fmap]. do 2 f_equal.
    + unfold stream_at. rewrite Nat.div_add_l, (Nat.div_small o P), Nat.add_0_r by lia.
      rewrite (Nat.add_comm (e * P)), Nat.Div0.mod_add, Nat.mod_small by done. unfold epoch_slice_for_rank, epoch_perm in Hi. rewrite Ht in Hi. by rewrite Hi.
    + by rewrite <- Nat.add_succ_r.
  - assert (o = P) as -> by lia. rewrite drop_ge by (by rewrite Hs). cbn [stream_next].
    rewrite <- (drop_0 (epoch_slice_for_rank s (epoch_perm s (S e)))). rewrite IH by lia. by replace (S e * P + 0) with (e * P + P) by lia.
Qed.

(** A sampler started anywhere yields the stream from there on. *)
Lemma sampler_iter_ok dataset_size R P seed r start num_samples :
  0 < R → 0 < P → P * R ≤ dataset_size → r < R →
  ∃ s, sampler_init dataset_size R r (P * R) seed start num_samples = Ok s ∧
    sampler_iter s = Ok (stream_at dataset_size R P seed r <$> seq start (sampler_len s)) ∧
    sampler_len s = default (P - start mod P) num_samples.
Proof.
  intros HR HP Hd Hr. unfold sampler_init, py_assert. rewrite !py_check_true by (apply Nat.ltb_lt || apply Nat.leb_le; nia).
  cbn [mbind result_bind]. unfold py_mod, py_div. rewrite !py_check_true by (apply negb_true_iff, Nat.eqb_neq; lia). cbn [mbind result_bind].
  rewrite Nat.Div0.mod_mul. cbn [Nat.eqb py_check mbind result_bind]. rewrite Nat.div_mul by lia. eexists. split; [done|]. split.
  - unfold sampler_iter. cbn [global_offset per_rank_len_per_epoch]. pose proof (Nat.mod_upper_bound start P ltac:(lia)).
    set (s := mkSampler _ _ _ _ _ _ _ _). rewrite (stream_next_ok s P) by (cbn; lia). cbn [sampler_dataset_size num_replicas sampler_seed sampler_rank s].
    do 3 f_equal. pose proof (Nat.div_mod_eq start P). lia.
  - unfold sampler_len. cbn. destruct num_samples as [n|]; [done|]. cbn. destruct (Nat.eqb_spec (start mod P) 0) as [->|]; lia.
Qed.

(** The streams of an epoch are the ranks' slices of its permutation. *)
Lemma epoch_streams dataset_size R P seed e :
  P * R ≤ dataset_size →
  concat ((λ r, stream_at dataset_size R P seed r <$> seq (e * P) P) <$> seq 0 R) ≡ₚ take (P * R) (randperm (seed + Z.of_nat e) dataset_size).
Proof.
  intros Hd. pose proof (epoch_perm_length dataset_size (P * R) seed e Hd) as Hl. etrans; [|exact (strides_partition P R _ Hl)].
  apply reflexive_eq. f_equal. apply list_fmap_ext. intros i r Hr. apply lookup_seq in Hr as [-> Hr]. apply list_eq. intros k.
  rewrite list_lookup_fmap. destruct (decide (k < P)) as [Hk|Hk].
  - rewrite lookup_seq_lt by done. cbn [fmap option_fmap option_map]. unfold stream_at. rewrite Nat.div_add_l, Nat.div_small, Nat.add_0_r by lia.
    rewrite (Nat.add_comm (e * P)), Nat.Div0.mod_add, Nat.mod_small by done.
    destruct (lookup_lt_is_Some_2 (py_stride (0 + i) (P * R) R (take (P * R) (randperm (seed + Z.of_nat e) dataset_size))) k) as [x Hx]; [by rewrite py_stride_length|].
    by rewrite Hx.
  - rewrite lookup_seq_ge, lookup_ge_None_2 by (rewrite ?py_stride_length by done; lia). done.
Qed.

(** The sampler of a rank, started anywhere, yields the rank's endless stream from that
    position on, whose elements depend only on the seed, the sizes and the position, so that
    sampling can be cut and resumed anywhere; and in every epoch the streams of all ranks
    together visit the epoch's shuffled samples exactly once. *)
Theorem sampler_streams dataset_size R P seed :
  0 < R → 0 < P → P * R ≤ dataset_size →
  (∀ r start num_samples, r < R →
     ∃ s, sampler_init dataset_size R r (P * R) seed start num_samples = Ok s ∧
       sampler_iter s = Ok (stream_at dataset_size R P seed r <$> seq start (sampler_len s)) ∧
       sampler_len s = default (P - start mod P) num_samples) ∧
  (∀ e, let seen := concat ((λ r, stream_at dataset_size R P seed r <$> seq (e * P) P) <$> seq 0 R) in
     seen ≡ₚ take (P * R) (randperm (seed + Z.of_nat e) dataset_size) ∧ NoDup seen ∧ Forall (λ i, i < dataset_size) seen).
Proof.
  intros HR HP Hd. split; [intros r start num Hr; by apply sampler_iter_ok|]. intros e seen.
  pose proof (epoch_streams dataset_size R P seed e Hd) as Hseen. fold seen in Hseen. split; [exact Hseen|]. split.
  - rewrite Hseen. apply NoDup_take. rewrite (randperm_perm _ _). apply NoDup_seq.
  - rewrite Hseen. apply Forall_take. rewrite (randperm_perm _ _). apply Forall_forall. intros i Hi%elem_of_seq. lia.
Qed.
End stream.

(** Seven samples on three ranks, two per rank and epoch. *)
#[local] Instance flip_perm : RandPerm := λ seed n, if Z.even seed then seq 0 n else reverse (seq 0 n).
#[local] Instance flip_laws : RandPermLaws.
Proof. intros seed n. unfold randperm, flip_perm. destruct (Z.even seed); [done|]. apply reverse_Permutation. Qed.

Lemma sampler_streams_witness :
  (∀ r start num_samples, r < 3 →
     ∃ s, sampler_init 7 3 r 6 42 start num_samples = Ok s ∧
       sampler_iter s = Ok (stream_at 7 3 2 42 r <$> seq start (sampler_len s)) ∧ sampler_len s = default (2 - start mod 2) num_samples) ∧
  (∀ e, let seen := concat ((λ r, stream_at 7 3 2 42 r <$> seq (e * 2) 2) <$> seq 0 3) in
     seen ≡ₚ take 6 (randperm (42 + Z.of_nat e) 7) ∧ NoDup seen ∧ Forall (λ i, i < 7) seen).
Proof. apply (sampler_streams 7 3 2 42); lia. Defined.
