(* ===== verification/TrainLoop.v ===== *)
(** * TrainLoop: the training loop and its checkpoints

    [BaseTrainer.train] of [DeepSpec/deepspec/trainer/base_trainer.py] with [save_checkpoint] and
    [load_training_state] of [ckpt_manager.py] and the [CUDAPrefetcher], for all ranks in lock
    step.  The model with its optimizer, the gradients and the devices' random generators are
    abstract; one micro-step is a function of them and of the dataset indices of the ranks'
    batches.  The generators of the host, from which no micro-step draws, profiling and logging
    are not modelled, and a checkpoint reaches the disk as a whole. *)

From S2P Require Import Prelude TrainSampler.
#[local] Open Scope nat_scope.

(** ** [CUDAPrefetcher] *)

(** [iter_rest] is what the loader has not given yet; the background fetch is over before the
    next access, which joins its thread. *)
Record Prefetcher (B : Type) : Type := mkPrefetcher {
  iter_rest : list B;
  pf_done : bool;
  gpu_batch : option B;
}.
Arguments mkPrefetcher {B}.
Arguments iter_rest {B}.
Arguments pf_done {B}.
Arguments gpu_batch {B}.

Definition fetch_and_transfer {B} (p : Prefetcher B) : Prefetcher B :=
  match iter_rest p with
  | [] => mkPrefetcher [] true (gpu_batch p)
  | b :: rest => mkPrefetcher rest (pf_done p) (Some b)
  end.
Definition prefetch_iter {B} (loader : list B) : Prefetcher B := fetch_and_transfer (mkPrefetcher loader false None).
(** [__next__]: [None] is [StopIteration]. *)
Definition prefetch_next {B} (p : Prefetcher B) : result (option (B * Prefetcher B)) :=
  if pf_done p then Ok None
  else match gpu_batch p with Some b => Ok (Some (b, fetch_and_transfer p)) | None => Raise AttributeError end.

(** The batches of a [for] loop over the prefetcher. *)
Fixpoint prefetched {B} (fuel : nat) (p : Prefetcher B) : result (list B) :=
  match fuel with
  | 0 => Raise OutOfFuel
  | S fuel =>
      o ← prefetch_next p;
      match o with None => Ok [] | Some (b, p) => l ← prefetched fuel p; Ok (b :: l) end
  end.

Lemma prefetched_ok {B} (loader : list B) : prefetched (S (length loader)) (prefetch_iter loader) = Ok loader.
Proof.
  assert (Hgen : ∀ (rest : list B) b, prefetched (S (S (length rest))) (mkPrefetcher rest false (Some b)) = Ok (b :: rest)).
  { induction rest as [|b' rest IH]; intros b; [done|]. cbn [length]. set (n := S (S (length rest))) in *. cbn [prefetched].
    unfold prefetch_next. cbn [pf_done gpu_batch mbind result_bind]. unfold fetch_and_transfer. cbn [iter_rest pf_done]. by rewrite IH. }
  destruct loader as [|b rest]; [done|]. apply Hgen.
Qed.

(** ** The trainer *)

(** [DataLoader] with [drop_last]. *)
Class BatchLoader : Type := load_index_batches : nat → list nat → list (list nat).
Class BatchLoaderLaws `{BatchLoader} : Prop := load_whole : ∀ k n l, 0 < k → length l = n * k →
  load_index_batches k l = (λ i, take k (drop (i * k) l)) <$> seq 0 n.

(** What the ranks see in a micro-step: a batch of dataset indices each. *)
Notation WorldBatch := (list (list nat)).

Section train.
Context `{RandPerm} `{BatchLoader}.
Context {M G R : Type} (zero_grads : G).
(** [run_batch] and [backward] on all ranks; clipping and [optimizer.step()]. *)
Context (backward : M → R → G → WorldBatch → G * R) (optimizer_step : M → G → M).

Record TrainState : Type := mkTrain {
  ts_model : M;
  ts_grads : G;
  ts_rng : R;
  next_micro_step : nat;
}.

Record Checkpoint : Type := mkCheckpoint {
  ck_model : M;
  ck_rng : R;
  ck_next_micro_step : nat;
  ck_world_size : nat;
  ck_local_batch_size : nat;
}.

Record TrainArgs : Type := mkArgs {
  world_size : nat;
  dataset_size : nat;
  local_batch_size : nat;
  seed : Z;
  checkpointing_steps : nat;
  schedule : Schedule;
}.

Context (args : TrainArgs).
Notation gas := (gradient_accumulation_steps (schedule args)).

Definition global_step (ts : TrainState) : nat := next_micro_step ts / gas.

Definition save_checkpoint (ts : TrainState) : result Checkpoint :=
  _ ← py_assert (next_micro_step ts mod gas =? 0);
  Ok (mkCheckpoint (ts_model ts) (ts_rng ts) (next_micro_step ts) (world_size args) (local_batch_size args)).

Definition load_training_state (ck : Checkpoint) : result TrainState :=
  _ ← py_assert (ck_next_micro_step ck mod gas =? 0);
  _ ← py_assert (ck_world_size ck =? world_size args);
  _ ← py_assert (ck_local_batch_size ck =? local_batch_size args);
  Ok (mkTrain (ck_model ck) zero_grads (ck_rng ck) (ck_next_micro_step ck)).

(** [should_sync], and the state after one batch. *)
Definition should_sync (ts : TrainState) : bool := (next_micro_step ts + 1) mod gas =? 0.
Definition micro_step (ts : TrainState) (b : WorldBatch) : TrainState :=
  let '(g, r) := backward (ts_model ts) (ts_rng ts) (ts_grads ts) b in
  if should_sync ts then mkTrain (optimizer_step (ts_model ts) g) zero_grads r (next_micro_step ts + 1)
  else mkTrain (ts_model ts) g r (next_micro_step ts + 1).

(** [global_step % checkpointing_steps == 0 or global_step % steps_per_epoch == 0] *)
Definition checkpoint_due (ts : TrainState) : result bool :=
  a ← py_mod (global_step ts) (checkpointing_steps args);
  if a =? 0 then Ok true
  else b ← py_mod (global_step ts) (steps_per_epoch (schedule args)); Ok (b =? 0).

(** The loop of [train]: the checkpoints saved, in order, and whether it was suspended. *)
Fixpoint train_loop (batches : list WorldBatch) (requested : nat → bool) (ts : TrainState) (saved : list Checkpoint)
  : result (TrainState * list Checkpoint * bool) :=
  match batches with
  | [] => Ok (ts, saved, false)
  | b :: batches =>
      let sync := should_sync ts in
      let ts := micro_step ts b in
      if negb sync then train_loop batches requested ts saved
      else
        due ← checkpoint_due ts;
        saved ← (if (due : bool) then ck ← save_checkpoint ts; Ok (saved ++ [ck]) else Ok saved);
        if requested (global_step ts) then ck ← save_checkpoint ts; Ok (ts, saved ++ [ck], true)
        else train_loop batches requested ts saved
  end.

(** [_build_train_dataloader] of one rank. *)
Definition rank_batches (start_offset_samples num_samples r : nat) : result (list (list nat)) :=
  s ← sampler_init (dataset_size args) (world_size args) r (samples_per_epoch (schedule args)) (seed args) start_offset_samples (Some num_samples);
  indices ← sampler_iter s;
  let loader := load_index_batches (local_batch_size args) indices in
  prefetched (S (length loader)) (prefetch_iter loader).

(** The ranks in lock step. *)
Definition lockstep (ranks : list (list (list nat))) : list WorldBatch :=
  match ranks with [] => [] | bs :: _ => imap (λ i _, omap (λ l : list (list nat), l !! i) ranks) bs end.

Definition train (requested : nat → bool) (ts : TrainState) : result (TrainState * list Checkpoint * bool) :=
  let max_train_steps := resolved_max_train_steps (schedule args) in
  if max_train_steps <=? global_step ts then Ok (ts, [], false)
  else
    let total_micro_steps := max_train_steps * gas in
    let remaining_micro_steps := total_micro_steps - next_micro_step ts in
    let remaining_samples := remaining_micro_steps * local_batch_size args in
    ranks ← mapM (rank_batches (next_micro_step ts * local_batch_size args) remaining_samples) (seq 0 (world_size args));
    '(ts, saved, suspended) ← train_loop (lockstep ranks) requested ts [];
    if (suspended : bool) then Ok (ts, saved, true)
    else ck ← save_checkpoint ts; Ok (ts, saved ++ [ck], false).

(** ** Sessions *)

(** One start of the job: when it is asked to suspend, and, if it is killed, after how many
    saved checkpoints. *)
Record Session : Type := mkSession {
  requested : nat → bool;
  killed_after : option nat;
}.

(** The latest checkpoint after a session, and the state of a session that ended by itself. *)
Definition run_session (fresh : TrainState) (latest : option Checkpoint) (s : Session) : result (option Checkpoint * option TrainState) :=
  ts ← match latest with None => Ok fresh | Some ck => load_training_state ck end;
  '(ts, saved, suspended) ← train (requested s) ts;
  let on_disk := match killed_after s with None => saved | Some k => take k saved end in
  Ok (match list.last on_disk with Some ck => Some ck | None => latest end,
      match killed_after s with None => if (suspended : bool) then None else Some ts | Some _ => None end).

Fixpoint run_sessions (fresh : TrainState) (latest : option Checkpoint) (l : list Session) : result (option Checkpoint * option TrainState) :=
  match l with
  | [] => Ok (latest, None)
  | s :: l =>
      '(latest, ended) ← run_session fresh latest s;
      match ended with Some ts => Ok (latest, Some ts) | None => run_sessions fresh latest l end
  end.
End train.
