(* ===== verification/TrainResume.v ===== *)
(** * TrainResume: an interrupted training run is the uninterrupted one

    Whatever sessions are suspended or killed, every checkpoint is a state of the uninterrupted
    run, and the session that ends ends in its last state. *)

From S2P Require Import Prelude TrainSampler TrainLoop.
#[local] Open Scope nat_scope.

Section resume.
Context `{RandPermLaws} `{BatchLoaderLaws}.
Context {M G R : Type} (zero_grads : G) (backward : M → R → G → WorldBatch → G * R) (optimizer_step : M → G → M).
Context (args : TrainArgs).
Notation sch := (schedule args).
Notation gas := (gradient_accumulation_steps sch).
Notation W := (world_size args).
Notation L := (local_batch_size args).
Notation P := (per_rank_samples_per_epoch sch).
Notation max_steps := (resolved_max_train_steps sch).
Notation State := (@TrainState M G R).

(** ** The uninterrupted run *)

(** The batches of micro-step [j]: the next samples of every rank's stream. *)
Definition batch_at (j : nat) : WorldBatch :=
  (λ r, stream_at (dataset_size args) W P (seed args) r <$> seq (j * L) L) <$> seq 0 W.

Context (model0 : M) (rng0 : R).
Definition fresh : State := mkTrain model0 zero_grads rng0 0.
Definition uninterrupted (j : nat) : State :=
  foldl (micro_step zero_grads backward optimizer_step args) fresh (batch_at <$> seq 0 j).

Lemma uninterrupted_S j : uninterrupted (S j) = micro_step zero_grads backward optimizer_step args (uninterrupted j) (batch_at j).
Proof. unfold uninterrupted. by rewrite seq_S, fmap_app, foldl_app. Qed.

Lemma micro_step_next ts b : next_micro_step (micro_step zero_grads backward optimizer_step args ts b) = next_micro_step ts + 1.
Proof. unfold micro_step. destruct (backward _ _ _ _). by destruct (should_sync args ts). Qed.

Lemma uninterrupted_next j : next_micro_step (uninterrupted j) = j.
Proof. induction j as [|j IH]; [done|]. rewrite uninterrupted_S, micro_step_next, IH. lia. Qed.

(** At an accumulation boundary no gradient is pending. *)
Lemma uninterrupted_grads j : j mod gas = 0 → ts_grads (uninterrupted j) = zero_grads.
Proof.
  destruct j as [|j]; [done|]. intros Hj. rewrite uninterrupted_S. unfold micro_step, should_sync. rewrite uninterrupted_next, Nat.add_1_r, Hj.
  destruct (backward _ _ _ _). done.
Qed.

Definition checkpoint_of (ts : State) : @Checkpoint M R := mkCheckpoint (ts_model ts) (ts_rng ts) (next_micro_step ts) W L.

Lemma save_ok j : j mod gas = 0 → save_checkpoint args (uninterrupted j) = Ok (checkpoint_of (uninterrupted j)).
Proof. intros Hj. unfold save_checkpoint, checkpoint_of, py_assert. by rewrite uninterrupted_next, Hj. Qed.

Lemma load_ok j : j mod gas = 0 → load_training_state zero_grads args (checkpoint_of (uninterrupted j)) = Ok (uninterrupted j).
Proof.
  intros Hj. unfold load_training_state, checkpoint_of, py_assert. cbn. rewrite uninterrupted_next, Hj, !Nat.eqb_refl. cbn.
  pose proof (uninterrupted_grads j Hj) as Hg. pose proof (uninterrupted_next j) as Hn. destruct (uninterrupted j) as [m g r n]. cbn in *. by subst.
Qed.

(** A checkpoint of the uninterrupted run. *)
Definition good (ck : @Checkpoint M R) : Prop := ∃ g, g ≤ max_steps ∧ ck = checkpoint_of (uninterrupted (g * gas)).

Lemma good_aligned j : 0 < gas → j mod gas = 0 → j ≤ max_steps * gas → good (checkpoint_of (uninterrupted j)).
Proof.
  intros Hg Hj Hle. exists (j / gas). rewrite (Nat.mul_comm (j / gas)). rewrite <- (proj2 (Nat.Div0.div_exact j gas)) by done.
  split; [|done]. apply Nat.Div0.div_le_upper_bound. lia.
Qed.

Context (Hschedule : schedule_ok W (dataset_size args) L (gas * (W * L)) sch) (Hcheckpointing : 0 < checkpointing_steps args).

(** ** Batches *)

Lemma sizes_pos : 0 < W ∧ 0 < L ∧ 0 < gas ∧ 0 < P ∧ P * W ≤ dataset_size args ∧ samples_per_epoch sch = P * W ∧ 0 < steps_per_epoch sch.
Proof. destruct Hschedule as [_ S2 S3 S4 S5 S6 S7 S8]. split_and!; try done; try nia. Qed.

Lemma rank_batches_ok m n r : r < W →
  rank_batches args (m * L) (n * L) r = Ok ((λ i, stream_at (dataset_size args) W P (seed args) r <$> seq ((m + i) * L) L) <$> seq 0 n).
Proof.
  intros Hr. destruct sizes_pos as (HW & HL & _ & HP & Hd & Hs & _). unfold rank_batches. rewrite Hs.
  destruct (sampler_iter_ok (dataset_size args) W P (seed args) r (m * L) (Some (n * L)) HW HP Hd Hr) as (s & Hi & Hit & Hlen).
  rewrite Hi. cbn [mbind result_bind]. rewrite Hit, Hlen. cbn [mbind result_bind default from_option]. unfold id.
  set (indices := _ <$> seq _ _). assert (Hil : length indices = n * L) by (unfold indices; by rewrite length_fmap, length_seq).
  rewrite (load_whole L n indices HL Hil). rewrite prefetched_ok. f_equal. apply list_fmap_ext. intros i k Hk. apply lookup_seq in Hk as [-> Hk].
  unfold indices. rewrite <- fmap_drop, <- fmap_take. f_equal. rewrite drop_seq, take_seq. f_equal; [lia|]. cbn [Nat.add]. nia.
Qed.

Lemma lockstep_ok m n :
  lockstep ((λ r, (λ i, stream_at (dataset_size args) W P (seed args) r <$> seq ((m + i) * L) L) <$> seq 0 n) <$> seq 0 W) = batch_at <$> seq m n.
Proof.
  destruct sizes_pos as (HW & _). unfold lockstep. set (ranks := _ <$> seq 0 W).
  assert (Hcol : ∀ i, i < n → omap (λ l : list (list nat), l !! i) ranks = batch_at (m + i)).
  { intros i Hi. unfold ranks, batch_at. rewrite omap_fmap.
    generalize (seq 0 W). intros rs. induction rs as [|r rs IH]; [done|]. cbn [omap list_omap]. rewrite list_lookup_fmap, lookup_seq_lt by done.
    cbn [fmap option_fmap option_map list_fmap Nat.add]. f_equal. exact IH. }
  destruct ranks as [|bs ranks'] eqn:E; [unfold ranks in E; destruct W; [lia|done]|].
  assert (Hbs : length bs = n).
  { assert (Hb : (bs :: ranks') !! 0 = Some bs) by done. rewrite <- E in Hb. unfold ranks in Hb. rewrite list_lookup_fmap, lookup_seq_lt in Hb by lia.
    injection Hb as <-. by rewrite length_fmap, length_seq. }
  apply list_eq. intros i. rewrite list_lookup_imap, list_lookup_fmap. destruct (decide (i < n)) as [Hi|Hi].
  - destruct (lookup_lt_is_Some_2 bs i) as [b ->]; [lia|]. rewrite lookup_seq_lt by done. cbn [fmap option_fmap option_map]. by rewrite Hcol.
  - by rewrite lookup_ge_None_2, lookup_seq_ge by lia.
Qed.

(** ** The loop *)

Lemma train_loop_ok requested n m saved :
  m + n = max_steps * gas → Forall good saved →
  ∃ ts saved' suspended, train_loop zero_grads backward optimizer_step args (batch_at <$> seq m n) requested (uninterrupted m) saved = Ok (ts, saved', suspended) ∧
    Forall good saved' ∧ (suspended = false → ts = uninterrupted (m + n)) ∧ ((∀ k, requested k = false) → suspended = false).
Proof.
  destruct sizes_pos as (_ & _ & Hg & _ & _ & _ & Hst). revert m saved. induction n as [|n IH]; intros m saved Hm Hsaved.
  { exists (uninterrupted m), saved, false. rewrite Nat.add_0_r. done. }
  cbn [seq fmap list_fmap train_loop]. rewrite <- uninterrupted_S. unfold should_sync. rewrite uninterrupted_next, Nat.add_1_r.
  replace (m + S n) with (S m + n) by lia. destruct (Nat.eqb_spec (S m mod gas) 0) as [Hs|Hs]; cbn [negb]; [|apply IH; [lia|done]].
  assert (Hdue : ∃ b, checkpoint_due args (uninterrupted (S m)) = Ok b).
  { unfold checkpoint_due. rewrite !py_mod_nonzero by lia. cbn [mbind result_bind].
    destruct (global_step args (uninterrupted (S m)) mod checkpointing_steps args =? 0); by eexists. }
  destruct Hdue as [due ->]. cbn [mbind result_bind]. rewrite (save_ok _ Hs).
  pose proof (good_aligned (S m) Hg Hs ltac:(lia)) as Hck. set (ck := checkpoint_of _) in *.
  set (saved1 := if due then saved ++ [ck] else saved). assert (Hsaved1 : Forall good saved1) by (unfold saved1; destruct due; [apply Forall_app; split; [done|by apply Forall_singleton]|done]).
  assert (E : (if due then ck ← Ok ck; Ok (saved ++ [ck]) else Ok saved) = Ok saved1) by (by destruct due). rewrite E. cbn [mbind result_bind].
  destruct (requested (global_step args (uninterrupted (S m)))) eqn:Er; [|apply IH; [lia|done]].
  eexists _, _, true. split; [done|]. split; [apply Forall_app; split; [done|by apply Forall_singleton]|]. split; [done|]. intros Hno. by rewrite Hno in Er.
Qed.

Lemma train_ok requested g : g ≤ max_steps →
  ∃ ts saved suspended, train zero_grads backward optimizer_step args requested (uninterrupted (g * gas)) = Ok (ts, saved, suspended) ∧
    Forall good saved ∧ (suspended = false → ts = uninterrupted (max_steps * gas)) ∧ ((∀ k, requested k = false) → suspended = false).
Proof.
  intros Hgle. destruct sizes_pos as (_ & _ & Hg & _). unfold train. assert (Hstep : global_step args (uninterrupted (g * gas)) = g).
  { unfold global_step. rewrite uninterrupted_next. by apply Nat.div_mul; lia. }
  rewrite Hstep. destruct (Nat.leb_spec max_steps g) as [Hge|Hlt].
  { assert (g = max_steps) as -> by lia. eexists _, [], false. done. }
  rewrite uninterrupted_next. set (n := max_steps * gas - g * gas). assert (Hn : g * gas + n = max_steps * gas) by (unfold n; nia).
  rewrite (mapM_Ok_fmap _ (λ r, (λ i, stream_at (dataset_size args) W P (seed args) r <$> seq ((g * gas + i) * L) L) <$> seq 0 n)).
  2: { apply Forall_forall. intros r Hr%elem_of_seq. apply rank_batches_ok. lia. }
  cbn [mbind result_bind]. rewrite lockstep_ok.
  destruct (train_loop_ok requested n (g * gas) [] Hn ltac:(done)) as (ts & saved & susp & Hrun & Hsaved & Hend & Hno). rewrite Hrun. cbn [mbind result_bind].
  destruct susp; [by eexists _, _, true|]. rewrite (Hend eq_refl), Hn. rewrite save_ok by apply Nat.Div0.mod_mul. cbn [mbind result_bind].
  eexists _, _, false. split; [done|]. split; [|done]. apply Forall_app. split; [done|]. apply Forall_singleton. by exists max_steps.
Qed.

(** ** Sessions *)

Lemma session_ok latest s :
  (∀ ck, latest = Some ck → good ck) →
  ∃ latest' ended, run_session zero_grads backward optimizer_step args fresh latest s = Ok (latest', ended) ∧
    (∀ ck, latest' = Some ck → good ck) ∧ (∀ ts, ended = Some ts → ts = uninterrupted (max_steps * gas)) ∧
    (killed_after s = None → (∀ k, requested s k = false) → is_Some ended).
Proof.
  intros Hl. unfold run_session. assert (Hload : ∃ g, g ≤ max_steps ∧ (match latest with None => Ok fresh | Some ck => load_training_state zero_grads args ck end) = Ok (uninterrupted (g * gas))).
  { destruct latest as [ck|]; [|by exists 0; split; [lia|]]. destruct (Hl ck eq_refl) as (g & Hg & ->). exists g. split; [done|].
    apply load_ok, Nat.Div0.mod_mul. }
  destruct Hload as (g & Hg & ->). cbn [mbind result_bind]. destruct (train_ok (requested s) g Hg) as (ts & saved & susp & Hrun & Hsaved & Hend & Hno).
  rewrite Hrun. cbn [mbind result_bind]. eexists _, _. split; [done|]. split; [|split].
  - intros ck Hck. set (disk := match killed_after s with None => saved | Some k => take k saved end) in *.
    assert (Hd : Forall good disk) by (unfold disk; destruct (killed_after s); [by apply Forall_take|done]).
    destruct (list.last disk) as [ck'|] eqn:E; [|by apply Hl]. injection Hck as <-. rewrite Forall_forall in Hd. apply Hd. by apply last_Some_elem_of.
  - intros ts' Hts. destruct (killed_after s); [done|]. destruct susp; [done|]. injection Hts as <-. by apply Hend.
  - intros -> Hreq. rewrite (Hno Hreq). by eexists.
Qed.

Lemma sessions_ok l latest :
  (∀ ck, latest = Some ck → good ck) →
  ∃ latest' ended, run_sessions zero_grads backward optimizer_step args fresh latest l = Ok (latest', ended) ∧
    (∀ ck, latest' = Some ck → good ck) ∧ (∀ ts, ended = Some ts → ts = uninterrupted (max_steps * gas)) ∧
    (∀ l0 s, l = l0 ++ [s] → killed_after s = None → (∀ k, requested s k = false) → is_Some ended).
Proof.
  revert latest. induction l as [|s l IH]; intros latest Hl.
  { exists latest, None. split; [done|]. split; [done|]. split; [done|]. by intros [|? ?] ?. }
  cbn [run_sessions]. destruct (session_ok latest s Hl) as (latest1 & ended & Hrun & Hl1 & Hend & Hno). rewrite Hrun. cbn [mbind result_bind].
  destruct ended as [ts|].
  - eexists _, _. split; [done|]. split; [done|]. split; [done|]. by eexists.
  - destruct (IH latest1 Hl1) as (latest2 & ended2 & Hrun2 & Hl2 & Hend2 & Hno2). exists latest2, ended2. split; [done|]. split; [done|]. split; [done|].
    intros [|s0 l0] s1 E; injection E as -> E; [|by apply (Hno2 l0)]. intros Hk Hr. by destruct (Hno Hk Hr).
Qed.
End resume.

(** C10: a training job survives interruptions.  Whatever sessions it runs in, each suspended at
    any steps or killed after any of its checkpoints, it never raises; the latest checkpoint is
    always a state that the uninterrupted run passes through, resuming from it continues that
    run, and the session that ends ends in exactly the uninterrupted run's final state; a last
    session that is left alone ends. *)
Theorem training_resumes `{RandPermLaws} `{BatchLoaderLaws} {M G R : Type} (zero_grads : G)
    (backward : M → R → G → WorldBatch → G * R) (optimizer_step : M → G → M) args global_batch_size num_train_epochs max_train_steps
    (model0 : M) (rng0 : R) sessions :
  compute_training_schedule (world_size args) (dataset_size args) (local_batch_size args) global_batch_size num_train_epochs max_train_steps =
    Ok (schedule args) →
  0 < checkpointing_steps args →
  let gas := gradient_accumulation_steps (schedule args) in
  let max_steps := resolved_max_train_steps (schedule args) in
  let run := uninterrupted zero_grads backward optimizer_step args model0 rng0 in
  ∃ latest ended, run_sessions zero_grads backward optimizer_step args (fresh zero_grads model0 rng0) None sessions = Ok (latest, ended) ∧
    (∀ ck, latest = Some ck → ∃ g, g ≤ max_steps ∧ load_training_state zero_grads args ck = Ok (run (g * gas))) ∧
    (∀ ts, ended = Some ts → ts = run (max_steps * gas)) ∧
    (∀ l s, sessions = l ++ [s] → killed_after s = None → (∀ k, requested s k = false) → is_Some ended).
Proof.
  intros Hs Hc gas max_steps run. apply compute_training_schedule_ok in Hs as Hok. pose proof (sc_global _ _ _ _ _ Hok) as E. rewrite E in Hok.
  destruct (sessions_ok zero_grads backward optimizer_step args model0 rng0 Hok Hc sessions None) as (latest & ended & Hrun & Hl & Hend & Hno); [done|].
  exists latest, ended. split; [exact Hrun|]. split; [|done]. intros ck Hck. destruct (Hl ck Hck) as (g & Hg & ->). exists g. split; [done|].
  apply load_ok, Nat.Div0.mod_mul.
Qed.

(** A model that records the batches it was trained on. *)
#[local] Instance plain_perm : RandPerm := λ seed n, if Z.even seed then seq 0 n else reverse (seq 0 n).
#[local] Instance plain_perm_laws : RandPermLaws.
Proof. intros seed n. unfold randperm, plain_perm. destruct (Z.even seed); [done|]. apply reverse_Permutation. Qed.
#[local] Instance plain_loader : BatchLoader := λ k l, (λ i, take k (drop (i * k) l)) <$> seq 0 (length l / k).
#[local] Instance plain_loader_laws : BatchLoaderLaws.
Proof. intros k n l Hk Hl. unfold load_index_batches, plain_loader. by rewrite Hl, Nat.div_mul by lia. Qed.

Definition tiny_backward (m : list (list WorldBatch)) (r : nat) (g : list WorldBatch) (b : WorldBatch) : list WorldBatch * nat := (g ++ [b], S r).
Definition tiny_optimizer (m : list (list WorldBatch)) (g : list WorldBatch) : list (list WorldBatch) := m ++ [g].

(** Nine samples, two ranks, batches of one, two micro-steps per step, two epochs of two steps. *)
Definition tiny_args : TrainArgs := mkArgs 2 9 1 42 1 (mkSchedule 2 8 4 4 2 4 2).

(** Suspended at step 2, then killed after a checkpoint, then left alone. *)
Definition tiny_sessions : list Session :=
  [mkSession (λ k, k =? 2) None; mkSession (λ _, false) (Some 1); mkSession (λ _, false) None].

Lemma training_resumes_witness :
  ∃ latest, run_sessions [] tiny_backward tiny_optimizer tiny_args (fresh [] [] 0) None tiny_sessions =
    Ok (latest, Some (uninterrupted [] tiny_backward tiny_optimizer tiny_args [] 0 8)).
Proof.
  destruct (training_resumes [] tiny_backward tiny_optimizer tiny_args 4 2 None [] 0 tiny_sessions eq_refl (Nat.lt_0_succ 0))
    as (latest & ended & Hrun & _ & Hend & Hno).
  destruct (Hno [mkSession (λ k, k =? 2) None; mkSession (λ _, false) (Some 1)] (mkSession (λ _, false) None) eq_refl eq_refl (λ _, eq_refl)) as [ts Hts].
  exists latest. rewrite Hrun, Hts, (Hend ts Hts). reflexivity.
Defined.
